(* ===== verification/_CoqProject ===== *)
-Q . S2P
Prelude.v
Bytes.v
Addr.v
Crc32.v
RecordFormat.v
RecordCodec.v
Mapping.v
Budget.v
LogIface.v
IdAlloc.v
Batch.v
IndexIface.v
Coordinator.v
CoordinatorSched.v
CoordinatorSpec.v
TreeIface.v
Persistent.v
PersistentSpec.v
Replay.v
ReplaySpec.v
Recovery.v
CheckpointSpec.v
MapNode.v
MapSegment.v
Fs.v
FsDisk.v
NodeIface.v
MapStore.v
MapScan.v
MapStoreSpec.v
Rotation.v
RotationSpec.v
Catalog.v
CatalogSpec.v
CatalogRebase.v
CatalogCodec.v
CatalogFiles.v
CatalogStore.v
LogSegment.v
LogRotate.v
LogScan.v
LogRotation.v
LogRotationSpec.v
CatalogLog.v
LogRegistry.v
LogRegistrySpec.v
LogState.v
LogQueue.v
LogCrash.v
LogData.v
LogAcks.v
LogCompaction.v
LogCompactionSpec.v
SegmentStats.v
SegmentStatsSpec.v
Compaction.v
CompactionWorld.v
CompactionSteps.v
CompactionSpec.v
CompactionOutput.v
SpaceGate.v
GcCandidate.v
Scheduler.v
SchedulerSpec.v
SchedulerWaiters.v
SchedulerProgress.v
GcStability.v
Journals.v
CompactionState.v
MaintenanceWorkers.v
CompactionRecovery.v
Radix.v
RadixSpec.v
RadixBuild.v
RadixTree.v
RadixRebuild.v
PersistentSched.v
Drain.v
Stack.v
LogStack.v
