(* ===== verification/Prelude.v ===== *)
(** * A verification library for ridstore

    ridstore is an embedded record store: values live in an append-only record
    log, and a mapping from stable ids to log addresses is kept in memory as a
    delta over a checkpointed radix tree whose nodes live in a second append-only
    store.  Batches are committed in durability groups by one coordinator; a
    manifest with two slots names the files of both stores; recovery loads the
    checkpoint and replays the log behind it.

    The code is translated definition by definition: pure functions become
    functions, methods become state passing, a Go error is the list of the
    sentinels [errors.Is] finds in it, and fixed-width integers are values of [Z]
    with wrap-around written as [mod] and range predicates on the records.  All
    definitions are executable.

    ** Parts and files

    - Values and formats.  [Addr]: recordlog/types.go and model/mapaddr.go
      (addresses, references, log positions).  [Bytes], [Crc32]: little-endian
      fields and the Castagnoli checksum.  [RecordFormat]: recordlog/format.go.
      [RecordCodec]: recordcodec.  [MapNode]: mapstore/node.go.  [MapSegment]:
      mapstore/segment_format.go, rotation.go, catalog.go (formats).
      [CatalogCodec]: storecatalog/codec.go (container and items).
    - Committing.  [Mapping], [Budget]: mapping/mapping.go and budget.go.
      [IdAlloc]: idalloc.  [Batch]: transaction.  [Coordinator]: coordinator
      (admission, group formation, processing, completion); [CoordinatorSched]
      and [CoordinatorSpec] hold its theorems.  [LogIface] states what these
      parts rely on from the record log (class [AppendLog]), [IndexIface] what
      the coordinator relies on from its mapping (class [Index]) and what recovery
      relies on from its delta budget (class [IndexRoom]); both mappings satisfy
      them, the in-memory one without a budget.
    - Recovery.  [Replay]: replay and the part of engine/open.go that calls it,
      with the logs that the producers may write; [ReplaySpec] and [Recovery] hold
      the theorems.
    - Checkpointed mapping.  [TreeIface] is the contract of an immutable tree
      (classes [TreeStore], [TreeLaws]).  [Persistent]: mapping/persistent.go over
      that contract; [PersistentSpec], [CheckpointSpec], [PersistentSched] its
      theorems.
    - Radix tree.  [NodeIface] is the contract of a node store ([NodeStore],
      [NodeStoreLaws]).  [Radix]: radix/tree.go, builder.go, rebuild.go over that
      contract; [RadixSpec], [RadixBuild], [RadixTree], [RadixRebuild] prove it,
      and instance [Radix_laws] discharges [TreeLaws].
    - Mapping store.  [Fs]: files, names and a small I/O monad with faults;
      [FsDisk]: its program logic, with a stop at any call.  [MapStore]:
      mapstore/store.go, rotation.go, rotation_lifecycle.go over a catalog contract
      ([CatalogPort], [CatalogLaws]); [MapScan], [MapStoreSpec] prove it and instance
      [MapStore_laws] discharges [NodeStoreLaws].  [Rotation], [RotationSpec]:
      crash safety of the rotation.
    - Catalog.  [Catalog]: storecatalog/types.go, the validation of codec.go and
      the transitions of catalog.go, with recordlog/catalog.go; [CatalogSpec] and
      [CatalogRebase] their theorems.  [CatalogFiles]: install.go and the manager
      over its directory; instance [Manager_laws] of [CatalogStore] discharges
      [CatalogLaws], so that the contracts from the manifest files up to the
      checkpointed mapping are all met by modelled code.  [Stack] runs the layers
      together on a small store.
    - Record log.  [LogSegment], [LogRotate], [LogScan]: recordlog/segment.go,
      rotation_journal.go and open.go; [LogRotation], [LogRotationSpec],
      [LogCrash]: their theorems, with [CatalogLog] the record log's side of the
      manifest.  [LogRegistry], [LogRegistrySpec]: recordlog/registry.go on a
      heap of shared entries.  [LogState], [LogQueue], [LogData],
      [LogAcks]: log.go, writer.go and budget.go, the single writer
      with its queue and the readers beside it.  [LogCompaction],
      [LogCompactionSpec]: compaction.go and retire.go.  [LogStack] runs the log
      on files.
    - Statistics.  [SegmentStats], [SegmentStatsSpec]: segmentstats, the
      statistics of a checkpoint and the comparison of the verifier.
    - Compaction of the engine.  [Compaction]: engine/relocation.go, operation by
      operation; [CompactionWorld], [CompactionSteps]: the same operations
      interleaved with clients and the coordinator; [CompactionSpec],
      [CompactionOutput]: theorems and runs.  [GcCandidate],
      [GcStability]: which segments are compacted (gc_candidate.go,
      gc_stability.go).  [SpaceGate]: space.go and gc_budget.go.
    - Maintenance journals.  [Journals]: maintstate and mapgcstate;
      [CompactionState]: compactionstate with its JSON text; [CompactionRecovery]:
      what opening a store does with the state of an interrupted compaction.
    - Scheduling of maintenance.  [Scheduler]: engine/maintenance_scheduler.go, a
      function per case of the actor and the interleavings as a step relation, over
      any type of workers; [SchedulerSpec], [SchedulerWaiters], [SchedulerProgress]:
      its invariants, with class [LawfulWorkers] the promise of the workers.
      [MaintenanceWorkers]: engine/maintenance_workers.go and the checkpoint cycle
      of background_checkpoint.go, whose instance [store_workers_lawful] discharges
      that promise, and the theorems on both together.
    - Draining.  [Drain]: the reader count of a replaced root
      (mapping/persistent.go) and the shutdown of the store
      (engine/lifecycle.go), as step relations over all interleavings.

    ** What the theorems show

    - A group commits as a serial execution of its proposals or changes nothing;
      sequence numbers, statistics and budget are exact ([CoordinatorSpec],
      [Mapping], [PersistentSpec], [Budget]), and the optimistic resolution of the
      persistent mapping is linearizable ([PersistentSched]).
    - Recovery of any log the producers may write rebuilds exactly the published
      state when its groups fit the delta budget of the mapping it opens, and
      otherwise fails with the configuration error after the part that fits
      ([ReplaySpec]); what a store admitted under a limit it can replay under that
      limit, and a crash before or after the group record gives the
      state before or after the group ([Recovery]); ids are never
      handed out twice across crashes ([IdAlloc]).
    - A checkpoint is invisible to readers and its tree is exactly the state at
      the freeze ([CheckpointSpec]); the radix builders apply exactly their
      mutations and never disturb an older tree ([RadixTree], [RadixRebuild]); the
      node store is append-only under any fault ([MapStoreSpec]).
    - Rotation of the mapping and installation of a manifest are atomic under a
      stop at any call, also when the recovery is stopped again ([RotationSpec],
      [CatalogFiles]).
    - Catalog transitions keep the manifest servable and only move it forward;
      only segments without live records are dropped, which are behind the replay
      start or outputs of compactions; reserved ids are fresh; it is shown what a
      manifest that validates gives to the two stores ([CatalogSpec]).
    - Every format reads back, and damage to a single byte of a record or of a
      manifest is detected ([RecordFormat], [RecordCodec], [MapNode],
      [CatalogCodec]).
    - The record log answers every append, keeps its byte budget exact
      ([LogQueue]), and what it acknowledged stays readable through rotations and
      stops ([LogAcks], [LogCrash]); a pinned segment is not removed, a waiter is
      woken ([LogRegistrySpec]); a retired file is gone or still served
      ([LogCompactionSpec]).
    - A compaction never changes what a reader or an open batch sees, in any
      interleaving with commits; the answer to the question whether an input may be
      retired has its reason, for a checkpoint of before or after the end of the
      compaction ([CompactionSpec]); a compaction stopped at any durable step is rolled
      back or completed by the next opening ([CompactionRecovery]); a journal file
      holds the old state or the new one ([Journals], [CompactionState]).
    - The chosen run of segments is the best eligible one ([GcCandidate]), the
      stability of a segment is a function of its recent observations
      ([GcStability]), and maintenance never eats the reserve of free space
      ([SpaceGate]).
    - Maintenance jobs never share a resource, their callers are answered exactly
      once, and the scheduler does not stall ([MaintenanceWorkers]).
    - State machines: batches ([Batch]), group formation ([CoordinatorSched]),
      draining ([Drain]).

    Some theorems show what the code does where that differs from what it means
    to do: [drained_with_reader] (a drain channel closed under an active reader),
    [first_rotation_conflicts] (a checkpoint refused after the first rotation of a
    new store), [tick_discards_compaction] and [cancelled_compaction_dropped] (a
    timer or a cancellation that makes the scheduler forget the work of a
    compaction between its phases), the part of [retirement_decided] on failed
    batches (their references delay a retirement), [manifest_serves_stores] (a
    manifest validates although the mapping store refuses it) and
    [output_dropped_ahead] (an output is dropped although the replay start is before
    it).

    ** Bounds and fuel

    Recursion that is not structural carries fuel with a proof that it is enough:
    the push of the radix builder has 8, one per level, and what it answers without
    fuel is never seen ([push_terminates]); the
    scan of a segment has the length of the file, of which every node takes at
    least 64 bytes; the item loop of a manifest has the length of its payload; the
    catalog handshake of a rotation tries 16 times as the code does; the reader of
    a JSON journal has two steps per byte, and its integers have at most 20
    digits, as 64 bits have.  The dispatch loop of the scheduler has the length of
    its queue, from which every turn takes a job.  Loops that retry until the state
    is quiet take the observed states as a list.  The theorems on the scheduler hold
    for fewer than 2^31 steps ([within]): the id of a waiter has 32 bits for its job
    and 32 for its number.

    ** The model of faults

    A file call may fail, and then its effect is chosen by the fault: a write is
    cut at any byte, a rename, a removal or an install has taken effect or not.
    A stopped process leaves its files; the next one starts from them.  Reads do
    not fail, and data that was written is not lost when the process stops:
    syncing is a step that may fail but adds nothing to the files.

    ** Not modelled

    Goroutines, channels, locks and contexts appear as atomic steps or as
    explicit schedules; the body of the shutdown (stopping the workers, aborting the
    batches and closing the parts, each modelled where it belongs) is one step of
    [Drain], which is about the admission and the count of operations around it; time and metrics not at all, except where a rate or a
    pace is computed from given instants.  Of the engine, the store facade, the
    work inside the rewrite of the mapping into a second generation of files, and
    the relocation that copies to the active segment are not modelled (for the
    workers their results are arguments); neither is the node cache of the radix tree, nor the
    offline scan of a closed log.  Backup, migration, bootstrap, the command-line
    tools, metrics export and the soak driver are I/O around these parts. *)
From stdpp Require Export base list gmap sets numbers option sorting.
From Stdlib Require Export ZArith Lia.

#[global] Open Scope Z_scope.

(** ** Machine integers

    Go's fixed-width unsigned integers are values of [Z]; every record that
    stores one comes with a range predicate, and arithmetic that can wrap is
    written with an explicit [mod]. *)

Abbreviation MaxUint32 := 4294967295 (only parsing).
Abbreviation MaxUint64 := 18446744073709551615 (only parsing).
Abbreviation two32 := 4294967296 (only parsing).
Abbreviation two64 := 18446744073709551616 (only parsing).

Definition is_u8 (x : Z) : Prop := 0 <= x < 256.
Definition is_u16 (x : Z) : Prop := 0 <= x < 65536.
Definition is_u32 (x : Z) : Prop := 0 <= x < two32.
Definition is_u64 (x : Z) : Prop := 0 <= x < two64.

(** The length of a Go slice, as the [uint64(len(x))] of the source. *)
Definition len {A} (l : list A) : Z := Z.of_nat (length l).

Lemma len_nonneg {A} (l : list A) : 0 <= len l.
Proof. unfold len; lia. Qed.

Lemma len_nil {A} : len (@nil A) = 0.
Proof. reflexivity. Qed.

Lemma len_cons {A} (x : A) l : len (x :: l) = 1 + len l.
Proof. unfold len; cbn [length]; lia. Qed.

Lemma len_app {A} (l k : list A) : len (l ++ k) = len l + len k.
Proof. unfold len; rewrite length_app; lia. Qed.

Lemma len_map {A B} (f : A -> B) l : len (map f l) = len l.
Proof. unfold len; rewrite length_map; reflexivity. Qed.

Lemma len_zero_nil {A} (l : list A) : len l = 0 -> l = [].
Proof. destruct l; [done|]; rewrite len_cons; pose proof (len_nonneg l); lia. Qed.

(** ** Errors

    The sentinel errors of the packages that are modelled.  A Go error value
    is the list of the sentinels [errors.Is] finds in it: wrapping with
    [fmt.Errorf("...: %w", e)] keeps the list and [errors.Join] concatenates. *)

Inductive sentinel :=
(* internal/base *)
| base_ErrInvalidID | base_ErrInvalidConfig | base_ErrClosed | base_ErrReadOnly
| base_ErrBatchClosed | base_ErrBatchFailed | base_ErrBatchTooLarge
| base_ErrValueTooLarge | base_ErrConflict | base_ErrIDExhausted
| base_ErrGenerationExhausted | base_ErrCommitUnknown | base_ErrStatusCapacity
| base_ErrCorrupt | base_ErrInvalidAddress | base_ErrOverflow
| base_ErrRecoveryRequired | base_ErrInsufficientSpace | base_ErrUnsupported
| base_ErrNotFound | base_ErrStatusExpired
(* internal/model *)
| model_ErrInvalidMapAddr
(* internal/recordlog *)
| recordlog_ErrInvalidConfig | recordlog_ErrInvalidVAddr | recordlog_ErrInvalidLogPos
| recordlog_ErrPayloadTooBig | recordlog_ErrCorrupt | recordlog_ErrUnsupported
| recordlog_ErrClosed | recordlog_ErrPoisoned | recordlog_ErrSegmentMissing
| recordlog_ErrSegmentRetiring | recordlog_ErrReadersActive | recordlog_ErrRecoveryRequired
(* internal/recordcodec *)
| recordcodec_ErrInvalid | recordcodec_ErrTooLarge | recordcodec_ErrCorrupt
| recordcodec_ErrUnsupported
(* internal/mapping *)
| mapping_ErrInvalid | mapping_ErrCorrupt | mapping_ErrBudget | mapping_ErrStalePlan
(* internal/mapstore and internal/radix *)
| mapstore_ErrInvalid | mapstore_ErrCorrupt | mapstore_ErrUnsupported
| mapstore_ErrFull | mapstore_ErrClosed | mapstore_ErrPoisoned | mapstore_ErrRecoveryRequired
| radix_ErrInvalid | radix_ErrCorrupt
(* internal/storecatalog and the maintenance journals *)
| storecatalog_ErrInvalid | storecatalog_ErrCorrupt | storecatalog_ErrUnsupported
| storecatalog_ErrConflict | storecatalog_ErrRecoveryRequired
| compactionstate_ErrInvalid | compactionstate_ErrCorrupt
| maintstate_ErrInvalid | maintstate_ErrCorrupt | maintstate_ErrActive
| mapgcstate_ErrInvalid | mapgcstate_ErrCorrupt | mapgcstate_ErrActive
(* internal/engine *)
| engine_errCheckpointStatsStale | engine_checkpointDependencyError
(* context cancellation, and the errors of the operating system *)
| context_Canceled | io_Error | io_EOF | os_ErrNotExist | os_ErrExist.

#[export] Instance sentinel_eq_dec : EqDecision sentinel.
Proof. solve_decision. Defined.

Abbreviation goerror := (list sentinel).

(** [(T, error)] results. *)
Inductive res (A : Type) :=
| Ok (a : A)
| Err (e : goerror).
Arguments Ok {A} _.
Arguments Err {A} _.

#[export] Instance res_eq_dec {A} `{EqDecision A} : EqDecision (res A).
Proof. solve_decision. Defined.

Declare Scope go_scope.
Delimit Scope go_scope with go.
Open Scope go_scope.

(** [x, err := c; if err != nil { return err }; k] *)
Notation "'let!' x ':=' c 'in' k" :=
  (match c with Ok x => k | Err e => Err e end)
  (at level 10, x pattern, c at level 100, k at level 200) : go_scope.

(** [if b { return e }; k] *)
Notation "'raise' e 'when' b ';;' k" :=
  (if b then Err e else k)
  (at level 10, e at level 9, b at level 99, k at level 200) : go_scope.

Definition is_ok {A} (r : res A) : bool := match r with Ok _ => true | Err _ => false end.
Definition err_of {A} (r : res A) : goerror := match r with Ok _ => [] | Err e => e end.

Lemma Ok_inj {A} (a b : A) : Ok a = Ok b -> a = b.
Proof. congruence. Qed.

Lemma Err_inj {A} e f : @Err A e = Err f -> e = f.
Proof. congruence. Qed.

Lemma is_ok_true {A} (r : res A) : is_ok r = true -> exists a, r = Ok a.
Proof. destruct r; [eauto | discriminate]. Qed.

(** ** Proof automation *)

(** Turn the boolean tests of the code into propositions. *)
Ltac bool_norm :=
  repeat match goal with
  | H : _ || _ = false |- _ => apply orb_false_iff in H as [? ?]
  | H : _ && _ = true |- _ => apply andb_true_iff in H as [? ?]
  | H : negb _ = true |- _ => apply negb_true_iff in H
  | H : negb _ = false |- _ => apply negb_false_iff in H
  | H : (_ =? _) = true |- _ => apply Z.eqb_eq in H
  | H : (_ =? _) = false |- _ => apply Z.eqb_neq in H
  | H : (_ <=? _) = true |- _ => apply Z.leb_le in H
  | H : (_ <=? _) = false |- _ => apply Z.leb_gt in H
  | H : (_ <? _) = true |- _ => apply Z.ltb_lt in H
  | H : (_ <? _) = false |- _ => apply Z.ltb_ge in H
  | H : bool_decide _ = true |- _ => apply bool_decide_eq_true in H
  | H : bool_decide _ = false |- _ => apply bool_decide_eq_false in H
  end.

(** Invert a successful result: every [raise] guard was false and every [let!]
    bound an [Ok]. *)
Ltac inv_ok H :=
  repeat match type of H with
  | (if ?b then Err _ else _) = Ok _ =>
      let E := fresh "Hguard" in destruct b eqn:E; [discriminate H|]
  | (match ?c with Ok _ => _ | Err _ => Err _ end) = Ok _ =>
      let E := fresh "Hcall" in destruct c eqn:E; [|discriminate H]
  end.

(** Discharge a guard of the goal that is known to be false. *)
Ltac pass_guard :=
  match goal with
  | |- context [if ?b then Err _ else _] =>
      let E := fresh "Hg" in
      destruct b eqn:E; [exfalso | clear E]
  end.

(** A disjunction of guards none of which can hold. *)
Ltac guard_absurd H :=
  repeat match type of H with
  | _ || _ = true => apply orb_true_iff in H as [H|H]
  end;
  bool_norm; solve [discriminate | lia | congruence].

(** Pass a guard of the goal by arithmetic. *)
Ltac pass :=
  match goal with
  | |- context [if ?b then Err _ else _] =>
      let E := fresh "Hg" in destruct b eqn:E; [exfalso; guard_absurd E | clear E]
  end.

(** [lia] with division and remainder by constants. *)
Ltac dlia := Z.to_euclidean_division_equations; lia.

(** Evaluate the comparisons and shifts of the goal whose operands are closed. *)
Ltac ground_eval t := let c := eval vm_compute in t in change t with c.
Ltac ground :=
  repeat match goal with
  | |- context [?a <? ?b] => ground_eval (a <? b); cbv iota
  | |- context [?a =? ?b] => ground_eval (a =? b); cbv iota
  | |- context [2 ^ (Zpos ?n)] => ground_eval (2 ^ (Zpos n))
  | |- context [2 ^ 0] => ground_eval (2 ^ 0)
  | |- context [(Z.shiftl ?a ?n) mod ?b] => ground_eval ((Z.shiftl a n) mod b)
  end;
  rewrite ?orb_false_r, ?orb_true_r, ?orb_false_l.

(** Range side conditions of concrete records. *)
Ltac solve_u :=
  unfold is_u8, is_u16, is_u32, is_u64;
  repeat first
    [ lia
    | match goal with
      | |- Forall _ [] => constructor
      | |- Forall _ (_ :: _) => apply Forall_cons_iff; split
      | |- _ /\ _ => split
      end
    | match goal with
      | |- _ <= _ => solve [vm_compute; congruence]
      | |- _ < _ => solve [vm_compute; congruence]
      end
    | progress cbn ].

(** Case analysis on the outermost [if] of the goal. *)
Ltac case_if :=
  match goal with
  | |- context [if ?b then _ else _] =>
      let E := fresh "Hif" in destruct b eqn:E
  end.

(** ** Bit operations as arithmetic *)

Lemma lor_disjoint a b : Z.land a b = 0 -> Z.lor a b = a + b.
Proof. intros H. rewrite <- Z.lxor_lor by done. symmetry. now apply Z.add_nocarry_lxor. Qed.

Lemma land_shiftl_low a n b : 0 <= n -> 0 <= b < 2 ^ n -> Z.land (Z.shiftl a n) b = 0.
Proof.
  intros Hn Hb. apply Z.bits_inj'. intros i Hi.
  rewrite Z.land_spec, Z.shiftl_spec, Z.bits_0 by lia.
  destruct (Z.lt_ge_cases i n) as [H|H].
  - rewrite Z.testbit_neg_r by lia. reflexivity.
  - rewrite <- (Z.mod_small b (2 ^ n)) by lia.
    rewrite Z.mod_pow2_bits_high by lia.
    apply andb_false_r.
Qed.

(** [a << n | b] for [b] below [1 << n]. *)
Lemma lor_shiftl a n b : 0 <= n -> 0 <= b < 2 ^ n -> Z.lor (Z.shiftl a n) b = a * 2 ^ n + b.
Proof.
  intros Hn Hb. rewrite lor_disjoint by (now apply land_shiftl_low).
  now rewrite Z.shiftl_mul_pow2.
Qed.

(** [x & 7], [x &^ 7] and [x >> n]. *)
Lemma land_7 x : Z.land x 7 = x mod 8.
Proof. change 7 with (Z.ones 3). now rewrite Z.land_ones. Qed.

Lemma ldiff_7 x : Z.ldiff x 7 = x - x mod 8.
Proof.
  change 7 with (Z.ones 3). rewrite Z.ldiff_ones_r by lia.
  rewrite Z.shiftl_mul_pow2, Z.shiftr_div_pow2 by lia. change (2 ^ 3) with 8. dlia.
Qed.

Lemma lor_aligned a b : a mod 8 = 0 -> 0 <= b < 8 -> Z.lor a b = a + b.
Proof.
  intros Ha Hb. replace a with (Z.shiftl (a / 8) 3) at 1 by (rewrite Z.shiftl_mul_pow2 by lia; dlia).
  rewrite lor_shiftl by lia. dlia.
Qed.

Lemma shiftr_32 x : Z.shiftr x 32 = x / two32.
Proof. now rewrite Z.shiftr_div_pow2. Qed.

(** ** Lists with distinct keys *)

Lemma sorted_lt_NoDup (l : list Z) : StronglySorted Z.lt l -> NoDup l.
Proof.
  induction 1 as [|x xs Hs IH Hx]; constructor; [|exact IH].
  intros Hin. rewrite Forall_forall in Hx. specialize (Hx _ Hin). lia.
Qed.

Lemma NoDup_map_inj {A B} (f : A -> B) l x y : NoDup (map f l) -> x ∈ l -> y ∈ l -> f x = f y -> x = y.
Proof.
  induction l as [|z l IH]; intros Hn Hx Hy E; [inversion Hx|]. cbn in Hn. inversion Hn as [|? ? Hz Hn']; subst.
  assert (Hin : forall w, w ∈ l -> f w <> f z) by (intros w Hw Ew; apply Hz; rewrite <- Ew; apply list_elem_of_In, in_map, list_elem_of_In, Hw).
  apply elem_of_cons in Hx as [->|Hx]; apply elem_of_cons in Hy as [->|Hy]; auto; exfalso; eapply Hin; eauto.
Qed.
