(* ===== verification/Bytes.v ===== *)
(** * Byte buffers

    [[]byte] is [list Z] with every element below 256 ([bytes_ok]).  This file
    models the slices and the [encoding/binary.LittleEndian] accessors of the
    on-disk formats: [put_le] writes a fixed-width field, [u16]/[u32]/[u64] read
    one at a byte offset.  A record header is the concatenation of its fields in
    offset order (the source writes them into a zeroed buffer), so the lemmas of
    this file compute a read at a constant offset of such a concatenation. *)
From S2P Require Import Prelude.

Definition bytes_ok (bs : list Z) : Prop := Forall is_u8 bs.

(** [src[lo:hi]] *)
Definition slice (lo hi : nat) (src : list Z) : list Z := take (hi - lo) (drop lo src).

(** [src[i]]; every use in the formats is behind a length check. *)
Definition byte_at (i : nat) (src : list Z) : Z := nth i src 0.

(** ** Little-endian fields *)

Fixpoint put_le (n : nat) (v : Z) : list Z :=
  match n with
  | O => []
  | S n => v mod 256 :: put_le n (v / 256)
  end.

Fixpoint get_le (bs : list Z) : Z :=
  match bs with
  | [] => 0
  | b :: rest => b + 256 * get_le rest
  end.

Definition u16 (off : nat) (src : list Z) : Z := get_le (slice off (off + 2) src).
Definition u32 (off : nat) (src : list Z) : Z := get_le (slice off (off + 4) src).
Definition u64 (off : nat) (src : list Z) : Z := get_le (slice off (off + 8) src).

(** [for _, value := range src { if value != 0 { return false } }] *)
Definition all_zero (src : list Z) : bool := forallb (fun b => b =? 0) src.

Definition zeros (n : nat) : list Z := replicate n 0.

Lemma length_put_le n v : length (put_le n v) = n.
Proof. revert v; induction n; intros; cbn [put_le length]; auto. Qed.

Lemma put_le_bytes n v : bytes_ok (put_le n v).
Proof.
  revert v; induction n as [|n IH]; intros v; constructor; [|apply IH].
  unfold is_u8; pose proof (Z.mod_pos_bound v 256); lia.
Qed.

Lemma get_put_le n v : get_le (put_le n v) = v mod 2 ^ (8 * Z.of_nat n).
Proof.
  revert v; induction n as [|n IH]; intros v; cbn [put_le get_le].
  - now rewrite Z.mod_1_r.
  - rewrite IH.
    replace (8 * Z.of_nat (S n)) with (8 + 8 * Z.of_nat n) by lia.
    rewrite Z.pow_add_r by lia. change (2 ^ 8) with 256.
    rewrite Z.rem_mul_r by lia. lia.
Qed.

Lemma get_le_range bs : bytes_ok bs -> 0 <= get_le bs < 2 ^ (8 * Z.of_nat (length bs)).
Proof.
  induction 1 as [|b bs Hb Hbs IH]; cbn [get_le length].
  - cbn; lia.
  - replace (8 * Z.of_nat (S (length bs))) with (8 + 8 * Z.of_nat (length bs)) by lia.
    rewrite Z.pow_add_r by lia. change (2 ^ 8) with 256. unfold is_u8 in Hb. nia.
Qed.

Lemma put_get_le bs : bytes_ok bs -> put_le (length bs) (get_le bs) = bs.
Proof.
  induction 1 as [|b bs Hb Hbs IH]; cbn [get_le length put_le]; [done|].
  unfold is_u8 in Hb.
  assert (Hm : (b + 256 * get_le bs) mod 256 = b).
  { rewrite Z.mul_comm, Z.mod_add by lia. apply Z.mod_small; lia. }
  assert (Hd : (b + 256 * get_le bs) / 256 = get_le bs).
  { rewrite Z.mul_comm, Z.div_add by lia. rewrite Z.div_small; lia. }
  rewrite Hm, Hd, IH. reflexivity.
Qed.

Lemma get_put_16 v : is_u16 v -> get_le (put_le 2 v) = v.
Proof. intros; rewrite get_put_le; apply Z.mod_small; unfold is_u16 in *; cbn; lia. Qed.
Lemma get_put_32 v : is_u32 v -> get_le (put_le 4 v) = v.
Proof. intros; rewrite get_put_le; apply Z.mod_small; unfold is_u32 in *; cbn; lia. Qed.
Lemma get_put_64 v : is_u64 v -> get_le (put_le 8 v) = v.
Proof. intros; rewrite get_put_le; apply Z.mod_small; unfold is_u64 in *; cbn; lia. Qed.

Arguments put_le : simpl never.
Arguments get_le : simpl never.
Arguments zeros : simpl never.
Arguments slice : simpl never.
Arguments byte_at : simpl never.

(** ** Reading fields of a concatenation

    [HasLen f n] is resolved by instance search, so that a read at a constant
    offset of [f1 ++ f2 ++ ...] skips the fields before it by computation. *)

Class HasLen (l : list Z) (n : nat) := has_len : length l = n.

#[export] Instance HasLen_put_le n v : HasLen (put_le n v) n.
Proof. apply length_put_le. Qed.
#[export] Instance HasLen_zeros n : HasLen (zeros n) n.
Proof. apply length_replicate. Qed.
#[export] Instance HasLen_nil : HasLen [] 0.
Proof. reflexivity. Qed.
#[export] Instance HasLen_cons x l n : HasLen l n -> HasLen (x :: l) (S n).
Proof. unfold HasLen; cbn; congruence. Qed.
#[export] Instance HasLen_app l k n m : HasLen l n -> HasLen k m -> HasLen (l ++ k) (n + m).
Proof. unfold HasLen; intros; rewrite length_app; congruence. Qed.
#[export] Hint Mode HasLen ! - : typeclass_instances.

Lemma HasLen_len l n : HasLen l n -> len l = Z.of_nat n.
Proof. unfold HasLen, len; intros ->; reflexivity. Qed.

Lemma len_put_le n v : len (put_le n v) = Z.of_nat n.
Proof. apply HasLen_len, _. Qed.

Lemma len_zeros n : len (zeros n) = Z.of_nat n.
Proof. apply HasLen_len, _. Qed.

Create Rewrite HintDb lens.
#[export] Hint Rewrite @len_app @len_nil @len_cons @len_map len_put_le len_zeros : lens.

Lemma slice_skip a n b lo hi :
  HasLen a n -> (n <=? lo)%nat = true -> slice lo hi (a ++ b) = slice (lo - n) (hi - n) b.
Proof.
  unfold HasLen, slice; intros <- Hle%Nat.leb_le.
  rewrite drop_app_ge by lia. f_equal. lia.
Qed.

Lemma slice_here a n b hi :
  HasLen a n -> (hi =? n)%nat = true -> slice 0 hi (a ++ b) = a.
Proof.
  unfold HasLen, slice; intros <- ->%Nat.eqb_eq.
  rewrite drop_0, Nat.sub_0_r. apply take_app_length.
Qed.

Lemma slice_here_end a n hi :
  HasLen a n -> (hi =? n)%nat = true -> slice 0 hi a = a.
Proof.
  unfold HasLen, slice; intros <- ->%Nat.eqb_eq.
  rewrite drop_0, Nat.sub_0_r. apply take_ge. lia.
Qed.

(** A slice that covers a first field and part of what follows. *)
Lemma slice_split a n b hi :
  HasLen a n -> (n <=? hi)%nat = true -> slice 0 hi (a ++ b) = a ++ slice 0 (hi - n) b.
Proof.
  unfold HasLen, slice; intros <- Hle%Nat.leb_le.
  rewrite !drop_0, !Nat.sub_0_r, take_app_ge by lia. reflexivity.
Qed.

Lemma byte_skip a n b i :
  HasLen a n -> (n <=? i)%nat = true -> byte_at i (a ++ b) = byte_at (i - n) b.
Proof.
  unfold HasLen, byte_at; intros <- Hle%Nat.leb_le. now rewrite app_nth2 by lia.
Qed.

Lemma drop_skip a n b i :
  HasLen a n -> (n <=? i)%nat = true -> drop i (a ++ b) = drop (i - n) b.
Proof. unfold HasLen; intros <- Hle%Nat.leb_le. now rewrite drop_app_ge by lia. Qed.

(** Compute the reads of a goal over an encoded record. *)
Ltac field_side := first [solve [typeclasses eauto] | reflexivity].
Ltac field_step :=
  match goal with
  | |- context [slice 0 ?hi (?a ++ ?b)] => erewrite (slice_here a _ b hi) by field_side
  | |- context [slice ?lo ?hi (?a ++ ?b)] =>
      erewrite (slice_skip a _ b lo hi) by field_side; cbn [Nat.sub Nat.add]
  | |- context [slice 0 ?hi ?a] => erewrite (slice_here_end a _ hi) by field_side
  | |- context [byte_at ?i (?a ++ ?b)] =>
      erewrite (byte_skip a _ b i) by field_side; cbn [Nat.sub Nat.add]
  end.
Ltac fields := unfold u16, u32, u64; cbn [Nat.add]; repeat field_step.

Lemma all_zero_zeros n : all_zero (zeros n) = true.
Proof. induction n; cbn; auto. Qed.

Lemma all_zero_spec bs : all_zero bs = true -> bs = zeros (length bs).
Proof.
  induction bs as [|b bs IH]; cbn; [done|].
  intros [->%Z.eqb_eq Hr]%andb_true_iff.
  change (zeros (S (length bs))) with (0 :: zeros (length bs)). f_equal. auto.
Qed.

Lemma bytes_ok_app a b : bytes_ok (a ++ b) <-> bytes_ok a /\ bytes_ok b.
Proof. apply Forall_app. Qed.

Lemma bytes_ok_cons x b : bytes_ok (x :: b) <-> is_u8 x /\ bytes_ok b.
Proof. apply Forall_cons_iff. Qed.

Lemma bytes_ok_zeros n : bytes_ok (zeros n).
Proof. apply Forall_replicate. unfold is_u8; lia. Qed.

Lemma bytes_ok_slice lo hi bs : bytes_ok bs -> bytes_ok (slice lo hi bs).
Proof. intros H. apply Forall_take, Forall_drop, H. Qed.

Lemma length_slice lo hi bs : (hi <= length bs)%nat -> length (slice lo hi bs) = (hi - lo)%nat.
Proof. intros. unfold slice. rewrite length_take, length_drop. lia. Qed.

Lemma byte_at_ok i bs : bytes_ok bs -> is_u8 (byte_at i bs).
Proof.
  intros H. unfold byte_at. rewrite nth_lookup.
  destruct (bs !! i) eqn:E; [eapply Forall_lookup_1; eauto | unfold is_u8; cbn; lia].
Qed.

(** ** Rebuilding a buffer from its fields *)

Lemma slice_cat a b c src :
  (a <= b)%nat -> (b <= c)%nat -> slice a b src ++ slice b c src = slice a c src.
Proof.
  intros Hab Hbc. unfold slice.
  replace (drop b src) with (drop (b - a) (drop a src)) by (rewrite drop_drop; f_equal; lia).
  replace (c - a)%nat with ((b - a) + (c - b))%nat by lia.
  generalize (drop a src) as l. generalize (b - a)%nat, (c - b)%nat. intros n m l.
  rewrite <- (take_drop n (take (n + m) l)). rewrite take_take, Nat.min_l by lia.
  f_equal. rewrite skipn_firstn_comm. f_equal. lia.
Qed.

Lemma slice_full src : slice 0 (length src) src = src.
Proof. unfold slice. rewrite drop_0, Nat.sub_0_r. apply firstn_all. Qed.

Lemma slice_drop n src : slice n (length src) src = drop n src.
Proof.
  unfold slice. destruct (Nat.le_gt_cases n (length src)).
  - replace (length src - n)%nat with (length (drop n src)) by (rewrite length_drop; lia).
    apply firstn_all.
  - rewrite drop_ge by lia. apply take_nil.
Qed.

Lemma slice_byte i src : (i < length src)%nat -> slice i (S i) src = [byte_at i src].
Proof.
  intros H. unfold slice, byte_at. replace (S i - i)%nat with 1%nat by lia.
  destruct (lookup_lt_is_Some_2 src i H) as [x Hx].
  rewrite (drop_S _ _ _ Hx). cbn. rewrite nth_lookup, Hx. reflexivity.
Qed.

(** A field that was read is the field that would be written. *)
Lemma put_slice lo hi src :
  bytes_ok src -> (hi <= length src)%nat ->
  put_le (hi - lo) (get_le (slice lo hi src)) = slice lo hi src.
Proof.
  intros Hb Hl. rewrite <- (length_slice lo hi src Hl).
  apply put_get_le, bytes_ok_slice, Hb.
Qed.

Lemma slice_range lo hi src :
  bytes_ok src -> (hi <= length src)%nat ->
  0 <= get_le (slice lo hi src) < 2 ^ (8 * Z.of_nat (hi - lo)).
Proof.
  intros Hb Hl. rewrite <- (length_slice lo hi src Hl).
  apply get_le_range, bytes_ok_slice, Hb.
Qed.

Lemma u32_ok off src : bytes_ok src -> (off + 4 <= length src)%nat -> is_u32 (u32 off src).
Proof.
  intros Hb Hl. pose proof (slice_range off (off + 4) src Hb Hl) as H.
  replace (off + 4 - off)%nat with 4%nat in H by lia. exact H.
Qed.

Lemma u64_ok off src : bytes_ok src -> (off + 8 <= length src)%nat -> is_u64 (u64 off src).
Proof.
  intros Hb Hl. pose proof (slice_range off (off + 8) src Hb Hl) as H.
  replace (off + 8 - off)%nat with 8%nat in H by lia. exact H.
Qed.

Ltac solve_bytes :=
  repeat first
    [ assumption
    | apply put_le_bytes
    | apply bytes_ok_zeros
    | apply bytes_ok_app; split
    | apply bytes_ok_cons; split
    | apply Forall_nil_2
    | progress unfold is_u8
    | lia ].

(** ** Magic numbers *)

(** [string(src[:n]) == string(magic)] *)
Definition magic_is (magic src : list Z) : bool := bool_decide (slice 0 (length magic) src = magic).

Lemma magic_is_app magic rest : magic_is magic (magic ++ rest) = true.
Proof.
  apply bool_decide_eq_true. apply (slice_here magic (length magic)); [reflexivity|].
  apply Nat.eqb_refl.
Qed.

Lemma len_eq_iff {A} (l : list A) n : len l = Z.of_nat n <-> length l = n.
Proof. unfold len. lia. Qed.

(** ** Damage to a single byte *)

Definition damaged (src src' : list Z) : Prop :=
  exists a x y b, src = a ++ x :: b /\ src' = a ++ y :: b /\ x <> y.

Lemma damaged_length src src' : damaged src src' -> length src = length src'.
Proof. intros (a & x & y & b & -> & -> & _). now rewrite !length_app. Qed.

Lemma damaged_neq src src' : damaged src src' -> src <> src'.
Proof. intros (a & x & y & b & -> & -> & Hne) E. apply app_inv_head in E. congruence. Qed.

(** Damage lies in exactly one of two adjacent fields. *)
Lemma damaged_app a a' b b' :
  length a = length a' -> damaged (a ++ b) (a' ++ b') ->
  (damaged a a' /\ b = b') \/ (a = a' /\ damaged b b').
Proof.
  revert a'. induction a as [|h a IH]; intros [|h' a'] Hl Hd; try discriminate Hl.
  - right. auto.
  - destruct Hd as ([|c p] & x & y & s & E1 & E2 & Hne); cbn in E1, E2.
    + left. injection E1 as -> E1. injection E2 as -> E2.
      assert (a ++ b = a' ++ b') as E by congruence.
      apply app_inj_1 in E as [-> ->]; [|cbn in Hl; lia].
      split; [|done]. exists [], x, y, a'. auto.
    + injection E1 as -> E1. injection E2 as -> E2.
      destruct (IH a') as [[Hd ->]|[-> Hd]]; [cbn in Hl; lia | exists p, x, y, s; auto | left | right].
      * split; [|done]. destruct Hd as (q & u & v & w & -> & -> & Hn). exists (c :: q), u, v, w. auto.
      * auto.
Qed.

(** Writing a different byte at a position is damage. *)
Lemma damaged_insert i y src x : src !! i = Some x -> x <> y -> damaged src (<[i := y]> src).
Proof.
  intros Hx Hne. exists (take i src), x, y, (drop (S i) src). split; [|split]; [| |exact Hne].
  - symmetry. now apply take_drop_middle.
  - apply insert_take_drop. now apply lookup_lt_Some in Hx.
Qed.

Lemma put_le_inj n v w :
  0 <= v < 2 ^ (8 * Z.of_nat n) -> 0 <= w < 2 ^ (8 * Z.of_nat n) -> put_le n v = put_le n w -> v = w.
Proof.
  intros Hv Hw E. rewrite <- (Z.mod_small v (2 ^ (8 * Z.of_nat n))), <- (Z.mod_small w (2 ^ (8 * Z.of_nat n))) by lia.
  now rewrite <- !get_put_le, E.
Qed.

Lemma put_le_inj_32 v w : is_u32 v -> is_u32 w -> put_le 4 v = put_le 4 w -> v = w.
Proof. intros Hv Hw. now apply put_le_inj. Qed.
