(* ===== verification/Addr.v ===== *)
(** * Physical addresses

    Models [internal/recordlog/types.go] (VAddr, RecordRef, LogPos,
    AppendResult) and [internal/model/mapaddr.go] (MapAddr).  An address is a
    tagged 64-bit word: the segment in the upper half, an 8-byte aligned offset
    in the lower half and a read-size class in the three low bits. *)
From S2P Require Import Prelude.

Definition SegmentHeaderSize : Z := 64.
Definition RecordHeaderSize : Z := 32.
Definition SegmentFooterSize : Z := 64.
Definition RecordAlignment : Z := 8.
Definition vaddrSizeMask : Z := 7.
Definition reservedSizeTag : Z := 7.
Definition CompactionSegmentBase : Z := 2147483648.

Definition IsCompactionSegment (id : Z) : bool := CompactionSegmentBase <=? id.

(** ** Size classes *)

(** [for tag, upper := 0, 64; tag < 7; tag, upper = tag+1, upper<<1]; the loop
    makes at most seven turns, so seven units of fuel never run out. *)
Fixpoint sizeTag_loop (fuel : nat) (physicalSize tag upper : Z) : res Z :=
  match fuel with
  | O => Err [recordlog_ErrInvalidVAddr]
  | S fuel =>
      if tag <? reservedSizeTag then
        if (physicalSize <=? upper) || (tag =? reservedSizeTag - 1) then Ok tag
        else sizeTag_loop fuel physicalSize (tag + 1) (Z.shiftl upper 1 mod two32)
      else Err [recordlog_ErrInvalidVAddr]
  end.

Definition sizeTag (physicalSize : Z) : res Z :=
  raise [recordlog_ErrInvalidVAddr] when
    (physicalSize <? RecordHeaderSize) || negb (Z.land physicalSize (RecordAlignment - 1) =? 0) ;;
  sizeTag_loop 7 physicalSize 0 64.

(** ** VAddr *)

Definition SegmentID (v : Z) : Z := Z.shiftr v 32.
Definition Offset (v : Z) : Z := Z.ldiff (v mod two32) vaddrSizeMask.
Definition SizeTag (v : Z) : Z := Z.land (v mod two32) vaddrSizeMask.

Definition VAddr_Valid (v : Z) : bool :=
  negb (SegmentID v =? 0) && (SegmentHeaderSize <=? Offset v) && negb (SizeTag v =? reservedSizeTag).

Definition NewVAddr (segmentID offset physicalSize : Z) : res Z :=
  match sizeTag physicalSize with
  | Err _ => Err [recordlog_ErrInvalidVAddr]
  | Ok tag =>
      raise [recordlog_ErrInvalidVAddr] when
        (segmentID =? 0) || (offset <? SegmentHeaderSize) || negb (Z.land offset vaddrSizeMask =? 0) ;;
      Ok (Z.lor (Z.lor (Z.shiftl segmentID 32) offset) tag)
  end.

Definition ParseVAddr (raw : Z) : res Z :=
  raise [recordlog_ErrInvalidVAddr] when negb (VAddr_Valid raw) ;; Ok raw.

Definition ReadHint (v : Z) : res Z :=
  raise [recordlog_ErrInvalidVAddr] when negb (VAddr_Valid v) ;;
  Ok (Z.shiftl 64 (SizeTag v) mod two32).

Definition MatchesPhysicalSize (v physicalSize : Z) : bool :=
  match sizeTag physicalSize with Ok tag => tag =? SizeTag v | Err _ => false end.

(** ** RecordRef *)

Record RecordRef := mkRef { Addr : Z; PhysicalSize : Z }.

#[export] Instance RecordRef_eq_dec : EqDecision RecordRef.
Proof. solve_decision. Defined.

Definition zeroRef : RecordRef := mkRef 0 0.

Definition RecordRef_Valid (r : RecordRef) : bool :=
  VAddr_Valid (Addr r) && (RecordHeaderSize <=? PhysicalSize r) &&
  (Z.land (PhysicalSize r) (RecordAlignment - 1) =? 0) &&
  MatchesPhysicalSize (Addr r) (PhysicalSize r).

Definition RecordRef_IsZero (r : RecordRef) : bool := bool_decide (r = zeroRef).

Definition NewRecordRef (addr physicalSize : Z) : res RecordRef :=
  let ref := mkRef addr physicalSize in
  raise [recordlog_ErrInvalidVAddr] when negb (RecordRef_Valid ref) ;; Ok ref.

Definition ref_u (r : RecordRef) : Prop := is_u64 (Addr r) /\ is_u32 (PhysicalSize r).

(** ** LogPos *)

Record LogPos := mkPos { pos_SegmentID : Z; pos_Offset : Z }.

#[export] Instance LogPos_eq_dec : EqDecision LogPos.
Proof. solve_decision. Defined.

Definition pos_u (p : LogPos) : Prop := is_u32 (pos_SegmentID p) /\ is_u32 (pos_Offset p).

Definition NewLogPos (segmentID offset : Z) : res LogPos :=
  raise [recordlog_ErrInvalidLogPos] when
    (segmentID =? 0) || (offset <? SegmentHeaderSize) ||
    negb (Z.land offset (RecordAlignment - 1) =? 0) ;;
  Ok (mkPos segmentID offset).

Definition LogPos_Valid (p : LogPos) : bool := is_ok (NewLogPos (pos_SegmentID p) (pos_Offset p)).

Definition ParseLogPos (raw : Z) : res LogPos := NewLogPos (Z.shiftr raw 32) (raw mod two32).

Definition LogPos_Uint64 (p : LogPos) : Z := Z.lor (Z.shiftl (pos_SegmentID p) 32) (pos_Offset p).

Definition LogPos_Compare (p other : LogPos) : Z :=
  if (pos_SegmentID p <? pos_SegmentID other) ||
     ((pos_SegmentID p =? pos_SegmentID other) && (pos_Offset p <? pos_Offset other)) then -1
  else if bool_decide (p = other) then 0 else 1.

(** [VAddr.End] *)
Definition VAddr_End (v physicalSize : Z) : res LogPos :=
  raise [recordlog_ErrInvalidVAddr] when
    negb (VAddr_Valid v) || negb (MatchesPhysicalSize v physicalSize) ||
    (MaxUint32 - Offset v <? physicalSize) ;;
  NewLogPos (SegmentID v) (Offset v + physicalSize).

(** ** AppendResult *)

Record AppendResult := mkAppend { ar_Addr : Z; ar_End : LogPos }.

Definition AppendResult_PhysicalSize (r : AppendResult) : res Z :=
  raise [recordlog_ErrInvalidVAddr] when
    negb (VAddr_Valid (ar_Addr r)) || negb (LogPos_Valid (ar_End r)) ||
    negb (SegmentID (ar_Addr r) =? pos_SegmentID (ar_End r)) ||
    (pos_Offset (ar_End r) <? Offset (ar_Addr r)) ;;
  let size := pos_Offset (ar_End r) - Offset (ar_Addr r) in
  raise [recordlog_ErrInvalidVAddr] when negb (MatchesPhysicalSize (ar_Addr r) size) ;;
  Ok size.

Definition AppendResult_Ref (r : AppendResult) : res RecordRef :=
  let! size := AppendResult_PhysicalSize r in NewRecordRef (ar_Addr r) size.

Definition NewAppendResult (addr physicalSize : Z) : res AppendResult :=
  let! e := VAddr_End addr physicalSize in Ok (mkAppend addr e).

(** ** MapAddr *)

Definition MapAddr_SegmentID (a : Z) : Z := Z.shiftr a 32.
Definition MapAddr_Offset (a : Z) : Z := a mod two32.
Definition MapAddr_Valid (a : Z) : bool :=
  negb (MapAddr_SegmentID a =? 0) && (64 <=? MapAddr_Offset a) && (Z.land (MapAddr_Offset a) 7 =? 0).

Definition NewMapAddr (segmentID offset : Z) : res Z :=
  raise [model_ErrInvalidMapAddr] when
    (segmentID =? 0) || (offset <? 64) || negb (Z.land offset 7 =? 0) ;;
  Ok (Z.lor (Z.shiftl segmentID 32) offset).

Definition ParseMapAddr (raw : Z) : res Z :=
  raise [model_ErrInvalidMapAddr] when negb (MapAddr_Valid raw) ;; Ok raw.

(** ** Lemmas *)

Lemma sizeTag_aligned size tag : sizeTag size = Ok tag -> 32 <= size /\ size mod 8 = 0.
Proof.
  unfold sizeTag, RecordHeaderSize, RecordAlignment. intros H. inv_ok H. bool_norm.
  change (8 - 1) with 7 in *. rewrite land_7 in *. lia.
Qed.

Lemma sizeTag_loop_eq size :
  sizeTag_loop 7 size 0 64 =
  if size <=? 64 then Ok 0 else if size <=? 128 then Ok 1 else if size <=? 256 then Ok 2 else
  if size <=? 512 then Ok 3 else if size <=? 1024 then Ok 4 else if size <=? 2048 then Ok 5 else Ok 6.
Proof. cbn [sizeTag_loop]. ground. reflexivity. Qed.

(** The loop computes the smallest class whose bound covers the size, the
    last class being open. *)
Lemma sizeTag_class size tag :
  sizeTag size = Ok tag ->
  0 <= tag <= 6 /\ (tag < 6 -> size <= 64 * 2 ^ tag) /\ (0 < tag -> 32 * 2 ^ tag < size).
Proof.
  unfold sizeTag. intros H. inv_ok H. clear Hguard. revert H.
  rewrite sizeTag_loop_eq.
  repeat (case_if; [intros H; apply Ok_inj in H as <-; bool_norm; ground; lia |]).
  intros H; apply Ok_inj in H as <-. bool_norm. ground. lia.
Qed.

Lemma sizeTag_total size : 32 <= size -> size mod 8 = 0 -> exists tag, sizeTag size = Ok tag.
Proof.
  intros Hs Ha. unfold sizeTag, RecordHeaderSize, RecordAlignment.
  change (8 - 1) with 7. rewrite land_7, Ha. pass_guard.
  { apply orb_true_iff in Hg as [Hg|Hg]; bool_norm; lia. }
  rewrite sizeTag_loop_eq. repeat (case_if; eauto).
Qed.

Lemma VAddr_parts seg off tag :
  is_u32 seg -> is_u32 off -> off mod 8 = 0 -> 0 <= tag < 8 ->
  let v := Z.lor (Z.lor (Z.shiftl seg 32) off) tag in
  v = seg * two32 + off + tag /\ is_u64 v /\ SegmentID v = seg /\ Offset v = off /\ SizeTag v = tag.
Proof.
  intros Hs Ho Ha Ht v. unfold is_u32, is_u64 in *.
  assert (Ev : v = seg * two32 + off + tag).
  { unfold v. rewrite lor_shiftl by lia. apply lor_aligned; [|lia].
    ground. dlia. }
  assert (Hlow : v mod two32 = off + tag).
  { rewrite Ev. symmetry. apply Z.mod_unique with seg; [|lia]. left.
    pose proof (Z.div_mod off 8 ltac:(lia)). lia. }
  unfold SegmentID, Offset, SizeTag, vaddrSizeMask.
  rewrite shiftr_32, Hlow, ldiff_7, land_7.
  pose proof (Z.div_mod off 8 ltac:(lia)).
  assert (Hm : (off + tag) mod 8 = tag).
  { symmetry; apply Z.mod_unique with (off / 8); lia. }
  rewrite Hm. repeat split; try lia.
  rewrite Ev. symmetry. apply Z.div_unique with (off + tag); lia.
Qed.

Lemma NewVAddr_parts seg off size v :
  is_u32 seg -> is_u32 off -> NewVAddr seg off size = Ok v ->
  is_u64 v /\ SegmentID v = seg /\ Offset v = off /\
  sizeTag size = Ok (SizeTag v) /\ VAddr_Valid v = true.
Proof.
  intros Hs Ho. unfold NewVAddr. destruct (sizeTag size) as [tag|] eqn:Et; [|discriminate].
  intros H. inv_ok H. apply Ok_inj in H as <-.
  unfold SegmentHeaderSize, vaddrSizeMask in *. bool_norm. rewrite land_7 in *.
  pose proof (sizeTag_class _ _ Et) as (Ht & _).
  pose proof (VAddr_parts seg off tag Hs Ho ltac:(lia) ltac:(lia)) as (_ & Hu & E1 & E2 & E3).
  repeat split; try (rewrite ?E1, ?E2, ?E3; auto; fail); try apply Hu.
  unfold VAddr_Valid, SegmentHeaderSize, reservedSizeTag. rewrite E1, E2, E3.
  rewrite !andb_true_iff, !negb_true_iff. lia.
Qed.

Lemma NewVAddr_matches seg off size v :
  is_u32 seg -> is_u32 off -> NewVAddr seg off size = Ok v -> MatchesPhysicalSize v size = true.
Proof.
  intros Hs Ho H. apply NewVAddr_parts in H as (_ & _ & _ & E & _); auto.
  unfold MatchesPhysicalSize. rewrite E. apply Z.eqb_refl.
Qed.

(** A valid address is determined by its three parts. *)
Lemma VAddr_eq_parts v w :
  is_u64 v -> is_u64 w -> SegmentID v = SegmentID w -> Offset v = Offset w ->
  SizeTag v = SizeTag w -> v = w.
Proof.
  unfold SegmentID, Offset, SizeTag, vaddrSizeMask, is_u64.
  rewrite !shiftr_32, !ldiff_7, !land_7. intros Hv Hw H1 H2 H3.
  pose proof (Z.div_mod v two32 ltac:(lia)). pose proof (Z.div_mod w two32 ltac:(lia)). lia.
Qed.

(** Numeric order of addresses is the lexicographic order of their parts. *)
Lemma VAddr_order v w :
  is_u64 v -> is_u64 w ->
  SegmentID v < SegmentID w \/ (SegmentID v = SegmentID w /\ Offset v < Offset w) -> v < w.
Proof.
  unfold SegmentID, Offset, vaddrSizeMask, is_u64. rewrite !shiftr_32, !ldiff_7.
  intros Hv Hw H.
  pose proof (Z.div_mod v two32 ltac:(lia)). pose proof (Z.div_mod w two32 ltac:(lia)).
  pose proof (Z.mod_pos_bound v two32 ltac:(lia)). pose proof (Z.mod_pos_bound w two32 ltac:(lia)).
  pose proof (Z.mod_pos_bound (v mod two32) 8 ltac:(lia)).
  pose proof (Z.mod_pos_bound (w mod two32) 8 ltac:(lia)).
  pose proof (Z.div_mod (v mod two32) 8 ltac:(lia)). pose proof (Z.div_mod (w mod two32) 8 ltac:(lia)).
  nia.
Qed.

Lemma VAddr_offset_aligned v : Offset v mod 8 = 0.
Proof.
  unfold Offset, vaddrSizeMask. rewrite ldiff_7.
  rewrite Zminus_mod, Z.mod_mod, Z.sub_diag by lia. reflexivity.
Qed.

Lemma VAddr_offset_range v : 0 <= Offset v < two32.
Proof.
  unfold Offset, vaddrSizeMask. rewrite ldiff_7.
  pose proof (Z.mod_pos_bound v two32 ltac:(lia)).
  pose proof (Z.mod_pos_bound (v mod two32) 8 ltac:(lia)).
  pose proof (Z.mod_le (v mod two32) 8 ltac:(lia) ltac:(lia)). lia.
Qed.

Lemma RecordRef_Valid_zero : RecordRef_Valid zeroRef = false.
Proof. reflexivity. Qed.

Lemma RecordRef_Valid_IsZero r : RecordRef_Valid r = true -> RecordRef_IsZero r = false.
Proof.
  intros H. apply bool_decide_eq_false. intros ->. discriminate.
Qed.

Lemma NewRecordRef_valid addr size ref :
  NewRecordRef addr size = Ok ref -> ref = mkRef addr size /\ RecordRef_Valid ref = true.
Proof.
  unfold NewRecordRef. intros H. inv_ok H. apply Ok_inj in H as <-. bool_norm. auto.
Qed.

Lemma LogPos_Compare_eq p q : LogPos_Compare p q = 0 <-> p = q.
Proof.
  unfold LogPos_Compare. repeat case_if; bool_norm; split; try done.
  intros ->. apply orb_true_iff in Hif as [H|H]; bool_norm; lia.
Qed.

Lemma LogPos_Compare_lt p q :
  LogPos_Compare p q = -1 <->
  pos_SegmentID p < pos_SegmentID q \/
  (pos_SegmentID p = pos_SegmentID q /\ pos_Offset p < pos_Offset q).
Proof.
  unfold LogPos_Compare. case_if.
  - apply orb_true_iff in Hif as [H|H]; bool_norm; split; auto; intros; lia.
  - bool_norm. apply andb_false_iff in H0.
    split; [case_if; discriminate|]. intros [?|[? ?]]; [lia|].
    destruct H0; bool_norm; lia.
Qed.

(** One positioned read of [ReadHint] bytes fetches the whole record unless its
    class is the open one, and never more than twice the record or 64 bytes. *)
Lemma ReadHint_bounds v size hint : sizeTag size = Ok (SizeTag v) -> ReadHint v = Ok hint ->
  hint = 64 * 2 ^ SizeTag v /\ (SizeTag v < 6 -> size <= hint) /\ (64 < hint -> hint < 2 * size).
Proof.
  intros Et H. unfold ReadHint in H. inv_ok H. apply Ok_inj in H as <-.
  pose proof (sizeTag_class _ _ Et) as (Ht & Hup & Hlow).
  assert (E : Z.shiftl 64 (SizeTag v) mod two32 = 64 * 2 ^ SizeTag v).
  { assert (C : SizeTag v = 0 \/ SizeTag v = 1 \/ SizeTag v = 2 \/ SizeTag v = 3 \/ SizeTag v = 4 \/ SizeTag v = 5 \/ SizeTag v = 6) by lia.
    destruct C as [->|[->|[->|[->|[->|[->| ->]]]]]]; reflexivity. }
  rewrite E. split; [reflexivity|]. split; [exact Hup|]. intros Hgt.
  destruct (Z.eq_dec (SizeTag v) 0) as [E0|]; [rewrite E0 in Hgt; cbn in Hgt; lia|]. specialize (Hlow ltac:(lia)). lia.
Qed.

(** An address carries what the log needs to read a record back.  The
    address of a record of [size] bytes at [off] in segment [seg] gives back its
    segment, its offset and its size class, survives its stored form, orders
    like the position it names, and its read hint covers the record (except for
    records over 2 KiB, which take a second read) without reading twice too much. *)
Theorem address_roundtrip seg off size v :
  is_u32 seg -> is_u32 off -> NewVAddr seg off size = Ok v ->
  SegmentID v = seg /\ Offset v = off /\ ParseVAddr v = Ok v /\ MatchesPhysicalSize v size = true /\
  (forall seg' off' size' v', is_u32 seg' -> is_u32 off' -> NewVAddr seg' off' size' = Ok v' ->
     seg < seg' \/ (seg = seg' /\ off < off') -> v < v') /\
  (exists hint, ReadHint v = Ok hint /\ (size <= 2048 -> size <= hint) /\ (64 < hint -> hint < 2 * size)).
Proof.
  intros Hs Ho H. pose proof (NewVAddr_matches seg off size v Hs Ho H) as Hm.
  apply NewVAddr_parts in H as (Hu & E1 & E2 & Et & Hv); [|assumption..].
  split; [exact E1|]. split; [exact E2|]. split; [unfold ParseVAddr; now rewrite Hv|]. split; [exact Hm|]. split.
  - intros seg' off' size' v' Hs' Ho' H'. apply NewVAddr_parts in H' as (Hu' & E1' & E2' & _); [|assumption..].
    intros Hlt. apply VAddr_order; [assumption..|]. now rewrite E1, E2, E1', E2'.
  - assert (Eh : exists hint, ReadHint v = Ok hint) by (unfold ReadHint; rewrite Hv; cbn; eauto). destruct Eh as [hint Eh].
    exists hint. split; [exact Eh|]. destruct (ReadHint_bounds v size hint Et Eh) as (-> & Hup & Hlo). split; [|exact Hlo].
    intros Hle. destruct (sizeTag_class _ _ Et) as (Ht & _ & Hl). destruct (Z.eq_dec (SizeTag v) 6) as [E6|]; [|apply Hup; lia].
    rewrite E6 in *. cbn in *. lia.
Qed.

Lemma address_roundtrip_witness : exists v, NewVAddr 3 128 72 = Ok v /\ SegmentID v = 3 /\ ParseVAddr v = Ok v.
Proof.
  eexists. split; [vm_compute; reflexivity|].
  destruct (address_roundtrip 3 128 72 (3 * two32 + 129)) as (E1 & _ & E3 & _); [split; vm_compute; congruence..|reflexivity|].
  split; [exact E1|exact E3].
Defined.
