(* ===== verification/Crc32.v ===== *)
(** * CRC-32C

    [hash/crc32] with the Castagnoli table, as the record, segment and node
    formats use it: reflected polynomial 0x82f63b78, initial value and final
    xor 0xffffffff.  Eight shift steps per byte are the table lookup of the
    library.  The update is injective in the state and in the byte, so the
    checksum separates any two buffers that differ in a single byte. *)
From S2P Require Import Prelude Bytes.

Definition Castagnoli : Z := 2197175160.

(** [if crc&1 == 1 { crc = crc>>1 ^ poly } else { crc >>= 1 }] *)
Definition crc_step (crc : Z) : Z :=
  if Z.odd crc then Z.lxor (Z.div2 crc) Castagnoli else Z.div2 crc.

Definition crc_byte (crc b : Z) : Z := Nat.iter 8 crc_step (Z.lxor crc b).

Definition crc_update (crc : Z) (src : list Z) : Z := foldl crc_byte crc src.

(** [crc32.Checksum(src, crcTable)] *)
Definition Checksum (src : list Z) : Z := Z.lxor (crc_update MaxUint32 src) MaxUint32.

(** The check value of the CRC-32C specification. *)
Example Checksum_check_value :
  Checksum [49; 50; 51; 52; 53; 54; 55; 56; 57] = 3808858755.
Proof. vm_compute. reflexivity. Qed.

Lemma u32_log2 x : 0 <= x -> (x < two32 <-> Z.log2 x < 32).
Proof.
  intros Hx. destruct (Z.eq_dec x 0) as [->|Hnz]; [cbn; lia|].
  rewrite (Z.log2_lt_pow2 x 32) by lia. reflexivity.
Qed.

Lemma lxor_u32 a b : is_u32 a -> is_u32 b -> is_u32 (Z.lxor a b).
Proof.
  unfold is_u32. intros [Ha1 Ha2] [Hb1 Hb2].
  assert (Hnn : 0 <= Z.lxor a b) by (apply Z.lxor_nonneg; lia).
  split; [exact Hnn|]. apply u32_log2; [exact Hnn|].
  apply Z.le_lt_trans with (Z.max (Z.log2 a) (Z.log2 b)); [apply Z.log2_lxor; lia|].
  apply u32_log2 in Ha2, Hb2; lia.
Qed.

Lemma lxor_cancel_r a b c : Z.lxor a c = Z.lxor b c -> a = b.
Proof.
  intros H. rewrite <- (Z.lxor_0_r a), <- (Z.lxor_0_r b), <- (Z.lxor_nilpotent c),
    <- !Z.lxor_assoc, H. reflexivity.
Qed.

Lemma lxor_cancel_l a b c : Z.lxor c a = Z.lxor c b -> a = b.
Proof. rewrite !(Z.lxor_comm c). apply lxor_cancel_r. Qed.

Lemma div2_u31 x : is_u32 x -> 0 <= Z.div2 x < 2147483648.
Proof. unfold is_u32. rewrite Z.div2_div. intros. dlia. Qed.

Lemma crc_step_u32 x : is_u32 x -> is_u32 (crc_step x).
Proof.
  intros H. pose proof (div2_u31 x H) as Hd. unfold crc_step.
  destruct (Z.odd x); [|unfold is_u32; lia].
  apply lxor_u32; unfold is_u32, Castagnoli; lia.
Qed.

(** The polynomial has its top bit set, so the top bit of the result tells
    which branch was taken. *)
Lemma crc_step_top x : is_u32 x -> Z.testbit (crc_step x) 31 = Z.odd x.
Proof.
  intros H. pose proof (div2_u31 x H) as Hd.
  assert (Ht : Z.testbit (Z.div2 x) 31 = false).
  { rewrite <- (Z.mod_small (Z.div2 x) (2 ^ 31)) by (ground; lia).
    apply Z.mod_pow2_bits_high; lia. }
  unfold crc_step. destruct (Z.odd x); [|exact Ht].
  rewrite Z.lxor_spec, Ht. reflexivity.
Qed.

Lemma crc_step_inj x y : is_u32 x -> is_u32 y -> crc_step x = crc_step y -> x = y.
Proof.
  intros Hx Hy E.
  assert (Ho : Z.odd x = Z.odd y)
    by (rewrite <- (crc_step_top x Hx), <- (crc_step_top y Hy), E; reflexivity).
  rewrite (Z.div2_odd x), (Z.div2_odd y), Ho. f_equal. f_equal.
  unfold crc_step in E. rewrite Ho in E. destruct (Z.odd y); [|exact E].
  now apply lxor_cancel_r in E.
Qed.

Lemma crc_steps_u32 n x : is_u32 x -> is_u32 (Nat.iter n crc_step x).
Proof. intros H. induction n; [exact H|]. cbn. now apply crc_step_u32. Qed.

Lemma crc_steps_inj n x y :
  is_u32 x -> is_u32 y -> Nat.iter n crc_step x = Nat.iter n crc_step y -> x = y.
Proof.
  intros Hx Hy. induction n as [|n IH]; [easy|].
  change (crc_step (Nat.iter n crc_step x) = crc_step (Nat.iter n crc_step y) -> x = y).
  intros E. apply IH. apply crc_step_inj in E; auto using crc_steps_u32.
Qed.

Lemma u8_u32 b : is_u8 b -> is_u32 b.
Proof. unfold is_u8, is_u32; lia. Qed.

Lemma crc_byte_u32 crc b : is_u32 crc -> is_u8 b -> is_u32 (crc_byte crc b).
Proof. intros. apply crc_steps_u32, lxor_u32; auto using u8_u32. Qed.

Lemma crc_byte_inj_state s t b :
  is_u32 s -> is_u32 t -> is_u8 b -> crc_byte s b = crc_byte t b -> s = t.
Proof.
  intros Hs Ht Hb E. apply crc_steps_inj in E; auto using lxor_u32, u8_u32.
  now apply lxor_cancel_r in E.
Qed.

Lemma crc_byte_inj_byte s b c :
  is_u32 s -> is_u8 b -> is_u8 c -> crc_byte s b = crc_byte s c -> b = c.
Proof.
  intros Hs Hb Hc E. apply crc_steps_inj in E; auto using lxor_u32, u8_u32.
  now apply lxor_cancel_l in E.
Qed.

Lemma crc_update_cons s b src : crc_update s (b :: src) = crc_update (crc_byte s b) src.
Proof. reflexivity. Qed.

Lemma crc_update_u32 src : forall s, is_u32 s -> bytes_ok src -> is_u32 (crc_update s src).
Proof.
  induction src as [|b src IH]; intros s Hs H; [exact Hs|].
  apply bytes_ok_cons in H as [Hb Hr]. rewrite crc_update_cons. apply IH; auto using crc_byte_u32.
Qed.

Lemma crc_update_inj src : forall s t,
  is_u32 s -> is_u32 t -> bytes_ok src -> crc_update s src = crc_update t src -> s = t.
Proof.
  induction src as [|b src IH]; intros s t Hs Ht H E; [exact E|].
  apply bytes_ok_cons in H as [Hb Hr]. rewrite !crc_update_cons in E. apply IH in E; auto using crc_byte_u32.
  eapply crc_byte_inj_state; eauto.
Qed.

Lemma crc_update_app s a b : crc_update s (a ++ b) = crc_update (crc_update s a) b.
Proof. apply foldl_app. Qed.

Lemma Checksum_u32 src : bytes_ok src -> is_u32 (Checksum src).
Proof.
  intros H. unfold Checksum. apply lxor_u32; [apply crc_update_u32; auto|]; unfold is_u32; lia.
Qed.

Lemma Checksum_separates a x y b :
  bytes_ok a -> bytes_ok b -> is_u8 x -> is_u8 y -> x <> y ->
  Checksum (a ++ x :: b) <> Checksum (a ++ y :: b).
Proof.
  intros Ha Hb Hx Hy Hne E. apply Hne. unfold Checksum in E. apply lxor_cancel_r in E.
  rewrite !crc_update_app, !crc_update_cons in E.
  assert (Hs : is_u32 (crc_update MaxUint32 a)) by (apply crc_update_u32; auto; unfold is_u32; lia).
  apply crc_update_inj in E; auto using crc_byte_u32.
  eapply crc_byte_inj_byte; eauto.
Qed.

Lemma Checksum_damaged src src' :
  bytes_ok src -> bytes_ok src' -> damaged src src' -> Checksum src <> Checksum src'.
Proof.
  intros Hs Hs' (a & x & y & b & -> & -> & Hne).
  apply bytes_ok_app in Hs as [Ha [Hx Hb]%bytes_ok_cons], Hs' as [_ [Hy _]%bytes_ok_cons].
  now apply Checksum_separates.
Qed.

(** ** Blocks that end in their checksum *)

Definition with_crc (body : list Z) : list Z := body ++ put_le 4 (Checksum body).

Lemma with_crc_spec n body : length body = n -> bytes_ok body ->
  length (with_crc body) = (n + 4)%nat /\ bytes_ok (with_crc body) /\
  u32 n (with_crc body) = Checksum body /\ slice 0 n (with_crc body) = body.
Proof.
  intros Hl Hb. unfold with_crc. split; [now rewrite length_app, length_put_le, Hl|]. split; [apply bytes_ok_app; split; [exact Hb|apply put_le_bytes]|].
  split; [|apply (slice_here body n); [exact Hl|apply Nat.eqb_refl]]. unfold u32. rewrite (slice_skip body n) by (exact Hl || apply Nat.leb_refl).
  replace (n - n)%nat with 0%nat by lia. replace (n + 4 - n)%nat with 4%nat by lia. rewrite (slice_here_end _ 4) by (apply HasLen_put_le || reflexivity).
  apply get_put_32, Checksum_u32, Hb.
Qed.

(** One damaged byte anywhere breaks the checksum test. *)
Lemma with_crc_damaged n body src : length body = n -> bytes_ok body -> bytes_ok src -> damaged (with_crc body) src -> u32 n src <> Checksum (slice 0 n src).
Proof.
  intros Hl Hb Hs Hd E. pose proof (damaged_length _ _ Hd) as Hlen. destruct (with_crc_spec n body Hl Hb) as (Hw & _ & _ & _). rewrite Hw in Hlen.
  assert (Es : src = slice 0 n src ++ put_le 4 (u32 n src)).
  { unfold u32. replace 4%nat with (n + 4 - n)%nat at 1 by lia. rewrite put_slice by (auto; lia). rewrite slice_cat by lia. rewrite Hlen. symmetry. apply slice_full. }
  rewrite Es in Hd. assert (Hln : length body = length (slice 0 n src)) by (rewrite length_slice by lia; lia).
  assert (Hbs : bytes_ok (slice 0 n src)) by now apply bytes_ok_slice.
  unfold with_crc in Hd. apply damaged_app in Hd as [[Hd Ec]|[Hbody Hd]]; [| |exact Hln].
  - apply put_le_inj_32 in Ec; [|now apply Checksum_u32|rewrite E; now apply Checksum_u32]. rewrite E in Ec. revert Ec. now apply Checksum_damaged.
  - rewrite E, <- Hbody in Hd. now apply damaged_neq in Hd.
Qed.
