(* ===== verification/RecordFormat.v ===== *)
(** * The physical record format

    Models [internal/recordlog/format.go]: the segment header and footer and
    the record envelope that RecordLog writes around an opaque payload.  Shows
    that each encoder and decoder are inverse to one another and that a record
    with one damaged byte is never decoded. *)
From S2P Require Import Prelude Bytes Addr Crc32.

Definition FormatVersion : Z := 2.
Definition segmentHeaderMagic : list Z := [82; 73; 68; 65; 80; 86; 50; 72].
Definition recordMagic : list Z := [82; 50; 82; 67].
Definition segmentFooterMagic : list Z := [82; 73; 68; 65; 80; 86; 50; 70].

Record SegmentHeader := mkSegmentHeader
  { sh_LogID : list Z; sh_SegmentID : Z; sh_PreviousSegment : Z; sh_SegmentSize : Z }.

Record RecordHeader := mkRecordHeader
  { rh_PhysicalSize : Z; rh_PayloadSize : Z; rh_Addr : Z; rh_PayloadCRC : Z }.

Record SegmentFooter := mkSegmentFooter
  { sf_SegmentID : Z; sf_DataEnd : Z; sf_FirstAddr : Z; sf_LastAddr : Z; sf_RecordCount : Z }.

Definition PhysicalRecordSize (payloadSize : Z) : res Z :=
  raise [recordlog_ErrPayloadTooBig] when
    (MaxUint32 <? payloadSize) || (MaxUint64 - RecordHeaderSize <? payloadSize) ;;
  let total := RecordHeaderSize + payloadSize in
  let total := Z.ldiff (total + (RecordAlignment - 1)) (RecordAlignment - 1) in
  raise [recordlog_ErrPayloadTooBig] when MaxUint32 <? total ;;
  Ok total.

(** ** Segment header *)

Definition segmentHeader_bad (h : SegmentHeader) : bool :=
  all_zero (sh_LogID h) || (sh_SegmentID h =? 0) ||
  (sh_SegmentSize h <=? SegmentHeaderSize + RecordHeaderSize + SegmentFooterSize) ||
  negb (Z.land (sh_SegmentSize h) (RecordAlignment - 1) =? 0).

Definition segmentHeader_body (h : SegmentHeader) : list Z :=
  segmentHeaderMagic ++ put_le 2 FormatVersion ++ put_le 2 SegmentHeaderSize ++
  put_le 4 (sh_SegmentID h) ++ put_le 4 (sh_SegmentSize h) ++ put_le 4 (sh_PreviousSegment h) ++
  sh_LogID h ++ put_le 4 SegmentHeaderSize ++ zeros 16.

Definition EncodeSegmentHeader (h : SegmentHeader) : res (list Z) :=
  raise [recordlog_ErrInvalidConfig] when segmentHeader_bad h ;;
  let body := segmentHeader_body h in
  Ok (body ++ put_le 4 (Checksum body)).

Definition DecodeSegmentHeader (src : list Z) : res SegmentHeader :=
  raise [recordlog_ErrCorrupt] when
    negb (len src =? SegmentHeaderSize) || negb (magic_is segmentHeaderMagic src) ;;
  raise [recordlog_ErrUnsupported] when negb (u16 8 src =? FormatVersion) ;;
  raise [recordlog_ErrCorrupt] when
    negb (u16 10 src =? SegmentHeaderSize) || negb (u32 60 src =? Checksum (slice 0 60 src)) ;;
  let h := mkSegmentHeader (slice 24 40 src) (u32 12 src) (u32 20 src) (u32 16 src) in
  raise [recordlog_ErrCorrupt] when
    segmentHeader_bad h || negb (u32 40 src =? SegmentHeaderSize) || negb (all_zero (slice 44 60 src)) ;;
  Ok h.

Definition segmentHeader_u (h : SegmentHeader) : Prop :=
  length (sh_LogID h) = 16%nat /\ bytes_ok (sh_LogID h) /\ is_u32 (sh_SegmentID h) /\
  is_u32 (sh_PreviousSegment h) /\ is_u32 (sh_SegmentSize h).

(** ** Record envelope *)

Definition record_header_body (addr total : Z) (payload : list Z) : list Z :=
  recordMagic ++ put_le 2 FormatVersion ++ put_le 2 RecordHeaderSize ++ put_le 4 total ++
  put_le 4 (len payload) ++ put_le 8 addr ++ put_le 4 (Checksum payload).

(** [dstLen] is [len(dst)]; the result is the content of [dst]. *)
Definition EncodeRecordTo (dstLen addr : Z) (payload : list Z) : res (list Z) :=
  let! total := PhysicalRecordSize (len payload) in
  raise [recordlog_ErrInvalidConfig] when negb (dstLen =? total) ;;
  raise [recordlog_ErrInvalidVAddr] when
    negb (VAddr_Valid addr) || negb (MatchesPhysicalSize addr total) ;;
  let head := record_header_body addr total payload in
  Ok (head ++ put_le 4 (Checksum head) ++ payload ++
      zeros (Z.to_nat (total - RecordHeaderSize - len payload))).

Definition EncodeRecord (addr : Z) (payload : list Z) : res (list Z) :=
  let! total := PhysicalRecordSize (len payload) in
  EncodeRecordTo total addr payload.

Definition DecodeRecordHeader (src : list Z) : res RecordHeader :=
  raise [recordlog_ErrCorrupt] when
    negb (len src =? RecordHeaderSize) || negb (magic_is recordMagic src) ;;
  raise [recordlog_ErrUnsupported] when negb (u16 4 src =? FormatVersion) ;;
  raise [recordlog_ErrCorrupt] when
    negb (u16 6 src =? RecordHeaderSize) || negb (u32 28 src =? Checksum (slice 0 28 src)) ;;
  let h := mkRecordHeader (u32 8 src) (u32 12 src) (u64 16 src) (u32 24 src) in
  raise [recordlog_ErrCorrupt] when
    match PhysicalRecordSize (rh_PayloadSize h) with
    | Err _ => true
    | Ok want => negb (rh_PhysicalSize h =? want) || negb (VAddr_Valid (rh_Addr h)) ||
                 negb (MatchesPhysicalSize (rh_Addr h) (rh_PhysicalSize h))
    end ;;
  Ok h.

Definition DecodeRecord (src : list Z) : res (RecordHeader * list Z) :=
  raise [recordlog_ErrCorrupt] when len src <? RecordHeaderSize ;;
  let! h := DecodeRecordHeader (slice 0 32 src) in
  raise [recordlog_ErrCorrupt] when
    negb (len src =? rh_PhysicalSize h) || (rh_PhysicalSize h - RecordHeaderSize <? rh_PayloadSize h) ;;
  let payloadEnd := Z.to_nat (RecordHeaderSize + rh_PayloadSize h) in
  let payload := slice 32 payloadEnd src in
  raise [recordlog_ErrCorrupt] when
    negb (Checksum payload =? rh_PayloadCRC h) || negb (all_zero (drop payloadEnd src)) ;;
  Ok (h, payload).

(** ** Segment footer *)

Definition validateSegmentFooter (f : SegmentFooter) : bool :=
  if (sf_SegmentID f =? 0) || (sf_DataEnd f <? SegmentHeaderSize) ||
     negb (Z.land (sf_DataEnd f) (RecordAlignment - 1) =? 0) then false
  else if sf_RecordCount f =? 0 then
    (sf_FirstAddr f =? 0) && (sf_LastAddr f =? 0) && (sf_DataEnd f =? SegmentHeaderSize)
  else
    VAddr_Valid (sf_FirstAddr f) && VAddr_Valid (sf_LastAddr f) &&
    (SegmentID (sf_FirstAddr f) =? sf_SegmentID f) && (SegmentID (sf_LastAddr f) =? sf_SegmentID f) &&
    (sf_FirstAddr f <=? sf_LastAddr f) && (Offset (sf_LastAddr f) <? sf_DataEnd f).

Definition segmentFooter_body (f : SegmentFooter) : list Z :=
  segmentFooterMagic ++ put_le 2 FormatVersion ++ put_le 2 SegmentFooterSize ++
  put_le 4 (sf_SegmentID f) ++ put_le 4 (sf_DataEnd f) ++ zeros 4 ++ put_le 8 (sf_FirstAddr f) ++
  put_le 8 (sf_LastAddr f) ++ put_le 8 (sf_RecordCount f) ++ zeros 12.

Definition EncodeSegmentFooter (f : SegmentFooter) : res (list Z) :=
  raise [recordlog_ErrInvalidConfig] when negb (validateSegmentFooter f) ;;
  let body := segmentFooter_body f in
  Ok (body ++ put_le 4 (Checksum body)).

Definition DecodeSegmentFooter (src : list Z) : res SegmentFooter :=
  raise [recordlog_ErrCorrupt] when
    negb (len src =? SegmentFooterSize) || negb (magic_is segmentFooterMagic src) ;;
  raise [recordlog_ErrUnsupported] when negb (u16 8 src =? FormatVersion) ;;
  raise [recordlog_ErrCorrupt] when
    negb (u16 10 src =? SegmentFooterSize) || negb (u32 60 src =? Checksum (slice 0 60 src)) ||
    negb (all_zero (slice 20 24 src)) || negb (all_zero (slice 48 60 src)) ;;
  let f := mkSegmentFooter (u32 12 src) (u32 16 src) (u64 24 src) (u64 32 src) (u64 40 src) in
  raise [recordlog_ErrCorrupt] when negb (validateSegmentFooter f) ;;
  Ok f.

Definition segmentFooter_u (f : SegmentFooter) : Prop :=
  is_u32 (sf_SegmentID f) /\ is_u32 (sf_DataEnd f) /\ is_u64 (sf_FirstAddr f) /\
  is_u64 (sf_LastAddr f) /\ is_u64 (sf_RecordCount f).

(** ** Lemmas *)

Lemma PhysicalRecordSize_spec n total :
  0 <= n -> PhysicalRecordSize n = Ok total ->
  32 + n <= total < 40 + n /\ total mod 8 = 0 /\ 32 <= total <= MaxUint32.
Proof.
  intros Hn. unfold PhysicalRecordSize, RecordHeaderSize, RecordAlignment. intros H. inv_ok H.
  apply Ok_inj in H as <-. bool_norm. change (8 - 1) with 7 in *. rewrite ldiff_7 in *. dlia.
Qed.

#[export] Instance HasLen_record_header_body addr total payload :
  HasLen (record_header_body addr total payload) 28.
Proof. unfold HasLen, record_header_body. rewrite !length_app, !length_put_le. reflexivity. Qed.

#[export] Instance HasLen_segmentFooter_body f : HasLen (segmentFooter_body f) 60.
Proof.
  unfold HasLen, segmentFooter_body, zeros.
  rewrite !length_app, !length_put_le, !length_replicate. reflexivity.
Qed.

Lemma length_segmentHeader_body h :
  length (sh_LogID h) = 16%nat -> length (segmentHeader_body h) = 60%nat.
Proof.
  intros H. unfold segmentHeader_body, zeros.
  rewrite !length_app, !length_put_le, !length_replicate, H. reflexivity.
Qed.

Lemma bytes_record_header_body addr total payload :
  bytes_ok (record_header_body addr total payload).
Proof.
  unfold record_header_body, recordMagic. solve_bytes.
Qed.

(** The header written by the encoder decodes to its fields. *)
Lemma DecodeRecordHeader_encoded addr total payload :
  is_u64 addr -> bytes_ok payload -> PhysicalRecordSize (len payload) = Ok total ->
  VAddr_Valid addr = true -> MatchesPhysicalSize addr total = true ->
  let head := record_header_body addr total payload in
  DecodeRecordHeader (head ++ put_le 4 (Checksum head)) =
    Ok (mkRecordHeader total (len payload) addr (Checksum payload)).
Proof.
  intros Ha Hp Hs Hv Hm head.
  pose proof (PhysicalRecordSize_spec _ _ (len_nonneg payload) Hs) as (Hb & _ & Ht).
  pose proof (Checksum_u32 payload Hp) as Hc.
  pose proof (Checksum_u32 head (bytes_record_header_body _ _ _)) as Hc2.
  pose proof (len_nonneg payload).
  unfold DecodeRecordHeader.
  assert (E1 : len (head ++ put_le 4 (Checksum head)) = 32).
  { apply (len_eq_iff _ 32). rewrite length_app, length_put_le. unfold head.
    now rewrite (@has_len _ _ (HasLen_record_header_body addr total payload)). }
  assert (E2 : slice 0 28 (head ++ put_le 4 (Checksum head)) = head) by (unfold head; fields; reflexivity).
  assert (E3 : u32 28 (head ++ put_le 4 (Checksum head)) = Checksum head).
  { unfold head at 1. fields. now apply get_put_32. }
  rewrite E1, E2, E3.
  assert (E4 : forall rest, u32 8 (head ++ rest) = total /\ u32 12 (head ++ rest) = len payload /\
     u64 16 (head ++ rest) = addr /\ u32 24 (head ++ rest) = Checksum payload /\
     u16 4 (head ++ rest) = 2 /\ u16 6 (head ++ rest) = 32 /\ magic_is recordMagic (head ++ rest) = true).
  { intros rest. unfold head, record_header_body. rewrite <- !app_assoc. fields.
    rewrite !get_put_32, !get_put_64, magic_is_app by (try assumption; unfold is_u32; lia).
    repeat split; reflexivity. }
  destruct (E4 (put_le 4 (Checksum head))) as (-> & -> & -> & -> & -> & -> & ->).
  rewrite !Z.eqb_refl. cbn [rh_PayloadSize rh_PhysicalSize rh_Addr].
  rewrite Hs, Z.eqb_refl, Hv, Hm. reflexivity.
Qed.

Lemma PhysicalRecordSize_padding n total :
  0 <= n -> PhysicalRecordSize n = Ok total -> 0 <= total - 32 - n < 8.
Proof. intros Hn H. pose proof (PhysicalRecordSize_spec _ _ Hn H). lia. Qed.

(** The layout of a successful encoding. *)
Lemma EncodeRecord_layout addr payload src :
  EncodeRecord addr payload = Ok src ->
  exists total, PhysicalRecordSize (len payload) = Ok total /\
    VAddr_Valid addr = true /\ MatchesPhysicalSize addr total = true /\ len src = total /\
    let head := record_header_body addr total payload in
    src = (head ++ put_le 4 (Checksum head)) ++ payload ++ zeros (Z.to_nat (total - 32 - len payload)).
Proof.
  unfold EncodeRecord, EncodeRecordTo. destruct (PhysicalRecordSize (len payload)) as [total|] eqn:Hs;
    [|discriminate].
  intros H. inv_ok H. apply Ok_inj in H as <-. exists total. bool_norm.
  unfold RecordHeaderSize in *. repeat split; auto.
  rewrite !len_app, (HasLen_len _ _ (HasLen_record_header_body addr total payload)).
  rewrite (HasLen_len _ _ (HasLen_put_le 4 _)), (HasLen_len _ _ (HasLen_zeros _)).
  pose proof (PhysicalRecordSize_padding _ _ (len_nonneg payload) Hs). lia.
Qed.

Lemma DecodeRecord_encoded addr payload src :
  is_u64 addr -> bytes_ok payload -> EncodeRecord addr payload = Ok src ->
  DecodeRecord src = Ok (mkRecordHeader (len src) (len payload) addr (Checksum payload), payload).
Proof.
  intros Ha Hp He. apply EncodeRecord_layout in He as (total & Hs & Hv & Hm & Hl & Hsrc).
  pose proof (DecodeRecordHeader_encoded addr total payload Ha Hp Hs Hv Hm) as Hd.
  pose proof (PhysicalRecordSize_spec _ _ (len_nonneg payload) Hs) as (Hb & _ & Ht).
  cbv zeta in Hsrc, Hd. set (head := record_header_body addr total payload) in *.
  set (hdr := head ++ put_le 4 (Checksum head)) in *.
  assert (Hh : HasLen hdr 32).
  { unfold hdr, HasLen. rewrite length_app, length_put_le. unfold head.
    now rewrite (@has_len _ _ (HasLen_record_header_body addr total payload)). }
  unfold DecodeRecord, RecordHeaderSize. rewrite Hl.
  pass_guard. { bool_norm. lia. }
  rewrite Hsrc. rewrite (slice_here hdr 32 _ 32) by auto. rewrite Hd.
  cbn [rh_PhysicalSize rh_PayloadSize rh_PayloadCRC].
  rewrite Z.eqb_refl. pass_guard. { cbn in Hg. bool_norm. pose proof (len_nonneg payload). lia. }
  pose proof (len_nonneg payload).
  rewrite (slice_skip hdr 32) by (auto; apply Nat.leb_le; lia).
  rewrite (drop_skip hdr 32) by (auto; apply Nat.leb_le; lia).
  replace (Z.to_nat (32 + len payload) - 32)%nat with (length payload) by (unfold len; lia).
  rewrite Nat.sub_diag. rewrite (slice_here payload (length payload)) by (try reflexivity; apply Nat.eqb_refl).
  rewrite drop_app_length, Z.eqb_refl, all_zero_zeros. reflexivity.
Qed.

(** Reading back an appended record: decoding the bytes [EncodeRecord]
    wrote returns the same address and exactly the payload that was encoded,
    and the recorded physical size is the number of bytes written. *)
Theorem DecodeRecord_EncodeRecord addr payload src :
  is_u64 addr -> bytes_ok payload -> EncodeRecord addr payload = Ok src ->
  exists h, DecodeRecord src = Ok (h, payload) /\ rh_Addr h = addr /\
    rh_PhysicalSize h = len src /\ rh_PayloadSize h = len payload /\ len src mod 8 = 0.
Proof.
  intros Ha Hp He. eexists. split; [now apply DecodeRecord_encoded with (addr := addr)|].
  apply EncodeRecord_layout in He as (total & Hs & _ & _ & Hl & _).
  apply PhysicalRecordSize_spec in Hs; [|apply len_nonneg]. rewrite Hl. cbn. repeat split; lia.
Qed.

Definition sample_payload : list Z := [7; 255; 0; 42; 9].
Definition sample_addr : Z := 3 * two32 + 64.

Lemma DecodeRecord_EncodeRecord_witness :
  exists src h, EncodeRecord sample_addr sample_payload = Ok src /\
    DecodeRecord src = Ok (h, sample_payload) /\ rh_Addr h = sample_addr /\
    rh_PhysicalSize h = len src /\ rh_PayloadSize h = len sample_payload /\ len src mod 8 = 0.
Proof.
  destruct (EncodeRecord sample_addr sample_payload) as [src|] eqn:E; [|vm_compute in E; discriminate].
  exists src.
  destruct (DecodeRecord_EncodeRecord sample_addr sample_payload src) as (h & H).
  - unfold is_u64, sample_addr; lia.
  - unfold sample_payload; solve_bytes.
  - exact E.
  - exists h. split; [reflexivity | exact H].
Defined.

(** The fields a successful decoding has checked. *)
Lemma DecodeRecordHeader_fields src h :
  bytes_ok src -> DecodeRecordHeader src = Ok h ->
  length src = 32%nat /\
  src = (recordMagic ++ put_le 2 FormatVersion ++ put_le 2 RecordHeaderSize ++
    put_le 4 (rh_PhysicalSize h) ++ put_le 4 (rh_PayloadSize h) ++ put_le 8 (rh_Addr h) ++
    put_le 4 (rh_PayloadCRC h)) ++ put_le 4 (Checksum (slice 0 28 src)) /\
  PhysicalRecordSize (rh_PayloadSize h) = Ok (rh_PhysicalSize h) /\
  VAddr_Valid (rh_Addr h) = true /\ MatchesPhysicalSize (rh_Addr h) (rh_PhysicalSize h) = true /\
  is_u64 (rh_Addr h) /\ is_u32 (rh_PayloadSize h).
Proof.
  intros Hb H. unfold DecodeRecordHeader in H. inv_ok H. apply Ok_inj in H as <-.
  cbn [rh_PhysicalSize rh_PayloadSize rh_Addr rh_PayloadCRC] in *.
  destruct (PhysicalRecordSize (u32 12 src)) as [want|] eqn:Hs; [|discriminate].
  bool_norm. subst want. unfold RecordHeaderSize in *.
  match goal with E : len src = 32 |- _ => apply (len_eq_iff _ 32) in E as Hl end.
  split; [exact Hl|]. split; [|split; [|repeat split]]; auto; try (apply u64_ok || apply u32_ok; auto; lia).
  rewrite <- !app_assoc. symmetry.
  repeat match goal with E : magic_is recordMagic src = true |- _ =>
    apply bool_decide_eq_true in E; cbn [length recordMagic] in E; rewrite <- E at 1 end.
  match goal with E : u16 4 src = _ |- _ => rewrite <- E end.
  match goal with E : u16 6 src = _ |- _ => rewrite <- E end.
  match goal with E : u32 28 src = _ |- _ => rewrite <- E end.
  unfold u16, u32, u64. cbn [Nat.add].
  repeat match goal with |- context [put_le ?n (get_le (slice ?lo ?hi src))] =>
    rewrite (put_slice lo hi src Hb ltac:(lia) : put_le n (get_le (slice lo hi src)) = slice lo hi src) end.
  rewrite !slice_cat by lia. rewrite <- Hl. apply slice_full.
Qed.

(** ** Decoding accepts only encodings *)

Lemma EncodeRecord_decoded src h payload :
  bytes_ok src -> DecodeRecord src = Ok (h, payload) ->
  EncodeRecord (rh_Addr h) payload = Ok src /\ is_u64 (rh_Addr h) /\ bytes_ok payload.
Proof.
  intros Hb H. unfold DecodeRecord, RecordHeaderSize in H. inv_ok H.
  apply Ok_inj in H. injection H as -> <-.
  apply DecodeRecordHeader_fields in Hcall as (Hl32 & Hhdr & Hsz & Hv & Hm & Hua & Hup);
    [|now apply bytes_ok_slice].
  bool_norm. unfold is_u32 in Hup.
  set (pe := Z.to_nat (32 + rh_PayloadSize h)) in *. set (payload := slice 32 pe src) in *.
  pose proof (PhysicalRecordSize_spec _ _ (proj1 Hup) Hsz) as (Ht & _ & _).
  assert (Hlen : len payload = rh_PayloadSize h).
  { unfold payload, len, pe. rewrite length_slice; unfold len in *; lia. }
  split; [|split; [exact Hua | now apply bytes_ok_slice]].
  unfold EncodeRecord, EncodeRecordTo. rewrite Hlen, Hsz, Z.eqb_refl, Hv, Hm. cbn [negb orb].
  f_equal.
  match goal with E : Checksum payload = _ |- _ => rewrite <- E in Hhdr end.
  rewrite <- Hlen in Hhdr.
  change (slice 0 32 src = record_header_body (rh_Addr h) (rh_PhysicalSize h) payload ++
    put_le 4 (Checksum (slice 0 28 (slice 0 32 src)))) in Hhdr.
  assert (E28 : slice 0 28 (slice 0 32 src) = record_header_body (rh_Addr h) (rh_PhysicalSize h) payload)
    by (rewrite Hhdr; fields; reflexivity).
  rewrite E28 in Hhdr. rewrite app_assoc, <- Hhdr.
  match goal with E : all_zero (drop pe src) = true |- _ => apply all_zero_spec in E as Hpad end.
  replace (zeros (Z.to_nat (rh_PhysicalSize h - RecordHeaderSize - rh_PayloadSize h))) with (drop pe src).
  - unfold payload. rewrite <- slice_drop, !slice_cat; unfold pe, len in *; try lia. apply slice_full.
  - rewrite Hpad, length_drop. f_equal. unfold pe, RecordHeaderSize, len in *. lia.
Qed.

(** The envelope is canonical: a buffer that [DecodeRecord] accepts is
    exactly what [EncodeRecord] writes for the decoded address and payload, so
    no two different byte strings decode to the same record. *)
Theorem EncodeRecord_DecodeRecord src h payload :
  bytes_ok src -> DecodeRecord src = Ok (h, payload) ->
  EncodeRecord (rh_Addr h) payload = Ok src.
Proof. intros Hb H. now apply EncodeRecord_decoded. Qed.

Definition sample_record : list Z :=
  Eval vm_compute in match EncodeRecord sample_addr sample_payload with Ok s => s | Err _ => [] end.

Lemma sample_record_bytes : bytes_ok sample_record.
Proof. unfold sample_record; solve_bytes. Qed.

Lemma EncodeRecord_DecodeRecord_witness :
  exists h, DecodeRecord sample_record = Ok (h, sample_payload) /\
    EncodeRecord (rh_Addr h) sample_payload = Ok sample_record.
Proof.
  eexists. split; [vm_compute; reflexivity|].
  eapply EncodeRecord_DecodeRecord; [exact sample_record_bytes | vm_compute; reflexivity].
Defined.

(** Damage is detected: if any single byte of a written record (header,
    checksum fields, payload or padding) reads back different, [DecodeRecord]
    reports an error instead of returning data. *)
Theorem DecodeRecord_detects_damage addr payload src src' :
  is_u64 addr -> bytes_ok payload -> EncodeRecord addr payload = Ok src ->
  bytes_ok src' -> damaged src src' -> exists e, DecodeRecord src' = Err e.
Proof.
  intros Ha Hp He Hb' Hd. destruct (DecodeRecord src') as [[h' p']|e] eqn:Hdec; [exfalso|eauto].
  apply EncodeRecord_decoded in Hdec as (He' & Ha' & Hp'); [|exact Hb'].
  pose proof (damaged_length _ _ Hd) as Hlen.
  apply EncodeRecord_layout in He as (t & Hs & Hv & Hm & Hl & Hsrc), He' as (t' & Hs' & Hv' & Hm' & Hl' & Hsrc').
  cbv zeta in *. set (head := record_header_body addr t payload) in *.
  set (head' := record_header_body (rh_Addr h') t' p') in *.
  assert (Hh : length head = length head')
    by (unfold head, head'; now rewrite !(@has_len _ _ (HasLen_record_header_body _ _ _))).
  assert (Hu : is_u32 (Checksum head)) by apply Checksum_u32, bytes_record_header_body.
  assert (Hu' : is_u32 (Checksum head')) by apply Checksum_u32, bytes_record_header_body.
  rewrite Hsrc, Hsrc', <- !app_assoc in Hd.
  apply damaged_app in Hd as [[Hd Hrest]|[Hhead Hd]]; [| |exact Hh].
  - (* damage in the header: its checksum field is unchanged *)
    apply app_inj_1 in Hrest as [Hc _]; [|now rewrite !length_put_le].
    apply put_le_inj_32 in Hc; auto. revert Hc. now apply Checksum_damaged; try apply bytes_record_header_body.
  - rewrite <- Hhead in Hd. apply damaged_app in Hd as [[Hd _]|[_ Hd]]; [| |now rewrite !length_put_le].
    { now apply damaged_neq in Hd. }
    (* same header, so the same sizes and payload checksum *)
    pose proof (DecodeRecordHeader_encoded addr t payload Ha Hp Hs Hv Hm) as D.
    pose proof (DecodeRecordHeader_encoded _ t' p' Ha' Hp' Hs' Hv' Hm') as D'.
    cbv zeta in D, D'. fold head in D. fold head' in D'. rewrite <- Hhead, D in D'.
    apply Ok_inj in D'. injection D' as <- Hpl _ Hcrc.
    apply damaged_app in Hd as [[Hd _]|[-> Hd]]; [| |unfold len in Hpl; lia].
    + revert Hcrc. now apply Checksum_damaged.
    + now apply damaged_neq in Hd.
Qed.

Lemma DecodeRecord_detects_damage_witness :
  EncodeRecord sample_addr sample_payload = Ok sample_record /\
  exists e, DecodeRecord (<[33%nat := 254]> sample_record) = Err e.
Proof.
  split; [vm_compute; reflexivity|].
  apply (DecodeRecord_detects_damage sample_addr sample_payload sample_record).
  - unfold is_u64, sample_addr; lia.
  - unfold sample_payload; solve_bytes.
  - vm_compute; reflexivity.
  - apply Forall_insert; [exact sample_record_bytes | unfold is_u8; lia].
  - eapply (damaged_insert 33 254 sample_record); [vm_compute; reflexivity | lia].
Defined.

(** ** Segment header and footer *)

Lemma bytes_segmentHeader_body h : segmentHeader_u h -> bytes_ok (segmentHeader_body h).
Proof. intros (_ & Hb & _). unfold segmentHeader_body, segmentHeaderMagic. solve_bytes. Qed.

Lemma bytes_segmentFooter_body f : bytes_ok (segmentFooter_body f).
Proof. unfold segmentFooter_body, segmentFooterMagic. solve_bytes. Qed.

(** Segment headers read back: [DecodeSegmentHeader] returns the header
    that [EncodeSegmentHeader] wrote. *)
Theorem DecodeSegmentHeader_EncodeSegmentHeader h src :
  segmentHeader_u h -> EncodeSegmentHeader h = Ok src -> DecodeSegmentHeader src = Ok h.
Proof.
  intros Hu H. pose proof (bytes_segmentHeader_body h Hu) as Hbb.
  pose proof (Checksum_u32 _ Hbb) as Hc. unfold EncodeSegmentHeader in H. inv_ok H.
  apply Ok_inj in H as <-. destruct Hu as (Hl & Hb & H1 & H2 & H3).
  assert (HasLen (segmentHeader_body h) 60) by (unfold HasLen; now apply length_segmentHeader_body).
  assert (HasLen (sh_LogID h) 16) by exact Hl.
  set (body := segmentHeader_body h) in *. set (src := body ++ put_le 4 (Checksum body)).
  assert (E1 : len src = 64) by (unfold src; rewrite len_app, !(HasLen_len _ _ _); reflexivity).
  assert (E2 : slice 0 60 src = body) by (unfold src; fields; reflexivity).
  assert (E3 : u32 60 src = Checksum body) by (unfold src; fields; now apply get_put_32).
  assert (E4 : u32 12 src = sh_SegmentID h /\ u32 16 src = sh_SegmentSize h /\
    u32 20 src = sh_PreviousSegment h /\ slice 24 40 src = sh_LogID h /\ u32 40 src = 64 /\
    slice 44 60 src = zeros 16 /\ u16 8 src = 2 /\ u16 10 src = 64 /\
    magic_is segmentHeaderMagic src = true).
  { unfold src, body, segmentHeader_body. rewrite <- !app_assoc. fields.
    rewrite !get_put_32, magic_is_app by (assumption || (unfold is_u32, SegmentHeaderSize; lia)).
    repeat split; reflexivity. }
  destruct E4 as (F1 & F2 & F3 & F4 & F5 & F6 & F7 & F8 & F9).
  unfold DecodeSegmentHeader. rewrite E1, E2, E3, F1, F2, F3, F4, F5, F6, F7, F8, F9, (Z.eqb_refl (Checksum body)).
  destruct h as [lid sid prev size]. cbn [sh_LogID sh_SegmentID sh_PreviousSegment sh_SegmentSize].
  rewrite Hguard. reflexivity.
Qed.

Lemma DecodeSegmentHeader_EncodeSegmentHeader_witness :
  exists src, EncodeSegmentHeader (mkSegmentHeader (1 :: zeros 15) 3 2 4096) = Ok src /\
    DecodeSegmentHeader src = Ok (mkSegmentHeader (1 :: zeros 15) 3 2 4096).
Proof.
  eexists. split; [vm_compute; reflexivity|].
  apply DecodeSegmentHeader_EncodeSegmentHeader; [|vm_compute; reflexivity].
  unfold segmentHeader_u, is_u32; cbn [sh_LogID sh_SegmentID sh_PreviousSegment sh_SegmentSize].
  split; [reflexivity|]. split; [solve_bytes|]. lia.
Defined.

(** Segment footers read back: [DecodeSegmentFooter] returns the footer
    that [EncodeSegmentFooter] wrote. *)
Theorem DecodeSegmentFooter_EncodeSegmentFooter f src :
  segmentFooter_u f -> EncodeSegmentFooter f = Ok src -> DecodeSegmentFooter src = Ok f.
Proof.
  intros (H1 & H2 & H3 & H4 & H5) H. pose proof (Checksum_u32 _ (bytes_segmentFooter_body f)) as Hc.
  unfold EncodeSegmentFooter in H. inv_ok H. apply Ok_inj in H as <-. bool_norm.
  set (body := segmentFooter_body f) in *. set (src := body ++ put_le 4 (Checksum body)).
  assert (E1 : len src = 64) by (unfold src, body; rewrite len_app, !(HasLen_len _ _ _); reflexivity).
  assert (E2 : slice 0 60 src = body) by (unfold src, body; fields; reflexivity).
  assert (E3 : u32 60 src = Checksum body) by (unfold src, body at 1; fields; now apply get_put_32).
  assert (E4 : u32 12 src = sf_SegmentID f /\ u32 16 src = sf_DataEnd f /\
    u64 24 src = sf_FirstAddr f /\ u64 32 src = sf_LastAddr f /\ u64 40 src = sf_RecordCount f /\
    slice 20 24 src = zeros 4 /\ slice 48 60 src = zeros 12 /\ u16 8 src = 2 /\ u16 10 src = 64 /\
    magic_is segmentFooterMagic src = true).
  { unfold src, body, segmentFooter_body. rewrite <- !app_assoc. fields.
    rewrite !get_put_32, !get_put_64, magic_is_app by assumption. repeat split; reflexivity. }
  destruct E4 as (F1 & F2 & F3 & F4 & F5 & F6 & F7 & F8 & F9 & F10).
  unfold DecodeSegmentFooter.
  rewrite E1, E2, E3, F1, F2, F3, F4, F5, F6, F7, F8, F9, F10, (Z.eqb_refl (Checksum body)).
  destruct f as [sid de fa la rc]. cbn [sf_SegmentID sf_DataEnd sf_FirstAddr sf_LastAddr sf_RecordCount].
  rewrite Hguard. reflexivity.
Qed.

Lemma DecodeSegmentFooter_EncodeSegmentFooter_witness :
  exists src, EncodeSegmentFooter (mkSegmentFooter 3 104 sample_addr sample_addr 1) = Ok src /\
    DecodeSegmentFooter src = Ok (mkSegmentFooter 3 104 sample_addr sample_addr 1).
Proof.
  eexists. split; [vm_compute; reflexivity|].
  apply DecodeSegmentFooter_EncodeSegmentFooter; [|vm_compute; reflexivity].
  unfold segmentFooter_u, is_u32, is_u64, sample_addr; cbn; lia.
Defined.
