(* ===== verification/RecordCodec.v ===== *)
(** * The ridstore record protocol

    Models [internal/recordcodec] (types.go, codec.go): the payloads that
    ridstore appends to RecordLog.  Shows that every payload type round-trips,
    that decoding is canonical and that a decoded commit group satisfies the
    semantic checks ([validateDescriptors]) replay relies on. *)
From S2P Require Import Prelude Bytes Addr.

Definition protoVersion : Z := 3.
Definition CommonHeaderSize : Z := 16.
Definition PutHeaderSize : Z := 32.
Definition CommitGroupHeadSize : Z := 32.
Definition DescriptorHeadSize : Z := 40.
Definition MutationSize : Z := 32.
Definition FixedRecordSize : Z := 32.

(** [RecordType], [DescriptorKind] and [Operation] are uint8 on the wire and any
    byte can be read back, so they are integers with named values. *)
Definition RecordTypePut : Z := 1.
Definition RecordTypeCommitGroup : Z := 2.
Definition RecordTypeAbort : Z := 3.
Definition RecordTypeIDReserve : Z := 4.
Definition RecordTypeBatchIDReserve : Z := 5.
Definition RecordTypeCheckpoint : Z := 6.

Definition DescriptorUserCommit : Z := 1.
Definition DescriptorRelocation : Z := 2.

Definition OperationPut : Z := 1.
Definition OperationDelete : Z := 2.
Definition OperationRelocate : Z := 3.

Record PutRecord := mkPut { put_OriginBatchID : Z; put_RecordID : Z; put_Value : list Z }.
Record PutMetadata := mkPutMetadata { pm_OriginBatchID : Z; pm_RecordID : Z; pm_ValueBytes : Z }.

Record Mutation := mkMutation
  { mu_RecordID : Z; mu_NewAddr : Z; mu_ExpectedOldAddr : Z; mu_Operation : Z; mu_PhysicalSize : Z }.

Record Descriptor := mkDescriptor
  { de_Kind : Z; de_BatchID : Z; de_CommitSeq : Z; de_LogicalPayloadBytes : Z;
    de_Mutations : list Mutation }.

Record AbortRecord := mkAbort { ab_BatchID : Z; ab_Reason : Z }.
Record ReserveRecord := mkReserve { rs_HighExclusive : Z }.
Record CheckpointMarker := mkMarker { cm_CoveredCommitSeq : Z }.

Definition protocolMagic : list Z := [82; 83; 80; 50].

(** ** Sizes *)

Definition checkedSize (a b : Z) : res Z :=
  raise [recordcodec_ErrTooLarge] when (MaxUint32 <? a) || (MaxUint32 - a <? b) ;;
  Ok (a + b).

Definition checkedMul (a b : Z) : option Z :=
  if negb (a =? 0) && (MaxUint64 / a <? b) then None else Some (a * b).

Definition PutPayloadSize (valueBytes : Z) : res Z := checkedSize PutHeaderSize valueBytes.

Definition DescriptorSize (mutationCount : Z) : res Z :=
  match checkedMul mutationCount MutationSize with
  | None => Err [recordcodec_ErrTooLarge]
  | Some mutations => checkedSize DescriptorHeadSize mutations
  end.

Fixpoint CommitGroupPayloadSize_loop (total : Z) (descriptors : list Descriptor) : res Z :=
  match descriptors with
  | [] => Ok total
  | d :: rest =>
      match DescriptorSize (len (de_Mutations d)) with
      | Err _ => Err [recordcodec_ErrTooLarge]
      | Ok size =>
          raise [recordcodec_ErrTooLarge] when MaxUint32 - size <? total ;;
          CommitGroupPayloadSize_loop (total + size) rest
      end
  end.

Definition CommitGroupPayloadSize (descriptors : list Descriptor) : res Z :=
  raise [recordcodec_ErrInvalid] when (len descriptors =? 0) || (MaxUint32 <? len descriptors) ;;
  CommitGroupPayloadSize_loop CommitGroupHeadSize descriptors.

(** ** The common header *)

(** The first 16 bytes of a payload of [total] bytes. *)
Definition encodeHeader (typ headerSize total : Z) : list Z :=
  protocolMagic ++ put_le 2 protoVersion ++ put_le 1 typ ++ zeros 1 ++ put_le 2 headerSize ++
  zeros 2 ++ put_le 4 total.

Record header := mkHeader { hd_Type : Z; hd_HeaderSize : Z; hd_TotalSize : Z }.

Definition decodeHeader (src : list Z) (typ headerSize : Z) : res header :=
  raise [recordcodec_ErrCorrupt] when
    (len src <? CommonHeaderSize) || (MaxUint32 <? len src) ||
    negb (bool_decide (slice 0 4 src = protocolMagic)) ;;
  raise [recordcodec_ErrUnsupported] when negb (u16 4 src =? protoVersion) ;;
  let h := mkHeader (byte_at 6 src) (u16 8 src) (u32 12 src) in
  raise [recordcodec_ErrCorrupt] when
    negb (hd_Type h =? typ) || negb (byte_at 7 src =? 0) || negb (hd_HeaderSize h =? headerSize) ||
    negb (u16 10 src =? 0) || negb (hd_TotalSize h =? len src) || (len src <? headerSize) ;;
  Ok h.

Definition TypeOf (src : list Z) : res Z :=
  raise [recordcodec_ErrCorrupt] when len src <? CommonHeaderSize ;;
  let typ := byte_at 6 src in
  let headerSize :=
    if typ =? RecordTypePut then Some PutHeaderSize
    else if typ =? RecordTypeCommitGroup then Some CommitGroupHeadSize
    else if (typ =? RecordTypeAbort) || (typ =? RecordTypeIDReserve) ||
            (typ =? RecordTypeBatchIDReserve) || (typ =? RecordTypeCheckpoint) then Some FixedRecordSize
    else None in
  match headerSize with
  | None => Err [recordcodec_ErrCorrupt]
  | Some headerSize => let! _ := decodeHeader src typ headerSize in Ok typ
  end.

(** ** Put *)

Definition EncodePut (record : PutRecord) (maxValueSize : Z) : res (list Z) :=
  raise [recordcodec_ErrInvalid] when
    (put_OriginBatchID record =? 0) || (put_RecordID record =? 0) ||
    (maxValueSize <? len (put_Value record)) ;;
  let! total := PutPayloadSize (len (put_Value record)) in
  Ok (encodeHeader RecordTypePut PutHeaderSize total ++
      put_le 8 (put_OriginBatchID record) ++ put_le 8 (put_RecordID record) ++ put_Value record).

Definition DecodePut (src : list Z) (maxValueSize : Z) : res PutRecord :=
  let! _ := decodeHeader src RecordTypePut PutHeaderSize in
  let record := mkPut (u64 16 src) (u64 24 src) (drop 32 src) in
  raise [recordcodec_ErrCorrupt] when
    (put_OriginBatchID record =? 0) || (put_RecordID record =? 0) ||
    (maxValueSize <? len (put_Value record)) ;;
  Ok record.

Definition DecodePutMetadata (src : list Z) (payloadSize maxValueSize : Z) : res PutMetadata :=
  raise [recordcodec_ErrCorrupt] when
    negb (len src =? PutHeaderSize) || (payloadSize <? PutHeaderSize) ||
    negb (bool_decide (slice 0 4 src = protocolMagic)) ;;
  raise [recordcodec_ErrUnsupported] when negb (u16 4 src =? protoVersion) ;;
  raise [recordcodec_ErrCorrupt] when
    negb (byte_at 6 src =? RecordTypePut) || negb (byte_at 7 src =? 0) ||
    negb (u16 8 src =? PutHeaderSize) || negb (u16 10 src =? 0) || negb (u32 12 src =? payloadSize) ;;
  let result := mkPutMetadata (u64 16 src) (u64 24 src) (payloadSize - PutHeaderSize) in
  raise [recordcodec_ErrCorrupt] when
    (pm_OriginBatchID result =? 0) || (pm_RecordID result =? 0) ||
    (maxValueSize <? pm_ValueBytes result) ;;
  Ok result.

(** ** Descriptor semantics *)

Definition mutation_ok (kind : Z) (m : Mutation) : bool :=
  let refValid := RecordRef_Valid (mkRef (mu_NewAddr m) (mu_PhysicalSize m)) in
  if kind =? DescriptorUserCommit then
    if mu_Operation m =? OperationPut then refValid && (mu_ExpectedOldAddr m =? 0)
    else if mu_Operation m =? OperationDelete then
      (mu_NewAddr m =? 0) && (mu_ExpectedOldAddr m =? 0) && (mu_PhysicalSize m =? 0)
    else false
  else if kind =? DescriptorRelocation then
    (mu_Operation m =? OperationRelocate) && refValid && VAddr_Valid (mu_ExpectedOldAddr m) &&
    negb (mu_NewAddr m =? mu_ExpectedOldAddr m)
  else false.

(** [previousID] is [None] before the first mutation ([index != 0]). *)
Fixpoint mutations_ok (kind : Z) (previousID : option Z) (ms : list Mutation) : bool :=
  match ms with
  | [] => true
  | m :: rest =>
      negb ((mu_RecordID m =? 0) ||
            match previousID with Some p => mu_RecordID m <=? p | None => false end) &&
      mutation_ok kind m && mutations_ok kind (Some (mu_RecordID m)) rest
  end.

Fixpoint validateDescriptors_loop (previousSeq : option Z) (batchIDs : gset Z) (ds : list Descriptor) : bool :=
  match ds with
  | [] => true
  | d :: rest =>
      negb ((de_BatchID d =? 0) || (de_CommitSeq d =? 0) ||
            match previousSeq with
            | Some p => (p =? MaxUint64) || negb (de_CommitSeq d =? p + 1)
            | None => false
            end) &&
      negb (bool_decide (de_BatchID d ∈ batchIDs)) &&
      negb ((de_Kind d =? DescriptorRelocation) && (len (de_Mutations d) =? 0)) &&
      mutations_ok (de_Kind d) None (de_Mutations d) &&
      validateDescriptors_loop (Some (de_CommitSeq d)) ({[de_BatchID d]} ∪ batchIDs) rest
  end.

(** [validateDescriptors(ds) == nil] *)
Definition validateDescriptors (ds : list Descriptor) : bool :=
  negb (len ds =? 0) && validateDescriptors_loop None ∅ ds.

(** ** Commit group *)

Definition encodeMutation (m : Mutation) : list Z :=
  put_le 8 (mu_RecordID m) ++ put_le 8 (mu_NewAddr m) ++ put_le 8 (mu_ExpectedOldAddr m) ++
  put_le 1 (mu_Operation m) ++ put_le 4 (mu_PhysicalSize m) ++ zeros 3.

Definition encodeDescriptor (d : Descriptor) : list Z :=
  put_le 1 (de_Kind d) ++ zeros 1 ++ put_le 2 DescriptorHeadSize ++
  put_le 4 (len (de_Mutations d)) ++ put_le 8 (de_BatchID d) ++ put_le 8 (de_CommitSeq d) ++
  put_le 8 (de_LogicalPayloadBytes d) ++
  put_le 4 (match DescriptorSize (len (de_Mutations d)) with Ok size => size | Err _ => 0 end) ++
  zeros 4 ++ concat (map encodeMutation (de_Mutations d)).

Definition totalMutations (ds : list Descriptor) : Z :=
  foldr (fun d acc => len (de_Mutations d) + acc) 0 ds.

Definition EncodeCommitGroup (ds : list Descriptor) (maxPayloadSize : Z) : res (list Z) :=
  let! total := CommitGroupPayloadSize ds in
  raise [recordcodec_ErrTooLarge] when maxPayloadSize <? total ;;
  raise [recordcodec_ErrInvalid] when negb (validateDescriptors ds) ;;
  raise [recordcodec_ErrTooLarge] when MaxUint32 <? totalMutations ds ;;
  Ok (encodeHeader RecordTypeCommitGroup CommitGroupHeadSize total ++
      put_le 4 (len ds) ++ put_le 4 (totalMutations ds) ++
      put_le 8 (match ds with d :: _ => de_CommitSeq d | [] => 0 end) ++
      concat (map encodeDescriptor ds)).

(** [rest] is [src[entryOffset:]]. *)
Fixpoint decodeMutations (n : nat) (rest : list Z) : res (list Mutation) :=
  match n with
  | O => Ok []
  | S n =>
      let entry := slice 0 32 rest in
      raise [recordcodec_ErrCorrupt] when negb (all_zero (slice 29 32 entry)) ;;
      let m := mkMutation (u64 0 entry) (u64 8 entry) (u64 16 entry) (byte_at 24 entry) (u32 25 entry) in
      let! ms := decodeMutations n (drop 32 rest) in
      Ok (m :: ms)
  end.

(** [rest] is [src[offset:]]; returns the descriptors, the mutation total and
    the bytes after the last descriptor. *)
Fixpoint decodeDescriptors (n : nat) (rest : list Z) (total maxMutations : Z)
    : res (list Descriptor * Z * list Z) :=
  match n with
  | O => Ok ([], total, rest)
  | S n =>
      raise [recordcodec_ErrCorrupt] when len rest <? DescriptorHeadSize ;;
      let headerBytes := slice 0 40 rest in
      raise [recordcodec_ErrCorrupt] when
        negb (byte_at 1 headerBytes =? 0) || negb (u16 2 headerBytes =? DescriptorHeadSize) ||
        negb (u32 36 headerBytes =? 0) ;;
      let mutationCount := u32 4 headerBytes in
      let descriptorSize := u32 32 headerBytes in
      raise [recordcodec_ErrCorrupt] when
        match DescriptorSize mutationCount with
        | Err _ => true
        | Ok wantSize => negb (descriptorSize =? wantSize) || (len rest <? descriptorSize) ||
                         (maxMutations - total <? mutationCount)
        end ;;
      let! ms := decodeMutations (Z.to_nat mutationCount) (drop 40 rest) in
      let d := mkDescriptor (byte_at 0 headerBytes) (u64 8 headerBytes) (u64 16 headerBytes)
                 (u64 24 headerBytes) ms in
      let! (ds, total', rest') :=
        decodeDescriptors n (drop (Z.to_nat descriptorSize) rest) (total + mutationCount) maxMutations in
      Ok (d :: ds, total', rest')
  end.

Definition DecodeCommitGroup (src : list Z) (maxPayloadSize maxDescriptors maxMutations : Z)
    : res (list Descriptor) :=
  raise [recordcodec_ErrTooLarge] when maxPayloadSize <? len src ;;
  let! _ := decodeHeader src RecordTypeCommitGroup CommitGroupHeadSize in
  let count := u32 16 src in
  let wantMutations := u32 20 src in
  let firstSeq := u64 24 src in
  let maxByInput := (len src - CommitGroupHeadSize) / DescriptorHeadSize in
  raise [recordcodec_ErrCorrupt] when
    (count =? 0) || (maxDescriptors <? count) || (maxByInput <? count) ||
    (maxMutations <? wantMutations) || (firstSeq =? 0) ;;
  let! (descriptors, total, rest) := decodeDescriptors (Z.to_nat count) (drop 32 src) 0 maxMutations in
  raise [recordcodec_ErrCorrupt] when negb (len rest =? 0) || negb (total =? wantMutations) ;;
  raise [recordcodec_ErrCorrupt] when negb (validateDescriptors descriptors) ;;
  raise [recordcodec_ErrCorrupt] when
    negb (match descriptors with d :: _ => de_CommitSeq d | [] => 0 end =? firstSeq) ;;
  Ok descriptors.

(** ** Abort, reserve and checkpoint records *)

Definition EncodeAbort (record : AbortRecord) : res (list Z) :=
  raise [recordcodec_ErrInvalid] when ab_BatchID record =? 0 ;;
  Ok (encodeHeader RecordTypeAbort FixedRecordSize FixedRecordSize ++
      put_le 8 (ab_BatchID record) ++ put_le 4 (ab_Reason record) ++ zeros 4).

Definition DecodeAbort (src : list Z) : res AbortRecord :=
  let! _ := decodeHeader src RecordTypeAbort FixedRecordSize in
  let record := mkAbort (u64 16 src) (u32 24 src) in
  raise [recordcodec_ErrCorrupt] when
    (ab_BatchID record =? 0) || negb (all_zero (slice 28 32 src)) ;;
  Ok record.

Definition reserveType (typ : Z) : bool :=
  (typ =? RecordTypeIDReserve) || (typ =? RecordTypeBatchIDReserve).

Definition EncodeReserve (typ : Z) (record : ReserveRecord) : res (list Z) :=
  raise [recordcodec_ErrInvalid] when negb (reserveType typ) || (rs_HighExclusive record =? 0) ;;
  Ok (encodeHeader typ FixedRecordSize FixedRecordSize ++
      put_le 8 (rs_HighExclusive record) ++ zeros 8).

Definition DecodeReserve (src : list Z) (typ : Z) : res ReserveRecord :=
  raise [recordcodec_ErrInvalid] when negb (reserveType typ) ;;
  let! _ := decodeHeader src typ FixedRecordSize in
  let record := mkReserve (u64 16 src) in
  raise [recordcodec_ErrCorrupt] when
    (rs_HighExclusive record =? 0) || negb (all_zero (slice 24 32 src)) ;;
  Ok record.

Definition EncodeCheckpoint (record : CheckpointMarker) : list Z :=
  encodeHeader RecordTypeCheckpoint FixedRecordSize FixedRecordSize ++
  put_le 8 (cm_CoveredCommitSeq record) ++ zeros 8.

Definition DecodeCheckpoint (src : list Z) : res CheckpointMarker :=
  let! _ := decodeHeader src RecordTypeCheckpoint FixedRecordSize in
  raise [recordcodec_ErrCorrupt] when negb (all_zero (slice 24 32 src)) ;;
  Ok (mkMarker (u64 16 src)).

(** ** Lemmas *)

#[export] Instance HasLen_encodeHeader typ hs total : HasLen (encodeHeader typ hs total) 16.
Proof.
  unfold HasLen, encodeHeader, zeros. rewrite !length_app, !length_put_le, !length_replicate.
  reflexivity.
Qed.

#[export] Instance HasLen_encodeMutation m : HasLen (encodeMutation m) 32.
Proof.
  unfold HasLen, encodeMutation, zeros. rewrite !length_app, !length_put_le, length_replicate.
  reflexivity.
Qed.

Lemma len_encodeHeader typ hs total : len (encodeHeader typ hs total) = Z.of_nat 16.
Proof. exact (HasLen_len _ _ (_ : HasLen _ _)). Qed.
Lemma len_encodeMutation m : len (encodeMutation m) = Z.of_nat 32.
Proof. exact (HasLen_len _ _ (_ : HasLen _ _)). Qed.
#[export] Hint Rewrite len_encodeHeader len_encodeMutation : lens.

Lemma byte_put v rest : is_u8 v -> byte_at 0 (put_le 1 v ++ rest) = v.
Proof.
  intros H. change (v mod 256 = v). apply Z.mod_small. exact H.
Qed.

Lemma byte_zero n rest : byte_at 0 (zeros (S n) ++ rest) = 0.
Proof. reflexivity. Qed.

Lemma bytes_encodeHeader typ hs total : bytes_ok (encodeHeader typ hs total).
Proof. unfold encodeHeader, protocolMagic. solve_bytes. Qed.

Lemma decodeHeader_encode typ hs total rest :
  is_u8 typ -> is_u16 hs -> 16 <= total <= MaxUint32 -> hs <= total -> len rest = total - 16 ->
  decodeHeader (encodeHeader typ hs total ++ rest) typ hs = Ok (mkHeader typ hs total).
Proof.
  intros Ht Hh Htot Hle Hr. set (src := encodeHeader typ hs total ++ rest).
  assert (E1 : len src = total).
  { unfold src. autorewrite with lens; rewrite Hr. lia. }
  assert (E2 : slice 0 4 src = protocolMagic /\ u16 4 src = 3 /\ byte_at 6 src = typ /\
    byte_at 7 src = 0 /\ u16 8 src = hs /\ u16 10 src = 0 /\ u32 12 src = total).
  { unfold src, encodeHeader. rewrite <- !app_assoc. fields.
    rewrite byte_put, !get_put_16, get_put_32 by (assumption || (unfold is_u16, is_u32, protoVersion; lia)).
    repeat split; reflexivity. }
  destruct E2 as (F1 & F2 & F3 & F4 & F5 & F6 & F7).
  unfold decodeHeader. rewrite E1, F1, F2, F3, F4, F5, F6, F7.
  cbn [hd_Type hd_HeaderSize hd_TotalSize]. rewrite !Z.eqb_refl, bool_decide_eq_true_2 by reflexivity.
  pass_guard. { unfold CommonHeaderSize in Hg. cbn in Hg. rewrite orb_false_r in Hg.
    apply orb_true_iff in Hg as [Hg|Hg]; bool_norm; lia. }
  pass_guard. { discriminate. }
  pass_guard. { cbn in Hg. bool_norm. lia. }
  reflexivity.
Qed.

Lemma decodeHeader_canonical src typ hs h :
  bytes_ok src -> decodeHeader src typ hs = Ok h ->
  src = encodeHeader typ hs (len src) ++ drop 16 src /\ 16 <= len src <= MaxUint32 /\ hs <= len src /\
  is_u8 typ /\ is_u16 hs.
Proof.
  intros Hb H. unfold decodeHeader, CommonHeaderSize in H. inv_ok H. clear H.
  cbn [hd_Type hd_HeaderSize hd_TotalSize] in *. bool_norm.
  assert (Hl : (16 <= length src)%nat) by (unfold len in *; lia).
  split; [|split; [lia|split; [lia|]]].
  2:{ split.
      - match goal with E : byte_at 6 src = typ |- _ => rewrite <- E end. now apply byte_at_ok.
      - match goal with E : u16 8 src = hs |- _ => rewrite <- E end.
        pose proof (slice_range 8 10 src Hb ltac:(lia)) as Hr. exact Hr. }
  unfold encodeHeader. rewrite <- !app_assoc.
  replace (zeros 1) with (slice 7 8 src) by
    (rewrite (slice_byte 7) by lia; match goal with E : byte_at 7 src = 0 |- _ => rewrite E end; reflexivity).
  replace (put_le 1 typ) with (slice 6 7 src) by
    (rewrite (slice_byte 6) by lia; match goal with E : byte_at 6 src = typ |- _ => rewrite E end;
     change (put_le 1 typ) with [typ mod 256]; f_equal;
     symmetry; apply Z.mod_small; match goal with E : byte_at 6 src = typ |- _ => rewrite <- E end;
     apply byte_at_ok, Hb).
  replace (zeros 2) with (put_le 2 (u16 10 src)) by
    (match goal with E : u16 10 src = 0 |- _ => rewrite E end; reflexivity).
  match goal with E : u16 4 src = _ |- _ => rewrite <- E end.
  match goal with E : u16 8 src = hs |- _ => rewrite <- E end.
  match goal with E : u32 12 src = _ |- _ => rewrite <- E end.
  match goal with E : slice 0 4 src = _ |- _ => rewrite <- E end.
  unfold u16, u32. cbn [Nat.add].
  repeat match goal with |- context [put_le ?n (get_le (slice ?lo ?hi src))] =>
    rewrite (put_slice lo hi src Hb ltac:(lia) : put_le n (get_le (slice lo hi src)) = slice lo hi src) end.
  rewrite <- slice_drop, !slice_cat by lia. symmetry. apply slice_full.
Qed.

(** [TypeOf] reads the type byte of any well-formed header. *)
Lemma TypeOf_encode typ hs total rest :
  (typ = RecordTypePut \/ typ = RecordTypeCommitGroup \/ typ = RecordTypeAbort \/
   typ = RecordTypeIDReserve \/ typ = RecordTypeBatchIDReserve \/ typ = RecordTypeCheckpoint) ->
  hs = 32 -> 32 <= total <= MaxUint32 -> len rest = total - 16 ->
  TypeOf (encodeHeader typ hs total ++ rest) = Ok typ.
Proof.
  intros Ht -> Htot Hr.
  assert (Hu : is_u8 typ) by (unfold is_u8; destruct Ht as [->|[->|[->|[->|[->| ->]]]]]; cbv; split; congruence).
  assert (E1 : len (encodeHeader typ 32 total ++ rest) = total).
  { autorewrite with lens; rewrite Hr. lia. }
  assert (E2 : byte_at 6 (encodeHeader typ 32 total ++ rest) = typ).
  { unfold encodeHeader. rewrite <- !app_assoc. fields. now apply byte_put. }
  pose proof (decodeHeader_encode typ 32 total rest Hu ltac:(unfold is_u16; lia) ltac:(lia) ltac:(lia) Hr) as Hd.
  unfold TypeOf. rewrite E1, E2. unfold CommonHeaderSize.
  pass_guard. { bool_norm. lia. }
  destruct Ht as [->|[->|[->|[->|[->| ->]]]]]; cbn -[decodeHeader encodeHeader];
    change FixedRecordSize with 32; change PutHeaderSize with 32; change CommitGroupHeadSize with 32;
    rewrite Hd; reflexivity.
Qed.

(** ** Round trips of the fixed-shape payloads *)

Definition put_u (r : PutRecord) : Prop :=
  is_u64 (put_OriginBatchID r) /\ is_u64 (put_RecordID r) /\ bytes_ok (put_Value r).

Lemma EncodePut_layout r maxv src :
  EncodePut r maxv = Ok src ->
  put_OriginBatchID r <> 0 /\ put_RecordID r <> 0 /\ len (put_Value r) <= maxv /\
  32 + len (put_Value r) <= MaxUint32 /\ len src = 32 + len (put_Value r) /\
  src = encodeHeader RecordTypePut 32 (32 + len (put_Value r)) ++
      put_le 8 (put_OriginBatchID r) ++ put_le 8 (put_RecordID r) ++ put_Value r.
Proof.
  unfold EncodePut, PutPayloadSize, checkedSize, PutHeaderSize. intros H. inv_ok H.
  apply Ok_inj in H as <-. inv_ok Hcall. apply Ok_inj in Hcall as <-. bool_norm.
  autorewrite with lens.
  repeat split; lia.
Qed.

Lemma DecodePut_encoded r maxv src :
  put_u r -> EncodePut r maxv = Ok src -> DecodePut src maxv = Ok r.
Proof.
  intros (Hb & Hi & Hv) He. apply EncodePut_layout in He as (H1 & H2 & H3 & H4 & _ & ->).
  pose proof (len_nonneg (put_Value r)).
  unfold DecodePut. change PutHeaderSize with 32. rewrite decodeHeader_encode;
    [|cbv; split; congruence | unfold is_u16; lia | lia | lia |
      autorewrite with lens; lia].
  fields. rewrite !get_put_64 by assumption.
  rewrite app_assoc, app_assoc. rewrite (drop_skip _ 32) by (try reflexivity; typeclasses eauto).
  change (32 - 32)%nat with 0%nat. rewrite drop_0.
  destruct r as [b i v]; cbn [put_OriginBatchID put_RecordID put_Value] in *.
  pass. reflexivity.
Qed.

Lemma TypeOf_EncodePut r maxv src : EncodePut r maxv = Ok src -> TypeOf src = Ok RecordTypePut.
Proof.
  intros (_ & _ & _ & H4 & _ & ->)%EncodePut_layout. pose proof (len_nonneg (put_Value r)).
  apply TypeOf_encode; [auto | reflexivity | lia |].
  autorewrite with lens. lia.
Qed.

(** A stored value reads back: decoding the payload written by [EncodePut]
    returns the same batch, record id and value. *)
Theorem DecodePut_EncodePut r maxv src :
  put_u r -> EncodePut r maxv = Ok src -> DecodePut src maxv = Ok r /\ TypeOf src = Ok RecordTypePut.
Proof. intros Hu He. split; [now apply DecodePut_encoded | now apply (TypeOf_EncodePut r maxv)]. Qed.

Lemma DecodePut_EncodePut_witness :
  exists src, EncodePut (mkPut 9 77 [1; 2; 3]) 100 = Ok src /\
    DecodePut src 100 = Ok (mkPut 9 77 [1; 2; 3]) /\ TypeOf src = Ok RecordTypePut.
Proof.
  eexists. split; [vm_compute; reflexivity|].
  apply DecodePut_EncodePut; [|vm_compute; reflexivity].
  unfold put_u, is_u64; cbn [put_OriginBatchID put_RecordID put_Value].
  split; [lia|]. split; [lia|]. solve_bytes.
Defined.

(** The metadata reader agrees with the full decoder on the first 32 bytes. *)
Lemma DecodePutMetadata_encoded r maxv src :
  put_u r -> EncodePut r maxv = Ok src ->
  DecodePutMetadata (slice 0 32 src) (len src) maxv =
    Ok (mkPutMetadata (put_OriginBatchID r) (put_RecordID r) (len (put_Value r))).
Proof.
  intros (Hb & Hi & Hv) He. apply EncodePut_layout in He as (H1 & H2 & H3 & H4 & Hl & ->).
  pose proof (len_nonneg (put_Value r)). rewrite Hl. clear Hl.
  rewrite !app_assoc. rewrite (slice_here _ 32) by (try reflexivity; typeclasses eauto).
  rewrite <- !app_assoc. unfold DecodePutMetadata. change PutHeaderSize with 32.
  autorewrite with lens.
  unfold encodeHeader. rewrite <- !app_assoc. fields.
  rewrite byte_put, byte_zero, !get_put_16, !get_put_64, get_put_32
    by (assumption || (unfold is_u8, is_u16, is_u32, protoVersion, RecordTypePut; lia)).
  rewrite bool_decide_eq_true_2, !Z.eqb_refl by reflexivity. cbn [negb orb].
  pass. cbn [pm_OriginBatchID pm_RecordID pm_ValueBytes].
  replace (32 + len (put_Value r) - 32) with (len (put_Value r)) by lia.
  pass. reflexivity.
Qed.

Lemma EncodePut_decoded src maxv r :
  bytes_ok src -> DecodePut src maxv = Ok r -> EncodePut r maxv = Ok src /\ put_u r.
Proof.
  intros Hb H. unfold DecodePut in H. inv_ok H. apply Ok_inj in H as <-.
  apply decodeHeader_canonical in Hcall as (Hsrc & Hl & Hh & _); [|exact Hb].
  unfold PutHeaderSize in *. cbn [put_OriginBatchID put_RecordID put_Value] in *. bool_norm.
  assert (Hn : (32 <= length src)%nat) by (unfold len in *; lia).
  assert (Hd : len (drop 32 src) = len src - 32) by (unfold len; rewrite length_drop; lia).
  assert (Hu : put_u (mkPut (u64 16 src) (u64 24 src) (drop 32 src))).
  { split; [apply u64_ok; auto; cbn; lia|]. split; [apply u64_ok; auto; cbn; lia|]. now apply Forall_drop. }
  split; [|exact Hu]. unfold EncodePut, PutPayloadSize, checkedSize.
  cbn [put_OriginBatchID put_RecordID put_Value]. change PutHeaderSize with 32. rewrite Hd in *.
  pass. pass.
  f_equal. replace (32 + (len src - 32)) with (len src) by lia.
  unfold u64. cbn [Nat.add].
  rewrite (put_slice 16 24 src Hb ltac:(lia) : put_le 8 _ = _), (put_slice 24 32 src Hb ltac:(lia) : put_le 8 _ = _).
  rewrite <- slice_drop, !slice_cat, slice_drop by lia. symmetry. exact Hsrc.
Qed.

Lemma decodeHeader_fixed typ rest :
  is_u8 typ -> len rest = 16 ->
  decodeHeader (encodeHeader typ FixedRecordSize FixedRecordSize ++ rest) typ FixedRecordSize =
    Ok (mkHeader typ FixedRecordSize FixedRecordSize).
Proof.
  intros Ht Hr. change FixedRecordSize with 32.
  apply decodeHeader_encode; [exact Ht | unfold is_u16; lia | lia | lia | lia].
Qed.

Lemma is_u8_const v : (0 <=? v) && (v <? 256) = true -> is_u8 v.
Proof. unfold is_u8. lia. Qed.

Lemma DecodeAbort_encoded a src : is_u64 (ab_BatchID a) -> is_u32 (ab_Reason a) -> EncodeAbort a = Ok src ->
  DecodeAbort src = Ok a /\ TypeOf src = Ok RecordTypeAbort.
Proof.
  destruct a as [b r]. intros Hb Hr H. cbn [ab_BatchID ab_Reason] in *. unfold EncodeAbort in H. inv_ok H.
  apply Ok_inj in H as <-. cbn [ab_BatchID ab_Reason] in *.
  split; [|apply TypeOf_encode; auto 10; unfold FixedRecordSize; lia].
  unfold DecodeAbort. rewrite decodeHeader_fixed by (reflexivity || now apply is_u8_const).
  fields. rewrite get_put_64, get_put_32 by assumption. cbn [ab_BatchID].
  rewrite Hguard, all_zero_zeros. reflexivity.
Qed.

Lemma DecodeReserve_encoded typ r src : is_u64 (rs_HighExclusive r) -> EncodeReserve typ r = Ok src ->
  DecodeReserve src typ = Ok r /\ TypeOf src = Ok typ.
Proof.
  destruct r as [h]. intros Hh H. cbn [rs_HighExclusive] in *. unfold EncodeReserve in H. inv_ok H.
  apply Ok_inj in H as <-. cbn [rs_HighExclusive] in *. apply orb_false_iff in Hguard as [Ht Hz].
  assert (Htyp : typ = RecordTypeIDReserve \/ typ = RecordTypeBatchIDReserve).
  { bool_norm. unfold reserveType in Ht. apply orb_true_iff in Ht as [Ht|Ht]; bool_norm; auto. }
  split; [|apply TypeOf_encode; [intuition|reflexivity|unfold FixedRecordSize; lia|reflexivity]].
  unfold DecodeReserve. rewrite Ht.
  rewrite decodeHeader_fixed by
    (reflexivity || destruct Htyp as [-> | ->]; now apply is_u8_const).
  fields. rewrite get_put_64 by assumption. cbn [rs_HighExclusive].
  rewrite Hz, all_zero_zeros. reflexivity.
Qed.

Lemma DecodeCheckpoint_encoded m : is_u64 (cm_CoveredCommitSeq m) ->
  DecodeCheckpoint (EncodeCheckpoint m) = Ok m /\ TypeOf (EncodeCheckpoint m) = Ok RecordTypeCheckpoint.
Proof.
  destruct m as [c]. intros Hc. cbn [cm_CoveredCommitSeq] in *. unfold EncodeCheckpoint. cbn [cm_CoveredCommitSeq].
  split; [|apply TypeOf_encode; auto 10; unfold FixedRecordSize; lia].
  unfold DecodeCheckpoint. rewrite decodeHeader_fixed by (reflexivity || now apply is_u8_const).
  fields. rewrite get_put_64 by assumption. rewrite all_zero_zeros. reflexivity.
Qed.

(** The control records read back: abort, both reserve kinds and the
    checkpoint marker decode to what was encoded, with the right record type. *)
Theorem control_records_roundtrip :
  (forall a src, is_u64 (ab_BatchID a) -> is_u32 (ab_Reason a) -> EncodeAbort a = Ok src ->
     DecodeAbort src = Ok a /\ TypeOf src = Ok RecordTypeAbort) /\
  (forall typ r src, is_u64 (rs_HighExclusive r) -> EncodeReserve typ r = Ok src ->
     DecodeReserve src typ = Ok r /\ TypeOf src = Ok typ) /\
  (forall m, is_u64 (cm_CoveredCommitSeq m) ->
     DecodeCheckpoint (EncodeCheckpoint m) = Ok m /\
     TypeOf (EncodeCheckpoint m) = Ok RecordTypeCheckpoint).
Proof.
  split; [exact DecodeAbort_encoded|]. split; [exact DecodeReserve_encoded | exact DecodeCheckpoint_encoded].
Qed.

Lemma control_records_roundtrip_witness :
  exists src src', EncodeAbort (mkAbort 5 1) = Ok src /\
    DecodeAbort src = Ok (mkAbort 5 1) /\ TypeOf src = Ok RecordTypeAbort /\
    EncodeReserve RecordTypeIDReserve (mkReserve 1025) = Ok src' /\
    DecodeReserve src' RecordTypeIDReserve = Ok (mkReserve 1025) /\
    TypeOf src' = Ok RecordTypeIDReserve /\
    DecodeCheckpoint (EncodeCheckpoint (mkMarker 12)) = Ok (mkMarker 12).
Proof.
  destruct control_records_roundtrip as (Ha & Hr & Hc).
  eexists. eexists. split; [vm_compute; reflexivity|].
  destruct (Ha (mkAbort 5 1) _ ltac:(unfold is_u64; cbn; lia) ltac:(unfold is_u32; cbn; lia) eq_refl)
    as [Ha1 Ha2].
  destruct (Hr RecordTypeIDReserve (mkReserve 1025) _ ltac:(unfold is_u64; cbn; lia) eq_refl) as [Hr1 Hr2].
  destruct (Hc (mkMarker 12) ltac:(unfold is_u64; cbn; lia)) as [Hc1 _].
  split; [exact Ha1|]. split; [exact Ha2|]. split; [vm_compute; reflexivity|].
  split; [exact Hr1|]. split; [exact Hr2|]. exact Hc1.
Defined.

(** ** Round trip of the commit group *)

Definition mutation_u (m : Mutation) : Prop :=
  is_u64 (mu_RecordID m) /\ is_u64 (mu_NewAddr m) /\ is_u64 (mu_ExpectedOldAddr m) /\
  is_u8 (mu_Operation m) /\ is_u32 (mu_PhysicalSize m).

Definition descriptor_u (d : Descriptor) : Prop :=
  is_u8 (de_Kind d) /\ is_u64 (de_BatchID d) /\ is_u64 (de_CommitSeq d) /\
  is_u64 (de_LogicalPayloadBytes d) /\ Forall mutation_u (de_Mutations d).

Lemma DescriptorSize_spec n s : 0 <= n -> DescriptorSize n = Ok s <-> s = 40 + 32 * n /\ s <= MaxUint32.
Proof.
  intros Hn. unfold DescriptorSize, checkedMul, checkedSize, MutationSize, DescriptorHeadSize.
  assert (Hz : n <> 0 -> MaxUint64 / n < 32 -> 40 + 32 * n > MaxUint32).
  { intros H0 Hd. pose proof (Z.mul_succ_div_gt MaxUint64 n ltac:(lia)). nia. }
  destruct (negb (n =? 0) && (MaxUint64 / n <? 32)) eqn:E.
  - bool_norm. split; [discriminate|]. intros [-> Hs]. pose proof (Hz ltac:(assumption) ltac:(assumption)). lia.
  - destruct ((MaxUint32 <? 40) || (MaxUint32 - 40 <? n * 32)) eqn:E2.
    + split; [discriminate|]. intros [-> Hs]. exfalso. guard_absurd E2.
    + bool_norm. split; [intros Hs; apply Ok_inj in Hs; lia | intros [-> _]; f_equal; lia].
Qed.

Lemma len_concat_mutations ms : len (concat (map encodeMutation ms)) = 32 * len ms.
Proof. induction ms as [|m ms IH]; cbn [map concat]; autorewrite with lens; [lia|]. rewrite IH. lia. Qed.

Lemma len_encodeDescriptor d : len (encodeDescriptor d) = 40 + 32 * len (de_Mutations d).
Proof. unfold encodeDescriptor. autorewrite with lens. rewrite len_concat_mutations. lia. Qed.

Lemma decodeMutations_encode ms : Forall mutation_u ms -> forall rest,
  decodeMutations (length ms) (concat (map encodeMutation ms) ++ rest) = Ok ms.
Proof.
  induction 1 as [|m ms (H1 & H2 & H3 & H4 & H5) Hms IH]; intros rest; [reflexivity|].
  cbn [length decodeMutations map concat]. rewrite <- app_assoc.
  rewrite (slice_here (encodeMutation m) 32) by (reflexivity || typeclasses eauto).
  rewrite (drop_skip (encodeMutation m) 32) by (reflexivity || typeclasses eauto).
  change (32 - 32)%nat with 0%nat. rewrite drop_0, IH.
  unfold encodeMutation. fields. rewrite !get_put_64, get_put_32, byte_put, all_zero_zeros by assumption.
  cbn [negb]. destruct m; reflexivity.
Qed.

Lemma totalMutations_cons d ds : totalMutations (d :: ds) = len (de_Mutations d) + totalMutations ds.
Proof. reflexivity. Qed.

Lemma totalMutations_nonneg ds : 0 <= totalMutations ds.
Proof.
  induction ds as [|d ds IH]; [reflexivity|]. rewrite totalMutations_cons.
  pose proof (len_nonneg (de_Mutations d)). lia.
Qed.

Lemma descriptor_head_decode d n size ms :
  is_u8 (de_Kind d) -> is_u64 (de_BatchID d) -> is_u64 (de_CommitSeq d) ->
  is_u64 (de_LogicalPayloadBytes d) -> is_u32 n -> is_u32 size ->
  let head := put_le 1 (de_Kind d) ++ zeros 1 ++ put_le 2 DescriptorHeadSize ++ put_le 4 n ++
    put_le 8 (de_BatchID d) ++ put_le 8 (de_CommitSeq d) ++ put_le 8 (de_LogicalPayloadBytes d) ++
    put_le 4 size ++ zeros 4 in
  slice 0 40 (head ++ ms) = head /\ drop 40 (head ++ ms) = ms /\
  byte_at 0 head = de_Kind d /\ byte_at 1 head = 0 /\ u16 2 head = DescriptorHeadSize /\
  u32 4 head = n /\ u64 8 head = de_BatchID d /\ u64 16 head = de_CommitSeq d /\
  u64 24 head = de_LogicalPayloadBytes d /\ u32 32 head = size /\ u32 36 head = 0.
Proof.
  intros Hk Hb Hc Hl Hn Hs head.
  assert (HasLen head 40) by (unfold head; exact (_ : HasLen _ (1 + (1 + (2 + (4 + (8 + (8 + (8 + (4 + 4)))))))))).
  split; [apply (slice_here head 40); auto|].
  split; [rewrite (drop_skip head 40) by auto; apply drop_0|].
  unfold head. fields. rewrite byte_put, !get_put_64, !get_put_32, get_put_16
    by (assumption || (unfold is_u16, DescriptorHeadSize; lia)).
  repeat split; reflexivity.
Qed.

Lemma decodeDescriptors_encode ds : Forall descriptor_u ds ->
  Forall (fun d => 40 + 32 * len (de_Mutations d) <= MaxUint32) ds -> forall rest total maxM,
  total + totalMutations ds <= maxM ->
  decodeDescriptors (length ds) (concat (map encodeDescriptor ds) ++ rest) total maxM =
    Ok (ds, total + totalMutations ds, rest).
Proof.
  induction 1 as [|d ds (H1 & H2 & H3 & H4 & H5) Hds IH]; intros Hsz rest total maxM Hmax.
  { cbn. f_equal. f_equal. f_equal. lia. }
  apply Forall_cons_iff in Hsz as [Hsz Hszs].
  cbn [length decodeDescriptors map concat totalMutations foldr] in *. fold (totalMutations ds) in *.
  set (n := len (de_Mutations d)) in *. pose proof (len_nonneg (de_Mutations d)) as Hn. fold n in Hn.
  pose proof (totalMutations_nonneg ds) as Htm.
  assert (Hsize : DescriptorSize n = Ok (40 + 32 * n)) by (apply DescriptorSize_spec; lia).
  rewrite <- app_assoc. set (tail := concat (map encodeDescriptor ds) ++ rest).
  assert (Hlen : len (encodeDescriptor d ++ tail) = 40 + 32 * n + len tail)
    by (rewrite len_app, len_encodeDescriptor; reflexivity).
  assert (Hdrop : drop (Z.to_nat (40 + 32 * n)) (encodeDescriptor d ++ tail) = tail).
  { rewrite (drop_skip _ (Z.to_nat (40 + 32 * n))).
    - rewrite Nat.sub_diag. apply drop_0.
    - unfold HasLen. pose proof (len_encodeDescriptor d) as E. unfold len, n in *. unfold len in *. lia.
    - apply Nat.leb_refl. }
  rewrite Hlen. pose proof (len_nonneg tail). unfold DescriptorHeadSize at 1. pass.
  revert Hdrop. unfold encodeDescriptor. fold n. rewrite Hsize, <- !app_assoc. intros Hdrop.
  destruct (descriptor_head_decode d n (40 + 32 * n) (concat (map encodeMutation (de_Mutations d)) ++ tail))
    as (E0 & E1 & E2 & E3 & E4 & E5 & E6 & E7 & E8 & E9 & E10);
    [assumption .. | unfold is_u32; lia | unfold is_u32; lia |].
  rewrite <- !app_assoc in E0, E1. rewrite E0, E1, E2, E3, E4, E5, E6, E7, E8, E9, E10, Hsize, Hdrop.
  rewrite !Z.eqb_refl. cbn [negb orb]. pass.
  replace (Z.to_nat n) with (length (de_Mutations d)) by (unfold n, len; lia).
  rewrite decodeMutations_encode by assumption. unfold tail.
  rewrite IH by (assumption || lia). destruct d; cbn [de_Kind de_BatchID de_CommitSeq de_LogicalPayloadBytes de_Mutations].
  do 3 f_equal. lia.
Qed.

Lemma CommitGroupPayloadSize_loop_spec ds : forall t r, 0 <= t <= MaxUint32 ->
  CommitGroupPayloadSize_loop t ds = Ok r <->
  r = t + len (concat (map encodeDescriptor ds)) /\ r <= MaxUint32.
Proof.
  induction ds as [|d ds IH]; intros t r Ht; cbn [CommitGroupPayloadSize_loop map concat];
    autorewrite with lens.
  { split; [intros H; apply Ok_inj in H; lia | intros [-> _]; f_equal; lia]. }
  rewrite len_encodeDescriptor. set (n := len (de_Mutations d)).
  assert (Hn : 0 <= n) by apply len_nonneg.
  pose proof (len_nonneg (concat (map encodeDescriptor ds))) as Hc.
  destruct (DescriptorSize n) as [size|] eqn:Hs.
  - apply DescriptorSize_spec in Hs as [-> Hs]; [|exact Hn].
    destruct (MaxUint32 - (40 + 32 * n) <? t) eqn:E; bool_norm.
    + split; [discriminate|]. intros [-> Hr]. lia.
    + rewrite IH by lia. lia.
  - split; [discriminate|]. intros [-> Hr]. exfalso.
    assert (DescriptorSize n = Ok (40 + 32 * n)) as E by (apply DescriptorSize_spec; lia). congruence.
Qed.

Lemma group_sizes_bound ds :
  len (concat (map encodeDescriptor ds)) <= MaxUint32 ->
  Forall (fun d => 40 + 32 * len (de_Mutations d) <= MaxUint32) ds.
Proof.
  induction ds as [|d ds IH]; cbn [map concat]; intros H; constructor;
    autorewrite with lens in H; rewrite len_encodeDescriptor in H;
    pose proof (len_nonneg (concat (map encodeDescriptor ds))); pose proof (len_nonneg (de_Mutations d));
    [lia | apply IH; lia].
Qed.

Lemma EncodeCommitGroup_layout ds maxp src :
  EncodeCommitGroup ds maxp = Ok src ->
  let total := 32 + len (concat (map encodeDescriptor ds)) in
  len src = total /\ total <= maxp /\ total <= MaxUint32 /\ validateDescriptors ds = true /\
  0 < len ds <= MaxUint32 /\ totalMutations ds <= MaxUint32 /\
  src = encodeHeader RecordTypeCommitGroup 32 total ++ put_le 4 (len ds) ++ put_le 4 (totalMutations ds) ++
      put_le 8 (match ds with d :: _ => de_CommitSeq d | [] => 0 end) ++ concat (map encodeDescriptor ds).
Proof.
  unfold EncodeCommitGroup, CommitGroupPayloadSize, CommitGroupHeadSize. intros H. inv_ok H.
  apply Ok_inj in H as <-. inv_ok Hcall.
  apply CommitGroupPayloadSize_loop_spec in Hcall as [-> Hle]; [|lia]. bool_norm.
  pose proof (len_nonneg ds). cbv zeta. autorewrite with lens. repeat split; try assumption; lia.
Qed.

Lemma totalMutations_bytes ds : 40 * len ds + 32 * totalMutations ds = len (concat (map encodeDescriptor ds)).
Proof.
  induction ds as [|d ds IH]; [reflexivity|]. rewrite totalMutations_cons, len_cons. cbn [map concat].
  rewrite len_app, len_encodeDescriptor. lia.
Qed.

(** A valid group that fits is encoded. *)
Lemma EncodeCommitGroup_total ds maxp :
  ds <> [] -> validateDescriptors ds = true ->
  32 + len (concat (map encodeDescriptor ds)) <= maxp -> 32 + len (concat (map encodeDescriptor ds)) <= MaxUint32 ->
  exists src, EncodeCommitGroup ds maxp = Ok src.
Proof.
  intros Hne Hv Hp Hm. pose proof (totalMutations_bytes ds) as Hb. pose proof (totalMutations_nonneg ds).
  pose proof (len_nonneg ds). assert (len ds <> 0) by (intros E; now apply Hne, len_zero_nil).
  unfold EncodeCommitGroup, CommitGroupPayloadSize, CommitGroupHeadSize. pass.
  rewrite (proj2 (CommitGroupPayloadSize_loop_spec ds 32 (32 + len (concat (map encodeDescriptor ds))) ltac:(lia))) by lia.
  rewrite Hv. pass. cbn [negb]. pass. eauto.
Qed.

Lemma group_head_decode ds total rest :
  is_u32 (len ds) -> is_u32 (totalMutations ds) ->
  is_u64 (match ds with d :: _ => de_CommitSeq d | [] => 0 end) ->
  let src := encodeHeader RecordTypeCommitGroup 32 total ++ put_le 4 (len ds) ++
    put_le 4 (totalMutations ds) ++ put_le 8 (match ds with d :: _ => de_CommitSeq d | [] => 0 end) ++ rest in
  u32 16 src = len ds /\ u32 20 src = totalMutations ds /\
  u64 24 src = match ds with d :: _ => de_CommitSeq d | [] => 0 end /\ drop 32 src = rest.
Proof.
  intros H1 H2 H3 src. unfold src. fields. rewrite !get_put_32, get_put_64 by assumption.
  repeat split.
Qed.

Lemma DecodeCommitGroup_encoded ds maxp maxd maxm src :
  Forall descriptor_u ds -> len ds <= maxd -> totalMutations ds <= maxm ->
  EncodeCommitGroup ds maxp = Ok src ->
  DecodeCommitGroup src maxp maxd maxm = Ok ds /\ TypeOf src = Ok RecordTypeCommitGroup.
Proof.
  intros Hu Hd Hm He. apply EncodeCommitGroup_layout in He as (Hl & Hp & H32 & Hv & Hn & Ht & Hsrc).
  pose proof (len_nonneg (concat (map encodeDescriptor ds))) as Hc.
  pose proof (totalMutations_nonneg ds).
  split; [|rewrite Hsrc; apply TypeOf_encode; [auto | reflexivity | lia | autorewrite with lens; lia]].
  destruct ds as [|d ds]; [exfalso; unfold len in Hn; cbn [length] in Hn; lia|].
  assert (Hseq : is_u64 (de_CommitSeq d) /\ de_CommitSeq d <> 0).
  { split; [now apply Forall_inv in Hu as (_ & _ & ? & _)|].
    apply andb_true_iff in Hv as [_ Hv]. cbn [validateDescriptors_loop] in Hv. bool_norm. assumption. }
  destruct (group_head_decode (d :: ds) (32 + len (concat (map encodeDescriptor (d :: ds))))
    (concat (map encodeDescriptor (d :: ds)))) as (E1 & E2 & E3 & E4);
    [unfold is_u32; lia | unfold is_u32; lia | apply Hseq |].
  cbv zeta in *. rewrite <- Hsrc in E1, E2, E3, E4.
  unfold DecodeCommitGroup. rewrite Hl. pass. rewrite Hsrc at 1.
  change CommitGroupHeadSize with 32. change DescriptorHeadSize with 40.
  rewrite decodeHeader_encode; [|cbv; split; congruence | unfold is_u16; lia | lia | lia | autorewrite with lens; lia].
  rewrite E1, E2, E3, E4.
  assert (Hby : len (d :: ds) <= (32 + len (concat (map encodeDescriptor (d :: ds))) - 32) / 40).
  { replace (32 + len (concat (map encodeDescriptor (d :: ds))) - 32)
      with (len (concat (map encodeDescriptor (d :: ds)))) by lia.
    apply Z.div_le_lower_bound; [lia|]. generalize (d :: ds) as l. clear.
    induction l as [|d l IH]; cbn [map concat]; autorewrite with lens; [lia|].
    rewrite len_encodeDescriptor. pose proof (len_nonneg (de_Mutations d)). lia. }
  pass. pose proof (decodeDescriptors_encode (d :: ds) Hu (group_sizes_bound (d :: ds) ltac:(lia)) [] 0 maxm ltac:(lia)) as Hdd.
  rewrite app_nil_r in Hdd. replace (Z.to_nat (len (d :: ds))) with (length (d :: ds)) by (unfold len; lia).
  rewrite Hdd, Hv, Z.add_0_l, !Z.eqb_refl. reflexivity.
Qed.

(** A commit group reads back: within the configured limits, decoding what
    [EncodeCommitGroup] wrote returns every descriptor and mutation unchanged. *)
Theorem DecodeCommitGroup_EncodeCommitGroup ds maxp maxd maxm src :
  Forall descriptor_u ds -> len ds <= maxd -> totalMutations ds <= maxm ->
  EncodeCommitGroup ds maxp = Ok src ->
  DecodeCommitGroup src maxp maxd maxm = Ok ds /\ TypeOf src = Ok RecordTypeCommitGroup.
Proof. apply DecodeCommitGroup_encoded. Qed.

Definition sample_group : list Descriptor :=
  [ mkDescriptor DescriptorUserCommit 11 5 3
      [ mkMutation 7 (3 * two32 + 64) 0 OperationPut 40; mkMutation 9 0 0 OperationDelete 0 ];
    mkDescriptor DescriptorRelocation 12 6 8
      [ mkMutation 4 (3 * two32 + 128) (2 * two32 + 64) OperationRelocate 40 ] ].

Lemma sample_group_u : Forall descriptor_u sample_group.
Proof.
  unfold sample_group, descriptor_u, mutation_u. solve_u.
Qed.

Lemma DecodeCommitGroup_EncodeCommitGroup_witness :
  exists src, EncodeCommitGroup sample_group 4096 = Ok src /\
    DecodeCommitGroup src 4096 16 64 = Ok sample_group /\ TypeOf src = Ok RecordTypeCommitGroup.
Proof.
  eexists. split; [vm_compute; reflexivity|].
  apply DecodeCommitGroup_EncodeCommitGroup; [apply sample_group_u | cbv; congruence | cbv; congruence |].
  vm_compute. reflexivity.
Defined.

(** ** Commit groups are canonical *)

Lemma byte_field i src : bytes_ok src -> (i < length src)%nat -> put_le 1 (byte_at i src) = slice i (S i) src.
Proof.
  intros Hb Hi. rewrite slice_byte by exact Hi. change (put_le 1 (byte_at i src)) with [byte_at i src mod 256].
  f_equal. apply Z.mod_small, byte_at_ok, Hb.
Qed.

Lemma zero_field lo hi src :
  (hi <= length src)%nat -> all_zero (slice lo hi src) = true -> zeros (hi - lo) = slice lo hi src.
Proof. intros Hl H%all_zero_spec. now rewrite H, length_slice. Qed.

(** Replace every re-encoded field of [src] by the slice it was read from. *)
Ltac unread src Hb :=
  unfold u16, u32, u64; cbn [Nat.add];
  repeat match goal with
  | |- context [put_le ?n (get_le (slice ?lo ?hi src))] =>
      rewrite (put_slice lo hi src Hb ltac:(lia) : put_le n (get_le (slice lo hi src)) = slice lo hi src)
  | |- context [put_le 1 (byte_at ?i src)] => rewrite (byte_field i src Hb ltac:(lia))
  end;
  rewrite ?slice_cat by lia.

Lemma encodeMutation_read entry :
  bytes_ok entry -> length entry = 32%nat -> all_zero (slice 29 32 entry) = true ->
  let m := mkMutation (u64 0 entry) (u64 8 entry) (u64 16 entry) (byte_at 24 entry) (u32 25 entry) in
  encodeMutation m = entry /\ mutation_u m.
Proof.
  intros Hb Hl Hz m. split.
  - unfold encodeMutation, m. cbn [mu_RecordID mu_NewAddr mu_ExpectedOldAddr mu_Operation mu_PhysicalSize].
    rewrite (zero_field 29 32 entry ltac:(lia) Hz : zeros 3 = _). unread entry Hb.
    rewrite <- Hl. apply slice_full.
  - unfold mutation_u, m; cbn [mu_RecordID mu_NewAddr mu_ExpectedOldAddr mu_Operation mu_PhysicalSize].
    repeat split; try (apply u64_ok || apply u32_ok || apply byte_at_ok); auto; lia.
Qed.

Lemma decodeMutations_canonical n : forall rest ms,
  bytes_ok rest -> (32 * n <= length rest)%nat -> decodeMutations n rest = Ok ms ->
  length ms = n /\ Forall mutation_u ms /\ rest = concat (map encodeMutation ms) ++ drop (32 * n) rest.
Proof.
  induction n as [|n IH]; intros rest ms Hb Hl H; cbn [decodeMutations] in H.
  { apply Ok_inj in H as <-. cbn. auto using Forall_nil. }
  inv_ok H. apply Ok_inj in H as <-. bool_norm.
  apply IH in Hcall as (Hn & Hu & Hr); [|now apply Forall_drop | rewrite length_drop; lia].
  destruct (encodeMutation_read (slice 0 32 rest)) as [He Hm];
    [now apply bytes_ok_slice | rewrite length_slice; lia | assumption |].
  split; [cbn; lia|]. split; [now constructor|]. cbn [map concat]. rewrite He, <- app_assoc.
  rewrite drop_drop in Hr. replace (32 * S n)%nat with (32 + 32 * n)%nat by lia. rewrite <- Hr.
  rewrite <- slice_drop, slice_cat by lia. symmetry. apply slice_full.
Qed.

Lemma encodeDescriptor_read head rest ms :
  bytes_ok head -> length head = 40%nat -> byte_at 1 head = 0 -> u16 2 head = DescriptorHeadSize ->
  u32 36 head = 0 -> u32 4 head = len ms -> DescriptorSize (len ms) = Ok (u32 32 head) ->
  Forall mutation_u ms -> rest = concat (map encodeMutation ms) ->
  let d := mkDescriptor (byte_at 0 head) (u64 8 head) (u64 16 head) (u64 24 head) ms in
  encodeDescriptor d = head ++ rest /\ descriptor_u d.
Proof.
  intros Hb Hl H1 H2 H36 H4 Hs Hu -> d. split.
  - unfold encodeDescriptor, d. cbn [de_Kind de_BatchID de_CommitSeq de_LogicalPayloadBytes de_Mutations].
    rewrite Hs, <- H4, <- H2.
    replace (zeros 1) with (put_le 1 (byte_at 1 head)) by (rewrite H1; reflexivity).
    replace (zeros 4) with (put_le 4 (u32 36 head)) by (rewrite H36; reflexivity).
    rewrite !app_assoc. f_equal. rewrite <- !app_assoc. unread head Hb. rewrite <- Hl. apply slice_full.
  - unfold descriptor_u, d; cbn [de_Kind de_BatchID de_CommitSeq de_LogicalPayloadBytes de_Mutations].
    repeat split; try (apply u64_ok || apply byte_at_ok); auto; lia.
Qed.

Lemma decodeDescriptors_canonical n : forall rest total maxM ds total' rest',
  bytes_ok rest -> decodeDescriptors n rest total maxM = Ok (ds, total', rest') ->
  length ds = n /\ Forall descriptor_u ds /\ rest = concat (map encodeDescriptor ds) ++ rest' /\
  total' = total + totalMutations ds /\ Forall (fun d => 40 + 32 * len (de_Mutations d) <= MaxUint32) ds.
Proof.
  induction n as [|n IH]; intros rest total maxM ds total' rest' Hb H; cbn [decodeDescriptors] in H.
  { apply Ok_inj in H. injection H as <- <- <-. cbn. repeat split; auto using Forall_nil; lia. }
  unfold DescriptorHeadSize at 1 in H. inv_ok H.
  match type of H with match ?p with _ => _ end = _ => destruct p as [[ds0 t0] r0] eqn:Hp end.
  apply Ok_inj in H. injection H as <- <- <-.
  set (head := slice 0 40 rest) in *. bool_norm.
  assert (Hl : (40 <= length rest)%nat) by (unfold len in *; lia).
  assert (Hbh : bytes_ok head) by now apply bytes_ok_slice.
  assert (Hlh : length head = 40%nat) by (unfold head; rewrite length_slice; lia).
  pose proof (u32_ok 4 head Hbh ltac:(lia)) as Hcu. unfold is_u32 in Hcu.
  destruct (DescriptorSize (u32 4 head)) as [want|] eqn:Hs; [|discriminate]. bool_norm.
  pose proof Hs as Hs'. apply DescriptorSize_spec in Hs' as [Hw Hw32]; [|lia].
  match goal with E : u32 32 head = want |- _ => rename E into Hds end.
  apply decodeMutations_canonical in Hcall as (Hn & Hu & Hr);
    [|now apply Forall_drop | rewrite length_drop; unfold len in *; lia].
  apply IH in Hcall0 as (Hn' & Hu' & Hr' & Ht' & Hsz'); [|now apply Forall_drop].
  assert (Hla : len a = u32 4 head) by (unfold len; lia).
  rewrite drop_drop in Hr.
  destruct (encodeDescriptor_read head (concat (map encodeMutation a)) a) as [He Hdu]; auto; try congruence.
  split; [cbn; lia|]. split; [now constructor|]. split; [|split].
  - cbn [map concat]. rewrite He, <- !app_assoc, <- Hr'. rewrite Hds, Hw.
    replace (Z.to_nat (40 + 32 * u32 4 head)) with (40 + 32 * Z.to_nat (u32 4 head))%nat by lia.
    rewrite <- Hr. unfold head. rewrite <- slice_drop, slice_cat by lia. symmetry. apply slice_full.
  - rewrite totalMutations_cons. cbn [de_Mutations]. lia.
  - constructor; [cbn [de_Mutations]; lia | exact Hsz'].
Qed.

Lemma EncodeCommitGroup_decoded src maxp maxd maxm ds :
  bytes_ok src -> DecodeCommitGroup src maxp maxd maxm = Ok ds ->
  EncodeCommitGroup ds maxp = Ok src /\ Forall descriptor_u ds /\ validateDescriptors ds = true.
Proof.
  intros Hb H. unfold DecodeCommitGroup in H. inv_ok H.
  match type of H with match ?p with _ => _ end = _ => destruct p as [[ds0 t0] r0] eqn:Hp end.
  inv_ok H. apply Ok_inj in H as <-.
  apply decodeHeader_canonical in Hcall as (Hsrc & Hl & Hh32 & _); [|exact Hb].
  apply decodeDescriptors_canonical in Hcall0 as (Hn & Hu & Hr & Ht & Hsz); [|now apply Forall_drop].
  bool_norm. unfold CommitGroupHeadSize in *.
  match goal with E : len r0 = 0 |- _ => apply len_zero_nil in E; subst r0 end. rewrite app_nil_r in Hr.
  assert (Hlen : len src = 32 + len (concat (map encodeDescriptor ds0))).
  { rewrite <- Hr. unfold len. rewrite length_drop. unfold len in *. lia. }
  assert (Hl32 : (32 <= length src)%nat).
  { pose proof (len_nonneg (concat (map encodeDescriptor ds0))). unfold len in *. lia. }
  pose proof (u32_ok 16 src Hb ltac:(lia)) as Hc. pose proof (u32_ok 20 src Hb ltac:(lia)) as Hw.
  assert (Hld : len ds0 = u32 16 src) by (unfold is_u32, len in *; lia). unfold is_u32 in Hc, Hw.
  split; [|split; assumption].
  unfold EncodeCommitGroup, CommitGroupPayloadSize, CommitGroupHeadSize. pass.
  rewrite (proj2 (CommitGroupPayloadSize_loop_spec ds0 32 (len src) ltac:(lia))) by lia.
  rewrite Z.add_0_l in Ht. pass.
  match goal with E : validateDescriptors ds0 = true |- _ => rewrite E end. cbn [negb]. pass.
  f_equal. match goal with E : _ = u64 24 src |- _ => rewrite E end.
  rewrite Hld, <- Ht. match goal with E : t0 = u32 20 src |- _ => rewrite E end. rewrite <- Hr.
  transitivity (encodeHeader RecordTypeCommitGroup 32 (len src) ++ drop 16 src); [|symmetry; exact Hsrc].
  f_equal. rewrite <- !slice_drop. unread src Hb. reflexivity.
Qed.

(** The commit-group format is canonical: a payload that decodes is exactly
    the encoding of the decoded descriptors, and these pass
    [validateDescriptors]. *)
Theorem EncodeCommitGroup_DecodeCommitGroup src maxp maxd maxm ds :
  bytes_ok src -> DecodeCommitGroup src maxp maxd maxm = Ok ds ->
  EncodeCommitGroup ds maxp = Ok src /\ validateDescriptors ds = true.
Proof. intros Hb H. apply EncodeCommitGroup_decoded in H as (? & _ & ?); auto. Qed.

Definition sample_group_bytes : list Z :=
  Eval vm_compute in match EncodeCommitGroup sample_group 4096 with Ok s => s | Err _ => [] end.

Lemma EncodeCommitGroup_DecodeCommitGroup_witness :
  EncodeCommitGroup sample_group 4096 = Ok sample_group_bytes /\ validateDescriptors sample_group = true.
Proof.
  apply (EncodeCommitGroup_DecodeCommitGroup sample_group_bytes 4096 16 64).
  - unfold sample_group_bytes. solve_bytes.
  - vm_compute. reflexivity.
Defined.

(** ** What a valid group promises *)

Lemma mutations_ok_sorted kind ms : forall p,
  mutations_ok kind p ms = true ->
  Forall (fun m => mu_RecordID m <> 0 /\ mutation_ok kind m = true) ms /\
  StronglySorted Z.lt (map mu_RecordID ms) /\
  match p with Some p => Forall (fun m => p < mu_RecordID m) ms | None => True end.
Proof.
  induction ms as [|m ms IH]; intros p H; cbn [mutations_ok] in H.
  { repeat split; try constructor. destruct p; [constructor|done]. }
  apply andb_true_iff in H as [H Hr]. apply andb_true_iff in H as [Hp Hm].
  apply negb_true_iff, orb_false_iff in Hp as [H0 Hp]. apply Z.eqb_neq in H0.
  apply IH in Hr as (Hall & Hsort & Hgt).
  split; [now constructor|]. split.
  - cbn. constructor; [exact Hsort|]. apply Forall_map. exact Hgt.
  - destruct p as [p|]; [|done]. apply Z.leb_gt in Hp. constructor; [exact Hp|].
    eapply Forall_impl; [exact Hgt|]. cbn. lia.
Qed.

Lemma mutations_ok_intro kind ms : forall p,
  Forall (fun m => mu_RecordID m <> 0 /\ mutation_ok kind m = true) ms ->
  StronglySorted Z.lt (map mu_RecordID ms) ->
  match p with Some p => Forall (fun m => p < mu_RecordID m) ms | None => True end ->
  mutations_ok kind p ms = true.
Proof.
  induction ms as [|m ms IH]; intros p Hall Hs Hp; [reflexivity|].
  apply Forall_cons_iff in Hall as [[H0 Hm] Hall]. cbn in Hs. apply StronglySorted_inv in Hs as [Hs Hgt].
  cbn [mutations_ok]. rewrite Hm. apply Z.eqb_neq in H0. rewrite H0. cbn [orb].
  rewrite Forall_map in Hgt. rewrite (IH (Some (mu_RecordID m)) Hall Hs Hgt), !andb_true_r.
  destruct p as [p|]; [|reflexivity]. apply Forall_inv in Hp. apply negb_true_iff, Z.leb_gt. lia.
Qed.

Lemma validateDescriptors_seqs ds : forall p ids,
  validateDescriptors_loop p ids ds = true ->
  (forall i d, ds !! i = Some d ->
     de_BatchID d <> 0 /\ de_CommitSeq d <> 0 /\ (de_BatchID d ∉ ids) /\
     mutations_ok (de_Kind d) None (de_Mutations d) = true) /\
  NoDup (map de_BatchID ds) /\
  match p, ds with
  | Some q, _ => forall i d, (ds !! i = Some d) -> de_CommitSeq d = q + 1 + Z.of_nat i
  | None, d0 :: _ => forall i d, ds !! i = Some d -> de_CommitSeq d = de_CommitSeq d0 + Z.of_nat i
  | None, [] => True
  end.
Proof.
  induction ds as [|d ds IH]; intros p ids H; cbn [validateDescriptors_loop] in H.
  { split; [intros i d; rewrite lookup_nil; done|]. split; [constructor|].
    destruct p; [intros i d; rewrite lookup_nil|]; done. }
  apply andb_true_iff in H as [H Hr]. apply andb_true_iff in H as [H Hm]. apply andb_true_iff in H as [H _].
  apply andb_true_iff in H as [Hhead Hid]. apply negb_true_iff, bool_decide_eq_false in Hid.
  apply negb_true_iff, orb_false_iff in Hhead as [Hz Hseq]. bool_norm.
  apply IH in Hr as (Hall & Hnd & Hs). split; [|split].
  - intros [|i] d' Hd'; cbn in Hd'; [injection Hd' as <-; auto|].
    destruct (Hall i d' Hd') as (H1 & H2 & Hn & H4). apply not_elem_of_union in Hn as [_ Hn]. auto.
  - cbn. constructor; [|exact Hnd]. intros (d' & E & Hd')%list_elem_of_In%in_map_iff.
    apply list_elem_of_In, list_elem_of_lookup in Hd' as [i Hi]. destruct (Hall i d' Hi) as (_ & _ & Hn & _).
    apply Hn, elem_of_union_l, elem_of_singleton. exact E.
  - assert (Hstep : forall i d', (d :: ds) !! i = Some d' -> de_CommitSeq d' = de_CommitSeq d + Z.of_nat i).
    { intros [|i] d' Hd'; cbn in Hd'; [injection Hd' as <-; lia|]. rewrite (Hs i d' Hd'). lia. }
    destruct p as [q|]; [|exact Hstep]. bool_norm.
    intros i d' Hd'. rewrite (Hstep i d' Hd'). lia.
Qed.

(** [validateDescriptors] looks at the kind of a descriptor only when it visits a
    mutation: an empty descriptor of an undefined kind is encoded and decoded. *)
Lemma unknown_kind_decodes :
  exists src, EncodeCommitGroup [mkDescriptor 99 11 5 0 []] 4096 = Ok src /\
    DecodeCommitGroup src 4096 8 8 = Ok [mkDescriptor 99 11 5 0 []].
Proof. eexists. split; [vm_compute; reflexivity|]. vm_compute. reflexivity. Qed.
