(* ===== verification/Mapping.v ===== *)
(** * Mapping: the visible state

    Models [internal/mapping/mapping.go]: proposals, their resolution against
    the current state ([resolveGroupAt]), the publication of a resolved group,
    the delta accounting and the per-segment live statistics.  [Mapping] is the
    in-memory implementation of the [Index] contract; the production
    implementation shares every function of this file except the storage of the
    entries. *)
From S2P Require Import Prelude Addr.

(** ** Data *)

Record Condition := mkCondition { co_RecordID : Z; co_ExpectedAddr : Z }.

Definition OpPut : Z := 1.
Definition OpDelete : Z := 2.
Definition OpRelocate : Z := 3.

Record Change := mkChange
  { ch_RecordID : Z; ch_NewRef : RecordRef; ch_ExpectedOldAddr : Z; ch_Operation : Z }.

Definition ProposalUserCommit : Z := 1.
Definition ProposalRelocation : Z := 2.

Record Proposal := mkProposal
  { pr_Kind : Z; pr_Conditions : list Condition; pr_Changes : list Change }.

Record ResolvedChange := mkResolved
  { rc_Change : Change; rc_Apply : bool; rc_OldRef : RecordRef; rc_OldExists : bool }.

Record ResolvedProposal := mkResolvedProposal
  { rp_Kind : Z; rp_Accepted : bool; rp_DeltaEntries : Z; rp_Changes : list ResolvedChange }.

Record GroupPlan := mkPlan { gp_BaseCommitSeq : Z; gp_Proposals : list ResolvedProposal }.

Record PublishResult := mkPublish { pb_Committed : Z; pb_Applied : Z; pb_Skipped : Z }.

Record SegmentLiveStats := mkLive
  { ls_LiveBytes : Z; ls_LiveRecords : Z; ls_LastChangedCommitSeq : Z }.

#[export] Instance Condition_eq_dec : EqDecision Condition.
Proof. solve_decision. Defined.
#[export] Instance Change_eq_dec : EqDecision Change.
Proof. solve_decision. Defined.

(** A Go lookup [(ref, exists)]: [Some ref], or the zero reference and false. *)
Abbreviation Lookup := (Z -> res (option RecordRef)).

Definition oref (v : option RecordRef) : RecordRef := match v with Some r => r | None => zeroRef end.
Definition oexists (v : option RecordRef) : bool := match v with Some _ => true | None => false end.

(** ** Validation of proposals *)

Fixpoint conditions_ok (previous : option Z) (cs : list Condition) : bool :=
  match cs with
  | [] => true
  | c :: rest =>
      negb ((co_RecordID c =? 0) ||
            match previous with Some p => co_RecordID c <=? p | None => false end) &&
      negb (negb (co_ExpectedAddr c =? 0) && negb (VAddr_Valid (co_ExpectedAddr c))) &&
      conditions_ok (Some (co_RecordID c)) rest
  end.

Definition change_ok (kind : Z) (c : Change) : bool :=
  if kind =? ProposalUserCommit then
    negb (negb (ch_ExpectedOldAddr c =? 0) ||
          ((ch_Operation c =? OpPut) && negb (RecordRef_Valid (ch_NewRef c))) ||
          ((ch_Operation c =? OpDelete) && negb (RecordRef_IsZero (ch_NewRef c))) ||
          (negb (ch_Operation c =? OpPut) && negb (ch_Operation c =? OpDelete)))
  else if kind =? ProposalRelocation then
    negb (negb (ch_Operation c =? OpRelocate) || negb (RecordRef_Valid (ch_NewRef c)) ||
          negb (VAddr_Valid (ch_ExpectedOldAddr c)) || (Addr (ch_NewRef c) =? ch_ExpectedOldAddr c))
  else true.

Fixpoint changes_ok (kind : Z) (previous : option Z) (cs : list Change) : bool :=
  match cs with
  | [] => true
  | c :: rest =>
      negb ((ch_RecordID c =? 0) ||
            match previous with Some p => ch_RecordID c <=? p | None => false end) &&
      change_ok kind c && changes_ok kind (Some (ch_RecordID c)) rest
  end.

(** [validateProposal(p) == nil] *)
Definition validateProposal (p : Proposal) : bool :=
  (if pr_Kind p =? ProposalUserCommit then true
   else if pr_Kind p =? ProposalRelocation then
     negb (negb (len (pr_Conditions p) =? 0) || (len (pr_Changes p) =? 0))
   else false) &&
  conditions_ok None (pr_Conditions p) && changes_ok (pr_Kind p) None (pr_Changes p).

(** ** Resolution *)

Abbreviation Virtual := (gmap Z (option RecordRef)).

Definition lookup_virtual (virtual : Virtual) (baseLookup : Lookup) (id : Z) : res (option RecordRef) :=
  match virtual !! id with
  | Some value => Ok value
  | None => baseLookup id
  end.

Definition condition_fails (c : Condition) (current : option RecordRef) : bool :=
  ((co_ExpectedAddr c =? 0) && oexists current) ||
  (negb (co_ExpectedAddr c =? 0) &&
   (negb (oexists current) || negb (Addr (oref current) =? co_ExpectedAddr c))).

Fixpoint check_conditions (virtual : Virtual) (baseLookup : Lookup) (cs : list Condition) : res bool :=
  match cs with
  | [] => Ok true
  | c :: rest =>
      let! current := lookup_virtual virtual baseLookup (co_RecordID c) in
      if condition_fails c current then Ok false else check_conditions virtual baseLookup rest
  end.

Definition resolve_change (kind : Z) (virtual : Virtual) (current : option RecordRef) (c : Change)
    : Virtual * ResolvedChange :=
  let result apply := mkResolved c apply (oref current) (oexists current) in
  if kind =? ProposalUserCommit then
    ((if ch_Operation c =? OpDelete then <[ch_RecordID c := None]> virtual
      else <[ch_RecordID c := Some (ch_NewRef c)]> virtual), result true)
  else if kind =? ProposalRelocation then
    let apply := oexists current && (Addr (oref current) =? ch_ExpectedOldAddr c) in
    ((if apply then <[ch_RecordID c := Some (ch_NewRef c)]> virtual else virtual), result apply)
  else (virtual, result true).

Fixpoint resolve_changes (kind : Z) (virtual : Virtual) (baseLookup : Lookup) (cs : list Change)
    : res (Virtual * list ResolvedChange) :=
  match cs with
  | [] => Ok (virtual, [])
  | c :: rest =>
      let! current := lookup_virtual virtual baseLookup (ch_RecordID c) in
      let '(virtual', rc) := resolve_change kind virtual current c in
      let! (virtual'', rcs) := resolve_changes kind virtual' baseLookup rest in
      Ok (virtual'', rc :: rcs)
  end.

Fixpoint resolve_proposals (virtual : Virtual) (baseLookup : Lookup) (ps : list Proposal)
    : res (Virtual * list ResolvedProposal) :=
  match ps with
  | [] => Ok (virtual, [])
  | p :: rest =>
      let! accepted := check_conditions virtual baseLookup (pr_Conditions p) in
      if accepted then
        let! (virtual', rcs) := resolve_changes (pr_Kind p) virtual baseLookup (pr_Changes p) in
        let! (virtual'', rps) := resolve_proposals virtual' baseLookup rest in
        Ok (virtual'', mkResolvedProposal (pr_Kind p) true 0 rcs :: rps)
      else
        let! (virtual'', rps) := resolve_proposals virtual baseLookup rest in
        Ok (virtual'', mkResolvedProposal (pr_Kind p) false 0 [] :: rps)
  end.

Definition resolveGroupAt (base : Z) (ps : list Proposal) (baseLookup : Lookup) : res GroupPlan :=
  let! (_, rps) := resolve_proposals ∅ baseLookup ps in
  Ok (mkPlan base rps).

(** ** Delta accounting *)

Fixpoint count_delta (seen : gset Z) (n : Z) (rcs : list ResolvedChange) : gset Z * Z :=
  match rcs with
  | [] => (seen, n)
  | rc :: rest =>
      if rc_Apply rc then
        let id := ch_RecordID (rc_Change rc) in
        if bool_decide (id ∈ seen) then count_delta seen n rest
        else count_delta ({[id]} ∪ seen) (n + 1) rest
      else count_delta seen n rest
  end.

Fixpoint assign_loop (seen : gset Z) (rps : list ResolvedProposal) : list ResolvedProposal :=
  match rps with
  | [] => []
  | rp :: rest =>
      if rp_Accepted rp then
        let '(seen', n) := count_delta seen (rp_DeltaEntries rp) (rp_Changes rp) in
        mkResolvedProposal (rp_Kind rp) true n (rp_Changes rp) :: assign_loop seen' rest
      else rp :: assign_loop seen rest
  end.

Definition assignDeltaEntries (plan : GroupPlan) (active : gset Z) : GroupPlan :=
  mkPlan (gp_BaseCommitSeq plan) (assign_loop active (gp_Proposals plan)).

Definition clear_delta (rp : ResolvedProposal) : ResolvedProposal :=
  mkResolvedProposal (rp_Kind rp) (rp_Accepted rp) 0 (rp_Changes rp).

Definition validDeltaEntries (plan : GroupPlan) (active : gset Z) : bool :=
  let want := assign_loop active (map clear_delta (gp_Proposals plan)) in
  bool_decide (map rp_DeltaEntries (gp_Proposals plan) = map rp_DeltaEntries want).

(** ** Validation of a resolved plan *)

Definition resolved_change_ok (kind : Z) (rc : ResolvedChange) : bool :=
  negb (negb (Bool.eqb (rc_OldExists rc) (negb (RecordRef_IsZero (rc_OldRef rc)))) ||
        (rc_OldExists rc && negb (RecordRef_Valid (rc_OldRef rc)))) &&
  negb ((kind =? ProposalUserCommit) && negb (rc_Apply rc)).

Definition resolved_proposal_ok (rp : ResolvedProposal) : bool :=
  if rp_Accepted rp then
    forallb (resolved_change_ok (rp_Kind rp)) (rp_Changes rp) &&
    validateProposal (mkProposal (rp_Kind rp) [] (map rc_Change (rp_Changes rp)))
  else negb (negb (rp_Kind rp =? ProposalUserCommit) || negb (len (rp_Changes rp) =? 0)).

(** [validateResolvedPlan(plan) == nil] *)
Definition validateResolvedPlan (plan : GroupPlan) : bool :=
  forallb resolved_proposal_ok (gp_Proposals plan).

(** ** Live statistics *)

Record segmentLiveDelta := mkLiveDelta
  { ld_removeBytes : Z; ld_addBytes : Z; ld_removeRecords : Z; ld_addRecords : Z; ld_lastChanged : Z }.

Definition zeroLiveDelta : segmentLiveDelta := mkLiveDelta 0 0 0 0 0.
Definition zeroLive : SegmentLiveStats := mkLive 0 0 0.

Abbreviation LiveMap := (gmap Z SegmentLiveStats).
Abbreviation DeltaMap := (gmap Z segmentLiveDelta).

Definition delta_at (deltas : DeltaMap) (segment : Z) : segmentLiveDelta :=
  default zeroLiveDelta (deltas !! segment).
Definition live_at (stats : LiveMap) (segment : Z) : SegmentLiveStats :=
  default zeroLive (stats !! segment).

Definition delta_remove (seq : Z) (ref : RecordRef) (deltas : DeltaMap) : res DeltaMap :=
  raise [mapping_ErrCorrupt] when negb (RecordRef_Valid ref) ;;
  let segment := SegmentID (Addr ref) in
  let delta := delta_at deltas segment in
  raise [mapping_ErrCorrupt] when
    (MaxUint64 - PhysicalSize ref <? ld_removeBytes delta) || (ld_removeRecords delta =? MaxUint64) ;;
  Ok (<[segment := mkLiveDelta (ld_removeBytes delta + PhysicalSize ref) (ld_addBytes delta)
                     (ld_removeRecords delta + 1) (ld_addRecords delta) seq]> deltas).

Definition delta_add (seq : Z) (ref : RecordRef) (deltas : DeltaMap) : res DeltaMap :=
  raise [mapping_ErrCorrupt] when negb (RecordRef_Valid ref) ;;
  let segment := SegmentID (Addr ref) in
  let delta := delta_at deltas segment in
  raise [mapping_ErrCorrupt] when
    (MaxUint64 - PhysicalSize ref <? ld_addBytes delta) || (ld_addRecords delta =? MaxUint64) ;;
  Ok (<[segment := mkLiveDelta (ld_removeBytes delta) (ld_addBytes delta + PhysicalSize ref)
                     (ld_removeRecords delta) (ld_addRecords delta + 1) seq]> deltas).

Definition delta_change (seq : Z) (rc : ResolvedChange) (deltas : DeltaMap) : res DeltaMap :=
  if rc_Apply rc then
    let! deltas := if rc_OldExists rc then delta_remove seq (rc_OldRef rc) deltas else Ok deltas in
    if negb (ch_Operation (rc_Change rc) =? OpDelete) then delta_add seq (ch_NewRef (rc_Change rc)) deltas
    else Ok deltas
  else Ok deltas.

Fixpoint delta_changes (seq : Z) (rcs : list ResolvedChange) (deltas : DeltaMap) : res DeltaMap :=
  match rcs with
  | [] => Ok deltas
  | rc :: rest => let! deltas' := delta_change seq rc deltas in delta_changes seq rest deltas'
  end.

Fixpoint delta_proposals (seq : Z) (rps : list ResolvedProposal) (deltas : DeltaMap) : res DeltaMap :=
  match rps with
  | [] => Ok deltas
  | rp :: rest =>
      if rp_Accepted rp then
        let! deltas' := delta_changes seq (rp_Changes rp) deltas in
        delta_proposals ((seq + 1) mod two64) rest deltas'
      else delta_proposals seq rest deltas
  end.

(** [if remove >= add { remove -= add; add = 0 } else { add -= remove; remove = 0 }] *)
Definition net (remove add : Z) : Z * Z :=
  if add <=? remove then (remove - add, 0) else (0, add - remove).

Definition net_delta (current : SegmentLiveStats) (delta : segmentLiveDelta) : res segmentLiveDelta :=
  let '(removeBytes, addBytes) := net (ld_removeBytes delta) (ld_addBytes delta) in
  let '(removeRecords, addRecords) := net (ld_removeRecords delta) (ld_addRecords delta) in
  raise [mapping_ErrCorrupt] when
    (ls_LiveBytes current <? removeBytes) || (ls_LiveRecords current <? removeRecords) ||
    (MaxUint64 - addBytes <? ls_LiveBytes current - removeBytes) ||
    (MaxUint64 - addRecords <? ls_LiveRecords current - removeRecords) ;;
  Ok (mkLiveDelta removeBytes addBytes removeRecords addRecords (ld_lastChanged delta)).

(** The two loops over the delta map, in an arbitrary iteration order. *)
Fixpoint net_loop (stats : LiveMap) (l : list (Z * segmentLiveDelta)) : res (list (Z * segmentLiveDelta)) :=
  match l with
  | [] => Ok []
  | (segment, delta) :: rest =>
      let! d := net_delta (live_at stats segment) delta in
      let! ds := net_loop stats rest in
      Ok ((segment, d) :: ds)
  end.

Fixpoint commit_loop (stats : LiveMap) (l : list (Z * segmentLiveDelta)) : LiveMap * res unit :=
  match l with
  | [] => (stats, Ok tt)
  | (segment, delta) :: rest =>
      let current := live_at stats segment in
      let bytes := ls_LiveBytes current - ld_removeBytes delta + ld_addBytes delta in
      let records := ls_LiveRecords current - ld_removeRecords delta + ld_addRecords delta in
      if records =? 0 then
        if negb (bytes =? 0) then (stats, Err [mapping_ErrCorrupt])
        else commit_loop (delete segment stats) rest
      else commit_loop (<[segment := mkLive bytes records (ld_lastChanged delta)]> stats) rest
  end.

(** The statistics are updated in place: the first component is their content
    whether or not an error is returned. *)
Definition applyPlanLiveStats (stats : LiveMap) (first : Z) (plan : GroupPlan) : LiveMap * res unit :=
  match delta_proposals first (gp_Proposals plan) ∅ with
  | Err e => (stats, Err e)
  | Ok deltas =>
      match net_loop stats (map_to_list deltas) with
      | Err e => (stats, Err e)
      | Ok nets => commit_loop stats nets
      end
  end.

Definition addLiveRef (stats : LiveMap) (ref : RecordRef) (seq : Z) : res LiveMap :=
  raise [mapping_ErrCorrupt] when negb (RecordRef_Valid ref) ;;
  let segment := SegmentID (Addr ref) in
  let current := live_at stats segment in
  raise [mapping_ErrCorrupt] when
    (MaxUint64 - PhysicalSize ref <? ls_LiveBytes current) || (ls_LiveRecords current =? MaxUint64) ;;
  Ok (<[segment := mkLive (ls_LiveBytes current + PhysicalSize ref) (ls_LiveRecords current + 1) seq]> stats).

(** ** The in-memory Mapping *)

Abbreviation Entries := (gmap Z RecordRef).

Record Mapping := mkMapping { m_covered : Z; m_entries : Entries; m_live : LiveMap }.

Record Snapshot := mkSnapshot { sn_CoveredCommitSeq : Z; sn_Entries : Entries }.

Fixpoint New_loop (seq : Z) (l : list (Z * RecordRef)) (entries : Entries) (live : LiveMap)
    : res (Entries * LiveMap) :=
  match l with
  | [] => Ok (entries, live)
  | (id, ref) :: rest =>
      raise [mapping_ErrInvalid] when (id =? 0) || negb (RecordRef_Valid ref) ;;
      let! live' := addLiveRef live ref seq in
      New_loop seq rest (<[id := ref]> entries) live'
  end.

Definition New (snapshot : Snapshot) : res Mapping :=
  let! (entries, live) :=
    New_loop (sn_CoveredCommitSeq snapshot) (map_to_list (sn_Entries snapshot)) ∅ ∅ in
  Ok (mkMapping (sn_CoveredCommitSeq snapshot) entries live).

Definition NewEmpty : Mapping := mkMapping 0 ∅ ∅.

Definition LookupRef (m : Mapping) (id : Z) : res (option RecordRef) :=
  raise [mapping_ErrInvalid] when id =? 0 ;; Ok (m_entries m !! id).

Definition ResolveGroup (m : Mapping) (ps : list Proposal) : res GroupPlan :=
  raise [mapping_ErrInvalid] when (len ps =? 0) || (MaxUint32 <? len ps) ;;
  raise [mapping_ErrInvalid] when negb (forallb validateProposal ps) ;;
  let! plan := resolveGroupAt (m_covered m) ps (fun id => Ok (m_entries m !! id)) in
  Ok (assignDeltaEntries plan ∅).

Definition accepted_count (rps : list ResolvedProposal) : Z :=
  len (filter (fun rp => rp_Accepted rp = true) rps).

(** The visible update of one applied change. *)
Definition apply_change (entries : Entries) (rc : ResolvedChange) : Entries :=
  if rc_Apply rc then
    if ch_Operation (rc_Change rc) =? OpDelete then delete (ch_RecordID (rc_Change rc)) entries
    else <[ch_RecordID (rc_Change rc) := ch_NewRef (rc_Change rc)]> entries
  else entries.

Definition apply_proposal (entries : Entries) (rp : ResolvedProposal) : Entries :=
  if rp_Accepted rp then foldl apply_change entries (rp_Changes rp) else entries.

Definition apply_plan (entries : Entries) (rps : list ResolvedProposal) : Entries :=
  foldl apply_proposal entries rps.

(** [result.Applied++] / [result.Skipped++] over the accepted proposals. *)
Definition applied_count (rps : list ResolvedProposal) : Z :=
  foldr (fun rp acc => (if rp_Accepted rp then len (filter (fun rc => rc_Apply rc = true) (rp_Changes rp)) else 0) + acc) 0 rps.
Definition skipped_count (rps : list ResolvedProposal) : Z :=
  foldr (fun rp acc => (if rp_Accepted rp then len (filter (fun rc => rc_Apply rc = false) (rp_Changes rp)) else 0) + acc) 0 rps.

(** The plan checks that do not look at the state. *)
Definition publish_guard (first : Z) (plan : GroupPlan) {R} (reservations : list (option R)) : res unit :=
  raise [mapping_ErrInvalid] when (first =? 0) || (len (gp_Proposals plan) =? 0) ;;
  raise [mapping_ErrInvalid] when
    negb (len reservations =? len (gp_Proposals plan)) ||
    negb (forallb (fun r => match r with Some _ => true | None => false end) reservations) ;;
  Ok tt.

(** [ReserveDelta] of this implementation always returns the unlimited
    reservation, whose [Release] does nothing and whose [consume] succeeds. *)
Definition ReserveDelta (m : Mapping) (ids : list Z) : res (unit * Z) := Ok (tt, 0).

Definition PublishGroup (m : Mapping) (first : Z) (plan : GroupPlan) (reservations : list (option unit))
    : Mapping * res PublishResult :=
  match publish_guard first plan reservations with
  | Err e => (m, Err e)
  | Ok _ =>
      if negb (validDeltaEntries plan ∅) then (m, Err [mapping_ErrInvalid])
      else if negb (validateResolvedPlan plan) then (m, Err [mapping_ErrInvalid])
      else if negb (gp_BaseCommitSeq plan =? m_covered m) then (m, Err [mapping_ErrStalePlan])
      else if (m_covered m =? MaxUint64) || negb (first =? m_covered m + 1) then (m, Err [mapping_ErrInvalid])
      else
        let accepted := accepted_count (gp_Proposals plan) in
        if (accepted =? 0) || (MaxUint64 - first <? accepted - 1) then (m, Err [mapping_ErrInvalid])
        else
          match applyPlanLiveStats (m_live m) first plan with
          | (live', Err e) => (mkMapping (m_covered m) (m_entries m) live', Err e)
          | (live', Ok _) =>
              (mkMapping (first + accepted - 1) (apply_plan (m_entries m) (gp_Proposals plan)) live',
               Ok (mkPublish (accepted mod two32) (applied_count (gp_Proposals plan) mod two32)
                             (skipped_count (gp_Proposals plan) mod two32)))
          end
  end.

(** ** Specification: a group is a serial execution of its proposals

    The abstract state is the map of visible entries.  A proposal whose
    conditions hold is applied as a whole, one whose conditions fail has no
    effect; a relocation replaces exactly the references that are unchanged. *)

Definition spec_condition (entries : Entries) (c : Condition) : bool :=
  match entries !! co_RecordID c with
  | None => co_ExpectedAddr c =? 0
  | Some r => negb (co_ExpectedAddr c =? 0) && (Addr r =? co_ExpectedAddr c)
  end.

Definition spec_change (kind : Z) (entries : Entries) (c : Change) : Entries :=
  if kind =? ProposalUserCommit then
    if ch_Operation c =? OpDelete then delete (ch_RecordID c) entries
    else <[ch_RecordID c := ch_NewRef c]> entries
  else
    match entries !! ch_RecordID c with
    | Some r => if Addr r =? ch_ExpectedOldAddr c then <[ch_RecordID c := ch_NewRef c]> entries else entries
    | None => entries
    end.

Definition spec_accepts (entries : Entries) (p : Proposal) : bool :=
  forallb (spec_condition entries) (pr_Conditions p).

Definition spec_proposal (entries : Entries) (p : Proposal) : Entries :=
  if spec_accepts entries p then foldl (spec_change (pr_Kind p)) entries (pr_Changes p) else entries.

Definition spec_group (entries : Entries) (ps : list Proposal) : Entries := foldl spec_proposal entries ps.

(** The acceptance flags of a serial execution. *)
Fixpoint spec_flags (entries : Entries) (ps : list Proposal) : list bool :=
  match ps with
  | [] => []
  | p :: rest => spec_accepts entries p :: spec_flags (spec_proposal entries p) rest
  end.

(** ** Resolution refines the specification *)

(** The overlay [virtual] over [L] shows the state [S] at the ids of [P]. *)
Definition agrees_on (P : Z -> Prop) (virtual : Virtual) (L : Lookup) (S : Entries) : Prop :=
  forall id, P id -> lookup_virtual virtual L id = Ok (S !! id).

(** Every change was resolved against the state in which it is applied. *)
Fixpoint trace_ok (S : Entries) (rcs : list ResolvedChange) : Prop :=
  match rcs with
  | [] => True
  | rc :: rest =>
      rc_OldRef rc = oref (S !! ch_RecordID (rc_Change rc)) /\
      rc_OldExists rc = oexists (S !! ch_RecordID (rc_Change rc)) /\
      trace_ok (apply_change S rc) rest
  end.

Fixpoint plan_trace (S : Entries) (rps : list ResolvedProposal) : Prop :=
  match rps with
  | [] => True
  | rp :: rest =>
      (if rp_Accepted rp then trace_ok S (rp_Changes rp) else rp_Changes rp = []) /\
      plan_trace (apply_proposal S rp) rest
  end.

Lemma condition_fails_spec S c : condition_fails c (S !! co_RecordID c) = negb (spec_condition S c).
Proof.
  unfold condition_fails, spec_condition. destruct (S !! co_RecordID c) as [r|]; cbn;
    destruct (co_ExpectedAddr c =? 0); reflexivity.
Qed.

Lemma check_conditions_spec P virtual L S cs :
  agrees_on P virtual L S -> Forall (fun c => P (co_RecordID c)) cs ->
  check_conditions virtual L cs = Ok (forallb (spec_condition S) cs).
Proof.
  intros Ha. induction 1 as [|c cs Hc Hcs IH]; [reflexivity|]. cbn [check_conditions forallb].
  rewrite (Ha _ Hc), condition_fails_spec. destruct (spec_condition S c); [exact IH | reflexivity].
Qed.

(** The changes a kind may carry (guaranteed by [validateProposal]). *)
Definition kind_ok (kind : Z) (c : Change) : Prop :=
  kind = ProposalUserCommit \/ (kind = ProposalRelocation /\ ch_Operation c = OpRelocate).

Lemma lookup_virtual_insert virtual L i v id :
  lookup_virtual (<[i := v]> virtual) L id = if decide (i = id) then Ok v else lookup_virtual virtual L id.
Proof.
  unfold lookup_virtual. destruct (decide (i = id)) as [->|Hne].
  - now rewrite lookup_insert_eq.
  - now rewrite lookup_insert_ne.
Qed.

Lemma resolve_change_spec P virtual L S kind c virtual' rc :
  agrees_on P virtual L S -> kind_ok kind c ->
  resolve_change kind virtual (S !! ch_RecordID c) c = (virtual', rc) ->
  agrees_on P virtual' L (apply_change S rc) /\ apply_change S rc = spec_change kind S c /\
  rc_Change rc = c /\ rc_OldRef rc = oref (S !! ch_RecordID c) /\ rc_OldExists rc = oexists (S !! ch_RecordID c) /\
  (kind = ProposalUserCommit -> rc_Apply rc = true).
Proof.
  intros Ha Hk E. unfold resolve_change in E.
  destruct Hk as [->|[-> Hop]].
  - change (ProposalUserCommit =? ProposalUserCommit) with true in E. cbv iota in E.
    injection E as <- <-. unfold apply_change, spec_change.
    cbn [rc_Apply rc_Change rc_OldRef rc_OldExists]. change (ProposalUserCommit =? ProposalUserCommit) with true.
    split; [|repeat split; auto]. intros id Hid.
    destruct (ch_Operation c =? OpDelete); rewrite lookup_virtual_insert; destruct (decide _) as [<-|Hne].
    + now rewrite lookup_delete_eq.
    + rewrite lookup_delete_ne by exact Hne. auto.
    + now rewrite lookup_insert_eq.
    + rewrite lookup_insert_ne by exact Hne. auto.
  - change (ProposalRelocation =? ProposalUserCommit) with false in E.
    change (ProposalRelocation =? ProposalRelocation) with true in E. cbv iota zeta in E.
    injection E as <- <-. unfold apply_change, spec_change. cbn [rc_Apply rc_Change rc_OldRef rc_OldExists].
    rewrite Hop. change (OpRelocate =? OpDelete) with false. change (ProposalRelocation =? ProposalUserCommit) with false.
    cbv iota. split; [|repeat split; [|discriminate]].
    + intros id Hid. destruct (oexists _ && _); [|auto].
      rewrite lookup_virtual_insert. destruct (decide _) as [<-|Hne];
        [now rewrite lookup_insert_eq | rewrite lookup_insert_ne by exact Hne; auto].
    + destruct (S !! ch_RecordID c) as [r|]; cbn; [destruct (Addr r =? ch_ExpectedOldAddr c)|]; reflexivity.
Qed.

Lemma resolve_changes_spec P L kind cs : Forall (fun c => P (ch_RecordID c) /\ kind_ok kind c) cs ->
  forall virtual S, agrees_on P virtual L S ->
  exists virtual' rcs, resolve_changes kind virtual L cs = Ok (virtual', rcs) /\
    agrees_on P virtual' L (foldl apply_change S rcs) /\
    foldl apply_change S rcs = foldl (spec_change kind) S cs /\
    map rc_Change rcs = cs /\ trace_ok S rcs /\
    (kind = ProposalUserCommit -> Forall (fun rc => rc_Apply rc = true) rcs).
Proof.
  induction 1 as [|c cs [Hp Hk] Hcs IH]; intros virtual S Ha.
  { exists virtual, []. cbn. repeat split; auto. }
  cbn [resolve_changes]. rewrite (Ha _ Hp).
  destruct (resolve_change kind virtual (S !! ch_RecordID c) c) as [v1 rc] eqn:E.
  apply (resolve_change_spec P virtual L S) in E as (Ha1 & Es & Ec & Eo & Ee & Hap); auto.
  destruct (IH v1 _ Ha1) as (v2 & rcs & -> & Ha2 & Ef & Em & Ht & Hall).
  exists v2, (rc :: rcs). cbn [foldl map trace_ok]. rewrite Ec, Es in *.
  repeat split; auto. congruence.
Qed.

(** ** Facts from validation *)

Lemma changes_ok_spec kind cs : forall p,
  changes_ok kind p cs = true ->
  Forall (fun c => ch_RecordID c <> 0 /\ change_ok kind c = true) cs /\
  StronglySorted Z.lt (map ch_RecordID cs) /\
  match p with Some p => Forall (fun c => p < ch_RecordID c) cs | None => True end.
Proof.
  induction cs as [|c cs IH]; intros p H; cbn [changes_ok] in H.
  { repeat split; try constructor. destruct p; [constructor|done]. }
  apply andb_true_iff in H as [H Hr]. apply andb_true_iff in H as [Hp Hm].
  apply negb_true_iff, orb_false_iff in Hp as [H0 Hp]. apply Z.eqb_neq in H0.
  apply IH in Hr as (Hall & Hsort & Hgt).
  split; [now constructor|]. split.
  - cbn. constructor; [exact Hsort|]. apply Forall_map. exact Hgt.
  - destruct p as [p|]; [|done]. apply Z.leb_gt in Hp. constructor; [exact Hp|].
    eapply Forall_impl; [exact Hgt|]. cbn. lia.
Qed.

Lemma changes_ok_intro kind cs : forall p,
  Forall (fun c => ch_RecordID c <> 0 /\ change_ok kind c = true) cs ->
  StronglySorted Z.lt (map ch_RecordID cs) ->
  match p with Some p => Forall (fun c => p < ch_RecordID c) cs | None => True end ->
  changes_ok kind p cs = true.
Proof.
  induction cs as [|c cs IH]; intros p Hall Hs Hp; [reflexivity|].
  apply Forall_cons_iff in Hall as [[H0 Hc] Hall]. cbn in Hs. apply StronglySorted_inv in Hs as [Hs Hgt].
  cbn [changes_ok]. rewrite Hc. apply Z.eqb_neq in H0. rewrite H0. cbn [orb].
  rewrite Forall_map in Hgt. rewrite (IH (Some (ch_RecordID c)) Hall Hs Hgt), !andb_true_r.
  destruct p as [p|]; [|reflexivity]. apply Forall_inv in Hp. apply negb_true_iff, Z.leb_gt. lia.
Qed.

Lemma conditions_ok_intro cs : forall p,
  Forall (fun c => co_RecordID c <> 0 /\ (co_ExpectedAddr c = 0 \/ VAddr_Valid (co_ExpectedAddr c) = true)) cs ->
  StronglySorted Z.lt (map co_RecordID cs) ->
  match p with Some p => Forall (fun c => p < co_RecordID c) cs | None => True end ->
  conditions_ok p cs = true.
Proof.
  induction cs as [|c cs IH]; intros p Hall Hs Hp; [reflexivity|].
  apply Forall_cons_iff in Hall as [[H0 Hc] Hall]. cbn in Hs. apply StronglySorted_inv in Hs as [Hs Hgt].
  cbn [conditions_ok]. apply Z.eqb_neq in H0. rewrite H0. cbn [orb].
  rewrite Forall_map in Hgt. rewrite (IH (Some (co_RecordID c)) Hall Hs Hgt), andb_true_r.
  apply andb_true_iff. split.
  - destruct p as [p|]; [|reflexivity]. apply Forall_inv in Hp. apply negb_true_iff, Z.leb_gt. lia.
  - destruct Hc as [-> | ->]; [reflexivity|]. now rewrite andb_false_r.
Qed.

Lemma change_ok_kind kind c :
  kind = ProposalUserCommit \/ kind = ProposalRelocation -> change_ok kind c = true -> kind_ok kind c.
Proof.
  intros [->| ->] H; [now left|right]. split; [reflexivity|].
  unfold change_ok in H. change (ProposalRelocation =? ProposalUserCommit) with false in H.
  change (ProposalRelocation =? ProposalRelocation) with true in H. cbv iota in H.
  apply negb_true_iff in H. bool_norm. assumption.
Qed.

(** The reference a non-deleting change installs is valid. *)
Lemma change_ok_ref kind c :
  kind = ProposalUserCommit \/ kind = ProposalRelocation -> change_ok kind c = true ->
  ch_Operation c <> OpDelete -> RecordRef_Valid (ch_NewRef c) = true.
Proof.
  intros Hk H Hop. unfold change_ok in H. destruct Hk as [->| ->].
  - change (ProposalUserCommit =? ProposalUserCommit) with true in H. cbv iota in H.
    apply negb_true_iff in H. bool_norm.
    repeat match goal with E : _ && _ = false |- _ => apply andb_false_iff in E as [?|?] end; bool_norm;
      try assumption; congruence.
  - change (ProposalRelocation =? ProposalUserCommit) with false in H.
    change (ProposalRelocation =? ProposalRelocation) with true in H. cbv iota in H.
    apply negb_true_iff in H. bool_norm. assumption.
Qed.

Lemma validateProposal_facts p :
  validateProposal p = true ->
  (pr_Kind p = ProposalUserCommit \/ (pr_Kind p = ProposalRelocation /\ pr_Conditions p = [])) /\
  Forall (fun c => ch_RecordID c <> 0 /\ change_ok (pr_Kind p) c = true /\ kind_ok (pr_Kind p) c) (pr_Changes p) /\
  StronglySorted Z.lt (map ch_RecordID (pr_Changes p)).
Proof.
  intros H. unfold validateProposal in H. apply andb_true_iff in H as [H Hch]. apply andb_true_iff in H as [Hk _].
  assert (Hkind : pr_Kind p = ProposalUserCommit \/ (pr_Kind p = ProposalRelocation /\ pr_Conditions p = [])).
  { destruct (pr_Kind p =? ProposalUserCommit) eqn:E; bool_norm; [now left|right].
    destruct (pr_Kind p =? ProposalRelocation) eqn:E2; [|discriminate]. bool_norm.
    split; [assumption|]. now apply len_zero_nil. }
  split; [exact Hkind|]. apply changes_ok_spec in Hch as (Hall & Hs & _). split; [|exact Hs].
  eapply Forall_impl; [exact Hall|]. cbn. intros c [H0 Hc]. repeat split; auto.
  apply change_ok_kind; [destruct Hkind as [?|[? _]]; auto | exact Hc].
Qed.

(** ** Resolution of a whole group *)

Definition resolved_of (p : Proposal) (rp : ResolvedProposal) : Prop :=
  rp_Kind rp = pr_Kind p /\
  if rp_Accepted rp then
    map rc_Change (rp_Changes rp) = pr_Changes p /\
    (pr_Kind p = ProposalUserCommit -> Forall (fun rc => rc_Apply rc = true) (rp_Changes rp))
  else rp_Changes rp = [] /\ pr_Conditions p <> [].

Definition proposal_ids (P : Z -> Prop) (p : Proposal) : Prop :=
  Forall (fun c => P (co_RecordID c)) (pr_Conditions p) /\ Forall (fun c => P (ch_RecordID c)) (pr_Changes p).

Lemma resolve_proposals_spec P L ps :
  Forall (fun p => validateProposal p = true /\ proposal_ids P p) ps ->
  forall virtual S, agrees_on P virtual L S ->
  exists virtual' rps, resolve_proposals virtual L ps = Ok (virtual', rps) /\
    apply_plan S rps = spec_group S ps /\ map rp_Accepted rps = spec_flags S ps /\
    plan_trace S rps /\ Forall2 resolved_of ps rps /\ Forall (fun rp => rp_DeltaEntries rp = 0) rps.
Proof.
  induction 1 as [|p ps [Hv [Hic Hich]] Hps IH]; intros virtual S Ha.
  { exists virtual, []. cbn. repeat split; auto. }
  cbn [resolve_proposals]. rewrite (check_conditions_spec P virtual L S _ Ha Hic).
  fold (spec_accepts S p). unfold spec_group, apply_plan in *. cbn [foldl spec_flags].
  apply validateProposal_facts in Hv as (Hkind & Hall & _).
  destruct (spec_accepts S p) eqn:Hacc.
  - destruct (resolve_changes_spec P L (pr_Kind p) (pr_Changes p)) with (virtual := virtual) (S := S)
      as (v1 & rcs & -> & Ha1 & Ef & Em & Ht & Hap); [|exact Ha|].
    { apply Forall_and; split; [exact Hich|]. eapply Forall_impl; [exact Hall|]. cbn. tauto. }
    destruct (IH v1 _ Ha1) as (v2 & rps & -> & E1 & E2 & E3 & E4 & E5).
    assert (ES : spec_proposal S p = foldl apply_change S rcs) by (unfold spec_proposal; now rewrite Hacc, Ef).
    rewrite ES. exists v2. eexists. split; [reflexivity|].
    cbn [foldl map rp_Accepted plan_trace apply_proposal rp_Changes rp_DeltaEntries].
    repeat split; auto; [congruence|].
    constructor; [|exact E4]. split; [reflexivity|]. cbn. auto.
  - destruct (IH virtual S Ha) as (v2 & rps & -> & E1 & E2 & E3 & E4 & E5).
    assert (ES : spec_proposal S p = S) by (unfold spec_proposal; now rewrite Hacc).
    rewrite ES. exists v2. eexists. split; [reflexivity|].
    cbn [foldl map rp_Accepted plan_trace apply_proposal rp_Changes rp_DeltaEntries].
    repeat split; auto; [congruence|]. constructor; [|exact E4]. split; [reflexivity|]. cbn.
    split; [reflexivity|]. intros E. unfold spec_accepts in Hacc. rewrite E in Hacc. discriminate.
Qed.

(** ** Delta assignment changes nothing but the delta counts *)

Definition same_but_delta (a b : ResolvedProposal) : Prop :=
  rp_Kind a = rp_Kind b /\ rp_Accepted a = rp_Accepted b /\ rp_Changes a = rp_Changes b.

Lemma assign_loop_same rps : forall seen, Forall2 same_but_delta rps (assign_loop seen rps).
Proof.
  induction rps as [|rp rps IH]; intros seen; cbn [assign_loop]; [constructor|].
  destruct (rp_Accepted rp) eqn:E.
  - destruct (count_delta seen (rp_DeltaEntries rp) (rp_Changes rp)). constructor; [|apply IH].
    repeat split; cbn; congruence.
  - constructor; [repeat split | apply IH].
Qed.

Lemma same_clear rps rps' : Forall2 same_but_delta rps rps' -> map clear_delta rps = map clear_delta rps'.
Proof.
  induction 1 as [|a b l k (H1 & H2 & H3) _ IH]; cbn; [done|]. rewrite IH. unfold clear_delta. congruence.
Qed.

Lemma same_apply rps rps' : Forall2 same_but_delta rps rps' -> forall S, apply_plan S rps = apply_plan S rps'.
Proof.
  unfold apply_plan. induction 1 as [|a b l k (H1 & H2 & H3) _ IH]; intros S; cbn [foldl]; [done|].
  rewrite IH. unfold apply_proposal. now rewrite H2, H3.
Qed.

Lemma same_trace rps rps' : Forall2 same_but_delta rps rps' -> forall S, plan_trace S rps -> plan_trace S rps'.
Proof.
  induction 1 as [|a b l k (H1 & H2 & H3) _ IH]; intros S; cbn [plan_trace]; [done|].
  unfold apply_proposal. rewrite <- H2, <- H3. intros [? ?]. auto.
Qed.

Lemma same_flags rps rps' : Forall2 same_but_delta rps rps' -> map rp_Accepted rps = map rp_Accepted rps'.
Proof. induction 1 as [|a b l k (H1 & H2 & H3) _ IH]; cbn; congruence. Qed.

Lemma same_resolved ps rps rps' :
  Forall2 resolved_of ps rps -> Forall2 same_but_delta rps rps' -> Forall2 resolved_of ps rps'.
Proof.
  intros H. revert rps'. induction H as [|p rp ps rps Hr _ IH]; intros rps' Hs; inversion Hs as [|? b ? k (H1 & H2 & H3) Hk]; subst.
  { constructor. }
  constructor; [|now apply IH]. unfold resolved_of in *. now rewrite <- H1, <- H2, <- H3.
Qed.

Lemma assign_valid rps active :
  Forall (fun rp => rp_DeltaEntries rp = 0) rps ->
  validDeltaEntries (mkPlan 0 (assign_loop active rps)) active = true.
Proof.
  intros H0. apply bool_decide_eq_true. cbn [gp_Proposals].
  rewrite <- (same_clear _ _ (assign_loop_same rps active)).
  do 2 f_equal. induction H0 as [|rp rps Hrp _ IH]; cbn; [done|]. rewrite <- IH.
  destruct rp; unfold clear_delta; cbn in *; congruence.
Qed.

(** ** The result of ResolveGroup *)

Definition group_ok (ps : list Proposal) : Prop :=
  ps <> [] /\ len ps <= MaxUint32 /\ Forall (fun p => validateProposal p = true) ps.

(** Ids and references within their machine widths. *)
Definition proposal_u (p : Proposal) : Prop :=
  proposal_ids is_u64 p /\ Forall (fun c => ref_u (ch_NewRef c)) (pr_Changes p).

Record plan_for (S : Entries) (base : Z) (active : gset Z) (ps : list Proposal) (plan : GroupPlan) : Prop := mkPlanFor {
  pf_base : gp_BaseCommitSeq plan = base;
  pf_apply : apply_plan S (gp_Proposals plan) = spec_group S ps;
  pf_flags : map rp_Accepted (gp_Proposals plan) = spec_flags S ps;
  pf_trace : plan_trace S (gp_Proposals plan);
  pf_resolved : Forall2 resolved_of ps (gp_Proposals plan);
  pf_delta : validDeltaEntries plan active = true;
}.

Lemma resolve_assign_spec P S base L active ps :
  Forall (fun p => validateProposal p = true /\ proposal_ids P p) ps ->
  (forall id, P id -> L id = Ok (S !! id)) ->
  exists plan, resolveGroupAt base ps L = Ok plan /\
    plan_for S base active ps (assignDeltaEntries plan active).
Proof.
  intros Hps HL.
  destruct (resolve_proposals_spec P L ps Hps ∅ S) as (v & rps & E & E1 & E2 & E3 & E4 & E5).
  { intros id Hid. unfold lookup_virtual. rewrite lookup_empty. auto. }
  unfold resolveGroupAt. rewrite E. eexists. split; [reflexivity|].
  pose proof (assign_loop_same rps active) as Hs.
  unfold assignDeltaEntries. constructor; cbn [gp_BaseCommitSeq gp_Proposals].
  - reflexivity.
  - now rewrite <- (same_apply _ _ Hs).
  - now rewrite <- (same_flags _ _ Hs).
  - eapply same_trace; eauto.
  - eapply same_resolved; eauto.
  - apply (assign_valid rps active) in E5. exact E5.
Qed.

Lemma ResolveGroup_total m ps :
  group_ok ps -> exists plan, ResolveGroup m ps = Ok plan /\ plan_for (m_entries m) (m_covered m) ∅ ps plan.
Proof.
  intros (Hne & Hlen & Hv). unfold ResolveGroup.
  pose proof (len_nonneg ps).
  assert (len ps <> 0) by (intros E; now apply Hne, len_zero_nil). pass.
  assert (Hf : forallb validateProposal ps = true) by (apply forallb_forall; intros p Hp; rewrite Forall_forall in Hv; apply Hv, list_elem_of_In, Hp).
  rewrite Hf. cbn [negb].
  destruct (resolve_assign_spec (fun _ => True) (m_entries m) (m_covered m) (fun id => Ok (m_entries m !! id)) ∅ ps)
    as (plan & -> & Hp); [|auto|].
  { eapply Forall_impl; [exact Hv|]. cbn. intros p Hp. split; [exact Hp|]. split; apply Forall_true; auto. }
  eexists. split; [reflexivity | exact Hp].
Qed.

(** ** A resolved plan passes the publication checks *)

Definition entries_ok (S : Entries) : Prop :=
  forall id r, S !! id = Some r -> id <> 0 /\ RecordRef_Valid r = true.

Lemma entries_ok_empty : entries_ok ∅.
Proof. intros id r H. now rewrite lookup_empty in H. Qed.

Definition rc_wf (kind : Z) (rc : ResolvedChange) : Prop :=
  ch_RecordID (rc_Change rc) <> 0 /\
  (ch_Operation (rc_Change rc) <> OpDelete -> RecordRef_Valid (ch_NewRef (rc_Change rc)) = true).

Lemma apply_change_entries_ok kind S rc : entries_ok S -> rc_wf kind rc -> entries_ok (apply_change S rc).
Proof.
  intros HS [H0 Hv] id r. unfold apply_change. destruct (rc_Apply rc); [|apply HS].
  destruct (ch_Operation (rc_Change rc) =? OpDelete) eqn:E; bool_norm.
  - intros [_ H]%lookup_delete_Some. now apply HS.
  - intros [[<- <-]|[_ H]]%lookup_insert_Some; [auto | now apply HS].
Qed.

Lemma old_consistent S id : entries_ok S ->
  oexists (S !! id) = negb (RecordRef_IsZero (oref (S !! id))) /\
  (oexists (S !! id) = true -> RecordRef_Valid (oref (S !! id)) = true).
Proof.
  intros HS. destruct (S !! id) as [r|] eqn:E; cbn; [|split; [reflexivity|discriminate]].
  apply HS in E as [_ Hv]. split; [|auto]. now rewrite RecordRef_Valid_IsZero.
Qed.

Lemma trace_checks kind rcs : Forall (rc_wf kind) rcs ->
  (kind = ProposalUserCommit -> Forall (fun rc => rc_Apply rc = true) rcs) -> forall S,
  entries_ok S -> trace_ok S rcs ->
  forallb (resolved_change_ok kind) rcs = true /\ entries_ok (foldl apply_change S rcs).
Proof.
  induction 1 as [|rc rcs Hw Hws IH]; intros Hap S HS Ht; [split; [reflexivity|exact HS]|].
  destruct Ht as (Eo & Ee & Ht). cbn [forallb foldl].
  destruct (IH (fun Hk => proj2 (proj1 (Forall_cons_iff _ _ _) (Hap Hk))) (apply_change S rc)) as [E1 E2]; auto.
  { eapply apply_change_entries_ok; eauto. }
  split; [|exact E2]. rewrite E1, andb_true_r. unfold resolved_change_ok. rewrite Eo, Ee.
  destruct (old_consistent S (ch_RecordID (rc_Change rc)) HS) as [Hc Hv]. rewrite <- Hc, Bool.eqb_reflx.
  cbn [negb orb]. rewrite andb_true_iff, !negb_true_iff. split.
  - destruct (oexists _); [|reflexivity]. rewrite Hv by reflexivity. reflexivity.
  - destruct (kind =? ProposalUserCommit) eqn:Ek; [|reflexivity]. bool_norm.
    specialize (Hap Ek). apply Forall_inv in Hap. now rewrite Hap.
Qed.

Lemma resolved_rc_wf p rcs :
  validateProposal p = true -> map rc_Change rcs = pr_Changes p -> Forall (rc_wf (pr_Kind p)) rcs.
Proof.
  intros Hv E. apply validateProposal_facts in Hv as (Hk & Hall & _). rewrite <- E in Hall.
  rewrite Forall_map in Hall. eapply Forall_impl; [exact Hall|]. cbn. intros rc (H0 & Hc & _).
  split; [exact H0|]. apply (change_ok_ref (pr_Kind p)); [tauto|exact Hc].
Qed.

Lemma validateProposal_no_conditions p :
  validateProposal p = true -> validateProposal (mkProposal (pr_Kind p) [] (pr_Changes p)) = true.
Proof.
  unfold validateProposal. cbn [pr_Kind pr_Conditions pr_Changes]. rewrite !andb_true_iff.
  intros [[Hk _] Hch]. repeat split; auto.
  destruct (pr_Kind p =? ProposalUserCommit); [auto|]. destruct (pr_Kind p =? ProposalRelocation); [|auto].
  apply negb_true_iff, orb_false_iff in Hk as [_ Hk]. now rewrite Hk.
Qed.

Lemma plan_checks ps rps : Forall2 resolved_of ps rps ->
  Forall (fun p => validateProposal p = true) ps -> forall S, entries_ok S -> plan_trace S rps ->
  forallb resolved_proposal_ok rps = true /\ entries_ok (apply_plan S rps).
Proof.
  unfold apply_plan. induction 1 as [|p rp ps rps [Hk Hr] _ IH]; intros Hv S HS Ht; [split; [reflexivity|exact HS]|].
  apply Forall_cons_iff in Hv as [Hp Hps]. cbn [plan_trace] in Ht. destruct Ht as [Ht Hts].
  cbn [forallb foldl]. unfold resolved_proposal_ok at 1. unfold apply_proposal in *.
  destruct (rp_Accepted rp).
  - destruct Hr as [Em Hap]. rewrite Hk, Em.
    destruct (trace_checks (pr_Kind p) (rp_Changes rp) (resolved_rc_wf _ _ Hp Em) Hap S HS Ht) as [-> HS'].
    rewrite validateProposal_no_conditions by exact Hp. cbn [andb]. now apply IH.
  - destruct Hr as [-> Hc]. destruct (IH Hps S HS Hts) as [-> HS']. split; [|exact HS'].
    apply validateProposal_facts in Hp as [[Hu|[_ Hu]] _]; [|contradiction]. rewrite Hk, Hu. reflexivity.
Qed.

(** ** Exact live statistics *)

(** The sum of a quantity over the visible references. *)
Definition msum (f : RecordRef -> Z) (S : Entries) : Z := map_fold (fun _ r acc => f r + acc) 0 S.

Definition in_segment (s : Z) (g : RecordRef -> Z) (r : RecordRef) : Z :=
  if SegmentID (Addr r) =? s then g r else 0.
Definition one (r : RecordRef) : Z := 1.

Definition seg_bytes (S : Entries) (s : Z) : Z := msum (in_segment s PhysicalSize) S.
Definition seg_records (S : Entries) (s : Z) : Z := msum (in_segment s one) S.
Definition total_bytes (S : Entries) : Z := msum PhysicalSize S.

Lemma msum_empty f : msum f ∅ = 0.
Proof. apply map_fold_empty. Qed.

Lemma msum_insert_new f S id r : S !! id = None -> msum f (<[id := r]> S) = f r + msum f S.
Proof. intros H. unfold msum. rewrite map_fold_insert_L; [done| |done]. intros; lia. Qed.

Lemma msum_delete f S id :
  msum f S = match S !! id with Some r => f r | None => 0 end + msum f (delete id S).
Proof.
  destruct (S !! id) as [r|] eqn:E.
  - rewrite <- (insert_delete_id S id r E) at 1. apply msum_insert_new, lookup_delete_eq.
  - now rewrite delete_id.
Qed.

Lemma msum_insert f S id r :
  msum f (<[id := r]> S) = f r + msum f S - match S !! id with Some r => f r | None => 0 end.
Proof.
  rewrite (msum_delete f S id). rewrite <- insert_delete_eq, msum_insert_new by apply lookup_delete_eq. lia.
Qed.

Lemma msum_le f g S : (forall id r, S !! id = Some r -> 0 <= f r <= g r) -> 0 <= msum f S <= msum g S.
Proof.
  induction S as [|id r S Hn IH] using map_ind; intros H.
  - rewrite !msum_empty. lia.
  - rewrite !msum_insert_new by done.
    pose proof (H id r (lookup_insert_eq _ _ _)).
    assert (0 <= msum f S <= msum g S); [|lia]. apply IH. intros i r' Hi.
    apply (H i). rewrite lookup_insert_ne; [done|]. intros ->. congruence.
Qed.

Lemma msum_nonneg f S : (forall id r, S !! id = Some r -> 0 <= f r) -> 0 <= msum f S.
Proof. intros H. apply (msum_le f f). intros id r E. split; [eauto | lia]. Qed.

Lemma valid_size r : RecordRef_Valid r = true -> 32 <= PhysicalSize r.
Proof. unfold RecordRef_Valid, RecordHeaderSize. intros H. bool_norm. assumption. Qed.

(** Per-segment counts are bounded by bytes, and bytes by the total. *)
Lemma seg_bounds S s : entries_ok S -> 0 <= seg_records S s <= seg_bytes S s /\ seg_bytes S s <= total_bytes S.
Proof.
  intros HS. split.
  - apply msum_le. intros id r [_ Hv%valid_size]%HS. unfold in_segment, one.
    destruct (_ =? s); lia.
  - apply (msum_le (in_segment s PhysicalSize)). intros id r [_ Hv%valid_size]%HS. unfold in_segment.
    destruct (_ =? s); lia.
Qed.

Lemma seg_empty S s : seg_records S s = 0 -> entries_ok S -> seg_bytes S s = 0.
Proof.
  unfold seg_records, seg_bytes. induction S as [|id r S Hn IH] using map_ind; [easy|]. intros H0 HS.
  assert (HS' : entries_ok S).
  { intros i r' Hi. apply (HS i). rewrite lookup_insert_ne; [done|]. intros ->. congruence. }
  rewrite msum_insert_new in * by done.
  pose proof (msum_nonneg (in_segment s one) S) as Hnn.
  unfold in_segment at 1 in H0. unfold in_segment at 1. unfold one in H0 at 1.
  assert (0 <= msum (in_segment s one) S) by (apply Hnn; intros; unfold in_segment, one; case_if; lia).
  destruct (SegmentID (Addr r) =? s); [lia|]. rewrite IH by (auto; lia). reflexivity.
Qed.

Definition live_exact (live : LiveMap) (S : Entries) : Prop :=
  forall s, match live !! s with
            | None => seg_records S s = 0
            | Some st => seg_records S s <> 0 /\ ls_LiveBytes st = seg_bytes S s /\
                         ls_LiveRecords st = seg_records S s
            end.

Lemma live_exact_at live S s : entries_ok S -> live_exact live S ->
  ls_LiveBytes (live_at live s) = seg_bytes S s /\ ls_LiveRecords (live_at live s) = seg_records S s.
Proof.
  intros HS H. specialize (H s). unfold live_at. destruct (live !! s) as [st|]; cbn; [tauto|].
  rewrite (seg_empty S s H HS). auto.
Qed.

(** *** What one plan adds and removes *)

Definition new_bytes_rc (rc : ResolvedChange) : Z :=
  if rc_Apply rc && negb (ch_Operation (rc_Change rc) =? OpDelete) then PhysicalSize (ch_NewRef (rc_Change rc)) else 0.
Definition new_bytes (rcs : list ResolvedChange) : Z := foldr (fun rc acc => new_bytes_rc rc + acc) 0 rcs.
Definition plan_new_bytes (rps : list ResolvedProposal) : Z :=
  foldr (fun rp acc => (if rp_Accepted rp then new_bytes (rp_Changes rp) else 0) + acc) 0 rps.

(** [D] records, segment by segment, the difference between [S0] and [S]. *)
Definition delta_exact (D : DeltaMap) (S0 S : Entries) : Prop :=
  forall s, let d := delta_at D s in
    ld_addBytes d - ld_removeBytes d = seg_bytes S s - seg_bytes S0 s /\
    ld_addRecords d - ld_removeRecords d = seg_records S s - seg_records S0 s.

Definition delta_bound (D : DeltaMap) (A B : Z) : Prop :=
  forall s, let d := delta_at D s in
    0 <= ld_removeRecords d <= ld_removeBytes d /\ ld_removeBytes d <= A /\
    0 <= ld_addRecords d <= ld_addBytes d /\ ld_addBytes d <= B.

Lemma delta_at_insert D s d t : delta_at (<[s := d]> D) t = if decide (s = t) then d else delta_at D t.
Proof.
  unfold delta_at. destruct (decide (s = t)) as [->|Hne];
    [now rewrite lookup_insert_eq | now rewrite lookup_insert_ne].
Qed.

Lemma delta_remove_total seq r D A B :
  RecordRef_Valid r = true -> delta_bound D A B -> A + PhysicalSize r <= MaxUint64 ->
  exists D', delta_remove seq r D = Ok D' /\ delta_bound D' (A + PhysicalSize r) B /\
  forall s, let d := delta_at D s in let d' := delta_at D' s in
    ld_addBytes d' = ld_addBytes d /\ ld_addRecords d' = ld_addRecords d /\
    ld_removeBytes d' = ld_removeBytes d + in_segment s PhysicalSize r /\
    ld_removeRecords d' = ld_removeRecords d + in_segment s one r.
Proof.
  intros Hv Hb HA. pose proof (valid_size r Hv) as Hsz. unfold delta_remove. rewrite Hv. cbn [negb].
  set (seg := SegmentID (Addr r)). pose proof (Hb seg) as Hs. cbv zeta in Hs. pass.
  eexists. split; [reflexivity|]. split.
  - intros s. cbv zeta. rewrite delta_at_insert. destruct (decide (seg = s)) as [<-|Hne]; cbn; [lia|].
    pose proof (Hb s) as Hs'. cbv zeta in Hs'. lia.
  - intros s. cbv zeta. rewrite delta_at_insert. unfold in_segment, one. fold seg.
    destruct (decide (seg = s)) as [<-|Hne]; cbn; [rewrite Z.eqb_refl; lia|].
    destruct (seg =? s) eqn:E; bool_norm; [contradiction|lia].
Qed.

Lemma delta_add_total seq r D A B :
  RecordRef_Valid r = true -> delta_bound D A B -> B + PhysicalSize r <= MaxUint64 ->
  exists D', delta_add seq r D = Ok D' /\ delta_bound D' A (B + PhysicalSize r) /\
  forall s, let d := delta_at D s in let d' := delta_at D' s in
    ld_removeBytes d' = ld_removeBytes d /\ ld_removeRecords d' = ld_removeRecords d /\
    ld_addBytes d' = ld_addBytes d + in_segment s PhysicalSize r /\
    ld_addRecords d' = ld_addRecords d + in_segment s one r.
Proof.
  intros Hv Hb HA. pose proof (valid_size r Hv) as Hsz. unfold delta_add. rewrite Hv. cbn [negb].
  set (seg := SegmentID (Addr r)). pose proof (Hb seg) as Hs. cbv zeta in Hs. pass.
  eexists. split; [reflexivity|]. split.
  - intros s. cbv zeta. rewrite delta_at_insert. destruct (decide (seg = s)) as [<-|Hne]; cbn; [lia|].
    pose proof (Hb s) as Hs'. cbv zeta in Hs'. lia.
  - intros s. cbv zeta. rewrite delta_at_insert. unfold in_segment, one. fold seg.
    destruct (decide (seg = s)) as [<-|Hne]; cbn; [rewrite Z.eqb_refl; lia|].
    destruct (seg =? s) eqn:E; bool_norm; [contradiction|lia].
Qed.

(** How one resolved change moves a sum over the visible references. *)
Definition old_part (f : RecordRef -> Z) (rc : ResolvedChange) : Z :=
  if rc_Apply rc && rc_OldExists rc then f (rc_OldRef rc) else 0.
Definition new_part (f : RecordRef -> Z) (rc : ResolvedChange) : Z :=
  if rc_Apply rc && negb (ch_Operation (rc_Change rc) =? OpDelete) then f (ch_NewRef (rc_Change rc)) else 0.

Lemma msum_apply_change f S rc :
  rc_OldRef rc = oref (S !! ch_RecordID (rc_Change rc)) ->
  rc_OldExists rc = oexists (S !! ch_RecordID (rc_Change rc)) ->
  msum f (apply_change S rc) = msum f S - old_part f rc + new_part f rc.
Proof.
  intros Eo Ee. unfold apply_change, old_part, new_part. rewrite Eo, Ee.
  destruct (rc_Apply rc); cbn [andb]; [|lia].
  destruct (ch_Operation (rc_Change rc) =? OpDelete); cbn [negb].
  - rewrite (msum_delete f S (ch_RecordID (rc_Change rc))).
    destruct (S !! ch_RecordID (rc_Change rc)); cbn; lia.
  - rewrite msum_insert. destruct (S !! ch_RecordID (rc_Change rc)); cbn; lia.
Qed.

Lemma total_bytes_nonneg S : entries_ok S -> 0 <= total_bytes S.
Proof. intros HS. apply msum_nonneg. intros id r [_ Hv%valid_size]%HS. lia. Qed.

Definition net_bytes (d : segmentLiveDelta) : Z := ld_addBytes d - ld_removeBytes d.
Definition net_records (d : segmentLiveDelta) : Z := ld_addRecords d - ld_removeRecords d.

(** The first loop of [applyPlanLiveStats] on one change. *)
Lemma delta_change_total seq rc D A B :
  (rc_OldExists rc = true -> RecordRef_Valid (rc_OldRef rc) = true) ->
  (ch_Operation (rc_Change rc) <> OpDelete -> RecordRef_Valid (ch_NewRef (rc_Change rc)) = true) ->
  delta_bound D A B ->
  A + old_part PhysicalSize rc <= MaxUint64 -> B + new_part PhysicalSize rc <= MaxUint64 ->
  exists D', delta_change seq rc D = Ok D' /\
    delta_bound D' (A + old_part PhysicalSize rc) (B + new_part PhysicalSize rc) /\
    forall s, net_bytes (delta_at D' s) = net_bytes (delta_at D s)
                - old_part (in_segment s PhysicalSize) rc + new_part (in_segment s PhysicalSize) rc /\
              net_records (delta_at D' s) = net_records (delta_at D s)
                - old_part (in_segment s one) rc + new_part (in_segment s one) rc.
Proof.
  intros Ho Hn Hb. unfold delta_change, old_part, new_part, net_bytes, net_records.
  destruct (rc_Apply rc); cbn [andb].
  2:{ intros _ _. exists D. rewrite !Z.add_0_r. split; [reflexivity|]. split; [exact Hb|]. intros s. lia. }
  intros HA HB.
  assert (exists D1, (if rc_OldExists rc then delta_remove seq (rc_OldRef rc) D else Ok D) = Ok D1 /\
    delta_bound D1 (A + (if rc_OldExists rc then PhysicalSize (rc_OldRef rc) else 0)) B /\
    forall s, net_bytes (delta_at D1 s) = net_bytes (delta_at D s)
                - (if rc_OldExists rc then in_segment s PhysicalSize (rc_OldRef rc) else 0) /\
              net_records (delta_at D1 s) = net_records (delta_at D s)
                - (if rc_OldExists rc then in_segment s one (rc_OldRef rc) else 0)) as (D1 & -> & Hb1 & Hd1).
  { destruct (rc_OldExists rc).
    - destruct (delta_remove_total seq (rc_OldRef rc) D A B) as (D1 & E & Hb1 & Hd1); auto.
      exists D1. split; [exact E|]. split; [exact Hb1|].
      intros s. specialize (Hd1 s). unfold net_bytes, net_records. cbv zeta in Hd1. lia.
    - exists D. rewrite Z.add_0_r. split; [reflexivity|]. split; [exact Hb|]. intros s. lia. }
  unfold net_bytes, net_records in Hd1.
  destruct (ch_Operation (rc_Change rc) =? OpDelete) eqn:E; bool_norm; cbn [negb].
  - exists D1. rewrite Z.add_0_r. split; [reflexivity|]. split; [exact Hb1|].
    intros s. specialize (Hd1 s). lia.
  - destruct (delta_add_total seq (ch_NewRef (rc_Change rc)) D1 _ _ (Hn E) Hb1) as (D2 & -> & Hb2 & Hd2).
    { cbn [negb] in HB. lia. }
    exists D2. split; [reflexivity|]. split; [exact Hb2|].
    intros s. specialize (Hd1 s). specialize (Hd2 s). cbv zeta in Hd2. lia.
Qed.

Lemma new_part_bytes rc : new_part PhysicalSize rc = new_bytes_rc rc.
Proof. reflexivity. Qed.

Lemma new_bytes_rc_nonneg kind rc : rc_wf kind rc -> 0 <= new_bytes_rc rc.
Proof.
  intros [_ Hv]. unfold new_bytes_rc. destruct (rc_Apply rc); cbn [andb]; [|lia].
  destruct (ch_Operation (rc_Change rc) =? OpDelete) eqn:E; cbn; bool_norm; [lia|].
  specialize (valid_size _ (Hv E)). lia.
Qed.

Lemma new_bytes_nonneg kind rcs : Forall (rc_wf kind) rcs -> 0 <= new_bytes rcs.
Proof.
  induction 1 as [|rc rcs Hw _ IH]; cbn; [lia|]. apply new_bytes_rc_nonneg in Hw. unfold new_bytes in IH. lia.
Qed.

(** The first loop over the changes of a proposal: the accumulated deltas are
    the exact difference of the states, and no sum overflows as long as the
    bytes visible before and the bytes added fit in 64 bits. *)
Lemma delta_changes_total kind seq S0 rcs : Forall (rc_wf kind) rcs -> forall D S A B,
  entries_ok S -> trace_ok S rcs -> delta_exact D S0 S -> delta_bound D A B ->
  A + total_bytes S + new_bytes rcs <= MaxUint64 -> B + new_bytes rcs <= MaxUint64 ->
  exists D' A', delta_changes seq rcs D = Ok D' /\
    delta_exact D' S0 (foldl apply_change S rcs) /\ delta_bound D' A' (B + new_bytes rcs) /\
    A' + total_bytes (foldl apply_change S rcs) = A + total_bytes S + new_bytes rcs.
Proof.
  induction 1 as [|rc rcs Hw Hws IH]; intros D S A B HS Ht Hx Hb HA HB; cbn [delta_changes foldl new_bytes foldr].
  { exists D, A. rewrite !Z.add_0_r. auto. }
  cbn [new_bytes foldr] in HA, HB. fold (new_bytes rcs) in *. destruct Ht as (Eo & Ee & Ht).
  pose proof (new_bytes_nonneg kind rcs Hws) as Hnn.
  assert (HS' := apply_change_entries_ok kind S rc HS Hw).
  pose proof (total_bytes_nonneg _ HS') as Hnt.
  pose proof (fun f => msum_apply_change f S rc Eo Ee) as Hm.
  unfold total_bytes in Hnt, HA. rewrite Hm, new_part_bytes in Hnt.
  destruct (delta_change_total seq rc D A B) as (D1 & -> & Hb1 & Hd1); auto.
  { intros H. rewrite Eo, Ee in *. now apply old_consistent. }
  { apply Hw. }
  { lia. }
  { rewrite new_part_bytes. lia. }
  edestruct (IH D1 (apply_change S rc)) with (4 := Hb1) as (D2 & A2 & -> & Hx2 & Hb2 & E2); [exact HS'|exact Ht| | | |].
  - intros s. specialize (Hx s). specialize (Hd1 s). unfold net_bytes, net_records, seg_bytes, seg_records in *.
    cbv zeta in *. rewrite !Hm. lia.
  - unfold total_bytes. rewrite Hm, new_part_bytes. lia.
  - rewrite new_part_bytes. lia.
  - exists D2, A2. split; [reflexivity|]. split; [exact Hx2|]. split.
    + rewrite new_part_bytes in Hb2. now rewrite Z.add_assoc.
    + rewrite E2. unfold total_bytes. rewrite Hm, new_part_bytes. lia.
Qed.

Lemma plan_new_bytes_nonneg ps rps : Forall2 resolved_of ps rps ->
  Forall (fun p => validateProposal p = true) ps -> 0 <= plan_new_bytes rps.
Proof.
  induction 1 as [|p rp ps rps [Hk Hr] _ IH]; intros Hv; cbn [plan_new_bytes foldr]; [lia|].
  apply Forall_cons_iff in Hv as [Hp Hps]. specialize (IH Hps). unfold plan_new_bytes in IH.
  destruct (rp_Accepted rp); [|lia]. destruct Hr as [Em _].
  pose proof (new_bytes_nonneg _ _ (resolved_rc_wf _ _ Hp Em)). lia.
Qed.

(** The first loop over a whole group. *)
Lemma delta_proposals_total S0 ps rps : Forall2 resolved_of ps rps ->
  Forall (fun p => validateProposal p = true) ps -> forall seq D S A B,
  entries_ok S -> plan_trace S rps -> delta_exact D S0 S -> delta_bound D A B ->
  A + total_bytes S + plan_new_bytes rps <= MaxUint64 -> B + plan_new_bytes rps <= MaxUint64 ->
  exists D' A' B', delta_proposals seq rps D = Ok D' /\ delta_exact D' S0 (apply_plan S rps) /\ delta_bound D' A' B' /\
    A' + total_bytes (apply_plan S rps) = A + total_bytes S + plan_new_bytes rps.
Proof.
  unfold apply_plan. induction 1 as [|p rp ps rps [Hk Hr] Hf IH]; intros Hv seq D S A B HS Ht Hx Hb HA HB.
  { exists D, A, B. cbn [plan_new_bytes foldr]. rewrite Z.add_0_r. auto. }
  apply Forall_cons_iff in Hv as [Hp Hps]. cbn [plan_trace] in Ht. destruct Ht as [Ht Hts].
  pose proof (plan_new_bytes_nonneg ps rps Hf Hps) as Hnn.
  cbn [delta_proposals foldl plan_new_bytes foldr] in *. fold (plan_new_bytes rps) in *.
  unfold apply_proposal in *. destruct (rp_Accepted rp) eqn:Ea;
    [|rewrite Z.add_0_l in *; eapply IH; eauto].
  destruct Hr as [Em Hap]. pose proof (resolved_rc_wf _ _ Hp Em) as Hw.
  destruct (delta_changes_total (pr_Kind p) seq S0 _ Hw D S A B) as (D1 & A1 & -> & Hx1 & Hb1 & E1); auto; try lia.
  pose proof (proj2 (trace_checks _ _ Hw Hap S HS Ht)) as HS1.
  destruct (IH Hps ((seq + 1) mod two64) D1 _ A1 _ HS1 Hts Hx1 Hb1) as (D2 & A2 & B2 & E2 & Hx2 & Hb2 & Ht2); [lia|lia|].
  exists D2, A2, B2. split; [exact E2|]. split; [exact Hx2|]. split; [exact Hb2|lia].
Qed.

Lemma net_spec r a : 0 <= r -> 0 <= a -> let '(r', a') := net r a in
  0 <= r' /\ 0 <= a' /\ a' - r' = a - r /\ (r' = 0 \/ a' = 0).
Proof. intros. unfold net. destruct (a <=? r) eqn:E; bool_norm; lia. Qed.

(** A live statistic after the change [d], before the test for zero. *)
Definition live_moved (stats : LiveMap) (s : Z) (d : segmentLiveDelta) : Z * Z :=
  (ls_LiveBytes (live_at stats s) + net_bytes d, ls_LiveRecords (live_at stats s) + net_records d).

Lemma net_loop_total stats l :
  Forall (fun '(s, d) =>
    0 <= ld_removeBytes d /\ 0 <= ld_addBytes d /\ 0 <= ld_removeRecords d /\ 0 <= ld_addRecords d /\
    let '(b, r) := live_moved stats s d in
    0 <= b <= MaxUint64 /\ 0 <= r <= MaxUint64 /\
    0 <= ls_LiveBytes (live_at stats s) /\ 0 <= ls_LiveRecords (live_at stats s)) l ->
  exists l', net_loop stats l = Ok l' /\
    Forall2 (fun '(s, d) '(s', d') => s' = s /\ net_bytes d' = net_bytes d /\ net_records d' = net_records d) l l'.
Proof.
  induction 1 as [|[s d] l Hd _ IH]; cbn [net_loop]; [eexists; split; [reflexivity|constructor]|].
  unfold live_moved in Hd. destruct Hd as (H1 & H2 & H3 & H4 & H5 & H6 & H7 & H8).
  unfold net_delta. pose proof (net_spec _ _ H1 H2) as Hb. pose proof (net_spec _ _ H3 H4) as Hr.
  destruct (net (ld_removeBytes d) (ld_addBytes d)) as [rb ab].
  destruct (net (ld_removeRecords d) (ld_addRecords d)) as [rr ar].
  unfold net_bytes, net_records in *. pass. destruct IH as (l' & -> & Hl).
  eexists. split; [reflexivity|]. constructor; [|exact Hl]. cbn. repeat split; lia.
Qed.

(** [live !! s] holds the statistics [(bytes, records)], absent when empty. *)
Definition live_is (o : option SegmentLiveStats) (t : Z * Z) : Prop :=
  match o with
  | None => t.2 = 0
  | Some st => t.2 <> 0 /\ ls_LiveBytes st = t.1 /\ ls_LiveRecords st = t.2
  end.

Lemma live_at_other stats s s' o : s <> s' ->
  live_at (partial_alter (fun _ => o) s stats) s' = live_at stats s'.
Proof. intros H. unfold live_at. now rewrite lookup_partial_alter_ne. Qed.

Lemma commit_loop_total (T : Z -> Z * Z) l : NoDup l.*1 -> forall stats,
  Forall (fun '(s, d) => live_moved stats s d = T s /\ ((T s).2 = 0 -> (T s).1 = 0)) l ->
  exists stats', commit_loop stats l = (stats', Ok tt) /\
    forall s, if decide (s ∈ l.*1) then live_is (stats' !! s) (T s) else stats' !! s = stats !! s.
Proof.
  induction l as [|[s d] l IH]; cbn [fmap list_fmap fst]; intros Hnd stats Hall.
  { exists stats. split; [reflexivity|]. intros s. rewrite decide_False; [done|]. now intros ?%elem_of_nil. }
  apply NoDup_cons in Hnd as [Hni Hnd]. apply Forall_cons_iff in Hall as [[Hm Hz] Hall].
  assert (exists o, live_is o (T s) /\
    commit_loop stats ((s, d) :: l) = commit_loop (partial_alter (fun _ => o) s stats) l) as (o & Ho & ->).
  { cbn [commit_loop]. unfold live_moved in Hm. rewrite <- Hm in *. cbn [fst snd] in *.
    unfold net_bytes, net_records in *.
    replace (_ - ld_removeRecords d + _) with (ls_LiveRecords (live_at stats s) + (ld_addRecords d - ld_removeRecords d)) by lia.
    replace (_ - ld_removeBytes d + _) with (ls_LiveBytes (live_at stats s) + (ld_addBytes d - ld_removeBytes d)) by lia.
    destruct (_ =? 0) eqn:E; bool_norm.
    - rewrite (Hz E). exists None. split; [exact E | reflexivity].
    - eexists (Some _). split; [|reflexivity]. cbn. auto. }
  destruct (IH Hnd (partial_alter (fun _ => o) s stats)) as (stats' & -> & Hs').
  { apply Forall_forall. intros [s' d'] Hin. rewrite Forall_forall in Hall. specialize (Hall _ Hin) as [Hm' Hz'].
    split; [|exact Hz']. rewrite <- Hm'. unfold live_moved. rewrite live_at_other; [done|].
    intros ->. apply Hni. apply list_elem_of_fmap. now exists (s', d'). }
  exists stats'. split; [reflexivity|]. intros s'. specialize (Hs' s').
  destruct (decide (s' = s)) as [->|Hne].
  - rewrite decide_True by (constructor). rewrite decide_False in Hs' by exact Hni.
    now rewrite Hs', lookup_partial_alter_eq.
  - destruct (decide (s' ∈ l.*1)) as [Hin|Hnin].
    + rewrite decide_True by (now constructor). exact Hs'.
    + rewrite decide_False; [|now intros [|]%elem_of_cons].
      rewrite Hs', lookup_partial_alter_ne by done. reflexivity.
Qed.

Lemma live_exact_is live S : live_exact live S <-> forall s, live_is (live !! s) (seg_bytes S s, seg_records S s).
Proof. unfold live_exact, live_is. cbn. split; intros H s; specialize (H s); destruct (live !! s); auto. Qed.

Lemma delta_at_empty s : delta_at ∅ s = zeroLiveDelta.
Proof. unfold delta_at. now rewrite lookup_empty. Qed.

Lemma net_loop_keys l l' :
  Forall2 (fun '(s, d) '(s', d') => s' = s /\ net_bytes d' = net_bytes d /\ net_records d' = net_records d) l l' ->
  l'.*1 = l.*1 /\ forall stats T,
  Forall (fun '(s, d) => live_moved stats s d = T s) l -> Forall (fun '(s, d) => live_moved stats s d = T s) l'.
Proof.
  induction 1 as [|[s d] [s' d'] l l' (-> & Hb & Hr) _ [IHk IH]]; [split; [reflexivity | auto]|].
  split; [cbn; congruence|]. intros stats T [H1 H2]%Forall_cons_iff. constructor; [|now apply IH].
  unfold live_moved in *. congruence.
Qed.

Lemma delta_at_lookup (D : DeltaMap) s d : D !! s = Some d -> delta_at D s = d.
Proof. intros H. unfold delta_at. now rewrite H. Qed.

Lemma applyPlanLiveStats_exact S live first ps plan :
  Forall2 resolved_of ps (gp_Proposals plan) -> Forall (fun p => validateProposal p = true) ps ->
  entries_ok S -> plan_trace S (gp_Proposals plan) -> live_exact live S ->
  total_bytes S + plan_new_bytes (gp_Proposals plan) <= MaxUint64 ->
  exists live', applyPlanLiveStats live first plan = (live', Ok tt) /\
    live_exact live' (apply_plan S (gp_Proposals plan)) /\
    total_bytes (apply_plan S (gp_Proposals plan)) <= total_bytes S + plan_new_bytes (gp_Proposals plan).
Proof.
  intros Hr Hv HS Ht Hl Hmax. set (S' := apply_plan S (gp_Proposals plan)).
  pose proof (total_bytes_nonneg S HS) as Hnn.
  destruct (plan_checks ps (gp_Proposals plan) Hr Hv S HS Ht) as [_ HS']. fold S' in HS'.
  destruct (delta_proposals_total S ps (gp_Proposals plan) Hr Hv first ∅ S 0 0)
    as (D & A & B & E & Hx & Hb & Htot); auto; try lia.
  { intros s. rewrite delta_at_empty. cbn. lia. }
  { intros s. rewrite delta_at_empty. cbn. lia. }
  unfold applyPlanLiveStats. rewrite E. fold S' in Hx, Htot.
  assert (Hmove : forall s d, D !! s = Some d -> live_moved live s d = (seg_bytes S' s, seg_records S' s)).
  { intros s d Hd. specialize (Hx s). cbv zeta in Hx. rewrite (delta_at_lookup D s d Hd) in Hx.
    destruct (live_exact_at live S s HS Hl) as [E1 E2]. unfold live_moved, net_bytes, net_records. f_equal; lia. }
  assert (Hbnd : forall s, 0 <= seg_bytes S' s <= MaxUint64 /\ 0 <= seg_records S' s <= MaxUint64).
  { intros s. pose proof (seg_bounds S' s HS'). pose proof (Hb 0) as H0. cbv zeta in H0. lia. }
  destruct (net_loop_total live (map_to_list D)) as (l & El & Hl2).
  { apply Forall_forall. intros [s d] Hin%elem_of_map_to_list. rewrite (Hmove s d Hin).
    specialize (Hb s). cbv zeta in Hb. rewrite (delta_at_lookup D s d Hin) in Hb.
    destruct (live_exact_at live S s HS Hl) as [-> ->]. pose proof (seg_bounds S s HS). specialize (Hbnd s). lia. }
  rewrite El. apply net_loop_keys in Hl2 as [Hk Hmv].
  specialize (Hmv live (fun s => (seg_bytes S' s, seg_records S' s))).
  destruct (commit_loop_total (fun s => (seg_bytes S' s, seg_records S' s)) l) with (stats := live) as (live' & -> & Hs).
  { rewrite Hk. apply NoDup_fst_map_to_list. }
  { apply Forall_forall. intros [s d] Hin. split; [|intros H0; now apply seg_empty].
    refine (proj1 (Forall_forall _ _) (Hmv _) (s, d) Hin).
    apply Forall_forall. intros [s' d'] Hin'%elem_of_map_to_list. auto. }
  exists live'. split; [reflexivity|]. fold S'.
  split; [|pose proof (Hb 0) as H0; cbv zeta in H0; lia]. apply live_exact_is. intros s. specialize (Hs s).
  destruct (decide (s ∈ l.*1)) as [Hin|Hnin]; [exact Hs|]. rewrite Hs.
  assert (HD : D !! s = None).
  { apply eq_None_not_Some. intros [d Hd]. apply Hnin. rewrite Hk. apply list_elem_of_fmap.
    exists (s, d). split; [reflexivity|]. now apply elem_of_map_to_list. }
  specialize (Hx s). unfold delta_at in Hx. rewrite HD in Hx. cbn in Hx.
  apply live_exact_is with (s := s) in Hl. replace (seg_bytes S' s) with (seg_bytes S s) by lia.
  replace (seg_records S' s) with (seg_records S s) by lia. exact Hl.
Qed.

(** ** The invariant of a Mapping, and its operations *)

Record mapping_ok (m : Mapping) : Prop := mkMappingOk {
  mo_covered : is_u64 (m_covered m);
  mo_entries : entries_ok (m_entries m);
  mo_live : live_exact (m_live m) (m_entries m);
  mo_bytes : total_bytes (m_entries m) <= MaxUint64;
}.

Definition reservations_ok {R} (rs : list (option R)) (ps : list Proposal) : Prop :=
  len rs = len ps /\ Forall (fun r => is_Some r) rs.

Definition accepted_of (flags : list bool) : Z := len (filter (fun b => b = true) flags).

Lemma accepted_count_flags rps : accepted_count rps = accepted_of (map rp_Accepted rps).
Proof.
  unfold accepted_count, accepted_of. induction rps as [|rp rps IH]; [reflexivity|]. cbn [map].
  rewrite !filter_cons. destruct (rp_Accepted rp) eqn:E; repeat case_decide; try done;
    rewrite ?len_cons; try lia; congruence.
Qed.

Lemma plan_len S base active ps plan : plan_for S base active ps plan -> len (gp_Proposals plan) = len ps.
Proof. intros H. apply pf_resolved, Forall2_length in H. unfold len. now rewrite H. Qed.

Lemma publish_guard_ok {R} first ps plan (rs : list (option R)) :
  first <> 0 -> ps <> [] -> len (gp_Proposals plan) = len ps -> reservations_ok rs ps ->
  publish_guard first plan rs = Ok tt.
Proof.
  intros Hf Hne Hl [Hr Hs]. unfold publish_guard.
  assert (len ps <> 0) by (intros E; now apply Hne, len_zero_nil). rewrite Hl. pass.
  rewrite Hr, Z.eqb_refl. replace (forallb _ rs) with true; [reflexivity|]. symmetry.
  apply forallb_forall. intros r Hin. rewrite Forall_forall in Hs. apply list_elem_of_In, Hs in Hin as [x ->].
  reflexivity.
Qed.

(** The bytes a group may add, whatever its resolution. *)
Definition change_bytes (c : Change) : Z := if ch_Operation c =? OpDelete then 0 else PhysicalSize (ch_NewRef c).
Definition proposal_bytes (p : Proposal) : Z := foldr (fun c acc => change_bytes c + acc) 0 (pr_Changes p).
Definition group_bytes (ps : list Proposal) : Z := foldr (fun p acc => proposal_bytes p + acc) 0 ps.

Lemma change_bytes_nonneg kind c :
  kind = ProposalUserCommit \/ kind = ProposalRelocation -> change_ok kind c = true -> 0 <= change_bytes c.
Proof.
  intros Hk Hc. unfold change_bytes. destruct (ch_Operation c =? OpDelete) eqn:E; bool_norm; [lia|].
  pose proof (valid_size _ (change_ok_ref kind c Hk Hc E)). lia.
Qed.

Lemma new_bytes_le rcs : Forall (fun rc => 0 <= change_bytes (rc_Change rc)) rcs ->
  new_bytes rcs <= foldr (fun c acc => change_bytes c + acc) 0 (map rc_Change rcs).
Proof.
  induction 1 as [|rc rcs Hc _ IH]; cbn [new_bytes foldr map]; [lia|]. fold (new_bytes rcs).
  assert (new_bytes_rc rc <= change_bytes (rc_Change rc)); [|lia].
  unfold new_bytes_rc, change_bytes in *. destruct (rc_Apply rc), (ch_Operation (rc_Change rc) =? OpDelete); cbn; lia.
Qed.

Lemma proposal_bytes_nonneg p : validateProposal p = true -> Forall (fun c => 0 <= change_bytes c) (pr_Changes p) /\ 0 <= proposal_bytes p.
Proof.
  intros (Hk & Hall & _)%validateProposal_facts.
  assert (H : Forall (fun c => 0 <= change_bytes c) (pr_Changes p)).
  { eapply Forall_impl; [exact Hall|]. cbn. intros c (_ & Hc & _). apply (change_bytes_nonneg (pr_Kind p)); tauto. }
  split; [exact H|]. unfold proposal_bytes. clear Hk Hall. induction H; cbn; lia.
Qed.

Lemma plan_new_bytes_le ps rps : Forall2 resolved_of ps rps ->
  Forall (fun p => validateProposal p = true) ps -> plan_new_bytes rps <= group_bytes ps.
Proof.
  induction 1 as [|p rp ps rps [Hk Hr] _ IH]; intros Hv; cbn [plan_new_bytes group_bytes foldr]; [lia|].
  apply Forall_cons_iff in Hv as [Hp Hps]. specialize (IH Hps).
  fold (plan_new_bytes rps). fold (group_bytes ps). apply proposal_bytes_nonneg in Hp as [Hp Hnn]. destruct (rp_Accepted rp); [|lia]. destruct Hr as [Em _].
  rewrite <- Em, Forall_map in Hp. apply new_bytes_le in Hp. rewrite Em in Hp. fold (proposal_bytes p) in Hp. lia.
Qed.

(** The counts a successful publication reports. *)
Definition publish_result (plan : GroupPlan) : PublishResult :=
  mkPublish (accepted_count (gp_Proposals plan) mod two32) (applied_count (gp_Proposals plan) mod two32)
            (skipped_count (gp_Proposals plan) mod two32).

(** What a successful publication of the group [ps] leaves behind. *)
Record published (m m' : Mapping) (ps : list Proposal) : Prop := mkPublished {
  pu_entries : m_entries m' = spec_group (m_entries m) ps;
  pu_covered : m_covered m' = m_covered m + accepted_of (spec_flags (m_entries m) ps);
  pu_ok : mapping_ok m';
}.

Lemma PublishGroup_for m ps plan rs :
  mapping_ok m -> group_ok ps -> plan_for (m_entries m) (m_covered m) ∅ ps plan -> reservations_ok rs ps ->
  accepted_of (spec_flags (m_entries m) ps) <> 0 ->
  m_covered m + accepted_of (spec_flags (m_entries m) ps) <= MaxUint64 ->
  total_bytes (m_entries m) + group_bytes ps <= MaxUint64 ->
  exists m', PublishGroup m (m_covered m + 1) plan rs = (m', Ok (publish_result plan)) /\ published m m' ps.
Proof.
  intros [Hc HS Hl Hb] (Hne & Hlen & Hv) Hp Hrs Ha Hseq Hbytes. unfold PublishGroup, is_u64 in *.
  pose proof (plan_len _ _ _ _ _ Hp) as Hpl. destruct Hp as [Eb Ea Ef Ht Hr Hd].
  rewrite (publish_guard_ok _ ps) by (auto; lia). rewrite Hd. cbn [negb].
  destruct (plan_checks ps _ Hr Hv _ HS Ht) as [Hok HS']. unfold validateResolvedPlan. rewrite Hok, Eb, Z.eqb_refl.
  cbn [negb]. rewrite accepted_count_flags, Ef.
  set (n := accepted_of (spec_flags (m_entries m) ps)) in *.
  assert (0 < n) by (pose proof (len_nonneg (filter (fun b => b = true) (spec_flags (m_entries m) ps))); unfold n, accepted_of in *; lia).
  replace (m_covered m =? MaxUint64) with false by (symmetry; apply Z.eqb_neq; lia). rewrite Z.eqb_refl. cbn [negb orb].
  replace (n =? 0) with false by (symmetry; apply Z.eqb_neq; lia). cbn [orb].
  replace (MaxUint64 - (m_covered m + 1) <? n - 1) with false by (symmetry; apply Z.ltb_ge; lia).
  pose proof (plan_new_bytes_le ps _ Hr Hv) as Hnew.
  destruct (applyPlanLiveStats_exact (m_entries m) (m_live m) (m_covered m + 1) ps plan) as (live' & -> & Hl' & Htot); auto; try lia.
  unfold publish_result. rewrite accepted_count_flags, Ef. fold n.
  eexists. split; [reflexivity|]. constructor; cbn [m_entries m_covered]; [exact Ea|lia|].
  constructor; cbn [m_entries m_covered m_live]; auto; [unfold is_u64|]; lia.
Qed.

(** *** New *)

Lemma seg_bytes_insert S id r s : S !! id = None ->
  seg_bytes (<[id := r]> S) s = (if SegmentID (Addr r) =? s then PhysicalSize r else 0) + seg_bytes S s.
Proof. intros H. unfold seg_bytes. now rewrite msum_insert_new. Qed.

Lemma seg_records_insert S id r s : S !! id = None ->
  seg_records (<[id := r]> S) s = (if SegmentID (Addr r) =? s then 1 else 0) + seg_records S s.
Proof. intros H. unfold seg_records. now rewrite msum_insert_new. Qed.

Lemma msum_subseteq f S : forall T, S ⊆ T -> (forall id r, T !! id = Some r -> 0 <= f r) -> msum f S <= msum f T.
Proof.
  induction S as [|id r S Hn IH] using map_ind; intros T Hsub Hf.
  - rewrite msum_empty. now apply msum_nonneg.
  - rewrite msum_insert_new by done. rewrite (msum_delete f T id).
    assert (HT : T !! id = Some r) by (eapply lookup_weaken; [apply lookup_insert_eq|exact Hsub]).
    rewrite HT. apply Z.add_le_mono_l, IH.
    + rewrite <- (delete_insert_id S id r Hn). now apply delete_mono.
    + intros i r' [_ H]%lookup_delete_Some. eauto.
Qed.

Lemma addLiveRef_exact live S id r seq :
  entries_ok S -> live_exact live S -> S !! id = None -> RecordRef_Valid r = true ->
  total_bytes (<[id := r]> S) <= MaxUint64 ->
  exists live', addLiveRef live r seq = Ok live' /\ live_exact live' (<[id := r]> S).
Proof.
  intros HS Hl Hn Hv Hb. unfold total_bytes in Hb. rewrite msum_insert_new in Hb by done.
  pose proof (valid_size r Hv) as Hsz. unfold addLiveRef. rewrite Hv. cbn [negb].
  set (s := SegmentID (Addr r)). destruct (live_exact_at live S s HS Hl) as [E1 E2].
  destruct (seg_bounds S s HS) as [Hr Hle]. fold (total_bytes S) in Hb.
  rewrite E1, E2. pass. eexists. split; [reflexivity|].
  intros s'. rewrite seg_bytes_insert, seg_records_insert by done. fold s.
  destruct (decide (s = s')) as [<-|Hne].
  - rewrite lookup_insert_eq, Z.eqb_refl. cbn [ls_LiveBytes ls_LiveRecords]. lia.
  - rewrite lookup_insert_ne by done. replace (s =? s') with false by (symmetry; now apply Z.eqb_neq).
    specialize (Hl s'). destruct (live !! s'); rewrite !Z.add_0_l; exact Hl.
Qed.

Lemma entries_ok_insert S id r : entries_ok S -> id <> 0 -> RecordRef_Valid r = true -> entries_ok (<[id := r]> S).
Proof. intros HS H0 Hv i r' [[<- <-]|[_ H]]%lookup_insert_Some; [auto | now apply HS]. Qed.

(** The loop of [New] over any iteration order of the snapshot's entries. *)
Lemma New_loop_exact seq l : NoDup l.*1 -> forall S live,
  entries_ok S -> live_exact live S -> (forall id, id ∈ l.*1 -> S !! id = None) ->
  Forall (fun '(id, r) => id <> 0 /\ RecordRef_Valid r = true) l ->
  total_bytes (list_to_map l ∪ S) <= MaxUint64 ->
  exists live', New_loop seq l S live = Ok (list_to_map l ∪ S, live') /\ live_exact live' (list_to_map l ∪ S).
Proof.
  induction l as [|[id r] l IH]; intros Hnd S live HS Hl Hdis Hok Hb; cbn [New_loop].
  { exists live. cbn in *. rewrite (left_id_L ∅ (∪)). auto. }
  cbn in Hnd. apply NoDup_cons in Hnd as [Hni Hnd]. apply Forall_cons_iff in Hok as [[H0 Hv] Hok].
  assert (HSid : S !! id = None) by (apply Hdis; constructor).
  assert (EU : list_to_map ((id, r) :: l) ∪ S = (list_to_map l : Entries) ∪ <[id := r]> S).
  { rewrite list_to_map_cons, <- insert_union_l, <- insert_union_r; [done|]. now apply not_elem_of_list_to_map_1. }
  rewrite EU in *. rewrite Hv. replace (id =? 0) with false by (symmetry; now apply Z.eqb_neq). cbn [negb orb].
  assert (HSi : entries_ok (<[id := r]> S)) by now apply entries_ok_insert.
  destruct (addLiveRef_exact live S id r seq) as (live1 & -> & Hl1); auto.
  - etrans; [|exact Hb]. apply msum_subseteq; [apply map_union_subseteq_r, map_disjoint_spec|].
    { intros i x y Hx%elem_of_list_to_map_2%(list_elem_of_fmap_2 fst). cbn in Hx.
      rewrite lookup_insert_ne, Hdis; [done|now constructor|]. intros ->. contradiction. }
    intros i r' Hi. assert (RecordRef_Valid r' = true) as Hr%valid_size; [|lia].
    apply lookup_union_Some_raw in Hi as [Hi|[_ Hi]]; [|now apply HSi in Hi as [_ ?]].
    apply elem_of_list_to_map_2 in Hi. rewrite Forall_forall in Hok. now apply Hok in Hi as [_ ?].
  - apply IH; auto. intros i Hi. rewrite lookup_insert_ne; [apply Hdis; now constructor|]. intros ->. contradiction.
Qed.

Lemma New_total snapshot :
  is_u64 (sn_CoveredCommitSeq snapshot) -> entries_ok (sn_Entries snapshot) ->
  total_bytes (sn_Entries snapshot) <= MaxUint64 ->
  exists m, New snapshot = Ok m /\ m_entries m = sn_Entries snapshot /\
    m_covered m = sn_CoveredCommitSeq snapshot /\ mapping_ok m.
Proof.
  intros Hc HS Hb. unfold New.
  destruct (New_loop_exact (sn_CoveredCommitSeq snapshot) (map_to_list (sn_Entries snapshot))) with (S := ∅ : Entries) (live := ∅ : LiveMap)
    as (live & E & Hl).
  - apply NoDup_fst_map_to_list.
  - apply entries_ok_empty.
  - intros s. rewrite lookup_empty. reflexivity.
  - intros id _. apply lookup_empty.
  - apply Forall_forall. intros [id r] Hin%elem_of_map_to_list. now apply HS.
  - rewrite (right_id_L ∅ (∪)), list_to_map_to_list. exact Hb.
  - rewrite (right_id_L ∅ (∪)), list_to_map_to_list in E, Hl. rewrite E.
    eexists. split; [reflexivity|]. cbn [m_entries m_covered].
    split; [reflexivity|]. split; [reflexivity|]. now constructor.
Qed.

Lemma NewEmpty_ok : mapping_ok NewEmpty.
Proof.
  constructor; cbn; [unfold is_u64; lia|apply entries_ok_empty| |].
  - intros s. rewrite lookup_empty. reflexivity.
  - unfold total_bytes. rewrite msum_empty. lia.
Qed.

(** ** Main theorems *)

(** [New] on a snapshot whose entries are well formed and whose live bytes
    fit in 64 bits succeeds; the mapping holds exactly the snapshot's entries and
    its per-segment live statistics are exact. *)
Theorem New_exact snapshot :
  is_u64 (sn_CoveredCommitSeq snapshot) -> entries_ok (sn_Entries snapshot) ->
  total_bytes (sn_Entries snapshot) <= MaxUint64 ->
  exists m, New snapshot = Ok m /\ m_entries m = sn_Entries snapshot /\
    m_covered m = sn_CoveredCommitSeq snapshot /\ mapping_ok m.
Proof. apply New_total. Qed.

(** C35: resolving a valid group and publishing the plan at the next commit
    sequence succeeds and has exactly the effect of executing the proposals one
    after the other, each atomically: the entries become [spec_group], the
    covered sequence advances by the number of accepted proposals, the plan's
    acceptance flags are those of the serial execution, and the live statistics
    stay exact. *)
Theorem group_commit_serializable m ps rs :
  mapping_ok m -> group_ok ps -> reservations_ok rs ps ->
  accepted_of (spec_flags (m_entries m) ps) <> 0 ->
  m_covered m + accepted_of (spec_flags (m_entries m) ps) <= MaxUint64 ->
  total_bytes (m_entries m) + group_bytes ps <= MaxUint64 ->
  exists plan m',
    ResolveGroup m ps = Ok plan /\ map rp_Accepted (gp_Proposals plan) = spec_flags (m_entries m) ps /\
    PublishGroup m (m_covered m + 1) plan rs = (m', Ok (publish_result plan)) /\ published m m' ps.
Proof.
  intros Hm Hg Hrs Ha Hseq Hb. destruct (ResolveGroup_total m ps Hg) as (plan & E & Hp).
  destruct (PublishGroup_for m ps plan rs) as (m' & E2 & Hpub); auto.
  exists plan, m'. split; [exact E|]. split; [apply (pf_flags _ _ _ _ _ Hp)|]. auto.
Qed.

(** Publication is all-or-nothing: a failing [PublishGroup] leaves the
    visible entries and the covered sequence as they were, and a successful one
    was resolved at the covered sequence, starts at the next one, and installs
    every applied change of every accepted proposal. *)
Theorem PublishGroup_atomic m first plan rs m' r :
  PublishGroup m first plan rs = (m', r) ->
  match r with
  | Err _ => m_entries m' = m_entries m /\ m_covered m' = m_covered m
  | Ok _ => gp_BaseCommitSeq plan = m_covered m /\ first = m_covered m + 1 /\
            m_covered m' = m_covered m + accepted_count (gp_Proposals plan) /\
            0 < accepted_count (gp_Proposals plan) <= MaxUint64 - m_covered m /\
            m_entries m' = apply_plan (m_entries m) (gp_Proposals plan)
  end.
Proof.
  unfold PublishGroup. intros H.
  destruct (publish_guard first plan rs); [|injection H as <- <-; auto].
  repeat match type of H with (if ?b then _ else _) = _ =>
    let E := fresh "E" in destruct b eqn:E; [injection H as <- <-; now auto|] end.
  destruct (applyPlanLiveStats (m_live m) first plan) as [live' [[]|e]]; injection H as <- <-; cbn; [|auto].
  pose proof (len_nonneg (filter (fun rp => rp_Accepted rp = true) (gp_Proposals plan))) as Hnn.
  fold (accepted_count (gp_Proposals plan)) in Hnn. bool_norm. repeat split; lia.
Qed.

(** ** Concrete instances

    Segment 1 holds two records of 40 bytes; the group creates id 1, fails to
    create it again, moves it, and deletes id 2. *)

Definition ref_a : RecordRef := mkRef 4294967360 40.
Definition ref_b : RecordRef := mkRef 4294967400 40.

Definition example_group : list Proposal :=
  [ mkProposal ProposalUserCommit [mkCondition 1 0] [mkChange 1 ref_a 0 OpPut];
    mkProposal ProposalUserCommit [mkCondition 1 0] [mkChange 1 ref_b 0 OpPut];
    mkProposal ProposalRelocation [] [mkChange 1 ref_b (Addr ref_a) OpRelocate];
    mkProposal ProposalUserCommit [] [mkChange 2 zeroRef 0 OpDelete] ].

Lemma example_group_ok : group_ok example_group.
Proof.
  split; [discriminate|]. split; [vm_compute; discriminate|].
  repeat (apply Forall_cons_iff; split; [vm_compute; reflexivity|]). constructor.
Qed.

Definition example_snapshot : Snapshot := mkSnapshot 7 {[1 := ref_a]}.

Lemma New_exact_witness : exists m, New example_snapshot = Ok m /\
  m_entries m = sn_Entries example_snapshot /\ m_covered m = 7 /\ mapping_ok m.
Proof.
  apply (New_exact example_snapshot); [unfold is_u64; cbn; lia | |].
  - intros id r. cbn [sn_Entries example_snapshot]. intros [<- <-]%lookup_singleton_Some.
    split; [lia | vm_compute; reflexivity].
  - vm_compute. discriminate.
Defined.

Lemma group_commit_serializable_witness : exists plan m',
  ResolveGroup NewEmpty example_group = Ok plan /\
  map rp_Accepted (gp_Proposals plan) = spec_flags ∅ example_group /\
  PublishGroup NewEmpty 1 plan [Some tt; Some tt; Some tt; Some tt] = (m', Ok (publish_result plan)) /\
  published NewEmpty m' example_group.
Proof.
  apply (group_commit_serializable NewEmpty example_group [Some tt; Some tt; Some tt; Some tt]).
  - apply NewEmpty_ok.
  - apply example_group_ok.
  - split; [reflexivity|]. repeat constructor; eauto.
  - vm_compute. discriminate.
  - vm_compute. discriminate.
  - vm_compute. discriminate.
Defined.

Lemma PublishGroup_atomic_witness :
  m_entries (PublishGroup NewEmpty 2 (mkPlan 0 []) []).1 = ∅ /\
  m_covered (PublishGroup NewEmpty 2 (mkPlan 0 []) []).1 = 0.
Proof.
  exact (PublishGroup_atomic NewEmpty 2 (mkPlan 0 []) [] NewEmpty (Err [mapping_ErrInvalid]) eq_refl).
Defined.

(** The second creation of id 1 is rejected and the relocation applies. *)
Example example_group_flags : spec_flags ∅ example_group = [true; false; true; true] /\
  spec_group ∅ example_group !! 1 = Some ref_b.
Proof. split; vm_compute; reflexivity. Qed.
