(* ===== verification/Budget.v ===== *)
(** * Budget: admission of mapping deltas

    Models [internal/mapping/budget.go]: the byte budget of the mutable delta
    layers, and the reservations batches hold on it between admission and
    publication.  A Go reservation is a pointer; here the reservations that were
    ever handed out form the list [p_objs] and a pointer is an index into it, so
    that aliasing of a reservation is visible in the model. *)
From S2P Require Import Prelude.

Definition deltaEntryCharge : Z := 64.

Record deltaBudget := mkBudget { db_soft : Z; db_hard : Z; db_charged : Z; db_reserved : Z }.

Record deltaReservation := mkReservation { rv_upper : Z; rv_consumed : bool }.

Record Pool := mkPool { p_budget : deltaBudget; p_objs : list deltaReservation }.

Definition newDeltaBudget (soft hard : Z) : res deltaBudget :=
  raise [mapping_ErrInvalid] when (soft =? 0) || (hard <=? soft) || (hard <? deltaEntryCharge) ;;
  Ok (mkBudget soft hard 0 0).

(** [(product, overflow)] *)
Definition multiply (left right : Z) : Z * bool :=
  if negb (left =? 0) && (MaxUint64 / left <? right) then (0, true)
  else (left * right, false).

Definition set_reserved (b : deltaBudget) (reserved : Z) : deltaBudget :=
  mkBudget (db_soft b) (db_hard b) (db_charged b) reserved.

(** [(reservation, pressure, err)]: the reservation or the error, and the
    pressure flag. *)
Definition reserve (p : Pool) (entries : Z) : Pool * (res nat * bool) :=
  let b := p_budget p in
  let '(bytes, overflow) := multiply entries deltaEntryCharge in
  if overflow || (db_hard b <? bytes) then (p, (Err [base_ErrBatchTooLarge], false))
  else if (db_hard b <? db_charged b) || (db_hard b - db_charged b <? db_reserved b) ||
          (db_hard b - db_charged b - db_reserved b <? bytes) then (p, (Err [mapping_ErrBudget], true))
  else
    let b' := set_reserved b (db_reserved b + bytes) in
    (mkPool b' (p_objs p ++ [mkReservation bytes false]),
     (Ok (length (p_objs p)), db_soft b <=? db_charged b' + db_reserved b')).

(** [Release] on a possibly nil reservation. *)
Definition Release (p : Pool) (r : option nat) : Pool :=
  match r with
  | None => p
  | Some h =>
      match p_objs p !! h with
      | None => p
      | Some o =>
          if rv_consumed o then p
          else
            let b := p_budget p in
            mkPool (if rv_upper o <=? db_reserved b then set_reserved b (db_reserved b - rv_upper o) else b)
                   (<[h := mkReservation (rv_upper o) true]> (p_objs p))
      end
  end.

Definition consume (p : Pool) (h : nat) (entries : Z) : Pool * res Z :=
  let '(actual, overflow) := multiply entries deltaEntryCharge in
  if overflow then (p, Err [mapping_ErrCorrupt])
  else
    match p_objs p !! h with
    | None => (p, Err [mapping_ErrCorrupt])
    | Some o =>
        if rv_consumed o || (rv_upper o <? actual) then (p, Err [mapping_ErrCorrupt])
        else
          let objs := <[h := mkReservation (rv_upper o) true]> (p_objs p) in
          let b := p_budget p in
          if (db_reserved b <? rv_upper o) || (db_hard b - actual <? db_charged b) then
            (mkPool b objs, Err [mapping_ErrCorrupt])
          else
            (mkPool (mkBudget (db_soft b) (db_hard b) (db_charged b + actual) (db_reserved b - rv_upper o)) objs,
             Ok actual)
    end.

(** The charge of installed layers is returned ([InstallCheckpoint]). *)
Definition discharge (p : Pool) (released : Z) : res Pool :=
  let b := p_budget p in
  raise [mapping_ErrCorrupt] when db_charged b <? released ;;
  Ok (mkPool (mkBudget (db_soft b) (db_hard b) (db_charged b - released) (db_reserved b)) (p_objs p)).

(** ** The invariant *)

Definition outstanding (o : deltaReservation) : Z := if rv_consumed o then 0 else rv_upper o.
Definition outstanding_bytes (os : list deltaReservation) : Z := foldr (fun o acc => outstanding o + acc) 0 os.

Record pool_ok (p : Pool) : Prop := mkPoolOk {
  po_soft : 0 < db_soft (p_budget p) < db_hard (p_budget p);
  po_hard : db_hard (p_budget p) <= MaxUint64;
  po_charged : 0 <= db_charged (p_budget p);
  po_reserved : db_reserved (p_budget p) = outstanding_bytes (p_objs p);
  po_upper : Forall (fun o => 0 <= rv_upper o) (p_objs p);
  po_limit : db_charged (p_budget p) + db_reserved (p_budget p) <= db_hard (p_budget p);
}.

Lemma multiply_spec entries : 0 <= entries ->
  multiply entries deltaEntryCharge =
    if MaxUint64 <? entries * 64 then (0, true) else (entries * 64, false).
Proof.
  intros H. unfold multiply, deltaEntryCharge.
  destruct (entries =? 0) eqn:E0; bool_norm; [subst; reflexivity|]. cbn [negb andb].
  destruct (MaxUint64 / entries <? 64) eqn:E1, (MaxUint64 <? entries * 64) eqn:E2; bool_norm; try reflexivity; exfalso.
  - pose proof (Z.div_lt_upper_bound MaxUint64 entries 64). pose proof (Z.mul_succ_div_gt MaxUint64 entries). nia.
  - pose proof (Z.mul_div_le MaxUint64 entries). nia.
Qed.

Lemma outstanding_app os os' : outstanding_bytes (os ++ os') = outstanding_bytes os + outstanding_bytes os'.
Proof. unfold outstanding_bytes. induction os as [|o os IH]; cbn; lia. Qed.

Lemma outstanding_insert os h o o' : os !! h = Some o ->
  outstanding_bytes (<[h := o']> os) = outstanding_bytes os - outstanding o + outstanding o'.
Proof.
  intros H. rewrite insert_take_drop by (now apply lookup_lt_Some in H).
  rewrite <- (take_drop_middle os h o H) at 3. rewrite !outstanding_app.
  unfold outstanding_bytes. cbn [foldr]. lia.
Qed.

Lemma outstanding_nonneg os : Forall (fun o => 0 <= rv_upper o) os -> 0 <= outstanding_bytes os.
Proof.
  unfold outstanding_bytes, outstanding. induction 1 as [|o os Ho _ IH]; cbn; [lia|]. destruct (rv_consumed o); lia.
Qed.

Lemma outstanding_le os h o : Forall (fun o => 0 <= rv_upper o) os -> os !! h = Some o ->
  outstanding o <= outstanding_bytes os.
Proof.
  intros Hu Hh. pose proof (outstanding_insert os h o (mkReservation 0 true) Hh) as E.
  pose proof (outstanding_nonneg (<[h := mkReservation 0 true]> os)) as Hn.
  change (outstanding (mkReservation 0 true)) with 0 in E. apply Forall_insert with (i := h) (x := mkReservation 0 true) in Hu; [|cbn; lia].
  specialize (Hn Hu). lia.
Qed.

Definition live_reservation (p : Pool) (h : nat) (upper : Z) : Prop :=
  p_objs p !! h = Some (mkReservation upper false).

(** ** The operations keep the invariant *)

Lemma reserve_spec p entries : pool_ok p -> 0 <= entries ->
  match reserve p entries with
  | (p', (Ok h, pressure)) =>
      pool_ok p' /\ live_reservation p' h (entries * 64) /\
      (forall h' u, live_reservation p h' u -> live_reservation p' h' u /\ h' <> h) /\
      db_charged (p_budget p') = db_charged (p_budget p) /\
      (pressure = true <-> db_soft (p_budget p) <= db_charged (p_budget p') + db_reserved (p_budget p'))
  | (p', (Err e, pressure)) =>
      p' = p /\ db_hard (p_budget p) - db_charged (p_budget p) - db_reserved (p_budget p) < entries * 64 /\
      (if pressure then e = [mapping_ErrBudget]
       else e = [base_ErrBatchTooLarge] /\ db_hard (p_budget p) < entries * 64)
  end.
Proof.
  intros [Hs Hh Hc Hr Hu Hl] He. unfold reserve. rewrite multiply_spec by exact He.
  pose proof (outstanding_nonneg _ Hu) as Hnn.
  destruct (MaxUint64 <? entries * 64) eqn:Eo; bool_norm; cbn [orb].
  { split; [reflexivity|]. split; [lia|]. split; [reflexivity|lia]. }
  destruct (db_hard (p_budget p) <? entries * 64) eqn:Eh; bool_norm.
  { split; [reflexivity|]. split; [lia|]. split; [reflexivity|lia]. }
  destruct (_ || _) eqn:Eb.
  { split; [reflexivity|]. split; [|reflexivity]. apply orb_true_iff in Eb as [Eb|Eb]; [|bool_norm; lia].
    guard_absurd Eb. }
  bool_norm. cbn [p_objs p_budget set_reserved db_charged db_reserved db_soft db_hard].
  split; [|split; [|split; [|split; [reflexivity|split; intros Hpr; bool_norm; [lia|apply Z.leb_le; lia]]]]].
  - constructor; cbn [p_objs p_budget set_reserved db_charged db_reserved db_soft db_hard]; auto; [| |lia].
    + rewrite outstanding_app, Hr. cbn. lia.
    + apply Forall_app. split; [exact Hu|]. constructor; [cbn; lia|constructor].
  - unfold live_reservation. cbn [p_objs]. rewrite lookup_app_r, Nat.sub_diag by lia. reflexivity.
  - unfold live_reservation. cbn [p_objs]. intros h' u Hl'. split.
    + now apply lookup_app_l_Some.
    + intros ->. apply lookup_lt_Some in Hl'. lia.
Qed.

(** [set_consumed]: the object that [Release] and [consume] leave. *)
Lemma pool_ok_finish p h o charged : pool_ok p -> p_objs p !! h = Some o -> rv_consumed o = false ->
  0 <= charged <= rv_upper o ->
  pool_ok (mkPool (mkBudget (db_soft (p_budget p)) (db_hard (p_budget p))
                     (db_charged (p_budget p) + charged) (db_reserved (p_budget p) - rv_upper o))
                  (<[h := mkReservation (rv_upper o) true]> (p_objs p))).
Proof.
  intros [Hs Hh Hc Hr Hu Hl] Ho Hf Hch.
  constructor; cbn [p_objs p_budget db_charged db_reserved db_soft db_hard]; auto; try lia.
  - rewrite (outstanding_insert _ _ o) by exact Ho. unfold outstanding. rewrite Hf. cbn. lia.
  - apply Forall_insert; [exact Hu|]. cbn. rewrite Forall_forall in Hu. apply Hu.
    eapply list_elem_of_lookup_2. exact Ho.
Qed.

Lemma finish_frame p h o b h' u : live_reservation p h' u -> h' <> h ->
  live_reservation (mkPool b (<[h := o]> (p_objs p))) h' u.
Proof. unfold live_reservation. cbn [p_objs]. intros H Hne. now rewrite list_lookup_insert_ne. Qed.

Lemma Release_spec p r : pool_ok p ->
  pool_ok (Release p r) /\ db_charged (p_budget (Release p r)) = db_charged (p_budget p) /\
  (forall h u, r = Some h -> live_reservation p h u ->
     db_reserved (p_budget (Release p r)) = db_reserved (p_budget p) - u) /\
  (forall h' u, live_reservation p h' u -> r <> Some h' -> live_reservation (Release p r) h' u).
Proof.
  intros Hp. unfold Release. destruct r as [h|]; 
    [|split; [exact Hp|]; split; [reflexivity|]; split; [intros; discriminate | auto]].
  destruct (p_objs p !! h) as [o|] eqn:Ho.
  2:{ split; [exact Hp|]. split; [reflexivity|]. split; [|auto]. unfold live_reservation. congruence. }
  destruct (rv_consumed o) eqn:Hf.
  { split; [exact Hp|]. split; [reflexivity|]. split; [|auto]. intros h' u [= <-] Hl.
    unfold live_reservation in Hl. rewrite Ho in Hl. injection Hl as ->. discriminate. }
  pose proof (outstanding_le _ h o (po_upper p Hp) Ho) as Hle. unfold outstanding in Hle. rewrite Hf in Hle.
  rewrite <- (po_reserved p Hp) in Hle. apply Z.leb_le in Hle. rewrite Hle. unfold set_reserved.
  split; [|cbn [p_budget db_charged db_reserved]; split; [reflexivity|split]].
  - pose proof (pool_ok_finish p h o 0 Hp Ho Hf) as H. rewrite Z.add_0_r in H. apply H.
    pose proof (po_upper p Hp) as Hu. rewrite Forall_forall in Hu. split; [lia|]. apply Hu.
    eapply list_elem_of_lookup_2. exact Ho.
  - intros h' u [= <-] Hl. unfold live_reservation in Hl. rewrite Ho in Hl. injection Hl as ->. reflexivity.
  - intros h' u Hl Hne. apply finish_frame; [exact Hl|congruence].
Qed.

(** A live reservation can be consumed up to its upper bound: the failure
    branches of [consume] are unreachable. *)
Lemma consume_spec p h u entries : pool_ok p -> live_reservation p h u -> 0 <= entries -> entries * 64 <= u ->
  exists p', consume p h entries = (p', Ok (entries * 64)) /\ pool_ok p' /\
    db_charged (p_budget p') = db_charged (p_budget p) + entries * 64 /\
    db_reserved (p_budget p') = db_reserved (p_budget p) - u /\
    db_hard (p_budget p') = db_hard (p_budget p) /\
    (forall h' u', live_reservation p h' u' -> h' <> h -> live_reservation p' h' u').
Proof.
  intros Hp Hl He Hu. unfold consume. rewrite multiply_spec by exact He.
  pose proof (outstanding_le _ h _ (po_upper p Hp) Hl) as Hle. cbn in Hle. rewrite <- (po_reserved p Hp) in Hle.
  pose proof (po_limit p Hp). pose proof (po_charged p Hp). pose proof (po_hard p Hp).
  replace (MaxUint64 <? entries * 64) with false by (symmetry; apply Z.ltb_ge; lia).
  unfold live_reservation in Hl. rewrite Hl. cbn [rv_consumed rv_upper orb].
  replace (u <? entries * 64) with false by (symmetry; apply Z.ltb_ge; lia).
  replace (db_reserved (p_budget p) <? u) with false by (symmetry; apply Z.ltb_ge; lia).
  replace (db_hard (p_budget p) - entries * 64 <? db_charged (p_budget p)) with false by (symmetry; apply Z.ltb_ge; lia).
  cbn [orb]. eexists. split; [reflexivity|]. split; [|cbn [p_budget db_charged db_reserved db_hard]; repeat split].
  - apply (pool_ok_finish p h (mkReservation u false) (entries * 64)); auto. cbn. lia.
  - intros h' u' Hl' Hne. now apply finish_frame.
Qed.

Lemma discharge_spec p released p' : pool_ok p -> 0 <= released -> discharge p released = Ok p' ->
  pool_ok p' /\ db_charged (p_budget p') = db_charged (p_budget p) - released /\
  (forall h u, live_reservation p h u -> live_reservation p' h u).
Proof.
  intros [Hs Hh Hc Hr Hu Hl] H0 H. unfold discharge in H. inv_ok H. apply Ok_inj in H as <-. bool_norm.
  cbn. split; [|split; [reflexivity|auto]]. constructor; cbn; auto; lia.
Qed.

Lemma consume_any p h entries p' r : pool_ok p -> 0 <= entries -> consume p h entries = (p', r) ->
  pool_ok p' /\ (is_ok r = false -> p' = p).
Proof.
  intros Hp He E.
  destruct (p_objs p !! h) as [o|] eqn:Ho.
  - destruct (rv_consumed o || (rv_upper o <? entries * 64)) eqn:Ef.
    + unfold consume in E. rewrite multiply_spec in E by exact He. rewrite Ho in E.
      destruct (MaxUint64 <? entries * 64); [|rewrite Ef in E]; injection E as <- <-; auto.
    + bool_norm. destruct o as [u c]. cbn in *. subst c.
      destruct (consume_spec p h u entries Hp Ho He) as (q & E' & Hq & _); [lia|].
      rewrite E' in E. injection E as <- <-. split; [exact Hq|discriminate].
  - unfold consume in E. rewrite multiply_spec in E by exact He. rewrite Ho in E.
    destruct (MaxUint64 <? entries * 64); injection E as <- <-; auto.
Qed.

(** ** Every interleaving of admissions, releases, publications and installs *)

Inductive budget_step : Pool -> Pool -> Prop :=
| step_reserve p n : 0 <= n -> budget_step p (reserve p n).1
| step_release p r : budget_step p (Release p r)
| step_consume p h n : 0 <= n -> budget_step p (consume p h n).1
| step_discharge p released p' : 0 <= released -> discharge p released = Ok p' -> budget_step p p'.

Lemma budget_step_ok p p' : budget_step p p' -> pool_ok p -> pool_ok p'.
Proof.
  intros [q n Hn|q r|q h n Hn|q released q' H0 E] Hq.
  - pose proof (reserve_spec q n Hq Hn) as H. destruct (reserve q n) as [q' [[h|e] pr]]; [apply H|].
    destruct H as [-> _]. exact Hq.
  - now apply Release_spec.
  - destruct (consume q h n) as [q' r] eqn:E. now apply (consume_any q h n q' r).
  - eapply discharge_spec; eauto.
Qed.

Lemma newDeltaBudget_ok soft hard b : 0 <= soft -> hard <= MaxUint64 ->
  newDeltaBudget soft hard = Ok b -> pool_ok (mkPool b []).
Proof.
  intros Hs Hh H. unfold newDeltaBudget in H. inv_ok H. apply Ok_inj in H as <-. bool_norm.
  constructor; cbn; try lia. constructor.
Qed.

Lemma budget_reachable_ok soft hard b p : 0 <= soft -> hard <= MaxUint64 ->
  newDeltaBudget soft hard = Ok b -> rtc budget_step (mkPool b []) p -> pool_ok p.
Proof.
  intros Hs Hh Hb. apply newDeltaBudget_ok in Hb; auto. intros Hr. revert Hb.
  induction Hr as [|x y z Hxy _ IH]; eauto using budget_step_ok.
Qed.

(** Whatever sequence of reservations, releases, consumptions and checkpoint
    installs a budget goes through, charged and reserved bytes together never
    exceed the hard limit, the reserved bytes are exactly those of the
    reservations still outstanding, and a reservation that is still outstanding
    can be consumed for any number of entries up to its size: admission can
    never be revoked by later traffic. *)
Theorem budget_admission_sound soft hard b p :
  0 <= soft -> hard <= MaxUint64 -> newDeltaBudget soft hard = Ok b ->
  rtc budget_step (mkPool b []) p ->
  db_charged (p_budget p) + db_reserved (p_budget p) <= db_hard (p_budget p) /\
  db_reserved (p_budget p) = outstanding_bytes (p_objs p) /\
  forall h u n, p_objs p !! h = Some (mkReservation u false) -> 0 <= n -> n * deltaEntryCharge <= u ->
    exists p', consume p h n = (p', Ok (n * deltaEntryCharge)) /\ pool_ok p'.
Proof.
  intros Hs Hh Hb Hr. pose proof (budget_reachable_ok soft hard b p Hs Hh Hb Hr) as Hp.
  split; [apply (po_limit p Hp)|]. split; [apply (po_reserved p Hp)|].
  intros h u n Ho Hn Hu. destruct (consume_spec p h u n Hp Ho Hn Hu) as (p' & E & Hp' & _). eauto.
Qed.

Definition example_budget : deltaBudget := mkBudget 128 256 0 0.

Lemma budget_admission_sound_witness :
  let p := (reserve (Release (reserve (mkPool example_budget []) 3).1 (Some 0%nat)) 4).1 in
  exists p', consume p 1 4 = (p', Ok 256) /\ pool_ok p'.
Proof.
  apply (budget_admission_sound 128 256 example_budget
           (reserve (Release (reserve (mkPool example_budget []) 3).1 (Some 0%nat)) 4).1) with (u := 256) (n := 4).
  - lia.
  - lia.
  - reflexivity.
  - eapply rtc_l; [apply (step_reserve _ 3); lia|]. eapply rtc_l; [apply (step_release _ (Some 0%nat))|].
    eapply rtc_l; [apply (step_reserve _ 4); lia|]. apply rtc_refl.
  - vm_compute. reflexivity.
  - lia.
  - vm_compute. discriminate.
Defined.
