(* ===== verification/LogIface.v ===== *)
(** * The append-only log as its clients see it

    The [Appender] interfaces of [internal/coordinator/coordinator.go] and
    [internal/idalloc/allocator.go], which [recordlog.Log] implements.  A log
    state shows the records handed to the writer so far ([log_records], in log
    order), how many of them are synced, and whether the writer is poisoned.  The
    laws are the documented promises: a successful append adds exactly that
    payload at the end, a failed one adds nothing unless it poisons the log (then
    the record may have reached the file), and a poisoned log accepts nothing
    more.  What a restart finds is a prefix of the records that contains every
    synced one ([survives]). *)
From S2P Require Import Prelude Addr RecordFormat.

Abbreviation LogRecord := (AppendResult * list Z)%type.

Class AppendLog (L : Type) := {
  log_append : L -> list Z -> bool -> L * res AppendResult;
  log_records : L -> list LogRecord;
  log_synced : L -> nat;
  log_poisoned : L -> bool;
}.

Class AppendLogLaws (L : Type) `{!AppendLog L} := {
  append_ok l p s l' r : log_append l p s = (l', Ok r) ->
    log_records l' = log_records l ++ [(r, p)] /\ log_poisoned l = false /\
    (log_synced l <= log_synced l')%nat /\ (s = true -> log_synced l' = length (log_records l'));
  append_err l p s l' e : log_append l p s = (l', Err e) ->
    (log_records l' = log_records l \/
     (log_poisoned l = false /\ log_poisoned l' = true /\ exists r, log_records l' = log_records l ++ [(r, p)])) /\
    (log_synced l <= log_synced l')%nat /\ (log_poisoned l = true -> log_poisoned l' = true);
  synced_le l : (log_synced l <= length (log_records l))%nat;
}.

(** After a crash, a prefix of the records that contains every synced one is
    found in the file. *)
Definition survives {L} `{AppendLog L} (l : L) (image : list LogRecord) : Prop :=
  exists k, (log_synced l <= k <= length (log_records l))%nat /\ image = take k (log_records l).

(** Whatever an append returns, the new records extend the old ones. *)
Lemma append_extends {L} `{AppendLogLaws L} l p s l' r :
  log_append l p s = (l', r) ->
  log_records l' = log_records l \/ exists a, log_records l' = log_records l ++ [(a, p)].
Proof.
  destruct r as [r|e]; intros E.
  - apply append_ok in E as [E _]. eauto.
  - apply append_err in E as [[E|(_ & _ & r & E)] _]; eauto.
Qed.

(** ** An in-memory log

    The reference implementation of the interface: one segment, addresses as
    the writer assigns them, and a script that says what happens to each append. *)
Inductive fate := Written | Refused | PoisonedLost | PoisonedWritten.

Record MemLog := mkMemLog
  { ml_records : list LogRecord; ml_synced : nat; ml_poisoned : bool; ml_end : Z; ml_script : list fate }.

Definition emptyLog (script : list fate) : MemLog := mkMemLog [] 0 false SegmentHeaderSize script.

Definition mem_place (offset : Z) (payload : list Z) : res (Z * AppendResult) :=
  let! physical := PhysicalRecordSize (len payload) in
  let! addr := NewVAddr 1 offset physical in
  let! r := NewAppendResult addr physical in
  Ok (offset + physical, r).

Definition mem_append (l : MemLog) (payload : list Z) (sync : bool) : MemLog * res AppendResult :=
  let f := match ml_script l with [] => Written | f :: _ => f end in
  let rest := match ml_script l with [] => [] | _ :: rest => rest end in
  let refused p := (mkMemLog (ml_records l) (ml_synced l) p (ml_end l) rest, Err [io_Error]) in
  if ml_poisoned l then refused true
  else
    match f, mem_place (ml_end l) payload with
    | Refused, _ | _, Err _ => refused false
    | PoisonedLost, _ => refused true
    | Written, Ok (end', r) =>
        let records := ml_records l ++ [(r, payload)] in
        (mkMemLog records (if sync then length records else ml_synced l) false end' rest, Ok r)
    | PoisonedWritten, Ok (end', r) =>
        (mkMemLog (ml_records l ++ [(r, payload)]) (ml_synced l) true end' rest, Err [io_Error])
    end.

#[export] Instance MemLog_log : AppendLog MemLog := {
  log_append := mem_append; log_records := ml_records;
  log_synced l := Nat.min (ml_synced l) (length (ml_records l)); log_poisoned := ml_poisoned }.

#[export] Instance MemLog_laws : AppendLogLaws MemLog.
Proof.
  split.
  - intros l p s l' r. cbn. unfold mem_append. destruct (ml_poisoned l); [discriminate|].
    destruct (match ml_script l with [] => Written | f :: _ => f end), (mem_place (ml_end l) p) as [[e a]|]; try discriminate.
    intros E. injection E as <- <-. cbn. rewrite length_app. cbn. split; [done|]. split; [done|].
    destruct s; split; try done; intros; lia.
  - intros l p s l' e. cbn. unfold mem_append. destruct (ml_poisoned l).
    { intros E. injection E as <- <-. cbn. auto. }
    destruct (match ml_script l with [] => Written | f :: _ => f end), (mem_place (ml_end l) p) as [[en a]|];
      intros E; try discriminate; injection E as <- <-; cbn; rewrite ?length_app; cbn; split; auto; try (split; [lia|done]).
    right. eauto.
  - intros l. cbn. lia.
Qed.
