(* ===== verification/IdAlloc.v ===== *)
(** * Allocation of record and batch identifiers

    Models [internal/idalloc/allocator.go].  An allocator hands out the ids of a
    range it has durably reserved in the log; recovery starts at the end of the
    last reserved range ([AdvanceRecovered] replays the reserve records).  The
    main theorem: no id is ever handed out twice, across any crash. *)
From S2P Require Import Prelude Addr RecordCodec LogIface.

Definition RecordID : Z := 1.
Definition BatchID : Z := 2.

Definition validKind (kind : Z) : bool := (kind =? RecordID) || (kind =? BatchID).

Record Allocator := mkAllocator { al_kind : Z; al_reserve : Z; al_next : Z; al_high : Z }.

Definition New (kind reserveSize durableHigh : Z) : res Allocator :=
  raise [base_ErrInvalidConfig] when
    negb (validKind kind) || (reserveSize =? 0) || (durableHigh =? 0) ||
    negb ((durableHigh - 1) mod reserveSize =? 0) ;;
  Ok (mkAllocator kind reserveSize durableHigh durableHigh).

Definition recordType (a : Allocator) : Z :=
  if al_kind a =? BatchID then RecordTypeBatchIDReserve else RecordTypeIDReserve.

Definition DurableHigh (a : Allocator) : Z := al_high a.
Definition IssuedHigh (a : Allocator) : Z := al_next a.
Definition CanUse (a : Allocator) (id : Z) : bool := negb (id =? 0) && (id <? al_next a).

Definition AdvanceRecovered (kind reserveSize currentHigh : Z) (record : ReserveRecord) : res Z :=
  let high := rs_HighExclusive record in
  raise [base_ErrCorrupt] when
    negb (validKind kind) || (reserveSize =? 0) || (currentHigh =? 0) || (high <=? currentHigh) ||
    (MaxUint64 - reserveSize <? currentHigh) || negb (high =? currentHigh + reserveSize) ||
    negb ((high - 1) mod reserveSize =? 0) ;;
  Ok high.

Section WithLog.
Context {L : Type} `{AppendLogLaws L}.

Definition reserveRange (a : Allocator) (l : L) : Allocator * L * res unit :=
  if MaxUint64 - al_reserve a <? al_high a then (a, l, Err [base_ErrIDExhausted])
  else
    let newHigh := al_high a + al_reserve a in
    match EncodeReserve (recordType a) (mkReserve newHigh) with
    | Err e => (a, l, Err e)
    | Ok payload =>
        match log_append l payload true with
        | (l', Err e) => (a, l', Err e)
        | (l', Ok _) => (mkAllocator (al_kind a) (al_reserve a) (al_high a) newHigh, l', Ok tt)
        end
    end.

(** [ctx1] and [ctx2] are the answers of the two [ctx.Err()] calls. *)
Definition Allocate (a : Allocator) (l : L) (ctx1 ctx2 : option goerror) : Allocator * L * res Z :=
  match ctx1 with
  | Some e => (a, l, Err e)
  | None =>
      match ctx2 with
      | Some e => (a, l, Err e)
      | None =>
          let take_id (a : Allocator) :=
            mkAllocator (al_kind a) (al_reserve a) ((al_next a + 1) mod two64) (al_high a) in
          if al_next a =? al_high a then
            match reserveRange a l with
            | (a', l', Err e) => (a', l', Err e)
            | (a', l', Ok _) => (take_id a', l', Ok (al_next a'))
            end
          else (take_id a, l, Ok (al_next a))
      end
  end.

(** The high watermark recovery computes from the reserve records of one kind,
    in log order. *)
Fixpoint recover_high (kind typ reserveSize high : Z) (records : list LogRecord) : res Z :=
  match records with
  | [] => Ok high
  | (_, payload) :: rest =>
      if bool_decide (TypeOf payload = Ok typ) then
        let! record := DecodeReserve payload typ in
        let! high' := AdvanceRecovered kind reserveSize high record in
        recover_high kind typ reserveSize high' rest
      else recover_high kind typ reserveSize high rest
  end.

(** One process: allocations with any cancellation, interleaved with appends of
    records of other types, with any outcome of each append. *)
Inductive alloc_run : Allocator -> L -> list Z -> Allocator -> L -> Prop :=
| run_nil a l : alloc_run a l [] a l
| run_alloc a l c1 c2 a1 l1 r ids a2 l2 :
    Allocate a l c1 c2 = (a1, l1, r) -> alloc_run a1 l1 ids a2 l2 ->
    alloc_run a l (match r with Ok id => id :: ids | Err _ => ids end) a2 l2
| run_other a l p s l1 r ids a2 l2 :
    TypeOf p <> Ok (recordType a) -> log_append l p s = (l1, r) -> alloc_run a l1 ids a2 l2 ->
    alloc_run a l ids a2 l2.

(** ** The invariant *)

Definition alloc_ok (a : Allocator) : Prop :=
  validKind (al_kind a) = true /\ 0 < al_reserve a <= MaxUint64 /\
  0 < al_next a <= al_high a /\ al_high a <= MaxUint64 /\ (al_high a - 1) mod al_reserve a = 0.

(** The log of an allocator: every synced prefix recovers at least [al_high],
    and all records together recover [al_high], or one range more when the last
    reservation failed and poisoned the log. *)
Record log_ok (init : Z) (a : Allocator) (l : L) : Prop := mkLogOk {
  lo_all : exists h, recover_high (al_kind a) (recordType a) (al_reserve a) init (log_records l) = Ok h /\
    (h = al_high a \/ log_poisoned l = true);
  lo_synced : exists h, recover_high (al_kind a) (recordType a) (al_reserve a) init
      (take (log_synced l) (log_records l)) = Ok h /\ al_high a <= h;
}.

Lemma AdvanceRecovered_next a : alloc_ok a -> al_high a <= MaxUint64 - al_reserve a ->
  AdvanceRecovered (al_kind a) (al_reserve a) (al_high a) (mkReserve (al_high a + al_reserve a)) =
    Ok (al_high a + al_reserve a).
Proof.
  intros (Hk & Hr & Hn & Hh & Hm) Hle. unfold AdvanceRecovered. cbn [rs_HighExclusive]. rewrite Hk.
  assert (Hm2 : (al_high a + al_reserve a - 1) mod al_reserve a = 0).
  { replace (al_high a + al_reserve a - 1) with (al_high a - 1 + 1 * al_reserve a) by lia.
    rewrite Z.mod_add by lia. exact Hm. }
  rewrite Hm2. pass. reflexivity.
Qed.

Lemma recover_app kind typ r h xs ys :
  recover_high kind typ r h (xs ++ ys) =
    let! h' := recover_high kind typ r h xs in recover_high kind typ r h' ys.
Proof.
  revert h. induction xs as [|[a p] xs IH]; intros h; cbn [app recover_high]; [reflexivity|].
  destruct (bool_decide _); [|apply IH]. destruct (DecodeReserve p typ); [|reflexivity].
  destruct (AdvanceRecovered _ _ _ _); [apply IH|reflexivity].
Qed.

Lemma recover_mono kind typ r h xs h' : recover_high kind typ r h xs = Ok h' -> h <= h'.
Proof.
  revert h. induction xs as [|[a p] xs IH]; intros h; cbn [recover_high]; intros E.
  { apply Ok_inj in E. lia. }
  destruct (bool_decide _); [|now apply IH]. inv_ok E.
  apply IH in E. unfold AdvanceRecovered in Hcall0. inv_ok Hcall0. apply Ok_inj in Hcall0. bool_norm. lia.
Qed.

Lemma recover_prefix kind typ r h xs j k h' :
  recover_high kind typ r h (take j xs) = Ok h' -> (j <= k)%nat -> is_ok (recover_high kind typ r h xs) = true ->
  exists h'', recover_high kind typ r h (take k xs) = Ok h'' /\ h' <= h''.
Proof.
  intros Ej Hjk Hall. rewrite <- (take_drop k xs), recover_app in Hall.
  destruct (recover_high kind typ r h (take k xs)) as [h''|] eqn:Ek; [|discriminate].
  exists h''. split; [reflexivity|].
  assert (E : take k xs = take j xs ++ take (k - j) (drop j xs)).
  { rewrite <- (take_drop j (take k xs)), take_take, skipn_firstn_comm. f_equal. f_equal. lia. }
  rewrite E, recover_app, Ej in Ek. now apply recover_mono in Ek.
Qed.

Lemma recover_other kind typ r h xs a p : TypeOf p <> Ok typ ->
  recover_high kind typ r h (xs ++ [(a, p)]) = recover_high kind typ r h xs.
Proof.
  intros Ht. rewrite recover_app. destruct (recover_high kind typ r h xs) as [h'|]; [|reflexivity].
  cbn [recover_high]. rewrite bool_decide_eq_false_2 by exact Ht. reflexivity.
Qed.

Lemma recover_reserve a init xs r p : alloc_ok a -> al_high a <= MaxUint64 - al_reserve a ->
  EncodeReserve (recordType a) (mkReserve (al_high a + al_reserve a)) = Ok p ->
  recover_high (al_kind a) (recordType a) (al_reserve a) init xs = Ok (al_high a) ->
  recover_high (al_kind a) (recordType a) (al_reserve a) init (xs ++ [(r, p)]) = Ok (al_high a + al_reserve a).
Proof.
  intros Ha Hle Ep Ex. rewrite recover_app, Ex. cbn [recover_high].
  destruct (DecodeReserve_encoded (recordType a) (mkReserve (al_high a + al_reserve a)) p) as [Ed Et].
  { unfold is_u64. destruct Ha as (_ & ? & ? & ? & _). cbn. lia. }
  { exact Ep. }
  rewrite bool_decide_eq_true_2 by exact Et. rewrite Ed, AdvanceRecovered_next by assumption. reflexivity.
Qed.

(** The synced prefix only grows. *)
Lemma lo_synced_extend init a l l' :
  log_ok init a l -> (log_synced l <= log_synced l')%nat ->
  (exists ys, log_records l' = log_records l ++ ys) ->
  is_ok (recover_high (al_kind a) (recordType a) (al_reserve a) init (log_records l')) = true ->
  exists h, recover_high (al_kind a) (recordType a) (al_reserve a) init
      (take (log_synced l') (log_records l')) = Ok h /\ al_high a <= h.
Proof.
  intros [_ (h & E & Hh)] Hs [ys Ey] Hok.
  assert (E' : take (log_synced l) (log_records l') = take (log_synced l) (log_records l)).
  { rewrite Ey, take_app_le; [done|]. apply synced_le. }
  rewrite <- E' in E. destruct (recover_prefix _ _ _ _ _ _ _ _ E Hs Hok) as (h'' & E'' & Hle).
  exists h''. split; [exact E''|lia].
Qed.

Lemma log_ok_other init a l p s l' r :
  log_ok init a l -> TypeOf p <> Ok (recordType a) -> log_append l p s = (l', r) -> log_ok init a l'.
Proof.
  intros Hl Ht E. pose proof (lo_all init a l Hl) as (h & Eh & Hh).
  assert (Hext : exists ys, log_records l' = log_records l ++ ys).
  { apply append_extends in E as [-> | [x ->]]; [exists []; now rewrite app_nil_r | eauto]. }
  assert (Eh' : recover_high (al_kind a) (recordType a) (al_reserve a) init (log_records l') = Ok h).
  { apply append_extends in E as [-> | [x ->]]; [exact Eh | now rewrite recover_other]. }
  assert (Hs : (log_synced l <= log_synced l')%nat /\ (log_poisoned l = true -> log_poisoned l' = true)).
  { destruct r as [r|e]; [apply append_ok in E as (_ & Hp & Hs & _) | apply append_err in E as (_ & Hs & Hp)].
    - split; [exact Hs|congruence].
    - auto. }
  constructor.
  - exists h. split; [exact Eh'|]. destruct Hh; [auto | right; now apply Hs].
  - apply (lo_synced_extend init a l l' Hl); [apply Hs|exact Hext|now rewrite Eh'].
Qed.

Lemma reserveRange_ok init a l a' l' r :
  alloc_ok a -> log_ok init a l -> al_next a = al_high a -> reserveRange a l = (a', l', r) ->
  alloc_ok a' /\ log_ok init a' l' /\ al_kind a' = al_kind a /\ al_reserve a' = al_reserve a /\
  (is_ok r = true -> al_next a' = al_high a /\ al_high a' = al_high a + al_reserve a) /\
  (is_ok r = false -> a' = a).
Proof.
  intros Ha Hl Hn E. unfold reserveRange in E.
  destruct (MaxUint64 - al_reserve a <? al_high a) eqn:Eo; bool_norm.
  { injection E as <- <- <-. repeat split; auto; apply Ha || apply Hl || discriminate. }
  destruct (EncodeReserve _ _) as [p|e] eqn:Ep.
  2:{ injection E as <- <- <-. repeat split; auto; apply Ha || apply Hl || discriminate. }
  pose proof Ha as (Hk & Hr & Hnx & Hh & Hm).
  pose proof (lo_all init a l Hl) as (h & Eh & Hhp).
  destruct (log_append l p true) as [l1 [x|e]] eqn:El; injection E as <- <- <-.
  - apply append_ok in El as (Er & Hp & Hs1 & Hs2). specialize (Hs2 eq_refl).
    destruct Hhp as [->|Hpo]; [|congruence].
    pose proof (recover_reserve a init _ x p Ha ltac:(lia) Ep Eh) as Eh'.
    split; [|split; [|repeat split; auto; discriminate]].
    + repeat split; cbn; auto; try lia.
      replace (al_high a + al_reserve a - 1) with (al_high a - 1 + 1 * al_reserve a) by lia.
      rewrite Z.mod_add by lia. exact Hm.
    + constructor; cbn [al_kind al_reserve al_high recordType]; fold (recordType a).
      * exists (al_high a + al_reserve a). rewrite Er. auto.
      * exists (al_high a + al_reserve a). rewrite Hs2, firstn_all, Er. split; [exact Eh'|lia].
  - apply append_err in El as (Hrec & Hs & Hp).
    split; [exact Ha|]. split; [|repeat split; auto; discriminate].
    assert (exists h', recover_high (al_kind a) (recordType a) (al_reserve a) init (log_records l1) = Ok h' /\
              (h' = al_high a \/ log_poisoned l1 = true)) as (h' & Eh' & Hh').
    { destruct Hrec as [->|(Hp0 & Hp1 & x & ->)].
      - exists h. split; [exact Eh|]. destruct Hhp; auto.
      - destruct Hhp as [->|?]; [|congruence].
        exists (al_high a + al_reserve a). split; [|auto]. apply recover_reserve; auto; lia. }
    constructor; [eauto|]. apply (lo_synced_extend init a l l1 Hl Hs); [|now rewrite Eh'].
    destruct Hrec as [->|(_ & _ & x & ->)]; [exists []; now rewrite app_nil_r | eauto].
Qed.

Lemma Allocate_ok init a l c1 c2 a' l' r :
  alloc_ok a -> log_ok init a l -> Allocate a l c1 c2 = (a', l', r) ->
  alloc_ok a' /\ log_ok init a' l' /\ al_kind a' = al_kind a /\ al_reserve a' = al_reserve a /\
  al_next a <= al_next a' /\
  match r with Ok id => al_next a <= id /\ id < al_next a' | Err _ => True end.
Proof.
  intros Ha Hl E. unfold Allocate in E.
  destruct c1 as [e1|]; [injection E as <- <- <-; repeat split; auto; apply Ha || apply Hl || lia|].
  destruct c2 as [e2|]; [injection E as <- <- <-; repeat split; auto; apply Ha || apply Hl || lia|].
  assert (Htake : forall b k, alloc_ok b -> log_ok init b k -> al_next b < al_high b ->
    let b' := mkAllocator (al_kind b) (al_reserve b) ((al_next b + 1) mod two64) (al_high b) in
    alloc_ok b' /\ log_ok init b' k /\ al_next b' = al_next b + 1).
  { intros b k (Hk & Hr & Hn & Hh & Hm) Hlk Hlt. cbv zeta.
    rewrite Z.mod_small by lia. split; [repeat split; cbn; auto; lia|]. split; [|reflexivity].
    destruct Hlk as [H1 H2]. constructor; cbn [al_kind al_reserve al_high recordType]; fold (recordType b); auto. }
  destruct (al_next a =? al_high a) eqn:En; bool_norm.
  - destruct (reserveRange a l) as [[a1 l1] [[]|e]] eqn:Er;
      destruct (reserveRange_ok init a l a1 l1 _ Ha Hl En Er) as (Ha1 & Hl1 & Hk1 & Hr1 & Hok & Herr);
      injection E as <- <- <-.
    + specialize (Hok eq_refl) as [Hn1 Hh1]. destruct Ha as (_ & Hres & _).
      destruct (Htake a1 l1 Ha1 Hl1 ltac:(lia)) as (H1 & H2 & H3).
      split; [exact H1|]. split; [exact H2|]. cbn [al_kind al_reserve]. rewrite H3. repeat split; auto; lia.
    + rewrite (Herr eq_refl) in *. repeat split; auto; apply Ha || apply Hl1 || lia.
  - injection E as <- <- <-. pose proof Ha as (_ & _ & Hn & _).
    destruct (Htake a l Ha Hl ltac:(lia)) as (H1 & H2 & H3).
    split; [exact H1|]. split; [exact H2|]. cbn [al_kind al_reserve]. rewrite H3. repeat split; auto; lia.
Qed.

Lemma run_spec init a l ids a' l' :
  alloc_run a l ids a' l' -> alloc_ok a -> log_ok init a l ->
  alloc_ok a' /\ log_ok init a' l' /\ al_kind a' = al_kind a /\ al_reserve a' = al_reserve a /\
  al_next a <= al_next a' /\
  Forall (fun id => al_next a <= id < al_next a') ids /\ StronglySorted Z.lt ids.
Proof.
  induction 1 as [a l|a l c1 c2 a1 l1 r ids a2 l2 E _ IH|a l p s l1 r ids a2 l2 Ht E _ IH]; intros Ha Hl.
  - split; [exact Ha|]. split; [exact Hl|]. repeat split; try constructor; lia.
  - apply (Allocate_ok init) in E as (Ha1 & Hl1 & Hk & Hr & Hn & Hid); auto.
    destruct (IH Ha1 Hl1) as (Ha2 & Hl2 & Hk2 & Hr2 & Hn2 & Hall & Hs).
    split; [exact Ha2|]. split; [exact Hl2|]. split; [congruence|]. split; [congruence|]. split; [lia|].
    destruct r as [id|e].
    + split; [constructor; [lia|]; eapply Forall_impl; [exact Hall|cbn; lia]|].
      constructor; [exact Hs|]. eapply Forall_impl; [exact Hall|]. cbn. lia.
    + split; [|exact Hs]. eapply Forall_impl; [exact Hall|]. cbn. lia.
  - apply IH; auto. eapply log_ok_other; eauto.
Qed.

(** The log as recovery leaves it: every record is synced and the reserve
    records, replayed from [init], give [high]. *)
Definition reopened (kind reserveSize init high : Z) (l : L) : Prop :=
  log_synced l = length (log_records l) /\
  recover_high kind (recordType (mkAllocator kind reserveSize high high)) reserveSize init (log_records l) = Ok high.

Lemma New_log_ok kind reserveSize init high a l :
  New kind reserveSize high = Ok a -> 0 < reserveSize <= MaxUint64 -> 0 < high <= MaxUint64 ->
  reopened kind reserveSize init high l ->
  a = mkAllocator kind reserveSize high high /\ alloc_ok a /\ log_ok init a l.
Proof.
  intros E Hr Hh [Hs El]. unfold New in E. inv_ok E. apply Ok_inj in E as <-. bool_norm.
  split; [reflexivity|]. split; [repeat split; cbn; auto; lia|].
  constructor; cbn [al_kind al_reserve al_high].
  - exists high. auto.
  - exists high. rewrite Hs, firstn_all. split; [exact El|lia].
Qed.

(** What recovery computes can seed a new allocator. *)
Lemma recover_valid kind typ reserveSize init xs high :
  validKind kind = true -> 0 < reserveSize -> 0 < init <= MaxUint64 -> (init - 1) mod reserveSize = 0 ->
  recover_high kind typ reserveSize init xs = Ok high ->
  0 < high <= MaxUint64 /\ New kind reserveSize high = Ok (mkAllocator kind reserveSize high high).
Proof.
  intros Hk Hr. revert init. induction xs as [|[a p] xs IH]; intros init Hi Hm; cbn [recover_high]; intros E.
  { apply Ok_inj in E as <-. split; [exact Hi|]. unfold New. rewrite Hk, Hm. pass. reflexivity. }
  destruct (bool_decide _); [|now apply IH in E]. inv_ok E.
  apply IH in E; [exact E| |]; unfold AdvanceRecovered in Hcall0; inv_ok Hcall0; apply Ok_inj in Hcall0; bool_norm; subst; lia.
Qed.
End WithLog.

(** C22: ids are never reused.  A process opens a log whose reserve records give
    the watermark [high] and hands out [ids], its appends failing or poisoning
    the log in any way and other records being appended in between.  After a
    crash at any point, whatever the file kept, replaying the reserve records
    succeeds with a watermark above every id that was handed out; an allocator
    can be opened there, and all ids it hands out are fresh. *)
Theorem ids_never_reused {L : Type} `{AppendLogLaws L} kind reserveSize init high a l ids a' l' image :
  New kind reserveSize high = Ok a -> 0 < reserveSize <= MaxUint64 -> 0 < init <= MaxUint64 ->
  0 < high <= MaxUint64 -> (init - 1) mod reserveSize = 0 ->
  reopened kind reserveSize init high l -> alloc_run a l ids a' l' -> survives l' image ->
  exists high' b, recover_high kind (recordType a) reserveSize init image = Ok high' /\
    New kind reserveSize high' = Ok b /\ Forall (fun id => high <= id < high') ids /\ NoDup ids /\
    forall l2 ids2 b' l2', log_records l2 = image -> log_synced l2 = length image ->
      alloc_run b l2 ids2 b' l2' -> Forall (fun id2 => Forall (fun id => id < id2) ids) ids2.
Proof.
  intros En Hr Hi Hh Hm Hopen Hrun (k & Hk & ->).
  destruct (New_log_ok kind reserveSize init high a l En Hr Hh Hopen) as (Ea & Ha & Hl).
  destruct (run_spec init a l ids a' l' Hrun Ha Hl) as (Ha' & Hl' & Hk' & Hr' & Hle & Hall & Hs).
  assert (Hrt : recordType a' = recordType a) by (unfold recordType; now rewrite Hk').
  destruct (lo_all init a' l' Hl') as (hall & Eall & _). destruct (lo_synced init a' l' Hl') as (hs & Es & Hhs).
  rewrite Hk', Hr', Hrt in *. subst a. cbn [al_kind al_reserve al_next] in *.
  destruct (recover_prefix _ _ _ _ _ _ k _ Es ltac:(lia) ltac:(now rewrite Eall)) as (h' & E' & Hle').
  destruct Ha' as (Hv & _ & Hnx & _). rewrite Hk' in Hv.
  destruct (recover_valid kind _ reserveSize init _ h' Hv ltac:(lia) Hi Hm E') as [Hh' En'].
  eexists h', _. split; [exact E'|]. split; [exact En'|].
  assert (Hids : Forall (fun id => high <= id < h') ids) by (eapply Forall_impl; [exact Hall|]; cbn; lia).
  split; [exact Hids|]. split; [now apply sorted_lt_NoDup|].
  intros l2 ids2 b' l2' El2 Hs2 Hrun2.
  destruct (New_log_ok kind reserveSize init h' _ l2 En' Hr Hh') as (_ & Hb & Hlb).
  { split; rewrite El2; [exact Hs2|exact E']. }
  destruct (run_spec init _ l2 ids2 b' l2' Hrun2 Hb Hlb) as (_ & _ & _ & _ & _ & Hall2 & _).
  eapply Forall_impl; [exact Hall2|]. cbn. intros id2 Hid2. eapply Forall_impl; [exact Hids|]. cbn. lia.
Qed.

(** Three allocations; the second reservation reaches the file but poisons the
    log. *)
Definition example_alloc : Allocator := mkAllocator RecordID 2 1 1.
Definition example_s1 : Allocator * MemLog * res Z :=
  Allocate example_alloc (emptyLog [Written; PoisonedWritten]) None None.
Definition example_s2 : Allocator * MemLog * res Z := Allocate example_s1.1.1 example_s1.1.2 None None.
Definition example_s3 : Allocator * MemLog * res Z := Allocate example_s2.1.1 example_s2.1.2 None None.

Lemma ids_never_reused_witness :
  exists high' b, recover_high RecordID RecordTypeIDReserve 2 1 (log_records example_s3.1.2) = Ok high' /\
    New RecordID 2 high' = Ok b /\ Forall (fun id => 1 <= id < high') [1; 2] /\ NoDup [1; 2] /\
    forall (l2 : MemLog) ids2 b' l2', log_records l2 = log_records example_s3.1.2 ->
      log_synced l2 = length (log_records example_s3.1.2) -> alloc_run b l2 ids2 b' l2' ->
      Forall (fun id2 => Forall (fun id => id < id2) [1; 2]) ids2.
Proof.
  apply (ids_never_reused (L := MemLog) RecordID 2 1 1 example_alloc (emptyLog [Written; PoisonedWritten]) [1; 2]
           example_s3.1.1 example_s3.1.2).
  - reflexivity.
  - lia.
  - lia.
  - lia.
  - reflexivity.
  - split; reflexivity.
  - apply (run_alloc _ _ None None example_s1.1.1 example_s1.1.2 (Ok 1) [2]); [vm_compute; reflexivity|].
    apply (run_alloc _ _ None None example_s2.1.1 example_s2.1.2 (Ok 2) []); [vm_compute; reflexivity|].
    apply (run_alloc _ _ None None example_s3.1.1 example_s3.1.2 (Err [io_Error]) []); [vm_compute; reflexivity|].
    apply run_nil.
  - exists 2%nat. split; [split; apply Nat.leb_le; reflexivity | reflexivity].
Defined.
