(* ===== verification/Batch.v ===== *)
(** * Batches: the unit of atomic change

    Models [internal/transaction/batch.go]: the state machine of a Batch, its
    staged mutations and conditions, and the proposal it hands to the
    coordinator.  Puts append their value to the log when they are staged;
    [Prepare] freezes the batch into a sorted [Prepared]. *)
From S2P Require Import Prelude Bytes Addr RecordCodec LogIface Mapping.
From S2P Require IdAlloc.

Inductive State := StateOpen | StateCommitting | StateCommitted | StateAborted | StateCommitUnknown | StateFailed.

#[export] Instance State_eq_dec : EqDecision State.
Proof. solve_decision. Defined.

Record Limits := mkLimits
  { MaxValueSize : Z; MaxBatchBytes : Z; MaxBatchMutations : Z; MaxBatchConditions : Z }.

Record BMutation := mkBMutation
  { bm_RecordID : Z; bm_Operation : Z; bm_Ref : RecordRef; bm_ValueBytes : Z }.

Record Prepared := mkPrepared
  { pp_BatchID : Z; pp_Mutations : list BMutation; pp_Conditions : list Condition;
    pp_LogicalPayloadBytes : Z }.

Definition bm_change (m : BMutation) : Change := mkChange (bm_RecordID m) (bm_Ref m) 0 (bm_Operation m).

(** [Prepared.Proposal] *)
Definition Prepared_Proposal (p : Prepared) : Proposal :=
  mkProposal ProposalUserCommit (pp_Conditions p) (map bm_change (pp_Mutations p)).

Record Batch := mkBatch
  { ba_id : Z; ba_state : State; ba_limits : Limits; ba_mutations : gmap Z BMutation;
    ba_conditions : gmap Z Condition; ba_appendedBytes : Z; ba_commitSeq : Z }.

Definition set_state (b : Batch) (s : State) : Batch :=
  mkBatch (ba_id b) s (ba_limits b) (ba_mutations b) (ba_conditions b) (ba_appendedBytes b) (ba_commitSeq b).
Definition set_mutation (b : Batch) (id : Z) (m : BMutation) (appended : Z) : Batch :=
  mkBatch (ba_id b) (ba_state b) (ba_limits b) (<[id := m]> (ba_mutations b)) (ba_conditions b) appended (ba_commitSeq b).
Definition set_condition (b : Batch) (c : Condition) : Batch :=
  mkBatch (ba_id b) (ba_state b) (ba_limits b) (ba_mutations b) (<[co_RecordID c := c]> (ba_conditions b))
    (ba_appendedBytes b) (ba_commitSeq b).

(** [ValidateLimits(limits) == nil] *)
Definition ValidateLimits (limits : Limits) : bool :=
  negb ((MaxValueSize limits =? 0) || (MaxBatchBytes limits =? 0) || (MaxBatchMutations limits =? 0) ||
        (MaxBatchConditions limits =? 0) || (MaxBatchBytes limits <? MaxValueSize limits) ||
        (MaxUint32 <? MaxBatchMutations limits) || (MaxUint32 <? MaxBatchConditions limits)).

Definition New (id : Z) (limits : Limits) : res Batch :=
  raise [base_ErrInvalidConfig] when (id =? 0) || negb (ValidateLimits limits) ;;
  Ok (mkBatch id StateOpen limits ∅ ∅ 0 0).

(** [stateError]: the error of an operation in this state, [None] when open. *)
Definition stateError (b : Batch) : option goerror :=
  match ba_state b with
  | StateFailed => Some [base_ErrBatchFailed]
  | StateOpen => None
  | _ => Some [base_ErrBatchClosed]
  end.

Definition requireOpen (b : Batch) : option goerror :=
  match ba_state b with StateOpen => None | _ => stateError b end.

Definition clearLocked (b : Batch) : Batch :=
  mkBatch (ba_id b) (ba_state b) (ba_limits b) ∅ ∅ (ba_appendedBytes b) (ba_commitSeq b).

Definition gmap_len {A} (m : gmap Z A) : Z := Z.of_nat (size m).

Definition validatePut (b : Batch) (id : Z) (value : list Z) (pendingID : bool) : res unit :=
  raise [base_ErrInvalidID] when negb pendingID && (id =? 0) ;;
  raise [base_ErrValueTooLarge] when MaxValueSize (ba_limits b) <? len value ;;
  raise [base_ErrBatchTooLarge] when
    bool_decide (ba_mutations b !! id = None) && (gmap_len (ba_mutations b) =? MaxBatchMutations (ba_limits b)) ;;
  raise [base_ErrBatchTooLarge] when
    (MaxUint64 - ba_appendedBytes b <? len value) ||
    (MaxBatchBytes (ba_limits b) <? ba_appendedBytes b + len value) ;;
  Ok tt.

Definition deleteLocked (b : Batch) (id : Z) : Batch * res unit :=
  if id =? 0 then (b, Err [base_ErrInvalidID])
  else if bool_decide (ba_mutations b !! id = None) && (gmap_len (ba_mutations b) =? MaxBatchMutations (ba_limits b))
  then (b, Err [base_ErrBatchTooLarge])
  else (set_mutation b id (mkBMutation id OpDelete zeroRef 0) (ba_appendedBytes b), Ok tt).

Definition validateCondition (b : Batch) (c : Condition) : Batch * res unit :=
  if co_RecordID c =? 0 then (b, Err [base_ErrInvalidID])
  else if negb (co_ExpectedAddr c =? 0) && negb (VAddr_Valid (co_ExpectedAddr c)) then (b, Err [base_ErrInvalidAddress])
  else
    match ba_conditions b !! co_RecordID c with
    | Some old => if bool_decide (old = c) then (b, Ok tt) else (set_state b StateFailed, Err [base_ErrBatchFailed])
    | None =>
        if gmap_len (ba_conditions b) =? MaxBatchConditions (ba_limits b) then (b, Err [base_ErrBatchTooLarge])
        else (b, Ok tt)
    end.

Definition addCondition (b : Batch) (c : Condition) : Batch * res unit :=
  match requireOpen b with
  | Some e => (b, Err e)
  | None =>
      match validateCondition b c with
      | (b', Err e) => (b', Err e)
      | (b', Ok _) => (set_condition b' c, Ok tt)
      end
  end.

Definition ExpectAddress (b : Batch) (id addr : Z) : Batch * res unit := addCondition b (mkCondition id addr).
Definition ExpectAbsent (b : Batch) (id : Z) : Batch * res unit := addCondition b (mkCondition id 0).

Definition Delete (b : Batch) (id : Z) : Batch * res unit :=
  match requireOpen b with
  | Some e => (b, Err e)
  | None => deleteLocked b id
  end.

Definition CompareAndDelete (b : Batch) (id expected : Z) : Batch * res unit :=
  match requireOpen b with
  | Some e => (b, Err e)
  | None =>
      let condition := mkCondition id expected in
      match validateCondition b condition with
      | (b', Err e) => (b', Err e)
      | (b', Ok _) =>
          match deleteLocked b' id with
          | (b'', Err e) => (b'', Err e)
          | (b'', Ok _) => (set_condition b'' condition, Ok tt)
          end
      end
  end.

(** The keys in an arbitrary iteration order of the map. *)
Definition MutationIDs (b : Batch) : res (list Z) :=
  match requireOpen b with
  | Some e => Err e
  | None => Ok (map_to_list (ba_mutations b)).*1
  end.

Definition ReferencesSegment (b : Batch) (segment : Z) : bool :=
  negb (segment =? 0) &&
  existsb (fun '(_, m) => (bm_Operation m =? OpPut) && (SegmentID (Addr (bm_Ref m)) =? segment)) (map_to_list (ba_mutations b)).

Definition PendingPutRefs (b : Batch) : list RecordRef :=
  match ba_state b with
  | StateOpen | StateCommitting =>
      map (fun '(_, m) => bm_Ref m) (filter (fun '(_, m) => bm_Operation m = OpPut) (map_to_list (ba_mutations b)))
  | _ => []
  end.

Definition redirect_mutation (redirects : gmap Z RecordRef) (m : BMutation) : BMutation :=
  if negb (bm_Operation m =? OpPut) then m
  else match redirects !! Addr (bm_Ref m) with
       | Some redirected => mkBMutation (bm_RecordID m) (bm_Operation m) redirected (bm_ValueBytes m)
       | None => m
       end.

Definition redirected_by (redirects : gmap Z RecordRef) (m : BMutation) : bool :=
  (bm_Operation m =? OpPut) && bool_decide (is_Some (redirects !! Addr (bm_Ref m))).

(** The batch and the number of rewritten mutations. *)
Definition RewritePutRefs (b : Batch) (redirects : gmap Z RecordRef) : Batch * Z :=
  if bool_decide (redirects = ∅) then (b, 0)
  else match ba_state b with
       | StateOpen =>
           (mkBatch (ba_id b) (ba_state b) (ba_limits b) (redirect_mutation redirects <$> ba_mutations b)
              (ba_conditions b) (ba_appendedBytes b) (ba_commitSeq b),
            len (filter (fun '(_, m) => redirected_by redirects m = true) (map_to_list (ba_mutations b))))
       | _ => (b, 0)
       end.

(** ** Prepare and the terminal transitions *)

Definition by_mutation (m1 m2 : BMutation) : Prop := bm_RecordID m1 <= bm_RecordID m2.
Definition by_condition (c1 c2 : Condition) : Prop := co_RecordID c1 <= co_RecordID c2.

#[export] Instance by_mutation_dec m1 m2 : Decision (by_mutation m1 m2).
Proof. unfold by_mutation. apply _. Defined.
#[export] Instance by_condition_dec c1 c2 : Decision (by_condition c1 c2).
Proof. unfold by_condition. apply _. Defined.

(** [LogicalPayloadBytes], [None] on overflow. *)
Fixpoint payload_sum (total : Z) (ms : list BMutation) : option Z :=
  match ms with
  | [] => Some total
  | m :: rest =>
      if bm_Operation m =? OpPut then
        if MaxUint64 - bm_ValueBytes m <? total then None else payload_sum (total + bm_ValueBytes m) rest
      else payload_sum total rest
  end.

Definition Prepare (b : Batch) : Batch * res Prepared :=
  match requireOpen b with
  | Some e => (b, Err e)
  | None =>
      let ms := (map_to_list (ba_mutations b)).*2 in
      let cs := (map_to_list (ba_conditions b)).*2 in
      match payload_sum 0 ms with
      | None => (set_state b StateFailed, Err [base_ErrBatchTooLarge])
      | Some total =>
          (set_state b StateCommitting,
           Ok (mkPrepared (ba_id b) (merge_sort by_mutation ms) (merge_sort by_condition cs) total))
      end
  end.

Definition MarkCommitted (b : Batch) (seq : Z) : Batch * res unit :=
  if seq =? 0 then (b, Err [base_ErrInvalidConfig])
  else match ba_state b with
       | StateCommitting =>
           (mkBatch (ba_id b) StateCommitted (ba_limits b) ∅ ∅ (ba_appendedBytes b) seq, Ok tt)
       | _ => (b, match stateError b with Some e => Err e | None => Ok tt end)
       end.

Definition markTerminal (b : Batch) (s : State) : Batch * res unit :=
  match ba_state b with
  | StateCommitting => (clearLocked (set_state b s), Ok tt)
  | _ => (b, match stateError b with Some e => Err e | None => Ok tt end)
  end.

Definition MarkAborted (b : Batch) : Batch * res unit := markTerminal b StateAborted.
Definition MarkCommitUnknown (b : Batch) : Batch * res unit := markTerminal b StateCommitUnknown.

(** ** Operations that use the log and the id allocator

    A context is the sequence of answers of its [Err()] calls. *)

Abbreviation Ctx := (nat -> option goerror).

Section WithLog.
Context {L : Type} `{AppendLogLaws L}.

(** [Abort] appends its diagnostic record after the state change. *)
Definition Abort (b : Batch) (l : L) (reason : Z) : Batch * L * res unit :=
  match ba_state b with
  | StateOpen | StateFailed =>
      match EncodeAbort (mkAbort (ba_id b) reason) with
      | Err e => (b, l, Err e)
      | Ok payload =>
          let '(l', r) := log_append l payload false in
          (clearLocked (set_state b StateAborted), l', match r with Ok _ => Ok tt | Err e => Err e end)
      end
  | _ => (b, l, match stateError b with Some e => Err e | None => Ok tt end)
  end.

Definition allocateLocked (b : Batch) (al : IdAlloc.Allocator) (l : L) (ctx : Ctx)
    : Batch * IdAlloc.Allocator * L * res Z :=
  match ctx 0%nat with
  | Some e => (b, al, l, Err e)
  | None =>
      match IdAlloc.Allocate al l (ctx 1%nat) (ctx 2%nat) with
      | (al', l', Err e) => (b, al', l', Err e)
      | (al', l', Ok raw) =>
          if raw =? 0 then (set_state b StateFailed, al', l', Err [base_ErrInvalidID]) else (b, al', l', Ok raw)
      end
  end.

Definition putLocked (b : Batch) (al : IdAlloc.Allocator) (l : L) (ctx : option goerror) (id : Z) (value : list Z)
    : Batch * L * res unit :=
  match validatePut b id value false with
  | Err e => (b, l, Err e)
  | Ok _ =>
      if negb (IdAlloc.CanUse al id) then (b, l, Err [base_ErrInvalidID])
      else match ctx with
      | Some e => (b, l, Err e)
      | None =>
          match EncodePut (mkPut (ba_id b) id value) (MaxValueSize (ba_limits b)) with
          | Err e => (b, l, Err e)
          | Ok payload =>
              match log_append l payload false with
              | (l', Err e) => (set_state b StateFailed, l', Err e)
              | (l', Ok result) =>
                  match AppendResult_Ref result with
                  | Err _ => (set_state b StateFailed, l', Err [base_ErrCorrupt])
                  | Ok ref =>
                      (set_mutation b id (mkBMutation id OpPut ref (len value)) (ba_appendedBytes b + len value),
                       l', Ok tt)
                  end
              end
          end
      end
  end.

Definition Allocate (b : Batch) (al : IdAlloc.Allocator) (l : L) (ctx : Ctx) : Batch * IdAlloc.Allocator * L * res Z :=
  match requireOpen b with
  | Some e => (b, al, l, Err e)
  | None => allocateLocked b al l ctx
  end.

(** Returns the id also when the append fails, as the source does. *)
Definition Create (b : Batch) (al : IdAlloc.Allocator) (l : L) (ctx : Ctx) (value : list Z)
    : Batch * IdAlloc.Allocator * L * (Z * res unit) :=
  match requireOpen b with
  | Some e => (b, al, l, (0, Err e))
  | None =>
      match validatePut b 0 value true with
      | Err e => (b, al, l, (0, Err e))
      | Ok _ =>
          match allocateLocked b al l ctx with
          | (b', al', l', Err e) => (b', al', l', (0, Err e))
          | (b', al', l', Ok id) =>
              let '(b'', l'', r) := putLocked b' al' l' (ctx 3%nat) id value in (b'', al', l'', (id, r))
          end
      end
  end.

Definition Put (b : Batch) (al : IdAlloc.Allocator) (l : L) (ctx : Ctx) (id : Z) (value : list Z) : Batch * L * res unit :=
  match requireOpen b with
  | Some e => (b, l, Err e)
  | None => putLocked b al l (ctx 0%nat) id value
  end.

Definition CompareAndPut (b : Batch) (al : IdAlloc.Allocator) (l : L) (ctx : Ctx) (id expected : Z) (value : list Z)
    : Batch * L * res unit :=
  match requireOpen b with
  | Some e => (b, l, Err e)
  | None =>
      let condition := mkCondition id expected in
      match validateCondition b condition with
      | (b', Err e) => (b', l, Err e)
      | (b', Ok _) =>
          match putLocked b' al l (ctx 0%nat) id value with
          | (b'', l', Err e) => (b'', l', Err e)
          | (b'', l', Ok _) => (set_condition b'' condition, l', Ok tt)
          end
      end
  end.

(** ** The invariant *)

Definition mutation_wf (limits : Limits) (m : BMutation) : Prop :=
  (bm_Operation m = OpPut /\ RecordRef_Valid (bm_Ref m) = true /\ 0 <= bm_ValueBytes m <= MaxValueSize limits) \/
  (bm_Operation m = OpDelete /\ bm_Ref m = zeroRef /\ bm_ValueBytes m = 0).

Definition condition_wf (c : Condition) : Prop :=
  co_ExpectedAddr c = 0 \/ VAddr_Valid (co_ExpectedAddr c) = true.

(** The value bytes of the staged mutations. *)
Definition staged_bytes (ms : gmap Z BMutation) : Z := map_fold (fun _ m acc => bm_ValueBytes m + acc) 0 ms.

Definition terminal (s : State) : bool :=
  match s with StateCommitted | StateAborted | StateCommitUnknown => true | _ => false end.

Record batch_ok (b : Batch) : Prop := mkBatchOk {
  bo_id : ba_id b <> 0;
  bo_limits : ValidateLimits (ba_limits b) = true /\ MaxBatchBytes (ba_limits b) <= MaxUint64;
  bo_mutations : forall id m, ba_mutations b !! id = Some m ->
    bm_RecordID m = id /\ id <> 0 /\ mutation_wf (ba_limits b) m;
  bo_conditions : forall id c, ba_conditions b !! id = Some c ->
    co_RecordID c = id /\ id <> 0 /\ condition_wf c;
  bo_sizes : gmap_len (ba_mutations b) <= MaxBatchMutations (ba_limits b) /\
    gmap_len (ba_conditions b) <= MaxBatchConditions (ba_limits b);
  bo_bytes : staged_bytes (ba_mutations b) <= ba_appendedBytes b <= MaxBatchBytes (ba_limits b);
  bo_terminal : terminal (ba_state b) = true -> ba_mutations b = ∅ /\ ba_conditions b = ∅;
}.

(** [payload] is the content of a record of the log at [ref]. *)
Definition stored (l : L) (ref : RecordRef) (payload : list Z) : Prop :=
  exists r, (r, payload) ∈ log_records l /\ AppendResult_Ref r = Ok ref.

(** Every staged Put refers to a log record that holds this batch's value. *)
Definition staged (b : Batch) (l : L) : Prop :=
  forall id m, ba_mutations b !! id = Some m -> bm_Operation m = OpPut ->
    exists payload value, stored l (bm_Ref m) payload /\
      EncodePut (mkPut (ba_id b) id value) (MaxValueSize (ba_limits b)) = Ok payload /\
      len value = bm_ValueBytes m.

(** The transitions of the state machine. *)
Definition next_state (s s' : State) : bool :=
  match s, s' with
  | StateOpen, (StateOpen | StateCommitting | StateFailed | StateAborted) => true
  | StateCommitting, (StateCommitting | StateCommitted | StateAborted | StateCommitUnknown) => true
  | StateFailed, (StateFailed | StateAborted) => true
  | _, _ => bool_decide (s = s')
  end.

Definition extends (l l' : L) : Prop := exists ys, log_records l' = log_records l ++ ys.

Record step_ok (b : Batch) (l : L) (b' : Batch) (l' : L) : Prop := mkStepOk {
  so_ok : batch_ok b -> batch_ok b';
  so_staged : staged b l -> staged b' l';
  so_next : next_state (ba_state b) (ba_state b') = true;
  so_same : ba_id b' = ba_id b /\ ba_limits b' = ba_limits b;
  so_log : extends l l';
}.

Lemma extends_refl l : extends l l.
Proof. exists []. now rewrite app_nil_r. Qed.

Lemma extends_append l p s l' r : log_append l p s = (l', r) -> extends l l'.
Proof. intros E. apply append_extends in E as [E|[a E]]; [exists []; now rewrite app_nil_r | eexists; exact E]. Qed.

Lemma stored_extends l l' ref p : extends l l' -> stored l ref p -> stored l' ref p.
Proof. intros [ys E] (r & Hin & Hr). exists r. split; [|exact Hr]. rewrite E. apply elem_of_app. now left. Qed.

Lemma staged_extends b l l' : extends l l' -> staged b l -> staged b l'.
Proof.
  intros He Hs id m Hm Hp. destruct (Hs id m Hm Hp) as (p & v & Hst & ?). exists p, v.
  split; [eapply stored_extends; eauto | assumption].
Qed.

Lemma step_ok_refl b l l' : extends l l' -> step_ok b l b l'.
Proof.
  intros He. constructor; auto; [now apply staged_extends|].
  destruct (ba_state b); reflexivity.
Qed.

Lemma step_ok_trans b l b1 l1 b2 l2 :
  next_state (ba_state b) (ba_state b2) = true ->
  step_ok b l b1 l1 -> step_ok b1 l1 b2 l2 -> step_ok b l b2 l2.
Proof.
  intros Hn [O1 S1 N1 [I1 L1] [y1 E1]] [O2 S2 N2 [I2 L2] [y2 E2]]. constructor; auto.
  - split; congruence.
  - exists (y1 ++ y2). now rewrite E2, E1, app_assoc.
Qed.

(** Moving between states without staged data, or clearing it. *)
Lemma step_ok_state b l l' s : extends l l' -> next_state (ba_state b) s = true -> terminal s = false ->
  step_ok b l (set_state b s) l'.
Proof.
  intros He Hn Ht. constructor; auto; [|now apply (staged_extends b)].
  intros [H1 H2 H3 H4 H5 H6 H7]. constructor; cbn; auto. congruence.
Qed.

Lemma staged_bytes_nonneg limits ms :
  (forall id m, ms !! id = Some m -> bm_RecordID m = id /\ id <> 0 /\ mutation_wf limits m) -> 0 <= staged_bytes ms.
Proof.
  unfold staged_bytes. induction ms as [|id m ms Hn IH] using map_ind; [intros _; now rewrite map_fold_empty|].
  intros Hw. rewrite map_fold_insert_L; [|intros; lia|exact Hn].
  destruct (Hw id m (lookup_insert_eq _ _ _)) as (_ & _ & Hm).
  assert (0 <= map_fold (fun _ m acc => bm_ValueBytes m + acc) 0 ms).
  { apply IH. intros i x Hi. apply Hw. rewrite lookup_insert_ne; [exact Hi|]. intros ->. congruence. }
  unfold mutation_wf in Hm. lia.
Qed.

Lemma step_ok_clear b l l' s seq : extends l l' -> next_state (ba_state b) s = true ->
  step_ok b l (mkBatch (ba_id b) s (ba_limits b) ∅ ∅ (ba_appendedBytes b) seq) l'.
Proof.
  intros He Hn. constructor; cbn; auto.
  - intros [H1 H2 H3 H4 H5 H6 H7]. pose proof (staged_bytes_nonneg _ _ H3).
    constructor; cbn; auto; try (intros id x; rewrite lookup_empty; discriminate).
    + unfold gmap_len in *. rewrite !map_size_empty. lia.
    + unfold staged_bytes at 1. rewrite map_fold_empty. lia.
  - intros _ id m. cbn. rewrite lookup_empty. discriminate.
Qed.

Lemma staged_bytes_insert ms id m :
  staged_bytes (<[id := m]> ms) =
    bm_ValueBytes m + staged_bytes ms - match ms !! id with Some m' => bm_ValueBytes m' | None => 0 end.
Proof.
  unfold staged_bytes. destruct (ms !! id) as [m'|] eqn:E.
  - rewrite <- (insert_delete_id ms id m' E) at 2. rewrite <- insert_delete_eq.
    rewrite !map_fold_insert_L; [lia|intros; lia|apply lookup_delete_eq|intros; lia|apply lookup_delete_eq].
  - rewrite map_fold_insert_L; [lia|intros; lia|exact E].
Qed.

Lemma gmap_len_insert {A} (m : gmap Z A) id x n :
  gmap_len m <= n -> bool_decide (m !! id = None) && (gmap_len m =? n) = false -> gmap_len (<[id := x]> m) <= n.
Proof.
  intros Hle Hg. unfold gmap_len in *. rewrite map_size_insert. destruct (m !! id) eqn:E; [exact Hle|].
  rewrite bool_decide_eq_true_2 in Hg by reflexivity. cbn in Hg. bool_norm. lia.
Qed.

Lemma step_ok_mutation b l l' id m appended :
  ba_state b = StateOpen -> extends l l' -> bm_RecordID m = id -> id <> 0 -> mutation_wf (ba_limits b) m ->
  bool_decide (ba_mutations b !! id = None) && (gmap_len (ba_mutations b) =? MaxBatchMutations (ba_limits b)) = false ->
  ba_appendedBytes b + bm_ValueBytes m <= appended <= MaxBatchBytes (ba_limits b) \/
    (batch_ok b -> ba_appendedBytes b + bm_ValueBytes m <= appended <= MaxBatchBytes (ba_limits b)) ->
  (bm_Operation m = OpPut -> exists payload value, stored l' (bm_Ref m) payload /\
      EncodePut (mkPut (ba_id b) id value) (MaxValueSize (ba_limits b)) = Ok payload /\
      len value = bm_ValueBytes m) ->
  step_ok b l (set_mutation b id m appended) l'.
Proof.
  intros Ho He Hid H0 Hw Hg Hb Hst. constructor; auto; cbn [ba_state set_mutation]; [| |now rewrite Ho].
  - intros Hok. assert (Hb' : ba_appendedBytes b + bm_ValueBytes m <= appended <= MaxBatchBytes (ba_limits b)) by (destruct Hb; auto).
    destruct Hok as [H1 H2 H3 H4 [H5 H5'] H6 H7]. constructor; cbn; auto.
    + intros i x [[<- <-]|[_ Hx]]%lookup_insert_Some; [auto | now apply H3].
    + split; [now apply gmap_len_insert | exact H5'].
    + rewrite staged_bytes_insert. assert (0 <= match ba_mutations b !! id with Some m' => bm_ValueBytes m' | None => 0 end).
      { destruct (ba_mutations b !! id) as [m'|] eqn:E; [|lia]. apply H3 in E as (_ & _ & Hm').
        unfold mutation_wf in Hm'. lia. }
      lia.
    + rewrite Ho. discriminate.
  - intros Hs i x. cbn [ba_mutations set_mutation ba_id ba_limits].
    intros [[<- <-]|[_ Hx]]%lookup_insert_Some Hp; [auto|].
    destruct (Hs i x Hx Hp) as (p & v & Hstd & ?). exists p, v. split; [eapply stored_extends; eauto|assumption].
Qed.

Lemma step_ok_condition b l c :
  ba_state b = StateOpen -> co_RecordID c <> 0 -> condition_wf c ->
  bool_decide (ba_conditions b !! co_RecordID c = None) && (gmap_len (ba_conditions b) =? MaxBatchConditions (ba_limits b)) = false ->
  step_ok b l (set_condition b c) l.
Proof.
  intros Ho H0 Hw Hg. constructor; auto; cbn [ba_state set_condition]; [|now rewrite Ho|apply extends_refl].
  intros [H1 H2 H3 H4 [H5 H5'] H6 H7]. constructor; cbn; auto.
  - intros i x [[<- <-]|[_ Hx]]%lookup_insert_Some; [auto | now apply H4].
  - split; [exact H5|]. now apply gmap_len_insert.
  - rewrite Ho. discriminate.
Qed.

(** *** The operations *)

Lemma requireOpen_None b : requireOpen b = None -> ba_state b = StateOpen.
Proof. unfold requireOpen, stateError. destruct (ba_state b); try discriminate. reflexivity. Qed.

Lemma deleteLocked_step b l id b' r : ba_state b = StateOpen -> deleteLocked b id = (b', r) ->
  step_ok b l b' l /\ ba_state b' = StateOpen /\ ba_conditions b' = ba_conditions b.
Proof.
  intros Ho E. unfold deleteLocked in E.
  destruct (id =? 0) eqn:E0; [injection E as <- <-; split; [apply step_ok_refl, extends_refl|auto]|].
  destruct (_ && _) eqn:Eg; injection E as <- <-; (split; [|auto]); [apply step_ok_refl, extends_refl|].
  bool_norm. apply step_ok_mutation; [exact Ho|apply extends_refl|reflexivity|exact E0|right; cbn; auto|exact Eg| |discriminate].
  right. intros [_ _ H3 _ _ H6 _]. cbn. lia.
Qed.

Lemma validateCondition_step b l c b' r : ba_state b = StateOpen -> validateCondition b c = (b', r) ->
  step_ok b l b' l /\
  (is_ok r = true -> b' = b /\ co_RecordID c <> 0 /\ condition_wf c /\
     bool_decide (ba_conditions b !! co_RecordID c = None) &&
       (gmap_len (ba_conditions b) =? MaxBatchConditions (ba_limits b)) = false).
Proof.
  intros Ho E. unfold validateCondition in E.
  destruct (co_RecordID c =? 0) eqn:E0; [injection E as <- <-; split; [apply step_ok_refl, extends_refl|discriminate]|].
  destruct (_ && _) eqn:Ev; [injection E as <- <-; split; [apply step_ok_refl, extends_refl|discriminate]|].
  assert (Hw : condition_wf c).
  { apply andb_false_iff in Ev as [Ev|Ev]; bool_norm; [now left | now right]. }
  bool_norm. destruct (ba_conditions b !! co_RecordID c) as [old|] eqn:El.
  - destruct (bool_decide (old = c)); injection E as <- <-.
    + split; [apply step_ok_refl, extends_refl|auto].
    + split; [|discriminate]. apply step_ok_state; [apply extends_refl|now rewrite Ho|reflexivity].
  - destruct (gmap_len _ =? _) eqn:Eg; injection E as <- <-; split; try apply step_ok_refl, extends_refl; [discriminate|].
    intros _. repeat split; auto.
Qed.

Lemma putLocked_step b al l ctx id value b' l' r : ba_state b = StateOpen ->
  putLocked b al l ctx id value = (b', l', r) ->
  step_ok b l b' l' /\ (is_ok r = true -> ba_state b' = StateOpen /\ ba_conditions b' = ba_conditions b).
Proof.
  intros Ho E. unfold putLocked in E.
  pose proof (extends_refl l) as Hr. pose proof (step_ok_refl b l l Hr) as Hsame.
  destruct (validatePut b id value false) as [[]|e] eqn:Ev; [|injection E as <- <- <-; split; [auto|discriminate]].
  destruct (negb (IdAlloc.CanUse al id)); [injection E as <- <- <-; split; [auto|discriminate]|].
  destruct ctx as [e|]; [injection E as <- <- <-; split; [auto|discriminate]|].
  destruct (EncodePut _ _) as [payload|e] eqn:Ep; [|injection E as <- <- <-; split; [auto|discriminate]].
  destruct (log_append l payload false) as [l1 [res|e]] eqn:El.
  2:{ injection E as <- <- <-. split; [|discriminate]. apply step_ok_state; [now apply extends_append in El|now rewrite Ho|reflexivity]. }
  pose proof (extends_append _ _ _ _ _ El) as He. apply append_ok in El as (Erec & _).
  destruct (AppendResult_Ref res) as [ref|e] eqn:Er; injection E as <- <- <-.
  2:{ split; [|discriminate]. apply step_ok_state; [exact He|now rewrite Ho|reflexivity]. }
  split; [|cbn; auto]. unfold validatePut in Ev. inv_ok Ev. bool_norm. pose proof (len_nonneg value).
  assert (Hv : RecordRef_Valid ref = true).
  { unfold AppendResult_Ref in Er. inv_ok Er. unfold NewRecordRef in Er. inv_ok Er. apply Ok_inj in Er as <-.
    bool_norm. assumption. }
  cbn [negb andb] in *. bool_norm.
  apply step_ok_mutation; [exact Ho|exact He|reflexivity|assumption| |assumption| |].
  - left. cbn. repeat split; auto; lia.
  - left. cbn. lia.
  - intros _. exists payload, value. cbn. split; [|auto]. exists res. split; [|exact Er].
    rewrite Erec. apply elem_of_app. right. now constructor.
Qed.

Lemma allocateLocked_step b al l ctx b' al' l' r : ba_state b = StateOpen ->
  allocateLocked b al l ctx = (b', al', l', r) ->
  step_ok b l b' l' /\ (is_ok r = true -> b' = b).
Proof.
  intros Ho E. unfold allocateLocked in E.
  destruct (ctx 0%nat) as [e|]; [injection E as <- <- <- <-; split; [apply step_ok_refl, extends_refl|discriminate]|].
  assert (He : forall a k x, IdAlloc.Allocate al l (ctx 1%nat) (ctx 2%nat) = (a, k, x) -> extends l k).
  { intros a k x. unfold IdAlloc.Allocate, IdAlloc.reserveRange.
    destruct (ctx 1%nat), (ctx 2%nat); try (intros Ea; injection Ea as <- <- <-; apply extends_refl).
    destruct (_ =? _); [|intros Ea; injection Ea as <- <- <-; apply extends_refl].
    destruct (_ <? _); [intros Ea; injection Ea as <- <- <-; apply extends_refl|].
    destruct (EncodeReserve _ _) as [p|]; [|intros Ea; injection Ea as <- <- <-; apply extends_refl].
    destruct (log_append l p true) as [l1 [?|?]] eqn:El; intros Ea; injection Ea as <- <- <-;
      now apply extends_append in El. }
  destruct (IdAlloc.Allocate al l (ctx 1%nat) (ctx 2%nat)) as [[a k] [raw|e]] eqn:Ea; specialize (He _ _ _ eq_refl).
  - destruct (raw =? 0); injection E as <- <- <- <-.
    + split; [|discriminate]. apply step_ok_state; [exact He|now rewrite Ho|reflexivity].
    + split; [now apply step_ok_refl|auto].
  - injection E as <- <- <- <-. split; [now apply step_ok_refl|discriminate].
Qed.

(** ** Any sequence of operations on one batch *)

(** [(batch, log)] steps.  The allocator and the records of other clients are
    the environment's: any allocator state, any extension of the log. *)
Inductive batch_step : Batch * L -> Batch * L -> Prop :=
| bs_environment b l l' : extends l l' -> batch_step (b, l) (b, l')
| bs_allocate b al l ctx b' al' l' r : Allocate b al l ctx = (b', al', l', r) -> batch_step (b, l) (b', l')
| bs_create b al l ctx value b' al' l' r : Create b al l ctx value = (b', al', l', r) -> batch_step (b, l) (b', l')
| bs_put b al l ctx id value b' l' r : Put b al l ctx id value = (b', l', r) -> batch_step (b, l) (b', l')
| bs_compare_put b al l ctx id expected value b' l' r :
    CompareAndPut b al l ctx id expected value = (b', l', r) -> batch_step (b, l) (b', l')
| bs_delete b l id b' r : Delete b id = (b', r) -> batch_step (b, l) (b', l)
| bs_compare_delete b l id expected b' r : CompareAndDelete b id expected = (b', r) -> batch_step (b, l) (b', l)
| bs_condition b l c b' r : addCondition b c = (b', r) -> batch_step (b, l) (b', l)
| bs_rewrite b l redirects b' n :
    (forall old new payload, redirects !! Addr old = Some new -> stored l old payload -> stored l new payload) ->
    (forall old new, redirects !! old = Some new -> RecordRef_Valid new = true) ->
    RewritePutRefs b redirects = (b', n) -> batch_step (b, l) (b', l)
| bs_prepare b l b' r : Prepare b = (b', r) -> batch_step (b, l) (b', l)
| bs_abort b l reason b' l' r : Abort b l reason = (b', l', r) -> batch_step (b, l) (b', l')
| bs_committed b l seq b' r : MarkCommitted b seq = (b', r) -> batch_step (b, l) (b', l)
| bs_aborted b l b' r : MarkAborted b = (b', r) -> batch_step (b, l) (b', l)
| bs_unknown b l b' r : MarkCommitUnknown b = (b', r) -> batch_step (b, l) (b', l).

Lemma redirect_mutation_wf limits redirects m :
  (forall old new, redirects !! old = Some new -> RecordRef_Valid new = true) ->
  mutation_wf limits m -> mutation_wf limits (redirect_mutation redirects m).
Proof.
  intros Hr Hw. unfold redirect_mutation. destruct (bm_Operation m =? OpPut) eqn:E; cbn [negb]; [|exact Hw].
  destruct (redirects !! Addr (bm_Ref m)) as [new|] eqn:El; [|exact Hw]. bool_norm. left. cbn.
  split; [exact E|]. split; [eauto|]. destruct Hw as [(_ & _ & ?)|(E' & _)]; [assumption|]. rewrite E in E'. discriminate.
Qed.

Lemma redirect_same redirects m :
  bm_RecordID (redirect_mutation redirects m) = bm_RecordID m /\
  bm_Operation (redirect_mutation redirects m) = bm_Operation m /\
  bm_ValueBytes (redirect_mutation redirects m) = bm_ValueBytes m.
Proof.
  unfold redirect_mutation. destruct (negb _); [auto|]. destruct (redirects !! _); auto.
Qed.

Lemma staged_bytes_fmap redirects ms : staged_bytes (redirect_mutation redirects <$> ms) = staged_bytes ms.
Proof.
  induction ms as [|id m ms Hn IH] using map_ind; [now rewrite fmap_empty|].
  rewrite fmap_insert, !staged_bytes_insert, lookup_fmap, Hn, IH. cbn.
  destruct (redirect_same redirects m) as (_ & _ & ->). reflexivity.
Qed.

Lemma RewritePutRefs_step b l redirects b' n :
  (forall old new payload, redirects !! Addr old = Some new -> stored l old payload -> stored l new payload) ->
  (forall old new, redirects !! old = Some new -> RecordRef_Valid new = true) ->
  RewritePutRefs b redirects = (b', n) -> step_ok b l b' l.
Proof.
  intros Hst Hv E. unfold RewritePutRefs in E.
  destruct (bool_decide _); [injection E as <- <-; apply step_ok_refl, extends_refl|].
  destruct (ba_state b) eqn:Es; injection E as <- <-; try apply step_ok_refl, extends_refl.
  constructor; cbn; auto; [| |now rewrite Es|apply extends_refl].
  - intros [H1 H2 H3 H4 H5 H6 H7]. constructor; cbn; auto; [| |now rewrite staged_bytes_fmap|discriminate].
    + intros id m. rewrite lookup_fmap. destruct (ba_mutations b !! id) as [m0|] eqn:Em; [|discriminate].
      cbn. intros [= <-]. apply H3 in Em as (E1 & E2 & E3). destruct (redirect_same redirects m0) as (-> & _).
      auto using redirect_mutation_wf.
    + unfold gmap_len in *. rewrite map_size_fmap. exact H5.
  - intros Hs id m. cbn [ba_mutations ba_id ba_limits]. rewrite lookup_fmap.
    destruct (ba_mutations b !! id) as [m0|] eqn:Em; [|discriminate]. cbn. intros [= <-] Hp.
    destruct (redirect_same redirects m0) as (_ & Eop & Evb). rewrite Eop in Hp. rewrite Evb.
    destruct (Hs id m0 Em Hp) as (p & v & Hstd & Henc & Hlen). exists p, v. split; [|auto].
    unfold redirect_mutation. rewrite Hp. cbn [negb Z.eqb OpPut].
    destruct (redirects !! Addr (bm_Ref m0)) as [new|] eqn:El; cbn; eauto.
Qed.

Lemma next_state_refl s : next_state s s = true.
Proof. destruct s; reflexivity. Qed.

(** A guarded operation: closed batches are left alone. *)
Lemma compare_step b l l1 b1 b2 c : ba_state b = StateOpen -> ba_state b1 = StateOpen ->
  ba_conditions b1 = ba_conditions b -> step_ok b l b1 l1 ->
  co_RecordID c <> 0 -> condition_wf c ->
  bool_decide (ba_conditions b !! co_RecordID c = None) && (gmap_len (ba_conditions b) =? MaxBatchConditions (ba_limits b)) = false ->
  b2 = set_condition b1 c -> step_ok b l b2 l1.
Proof.
  intros Ho Ho1 Hc Hs H0 Hw Hg ->. eapply step_ok_trans; [|exact Hs|].
  - cbn. now rewrite Ho, Ho1.
  - pose proof (so_same _ _ _ _ Hs) as [_ Hl]. apply step_ok_condition; auto. now rewrite Hc, Hl.
Qed.

Lemma CompareAndDelete_step b l id expected b' r : CompareAndDelete b id expected = (b', r) -> step_ok b l b' l.
Proof.
  unfold CompareAndDelete. destruct (requireOpen b) as [e|] eqn:Ho.
  { intros E. injection E as <- <-. apply step_ok_refl, extends_refl. }
  apply requireOpen_None in Ho. destruct (validateCondition b _) as [b1 [[]|e]] eqn:Ev;
    destruct (validateCondition_step b l _ _ _ Ho Ev) as [Hs Hok].
  - destruct (Hok eq_refl) as (-> & H0 & Hw & Hg).
    destruct (deleteLocked b id) as [b2 [[]|e]] eqn:Ed;
      destruct (deleteLocked_step b l id _ _ Ho Ed) as (Hs2 & Ho2 & Hc2); intros E; injection E as <- <-; [|exact Hs2].
    eapply (compare_step b l l b2); eauto.
  - intros E. injection E as <- <-. exact Hs.
Qed.

Lemma CompareAndPut_step b al l ctx id expected value b' l' r :
  CompareAndPut b al l ctx id expected value = (b', l', r) -> step_ok b l b' l'.
Proof.
  unfold CompareAndPut. destruct (requireOpen b) as [e|] eqn:Ho.
  { intros E. injection E as <- <- <-. apply step_ok_refl, extends_refl. }
  apply requireOpen_None in Ho. destruct (validateCondition b _) as [b1 [[]|e]] eqn:Ev;
    destruct (validateCondition_step b l _ _ _ Ho Ev) as [Hs Hok].
  - destruct (Hok eq_refl) as (-> & H0 & Hw & Hg).
    destruct (putLocked b al l (ctx 0%nat) id value) as [[b2 l2] [[]|e]] eqn:Ed;
      destruct (putLocked_step b al l _ id value _ _ _ Ho Ed) as [Hs2 Hok2]; intros E; injection E as <- <- <-; [|exact Hs2].
    destruct (Hok2 eq_refl) as [Ho2 Hc2]. eapply (compare_step b l l2 b2); eauto.
  - intros E. injection E as <- <- <-. exact Hs.
Qed.

Lemma Create_step b al l ctx value b' al' l' r : Create b al l ctx value = (b', al', l', r) -> step_ok b l b' l'.
Proof.
  unfold Create. destruct (requireOpen b) as [e|] eqn:Ho.
  { intros E. injection E as <- <- <- <-. apply step_ok_refl, extends_refl. }
  apply requireOpen_None in Ho. destruct (validatePut b 0 value true).
  2:{ intros E. injection E as <- <- <- <-. apply step_ok_refl, extends_refl. }
  destruct (allocateLocked b al l ctx) as [[[b1 al1] l1] [id|e]] eqn:Ea;
    destruct (allocateLocked_step b al l ctx _ _ _ _ Ho Ea) as [Hs Hok].
  - rewrite (Hok eq_refl) in *. destruct (putLocked b al1 l1 (ctx 3%nat) id value) as [[b2 l2] r2] eqn:Ep.
    destruct (putLocked_step b al1 l1 _ id value _ _ _ Ho Ep) as [Hs2 _].
    intros E. injection E as <- <- <- <-. eapply step_ok_trans; [apply (so_next _ _ _ _ Hs2)|exact Hs|exact Hs2].
  - intros E. injection E as <- <- <- <-. exact Hs.
Qed.

Lemma markTerminal_step b l s b' r : next_state StateCommitting s = true -> markTerminal b s = (b', r) -> step_ok b l b' l.
Proof.
  intros Hn. unfold markTerminal. destruct (ba_state b) eqn:Es; intros E; injection E as <- <-;
    try apply step_ok_refl, extends_refl.
  apply (step_ok_clear b l l s (ba_commitSeq b)); [apply extends_refl|now rewrite Es].
Qed.

Lemma batch_step_ok b l b' l' : batch_step (b, l) (b', l') -> step_ok b l b' l'.
Proof.
  intros Hs. pose proof (extends_refl l) as Hr. inversion Hs as
    [? ? ? He|? al ? ctx ? al' ? r E|? al ? ctx value ? al' ? r E|? al ? ctx id value ? ? r E
    |? al ? ctx id expected value ? ? r E|? ? id ? r E|? ? id expected ? r E|? ? c ? r E
    |? ? redirects ? n Hst Hv E|? ? ? r E|? ? reason ? ? r E|? ? seq ? r E|? ? ? r E|? ? ? r E]; subst.
  - now apply step_ok_refl.
  - unfold Allocate in E. destruct (requireOpen b) eqn:Ho; [injection E as <- <- <- <-; now apply step_ok_refl|].
    apply requireOpen_None in Ho. exact (proj1 (allocateLocked_step b al l ctx _ _ _ r Ho E)).
  - eapply Create_step; eauto.
  - unfold Put in E. destruct (requireOpen b) eqn:Ho; [injection E as <- <- <-; now apply step_ok_refl|].
    apply requireOpen_None in Ho. exact (proj1 (putLocked_step b al l _ id value _ _ r Ho E)).
  - eapply CompareAndPut_step; eauto.
  - unfold Delete in E. destruct (requireOpen b) eqn:Ho; [injection E as <- <-; now apply step_ok_refl|].
    apply requireOpen_None in Ho. exact (proj1 (deleteLocked_step b l' id _ r Ho E)).
  - eapply CompareAndDelete_step; eauto.
  - unfold addCondition in E. destruct (requireOpen b) eqn:Ho; [injection E as <- <-; now apply step_ok_refl|].
    apply requireOpen_None in Ho. destruct (validateCondition b c) as [b1 [[]|e]] eqn:Ev;
      destruct (validateCondition_step b l' c _ _ Ho Ev) as [Hs1 Hok]; injection E as <- <-; [|exact Hs1].
    destruct (Hok eq_refl) as (-> & H0 & Hw & Hg). now apply step_ok_condition.
  - eapply RewritePutRefs_step; eauto.
  - unfold Prepare in E. destruct (requireOpen b) eqn:Ho; [injection E as <- <-; now apply step_ok_refl|].
    apply requireOpen_None in Ho. destruct (payload_sum _ _); injection E as <- <-;
      (apply step_ok_state; [exact Hr|now rewrite Ho|reflexivity]).
  - unfold Abort in E. destruct (ba_state b) eqn:Es; try (injection E as <- <- <-; now apply step_ok_refl);
      (destruct (EncodeAbort _) as [p|]; [|injection E as <- <- <-; now apply step_ok_refl];
       destruct (log_append l p false) as [l1 r1] eqn:El; injection E as <- <- <-;
       apply (step_ok_clear b l l1 StateAborted (ba_commitSeq b)); [now apply extends_append in El|now rewrite Es]).
  - unfold MarkCommitted in E. destruct (seq =? 0); [injection E as <- <-; now apply step_ok_refl|].
    destruct (ba_state b) eqn:Es; injection E as <- <-; try now apply step_ok_refl.
    apply step_ok_clear; [exact Hr|now rewrite Es].
  - now apply (markTerminal_step b l' StateAborted _ r).
  - now apply (markTerminal_step b l' StateCommitUnknown _ r).
Qed.

Definition limits_u (limits : Limits) : Prop :=
  is_u64 (MaxValueSize limits) /\ is_u64 (MaxBatchBytes limits) /\
  is_u64 (MaxBatchMutations limits) /\ is_u64 (MaxBatchConditions limits).

Lemma New_ok id limits b l : limits_u limits -> New id limits = Ok b ->
  batch_ok b /\ staged b l /\ ba_state b = StateOpen /\ ba_id b = id /\ ba_limits b = limits.
Proof.
  intros (H1 & H2 & H3 & H4) E. unfold New in E. inv_ok E. apply Ok_inj in E as <-. unfold is_u64 in *. bool_norm.
  split; [|split; [intros i m; cbn; rewrite lookup_empty; discriminate | auto]].
  constructor; cbn; auto; try (intros i x; rewrite lookup_empty; discriminate); try discriminate.
  - split; [assumption|lia].
  - unfold gmap_len. rewrite !map_size_empty. lia.
  - unfold staged_bytes. rewrite map_fold_empty. lia.
Qed.

Lemma batch_steps_ok b l b' l' : rtc batch_step (b, l) (b', l') ->
  batch_ok b -> staged b l -> batch_ok b' /\ staged b' l' /\ ba_id b' = ba_id b /\ ba_limits b' = ba_limits b.
Proof.
  intros Hr. remember (b, l) as x eqn:Ex. remember (b', l') as y eqn:Ey. revert b l b' l' Ex Ey.
  induction Hr as [x|x [b1 l1] z Hxy _ IH]; intros b l b' l' -> Ey Hb Hs.
  { injection Ey as <- <-. auto. }
  apply batch_step_ok in Hxy as [Ho Hst _ [Hi Hl] _].
  destruct (IH b1 l1 b' l' eq_refl Ey (Ho Hb) (Hst Hs)) as (? & ? & ? & ?).
  split; [assumption|]. split; [assumption|]. split; congruence.
Qed.

(** ** What Prepare produces *)

Lemma payload_sum_total ms : Forall (fun m => 0 <= bm_ValueBytes m) ms -> forall t,
  t + foldr (fun m acc => bm_ValueBytes m + acc) 0 ms <= MaxUint64 -> exists total, payload_sum t ms = Some total.
Proof.
  induction 1 as [|m ms Hm Hms IH]; intros t Ht; cbn [payload_sum]; [eauto|]. cbn [foldr] in Ht.
  assert (0 <= foldr (fun m acc => bm_ValueBytes m + acc) 0 ms).
  { clear -Hms. induction Hms; cbn; lia. }
  destruct (bm_Operation m =? OpPut); [|apply IH; lia].
  replace (MaxUint64 - bm_ValueBytes m <? t) with false by (symmetry; apply Z.ltb_ge; lia). apply IH. lia.
Qed.

Lemma staged_bytes_list ms : staged_bytes ms = foldr (fun m acc => bm_ValueBytes m + acc) 0 (map_to_list ms).*2.
Proof. unfold staged_bytes. rewrite map_fold_foldr. induction (map_to_list ms) as [|[i m] l IH]; cbn; [done|]. now rewrite IH. Qed.

Lemma sorted_ids {A} (f : A -> Z) (l : list A) :
  StronglySorted (fun x y => f x <= f y) l -> NoDup (map f l) -> StronglySorted Z.lt (map f l).
Proof.
  induction 1 as [|x l Hs IH Hx]; cbn; intros Hnd; [constructor|].
  apply NoDup_cons in Hnd as [Hni Hnd]. constructor; [now apply IH|].
  apply Forall_map. apply Forall_forall. intros y Hy. rewrite Forall_forall in Hx. specialize (Hx y Hy).
  assert (f x <> f y); [|lia]. intros E. apply Hni. rewrite E. apply list_elem_of_In, in_map, list_elem_of_In, Hy.
Qed.

#[local] Instance by_mutation_trans : Transitive by_mutation.
Proof. intros x y z. unfold by_mutation. lia. Qed.
#[local] Instance by_mutation_total : Total by_mutation.
Proof. intros x y. unfold by_mutation. lia. Qed.
#[local] Instance by_condition_trans : Transitive by_condition.
Proof. intros x y z. unfold by_condition. lia. Qed.
#[local] Instance by_condition_total : Total by_condition.
Proof. intros x y. unfold by_condition. lia. Qed.

(** The values of a map keyed by their own id have distinct ids. *)
Lemma values_NoDup {A} (f : A -> Z) (m : gmap Z A) : (forall id x, m !! id = Some x -> f x = id) ->
  NoDup (map f (map_to_list m).*2).
Proof.
  intros Hf. assert (E : map f (map_to_list m).*2 = (map_to_list m).*1).
  { rewrite <- list_fmap_compose. change (map f) with (fmap (M := list) f).
    assert (H2 : Forall (fun '(i, x) => f x = i) (map_to_list m)).
    { apply Forall_forall. intros [i x] Hin%elem_of_map_to_list. auto. }
    induction H2 as [|[i x] l Hx _ IH]; cbn; [done|]. f_equal; [exact Hx|exact IH]. }
  rewrite E. apply NoDup_fst_map_to_list.
Qed.

Record prepared_of (b : Batch) (p : Prepared) : Prop := mkPreparedOf {
  po_id : pp_BatchID p = ba_id b;
  po_mutations : pp_Mutations p ≡ₚ (map_to_list (ba_mutations b)).*2;
  po_conditions : pp_Conditions p ≡ₚ (map_to_list (ba_conditions b)).*2;
  po_sorted : StronglySorted Z.lt (map bm_RecordID (pp_Mutations p));
  po_valid : validateProposal (Prepared_Proposal p) = true;
}.

Lemma values_elem {A} (m : gmap Z A) x : x ∈ (map_to_list m).*2 -> exists id, m !! id = Some x.
Proof. intros ([id y] & -> & Hin)%list_elem_of_fmap. exists id. now apply elem_of_map_to_list. Qed.

Lemma bm_change_ok limits m : mutation_wf limits m -> change_ok ProposalUserCommit (bm_change m) = true.
Proof.
  unfold change_ok, bm_change. cbn [ch_ExpectedOldAddr ch_Operation ch_NewRef].
  change (ProposalUserCommit =? ProposalUserCommit) with true. cbv iota.
  intros [(-> & -> & _)|(-> & -> & _)]; reflexivity.
Qed.

Lemma Prepare_spec b : batch_ok b -> ba_state b = StateOpen ->
  exists p, Prepare b = (set_state b StateCommitting, Ok p) /\ prepared_of b p.
Proof.
  intros [H1 H2 H3 H4 [H5 H5'] H6 H7] Ho. unfold Prepare, requireOpen. rewrite Ho.
  assert (Hms : Forall (fun m => bm_RecordID m <> 0 /\ mutation_wf (ba_limits b) m) (map_to_list (ba_mutations b)).*2).
  { apply Forall_forall. intros m [id Hm]%values_elem. destruct (H3 id m Hm) as (-> & ? & ?). auto. }
  assert (Hcs : Forall (fun c => co_RecordID c <> 0 /\ condition_wf c) (map_to_list (ba_conditions b)).*2).
  { apply Forall_forall. intros c [id Hc]%values_elem. destruct (H4 id c Hc) as (-> & ? & ?). auto. }
  destruct (payload_sum_total (map_to_list (ba_mutations b)).*2) with (t := 0) as [total ->].
  { eapply Forall_impl; [exact Hms|]. cbn. intros m [_ Hw]. unfold mutation_wf in Hw. lia. }
  { rewrite <- staged_bytes_list. lia. }
  eexists. split; [reflexivity|].
  pose proof (merge_sort_Permutation by_mutation (map_to_list (ba_mutations b)).*2) as Pm.
  pose proof (merge_sort_Permutation by_condition (map_to_list (ba_conditions b)).*2) as Pc.
  assert (Sm : StronglySorted Z.lt (map bm_RecordID (merge_sort by_mutation (map_to_list (ba_mutations b)).*2))).
  { apply sorted_ids; [apply StronglySorted_merge_sort; apply _|].
    rewrite (Permutation_map bm_RecordID Pm). apply values_NoDup. intros id m Hm. now destruct (H3 id m Hm). }
  assert (Sc : StronglySorted Z.lt (map co_RecordID (merge_sort by_condition (map_to_list (ba_conditions b)).*2))).
  { apply sorted_ids; [apply StronglySorted_merge_sort; apply _|].
    rewrite (Permutation_map co_RecordID Pc). apply values_NoDup. intros id c Hc. now destruct (H4 id c Hc). }
  constructor; cbn [pp_BatchID pp_Mutations pp_Conditions]; auto.
  unfold validateProposal. cbn [pr_Kind Prepared_Proposal pr_Conditions pr_Changes pp_Conditions pp_Mutations].
  change (ProposalUserCommit =? ProposalUserCommit) with true. cbn [andb]. apply andb_true_iff. split.
  - apply conditions_ok_intro; [|exact Sc|done]. rewrite Pc. exact Hcs.
  - apply changes_ok_intro; [| |done].
    + rewrite Forall_map. rewrite Pm. eapply Forall_impl; [exact Hms|]. cbn. intros m [? Hw].
      split; [assumption|]. eapply bm_change_ok, Hw.
    + rewrite map_map. exact Sm.
Qed.
End WithLog.

(** A successful Put stages exactly its value and accounts for all its bytes. *)
Lemma Put_stages {L : Type} `{AppendLogLaws L} b al (l : L) ctx rid value b' l' : Put b al l ctx rid value = (b', l', Ok tt) ->
  exists ref, ba_mutations b' = <[rid := mkBMutation rid OpPut ref (len value)]> (ba_mutations b) /\ ba_appendedBytes b' = ba_appendedBytes b + len value.
Proof.
  unfold Put, putLocked. destruct (requireOpen b); [discriminate|]. destruct (validatePut b rid value false); [|discriminate]. destruct (negb _); [discriminate|]. destruct (ctx 0%nat); [discriminate|].
  destruct (EncodePut _ _) as [payload|]; [|discriminate]. destruct (log_append l payload false) as [l1 [r|]]; [|discriminate]. destruct (AppendResult_Ref r) as [ref|]; [|discriminate]. intros E. injection E as <- <-. exists ref. split; reflexivity.
Qed.


(** Committing an open batch always yields a well-formed proposal.  After
    any history of operations on a new batch, if it is still open then [Prepare]
    succeeds; its mutations are exactly the staged ones, strictly ordered by id,
    the proposal passes [validateProposal], its size is within the batch limits,
    and every Put refers to a log record that holds the batch's value for that
    id. *)
Theorem prepared_batch_valid {L : Type} `{AppendLogLaws L} id limits b0 l0 b l :
  limits_u limits -> New id limits = Ok b0 -> rtc batch_step (b0, l0) (b, l) -> ba_state b = StateOpen ->
  exists p, Prepare b = (set_state b StateCommitting, Ok p) /\
    pp_BatchID p = id /\ validateProposal (Prepared_Proposal p) = true /\
    pp_Mutations p ≡ₚ (map_to_list (ba_mutations b)).*2 /\
    len (pp_Mutations p) <= MaxBatchMutations limits /\ len (pp_Conditions p) <= MaxBatchConditions limits /\
    Forall (fun m => bm_Operation m = OpPut -> exists payload value,
      stored l (bm_Ref m) payload /\ len value = bm_ValueBytes m /\
      EncodePut (mkPut id (bm_RecordID m) value) (MaxValueSize limits) = Ok payload) (pp_Mutations p).
Proof.
  intros Hl En Hr Ho. destruct (New_ok id limits b0 l0 Hl En) as (Hb0 & Hs0 & _ & Hid & Hlim).
  destruct (batch_steps_ok _ _ _ _ Hr Hb0 Hs0) as (Hb & Hs & Hi & Hli).
  destruct (Prepare_spec b Hb Ho) as (p & Ep & [P1 P2 P3 P4 P5]).
  exists p. split; [exact Ep|]. split; [congruence|]. split; [exact P5|]. split; [exact P2|].
  assert (Hlm : forall A (m : gmap Z A) (k : list A), k ≡ₚ (map_to_list m).*2 -> len k = gmap_len m).
  { intros A m k Hk. unfold len, gmap_len. rewrite Hk, length_fmap, length_map_to_list. reflexivity. }
  rewrite (Hlm _ _ _ P2), (Hlm _ _ _ P3). destruct (bo_sizes b Hb) as [S1 S2].
  rewrite Hli, Hlim in S1, S2. split; [exact S1|]. split; [exact S2|].
  rewrite P2. apply Forall_forall. intros m [i Hm]%values_elem Hp.
  destruct (bo_mutations b Hb i m Hm) as (Ei & _ & _). destruct (Hs i m Hm Hp) as (pl & v & Hst & He & Hv).
  exists pl, v. rewrite Hi, Hid, Hli, Hlim, <- Ei in He. auto.
Qed.

(** ** A concrete history: stage a Put, a conditional Put and a Delete *)

Definition example_limits : Limits := mkLimits 100 1000 10 10.
Definition example_allocator : IdAlloc.Allocator := IdAlloc.mkAllocator IdAlloc.RecordID 8 5 9.
Definition example_batch : Batch := mkBatch 7 StateOpen example_limits ∅ ∅ 0 0.
Definition no_cancel : Ctx := fun _ => None.

Definition example_b1 : Batch * MemLog * res unit :=
  Put example_batch example_allocator (emptyLog []) no_cancel 2 [1; 2; 3].
Definition example_b2 : Batch * MemLog * res unit :=
  CompareAndPut example_b1.1.1 example_allocator example_b1.1.2 no_cancel 1 0 [9].
Definition example_b3 : Batch * res unit := Delete example_b2.1.1 3.

Lemma example_history : rtc batch_step (example_batch, emptyLog []) (example_b3.1, example_b2.1.2).
Proof.
  eapply rtc_l; [apply (bs_put _ example_allocator _ no_cancel 2 [1; 2; 3] example_b1.1.1 example_b1.1.2 example_b1.2); vm_compute; reflexivity|].
  eapply rtc_l; [apply (bs_compare_put _ example_allocator _ no_cancel 1 0 [9] example_b2.1.1 example_b2.1.2 example_b2.2); vm_compute; reflexivity|].
  eapply rtc_l; [apply (bs_delete _ _ 3 example_b3.1 example_b3.2); vm_compute; reflexivity|]. apply rtc_refl.
Qed.

Lemma prepared_batch_valid_witness :
  exists p, Prepare example_b3.1 = (set_state example_b3.1 StateCommitting, Ok p) /\
    pp_BatchID p = 7 /\ validateProposal (Prepared_Proposal p) = true /\
    pp_Mutations p ≡ₚ (map_to_list (ba_mutations example_b3.1)).*2 /\
    len (pp_Mutations p) <= 10 /\ len (pp_Conditions p) <= 10 /\
    Forall (fun m => bm_Operation m = OpPut -> exists payload value,
      stored example_b2.1.2 (bm_Ref m) payload /\ len value = bm_ValueBytes m /\
      EncodePut (mkPut 7 (bm_RecordID m) value) 100 = Ok payload) (pp_Mutations p).
Proof.
  apply (prepared_batch_valid 7 example_limits example_batch (emptyLog []) example_b3.1 example_b2.1.2).
  - unfold limits_u, example_limits, is_u64. cbn. lia.
  - vm_compute. reflexivity.
  - apply example_history.
  - vm_compute. reflexivity.
Defined.


(** The prepared proposal of the example, sorted by id. *)
Example example_prepared :
  match (Prepare example_b3.1).2 with
  | Ok p => map bm_RecordID (pp_Mutations p) = [1; 2; 3] /\ pp_LogicalPayloadBytes p = 4
  | Err _ => False
  end.
Proof. vm_compute. split; reflexivity. Qed.
