(* ===== verification/IndexIface.v ===== *)
(** * The Index contract

    [mapping.Index] (internal/mapping/mapping.go) is what the coordinator and
    recovery use of the mapping.  [Index] states its operations and [IndexLaws]
    what they promise, in terms of the abstract state [ix_entries] (the visible
    references) and of the reservations a client holds.  [IndexRoom] adds what they
    promise about the bytes of the delta budget.  The in-memory [Mapping], which has
    no budget, is an instance at the end of the file. *)
From S2P Require Import Prelude Addr Mapping Budget.

Class Index (X R : Type) := {
  ix_LookupRef : X -> Z -> res (option RecordRef);
  (** [ReserveDelta]: the reservation or an error, and the pressure generation *)
  ix_ReserveDelta : X -> list Z -> X * (res R * Z);
  ix_Release : X -> R -> X;
  ix_ResolveGroup : X -> list Proposal -> res GroupPlan;
  ix_PublishGroup : X -> Z -> GroupPlan -> list R -> X * res PublishResult;
  ix_Covered : X -> Z;
}.

(** A plan that resolves [ps] in the state [S] at the sequence [base]. *)
Record plan_view (S : Entries) (base : Z) (ps : list Proposal) (plan : GroupPlan) : Prop := mkPlanView {
  pv_base : gp_BaseCommitSeq plan = base;
  pv_apply : apply_plan S (gp_Proposals plan) = spec_group S ps;
  pv_flags : map rp_Accepted (gp_Proposals plan) = spec_flags S ps;
  pv_resolved : Forall2 resolved_of ps (gp_Proposals plan);
}.

Definition changed_ids (p : Proposal) : list Z := map ch_RecordID (pr_Changes p).

Class IndexLaws (X R : Type) `{!Index X R} := {
  ix_ok : X -> Prop;
  ix_entries : X -> Entries;
  (** the reservation [r] suffices to publish a change of these ids *)
  ix_covers : X -> R -> list Z -> Prop;
  (** two reservations are independent *)
  ix_sep : R -> R -> Prop;

  ix_sep_sym r r' : ix_sep r r' -> ix_sep r' r;

  ix_wf x : ix_ok x -> is_u64 (ix_Covered x) /\ entries_ok (ix_entries x) /\ total_bytes (ix_entries x) <= MaxUint64;

  ix_lookup x id : ix_ok x -> 0 < id <= MaxUint64 -> ix_LookupRef x id = Ok (ix_entries x !! id);

  ix_reserve x ids x' r g : ix_ok x -> ix_ReserveDelta x ids = (x', (r, g)) ->
    ix_ok x' /\ ix_entries x' = ix_entries x /\ ix_Covered x' = ix_Covered x /\
    (forall r0 ids0, ix_covers x r0 ids0 -> ix_covers x' r0 ids0) /\
    match r with
    | Ok r => ix_covers x' r ids /\ forall r0 ids0, ix_covers x r0 ids0 -> ix_sep r0 r
    | Err _ => True
    end;

  ix_release x r : ix_ok x ->
    ix_ok (ix_Release x r) /\ ix_entries (ix_Release x r) = ix_entries x /\
    ix_Covered (ix_Release x r) = ix_Covered x /\
    (forall r0 ids0, ix_covers x r0 ids0 -> ix_sep r0 r -> ix_covers (ix_Release x r) r0 ids0);

  ix_resolve x ps : ix_ok x -> group_ok ps -> Forall proposal_u ps ->
    exists plan, ix_ResolveGroup x ps = Ok plan /\ plan_view (ix_entries x) (ix_Covered x) ps plan;

  ix_publish x ps plan rs : ix_ok x -> group_ok ps -> Forall proposal_u ps -> ix_ResolveGroup x ps = Ok plan ->
    Forall2 (fun r p => ix_covers x r (changed_ids p)) rs ps -> ForallOrdPairs ix_sep rs ->
    accepted_of (spec_flags (ix_entries x) ps) <> 0 ->
    ix_Covered x + accepted_of (spec_flags (ix_entries x) ps) <= MaxUint64 ->
    total_bytes (ix_entries x) + group_bytes ps <= MaxUint64 ->
    exists x', ix_PublishGroup x (ix_Covered x + 1) plan rs = (x', Ok (publish_result plan)) /\
      ix_ok x' /\ ix_entries x' = spec_group (ix_entries x) ps /\
      ix_Covered x' = ix_Covered x + accepted_of (spec_flags (ix_entries x) ps) /\
      (forall r0 ids0, ix_covers x r0 ids0 -> Forall (fun r => ix_sep r0 r) rs -> ix_covers x' r0 ids0);
}.

(** ** The ids that a group touches *)

(** A change is applied: a relocation only when the record is still where it was. *)
Definition touches (kind : Z) (S : Entries) (c : Change) : bool :=
  if kind =? ProposalUserCommit then true
  else match S !! ch_RecordID c with Some r => Addr r =? ch_ExpectedOldAddr c | None => false end.

Fixpoint touched_changes (kind : Z) (S : Entries) (cs : list Change) : gset Z :=
  match cs with
  | [] => ∅
  | c :: rest => (if touches kind S c then {[ch_RecordID c]} else ∅) ∪ touched_changes kind (spec_change kind S c) rest
  end.

Fixpoint spec_touched (S : Entries) (ps : list Proposal) : gset Z :=
  match ps with
  | [] => ∅
  | p :: rest => (if spec_accepts S p then touched_changes (pr_Kind p) S (pr_Changes p) else ∅) ∪ spec_touched (spec_proposal S p) rest
  end.

(** What a plan touches. *)
Definition change_touched (rc : ResolvedChange) : gset Z := if rc_Apply rc then {[ch_RecordID (rc_Change rc)]} else ∅.
Definition plan_touched (rps : list ResolvedProposal) : gset Z := ⋃ map (fun rp => if rp_Accepted rp then ⋃ map change_touched (rp_Changes rp) else ∅) rps.

Lemma resolve_change_touched kind virtual S c virtual' rc : kind_ok kind c -> resolve_change kind virtual (S !! ch_RecordID c) c = (virtual', rc) ->
  change_touched rc = if touches kind S c then {[ch_RecordID c]} else ∅.
Proof.
  intros Hk E. unfold resolve_change in E. destruct Hk as [->|[-> _]].
  - change (ProposalUserCommit =? ProposalUserCommit) with true in E. cbv iota in E. injection E as _ <-. reflexivity.
  - change (ProposalRelocation =? ProposalUserCommit) with false in E. change (ProposalRelocation =? ProposalRelocation) with true in E. cbv iota zeta in E. injection E as _ <-.
    unfold change_touched, touches. cbn [rc_Apply rc_Change]. change (ProposalRelocation =? ProposalUserCommit) with false. cbv iota. destruct (S !! ch_RecordID c) as [r|]; reflexivity.
Qed.

Lemma resolve_changes_touched P L kind cs : Forall (fun c => P (ch_RecordID c) /\ kind_ok kind c) cs -> forall virtual S virtual' rcs, agrees_on P virtual L S ->
  resolve_changes kind virtual L cs = Ok (virtual', rcs) -> ⋃ map change_touched rcs = touched_changes kind S cs.
Proof.
  induction 1 as [|c cs [Hp Hk] Hcs IH]; intros virtual S virtual' rcs Ha E; cbn [resolve_changes] in E; [injection E as <- <-; reflexivity|].
  rewrite (Ha _ Hp) in E. cbn in E. destruct (resolve_change kind virtual (S !! ch_RecordID c) c) as [v1 rc] eqn:E1. pose proof (resolve_change_touched _ _ _ _ _ _ Hk E1) as Ht. apply (resolve_change_spec P virtual L S) in E1 as (Ha1 & Es & _); auto.
  destruct (resolve_changes kind v1 L cs) as [[v2 rest]|] eqn:E2; [|discriminate]. injection E as <- <-. cbn [map touched_changes]. rewrite union_list_cons, Ht, <- Es. f_equal. exact (IH _ _ _ _ Ha1 E2).
Qed.

Lemma resolve_proposals_touched P L ps : Forall (fun p => validateProposal p = true /\ proposal_ids P p) ps -> forall virtual S virtual' rps, agrees_on P virtual L S ->
  resolve_proposals virtual L ps = Ok (virtual', rps) -> plan_touched rps = spec_touched S ps.
Proof.
  unfold plan_touched. induction 1 as [|p ps [Hv [Hic Hich]] Hps IH]; intros virtual S virtual' rps Ha E; cbn [resolve_proposals] in E; [injection E as <- <-; reflexivity|].
  rewrite (check_conditions_spec P virtual L S _ Ha Hic) in E. fold (spec_accepts S p) in E. apply validateProposal_facts in Hv as (_ & Hall & _). cbn [spec_touched]. unfold spec_proposal. cbn in E. destruct (spec_accepts S p) eqn:Hacc.
  - assert (Hcs : Forall (fun c => P (ch_RecordID c) /\ kind_ok (pr_Kind p) c) (pr_Changes p)) by (apply Forall_and; split; [exact Hich|]; eapply Forall_impl; [exact Hall|]; cbn; tauto).
    destruct (resolve_changes_spec P L (pr_Kind p) (pr_Changes p) Hcs virtual S Ha) as (v1 & rcs & E1 & Ha1 & Ef & _). pose proof (resolve_changes_touched P L _ _ Hcs _ _ _ _ Ha E1) as Ht. rewrite E1 in E. cbn in E.
    destruct (resolve_proposals v1 L ps) as [[v2 rest]|] eqn:E2; [|discriminate]. injection E as <- <-. cbn [map rp_Accepted rp_Changes]. rewrite union_list_cons, Ht, <- Ef. f_equal. exact (IH _ _ _ _ Ha1 E2).
  - destruct (resolve_proposals virtual L ps) as [[v2 rest]|] eqn:E2; [|discriminate]. injection E as <- <-. cbn [map rp_Accepted]. rewrite union_list_cons. f_equal. exact (IH _ _ _ _ Ha E2).
Qed.

Lemma same_touched rps rps' : Forall2 same_but_delta rps rps' -> plan_touched rps = plan_touched rps'.
Proof. unfold plan_touched. induction 1 as [|a b l k (_ & H2 & H3) _ IH]; [reflexivity|]. cbn [map]. now rewrite !union_list_cons, IH, H2, H3. Qed.

(** ** The budget of the deltas *)

(** No budget, or the ids of the active delta, the bytes that are not charged yet, and
    those of them that reservations hold. *)
Inductive DeltaRoom := Unlimited | Bounded (ids : gset Z) (avail held : Z).

Definition need (room : DeltaRoom) (ids : list Z) : Z :=
  match room with Unlimited => 0 | Bounded delta _ _ => deltaEntryCharge * Z.of_nat (size (list_to_set ids ∖ delta : gset Z)) end.
Definition admits (room : DeltaRoom) (n : Z) : bool := match room with Unlimited => true | Bounded _ avail held => n <=? avail - held end.
Definition hold (room : DeltaRoom) (n : Z) : DeltaRoom := match room with Unlimited => Unlimited | Bounded ids avail held => Bounded ids avail (held + n) end.
Definition charge_ids (room : DeltaRoom) (touched : gset Z) : DeltaRoom :=
  match room with Unlimited => Unlimited | Bounded ids avail held => Bounded (ids ∪ touched) (avail - deltaEntryCharge * Z.of_nat (size (touched ∖ ids))) held end.

(** The bytes of a group of reservations. *)
Definition need_all (room : DeltaRoom) (idss : list (list Z)) : Z := foldr (fun ids n => need room ids + n) 0 idss.

Definition budget_error (e : goerror) : Prop := e = [mapping_ErrBudget] \/ e = [base_ErrBatchTooLarge].

Class IndexRoom (X R : Type) `{!Index X R} `{!IndexLaws X R} := {
  ix_room : X -> DeltaRoom;
  (** the generation of the checkpoints is not exhausted *)
  ix_ready : X -> Prop;
  ix_holds : X -> R -> Z -> Prop;

  ix_room_ok x : ix_ok x -> admits (ix_room x) 0 = true;

  (** A reservation is granted exactly when the bytes are there; a refusal costs nothing. *)
  ix_room_reserve x ids x' r g : ix_ok x -> ix_ready x -> Forall (fun id => id <> 0) ids -> ix_ReserveDelta x ids = (x', (r, g)) ->
    ix_ready x' /\ (forall r0 n0, ix_holds x r0 n0 -> ix_holds x' r0 n0) /\
    match r with
    | Ok r => admits (ix_room x) (need (ix_room x) ids) = true /\ ix_room x' = hold (ix_room x) (need (ix_room x) ids) /\ ix_holds x' r (need (ix_room x) ids) /\ forall r0 n0, ix_holds x r0 n0 -> ix_sep r0 r
    | Err e => admits (ix_room x) (need (ix_room x) ids) = false /\ ix_room x' = ix_room x /\ budget_error e
    end;

  ix_room_release x r n : ix_ok x -> ix_ready x -> ix_holds x r n ->
    ix_ready (ix_Release x r) /\ ix_room (ix_Release x r) = hold (ix_room x) (- n) /\ (forall r0 n0, ix_holds x r0 n0 -> ix_sep r0 r -> ix_holds (ix_Release x r) r0 n0);

  (** Publishing returns what the reservations hold and charges the ids that are new. *)
  ix_room_publish x ps plan rs ns x' out : ix_ok x -> ix_ready x -> group_ok ps -> Forall proposal_u ps -> ix_ResolveGroup x ps = Ok plan ->
    Forall2 (fun r p => ix_covers x r (changed_ids p)) rs ps -> ForallOrdPairs ix_sep rs -> Forall2 (ix_holds x) rs ns ->
    ix_PublishGroup x (ix_Covered x + 1) plan rs = (x', Ok out) ->
    ix_ready x' /\ ix_room x' = charge_ids (hold (ix_room x) (- foldr Z.add 0 ns)) (spec_touched (ix_entries x) ps);

  (** The bytes that are not charged suffice for everything that is reserved. *)
  ix_room_covered x rs idss : ix_ok x -> Forall2 (ix_covers x) rs idss -> ForallOrdPairs ix_sep rs ->
    match ix_room x with Unlimited => True | Bounded _ avail _ => need_all (ix_room x) idss <= avail end;
}.

(** *** The arithmetic of the budget *)

Lemma hold_0 room : hold room 0 = room.
Proof. destruct room; cbn; [reflexivity|]. now rewrite Z.add_0_r. Qed.

Lemma hold_hold room a b : hold (hold room a) b = hold room (a + b).
Proof. destruct room; cbn; [reflexivity|]. now rewrite Z.add_assoc. Qed.

Lemma need_hold room n ids : need (hold room n) ids = need room ids.
Proof. now destruct room. Qed.

Lemma need_all_hold room n idss : need_all (hold room n) idss = need_all room idss.
Proof. unfold need_all. induction idss as [|ids idss IH]; [reflexivity|]. cbn [foldr]. now rewrite IH, need_hold. Qed.

Lemma need_nonneg room ids : 0 <= need room ids.
Proof. destruct room; cbn; unfold deltaEntryCharge; lia. Qed.

Lemma need_all_nonneg room idss : 0 <= need_all room idss.
Proof. unfold need_all. induction idss as [|ids idss IH]; cbn [foldr]; [lia|]. pose proof (need_nonneg room ids). lia. Qed.

Lemma admits_hold room a b : admits (hold room a) b = admits room (a + b).
Proof. destruct room; cbn; [reflexivity|]. apply eq_true_iff_eq. rewrite !Z.leb_le. lia. Qed.

Lemma admits_less room a b : a <= b -> admits room b = true -> admits room a = true.
Proof. destruct room; cbn; [reflexivity|]. rewrite !Z.leb_le. lia. Qed.

(** ** The in-memory mapping implements the contract *)

#[export] Instance Mapping_index : Index Mapping unit := {
  ix_LookupRef := LookupRef;
  ix_ReserveDelta m ids := (m, match ReserveDelta m ids with Ok (r, g) => (Ok r, g) | Err e => (Err e, 0) end);
  ix_Release m _ := m;
  ix_ResolveGroup := ResolveGroup;
  ix_PublishGroup m first plan rs := PublishGroup m first plan (map Some rs);
  ix_Covered := m_covered }.

#[export] Instance Mapping_laws : IndexLaws Mapping unit.
Proof.
  unshelve econstructor;
    [exact mapping_ok | exact m_entries | exact (fun _ _ _ => True) | exact (fun _ _ => True) | ..].
  - auto.
  - intros x [H1 H2 H3 H4]. auto.
  - intros x id Hx H0. cbn. unfold LookupRef. now replace (id =? 0) with false by (symmetry; apply Z.eqb_neq; lia).
  - intros x ids x' r g Hx E. cbn in E. injection E as <- <- <-. split; [exact Hx|]. auto 10.
  - intros x r Hx. auto.
  - intros x ps Hx Hg _. destruct (ResolveGroup_total x ps Hg) as (plan & E & [H1 H2 H3 H4 H5 H6]).
    exists plan. split; [exact E|]. now constructor.
  - intros x ps plan rs Hx Hg _ Hr Hc _ Ha Hs Hb.
    destruct (ResolveGroup_total x ps Hg) as (plan' & E & Hp). cbn in Hr. rewrite E in Hr. apply Ok_inj in Hr as ->.
    destruct (PublishGroup_for x ps plan (map Some rs)) as (x' & E' & [P1 P2 P3]); auto.
    { split; [|apply Forall_map, Forall_true; cbn; eauto]. apply Forall2_length in Hc. unfold len. rewrite length_map. now rewrite Hc. }
    exists x'. auto.
Defined.

#[export] Instance Mapping_room : IndexRoom Mapping unit.
Proof.
  unshelve econstructor; [exact (fun _ => Unlimited)|exact (fun _ => True)|exact (fun _ _ _ => True)|..]; cbn -[ix_ok].
  - auto.
  - intros x ids x' r g _ _ _ E. injection E as <- <- <-. auto 10.
  - auto.
  - auto.
  - auto.
Defined.
