(* ===== verification/Coordinator.v ===== *)
(** * The commit coordinator

    Models [internal/coordinator/coordinator.go]: admission ([Submit],
    [Relocate], [acquireCheckpointFence], the redirect commands), the loop that
    forms durability groups ([run]) and the processing of a group: resolution
    against the mapping, one durable append, publication, and the completion of
    every request.

    The coordinator is generic in the log ([AppendLog]) and in the mapping
    ([Index]).  Channels become explicit sequences: a request carries a ticket,
    its answer is appended to [w_answers], and the request channel is the list of
    events the loop receives.  Batches are shared with their owners, so they live
    in a store indexed by a handle. *)
From S2P Require Import Prelude Bytes Addr RecordCodec LogIface Mapping IndexIface Batch.
From S2P Require IdAlloc.

(** ** Data *)

Record Config := mkConfig
  { QueueCapacity : Z; MaxGroupBatches : Z; MaxGroupPayload : Z; GroupCommitDelay : Z }.

Record Relocation := mkRelocation
  { rl_BatchID : Z; rl_Changes : list Change; rl_LogicalPayloadBytes : Z }.

Record CheckpointCut := mkCut { cc_CoveredCommitSeq : Z; cc_ReplayStart : LogPos }.

Record RelocationResult := mkRelocationResult
  { rr_BatchID : Z; rr_CommitSeq : Z; rr_Applied : Z; rr_Skipped : Z; rr_pressure : Z }.

(** What is sent on the channel of a request: [(BatchID, CommitSeq)] for a user
    commit, the cut of a checkpoint, the generation of a redirect command. *)
Inductive answer :=
| AnsCommit (r : res (Z * Z))
| AnsRelocate (r : res RelocationResult)
| AnsCheckpoint (r : res CheckpointCut)
| AnsRedirect (r : res Z).

Record Coordinator := mkCoordinator
  { c_next : Z; c_fault : option goerror; c_closed : bool;
    c_redirects : gmap Z RecordRef; c_redirectGen : Z }.

(** [ValidateConfig(config) == nil] *)
Definition ValidateConfig (config : Config) : bool :=
  negb ((QueueCapacity config <=? 0) || (MaxGroupBatches config <=? 0) ||
        (MaxGroupPayload config <? CommitGroupHeadSize + DescriptorHeadSize) ||
        (GroupCommitDelay config <? 0)).

(** [orderUserBeforeRelocation] for any class of requests. *)
Definition user_first {A} (isRelocation : A -> bool) (group : list A) : list A :=
  filter (fun r => isRelocation r = false) group ++ filter (fun r => isRelocation r = true) group.

Section Coordinator.
Context {L : Type} `{!AppendLog L} {X R : Type} `{!Index X R}.

Inductive body :=
| User (batch : Z) (prepared : Prepared) (reserve : R)
| Reloc (relocation : Relocation) (reserve : R) (pressure : Z)
| Barrier
| Redirect (install : gmap Z RecordRef) (release : Z).

Record request := mkRequest { rq_ticket : Z; rq_body : body }.

Record World := mkWorld
  { w_coord : Coordinator; w_log : L; w_index : X; w_batches : gmap Z Batch; w_answers : list (Z * answer) }.

(** ** Construction *)

Definition New (next : Z) (index : X) (config : Config) : res Coordinator :=
  raise [base_ErrInvalidConfig] when
    (next =? 0) || negb (ValidateConfig config) || (ix_Covered index =? MaxUint64) ||
    negb (next =? ix_Covered index + 1) ;;
  Ok (mkCoordinator next None false ∅ 0).

(** ** Small state changes *)

Definition set_coord (w : World) (c : Coordinator) : World :=
  mkWorld c (w_log w) (w_index w) (w_batches w) (w_answers w).
Definition set_log (w : World) (l : L) : World :=
  mkWorld (w_coord w) l (w_index w) (w_batches w) (w_answers w).
Definition set_index (w : World) (x : X) : World :=
  mkWorld (w_coord w) (w_log w) x (w_batches w) (w_answers w).
Definition set_batch (w : World) (h : Z) (b : Batch) : World :=
  mkWorld (w_coord w) (w_log w) (w_index w) (<[h := b]> (w_batches w)) (w_answers w).
Definition answer_to (w : World) (ticket : Z) (a : answer) : World :=
  mkWorld (w_coord w) (w_log w) (w_index w) (w_batches w) (w_answers w ++ [(ticket, a)]).
Definition set_next (w : World) (next : Z) : World :=
  let c := w_coord w in
  set_coord w (mkCoordinator next (c_fault c) (c_closed c) (c_redirects c) (c_redirectGen c)).

Definition fail (w : World) (e : goerror) : World :=
  let c := w_coord w in
  match c_fault c with
  | Some _ => w
  | None => set_coord w (mkCoordinator (c_next c) (Some e) (c_closed c) (c_redirects c) (c_redirectGen c))
  end.

(** ** Requests as proposals and descriptors *)

Definition isRelocation (req : request) : bool := match rq_body req with Reloc _ _ _ => true | _ => false end.
Definition orderUserBeforeRelocation (group : list request) : list request := user_first isRelocation group.

Definition relocationProposal (r : Relocation) : Proposal := mkProposal ProposalRelocation [] (rl_Changes r).

Definition requestMutations (req : request) : Z :=
  match rq_body req with
  | User _ p _ => len (pp_Mutations p)
  | Reloc r _ _ => len (rl_Changes r)
  | _ => 0
  end.

Definition requestDescriptorSize (req : request) : res Z := DescriptorSize (requestMutations req).

Definition requestProposal (req : request) : Proposal :=
  match rq_body req with
  | User _ p _ => Prepared_Proposal p
  | Reloc r _ _ => relocationProposal r
  | _ => mkProposal 0 [] []
  end.

Definition requestReserve (req : request) : option R :=
  match rq_body req with User _ _ r | Reloc _ r _ => Some r | _ => None end.

Definition applyCommitRedirects (c : Coordinator) (req : request) : request :=
  match rq_body req with
  | User h p r =>
      mkRequest (rq_ticket req)
        (User h (mkPrepared (pp_BatchID p) (map (redirect_mutation (c_redirects c)) (pp_Mutations p))
                   (pp_Conditions p) (pp_LogicalPayloadBytes p)) r)
  | _ => req
  end.

Definition descriptor (p : Prepared) (seq : Z) : Descriptor :=
  mkDescriptor DescriptorUserCommit (pp_BatchID p) seq (pp_LogicalPayloadBytes p)
    (map (fun m => mkMutation (bm_RecordID m) (Addr (bm_Ref m)) 0
                     (if bm_Operation m =? OpPut then OperationPut else OperationDelete)
                     (PhysicalSize (bm_Ref m))) (pp_Mutations p)).

Definition relocationDescriptor (r : Relocation) (seq : Z) : Descriptor :=
  mkDescriptor DescriptorRelocation (rl_BatchID r) seq (rl_LogicalPayloadBytes r)
    (map (fun c => mkMutation (ch_RecordID c) (Addr (ch_NewRef c)) (ch_ExpectedOldAddr c) OperationRelocate
                     (PhysicalSize (ch_NewRef c))) (rl_Changes r)).

Definition requestDescriptor (req : request) (seq : Z) : Descriptor :=
  match rq_body req with
  | User _ p _ => descriptor p seq
  | Reloc r _ _ => relocationDescriptor r seq
  | _ => mkDescriptor 0 0 seq 0 []
  end.

(** ** Completion of a request *)

Definition release (w : World) (req : request) : World :=
  match requestReserve req with Some r => set_index w (ix_Release (w_index w) r) | None => w end.

(** The batch transition applied through a handle. *)
Definition with_batch (w : World) (h : Z) (f : Batch -> Batch * res unit) : World * res unit :=
  match w_batches w !! h with
  | Some b => let '(b', r) := f b in (set_batch w h b', r)
  | None => (w, Ok tt)
  end.

Definition completeFailure (w : World) (req : request) (cause : goerror) (unknown accepted : bool) : World :=
  let w := release w req in
  match rq_body req with
  | Reloc _ _ _ =>
      answer_to w (rq_ticket req)
        (AnsRelocate (Err (if unknown && accepted then base_ErrCommitUnknown :: cause else cause)))
  | User h _ _ =>
      if unknown && accepted then
        answer_to (with_batch w h MarkCommitUnknown).1 (rq_ticket req) (AnsCommit (Err (base_ErrCommitUnknown :: cause)))
      else
        answer_to (with_batch w h MarkAborted).1 (rq_ticket req) (AnsCommit (Err cause))
  | _ => w
  end.

Definition completeSuccess (w : World) (req : request) (seq : Z) (resolved : ResolvedProposal) : World * res unit :=
  match rq_body req with
  | Reloc r _ pressure =>
      let applied := len (filter (fun c => rc_Apply c = true) (rp_Changes resolved)) in
      let skipped := len (filter (fun c => rc_Apply c = false) (rp_Changes resolved)) in
      (answer_to w (rq_ticket req)
         (AnsRelocate (Ok (mkRelocationResult (rl_BatchID r) seq (applied mod two32) (skipped mod two32) pressure))), Ok tt)
  | User h p _ =>
      match with_batch w h (fun b => MarkCommitted b seq) with
      | (w', Err e) =>
          (answer_to (with_batch w' h MarkCommitUnknown).1 (rq_ticket req)
             (AnsCommit (Err (base_ErrCommitUnknown :: e))), Err e)
      | (w', Ok _) => (answer_to w' (rq_ticket req) (AnsCommit (Ok (pp_BatchID p, seq))), Ok tt)
      end
  | _ => (w, Ok tt)
  end.

Definition rejectInvalid (w : World) (req : request) (e : goerror) : World := completeFailure w req e false false.

Definition rejectGroup (w : World) (group : list request) (e : goerror) : World :=
  foldl (fun w req => completeFailure w req e false false) w group.

(** ** Processing one group *)

(** Sequence numbers and descriptors of the accepted proposals, and the next
    sequence; [None] when the sequence space is exhausted. *)
Fixpoint number (active : list request) (resolved : list ResolvedProposal) (next : Z)
    : option (list Z * list Descriptor * Z) :=
  match active, resolved with
  | req :: active', rp :: resolved' =>
      if rp_Accepted rp then
        if next =? MaxUint64 then None
        else match number active' resolved' (next + 1) with
             | Some (seqs, ds, next') => Some (next :: seqs, requestDescriptor req next :: ds, next')
             | None => None
             end
      else match number active' resolved' next with
           | Some (seqs, ds, next') => Some (0 :: seqs, ds, next')
           | None => None
           end
  | _, _ => Some ([], [], next)
  end.

(** Fail every request: accepted ones with [cause], rejected ones as conflicts. *)
Fixpoint fail_group (w : World) (active : list request) (resolved : list ResolvedProposal)
    (cause : goerror) (unknown : bool) : World :=
  match active, resolved with
  | req :: active', rp :: resolved' =>
      let w' := if rp_Accepted rp then completeFailure w req cause unknown true
                else completeFailure w req [base_ErrConflict] false false in
      fail_group w' active' resolved' cause unknown
  | _, _ => w
  end.

Fixpoint complete_group (w : World) (active : list request) (resolved : list ResolvedProposal) (seqs : list Z) : World :=
  match active, resolved, seqs with
  | req :: active', rp :: resolved', seq :: seqs' =>
      let w' :=
        if rp_Accepted rp then
          match completeSuccess w req seq rp with
          | (w1, Err e) => fail w1 e
          | (w1, Ok _) => w1
          end
        else completeFailure w req [base_ErrConflict] false false in
      complete_group w' active' resolved' seqs'
  | _, _, _ => w
  end.

(** The publication result must match the plan. *)
Definition publish_matches (published : PublishResult) (ds : list Descriptor) (plan : GroupPlan) : bool :=
  (pb_Committed published =? len ds mod two32) &&
  (pb_Applied published =? applied_count (gp_Proposals plan)) &&
  (pb_Skipped published =? skipped_count (gp_Proposals plan)).

Definition reserves (active : list request) : list R := omap requestReserve active.

(** From the durable append on. *)
Definition process_commit (w : World) (active : list request) (plan : GroupPlan)
    (seqs : list Z) (ds : list Descriptor) (next : Z) (payload : list Z) : World :=
  let rps := gp_Proposals plan in
  match log_append (w_log w) payload true with
  | (l', Err e) =>
      let w := fail (set_log w l') e in
      fail_group w active rps e (log_poisoned l')
  | (l', Ok _) =>
      let w := set_log w l' in
      let first := match ds with d :: _ => de_CommitSeq d | [] => 0 end in
      let '(x', r) := ix_PublishGroup (w_index w) first plan (reserves active) in
      let w := set_index w x' in
      let r := match r with
               | Ok published => if publish_matches published ds plan then Ok tt else Err [base_ErrCorrupt]
               | Err e => Err e
               end in
      match r with
      | Err e => fail_group (fail w e) active rps e true
      | Ok _ => complete_group (set_next w next) active rps seqs
      end
  end.

Definition process (config : Config) (w : World) (group : list request) : World :=
  match c_fault (w_coord w) with
  | Some fault => foldl (fun w req => completeFailure w req (base_ErrReadOnly :: fault) false false) w group
  | None =>
      let active := map (applyCommitRedirects (w_coord w)) (orderUserBeforeRelocation group) in
      let proposals := map requestProposal active in
      if len active =? 0 then w
      else match ix_ResolveGroup (w_index w) proposals with
      | Err e => rejectGroup (fail w e) active e
      | Ok plan =>
          match number active (gp_Proposals plan) (c_next (w_coord w)) with
          | None => rejectGroup w active [base_ErrGenerationExhausted]
          | Some (seqs, ds, next) =>
              if len ds =? 0 then rejectGroup w active [base_ErrConflict]
              else match EncodeCommitGroup ds (MaxGroupPayload config) with
              | Err e => rejectGroup (fail w e) active e
              | Ok payload => process_commit w active plan seqs ds next payload
              end
          end
      end
  end.

(** ** Control requests *)

Definition processCheckpoint (w : World) (ticket : Z) : World :=
  match c_fault (w_coord w) with
  | Some fault => answer_to w ticket (AnsCheckpoint (Err (base_ErrReadOnly :: fault)))
  | None =>
      let next := c_next (w_coord w) in
      let covered := ix_Covered (w_index w) in
      if (next =? 0) || (covered =? MaxUint64) || negb (next =? covered + 1) then
        answer_to (fail w [base_ErrCorrupt]) ticket (AnsCheckpoint (Err [base_ErrCorrupt]))
      else
        match log_append (w_log w) (EncodeCheckpoint (mkMarker covered)) true with
        | (l', Err e) => answer_to (fail (set_log w l') e) ticket (AnsCheckpoint (Err e))
        | (l', Ok physical) =>
            answer_to (set_log w l') ticket (AnsCheckpoint (Ok (mkCut covered (ar_End physical))))
        end
  end.

Definition processRedirect (w : World) (ticket : Z) (install : gmap Z RecordRef) (release : Z) : World :=
  let c := w_coord w in
  match c_fault c with
  | Some fault => answer_to w ticket (AnsRedirect (Err (base_ErrReadOnly :: fault)))
  | None =>
      if negb (bool_decide (install = ∅)) then
        if negb (bool_decide (c_redirects c = ∅)) || (c_redirectGen c =? MaxUint64) then
          answer_to w ticket (AnsRedirect (Err [base_ErrConflict]))
        else
          answer_to (set_coord w (mkCoordinator (c_next c) (c_fault c) (c_closed c) install (c_redirectGen c + 1)))
            ticket (AnsRedirect (Ok (c_redirectGen c + 1)))
      else if (release =? 0) || negb (release =? c_redirectGen c) || bool_decide (c_redirects c = ∅) then
        answer_to w ticket (AnsRedirect (Err [base_ErrConflict]))
      else
        answer_to (set_coord w (mkCoordinator (c_next c) (c_fault c) (c_closed c) ∅ (c_redirectGen c)))
          ticket (AnsRedirect (Ok release))
  end.

(** ** The loop

    An event is what one receive on the request channel yields: a request,
    nothing (the channel is empty or the group deadline passed), or the closed
    channel.  [Collecting group bytes] is the state of the inner loop. *)

Inductive event := Receive (req : request) | Nothing | Closed.

Inductive phase := Idle | Collecting (group : list request) (bytes : Z) | Done.

(** The test of the inner loop, [len(group) < MaxGroupBatches]. *)
Definition collect (config : Config) (w : World) (group : list request) (bytes : Z) : World * phase :=
  if len group <? MaxGroupBatches config then (w, Collecting group bytes)
  else (process config w group, Idle).

Definition too_large (e : res Z) : goerror := base_ErrBatchTooLarge :: err_of e.

Definition run_step (config : Config) (s : World * phase) (ev : event) : World * phase :=
  let '(w, ph) := s in
  match ph, ev with
  | Done, _ => (w, Done)
  | Idle, Nothing => (w, Idle)
  | Idle, Closed => (w, Done)
  | Idle, Receive req =>
      match rq_body req with
      | Redirect install release => (processRedirect w (rq_ticket req) install release, Idle)
      | Barrier => (processCheckpoint w (rq_ticket req), Idle)
      | _ =>
          let size := requestDescriptorSize req in
          let bytes := CommitGroupHeadSize + match size with Ok n => n | Err _ => 0 end in
          if negb (is_ok size) || (MaxGroupPayload config <? bytes) then
            (rejectInvalid w req (too_large size), Idle)
          else collect config w [req] bytes
      end
  | Collecting group _, Nothing => (process config w group, Idle)
  | Collecting group _, Closed => (process config w group, Done)
  | Collecting group bytes, Receive next =>
      match rq_body next with
      | Redirect install release =>
          (processRedirect (process config w group) (rq_ticket next) install release, Idle)
      | Barrier => (processCheckpoint (process config w group) (rq_ticket next), Idle)
      | _ =>
          let size := requestDescriptorSize next in
          let nextBytes := match size with Ok n => n | Err _ => 0 end in
          if negb (is_ok size) || (MaxGroupPayload config <? CommitGroupHeadSize + nextBytes) then
            (rejectInvalid w next (too_large size), Collecting group bytes)
          else if MaxGroupPayload config - nextBytes <? bytes then
            collect config (process config w group) [next] (CommitGroupHeadSize + nextBytes)
          else collect config w (group ++ [next]) (bytes + nextBytes)
      end
  end.

Definition run (config : Config) (s : World * phase) (events : list event) : World * phase :=
  foldl (run_step config) s events.

(** ** Admission

    Each function returns the request to be sent, or the error returned to the
    caller.  [ctx1], [ctx2] are the answers of the [ctx.Err()] calls and [full]
    tells that the context ended while the queue was full. *)

Definition closed_or_full (w : World) (full : option goerror) : option goerror :=
  if c_closed (w_coord w) then Some [base_ErrClosed] else full.

Definition Submit (w : World) (ticket h : Z) (ctx1 ctx2 full : option goerror) : World * res request :=
  match w_batches w !! h with
  | None => (w, Err [base_ErrInvalidConfig])
  | Some b =>
      match ctx1 with
      | Some e => (w, Err e)
      | None =>
          match c_fault (w_coord w) with
          | Some fault => (w, Err (base_ErrReadOnly :: fault))
          | None =>
              match MutationIDs b with
              | Err e => (w, Err e)
              | Ok ids =>
                  match ix_ReserveDelta (w_index w) ids with
                  | (x', (Err e, _)) => (set_index w x', Err e)
                  | (x', (Ok r, _)) =>
                      let w := set_index w x' in
                      let drop_reservation (w : World) := set_index w (ix_Release (w_index w) r) in
                      match Prepare b with
                      | (b', Err e) => (drop_reservation (set_batch w h b'), Err e)
                      | (b', Ok prepared) =>
                          let w := set_batch w h b' in
                          match ctx2 with
                          | Some e => ((with_batch (drop_reservation w) h MarkAborted).1, Err e)
                          | None =>
                              match closed_or_full w full with
                              | Some e => ((with_batch (drop_reservation w) h MarkAborted).1, Err e)
                              | None => (w, Ok (mkRequest ticket (User h prepared r)))
                              end
                          end
                      end
                  end
              end
          end
      end
  end.

Definition Relocate (w : World) (ticket : Z) (relocation : Relocation) (ctx1 full : option goerror) : World * res request :=
  match ctx1 with
  | Some e => (w, Err e)
  | None =>
      match c_fault (w_coord w) with
      | Some fault => (w, Err (base_ErrReadOnly :: fault))
      | None =>
          if (rl_BatchID relocation =? 0) || negb (validateProposal (relocationProposal relocation)) then
            (w, Err [base_ErrInvalidConfig])
          else
            match ix_ReserveDelta (w_index w) (map ch_RecordID (rl_Changes relocation)) with
            | (x', (Err e, _)) => (set_index w x', Err e)
            | (x', (Ok r, pressure)) =>
                let w := set_index w x' in
                match closed_or_full w full with
                | Some e => (set_index w (ix_Release (w_index w) r), Err e)
                | None => (w, Ok (mkRequest ticket (Reloc relocation r pressure)))
                end
            end
      end
  end.

Definition acquireCheckpointFence (w : World) (ticket : Z) (ctx1 full : option goerror) : res request :=
  match ctx1 with
  | Some e => Err e
  | None =>
      match c_fault (w_coord w) with
      | Some fault => Err (base_ErrReadOnly :: fault)
      | None => match closed_or_full w full with
                | Some e => Err e
                | None => Ok (mkRequest ticket Barrier)
                end
      end
  end.

Definition redirect_ok (old : Z) (replacement : RecordRef) : bool :=
  negb (negb (VAddr_Valid old) || negb (RecordRef_Valid replacement) || (old =? Addr replacement) ||
        negb (IsCompactionSegment (SegmentID (Addr replacement)))).

Definition submitRedirect (w : World) (ticket : Z) (install : gmap Z RecordRef) (release : Z)
    (ctx2 full : option goerror) : res request :=
  match ctx2 with
  | Some e => Err e
  | None =>
      match c_fault (w_coord w) with
      | Some fault => Err (base_ErrReadOnly :: fault)
      | None => match closed_or_full w full with
                | Some e => Err e
                | None => Ok (mkRequest ticket (Redirect install release))
                end
      end
  end.

Definition InstallCommitRedirects (w : World) (ticket : Z) (redirects : gmap Z RecordRef)
    (ctx1 ctx2 full : option goerror) : res request :=
  match ctx1 with
  | Some e => Err e
  | None =>
      if bool_decide (redirects = ∅) then Err [base_ErrInvalidConfig]
      else if negb (forallb (fun '(old, replacement) => redirect_ok old replacement) (map_to_list redirects)) then
        Err [base_ErrInvalidConfig]
      else submitRedirect w ticket redirects 0 ctx2 full
  end.

Definition Close (w : World) : World * res unit :=
  let c := w_coord w in
  if c_closed c then (w, Err [base_ErrClosed])
  else (set_coord w (mkCoordinator (c_next c) (c_fault c) true (c_redirects c) (c_redirectGen c)), Ok tt).

End Coordinator.

Arguments request R : clear implicits.
Arguments body R : clear implicits.
Arguments event R : clear implicits.
Arguments phase R : clear implicits.
Arguments World L X : clear implicits.
