(* ===== verification/CoordinatorSched.v ===== *)
(** * Group formation

    The loop of the coordinator separates into a scheduler, which looks only at
    the requests it receives, and the actions it performs on the state.  The
    scheduler forms bounded groups, keeps the order of the requests, never moves
    a commit across a checkpoint barrier or a redirect command, and loses or
    duplicates nothing. *)
From S2P Require Import Prelude Bytes Addr RecordCodec LogIface Mapping IndexIface Batch Coordinator.

Section Sched.
Context {L : Type} `{!AppendLog L} {X R : Type} `{!Index X R}.
Implicit Types (w : World L X) (req : request R) (group : list (request R)) (ph : phase R) (ev : event R).

Inductive action :=
| ActProcess (group : list (request R))
| ActReject (req : request R) (e : goerror)
| ActCheckpoint (req : request R)
| ActRedirect (req : request R) (install : gmap Z RecordRef) (release : Z).

Definition perform (config : Config) w (a : action) : World L X :=
  match a with
  | ActProcess group => process config w group
  | ActReject req e => rejectInvalid w req e
  | ActCheckpoint req => processCheckpoint w (rq_ticket req)
  | ActRedirect req install release => processRedirect w (rq_ticket req) install release
  end.

Definition sched_collect (config : Config) group (bytes : Z) : phase R * list action :=
  if len group <? MaxGroupBatches config then (Collecting group bytes, []) else (Idle, [ActProcess group]).

Definition req_bytes req : Z := match requestDescriptorSize req with Ok n => n | Err _ => 0 end.

(** The request cannot be committed even alone. *)
Definition oversized (config : Config) req : bool :=
  negb (is_ok (requestDescriptorSize req)) || (MaxGroupPayload config <? CommitGroupHeadSize + req_bytes req).

Definition sched_control ph req : phase R * list action :=
  let flush := match ph with Collecting group _ => [ActProcess group] | _ => [] end in
  match rq_body req with
  | Redirect install release => (Idle, flush ++ [ActRedirect req install release])
  | _ => (Idle, flush ++ [ActCheckpoint req])
  end.

Definition is_control req : bool := match rq_body req with Barrier | Redirect _ _ => true | _ => false end.

Definition sched (config : Config) ph ev : phase R * list action :=
  match ph, ev with
  | Done, _ => (Done, [])
  | Idle, Nothing => (Idle, [])
  | Idle, Closed => (Done, [])
  | Collecting group _, Nothing => (Idle, [ActProcess group])
  | Collecting group _, Closed => (Done, [ActProcess group])
  | _, Receive req =>
      if is_control req then sched_control ph req
      else if oversized config req then (ph, [ActReject req (too_large (requestDescriptorSize req))])
      else match ph with
      | Collecting group bytes =>
          if MaxGroupPayload config - req_bytes req <? bytes then
            let '(ph', acts) := sched_collect config [req] (CommitGroupHeadSize + req_bytes req) in
            (ph', ActProcess group :: acts)
          else sched_collect config (group ++ [req]) (bytes + req_bytes req)
      | _ => sched_collect config [req] (CommitGroupHeadSize + req_bytes req)
      end
  end.

Lemma run_step_sched config w ph ev :
  run_step config (w, ph) ev = (foldl (perform config) w (sched config ph ev).2, (sched config ph ev).1).
Proof.
  destruct ph as [|group bytes|], ev as [req| |]; try reflexivity;
    unfold run_step, sched, sched_control, is_control, oversized, req_bytes;
    destruct (rq_body req); try reflexivity; destruct (negb _ || _); try reflexivity.
  all: try (destruct (_ - _ <? bytes)).
  all: unfold collect, sched_collect; destruct (_ <? MaxGroupBatches config); reflexivity.
Qed.

Fixpoint sched_run (config : Config) ph (events : list (event R)) : phase R * list action :=
  match events with
  | [] => (ph, [])
  | ev :: rest =>
      let '(ph1, acts1) := sched config ph ev in
      let '(ph2, acts2) := sched_run config ph1 rest in
      (ph2, acts1 ++ acts2)
  end.

Lemma run_sched config events : forall w ph,
  run config (w, ph) events = (foldl (perform config) w (sched_run config ph events).2, (sched_run config ph events).1).
Proof.
  unfold run. induction events as [|ev events IH]; intros w ph; [reflexivity|].
  cbn [foldl sched_run]. rewrite run_step_sched, IH.
  destruct (sched config ph ev) as [ph1 acts1]. cbn [fst snd].
  destruct (sched_run config ph1 events) as [ph2 acts2]. cbn [fst snd]. now rewrite foldl_app.
Qed.

(** ** What the scheduler guarantees *)

Definition group_payload group : Z := foldr (fun req acc => req_bytes req + acc) CommitGroupHeadSize group.

Definition sized (config : Config) req : Prop := is_control req = false /\ oversized config req = false.

Definition action_ok (config : Config) (a : action) : Prop :=
  match a with
  | ActProcess group => group <> [] /\ Forall (sized config) group /\
      len group <= MaxGroupBatches config /\ group_payload group <= MaxGroupPayload config
  | ActReject req _ => is_control req = false /\ oversized config req = true
  | ActCheckpoint req => rq_body req = Barrier
  | ActRedirect req install release => rq_body req = Redirect install release
  end.

Definition phase_ok (config : Config) ph : Prop :=
  match ph with
  | Collecting group bytes => group <> [] /\ Forall (sized config) group /\ len group < MaxGroupBatches config /\
      bytes = group_payload group /\ bytes <= MaxGroupPayload config
  | _ => True
  end.

Definition pending ph : list (request R) := match ph with Collecting group _ => group | _ => [] end.

(** The requests an action completes, in order, without the oversized ones. *)
Definition kept (a : action) : list (request R) :=
  match a with
  | ActProcess group => group
  | ActReject _ _ => []
  | ActCheckpoint req => [req]
  | ActRedirect req _ _ => [req]
  end.

Definition handled (a : action) : list (request R) :=
  match a with ActReject req _ => [req] | _ => kept a end.

(** The requests received while the loop is running. *)
Fixpoint received (events : list (event R)) : list (request R) :=
  match events with
  | [] => []
  | Receive req :: rest => req :: received rest
  | Nothing :: rest => received rest
  | Closed :: _ => []
  end.

Definition admissible (config : Config) req : Prop := is_control req = true \/ oversized config req = false.

#[global] Instance admissible_dec config req : Decision (admissible config req).
Proof. unfold admissible. apply _. Defined.

Lemma group_payload_app group req : group_payload (group ++ [req]) = group_payload group + req_bytes req.
Proof. unfold group_payload. induction group as [|r group IH]; cbn; [lia|]. rewrite IH. lia. Qed.

Lemma sched_collect_ok config group bytes :
  group <> [] -> Forall (sized config) group -> len group <= MaxGroupBatches config ->
  bytes = group_payload group -> bytes <= MaxGroupPayload config ->
  phase_ok config (sched_collect config group bytes).1 /\
  Forall (action_ok config) (sched_collect config group bytes).2 /\
  concat (map kept (sched_collect config group bytes).2) ++ pending (sched_collect config group bytes).1 = group /\
  concat (map handled (sched_collect config group bytes).2) ++ pending (sched_collect config group bytes).1 = group.
Proof.
  intros Hne Hs Hl Hb Hm. unfold sched_collect. destruct (len group <? MaxGroupBatches config) eqn:E; bool_norm; cbn.
  - repeat split; auto.
  - rewrite !app_nil_r. repeat split; auto. repeat constructor; auto; lia.
Qed.

Definition new_requests ev : list (request R) := match ev with Receive req => [req] | _ => [] end.

Lemma sched_ok config ph ev : 1 <= MaxGroupBatches config -> phase_ok config ph -> ph <> Done ->
  let '(ph', acts) := sched config ph ev in
  phase_ok config ph' /\ Forall (action_ok config) acts /\
  concat (map kept acts) ++ pending ph' = pending ph ++ filter (admissible config) (new_requests ev) /\
  concat (map handled acts) ++ pending ph' ≡ₚ pending ph ++ new_requests ev.
Proof.
  intros Hmax Hph Hd. destruct ev as [req| |]; cbn [new_requests].
  2-3: destruct ph as [|group bytes|]; [cbn; auto | | contradiction];
       cbn; rewrite !app_nil_r; destruct Hph as (? & ? & ? & -> & ?);
       repeat split; auto; constructor; [|constructor]; cbn; repeat split; auto; lia.
  rewrite filter_cons, filter_nil. unfold sched. destruct (is_control req) eqn:Ec.
  - rewrite decide_True by (now left).
    assert (E : match ph with Idle | _ => sched_control ph req end = sched_control ph req) by (destruct ph; reflexivity).
    assert (Hc : exists a, sched_control ph req = (Idle, match ph with Collecting group _ => [ActProcess group] | _ => [] end ++ [a])
                  /\ action_ok config a /\ kept a = [req] /\ handled a = [req]).
    { unfold sched_control, is_control in *. destruct (rq_body req) eqn:Eb; try discriminate;
        eexists; (split; [reflexivity|]); cbn; auto. }
    destruct Hc as (a & Ea & Hok & Hk & Hh).
    destruct ph as [|group bytes|]; [| |contradiction]; rewrite Ea; cbn [map concat app pending].
    + rewrite Hk, Hh. repeat split; auto.
    + cbn [map concat app kept handled]. rewrite Hk, Hh, !app_nil_r. destruct Hph as (? & ? & ? & -> & ?).
      repeat split; auto. repeat constructor; auto; cbn; lia.
  - destruct (oversized config req) eqn:Eo.
    + rewrite decide_False by (intros [?|?]; congruence).
      destruct ph as [|group bytes|]; [| |contradiction]; cbn [map concat app kept handled pending]; rewrite ?app_nil_r.
      * split; [exact Hph|]. split; [repeat constructor; assumption|]. split; reflexivity.
      * split; [exact Hph|]. split; [repeat constructor; assumption|]. split; [reflexivity|].
        apply Permutation_cons_append.
    + rewrite decide_True by (now right).
      assert (Hsz : sized config req) by (split; assumption).
      assert (Hone : CommitGroupHeadSize + req_bytes req <= MaxGroupPayload config).
      { unfold oversized in Eo. bool_norm. assumption. }
      destruct ph as [|group bytes|]; [| |contradiction].
      * destruct (sched_collect_ok config [req] (CommitGroupHeadSize + req_bytes req)) as (H1 & H2 & H3 & H4); auto;
          [unfold group_payload; cbn; lia|].
        destruct (sched_collect config [req] _) as [ph' acts]. cbn [fst snd pending app] in *. rewrite H4. auto.
      * destruct Hph as (Hne & Hs & Hlen & Hb & Hle).
        destruct (MaxGroupPayload config - req_bytes req <? bytes) eqn:Ep; bool_norm.
        -- destruct (sched_collect_ok config [req] (CommitGroupHeadSize + req_bytes req)) as (H1 & H2 & H3 & H4); auto;
             [unfold group_payload; cbn; lia|].
           destruct (sched_collect config [req] _) as [ph' acts]. cbn [fst snd pending app map concat kept handled] in *.
           rewrite <- !app_assoc, H3, H4. repeat split; auto. constructor; [|exact H2]. repeat split; auto; lia.
        -- destruct (sched_collect_ok config (group ++ [req]) (bytes + req_bytes req)) as (H1 & H2 & H3 & H4); auto.
           { now destruct group. }
           { apply Forall_app. auto. }
           { rewrite len_app, len_cons, len_nil. lia. }
           { rewrite group_payload_app. lia. }
           { lia. }
           destruct (sched_collect config (group ++ [req]) _) as [ph' acts]. cbn [fst snd pending] in *.
           rewrite H3, H4. auto.
Qed.

Lemma sched_done config events : sched_run config (@Done R) events = (Done, []).
Proof. induction events as [|ev events IH]; [reflexivity|]. cbn. now rewrite IH. Qed.

Lemma sched_closed config ph : ph <> Done -> (sched config ph Closed).1 = Done.
Proof. destruct ph; [reflexivity|reflexivity|contradiction]. Qed.

Lemma sched_not_done config ph ev : ph <> Done -> ev <> Closed -> (sched config ph ev).1 <> Done.
Proof.
  intros Hp He. destruct ev as [req| |]; [|destruct ph; easy|contradiction]. unfold sched.
  destruct ph as [|group bytes|]; [| |contradiction];
    (destruct (is_control req); [unfold sched_control; destruct (rq_body req); discriminate|]);
    (destruct (oversized config req); [discriminate|]); unfold sched_collect.
  - destruct (_ <? _); discriminate.
  - destruct (_ <? bytes); destruct (_ <? _); discriminate.
Qed.

Lemma sched_run_ok config events : 1 <= MaxGroupBatches config -> forall ph, phase_ok config ph -> ph <> Done ->
  let '(ph', acts) := sched_run config ph events in
  phase_ok config ph' /\ Forall (action_ok config) acts /\
  concat (map kept acts) ++ pending ph' = pending ph ++ filter (admissible config) (received events) /\
  concat (map handled acts) ++ pending ph' ≡ₚ pending ph ++ received events.
Proof.
  intros Hmax. induction events as [|ev events IH]; intros ph Hph Hd; cbn [sched_run].
  { cbn [received map concat app]. rewrite filter_nil, !app_nil_r. auto. }
  pose proof (sched_ok config ph ev Hmax Hph Hd) as H. pose proof (sched_not_done config ph ev Hd) as Hnd.
  destruct (sched config ph ev) as [ph1 acts1] eqn:Es. destruct H as (H1 & H2 & H3 & H4).
  assert (Hdec : ph1 = Done \/ ph1 <> Done) by (destruct ph1; [right|right|left]; easy).
  destruct Hdec as [->|Hd1].
  - rewrite sched_done. cbn [received new_requests] in *. rewrite app_nil_r.
    destruct ev as [req| |]; [destruct (Hnd ltac:(discriminate) eq_refl) | destruct (Hnd ltac:(discriminate) eq_refl)|].
    cbn [received]. auto.
  - specialize (IH ph1 H1 Hd1). destruct (sched_run config ph1 events) as [ph2 acts2].
    destruct IH as (I1 & I2 & I3 & I4).
    assert (Er : received (ev :: events) = new_requests ev ++ received events).
    { destruct ev; try reflexivity. pose proof (sched_closed config ph Hd) as E. rewrite Es in E. contradiction. }
    rewrite Er, !map_app, !concat_app, <- !app_assoc, filter_app. split; [exact I1|]. split; [now apply Forall_app|].
    split.
    + rewrite I3, !app_assoc, H3. reflexivity.
    + rewrite I4, !app_assoc. apply Permutation_app_tail. exact H4.
Qed.
End Sched.


(** Two commits, a barrier and a third commit: the barrier closes the group. *)
Definition example_config : Config := mkConfig 16 8 4096 0.
Definition example_commit (ticket : Z) : request unit :=
  mkRequest ticket (User ticket (mkPrepared ticket [] [] 0) tt).
Definition example_events : list (event unit) :=
  [Receive (example_commit 1); Receive (example_commit 2); Receive (mkRequest 3 Barrier);
   Receive (example_commit 4); Nothing].

Definition example_world : World MemLog Mapping :=
  mkWorld (mkCoordinator 1 None false ∅ 0) (emptyLog []) NewEmpty ∅ [].

