(* ===== verification/CoordinatorSpec.v ===== *)
(** * Processing a group: correctness

    What [process] does to the log, the mapping, the batches and the callers, in
    every case: the group commits as a serial execution of its proposals with
    consecutive sequence numbers, or nothing becomes visible and the coordinator
    is faulted. *)
From S2P Require Import Prelude Bytes Addr RecordCodec LogIface Mapping IndexIface Batch Coordinator CoordinatorSched.

Lemma ForallOrdPairs_perm {A} (P : A -> A -> Prop) l k :
  (forall a b, P a b -> P b a) -> l ≡ₚ k -> ForallOrdPairs P l -> ForallOrdPairs P k.
Proof.
  intros Hsym. induction 1 as [|x l k Hlk IH|x y l|l1 l2 l3 _ IH1 _ IH2]; intros H; auto.
  - inversion H as [|? ? Hx Hl]; subst. constructor; [|now apply IH]. now rewrite <- Hlk.
  - inversion H as [|? ? Hy Hl]; subst. inversion Hl as [|? ? Hx Hl']; subst.
    inversion Hy as [|? ? Hyx Hyl]; subst. constructor; [constructor; auto|]. constructor; auto.
Qed.

Section Spec.
Context {L : Type} `{!AppendLog L} `{!AppendLogLaws L} {X R : Type} `{!Index X R} `{!IndexLaws X R}.
Implicit Types (w : World L X) (req : request R) (group active : list (request R)).

(** ** Well-formed requests *)

Definition prepared_u (p : Prepared) : Prop :=
  is_u64 (pp_BatchID p) /\ pp_BatchID p <> 0 /\ is_u64 (pp_LogicalPayloadBytes p) /\
  Forall (fun m => is_u64 (bm_RecordID m) /\ ref_u (bm_Ref m)) (pp_Mutations p) /\
  Forall (fun c => is_u64 (co_RecordID c)) (pp_Conditions p).

Definition relocation_u (r : Relocation) : Prop :=
  is_u64 (rl_BatchID r) /\ rl_BatchID r <> 0 /\ is_u64 (rl_LogicalPayloadBytes r) /\
  Forall (fun c => is_u64 (ch_RecordID c) /\ ref_u (ch_NewRef c) /\ is_u64 (ch_ExpectedOldAddr c)) (rl_Changes r).

(** A commit or relocation with a valid proposal of encodable size. *)
Definition commit_ok req : Prop :=
  validateProposal (requestProposal req) = true /\ is_ok (requestDescriptorSize req) = true /\
  match rq_body req with
  | User _ p _ => prepared_u p
  | Reloc r _ _ => relocation_u r
  | _ => False
  end.

Definition req_handle req : option Z := match rq_body req with User h _ _ => Some h | _ => None end.
Definition req_batchID req : Z :=
  match rq_body req with User _ p _ => pp_BatchID p | Reloc r _ _ => rl_BatchID r | _ => 0 end.
Definition handles (active : list (request R)) : list Z := omap req_handle active.

(** The batch of a user request waits for its completion. *)
Definition committing (batches : gmap Z Batch) req : Prop :=
  match rq_body req with
  | User h _ _ => exists b, batches !! h = Some b /\ ba_state b = StateCommitting
  | _ => True
  end.

Definition reserved (x : X) req : Prop :=
  match requestReserve req with Some r => ix_covers x r (changed_ids (requestProposal req)) | None => False end.

Record group_ready (x : X) (batches : gmap Z Batch) (group : list (request R)) : Prop := mkGroupReady {
  gr_commits : Forall commit_ok group;
  gr_committing : Forall (committing batches) group;
  gr_reserved : Forall (reserved x) group;
  gr_sep : ForallOrdPairs ix_sep (reserves group);
  gr_handles : NoDup (handles group);
  gr_ids : NoDup (map req_batchID group);
}.

Definition coord_ok (c : Coordinator) (x : X) : Prop :=
  c_next c = ix_Covered x + 1 /\ ix_Covered x < MaxUint64 /\
  forall old new, c_redirects c !! old = Some new -> RecordRef_Valid new = true /\ ref_u new.

Lemma commit_ok_u req : commit_ok req -> proposal_u (requestProposal req).
Proof.
  intros (_ & _ & Hb). unfold requestProposal. destruct (rq_body req) as [h p r|rl r g| |]; try contradiction.
  - destruct Hb as (_ & _ & _ & Hm & Hc). apply Forall_and in Hm as [Hm1 Hm2].
    split; [split; [exact Hc|]|]; cbn; apply Forall_map; assumption.
  - destruct Hb as (_ & _ & _ & Hc). split; [split; [constructor|]|]; cbn; (eapply Forall_impl; [exact Hc|]; cbn; tauto).
Qed.

Lemma active_u active : Forall commit_ok active -> Forall proposal_u (map requestProposal active).
Proof. intros H. apply Forall_map. eapply Forall_impl; [exact H|]. apply commit_ok_u. Qed.

(** ** Ordering and redirection keep a group ready *)

Lemma filter_split_perm {A} (f : A -> bool) (l : list A) :
  filter (fun x => f x = false) l ++ filter (fun x => f x = true) l ≡ₚ l.
Proof.
  induction l as [|x l IH]; [reflexivity|]. rewrite !filter_cons.
  destruct (f x) eqn:E; repeat case_decide; try congruence.
  - rewrite <- Permutation_middle. now constructor.
  - cbn. now constructor.
Qed.

Lemma order_perm group : orderUserBeforeRelocation group ≡ₚ group.
Proof. apply filter_split_perm. Qed.

Lemma omap_perm {A B} (f : A -> option B) l k : l ≡ₚ k -> omap f l ≡ₚ omap f k.
Proof. intros H. now rewrite H. Qed.

Lemma group_ready_perm x batches group group' :
  group ≡ₚ group' -> group_ready x batches group -> group_ready x batches group'.
Proof.
  intros Hp [H1 H2 H3 H4 H5 H6]. constructor; try (now rewrite <- Hp).
  - eapply ForallOrdPairs_perm; [apply ix_sep_sym | apply omap_perm, Hp | exact H4].
  - unfold handles in *. now rewrite <- (omap_perm req_handle _ _ Hp).
Qed.

Lemma redirect_change redirects m :
  ch_RecordID (bm_change (redirect_mutation redirects m)) = ch_RecordID (bm_change m).
Proof. cbn. apply (redirect_same redirects m). Qed.

Lemma redirect_change_ok redirects m :
  (forall old new, redirects !! old = Some new -> RecordRef_Valid new = true /\ ref_u new) ->
  change_ok ProposalUserCommit (bm_change m) = true ->
  change_ok ProposalUserCommit (bm_change (redirect_mutation redirects m)) = true.
Proof.
  intros Hr. unfold redirect_mutation. destruct (bm_Operation m =? OpPut) eqn:E; cbn [negb]; [|auto].
  destruct (redirects !! Addr (bm_Ref m)) as [new|] eqn:El; [|auto]. apply Z.eqb_eq in E.
  unfold change_ok, bm_change. cbn [ch_ExpectedOldAddr ch_Operation ch_NewRef bm_Operation bm_Ref bm_RecordID].
  rewrite E, (proj1 (Hr _ _ El)). reflexivity.
Qed.

Lemma redirect_proposal c req :
  (forall old new, c_redirects c !! old = Some new -> RecordRef_Valid new = true /\ ref_u new) ->
  validateProposal (requestProposal req) = true ->
  validateProposal (requestProposal (applyCommitRedirects c req)) = true /\
  changed_ids (requestProposal (applyCommitRedirects c req)) = changed_ids (requestProposal req).
Proof.
  intros Hr Hv. unfold applyCommitRedirects. destruct (rq_body req) as [h p r|rl r g| |] eqn:Eb; auto.
  unfold requestProposal in *. rewrite Eb in *. cbn [rq_body] in *. unfold changed_ids.
  cbn [Prepared_Proposal pr_Changes pp_Mutations]. rewrite !map_map.
  split; [|apply map_ext; intros m; apply redirect_change].
  unfold validateProposal in *. cbn [pr_Kind pr_Conditions pr_Changes Prepared_Proposal pp_Conditions pp_Mutations] in *.
  change (ProposalUserCommit =? ProposalUserCommit) with true in *. cbn [andb] in *.
  apply andb_true_iff in Hv as [Hc Hch]. rewrite Hc. cbn [andb].
  apply changes_ok_spec in Hch as (Hall & Hs & _). apply changes_ok_intro; auto.
  - rewrite Forall_map in *. rewrite Forall_map. eapply Forall_impl; [exact Hall|]. cbn beta. intros m [H0 Hok].
    rewrite redirect_change. split; [exact H0|]. now apply redirect_change_ok.
  - rewrite map_map in *. rewrite map_map. erewrite map_ext; [exact Hs|]. intros m. apply redirect_change.
Qed.

Lemma redirect_keeps c req :
  rq_ticket (applyCommitRedirects c req) = rq_ticket req /\
  req_handle (applyCommitRedirects c req) = req_handle req /\
  req_batchID (applyCommitRedirects c req) = req_batchID req /\
  requestReserve (applyCommitRedirects c req) = requestReserve req /\
  requestMutations (applyCommitRedirects c req) = requestMutations req.
Proof.
  unfold applyCommitRedirects, req_handle, req_batchID, requestReserve, requestMutations.
  destruct (rq_body req) as [h p r|rl r g| |] eqn:E; cbn; rewrite ?E; auto.
  rewrite len_map. auto.
Qed.

Lemma redirect_prepared_u redirects m :
  (forall old new, redirects !! old = Some new -> RecordRef_Valid new = true /\ ref_u new) ->
  is_u64 (bm_RecordID m) /\ ref_u (bm_Ref m) ->
  is_u64 (bm_RecordID (redirect_mutation redirects m)) /\ ref_u (bm_Ref (redirect_mutation redirects m)).
Proof.
  intros Hr [H1 H2]. destruct (redirect_same redirects m) as (-> & _). split; [exact H1|].
  unfold redirect_mutation. destruct (negb _); [exact H2|].
  destruct (redirects !! Addr (bm_Ref m)) as [new|] eqn:El; [|exact H2]. apply (Hr _ _ El).
Qed.

Lemma omap_map_same {A B C} (f : A -> B) (g : B -> option C) (h : A -> option C) l :
  (forall a, g (f a) = h a) -> omap g (map f l) = omap h l.
Proof. intros E. induction l as [|a l IH]; cbn; [done|]. now rewrite E, IH. Qed.

Lemma group_ready_redirect c x batches group :
  (forall old new, c_redirects c !! old = Some new -> RecordRef_Valid new = true /\ ref_u new) ->
  group_ready x batches group -> group_ready x batches (map (applyCommitRedirects c) group).
Proof.
  intros Hr [H1 H2 H3 H4 H5 H6]. constructor.
  - apply Forall_map. eapply Forall_impl; [exact H1|]. cbn. intros req (Hv & Hsz & Hb).
    destruct (redirect_keeps c req) as (_ & _ & _ & _ & Em).
    split; [now apply redirect_proposal|]. split; [unfold requestDescriptorSize in *; now rewrite Em|].
    unfold applyCommitRedirects. destruct (rq_body req) as [h p r|rl r g| |] eqn:E; cbn; rewrite ?E; auto.
    destruct Hb as (Hb1 & Hb2 & Hb3 & Hm & Hcs). split; [exact Hb1|]. split; [exact Hb2|]. split; [exact Hb3|].
    split; [|exact Hcs]. cbn. apply Forall_map. eapply Forall_impl; [exact Hm|]. cbn. intros m. now apply redirect_prepared_u.
  - apply Forall_map. eapply Forall_impl; [exact H2|]. cbn. intros req. unfold committing, applyCommitRedirects.
    destruct (rq_body req) as [h p r|rl r g| |] eqn:E; cbn; rewrite ?E; auto.
  - apply Forall_map. apply Forall_and in H1 as [Hv _]. eapply Forall_impl; [apply Forall_and; split; [exact H3|exact Hv]|].
    cbn. intros req [Hres Hval]. destruct (redirect_keeps c req) as (_ & _ & _ & Er & _).
    unfold reserved in *. rewrite Er. destruct (requestReserve req); [|exact Hres].
    now rewrite (proj2 (redirect_proposal c req Hr Hval)).
  - unfold reserves in *. erewrite omap_map_same; [exact H4|]. intros req. apply redirect_keeps.
  - unfold handles in *. erewrite omap_map_same; [exact H5|]. intros req. apply redirect_keeps.
  - rewrite map_map. erewrite map_ext; [exact H6|]. intros req. apply redirect_keeps.
Qed.

(** ** Numbering *)

(** The accepted requests of a group. *)
Fixpoint select (active : list (request R)) (flags : list bool) : list (request R) :=
  match active, flags with
  | req :: active', f :: flags' => if f then req :: select active' flags' else select active' flags'
  | _, _ => []
  end.

(** Their descriptors, numbered from [next]. *)
Fixpoint descriptors (next : Z) (reqs : list (request R)) : list Descriptor :=
  match reqs with [] => [] | req :: rest => requestDescriptor req next :: descriptors (next + 1) rest end.

Fixpoint sequences (next : Z) (flags : list bool) : list Z :=
  match flags with
  | [] => []
  | f :: rest => if f then next :: sequences (next + 1) rest else 0 :: sequences next rest
  end.

Lemma accepted_of_cons f flags : accepted_of (f :: flags) = (if f then 1 else 0) + accepted_of flags.
Proof. unfold accepted_of. rewrite filter_cons. destruct f; case_decide; try congruence; rewrite ?len_cons; lia. Qed.

Lemma accepted_of_nonneg flags : 0 <= accepted_of flags.
Proof. apply len_nonneg. Qed.

Lemma number_spec active : forall rps next, length rps = length active ->
  next + accepted_of (map rp_Accepted rps) <= MaxUint64 ->
  number active rps next =
    Some (sequences next (map rp_Accepted rps),
          descriptors next (select active (map rp_Accepted rps)),
          next + accepted_of (map rp_Accepted rps)).
Proof.
  induction active as [|req active IH]; intros [|rp rps] next Hlen Hmax; try discriminate; cbn [number map].
  { unfold accepted_of. cbn. now rewrite Z.add_0_r. }
  cbn [map] in Hmax. rewrite accepted_of_cons in *. pose proof (accepted_of_nonneg (map rp_Accepted rps)).
  cbn [length] in Hlen. cbn [sequences select].
  destruct (rp_Accepted rp).
  - replace (next =? MaxUint64) with false by (symmetry; apply Z.eqb_neq; lia).
    rewrite IH by lia. cbn [descriptors]. do 2 f_equal. lia.
  - rewrite IH by lia. do 2 f_equal; lia.
Qed.

Lemma number_exhausted active : forall rps next, length rps = length active ->
  next <= MaxUint64 < next + accepted_of (map rp_Accepted rps) -> number active rps next = None.
Proof.
  induction active as [|req active IH]; intros [|rp rps] next Hlen Hmax; try discriminate; cbn [number map] in *.
  { change (accepted_of []) with 0 in Hmax. lia. }
  rewrite accepted_of_cons in Hmax. cbn [length] in Hlen.
  destruct (rp_Accepted rp).
  - destruct (next =? MaxUint64) eqn:E; [reflexivity|]. bool_norm. rewrite IH by lia. reflexivity.
  - rewrite IH by lia. reflexivity.
Qed.

(** ** The group can be encoded *)

Lemma descriptor_mutations_ok p :
  validateProposal (Prepared_Proposal p) = true ->
  mutations_ok DescriptorUserCommit None (de_Mutations (descriptor p 0)) = true.
Proof.
  intros Hv. apply validateProposal_facts in Hv as (_ & Hall & Hs). cbn in Hall, Hs. cbn [de_Mutations descriptor].
  rewrite map_map in Hs. apply mutations_ok_intro; [|rewrite map_map; exact Hs|done].
  rewrite Forall_map in *. eapply Forall_impl; [exact Hall|]. cbn beta. intros m (H0 & Hc & _). split; [exact H0|].
  unfold change_ok, bm_change in Hc. cbn [ch_ExpectedOldAddr ch_Operation ch_NewRef] in Hc.
  change (ProposalUserCommit =? ProposalUserCommit) with true in Hc. cbv iota in Hc.
  apply negb_true_iff in Hc. apply orb_false_iff in Hc as [Hc Hop]. apply orb_false_iff in Hc as [Hc Hd].
  apply orb_false_iff in Hc as [_ Hput].
  unfold mutation_ok. cbn [mu_Operation mu_NewAddr mu_ExpectedOldAddr mu_PhysicalSize].
  change (DescriptorUserCommit =? DescriptorUserCommit) with true. cbv iota.
  replace (mkRef (Addr (bm_Ref m)) (PhysicalSize (bm_Ref m))) with (bm_Ref m) by (now destruct (bm_Ref m)).
  destruct (bm_Operation m =? OpPut) eqn:E; cbn [negb andb] in *.
  - change (OperationPut =? OperationPut) with true. bool_norm. now rewrite Hput.
  - bool_norm. change (OperationDelete =? OperationPut) with false. change (OperationDelete =? OperationDelete) with true.
    rewrite Hop in Hd. change (OpDelete =? OpDelete) with true in Hd. cbn [andb] in Hd. bool_norm.
    unfold RecordRef_IsZero in Hd. bool_norm. rewrite Hd. reflexivity.
Qed.

Lemma relocation_mutations_ok r :
  validateProposal (relocationProposal r) = true ->
  mutations_ok DescriptorRelocation None (de_Mutations (relocationDescriptor r 0)) = true.
Proof.
  intros Hv. apply validateProposal_facts in Hv as (_ & Hall & Hs). cbn in Hall, Hs. cbn [de_Mutations relocationDescriptor].
  apply mutations_ok_intro; [|rewrite map_map; exact Hs|done].
  rewrite Forall_map. eapply Forall_impl; [exact Hall|]. cbn beta. intros c (H0 & Hc & _). split; [exact H0|].
  unfold change_ok in Hc. change (ProposalRelocation =? ProposalUserCommit) with false in Hc.
  change (ProposalRelocation =? ProposalRelocation) with true in Hc. cbv iota in Hc. apply negb_true_iff in Hc. bool_norm.
  unfold mutation_ok. cbn [mu_Operation mu_NewAddr mu_ExpectedOldAddr mu_PhysicalSize].
  change (DescriptorRelocation =? DescriptorUserCommit) with false.
  change (DescriptorRelocation =? DescriptorRelocation) with true. cbv iota.
  replace (mkRef (Addr (ch_NewRef c)) (PhysicalSize (ch_NewRef c))) with (ch_NewRef c) by (now destruct (ch_NewRef c)).
  rewrite !andb_true_iff, negb_true_iff. repeat split; auto. now apply Z.eqb_neq.
Qed.

Lemma descriptor_fields req seq : commit_ok req ->
  de_CommitSeq (requestDescriptor req seq) = seq /\ de_BatchID (requestDescriptor req seq) = req_batchID req /\
  req_batchID req <> 0 /\ len (de_Mutations (requestDescriptor req seq)) = requestMutations req /\
  mutations_ok (de_Kind (requestDescriptor req seq)) None (de_Mutations (requestDescriptor req seq)) = true /\
  (de_Kind (requestDescriptor req seq) =? DescriptorRelocation) && (len (de_Mutations (requestDescriptor req seq)) =? 0) = false.
Proof.
  intros (Hv & _ & Hb). unfold requestDescriptor, req_batchID, requestMutations, requestProposal in *.
  destruct (rq_body req) as [h p r|rl r g| |]; try contradiction; cbn [de_CommitSeq de_BatchID de_Kind de_Mutations descriptor relocationDescriptor];
    rewrite len_map; destruct Hb as (_ & H0 & _); repeat split; auto.
  - now apply descriptor_mutations_ok.
  - now apply relocation_mutations_ok.
  - unfold validateProposal in Hv. cbn [pr_Kind relocationProposal pr_Conditions pr_Changes] in Hv.
    change (ProposalRelocation =? ProposalUserCommit) with false in Hv.
    change (ProposalRelocation =? ProposalRelocation) with true in Hv. cbv iota in Hv. bool_norm.
    apply andb_false_iff. right. apply Z.eqb_neq. assumption.
Qed.

Lemma descriptors_valid reqs : forall next ids prev,
  Forall commit_ok reqs -> NoDup (map req_batchID reqs) -> (forall id, id ∈ ids -> id ∉ map req_batchID reqs) ->
  1 <= next -> next + len reqs <= MaxUint64 -> (match prev with Some p => next = p + 1 | None => True end) ->
  validateDescriptors_loop prev ids (descriptors next reqs) = true.
Proof.
  induction reqs as [|req reqs IH]; intros next ids prev Hc Hnd Hids Hn Hmax Hp; [reflexivity|].
  apply Forall_cons_iff in Hc as [Hreq Hc]. cbn in Hnd. apply NoDup_cons in Hnd as [Hni Hnd].
  rewrite len_cons in Hmax. pose proof (len_nonneg reqs). cbn [descriptors validateDescriptors_loop].
  destruct (descriptor_fields req next Hreq) as (-> & -> & H0 & _ & -> & ->).
  apply Z.eqb_neq in H0. rewrite H0. replace (next =? 0) with false by (symmetry; apply Z.eqb_neq; lia).
  rewrite bool_decide_eq_false_2 by (intros Hin; apply (Hids _ Hin); cbn; constructor). cbn [orb negb andb].
  rewrite IH; auto; try lia.
  - rewrite !andb_true_r. destruct prev as [p|]; [|reflexivity].
    rewrite negb_true_iff. apply orb_false_iff. split; [apply Z.eqb_neq; lia|].
    apply negb_false_iff, Z.eqb_eq. lia.
  - intros id [->%elem_of_singleton|Hid]%elem_of_union Hin; [contradiction|].
    apply (Hids id Hid). cbn. now constructor.
Qed.

Lemma select_forall (P : request R -> Prop) active flags : Forall P active -> Forall P (select active flags).
Proof.
  intros H. revert flags. induction H as [|req active Hr _ IH]; intros [|f flags]; cbn; try constructor.
  destruct f; [constructor|]; auto.
Qed.

Lemma select_sublist active : forall flags, sublist (select active flags) active.
Proof.
  induction active as [|req active IH]; intros [|[] flags]; cbn; try (apply sublist_nil_l); constructor; apply IH.
Qed.

Lemma select_len active : forall flags, length flags = length active -> len (select active flags) = accepted_of flags.
Proof.
  induction active as [|req active IH]; intros [|f flags] Hl; try discriminate; [reflexivity|].
  cbn in Hl. rewrite accepted_of_cons. cbn [select]. destruct f; rewrite ?len_cons, IH by lia; lia.
Qed.

Lemma descriptors_bytes reqs : forall next, Forall commit_ok reqs ->
  len (concat (map encodeDescriptor (descriptors next reqs))) = group_payload reqs - 32.
Proof.
  induction reqs as [|req reqs IH]; intros next Hc; cbn [descriptors map concat]; [reflexivity|].
  apply Forall_cons_iff in Hc as [Hr Hc]. rewrite len_app, len_encodeDescriptor, IH by exact Hc.
  destruct (descriptor_fields req next Hr) as (_ & _ & _ & -> & _).
  unfold group_payload. cbn [foldr]. fold (group_payload reqs).
  assert (req_bytes req = 40 + 32 * requestMutations req); [|lia].
  destruct Hr as (_ & Hs & _). unfold req_bytes, requestDescriptorSize in *.
  assert (0 <= requestMutations req) by (unfold requestMutations; destruct (rq_body req); try apply len_nonneg; lia).
  destruct (DescriptorSize (requestMutations req)) eqn:E; [|discriminate]. now apply DescriptorSize_spec in E as [-> _].
Qed.

Lemma select_payload active : forall flags, group_payload (select active flags) <= group_payload active.
Proof.
  assert (Hnn : forall req : request R, 0 <= req_bytes req).
  { intros req. unfold req_bytes, requestDescriptorSize. destruct (DescriptorSize _) eqn:E; [|lia].
    apply DescriptorSize_spec in E as [-> _]; unfold requestMutations; destruct (rq_body req); try lia;
    match goal with |- context [len ?l] => pose proof (len_nonneg l) end; lia. }
  assert (Hc : forall req active, group_payload (req :: active) = req_bytes req + group_payload active) by reflexivity.
  assert (H0 : forall active, group_payload (@nil (request R)) <= group_payload active).
  { intros k. induction k as [|req k IH]; [apply Z.le_refl|]. rewrite Hc. pose proof (Hnn req). lia. }
  induction active as [|req active IH]; intros [|f flags]; cbn [select]; try apply H0.
  specialize (IH flags). pose proof (Hnn req). destruct f; rewrite ?Hc; lia.
Qed.

Lemma sublist_map {A B} (f : A -> B) l k : sublist l k -> sublist (map f l) (map f k).
Proof. induction 1; cbn; constructor; auto. Qed.

Lemma group_encodes config next active flags :
  Forall commit_ok active -> NoDup (map req_batchID active) -> length flags = length active ->
  accepted_of flags <> 0 -> 1 <= next -> next + accepted_of flags <= MaxUint64 ->
  group_payload active <= MaxGroupPayload config -> MaxGroupPayload config <= MaxUint32 ->
  exists payload, EncodeCommitGroup (descriptors next (select active flags)) (MaxGroupPayload config) = Ok payload.
Proof.
  intros Hc Hnd Hl Ha Hn Hmax Hp Hm. pose proof (select_len active flags Hl) as Hsl.
  pose proof (select_payload active flags) as Hsp.
  assert (Hcs : Forall commit_ok (select active flags)) by now apply select_forall.
  apply EncodeCommitGroup_total.
  - destruct (select active flags); [|discriminate]. rewrite len_nil in Hsl. congruence.
  - unfold validateDescriptors. apply andb_true_iff. split.
    + destruct (select active flags) as [|r rs] eqn:Es; [rewrite len_nil in Hsl; congruence|].
      cbn [descriptors]. rewrite len_cons. apply negb_true_iff, Z.eqb_neq.
      pose proof (len_nonneg (descriptors (next + 1) rs)). lia.
    + apply descriptors_valid; auto; [|set_solver|lia].
      eapply sublist_NoDup; [exact Hnd|]. apply sublist_map, select_sublist.
  - rewrite descriptors_bytes by exact Hcs. lia.
  - rewrite descriptors_bytes by exact Hcs. lia.
Qed.

(** ** Completion of the requests *)

(** Completion touches neither the coordinator, nor the log, nor what the
    mapping shows. *)
Record quiet (w w' : World L X) : Prop := mkQuiet {
  q_coord : w_coord w' = w_coord w;
  q_log : w_log w' = w_log w;
  q_index : ix_ok (w_index w) -> ix_ok (w_index w') /\
    ix_entries (w_index w') = ix_entries (w_index w) /\ ix_Covered (w_index w') = ix_Covered (w_index w);
}.

Lemma quiet_refl w : quiet w w.
Proof. constructor; auto. Qed.

Lemma quiet_trans w1 w2 w3 : quiet w1 w2 -> quiet w2 w3 -> quiet w1 w3.
Proof.
  intros [C1 L1 I1] [C2 L2 I2]. constructor; [congruence|congruence|]. intros H.
  destruct (I1 H) as (H1 & E1 & V1). destruct (I2 H1) as (H2 & E2 & V2). repeat split; congruence || assumption.
Qed.

Definition is_commit req : Prop := match rq_body req with User _ _ _ | Reloc _ _ _ => True | _ => False end.

Lemma commit_ok_is_commit req : commit_ok req -> is_commit req.
Proof. intros (_ & _ & H). unfold is_commit. destruct (rq_body req); auto. Qed.

Definition failure_answer req (e : goerror) : answer :=
  match rq_body req with Reloc _ _ _ => AnsRelocate (Err e) | _ => AnsCommit (Err e) end.

Definition success_answer req (seq : Z) (a : answer) : Prop :=
  match rq_body req with
  | User _ p _ => a = AnsCommit (Ok (pp_BatchID p, seq))
  | Reloc r _ g => exists applied skipped, a = AnsRelocate (Ok (mkRelocationResult (rl_BatchID r) seq applied skipped g)) /\
      applied + skipped = len (rl_Changes r)
  | _ => False
  end.

(** The batch of a user request has reached this state. *)
Definition settled (batches : gmap Z Batch) req (st : State) (seq : Z) : Prop :=
  match rq_body req with
  | User h _ _ => exists b, batches !! h = Some b /\ ba_state b = st /\ (st = StateCommitted -> ba_commitSeq b = seq)
  | _ => True
  end.

Definition frame_batches (batches batches' : gmap Z Batch) (hs : list Z) : Prop :=
  forall h, h ∉ hs -> batches' !! h = batches !! h.

Definition unknown_cause (unknown : bool) (cause : goerror) : goerror :=
  if unknown then base_ErrCommitUnknown :: cause else cause.
Definition failed_state (unknown : bool) : State := if unknown then StateCommitUnknown else StateAborted.

Lemma completeFailure_spec w req cause unknown accepted :
  is_commit req -> committing (w_batches w) req ->
  let w' := completeFailure w req cause unknown accepted in
  quiet w w' /\
  w_answers w' = w_answers w ++ [(rq_ticket req, failure_answer req (unknown_cause (unknown && accepted) cause))] /\
  settled (w_batches w') req (failed_state (unknown && accepted)) 0 /\
  frame_batches (w_batches w) (w_batches w') (handles [req]).
Proof.
  intros Hc Hb. cbv zeta. unfold completeFailure, is_commit, committing, failure_answer, settled, handles, unknown_cause, failed_state in *.
  set (w1 := release w req).
  assert (Hq : quiet w w1).
  { unfold w1, release. destruct (requestReserve req); [|apply quiet_refl]. constructor; cbn; auto.
    intros Hx. destruct (ix_release (w_index w) r Hx) as (? & ? & ? & _). auto. }
  assert (E1 : w_answers w1 = w_answers w /\ w_batches w1 = w_batches w) by (unfold w1, release; destruct (requestReserve req); auto).
  destruct E1 as [Ea Eb]. destruct (rq_body req) as [h p r|rl r g| |] eqn:Ebody; try contradiction.
  - destruct Hb as (b & Hb & Hs). unfold with_batch. rewrite Eb, Hb.
    assert (Hmark : forall st, st <> StateCommitted -> markTerminal b st = (clearLocked (set_state b st), Ok tt)).
    { intros st _. unfold markTerminal. now rewrite Hs. }
    unfold MarkCommitUnknown, MarkAborted. rewrite !Hmark by discriminate.
    assert (Hst : forall st a, st <> StateCommitted ->
      let w' := answer_to (set_batch w1 h (clearLocked (set_state b st))) (rq_ticket req) a in
      quiet w w' /\ w_answers w' = w_answers w ++ [(rq_ticket req, a)] /\
      (exists b', w_batches w' !! h = Some b' /\ ba_state b' = st /\ (st = StateCommitted -> ba_commitSeq b' = 0)) /\
      frame_batches (w_batches w) (w_batches w') (omap req_handle [req])).
    { intros st a Hne. cbn. rewrite Ea, Eb. split; [constructor; cbn; apply Hq|]. split; [reflexivity|]. split.
      - eexists. rewrite lookup_insert_eq. split; [reflexivity|]. cbn. split; [reflexivity|contradiction].
      - intros h' Hh. cbn. rewrite lookup_insert_ne; [reflexivity|]. intros ->. apply Hh. unfold req_handle. rewrite Ebody. constructor. }
    destruct (unknown && accepted); apply Hst; discriminate.
  - split; [constructor; cbn; apply Hq|]. cbn. rewrite Ea, Eb. repeat split; auto.
Qed.

Lemma completeSuccess_spec w req seq rp :
  is_commit req -> committing (w_batches w) req -> seq <> 0 ->
  (forall rl r g, rq_body req = Reloc rl r g -> len (rp_Changes rp) = len (rl_Changes rl) /\ len (rl_Changes rl) <= MaxUint32) ->
  exists w' a, completeSuccess w req seq rp = (w', Ok tt) /\ quiet w w' /\
    w_answers w' = w_answers w ++ [(rq_ticket req, a)] /\ success_answer req seq a /\
    settled (w_batches w') req StateCommitted seq /\
    frame_batches (w_batches w) (w_batches w') (handles [req]).
Proof.
  intros Hc Hb Hseq Hlen. unfold completeSuccess, is_commit, committing, success_answer, settled, handles in *.
  destruct (rq_body req) as [h p r|rl r g| |] eqn:Ebody; try contradiction.
  - destruct Hb as (b & Hb & Hs). unfold with_batch. rewrite Hb. unfold MarkCommitted. rewrite Hs.
    apply Z.eqb_neq in Hseq. rewrite Hseq. eexists _, _. split; [reflexivity|].
    split; [constructor; cbn; auto|]. split; [reflexivity|]. split; [reflexivity|]. cbn. split.
    + eexists. rewrite lookup_insert_eq. split; [reflexivity|]. cbn. auto.
    + intros h' Hh. rewrite lookup_insert_ne; [reflexivity|]. intros ->. apply Hh. unfold req_handle. rewrite Ebody. constructor.
  - eexists _, _. split; [reflexivity|]. split; [constructor; cbn; auto|]. split; [reflexivity|].
    destruct (Hlen rl r g eq_refl) as [El Hm]. split; [|split; [auto|intros h' _; reflexivity]].
    eexists _, _. split; [reflexivity|].
    pose proof (filter_split_perm rc_Apply (rp_Changes rp)) as Hp.
    assert (Hsum : len (filter (fun c => rc_Apply c = false) (rp_Changes rp)) + len (filter (fun c => rc_Apply c = true) (rp_Changes rp)) = len (rp_Changes rp)).
    { rewrite <- len_app. unfold len. now rewrite Hp. }
    pose proof (len_nonneg (filter (fun c => rc_Apply c = false) (rp_Changes rp))).
    pose proof (len_nonneg (filter (fun c => rc_Apply c = true) (rp_Changes rp))).
    rewrite !Z.mod_small by lia. lia.
Qed.

Lemma handles_cons req active : handles (req :: active) = handles [req] ++ handles active.
Proof. unfold handles. cbn. destruct (req_handle req); reflexivity. Qed.

Lemma frame_trans b1 b2 b3 hs hs' : frame_batches b1 b2 hs -> frame_batches b2 b3 hs' -> frame_batches b1 b3 (hs ++ hs').
Proof.
  intros H1 H2 h Hh. apply not_elem_of_app in Hh as [Hh1 Hh2]. rewrite (H2 h Hh2). now apply H1.
Qed.

Lemma committing_frame b1 b2 req active :
  frame_batches b1 b2 (handles [req]) -> NoDup (handles (req :: active)) ->
  Forall (committing b1) active -> Forall (committing b2) active.
Proof.
  rewrite (handles_cons req active). intros Hf (_ & Hd & _)%NoDup_app Hc. apply Forall_forall. intros r Hr.
  rewrite Forall_forall in Hc. specialize (Hc r Hr). unfold committing in *.
  destruct (rq_body r) as [h p x| | |] eqn:E; auto. destruct Hc as (b & Hb & Hs). exists b. split; [|exact Hs].
  rewrite Hf; [exact Hb|]. intros Hin. apply (Hd h Hin). unfold handles. apply list_elem_of_omap.
  exists r. split; [exact Hr|]. unfold req_handle. now rewrite E.
Qed.

Lemma settled_frame b1 b2 req active st seq :
  frame_batches b1 b2 (handles active) -> NoDup (handles (req :: active)) ->
  settled b1 req st seq -> settled b2 req st seq.
Proof.
  rewrite (handles_cons req active). intros Hf (_ & Hd & _)%NoDup_app. unfold settled.
  destruct (rq_body req) as [h p x| | |] eqn:E; auto. intros (b & Hb & Hs). exists b. split; [|exact Hs].
  rewrite Hf; [exact Hb|]. apply Hd. unfold handles, req_handle. cbn. rewrite E. constructor.
Qed.

(** The callers' view of a committed group: accepted requests are numbered from
    [next], rejected ones are conflicts. *)
Fixpoint outcome (batches : gmap Z Batch) (next : Z) (active : list (request R)) (flags : list bool) (answers : list (Z * answer)) : Prop :=
  match active, flags, answers with
  | [], [], [] => True
  | req :: active', f :: flags', (t, a) :: answers' =>
      t = rq_ticket req /\
      (if f then success_answer req next a /\ settled batches req StateCommitted next
       else a = failure_answer req [base_ErrConflict] /\ settled batches req StateAborted 0) /\
      outcome batches (if f then next + 1 else next) active' flags' answers'
  | _, _, _ => False
  end.

(** The callers' view of a group whose append or publication failed. *)
Fixpoint failed_outcome (batches : gmap Z Batch) (unknown : bool) (cause : goerror)
    (active : list (request R)) (flags : list bool) (answers : list (Z * answer)) : Prop :=
  match active, flags, answers with
  | [], [], [] => True
  | req :: active', f :: flags', (t, a) :: answers' =>
      t = rq_ticket req /\
      (if f then a = failure_answer req (unknown_cause unknown cause) /\ settled batches req (failed_state unknown) 0
       else a = failure_answer req [base_ErrConflict] /\ settled batches req StateAborted 0) /\
      failed_outcome batches unknown cause active' flags' answers'
  | _, _, _ => False
  end.

Definition applied_sizes req (rp : ResolvedProposal) : Prop :=
  rp_Accepted rp = true -> forall rl r g, rq_body req = Reloc rl r g ->
    len (rp_Changes rp) = len (rl_Changes rl) /\ len (rl_Changes rl) <= MaxUint32.

Lemma complete_group_spec active : forall rps w next,
  Forall2 applied_sizes active rps ->
  Forall is_commit active -> Forall (committing (w_batches w)) active -> NoDup (handles active) -> 1 <= next ->
  exists w' answers, complete_group w active rps (sequences next (map rp_Accepted rps)) = w' /\ quiet w w' /\
    w_answers w' = w_answers w ++ answers /\ outcome (w_batches w') next active (map rp_Accepted rps) answers /\
    frame_batches (w_batches w) (w_batches w') (handles active).
Proof.
  induction active as [|req active IH]; intros rps w next Hs Hc Hb Hnd Hn.
  { inversion Hs; subst. exists w, []. cbn. rewrite app_nil_r. repeat split; auto. }
  inversion Hs as [|? rp ? rps' Hsz Hs']; subst. apply Forall_cons_iff in Hc as [Hc Hcs]. apply Forall_cons_iff in Hb as [Hb Hbs].
  assert (Hnd' : NoDup (handles active)) by (rewrite (handles_cons req active) in Hnd; now apply NoDup_app in Hnd as (_ & _ & ?)).
  cbn [map sequences]. destruct (rp_Accepted rp) eqn:Ea; cbn [complete_group]; rewrite Ea.
  - destruct (completeSuccess_spec w req next rp Hc Hb ltac:(lia)) as (w1 & a & -> & Hq & Ean & Hsa & Hset & Hf).
    { intros rl r g E. now apply (Hsz Ea rl r g). }
    destruct (IH rps' w1 (next + 1) Hs' Hcs (committing_frame _ _ _ _ Hf Hnd Hbs) Hnd' ltac:(lia)) as (w2 & as2 & E2 & Hq2 & Ea2 & Ho2 & Hf2).
    exists w2, ((rq_ticket req, a) :: as2). split; [exact E2|]. split; [eapply quiet_trans; eauto|].
    split; [rewrite Ea2, Ean, <- app_assoc; reflexivity|]. split.
    + cbn. split; [reflexivity|]. split; [|exact Ho2]. split; [exact Hsa|]. eapply settled_frame; eauto.
    + rewrite (handles_cons req active). eapply frame_trans; eauto.
  - destruct (completeFailure_spec w req [base_ErrConflict] false false Hc Hb) as (Hq & Ean & Hset & Hf).
    destruct (IH rps' _ next Hs' Hcs (committing_frame _ _ _ _ Hf Hnd Hbs) Hnd' Hn) as (w2 & as2 & E2 & Hq2 & Ea2 & Ho2 & Hf2).
    exists w2. eexists (_ :: as2). split; [exact E2|]. split; [eapply quiet_trans; eauto|].
    split; [rewrite Ea2, Ean, <- app_assoc; reflexivity|]. split.
    + cbn. split; [reflexivity|]. split; [|exact Ho2]. split; [reflexivity|]. eapply settled_frame; eauto.
    + rewrite (handles_cons req active). eapply frame_trans; eauto.
Qed.

Lemma fail_group_spec active cause unknown : forall rps w,
  length rps = length active ->
  Forall is_commit active -> Forall (committing (w_batches w)) active -> NoDup (handles active) ->
  exists w' answers, fail_group w active rps cause unknown = w' /\ quiet w w' /\
    w_answers w' = w_answers w ++ answers /\
    failed_outcome (w_batches w') unknown cause active (map rp_Accepted rps) answers /\
    frame_batches (w_batches w) (w_batches w') (handles active).
Proof.
  induction active as [|req active IH]; intros rps w Hl Hc Hb Hnd.
  { destruct rps; [|discriminate]. exists w, []. cbn. rewrite app_nil_r. repeat split; auto. }
  destruct rps as [|rp rps]; [discriminate|]. apply Forall_cons_iff in Hc as [Hc Hcs]. apply Forall_cons_iff in Hb as [Hb Hbs].
  assert (Hnd' : NoDup (handles active)) by (rewrite (handles_cons req active) in Hnd; now apply NoDup_app in Hnd as (_ & _ & ?)).
  cbn [map fail_group]. cbv zeta.
  destruct (completeFailure_spec w req cause unknown true Hc Hb) as (Hq & Ean & Hset & Hf).
  destruct (completeFailure_spec w req [base_ErrConflict] false false Hc Hb) as (Hq' & Ean' & Hset' & Hf').
  rewrite andb_true_r in *.
  destruct (rp_Accepted rp) eqn:Ea.
  - destruct (IH rps _ ltac:(cbn in Hl; lia) Hcs (committing_frame _ _ _ _ Hf Hnd Hbs) Hnd') as (w2 & as2 & E2 & Hq2 & Ea2 & Ho2 & Hf2).
    exists w2. eexists (_ :: as2). split; [exact E2|]. split; [exact (quiet_trans _ _ _ Hq Hq2)|].
    split; [rewrite Ea2, Ean, <- app_assoc; reflexivity|]. split.
    + cbn. split; [reflexivity|]. split; [|exact Ho2]. split; [reflexivity|]. exact (settled_frame _ _ _ _ _ _ Hf2 Hnd Hset).
    + rewrite (handles_cons req active). exact (frame_trans _ _ _ _ _ Hf Hf2).
  - destruct (IH rps _ ltac:(cbn in Hl; lia) Hcs (committing_frame _ _ _ _ Hf' Hnd Hbs) Hnd') as (w2 & as2 & E2 & Hq2 & Ea2 & Ho2 & Hf2).
    exists w2. eexists (_ :: as2). split; [exact E2|]. split; [exact (quiet_trans _ _ _ Hq' Hq2)|].
    split; [rewrite Ea2, Ean', <- app_assoc; reflexivity|]. split.
    + cbn. split; [reflexivity|]. split; [|exact Ho2]. split; [reflexivity|]. exact (settled_frame _ _ _ _ _ _ Hf2 Hnd Hset').
    + rewrite (handles_cons req active). exact (frame_trans _ _ _ _ _ Hf' Hf2).
Qed.

Lemma rejectGroup_spec e active : forall w,
  Forall is_commit active -> Forall (committing (w_batches w)) active -> NoDup (handles active) ->
  let w' := rejectGroup w active e in
  quiet w w' /\ w_answers w' = w_answers w ++ map (fun req => (rq_ticket req, failure_answer req e)) active /\
  Forall (fun req => settled (w_batches w') req StateAborted 0) active /\
  frame_batches (w_batches w) (w_batches w') (handles active).
Proof.
  unfold rejectGroup. induction active as [|req active IH]; intros w Hc Hb Hnd; cbv zeta; cbn [foldl map].
  { rewrite app_nil_r. split; [apply quiet_refl|]. split; [reflexivity|]. split; [constructor|]. intros h _. reflexivity. }
  apply Forall_cons_iff in Hc as [Hc Hcs]. apply Forall_cons_iff in Hb as [Hb Hbs].
  assert (Hnd' : NoDup (handles active)) by (rewrite (handles_cons req active) in Hnd; now apply NoDup_app in Hnd as (_ & _ & ?)).
  destruct (completeFailure_spec w req e false false Hc Hb) as (Hq & Ean & Hset & Hf).
  destruct (IH _ Hcs (committing_frame _ _ _ _ Hf Hnd Hbs) Hnd') as (Hq2 & Ea2 & Hs2 & Hf2).
  split; [exact (quiet_trans _ _ _ Hq Hq2)|]. split; [rewrite Ea2, Ean, <- app_assoc; reflexivity|]. split.
  - constructor; [exact (settled_frame _ _ _ _ _ _ Hf2 Hnd Hset)|exact Hs2].
  - rewrite (handles_cons req active). exact (frame_trans _ _ _ _ _ Hf Hf2).
Qed.

(** ** The size of the plan *)

Definition mutation_total (active : list (request R)) : Z := foldr (fun req acc => requestMutations req + acc) 0 active.

Lemma req_bytes_eq req : commit_ok req -> req_bytes req = 40 + 32 * requestMutations req /\ 0 <= requestMutations req <= MaxUint32.
Proof.
  intros (_ & Hs & _). unfold req_bytes, requestDescriptorSize in *.
  assert (0 <= requestMutations req) by (unfold requestMutations; destruct (rq_body req); try apply len_nonneg; lia).
  destruct (DescriptorSize (requestMutations req)) eqn:E; [|discriminate]. apply DescriptorSize_spec in E as [-> ?]; lia.
Qed.

Lemma mutation_total_bound active : Forall commit_ok active -> 0 <= mutation_total active /\ 32 * mutation_total active <= group_payload active.
Proof.
  unfold mutation_total, group_payload, CommitGroupHeadSize.
  induction 1 as [|req active Hr _ IH]; [cbn [foldr]; lia|].
  cbn [foldr]. destruct (req_bytes_eq req Hr). lia.
Qed.

Lemma requestMutations_changes req : commit_ok req -> len (pr_Changes (requestProposal req)) = requestMutations req.
Proof.
  intros (_ & _ & Hb). unfold requestProposal, requestMutations. destruct (rq_body req); try contradiction; [|reflexivity].
  cbn. apply len_map.
Qed.

Lemma applied_split rcs :
  len (filter (fun rc => rc_Apply rc = true) rcs) + len (filter (fun rc => rc_Apply rc = false) rcs) = len rcs.
Proof.
  pose proof (filter_split_perm rc_Apply rcs) as Hp. apply Permutation_length in Hp. rewrite length_app in Hp. unfold len. lia.
Qed.

Lemma plan_counts active rps : Forall commit_ok active -> Forall2 resolved_of (map requestProposal active) rps ->
  0 <= applied_count rps /\ 0 <= skipped_count rps /\ applied_count rps + skipped_count rps <= mutation_total active.
Proof.
  intros Hc Hr. revert Hc. remember (map requestProposal active) as ps eqn:E. revert active E.
  induction Hr as [|p rp ps rps [Hk Hr] _ IH]; intros active E Hc; [destruct active; [cbn; lia|discriminate]|].
  destruct active as [|req active]; [discriminate|]. injection E as -> ->. apply Forall_cons_iff in Hc as [Hc Hcs].
  destruct (IH active eq_refl Hcs) as (H1 & H2 & H3). pose proof (requestMutations_changes req Hc) as Hm.
  unfold applied_count, skipped_count, mutation_total in *. cbn [foldr].
  pose proof (applied_split (rp_Changes rp)) as Hsp.
  pose proof (len_nonneg (filter (fun rc => rc_Apply rc = true) (rp_Changes rp))).
  pose proof (len_nonneg (filter (fun rc => rc_Apply rc = false) (rp_Changes rp))).
  destruct (req_bytes_eq req Hc) as [_ Hb].
  destruct (rp_Accepted rp); [|lia]. destruct Hr as [Hr _]. apply (f_equal len) in Hr. rewrite len_map in Hr. lia.
Qed.

Lemma plan_applied_sizes active rps : Forall commit_ok active -> Forall2 resolved_of (map requestProposal active) rps ->
  Forall2 applied_sizes active rps.
Proof.
  intros Hc Hr. revert Hc. remember (map requestProposal active) as ps eqn:E. revert active E.
  induction Hr as [|p rp ps rps [Hk Hr] _ IH]; intros active E Hc; (destruct active as [|req active]; [try constructor; discriminate|]); [discriminate|].
  injection E as -> ->. apply Forall_cons_iff in Hc as [Hc Hcs]. constructor; [|now apply IH].
  intros Ha rl r g Eb. rewrite Ha in Hr. destruct Hr as [Hr _]. apply (f_equal len) in Hr. rewrite len_map in Hr.
  pose proof (requestMutations_changes req Hc) as Hm. destruct (req_bytes_eq req Hc) as [_ Hb].
  unfold requestMutations in *. rewrite Eb in *. lia.
Qed.

(** ** Processing a group *)

(** The requests as they are resolved: users first, redirected. *)
Definition active_of w (group : list (request R)) : list (request R) :=
  map (applyCommitRedirects (w_coord w)) (orderUserBeforeRelocation group).

Definition proposals_of w group : list Proposal := map requestProposal (active_of w group).

(** The group committed: what changed, and for whom. *)
Record committed w group (l' : L) w' : Prop := mkCommitted {
  cm_log : w_log w' = l';
  cm_fault : c_fault (w_coord w') = None;
  cm_coord : coord_ok (w_coord w') (w_index w');
  cm_index : ix_ok (w_index w');
  cm_entries : ix_entries (w_index w') = spec_group (ix_entries (w_index w)) (proposals_of w group);
  cm_covered : ix_Covered (w_index w') =
    ix_Covered (w_index w) + accepted_of (spec_flags (ix_entries (w_index w)) (proposals_of w group));
  cm_outcome : exists answers, w_answers w' = w_answers w ++ answers /\
    outcome (w_batches w') (c_next (w_coord w)) (active_of w group)
      (spec_flags (ix_entries (w_index w)) (proposals_of w group)) answers;
}.

(** The append failed: nothing is visible and the coordinator is faulted. *)
Record append_failed w group (l' : L) (e : goerror) w' : Prop := mkAppendFailed {
  af_log : w_log w' = l';
  af_fault : c_fault (w_coord w') = Some e;
  af_index : ix_ok (w_index w') /\ ix_entries (w_index w') = ix_entries (w_index w) /\
    ix_Covered (w_index w') = ix_Covered (w_index w);
  af_outcome : exists answers, w_answers w' = w_answers w ++ answers /\
    failed_outcome (w_batches w') (log_poisoned l') e (active_of w group)
      (spec_flags (ix_entries (w_index w)) (proposals_of w group)) answers;
}.

(** Every request was refused before anything was written. *)
Record refused w group (e : goerror) w' : Prop := mkRefused {
  rf_quiet : quiet w w';
  rf_answers : w_answers w' = w_answers w ++ map (fun req => (rq_ticket req, failure_answer req e)) (active_of w group);
  rf_batches : Forall (fun req => settled (w_batches w') req StateAborted 0) (active_of w group);
}.

Record process_pre (config : Config) w (group : list (request R)) : Prop := mkProcessPre {
  pp_index : ix_ok (w_index w);
  pp_coord : coord_ok (w_coord w) (w_index w);
  pp_fault : c_fault (w_coord w) = None;
  pp_some : group <> [];
  pp_ready : group_ready (w_index w) (w_batches w) group;
  pp_count : len group <= MaxUint32;
  pp_payload : group_payload group <= MaxGroupPayload config;
  pp_limit : MaxGroupPayload config <= MaxUint32;
  pp_bytes : total_bytes (ix_entries (w_index w)) + group_bytes (proposals_of w group) <= MaxUint64;
}.

Lemma group_payload_perm group group' : group ≡ₚ group' -> group_payload group = group_payload group'.
Proof. unfold group_payload. induction 1; cbn; lia. Qed.

Lemma group_payload_redirect c group : group_payload (map (applyCommitRedirects c) group) = group_payload group.
Proof.
  unfold group_payload. induction group as [|req group IH]; cbn [map foldr]; [reflexivity|]. rewrite IH.
  unfold req_bytes, requestDescriptorSize. destruct (redirect_keeps c req) as (_ & _ & _ & _ & ->). reflexivity.
Qed.

Lemma active_ready config w group : process_pre config w group ->
  group_ready (w_index w) (w_batches w) (active_of w group) /\ group_ok (proposals_of w group) /\
  group_payload (active_of w group) <= MaxGroupPayload config /\ length (active_of w group) = length group.
Proof.
  intros [Hx (Hn & _ & Hr) Hf Hne Hg Hc Hp Hl Hb]. unfold active_of, proposals_of.
  assert (Hg' : group_ready (w_index w) (w_batches w) (active_of w group)).
  { apply group_ready_redirect; [exact Hr|]. eapply group_ready_perm; [symmetry; apply order_perm|exact Hg]. }
  assert (Hlen : length (active_of w group) = length group).
  { unfold active_of. rewrite length_map. apply Permutation_length, order_perm. }
  split; [exact Hg'|]. split.
  - unfold group_ok, active_of in *. split; [|split].
    + intros E. apply map_eq_nil in E. rewrite E in Hlen. destruct group; [contradiction|discriminate].
    + unfold len in *. rewrite length_map, Hlen. exact Hc.
    + apply Forall_map. eapply Forall_impl; [apply (gr_commits _ _ _ Hg')|]. cbn. now intros req [? _].
  - split; [|exact Hlen]. rewrite group_payload_redirect, (group_payload_perm _ _ (order_perm group)). exact Hp.
Qed.

Lemma reserves_covers x batches active : group_ready x batches active ->
  Forall2 (fun r p => ix_covers x r (changed_ids p)) (reserves active) (map requestProposal active).
Proof.
  intros [_ _ Hres _ _ _]. unfold reserves. induction Hres as [|req active Hr _ IH]; [constructor|].
  unfold reserved in Hr. cbn. destruct (requestReserve req); [|contradiction]. now constructor.
Qed.

Lemma spec_flags_length ps : forall S, length (spec_flags S ps) = length ps.
Proof. induction ps as [|p ps IH]; intros S; cbn; [reflexivity|]. now rewrite IH. Qed.

Lemma first_descriptor next reqs : reqs <> [] -> Forall commit_ok reqs ->
  match descriptors next reqs with d :: _ => de_CommitSeq d | [] => 0 end = next.
Proof. destruct reqs as [|r rs]; [contradiction|]. intros _ Hc. apply Forall_inv in Hc. cbn. now apply (descriptor_fields r next). Qed.

Lemma descriptors_length reqs : forall next, len (descriptors next reqs) = len reqs.
Proof. induction reqs as [|r rs IH]; intros next; cbn [descriptors]; [reflexivity|]. now rewrite !len_cons, IH. Qed.

Lemma coord_ok_keep c x x' : ix_Covered x' = ix_Covered x -> coord_ok c x -> coord_ok c x'.
Proof. unfold coord_ok. now intros ->. Qed.

(** The part of [process] after encoding, when the append succeeds. *)
Lemma process_commit_ok config w group plan payload l' r :
  let S := ix_entries (w_index w) in
  let flags := spec_flags S (proposals_of w group) in
  let next := c_next (w_coord w) in
  process_pre config w group ->
  ix_ResolveGroup (w_index w) (proposals_of w group) = Ok plan ->
  plan_view S (ix_Covered (w_index w)) (proposals_of w group) plan ->
  accepted_of flags <> 0 -> next + accepted_of flags <= MaxUint64 ->
  log_append (w_log w) payload true = (l', Ok r) ->
  committed w group l'
    (process_commit w (active_of w group) plan (sequences next flags)
       (descriptors next (select (active_of w group) flags)) (next + accepted_of flags) payload).
Proof.
  intros S flags next Hpre Hplan Hview Ha Hmax Hlog. pose proof (active_ready config w group Hpre) as (Hg & Hok & Hpay & Hlen).
  destruct Hpre as [Hx (Hn & Hcov & Hr) Hf Hne _ Hc _ Hl Hb]. destruct Hview as [V1 V2 V3 V4].
  pose proof (accepted_of_nonneg flags) as Hnn. fold S in Hb.
  destruct (ix_wf (w_index w) Hx) as (Hu & _ & _).
  assert (Hfl : length flags = length (active_of w group)).
  { unfold flags, proposals_of. now rewrite spec_flags_length, length_map. }
  pose proof (gr_commits _ _ _ Hg) as Hcs.
  assert (Hsel : select (active_of w group) flags <> []).
  { intros E. pose proof (select_len _ _ Hfl) as E2. rewrite E, len_nil in E2. congruence. }
  unfold process_commit. rewrite Hlog. cbn [set_log w_index].
  rewrite (first_descriptor next _ Hsel) by (now apply select_forall).
  replace next with (ix_Covered (w_index w) + 1) at 1 by (unfold next; lia).
  destruct (ix_publish (w_index w) (proposals_of w group) plan (reserves (active_of w group)) Hx Hok (active_u _ (gr_commits _ _ _ Hg)) Hplan)
    as (x' & -> & Hx' & Hent & Hcv & _); auto.
  { now apply (reserves_covers _ (w_batches w)). }
  { apply (gr_sep _ _ _ Hg). }
  { fold S flags. unfold next in *. unfold is_u64 in Hu. lia. }
  fold S flags in Hent, Hcv.
  assert (Hcnt := plan_counts _ _ Hcs V4). destruct (mutation_total_bound _ Hcs) as [_ Hmb].
  assert (Hm : publish_matches (publish_result plan) (descriptors next (select (active_of w group) flags)) plan = true).
  { unfold publish_matches, publish_result. cbn [pb_Committed pb_Applied pb_Skipped].
    rewrite descriptors_length, (select_len _ _ Hfl), accepted_count_flags, V3.
    rewrite (Z.mod_small (applied_count _)), (Z.mod_small (skipped_count _)) by lia. now rewrite !Z.eqb_refl. }
  rewrite Hm.
  match goal with |- committed _ _ _ (complete_group ?w0 _ _ _) => set (w1 := w0) end.
  destruct (complete_group_spec (active_of w group) (gp_Proposals plan) w1 next) as (w' & answers & E' & [Q1 Q2 Q3] & Ean & Hout & _).
  { now apply plan_applied_sizes. }
  { eapply Forall_impl; [exact Hcs|]. apply commit_ok_is_commit. }
  { apply (gr_committing _ _ _ Hg). }
  { apply (gr_handles _ _ _ Hg). }
  { unfold next, is_u64 in *. lia. }
  rewrite V3 in E', Hout. fold S flags in E', Hout. rewrite E'.
  destruct (Q3 Hx') as (O1 & O2 & O3). cbn in O2, O3, Q1, Q2, Ean.
  constructor.
  - exact Q2.
  - rewrite Q1. exact Hf.
  - rewrite Q1. apply (coord_ok_keep _ x' _ O3). split; cbn [c_next]; [rewrite Hcv; unfold next; lia|]. split; [|exact Hr].
    rewrite Hcv. unfold next in Hmax. lia.
  - exact O1.
  - rewrite O2. exact Hent.
  - rewrite O3. exact Hcv.
  - exists answers. split; [exact Ean|]. exact Hout.
Qed.

Lemma process_spec config w group :
  let S := ix_entries (w_index w) in
  let flags := spec_flags S (proposals_of w group) in
  let next := c_next (w_coord w) in
  process_pre config w group ->
  (accepted_of flags = 0 -> refused w group [base_ErrConflict] (process config w group)) /\
  (accepted_of flags <> 0 -> MaxUint64 < next + accepted_of flags ->
   refused w group [base_ErrGenerationExhausted] (process config w group)) /\
  (accepted_of flags <> 0 -> next + accepted_of flags <= MaxUint64 ->
   exists payload,
     EncodeCommitGroup (descriptors next (select (active_of w group) flags)) (MaxGroupPayload config) = Ok payload /\
     match log_append (w_log w) payload true with
     | (l', Ok _) => committed w group l' (process config w group)
     | (l', Err e) => append_failed w group l' e (process config w group)
     end).
Proof.
  intros S flags next Hpre. pose proof (active_ready config w group Hpre) as (Hg & Hok & Hpay & Hlen).
  pose proof Hpre as [Hx (Hn & Hcov & Hr) Hf Hne _ Hc _ Hl Hb].
  pose proof (gr_commits _ _ _ Hg) as Hcs.
  assert (Hic : Forall is_commit (active_of w group)) by (eapply Forall_impl; [exact Hcs|apply commit_ok_is_commit]).
  pose proof (gr_committing _ _ _ Hg) as Hcm. pose proof (gr_handles _ _ _ Hg) as Hhd.
  destruct (ix_resolve (w_index w) (proposals_of w group) Hx Hok (active_u _ (gr_commits _ _ _ Hg))) as (plan & Hplan & Hview).
  pose proof Hview as [V1 V2 V3 V4].
  assert (Hpl : length (gp_Proposals plan) = length (active_of w group)).
  { apply Forall2_length in V4. unfold proposals_of in V4. rewrite length_map in V4. congruence. }
  assert (Hfl : length flags = length (active_of w group)).
  { unfold flags, proposals_of. now rewrite spec_flags_length, length_map. }
  unfold process. rewrite Hf. fold (active_of w group). fold (proposals_of w group).
  assert (Hl0 : (len (active_of w group) =? 0) = false).
  { apply Z.eqb_neq. intros E. apply len_zero_nil in E. rewrite E in Hlen. destruct group; [contradiction|discriminate]. }
  rewrite Hl0, Hplan.
  assert (Href : forall e, refused w group e (rejectGroup w (active_of w group) e)).
  { intros e. destruct (rejectGroup_spec e (active_of w group) w Hic Hcm Hhd) as (R1 & R2 & R3 & _). now constructor. }
  assert (Hu : 1 <= next <= MaxUint64) by (destruct (ix_wf _ Hx) as (Hu & _); unfold next, is_u64 in *; lia).
  split; [|split].
  - intros H0. rewrite number_spec by (try exact Hpl; rewrite V3; fold S flags; lia). rewrite V3. fold S flags.
    pose proof (select_len _ _ Hfl) as Hs. rewrite H0 in Hs. apply len_zero_nil in Hs. rewrite Hs. apply Href.
  - intros Ha Hex. rewrite number_exhausted; [apply Href|exact Hpl|]. rewrite V3. fold S flags next. lia.
  - intros Ha Hmax. rewrite number_spec by (try exact Hpl; rewrite V3; fold S flags; exact Hmax). rewrite V3. fold S flags next.
    destruct (group_encodes config next (active_of w group) flags) as [payload Ep]; auto; try lia; [apply (gr_ids _ _ _ Hg)|].
    exists payload. split; [exact Ep|].
    replace (len (descriptors next (select (active_of w group) flags)) =? 0) with false
      by (symmetry; apply Z.eqb_neq; rewrite descriptors_length, (select_len _ _ Hfl); exact Ha).
    rewrite Ep. destruct (log_append (w_log w) payload true) as [l' [r|e]] eqn:Elog.
    + eapply process_commit_ok; eauto.
    + unfold process_commit. rewrite Elog.
      match goal with |- append_failed _ _ _ _ (fail_group ?w0 _ _ _ _) => set (w1 := w0) end.
      assert (E1 : w_index w1 = w_index w /\ w_batches w1 = w_batches w /\ w_answers w1 = w_answers w /\ w_log w1 = l' /\ c_fault (w_coord w1) = Some e).
      { unfold w1, fail. cbn. rewrite Hf. auto. }
      destruct E1 as (E1 & E2 & E3 & E4 & E5).
      destruct (fail_group_spec (active_of w group) e (log_poisoned l') (gp_Proposals plan) w1) as (w' & answers & -> & [Q1 Q2 Q3] & Ean & Hout & _); auto.
      { now rewrite E2. }
      rewrite E1 in Q3. destruct (Q3 Hx) as (O1 & O2 & O3). rewrite V3 in Hout. constructor; try congruence; [auto|].
      exists answers. split; [congruence|exact Hout].
Qed.

(** ** After a fault *)

Lemma completeFailure_quiet w req cause unknown accepted : quiet w (completeFailure w req cause unknown accepted).
Proof.
  assert (Hrel : quiet w (release w req)).
  { unfold release. destruct (requestReserve req); [|apply quiet_refl]. constructor; cbn; auto.
    intros Hx. destruct (ix_release (w_index w) r Hx) as (? & ? & ? & _). auto. }
  unfold completeFailure, with_batch. destruct (rq_body req) as [h p r|rl r g| |]; [| |exact Hrel|exact Hrel].
  - destruct (unknown && accepted); (destruct (w_batches (release w req) !! h) as [b|];
      [destruct (_ b) as [b' x]|]); constructor; cbn; apply Hrel.
  - constructor; cbn; apply Hrel.
Qed.

Lemma perform_faulted config w a e : c_fault (w_coord w) = Some e -> quiet w (perform config w a).
Proof.
  intros Hf. destruct a as [group|req err|req|req install release]; cbn [perform].
  - unfold process. rewrite Hf. clear Hf. revert w. induction group as [|req group IH]; intros w; cbn; [apply quiet_refl|].
    eapply quiet_trans; [apply completeFailure_quiet|apply IH].
  - apply completeFailure_quiet.
  - unfold processCheckpoint. rewrite Hf. constructor; cbn; auto.
  - unfold processRedirect. rewrite Hf. constructor; cbn; auto.
Qed.

Lemma run_faulted config acts : forall w e, c_fault (w_coord w) = Some e -> quiet w (foldl (perform config) w acts).
Proof.
  induction acts as [|a acts IH]; intros w e Hf; cbn; [apply quiet_refl|].
  pose proof (perform_faulted config w a e Hf) as Hq. eapply quiet_trans; [exact Hq|]. apply (IH _ e).
  now rewrite (q_coord _ _ Hq).
Qed.
End Spec.

(** C2: processing one group of well-formed requests.  If no proposal is accepted
    every caller gets a conflict; if the sequence space would be exhausted every
    caller is told so; in both cases nothing is written.  Otherwise exactly one
    commit group is encoded, holding the accepted requests (users before
    relocations) with consecutive sequence numbers from [c_next], and appended
    durably.  When the append succeeds the mapping becomes the serial execution
    of the proposals, the covered sequence and [c_next] advance together, every
    accepted caller gets its sequence number with its batch Committed, and every
    rejected caller gets a conflict with its batch Aborted.  When it fails
    nothing becomes visible, the coordinator is faulted, and the accepted callers
    learn whether the outcome is unknown (poisoned log). *)
Theorem process_group_correct {L : Type} `{!AppendLog L} `{!AppendLogLaws L} {X R : Type} `{!Index X R} `{!IndexLaws X R}
    config (w : World L X) (group : list (request R)) :
  process_pre config w group ->
  let flags := spec_flags (ix_entries (w_index w)) (proposals_of w group) in
  let next := c_next (w_coord w) in
  (accepted_of flags = 0 -> refused w group [base_ErrConflict] (process config w group)) /\
  (accepted_of flags <> 0 -> MaxUint64 < next + accepted_of flags ->
   refused w group [base_ErrGenerationExhausted] (process config w group)) /\
  (accepted_of flags <> 0 -> next + accepted_of flags <= MaxUint64 ->
   exists payload,
     EncodeCommitGroup (descriptors next (select (active_of w group) flags)) (MaxGroupPayload config) = Ok payload /\
     match log_append (w_log w) payload true with
     | (l', Ok _) => committed w group l' (process config w group)
     | (l', Err e) => append_failed w group l' e (process config w group)
     end).
Proof. intros Hpre. exact (process_spec config w group Hpre). Qed.

(** A fault is final.  Once the coordinator is faulted, whatever requests
    arrive, the loop never appends to the log again, never changes what the
    mapping shows, and keeps the first fault. *)
Theorem fault_is_final {L : Type} `{!AppendLog L} `{!AppendLogLaws L} {X R : Type} `{!Index X R} `{!IndexLaws X R}
    config (w : World L X) e (events : list (event R)) w' ph' :
  c_fault (w_coord w) = Some e -> ix_ok (w_index w) -> run config (w, Idle) events = (w', ph') ->
  w_log w' = w_log w /\ w_coord w' = w_coord w /\ ix_entries (w_index w') = ix_entries (w_index w) /\
  ix_Covered (w_index w') = ix_Covered (w_index w).
Proof.
  intros Hf Hx E. rewrite run_sched in E. injection E as <- _.
  destruct (run_faulted config (sched_run config Idle events).2 w e Hf) as [Q1 Q2 Q3].
  destruct (Q3 Hx) as (_ & Q4 & Q5). auto.
Qed.

(** ** A concrete group: two batches race to create id 1 *)

Definition race_prepared (id : Z) (ref : RecordRef) : Prepared :=
  mkPrepared id [mkBMutation 1 OpPut ref 8] [mkCondition 1 0] 8.
Definition race_batch (id : Z) : Batch := mkBatch id StateCommitting example_limits ∅ ∅ 8 0.
Definition race_group : list (request unit) :=
  [mkRequest 10 (User 1 (race_prepared 21 ref_a) tt); mkRequest 11 (User 2 (race_prepared 22 ref_b) tt)].
Definition race_world : World MemLog Mapping :=
  mkWorld (mkCoordinator 1 None false ∅ 0) (emptyLog []) NewEmpty {[1 := race_batch 21; 2 := race_batch 22]} [].

Lemma race_ready : process_pre example_config race_world race_group.
Proof.
  constructor.
  - apply NewEmpty_ok.
  - split; [reflexivity|]. split; [vm_compute; reflexivity|]. intros old new. cbn. rewrite lookup_empty. discriminate.
  - reflexivity.
  - discriminate.
  - constructor.
    + repeat (apply Forall_cons_iff; split; [|]); [| |constructor];
        (split; [vm_compute; reflexivity|]; split; [vm_compute; reflexivity|]);
        unfold prepared_u, ref_u; cbn; solve_u.
    + repeat (apply Forall_cons_iff; split; [|]); [| |constructor]; eexists; split; vm_compute; reflexivity.
    + repeat constructor.
    + repeat constructor.
    + apply (bool_decide_unpack _). vm_compute. exact I.
    + apply (bool_decide_unpack _). vm_compute. exact I.
  - vm_compute. discriminate.
  - vm_compute. discriminate.
  - vm_compute. discriminate.
  - vm_compute. discriminate.
Qed.

Definition race_payload : list Z :=
  match EncodeCommitGroup (descriptors 1 (select (active_of race_world race_group) [true; false])) 4096 with
  | Ok payload => payload | Err _ => [] end.

Lemma process_group_correct_witness :
  committed race_world race_group (log_append (emptyLog []) race_payload true).1
    (process example_config race_world race_group).
Proof.
  destruct (process_group_correct example_config race_world race_group race_ready) as (_ & _ & H).
  destruct H as (payload & Ep & Hc); [vm_compute; discriminate|vm_compute; discriminate|].
  assert (E : payload = race_payload).
  { apply Ok_inj. rewrite <- Ep. vm_compute. reflexivity. }
  rewrite E in Hc. clear E Ep.
  assert (Hlog : exists l r, log_append (w_log race_world) race_payload true = (l, Ok r)).
  { eexists _, _. vm_compute. reflexivity. }
  destruct Hlog as (l & r & El). rewrite El in Hc. change (emptyLog []) with (w_log race_world). rewrite El. exact Hc.
Defined.

Lemma fault_is_final_witness :
  let w := mkWorld (mkCoordinator 1 (Some [io_Error]) false ∅ 0) (emptyLog []) NewEmpty ∅ [] in
  w_log (run example_config (w, Idle) example_events).1 = emptyLog [].
Proof.
  refine (proj1 (fault_is_final example_config
    (mkWorld (mkCoordinator 1 (Some [io_Error]) false ∅ 0) (emptyLog []) NewEmpty ∅ []) [io_Error] example_events _
    (run example_config (mkWorld (mkCoordinator 1 (Some [io_Error]) false ∅ 0) (emptyLog []) NewEmpty ∅ [], Idle) example_events).2 eq_refl NewEmpty_ok _)).
  now destruct (run example_config _ example_events).
Defined.
