(* ===== verification/TreeIface.v ===== *)
(** * The contract of an immutable checkpoint tree

    The persistent mapping keeps its checkpointed entries in a copy-on-write
    tree ([internal/radix]) whose nodes live in an append-only node store
    ([internal/mapstore]).  [TreeStore] states the operations the mapping uses
    and [TreeLaws] what they promise: a tree shows fixed entries, appending nodes
    never changes an existing tree, and building applies the mutations. *)
From S2P Require Import Prelude Addr Mapping.

(** [radix.Mutation]: a zero reference deletes the id. *)
Record TMutation := mkTMutation { tm_ID : Z; tm_Ref : RecordRef }.

Record EntryDelta := mkEntryDelta
  { ed_Added : Z; ed_Removed : Z; ed_ReachableBytesAdded : Z; ed_ReachableBytesRemoved : Z }.

Definition apply_mutation (S : Entries) (m : TMutation) : Entries :=
  if RecordRef_IsZero (tm_Ref m) then delete (tm_ID m) S else <[tm_ID m := tm_Ref m]> S.
Definition apply_mutations (S : Entries) (ms : list TMutation) : Entries := foldl apply_mutation S ms.

(** What [BuildSorted] requires of its input. *)
Definition mutation_valid (m : TMutation) : Prop :=
  0 < tm_ID m <= MaxUint64 /\
  (RecordRef_IsZero (tm_Ref m) = false -> RecordRef_Valid (tm_Ref m) = true /\ ref_u (tm_Ref m)).
Definition mutations_sorted (ms : list TMutation) : Prop :=
  Forall mutation_valid ms /\ StronglySorted Z.lt (map tm_ID ms).

(** The entries in the order of their ids. *)
Definition id_le (a b : Z * RecordRef) : Prop := a.1 <= b.1.
#[export] Instance id_le_dec a b : Decision (id_le a b).
Proof. unfold id_le. apply _. Defined.
Definition sorted_entries (S : Entries) : list (Z * RecordRef) := merge_sort id_le (map_to_list S).

Class TreeStore (N T : Type) := {
  tr_Root : T -> Z;
  tr_Covered : T -> Z;
  tr_LookupRef : N -> T -> Z -> res (option RecordRef);
  tr_WalkRefs : N -> T -> res (list (Z * RecordRef));
  tr_BuildSorted : N -> T -> Z -> list TMutation -> N * res (T * EntryDelta);
  (** [NodeSyncer.Sync] *)
  tr_Sync : N -> N * option goerror;
}.

Class TreeLaws (N T : Type) `{!TreeStore N T} := {
  tr_ok : N -> T -> Prop;
  tr_entries : N -> T -> Entries;

  tr_wf n t : tr_ok n t -> is_u64 (tr_Covered t) /\
    (forall id r, tr_entries n t !! id = Some r -> 0 < id <= MaxUint64 /\ RecordRef_Valid r = true /\ ref_u r) /\
    (tr_Root t = 0 -> tr_entries n t = ∅);

  tr_lookup n t id : tr_ok n t -> 0 < id <= MaxUint64 -> tr_LookupRef n t id = Ok (tr_entries n t !! id);

  tr_walk n t : tr_ok n t -> tr_WalkRefs n t = Ok (sorted_entries (tr_entries n t));

  (** a failed build, too, only appends *)
  tr_build n t covered ms n' r : tr_ok n t -> mutations_sorted ms -> is_u64 covered ->
    tr_BuildSorted n t covered ms = (n', r) ->
    (forall t0, tr_ok n t0 -> tr_ok n' t0 /\ tr_entries n' t0 = tr_entries n t0) /\
    match r with
    | Err _ => True
    | Ok (t', d) =>
        tr_ok n' t' /\ tr_Covered t' = covered /\ tr_entries n' t' = apply_mutations (tr_entries n t) ms /\
        0 <= ed_Added d /\ 0 <= ed_Removed d <= Z.of_nat (size (tr_entries n t)) /\
        Z.of_nat (size (tr_entries n' t')) = Z.of_nat (size (tr_entries n t)) + ed_Added d - ed_Removed d
    end;

  tr_sync n n' e : tr_Sync n = (n', e) ->
    forall t, tr_ok n t -> tr_ok n' t /\ tr_entries n' t = tr_entries n t;
}.

(** ** Mutation lists *)

Lemma apply_mutations_app S ms ms' : apply_mutations S (ms ++ ms') = apply_mutations (apply_mutations S ms) ms'.
Proof. apply foldl_app. Qed.

(** The effect of a list with distinct ids, by id. *)
Lemma apply_mutations_lookup ms : NoDup (map tm_ID ms) -> forall S id,
  apply_mutations S ms !! id =
    match List.find (fun m => tm_ID m =? id) ms with
    | Some m => if RecordRef_IsZero (tm_Ref m) then None else Some (tm_Ref m)
    | None => S !! id
    end.
Proof.
  induction ms as [|m ms IH]; intros Hnd S id; [reflexivity|]. cbn in Hnd. apply NoDup_cons in Hnd as [Hni Hnd].
  change (apply_mutations S (m :: ms)) with (apply_mutations (apply_mutation S m) ms). rewrite IH by exact Hnd.
  cbn [List.find]. destruct (tm_ID m =? id) eqn:E; bool_norm.
  - subst id. destruct (List.find _ ms) as [m'|] eqn:Ef.
    + apply List.find_some in Ef as [Hin E]. bool_norm. exfalso. apply Hni. rewrite <- E. apply list_elem_of_In. now apply in_map.
    + unfold apply_mutation. destruct (RecordRef_IsZero (tm_Ref m)); [apply lookup_delete_eq|apply lookup_insert_eq].
  - destruct (List.find _ ms); [reflexivity|]. unfold apply_mutation.
    destruct (RecordRef_IsZero (tm_Ref m)); [now rewrite lookup_delete_ne|now rewrite lookup_insert_ne].
Qed.

(** ** A reference tree

    The specification itself as an implementation: a finite map.  It shows that
    the contract can be satisfied. *)
Record RefTree := mkRefTree { rt_covered : Z; rt_entries : Entries }.

Definition ref_build (n : unit) (t : RefTree) (covered : Z) (ms : list TMutation) : unit * res (RefTree * EntryDelta) :=
  if (covered <? rt_covered t) || (negb (len ms =? 0) && (covered <=? rt_covered t)) then (n, Err [radix_ErrInvalid])
  else
    let entries := apply_mutations (rt_entries t) ms in
    let grown := Z.of_nat (size entries) - Z.of_nat (size (rt_entries t)) in
    (n, Ok (mkRefTree covered entries, mkEntryDelta (Z.max 0 grown) (Z.max 0 (- grown)) 0 0)).

#[export] Instance RefTree_store : TreeStore unit RefTree := {
  tr_Root t := if bool_decide (rt_entries t = ∅) then 0 else 1;
  tr_Covered := rt_covered;
  tr_LookupRef _ t id := if id =? 0 then Err [radix_ErrInvalid] else Ok (rt_entries t !! id);
  tr_WalkRefs _ t := Ok (sorted_entries (rt_entries t));
  tr_BuildSorted := ref_build;
  tr_Sync n := (n, None) }.

Definition entry_ok (id : Z) (r : RecordRef) : Prop := 0 < id <= MaxUint64 /\ RecordRef_Valid r = true /\ ref_u r.

Lemma apply_mutations_ok ms : Forall mutation_valid ms -> forall S,
  (forall id r, S !! id = Some r -> entry_ok id r) -> forall id r, apply_mutations S ms !! id = Some r -> entry_ok id r.
Proof.
  induction 1 as [|m ms [Hid Hm] _ IH]; intros S HS; [exact HS|]. apply IH. intros id r. unfold apply_mutation.
  destruct (RecordRef_IsZero (tm_Ref m)).
  - intros [_ H]%lookup_delete_Some. now apply HS.
  - intros [[<- <-]|[_ H]]%lookup_insert_Some; [|now apply HS]. destruct (Hm eq_refl). now split.
Qed.

#[export] Instance RefTree_laws : TreeLaws unit RefTree.
Proof.
  unshelve econstructor;
    [exact (fun _ t => is_u64 (rt_covered t) /\ forall id r, rt_entries t !! id = Some r -> entry_ok id r)
    |exact (fun _ => rt_entries)|..].
  - intros n t [Hc He]. split; [exact Hc|]. split; [exact He|]. cbn. case_bool_decide; [auto|discriminate].
  - intros n t id _ Hid. cbn. now replace (id =? 0) with false by (symmetry; apply Z.eqb_neq; lia).
  - reflexivity.
  - intros n t covered ms n' r [Hc He] [Hv Hs] Hcv E. cbn in E. unfold ref_build in E.
    destruct (_ || _); injection E as <- <-; split; auto.
    cbn [tr_Covered RefTree_store rt_covered rt_entries ed_Added ed_Removed].
    split; [split; [exact Hcv|]|]; [now apply apply_mutations_ok|]. split; [reflexivity|]. split; [reflexivity|]. lia.
  - intros n n' e E t Ht. cbn in E. injection E as <- <-. auto.
Defined.
