(* ===== verification/Persistent.v ===== *)
(** * The persistent mapping

    Models [internal/mapping/persistent.go], the production implementation of
    [mapping.Index]: an immutable checkpointed tree overlaid by frozen delta
    layers (oldest first) and one active layer, with the byte budget of [Budget]
    and the checkpoint protocol Freeze / BuildCheckpoint / InstallCheckpoint /
    AbortCheckpoint.

    Pointers that the code compares are modelled by identities: a delta layer
    carries the checkpoint generation that created it, the root and its owner
    carry the generation of the assignment.  The optimistic loop of
    [ResolveGroup] is modelled with the states it observes under the lock. *)
From S2P Require Import Prelude Addr Mapping Budget IndexIface TreeIface.

(** [persistentDelta]: [None] is [exists = false] with the zero reference. *)
Abbreviation Values := (gmap Z (option RecordRef)).

Record deltaLayer := mkLayer { dl_id : Z; dl_values : Values; dl_charge : Z }.

Record PersistentConfig := mkPConfig
  { pc_CheckpointSortBytes : Z; pc_DeltaSoftLimitBytes : Z; pc_DeltaHardLimitBytes : Z }.

Record PersistentState := mkPState { pst_StatsCoveredCommitSeq : Z; pst_LiveStats : LiveMap }.

Definition checkpointMutationBytes : Z := 24.

(** [ValidatePersistentConfig(config) == nil] *)
Definition ValidatePersistentConfig (config : PersistentConfig) : bool :=
  negb ((pc_CheckpointSortBytes config <? checkpointMutationBytes) ||
        (pc_CheckpointSortBytes config / checkpointMutationBytes <? pc_DeltaHardLimitBytes config / deltaEntryCharge)) &&
  is_ok (newDeltaBudget (pc_DeltaSoftLimitBytes config) (pc_DeltaHardLimitBytes config)).

Fixpoint lookup_frozen (frozen : list deltaLayer) (id : Z) : option (option RecordRef) :=
  match frozen with
  | [] => None
  | layer :: newer =>
      match lookup_frozen newer id with
      | Some value => Some value
      | None => dl_values layer !! id
      end
  end.

Definition lookupLayers (active : deltaLayer) (frozen : list deltaLayer) (id : Z) : option (option RecordRef) :=
  match dl_values active !! id with
  | Some value => Some value
  | None => lookup_frozen frozen id
  end.

(** The ids a group reads, in increasing order. *)
Definition proposalReadSet (ps : list Proposal) : list Z :=
  merge_sort Z.le (elements (list_to_set (C := gset Z)
    (concat (map (fun p => map co_RecordID (pr_Conditions p) ++ map ch_RecordID (pr_Changes p)) ps)))).

Section Persistent.
Context {N T : Type} `{!TreeStore N T}.

Record Persistent := mkPersistent
  { pe_nodes : N; pe_root : T; pe_rootGen : Z; pe_owner : Z; pe_covered : Z; pe_epoch : Z;
    pe_active : deltaLayer; pe_frozen : list deltaLayer;
    pe_checkpointID : Z; pe_inCheckpoint : bool; pe_sortBytes : Z;
    pe_pool : Pool; pe_live : LiveMap }.

Definition set_pool (m : Persistent) (p : Pool) : Persistent :=
  mkPersistent (pe_nodes m) (pe_root m) (pe_rootGen m) (pe_owner m) (pe_covered m) (pe_epoch m) (pe_active m) (pe_frozen m)
    (pe_checkpointID m) (pe_inCheckpoint m) (pe_sortBytes m) p (pe_live m).
Definition set_nodes (m : Persistent) (n : N) : Persistent :=
  mkPersistent n (pe_root m) (pe_rootGen m) (pe_owner m) (pe_covered m) (pe_epoch m) (pe_active m) (pe_frozen m)
    (pe_checkpointID m) (pe_inCheckpoint m) (pe_sortBytes m) (pe_pool m) (pe_live m).
Definition set_live (m : Persistent) (live : LiveMap) : Persistent :=
  mkPersistent (pe_nodes m) (pe_root m) (pe_rootGen m) (pe_owner m) (pe_covered m) (pe_epoch m) (pe_active m) (pe_frozen m)
    (pe_checkpointID m) (pe_inCheckpoint m) (pe_sortBytes m) (pe_pool m) live.

(** [m.epoch++] on a uint64. *)
Definition next_epoch (m : Persistent) : Z := (pe_epoch m + 1) mod two64.

Definition OpenPersistent (nodes : N) (root : T) (config : PersistentConfig) (state : PersistentState) : res Persistent :=
  raise [mapping_ErrInvalid] when negb (ValidatePersistentConfig config) ;;
  raise [mapping_ErrInvalid] when negb (pst_StatsCoveredCommitSeq state =? tr_Covered root) ;;
  raise [mapping_ErrInvalid] when
    existsb (fun '(segment, stat) => (segment =? 0) || (ls_LiveBytes stat =? 0) || (ls_LiveRecords stat =? 0) ||
                                     (tr_Covered root <? ls_LastChangedCommitSeq stat)) (map_to_list (pst_LiveStats state)) ;;
  raise [mapping_ErrInvalid] when
    negb (tr_Root root =? 0) && bool_decide (size (pst_LiveStats state) = 0%nat) ;;
  let! budget := newDeltaBudget (pc_DeltaSoftLimitBytes config) (pc_DeltaHardLimitBytes config) in
  Ok (mkPersistent nodes root 0 0 (tr_Covered root) 0 (mkLayer 0 ∅ 0) [] 0 false
        (pc_CheckpointSortBytes config) (mkPool budget []) (pst_LiveStats state)).

(** ** Admission *)

Fixpoint count_entries (active : Values) (seen : gset Z) (entries : Z) (ids : list Z) : res Z :=
  match ids with
  | [] => Ok entries
  | id :: rest =>
      raise [mapping_ErrInvalid] when id =? 0 ;;
      if bool_decide (id ∈ seen) then count_entries active seen entries rest
      else count_entries active ({[id]} ∪ seen)
             (if bool_decide (active !! id = None) then entries + 1 else entries) rest
  end.

Definition ReserveDelta (m : Persistent) (ids : list Z) : Persistent * (res nat * Z) :=
  match count_entries (dl_values (pe_active m)) ∅ 0 ids with
  | Err e => (m, (Err e, 0))
  | Ok entries =>
      match reserve (pe_pool m) entries with
      | (p, (Err e, pressure)) =>
          if negb (bool_decide (e = [mapping_ErrBudget])) || negb pressure then (set_pool m p, (Err e, 0))
          else if pe_checkpointID m =? MaxUint64 then (set_pool m p, (Err [base_ErrGenerationExhausted], 0))
          else (set_pool m p, (Err e, pe_checkpointID m + 1))
      | (p, (Ok h, pressure)) =>
          if negb pressure then (set_pool m p, (Ok h, 0))
          else if pe_checkpointID m =? MaxUint64 then
            (set_pool m (Release p (Some h)), (Err [base_ErrGenerationExhausted], 0))
          else (set_pool m p, (Ok h, pe_checkpointID m + 1))
      end
  end.

Definition release_reservation (m : Persistent) (h : nat) : Persistent := set_pool m (Release (pe_pool m) (Some h)).

(** ** Lookup and resolution *)

Definition LookupRef (m : Persistent) (id : Z) : res (option RecordRef) :=
  raise [mapping_ErrInvalid] when id =? 0 ;;
  match lookupLayers (pe_active m) (pe_frozen m) id with
  | Some value => Ok value
  | None => tr_LookupRef (pe_nodes m) (pe_root m) id
  end.

(** The changed ids that are already in the active layer. *)
Definition active_ids (active : Values) (ids : list Z) : gset Z :=
  list_to_set (filter (fun id => is_Some (active !! id)) ids).

(** The values of the read set: the layers under the lock, the misses from the
    immutable root after it. *)
Fixpoint read_values (m : Persistent) (ids : list Z) (values : Values) : res Values :=
  match ids with
  | [] => Ok values
  | id :: rest =>
      match lookupLayers (pe_active m) (pe_frozen m) id with
      | Some value => read_values m rest (<[id := value]> values)
      | None => let! found := tr_LookupRef (pe_nodes m) (pe_root m) id in read_values m rest (<[id := found]> values)
      end
  end.

(** The check under the second lock: nothing relevant changed since [m]. *)
Definition stable (m now : Persistent) : bool :=
  (pe_epoch m =? pe_epoch now) && (pe_covered m =? pe_covered now) &&
  (pe_rootGen m =? pe_rootGen now) && (pe_owner m =? pe_owner now).

(** The plan from what was read in [m]. *)
Definition resolve_from (m : Persistent) (ps : list Proposal) (values : Values) : res GroupPlan :=
  let active := active_ids (dl_values (pe_active m)) (concat (map changed_ids ps)) in
  let! plan := resolveGroupAt (pe_covered m) ps (fun id => Ok (match values !! id with Some v => v | None => None end)) in
  Ok (assignDeltaEntries plan active).

(** The retry loop.  Each turn observes a state when it reads and a state when it
    checks; [None] when every observed turn was disturbed. *)
Fixpoint resolve_loop (observed : list (Persistent * Persistent)) (ps : list Proposal) : option (res GroupPlan) :=
  match observed with
  | [] => None
  | (m, now) :: rest =>
      match read_values m (proposalReadSet ps) ∅ with
      | Err e => Some (Err e)
      | Ok values => if stable m now then Some (resolve_from m ps values) else resolve_loop rest ps
      end
  end.

Definition ResolveGroup_observing (observed : list (Persistent * Persistent)) (ps : list Proposal) : option (res GroupPlan) :=
  if (len ps =? 0) || (MaxUint32 <? len ps) then Some (Err [mapping_ErrInvalid])
  else if negb (forallb validateProposal ps) then Some (Err [mapping_ErrInvalid])
  else resolve_loop observed ps.

(** Undisturbed, the first turn decides. *)
Definition ResolveGroup (m : Persistent) (ps : list Proposal) : res GroupPlan :=
  match ResolveGroup_observing [(m, m)] ps with Some r => r | None => Err [] end.

(** ** Publication *)

Definition plan_ids (rps : list ResolvedProposal) : list Z :=
  concat (map (fun rp => map (fun rc => ch_RecordID (rc_Change rc)) (rp_Changes rp)) rps).

(** Release the reservations of rejected proposals and consume the others;
    [charged] is their total. *)
Fixpoint consume_all (p : Pool) (charged : Z) (rps : list ResolvedProposal) (rs : list nat) : Pool * res Z :=
  match rps, rs with
  | rp :: rps', h :: rs' =>
      if negb (rp_Accepted rp) then consume_all (Release p (Some h)) charged rps' rs'
      else
        match consume p h (rp_DeltaEntries rp) with
        | (p', Err _) => (p', Err [mapping_ErrCorrupt])
        | (p', Ok consumed) =>
            if MaxUint64 - consumed <? charged then (p', Err [mapping_ErrCorrupt])
            else consume_all p' (charged + consumed) rps' rs'
        end
  | _, _ => (p, Ok charged)
  end.

Definition delta_change_value (values : Values) (rc : ResolvedChange) : Values :=
  if rc_Apply rc then
    <[ch_RecordID (rc_Change rc) :=
        if ch_Operation (rc_Change rc) =? OpDelete then None else Some (ch_NewRef (rc_Change rc))]> values
  else values.

Definition delta_proposal (values : Values) (rp : ResolvedProposal) : Values :=
  if rp_Accepted rp then foldl delta_change_value values (rp_Changes rp) else values.

Definition delta_plan (values : Values) (rps : list ResolvedProposal) : Values := foldl delta_proposal values rps.

Definition PublishGroup (m : Persistent) (first : Z) (plan : GroupPlan) (reservations : list (option nat))
    : Persistent * res PublishResult :=
  let rps := gp_Proposals plan in
  if (first =? 0) || (len rps =? 0) || (MaxUint32 <? len rps) || negb (validateResolvedPlan plan) then (m, Err [mapping_ErrInvalid])
  else if negb (len reservations =? len rps) ||
          negb (forallb (fun r => match r with Some _ => true | None => false end) reservations) then (m, Err [mapping_ErrInvalid])
  else if negb (gp_BaseCommitSeq plan =? pe_covered m) then (m, Err [mapping_ErrStalePlan])
  else if negb (validDeltaEntries plan (active_ids (dl_values (pe_active m)) (plan_ids rps))) then (m, Err [mapping_ErrStalePlan])
  else
    let accepted := accepted_count rps in
    if (accepted =? 0) || negb (first =? (pe_covered m + 1) mod two64) || (MaxUint64 - first <? accepted - 1) then (m, Err [mapping_ErrInvalid])
    else
      match consume_all (pe_pool m) 0 rps (omap id reservations) with
      | (p, Err e) => (set_pool m p, Err e)
      | (p, Ok charged) =>
          if MaxUint64 - charged <? dl_charge (pe_active m) then (set_pool m p, Err [mapping_ErrCorrupt])
          else
            match applyPlanLiveStats (pe_live m) first plan with
            | (live', Err e) => (set_live (set_pool m p) live', Err e)
            | (live', Ok _) =>
                (mkPersistent (pe_nodes m) (pe_root m) (pe_rootGen m) (pe_owner m) (first + accepted - 1) (next_epoch m)
                   (mkLayer (dl_id (pe_active m)) (delta_plan (dl_values (pe_active m)) rps) (dl_charge (pe_active m) + charged))
                   (pe_frozen m) (pe_checkpointID m) (pe_inCheckpoint m) (pe_sortBytes m) p live',
                 Ok (mkPublish (accepted mod two32) (applied_count rps mod two32) (skipped_count rps mod two32)))
            end
      end.

(** ** Checkpoints *)

Record FrozenCheckpoint := mkFrozen
  { fc_id : Z; fc_base : T; fc_covered : Z; fc_layers : list deltaLayer; fc_live : LiveMap }.

Record CheckpointCandidate := mkCandidate
  { cd_checkpoint : FrozenCheckpoint; cd_tree : T; cd_root : Z; cd_covered : Z;
    cd_changes : list TMutation; cd_entryDelta : EntryDelta }.

Definition Freeze (m : Persistent) (expected : Z) : Persistent * res FrozenCheckpoint :=
  if pe_inCheckpoint m || negb (expected =? pe_covered m) then (m, Err [mapping_ErrStalePlan])
  else if pe_checkpointID m =? MaxUint64 then (m, Err [base_ErrGenerationExhausted])
  else
    let frozen := pe_frozen m ++ [pe_active m] in
    let id := pe_checkpointID m + 1 in
    (mkPersistent (pe_nodes m) (pe_root m) (pe_rootGen m) (pe_owner m) (pe_covered m) (next_epoch m)
       (mkLayer id ∅ 0) frozen id true (pe_sortBytes m) (pe_pool m) (pe_live m),
     Ok (mkFrozen id (pe_root m) expected frozen (pe_live m))).

Fixpoint EntryUpperBound (total : Z) (layers : list deltaLayer) : res Z :=
  match layers with
  | [] => Ok total
  | layer :: rest =>
      raise [mapping_ErrBudget] when MaxUint64 - total <? Z.of_nat (size (dl_values layer)) ;;
      EntryUpperBound (total + Z.of_nat (size (dl_values layer))) rest
  end.

(** [m.frozen[index] == layer] for every layer of the checkpoint. *)
Fixpoint same_layers (frozen layers : list deltaLayer) : bool :=
  match layers, frozen with
  | [], _ => true
  | layer :: layers', f :: frozen' => (dl_id f =? dl_id layer) && same_layers frozen' layers'
  | _ :: _, [] => false
  end.

Fixpoint sort_budget (maxMutations total : Z) (layers : list deltaLayer) : res Z :=
  match layers with
  | [] => Ok total
  | layer :: rest =>
      raise [mapping_ErrBudget] when maxMutations - total <? Z.of_nat (size (dl_values layer)) ;;
      sort_budget maxMutations (total + Z.of_nat (size (dl_values layer))) rest
  end.

Definition layer_mutations (layer : deltaLayer) : list TMutation :=
  map (fun '(id, v) => mkTMutation id (oref v)) (map_to_list (dl_values layer)).

(** [sort.SliceStable] *)
Fixpoint insert_stable (m : TMutation) (l : list TMutation) : list TMutation :=
  match l with
  | [] => [m]
  | x :: rest => if tm_ID x <=? tm_ID m then x :: insert_stable m rest else m :: l
  end.
Definition sort_stable (l : list TMutation) : list TMutation := foldl (fun acc m => insert_stable m acc) [] l.

(** The compaction loop: the last of each run of equal ids. *)
Fixpoint fold_runs (l : list TMutation) : list TMutation :=
  match l with
  | [] => []
  | m :: rest =>
      match rest with
      | [] => [m]
      | next :: _ => if tm_ID next =? tm_ID m then fold_runs rest else m :: fold_runs rest
      end
  end.

Definition BuildCheckpoint (m : Persistent) (checkpoint : FrozenCheckpoint) : Persistent * res CheckpointCandidate :=
  let layers := fc_layers checkpoint in
  if negb (pe_inCheckpoint m && (fc_id checkpoint =? pe_checkpointID m) && (length layers <=? length (pe_frozen m))%nat &&
           same_layers (pe_frozen m) layers) then (m, Err [mapping_ErrStalePlan])
  else
    match sort_budget (pe_sortBytes m / checkpointMutationBytes) 0 layers with
    | Err e => (m, Err e)
    | Ok _ =>
        let mutations := fold_runs (sort_stable (concat (map layer_mutations layers))) in
        match tr_BuildSorted (pe_nodes m) (fc_base checkpoint) (fc_covered checkpoint) mutations with
        | (n, Err e) => (set_nodes m n, Err e)
        | (n, Ok (tree, delta)) =>
            match tr_Sync n with
            | (n', Some e) => (set_nodes m n', Err e)
            | (n', None) =>
                (set_nodes m n', Ok (mkCandidate checkpoint tree (tr_Root tree) (tr_Covered tree) mutations delta))
            end
        end
    end.

Fixpoint total_charge (released : Z) (layers : list deltaLayer) : res Z :=
  match layers with
  | [] => Ok released
  | layer :: rest =>
      raise [mapping_ErrCorrupt] when MaxUint64 - dl_charge layer <? released ;;
      total_charge (released + dl_charge layer) rest
  end.

Definition InstallCheckpoint (m : Persistent) (candidate : CheckpointCandidate) : Persistent * res unit :=
  let checkpoint := cd_checkpoint candidate in
  let layers := fc_layers checkpoint in
  if negb (pe_inCheckpoint m) || negb (fc_id checkpoint =? pe_checkpointID m) ||
     negb (cd_root candidate =? tr_Root (cd_tree candidate)) || negb (cd_covered candidate =? fc_covered checkpoint) ||
     negb (cd_covered candidate =? tr_Covered (cd_tree candidate)) || (length (pe_frozen m) <? length layers)%nat
  then (m, Err [mapping_ErrStalePlan])
  else if negb (same_layers (pe_frozen m) layers) then (m, Err [mapping_ErrStalePlan])
  else
    match total_charge 0 layers with
    | Err e => (m, Err e)
    | Ok released =>
        match discharge (pe_pool m) released with
        | Err e => (m, Err e)
        | Ok p =>
            (mkPersistent (pe_nodes m) (cd_tree candidate) (pe_rootGen m + 1) (pe_owner m) (pe_covered m) (next_epoch m)
               (pe_active m) (drop (length layers) (pe_frozen m)) (pe_checkpointID m) false (pe_sortBytes m) p (pe_live m), Ok tt)
        end
    end.

Definition AbortCheckpoint (m : Persistent) (checkpoint : FrozenCheckpoint) : Persistent * res unit :=
  if negb (pe_inCheckpoint m) || negb (fc_id checkpoint =? pe_checkpointID m) then (m, Err [mapping_ErrStalePlan])
  else (mkPersistent (pe_nodes m) (pe_root m) (pe_rootGen m) (pe_owner m) (pe_covered m) (pe_epoch m) (pe_active m) (pe_frozen m)
          (pe_checkpointID m) false (pe_sortBytes m) (pe_pool m) (pe_live m), Ok tt).

(** [EntryCount] and [ReachableBytes] of a candidate over the base's numbers. *)
Definition EntryCount (c : CheckpointCandidate) (base : Z) : res Z :=
  raise [mapping_ErrCorrupt] when base <? ed_Removed (cd_entryDelta c) ;;
  let remaining := base - ed_Removed (cd_entryDelta c) in
  raise [mapping_ErrCorrupt] when MaxUint64 - remaining <? ed_Added (cd_entryDelta c) ;;
  Ok (remaining + ed_Added (cd_entryDelta c)).

Definition ReachableBytes (c : CheckpointCandidate) (base : Z) : res Z :=
  raise [mapping_ErrCorrupt] when base <? ed_ReachableBytesRemoved (cd_entryDelta c) ;;
  let remaining := base - ed_ReachableBytesRemoved (cd_entryDelta c) in
  raise [mapping_ErrCorrupt] when MaxUint64 - remaining <? ed_ReachableBytesAdded (cd_entryDelta c) ;;
  Ok (remaining + ed_ReachableBytesAdded (cd_entryDelta c)).

(** [WalkChanges]: the visited transitions [(id, old, new)]. *)
Fixpoint walk_changes (n : N) (base : T) (changes : list TMutation) : res (list (Z * option RecordRef * option RecordRef)) :=
  match changes with
  | [] => Ok []
  | c :: rest =>
      let! old := tr_LookupRef n base (tm_ID c) in
      let! visited := walk_changes n base rest in
      let new := if RecordRef_IsZero (tm_Ref c) then None else Some (tm_Ref c) in
      if Bool.eqb (oexists old) (oexists new) && (negb (oexists old) || bool_decide (oref old = tm_Ref c)) then Ok visited
      else Ok ((tm_ID c, old, new) :: visited)
  end.

Definition WalkChanges (m : Persistent) (c : CheckpointCandidate) : res (list (Z * option RecordRef * option RecordRef)) :=
  walk_changes (pe_nodes m) (fc_base (cd_checkpoint c)) (cd_changes c).

(** ** Views of an installed checkpoint *)

Record View := mkView { vw_tree : T; vw_rootGen : Z; vw_owner : Z }.

Definition CheckpointView (m : Persistent) : res View :=
  raise [mapping_ErrStalePlan] when pe_inCheckpoint m || negb (length (pe_frozen m) =? 0)%nat ;;
  Ok (mkView (pe_root m) (pe_rootGen m) (pe_owner m)).

(** [pin] *)
Definition view_current (m : Persistent) (v : View) : bool :=
  (pe_rootGen m =? vw_rootGen v) && (pe_owner m =? vw_owner v).

Definition View_LookupRef (m : Persistent) (v : View) (id : Z) : res (option RecordRef) :=
  raise [mapping_ErrStalePlan] when negb (view_current m v) ;; tr_LookupRef (pe_nodes m) (vw_tree v) id.

Definition View_WalkRefs (m : Persistent) (v : View) : res (list (Z * RecordRef)) :=
  raise [mapping_ErrStalePlan] when negb (view_current m v) ;; tr_WalkRefs (pe_nodes m) (vw_tree v).

(** The replacement lives in the nodes of its own store, which take the place of
    the old ones for the mapping. *)
Definition ReplaceCheckpointRoot (m : Persistent) (v : View) (nodes : N) (root : T) : Persistent * res unit :=
  if pe_inCheckpoint m || negb (length (pe_frozen m) =? 0)%nat || negb (view_current m v) ||
     negb (tr_Covered root =? tr_Covered (vw_tree v)) then (m, Err [mapping_ErrStalePlan])
  else (mkPersistent nodes root (pe_rootGen m + 1) (pe_owner m + 1) (pe_covered m) (next_epoch m) (pe_active m) (pe_frozen m)
          (pe_checkpointID m) (pe_inCheckpoint m) (pe_sortBytes m) (pe_pool m) (pe_live m), Ok tt).

Definition WalkCheckpoint (m : Persistent) : res (list (Z * RecordRef)) :=
  raise [mapping_ErrStalePlan] when
    pe_inCheckpoint m || negb (size (dl_values (pe_active m)) =? 0)%nat || negb (length (pe_frozen m) =? 0)%nat ||
    negb (dl_charge (pe_active m) =? 0) ;;
  tr_WalkRefs (pe_nodes m) (pe_root m).
End Persistent.

Arguments Persistent N T : clear implicits.
Arguments FrozenCheckpoint T : clear implicits.
Arguments CheckpointCandidate T : clear implicits.
Arguments View T : clear implicits.
