(* ===== verification/PersistentSpec.v ===== *)
(** * The persistent mapping implements the Index contract

    The visible entries are the checkpointed tree overlaid by the frozen layers
    and the active layer.  Resolution and publication refine the serial
    specification of [Mapping], the budget accounts exactly for the layers, and
    checkpoints change the representation but never the visible entries. *)
From S2P Require Import Prelude Addr Mapping Budget IndexIface TreeIface Persistent.

(** ** Overlays *)

Definition overlay (V : Values) (S : Entries) : Entries :=
  merge (fun v s => match v with Some v => v | None => s end) V S.

Lemma overlay_lookup V S id : overlay V S !! id = match V !! id with Some v => v | None => S !! id end.
Proof. unfold overlay. rewrite lookup_merge. now destruct (V !! id), (S !! id). Qed.

Lemma overlay_empty S : overlay ∅ S = S.
Proof. apply map_eq. intros id. now rewrite overlay_lookup, lookup_empty. Qed.

Definition frozen_entries (S : Entries) (layers : list deltaLayer) : Entries :=
  foldl (fun S l => overlay (dl_values l) S) S layers.

Lemma frozen_lookup layers : forall S id,
  frozen_entries S layers !! id = match lookup_frozen layers id with Some v => v | None => S !! id end.
Proof.
  induction layers as [|l layers IH]; intros S id; [reflexivity|]. cbn [lookup_frozen].
  change (frozen_entries S (l :: layers)) with (frozen_entries (overlay (dl_values l) S) layers).
  rewrite IH, overlay_lookup. now destruct (lookup_frozen layers id).
Qed.

Lemma overlay_insert V S id v :
  overlay (<[id := v]> V) S = match v with Some r => <[id := r]> (overlay V S) | None => delete id (overlay V S) end.
Proof.
  apply map_eq. intros i. rewrite overlay_lookup. destruct (decide (i = id)) as [->|Hne].
  - rewrite lookup_insert_eq. destruct v; [now rewrite lookup_insert_eq|now rewrite lookup_delete_eq].
  - rewrite lookup_insert_ne by congruence. destruct v; [rewrite lookup_insert_ne by congruence|rewrite lookup_delete_ne by congruence];
      now rewrite overlay_lookup.
Qed.

(** Publishing into the active layer is publishing into the visible entries. *)
Lemma delta_change_overlay V S rc : overlay (delta_change_value V rc) S = apply_change (overlay V S) rc.
Proof.
  unfold delta_change_value, apply_change. destruct (rc_Apply rc); [|reflexivity]. rewrite overlay_insert.
  now destruct (ch_Operation (rc_Change rc) =? OpDelete).
Qed.

Lemma delta_plan_overlay rps S : forall V, overlay (delta_plan V rps) S = apply_plan (overlay V S) rps.
Proof.
  unfold delta_plan, apply_plan. induction rps as [|rp rps IH]; intros V; [reflexivity|]. cbn [foldl]. rewrite IH. f_equal.
  unfold delta_proposal, apply_proposal. destruct (rp_Accepted rp); [|reflexivity].
  generalize (rp_Changes rp) as rcs. intros rcs. revert V. induction rcs as [|rc rcs IHc]; intros V; [reflexivity|].
  cbn [foldl]. now rewrite IHc, delta_change_overlay.
Qed.

(** ** Counting new delta entries *)

Definition rc_id (rc : ResolvedChange) : Z := ch_RecordID (rc_Change rc).

Definition agree (P : Z -> Prop) (s s' : gset Z) : Prop := forall id, P id -> (id ∈ s <-> id ∈ s').

Lemma agree_add P s s' id : agree P s s' -> agree P ({[id]} ∪ s) ({[id]} ∪ s').
Proof. intros H i Hi. rewrite !elem_of_union. specialize (H i Hi). tauto. Qed.

Lemma count_delta_agree P rcs : Forall (fun rc => P (rc_id rc)) rcs -> forall s s' n, agree P s s' ->
  (count_delta s n rcs).2 = (count_delta s' n rcs).2 /\ agree P (count_delta s n rcs).1 (count_delta s' n rcs).1.
Proof.
  induction 1 as [|rc rcs Hrc _ IH]; intros s s' n Ha; cbn [count_delta]; [auto|].
  destruct (rc_Apply rc); [|now apply IH]. fold (rc_id rc). specialize (Ha _ Hrc) as Hiff.
  destruct (decide (rc_id rc ∈ s)) as [Hin|Hn].
  - rewrite !bool_decide_eq_true_2 by tauto. now apply IH.
  - rewrite !bool_decide_eq_false_2 by tauto. apply IH. now apply agree_add.
Qed.

Lemma assign_loop_agree P rps : Forall (fun rp => Forall (fun rc => P (rc_id rc)) (rp_Changes rp)) rps -> forall s s',
  agree P s s' -> map rp_DeltaEntries (assign_loop s rps) = map rp_DeltaEntries (assign_loop s' rps).
Proof.
  induction 1 as [|rp rps Hrp _ IH]; intros s s' Ha; cbn [assign_loop]; [reflexivity|].
  destruct (rp_Accepted rp); [|cbn; f_equal; now apply IH].
  pose proof (count_delta_agree P _ Hrp s s' (rp_DeltaEntries rp) Ha) as [E1 E2].
  destruct (count_delta s _ _) as [t n], (count_delta s' _ _) as [t' n']. cbn in *. subst n'. f_equal. now apply IH.
Qed.

(** Each id of the plan that is new to the active layer is counted once. *)
Lemma count_delta_size P rcs : Forall (fun rc => P (rc_id rc)) rcs -> forall s n V, agree P s (dom V) ->
  (count_delta s n rcs).2 = n + Z.of_nat (size (foldl delta_change_value V rcs)) - Z.of_nat (size V) /\
  agree P (count_delta s n rcs).1 (dom (foldl delta_change_value V rcs)).
Proof.
  induction 1 as [|rc rcs Hrc _ IH]; intros s n V Ha; cbn [count_delta foldl]; [split; [cbn [snd]; lia|exact Ha]|].
  unfold delta_change_value at 2 4. destruct (rc_Apply rc); [|now apply IH]. fold (rc_id rc).
  set (v := if ch_Operation (rc_Change rc) =? OpDelete then _ else _). specialize (Ha _ Hrc) as Hiff.
  destruct (decide (rc_id rc ∈ s)) as [Hin|Hn].
  - rewrite bool_decide_eq_true_2 by exact Hin. destruct (IH s n (<[rc_id rc := v]> V)) as [E1 E2].
    { intros i Hi. rewrite dom_insert_L, elem_of_union, elem_of_singleton, (Ha i Hi). split; [tauto|].
      intros [->|?]; [tauto|assumption]. }
    split; [|exact E2]. rewrite E1, map_size_insert_Some; [lia|]. apply elem_of_dom. tauto.
  - rewrite bool_decide_eq_false_2 by exact Hn. destruct (IH ({[rc_id rc]} ∪ s) (n + 1) (<[rc_id rc := v]> V)) as [E1 E2].
    { rewrite dom_insert_L. now apply agree_add. }
    split; [|exact E2]. rewrite E1, map_size_insert_None; [lia|]. apply not_elem_of_dom. tauto.
Qed.

(** ... and a proposal counts at most its ids that are new to the layer. *)
Lemma count_delta_le rcs : forall s n,
  n <= (count_delta s n rcs).2 <= n + Z.of_nat (size (list_to_set (map rc_id rcs) ∖ s)) /\ s ⊆ (count_delta s n rcs).1.
Proof.
  induction rcs as [|rc rcs IH]; intros s n; cbn [count_delta map]; [cbn; split; [lia|reflexivity]|].
  assert (Hmono : (size (list_to_set (C := gset Z) (map rc_id rcs) ∖ s) <= size (list_to_set (rc_id rc :: map rc_id rcs) ∖ s))%nat).
  { apply subseteq_size. cbn. intros i. rewrite !elem_of_difference, elem_of_union. tauto. }
  destruct (rc_Apply rc); [|destruct (IH s n); split; [lia|assumption]]. fold (rc_id rc).
  destruct (decide (rc_id rc ∈ s)) as [Hin|Hn].
  - rewrite bool_decide_eq_true_2 by exact Hin. destruct (IH s n); split; [lia|assumption].
  - rewrite bool_decide_eq_false_2 by exact Hn. destruct (IH ({[rc_id rc]} ∪ s) (n + 1)) as [Hb Hs].
    split; [|etrans; [apply union_subseteq_r|exact Hs]].
    assert (E : size (list_to_set (C := gset Z) (rc_id rc :: map rc_id rcs) ∖ s) =
                S (size (list_to_set (C := gset Z) (map rc_id rcs) ∖ ({[rc_id rc]} ∪ s)))); [|lia].
    replace (list_to_set (rc_id rc :: map rc_id rcs) ∖ s) with
      ({[rc_id rc]} ∪ (list_to_set (map rc_id rcs) ∖ ({[rc_id rc]} ∪ s)) : gset Z).
    + rewrite size_union, size_singleton; [reflexivity|].
      intros i. rewrite elem_of_singleton, elem_of_difference, elem_of_union, elem_of_singleton. tauto.
    + apply set_eq. intros i. cbn. rewrite !elem_of_difference, !elem_of_union, elem_of_difference, elem_of_union, elem_of_singleton.
      destruct (decide (i = rc_id rc)) as [->|]; tauto.
Qed.

(** The ids of a change set that are new to a layer. *)
Definition new_ids (V : Values) (ids : list Z) : Z := Z.of_nat (size (list_to_set ids ∖ dom V : gset Z)).

Lemma new_ids_nonneg V ids : 0 <= new_ids V ids.
Proof. unfold new_ids. lia. Qed.

Lemma new_ids_mono V V' ids : dom V ⊆ dom V' -> new_ids V' ids <= new_ids V ids.
Proof. intros H. unfold new_ids. apply Nat2Z.inj_le, subseteq_size. intros i. rewrite !elem_of_difference. intros [? ?]. split; auto. Qed.

Definition delta_sum (rps : list ResolvedProposal) : Z :=
  foldr (fun rp acc => (if rp_Accepted rp then rp_DeltaEntries rp else 0) + acc) 0 rps.

Lemma delta_changes_dom rcs : forall V, dom V ⊆ dom (foldl delta_change_value V rcs).
Proof.
  induction rcs as [|rc rcs IH]; intros V; [reflexivity|]. cbn [foldl]. etrans; [|apply IH].
  unfold delta_change_value. destruct (rc_Apply rc); [rewrite dom_insert; apply union_subseteq_r|reflexivity].
Qed.

Lemma assign_counts P rps : Forall (fun rp => Forall (fun rc => P (rc_id rc)) (rp_Changes rp)) rps -> forall s V0 V,
  agree P s (dom V) -> dom V0 ⊆ dom V ->
  delta_sum (assign_loop s (map clear_delta rps)) = Z.of_nat (size (delta_plan V rps)) - Z.of_nat (size V) /\
  Forall2 (fun rp rp' => rp_Accepted rp' = rp_Accepted rp /\
      (rp_Accepted rp = true -> 0 <= rp_DeltaEntries rp' <= new_ids V0 (map rc_id (rp_Changes rp))))
    rps (assign_loop s (map clear_delta rps)).
Proof.
  unfold delta_plan. induction 1 as [|rp rps Hrp _ IH]; intros s V0 V Ha Hd; cbn [map assign_loop foldl]; [split; [cbn; lia|constructor]|].
  cbn [clear_delta rp_Accepted rp_DeltaEntries rp_Changes rp_Kind]. unfold delta_proposal at 2. destruct (rp_Accepted rp) eqn:Eacc.
  - pose proof (count_delta_size P _ Hrp s 0 V Ha) as [E1 E2]. pose proof (count_delta_le (rp_Changes rp) s 0) as [E3 _].
    destruct (count_delta s 0 (rp_Changes rp)) as [s' n]. cbn [fst snd] in *.
    destruct (IH s' V0 (foldl delta_change_value V (rp_Changes rp)) E2) as [E4 E5].
    { etrans; [exact Hd|apply delta_changes_dom]. }
    split; [unfold delta_sum in *; cbn [foldr rp_Accepted rp_DeltaEntries]; lia|].
    constructor; [|exact E5]. split; [now rewrite Eacc|]. intros _. cbn [rp_DeltaEntries]. split; [lia|].
    etrans; [apply E3|]. unfold new_ids. rewrite Z.add_0_l. apply Nat2Z.inj_le, subseteq_size.
    intros i. rewrite !elem_of_difference. intros [Hi Hn]. split; [exact Hi|]. intros Hv. apply Hn, Ha; [|now apply Hd].
    apply elem_of_list_to_set, list_elem_of_In, in_map_iff in Hi as (rc & <- & Hrc). apply list_elem_of_In in Hrc.
    rewrite Forall_forall in Hrp. now apply Hrp.
  - destruct (IH s V0 V Ha Hd) as [E4 E5]. split; [unfold delta_sum in *; cbn [foldr clear_delta rp_Accepted]; rewrite Eacc; exact E4|].
    constructor; [|exact E5]. split; [reflexivity|congruence].
Qed.

Lemma delta_sum_same rps rps' : Forall2 (fun rp rp' => rp_Accepted rp' = rp_Accepted rp) rps rps' ->
  map rp_DeltaEntries rps = map rp_DeltaEntries rps' -> delta_sum rps = delta_sum rps'.
Proof.
  unfold delta_sum. induction 1 as [|rp rp' rps rps' Ha _ IH]; intros E; [reflexivity|]. cbn in *.
  injection E as E1 E2. now rewrite Ha, E1, IH.
Qed.

Lemma valid_delta_counts plan A V : validDeltaEntries plan A = true ->
  agree (fun id => id ∈ plan_ids (gp_Proposals plan)) A (dom V) ->
  delta_sum (gp_Proposals plan) = Z.of_nat (size (delta_plan V (gp_Proposals plan))) - Z.of_nat (size V) /\
  Forall (fun rp => rp_Accepted rp = true -> 0 <= rp_DeltaEntries rp <= new_ids V (map rc_id (rp_Changes rp))) (gp_Proposals plan).
Proof.
  intros Hv Ha. apply bool_decide_eq_true in Hv. set (rps := gp_Proposals plan) in *.
  destruct (assign_counts (fun id => id ∈ plan_ids rps) rps) with (s := A) (V0 := V) (V := V) as [E1 E2]; auto.
  { apply Forall_forall. intros rp Hrp. apply Forall_forall. intros rc Hrc. unfold plan_ids.
    apply list_elem_of_In, in_concat. exists (map rc_id (rp_Changes rp)). split.
    - apply in_map_iff. exists rp. split; [reflexivity|now apply list_elem_of_In].
    - apply in_map_iff. exists rc. split; [reflexivity|now apply list_elem_of_In]. }
  split.
  - rewrite <- E1. apply delta_sum_same; [|exact Hv]. eapply Forall2_impl; [exact E2|]. cbn. tauto.
  - clear E1 Ha. revert Hv E2. generalize (assign_loop A (map clear_delta rps)) as out. intros out.
    generalize rps as l. intros l. revert out. induction l as [|rp l IH]; intros [|rp' out] Hv E2; try constructor; inversion E2 as [|? ? ? ? [_ Hb] Hrest]; subst.
    + cbn in Hv. injection Hv as E _. rewrite E. exact Hb.
    + apply (IH out); [now injection Hv|exact Hrest].
Qed.

(** Validity of the counts depends only on the ids of the plan. *)
Lemma valid_delta_agree plan A A' : agree (fun id => id ∈ plan_ids (gp_Proposals plan)) A A' ->
  validDeltaEntries plan A = validDeltaEntries plan A'.
Proof.
  intros Ha. unfold validDeltaEntries. rewrite (assign_loop_agree (fun id => id ∈ plan_ids (gp_Proposals plan)) _) with (s' := A'); auto.
  apply Forall_map, Forall_forall. intros rp Hrp. cbn. apply Forall_forall. intros rc Hrc. unfold plan_ids.
  apply list_elem_of_In, in_concat. exists (map rc_id (rp_Changes rp)). split.
  - apply in_map_iff. exists rp. split; [reflexivity|now apply list_elem_of_In].
  - apply in_map_iff. exists rc. split; [reflexivity|now apply list_elem_of_In].
Qed.

(** ** Admission counts the new ids *)

Lemma count_entries_spec active ids : Forall (fun id => id <> 0) ids -> forall seen n,
  count_entries active seen n ids = Ok (n + Z.of_nat (size (list_to_set ids ∖ (dom active ∪ seen) : gset Z))).
Proof.
  induction 1 as [|id ids H0 _ IH]; intros seen n; cbn [count_entries].
  { replace (list_to_set [] ∖ _) with (∅ : gset Z); [rewrite size_empty; f_equal; lia|].
    apply set_eq. intros i. rewrite elem_of_difference. cbn. rewrite elem_of_empty. tauto. }
  apply Z.eqb_neq in H0. rewrite H0.
  destruct (decide (id ∈ seen)) as [Hin|Hn].
  - rewrite bool_decide_eq_true_2 by exact Hin. rewrite IH. do 4 f_equal. apply set_eq. intros i. cbn.
    rewrite !elem_of_difference, !elem_of_union, elem_of_singleton. split; [tauto|]. intros [[->|?] ?]; tauto.
  - rewrite bool_decide_eq_false_2 by exact Hn. rewrite IH.
    destruct (decide (active !! id = None)) as [Hna|Hsa].
    + rewrite bool_decide_eq_true_2 by exact Hna. f_equal.
      replace (list_to_set (id :: ids) ∖ (dom active ∪ seen)) with
        ({[id]} ∪ (list_to_set ids ∖ (dom active ∪ ({[id]} ∪ seen))) : gset Z).
      * set (A := list_to_set ids ∖ (dom active ∪ ({[id]} ∪ seen)) : gset Z). rewrite size_union, size_singleton; [lia|].
        unfold A. intros i. rewrite elem_of_singleton, elem_of_difference, !elem_of_union, elem_of_singleton. tauto.
      * apply set_eq. intros i. cbn. rewrite !elem_of_difference, !elem_of_union, elem_of_difference, !elem_of_union, elem_of_singleton.
        destruct (decide (i = id)) as [->|]; [|tauto]. apply not_elem_of_dom in Hna. tauto.
    + rewrite bool_decide_eq_false_2 by exact Hsa. do 4 f_equal. apply set_eq. intros i. cbn.
      rewrite !elem_of_difference, !elem_of_union, elem_of_singleton.
      destruct (decide (i = id)) as [->|]; [|tauto]. assert (id ∈ dom active) by (apply elem_of_dom, not_eq_None_Some, Hsa). tauto.
Qed.

Lemma count_entries_zero active ids : Exists (fun id => id = 0) ids -> forall seen n,
  is_ok (count_entries active seen n ids) = false.
Proof.
  induction 1 as [id ids ->|id ids _ IH]; intros seen n; cbn [count_entries]; [reflexivity|].
  destruct (id =? 0); [reflexivity|]. destruct (bool_decide (id ∈ seen)); apply IH.
Qed.

(** ** Consuming the reservations of a group *)

(** The reservation of a proposal covers what it consumes. *)
Definition covered_by (p : Pool) (rp : ResolvedProposal) (h : nat) : Prop :=
  exists u, live_reservation p h u /\ (rp_Accepted rp = true -> 0 <= rp_DeltaEntries rp /\ rp_DeltaEntries rp * 64 <= u).

Lemma consume_all_spec rps rs : NoDup rs -> forall p charged, pool_ok p -> Forall2 (covered_by p) rps rs ->
  0 <= charged <= db_charged (p_budget p) ->
  exists p', consume_all p charged rps rs = (p', Ok (charged + delta_sum rps * 64)) /\ pool_ok p' /\
    db_charged (p_budget p') = db_charged (p_budget p) + delta_sum rps * 64 /\ 0 <= delta_sum rps /\
    db_hard (p_budget p') = db_hard (p_budget p) /\
    (forall h u, live_reservation p h u -> h ∉ rs -> live_reservation p' h u).
Proof.
  intros Hnd p charged Hp Hc. revert p charged Hp Hc. revert rps.
  induction Hnd as [|h rs Hni Hnd IH]; intros rps p charged Hp Hc Hch; inversion Hc as [|rp ? rps' ? (u & Hu & Hle) Hrest]; subst; cbn [consume_all].
  { exists p. change (delta_sum []) with 0. rewrite Z.mul_0_l, !Z.add_0_r. split; [reflexivity|]. split; [exact Hp|].
    split; [reflexivity|]. split; [lia|]. auto. }
  cbn [delta_sum foldr]. fold (delta_sum rps'). destruct (rp_Accepted rp) eqn:Ea; cbn [negb].
  - destruct Hle as [H0 Hle]; [reflexivity|].
    destruct (consume_spec p h u (rp_DeltaEntries rp) Hp Hu H0 Hle) as (p1 & -> & Hp1 & Ec & _ & Eh & Hfr).
    assert (db_charged (p_budget p1) <= MaxUint64).
    { pose proof (po_limit p1 Hp1). pose proof (po_hard p1 Hp1). rewrite (po_reserved p1 Hp1) in *.
      pose proof (outstanding_nonneg _ (po_upper p1 Hp1)). lia. }
    replace (MaxUint64 - rp_DeltaEntries rp * 64 <? charged) with false by (symmetry; apply Z.ltb_ge; lia).
    destruct (IH rps' p1 (charged + rp_DeltaEntries rp * 64) Hp1) as (p2 & -> & Hp2 & Ec2 & Hs & Eh2 & Hfr2); [|lia|].
    { clear -Hrest Hni Hfr. induction Hrest as [|rp' h' rps' rs (u' & Hu' & Hle') _ IHr]; constructor.
      - exists u'. split; [|exact Hle']. apply Hfr; [exact Hu'|]. intros ->. apply Hni. now constructor.
      - apply IHr. intros Hin. apply Hni. now constructor. }
    exists p2. split; [f_equal; f_equal; lia|]. split; [exact Hp2|]. split; [lia|]. split; [lia|]. split; [congruence|].
    intros h' u' Hl Hn. apply not_elem_of_cons in Hn as [Hn1 Hn2]. apply Hfr2; [|exact Hn2]. now apply Hfr.
  - destruct (Release_spec p (Some h) Hp) as (Hp1 & Ec & _ & Hfr).
    destruct (IH rps' (Release p (Some h)) charged Hp1) as (p2 & -> & Hp2 & Ec2 & Hs & Eh2 & Hfr2); [|lia|].
    { clear -Hrest Hni Hfr. induction Hrest as [|rp' h' rps' rs (u' & Hu' & Hle') _ IHr]; constructor.
      - exists u'. split; [|exact Hle']. apply Hfr; [exact Hu'|]. intros [= ->]. apply Hni. now constructor.
      - apply IHr. intros Hin. apply Hni. now constructor. }
    exists p2. split; [f_equal; f_equal; lia|]. split; [exact Hp2|]. split; [lia|]. split; [lia|]. split.
    + rewrite Eh2. unfold Release. destruct (p_objs p !! h) as [o|]; [|reflexivity]. destruct (rv_consumed o); [reflexivity|].
      cbn. now destruct (_ <=? _).
    + intros h' u' Hl Hn. apply not_elem_of_cons in Hn as [Hn1 Hn2]. apply Hfr2; [|exact Hn2]. apply Hfr; [exact Hl|congruence].
Qed.

Lemma conditions_ok_nonzero cs : forall p, conditions_ok p cs = true -> Forall (fun c => co_RecordID c <> 0) cs.
Proof.
  induction cs as [|c cs IH]; intros p H; [constructor|]. cbn [conditions_ok] in H. apply andb_true_iff in H as [H Hr].
  bool_norm. constructor; [assumption|exact (IH _ Hr)].
Qed.

(** ** The invariant *)

Definition value_ok (id : Z) (v : option RecordRef) : Prop :=
  0 < id <= MaxUint64 /\ match v with Some r => RecordRef_Valid r = true /\ ref_u r | None => True end.

Record layer_ok (l : deltaLayer) : Prop := mkLayerOk {
  lo_values : forall id v, dl_values l !! id = Some v -> value_ok id v;
  lo_charge : dl_charge l = Z.of_nat (size (dl_values l)) * 64;
}.

Definition layers_charge (ls : list deltaLayer) : Z := foldr (fun l acc => dl_charge l + acc) 0 ls.
Definition layers_size (ls : list deltaLayer) : Z := foldr (fun l acc => Z.of_nat (size (dl_values l)) + acc) 0 ls.

Lemma layers_charge_size ls : Forall layer_ok ls -> layers_charge ls = layers_size ls * 64.
Proof. unfold layers_charge, layers_size. induction 1 as [|l ls [_ Hc] _ IH]; cbn [foldr]; [reflexivity|]. rewrite Hc, IH. lia. Qed.

Lemma layers_charge_app ls ls' : layers_charge (ls ++ ls') = layers_charge ls + layers_charge ls'.
Proof. unfold layers_charge. induction ls as [|l ls IH]; cbn [app foldr]; lia. Qed.

Lemma layers_charge_one l : layers_charge [l] = dl_charge l.
Proof. unfold layers_charge. cbn [foldr]. lia. Qed.

Lemma layers_size_app ls ls' : layers_size (ls ++ ls') = layers_size ls + layers_size ls'.
Proof. unfold layers_size. induction ls as [|l ls IH]; cbn [app foldr]; lia. Qed.

Lemma layers_size_nonneg ls : 0 <= layers_size ls.
Proof. unfold layers_size. induction ls as [|l ls IH]; cbn [foldr]; lia. Qed.

Section Spec.
Context {N T : Type} `{!TreeStore N T} `{!TreeLaws N T}.
Implicit Types m : Persistent N T.

Definition layers m : list deltaLayer := pe_frozen m ++ [pe_active m].

(** The checkpointed entries, and the visible ones. *)
Definition base_entries m : Entries := tr_entries (pe_nodes m) (pe_root m).
Definition visible m : Entries := frozen_entries (base_entries m) (layers m).

Definition entries_u (S : Entries) : Prop :=
  forall id r, S !! id = Some r -> value_ok id (Some r).

Record pe_ok m : Prop := mkPeOk {
  ok_tree : tr_ok (pe_nodes m) (pe_root m);
  ok_covered : is_u64 (pe_covered m);
  ok_layers : Forall layer_ok (layers m);
  ok_pool : pool_ok (pe_pool m);
  ok_charged : db_charged (p_budget (pe_pool m)) = layers_charge (layers m);
  ok_live : live_exact (pe_live m) (visible m);
  ok_bytes : total_bytes (visible m) <= MaxUint64;
  ok_cut : tr_Covered (pe_root m) <= pe_covered m;
  ok_fresh : 0 < layers_size (layers m) -> tr_Covered (pe_root m) < pe_covered m;
  ok_sort : db_hard (p_budget (pe_pool m)) / 64 <= pe_sortBytes m / 24;
  ok_gens : dl_id (pe_active m) = pe_checkpointID m /\ 0 <= pe_checkpointID m <= MaxUint64;
  ok_frozen_gens : StronglySorted Z.lt (map dl_id (layers m));
}.

Lemma visible_active m : visible m = overlay (dl_values (pe_active m)) (frozen_entries (base_entries m) (pe_frozen m)).
Proof. unfold visible, layers, frozen_entries. now rewrite foldl_app. Qed.

Lemma lookupLayers_spec m id :
  visible m !! id = match lookupLayers (pe_active m) (pe_frozen m) id with Some v => v | None => base_entries m !! id end.
Proof.
  rewrite visible_active, overlay_lookup, frozen_lookup. unfold lookupLayers. now destruct (dl_values (pe_active m) !! id).
Qed.

Lemma overlay_u V S : (forall id v, V !! id = Some v -> value_ok id v) -> entries_u S -> entries_u (overlay V S).
Proof.
  intros HV HS id r. rewrite overlay_lookup. destruct (V !! id) as [v|] eqn:E; [intros ->; now apply HV|apply HS].
Qed.

Lemma frozen_u ls : Forall layer_ok ls -> forall S, entries_u S -> entries_u (frozen_entries S ls).
Proof.
  induction 1 as [|l ls [Hl _] _ IH]; intros S HS; [exact HS|].
  change (frozen_entries S (l :: ls)) with (frozen_entries (overlay (dl_values l) S) ls). apply IH. now apply overlay_u.
Qed.

Lemma base_u m : pe_ok m -> entries_u (base_entries m).
Proof. intros H id r E. destruct (tr_wf _ _ (ok_tree m H)) as (_ & Hw & _). destruct (Hw id r E) as (? & ? & ?). split; auto. Qed.

Lemma visible_u m : pe_ok m -> entries_u (visible m).
Proof. intros H. apply frozen_u; [apply (ok_layers m H)|now apply base_u]. Qed.

Lemma entries_u_ok S : entries_u S -> entries_ok S.
Proof. intros H id r E. destruct (H id r E) as (? & ? & ?). split; [lia|assumption]. Qed.

Lemma visible_ok m : pe_ok m -> entries_ok (visible m).
Proof. intros H. now apply entries_u_ok, visible_u. Qed.

(** ** Lookup and resolution *)

Lemma lookup_ok m id : pe_ok m -> 0 < id <= MaxUint64 -> LookupRef m id = Ok (visible m !! id).
Proof.
  intros H Hid. unfold LookupRef. replace (id =? 0) with false by (symmetry; apply Z.eqb_neq; lia).
  rewrite lookupLayers_spec. destruct (lookupLayers _ _ id); [reflexivity|]. now apply tr_lookup; [apply ok_tree|].
Qed.

Lemma read_values_ok m ids : pe_ok m -> Forall (fun id => 0 < id <= MaxUint64) ids -> forall values,
  exists values', read_values m ids values = Ok values' /\
    (forall id, id ∈ ids -> values' !! id = Some (visible m !! id)) /\
    (forall id, id ∉ ids -> values' !! id = values !! id).
Proof.
  intros H. induction 1 as [|id ids Hid _ IH]; intros values; cbn [read_values].
  { exists values. split; [reflexivity|]. split; [intros id Hin; now apply elem_of_nil in Hin|auto]. }
  assert (E : exists v, v = visible m !! id /\
    match lookupLayers (pe_active m) (pe_frozen m) id with
    | Some value => read_values m ids (<[id := value]> values)
    | None => let! found := tr_LookupRef (pe_nodes m) (pe_root m) id in read_values m ids (<[id := found]> values)
    end = read_values m ids (<[id := v]> values)).
  { eexists. split; [reflexivity|]. rewrite lookupLayers_spec. destruct (lookupLayers _ _ id); [reflexivity|].
    rewrite tr_lookup by (auto using ok_tree). reflexivity. }
  destruct E as (v & -> & ->). destruct (IH (<[id := visible m !! id]> values)) as (values' & -> & Hin & Hout).
  exists values'. split; [reflexivity|]. split.
  - intros i Hi. destruct (decide (i ∈ ids)) as [Hi'|Hn]; [now apply Hin|]. rewrite (Hout i Hn).
    apply elem_of_cons in Hi as [->|?]; [apply lookup_insert_eq|contradiction].
  - intros i Hi. apply not_elem_of_cons in Hi as [Hne Hn]. rewrite (Hout i Hn). now apply lookup_insert_ne.
Qed.

Lemma proposalReadSet_spec ps id : id ∈ proposalReadSet ps <->
  exists p, p ∈ ps /\ (id ∈ map co_RecordID (pr_Conditions p) \/ id ∈ map ch_RecordID (pr_Changes p)).
Proof.
  unfold proposalReadSet. rewrite merge_sort_Permutation, elem_of_elements, elem_of_list_to_set, list_elem_of_In, in_concat.
  split.
  - intros (l & (p & <- & Hp)%in_map_iff & Hid). exists p. split; [now apply list_elem_of_In|].
    apply list_elem_of_In, elem_of_app in Hid. exact Hid.
  - intros (p & Hp & Hid). eexists. split; [apply in_map_iff; exists p; split; [reflexivity|now apply list_elem_of_In]|].
    apply list_elem_of_In, elem_of_app. exact Hid.
Qed.

Lemma readset_proposals ps : Forall (proposal_ids (fun id => id ∈ proposalReadSet ps)) ps.
Proof.
  apply Forall_forall. intros p Hp. split; apply Forall_forall; intros c Hc; apply proposalReadSet_spec; exists p; (split; [exact Hp|]).
  - left. apply list_elem_of_In, in_map, list_elem_of_In, Hc.
  - right. apply list_elem_of_In, in_map, list_elem_of_In, Hc.
Qed.

Lemma readset_u ps : group_ok ps -> Forall proposal_u ps -> Forall (fun id => 0 < id <= MaxUint64) (proposalReadSet ps).
Proof.
  intros (_ & _ & Hv) Hu. apply Forall_forall. intros id (p & Hp & Hid)%proposalReadSet_spec.
  rewrite Forall_forall in Hv, Hu. destruct (Hu p Hp) as [[Hc Hch] _]. specialize (Hv p Hp).
  unfold validateProposal in Hv. apply andb_true_iff in Hv as [Hv Hvch]. apply andb_true_iff in Hv as [_ Hvc].
  unfold is_u64 in *. destruct Hid as [Hid|Hid]; apply list_elem_of_In, in_map_iff in Hid as (c & <- & Hin); apply list_elem_of_In in Hin.
  - rewrite Forall_forall in Hc. specialize (Hc c Hin). cbn in Hc. apply conditions_ok_nonzero in Hvc. rewrite Forall_forall in Hvc.
    specialize (Hvc c Hin). cbn in Hvc. lia.
  - rewrite Forall_forall in Hch. specialize (Hch c Hin). cbn in Hch. apply changes_ok_spec in Hvch as (Hall & _).
    rewrite Forall_forall in Hall. destruct (Hall c Hin) as [? _]. lia.
Qed.

Definition plan_active m (ps : list Proposal) : gset Z := active_ids (dl_values (pe_active m)) (concat (map changed_ids ps)).

(** Resolution is that of the values it reads, which are the visible ones. *)
Lemma ResolveGroup_reads m ps : pe_ok m -> group_ok ps -> Forall proposal_u ps ->
  exists values : Values, ResolveGroup m ps = resolve_from m ps values /\ forall id, id ∈ proposalReadSet ps -> match values !! id with Some v => v | None => None end = visible m !! id.
Proof.
  intros Hm Hg Hu. destruct (Hg) as (Hne & Hlen & Hv). unfold ResolveGroup, ResolveGroup_observing.
  pose proof (len_nonneg ps). assert (len ps <> 0) by (intros E; now apply Hne, len_zero_nil).
  replace ((len ps =? 0) || _) with false by (symmetry; apply orb_false_iff; split; [apply Z.eqb_neq|apply Z.ltb_ge]; lia).
  replace (forallb validateProposal ps) with true
    by (symmetry; apply forallb_forall; intros p Hp; rewrite Forall_forall in Hv; now apply Hv, list_elem_of_In).
  cbn [negb resolve_loop]. destruct (read_values_ok m _ Hm (readset_u ps Hg Hu) ∅) as (values & -> & Hin & _).
  unfold stable. rewrite !Z.eqb_refl. cbn [andb]. exists values. split; [reflexivity|]. intros id Hid. now rewrite (Hin id Hid).
Qed.

Lemma resolve_ok m ps : pe_ok m -> group_ok ps -> Forall proposal_u ps ->
  exists plan, ResolveGroup m ps = Ok plan /\ plan_for (visible m) (pe_covered m) (plan_active m ps) ps plan.
Proof.
  intros Hm Hg Hu. destruct (ResolveGroup_reads m ps Hm Hg Hu) as (values & -> & Hin). destruct Hg as (_ & _ & Hv). unfold resolve_from. fold (plan_active m ps).
  destruct (resolve_assign_spec (fun id => id ∈ proposalReadSet ps) (visible m) (pe_covered m)
    (fun id => Ok (match values !! id with Some v => v | None => None end)) (plan_active m ps) ps) as (plan & -> & Hp).
  - apply Forall_and. split; [exact Hv|apply readset_proposals].
  - intros id Hid. now rewrite (Hin id Hid).
  - eexists. split; [reflexivity|exact Hp].
Qed.

(** The ids it touches are those of a serial execution. *)
Lemma resolved_touched m ps plan : pe_ok m -> group_ok ps -> Forall proposal_u ps -> ResolveGroup m ps = Ok plan -> plan_touched (gp_Proposals plan) = spec_touched (visible m) ps.
Proof.
  intros Hm Hg Hu E. destruct (ResolveGroup_reads m ps Hm Hg Hu) as (values & Er & Hin). rewrite Er in E. destruct Hg as (_ & _ & Hv). unfold resolve_from, resolveGroupAt in E. destruct (resolve_proposals _ _ _) as [[v rps]|] eqn:Ep; [|discriminate]. apply Ok_inj in E. subst plan. cbn [assignDeltaEntries gp_Proposals].
  rewrite <- (same_touched _ _ (assign_loop_same rps _)). apply (resolve_proposals_touched (fun id => id ∈ proposalReadSet ps) _ ps) with (3 := Ep); [apply Forall_and; split; [exact Hv|apply readset_proposals]|].
  intros id Hid. unfold lookup_virtual. rewrite lookup_empty. now rewrite (Hin id Hid).
Qed.

(** ** Publication *)

Definition covers m (h : nat) (ids : list Z) : Prop :=
  exists u, live_reservation (pe_pool m) h u /\ new_ids (dl_values (pe_active m)) ids * 64 <= u.

Lemma plan_ids_cons rp rps : plan_ids (rp :: rps) = map rc_id (rp_Changes rp) ++ plan_ids rps.
Proof. reflexivity. Qed.

Lemma resolved_ids p rp : resolved_of p rp ->
  map rc_id (rp_Changes rp) = if rp_Accepted rp then changed_ids p else [].
Proof.
  intros [_ Hr]. destruct (rp_Accepted rp); [|destruct Hr as [-> _]; reflexivity]. destruct Hr as [Em _].
  unfold changed_ids. rewrite <- Em, map_map. reflexivity.
Qed.

Lemma plan_ids_sub ps rps : Forall2 resolved_of ps rps -> forall id, id ∈ plan_ids rps -> id ∈ concat (map changed_ids ps).
Proof.
  induction 1 as [|p rp ps rps Hr _ IH]; intros id Hid; [exact Hid|]. rewrite plan_ids_cons, (resolved_ids p rp Hr) in Hid.
  cbn. apply elem_of_app. apply elem_of_app in Hid as [Hid|Hid]; [|right; now apply IH].
  destruct (rp_Accepted rp); [now left|now apply elem_of_nil in Hid].
Qed.

Lemma active_ids_spec V ids id : id ∈ active_ids V ids <-> id ∈ ids /\ is_Some (V !! id).
Proof. unfold active_ids. rewrite elem_of_list_to_set, list_elem_of_filter. tauto. Qed.

Lemma active_agree V ids (l : list Z) : (forall id, id ∈ l -> id ∈ ids) -> agree (fun id => id ∈ l) (active_ids V ids) (dom V).
Proof. intros Hs id Hid. rewrite active_ids_spec, elem_of_dom. specialize (Hs id Hid). tauto. Qed.

Lemma delta_changes_ok kind rcs : kind = ProposalUserCommit \/ kind = ProposalRelocation ->
  Forall (fun rc => 0 < rc_id rc <= MaxUint64 /\ change_ok kind (rc_Change rc) = true /\ ref_u (ch_NewRef (rc_Change rc))) rcs ->
  forall V, (forall id v, V !! id = Some v -> value_ok id v) ->
  forall id v, foldl delta_change_value V rcs !! id = Some v -> value_ok id v.
Proof.
  intros Hk. induction 1 as [|rc rcs (Hid & Hc & Hu) _ IH]; intros V HV; [exact HV|]. cbn [foldl]. apply IH.
  intros id v. unfold delta_change_value. destruct (rc_Apply rc); [|apply HV].
  intros [[<- <-]|[_ Hv]]%lookup_insert_Some; [|now apply HV]. split; [exact Hid|].
  destruct (ch_Operation (rc_Change rc) =? OpDelete) eqn:E; [exact I|]. split; [|exact Hu].
  apply (change_ok_ref kind); auto. now apply Z.eqb_neq.
Qed.

Lemma delta_plan_ok ps rps : Forall2 resolved_of ps rps -> Forall (fun p => validateProposal p = true) ps -> Forall proposal_u ps ->
  forall V, (forall id v, V !! id = Some v -> value_ok id v) ->
  forall id v, delta_plan V rps !! id = Some v -> value_ok id v.
Proof.
  unfold delta_plan. induction 1 as [|p rp ps rps Hr _ IH]; intros Hv Hu V HV; [exact HV|].
  apply Forall_cons_iff in Hv as [Hvp Hv]. apply Forall_cons_iff in Hu as [[[_ Hids] Hrefs] Hu]. cbn [foldl]. apply IH; auto.
  unfold delta_proposal. destruct Hr as [Hk Hr]. destruct (rp_Accepted rp); [|exact HV]. destruct Hr as [Em _].
  apply validateProposal_facts in Hvp as (Hkind & Hall & _).
  apply (delta_changes_ok (pr_Kind p)); [tauto| |exact HV].
  assert (Hc : Forall (fun c => 0 < ch_RecordID c <= MaxUint64 /\ change_ok (pr_Kind p) c = true /\ ref_u (ch_NewRef c)) (pr_Changes p)).
  { apply Forall_forall. intros c Hc. rewrite Forall_forall in Hall, Hids, Hrefs. destruct (Hall c Hc) as (H0 & Hok & _).
    specialize (Hids c Hc). unfold is_u64 in Hids. split; [lia|]. split; [exact Hok|now apply Hrefs]. }
  rewrite <- Em in Hc. now rewrite Forall_map in Hc.
Qed.

Lemma covered_plan m ps plan rs : validDeltaEntries plan (plan_active m ps) = true -> Forall2 resolved_of ps (gp_Proposals plan) ->
  Forall2 (fun h p => covers m h (changed_ids p)) rs ps ->
  delta_sum (gp_Proposals plan) =
    Z.of_nat (size (delta_plan (dl_values (pe_active m)) (gp_Proposals plan))) - Z.of_nat (size (dl_values (pe_active m))) /\
  Forall2 (covered_by (pe_pool m)) (gp_Proposals plan) rs.
Proof.
  intros Hd Hr Hc. set (V := dl_values (pe_active m)) in *.
  destruct (valid_delta_counts plan (plan_active m ps) V Hd) as [Hsum Hle].
  { apply active_agree. now apply plan_ids_sub. }
  split; [exact Hsum|]. clear Hsum Hd. revert rs Hc Hle. induction Hr as [|p rp ps rps Hr _ IH]; intros rs Hc Hle;
    inversion Hc as [|h ? rs' ? (u & Hu & Hn) Hrest]; subst; constructor.
  - exists u. split; [exact Hu|]. intros Ha. apply Forall_inv in Hle. specialize (Hle Ha).
    rewrite (resolved_ids p rp Hr), Ha in Hle. split; [lia|]. fold V in Hn. lia.
  - apply IH; [exact Hrest|]. now apply Forall_inv_tail in Hle.
Qed.

Lemma publish_ok m ps plan rs : pe_ok m -> group_ok ps -> Forall proposal_u ps -> ResolveGroup m ps = Ok plan ->
  Forall2 (fun h p => covers m h (changed_ids p)) rs ps -> NoDup rs ->
  accepted_of (spec_flags (visible m) ps) <> 0 ->
  pe_covered m + accepted_of (spec_flags (visible m) ps) <= MaxUint64 ->
  total_bytes (visible m) + group_bytes ps <= MaxUint64 ->
  exists m', PublishGroup m (pe_covered m + 1) plan (map Some rs) = (m', Ok (publish_result plan)) /\
    pe_ok m' /\ visible m' = spec_group (visible m) ps /\
    pe_covered m' = pe_covered m + accepted_of (spec_flags (visible m) ps) /\
    dom (dl_values (pe_active m)) ⊆ dom (dl_values (pe_active m')) /\
    (forall h u, live_reservation (pe_pool m) h u -> h ∉ rs -> live_reservation (pe_pool m') h u).
Proof.
  intros Hm Hg Hu Hres Hc Hnd Ha Hseq Hbytes. destruct Hg as (Hne & Hlen & Hv).
  destruct (resolve_ok m ps Hm (conj Hne (conj Hlen Hv)) Hu) as (plan' & E' & Hp). rewrite E' in Hres. apply Ok_inj in Hres as ->.
  pose proof (plan_len _ _ _ _ _ Hp) as Hpl. destruct Hp as [Eb Ea Ef Ht Hr Hd].
  destruct (covered_plan m ps plan rs Hd Hr Hc) as [Hsum Hcov].
  destruct (plan_checks ps _ Hr Hv _ (visible_ok m Hm) Ht) as [Hok HS'].
  set (n := accepted_of (spec_flags (visible m) ps)) in *.
  assert (Hn : 0 < n) by (pose proof (len_nonneg (filter (fun b => b = true) (spec_flags (visible m) ps))); unfold n, accepted_of in *; lia).
  assert (En : accepted_count (gp_Proposals plan) = n) by (rewrite accepted_count_flags, Ef; reflexivity).
  pose proof (ok_covered m Hm) as Hcv. unfold is_u64 in Hcv. pose proof (len_nonneg ps).
  assert (len ps <> 0) by (intros E; now apply Hne, len_zero_nil).
  unfold PublishGroup. rewrite Hpl. cbv zeta.
  replace (pe_covered m + 1 =? 0) with false by (symmetry; apply Z.eqb_neq; lia).
  replace (len ps =? 0) with false by (symmetry; apply Z.eqb_neq; lia).
  replace (MaxUint32 <? len ps) with false by (symmetry; apply Z.ltb_ge; lia).
  unfold validateResolvedPlan. rewrite Hok. cbn [orb negb].
  rewrite len_map. replace (len rs =? len ps) with true by (symmetry; apply Z.eqb_eq; unfold len; now rewrite (Forall2_length _ _ _ Hc)).
  replace (forallb _ (map Some rs)) with true by (symmetry; apply forallb_forall; intros o (h & <- & _)%in_map_iff; reflexivity).
  cbn [orb negb]. rewrite Eb, Z.eqb_refl. cbn [negb].
  rewrite (valid_delta_agree plan _ (plan_active m ps)), Hd.
  2:{ intros id Hid. unfold plan_active. rewrite !active_ids_spec. pose proof (plan_ids_sub _ _ Hr id Hid). tauto. }
  cbn [negb]. rewrite En. replace (n =? 0) with false by (symmetry; apply Z.eqb_neq; lia).
  rewrite Z.mod_small, Z.eqb_refl by lia. cbn [negb orb].
  replace (MaxUint64 - (pe_covered m + 1) <? n - 1) with false by (symmetry; apply Z.ltb_ge; lia).
  replace (omap id (map Some rs)) with rs by (clear; induction rs; cbn; congruence).
  pose proof (ok_layers m Hm) as Hly. unfold layers in Hly. apply Forall_app in Hly as [Hlf Hla]. apply Forall_inv in Hla.
  pose proof (layers_charge_size _ (ok_layers m Hm)) as Hchs. pose proof (layers_size_nonneg (pe_frozen m)).
  assert (Echarge : db_charged (p_budget (pe_pool m)) = layers_charge (pe_frozen m) + dl_charge (pe_active m)).
  { rewrite (ok_charged m Hm). unfold layers. rewrite layers_charge_app. cbn. lia. }
  rewrite (layers_charge_size _ Hlf) in Echarge.
  destruct (consume_all_spec (gp_Proposals plan) rs Hnd (pe_pool m) 0 (ok_pool m Hm) Hcov) as (p' & -> & Hp' & Ec & Hs0 & Eh & Hfr).
  { split; [lia|]. apply (po_charged _ (ok_pool m Hm)). }
  pose proof (lo_charge _ Hla) as Hlc.
  assert (db_charged (p_budget p') <= MaxUint64).
  { pose proof (po_limit p' Hp'). pose proof (po_hard p' Hp'). rewrite (po_reserved p' Hp') in *.
    pose proof (outstanding_nonneg _ (po_upper p' Hp')). lia. }
  rewrite Z.add_0_l. replace (MaxUint64 - delta_sum (gp_Proposals plan) * 64 <? dl_charge (pe_active m)) with false by (symmetry; apply Z.ltb_ge; lia).
  pose proof (plan_new_bytes_le ps _ Hr Hv) as Hnew.
  destruct (applyPlanLiveStats_exact (visible m) (pe_live m) (pe_covered m + 1) ps plan) as (live' & -> & Hl' & Htot); auto using visible_ok, ok_live; try lia.
  eexists. split; [unfold publish_result; rewrite En; reflexivity|].
  set (m' := mkPersistent _ _ _ _ _ _ _ _ _ _ _ _ _).
  assert (Evis : visible m' = spec_group (visible m) ps).
  { rewrite visible_active. unfold m'. cbn [pe_active dl_values pe_frozen]. rewrite delta_plan_overlay, <- Ea, visible_active. reflexivity. }
  assert (Hlay : layer_ok (pe_active m')).
  { constructor; cbn [m' pe_active dl_values dl_charge].
    - apply (delta_plan_ok ps); auto. apply (lo_values _ Hla).
    - rewrite Hlc, Hsum. lia. }
  split; [|split; [exact Evis|split; [cbn; lia|split; [|cbn; exact Hfr]]]].
  - constructor; rewrite ?Evis; cbn [m' pe_nodes pe_root pe_covered pe_pool pe_live pe_sortBytes pe_active pe_checkpointID dl_id].
    + apply (ok_tree m Hm).
    + unfold is_u64. lia.
    + apply Forall_app. split; [exact Hlf|]. constructor; [exact Hlay|constructor].
    + exact Hp'.
    + rewrite Ec, (ok_charged m Hm). unfold layers. rewrite !layers_charge_app, !layers_charge_one. cbn [m' pe_frozen pe_active dl_charge]. lia.
    + rewrite <- Ea. exact Hl'.
    + rewrite <- Ea. lia.
    + pose proof (ok_cut m Hm). lia.
    + intros _. pose proof (ok_cut m Hm). lia.
    + rewrite Eh. apply (ok_sort m Hm).
    + apply (ok_gens m Hm).
    + pose proof (ok_frozen_gens m Hm) as Hs. unfold layers in *. rewrite map_app in *. exact Hs.
  - cbn [m' pe_active dl_values]. clear. unfold delta_plan. generalize (dl_values (pe_active m)) as V.
    induction (gp_Proposals plan) as [|rp rps IH]; intros V; [reflexivity|]. cbn [foldl]. etrans; [|apply IH].
    unfold delta_proposal. destruct (rp_Accepted rp); [apply delta_changes_dom|reflexivity].
Qed.

(** ** Admission *)

Lemma set_pool_ok m p : pe_ok m -> pool_ok p -> db_charged (p_budget p) = db_charged (p_budget (pe_pool m)) ->
  db_hard (p_budget p) = db_hard (p_budget (pe_pool m)) -> pe_ok (set_pool m p).
Proof. intros [] Hp Hc Hh. constructor; cbn; auto; [now rewrite Hc|now rewrite Hh]. Qed.

Lemma Release_hard p r : db_hard (p_budget (Release p r)) = db_hard (p_budget p).
Proof.
  unfold Release. destruct r as [h|]; [|reflexivity]. destruct (p_objs p !! h) as [o|]; [|reflexivity].
  destruct (rv_consumed o); [reflexivity|]. cbn. now destruct (_ <=? _).
Qed.

Lemma release_ok m h : pe_ok m ->
  pe_ok (release_reservation m h) /\ visible (release_reservation m h) = visible m /\
  (forall h0 ids, covers m h0 ids -> h0 <> h -> covers (release_reservation m h) h0 ids).
Proof.
  intros Hm. destruct (Release_spec (pe_pool m) (Some h) (ok_pool m Hm)) as (Hp & Hc & _ & Hfr). split; [|split; [reflexivity|]].
  - apply set_pool_ok; auto. apply Release_hard.
  - intros h0 ids (u & Hu & Hn) Hne. exists u. split; [|exact Hn]. apply Hfr; [exact Hu|congruence].
Qed.

Lemma reserve_hard p n : db_hard (p_budget (reserve p n).1) = db_hard (p_budget p).
Proof. unfold reserve. destruct (multiply n deltaEntryCharge) as [b o]. destruct (o || _); [reflexivity|]. now destruct (_ || _ || _). Qed.

(** A granted reservation covers the ids it was requested for; a refused one
    leaves the budget untouched. *)
Lemma reserve_ok m ids m' r g : pe_ok m -> ReserveDelta m ids = (m', (r, g)) ->
  pe_ok m' /\ visible m' = visible m /\ pe_covered m' = pe_covered m /\
  (forall h0 ids0, covers m h0 ids0 -> covers m' h0 ids0) /\
  match r with Ok h => covers m' h ids /\ forall h0 ids0, covers m h0 ids0 -> h0 <> h | Err _ => True end.
Proof.
  intros Hm E. unfold ReserveDelta in E.
  destruct (count_entries (dl_values (pe_active m)) ∅ 0 ids) as [entries|e] eqn:Ec.
  2:{ injection E as <- <- <-. split; [exact Hm|]. auto 10. }
  assert (Hz : Forall (fun id => id <> 0) ids).
  { destruct (decide (Exists (fun id => id = 0) ids)) as [Hex|Hn].
    - pose proof (count_entries_zero (dl_values (pe_active m)) ids Hex ∅ 0) as Hf. rewrite Ec in Hf. discriminate.
    - apply Forall_forall. intros id Hid ->. apply Hn, Exists_exists. eauto. }
  rewrite count_entries_spec in Ec by exact Hz. apply Ok_inj in Ec.
  assert (Een : entries = new_ids (dl_values (pe_active m)) ids).
  { rewrite <- Ec. unfold new_ids. rewrite (right_id_L ∅ (∪)). reflexivity. }
  clear Ec. subst entries. pose proof (new_ids_nonneg (dl_values (pe_active m)) ids) as Hnn.
  pose proof (reserve_spec (pe_pool m) _ (ok_pool m Hm) Hnn) as Hr. pose proof (reserve_hard (pe_pool m) (new_ids (dl_values (pe_active m)) ids)) as Hh.
  destruct (reserve (pe_pool m) (new_ids (dl_values (pe_active m)) ids)) as [p [[h|e] pressure]]; cbn [fst] in Hh.
  - destruct Hr as (Hp & Hlive & Hfr & Hc & _).
    assert (Hm1 : pe_ok (set_pool m p)) by (apply set_pool_ok; auto).
    assert (Hfr1 : forall h0 ids0, covers m h0 ids0 -> covers (set_pool m p) h0 ids0 /\ h0 <> h).
    { intros h0 ids0 (u & Hu & Hn). destruct (Hfr h0 u Hu) as [Hu' Hne]. split; [|exact Hne]. exists u. auto. }
    assert (Hcov : covers (set_pool m p) h ids).
    { exists (new_ids (dl_values (pe_active m)) ids * 64). split; [exact Hlive|]. cbn. lia. }
    destruct pressure; cbn [negb] in E; [|injection E as <- <- <-; split; [exact Hm1|]; split; [reflexivity|]; split; [reflexivity|];
      split; [intros; now apply Hfr1|]; split; [exact Hcov|intros h0 ids0 H0; now apply (Hfr1 h0 ids0)]].
    destruct (pe_checkpointID m =? MaxUint64); injection E as <- <- <-.
    + destruct (release_ok (set_pool m p) h Hm1) as (Hm2 & _ & Hfr2). split; [exact Hm2|]. split; [reflexivity|]. split; [reflexivity|].
      split; [|exact I]. intros h0 ids0 H0. destruct (Hfr1 h0 ids0 H0) as [H1 Hne]. exact (Hfr2 h0 ids0 H1 Hne).
    + split; [exact Hm1|]. split; [reflexivity|]. split; [reflexivity|]. split; [intros; now apply Hfr1|].
      split; [exact Hcov|intros h0 ids0 H0; now apply (Hfr1 h0 ids0)].
  - destruct Hr as (-> & _ & _). assert (Hm1 : pe_ok (set_pool m (pe_pool m))) by (apply set_pool_ok; auto using ok_pool).
    assert (Hres : pe_ok m' /\ visible m' = visible m /\ pe_covered m' = pe_covered m /\
      (forall h0 ids0, covers m h0 ids0 -> covers m' h0 ids0) /\ is_ok r = false).
    { destruct (_ || negb pressure); [injection E as <- <- <-; auto 10|].
      destruct (pe_checkpointID m =? MaxUint64); injection E as <- <- <-; auto 10. }
    destruct Hres as (H1 & H2 & H3 & H4 & H5). destruct r; [discriminate|]. auto 10.
Qed.
End Spec.

(** ** The instance *)

#[export] Instance Persistent_index {N T} `{!TreeStore N T} : Index (Persistent N T) nat := {
  ix_LookupRef := LookupRef;
  ix_ReserveDelta := ReserveDelta;
  ix_Release := release_reservation;
  ix_ResolveGroup := ResolveGroup;
  ix_PublishGroup m first plan rs := PublishGroup m first plan (map Some rs);
  ix_Covered := pe_covered }.

Lemma sep_nodup (rs : list nat) : ForallOrdPairs (fun r r' => r <> r') rs -> NoDup rs.
Proof. induction 1 as [|h rs Hh _ IH]; constructor; [|exact IH]. intros Hin. rewrite Forall_forall in Hh. now apply (Hh h). Qed.

#[export] Instance Persistent_laws {N T} `{!TreeStore N T} `{!TreeLaws N T} : IndexLaws (Persistent N T) nat.
Proof.
  unshelve econstructor; [exact pe_ok|exact visible|exact covers|exact (fun r r' => r <> r')|..].
  - intros r r' H E. now apply H.
  - intros x Hx. split; [apply (ok_covered x Hx)|]. split; [now apply visible_ok|apply (ok_bytes x Hx)].
  - intros x id Hx Hid. now apply lookup_ok.
  - intros x ids x' r g Hx E. now apply (reserve_ok x ids x' r g).
  - intros x r Hx. destruct (release_ok x r Hx) as (H1 & H2 & H3). auto.
  - intros x ps Hx Hg Hu. destruct (resolve_ok x ps Hx Hg Hu) as (plan & E & [H1 H2 H3 H4 H5 H6]).
    exists plan. split; [exact E|]. now constructor.
  - intros x ps plan rs Hx Hg Hu Hr Hc Hs Ha Hseq Hb.
    destruct (publish_ok x ps plan rs Hx Hg Hu Hr Hc (sep_nodup rs Hs) Ha Hseq Hb) as (x' & E & Hx' & Hv & Hcv & Hd & Hfr).
    exists x'. split; [exact E|]. split; [exact Hx'|]. split; [exact Hv|]. split; [exact Hcv|].
    intros h0 ids0 (u & Hu0 & Hn) Hsep. exists u. split.
    + apply Hfr; [exact Hu0|]. intros Hin. rewrite Forall_forall in Hsep. now apply (Hsep h0).
    + pose proof (new_ids_mono _ _ ids0 Hd). lia.
Defined.

(** ** The budget *)

Lemma reserve_reserved p n p' h pressure : 0 <= n -> reserve p n = (p', (Ok h, pressure)) -> db_reserved (p_budget p') = db_reserved (p_budget p) + n * 64.
Proof.
  intros Hn E. unfold reserve in E. rewrite multiply_spec in E by exact Hn. destruct (MaxUint64 <? n * 64); [discriminate|]. cbn [orb] in E. destruct (_ <? _); [discriminate|]. destruct (_ || _ || _); [discriminate|]. now injection E as <- _ _.
Qed.

Lemma live_unique p h u u' : live_reservation p h u -> live_reservation p h u' -> u = u'.
Proof. unfold live_reservation. congruence. Qed.

(** What distinct reservations hold is reserved. *)
Lemma held_reserved rs : NoDup rs -> forall p ns, pool_ok p -> Forall2 (live_reservation p) rs ns -> foldr Z.add 0 ns <= db_reserved (p_budget p).
Proof.
  induction 1 as [|h rs Hn _ IH]; intros p ns Hp H; inversion H as [|? n ? ns' Hh Hrest]; subst; cbn [foldr]; [rewrite (po_reserved p Hp); apply outstanding_nonneg, (po_upper p Hp)|].
  destruct (Release_spec p (Some h) Hp) as (Hp' & _ & Hr & Hfr). specialize (Hr h n eq_refl Hh). enough (foldr Z.add 0 ns' <= db_reserved (p_budget (Release p (Some h)))) by lia. apply IH; [exact Hp'|]. clear -Hrest Hn Hfr.
  induction Hrest as [|h' n' rs ns' Hl _ IHr]; constructor; [apply Hfr; [exact Hl|]; intros [= ->]; apply Hn; now left|apply IHr; intros Hi; apply Hn; now right].
Qed.

Lemma consume_all_held rs : NoDup rs -> forall rps ns p charged p' c, pool_ok p -> Forall2 (live_reservation p) rs ns -> Forall2 (covered_by p) rps rs -> consume_all p charged rps rs = (p', Ok c) ->
  db_reserved (p_budget p') = db_reserved (p_budget p) - foldr Z.add 0 ns.
Proof.
  induction 1 as [|h rs Hn _ IH]; intros rps ns p charged p' c Hp Hl Hc E; inversion Hl as [|? n ? ns' Hh Hrest]; subst; inversion Hc as [|rp ? rps' ? (u & Hu & Hle) Hrest']; subst; cbn [consume_all] in E; [injection E as <- _; cbn; lia|].
  pose proof (live_unique _ _ _ _ Hu Hh) as ->.
  assert (Hstep : forall q, pool_ok q -> (forall h' u', live_reservation p h' u' -> h' <> h -> live_reservation q h' u') -> Forall2 (live_reservation q) rs ns' /\ Forall2 (covered_by q) rps' rs).
  { intros q _ Hfr. split; [clear -Hrest Hn Hfr; induction Hrest as [|h' n' rs ns' Hl _ IHr]|clear -Hrest' Hn Hfr; induction Hrest' as [|rp' h' rps' rs (u' & Hu' & Hle') _ IHr]]; constructor.
    - apply Hfr; [exact Hl|]. intros ->. apply Hn. now left.
    - apply IHr. intros Hi. apply Hn. now right.
    - exists u'. split; [|exact Hle']. apply Hfr; [exact Hu'|]. intros ->. apply Hn. now left.
    - apply IHr. intros Hi. apply Hn. now right. }
  cbn [foldr]. destruct (rp_Accepted rp) eqn:Ea; cbn [negb] in E.
  - destruct Hle as [H0 Hle]; [reflexivity|]. destruct (consume_spec p h n (rp_DeltaEntries rp) Hp Hh H0 Hle) as (p1 & E1 & Hp1 & _ & Er & _ & Hfr). rewrite E1 in E. destruct (_ <? _); [discriminate|]. destruct (Hstep p1 Hp1 Hfr) as [A B]. rewrite (IH _ _ _ _ _ _ Hp1 A B E). lia.
  - destruct (Release_spec p (Some h) Hp) as (Hp1 & _ & Er & Hfr). specialize (Er h n eq_refl Hh). destruct (Hstep (Release p (Some h)) Hp1) as [A B]; [intros h' u' Hx Hne; apply Hfr; [exact Hx|congruence]|]. rewrite (IH _ _ _ _ _ _ Hp1 A B E). lia.
Qed.

Lemma delta_touched rps : forall V, dom (delta_plan V rps) = dom V ∪ plan_touched rps.
Proof.
  assert (Hc : forall rcs V, dom (foldl delta_change_value V rcs) = dom V ∪ ⋃ map change_touched rcs).
  { induction rcs as [|rc rcs IH]; intros V; cbn [foldl map]; [cbn; now rewrite (right_id_L ∅ (∪))|]. rewrite IH, union_list_cons, (assoc_L (∪)). f_equal. unfold delta_change_value, change_touched. destruct (rc_Apply rc); [rewrite dom_insert_L; apply (comm_L (∪))|now rewrite (right_id_L ∅ (∪))]. }
  unfold delta_plan, plan_touched. induction rps as [|rp rps IH]; intros V; cbn [foldl map]; [cbn; now rewrite (right_id_L ∅ (∪))|]. rewrite IH, union_list_cons, (assoc_L (∪)). f_equal. unfold delta_proposal. destruct (rp_Accepted rp); [apply Hc|now rewrite (right_id_L ∅ (∪))].
Qed.

Section Room.
Context {N T : Type} `{!TreeStore N T} `{!TreeLaws N T}.
Implicit Types m : Persistent N T.

Definition persistent_room m : DeltaRoom :=
  let b := p_budget (pe_pool m) in Bounded (dom (dl_values (pe_active m))) (db_hard b - db_charged b) (db_reserved b).

Lemma need_new_ids m ids : need (persistent_room m) ids = new_ids (dl_values (pe_active m)) ids * 64.
Proof. unfold need, persistent_room, new_ids, deltaEntryCharge. lia. Qed.

Lemma reserve_room m ids m' r g : pe_ok m -> pe_checkpointID m <> MaxUint64 -> Forall (fun id => id <> 0) ids -> ReserveDelta m ids = (m', (r, g)) ->
  pe_checkpointID m' <> MaxUint64 /\ (forall h0 u0, live_reservation (pe_pool m) h0 u0 -> live_reservation (pe_pool m') h0 u0) /\
  let n := need (persistent_room m) ids in
  match r with
  | Ok h => admits (persistent_room m) n = true /\ persistent_room m' = hold (persistent_room m) n /\ live_reservation (pe_pool m') h n /\ forall h0 u0, live_reservation (pe_pool m) h0 u0 -> h0 <> h
  | Err e => admits (persistent_room m) n = false /\ persistent_room m' = persistent_room m /\ budget_error e
  end.
Proof.
  intros Hm Hg Hz E. unfold ReserveDelta in E. rewrite count_entries_spec in E by exact Hz. cbv zeta. rewrite need_new_ids. replace (0 + _) with (new_ids (dl_values (pe_active m)) ids) in E by (unfold new_ids; now rewrite (right_id_L ∅ (∪))).
  pose proof (new_ids_nonneg (dl_values (pe_active m)) ids) as Hnn. set (n := new_ids (dl_values (pe_active m)) ids) in *. pose proof (reserve_spec (pe_pool m) n (ok_pool m Hm) Hnn) as Hr. pose proof (reserve_hard (pe_pool m) n) as Hh. apply Z.eqb_neq in Hg.
  destruct (reserve (pe_pool m) n) as [p [[h|e] pressure]] eqn:Er; cbn [fst] in Hh.
  - apply (reserve_reserved _ _ _ _ _ Hnn) in Er. destruct Hr as (Hp & Hlive & Hfr & Hc & _). rewrite Hg in E. assert (Em : m' = set_pool m p /\ r = Ok h) by (destruct pressure; injection E as <- <- _; auto). destruct Em as [-> ->]. cbn [set_pool pe_checkpointID pe_pool]. split; [now apply Z.eqb_neq|]. split; [intros h0 u0 H0; now apply Hfr|].
    pose proof (po_limit p Hp) as Hlim. split; [|split; [|split; [exact Hlive|intros h0 u0 H0; now apply (Hfr h0 u0)]]].
    + unfold admits, persistent_room. apply Z.leb_le. rewrite Hh, Hc, Er in Hlim. lia.
    + unfold persistent_room, hold. cbn [set_pool pe_pool pe_active]. now rewrite Hh, Hc, Er.
  - destruct Hr as (-> & Hfull & He). rewrite Hg in E. assert (Em : m' = set_pool m (pe_pool m) /\ r = Err e) by (destruct (_ || negb pressure); injection E as <- <- _; auto). destruct Em as [-> ->]. cbn [set_pool pe_checkpointID pe_pool]. split; [now apply Z.eqb_neq|]. split; [auto|].
    split; [unfold admits, persistent_room; apply Z.leb_gt; lia|]. split; [reflexivity|]. unfold budget_error. destruct pressure; [now left|now right].
Qed.

Lemma publish_shape m first plan rs m' out : PublishGroup m first plan (map Some rs) = (m', Ok out) ->
  exists p charged, consume_all (pe_pool m) 0 (gp_Proposals plan) rs = (p, Ok charged) /\ pe_pool m' = p /\ dl_values (pe_active m') = delta_plan (dl_values (pe_active m)) (gp_Proposals plan) /\ pe_checkpointID m' = pe_checkpointID m.
Proof.
  unfold PublishGroup. replace (omap id (map Some rs)) with rs by (clear; induction rs; cbn; congruence). intros E. repeat (destruct (_ || _); [discriminate|]). destruct (negb (_ =? _)); [discriminate|]. destruct (negb _); [discriminate|]. destruct (_ || _); [discriminate|]. destruct (consume_all _ _ _ _) as [p [charged|e]]; [|discriminate]. destruct (_ <? _); [discriminate|]. destruct (applyPlanLiveStats _ _ _) as [live' [?|e]]; [|discriminate]. injection E as <- _. exists p, charged. auto.
Qed.

Lemma publish_room m ps plan rs ns m' out : pe_ok m -> group_ok ps -> Forall proposal_u ps -> ResolveGroup m ps = Ok plan -> Forall2 (fun h p => covers m h (changed_ids p)) rs ps -> NoDup rs -> Forall2 (live_reservation (pe_pool m)) rs ns ->
  PublishGroup m (pe_covered m + 1) plan (map Some rs) = (m', Ok out) ->
  pe_checkpointID m' = pe_checkpointID m /\ persistent_room m' = charge_ids (hold (persistent_room m) (- foldr Z.add 0 ns)) (spec_touched (visible m) ps).
Proof.
  intros Hm Hg Hu Hr Hc Hnd Hns E. apply publish_shape in E as (p & charged & Ec & <- & Ev & Eg). split; [exact Eg|]. destruct (resolve_ok m ps Hm Hg Hu) as (plan' & E' & [_ _ _ _ Hres Hd]). rewrite Hr in E'. apply Ok_inj in E'. subst plan'.
  destruct (covered_plan m ps plan rs Hd Hres Hc) as [Hsum Hcov]. destruct (consume_all_spec (gp_Proposals plan) rs Hnd (pe_pool m) 0 (ok_pool m Hm) Hcov) as (p' & E2 & _ & Ech & _ & Eh & _); [split; [lia|apply (po_charged _ (ok_pool m Hm))]|]. rewrite Ec in E2. injection E2 as E2 _. rewrite <- E2 in *.
  pose proof (consume_all_held rs Hnd _ ns _ _ _ _ (ok_pool m Hm) Hns Hcov Ec) as Ehd. rewrite <- (resolved_touched m ps plan Hm Hg Hu Hr). unfold persistent_room, hold, charge_ids. rewrite Ev, delta_touched, Eh, Ech, Ehd, Hsum. f_equal.
  set (V := dl_values (pe_active m)) in *. rewrite <- !size_dom, delta_touched. set (t := plan_touched _). rewrite size_union_alt. unfold deltaEntryCharge. lia.
Qed.

Lemma covered_room m rs idss : pe_ok m -> Forall2 (covers m) rs idss -> NoDup rs -> need_all (persistent_room m) idss <= db_hard (p_budget (pe_pool m)) - db_charged (p_budget (pe_pool m)).
Proof.
  intros Hm Hc Hnd. assert (Hns : exists ns, Forall2 (live_reservation (pe_pool m)) rs ns /\ need_all (persistent_room m) idss <= foldr Z.add 0 ns).
  { clear Hnd. induction Hc as [|h ids rs idss (u & Hu & Hle) _ (ns & H1 & H2)]; [exists []; split; [constructor|cbn; lia]|]. exists (u :: ns). split; [now constructor|]. unfold need_all in *. cbn [foldr]. rewrite need_new_ids. lia. }
  destruct Hns as (ns & Hns & Hle). pose proof (held_reserved rs Hnd _ _ (ok_pool m Hm) Hns). pose proof (po_limit _ (ok_pool m Hm)). lia.
Qed.
End Room.

#[export] Instance Persistent_room {N T} `{!TreeStore N T} `{!TreeLaws N T} : IndexRoom (Persistent N T) nat.
Proof.
  unshelve econstructor; [exact persistent_room|exact (fun m => pe_checkpointID m <> MaxUint64)|exact (fun m => live_reservation (pe_pool m))|..].
  - intros x Hx. unfold persistent_room, admits. apply Z.leb_le. pose proof (po_limit _ (ok_pool x Hx)). lia.
  - intros x ids x' r g Hx Hg Hz E. exact (reserve_room x ids x' r g Hx Hg Hz E).
  - intros x r n Hx Hg Hn. destruct (Release_spec (pe_pool x) (Some r) (ok_pool x Hx)) as (_ & Hc & Hr & Hfr). split; [exact Hg|]. split.
    + change (ix_Release x r) with (set_pool x (Release (pe_pool x) (Some r))). unfold persistent_room, hold. cbn [set_pool pe_pool pe_active]. rewrite Release_hard, Hc, (Hr r n eq_refl Hn). reflexivity.
    + intros r0 n0 H0 Hs. cbn. apply Hfr; [exact H0|]. cbn in Hs. congruence.
  - intros x ps plan rs ns x' out Hx Hg Hok Hu Hr Hc Hs Hns E. destruct (publish_room x ps plan rs ns x' out Hx Hok Hu Hr Hc (sep_nodup _ Hs) Hns E) as [E1 E2]. split; [now rewrite E1|exact E2].
  - intros x rs idss Hx Hc Hs. exact (covered_room x rs idss Hx Hc (sep_nodup _ Hs)).
Defined.

(** A mapping that was just opened has the whole limit. *)
Lemma opened_room {N T} `{!TreeStore N T} `{!TreeLaws N T} (nodes : N) (root : T) config state m : OpenPersistent nodes root config state = Ok m ->
  ix_room m = Bounded ∅ (pc_DeltaHardLimitBytes config) 0 /\ ix_ready m.
Proof.
  unfold OpenPersistent. intros E. inv_ok E. unfold newDeltaBudget in *. repeat match goal with H : (if ?c then _ else _) = Ok _ |- _ => destruct c; [discriminate|] end. repeat match goal with H : Ok _ = Ok _ |- _ => apply Ok_inj in H; subst end. cbn. unfold persistent_room. cbn. rewrite Z.sub_0_r. split; [reflexivity|discriminate].
Qed.

(** C4: the persistent mapping commits a group as a serial execution.  With a
    live reservation for each proposal, resolving and publishing succeed at the
    next sequence number; the visible entries become those of executing the
    accepted proposals one after the other, and the budget is charged exactly for
    the ids that are new to the active layer. *)
Theorem persistent_commit_serializable {N T} `{!TreeStore N T} `{!TreeLaws N T} (m : Persistent N T) ps rs :
  pe_ok m -> group_ok ps -> Forall proposal_u ps ->
  Forall2 (fun h p => covers m h (changed_ids p)) rs ps -> NoDup rs ->
  accepted_of (spec_flags (visible m) ps) <> 0 ->
  pe_covered m + accepted_of (spec_flags (visible m) ps) <= MaxUint64 ->
  total_bytes (visible m) + group_bytes ps <= MaxUint64 ->
  exists plan m', ResolveGroup m ps = Ok plan /\
    map rp_Accepted (gp_Proposals plan) = spec_flags (visible m) ps /\
    PublishGroup m (pe_covered m + 1) plan (map Some rs) = (m', Ok (publish_result plan)) /\
    pe_ok m' /\ visible m' = spec_group (visible m) ps /\
    pe_covered m' = pe_covered m + accepted_of (spec_flags (visible m) ps) /\
    live_exact (pe_live m') (visible m') /\
    dl_charge (pe_active m') = Z.of_nat (size (dl_values (pe_active m'))) * 64 /\
    db_charged (p_budget (pe_pool m')) + db_reserved (p_budget (pe_pool m')) <= db_hard (p_budget (pe_pool m')).
Proof.
  intros Hm Hg Hu Hc Hnd Ha Hs Hb. destruct (resolve_ok m ps Hm Hg Hu) as (plan & Er & [_ _ Ef _ _ _]).
  destruct (publish_ok m ps plan rs Hm Hg Hu Er Hc Hnd Ha Hs Hb) as (m' & Ep & Hm' & Hv & Hcv & _).
  exists plan, m'. split; [exact Er|]. split; [exact Ef|]. split; [exact Ep|]. split; [exact Hm'|]. split; [exact Hv|]. split; [exact Hcv|].
  split; [apply (ok_live m' Hm')|]. split; [|apply (po_limit _ (ok_pool m' Hm'))].
  pose proof (ok_layers m' Hm') as Hl. unfold layers in Hl. apply Forall_app in Hl as [_ Hl]. apply Forall_inv in Hl. apply (lo_charge _ Hl).
Qed.

(** ** A concrete mapping over the reference tree *)

Definition demo_config : PersistentConfig := mkPConfig 4096 1024 2048.
Definition demo_open : Persistent unit RefTree :=
  mkPersistent tt (mkRefTree 0 ∅) 0 0 0 0 (mkLayer 0 ∅ 0) [] 0 false 4096 (mkPool (mkBudget 1024 2048 0 0) []) ∅.

Lemma demo_open_opens : OpenPersistent tt (mkRefTree 0 ∅) demo_config (mkPState 0 ∅) = Ok demo_open.
Proof. vm_compute. reflexivity. Qed.

Lemma demo_open_ok : pe_ok demo_open.
Proof.
  constructor.
  - split; [vm_compute; intuition discriminate|]. intros id r. cbn. now rewrite lookup_empty.
  - vm_compute. intuition discriminate.
  - constructor; [|constructor]. constructor; [|reflexivity]. intros id v. cbn. now rewrite lookup_empty.
  - constructor; cbn; try lia. constructor.
  - reflexivity.
  - exact (mo_live _ NewEmpty_ok).
  - vm_compute. discriminate.
  - vm_compute. discriminate.
  - vm_compute. discriminate.
  - vm_compute. discriminate.
  - vm_compute. intuition discriminate.
  - repeat constructor.
Qed.

Definition demo_proposal : Proposal := mkProposal ProposalUserCommit [mkCondition 1 0] [mkChange 1 ref_a 0 OpPut].
Definition demo_reserved : Persistent unit RefTree := (ReserveDelta demo_open [1]).1.

Lemma demo_reserved_ok : pe_ok demo_reserved /\ covers demo_reserved 0 [1].
Proof.
  destruct (ReserveDelta demo_open [1]) as [m' [r g]] eqn:E. pose proof (reserve_ok demo_open [1] m' r g demo_open_ok E) as (Hm & _ & _ & _ & Hr).
  assert (Em : m' = demo_reserved) by (unfold demo_reserved; now rewrite E). subst m'.
  assert (Er : r = Ok 0%nat) by (transitivity (ReserveDelta demo_open [1]).2.1; [now rewrite E|vm_compute; reflexivity]). subst r. split; [exact Hm|apply Hr].
Qed.

Lemma persistent_commit_serializable_witness :
  exists plan m', ResolveGroup demo_reserved [demo_proposal] = Ok plan /\
    PublishGroup demo_reserved 1 plan [Some 0%nat] = (m', Ok (publish_result plan)) /\
    visible m' = spec_group (visible demo_reserved) [demo_proposal].
Proof.
  destruct demo_reserved_ok as [Hm Hc].
  destruct (persistent_commit_serializable demo_reserved [demo_proposal] [0%nat]) as (plan & m' & E1 & _ & E2 & _ & E3 & _).
  - exact Hm.
  - split; [discriminate|]. split; [vm_compute; discriminate|]. constructor; [vm_compute; reflexivity|constructor].
  - constructor; [|constructor]. unfold proposal_u, proposal_ids, ref_u. cbn. unfold is_u64, is_u32.
    repeat split; repeat constructor; vm_compute; congruence.
  - repeat constructor. exact Hc.
  - apply NoDup_singleton.
  - vm_compute. discriminate.
  - vm_compute. discriminate.
  - vm_compute. discriminate.
  - exists plan, m'. auto.
Defined.
