(* ===== verification/Replay.v ===== *)
(** * Replay: recovery of the visible state from the log

    Models [internal/replay/replay.go].  Recovery starts from a checkpoint (a
    mapping and the allocator watermarks it covers) and visits every record of
    the log after the checkpoint's position, in order.  A commit group is decoded,
    every reference in it is read back and checked, and the group is published
    through the same [Index] operations the coordinator uses. *)
From S2P Require Import Prelude Bytes Addr RecordFormat RecordCodec Mapping LogIface IndexIface.
From S2P Require IdAlloc.

(** [Scan] delivers records and then possibly an error; [Read] returns the
    payload at an address. *)
Record ReplayLog := mkReplayLog
  { lg_Scan : LogPos -> list LogRecord * option goerror; lg_Read : Z -> res (list Z) }.

Record RConfig := mkRConfig
  { rc_MaxValueSize : Z; rc_MaxRecordPayload : Z; rc_MaxGroupDescriptors : Z; rc_MaxGroupMutations : Z;
    rc_IDReserveSize : Z; rc_BatchIDReserveSize : Z; rc_StatusCapacity : Z }.

Inductive BatchState := BatchAborted | BatchCommitted.
Record BatchStatus := mkStatus { st_State : BatchState; st_CommitSeq : Z }.

Definition corrupt (cause : goerror) : goerror := base_ErrCorrupt :: cause.

Definition before (addr limit : Z) : bool :=
  if negb (VAddr_Valid addr) || negb (VAddr_Valid limit) then false
  else (SegmentID addr <? SegmentID limit) ||
       ((SegmentID addr =? SegmentID limit) && (Offset addr <? Offset limit)).

Definition availableBeforeCommit (addr commit : Z) : bool :=
  IsCompactionSegment (SegmentID addr) || before addr commit.

Definition readPut (log : ReplayLog) (addr maxValue : Z) : res PutRecord :=
  let! payload := lg_Read log addr in DecodePut payload maxValue.

(** One mutation of a descriptor: the change, and the running logical size. *)
Definition replay_mutation (log : ReplayLog) (d : Descriptor) (commitAddr reservedIDHigh maxValue : Z)
    (logical : Z) (m : Mutation) : res (Change * Z) :=
  raise (corrupt []) when reservedIDHigh <=? mu_RecordID m ;;
  let change op := mkChange (mu_RecordID m) (mkRef (mu_NewAddr m) (mu_PhysicalSize m)) (mu_ExpectedOldAddr m) op in
  if mu_Operation m =? OperationDelete then Ok (change OpDelete, logical)
  else if (mu_Operation m =? OperationPut) || (mu_Operation m =? OperationRelocate) then
    raise (corrupt []) when
      negb (availableBeforeCommit (mu_NewAddr m) commitAddr) ||
      ((mu_Operation m =? OperationRelocate) && negb (availableBeforeCommit (mu_ExpectedOldAddr m) commitAddr)) ;;
    match readPut log (mu_NewAddr m) maxValue with
    | Err e => Err (corrupt e)
    | Ok put =>
        match PhysicalRecordSize (PutHeaderSize + len (put_Value put)) with
        | Err e => Err (corrupt e)
        | Ok physicalSize =>
            raise (corrupt []) when
              negb (put_RecordID put =? mu_RecordID m) || negb (physicalSize =? mu_PhysicalSize m) ;;
            raise (corrupt []) when MaxUint64 - len (put_Value put) <? logical ;;
            let logical := logical + len (put_Value put) in
            if mu_Operation m =? OperationPut then
              raise (corrupt []) when negb (put_OriginBatchID put =? de_BatchID d) ;;
              Ok (change OpPut, logical)
            else
              match readPut log (mu_ExpectedOldAddr m) maxValue with
              | Err e => Err (corrupt e)
              | Ok old =>
                  raise (corrupt []) when
                    negb (put_RecordID old =? put_RecordID put) ||
                    negb (put_OriginBatchID old =? put_OriginBatchID put) ||
                    negb (bool_decide (put_Value old = put_Value put)) ;;
                  Ok (change OpRelocate, logical)
              end
        end
    end
  else Err (corrupt []).

Fixpoint replay_mutations (log : ReplayLog) (d : Descriptor) (commitAddr reservedIDHigh maxValue logical : Z)
    (ms : list Mutation) : res (list Change * Z) :=
  match ms with
  | [] => Ok ([], logical)
  | m :: rest =>
      let! (c, logical') := replay_mutation log d commitAddr reservedIDHigh maxValue logical m in
      let! (cs, logical'') := replay_mutations log d commitAddr reservedIDHigh maxValue logical' rest in
      Ok (c :: cs, logical'')
  end.

Definition descriptorProposal (log : ReplayLog) (d : Descriptor) (commitAddr reservedIDHigh maxValue : Z) : res Proposal :=
  let kind := if de_Kind d =? DescriptorRelocation then ProposalRelocation else ProposalUserCommit in
  let! (changes, logical) := replay_mutations log d commitAddr reservedIDHigh maxValue 0 (de_Mutations d) in
  raise (corrupt []) when negb (logical =? de_LogicalPayloadBytes d) ;;
  Ok (mkProposal kind [] changes).

Section Recover.
Context {X R : Type} `{!Index X R}.

Record Checkpoint := mkCheckpoint
  { ck_Mapping : X; ck_ReplayStart : LogPos; ck_ReservedIDHigh : Z; ck_ReservedBatchIDHigh : Z;
    ck_OpenBatchIDs : list Z }.

(** The result under construction.  The mapping is updated in place. *)
Record Result := mkResult
  { rt_Mapping : X; rt_NextCommitSeq : Z; rt_ReservedIDHigh : Z; rt_ReservedBatchIDHigh : Z;
    rt_Statuses : gmap Z BatchStatus; rt_StatusOrder : list Z; rt_TerminalCount : Z }.

(** The result and [seenTerminal]. *)
Record RState := mkRState { rs_result : Result; rs_seen : gset Z }.

Abbreviation status := (option goerror).

Definition set_mapping (st : RState) (x : X) : RState :=
  let r := rs_result st in
  mkRState (mkResult x (rt_NextCommitSeq r) (rt_ReservedIDHigh r) (rt_ReservedBatchIDHigh r)
              (rt_Statuses r) (rt_StatusOrder r) (rt_TerminalCount r)) (rs_seen st).
Definition set_seen (st : RState) (seen : gset Z) : RState := mkRState (rs_result st) seen.
Definition set_status (st : RState) (id : Z) (s : BatchStatus) : RState :=
  let r := rs_result st in
  mkRState (mkResult (rt_Mapping r) (rt_NextCommitSeq r) (rt_ReservedIDHigh r) (rt_ReservedBatchIDHigh r)
              (<[id := s]> (rt_Statuses r)) (rt_StatusOrder r ++ [id]) (rt_TerminalCount r)) (rs_seen st).
Definition set_next_seq (st : RState) (next : Z) : RState :=
  let r := rs_result st in
  mkRState (mkResult (rt_Mapping r) next (rt_ReservedIDHigh r) (rt_ReservedBatchIDHigh r)
              (rt_Statuses r) (rt_StatusOrder r) (rt_TerminalCount r)) (rs_seen st).
Definition set_highs (st : RState) (idHigh batchHigh : Z) : RState :=
  let r := rs_result st in
  mkRState (mkResult (rt_Mapping r) (rt_NextCommitSeq r) idHigh batchHigh
              (rt_Statuses r) (rt_StatusOrder r) (rt_TerminalCount r)) (rs_seen st).

Definition retainStatus (st : RState) (id : Z) (s : BatchStatus) (capacity : Z) : RState * status :=
  if bool_decide (rt_Statuses (rs_result st) !! id = None) &&
     (capacity <=? Z.of_nat (size (rt_Statuses (rs_result st)))) then (st, Some [base_ErrStatusCapacity])
  else (set_status st id s, None).

(** The terminal bookkeeping of a group: [(seen, newStatuses)], or the error
    with the part of [seen] already marked. *)
Fixpoint mark_terminals (batchHigh : Z) (statuses : gmap Z BatchStatus) (seen : gset Z) (newStatuses : Z)
    (ds : list Descriptor) : gset Z * (Z + goerror) :=
  match ds with
  | [] => (seen, inl newStatuses)
  | d :: rest =>
      if batchHigh <=? de_BatchID d then (seen, inr (corrupt []))
      else if negb (de_Kind d =? DescriptorUserCommit) then mark_terminals batchHigh statuses seen newStatuses rest
      else if bool_decide (de_BatchID d ∈ seen) then (seen, inr (corrupt []))
      else mark_terminals batchHigh statuses ({[de_BatchID d]} ∪ seen)
             (if bool_decide (statuses !! de_BatchID d = None) then newStatuses + 1 else newStatuses) rest
  end.

Definition release_all (x : X) (rs : list R) : X := foldl ix_Release x rs.

(** Proposals and reservations of the descriptors, in order; on an error the
    reservations taken so far are released. *)
Fixpoint prepare_group (log : ReplayLog) (commitAddr idHigh maxValue : Z) (x : X) (taken : list R) (ds : list Descriptor)
    : X * res (list Proposal * list R) :=
  match ds with
  | [] => (x, Ok ([], taken))
  | d :: rest =>
      match descriptorProposal log d commitAddr idHigh maxValue with
      | Err e => (release_all x taken, Err e)
      | Ok p =>
          match ix_ReserveDelta x (map mu_RecordID (de_Mutations d)) with
          | (x', (Err e, _)) => (release_all x' taken, Err (base_ErrInvalidConfig :: e))
          | (x', (Ok r, _)) =>
              match prepare_group log commitAddr idHigh maxValue x' (taken ++ [r]) rest with
              | (x'', Ok (ps, rs)) => (x'', Ok (p :: ps, rs))
              | (x'', Err e) => (x'', Err e)
              end
          end
      end
  end.

(** [Statuses] and [StatusOrder] of the accepted user commits; [false] at the
    first rejected proposal. *)
Fixpoint record_commits (st : RState) (ds : list Descriptor) (rps : list ResolvedProposal) : RState * bool :=
  match ds, rps with
  | d :: ds', rp :: rps' =>
      if negb (rp_Accepted rp) then (st, false)
      else
        let st' := if de_Kind d =? DescriptorUserCommit
                   then set_status st (de_BatchID d) (mkStatus BatchCommitted (de_CommitSeq d)) else st in
        record_commits st' ds' rps'
  | _, _ => (st, true)
  end.

Definition replayGroup (log : ReplayLog) (config : RConfig) (st : RState) (physical : AppendResult) (payload : list Z)
    : RState * status :=
  match DecodeCommitGroup payload (rc_MaxRecordPayload config) (rc_MaxGroupDescriptors config) (rc_MaxGroupMutations config) with
  | Err e => (st, Some (corrupt e))
  | Ok ds =>
      let result := rs_result st in
      let first := match ds with d :: _ => de_CommitSeq d | [] => 0 end in
      if negb (first =? rt_NextCommitSeq result) then (st, Some (corrupt []))
      else
        match mark_terminals (rt_ReservedBatchIDHigh result) (rt_Statuses result) (rs_seen st) 0 ds with
        | (seen, inr e) => (set_seen st seen, Some e)
        | (seen, inl newStatuses) =>
            let st := set_seen st seen in
            if (rc_StatusCapacity config <? newStatuses) ||
               (rc_StatusCapacity config - newStatuses <? Z.of_nat (size (rt_Statuses result)))
            then (st, Some [base_ErrStatusCapacity])
            else
              match prepare_group log (ar_Addr physical) (rt_ReservedIDHigh result) (rc_MaxValueSize config)
                      (rt_Mapping result) [] ds with
              | (x, Err e) => (set_mapping st x, Some e)
              | (x, Ok (proposals, reservations)) =>
                  match ix_ResolveGroup x proposals with
                  | Err e => (set_mapping st (release_all x reservations), Some (corrupt e))
                  | Ok plan =>
                      match record_commits (set_mapping st x) ds (gp_Proposals plan) with
                      | (st, false) => (set_mapping st (release_all x reservations), Some (corrupt []))
                      | (st, true) =>
                          match ix_PublishGroup x (rt_NextCommitSeq result) plan reservations with
                          | (x', Err e) => (set_mapping st (release_all x' reservations), Some (corrupt e))
                          | (x', Ok _) =>
                              let st := set_mapping st x' in
                              let last := match List.last ds (mkDescriptor 0 0 0 0 []) with d => de_CommitSeq d end in
                              if last =? MaxUint64 then (st, Some (corrupt []))
                              else (set_next_seq st (last + 1), None)
                          end
                      end
                  end
              end
        end
  end.

(** The callback of [Scan]. *)
Definition visit (log : ReplayLog) (config : RConfig) (st : RState) (record : LogRecord) : RState * status :=
  let '(physical, payload) := record in
  let result := rs_result st in
  match TypeOf payload with
  | Err e => (st, Some (corrupt e))
  | Ok typ =>
      if typ =? RecordTypePut then
        match DecodePut payload (rc_MaxValueSize config) with
        | Err e => (st, Some (corrupt e))
        | Ok put =>
            if (rt_ReservedIDHigh result <=? put_RecordID put) || (rt_ReservedBatchIDHigh result <=? put_OriginBatchID put)
            then (st, Some (corrupt [])) else (st, None)
        end
      else if typ =? RecordTypeCommitGroup then replayGroup log config st physical payload
      else if typ =? RecordTypeAbort then
        match DecodeAbort payload with
        | Err e => (st, Some (corrupt e))
        | Ok abort =>
            if rt_ReservedBatchIDHigh result <=? ab_BatchID abort then (st, Some (corrupt []))
            else if bool_decide (ab_BatchID abort ∈ rs_seen st) then (st, Some (corrupt []))
            else retainStatus (set_seen st ({[ab_BatchID abort]} ∪ rs_seen st)) (ab_BatchID abort)
                   (mkStatus BatchAborted 0) (rc_StatusCapacity config)
        end
      else if (typ =? RecordTypeIDReserve) || (typ =? RecordTypeBatchIDReserve) then
        match DecodeReserve payload typ with
        | Err e => (st, Some (corrupt e))
        | Ok record =>
            if typ =? RecordTypeIDReserve then
              match IdAlloc.AdvanceRecovered IdAlloc.RecordID (rc_IDReserveSize config) (rt_ReservedIDHigh result) record with
              | Ok high => (set_highs st high (rt_ReservedBatchIDHigh result), None)
              | Err e => (set_highs st 0 (rt_ReservedBatchIDHigh result), Some (corrupt e))
              end
            else
              match IdAlloc.AdvanceRecovered IdAlloc.BatchID (rc_BatchIDReserveSize config) (rt_ReservedBatchIDHigh result) record with
              | Ok high => (set_highs st (rt_ReservedIDHigh result) high, None)
              | Err e => (set_highs st (rt_ReservedIDHigh result) 0, Some (corrupt e))
              end
        end
      else if typ =? RecordTypeCheckpoint then
        match DecodeCheckpoint payload with
        | Err e => (st, Some (corrupt e))
        | Ok marker => if ix_Covered (rt_Mapping result) <? cm_CoveredCommitSeq marker then (st, Some (corrupt [])) else (st, None)
        end
      else (st, Some (corrupt []))
  end.

Fixpoint visit_all (log : ReplayLog) (config : RConfig) (st : RState) (records : list LogRecord) : RState * status :=
  match records with
  | [] => (st, None)
  | record :: rest =>
      match visit log config st record with
      | (st', Some e) => (st', Some e)
      | (st', None) => visit_all log config st' rest
      end
  end.

(** Batches open at the checkpoint are aborted unless the log says otherwise. *)
Fixpoint open_statuses (batchHigh : Z) (statuses : gmap Z BatchStatus) (ids : list Z) : res (gmap Z BatchStatus) :=
  match ids with
  | [] => Ok statuses
  | id :: rest =>
      raise (corrupt []) when (id =? 0) || (batchHigh <=? id) ;;
      raise (corrupt []) when bool_decide (is_Some (statuses !! id)) ;;
      open_statuses batchHigh (<[id := mkStatus BatchAborted 0]> statuses) rest
  end.

(** The mapping as recovery leaves it, and the result. *)
Definition Recover (log : ReplayLog) (checkpoint : Checkpoint) (config : RConfig) : X * res Result :=
  let x := ck_Mapping checkpoint in
  if negb (LogPos_Valid (ck_ReplayStart checkpoint)) || (ck_ReservedIDHigh checkpoint =? 0) ||
     (ck_ReservedBatchIDHigh checkpoint =? 0) || (rc_MaxValueSize config =? 0) || (rc_MaxRecordPayload config =? 0) ||
     (rc_MaxGroupDescriptors config =? 0) || (rc_MaxGroupMutations config =? 0) || (rc_IDReserveSize config =? 0) ||
     (rc_BatchIDReserveSize config =? 0) || (rc_StatusCapacity config =? 0) ||
     (rc_StatusCapacity config <? len (ck_OpenBatchIDs checkpoint)) || (ix_Covered x =? MaxUint64)
  then (x, Err [base_ErrInvalidConfig])
  else
    match open_statuses (ck_ReservedBatchIDHigh checkpoint) ∅ (ck_OpenBatchIDs checkpoint) with
    | Err e => (x, Err e)
    | Ok statuses =>
        let result := mkResult x (ix_Covered x + 1) (ck_ReservedIDHigh checkpoint) (ck_ReservedBatchIDHigh checkpoint) statuses [] 0 in
        let '(records, scanErr) := lg_Scan log (ck_ReplayStart checkpoint) in
        match visit_all log config (mkRState result ∅) records with
        | (st, Some e) => (rt_Mapping (rs_result st), Err e)
        | (st, None) =>
            match scanErr with
            | Some e => (rt_Mapping (rs_result st), Err e)
            | None =>
                let r := rs_result st in
                let reopened := filter (fun id => id ∉ rs_seen st) (ck_OpenBatchIDs checkpoint) in
                (rt_Mapping r,
                 Ok (mkResult (rt_Mapping r) (rt_NextCommitSeq r) (rt_ReservedIDHigh r) (rt_ReservedBatchIDHigh r)
                       (rt_Statuses r) (rt_StatusOrder r ++ reopened) (Z.of_nat (size (rt_Statuses r)))))
            end
        end
    end.
End Recover.

Arguments Checkpoint X : clear implicits.
Arguments Result X : clear implicits.
Arguments RState X : clear implicits.

(** * The journal: what the producers of log records guarantee

    The log is written by several components: batches append Puts and aborts,
    the allocators append reservations, the coordinator appends commit groups
    and checkpoint markers.  [journal_step] is the contract between them and
    recovery: the conditions under which each kind of record may be appended,
    and its meaning for the abstract state [JState]. *)

From S2P Require IdAlloc.

(** The meaning of a descriptor: its proposal, without conditions. *)
Definition mutation_op (m : Mutation) : Z :=
  if mu_Operation m =? OperationDelete then OpDelete
  else if mu_Operation m =? OperationPut then OpPut else OpRelocate.

Definition mutation_change (m : Mutation) : Change :=
  mkChange (mu_RecordID m) (mkRef (mu_NewAddr m) (mu_PhysicalSize m)) (mu_ExpectedOldAddr m) (mutation_op m).

Definition descriptor_proposal (d : Descriptor) : Proposal :=
  mkProposal (if de_Kind d =? DescriptorRelocation then ProposalRelocation else ProposalUserCommit) []
    (map mutation_change (de_Mutations d)).

(** The abstract state of the store: the visible references, the last commit
    sequence, the allocator watermarks, the batches that reached a final state,
    the readable records by address, and the address of the last log record. *)
Record JState := mkJState
  { js_entries : Entries; js_covered : Z; js_idHigh : Z; js_batchHigh : Z;
    js_statuses : gmap Z BatchStatus; js_store : gmap Z (list Z); js_last : Z }.

Section Journal.
Variable config : RConfig.

(** A record can be appended at this address. *)
Definition fresh_address (js : JState) (addr : Z) : Prop :=
  VAddr_Valid addr = true /\ IsCompactionSegment (SegmentID addr) = false /\ js_store js !! addr = None /\
  (js_last js = 0 \/ before (js_last js) addr = true).

Definition js_append (js : JState) (r : AppendResult) (payload : list Z) : JState :=
  mkJState (js_entries js) (js_covered js) (js_idHigh js) (js_batchHigh js) (js_statuses js)
    (<[ar_Addr r := payload]> (js_store js)) (ar_Addr r).

(** The readable Put at an address. *)
Definition put_at (js : JState) (addr : Z) (put : PutRecord) : Prop :=
  exists payload, js_store js !! addr = Some payload /\ put_u put /\
    EncodePut put (rc_MaxValueSize config) = Ok payload.

(** A mutation whose data is in place before the commit record at [commit]. *)
Definition mutation_backed (js : JState) (d : Descriptor) (commit : Z) (m : Mutation) (valueBytes : Z) : Prop :=
  mu_RecordID m < js_idHigh js /\
  if mu_Operation m =? OperationDelete then valueBytes = 0
  else
    availableBeforeCommit (mu_NewAddr m) commit = true /\
    exists put, put_at js (mu_NewAddr m) put /\ put_RecordID put = mu_RecordID m /\
      len (put_Value put) = valueBytes /\
      PhysicalRecordSize (PutHeaderSize + valueBytes) = Ok (mu_PhysicalSize m) /\
      if mu_Operation m =? OperationPut then put_OriginBatchID put = de_BatchID d
      else availableBeforeCommit (mu_ExpectedOldAddr m) commit = true /\ put_at js (mu_ExpectedOldAddr m) put.

Definition zsum (l : list Z) : Z := foldr Z.add 0 l.

Definition descriptor_backed (js : JState) (commit : Z) (d : Descriptor) : Prop :=
  descriptor_u d /\ (de_Kind d = DescriptorUserCommit \/ de_Kind d = DescriptorRelocation) /\
  de_BatchID d < js_batchHigh js /\
  exists sizes, Forall2 (mutation_backed js d commit) (de_Mutations d) sizes /\
    zsum sizes = de_LogicalPayloadBytes d.

Definition is_user (d : Descriptor) : bool := de_Kind d =? DescriptorUserCommit.

(** The final states of the user commits of a group. *)
Definition commit_statuses (ds : list Descriptor) (statuses : gmap Z BatchStatus) : gmap Z BatchStatus :=
  foldl (fun acc d => if is_user d then <[de_BatchID d := mkStatus BatchCommitted (de_CommitSeq d)]> acc else acc) statuses ds.

Inductive journal_step : JState -> LogRecord -> JState -> Prop :=
| J_put js r payload put :
    fresh_address js (ar_Addr r) -> put_u put -> EncodePut put (rc_MaxValueSize config) = Ok payload ->
    put_RecordID put < js_idHigh js -> put_OriginBatchID put < js_batchHigh js ->
    journal_step js (r, payload) (js_append js r payload)
| J_reserve_id js r payload :
    fresh_address js (ar_Addr r) -> js_idHigh js <= MaxUint64 - rc_IDReserveSize config ->
    EncodeReserve RecordTypeIDReserve (mkReserve (js_idHigh js + rc_IDReserveSize config)) = Ok payload ->
    journal_step js (r, payload)
      (let js' := js_append js r payload in
       mkJState (js_entries js') (js_covered js') (js_idHigh js + rc_IDReserveSize config) (js_batchHigh js')
         (js_statuses js') (js_store js') (js_last js'))
| J_reserve_batch js r payload :
    fresh_address js (ar_Addr r) -> js_batchHigh js <= MaxUint64 - rc_BatchIDReserveSize config ->
    EncodeReserve RecordTypeBatchIDReserve (mkReserve (js_batchHigh js + rc_BatchIDReserveSize config)) = Ok payload ->
    journal_step js (r, payload)
      (let js' := js_append js r payload in
       mkJState (js_entries js') (js_covered js') (js_idHigh js') (js_batchHigh js + rc_BatchIDReserveSize config)
         (js_statuses js') (js_store js') (js_last js'))
| J_abort js r payload id reason :
    fresh_address js (ar_Addr r) -> is_u64 id -> is_u32 reason -> EncodeAbort (mkAbort id reason) = Ok payload ->
    id < js_batchHigh js -> js_statuses js !! id = None ->
    journal_step js (r, payload)
      (let js' := js_append js r payload in
       mkJState (js_entries js') (js_covered js') (js_idHigh js') (js_batchHigh js')
         (<[id := mkStatus BatchAborted 0]> (js_statuses js')) (js_store js') (js_last js'))
| J_checkpoint js r payload covered :
    fresh_address js (ar_Addr r) -> payload = EncodeCheckpoint (mkMarker covered) -> 0 <= covered <= js_covered js ->
    journal_step js (r, payload) (js_append js r payload)
| J_commit js r payload ds :
    fresh_address js (ar_Addr r) ->
    EncodeCommitGroup ds (rc_MaxRecordPayload config) = Ok payload ->
    len ds <= rc_MaxGroupDescriptors config -> totalMutations ds <= rc_MaxGroupMutations config ->
    match ds with d :: _ => de_CommitSeq d | [] => 0 end = js_covered js + 1 ->
    js_covered js + len ds < MaxUint64 ->
    Forall (descriptor_backed js (ar_Addr r)) ds ->
    Forall (fun d => is_user d = true -> js_statuses js !! de_BatchID d = None) ds ->
    total_bytes (js_entries js) + group_bytes (map descriptor_proposal ds) <= MaxUint64 ->
    journal_step js (r, payload)
      (mkJState (spec_group (js_entries js) (map descriptor_proposal ds)) (js_covered js + len ds)
         (js_idHigh js) (js_batchHigh js) (commit_statuses ds (js_statuses js))
         (<[ar_Addr r := payload]> (js_store js)) (ar_Addr r)).

(** Histories of the log.  Compaction publishes copies of records in its own
    address space without appending to the log. *)
Inductive journal : JState -> list LogRecord -> JState -> Prop :=
| journal_nil js : journal js [] js
| journal_record js rec js1 recs js2 :
    journal_step js rec js1 -> journal js1 recs js2 -> journal js (rec :: recs) js2
| journal_compaction js addr payload recs js2 :
    IsCompactionSegment (SegmentID addr) = true -> js_store js !! addr = None ->
    journal (mkJState (js_entries js) (js_covered js) (js_idHigh js) (js_batchHigh js) (js_statuses js)
               (<[addr := payload]> (js_store js)) (js_last js)) recs js2 ->
    journal js recs js2.

(** Records stay readable. *)
Lemma journal_step_store js rec js' : journal_step js rec js' -> js_store js ⊆ js_store js'.
Proof. destruct 1; cbn; apply insert_subseteq; match goal with H : fresh_address _ _ |- _ => apply H end. Qed.

Lemma journal_store js recs js' : journal js recs js' -> js_store js ⊆ js_store js'.
Proof.
  induction 1 as [js|js rec js1 recs js2 Hs _ IH|js addr payload recs js2 _ Hn _ IH]; [reflexivity| |].
  - etrans; [eapply journal_step_store; eauto|exact IH].
  - etrans; [|exact IH]. cbn. now apply insert_subseteq.
Qed.
End Journal.
