(* ===== verification/ReplaySpec.v ===== *)
(** * Recovery is total and exact

    On every log the producers may have written ([journal]) whose tail fits the delta
    budget of the mapping ([replay_room]), [Recover] succeeds and rebuilds exactly the
    abstract state; on one that does not fit it fails with the configuration error and
    leaves the mapping at the end of the part that fits. *)
From S2P Require Import Prelude Bytes Addr RecordFormat RecordCodec LogIface Mapping Budget IndexIface Replay TreeIface Persistent PersistentSpec.
From S2P Require IdAlloc.

Section ReplaySpec.
Context {X R : Type} `{!Index X R} `{!IndexLaws X R} `{!IndexRoom X R}.
Variable config : RConfig.
Variable log : ReplayLog.

(** Every record of the store can be read. *)
Definition readable (js : JState) : Prop := forall addr p, js_store js !! addr = Some p -> lg_Read log addr = Ok p.

Lemma readable_before js js' : js_store js ⊆ js_store js' -> readable js' -> readable js.
Proof. intros Hs Hr addr p Hp. apply Hr. eapply lookup_weaken; eauto. Qed.

Lemma readPut_at js addr put : readable js -> put_at config js addr put ->
  readPut log addr (rc_MaxValueSize config) = Ok put.
Proof.
  intros Hr (p & Hp & Hu & He). unfold readPut. rewrite (Hr addr p Hp). now apply DecodePut_encoded.
Qed.

Lemma Forall2_map_r {A B C} (P : A -> C -> Prop) (f : B -> C) l k :
  Forall2 P l (map f k) <-> Forall2 (fun a b => P a (f b)) l k.
Proof. exact (Forall2_fmap_r f P l k). Qed.

(** ** One descriptor *)

Lemma mutation_ok_op kind m : mutation_ok kind m = true ->
  mu_Operation m = OperationPut \/ mu_Operation m = OperationDelete \/ mu_Operation m = OperationRelocate.
Proof.
  unfold mutation_ok. destruct (kind =? DescriptorUserCommit).
  - destruct (mu_Operation m =? OperationPut) eqn:E1; bool_norm; [auto|].
    destruct (mu_Operation m =? OperationDelete) eqn:E2; bool_norm; [auto|discriminate].
  - destruct (kind =? DescriptorRelocation); [|discriminate]. intros H. bool_norm. auto.
Qed.

Lemma replay_mutation_ok js d commit m n logical :
  readable js -> mutation_backed config js d commit m n ->
  mu_Operation m = OperationPut \/ mu_Operation m = OperationDelete \/ mu_Operation m = OperationRelocate ->
  0 <= logical -> logical + n <= MaxUint64 ->
  replay_mutation log d commit (js_idHigh js) (rc_MaxValueSize config) logical m = Ok (mutation_change m, logical + n) /\ 0 <= n.
Proof.
  intros Hr [Hid Hb] Hop Hl Hmax. unfold replay_mutation, mutation_change, mutation_op.
  replace (js_idHigh js <=? mu_RecordID m) with false by (symmetry; apply Z.leb_gt; lia).
  destruct (mu_Operation m =? OperationDelete) eqn:Ed; [subst n; rewrite Z.add_0_r; split; [reflexivity|lia]|].
  destruct Hb as (Hav & put & Hput & Hrid & Hlen & Hphys & Hkind).
  pose proof (len_nonneg (put_Value put)) as Hnn. split; [|lia].
  assert (E : (mu_Operation m =? OperationPut) || (mu_Operation m =? OperationRelocate) = true).
  { destruct Hop as [E|[E|E]]; rewrite E in *; [reflexivity|discriminate|reflexivity]. }
  rewrite E, Hav. cbn [negb orb]. rewrite (readPut_at js _ put Hr Hput), Hlen, Hphys, Hrid, !Z.eqb_refl. cbn [negb orb].
  replace (MaxUint64 - n <? logical) with false by (symmetry; apply Z.ltb_ge; lia).
  destruct (mu_Operation m =? OperationPut) eqn:Ep.
  - bool_norm. rewrite Ep. change (OperationPut =? OperationRelocate) with false. cbn [andb].
    rewrite Hkind, Z.eqb_refl. reflexivity.
  - destruct Hkind as [Hav2 Hold]. rewrite Hav2, andb_false_r, (readPut_at js _ put Hr Hold), <- Hrid, !Z.eqb_refl.
    rewrite bool_decide_eq_true_2 by reflexivity. reflexivity.
Qed.

Lemma zsum_nonneg l : Forall (fun n => 0 <= n) l -> 0 <= zsum l.
Proof. unfold zsum. induction 1; cbn [foldr]; lia. Qed.

Lemma backed_nonneg js d commit m n : mutation_backed config js d commit m n -> 0 <= n.
Proof.
  intros [_ Hb]. destruct (mu_Operation m =? OperationDelete); [lia|].
  destruct Hb as (_ & put & _ & _ & <- & _). apply len_nonneg.
Qed.

Lemma replay_mutations_ok js d commit ms sizes : readable js ->
  Forall2 (mutation_backed config js d commit) ms sizes ->
  Forall (fun m => mu_Operation m = OperationPut \/ mu_Operation m = OperationDelete \/ mu_Operation m = OperationRelocate) ms ->
  forall logical, 0 <= logical -> logical + zsum sizes <= MaxUint64 ->
  replay_mutations log d commit (js_idHigh js) (rc_MaxValueSize config) logical ms =
    Ok (map mutation_change ms, logical + zsum sizes).
Proof.
  intros Hr. induction 1 as [|m n ms sizes Hm Hms IH]; intros Hop logical Hl Hmax; cbn [replay_mutations map zsum foldr].
  { now rewrite Z.add_0_r. }
  apply Forall_cons_iff in Hop as [Ho Hos]. cbn [zsum foldr] in Hmax. fold (zsum sizes) in *.
  assert (0 <= zsum sizes) by (apply zsum_nonneg; clear -Hms; induction Hms; constructor; eauto using backed_nonneg).
  destruct (replay_mutation_ok js d commit m n logical Hr Hm Ho Hl ltac:(lia)) as [-> Hn].
  rewrite IH by (auto; lia). now rewrite Z.add_assoc.
Qed.

Lemma descriptorProposal_ok js commit d : readable js -> descriptor_backed config js commit d ->
  mutations_ok (de_Kind d) None (de_Mutations d) = true ->
  descriptorProposal log d commit (js_idHigh js) (rc_MaxValueSize config) = Ok (descriptor_proposal d).
Proof.
  intros Hr (Hu & Hk & Hb & sizes & Hs & Hsum) Hm. unfold descriptorProposal.
  apply mutations_ok_sorted in Hm as (Hall & _ & _).
  rewrite (replay_mutations_ok js d commit _ sizes Hr Hs); [| |lia|].
  - rewrite Z.add_0_l, Hsum, Z.eqb_refl. reflexivity.
  - eapply Forall_impl; [exact Hall|]. cbn. intros m [_ Hok]. now apply (mutation_ok_op (de_Kind d)).
  - destruct Hu as (_ & _ & _ & Hl & _). unfold is_u64 in Hl. lia.
Qed.

(** ** Validity of the proposals of a group *)

Lemma mutation_change_ok kind m : kind = DescriptorUserCommit \/ kind = DescriptorRelocation -> mutation_ok kind m = true ->
  change_ok (if kind =? DescriptorRelocation then ProposalRelocation else ProposalUserCommit) (mutation_change m) = true.
Proof.
  intros Hk Hm. unfold mutation_ok in Hm. unfold change_ok, mutation_change, mutation_op. cbn [ch_ExpectedOldAddr ch_Operation ch_NewRef Addr].
  destruct Hk as [->| ->].
  - change (DescriptorUserCommit =? DescriptorUserCommit) with true in Hm. change (DescriptorUserCommit =? DescriptorRelocation) with false.
    change (ProposalUserCommit =? ProposalUserCommit) with true. cbv iota in *.
    destruct (mu_Operation m =? OperationPut) eqn:Ep; bool_norm.
    + rewrite Ep. change (OperationPut =? OperationDelete) with false. cbv iota. rewrite H, H0. reflexivity.
    + destruct (mu_Operation m =? OperationDelete) eqn:Ed; [|discriminate]. bool_norm.
      rewrite H, H0, H1. reflexivity.
  - change (DescriptorRelocation =? DescriptorUserCommit) with false in Hm. change (DescriptorRelocation =? DescriptorRelocation) with true in *.
    change (ProposalRelocation =? ProposalUserCommit) with false. change (ProposalRelocation =? ProposalRelocation) with true. cbv iota in *.
    bool_norm. rewrite H. change (OperationRelocate =? OperationDelete) with false. change (OperationRelocate =? OperationPut) with false. cbv iota.
    rewrite H1, H2. apply Z.eqb_neq in H0. now rewrite H0.
Qed.

Lemma descriptor_proposal_valid d : de_Kind d = DescriptorUserCommit \/ de_Kind d = DescriptorRelocation ->
  mutations_ok (de_Kind d) None (de_Mutations d) = true ->
  (de_Kind d =? DescriptorRelocation) && (len (de_Mutations d) =? 0) = false ->
  validateProposal (descriptor_proposal d) = true.
Proof.
  intros Hk Hm Hne. apply mutations_ok_sorted in Hm as (Hall & Hs & _).
  assert (Hch : changes_ok (if de_Kind d =? DescriptorRelocation then ProposalRelocation else ProposalUserCommit) None
                  (map mutation_change (de_Mutations d)) = true).
  { apply changes_ok_intro; [|rewrite map_map; exact Hs|done]. apply Forall_map. eapply Forall_impl; [exact Hall|].
    cbn beta. intros m [H0 Hok]. split; [exact H0|]. now apply mutation_change_ok. }
  unfold validateProposal, descriptor_proposal. cbn [pr_Kind pr_Conditions pr_Changes]. rewrite Hch.
  destruct (de_Kind d =? DescriptorRelocation); [|reflexivity].
  change (ProposalRelocation =? ProposalUserCommit) with false. change (ProposalRelocation =? ProposalRelocation) with true. cbv iota.
  cbn [andb] in Hne. rewrite len_map, Hne. reflexivity.
Qed.

Lemma descriptor_proposal_u d : descriptor_u d -> proposal_u (descriptor_proposal d).
Proof.
  intros (_ & _ & _ & _ & Hm). split; [split; [constructor|]|]; cbn; apply Forall_map;
    (eapply Forall_impl; [exact Hm|]; intros m (H1 & H2 & _ & _ & H5)); [exact H1|split; assumption].
Qed.

(** Proposals without conditions are all accepted. *)
Lemma spec_flags_all S ps : Forall (fun p => pr_Conditions p = []) ps -> spec_flags S ps = replicate (length ps) true.
Proof.
  intros H. revert S. induction H as [|p ps Hp _ IH]; intros S; cbn; [reflexivity|].
  rewrite IH. unfold spec_accepts. now rewrite Hp.
Qed.

Lemma accepted_all n : accepted_of (replicate n true) = Z.of_nat n.
Proof.
  unfold accepted_of. induction n as [|n IH]; [reflexivity|]. cbn [replicate]. rewrite filter_cons_True by done.
  rewrite len_cons, IH. lia.
Qed.

(** ** Terminal bookkeeping *)

Lemma commit_statuses_cons d ds js :
  commit_statuses (d :: ds) js =
    commit_statuses ds (if is_user d then <[de_BatchID d := mkStatus BatchCommitted (de_CommitSeq d)]> js else js).
Proof. reflexivity. Qed.

Lemma commit_statuses_dom ds : forall js, dom js ⊆ dom (commit_statuses ds js).
Proof.
  induction ds as [|d ds IH]; intros js; [reflexivity|]. rewrite commit_statuses_cons. etrans; [|apply IH].
  destruct (is_user d); [|reflexivity]. rewrite dom_insert. set_solver.
Qed.

Lemma mark_terminals_ok high S0 opened ds : NoDup (map de_BatchID ds) ->
  Forall (fun d => de_BatchID d < high) ds -> forall js n,
  Forall (fun d => is_user d = true -> js !! de_BatchID d = None) ds ->
  Forall (fun d => (js ∪ opened) !! de_BatchID d = S0 !! de_BatchID d) ds ->
  exists n', mark_terminals high S0 (dom js) n ds = (dom (commit_statuses ds js), inl n') /\ n <= n' /\
    Z.of_nat (size (commit_statuses ds js ∪ opened)) = Z.of_nat (size (js ∪ opened)) + (n' - n).
Proof.
  induction ds as [|d ds IH]; intros Hnd Hh js n Hfree Hsame; cbn [mark_terminals].
  { exists n. split; [reflexivity|]. split; [lia|]. change (commit_statuses [] js) with js. lia. }
  cbn in Hnd. apply NoDup_cons in Hnd as [Hni Hnd]. apply Forall_cons_iff in Hh as [Hd Hh].
  apply Forall_cons_iff in Hfree as [Hf Hfree]. apply Forall_cons_iff in Hsame as [Hs Hsame].
  replace (high <=? de_BatchID d) with false by (symmetry; apply Z.leb_gt; lia).
  rewrite commit_statuses_cons. unfold is_user in *.
  destruct (de_Kind d =? DescriptorUserCommit) eqn:Ek; cbn [negb]; [|now apply IH].
  specialize (Hf eq_refl). rewrite bool_decide_eq_false_2 by (rewrite elem_of_dom, Hf; intros [? [=]]).
  assert (Hrest : Forall (fun e => de_BatchID e <> de_BatchID d) ds).
  { apply Forall_forall. intros e He E. apply Hni. rewrite <- E. apply list_elem_of_In, in_map, list_elem_of_In, He. }
  set (s := mkStatus BatchCommitted (de_CommitSeq d)).
  set (m := if bool_decide (S0 !! de_BatchID d = None) then n + 1 else n).
  destruct (IH Hnd Hh (<[de_BatchID d := s]> js) m) as (n' & E & Hle & Hsz).
  - eapply Forall_impl; [apply Forall_and; split; [exact Hfree|exact Hrest]|]. cbn. intros e [He Hne] Hu.
    rewrite lookup_insert_ne by auto. now apply He.
  - eapply Forall_impl; [apply Forall_and; split; [exact Hsame|exact Hrest]|]. cbn. intros e [He Hne].
    rewrite <- insert_union_l, lookup_insert_ne by auto. exact He.
  - exists n'. rewrite dom_insert_L in E. split; [exact E|].
    rewrite <- insert_union_l, map_size_insert, Hs in Hsz. unfold m in *.
    destruct (S0 !! de_BatchID d) as [o|] eqn:Eo.
    + rewrite bool_decide_eq_false_2 in * by discriminate. cbn in Hsz. lia.
    + rewrite bool_decide_eq_true_2 in * by reflexivity. lia.
Qed.

(** The batches of the user commits of a group. *)
Definition committed_ids (ds : list Descriptor) : list Z := map de_BatchID (List.filter is_user ds).

Lemma committed_ids_cons d ds :
  committed_ids (d :: ds) = if is_user d then de_BatchID d :: committed_ids ds else committed_ids ds.
Proof. unfold committed_ids. cbn [List.filter]. now destruct (is_user d). Qed.

Lemma commit_statuses_ids ds : forall js, dom (commit_statuses ds js) = dom js ∪ list_to_set (committed_ids ds).
Proof.
  induction ds as [|d ds IH]; intros js; [cbn; now rewrite (right_id_L ∅ (∪))|].
  rewrite commit_statuses_cons, IH, committed_ids_cons. destruct (is_user d); [|reflexivity].
  rewrite dom_insert_L. cbn. rewrite (assoc_L (∪)). f_equal. apply (comm_L (∪)).
Qed.

Lemma committed_order js order ds : NoDup order -> list_to_set order = dom js -> NoDup (map de_BatchID ds) ->
  Forall (fun d => is_user d = true -> js !! de_BatchID d = None) ds ->
  NoDup (order ++ committed_ids ds) /\ list_to_set (order ++ committed_ids ds) = dom (commit_statuses ds js).
Proof.
  intros Hno Ho Hnd Hfree. split; [|now rewrite list_to_set_app_L, commit_statuses_ids, Ho].
  apply NoDup_app. split; [exact Hno|]. split.
  - intros id Hid Hin. apply list_elem_of_In, in_map_iff in Hin as (d & <- & Hd). apply filter_In in Hd as [Hd Hu].
    apply list_elem_of_In in Hd. rewrite Forall_forall in Hfree. specialize (Hfree d Hd Hu).
    assert (Hdom : de_BatchID d ∈ dom js) by (rewrite <- Ho; now apply elem_of_list_to_set).
    apply elem_of_dom in Hdom as [? E]. congruence.
  - unfold committed_ids. clear -Hnd. induction ds as [|d ds IH]; [constructor|].
    cbn in Hnd. apply NoDup_cons in Hnd as [Hni Hnd]. cbn [List.filter]. destruct (is_user d); [|now apply IH].
    cbn. constructor; [|now apply IH]. intros Hin. apply Hni. apply list_elem_of_In, in_map_iff in Hin as (e & E & He).
    apply filter_In in He as [He _]. rewrite <- E. apply list_elem_of_In. now apply in_map.
Qed.

Lemma record_commits_ok ds : forall rps (st : RState X) js opened,
  map rp_Accepted rps = replicate (length ds) true -> rt_Statuses (rs_result st) = js ∪ opened ->
  record_commits st ds rps =
    (mkRState (mkResult (rt_Mapping (rs_result st)) (rt_NextCommitSeq (rs_result st)) (rt_ReservedIDHigh (rs_result st))
       (rt_ReservedBatchIDHigh (rs_result st)) (commit_statuses ds js ∪ opened)
       (rt_StatusOrder (rs_result st) ++ committed_ids ds) (rt_TerminalCount (rs_result st)))
       (rs_seen st), true).
Proof.
  induction ds as [|d ds IH]; intros [|rp rps] st js opened Hfl Hst; try discriminate; cbn [record_commits].
  { unfold commit_statuses, committed_ids. cbn. rewrite <- Hst, app_nil_r. now destruct st as [[] ?]. }
  cbn in Hfl. injection Hfl as Ha Hfl. rewrite Ha. cbn [negb]. rewrite commit_statuses_cons.
  rewrite committed_ids_cons. fold (is_user d). destruct (is_user d).
  - rewrite (IH rps (set_status st _ _) (<[de_BatchID d := mkStatus BatchCommitted (de_CommitSeq d)]> js) opened Hfl);
      [|cbn; now rewrite Hst, insert_union_l].
    cbn. now rewrite <- app_assoc.
  - apply (IH rps st); auto.
Qed.

(** ** Reservations of a group *)

Lemma ForallOrdPairs_snoc {A} (P : A -> A -> Prop) l b :
  ForallOrdPairs P l -> Forall (fun a => P a b) l -> ForallOrdPairs P (l ++ [b]).
Proof.
  induction 1 as [|x l Hx _ IH]; intros Hb; cbn; [repeat constructor|].
  apply Forall_cons_iff in Hb as [Hxb Hb]. constructor; [|now apply IH]. apply Forall_app. auto.
Qed.

Definition group_ids (ds : list Descriptor) : list (list Z) := map (fun d => map mu_RecordID (de_Mutations d)) ds.

(** Releasing the reservations of a group returns what they hold. *)
Lemma release_all_ok rs : forall x ns, ix_ok x -> ix_ready x -> Forall2 (ix_holds x) rs ns -> ForallOrdPairs ix_sep rs ->
  let x' := release_all x rs in ix_ok x' /\ ix_ready x' /\ ix_entries x' = ix_entries x /\ ix_Covered x' = ix_Covered x /\ ix_room x' = hold (ix_room x) (- foldr Z.add 0 ns).
Proof.
  unfold release_all. induction rs as [|r rs IH]; intros x ns Hx Hg Hh Hs; inversion Hh as [|? n ? ns' Hr Hrest]; subst; cbn [foldl foldr]; [rewrite hold_0; auto|].
  inversion Hs as [|? ? Hsep Hs']; subst. destruct (ix_release x r Hx) as (H1 & H2 & H3 & _). destruct (ix_room_release x r n Hx Hg Hr) as (G1 & G2 & G3).
  destruct (IH (ix_Release x r) ns' H1 G1) as (I1 & I2 & I3 & I4 & I5); [|exact Hs'|].
  - clear -Hrest Hsep G3. induction Hrest as [|r' n' rs ns' Hr' _ IHr]; [constructor|]. apply Forall_cons_iff in Hsep as [Hs1 Hs2]. constructor; [apply G3; [exact Hr'|now apply ix_sep_sym]|now apply IHr].
  - split; [exact I1|]. split; [exact I2|]. split; [congruence|]. split; [congruence|]. rewrite I5, G2, hold_hold. f_equal. lia.
Qed.

(** The reservations of a group are granted when the budget admits all of them; when
    it does not, those that were granted are returned. *)
Lemma prepare_group_spec js commit ds : readable js ->
  Forall (fun d => descriptor_backed config js commit d /\ mutations_ok (de_Kind d) None (de_Mutations d) = true) ds ->
  forall x taken held ns, ix_ok x -> ix_ready x -> Forall2 (ix_covers x) taken held -> Forall2 (ix_holds x) taken ns -> ForallOrdPairs ix_sep taken ->
  exists x' out, prepare_group log commit (js_idHigh js) (rc_MaxValueSize config) x taken ds = (x', out) /\
    ix_ok x' /\ ix_ready x' /\ ix_entries x' = ix_entries x /\ ix_Covered x' = ix_Covered x /\
    if admits (ix_room x) (need_all (ix_room x) (group_ids ds)) then
      exists rs, out = Ok (map descriptor_proposal ds, rs) /\ Forall2 (ix_covers x') rs (held ++ group_ids ds) /\ Forall2 (ix_holds x') rs (ns ++ map (need (ix_room x)) (group_ids ds)) /\
        ForallOrdPairs ix_sep rs /\ ix_room x' = hold (ix_room x) (need_all (ix_room x) (group_ids ds))
    else exists e, out = Err (base_ErrInvalidConfig :: e) /\ budget_error e /\ ix_room x' = hold (ix_room x) (- foldr Z.add 0 ns).
Proof.
  intros Hr. induction 1 as [|d ds [Hd Hm] _ IH]; intros x taken held ns Hx Hg Hc Hh Hs; cbn [prepare_group map group_ids].
  { exists x, (Ok ([], taken)). do 5 (split; [auto|]). unfold need_all. cbn [foldr]. rewrite (ix_room_ok x Hx), hold_0, !app_nil_r. eauto 10. }
  rewrite (descriptorProposal_ok js commit d Hr Hd Hm). fold (group_ids ds). set (ids := map mu_RecordID (de_Mutations d)).
  assert (Hz : Forall (fun id => id <> 0) ids) by (apply mutations_ok_sorted in Hm as (Hall & _); apply Forall_map; eapply Forall_impl; [exact Hall|]; now intros m [? _]).
  destruct (ix_ReserveDelta x ids) as [x1 [r g]] eqn:E. destruct (ix_reserve x ids x1 r g Hx E) as (Hx1 & He1 & Hv1 & Hf1 & Hcr). destruct (ix_room_reserve x ids x1 r g Hx Hg Hz E) as (Hg1 & Hfh & Hroom).
  change (need_all (ix_room x) (ids :: group_ids ds)) with (need (ix_room x) ids + need_all (ix_room x) (group_ids ds)). pose proof (need_all_nonneg (ix_room x) (group_ids ds)) as Hnn. destruct r as [r|e].
  - destruct Hcr as [Hcr Hsep]. destruct Hroom as (_ & Hrm & Hhr & Hsep').
    destruct (IH x1 (taken ++ [r]) (held ++ [ids]) (ns ++ [need (ix_room x) ids]) Hx1 Hg1) as (x2 & out & -> & Hx2 & Hg2 & He2 & Hv2 & Hout).
    + apply Forall2_app; [|repeat constructor; exact Hcr]. eapply Forall2_impl; [exact Hc|]. auto.
    + apply Forall2_app; [|repeat constructor; exact Hhr]. eapply Forall2_impl; [exact Hh|]. auto.
    + apply ForallOrdPairs_snoc; [exact Hs|]. clear -Hc Hsep. induction Hc; constructor; eauto.
    + rewrite Hrm, need_all_hold, admits_hold in Hout. rewrite He1 in He2. rewrite Hv1 in Hv2. assert (Hneed : map (need (hold (ix_room x) (need (ix_room x) ids))) (group_ids ds) = map (need (ix_room x)) (group_ids ds)) by (apply map_ext; intros; apply need_hold).
      destruct (admits _ _).
      * destruct Hout as (rs & -> & O1 & O2 & O3 & O4). rewrite <- app_assoc in O1, O2. rewrite Hneed in O2. rewrite hold_hold in O4. exists x2. eexists. split; [reflexivity|]. do 4 (split; [assumption|]). exists rs. cbn [app] in *. auto.
      * destruct Hout as (e & -> & O1 & O2). exists x2. eexists. split; [reflexivity|]. do 4 (split; [assumption|]). exists e. split; [reflexivity|]. split; [exact O1|]. rewrite O2, hold_hold, foldr_snoc. f_equal. clear. generalize (need (ix_room x) ids). intros k. enough (foldr Z.add (k + 0) ns = foldr Z.add 0 ns + k) by lia. induction ns as [|a ns IHn]; cbn [foldr]; [lia|]. rewrite IHn. lia.
  - destruct Hroom as (Hno & Hrm & Hbe). replace (admits _ _) with false by (symmetry; apply not_true_is_false; intros Ha; apply (admits_less _ (need (ix_room x) ids)) in Ha; [congruence|lia]).
    destruct (release_all_ok taken x1 ns Hx1 Hg1) as (L1 & L2 & L3 & L4 & L5); [eapply Forall2_impl; [exact Hh|]; auto|exact Hs|]. eexists. eexists. split; [reflexivity|]. rewrite L3, L4, L5, Hrm. eauto 10.
Qed.

(** ** A whole group *)

Lemma relocations_nonempty ds : forall p ids, validateDescriptors_loop p ids ds = true ->
  Forall (fun d => (de_Kind d =? DescriptorRelocation) && (len (de_Mutations d) =? 0) = false) ds.
Proof.
  induction ds as [|d ds IH]; intros p ids H; [constructor|]. cbn [validateDescriptors_loop] in H.
  apply andb_true_iff in H as [H Hr]. apply andb_true_iff in H as [H _]. apply andb_true_iff in H as [_ H].
  constructor; [now apply negb_true_iff|exact (IH _ _ Hr)].
Qed.

Lemma validated_group ds js commit : validateDescriptors ds = true -> len ds <= MaxUint32 ->
  Forall (descriptor_backed config js commit) ds ->
  Forall (fun d => mutations_ok (de_Kind d) None (de_Mutations d) = true) ds /\
  NoDup (map de_BatchID ds) /\ group_ok (map descriptor_proposal ds).
Proof.
  intros Hv Hlen Hb. apply andb_true_iff in Hv as [Hne Hv]. pose proof (relocations_nonempty _ _ _ Hv) as Hrn.
  apply validateDescriptors_seqs in Hv as (Hall & Hnd & _).
  assert (Hm : Forall (fun d => mutations_ok (de_Kind d) None (de_Mutations d) = true) ds).
  { apply Forall_lookup. intros i d Hd. apply (Hall i d Hd). }
  split; [exact Hm|]. split; [exact Hnd|]. split; [|split].
  - destruct ds; [discriminate Hne|discriminate].
  - now rewrite len_map.
  - apply Forall_map. apply Forall_forall. intros d Hd. rewrite Forall_forall in Hb, Hm, Hrn.
    apply descriptor_proposal_valid; [apply (Hb d Hd)|now apply Hm|now apply Hrn].
Qed.

Lemma last_sequence ds d0 : validateDescriptors (d0 :: ds) = true ->
  de_CommitSeq (List.last (d0 :: ds) (mkDescriptor 0 0 0 0 [])) = de_CommitSeq d0 + len ds.
Proof.
  intros Hv. apply andb_true_iff in Hv as [_ Hv]. apply validateDescriptors_seqs in Hv as (_ & _ & Hs). cbn beta iota in Hs.
  assert (Hl : (d0 :: ds) !! length ds = Some (List.last (d0 :: ds) (mkDescriptor 0 0 0 0 []))).
  { clear. revert d0. induction ds as [|d ds IH]; intros d0; [reflexivity|]. exact (IH d). }
  rewrite (Hs _ _ Hl). reflexivity.
Qed.

(** The abstract state and the state of recovery. *)
Record sim (opened : gmap Z BatchStatus) (js : JState) (st : RState X) : Prop := mkSim {
  sim_ok : ix_ok (rt_Mapping (rs_result st)) /\ ix_ready (rt_Mapping (rs_result st));
  sim_entries : ix_entries (rt_Mapping (rs_result st)) = js_entries js;
  sim_covered : ix_Covered (rt_Mapping (rs_result st)) = js_covered js;
  sim_next : rt_NextCommitSeq (rs_result st) = js_covered js + 1;
  sim_idHigh : rt_ReservedIDHigh (rs_result st) = js_idHigh js;
  sim_batchHigh : rt_ReservedBatchIDHigh (rs_result st) = js_batchHigh js;
  sim_statuses : rt_Statuses (rs_result st) = js_statuses js ∪ opened;
  sim_seen : rs_seen st = dom (js_statuses js);
  sim_order_nodup : NoDup (rt_StatusOrder (rs_result st));
  sim_order : list_to_set (rt_StatusOrder (rs_result st)) = dom (js_statuses js);
}.

Definition js_commit (js : JState) (r : AppendResult) (payload : list Z) (ds : list Descriptor) : JState :=
  mkJState (spec_group (js_entries js) (map descriptor_proposal ds)) (js_covered js + len ds)
    (js_idHigh js) (js_batchHigh js) (commit_statuses ds (js_statuses js))
    (<[ar_Addr r := payload]> (js_store js)) (ar_Addr r).

Lemma need_all_sum room idss : foldr Z.add 0 (map (need room) idss) = need_all room idss.
Proof. unfold need_all. induction idss as [|ids idss IH]; [reflexivity|]. cbn [map foldr]. now rewrite IH. Qed.

(** The mapping side of a group: preparation, resolution and publication. *)
Lemma publish_group_ok js commit ds x : readable js ->
  validateDescriptors ds = true -> len ds <= MaxUint32 -> Forall (descriptor_backed config js commit) ds ->
  ix_ok x -> ix_ready x -> ix_entries x = js_entries js -> ix_Covered x = js_covered js -> js_covered js + len ds < MaxUint64 ->
  total_bytes (js_entries js) + group_bytes (map descriptor_proposal ds) <= MaxUint64 ->
  admits (ix_room x) (need_all (ix_room x) (group_ids ds)) = true ->
  exists x1 rs plan x2,
    prepare_group log commit (js_idHigh js) (rc_MaxValueSize config) x [] ds = (x1, Ok (map descriptor_proposal ds, rs)) /\
    ix_ResolveGroup x1 (map descriptor_proposal ds) = Ok plan /\
    map rp_Accepted (gp_Proposals plan) = replicate (length ds) true /\
    ix_PublishGroup x1 (js_covered js + 1) plan rs = (x2, Ok (publish_result plan)) /\ ix_ok x2 /\ ix_ready x2 /\
    ix_entries x2 = spec_group (js_entries js) (map descriptor_proposal ds) /\ ix_Covered x2 = js_covered js + len ds /\
    ix_room x2 = charge_ids (ix_room x) (spec_touched (js_entries js) (map descriptor_proposal ds)).
Proof.
  intros Hr Hv Hlen Hb Hx Hg He Hc Hmax Hbytes Hfit.
  destruct (validated_group ds js commit Hv Hlen Hb) as (Hm & Hnd & Hgo).
  assert (Hpu : Forall proposal_u (map descriptor_proposal ds)).
  { apply Forall_map. eapply Forall_impl; [exact Hb|]. intros d (Hu & _). now apply descriptor_proposal_u. }
  destruct (prepare_group_spec js commit ds Hr ltac:(apply Forall_and; auto) x [] [] [] Hx Hg) as
    (x1 & out & Ep & Hx1 & Hg1 & He1 & Hc1 & Hout); [constructor..|]. rewrite Hfit in Hout. destruct Hout as (rs & -> & Hcov & Hhold & Hsep & Hroom).
  destruct (ix_resolve x1 (map descriptor_proposal ds) Hx1 Hgo Hpu) as (plan & Epl & [Hpb Hpa Hpf Hpr]).
  assert (Hfl : forall S, spec_flags S (map descriptor_proposal ds) = replicate (length ds) true).
  { intros S. rewrite spec_flags_all, length_map; [reflexivity|]. apply Forall_map, Forall_true. reflexivity. }
  assert (Hpos : len ds <> 0).
  { destruct Hgo as (Hne & _ & _). intros E. apply len_zero_nil in E. now subst. }
  assert (Hcov' : Forall2 (fun r p => ix_covers x1 r (changed_ids p)) rs (map descriptor_proposal ds)).
  { cbn [app] in Hcov. unfold group_ids in Hcov. rewrite Forall2_map_r in Hcov. apply Forall2_map_r. eapply Forall2_impl; [exact Hcov|]. cbn. intros r0 d Hcd.
    unfold changed_ids, descriptor_proposal. cbn [pr_Changes]. rewrite map_map. exact Hcd. }
  destruct (ix_publish x1 (map descriptor_proposal ds) plan rs Hx1 Hgo Hpu Epl Hcov' Hsep) as (x2 & Epub & Hx2 & He2 & Hc2 & _).
  - rewrite Hfl, accepted_all. exact Hpos.
  - rewrite Hfl, accepted_all, Hc1, Hc. unfold len in Hmax. lia.
  - rewrite He1, He. exact Hbytes.
  - destruct (ix_room_publish x1 (map descriptor_proposal ds) plan rs _ x2 _ Hx1 Hg1 Hgo Hpu Epl Hcov' Hsep Hhold Epub) as [Hg2 Hr2]. cbn [app] in Hr2. rewrite need_all_sum, Hroom, hold_hold, Z.add_opp_diag_r, hold_0 in Hr2.
    exists x1, rs, plan, x2. rewrite Hfl in Hpf, Hc2. rewrite accepted_all in Hc2. rewrite Hc1, Hc in *. rewrite He1, He in *.
    split; [exact Ep|]. auto 10.
Qed.

(** What a group that does not fit leaves. *)
Definition refused (js : JState) (room : DeltaRoom) (st' : RState X) (out : option goerror) : Prop :=
  exists e, out = Some (base_ErrInvalidConfig :: e) /\ budget_error e /\ let x := rt_Mapping (rs_result st') in ix_ok x /\ ix_entries x = js_entries js /\ ix_Covered x = js_covered js /\ ix_room x = room.

Lemma replayGroup_ok opened js st r payload ds : readable js -> sim opened js st ->
  EncodeCommitGroup ds (rc_MaxRecordPayload config) = Ok payload ->
  len ds <= rc_MaxGroupDescriptors config -> totalMutations ds <= rc_MaxGroupMutations config ->
  match ds with d :: _ => de_CommitSeq d | [] => 0 end = js_covered js + 1 ->
  js_covered js + len ds < MaxUint64 ->
  Forall (descriptor_backed config js (ar_Addr r)) ds ->
  Forall (fun d => is_user d = true -> js_statuses js !! de_BatchID d = None) ds ->
  total_bytes (js_entries js) + group_bytes (map descriptor_proposal ds) <= MaxUint64 ->
  Z.of_nat (size (commit_statuses ds (js_statuses js) ∪ opened)) <= rc_StatusCapacity config ->
  exists st' out, replayGroup log config st r payload = (st', out) /\ let room := ix_room (rt_Mapping (rs_result st)) in
    if admits room (need_all room (group_ids ds)) then out = None /\ sim opened (js_commit js r payload ds) st' /\ ix_room (rt_Mapping (rs_result st')) = charge_ids room (spec_touched (js_entries js) (map descriptor_proposal ds))
    else refused js room st' out.
Proof.
  intros Hr [[S1 S1'] S2 S3 S4 S5 S6 S7 S8 S9 S10] Henc Hld Hlm Hfirst Hmax Hb Hfree Hbytes Hcap.
  assert (Hdu : Forall descriptor_u ds) by (eapply Forall_impl; [exact Hb|now intros d (? & _)]).
  destruct (DecodeCommitGroup_encoded ds _ _ _ payload Hdu Hld Hlm Henc) as [Edec _].
  pose proof (EncodeCommitGroup_layout _ _ _ Henc) as (_ & _ & _ & Hv & Hn & _ & _).
  destruct (validated_group ds js (ar_Addr r) Hv ltac:(lia) Hb) as (Hm & Hnd & Hg).
  unfold replayGroup. rewrite Edec, Hfirst, S4, Z.eqb_refl. cbn [negb]. cbv zeta. rewrite S5, S6, S7, S8.
  destruct (mark_terminals_ok (js_batchHigh js) (js_statuses js ∪ opened) opened ds Hnd) with (js := js_statuses js) (n := 0)
    as (n' & -> & Hn' & Hsz); [|exact Hfree|apply Forall_true; reflexivity|].
  { eapply Forall_impl; [exact Hb|]. now intros d (_ & _ & ? & _). }
  pose proof (Zle_0_nat (size (js_statuses js ∪ opened))).
  replace ((rc_StatusCapacity config <? n') || _) with false by
    (symmetry; apply orb_false_iff; split; apply Z.ltb_ge; lia).
  destruct (admits _ _) eqn:Efit.
  - destruct (publish_group_ok js (ar_Addr r) ds _ Hr Hv ltac:(lia) Hb S1 S1' S2 S3 Hmax Hbytes Efit)
      as (x1 & rs & plan & x2 & -> & -> & Hfl & Epub & Hx2 & Hg2 & He2 & Hc2 & Hroom).
    rewrite (record_commits_ok ds (gp_Proposals plan) (set_mapping (set_seen st (dom (commit_statuses ds (js_statuses js)))) x1)
      (js_statuses js) opened Hfl S7).
    destruct (committed_order _ _ ds S9 S10 Hnd Hfree) as [Hon Hod].
    rewrite Epub. destruct ds as [|d0 ds]; [discriminate Hv|]. rewrite last_sequence by exact Hv. rewrite Hfirst.
    rewrite len_cons in *. replace (js_covered js + 1 + len ds =? MaxUint64) with false by (symmetry; apply Z.eqb_neq; lia).
    eexists. eexists. split; [reflexivity|]. split; [reflexivity|]. split; [|exact Hroom]. constructor; cbn; auto.
    + rewrite Hc2, len_cons. lia.
    + rewrite len_cons. lia.
  - destruct (prepare_group_spec js (ar_Addr r) ds Hr ltac:(apply Forall_and; auto) _ [] [] [] S1 S1') as (x1 & out & -> & Hx1 & _ & He1 & Hc1 & Hout); [constructor..|]. rewrite Efit in Hout. destruct Hout as (e & -> & Hbe & Hroom).
    eexists. eexists. split; [reflexivity|]. exists e. split; [reflexivity|]. split; [exact Hbe|]. cbn. cbn in Hroom. rewrite hold_0 in Hroom. rewrite He1, Hc1. auto.
Qed.

(** ** Every record *)

(** The descriptors of a commit group. *)
Definition group_of (payload : list Z) : option (list Descriptor) :=
  match TypeOf payload with
  | Ok typ =>
      if typ =? RecordTypeCommitGroup then
        match DecodeCommitGroup payload (rc_MaxRecordPayload config) (rc_MaxGroupDescriptors config) (rc_MaxGroupMutations config) with Ok ds => Some ds | Err _ => None end
      else None
  | Err _ => None
  end.

(** The budget after the groups of a log from the entries [S]; [None] when a group does
    not fit. *)
Fixpoint replay_room (room : DeltaRoom) (S : Entries) (recs : list LogRecord) : option DeltaRoom :=
  match recs with
  | [] => Some room
  | (_, payload) :: rest =>
      match group_of payload with
      | None => replay_room room S rest
      | Some ds =>
          if admits room (need_all room (group_ids ds))
          then replay_room (charge_ids room (spec_touched S (map descriptor_proposal ds))) (spec_group S (map descriptor_proposal ds)) rest
          else None
      end
  end.

Definition high_ok (size high : Z) : Prop := 0 < high <= MaxUint64 /\ (high - 1) mod size = 0.

Record js_wf (js : JState) : Prop := mkJsWf {
  jw_covered : 0 <= js_covered js < MaxUint64;
  jw_id : high_ok (rc_IDReserveSize config) (js_idHigh js);
  jw_batch : high_ok (rc_BatchIDReserveSize config) (js_batchHigh js);
}.

Definition sizes_ok : Prop := 0 < rc_IDReserveSize config /\ 0 < rc_BatchIDReserveSize config.

Lemma high_ok_next size high : 0 < size -> high_ok size high -> high <= MaxUint64 - size -> high_ok size (high + size).
Proof.
  intros Hs [Hh Hm] Hle. split; [lia|]. replace (high + size - 1) with (high - 1 + 1 * size) by lia.
  now rewrite Z.mod_add by lia.
Qed.

Lemma advance_next kind size high : IdAlloc.validKind kind = true -> 0 < size -> high_ok size high -> high <= MaxUint64 - size ->
  IdAlloc.AdvanceRecovered kind size high (mkReserve (high + size)) = Ok (high + size).
Proof.
  intros Hk Hs Hh Hle. destruct (high_ok_next size high Hs Hh Hle) as [_ Hm]. destruct Hh as [Hh _].
  unfold IdAlloc.AdvanceRecovered. cbn [rs_HighExclusive]. rewrite Hk, Hm. pass. reflexivity.
Qed.

Lemma journal_step_wf js rec js' : sizes_ok -> journal_step config js rec js' -> js_wf js -> js_wf js'.
Proof.
  intros [Hs1 Hs2] Hstep [W1 W2 W3]. destruct Hstep; constructor; cbn; auto using high_ok_next.
  pose proof (len_nonneg ds). lia.
Qed.

(** Replaying the reserve record that raises a watermark. *)
Lemma reserve_payload typ high payload : 0 < high <= MaxUint64 -> EncodeReserve typ (mkReserve high) = Ok payload ->
  TypeOf payload = Ok typ /\ DecodeReserve payload typ = Ok (mkReserve high).
Proof. intros Hh E. apply DecodeReserve_encoded in E as [? ?]; [auto|]. unfold is_u64. cbn. lia. Qed.

Lemma fresh_order (js : gmap Z BatchStatus) order id s : NoDup order -> list_to_set order = dom js -> js !! id = None ->
  NoDup (order ++ [id]) /\ list_to_set (order ++ [id]) = dom (<[id := s]> js).
Proof.
  intros Hno Ho Hn. split.
  - apply NoDup_app. split; [exact Hno|]. split; [|apply NoDup_singleton]. intros i Hi E%list_elem_of_singleton. subst i.
    assert (Hd : id ∈ dom js) by (rewrite <- Ho; now apply elem_of_list_to_set). apply elem_of_dom in Hd as [? E]. congruence.
  - rewrite list_to_set_app_L, dom_insert_L, Ho. cbn. rewrite (right_id_L ∅ (∪)). apply (comm_L (∪)).
Qed.

(** A record is a group, or it leaves the entries. *)
Lemma step_group js rec js' : sizes_ok -> js_wf js -> journal_step config js rec js' ->
  match group_of rec.2 with None => js_entries js' = js_entries js | Some ds => js' = js_commit js rec.1 rec.2 ds end.
Proof.
  intros [Hs1 Hs2] [W1 W2 W3] Hstep. unfold group_of. destruct Hstep as [js r payload put Hf Hu Henc Hid Hb|js r payload Hf Hle Henc|js r payload Hf Hle Henc
    |js r payload id reason Hf Hid Hre Henc Hlt Hnone|js r payload covered Hf -> Hcov
    |js r payload ds Hf Henc Hld Hlm Hfirst Hmax Hback Hfree Hbytes]; cbn [fst snd].
  - now rewrite (TypeOf_EncodePut _ _ _ Henc).
  - apply reserve_payload in Henc as [-> _]; [reflexivity|destruct W2; lia].
  - apply reserve_payload in Henc as [-> _]; [reflexivity|destruct W3; lia].
  - now destruct (DecodeAbort_encoded (mkAbort id reason) payload Hid Hre Henc) as [_ ->].
  - now destruct (DecodeCheckpoint_encoded (mkMarker covered)) as [_ ->]; [unfold is_u64; cbn; lia|].
  - assert (Hdu : Forall descriptor_u ds) by (eapply Forall_impl; [exact Hback|now intros d (? & _)]). destruct (DecodeCommitGroup_encoded ds _ _ _ payload Hdu Hld Hlm Henc) as [Edec ->]. rewrite Z.eqb_refl, Edec. reflexivity.
Qed.

Ltac no_group E := cbn [replay_room]; replace (group_of _) with (@None (list Descriptor)) by (unfold group_of; now rewrite E).

Lemma visit_ok opened js st rec js' : sizes_ok -> readable js -> js_wf js -> sim opened js st ->
  journal_step config js rec js' -> Z.of_nat (size (js_statuses js' ∪ opened)) <= rc_StatusCapacity config ->
  exists st' out, visit log config st rec = (st', out) /\ let room := ix_room (rt_Mapping (rs_result st)) in
    match replay_room room (js_entries js) [rec] with Some room' => out = None /\ sim opened js' st' /\ ix_room (rt_Mapping (rs_result st')) = room' | None => refused js room st' out end.
Proof.
  intros [Hs1 Hs2] Hr [W1 W2 W3] Hsim Hstep Hcap. pose proof (step_group js rec js' ltac:(now split) ltac:(now constructor) Hstep) as Hg. unfold visit.
  destruct Hstep as [js r payload put Hf Hu Henc Hid Hb|js r payload Hf Hle Henc|js r payload Hf Hle Henc
    |js r payload id reason Hf Hid Hre Henc Hlt Hnone|js r payload covered Hf -> Hcov
    |js r payload ds Hf Henc Hld Hlm Hfirst Hmax Hback Hfree Hbytes].
  - rewrite (TypeOf_EncodePut _ _ _ Henc). change (RecordTypePut =? RecordTypePut) with true. cbv iota.
    rewrite (DecodePut_encoded _ _ _ Hu Henc). no_group (TypeOf_EncodePut _ _ _ Henc). destruct Hsim as [S1 S2 S3 S4 S5 S6 S7 S8 S9 S10]. rewrite S5, S6.
    replace ((_ <=? _) || _) with false by (symmetry; apply orb_false_iff; split; apply Z.leb_gt; lia).
    exists st, None. split; [reflexivity|]. split; [reflexivity|]. split; [now constructor|reflexivity].
  - apply reserve_payload in Henc as [Et Ed]; [|destruct W2; lia]. no_group Et. rewrite Et, Ed. destruct Hsim as [S1 S2 S3 S4 S5 S6 S7 S8 S9 S10].
    cbn -[IdAlloc.AdvanceRecovered]. rewrite S5, (advance_next IdAlloc.RecordID) by auto.
    eexists. exists None. split; [reflexivity|]. split; [reflexivity|]. split; [now constructor|reflexivity].
  - apply reserve_payload in Henc as [Et Ed]; [|destruct W3; lia]. no_group Et. rewrite Et, Ed. destruct Hsim as [S1 S2 S3 S4 S5 S6 S7 S8 S9 S10].
    cbn -[IdAlloc.AdvanceRecovered]. rewrite S6, (advance_next IdAlloc.BatchID) by auto.
    eexists. exists None. split; [reflexivity|]. split; [reflexivity|]. split; [now constructor|reflexivity].
  - destruct (DecodeAbort_encoded (mkAbort id reason) payload Hid Hre Henc) as [Ed Et]. no_group Et. rewrite Et, Ed.
    destruct Hsim as [S1 S2 S3 S4 S5 S6 S7 S8 S9 S10].
    change (RecordTypeAbort =? RecordTypePut) with false. change (RecordTypeAbort =? RecordTypeCommitGroup) with false.
    change (RecordTypeAbort =? RecordTypeAbort) with true. cbv iota. cbn [ab_BatchID]. rewrite S6, S8.
    replace (js_batchHigh js <=? id) with false by (symmetry; apply Z.leb_gt; lia).
    rewrite bool_decide_eq_false_2 by (rewrite elem_of_dom, Hnone; intros [? [=]]).
    unfold retainStatus. cbn [set_seen rs_result]. cbn in Hcap. rewrite <- insert_union_l, map_size_insert in Hcap.
    rewrite S7. replace (bool_decide _ && _) with false.
    + eexists. exists None. split; [reflexivity|]. split; [reflexivity|]. destruct (fresh_order _ _ id (mkStatus BatchAborted 0) S9 S10 Hnone) as [? ?].
      split; [|reflexivity]. constructor; cbn; auto; [now rewrite S7, insert_union_l|now rewrite dom_insert_L].
    + symmetry. destruct ((js_statuses js ∪ opened) !! id) as [o|].
      * rewrite bool_decide_eq_false_2 by discriminate. reflexivity.
      * rewrite bool_decide_eq_true_2 by reflexivity. cbn [andb]. apply Z.leb_gt. lia.
  - destruct (DecodeCheckpoint_encoded (mkMarker covered)) as [Ed Et]; [unfold is_u64; cbn; lia|]. no_group Et. rewrite Et, Ed.
    destruct Hsim as [S1 S2 S3 S4 S5 S6 S7 S8 S9 S10].
    cbn -[ix_Covered]. rewrite S3. replace (js_covered js <? covered) with false by (symmetry; apply Z.ltb_ge; lia).
    exists st, None. split; [reflexivity|]. split; [reflexivity|]. split; [now constructor|reflexivity].
  - assert (Hdu : Forall descriptor_u ds) by (eapply Forall_impl; [exact Hback|now intros d (? & _)]).
    destruct (DecodeCommitGroup_encoded ds _ _ _ payload Hdu Hld Hlm Henc) as [Edec Et]. assert (Eg : group_of payload = Some ds) by (unfold group_of; now rewrite Et, Z.eqb_refl, Edec). rewrite Et. cbn [replay_room]. rewrite Eg.
    change (RecordTypeCommitGroup =? RecordTypePut) with false. change (RecordTypeCommitGroup =? RecordTypeCommitGroup) with true.
    cbv iota zeta. destruct (replayGroup_ok opened js st r payload ds) as (st' & out & -> & H); auto. exists st', out. split; [reflexivity|]. cbv zeta in H. now destruct (admits _ _).
Qed.

(** The statuses only grow. *)
Lemma journal_step_statuses js rec js' : journal_step config js rec js' -> dom (js_statuses js) ⊆ dom (js_statuses js').
Proof. destruct 1; cbn; try reflexivity; [rewrite dom_insert; apply union_subseteq_r|apply commit_statuses_dom]. Qed.

Lemma journal_statuses js recs js' : journal config js recs js' -> dom (js_statuses js) ⊆ dom (js_statuses js').
Proof.
  induction 1 as [js|js rec js1 recs js2 Hs _ IH|js addr payload recs js2 _ Hn _ IH]; [reflexivity| |exact IH].
  etrans; [eapply journal_step_statuses; eauto|exact IH].
Qed.

Lemma union_size_mono (m m' opened : gmap Z BatchStatus) : dom m ⊆ dom m' -> (size (m ∪ opened) <= size (m' ∪ opened))%nat.
Proof. intros Hd. rewrite <- !size_dom, !dom_union_L. apply subseteq_size. now apply union_mono_r. Qed.

(** Recovery stops at the first group that does not fit, after the part before it. *)
Definition refused_after (js : JState) (room : DeltaRoom) (recs : list LogRecord) (st' : RState X) (out : option goerror) : Prop :=
  exists pre rec rest mid room', recs = pre ++ rec :: rest /\ journal config js pre mid /\ replay_room room (js_entries js) pre = Some room' /\ replay_room room (js_entries js) (pre ++ [rec]) = None /\ refused mid room' st' out.

Lemma replay_room_cons js rec js' room recs : sizes_ok -> js_wf js -> journal_step config js rec js' ->
  replay_room room (js_entries js) (rec :: recs) = match replay_room room (js_entries js) [rec] with Some room' => replay_room room' (js_entries js') recs | None => None end.
Proof.
  intros Hsz Hwf Hs. pose proof (step_group _ _ _ Hsz Hwf Hs) as Hg. destruct rec as [r payload]. cbn [replay_room fst snd] in *. destruct (group_of payload) as [ds|]; [subst js'; now destruct (admits _ _)|now rewrite Hg].
Qed.

Lemma visit_all_ok opened js recs js' : sizes_ok -> journal config js recs js' -> readable js' ->
  Z.of_nat (size (js_statuses js' ∪ opened)) <= rc_StatusCapacity config ->
  forall st, js_wf js -> sim opened js st ->
  exists st' out, visit_all log config st recs = (st', out) /\ let room := ix_room (rt_Mapping (rs_result st)) in
    match replay_room room (js_entries js) recs with Some room' => out = None /\ sim opened js' st' /\ ix_room (rt_Mapping (rs_result st')) = room' | None => refused_after js room recs st' out end.
Proof.
  intros Hsz. induction 1 as [js|js rec js1 recs js2 Hs Hj IH|js addr payload recs js2 Ha Hn Hj IH];
    intros Hr Hcap st Hwf Hsim; cbn [visit_all]; cbv zeta.
  - exists st, None. split; [reflexivity|]. cbn [replay_room]. auto.
  - pose proof (journal_store _ _ _ _ Hj) as Hst.
    destruct (visit_ok opened js st rec js1 Hsz) as (st1 & out & -> & Hv); auto.
    + eapply readable_before; [|exact Hr]. etrans; [eapply journal_step_store; eauto|exact Hst].
    + pose proof (union_size_mono _ _ opened (journal_statuses _ _ _ Hj)). lia.
    + pose proof (fun room recs => replay_room_cons js rec js1 room recs Hsz Hwf Hs) as Hcons. rewrite Hcons. cbv zeta in Hv. destruct (replay_room _ _ [rec]) as [room1|] eqn:E1.
      * destruct Hv as (-> & Hsim1 & <-). destruct (IH Hr Hcap st1 (journal_step_wf _ _ _ Hsz Hs Hwf) Hsim1) as (st2 & out2 & -> & H2). exists st2, out2. split; [reflexivity|]. cbv zeta in H2. destruct (replay_room _ _ recs); [exact H2|]. destruct H2 as (pre & rec' & rest & mid & room' & -> & J & R1 & R2 & Rf).
        exists (rec :: pre), rec', rest, mid, room'. split; [reflexivity|]. split; [eapply journal_record; eauto|]. rewrite <- app_comm_cons, (Hcons _ pre), (Hcons _ (pre ++ [rec'])), E1. auto.
      * assert (Hne : exists e, out = Some e) by (destruct Hv as (e & -> & _); eauto). destruct Hne as [e ->]. exists st1, (Some e). split; [reflexivity|]. exists [], rec, recs, js, (ix_room (rt_Mapping (rs_result st))). split; [reflexivity|]. split; [constructor|]. split; [reflexivity|]. split; [exact E1|exact Hv].
  - set (js1 := mkJState _ _ _ _ _ _ _) in *. destruct (IH Hr Hcap st) as (st2 & out2 & -> & H2); [destruct Hwf; now constructor|destruct Hsim; now constructor|]. exists st2, out2. split; [reflexivity|]. cbv zeta in H2. change (js_entries js1) with (js_entries js) in H2. destruct (replay_room _ _ recs); [exact H2|].
    destruct H2 as (pre & rec' & rest & mid & room' & -> & J & Rest). exists pre, rec', rest, mid, room'. split; [reflexivity|]. split; [eapply journal_compaction; eauto|exact Rest].
Qed.

(** ** Recovery *)

(** The batches open at the checkpoint. *)
Definition aborted (ids : list Z) : gmap Z BatchStatus := list_to_map (map (fun id => (id, mkStatus BatchAborted 0)) ids).

Lemma open_statuses_ok high ids : NoDup ids -> Forall (fun id => 0 < id < high) ids -> forall m,
  Forall (fun id => m !! id = None) ids -> open_statuses high m ids = Ok (aborted ids ∪ m).
Proof.
  induction 1 as [|id ids Hni Hnd IH]; intros Hb m Hm; cbn [open_statuses].
  { change (aborted []) with (∅ : gmap Z BatchStatus). now rewrite (left_id_L ∅ (∪)). }
  apply Forall_cons_iff in Hb as [Hid Hb]. apply Forall_cons_iff in Hm as [Hn Hm].
  replace ((id =? 0) || _) with false by (symmetry; apply orb_false_iff; split; [apply Z.eqb_neq|apply Z.leb_gt]; lia).
  rewrite bool_decide_eq_false_2 by (rewrite Hn; intros [? [=]]). rewrite IH; [f_equal|exact Hb|].
  - unfold aborted. cbn. rewrite <- insert_union_l, insert_union_r; [reflexivity|].
    apply not_elem_of_list_to_map_1. rewrite <- list_fmap_compose. cbn. now rewrite list_fmap_id.
  - apply Forall_forall. intros i Hi. rewrite Forall_forall in Hm. rewrite lookup_insert_ne; [now apply Hm|]. congruence.
Qed.

Definition config_ok : Prop :=
  0 < rc_MaxValueSize config /\ 0 < rc_MaxRecordPayload config /\ 0 < rc_MaxGroupDescriptors config /\
  0 < rc_MaxGroupMutations config /\ 0 < rc_IDReserveSize config /\ 0 < rc_BatchIDReserveSize config /\
  0 < rc_StatusCapacity config.

(** The state of the store a checkpoint describes. *)
Record checkpoint_of (ck : Checkpoint X) (js : JState) : Prop := mkCheckpointOf {
  co_ok : ix_ok (ck_Mapping ck) /\ ix_ready (ck_Mapping ck);
  co_entries : ix_entries (ck_Mapping ck) = js_entries js;
  co_covered : ix_Covered (ck_Mapping ck) = js_covered js;
  co_start : LogPos_Valid (ck_ReplayStart ck) = true;
  co_idHigh : ck_ReservedIDHigh ck = js_idHigh js;
  co_batchHigh : ck_ReservedBatchIDHigh ck = js_batchHigh js;
  co_statuses : js_statuses js = ∅;
  co_open_nodup : NoDup (ck_OpenBatchIDs ck);
  co_open : Forall (fun id => 0 < id < js_batchHigh js) (ck_OpenBatchIDs ck);
}.

Lemma aborted_size ids : NoDup ids -> size (aborted ids) = length ids.
Proof.
  intros Hnd. unfold aborted. rewrite map_size_list_to_map; [now rewrite length_map|].
  rewrite <- list_fmap_compose. cbn. now rewrite list_fmap_id.
Qed.

(** What recovery must return for a history that ends in [js]. *)
Record recovered (ck : Checkpoint X) (js : JState) (result : Result X) : Prop := mkRecovered {
  rd_ok : ix_ok (rt_Mapping result);
  rd_entries : ix_entries (rt_Mapping result) = js_entries js;
  rd_covered : ix_Covered (rt_Mapping result) = js_covered js;
  rd_next : rt_NextCommitSeq result = js_covered js + 1;
  rd_idHigh : rt_ReservedIDHigh result = js_idHigh js;
  rd_batchHigh : rt_ReservedBatchIDHigh result = js_batchHigh js;
  rd_statuses : rt_Statuses result = js_statuses js ∪ aborted (ck_OpenBatchIDs ck);
  rd_order_nodup : NoDup (rt_StatusOrder result);
  rd_order : list_to_set (rt_StatusOrder result) = dom (rt_Statuses result);
  rd_count : rt_TerminalCount result = Z.of_nat (size (rt_Statuses result));
}.

Definition reopened (ids : list Z) (seen : gset Z) : list Z := filter (fun id => id ∉ seen) ids.

Lemma reopened_order js order ids : NoDup order -> list_to_set order = dom js -> NoDup ids ->
  NoDup (order ++ reopened ids (dom js)) /\ list_to_set (order ++ reopened ids (dom js)) = dom (js ∪ aborted ids).
Proof.
  intros Hno Ho Hnd. split.
  - apply NoDup_app. split; [exact Hno|]. split; [|now apply NoDup_filter].
    intros id Hid Hin. apply list_elem_of_filter in Hin as [Hn _]. apply Hn. rewrite <- Ho. now apply elem_of_list_to_set.
  - apply set_eq. intros id. unfold reopened. rewrite elem_of_list_to_set, elem_of_app, list_elem_of_filter, dom_union_L, elem_of_union.
    rewrite <- (elem_of_list_to_set (C := gset Z) id order), Ho. unfold aborted. rewrite dom_list_to_map_L, elem_of_list_to_set.
    rewrite <- list_fmap_compose. cbn. rewrite list_fmap_id. destruct (decide (id ∈ dom js)); tauto.
Qed.

(** Recovery of a tail that does not fit: the configuration error, and the mapping of
    the part of the log that fits. *)
Definition recovery_refused (ck : Checkpoint X) (js : JState) (recs : list LogRecord) : Prop :=
  exists x e pre rec rest mid room, Recover log ck config = (x, Err (base_ErrInvalidConfig :: e)) /\ budget_error e /\
    recs = pre ++ rec :: rest /\ journal config js pre mid /\
    replay_room (ix_room (ck_Mapping ck)) (js_entries js) pre = Some room /\ replay_room (ix_room (ck_Mapping ck)) (js_entries js) (pre ++ [rec]) = None /\
    ix_ok x /\ ix_entries x = js_entries mid /\ ix_Covered x = js_covered mid /\ ix_room x = room.

Lemma Recover_ok ck js recs js' : config_ok -> checkpoint_of ck js -> js_wf js ->
  journal config js recs js' -> lg_Scan log (ck_ReplayStart ck) = (recs, None) -> readable js' ->
  Z.of_nat (size (js_statuses js' ∪ aborted (ck_OpenBatchIDs ck))) <= rc_StatusCapacity config ->
  match replay_room (ix_room (ck_Mapping ck)) (js_entries js) recs with
  | Some room => exists result, Recover log ck config = (rt_Mapping result, Ok result) /\ recovered ck js' result /\ ix_room (rt_Mapping result) = room
  | None => recovery_refused ck js recs
  end.
Proof.
  intros (G1 & G2 & G3 & G4 & G5 & G6 & G7) [C1 C2 C3 C4 C5 C6 C7 C8 C9] Hwf Hj Hscan Hr Hcap.
  assert (Hlen : len (ck_OpenBatchIDs ck) <= rc_StatusCapacity config).
  { pose proof (union_size_mono ∅ (js_statuses js') (aborted (ck_OpenBatchIDs ck)) ltac:(rewrite dom_empty_L; apply empty_subseteq)) as Hm.
    rewrite (left_id_L ∅ (∪)), aborted_size in Hm by exact C8. unfold len. lia. }
  unfold recovery_refused, Recover. rewrite C4, C3, C5, C6. cbn [negb orb]. destruct Hwf as [W1 W2 W3].
  destruct W2 as [W2 W2m], W3 as [W3 W3m].
  repeat match goal with |- context [?a =? 0] => replace (a =? 0) with false by (symmetry; apply Z.eqb_neq; lia) end.
  replace (_ <? len _) with false by (symmetry; apply Z.ltb_ge; lia).
  replace (js_covered js =? MaxUint64) with false by (symmetry; apply Z.eqb_neq; lia). cbn [orb].
  rewrite open_statuses_ok; [|exact C8|exact C9|apply Forall_true; intros; apply lookup_empty].
  rewrite (right_id_L ∅ (∪)), Hscan. cbv zeta.
  destruct (visit_all_ok (aborted (ck_OpenBatchIDs ck)) js recs js' ltac:(split; assumption) Hj Hr Hcap
    (mkRState (mkResult (ck_Mapping ck) (js_covered js + 1) (js_idHigh js) (js_batchHigh js) (aborted (ck_OpenBatchIDs ck)) [] 0) ∅))
    as (st & out & -> & Hout).
  - constructor; [exact W1|split; assumption|split; assumption].
  - constructor; cbn; auto; rewrite ?C7, ?(left_id_L ∅ (∪)), ?dom_empty_L; auto. constructor.
  - cbv zeta in Hout. cbn [rs_result rt_Mapping] in Hout. destruct (replay_room _ _ recs) as [room|].
    + destruct Hout as (-> & [[S1 S1'] S2 S3 S4 S5 S6 S7 S8 S9 S10] & Hroom). match goal with |- exists r, (_, Ok ?t) = _ /\ _ => exists t end. split; [reflexivity|]. split; [|exact Hroom].
      destruct (reopened_order (js_statuses js') _ (ck_OpenBatchIDs ck) S9 S10 C8) as [? ?].
      constructor; cbn -[reopened]; auto; rewrite ?S7, ?S8; auto.
    + destruct Hout as (pre & rec & rest & mid & room' & E & J & R1 & R2 & e & -> & Hb & Hx & He & Hc & Hroom). exists (rt_Mapping (rs_result st)), e, pre, rec, rest, mid, room'. auto 15.
Qed.
End ReplaySpec.

(** C3: recovery is total and exact.  From a checkpoint that describes the
    abstract state [js], on any log the producers may have written since, with
    the records readable and enough status capacity: when the groups of the log
    fit the delta budget of the mapping, [Recover] succeeds and
    returns the mapping, the next commit sequence, the allocator
    watermarks and the batch outcomes of the final abstract state: a batch that
    was open at the checkpoint and has no terminal record is aborted, every
    other has the outcome the log gives it, the status order lists each
    batch once, and exactly the ids the groups touch are charged.  When a group
    does not fit, it fails with [ErrInvalidConfig] joined with the error of the budget;
    the mapping is then that of the log before that group and nothing is reserved for
    it. *)
Theorem recovery_total_and_exact {X R : Type} `{!Index X R} `{!IndexLaws X R} `{!IndexRoom X R}
    (config : RConfig) (log : ReplayLog) (ck : Checkpoint X) (js js' : JState) (recs : list LogRecord) :
  config_ok config -> checkpoint_of ck js -> js_wf config js ->
  journal config js recs js' -> lg_Scan log (ck_ReplayStart ck) = (recs, None) -> readable log js' ->
  Z.of_nat (size (js_statuses js' ∪ aborted (ck_OpenBatchIDs ck))) <= rc_StatusCapacity config ->
  match replay_room config (ix_room (ck_Mapping ck)) (js_entries js) recs with
  | Some room => exists result, Recover log ck config = (rt_Mapping result, Ok result) /\ recovered ck js' result /\ ix_room (rt_Mapping result) = room
  | None => recovery_refused config log ck js recs
  end.
Proof. apply Recover_ok. Qed.

(** A log of one Put and the group that commits it. *)
Section Example.
Definition ex_config : RConfig := mkRConfig 100 4096 8 64 1024 1024 16.
Definition ex_addr (offset size : Z) : Z := match NewVAddr 1 offset size with Ok a => a | Err _ => 0 end.
Definition ex_result (offset size : Z) : AppendResult := mkAppend (ex_addr offset size) (mkPos 1 (offset + size)).
Definition ex_put : PutRecord := mkPut 3 7 [1; 2; 3].
Definition ex_put_payload : list Z := match EncodePut ex_put 100 with Ok p => p | Err _ => [] end.
Definition ex_size : Z := match PhysicalRecordSize (PutHeaderSize + 3) with Ok n => n | Err _ => 0 end.
Definition ex_descriptor : Descriptor :=
  mkDescriptor DescriptorUserCommit 3 1 3 [mkMutation 7 (ex_addr 64 ex_size) 0 OperationPut ex_size].
Definition ex_group : list Descriptor := [ex_descriptor].
Definition ex_group_payload : list Z := match EncodeCommitGroup ex_group 4096 with Ok p => p | Err _ => [] end.
Definition ex_records : list LogRecord :=
  [(ex_result 64 ex_size, ex_put_payload); (ex_result 192 256, ex_group_payload)].
Definition ex_start : JState := mkJState ∅ 0 1025 1025 ∅ ∅ 0.
Definition ex_end : JState :=
  js_commit (js_append ex_start (ex_result 64 ex_size) ex_put_payload) (ex_result 192 256) ex_group_payload ex_group.
Definition ex_log : ReplayLog := mkReplayLog (fun _ => (ex_records, None))
  (fun addr => match js_store ex_end !! addr with Some p => Ok p | None => Err [] end).
Definition ex_checkpoint : Checkpoint Mapping := mkCheckpoint NewEmpty (mkPos 1 64) 1025 1025 [3; 4].

Lemma ex_put_u : put_u ex_put.
Proof. split; [|split]; unfold is_u64; [cbn; lia..|]. repeat constructor; cbn; lia. Qed.

Lemma ex_descriptor_u : descriptor_u ex_descriptor.
Proof.
  unfold descriptor_u, is_u8, is_u64. cbn [ex_descriptor de_Kind de_BatchID de_CommitSeq de_LogicalPayloadBytes de_Mutations].
  do 4 (split; [vm_compute; intuition discriminate|]). constructor; [|constructor].
  unfold mutation_u, is_u8, is_u32, is_u64. repeat split; vm_compute; congruence.
Qed.

Lemma ex_journal : journal ex_config ex_start ex_records ex_end.
Proof.
  apply journal_record with (js1 := js_append ex_start (ex_result 64 ex_size) ex_put_payload).
  { apply J_put with (put := ex_put); [| |vm_compute; reflexivity..].
    - split; [|split; [|split]]; [vm_compute; reflexivity..|]. now left.
    - exact ex_put_u. }
  apply journal_record with (js1 := ex_end); [|constructor].
  apply J_commit.
  - split; [|split; [|split]]; [vm_compute; reflexivity..|]. right. vm_compute. reflexivity.
  - vm_compute. reflexivity.
  - vm_compute. discriminate.
  - vm_compute. discriminate.
  - reflexivity.
  - vm_compute. reflexivity.
  - constructor; [|constructor]. split.
    + exact ex_descriptor_u.
    + split; [now left|]. split; [vm_compute; reflexivity|]. exists [3]. split; [|reflexivity].
      constructor; [|constructor]. split; [vm_compute; reflexivity|]. split; [vm_compute; reflexivity|].
      exists ex_put. split; [|repeat split; vm_compute; reflexivity].
      exists ex_put_payload. split; [vm_compute; reflexivity|]. split; [exact ex_put_u|vm_compute; reflexivity].
  - repeat constructor.
  - vm_compute. discriminate.
Qed.
End Example.

(** The same from a production mapping that was just opened, and a log of two Puts in one
    group with a mapping whose limit is one entry. *)
Definition ex_production : Checkpoint (Persistent unit RefTree) := mkCheckpoint demo_open (mkPos 1 64) 1025 1025 [3; 4].
Definition ex_small : Persistent unit RefTree := set_pool demo_open (mkPool (mkBudget 32 64 0 0) []).
Definition ex_small_checkpoint : Checkpoint (Persistent unit RefTree) := mkCheckpoint ex_small (mkPos 1 64) 1025 1025 [].

Lemma ex_small_ok : pe_ok ex_small.
Proof.
  destruct demo_open_ok as [H1 H2 H3 _ _ H6 H7 H8 H9 _ H11 H12]. constructor; auto. constructor; cbn; try lia. constructor.
Qed.

Definition ex2_put : PutRecord := mkPut 3 8 [4; 5; 6].
Definition ex2_put_payload : list Z := match EncodePut ex2_put 100 with Ok p => p | Err _ => [] end.
Definition ex2_descriptor : Descriptor :=
  mkDescriptor DescriptorUserCommit 3 1 6 [mkMutation 7 (ex_addr 64 ex_size) 0 OperationPut ex_size; mkMutation 8 (ex_addr (64 + ex_size) ex_size) 0 OperationPut ex_size].
Definition ex2_group : list Descriptor := [ex2_descriptor].
Definition ex2_group_payload : list Z := match EncodeCommitGroup ex2_group 4096 with Ok p => p | Err _ => [] end.
Definition ex2_records : list LogRecord :=
  [(ex_result 64 ex_size, ex_put_payload); (ex_result (64 + ex_size) ex_size, ex2_put_payload); (ex_result 256 256, ex2_group_payload)].
Definition ex2_before : JState := js_append (js_append ex_start (ex_result 64 ex_size) ex_put_payload) (ex_result (64 + ex_size) ex_size) ex2_put_payload.
Definition ex2_end : JState := js_commit ex2_before (ex_result 256 256) ex2_group_payload ex2_group.
Definition ex2_log : ReplayLog := mkReplayLog (fun _ => (ex2_records, None))
  (fun addr => match js_store ex2_end !! addr with Some p => Ok p | None => Err [] end).

Lemma ex2_put_u : put_u ex2_put.
Proof. split; [|split]; unfold is_u64; [cbn; lia..|]. repeat constructor; cbn; lia. Qed.

Lemma ex2_descriptor_u : descriptor_u ex2_descriptor.
Proof.
  unfold descriptor_u, is_u8, is_u64. cbn [ex2_descriptor de_Kind de_BatchID de_CommitSeq de_LogicalPayloadBytes de_Mutations].
  do 4 (split; [vm_compute; intuition discriminate|]). constructor; [|constructor; [|constructor]];
  unfold mutation_u, is_u8, is_u32, is_u64; repeat split; vm_compute; congruence.
Qed.

Lemma ex2_journal : journal ex_config ex_start ex2_records ex2_end.
Proof.
  apply journal_record with (js1 := js_append ex_start (ex_result 64 ex_size) ex_put_payload).
  { apply J_put with (put := ex_put); [|exact ex_put_u|vm_compute; reflexivity..]. split; [|split; [|split]]; [vm_compute; reflexivity..|]. now left. }
  apply journal_record with (js1 := ex2_before).
  { apply J_put with (put := ex2_put); [|exact ex2_put_u|vm_compute; reflexivity..]. split; [|split; [|split]]; [vm_compute; reflexivity..|]. right. vm_compute. reflexivity. }
  apply journal_record with (js1 := ex2_end); [|constructor]. apply J_commit.
  - split; [|split; [|split]]; [vm_compute; reflexivity..|]. right. vm_compute. reflexivity.
  - vm_compute. reflexivity.
  - vm_compute. discriminate.
  - vm_compute. discriminate.
  - reflexivity.
  - vm_compute. reflexivity.
  - constructor; [|constructor]. split; [exact ex2_descriptor_u|]. split; [now left|]. split; [vm_compute; reflexivity|]. exists [3; 3]. split; [|reflexivity].
    constructor; [|constructor; [|constructor]]; (split; [vm_compute; reflexivity|]; split; [vm_compute; reflexivity|]); [exists ex_put|exists ex2_put]; (split; [|repeat split; vm_compute; reflexivity]);
      [exists ex_put_payload|exists ex2_put_payload]; (split; [vm_compute; reflexivity|]; split; [first [exact ex_put_u|exact ex2_put_u]|vm_compute; reflexivity]).
  - repeat constructor.
  - vm_compute. discriminate.
Qed.

Lemma recovery_total_and_exact_witness :
  (exists result, Recover ex_log ex_production ex_config = (rt_Mapping result, Ok result) /\
    recovered ex_production ex_end result /\ ix_room (rt_Mapping result) = Bounded {[7]} (2048 - 64) 0) /\
  (exists x, Recover ex2_log ex_small_checkpoint ex_config = (x, Err [base_ErrInvalidConfig; base_ErrBatchTooLarge]) /\
    ix_Covered x = 0 /\ ix_entries x = ∅ /\ ix_room x = Bounded ∅ 64 0).
Proof.
  split.
  - pose proof (recovery_total_and_exact (R := nat) ex_config ex_log ex_production ex_start ex_end ex_records) as H. assert (Ert : replay_room ex_config (ix_room (ck_Mapping ex_production)) (js_entries ex_start) ex_records = Some (Bounded {[7]} (2048 - 64) 0)) by (vm_compute; reflexivity). rewrite Ert in H. apply H.
    + repeat split.
    + constructor; try reflexivity; [split; [exact demo_open_ok|discriminate]|..]; apply (bool_decide_unpack _); vm_compute; exact I.
    + constructor; [|split|split]; cbn; try lia; reflexivity.
    + exact ex_journal.
    + reflexivity.
    + intros addr p E. cbn [ex_log lg_Read]. now rewrite E.
    + vm_compute. discriminate.
  - pose proof (recovery_total_and_exact (R := nat) ex_config ex2_log ex_small_checkpoint ex_start ex2_end ex2_records) as H. assert (Ert : replay_room ex_config (ix_room (ck_Mapping ex_small_checkpoint)) (js_entries ex_start) ex2_records = None) by (vm_compute; reflexivity). rewrite Ert in H.
    destruct H as (x & e & pre & rec & rest & mid & room & Er & _).
    + repeat split.
    + constructor; try reflexivity; [split; [exact ex_small_ok|discriminate]|..]; apply (bool_decide_unpack _); vm_compute; exact I.
    + constructor; [|split|split]; cbn; try lia; reflexivity.
    + exact ex2_journal.
    + reflexivity.
    + intros addr p E. cbn [ex2_log lg_Read]. now rewrite E.
    + vm_compute. discriminate.
    + exists x. assert (Ev : Recover ex2_log ex_small_checkpoint ex_config = (ex_small, Err [base_ErrInvalidConfig; base_ErrBatchTooLarge])) by (vm_compute; reflexivity). rewrite Ev in Er |- *. injection Er as <- _. split; [reflexivity|]. split; [reflexivity|]. split; vm_compute; reflexivity.
Defined.
