(* ===== verification/Recovery.v ===== *)
(** * Commit and recovery agree

    The coordinator and recovery compute the visible state by different routes:
    the coordinator resolves proposals with their conditions against the mapping
    it publishes to, recovery replays the descriptors of the accepted ones.  This
    file shows that they agree: the record of a committed group is a legal step
    of the [journal], and recovery from a log that ends with it rebuilds exactly
    the mapping the coordinator published.  If the record did not survive,
    recovery gives the state before the group.  The delta budget is no obstacle: what
    a store admitted under a limit it can replay under that limit ([replays]).

    It also models how [OpenStore] (internal/engine/open.go) configures recovery and checks
    the order of the statuses it returns. *)
From S2P Require Import Prelude Bytes Addr RecordFormat RecordCodec LogIface Mapping Budget IndexIface Batch Coordinator CoordinatorSched CoordinatorSpec TreeIface Persistent PersistentSpec Replay ReplaySpec.

(** ** How the store configures recovery *)

Record HardLimits := mkHardLimits
  { hl_MaxValueSize : Z; hl_MaxRecordLogPayload : Z; hl_IDReserveSize : Z; hl_BatchIDReserveSize : Z }.

Definition replay_config (hard : HardLimits) (statusRetention : Z) : RConfig :=
  mkRConfig (hl_MaxValueSize hard) (hl_MaxRecordLogPayload hard)
    (hl_MaxRecordLogPayload hard / DescriptorHeadSize) (hl_MaxRecordLogPayload hard / MutationSize)
    (hl_IDReserveSize hard) (hl_BatchIDReserveSize hard) statusRetention.

(** The loop over [StatusOrder]: every id has a status and none occurs twice. *)
Fixpoint status_order_ok (statuses : gmap Z BatchStatus) (ordered : gset Z) (order : list Z) : bool :=
  match order with
  | [] => true
  | id :: rest =>
      bool_decide (is_Some (statuses !! id)) && negb (bool_decide (id ∈ ordered)) &&
      status_order_ok statuses ({[id]} ∪ ordered) rest
  end.

Definition check_status_order {X} (r : Result X) : bool :=
  (len (rt_StatusOrder r) =? Z.of_nat (size (rt_Statuses r))) && status_order_ok (rt_Statuses r) ∅ (rt_StatusOrder r).

Lemma status_order_ok_intro statuses order : forall ordered,
  NoDup order -> Forall (fun id => is_Some (statuses !! id) /\ id ∉ ordered) order -> status_order_ok statuses ordered order = true.
Proof.
  induction order as [|id order IH]; intros ordered Hnd Hall; [reflexivity|]. apply NoDup_cons in Hnd as [Hni Hnd].
  apply Forall_cons_iff in Hall as [[Hs Hn] Hall]. cbn [status_order_ok].
  rewrite bool_decide_eq_true_2, bool_decide_eq_false_2 by assumption. cbn [andb negb]. apply IH; [exact Hnd|].
  apply Forall_forall. intros i Hi. rewrite Forall_forall in Hall. destruct (Hall i Hi) as [Hsi Hii]. split; [exact Hsi|].
  rewrite not_elem_of_union, not_elem_of_singleton. split; [congruence|exact Hii].
Qed.

Lemma check_status_order_ok {X R} `{!Index X R} `{!IndexLaws X R} (ck : Checkpoint X) js r :
  recovered ck js r -> check_status_order r = true.
Proof.
  intros H. pose proof (rd_order_nodup _ _ _ H) as Hnd. pose proof (rd_order _ _ _ H) as Ho.
  unfold check_status_order. apply andb_true_iff. split.
  - apply Z.eqb_eq. rewrite <- size_dom, <- Ho, size_list_to_set by exact Hnd. reflexivity.
  - apply status_order_ok_intro; [exact Hnd|]. apply Forall_forall. intros id Hid. split; [|apply not_elem_of_empty].
    apply elem_of_dom. rewrite <- Ho. now apply elem_of_list_to_set.
Qed.

(** ** Descriptors and proposals *)

(** A proposal without its conditions. *)
Definition unconditional (p : Proposal) : Proposal := mkProposal (pr_Kind p) [] (pr_Changes p).

Lemma spec_unconditional S p : spec_accepts S p = true -> spec_proposal S (unconditional p) = spec_proposal S p.
Proof. intros Ha. unfold spec_proposal. rewrite Ha. reflexivity. Qed.

(** ** What was admitted can be replayed *)

(** Replay has charged no more than the running store, and at least the ids of its
    active delta: they are charged since the same checkpoint, and the running store may
    have frozen a part of them meanwhile. *)
Definition replays (live replayed : DeltaRoom) : Prop :=
  match live, replayed with
  | Unlimited, Unlimited => True
  | Bounded ids avail _, Bounded ids' avail' held' => ids ⊆ ids' /\ avail <= avail' /\ held' = 0
  | _, _ => False
  end.

Lemma replays_need live replayed ids : replays live replayed -> need replayed ids <= need live ids.
Proof.
  destruct live as [|a av h], replayed as [|a' av' h']; cbn; [lia|tauto|tauto|]. intros (Hs & _). assert (size (list_to_set ids ∖ a' : gset Z) <= size (list_to_set ids ∖ a : gset Z))%nat by (apply subseteq_size; set_solver). unfold deltaEntryCharge. lia.
Qed.

(** It is kept by what the running store does with its mapping: by reservations and
    their release ... *)
Lemma replays_hold live replayed n : replays live replayed -> replays (hold live n) replayed.
Proof. destruct live, replayed; cbn; tauto. Qed.

(** ... and by a group that is published and replayed. *)
Lemma replays_charge live replayed touched : replays live replayed -> replays (charge_ids live touched) (charge_ids replayed touched).
Proof.
  destruct live as [|a av h], replayed as [|a' av' h']; cbn; [tauto..|]. intros (Hs & Hle & ->). split; [set_solver|]. split; [|reflexivity]. assert (size (touched ∖ a') <= size (touched ∖ a))%nat by (apply subseteq_size; set_solver). unfold deltaEntryCharge. lia.
Qed.

(** It holds of two mappings that were opened with the same limit, and a checkpoint that
    freezes the active delta of the running one keeps it. *)
Lemma replays_opened {N T} `{!TreeStore N T} `{!TreeLaws N T} (nodes nodes' : N) (root root' : T) config state state' (m m' : Persistent N T) :
  OpenPersistent nodes root config state = Ok m -> OpenPersistent nodes' root' config state' = Ok m' -> replays (ix_room m) (ix_room m').
Proof. intros E E'. destruct (opened_room _ _ _ _ _ E) as [-> _], (opened_room _ _ _ _ _ E') as [-> _]. cbn. auto with lia. Qed.

Lemma replays_freeze {N T} `{!TreeStore N T} `{!TreeLaws N T} (m : Persistent N T) expected m' fc room : Freeze m expected = (m', Ok fc) -> replays (ix_room m) room -> replays (ix_room m') room.
Proof.
  unfold Freeze. destruct (_ || _); [discriminate|]. destruct (_ =? _); [discriminate|]. intros [= <- _]. destruct room as [|ids avail held]; cbn; [tauto|]. intros (_ & Ha & Hh). split; [set_solver|]. auto.
Qed.

Section Agree.
Context {L : Type} `{!AppendLog L} `{!AppendLogLaws L} {X R : Type} `{!Index X R} `{!IndexLaws X R} `{!IndexRoom X R}.
Implicit Types (req : request R) (active : list (request R)).

Lemma user_change_op m : change_ok ProposalUserCommit (bm_change m) = true -> bm_Operation m = OpPut \/ bm_Operation m = OpDelete.
Proof.
  unfold change_ok, bm_change. cbn [ch_ExpectedOldAddr ch_Operation ch_NewRef].
  change (ProposalUserCommit =? ProposalUserCommit) with true. cbv iota. intros Hc.
  apply negb_true_iff, orb_false_iff in Hc as [_ Hop].
  destruct (bm_Operation m =? OpPut) eqn:E; bool_norm; [auto|]. cbn [negb andb] in Hop. bool_norm. auto.
Qed.

Lemma relocation_change_op c : change_ok ProposalRelocation c = true -> ch_Operation c = OpRelocate.
Proof.
  unfold change_ok. change (ProposalRelocation =? ProposalUserCommit) with false.
  change (ProposalRelocation =? ProposalRelocation) with true. cbv iota. intros Hc. apply negb_true_iff in Hc. now bool_norm.
Qed.

(** Recovery reads back from a descriptor the proposal it was made from. *)
Lemma descriptor_proposal_request req seq : commit_ok req ->
  descriptor_proposal (requestDescriptor req seq) = unconditional (requestProposal req).
Proof.
  intros (Hv & _ & Hb). apply validateProposal_facts in Hv as (_ & Hall & _).
  unfold requestDescriptor, requestProposal, descriptor_proposal, unconditional in *.
  destruct (rq_body req) as [h p r|rl r g| |]; try contradiction; cbn -[bm_change] in *; f_equal; rewrite map_map.
  - rewrite Forall_map in Hall. apply map_ext_Forall. eapply Forall_impl; [exact Hall|]. cbn beta. intros m (_ & Hc & _).
    apply user_change_op in Hc. unfold mutation_change, mutation_op, bm_change. cbn.
    destruct (bm_Ref m), Hc as [-> | ->]; reflexivity.
  - rewrite <- (map_id (rl_Changes rl)) at 2. apply map_ext_Forall. eapply Forall_impl; [exact Hall|]. cbn beta.
    intros c (_ & Hc & _). apply relocation_change_op in Hc. unfold mutation_change, mutation_op. cbn.
    destruct c as [id [a s] old op]; cbn in *. now subst.
Qed.

Lemma descriptors_proposals reqs : forall next, Forall commit_ok reqs ->
  map descriptor_proposal (descriptors next reqs) = map (fun req => unconditional (requestProposal req)) reqs.
Proof.
  induction reqs as [|req reqs IH]; intros next Hc; [reflexivity|]. apply Forall_cons_iff in Hc as [Hr Hc].
  cbn [descriptors map]. now rewrite descriptor_proposal_request, IH.
Qed.

(** Replaying the accepted proposals without conditions is replaying all of
    them with their conditions. *)
Lemma spec_group_select active : forall S,
  spec_group S (map (fun req => unconditional (requestProposal req)) (select active (spec_flags S (map requestProposal active)))) =
  spec_group S (map requestProposal active).
Proof.
  induction active as [|req active IH]; intros S; [reflexivity|]. cbn [map spec_flags select].
  unfold spec_group in *. cbn [foldl].
  destruct (spec_accepts S (requestProposal req)) eqn:Ha; cbn [map foldl].
  - rewrite spec_unconditional by exact Ha. apply IH.
  - assert (E : spec_proposal S (requestProposal req) = S) by (unfold spec_proposal; now rewrite Ha).
    rewrite E. apply IH.
Qed.

Lemma select_bytes active : Forall commit_ok active -> forall flags,
  group_bytes (map (fun req => unconditional (requestProposal req)) (select active flags)) <= group_bytes (map requestProposal active).
Proof.
  induction 1 as [|req active (Hv & _) _ IH]; intros [|f flags]; cbn [map select]; [unfold group_bytes; cbn; lia..| |].
  - unfold group_bytes in *. cbn [foldr]. specialize (IH []). destruct active; cbn in *; apply proposal_bytes_nonneg in Hv as [_ Hv]; lia.
  - specialize (IH flags). unfold group_bytes in *. apply proposal_bytes_nonneg in Hv as [_ Hv].
    destruct f; cbn [map foldr]; [change (proposal_bytes (unconditional (requestProposal req))) with (proposal_bytes (requestProposal req))|]; lia.
Qed.

(** ** The record of a committed group *)

(** The descriptors the coordinator writes for a group. *)
Definition written (w : World L X) (group : list (request R)) : list Descriptor :=
  descriptors (c_next (w_coord w))
    (select (active_of w group) (spec_flags (ix_entries (w_index w)) (proposals_of w group))).

Lemma group_within_limits ds maxp payload limit : EncodeCommitGroup ds maxp = Ok payload -> maxp <= limit ->
  EncodeCommitGroup ds limit = Ok payload /\ len ds <= limit / 40 /\ totalMutations ds <= limit / 32.
Proof.
  intros He Hle. pose proof (EncodeCommitGroup_layout _ _ _ He) as (_ & Hp & _). cbv zeta in Hp.
  assert (Hb : 40 * len ds + 32 * totalMutations ds <= len (concat (map encodeDescriptor ds))).
  { clear. unfold totalMutations. induction ds as [|d ds IH]; [reflexivity|].
    cbn [map concat foldr]. rewrite len_app, len_encodeDescriptor, len_cons. lia. }
  pose proof (totalMutations_nonneg ds). pose proof (len_nonneg ds).
  split; [|split; apply Z.div_le_lower_bound; lia].
  unfold EncodeCommitGroup in *. destruct (CommitGroupPayloadSize ds) as [total|] eqn:Et; [|discriminate].
  destruct (maxp <? total) eqn:E; [discriminate|]. bool_norm. replace (limit <? total) with false by (symmetry; apply Z.ltb_ge; lia).
  exact He.
Qed.

(** A group the coordinator is about to write at [r], when the log and the
    records before it are described by [js].  [cx_backed] is what the batches and
    relocations of the group guarantee: their data is in the log before it. *)
Record commit_context (hard : HardLimits) (retention : Z) (config : Config) (w : World L X) (group : list (request R))
    (js : JState) (r : AppendResult) (payload : list Z) : Prop := mkContext {
  cx_pre : process_pre config w group;
  cx_limit : MaxGroupPayload config <= hl_MaxRecordLogPayload hard;
  cx_entries : js_entries js = ix_entries (w_index w);
  cx_covered : js_covered js = ix_Covered (w_index w);
  cx_accepted : accepted_of (spec_flags (ix_entries (w_index w)) (proposals_of w group)) <> 0;
  cx_sequences : c_next (w_coord w) + accepted_of (spec_flags (ix_entries (w_index w)) (proposals_of w group)) <= MaxUint64;
  cx_payload : EncodeCommitGroup (written w group) (MaxGroupPayload config) = Ok payload;
  cx_fresh : fresh_address js (ar_Addr r);
  cx_backed : Forall (descriptor_backed (replay_config hard retention) js (ar_Addr r)) (written w group);
  cx_free : Forall (fun d => is_user d = true -> js_statuses js !! de_BatchID d = None) (written w group);
}.

Lemma written_facts hard retention config w group js r payload :
  commit_context hard retention config w group js r payload ->
  js_entries (js_commit js r payload (written w group)) = spec_group (ix_entries (w_index w)) (proposals_of w group) /\
  js_covered (js_commit js r payload (written w group)) =
    ix_Covered (w_index w) + accepted_of (spec_flags (ix_entries (w_index w)) (proposals_of w group)) /\
  total_bytes (js_entries js) + group_bytes (map descriptor_proposal (written w group)) <= MaxUint64.
Proof.
  intros [Hpre Hlim He Hc Ha Hs Hp Hf Hb Hfr]. destruct (active_ready config w group Hpre) as (Hg & _ & _ & Hlen).
  pose proof (gr_commits _ _ _ Hg) as Hcs. unfold written.
  set (flags := spec_flags (ix_entries (w_index w)) (proposals_of w group)) in *.
  assert (Hsel : Forall commit_ok (select (active_of w group) flags)) by now apply select_forall.
  assert (Hfl : length flags = length (active_of w group)).
  { unfold flags, proposals_of. now rewrite spec_flags_length, length_map. }
  cbn [js_commit js_entries js_covered]. rewrite descriptors_proposals, descriptors_length, select_len by assumption.
  split; [rewrite He; apply spec_group_select|]. split; [now rewrite Hc|].
  pose proof (select_bytes (active_of w group) Hcs flags). pose proof (pp_bytes _ _ _ Hpre) as Hbt.
  unfold proposals_of in Hbt. rewrite He. lia.
Qed.

(** The record is a step of the journal. *)
Lemma commit_step hard retention config w group js r payload :
  commit_context hard retention config w group js r payload ->
  journal_step (replay_config hard retention) js (r, payload) (js_commit js r payload (written w group)).
Proof.
  intros Hcx. destruct (written_facts _ _ _ _ _ _ _ _ Hcx) as (_ & Hcov & Hbytes).
  destruct Hcx as [Hpre Hlim He Hc Ha Hs Hp Hf Hb Hfr].
  destruct (pp_coord _ _ _ Hpre) as (Hn & _ & _).
  destruct (group_within_limits _ _ _ _ Hp Hlim) as (Hp' & Hld & Hlm).
  pose proof (EncodeCommitGroup_layout _ _ _ Hp) as (_ & _ & _ & _ & Hlen & _ & _).
  apply J_commit; auto.
  - unfold written. rewrite first_descriptor; [lia| |].
    + intros E. unfold written in Hlen. rewrite E in Hlen. unfold len in Hlen. cbn in Hlen. lia.
    + apply select_forall. apply (gr_commits _ _ _ (proj1 (active_ready _ _ _ Hpre))).
  - cbn [js_commit js_covered] in Hcov. lia.
Qed.

Lemma commit_statuses_other ds id : ~ In id (map de_BatchID ds) -> forall js, commit_statuses ds js !! id = js !! id.
Proof.
  induction ds as [|d ds IH]; intros Hn js; [reflexivity|]. cbn in Hn. rewrite commit_statuses_cons, IH by tauto.
  destruct (is_user d); [|reflexivity]. apply lookup_insert_ne. tauto.
Qed.

Lemma commit_statuses_lookup ds : NoDup (map de_BatchID ds) -> forall js,
  Forall (fun d => is_user d = true -> commit_statuses ds js !! de_BatchID d = Some (mkStatus BatchCommitted (de_CommitSeq d))) ds.
Proof.
  induction ds as [|d ds IH]; intros Hnd js; [constructor|]. cbn in Hnd. apply NoDup_cons in Hnd as [Hni Hnd].
  rewrite commit_statuses_cons. constructor; [|now apply IH]. intros ->.
  rewrite commit_statuses_other by (rewrite <- list_elem_of_In; exact Hni). apply lookup_insert_eq.
Qed.

Lemma written_nodup hard retention config w group js r payload :
  commit_context hard retention config w group js r payload -> NoDup (map de_BatchID (written w group)).
Proof.
  intros Hcx. destruct (EncodeCommitGroup_layout _ _ _ (cx_payload _ _ _ _ _ _ _ _ Hcx)) as (_ & _ & _ & Hv & _).
  apply andb_true_iff in Hv as [_ Hv]. now apply validateDescriptors_seqs in Hv as (_ & ? & _).
Qed.

Lemma journal_snoc config js0 recs js rec js' : journal config js0 recs js -> journal_step config js rec js' ->
  journal config js0 (recs ++ [rec]) js'.
Proof.
  induction 1 as [js|js rec1 js1 recs js2 Hs _ IH|js addr payload recs js2 Ha Hn _ IH]; intros Hstep; cbn [app].
  - eapply journal_record; [exact Hstep|constructor].
  - eapply journal_record; [exact Hs|auto].
  - eapply journal_compaction; [exact Ha|exact Hn|auto].
Qed.

Lemma written_decodes hard retention config w group js r payload :
  commit_context hard retention config w group js r payload -> group_of (replay_config hard retention) payload = Some (written w group).
Proof.
  intros [Hpre Hlim He Hc Ha Hs Hp Hf Hb Hfr]. destruct (group_within_limits _ _ _ _ Hp Hlim) as (Hp' & Hld & Hlm). assert (Hdu : Forall descriptor_u (written w group)) by (eapply Forall_impl; [exact Hb|now intros d (? & _)]).
  unfold group_of. destruct (DecodeCommitGroup_encoded (written w group) _ _ _ payload Hdu Hld Hlm Hp') as [Ed ->]. rewrite Z.eqb_refl. cbn [replay_config rc_MaxRecordPayload rc_MaxGroupDescriptors rc_MaxGroupMutations]. unfold DescriptorHeadSize, MutationSize. now rewrite Ed.
Qed.

Lemma select_need room active : forall flags, need_all room (map changed_ids (map requestProposal (select active flags))) <= need_all room (map changed_ids (map requestProposal active)).
Proof.
  induction active as [|req active IH]; intros [|f flags]; cbn [select map]; try apply need_all_nonneg. specialize (IH flags). pose proof (need_nonneg room (changed_ids (requestProposal req))). unfold need_all in *. destruct f; cbn [map foldr]; lia.
Qed.

Lemma replays_need_all live replayed idss : replays live replayed -> need_all replayed idss <= need_all live idss.
Proof. intros H. unfold need_all. induction idss as [|ids idss IH]; cbn [foldr]; [lia|]. pose proof (replays_need live replayed ids H). lia. Qed.

Lemma group_ids_changed ds : group_ids ds = map changed_ids (map descriptor_proposal ds).
Proof. unfold group_ids. rewrite map_map. apply map_ext. intros d. unfold changed_ids, descriptor_proposal. cbn [pr_Changes]. now rewrite map_map. Qed.

(** The group that the coordinator writes fits where it is replayed. *)
Lemma written_fits hard retention config w group js r payload room : commit_context hard retention config w group js r payload -> replays (ix_room (w_index w)) room ->
  admits room (need_all room (group_ids (written w group))) = true.
Proof.
  intros [Hpre _ _ _ _ _ _ _ _ _] Hr. destruct (active_ready config w group Hpre) as (Hg & _). assert (Hc : Forall commit_ok (select (active_of w group) (spec_flags (ix_entries (w_index w)) (proposals_of w group)))) by apply select_forall, (gr_commits _ _ _ Hg).
  pose proof (reserves_covers _ _ _ Hg) as Hcov. apply (proj2 (Forall2_map_r _ changed_ids _ _)) in Hcov. pose proof (ix_room_covered _ _ _ (pp_index _ _ _ Hpre) Hcov (gr_sep _ _ _ Hg)) as Hle.
  rewrite group_ids_changed. unfold written. rewrite descriptors_proposals by exact Hc. rewrite map_map. change (fun x => changed_ids (unconditional (requestProposal x))) with (fun x : request R => changed_ids (requestProposal x)). rewrite <- map_map.
  pose proof (replays_need_all _ _ (map changed_ids (map requestProposal (active_of w group))) Hr) as H1. pose proof (select_need room (active_of w group) (spec_flags (ix_entries (w_index w)) (proposals_of w group))) as H2.
  destruct (ix_room (w_index w)) as [|a av h], room as [|a' av' h']; cbn [replays] in Hr; [reflexivity|contradiction|contradiction|]. destruct Hr as (_ & Hav & ->). unfold admits. apply Z.leb_le. lia.
Qed.

Lemma replay_room_snoc rconfig js0 recs js room rec : sizes_ok rconfig -> js_wf rconfig js0 -> journal rconfig js0 recs js ->
  replay_room rconfig room (js_entries js0) (recs ++ [rec]) = match replay_room rconfig room (js_entries js0) recs with Some room' => replay_room rconfig room' (js_entries js) [rec] | None => None end.
Proof.
  intros Hsz Hwf Hj. revert room. induction Hj as [js|js rec1 js1 recs js2 Hs _ IH|js addr payload recs js2 Ha Hn _ IH]; intros room.
  - reflexivity.
  - rewrite <- app_comm_cons, (replay_room_cons _ _ _ _ _ (recs ++ [rec]) Hsz Hwf Hs), (replay_room_cons _ _ _ _ _ recs Hsz Hwf Hs). destruct (replay_room rconfig room (js_entries js) [rec1]); [|reflexivity]. apply IH. exact (journal_step_wf _ _ _ _ Hsz Hs Hwf).
  - apply IH. destruct Hwf. now constructor.
Qed.
End Agree.

(** C1: commit and recovery agree.  The coordinator processes a group over a
    store whose log since the checkpoint is the journal [recs], of which the groups fit
    the delta budget of the mapping that recovery opens; the running mapping has no
    more room left than that one after them ([replays], as it is when both were opened
    with the same limit).  If the group's
    record survives at the end of the log, recovery succeeds, passes the status
    check of [OpenStore], shows the state after the whole group, and reports
    every batch of it as committed with its sequence number; when the append
    succeeded this is exactly the state the coordinator published.  If the record
    did not survive, recovery succeeds with the state before the group.  So a
    group is atomic across a crash, an acknowledged one is never lost, and what was
    admitted never makes the store fail to open. *)
Theorem commit_recovery_agree {L : Type} `{!AppendLog L} `{!AppendLogLaws L} {X R : Type} `{!Index X R} `{!IndexLaws X R} `{!IndexRoom X R}
    hard retention config (w : World L X) (group : list (request R)) js0 recs js r payload
    (log : ReplayLog) (ck : Checkpoint X) room :
  let rconfig := replay_config hard retention in
  let js' := js_commit js r payload (written w group) in
  commit_context hard retention config w group js r payload ->
  config_ok rconfig -> checkpoint_of ck js0 -> js_wf rconfig js0 -> journal rconfig js0 recs js ->
  replay_room rconfig (ix_room (ck_Mapping ck)) (js_entries js0) recs = Some room -> replays (ix_room (w_index w)) room ->
  readable log js' -> Z.of_nat (size (js_statuses js' ∪ aborted (ck_OpenBatchIDs ck))) <= retention ->
  (lg_Scan log (ck_ReplayStart ck) = (recs ++ [(r, payload)], None) ->
   exists result, Recover log ck rconfig = (rt_Mapping result, Ok result) /\ check_status_order result = true /\
     ix_entries (rt_Mapping result) = spec_group (ix_entries (w_index w)) (proposals_of w group) /\
     Forall (fun d => is_user d = true ->
       rt_Statuses result !! de_BatchID d = Some (mkStatus BatchCommitted (de_CommitSeq d))) (written w group) /\
     forall l', log_append (w_log w) payload true = (l', Ok r) ->
       ix_entries (rt_Mapping result) = ix_entries (w_index (process config w group)) /\
       ix_Covered (rt_Mapping result) = ix_Covered (w_index (process config w group)) /\
       rt_NextCommitSeq result = c_next (w_coord (process config w group))) /\
  (lg_Scan log (ck_ReplayStart ck) = (recs, None) ->
   exists result, Recover log ck rconfig = (rt_Mapping result, Ok result) /\ check_status_order result = true /\
     ix_entries (rt_Mapping result) = ix_entries (w_index w) /\ ix_Covered (rt_Mapping result) = ix_Covered (w_index w)).
Proof.
  intros rconfig js' Hcx Hcfg Hck Hwf Hj Hroom Hlive Hread Hcap. pose proof (commit_step _ _ _ _ _ _ _ _ Hcx) as Hstep.
  destruct (written_facts _ _ _ _ _ _ _ _ Hcx) as (He & Hc & _). fold js' in He, Hc. split; intros Hscan.
  - pose proof (Recover_ok rconfig log ck js0 _ js' Hcfg Hck Hwf (journal_snoc _ _ _ _ _ _ Hj Hstep) Hscan Hread Hcap) as Hrec.
    assert (Hsz : sizes_ok rconfig) by (destruct Hcfg as (_ & _ & _ & _ & ? & ? & _); now split). rewrite (replay_room_snoc rconfig js0 recs js _ _ Hsz Hwf Hj), Hroom in Hrec. cbn [replay_room] in Hrec. pose proof (written_decodes _ _ _ _ _ _ _ _ Hcx) as Ed. fold rconfig in Ed. rewrite Ed, (written_fits _ _ _ _ _ _ _ _ room Hcx Hlive) in Hrec.
    destruct Hrec as (result & Er & Hr & _). pose proof (check_status_order_ok _ _ _ Hr) as Hso. destruct Hr as [R1 R2 R3 R4 R5 R6 R7 R8 R9 R10].
    exists result. split; [exact Er|]. split; [exact Hso|]. split; [now rewrite R2|]. split.
    + eapply Forall_impl; [exact (commit_statuses_lookup _ (written_nodup _ _ _ _ _ _ _ _ Hcx) (js_statuses js))|].
      cbn. intros d Hd Hu. rewrite R7. now apply lookup_union_Some_l, Hd.
    + intros l' Hl. destruct Hcx as [Hpre Hlim Hxe Hxc Ha Hs Hp Hf Hb Hfr].
      destruct (process_spec config w group Hpre) as (_ & _ & Hok). destruct (Hok Ha Hs) as (payload' & Ep & Hm).
      fold (written w group) in Ep. rewrite Hp in Ep. apply Ok_inj in Ep as <-. rewrite Hl in Hm.
      destruct Hm as [_ _ (Hn & _) _ Hme Hmc _]. rewrite R2, R3, R4, Hn, He, Hc, Hme, Hmc. auto.
  - pose proof (Recover_ok rconfig log ck js0 recs js Hcfg Hck Hwf Hj Hscan) as Hrec. rewrite Hroom in Hrec. destruct Hrec as (result & Er & Hr & _).
    + eapply readable_before; [|exact Hread]. apply (journal_step_store _ _ _ _ Hstep).
    + pose proof (union_size_mono (js_statuses js) (js_statuses js') (aborted (ck_OpenBatchIDs ck))
        (journal_step_statuses _ _ _ _ Hstep)). cbn. lia.
    + pose proof (check_status_order_ok _ _ _ Hr) as Hso. destruct Hr as [R1 R2 R3 R4 R5 R6 R7 R8 R9 R10].
      exists result. destruct Hcx as [Hpre Hlim Hxe Hxc Ha Hs Hp Hf Hb Hfr]. split; [exact Er|]. split; [exact Hso|].
      rewrite R2, R3. auto.
Qed.

(** ** A concrete group: one batch stores record 7 *)

Definition one_prepared : Prepared :=
  mkPrepared 3 [mkBMutation 7 OpPut (mkRef (ex_addr 64 ex_size) ex_size) 3] [mkCondition 7 0] 3.
Definition one_group : list (request nat) := [mkRequest 10 (User 1 one_prepared 0%nat)].

(** The mapping of the running store, opened by the store, with the reservation. *)
Definition one_index : Persistent unit RefTree := (Persistent.ReserveDelta demo_open [7]).1.
Definition one_world : World MemLog (Persistent unit RefTree) :=
  mkWorld (mkCoordinator 1 None false ∅ 0) (emptyLog []) one_index {[1 := race_batch 3]} [].

Lemma one_index_ok : pe_ok one_index /\ covers one_index 0 [7].
Proof.
  destruct (Persistent.ReserveDelta demo_open [7]) as [m' [r g]] eqn:E. pose proof (reserve_ok demo_open [7] m' r g demo_open_ok E) as (Hm & _ & _ & _ & Hr).
  assert (Em : m' = one_index) by (unfold one_index; now rewrite E). subst m'. assert (Er : r = Ok 0%nat) by (transitivity (Persistent.ReserveDelta demo_open [7]).2.1; [now rewrite E|vm_compute; reflexivity]). subst r. split; [exact Hm|apply Hr].
Qed.

Definition one_hard : HardLimits := mkHardLimits 100 4096 1024 1024.
Definition one_config : RConfig := replay_config one_hard 16.
Definition one_js : JState := js_append ex_start (ex_result 64 ex_size) ex_put_payload.
Definition one_recs : list LogRecord := [(ex_result 64 ex_size, ex_put_payload)].

Lemma one_ready : process_pre example_config one_world one_group.
Proof.
  constructor.
  - apply one_index_ok.
  - split; [reflexivity|]. split; [vm_compute; reflexivity|]. intros old new. cbn. rewrite lookup_empty. discriminate.
  - reflexivity.
  - discriminate.
  - constructor.
    + apply Forall_cons_iff; split; [|constructor].
      split; [vm_compute; reflexivity|]. split; [vm_compute; reflexivity|].
      split; [unfold is_u64; cbn; lia|]. split; [discriminate|]. split; [unfold is_u64; cbn; lia|].
      split; [constructor; [|constructor]; unfold ref_u, is_u64, is_u32; repeat split; vm_compute; congruence|].
      constructor; [|constructor]. unfold is_u64. cbn. lia.
    + apply Forall_cons_iff; split; [|constructor]. eexists; split; vm_compute; reflexivity.
    + constructor; [|constructor]. exact (proj2 one_index_ok).
    + repeat constructor.
    + apply (bool_decide_unpack _). vm_compute. exact I.
    + apply (bool_decide_unpack _). vm_compute. exact I.
  - vm_compute. discriminate.
  - vm_compute. discriminate.
  - vm_compute. discriminate.
  - vm_compute. discriminate.
Qed.

Lemma one_written : written one_world one_group = ex_group.
Proof. vm_compute. reflexivity. Qed.

Lemma one_context : commit_context one_hard 16 example_config one_world one_group one_js (ex_result 192 256) ex_group_payload.
Proof.
  constructor; try rewrite one_written.
  - exact one_ready.
  - vm_compute. discriminate.
  - reflexivity.
  - reflexivity.
  - vm_compute. discriminate.
  - vm_compute. discriminate.
  - vm_compute. reflexivity.
  - split; [|split; [|split]]; [vm_compute; reflexivity..|]. right. vm_compute. reflexivity.
  - constructor; [|constructor]. split; [exact ex_descriptor_u|]. split; [now left|]. split; [vm_compute; reflexivity|].
    exists [3]. split; [|reflexivity]. constructor; [|constructor]. split; [vm_compute; reflexivity|].
    split; [vm_compute; reflexivity|]. exists ex_put. split; [|repeat split; vm_compute; reflexivity].
    exists ex_put_payload. split; [vm_compute; reflexivity|]. split; [exact ex_put_u|vm_compute; reflexivity].
  - repeat constructor.
Qed.

Lemma one_journal : journal one_config ex_start one_recs one_js.
Proof.
  apply journal_record with (js1 := one_js); [|constructor].
  apply J_put with (put := ex_put); [|exact ex_put_u|vm_compute; reflexivity..].
  split; [|split; [|split]]; [vm_compute; reflexivity..|]. now left.
Qed.

Lemma commit_recovery_agree_witness :
  exists result, Recover ex_log ex_production one_config = (rt_Mapping result, Ok result) /\
    visible (rt_Mapping result) = {[7 := mkRef (ex_addr 64 ex_size) ex_size]}.
Proof.
  destruct (commit_recovery_agree (R := nat) one_hard 16 example_config one_world one_group ex_start one_recs one_js
    (ex_result 192 256) ex_group_payload ex_log ex_production (Bounded ∅ 2048 0) one_context) as [H _].
  - repeat split.
  - constructor; try reflexivity; [split; [exact demo_open_ok|discriminate]|..]; apply (bool_decide_unpack _); vm_compute; exact I.
  - constructor; [|split|split]; cbn; try lia; reflexivity.
  - exact one_journal.
  - vm_compute. reflexivity.
  - assert (Er : ix_room (w_index one_world) = Bounded ∅ 2048 64) by (vm_compute; reflexivity). rewrite Er. split; [reflexivity|]. split; [lia|reflexivity].
  - intros addr p E. cbn [ex_log lg_Read]. rewrite one_written in E. change (js_store (js_commit one_js _ _ _)) with (js_store ex_end) in E.
    now rewrite E.
  - rewrite one_written. vm_compute. discriminate.
  - destruct (H eq_refl) as (result & E & _ & He & _). exists result. split; [exact E|]. change (ix_entries (rt_Mapping result)) with (visible (rt_Mapping result)) in He. rewrite He.
    vm_compute. reflexivity.
Defined.
