(* ===== verification/CheckpointSpec.v ===== *)
(** * Checkpoints of the persistent mapping

    A checkpoint freezes the delta layers, folds them into a new immutable tree
    while commits go on, and installs that tree.  The visible entries never
    change, the new tree holds exactly the entries at the cut, and the budget
    gets back exactly the charge of the folded layers. *)
From S2P Require Import Prelude Addr Mapping Budget IndexIface TreeIface Persistent PersistentSpec.

(** ** Folding the layers: stable sort, then the last of each run *)

Definition with_id (id : Z) (l : list TMutation) : list TMutation := List.filter (fun m => tm_ID m =? id) l.
Definition id_sorted (l : list TMutation) : Prop := StronglySorted (fun a b => tm_ID a <= tm_ID b) l.

Lemma with_id_app id l k : with_id id (l ++ k) = with_id id l ++ with_id id k.
Proof. apply List.filter_app. Qed.

Lemma with_id_above id l : Forall (fun m => id < tm_ID m) l -> with_id id l = [].
Proof.
  induction 1 as [|m l Hm _ IH]; [reflexivity|]. unfold with_id in *. cbn [List.filter].
  replace (tm_ID m =? id) with false by (symmetry; apply Z.eqb_neq; lia). exact IH.
Qed.

Lemma insert_stable_spec m l : id_sorted l ->
  id_sorted (insert_stable m l) /\ insert_stable m l ≡ₚ m :: l /\
  forall id, with_id id (insert_stable m l) = with_id id (l ++ [m]).
Proof.
  induction l as [|x l IH]; intros Hs; cbn [insert_stable]; [split; [repeat constructor|split; reflexivity]|].
  inversion Hs as [|? ? Hl Hx]; subst. destruct (tm_ID x <=? tm_ID m) eqn:E; bool_norm.
  - destruct (IH Hl) as (Hs' & Hp & Hf). split; [|split].
    + constructor; [exact Hs'|]. rewrite Hp. constructor; assumption.
    + rewrite Hp. constructor.
    + intros id. cbn [app]. unfold with_id in *. cbn [List.filter]. now rewrite Hf.
  - split; [|split; [reflexivity|]].
    + constructor; [exact Hs|]. constructor; [lia|]. eapply Forall_impl; [exact Hx|]. cbn. intros; lia.
    + intros id. rewrite with_id_app. unfold with_id at 1. cbn [List.filter]. fold (with_id id l).
      change (with_id id [m]) with (if tm_ID m =? id then [m] else []). destruct (tm_ID m =? id) eqn:Em.
      * bool_norm. subst id. change (if tm_ID x =? tm_ID m then x :: with_id (tm_ID m) l else with_id (tm_ID m) l) with (with_id (tm_ID m) (x :: l)).
        rewrite with_id_above; [reflexivity|]. constructor; [lia|]. eapply Forall_impl; [exact Hx|]. cbn. intros; lia.
      * rewrite app_nil_r. reflexivity.
Qed.

Lemma sort_stable_spec l : id_sorted (sort_stable l) /\ sort_stable l ≡ₚ l /\ forall id, with_id id (sort_stable l) = with_id id l.
Proof.
  unfold sort_stable. induction l as [|m l IH] using rev_ind; [split; [constructor|split; reflexivity]|].
  rewrite foldl_app. cbn [foldl]. destruct IH as (Hs & Hp & Hf). destruct (insert_stable_spec m _ Hs) as (Hs' & Hp' & Hf').
  split; [exact Hs'|]. split; [rewrite Hp', Hp; apply Permutation_cons_append|].
  intros id. now rewrite Hf', !with_id_app, Hf.
Qed.

Lemma find_id_cons id m l : List.find (fun x => tm_ID x =? id) (m :: l) =
  if tm_ID m =? id then Some m else List.find (fun x => tm_ID x =? id) l.
Proof. reflexivity. Qed.

Lemma with_id_cons id m l : with_id id (m :: l) = if tm_ID m =? id then m :: with_id id l else with_id id l.
Proof. reflexivity. Qed.

Lemma fold_runs_spec l : id_sorted l ->
  StronglySorted Z.lt (map tm_ID (fold_runs l)) /\ (forall m, m ∈ fold_runs l -> m ∈ l) /\
  forall id, List.find (fun m => tm_ID m =? id) (fold_runs l) = last (with_id id l).
Proof.
  induction l as [|m l IH]; intros Hs; [split; [constructor|split; [auto|reflexivity]]|].
  inversion Hs as [|? ? Hl Hm]; subst. destruct (IH Hl) as (Hs' & Hin & Hf). cbn [fold_runs].
  destruct l as [|x l]; [split; [repeat constructor|split; [auto|]]|].
  { intros id. rewrite with_id_cons, find_id_cons. now destruct (tm_ID m =? id). }
  destruct (tm_ID x =? tm_ID m) eqn:E; bool_norm.
  - split; [exact Hs'|]. split; [intros y Hy; constructor; now apply Hin|]. intros id. rewrite Hf, (with_id_cons id m).
    destruct (tm_ID m =? id) eqn:Em; [|reflexivity]. bool_norm.
    rewrite with_id_cons. replace (tm_ID x =? id) with true by (symmetry; apply Z.eqb_eq; lia). reflexivity.
  - apply Forall_cons_iff in Hm as [Hmx Hm].
    assert (Hlt : Forall (fun y => tm_ID m < tm_ID y) (x :: l)).
    { constructor; [lia|]. inversion Hl as [|? ? _ Hx]; subst. eapply Forall_impl; [exact Hx|]. cbn. intros; lia. }
    split; [|split].
    + cbn [map]. constructor; [exact Hs'|]. apply Forall_map, Forall_forall. intros y Hy%Hin.
      rewrite Forall_forall in Hlt. now apply Hlt.
    + intros y [->|Hy]%elem_of_cons; [constructor|]. constructor. now apply Hin.
    + intros id. rewrite find_id_cons, (with_id_cons id m). destruct (tm_ID m =? id) eqn:Em; [|apply Hf]. bool_norm. subst id.
      rewrite with_id_above by exact Hlt. reflexivity.
Qed.

(** The mutations of one layer, and of all. *)
Lemma with_id_pairs id (l : list (Z * option RecordRef)) : NoDup l.*1 ->
  with_id id (map (fun '(i, v) => mkTMutation i (oref v)) l) =
    match (list_to_map l : Values) !! id with Some v => [mkTMutation id (oref v)] | None => [] end.
Proof.
  induction l as [|[i v] l IH]; intros Hnd; [reflexivity|]. cbn in Hnd. apply NoDup_cons in Hnd as [Hni Hnd].
  cbn [map list_to_map foldr]. rewrite with_id_cons. cbn [tm_ID fst snd]. rewrite IH by exact Hnd. fold (list_to_map (M := Values) l).
  destruct (i =? id) eqn:E; bool_norm.
  - subst id. rewrite lookup_insert_eq. apply not_elem_of_list_to_map_1 in Hni. rewrite Hni. reflexivity.
  - rewrite lookup_insert_ne by exact E. reflexivity.
Qed.

Lemma layer_with_id id l : with_id id (layer_mutations l) =
  match dl_values l !! id with Some v => [mkTMutation id (oref v)] | None => [] end.
Proof. unfold layer_mutations. rewrite with_id_pairs by apply NoDup_fst_map_to_list. now rewrite list_to_map_to_list. Qed.

Lemma layers_last id ls : last (with_id id (concat (map layer_mutations ls))) =
  match lookup_frozen ls id with Some v => Some (mkTMutation id (oref v)) | None => None end.
Proof.
  induction ls as [|l ls IH]; [reflexivity|]. cbn [map concat lookup_frozen]. rewrite with_id_app, last_app, IH, layer_with_id.
  destruct (lookup_frozen ls id); [reflexivity|]. now destruct (dl_values l !! id).
Qed.

Definition folded (ls : list deltaLayer) : list TMutation := fold_runs (sort_stable (concat (map layer_mutations ls))).

Lemma oref_value id v : value_ok id v -> (if RecordRef_IsZero (oref v) then None else Some (oref v)) = v.
Proof.
  destruct v as [r|]; [|reflexivity]. intros (_ & Hv & _). cbn. now rewrite (RecordRef_Valid_IsZero r Hv).
Qed.

(** The folded mutations are valid input for the tree and mean the layers. *)
Lemma folded_spec ls S : Forall layer_ok ls ->
  mutations_sorted (folded ls) /\ apply_mutations S (folded ls) = frozen_entries S ls.
Proof.
  intros Hl. unfold folded. destruct (sort_stable_spec (concat (map layer_mutations ls))) as (Hs & Hp & Hf).
  destruct (fold_runs_spec _ Hs) as (Hs' & Hin & Hfind). split; [split; [|exact Hs']|].
  - apply Forall_forall. intros m Hm%Hin. rewrite Hp in Hm. apply list_elem_of_In, in_concat in Hm as (k & (l & <- & Hlin)%in_map_iff & Hm).
    apply in_map_iff in Hm as ([id v] & <- & Hv). apply list_elem_of_In, elem_of_map_to_list in Hv.
    rewrite Forall_forall in Hl. destruct (Hl l ltac:(now apply list_elem_of_In)) as [Hval _]. destruct (Hval id v Hv) as [Hid Hr].
    split; [exact Hid|]. cbn. destruct v as [r|]; [auto|]. discriminate.
  - apply map_eq. intros id. rewrite apply_mutations_lookup by now apply sorted_lt_NoDup.
    rewrite Hfind, Hf, layers_last, frozen_lookup. destruct (lookup_frozen ls id) as [v|] eqn:E; [|reflexivity]. cbn [tm_Ref].
    apply (oref_value id). revert E. clear -Hl. induction Hl as [|l ls [Hv _] _ IH]; cbn [lookup_frozen]; [discriminate|].
    destruct (lookup_frozen ls id); [exact IH|apply Hv].
Qed.

Lemma folded_empty ls : layers_size ls = 0 -> folded ls = [].
Proof.
  intros H. unfold folded. replace (concat (map layer_mutations ls)) with (@nil TMutation); [reflexivity|].
  induction ls as [|l ls IH]; [reflexivity|]. cbn [map concat]. unfold layers_size in H. cbn [foldr] in H. fold (layers_size ls) in H.
  pose proof (layers_size_nonneg ls). rewrite <- IH by lia. unfold layer_mutations.
  replace (dl_values l) with (∅ : Values); [now rewrite map_to_list_empty|]. symmetry. apply map_size_empty_iff. lia.
Qed.

Section Checkpoint.
Context {N T : Type} `{!TreeStore N T} `{!TreeLaws N T}.
Implicit Types (m : Persistent N T) (fc : FrozenCheckpoint T) (c : CheckpointCandidate T).

(** The entries below the active layer. *)
Definition cut_entries m : Entries := frozen_entries (base_entries m) (pe_frozen m).

(** [fc] is the running checkpoint of [m]. *)
Record in_flight m fc : Prop := mkInFlight {
  if_running : pe_inCheckpoint m = true;
  if_id : fc_id fc = pe_checkpointID m;
  if_layers : fc_layers fc = pe_frozen m;
  if_base : fc_base fc = pe_root m;
  if_covered : is_u64 (fc_covered fc) /\ tr_Covered (pe_root m) <= fc_covered fc <= pe_covered m;
  if_fresh : 0 < layers_size (pe_frozen m) -> tr_Covered (pe_root m) < fc_covered fc;
  if_active : 0 < Z.of_nat (size (dl_values (pe_active m))) -> fc_covered fc < pe_covered m;
  if_live : live_exact (fc_live fc) (cut_entries m);
}.

(** ** Freeze *)

Lemma layers_size_one l : layers_size [l] = Z.of_nat (size (dl_values l)).
Proof. unfold layers_size. cbn [foldr]. lia. Qed.

Lemma frozen_entries_app S ls ls' : frozen_entries S (ls ++ ls') = frozen_entries (frozen_entries S ls) ls'.
Proof. apply foldl_app. Qed.

Lemma freeze_ok m m' r : pe_ok m -> Freeze m (pe_covered m) = (m', r) ->
  pe_ok m' /\ visible m' = visible m /\ pe_covered m' = pe_covered m /\
  match r with
  | Ok fc => in_flight m' fc /\ cut_entries m' = visible m /\ fc_covered fc = pe_covered m /\ fc_live fc = pe_live m
  | Err _ => m' = m
  end.
Proof.
  intros Hm E. unfold Freeze in E. rewrite Z.eqb_refl, orb_false_r in E.
  destruct (pe_inCheckpoint m); [injection E as <- <-; auto|].
  destruct (pe_checkpointID m =? MaxUint64) eqn:Ex; [injection E as <- <-; auto|]. bool_norm. cbv zeta in E. injection E as <- <-.
  set (m' := mkPersistent _ _ _ _ _ _ _ _ _ _ _ _ _).
  assert (Ecut : cut_entries m' = visible m) by reflexivity.
  assert (Evis : visible m' = visible m).
  { unfold visible at 1, layers. rewrite frozen_entries_app. fold (cut_entries m'). rewrite Ecut. apply overlay_empty. }
  assert (Esz : layers_size (layers m') = layers_size (layers m)).
  { unfold layers at 1. rewrite layers_size_app, layers_size_one. change (pe_frozen m') with (layers m).
    cbn [m' pe_active dl_values]. rewrite map_size_empty. lia. }
  destruct Hm as [M1 M2 M3 M4 M5 M6 M7 M8 M9 M10 M11 M12]. pose proof (tr_wf _ _ M1) as (Hu & _). split; [|split; [exact Evis|split; [reflexivity|]]].
  - constructor; rewrite ?Evis, ?Esz; cbn [m' pe_nodes pe_root pe_covered pe_pool pe_live pe_sortBytes pe_active pe_checkpointID dl_id]; auto.
    + unfold layers. apply Forall_app. split; [exact M3|]. constructor; [|constructor]. constructor; cbn.
      * intros id v. now rewrite lookup_empty.
      * now rewrite map_size_empty.
    + rewrite M5. unfold layers at 2. rewrite layers_charge_app, layers_charge_one. change (pe_frozen m') with (layers m). cbn [m' pe_active dl_charge]. lia.
    + split; [reflexivity|lia].
    + unfold layers. cbn [m' pe_frozen pe_active]. fold (layers m). rewrite map_app. cbn [map dl_id].
      apply StronglySorted_app_2; [|exact M12|repeat constructor].
      intros x y Hx Hy%list_elem_of_singleton. subst y. destruct M11 as [Ea _].
      unfold layers in *. rewrite map_app in *. cbn [map] in *. apply elem_of_app in Hx as [Hx|Hx%list_elem_of_singleton]; [|subst x; lia].
      enough (x < dl_id (pe_active m)) by lia.
      eapply StronglySorted_app_1_elem_of; [exact M12|exact Hx|now constructor].
  - split; [|auto]. constructor; cbn [m' pe_inCheckpoint fc_id pe_checkpointID fc_layers pe_frozen fc_base pe_root fc_covered fc_live pe_covered pe_active dl_values]; auto.
    + split; [exact M2|lia].
    + rewrite map_size_empty. lia.
Qed.

(** ** Build *)

Lemma same_layers_refl ls : same_layers ls ls = true.
Proof. induction ls as [|l ls IH]; [reflexivity|]. cbn [same_layers]. now rewrite Z.eqb_refl. Qed.

(** The configuration check makes the sort budget sufficient. *)
Lemma sort_budget_ok limit ls : forall total, 0 <= total -> total + layers_size ls <= limit -> is_ok (sort_budget limit total ls) = true.
Proof.
  unfold layers_size. induction ls as [|l ls IH]; intros total H0 H; cbn [sort_budget]; [reflexivity|]. cbn [foldr] in H.
  pose proof (layers_size_nonneg ls) as Hn. unfold layers_size in Hn.
  replace (limit - total <? _) with false by (symmetry; apply Z.ltb_ge; lia). apply IH; lia.
Qed.

Lemma layers_within m : pe_ok m -> layers_size (layers m) <= pe_sortBytes m / checkpointMutationBytes.
Proof.
  intros Hm. etrans; [|apply (ok_sort m Hm)]. apply Z.div_le_lower_bound; [lia|].
  pose proof (layers_charge_size _ (ok_layers m Hm)). pose proof (ok_charged m Hm). pose proof (po_limit _ (ok_pool m Hm)).
  pose proof (outstanding_nonneg _ (po_upper _ (ok_pool m Hm))). rewrite (po_reserved _ (ok_pool m Hm)) in *. lia.
Qed.

(** A tree built for the running checkpoint. *)
Record built m c : Prop := mkBuilt {
  bt_flight : in_flight m (cd_checkpoint c);
  bt_tree : tr_ok (pe_nodes m) (cd_tree c);
  bt_entries : tr_entries (pe_nodes m) (cd_tree c) = cut_entries m;
  bt_covered : cd_covered c = fc_covered (cd_checkpoint c) /\ tr_Covered (cd_tree c) = cd_covered c;
  bt_root : cd_root c = tr_Root (cd_tree c);
  bt_changes : cd_changes c = folded (pe_frozen m);
  bt_count : 0 <= ed_Added (cd_entryDelta c) /\ 0 <= ed_Removed (cd_entryDelta c) <= Z.of_nat (size (base_entries m)) /\
    Z.of_nat (size (cut_entries m)) =
      Z.of_nat (size (base_entries m)) + ed_Added (cd_entryDelta c) - ed_Removed (cd_entryDelta c);
}.

(** Appending nodes keeps everything. *)
Definition nodes_grow (n n' : N) : Prop := forall t, tr_ok n t -> tr_ok n' t /\ tr_entries n' t = tr_entries n t.

Lemma set_nodes_same m n : pe_ok m -> nodes_grow (pe_nodes m) n ->
  base_entries (set_nodes m n) = base_entries m /\ visible (set_nodes m n) = visible m /\ cut_entries (set_nodes m n) = cut_entries m.
Proof.
  intros Hm Hg. destruct (Hg (pe_root m) (ok_tree m Hm)) as [_ E]. unfold visible, cut_entries, base_entries. cbn. rewrite E. auto.
Qed.

Lemma set_nodes_ok m n : pe_ok m -> nodes_grow (pe_nodes m) n -> pe_ok (set_nodes m n).
Proof.
  intros Hm Hg. destruct (set_nodes_same m n Hm Hg) as (_ & Ev & _). destruct (Hg (pe_root m) (ok_tree m Hm)) as [Ht _].
  destruct Hm as [M1 M2 M3 M4 M5 M6 M7 M8 M9 M10 M11 M12]. constructor; rewrite ?Ev; auto.
Qed.

Lemma set_nodes_flight m n fc : pe_ok m -> nodes_grow (pe_nodes m) n -> in_flight m fc -> in_flight (set_nodes m n) fc.
Proof.
  intros Hm Hg [F1 F2 F3 F4 F5 F6 F7 F8]. destruct (set_nodes_same m n Hm Hg) as (_ & _ & Ec). constructor; rewrite ?Ec; auto.
Qed.

Lemma build_ok m fc m' r : pe_ok m -> in_flight m fc -> BuildCheckpoint m fc = (m', r) ->
  pe_ok m' /\ visible m' = visible m /\ pe_covered m' = pe_covered m /\ in_flight m' fc /\
  match r with
  | Ok c => built m' c /\ cd_checkpoint c = fc /\ cut_entries m' = cut_entries m
  | Err e => (exists n r', tr_BuildSorted (pe_nodes m) (fc_base fc) (fc_covered fc) (folded (fc_layers fc)) = (n, r') /\
                (r' = Err e \/ exists n' tree delta, r' = Ok (tree, delta) /\ tr_Sync n = (n', Some e)))
  end.
Proof.
  intros Hm Hf E. pose proof Hf as [F1 F2 F3 F4 F5 F6 F7 F8]. unfold BuildCheckpoint in E. rewrite F1, F2, F3, Z.eqb_refl, Nat.leb_refl, same_layers_refl in E.
  cbn [andb negb] in E. pose proof (layers_within m Hm) as Hw. unfold layers in Hw. rewrite layers_size_app, layers_size_one in Hw.
  pose proof (sort_budget_ok (pe_sortBytes m / checkpointMutationBytes) (pe_frozen m) 0 ltac:(lia) ltac:(lia)) as Hsb.
  destruct (sort_budget _ 0 (pe_frozen m)); [|discriminate]. fold (folded (pe_frozen m)) in E. rewrite F3, F4 in *.
  pose proof (ok_layers m Hm) as Hly. unfold layers in Hly. apply Forall_app in Hly as [Hlf _].
  destruct (folded_spec (pe_frozen m) (base_entries m) Hlf) as [Hsorted Happ].
  destruct (tr_BuildSorted (pe_nodes m) (pe_root m) (fc_covered fc) (folded (pe_frozen m))) as [n r0] eqn:Eb.
  destruct (tr_build _ _ _ _ _ _ (ok_tree m Hm) Hsorted (proj1 F5) Eb) as [Hgrow Hres].
  destruct r0 as [[tree delta]|e].
  2:{ injection E as <- <-. destruct (set_nodes_same m n Hm Hgrow) as (_ & Ev & _).
      split; [now apply set_nodes_ok|]. split; [exact Ev|]. split; [reflexivity|]. split; [now apply set_nodes_flight|]. eauto 10. }
  destruct (tr_Sync n) as [n' [e|]] eqn:Es; pose proof (tr_sync _ _ _ Es) as Hgs.
  - assert (Hgrow2 : nodes_grow (pe_nodes m) n').
    { intros t Ht. destruct (Hgrow t Ht) as [H1 E1]. destruct (Hgs t H1) as [H2 E2]. split; [exact H2|congruence]. }
    injection E as <- <-. destruct (set_nodes_same m n' Hm Hgrow2) as (_ & Ev & _).
    split; [now apply set_nodes_ok|]. split; [exact Ev|]. split; [reflexivity|]. split; [now apply set_nodes_flight|]. eauto 10.
  - assert (Hgrow2 : nodes_grow (pe_nodes m) n').
    { intros t Ht. destruct (Hgrow t Ht) as [H1 E1]. destruct (Hgs t H1) as [H2 E2]. split; [exact H2|congruence]. }
    injection E as <- <-. destruct (set_nodes_same m n' Hm Hgrow2) as (Eb' & Ev & Ec). pose proof (set_nodes_flight m n' fc Hm Hgrow2 Hf) as Hf'.
    destruct Hres as (Ht & Hcv & Hent & Ha & Hrm & Hsize). destruct (Hgs tree Ht) as [Ht' He'].
    split; [now apply set_nodes_ok|]. split; [exact Ev|]. split; [reflexivity|]. split; [exact Hf'|]. split; [|auto].
    constructor; cbn [cd_checkpoint cd_tree cd_root cd_covered cd_changes cd_entryDelta]; rewrite ?Ec, ?Eb'; auto.
    + cbn. rewrite He', Hent. exact Happ.
    + split; [exact Ha|]. split; [exact Hrm|]. unfold cut_entries. rewrite <- Happ.
      fold (base_entries m) in Hsize, Hent. rewrite <- Hent. exact Hsize.
Qed.

Lemma build_base m fc m' r : pe_ok m -> in_flight m fc -> BuildCheckpoint m fc = (m', r) -> base_entries m' = base_entries m.
Proof.
  intros Hm Hf E. destruct (build_ok m fc m' r Hm Hf E) as (Hm' & _). revert E. unfold BuildCheckpoint. cbv zeta.
  destruct (negb _); [now intros [= <- _]|]. destruct (sort_budget _ _ _); [|now intros [= <- _]].
  rewrite (if_base m fc Hf), (if_layers m fc Hf). fold (folded (pe_frozen m)).
  pose proof (ok_layers m Hm) as Hly. unfold layers in Hly. apply Forall_app in Hly as [Hlf _].
  destruct (folded_spec (pe_frozen m) (base_entries m) Hlf) as [Hsorted _].
  destruct (tr_BuildSorted _ _ _ _) as [n r0] eqn:Eb.
  destruct (tr_build _ _ _ _ _ _ (ok_tree m Hm) Hsorted (proj1 (if_covered m fc Hf)) Eb) as [Hgrow _].
  destruct (Hgrow _ (ok_tree m Hm)) as [Ht Ee]. destruct r0 as [[tree delta]|e]; [|intros [= <- _]; exact Ee].
  destruct (tr_Sync n) as [n' [e|]] eqn:Es; intros [= <- _]; (etrans; [apply (tr_sync _ _ _ Es), Ht|exact Ee]).
Qed.

(** ** Foreground work during a checkpoint *)

Inductive foreground : Persistent N T -> Persistent N T -> Prop :=
| fg_reserve m ids : foreground m (ReserveDelta m ids).1
| fg_release m h : foreground m (release_reservation m h)
| fg_publish m ps plan rs m' res :
    group_ok ps -> Forall proposal_u ps -> ResolveGroup m ps = Ok plan ->
    Forall2 (fun h p => covers m h (changed_ids p)) rs ps -> NoDup rs ->
    accepted_of (spec_flags (visible m) ps) <> 0 ->
    pe_covered m + accepted_of (spec_flags (visible m) ps) <= MaxUint64 ->
    total_bytes (visible m) + group_bytes ps <= MaxUint64 ->
    PublishGroup m (pe_covered m + 1) plan (map Some rs) = (m', Ok res) -> foreground m m'.

(** What foreground work leaves alone. *)
Record same_checkpoint m m' : Prop := mkSame {
  sc_nodes : pe_nodes m' = pe_nodes m;
  sc_root : pe_root m' = pe_root m;
  sc_frozen : pe_frozen m' = pe_frozen m;
  sc_id : pe_checkpointID m' = pe_checkpointID m;
  sc_running : pe_inCheckpoint m' = pe_inCheckpoint m;
  sc_active : (pe_covered m' = pe_covered m /\ pe_active m' = pe_active m) \/ pe_covered m < pe_covered m';
}.

Lemma same_refl m : same_checkpoint m m.
Proof. constructor; auto. Qed.

Lemma same_trans m1 m2 m3 : same_checkpoint m1 m2 -> same_checkpoint m2 m3 -> same_checkpoint m1 m3.
Proof.
  intros [A1 A2 A3 A4 A5 A6] [B1 B2 B3 B4 B5 B6]. constructor; try congruence.
  destruct A6 as [[A6 A7]|A6], B6 as [[B6 B7]|B6]; [left; split; congruence|right; lia..].
Qed.

Lemma reserve_frame m ids : same_checkpoint m (ReserveDelta m ids).1.
Proof.
  unfold ReserveDelta. destruct (count_entries _ ∅ 0 ids); [|apply same_refl].
  destruct (reserve (pe_pool m) _) as [p [[h|e] pr]].
  - destruct pr; cbn [negb]; [destruct (_ =? _)|]; constructor; auto.
  - destruct (_ || _); [|destruct (_ =? _)]; constructor; auto.
Qed.

Lemma publish_frame m first plan rs m' res : is_u64 (pe_covered m) -> PublishGroup m first plan rs = (m', Ok res) -> same_checkpoint m m'.
Proof.
  intros Hc E. unfold PublishGroup in E. cbv zeta in E.
  repeat match type of E with (if ?b then (_, Err _) else _) = _ => destruct b eqn:?; [discriminate E|] end.
  destruct (consume_all _ _ _ _) as [p [charged|e]]; [|discriminate E].
  match type of E with (if ?b then _ else _) = _ => destruct b; [discriminate E|] end.
  destruct (applyPlanLiveStats _ _ _) as [live [u|e]]; [|discriminate E]. injection E as <- _.
  constructor; auto. right. cbn [pe_covered]. unfold is_u64 in Hc. bool_norm. subst first.
  assert (0 <= accepted_count (gp_Proposals plan)) by apply len_nonneg.
  destruct (Z.eq_dec (pe_covered m + 1) two64) as [E1|]; [rewrite E1, Z.mod_same in * by lia; lia|].
  rewrite Z.mod_small in * by lia. lia.
Qed.

Lemma foreground_ok m m' : foreground m m' -> pe_ok m -> pe_ok m' /\ same_checkpoint m m'.
Proof.
  destruct 1 as [m ids|m h|m ps plan rs m' res Hg Hu Hr Hc Hnd Ha Hs Hb E]; intros Hm.
  - split; [|apply reserve_frame]. destruct (ReserveDelta m ids) as [m' [r g]] eqn:E. now apply (reserve_ok m ids m' r g).
  - split; [now apply release_ok|]. constructor; auto.
  - destruct (publish_ok m ps plan rs Hm Hg Hu Hr Hc Hnd Ha Hs Hb) as (x & E' & Hx & _). rewrite E in E'. injection E' as <- _.
    split; [exact Hx|]. eapply publish_frame; [apply (ok_covered m Hm)|exact E].
Qed.

Lemma foregrounds_ok m m' : rtc foreground m m' -> pe_ok m -> pe_ok m' /\ same_checkpoint m m'.
Proof.
  induction 1 as [m|m m1 m' Hs _ IH]; intros Hm; [split; [exact Hm|apply same_refl]|].
  destruct (foreground_ok _ _ Hs Hm) as [Hm1 Hs1]. destruct (IH Hm1) as [Hm' Hs']. split; [exact Hm'|]. eapply same_trans; eauto.
Qed.

Lemma same_cut m m' : same_checkpoint m m' -> base_entries m' = base_entries m /\ cut_entries m' = cut_entries m.
Proof. intros [A1 A2 A3 _ _ _]. unfold cut_entries, base_entries. rewrite A1, A2, A3. auto. Qed.

Lemma same_flight m m' fc : same_checkpoint m m' -> in_flight m fc -> in_flight m' fc.
Proof.
  intros Hs [F1 F2 F3 F4 F5 F6 F7 F8]. destruct (same_cut m m' Hs) as [_ Ec]. destruct Hs as [A1 A2 A3 A4 A5 A6].
  constructor; rewrite ?Ec, ?A2, ?A3, ?A4, ?A5; auto.
  - split; [apply F5|]. destruct A6 as [[A6 _]|A6]; lia.
  - destruct A6 as [[A6 A7]|A6]; [rewrite A7, A6; exact F7|lia].
Qed.

Lemma same_built m m' c : same_checkpoint m m' -> built m c -> built m' c.
Proof.
  intros Hs [B1 B2 B3 B4 B5 B6 B7]. destruct (same_cut m m' Hs) as [Eb Ec]. pose proof (same_flight _ _ _ Hs B1).
  destruct Hs as [A1 A2 A3 A4 A5 A6]. constructor; rewrite ?Ec, ?Eb, ?A1, ?A3; auto.
Qed.

(** ** Install and abort *)

Lemma total_charge_ok ls : forall released, 0 <= released -> Forall (fun l => 0 <= dl_charge l) ls ->
  released + layers_charge ls <= MaxUint64 -> total_charge released ls = Ok (released + layers_charge ls).
Proof.
  unfold layers_charge. induction ls as [|l ls IH]; intros released H0 Hn Hm; cbn [total_charge foldr]; [f_equal; lia|].
  apply Forall_cons_iff in Hn as [Hl Hn]. cbn [foldr] in Hm.
  assert (0 <= foldr (fun l acc => dl_charge l + acc) 0 ls) by (clear -Hn; induction Hn; cbn [foldr]; lia).
  replace (MaxUint64 - dl_charge l <? released) with false by (symmetry; apply Z.ltb_ge; lia).
  rewrite IH by (auto; lia). f_equal. lia.
Qed.

Lemma layer_charge_nonneg ls : Forall layer_ok ls -> Forall (fun l => 0 <= dl_charge l) ls.
Proof. intros H. eapply Forall_impl; [exact H|]. intros l [_ ->]. lia. Qed.

(** A built candidate always installs. *)
Lemma install_ok m c : pe_ok m -> built m c ->
  exists m', InstallCheckpoint m c = (m', Ok tt) /\ pe_ok m' /\ visible m' = visible m /\ pe_covered m' = pe_covered m /\
    base_entries m' = cut_entries m /\ pe_root m' = cd_tree c /\ pe_frozen m' = [] /\ pe_inCheckpoint m' = false /\
    db_charged (p_budget (pe_pool m')) = dl_charge (pe_active m) /\
    (forall h ids, covers m h ids -> covers m' h ids).
Proof.
  intros Hm [[F1 F2 F3 F4 F5 F6 F7 F8] B2 B3 [B4 B4'] B5 B6 B7]. unfold InstallCheckpoint. cbv zeta.
  rewrite F1, F2, F3, B5, B4', B4, !Z.eqb_refl, Nat.ltb_irrefl, same_layers_refl. cbn [negb orb].
  pose proof (ok_layers m Hm) as Hly. unfold layers in Hly. apply Forall_app in Hly as [Hlf Hla]. apply Forall_inv in Hla as Hla'.
  pose proof (ok_charged m Hm) as Hch. unfold layers in Hch. rewrite layers_charge_app, layers_charge_one in Hch.
  pose proof (po_limit _ (ok_pool m Hm)) as Hlim. pose proof (po_hard _ (ok_pool m Hm)). rewrite (po_reserved _ (ok_pool m Hm)) in Hlim.
  pose proof (outstanding_nonneg _ (po_upper _ (ok_pool m Hm))). pose proof (lo_charge _ Hla') as Hlc.
  pose proof (layers_charge_size _ Hlf) as Hfs. pose proof (layers_size_nonneg (pe_frozen m)).
  rewrite total_charge_ok by (auto using layer_charge_nonneg; lia). rewrite Z.add_0_l.
  assert (Ed : exists p, discharge (pe_pool m) (layers_charge (pe_frozen m)) = Ok p).
  { unfold discharge. replace (_ <? _) with false by (symmetry; apply Z.ltb_ge; lia). eauto. }
  assert (Hrel : 0 <= layers_charge (pe_frozen m)) by lia.
  destruct Ed as [p Ed]. rewrite Ed. destruct (discharge_spec _ _ _ (ok_pool m Hm) Hrel Ed) as (Hp & Ec & Hfr).
  assert (Eh : db_hard (p_budget p) = db_hard (p_budget (pe_pool m))).
  { unfold discharge in Ed. inv_ok Ed. apply Ok_inj in Ed as <-. reflexivity. }
  rewrite drop_all. set (m' := mkPersistent _ _ _ _ _ _ _ _ _ _ _ _ _). exists m'. split; [reflexivity|].
  assert (Ebase : base_entries m' = cut_entries m) by (unfold base_entries; cbn; exact B3).
  assert (Evis : visible m' = visible m).
  { rewrite !visible_active. unfold m' at 1. cbn [pe_active pe_frozen]. rewrite Ebase. reflexivity. }
  split; [|repeat (split; [assumption || reflexivity|])].
  - constructor; rewrite ?Evis; cbn [m' pe_nodes pe_root pe_covered pe_pool pe_live pe_sortBytes pe_active pe_checkpointID];
      try apply Hm; auto.
    + rewrite Ec. unfold layers. cbn [m' pe_frozen pe_active app]. rewrite layers_charge_one. lia.
    + lia.
    + unfold layers. cbn [m' pe_frozen pe_active app]. rewrite layers_size_one. intros Hpos. specialize (F7 Hpos). lia.
    + rewrite Eh. apply (ok_sort m Hm).
    + unfold layers. cbn [m' pe_frozen pe_active app]. repeat constructor.
  - split; [cbn [m' pe_pool]; lia|]. intros h ids (u & Hu & Hn). exists u. split; [now apply Hfr|exact Hn].
Qed.

Lemma abort_ok m fc m' r : pe_ok m -> AbortCheckpoint m fc = (m', r) ->
  pe_ok m' /\ visible m' = visible m /\ pe_covered m' = pe_covered m /\ (in_flight m fc -> r = Ok tt /\ pe_inCheckpoint m' = false).
Proof.
  intros Hm E. unfold AbortCheckpoint in E. destruct (negb (pe_inCheckpoint m) || _) eqn:Ex; injection E as <- <-.
  - split; [exact Hm|]. split; [reflexivity|]. split; [reflexivity|]. intros [F1 F2 _ _ _ _ _ _]. rewrite F1, F2, Z.eqb_refl in Ex. discriminate.
  - split; [|auto]. destruct Hm. constructor; auto.
Qed.

(** Replacing the root by an equal tree in another store keeps everything visible. *)
Lemma replace_ok m v nodes root m' r : pe_ok m -> tr_ok nodes root -> tr_entries nodes root = base_entries m ->
  vw_tree v = pe_root m -> ReplaceCheckpointRoot m v nodes root = (m', r) ->
  pe_ok m' /\ visible m' = visible m /\ pe_covered m' = pe_covered m.
Proof.
  intros Hm Ht Ee Ev E. unfold ReplaceCheckpointRoot in E. destruct (_ || _) eqn:Ex; injection E as <- <-; [auto|].
  bool_norm. rewrite Ev in *. set (m' := mkPersistent _ _ _ _ _ _ _ _ _ _ _ _ _).
  assert (Evis : visible m' = visible m) by (unfold visible, base_entries; cbn; rewrite Ee; reflexivity).
  split; [|auto]. destruct Hm as [M1 M2 M3 M4 M5 M6 M7 M8 M9 M10 M11 M12].
  constructor; rewrite ?Evis; auto; cbn [m' pe_root pe_covered]; [lia|]. intros Hpos. specialize (M9 Hpos). lia.
Qed.
End Checkpoint.

(** ** Counting entries *)

(** Ids are positive uint64 numbers, so a mapping never has more than [MaxUint64] of them. *)
Lemma NoDup_bounded (n : nat) : forall l : list Z, NoDup l -> Forall (fun x => 0 < x <= Z.of_nat n) l -> (length l <= n)%nat.
Proof.
  intros l Hnd Hb. transitivity (length (map Z.of_nat (seq 1 n))); [|now rewrite length_map, length_seq].
  apply submseteq_length, NoDup_submseteq; [exact Hnd|]. intros x Hx. rewrite Forall_forall in Hb. specialize (Hb x Hx).
  apply list_elem_of_In, in_map_iff. exists (Z.to_nat x). split; [lia|]. apply in_seq. lia.
Qed.

Lemma entries_bounded (S : Entries) : (forall id r, S !! id = Some r -> 0 < id <= MaxUint64) -> Z.of_nat (size S) <= MaxUint64.
Proof.
  intros H. rewrite <- length_map_to_list, <- (length_fmap fst).
  assert (Hl : (length (map_to_list S).*1 <= Z.to_nat MaxUint64)%nat); [|lia].
  apply NoDup_bounded; [apply NoDup_fst_map_to_list|]. apply Forall_forall. intros x ([id r] & -> & Hin)%list_elem_of_fmap.
  apply elem_of_map_to_list in Hin. cbn. rewrite Z2Nat.id by lia. now apply (H id r).
Qed.

Lemma EntryCount_ok {T} (c : CheckpointCandidate T) (base after : Z) :
  0 <= ed_Added (cd_entryDelta c) -> 0 <= ed_Removed (cd_entryDelta c) <= base ->
  after = base + ed_Added (cd_entryDelta c) - ed_Removed (cd_entryDelta c) -> after <= MaxUint64 ->
  EntryCount c base = Ok after.
Proof.
  intros Ha Hr -> Hm. unfold EntryCount. replace (base <? _) with false by (symmetry; apply Z.ltb_ge; lia).
  cbv zeta. replace (MaxUint64 - _ <? _) with false by (symmetry; apply Z.ltb_ge; lia). f_equal. lia.
Qed.

(** C5: a checkpoint is transparent and exact.  Freeze a mapping, let any
    foreground work run, build the new tree, let more foreground work run: the
    candidate always installs.  Neither freezing, building nor installing changes
    a visible entry; the installed tree holds exactly the entries visible at the
    freeze, covers that commit sequence, has the live statistics captured with it
    and the entry count computed from the build's delta; the delta budget is left
    charged for the active layer only, and reservations stay good. *)
Theorem checkpoint_transparent {N T} `{!TreeStore N T} `{!TreeLaws N T} (m m1 m2 m3 m4 : Persistent N T) fc c :
  pe_ok m -> Freeze m (pe_covered m) = (m1, Ok fc) -> rtc foreground m1 m2 ->
  BuildCheckpoint m2 fc = (m3, Ok c) -> rtc foreground m3 m4 ->
  visible m1 = visible m /\ visible m3 = visible m2 /\
  exists m5, InstallCheckpoint m4 c = (m5, Ok tt) /\ pe_ok m5 /\
    visible m5 = visible m4 /\ pe_covered m5 = pe_covered m4 /\
    base_entries m5 = visible m /\ tr_Covered (pe_root m5) = pe_covered m /\ live_exact (fc_live fc) (base_entries m5) /\
    EntryCount c (Z.of_nat (size (base_entries m))) = Ok (Z.of_nat (size (base_entries m5))) /\
    pe_frozen m5 = [] /\ pe_inCheckpoint m5 = false /\
    db_charged (p_budget (pe_pool m5)) = dl_charge (pe_active m4) /\
    (forall h ids, covers m4 h ids -> covers m5 h ids).
Proof.
  intros Hm Ef H12 Eb H34. destruct (freeze_ok _ _ _ Hm Ef) as (Hm1 & Ev1 & _ & Hfl & Ecut & Ecov & _).
  assert (Ebase : base_entries m1 = base_entries m).
  { unfold Freeze in Ef. destruct (_ || _); [discriminate|]. destruct (_ =? _); [discriminate|]. now injection Ef as <- <-. }
  destruct (foregrounds_ok _ _ H12 Hm1) as [Hm2 S12]. destruct (same_cut _ _ S12) as [Eb2 Ec2].
  destruct (build_ok _ _ _ _ Hm2 (same_flight _ _ _ S12 Hfl) Eb) as (Hm3 & Ev3 & _ & Hf3 & Hbt & <- & Ec3).
  destruct (foregrounds_ok _ _ H34 Hm3) as [Hm4 S34]. destruct (same_cut _ _ S34) as [Eb4 Ec4].
  pose proof (same_built _ _ _ S34 Hbt) as Hb4.
  assert (Eb3 : base_entries m3 = base_entries m2).
  { clear -Eb Hf3 Hm2 Hfl S12. pose proof (same_flight _ _ _ S12 Hfl) as Hf2. pose proof (build_base _ _ _ _ Hm2 Hf2 Eb). assumption. }
  destruct (install_ok _ _ Hm4 Hb4) as (m5 & Ei & Hm5 & Ev5 & Ecv5 & Eb5 & Er5 & Efz & Ein & Ech & Hcv).
  assert (Ecuts : cut_entries m4 = visible m) by congruence.
  split; [exact Ev1|]. split; [exact Ev3|]. exists m5. repeat (split; [assumption|]).
  split; [congruence|]. split; [rewrite Er5; destruct (bt_covered _ _ Hb4); congruence|].
  split; [rewrite Eb5; apply (if_live _ _ (bt_flight _ _ Hb4))|]. split; [|auto].
  destruct (bt_count _ _ Hb4) as (Ha & Hr & Hs). replace (base_entries m4) with (base_entries m) in Hr, Hs by congruence.
  rewrite Eb5. apply EntryCount_ok; auto. apply entries_bounded. intros id r E. rewrite Ecuts in E. apply (visible_u m Hm id r E).
Qed.

(** ** The changes of a candidate *)

Lemma same_value (old new : option RecordRef) r : (if RecordRef_IsZero r then None else Some r) = new ->
  Bool.eqb (oexists old) (oexists new) && (negb (oexists old) || bool_decide (oref old = r)) = bool_decide (old = new).
Proof.
  intros <-. destruct (RecordRef_IsZero r), old as [o|]; cbn; try reflexivity.
  do 2 case_bool_decide; congruence.
Qed.

Definition tm_value (c : TMutation) : option RecordRef := if RecordRef_IsZero (tm_Ref c) then None else Some (tm_Ref c).

Lemma walk_changes_spec {N T} `{!TreeStore N T} `{!TreeLaws N T} n (base : T) changes : tr_ok n base ->
  Forall mutation_valid changes -> StronglySorted Z.lt (map tm_ID changes) ->
  exists l, walk_changes n base changes = Ok l /\ StronglySorted Z.lt (map (fun t => t.1.1) l) /\
    (forall t, t ∈ l <-> exists c, c ∈ changes /\ t = (tm_ID c, tr_entries n base !! tm_ID c, tm_value c) /\ tr_entries n base !! tm_ID c <> tm_value c).
Proof.
  intros Ht Hv. induction Hv as [|c cs Hc _ IH]; intros Hs; cbn [walk_changes].
  { exists []. split; [reflexivity|]. split; [constructor|]. intros t. split; [intros H; inversion H|intros (c & H & _); inversion H]. }
  inversion Hs as [|? ? Hs' Hlt]; subst. destruct (IH Hs') as (l & E & Hsl & Hl).
  rewrite (tr_lookup n base (tm_ID c) Ht (proj1 Hc)). rewrite E. cbv zeta.
  rewrite (same_value _ (tm_value c)) by reflexivity. fold (tm_value c). case_bool_decide as Hd.
  - exists l. split; [reflexivity|]. split; [exact Hsl|]. intros t. rewrite Hl. split; intros (x & Hx & Ex & Hn); exists x; (split; [|now split]).
    + now constructor.
    + apply elem_of_cons in Hx as [->|Hx]; [congruence|exact Hx].
  - eexists. split; [reflexivity|]. split.
    + cbn. constructor; [exact Hsl|]. apply Forall_map, Forall_forall. intros t (x & Hx & -> & _)%Hl. cbn.
      rewrite Forall_forall in Hlt. apply Hlt, list_elem_of_In, in_map, list_elem_of_In, Hx.
    + intros t. rewrite elem_of_cons, Hl. split.
      * intros [->|(x & Hx & Ex)]; [exists c; split; [constructor|auto]|exists x; split; [now constructor|exact Ex]].
      * intros (x & [->|Hx]%elem_of_cons & -> & Hn); [now left|right; eauto].
Qed.

Lemma find_in_sorted l : StronglySorted Z.lt (map tm_ID l) -> forall c, c ∈ l <-> List.find (fun x => tm_ID x =? tm_ID c) l = Some c.
Proof.
  intros Hs%sorted_lt_NoDup c. split; [|intros [H _]%List.find_some; now apply list_elem_of_In].
  induction l as [|x l IH]; intros H; [inversion H|]. cbn in Hs. apply NoDup_cons in Hs as [Hni Hs]. rewrite find_id_cons.
  apply elem_of_cons in H as [->|H]; [now rewrite Z.eqb_refl|]. destruct (tm_ID x =? tm_ID c) eqn:E; [|now apply IH]. bool_norm.
  exfalso. apply Hni. rewrite E. apply list_elem_of_In, in_map. now apply list_elem_of_In.
Qed.

(** The change walk of a candidate is exact.  For a tree built by the running
    checkpoint, [WalkChanges] succeeds and visits, in increasing order of the id,
    exactly the ids whose checkpointed entry differs between the old tree and the
    new one, with both values; an id that was overwritten with the value it already
    had is not visited. *)
Theorem walk_changes_exact {N T} `{!TreeStore N T} `{!TreeLaws N T} (m m' : Persistent N T) fc c :
  pe_ok m -> in_flight m fc -> BuildCheckpoint m fc = (m', Ok c) ->
  exists l, WalkChanges m' c = Ok l /\ StronglySorted Z.lt (map (fun t => t.1.1) l) /\
    forall id old new, (id, old, new) ∈ l <->
      old <> new /\ old = base_entries m' !! id /\ new = tr_entries (pe_nodes m') (cd_tree c) !! id.
Proof.
  intros Hm Hf E. destruct (build_ok _ _ _ _ Hm Hf E) as (Hm' & _ & _ & Hf' & Hb & Efc & _).
  pose proof (ok_layers m' Hm') as Hly. unfold layers in Hly. apply Forall_app in Hly as [Hlf _].
  destruct (folded_spec (pe_frozen m') (base_entries m') Hlf) as [[Hv Hs] Happ].
  unfold WalkChanges. rewrite (bt_changes _ _ Hb), Efc, (if_base _ _ Hf').
  destruct (walk_changes_spec (pe_nodes m') (pe_root m') _ (ok_tree m' Hm') Hv Hs) as (l & El & Hsl & Hl).
  exists l. split; [exact El|]. split; [exact Hsl|]. intros id old new. rewrite Hl, (bt_entries _ _ Hb).
  unfold cut_entries. rewrite <- Happ, apply_mutations_lookup by now apply sorted_lt_NoDup.
  fold (base_entries m'). split.
  - intros (x & Hx & [= -> -> ->] & Hn). apply (find_in_sorted _ Hs) in Hx. rewrite Hx. now split.
  - intros (Hn & -> & ->). destruct (List.find _ _) as [x|] eqn:Ex; [|congruence].
    exists x. apply List.find_some in Ex as [Hx Ei]. bool_norm. subst id. split; [now apply list_elem_of_In|]. now split.
Qed.

(** ** A concrete checkpoint over the reference tree *)

Definition demo_plan : GroupPlan := match ResolveGroup demo_reserved [demo_proposal] with Ok p => p | Err _ => mkPlan 0 [] end.
Definition demo_published : Persistent unit RefTree := (PublishGroup demo_reserved 1 demo_plan [Some 0%nat]).1.
Definition demo_frozen : FrozenCheckpoint RefTree :=
  mkFrozen 1 (mkRefTree 0 ∅) 1 [pe_active demo_published] (pe_live demo_published).
Definition demo_freezing : Persistent unit RefTree := (Freeze demo_published 1).1.
Definition demo_working : Persistent unit RefTree := (ReserveDelta demo_freezing [7]).1.
Definition demo_built : Persistent unit RefTree := (BuildCheckpoint demo_working demo_frozen).1.
Definition demo_candidate : CheckpointCandidate RefTree :=
  mkCandidate demo_frozen (mkRefTree 1 {[1 := ref_a]}) 1 1 [mkTMutation 1 ref_a] (mkEntryDelta 1 0 0 0).

Lemma demo_published_ok : pe_ok demo_published.
Proof.
  destruct demo_reserved_ok as [Hm Hc]. assert (Hu : Forall proposal_u [demo_proposal]).
  { constructor; [|constructor]. unfold proposal_u, proposal_ids, ref_u. cbn. unfold is_u64, is_u32.
    repeat split; repeat constructor; vm_compute; congruence. }
  destruct (publish_ok demo_reserved [demo_proposal] demo_plan [0%nat]) as (m' & E & Hm' & _); auto; try (apply NoDup_singleton).
  - split; [discriminate|]. split; [vm_compute; discriminate|]. constructor; [vm_compute; reflexivity|constructor].
  - vm_compute. discriminate.
  - vm_compute. discriminate.
  - change (PublishGroup demo_reserved (pe_covered demo_reserved + 1) demo_plan (map Some [0%nat]))
      with (PublishGroup demo_reserved 1 demo_plan [Some 0%nat]) in E. unfold demo_published. now rewrite E.
Qed.

Lemma demo_freeze : Freeze demo_published (pe_covered demo_published) = (demo_freezing, Ok demo_frozen).
Proof. vm_compute. reflexivity. Qed.

Lemma demo_build : BuildCheckpoint demo_working demo_frozen = (demo_built, Ok demo_candidate).
Proof. vm_compute. reflexivity. Qed.

Lemma checkpoint_transparent_witness :
  exists m5, InstallCheckpoint (release_reservation demo_built 1) demo_candidate = (m5, Ok tt) /\
    visible m5 = visible (release_reservation demo_built 1) /\ base_entries m5 = visible demo_published.
Proof.
  destruct (checkpoint_transparent demo_published demo_freezing demo_working demo_built (release_reservation demo_built 1) demo_frozen demo_candidate)
    as (_ & _ & m5 & H1 & _ & H2 & _ & H3 & _).
  - exact demo_published_ok.
  - exact demo_freeze.
  - apply rtc_once. apply fg_reserve.
  - exact demo_build.
  - apply rtc_once. apply fg_release.
  - exists m5. auto.
Defined.

Lemma walk_changes_exact_witness :
  exists l, WalkChanges demo_built demo_candidate = Ok l /\
    ((1, None, Some ref_a) ∈ l <->
       None <> Some ref_a /\ None = base_entries demo_built !! 1 /\ Some ref_a = tr_entries (pe_nodes demo_built) (cd_tree demo_candidate) !! 1).
Proof.
  destruct (freeze_ok _ _ _ demo_published_ok demo_freeze) as (Hm1 & _ & _ & Hf & _).
  destruct (foregrounds_ok _ _ (rtc_once _ _ (fg_reserve demo_freezing [7])) Hm1) as [Hm2 Hs].
  destruct (walk_changes_exact demo_working demo_built demo_frozen demo_candidate) as (l & E & _ & Hl).
  - exact Hm2.
  - exact (same_flight _ _ _ Hs Hf).
  - exact demo_build.
  - exists l. split; [exact E|apply Hl].
Defined.
