(* ===== verification/MapNode.v ===== *)
(** * Mapping nodes

    Models [internal/mapstore/node.go]: the immutable radix node of 512 slots, its
    sparse and dense encodings with checksums, and the point lookups on a decoded
    node (a bitmap with a population-count index when it is sparse). *)
From S2P Require Import Prelude Bytes Addr Crc32.

Definition NodeHeaderSize : Z := 64.
Definition NodeSlots : Z := 512.
Definition SparseBitmapBytes : Z := 64.
Definition DenseInternalNodeSize : Z := NodeHeaderSize + NodeSlots * 8.
Definition DenseLeafNodeSize : Z := NodeHeaderSize + NodeSlots * 12.
Definition SparseDenseBoundary : Z := 504.
Definition MaxLevel : Z := 7.
Definition NodeFormatVersion : Z := 3.
Definition nodeMagic : list Z := [82; 73; 68; 77; 65; 80; 78; 50].
Definition EncodingSparse : Z := 1.
Definition EncodingDense : Z := 2.

(** [nd_Bitmap] has 8 words; [nd_Values] is packed when sparse and has 512
    elements when dense; [nd_Sizes] is empty above level 0. *)
Record Node := mkNode
  { nd_Level : Z; nd_Encoding : Z; nd_NodeSeq : Z; nd_Prefix : Z; nd_CoveredCommitSeq : Z; nd_EntryCount : Z;
    nd_Bitmap : list Z; nd_Values : list Z; nd_Sizes : list Z }.

(** [nb_Slots] and [nb_Sizes] are arrays of 512 elements. *)
Record NodeBuild := mkBuild
  { nb_Level : Z; nb_NodeSeq : Z; nb_Prefix : Z; nb_CoveredCommitSeq : Z; nb_Slots : list Z; nb_Sizes : list Z }.

Definition alignNodeSize (size : Z) : Z := Z.ldiff (size + 7) 7.

Definition sparse_size (level entries : Z) : Z :=
  alignNodeSize (NodeHeaderSize + SparseBitmapBytes + entries * (if level =? 0 then 12 else 8)).
Definition dense_size (level : Z) : Z := if level =? 0 then DenseLeafNodeSize else DenseInternalNodeSize.

Definition EncodedNodeSize (level entries : Z) : res Z :=
  raise [mapstore_ErrInvalid] when (MaxLevel <? level) || (entries =? 0) || (NodeSlots <? entries) ;;
  Ok (if SparseDenseBoundary <=? entries then dense_size level else sparse_size level entries).

Definition Node_PhysicalSize (n : Node) : Z :=
  match EncodedNodeSize (nd_Level n) (nd_EntryCount n) with Ok size => size | Err _ => 0 end.

Definition validPrefix (level prefix : Z) : bool :=
  if MaxLevel <? level then false
  else if level =? MaxLevel then prefix =? 0
  else prefix <? Z.shiftl 1 (64 - 9 * (level + 1)).

(** [for index, value := range values] with [sizes[index]]. *)
Fixpoint validate_slots (level : Z) (values sizes : list Z) : bool :=
  match values with
  | [] => true
  | value :: values' =>
      let size := nth 0 sizes 0 in
      (if value =? 0 then negb ((level =? 0) && negb (size =? 0))
       else if level =? 0 then RecordRef_Valid (mkRef value size)
       else if negb (len sizes =? 0) && negb (size =? 0) then false
       else is_ok (ParseMapAddr value)) && validate_slots level values' (tail sizes)
  end.

(** [validateValues(level, values, sizes) == nil] *)
Definition validateValues (level : Z) (values sizes : list Z) : bool :=
  negb (((level =? 0) && negb (len sizes =? len values)) ||
        (negb (level =? 0) && negb (len sizes =? 0) && negb (len sizes =? len values))) &&
  validate_slots level values sizes.

Definition nonzero (v : Z) : bool := negb (v =? 0).
Definition countValues (values : list Z) : Z := len (List.filter nonzero values).
Definition topSlotsEmpty (values : list Z) : bool := forallb (fun v => v =? 0) (drop 2 values).

(** ** Words of bits *)

(** The bits of a uint64, the lowest first. *)
Definition word_bits (w : Z) : list bool := map (fun i => Z.testbit w (Z.of_nat i)) (seq 0 64).
Definition count_true (bits : list bool) : nat := length (List.filter (fun b => b) bits).
(** [bits.OnesCount64] *)
Definition OnesCount64 (w : Z) : Z := Z.of_nat (count_true (word_bits w)).
Definition bitmap_bits (bitmap : list Z) : list bool := concat (map word_bits bitmap).
Definition bitmapCount (bitmap : list Z) : Z := foldr (fun w acc => OnesCount64 w + acc) 0 bitmap.
Definition topBitmapEmpty (bitmap : list Z) : bool :=
  (Z.ldiff (nth 0 bitmap 0) 3 =? 0) && forallb (fun w => w =? 0) (tail bitmap).

(** ** Encoding *)

(** The eight bytes of a value and, in a leaf, the four of its size. *)
Definition put_entry (level value size : Z) : list Z :=
  put_le 8 value ++ (if level =? 0 then put_le 4 size else []).

(** The sparse loop: set the bit of the slot, append the entry. *)
Definition sparse_step (level : Z) (slot value size : Z) (acc : list Z * list Z) : list Z * list Z :=
  if value =? 0 then acc
  else
    let word := Z.to_nat (slot / 64) in
    (<[word := Z.lor (nth word acc.1 0) (Z.shiftl 1 (slot mod 64))]> acc.1, acc.2 ++ put_entry level value size).

Fixpoint sparse_loop (level slot : Z) (values sizes : list Z) (acc : list Z * list Z) : list Z * list Z :=
  match values, sizes with
  | value :: values', size :: sizes' => sparse_loop level (slot + 1) values' sizes' (sparse_step level slot value size acc)
  | _, _ => acc
  end.

Definition sparse_payload (level size : Z) (values sizes : list Z) : list Z :=
  let '(bitmap, packed) := sparse_loop level 0 values sizes (replicate 8 0, []) in
  concat (map (put_le 8) bitmap) ++ packed ++ zeros (Z.to_nat (size - NodeHeaderSize - SparseBitmapBytes - len packed)).

Definition dense_payload (level : Z) (values sizes : list Z) : list Z :=
  concat (zip_with (put_entry level) values sizes).

(** The header: the fields before the checksum, the checksum field [crc], zeros. *)
Definition node_fields (level encoding size nodeSeq prefix covered count payloadCRC : Z) : list Z :=
  nodeMagic ++ put_le 2 NodeFormatVersion ++ [level] ++ [encoding] ++ put_le 4 size ++ put_le 8 nodeSeq ++ put_le 8 prefix ++
  put_le 8 covered ++ put_le 2 count ++ zeros 2 ++ put_le 4 payloadCRC.
Definition node_header (fields crc : list Z) : list Z := fields ++ crc ++ zeros 4 ++ zeros 8.

Definition headerChecksum (header : list Z) : Z := Checksum (slice 0 48 header ++ zeros 4 ++ slice 52 64 header).

Definition EncodeNode (b : NodeBuild) : res (list Z) :=
  raise [mapstore_ErrInvalid] when
    (nb_NodeSeq b =? 0) || (nb_CoveredCommitSeq b =? 0) || negb (validPrefix (nb_Level b) (nb_Prefix b)) ;;
  let count := countValues (nb_Slots b) in
  raise [mapstore_ErrInvalid] when (count =? 0) || ((nb_Level b =? MaxLevel) && negb (topSlotsEmpty (nb_Slots b))) ;;
  raise [mapstore_ErrInvalid] when negb (validateValues (nb_Level b) (nb_Slots b) (nb_Sizes b)) ;;
  let dense := SparseDenseBoundary <=? count in
  let size := if dense then dense_size (nb_Level b) else sparse_size (nb_Level b) count in
  let payload := if dense then dense_payload (nb_Level b) (nb_Slots b) (nb_Sizes b)
                 else sparse_payload (nb_Level b) size (nb_Slots b) (nb_Sizes b) in
  let fields := node_fields (nb_Level b) (if dense then EncodingDense else EncodingSparse) size (nb_NodeSeq b) (nb_Prefix b)
                  (nb_CoveredCommitSeq b) count (Checksum payload) in
  Ok (node_header fields (put_le 4 (headerChecksum (node_header fields (zeros 4)))) ++ payload).

(** ** Decoding *)

Definition decodeNodeHeader (src : list Z) (segmentRemaining : Z) : res (Node * Z) :=
  raise [mapstore_ErrCorrupt] when len src <? NodeHeaderSize ;;
  let header := slice 0 64 src in
  raise [mapstore_ErrCorrupt] when
    negb (bool_decide (slice 0 8 header = nodeMagic)) || negb (u32 48 header =? headerChecksum header) ;;
  raise [mapstore_ErrUnsupported] when negb (u16 8 header =? NodeFormatVersion) ;;
  raise [mapstore_ErrCorrupt] when
    negb (u16 42 header =? 0) || negb (u32 52 header =? 0) || negb (u64 56 header =? 0) ;;
  let size := u32 12 header in
  raise [mapstore_ErrCorrupt] when (size <? NodeHeaderSize) || negb (Z.land size 7 =? 0) || (segmentRemaining <? size) ;;
  let n := mkNode (byte_at 10 header) (byte_at 11 header) (u64 16 header) (u64 24 header) (u64 32 header) (u16 40 header)
             (replicate 8 0) [] [] in
  raise [mapstore_ErrCorrupt] when
    (nd_NodeSeq n =? 0) || (nd_CoveredCommitSeq n =? 0) || (nd_EntryCount n =? 0) || (NodeSlots <? nd_EntryCount n) ||
    negb (validPrefix (nd_Level n) (nd_Prefix n)) ;;
  if nd_Encoding n =? EncodingSparse then
    raise [mapstore_ErrCorrupt] when negb (size =? sparse_size (nd_Level n) (nd_EntryCount n)) ;; Ok (n, size)
  else if nd_Encoding n =? EncodingDense then
    raise [mapstore_ErrCorrupt] when negb (size =? dense_size (nd_Level n)) ;; Ok (n, size)
  else Err [mapstore_ErrUnsupported].

(** [count] consecutive entries from [offset]: values, and sizes in a leaf. *)
Fixpoint read_entries (level : Z) (count : nat) (offset : nat) (payload : list Z) : list Z * list Z :=
  match count with
  | O => ([], [])
  | S count' =>
      let '(values, sizes) := read_entries level count' (offset + (if level =? 0 then 12 else 8)) payload in
      (u64 offset payload :: values, if level =? 0 then u32 (offset + 8) payload :: sizes else [])
  end.

Definition DecodeNode (src : list Z) (segmentRemaining : Z) : res (Node * Z) :=
  let! (n, size) := decodeNodeHeader src segmentRemaining in
  raise [mapstore_ErrCorrupt] when len src <? size ;;
  let payload := slice 64 (Z.to_nat size) src in
  raise [mapstore_ErrCorrupt] when negb (Checksum payload =? u32 44 src) ;;
  let sparse := nd_Encoding n =? EncodingSparse in
  let bitmap := if sparse then map (fun i => u64 (8 * i) payload) (seq 0 8) else nd_Bitmap n in
  raise [mapstore_ErrCorrupt] when
    sparse && (negb (bitmapCount bitmap =? nd_EntryCount n) || ((nd_Level n =? MaxLevel) && negb (topBitmapEmpty bitmap))) ;;
  let '(values, sizes) := if sparse then read_entries (nd_Level n) (Z.to_nat (nd_EntryCount n)) 64 payload
                          else read_entries (nd_Level n) 512 0 payload in
  raise [mapstore_ErrCorrupt] when
    negb sparse && (negb (countValues values =? nd_EntryCount n) || ((nd_Level n =? MaxLevel) && negb (topSlotsEmpty values))) ;;
  raise [mapstore_ErrCorrupt; mapstore_ErrInvalid] when negb (validateValues (nd_Level n) values sizes) ;;
  Ok (mkNode (nd_Level n) (nd_Encoding n) (nd_NodeSeq n) (nd_Prefix n) (nd_CoveredCommitSeq n) (nd_EntryCount n) bitmap values sizes, size).

(** ** Point lookups and expansion *)

(** The rank of a slot: set bits in the words before it and below it in its word. *)
Definition rank (n : Node) (slot : Z) : Z :=
  let word := Z.to_nat (slot / 64) in
  foldr (fun w acc => OnesCount64 w + acc) 0 (take word (nd_Bitmap n)) +
  OnesCount64 (Z.land (nth word (nd_Bitmap n) 0) (Z.shiftl 1 (slot mod 64) - 1)).

Definition has_bit (n : Node) (slot : Z) : bool :=
  negb (Z.land (nth (Z.to_nat (slot / 64)) (nd_Bitmap n) 0) (Z.shiftl 1 (slot mod 64)) =? 0).

Definition Node_Lookup (n : Node) (slot : Z) : option Z :=
  if NodeSlots <=? slot then None
  else if nd_Encoding n =? EncodingDense then
    let value := nth (Z.to_nat slot) (nd_Values n) 0 in if value =? 0 then None else Some value
  else if has_bit n slot then Some (nth (Z.to_nat (rank n slot)) (nd_Values n) 0) else None.

Definition Node_LookupRef (n : Node) (slot : Z) : option RecordRef :=
  if negb (nd_Level n =? 0) || (NodeSlots <=? slot) then None
  else if nd_Encoding n =? EncodingDense then
    let value := nth (Z.to_nat slot) (nd_Values n) 0 in
    if value =? 0 then None else Some (mkRef value (nth (Z.to_nat slot) (nd_Sizes n) 0))
  else if has_bit n slot then
    let index := Z.to_nat (rank n slot) in Some (mkRef (nth index (nd_Values n) 0) (nth index (nd_Sizes n) 0))
  else None.

(** [bits.TrailingZeros64] *)
Definition TrailingZeros64 (w : Z) : nat :=
  length ((fix zeros_of (l : list bool) := match l with false :: l' => false :: zeros_of l' | _ => [] end) (word_bits w)).

(** [for word != 0 { bit := TrailingZeros64(word); slots[base+bit] = values[valueIndex]; valueIndex++; word &^= 1 << bit }];
    at most 64 bits are set. *)
Fixpoint expand_word {A} (fuel : nat) (base : nat) (word : Z) (values : list A) (slots : list A) : list A * list A :=
  match fuel with
  | O => (values, slots)
  | S fuel' =>
      if word =? 0 then (values, slots)
      else
        let bit := TrailingZeros64 word in
        let slots' := match values with v :: _ => <[(base + bit)%nat := v]> slots | [] => slots end in
        expand_word fuel' base (Z.ldiff word (Z.shiftl 1 (Z.of_nat bit))) (tail values) slots'
  end.

Fixpoint expand_words {A} (base : nat) (bitmap : list Z) (values : list A) (slots : list A) : list A :=
  match bitmap with
  | [] => slots
  | word :: rest => let '(values', slots') := expand_word 64 base word values slots in expand_words (base + 64) rest values' slots'
  end.

Definition Slots (n : Node) : list Z :=
  if nd_Encoding n =? EncodingDense then nd_Values n else expand_words 0 (nd_Bitmap n) (nd_Values n) (replicate 512 0).

Definition Refs (n : Node) : list RecordRef :=
  if negb (nd_Level n =? 0) then replicate 512 zeroRef
  else if nd_Encoding n =? EncodingDense then
    zip_with (fun value size => if value =? 0 then zeroRef else mkRef value size) (nd_Values n) (nd_Sizes n)
  else expand_words 0 (nd_Bitmap n) (zip_with mkRef (nd_Values n) (nd_Sizes n)) (replicate 512 zeroRef).

(** ** Bits of words and bitmaps *)

Lemma length_word_bits w : length (word_bits w) = 64%nat.
Proof. unfold word_bits. now rewrite length_map, length_seq. Qed.

Lemma lookup_word_bits w i : (i < 64)%nat -> word_bits w !! i = Some (Z.testbit w (Z.of_nat i)).
Proof. intros H. unfold word_bits. etrans; [apply (list_lookup_fmap (fun i => Z.testbit w (Z.of_nat i)) (seq 0 64) i)|]. now rewrite lookup_seq_lt by lia. Qed.

Lemma word_bits_ext w bs : length bs = 64%nat -> (forall i, (i < 64)%nat -> bs !! i = Some (Z.testbit w (Z.of_nat i))) -> word_bits w = bs.
Proof.
  intros Hl H. apply list_eq. intros i. destruct (Nat.lt_ge_cases i 64) as [Hi|Hi].
  - now rewrite lookup_word_bits, H.
  - now rewrite !lookup_ge_None_2 by (rewrite ?length_word_bits; lia).
Qed.

Lemma word_bits_inj a b : is_u64 a -> is_u64 b -> word_bits a = word_bits b -> a = b.
Proof.
  intros Ha Hb E. apply Z.bits_inj'. intros i Hi. destruct (Z_lt_le_dec i 64) as [H|H].
  - assert (E' : word_bits a !! Z.to_nat i = word_bits b !! Z.to_nat i) by now rewrite E.
    rewrite !lookup_word_bits in E' by lia. rewrite Z2Nat.id in E' by lia. congruence.
  - unfold is_u64 in *. rewrite <- (Z.mod_small a two64), <- (Z.mod_small b two64) by lia. change two64 with (2 ^ 64).
    now rewrite !Z.mod_pow2_bits_high by lia.
Qed.

Lemma testbit_pow k i : 0 <= k -> 0 <= i -> Z.testbit (Z.shiftl 1 k) i = (i =? k).
Proof.
  intros Hk Hi. rewrite Z.shiftl_spec by lia. destruct (i =? k) eqn:E; bool_norm.
  - subst. now rewrite Z.sub_diag.
  - destruct (Z_lt_le_dec i k); [now rewrite Z.testbit_neg_r by lia|]. change 1 with (2 ^ 0). apply Z.pow2_bits_false. lia.
Qed.

Lemma word_bits_set w k : (k < 64)%nat -> word_bits (Z.lor w (Z.shiftl 1 (Z.of_nat k))) = <[k := true]> (word_bits w).
Proof.
  intros Hk. apply word_bits_ext; [now rewrite length_insert, length_word_bits|]. intros i Hi.
  rewrite Z.lor_spec, testbit_pow by lia. destruct (Nat.eq_dec i k) as [->|Hn].
  - rewrite list_lookup_insert_eq by now rewrite length_word_bits. now rewrite Z.eqb_refl, orb_true_r.
  - rewrite list_lookup_insert_ne by lia. rewrite lookup_word_bits by exact Hi.
    replace (Z.of_nat i =? Z.of_nat k) with false by (symmetry; apply Z.eqb_neq; lia). now rewrite orb_false_r.
Qed.

Lemma word_bits_clear w k : (k < 64)%nat -> word_bits (Z.ldiff w (Z.shiftl 1 (Z.of_nat k))) = <[k := false]> (word_bits w).
Proof.
  intros Hk. apply word_bits_ext; [now rewrite length_insert, length_word_bits|]. intros i Hi.
  rewrite Z.ldiff_spec, testbit_pow by lia. destruct (Nat.eq_dec i k) as [->|Hn].
  - rewrite list_lookup_insert_eq by now rewrite length_word_bits. now rewrite Z.eqb_refl, andb_false_r.
  - rewrite list_lookup_insert_ne by lia. rewrite lookup_word_bits by exact Hi.
    replace (Z.of_nat i =? Z.of_nat k) with false by (symmetry; apply Z.eqb_neq; lia). now rewrite andb_true_r.
Qed.

Lemma word_bits_low w k : (k <= 64)%nat ->
  word_bits (Z.land w (Z.shiftl 1 (Z.of_nat k) - 1)) = take k (word_bits w) ++ replicate (64 - k) false.
Proof.
  intros Hk. apply word_bits_ext.
  { rewrite length_app, length_take, length_replicate, length_word_bits. lia. }
  intros i Hi. replace (Z.shiftl 1 (Z.of_nat k) - 1) with (Z.ones (Z.of_nat k)) by (rewrite Z.ones_equiv, Z.shiftl_1_l; lia).
  rewrite Z.land_spec. destruct (Nat.lt_ge_cases i k).
  - rewrite lookup_app_l by (rewrite length_take, length_word_bits; lia). rewrite lookup_take_lt by lia. rewrite lookup_word_bits by lia.
    rewrite Z.ones_spec_low by lia. now rewrite andb_true_r.
  - rewrite lookup_app_r by (rewrite length_take, length_word_bits; lia). rewrite length_take, length_word_bits.
    rewrite lookup_replicate_2 by lia. rewrite Z.ones_spec_high by lia. now rewrite andb_false_r.
Qed.

Lemma word_bits_0 : word_bits 0 = replicate 64 false.
Proof. reflexivity. Qed.

Lemma u64_by_bits x : 0 <= x -> (forall i, 64 <= i -> Z.testbit x i = false) -> is_u64 x.
Proof.
  intros H0 H. assert (E : x = x mod 2 ^ 64); [|unfold is_u64; pose proof (Z.mod_pos_bound x (2 ^ 64)); lia].
  apply Z.bits_inj'. intros i Hi. destruct (Z_lt_le_dec i 64); [now rewrite Z.mod_pow2_bits_low by lia|].
  rewrite Z.mod_pow2_bits_high by lia. now apply H.
Qed.

Lemma u64_high x i : is_u64 x -> 64 <= i -> Z.testbit x i = false.
Proof. unfold is_u64. intros Hx Hi. rewrite <- (Z.mod_small x (2 ^ 64)) by lia. apply Z.mod_pow2_bits_high. lia. Qed.

Lemma set_u64 w k : is_u64 w -> (k < 64)%nat -> is_u64 (Z.lor w (Z.shiftl 1 (Z.of_nat k))).
Proof.
  intros Hw Hk. apply u64_by_bits; [apply Z.lor_nonneg; split; [unfold is_u64 in Hw; lia|apply Z.shiftl_nonneg; lia]|].
  intros i Hi. rewrite Z.lor_spec, testbit_pow, u64_high by (auto; lia). apply Z.eqb_neq. lia.
Qed.

Lemma clear_u64 w k : is_u64 w -> is_u64 (Z.ldiff w k).
Proof.
  intros Hw. apply u64_by_bits; [apply Z.ldiff_nonneg; left; unfold is_u64 in Hw; lia|].
  intros i Hi. now rewrite Z.ldiff_spec, u64_high.
Qed.

Lemma count_app a b : count_true (a ++ b) = (count_true a + count_true b)%nat.
Proof. unfold count_true. now rewrite List.filter_app, length_app. Qed.

Lemma count_false n : count_true (replicate n false) = 0%nat.
Proof. induction n; [reflexivity|]. assumption. Qed.

Lemma length_bitmap_bits bm : length (bitmap_bits bm) = (64 * length bm)%nat.
Proof.
  induction bm as [|w bm IH]; [reflexivity|]. change (bitmap_bits (w :: bm)) with (word_bits w ++ bitmap_bits bm).
  rewrite length_app, length_word_bits, IH. cbn [length]. lia.
Qed.

Lemma bitmapCount_bits bm : bitmapCount bm = Z.of_nat (count_true (bitmap_bits bm)).
Proof.
  induction bm as [|w bm IH]; [reflexivity|]. unfold bitmapCount. cbn [foldr]. fold (bitmapCount bm).
  change (bitmap_bits (w :: bm)) with (word_bits w ++ bitmap_bits bm). rewrite count_app, IH. unfold OnesCount64. lia.
Qed.

(** Position [slot] lies at bit [slot mod 64] of word [slot / 64]. *)
Lemma bitmap_bits_word bm k w : bm !! k = Some w ->
  bitmap_bits bm = bitmap_bits (take k bm) ++ word_bits w ++ bitmap_bits (drop (S k) bm).
Proof.
  intros H. rewrite <- (take_drop_middle bm k w H) at 1. unfold bitmap_bits. rewrite map_app, concat_app. reflexivity.
Qed.

Lemma bitmap_bits_set bm k b w : bm !! k = Some w -> (b < 64)%nat ->
  bitmap_bits (<[k := Z.lor w (Z.shiftl 1 (Z.of_nat b))]> bm) = <[(64 * k + b)%nat := true]> (bitmap_bits bm).
Proof.
  intros H Hb. pose proof (lookup_lt_Some _ _ _ H) as Hk. rewrite (bitmap_bits_word bm k w H).
  rewrite (bitmap_bits_word (<[k := _]> bm) k _) by now apply list_lookup_insert_eq.
  rewrite take_insert_ge by lia. rewrite drop_insert_lt by lia. rewrite word_bits_set by exact Hb.
  assert (El : length (bitmap_bits (take k bm)) = (64 * k)%nat) by (rewrite length_bitmap_bits, length_take; lia).
  rewrite insert_app_r_alt by lia. rewrite El. replace (64 * k + b - 64 * k)%nat with b by lia.
  rewrite insert_app_l by now rewrite length_word_bits. reflexivity.
Qed.

(** ** Packing *)

(** The packed list expands back, bit by bit. *)
Fixpoint unpack {A} (d : A) (bits : list bool) (values : list A) : list A :=
  match bits with
  | [] => []
  | true :: bits' => match values with v :: values' => v :: unpack d bits' values' | [] => d :: unpack d bits' [] end
  | false :: bits' => d :: unpack d bits' values
  end.

Lemma unpack_app {A} (d : A) a : forall b values, (count_true a <= length values)%nat ->
  unpack d (a ++ b) values = unpack d a values ++ unpack d b (drop (count_true a) values).
Proof.
  induction a as [|[] a IH]; intros b values Hc; [reflexivity|..]; cbn [app unpack].
  - destruct values as [|v values]; [cbn in Hc; lia|]. rewrite IH by (cbn in Hc; unfold count_true in *; lia). reflexivity.
  - rewrite IH by exact Hc. reflexivity.
Qed.

Lemma length_unpack {A} (d : A) bits : forall values, length (unpack d bits values) = length bits.
Proof. induction bits as [|[] bits IH]; intros [|v values]; cbn [unpack length]; auto. Qed.

(** Expanding the filtered elements of a list gives the list, if the dropped ones
    are the default. *)
Lemma unpack_filter {A} (d : A) (f : A -> bool) l : (forall x, f x = false -> x ∈ l -> x = d) ->
  unpack d (map f l) (List.filter f l) = l.
Proof.
  induction l as [|x l IH]; intros H; [reflexivity|]. cbn [map List.filter]. destruct (f x) eqn:E; cbn [unpack].
  - f_equal. apply IH. intros y Hy Hin. apply H; [exact Hy|now constructor].
  - f_equal; [symmetry; apply H; [exact E|constructor]|]. apply IH. intros y Hy Hin. apply H; [exact Hy|now constructor].
Qed.

Lemma count_map_filter {A} (f : A -> bool) l : count_true (map f l) = length (List.filter f l).
Proof. unfold count_true. induction l as [|x l IH]; [reflexivity|]. cbn. destruct (f x); cbn; auto. Qed.

(** The element at a kept position sits at its rank. *)
Lemma nth_rank {A} (f : A -> bool) l : forall i x, l !! i = Some x -> f x = true ->
  List.filter f l !! count_true (take i (map f l)) = Some x.
Proof.
  induction l as [|y l IH]; intros i x Hi Hx; [discriminate|]. destruct i as [|i].
  - injection Hi as ->. cbn [take map List.filter]. rewrite Hx. reflexivity.
  - cbn [map take List.filter]. cbn in Hi. specialize (IH i x Hi Hx). unfold count_true in *. destruct (f y); cbn; exact IH.
Qed.

(** ** The sparse loop *)

Definition live (l : list (Z * Z)) : list (Z * Z) := List.filter (fun e => nonzero e.1) l.
Definition entry_bytes (level : Z) (l : list (Z * Z)) : list Z := concat (map (fun e => put_entry level e.1 e.2) l).

Lemma entry_bytes_app level a b : entry_bytes level (a ++ b) = entry_bytes level a ++ entry_bytes level b.
Proof. unfold entry_bytes. now rewrite map_app, concat_app. Qed.

Lemma insert_next (l : list bool) n k : length l = k -> (0 < n)%nat -> <[k := true]> (l ++ replicate n false) = (l ++ [true]) ++ replicate (n - 1) false.
Proof.
  intros <- Hn. destruct n as [|n]; [lia|]. cbn [replicate]. rewrite insert_app_r_alt by lia. rewrite Nat.sub_diag. cbn.
  now rewrite Nat.sub_0_r, <- app_assoc.
Qed.

Lemma sparse_loop_spec level values : forall sizes slot bm packed pre,
  length sizes = length values -> Z.of_nat (length pre) = slot -> (length pre + length values = 64 * length bm)%nat ->
  Forall is_u64 bm -> bitmap_bits bm = pre ++ replicate (length values) false ->
  exists bm', sparse_loop level slot values sizes (bm, packed) = (bm', packed ++ entry_bytes level (live (zip values sizes))) /\
    length bm' = length bm /\ Forall is_u64 bm' /\ bitmap_bits bm' = pre ++ map nonzero values.
Proof.
  induction values as [|v values IH]; intros [|z sizes] slot bm packed pre Hl Hs Hn Hu Hb; try discriminate Hl.
  { exists bm. unfold live, entry_bytes. cbn in Hb |- *. rewrite !app_nil_r in *. auto. }
  cbn [sparse_loop length] in *. unfold sparse_step. assert (Enz : nonzero v = negb (v =? 0)) by reflexivity. destruct (v =? 0) eqn:Ev; cbn [negb] in Enz.
  - destruct (IH sizes (slot + 1) bm packed (pre ++ [false])) as (bm' & E & H1 & H2 & H3).
    + lia.
    + rewrite length_app. cbn. lia.
    + rewrite length_app. cbn. lia.
    + exact Hu.
    + rewrite Hb, <- app_assoc. reflexivity.
    + exists bm'. rewrite E. unfold live. cbn [zip zip_with List.filter fst]. rewrite Enz.
      split; [reflexivity|]. split; [exact H1|]. split; [exact H2|]. rewrite H3, <- app_assoc. cbn [map app]. now rewrite Enz.
  - cbn [fst snd]. set (k := Z.to_nat (slot / 64)). set (b := Z.to_nat (slot mod 64)).
    assert (Hkb : (64 * k + b)%nat = length pre) by (unfold k, b; dlia).
    assert (Hb64 : (b < 64)%nat) by (unfold b; dlia). assert (Hk : (k < length bm)%nat) by lia.
    destruct (lookup_lt_is_Some_2 bm k Hk) as [w Hw]. rewrite nth_lookup, Hw. change (default 0 (Some w)) with w.
    replace (slot mod 64) with (Z.of_nat b) by (unfold b; dlia).
    assert (Huw : is_u64 w) by (eapply Forall_lookup_1; eauto).
    destruct (IH sizes (slot + 1) (<[k := Z.lor w (Z.shiftl 1 (Z.of_nat b))]> bm) (packed ++ put_entry level v z) (pre ++ [true])) as (bm' & E & H1 & H2 & H3).
    + lia.
    + rewrite length_app. cbn. lia.
    + rewrite length_app, length_insert. cbn. lia.
    + apply Forall_insert; [exact Hu|]. now apply set_u64.
    + rewrite (bitmap_bits_set bm k b w Hw Hb64), Hkb, Hb. rewrite insert_next by lia. now replace (S (length values) - 1)%nat with (length values) by lia.
    + exists bm'. rewrite E. unfold live. cbn [zip zip_with List.filter fst]. rewrite Enz.
      split; [unfold entry_bytes at 2; cbn [map concat fst snd]; now rewrite <- app_assoc|].
      split; [now rewrite H1, length_insert|]. split; [exact H2|]. rewrite H3, <- app_assoc. cbn [map app]. now rewrite Enz.
Qed.

(** ** Rank and bit tests *)

Lemma bitmap_slot bm slot w : 0 <= slot -> bm !! Z.to_nat (slot / 64) = Some w ->
  bitmap_bits bm !! Z.to_nat slot = Some (Z.testbit w (slot mod 64)) /\
  take (Z.to_nat slot) (bitmap_bits bm) = bitmap_bits (take (Z.to_nat (slot / 64)) bm) ++ take (Z.to_nat (slot mod 64)) (word_bits w).
Proof.
  intros Hs Hw. set (k := Z.to_nat (slot / 64)) in *. set (b := Z.to_nat (slot mod 64)).
  assert (Hkb : Z.to_nat slot = (64 * k + b)%nat) by (unfold k, b; dlia). assert (Hb : (b < 64)%nat) by (unfold b; dlia).
  replace (slot mod 64) with (Z.of_nat b) by (unfold b; dlia). pose proof (lookup_lt_Some _ _ _ Hw) as Hk.
  assert (El : length (bitmap_bits (take k bm)) = (64 * k)%nat) by (rewrite length_bitmap_bits, length_take; lia).
  rewrite (bitmap_bits_word bm k w Hw), Hkb. split.
  - rewrite lookup_app_r by lia. rewrite El, lookup_app_l by (rewrite length_word_bits; lia).
    rewrite lookup_word_bits by lia. do 2 f_equal. lia.
  - rewrite take_app_ge by lia. rewrite El. replace (64 * k + b - 64 * k)%nat with b by lia.
    now rewrite take_app_le by (rewrite length_word_bits; lia).
Qed.

Lemma land_pow_bit w k : 0 <= k -> negb (Z.land w (Z.shiftl 1 k) =? 0) = Z.testbit w k.
Proof.
  intros Hk. destruct (Z.land w (Z.shiftl 1 k) =? 0) eqn:E; bool_norm; cbn [negb].
  - assert (H : Z.testbit (Z.land w (Z.shiftl 1 k)) k = false) by now rewrite E, Z.bits_0.
    rewrite Z.land_spec, testbit_pow, Z.eqb_refl, andb_true_r in H by lia. now symmetry.
  - destruct (Z.testbit w k) eqn:Et; [reflexivity|]. exfalso. apply E. apply Z.bits_inj'. intros i Hi.
    rewrite Z.land_spec, testbit_pow, Z.bits_0 by lia. destruct (i =? k) eqn:Ei; bool_norm; [subst; now rewrite Et|apply andb_false_r].
Qed.

Lemma rank_spec n slot : length (nd_Bitmap n) = 8%nat -> 0 <= slot < 512 ->
  has_bit n slot = nth (Z.to_nat slot) (bitmap_bits (nd_Bitmap n)) false /\
  rank n slot = Z.of_nat (count_true (take (Z.to_nat slot) (bitmap_bits (nd_Bitmap n)))).
Proof.
  intros Hl Hs. assert (Hk : (Z.to_nat (slot / 64) < length (nd_Bitmap n))%nat) by (rewrite Hl; dlia).
  destruct (lookup_lt_is_Some_2 _ _ Hk) as [w Hw]. destruct (bitmap_slot _ slot w ltac:(lia) Hw) as [Eb Et].
  unfold has_bit, rank. cbv zeta. rewrite !(nth_lookup (nd_Bitmap n)), Hw. change (default 0 (Some w)) with w. split.
  - rewrite land_pow_bit by (pose proof (Z.mod_pos_bound slot 64); lia). now rewrite nth_lookup, Eb.
  - rewrite Et, count_app. fold (bitmapCount (take (Z.to_nat (slot / 64)) (nd_Bitmap n))). rewrite bitmapCount_bits. unfold OnesCount64.
    pose proof (Z.mod_pos_bound slot 64). replace (slot mod 64) with (Z.of_nat (Z.to_nat (slot mod 64))) at 1 by lia.
    rewrite word_bits_low by lia. rewrite count_app, count_false. lia.
Qed.

(** ** Expansion *)

Definition leading_false : list bool -> list bool :=
  fix zeros_of (l : list bool) := match l with false :: l' => false :: zeros_of l' | _ => [] end.

Lemma trailing_zeros w i bs : word_bits w = replicate i false ++ true :: bs -> TrailingZeros64 w = i.
Proof.
  intros E. unfold TrailingZeros64. rewrite E. fold leading_false. clear E. induction i as [|i IH]; [reflexivity|]. cbn. now rewrite IH.
Qed.

Lemma word_zero w : is_u64 w -> word_bits w = replicate 64 false -> w = 0.
Proof. intros Hw E. apply word_bits_inj; [exact Hw|unfold is_u64; lia|now rewrite E, word_bits_0]. Qed.

Lemma expand_word_spec {A} (d : A) base bs : forall i fuel w values pre post,
  (i + length bs = 64)%nat -> word_bits w = replicate i false ++ bs -> is_u64 w -> length pre = (base + i)%nat ->
  (count_true bs <= fuel)%nat -> (count_true bs <= length values)%nat ->
  expand_word fuel base w values (pre ++ replicate (length bs) d ++ post) =
    (drop (count_true bs) values, pre ++ unpack d bs values ++ post).
Proof.
  induction bs as [|b bs IH]; intros i fuel w values pre post Hi Hb Hw Hp Hf Hv.
  - cbn in Hi. rewrite Nat.add_0_r in Hi. subst i. rewrite app_nil_r in Hb. rewrite (word_zero w Hw Hb). destruct fuel; reflexivity.
  - cbn [length] in Hi. destruct b.
    + destruct fuel as [|fuel]; [cbn in Hf; lia|]. destruct values as [|v values]; [cbn in Hv; lia|].
      assert (Hi64 : (i < 64)%nat) by lia. cbn [expand_word].
      assert ((w =? 0) = false) as ->.
      { apply Z.eqb_neq. intros ->. rewrite word_bits_0 in Hb. assert (H : replicate 64 false !! i = Some true).
        { rewrite Hb. rewrite lookup_app_r by (rewrite length_replicate; lia). now rewrite length_replicate, Nat.sub_diag. }
        apply lookup_replicate in H as [H _]. discriminate. }
      rewrite (trailing_zeros w i bs Hb). cbn [tail length replicate app unpack].
      rewrite <- Hp. rewrite insert_app_r_alt by lia. rewrite Nat.sub_diag. cbn [insert list_insert].
      replace (pre ++ v :: replicate (length bs) d ++ post) with ((pre ++ [v]) ++ replicate (length bs) d ++ post) by now rewrite <- app_assoc.
      rewrite (IH (S i) fuel _ values (pre ++ [v]) post).
      * rewrite <- app_assoc. reflexivity.
      * lia.
      * rewrite word_bits_clear by exact Hi64. rewrite Hb. rewrite insert_app_r_alt by (rewrite length_replicate; lia).
        rewrite length_replicate, Nat.sub_diag. cbn [insert list_insert]. rewrite replicate_S_end, <- app_assoc. reflexivity.
      * now apply clear_u64.
      * rewrite length_app. cbn. lia.
      * cbn in Hf. unfold count_true. lia.
      * cbn in Hv. unfold count_true. lia.
    + cbn [length replicate app unpack].
      replace (pre ++ d :: replicate (length bs) d ++ post) with ((pre ++ [d]) ++ replicate (length bs) d ++ post) by now rewrite <- app_assoc.
      rewrite (IH (S i) fuel w values (pre ++ [d]) post); auto; try lia.
      * rewrite <- app_assoc. reflexivity.
      * rewrite Hb, replicate_S_end, <- app_assoc. reflexivity.
      * rewrite length_app. cbn. lia.
Qed.

Lemma count_le bs : (count_true bs <= length bs)%nat.
Proof. unfold count_true. apply List.filter_length_le. Qed.

Lemma expand_words_spec {A} (d : A) bm : forall base values pre, length pre = base -> Forall is_u64 bm ->
  (count_true (bitmap_bits bm) <= length values)%nat ->
  expand_words base bm values (pre ++ replicate (64 * length bm) d) = pre ++ unpack d (bitmap_bits bm) values.
Proof.
  induction bm as [|w bm IH]; intros base values pre Hp Hu Hc; [cbn; now rewrite app_nil_r|].
  apply Forall_cons_iff in Hu as [Hw Hu]. change (bitmap_bits (w :: bm)) with (word_bits w ++ bitmap_bits bm) in *. rewrite count_app in Hc.
  cbn [expand_words]. replace (64 * length (w :: bm))%nat with (length (word_bits w) + 64 * length bm)%nat by (rewrite length_word_bits; cbn [length]; lia).
  rewrite replicate_add. rewrite (expand_word_spec d base (word_bits w) 0 64 w values pre); auto; try lia.
  2:{ pose proof (count_le (word_bits w)) as Hle. rewrite length_word_bits in Hle. exact Hle. }
  rewrite (app_assoc pre), IH.
  - rewrite <- app_assoc. rewrite unpack_app by lia. reflexivity.
  - rewrite length_app, length_unpack, length_word_bits. lia.
  - exact Hu.
  - rewrite length_drop. lia.
Qed.

(** ** Reading entries back *)

Definition entry_u (e : Z * Z) : Prop := is_u64 e.1 /\ is_u32 e.2.
Definition entry_width (level : Z) : nat := if level =? 0 then 12 else 8.
Definition sizes_of (level : Z) (es : list (Z * Z)) : list Z := if level =? 0 then map snd es else [].

Lemma length_entry level v z : length (put_entry level v z) = entry_width level.
Proof. unfold put_entry, entry_width. rewrite length_app, length_put_le. destruct (level =? 0); [now rewrite length_put_le|reflexivity]. Qed.

Lemma length_entry_bytes level es : length (entry_bytes level es) = (entry_width level * length es)%nat.
Proof.
  induction es as [|e es IH]; [unfold entry_bytes; cbn; lia|]. change (entry_bytes level (e :: es)) with (put_entry level e.1 e.2 ++ entry_bytes level es).
  rewrite length_app, length_entry, IH. cbn [length]. lia.
Qed.

Lemma entry_bytes_ok level es : bytes_ok (entry_bytes level es).
Proof.
  induction es as [|e es IH]; [constructor|]. change (entry_bytes level (e :: es)) with (put_entry level e.1 e.2 ++ entry_bytes level es).
  apply bytes_ok_app. split; [|exact IH]. unfold put_entry. apply bytes_ok_app. split; [apply put_le_bytes|].
  destruct (level =? 0); [apply put_le_bytes|constructor].
Qed.

Lemma slice_at pre f n post : length f = n -> slice (length pre) (length pre + n) (pre ++ f ++ post) = f.
Proof.
  intros <-. rewrite (slice_skip pre (length pre)) by (reflexivity || apply Nat.leb_le; lia). rewrite Nat.sub_diag.
  replace (length pre + length f - length pre)%nat with (length f) by lia.
  apply (slice_here f (length f)); [reflexivity|apply Nat.eqb_refl].
Qed.

Lemma read_entries_spec level es : forall pre post, Forall entry_u es ->
  read_entries level (length es) (length pre) (pre ++ entry_bytes level es ++ post) = (map fst es, sizes_of level es).
Proof.
  unfold sizes_of. induction es as [|[v z] es IH]; intros pre post Hu; [cbn; now destruct (level =? 0)|].
  apply Forall_cons_iff in Hu as [[Hv Hz] Hu]. cbn [fst snd] in *. cbn [length read_entries].
  change (entry_bytes level ((v, z) :: es)) with (put_entry level v z ++ entry_bytes level es). rewrite <- (app_assoc (put_entry level v z)).
  specialize (IH (pre ++ put_entry level v z) post Hu). rewrite length_app, length_entry, <- app_assoc in IH.
  fold (entry_width level). rewrite IH. cbn [map fst snd]. unfold put_entry in *.
  assert (E1 : u64 (length pre) (pre ++ (put_le 8 v ++ (if level =? 0 then put_le 4 z else [])) ++ entry_bytes level es ++ post) = v).
  { unfold u64. rewrite <- app_assoc, slice_at by apply length_put_le. now apply get_put_64. }
  rewrite E1. destruct (level =? 0); [|reflexivity].
  assert (E2 : u32 (length pre + 8) (pre ++ (put_le 8 v ++ put_le 4 z) ++ entry_bytes level es ++ post) = z); [|now rewrite E2].
  unfold u32. rewrite <- app_assoc, app_assoc. replace (length pre + 8)%nat with (length (pre ++ put_le 8 v)) by (rewrite length_app, length_put_le; reflexivity).
  rewrite slice_at by apply length_put_le. now apply get_put_32.
Qed.

(** The words of a bitmap. *)
Lemma read_bitmap bm post : length bm = 8%nat -> Forall is_u64 bm ->
  map (fun i => u64 (8 * i) (concat (map (put_le 8) bm) ++ post)) (seq 0 8) = bm.
Proof.
  intros Hl Hu. do 8 (destruct bm as [|? bm]; [discriminate Hl|]). destruct bm; [|discriminate Hl].
  repeat (apply Forall_cons_iff in Hu as [? Hu]). cbn [map seq concat]. rewrite app_nil_r, <- !app_assoc. cbn [Nat.mul]. fields.
  now rewrite !get_put_64 by assumption.
Qed.

(** ** The header *)

#[export] Instance HasLen_node_fields l e s n p c k q : HasLen (node_fields l e s n p c k q) 48.
Proof. unfold HasLen, node_fields, zeros. rewrite !length_app, !length_put_le, length_replicate. reflexivity. Qed.

Lemma headerChecksum_ignores fields crc crc' : length fields = 48%nat -> length crc = 4%nat -> length crc' = 4%nat ->
  headerChecksum (node_header fields crc) = headerChecksum (node_header fields crc').
Proof.
  intros Hf Hc Hc'. unfold headerChecksum, node_header. assert (HasLen fields 48) by exact Hf.
  assert (HasLen crc 4) by exact Hc. assert (HasLen crc' 4) by exact Hc'. do 2 f_equal; [fields; reflexivity|].
  f_equal. rewrite !(slice_skip fields 48) by field_side. cbn [Nat.sub].
  rewrite (slice_skip crc 4), (slice_skip crc' 4) by field_side. reflexivity.
Qed.

Lemma node_header_bytes fields crc : bytes_ok fields -> bytes_ok crc -> bytes_ok (node_header fields crc).
Proof. intros. unfold node_header. solve_bytes. Qed.

Record header_ok (level encoding size nodeSeq prefix covered count : Z) : Prop := mkHeaderOk {
  ho_level : is_u8 level;
  ho_encoding : is_u8 encoding;
  ho_size : is_u32 size /\ 64 <= size /\ Z.land size 7 = 0;
  ho_seq : is_u64 nodeSeq /\ nodeSeq <> 0;
  ho_prefix : is_u64 prefix /\ validPrefix level prefix = true;
  ho_covered : is_u64 covered /\ covered <> 0;
  ho_count : 0 < count <= 512;
  ho_shape : (encoding = EncodingSparse /\ size = sparse_size level count) \/ (encoding = EncodingDense /\ size = dense_size level);
}.

Lemma node_fields_bytes l e s n p c k q : is_u8 l -> is_u8 e -> bytes_ok (node_fields l e s n p c k q).
Proof. intros. unfold node_fields, nodeMagic. solve_bytes; unfold is_u8 in *; lia. Qed.

Lemma decodeNodeHeader_encoded level encoding size nodeSeq prefix covered count pcrc rest remaining :
  header_ok level encoding size nodeSeq prefix covered count -> is_u32 pcrc -> size <= remaining ->
  let f := node_fields level encoding size nodeSeq prefix covered count pcrc in
  let src := node_header f (put_le 4 (headerChecksum (node_header f (zeros 4)))) ++ rest in
  decodeNodeHeader src remaining = Ok (mkNode level encoding nodeSeq prefix covered count (replicate 8 0) [] [], size) /\ u32 44 src = pcrc.
Proof.
  intros [Hl He (Hs & Hs64 & Hs7) (Hn & Hn0) (Hp & Hvp) (Hc & Hc0) Hk Hsh] Hq Hrem f src.
  set (crc := headerChecksum (node_header f (zeros 4))) in *. set (h := node_header f (put_le 4 crc)) in *.
  assert (Hcrc : is_u32 crc).
  { apply Checksum_u32. pose proof (node_header_bytes f (zeros 4) (node_fields_bytes _ _ _ _ _ _ _ _ Hl He) (bytes_ok_zeros 4)) as Hb.
    apply bytes_ok_app. split; [now apply bytes_ok_slice|]. apply bytes_ok_app. split; [apply bytes_ok_zeros|now apply bytes_ok_slice]. }
  assert (Hlen : length h = 64%nat).
  { unfold h, node_header, f, zeros. rewrite !length_app, !length_put_le, !length_replicate, (@has_len _ _ (HasLen_node_fields _ _ _ _ _ _ _ _)). reflexivity. }
  assert (Hhl : HasLen h 64) by exact Hlen.
  assert (E0 : slice 0 64 src = h) by (unfold src; rewrite (slice_here h 64) by field_side; reflexivity).
  assert (Ef : slice 0 8 h = nodeMagic /\ u16 8 h = 3 /\ byte_at 10 h = level /\ byte_at 11 h = encoding /\ u32 12 h = size /\ u64 16 h = nodeSeq /\
     u64 24 h = prefix /\ u64 32 h = covered /\ u16 40 h = count /\ u16 42 h = 0 /\ u32 44 h = pcrc /\ u32 48 h = crc /\ u32 52 h = 0 /\ u64 56 h = 0).
  { unfold h, node_header, f, node_fields. rewrite <- !app_assoc. assert (HasLen nodeMagic 8) by reflexivity. fields.
    rewrite !get_put_32, !get_put_64, !get_put_16 by (try assumption; unfold is_u16, NodeFormatVersion; lia). repeat split; reflexivity. }
  assert (E44 : u32 44 src = u32 44 h).
  { unfold u32, src, slice. cbn [Nat.add Nat.sub]. rewrite drop_app_le by lia. rewrite take_app_le by (rewrite length_drop; lia). reflexivity. }
  destruct Ef as (F1 & F2 & F3 & F4 & F5 & F6 & F7 & F8 & F9 & F10 & F11 & F12 & F13 & F14). split; [|congruence].
  assert (Ecs : headerChecksum h = crc).
  { apply headerChecksum_ignores; [apply HasLen_node_fields|apply length_put_le|reflexivity]. }
  unfold decodeNodeHeader, NodeHeaderSize. assert (Hlsrc : 64 <= len src) by (unfold src; rewrite len_app; pose proof (len_nonneg rest); unfold len in *; lia).
  replace (len src <? 64) with false by (symmetry; apply Z.ltb_ge; lia). rewrite E0. cbv zeta.
  rewrite F1, F2, F3, F4, F5, F6, F7, F8, F9, F10, F12, F13, F14, Ecs, !Z.eqb_refl, Hs7. rewrite bool_decide_eq_true_2 by reflexivity. cbn [negb orb].
  cbn [nd_NodeSeq nd_CoveredCommitSeq nd_EntryCount nd_Level nd_Prefix nd_Encoding]. rewrite Hvp.
  change (3 =? NodeFormatVersion) with true. change (0 =? 0) with true. cbn [negb orb]. unfold NodeSlots.
  replace (size <? 64) with false by (symmetry; apply Z.ltb_ge; lia). replace (remaining <? size) with false by (symmetry; apply Z.ltb_ge; lia).
  replace (nodeSeq =? 0) with false by (symmetry; apply Z.eqb_neq; lia). replace (covered =? 0) with false by (symmetry; apply Z.eqb_neq; lia).
  replace (count =? 0) with false by (symmetry; apply Z.eqb_neq; lia). replace (512 <? count) with false by (symmetry; apply Z.ltb_ge; lia). cbn [orb].
  destruct Hsh as [[-> ->]|[-> ->]]; cbn [Z.eqb Pos.eqb EncodingSparse EncodingDense]; unfold EncodingSparse, EncodingDense; cbn [Z.eqb Pos.eqb];
    rewrite Z.eqb_refl; reflexivity.
Qed.

(** ** What a node shows *)

Definition pairs (b : NodeBuild) : list (Z * Z) := zip (nb_Slots b) (nb_Sizes b).

Record build_u (b : NodeBuild) : Prop := mkBuildU {
  bu_level : is_u8 (nb_Level b);
  bu_seq : is_u64 (nb_NodeSeq b);
  bu_prefix : is_u64 (nb_Prefix b);
  bu_covered : is_u64 (nb_CoveredCommitSeq b);
  bu_slots : length (nb_Slots b) = 512%nat /\ Forall is_u64 (nb_Slots b);
  bu_sizes : length (nb_Sizes b) = 512%nat /\ Forall is_u32 (nb_Sizes b);
}.

(** A decoded node holds the slots of [b], packed or not. *)
Record node_holds (b : NodeBuild) (n : Node) : Prop := mkHolds {
  nh_level : nd_Level n = nb_Level b;
  nh_seq : nd_NodeSeq n = nb_NodeSeq b;
  nh_prefix : nd_Prefix n = nb_Prefix b;
  nh_covered : nd_CoveredCommitSeq n = nb_CoveredCommitSeq b;
  nh_count : nd_EntryCount n = countValues (nb_Slots b);
  nh_values :
    (nd_Encoding n = EncodingDense /\ nd_Values n = nb_Slots b /\ nd_Sizes n = sizes_of (nb_Level b) (pairs b)) \/
    (nd_Encoding n = EncodingSparse /\ length (nd_Bitmap n) = 8%nat /\ Forall is_u64 (nd_Bitmap n) /\
     bitmap_bits (nd_Bitmap n) = map nonzero (nb_Slots b) /\
     nd_Values n = map fst (live (pairs b)) /\ nd_Sizes n = sizes_of (nb_Level b) (live (pairs b)));
}.

Lemma live_values slots : forall sizes, length sizes = length slots -> map fst (live (zip slots sizes)) = List.filter nonzero slots.
Proof.
  induction slots as [|v slots IH]; intros [|z sizes] H; try discriminate; [reflexivity|].
  unfold live in *. cbn [zip zip_with List.filter fst]. destruct (nonzero v); cbn [map fst]; rewrite IH by (cbn in H; lia); reflexivity.
Qed.

Lemma map_fst_zip (slots sizes : list Z) : length sizes = length slots -> map fst (zip slots sizes) = slots.
Proof.
  revert sizes. induction slots as [|v slots IH]; intros [|z sizes] H; try discriminate; [reflexivity|]. cbn. f_equal. apply IH. cbn in H. lia.
Qed.

Lemma map_snd_zip (slots sizes : list Z) : length sizes = length slots -> map snd (zip slots sizes) = sizes.
Proof.
  revert sizes. induction slots as [|v slots IH]; intros [|z sizes] H; try discriminate; [reflexivity|]. cbn. f_equal. apply IH. cbn in H. lia.
Qed.

Lemma nonzero_map (slots sizes : list Z) : length sizes = length slots -> map (fun e => nonzero e.1) (zip slots sizes) = map nonzero slots.
Proof. intros H. rewrite <- (map_map fst nonzero), map_fst_zip by exact H. reflexivity. Qed.

Definition ref_of (e : Z * Z) : RecordRef := mkRef e.1 e.2.

Section Holds.
Context (b : NodeBuild) (n : Node) (Hb : build_u b) (Hn : node_holds b n).

Lemma pairs_length : length (nb_Sizes b) = length (nb_Slots b).
Proof. destruct (bu_slots b Hb) as [-> _], (bu_sizes b Hb) as [-> _]. reflexivity. Qed.

Lemma lookup_pairs slot : (slot < 512)%nat ->
  pairs b !! slot = Some (nth slot (nb_Slots b) 0, nth slot (nb_Sizes b) 0).
Proof.
  intros H. unfold pairs. destruct (bu_slots b Hb) as [L1 _], (bu_sizes b Hb) as [L2 _].
  destruct (lookup_lt_is_Some_2 (nb_Slots b) slot ltac:(lia)) as [v Hv]. destruct (lookup_lt_is_Some_2 (nb_Sizes b) slot ltac:(lia)) as [z Hz].
  rewrite !nth_lookup, Hv, Hz. rewrite lookup_zip_with, Hv, Hz. reflexivity.
Qed.

(** In a sparse node the entry of a set slot is at its rank. *)
Lemma sparse_entry slot : 0 <= slot < 512 -> nd_Encoding n = EncodingSparse ->
  has_bit n slot = nonzero (nth (Z.to_nat slot) (nb_Slots b) 0) /\
  (has_bit n slot = true ->
     live (pairs b) !! Z.to_nat (rank n slot) = Some (nth (Z.to_nat slot) (nb_Slots b) 0, nth (Z.to_nat slot) (nb_Sizes b) 0)).
Proof.
  intros Hs He. destruct (nh_values b n Hn) as [[E _]|(_ & Hl & Hu & Hbits & Hv & Hz)]; [rewrite E in He; discriminate|].
  destruct (rank_spec n slot Hl Hs) as [Eb Er]. rewrite Hbits in Eb, Er.
  assert (E1 : has_bit n slot = nonzero (nth (Z.to_nat slot) (nb_Slots b) 0)).
  { rewrite Eb. change false with (nonzero 0). apply map_nth. }
  split; [exact E1|]. intros Ht. rewrite Er, Nat2Z.id. rewrite <- (nonzero_map (nb_Slots b) (nb_Sizes b)) by apply pairs_length.
  apply (nth_rank (fun e => nonzero e.1) (pairs b)); [apply lookup_pairs; lia|]. cbn. congruence.
Qed.

Lemma Node_Lookup_spec slot : 0 <= slot < 512 ->
  Node_Lookup n slot = let v := nth (Z.to_nat slot) (nb_Slots b) 0 in if v =? 0 then None else Some v.
Proof.
  intros Hs. unfold Node_Lookup, NodeSlots. replace (512 <=? slot) with false by (symmetry; apply Z.leb_gt; lia). cbv zeta.
  destruct (nh_values b n Hn) as [(-> & -> & _)|(He & _ & _ & _ & Hv & _)]; [reflexivity|].
  rewrite He. cbn [EncodingSparse EncodingDense Z.eqb Pos.eqb]. change (EncodingSparse =? EncodingDense) with false. cbv iota.
  destruct (sparse_entry slot Hs He) as [Eb Er]. destruct (has_bit n slot) eqn:E.
  - specialize (Er eq_refl). symmetry in Eb. unfold nonzero in Eb. apply negb_true_iff in Eb. rewrite Eb, Hv.
    f_equal. rewrite nth_lookup, list_lookup_fmap, Er. reflexivity.
  - symmetry in Eb. unfold nonzero in Eb. apply negb_false_iff in Eb. now rewrite Eb.
Qed.

Lemma Node_LookupRef_spec slot : 0 <= slot < 512 -> nb_Level b = 0 ->
  Node_LookupRef n slot = let v := nth (Z.to_nat slot) (nb_Slots b) 0 in
    if v =? 0 then None else Some (mkRef v (nth (Z.to_nat slot) (nb_Sizes b) 0)).
Proof.
  intros Hs Hl. unfold Node_LookupRef, NodeSlots. rewrite (nh_level b n Hn), Hl. cbn [negb orb Z.eqb].
  replace (512 <=? slot) with false by (symmetry; apply Z.leb_gt; lia). cbv zeta.
  destruct (nh_values b n Hn) as [(-> & -> & ->)|(He & _ & _ & _ & Hv & Hz)].
  - unfold sizes_of, pairs. rewrite Hl, map_snd_zip by apply pairs_length. reflexivity.
  - rewrite He. change (EncodingSparse =? EncodingDense) with false. cbv iota. rewrite Hv, Hz. unfold sizes_of. rewrite Hl. cbn [Z.eqb].
    destruct (sparse_entry slot Hs He) as [Eb Er]. destruct (has_bit n slot) eqn:E.
    + specialize (Er eq_refl). symmetry in Eb. unfold nonzero in Eb. apply negb_true_iff in Eb. rewrite Eb.
      f_equal. rewrite (nth_lookup (map fst _)), (nth_lookup (map snd _)), !list_lookup_fmap, Er. reflexivity.
    + symmetry in Eb. unfold nonzero in Eb. apply negb_false_iff in Eb. now rewrite Eb.
Qed.

Lemma Slots_spec : Slots n = nb_Slots b.
Proof.
  unfold Slots. destruct (nh_values b n Hn) as [(-> & -> & _)|(He & Hl & Hu & Hbits & Hv & _)]; [reflexivity|].
  rewrite He. change (EncodingSparse =? EncodingDense) with false. cbv iota.
  pose proof (expand_words_spec 0 (nd_Bitmap n) 0 (nd_Values n) [] eq_refl Hu) as E. rewrite Hl in E. cbn [app] in E.
  change (64 * 8)%nat with 512%nat in E. unfold pairs in Hv. rewrite live_values in Hv by apply pairs_length.
  rewrite E, Hbits, Hv.
  - apply unpack_filter. intros x Hx _. unfold nonzero in Hx. bool_norm. exact Hx.
  - rewrite Hbits, Hv, count_map_filter. lia.
Qed.

(** A leaf's zero slots have zero sizes. *)
Lemma Refs_spec : nb_Level b = 0 -> (forall e, e ∈ pairs b -> e.1 = 0 -> e.2 = 0) -> Refs n = map ref_of (pairs b).
Proof.
  intros Hl Hz0. unfold Refs. rewrite (nh_level b n Hn), Hl. cbn [negb Z.eqb].
  destruct (nh_values b n Hn) as [(-> & -> & ->)|(He & Hlb & Hu & Hbits & Hv & Hz)].
  - change (EncodingDense =? EncodingDense) with true. cbv iota. unfold sizes_of. rewrite Hl. cbn [Z.eqb].
    unfold pairs in *. rewrite map_snd_zip by apply pairs_length.
    apply list_eq. intros i. rewrite lookup_zip_with. change (map ref_of (zip (nb_Slots b) (nb_Sizes b))) with (ref_of <$> zip (nb_Slots b) (nb_Sizes b)).
    rewrite list_lookup_fmap, lookup_zip_with. destruct (nb_Slots b !! i) as [v|] eqn:Ev; [|reflexivity]. destruct (nb_Sizes b !! i) as [z|] eqn:Ez; [|reflexivity].
    cbn. f_equal. destruct (v =? 0) eqn:E0; [|reflexivity]. bool_norm. subst v. unfold zeroRef, ref_of. cbn. f_equal. symmetry.
    apply (Hz0 (0, z)); [|reflexivity]. apply (list_elem_of_lookup_2 _ i). rewrite lookup_zip_with, Ev, Ez. reflexivity.
  - rewrite He. change (EncodingSparse =? EncodingDense) with false. cbv iota. rewrite Hv, Hz. unfold sizes_of. rewrite Hl. cbn [Z.eqb].
    assert (Ezip : zip_with mkRef (map fst (live (pairs b))) (map snd (live (pairs b))) = List.filter (fun r => nonzero (Addr r)) (map ref_of (pairs b))).
    { unfold live. generalize (pairs b) as l. induction l as [|e l IH]; [reflexivity|]. cbn [map List.filter]. unfold ref_of at 1. cbn [Addr].
      destruct (nonzero e.1); cbn [map zip_with]; rewrite <- IH; reflexivity. }
    rewrite Ezip. pose proof (expand_words_spec zeroRef (nd_Bitmap n) 0 (List.filter (fun r => nonzero (Addr r)) (map ref_of (pairs b))) [] eq_refl Hu) as E.
    rewrite Hlb in E. cbn [app] in E. change (64 * 8)%nat with 512%nat in E.
    assert (Ebits : bitmap_bits (nd_Bitmap n) = map (fun r => nonzero (Addr r)) (map ref_of (pairs b))).
    { rewrite Hbits, map_map. unfold ref_of. cbn [Addr]. symmetry. apply nonzero_map, pairs_length. }
    rewrite E, Ebits.
    + apply unpack_filter. intros r Hr Hin. apply list_elem_of_In, in_map_iff in Hin as (e & <- & Hin). unfold nonzero in Hr. cbn in Hr. bool_norm.
      unfold ref_of, zeroRef. rewrite Hr. f_equal. apply Hz0; [now apply list_elem_of_In|exact Hr].
    + rewrite Ebits, count_map_filter. lia.
Qed.
End Holds.

(** ** Validation by entry *)

Definition entry_valid (level : Z) (e : Z * Z) : Prop :=
  if e.1 =? 0 then (level = 0 -> e.2 = 0)
  else if level =? 0 then RecordRef_Valid (ref_of e) = true
  else e.2 = 0 /\ is_ok (ParseMapAddr e.1) = true.

Lemma validate_zip level values : forall sizes, length sizes = length values ->
  (validate_slots level values sizes = true <-> Forall (entry_valid level) (zip values sizes)).
Proof.
  induction values as [|v values IH]; intros [|z sizes] Hl; try discriminate; [now split; [constructor|]|].
  cbn [validate_slots nth tail zip zip_with]. rewrite Forall_cons_iff, andb_true_iff, IH by (cbn in Hl; lia).
  unfold entry_valid at 2. cbn [fst snd]. apply and_iff_compat_r.
  replace (len (z :: sizes) =? 0) with false by (symmetry; apply Z.eqb_neq; rewrite len_cons; pose proof (len_nonneg sizes); lia). cbn [negb andb].
  destruct (v =? 0).
  - destruct (level =? 0) eqn:E; bool_norm; cbn [andb negb]; [|split; [intros _ ?; contradiction|reflexivity]].
    destruct (z =? 0) eqn:Ez; bool_norm; cbn [negb]; split; auto; try discriminate.
  - destruct (level =? 0); [reflexivity|]. destruct (z =? 0) eqn:Ez; bool_norm; cbn [negb]; split; [auto|tauto|discriminate|intros [? _]; contradiction].
Qed.

Lemma validate_plain level values : level <> 0 ->
  (validate_slots level values [] = true <-> Forall (fun v => v = 0 \/ is_ok (ParseMapAddr v) = true) values).
Proof.
  intros Hl. induction values as [|v values IH]; [now split; [constructor|]|]. cbn [validate_slots nth tail]. rewrite Forall_cons_iff, andb_true_iff, IH.
  apply and_iff_compat_r. replace (level =? 0) with false by (symmetry; now apply Z.eqb_neq). change (len (@nil Z) =? 0) with true. cbn [andb negb].
  destruct (v =? 0) eqn:E; bool_norm; cbn; [tauto|]. split; [auto|intros [?|?]; [contradiction|assumption]].
Qed.

(** Any selection of valid entries passes, with or without the sizes of an
    internal node. *)
Lemma validate_selection level es : Forall (entry_valid level) es -> validateValues level (map fst es) (sizes_of level es) = true.
Proof.
  intros H. unfold validateValues, sizes_of. destruct (level =? 0) eqn:E; bool_norm.
  - subst level. rewrite !len_map, Z.eqb_refl. cbn [negb andb orb]. apply validate_zip; [now rewrite !length_map|].
    replace (zip (map fst es) (map snd es)) with es; [exact H|]. clear. induction es as [|[v z] es IH]; [reflexivity|]. cbn. now rewrite <- IH.
  - change (len (@nil Z) =? 0) with true. cbn [negb andb orb]. apply validate_plain; [exact E|]. apply Forall_map. eapply Forall_impl; [exact H|].
    intros [v z]. unfold entry_valid. cbn. destruct (v =? 0) eqn:Ev; bool_norm; [auto|]. replace (level =? 0) with false by (symmetry; now apply Z.eqb_neq). tauto.
Qed.

(** ** Decoding what was encoded *)

Lemma align_spec x : 0 <= x -> x <= alignNodeSize x < x + 8 /\ alignNodeSize x mod 8 = 0.
Proof. intros H. unfold alignNodeSize. rewrite ldiff_7. dlia. Qed.

Lemma countValues_bound slots : length slots = 512%nat -> 0 <= countValues slots <= 512.
Proof. intros H. unfold countValues, len. pose proof (List.filter_length_le nonzero slots). lia. Qed.

(** Sizes of the two shapes. *)
Lemma shape_sizes level count : 0 <= count <= 512 ->
  (count < 504 -> 128 + Z.of_nat (entry_width level) * count <= sparse_size level count <= 8000 /\ sparse_size level count mod 8 = 0) /\
  dense_size level = 64 + Z.of_nat (entry_width level) * 512 /\ dense_size level mod 8 = 0 /\ dense_size level <= 8000.
Proof.
  intros Hc. unfold sparse_size, dense_size, entry_width, DenseLeafNodeSize, DenseInternalNodeSize, NodeHeaderSize, SparseBitmapBytes, NodeSlots.
  destruct (level =? 0).
  - pose proof (align_spec (64 + 64 + count * 12) ltac:(lia)). split; [lia|]. split; [lia|]. split; [reflexivity|lia].
  - pose proof (align_spec (64 + 64 + count * 8) ltac:(lia)). split; [lia|]. split; [lia|]. split; [reflexivity|lia].
Qed.

(** The top node uses only two slots. *)
Lemma top_bitmap bm slots : length bm = 8%nat -> Forall is_u64 bm -> bitmap_bits bm = map nonzero slots -> length slots = 512%nat ->
  topSlotsEmpty slots = true -> topBitmapEmpty bm = true.
Proof.
  intros Hl Hu Hb Hs Ht. assert (Hz : forall i, (2 <= i)%nat -> (i < 512)%nat -> bitmap_bits bm !! i = Some false).
  { intros i H2 Hi. rewrite Hb. change (map nonzero slots) with (nonzero <$> slots). rewrite list_lookup_fmap.
    destruct (lookup_lt_is_Some_2 slots i ltac:(lia)) as [v Hv]. rewrite Hv. cbn. f_equal.
    assert (Hd : drop 2 slots !! (i - 2)%nat = Some v) by (rewrite lookup_drop; now replace (2 + (i - 2))%nat with i by lia).
    unfold topSlotsEmpty in Ht. rewrite forallb_forall in Ht. specialize (Ht v (proj1 (list_elem_of_In _ _) (list_elem_of_lookup_2 _ _ _ Hd))).
    unfold nonzero. now rewrite Ht. }
  destruct bm as [|w bm]; [discriminate|]. apply Forall_cons_iff in Hu as [Hw Hu]. unfold topBitmapEmpty. cbn [nth tail]. apply andb_true_iff. split.
  - apply Z.eqb_eq, word_bits_inj; [now apply clear_u64|unfold is_u64; lia|]. rewrite word_bits_0. apply word_bits_ext; [reflexivity|]. intros i Hi.
    rewrite lookup_replicate_2 by exact Hi. f_equal. rewrite Z.ldiff_spec. destruct (Nat.lt_ge_cases i 2) as [H2|H2].
    + destruct i as [|[|]]; [..|lia]; change 3 with (Z.ones 2); rewrite Z.ones_spec_low by lia; now rewrite andb_false_r.
    + specialize (Hz i H2 ltac:(lia)). change (bitmap_bits (w :: bm)) with (word_bits w ++ bitmap_bits bm) in Hz.
      rewrite lookup_app_l in Hz by (rewrite length_word_bits; lia). rewrite lookup_word_bits in Hz by exact Hi. injection Hz as Hz. now rewrite Hz.
  - apply forallb_forall. intros x Hx. apply Z.eqb_eq. apply list_elem_of_In, list_elem_of_lookup in Hx as [k Hk]. rewrite Forall_lookup in Hu.
    pose proof (lookup_lt_Some _ _ _ Hk) as Hkl. cbn [length] in Hl. apply word_zero; [now apply (Hu k)|]. apply word_bits_ext; [reflexivity|]. intros i Hi.
    rewrite lookup_replicate_2 by exact Hi. specialize (Hz (64 + (64 * k + i))%nat ltac:(lia) ltac:(lia)).
    change (bitmap_bits (w :: bm)) with (word_bits w ++ bitmap_bits bm) in Hz. rewrite lookup_app_r in Hz by (rewrite length_word_bits; lia).
    rewrite length_word_bits in Hz. replace (64 + (64 * k + i) - 64)%nat with (64 * k + i)%nat in Hz by lia.
    rewrite (bitmap_bits_word bm k x Hk) in Hz. assert (El : length (bitmap_bits (take k bm)) = (64 * k)%nat) by (rewrite length_bitmap_bits, length_take; lia).
    rewrite lookup_app_r in Hz by lia. rewrite El in Hz. replace (64 * k + i - 64 * k)%nat with i in Hz by lia.
    rewrite lookup_app_l in Hz by (rewrite length_word_bits; lia). rewrite lookup_word_bits in Hz by exact Hi. injection Hz as Hz. now rewrite Hz.
Qed.

Lemma live_sub l : forall e, e ∈ live l -> e ∈ l.
Proof. intros e H. apply list_elem_of_In in H. unfold live in H. apply filter_In in H as [H _]. now apply list_elem_of_In. Qed.

Lemma pairs_u b : build_u b -> Forall entry_u (pairs b).
Proof.
  intros [_ _ _ _ [_ Hs] [_ Hz]]. unfold pairs. apply Forall_forall. intros [v z] H. apply elem_of_zip_l in H as H1. apply elem_of_zip_r in H as H2.
  rewrite Forall_forall in Hs, Hz. split; [now apply Hs|now apply Hz].
Qed.

Lemma zip_with_entry level values sizes : concat (zip_with (put_entry level) values sizes) = entry_bytes level (zip values sizes).
Proof.
  unfold entry_bytes. f_equal. revert sizes. induction values as [|v values IH]; intros [|z sizes]; [reflexivity..|]. cbn. f_equal. apply IH.
Qed.

Lemma countValues_live b : build_u b -> countValues (nb_Slots b) = len (live (pairs b)).
Proof.
  intros Hb. unfold countValues, len. rewrite <- (live_values (nb_Slots b) (nb_Sizes b)) by now apply pairs_length. now rewrite length_map.
Qed.

(** The payload of the sparse shape. *)
Lemma sparse_payload_spec b size : build_u b -> 128 + Z.of_nat (entry_width (nb_Level b)) * countValues (nb_Slots b) <= size ->
  exists bm pad, sparse_payload (nb_Level b) size (nb_Slots b) (nb_Sizes b) = concat (map (put_le 8) bm) ++ entry_bytes (nb_Level b) (live (pairs b)) ++ zeros pad /\
    length bm = 8%nat /\ Forall is_u64 bm /\ bitmap_bits bm = map nonzero (nb_Slots b) /\
    len (sparse_payload (nb_Level b) size (nb_Slots b) (nb_Sizes b)) = size - 64.
Proof.
  intros Hb Hsz. destruct (bu_slots b Hb) as [Hl _]. unfold sparse_payload, NodeHeaderSize, SparseBitmapBytes.
  destruct (sparse_loop_spec (nb_Level b) (nb_Slots b) (nb_Sizes b) 0 (replicate 8 0) [] []) as (bm & E & L & U & B).
  - now apply pairs_length.
  - reflexivity.
  - rewrite Hl. reflexivity.
  - apply Forall_replicate. unfold is_u64. lia.
  - rewrite Hl. reflexivity.
  - rewrite E. cbn [app]. fold (pairs b). eexists bm, _. split; [reflexivity|]. split; [exact L|]. split; [exact U|]. split; [exact B|].
    assert (Ec : len (concat (map (put_le 8) bm)) = 64).
    { clear -L. do 8 (destruct bm as [|? bm]; [discriminate L|]). destruct bm; [|discriminate L]. unfold len. cbn [map concat]. rewrite !length_app, !length_put_le. reflexivity. }
    rewrite !len_app, Ec, len_zeros. unfold len. rewrite length_entry_bytes. rewrite countValues_live in Hsz by exact Hb. unfold len in Hsz. lia.
Qed.

Lemma put_words_bytes bm : bytes_ok (concat (map (put_le 8) bm)).
Proof. induction bm; [constructor|]. cbn. apply bytes_ok_app. split; [apply put_le_bytes|assumption]. Qed.

(** A valid encoding: the shape, its header and its payload. *)
Definition enc_of (count : Z) : Z := if 504 <=? count then EncodingDense else EncodingSparse.
Definition size_of (level count : Z) : Z := if 504 <=? count then dense_size level else sparse_size level count.
Definition payload_of (b : NodeBuild) : list Z :=
  let count := countValues (nb_Slots b) in
  if 504 <=? count then dense_payload (nb_Level b) (nb_Slots b) (nb_Sizes b)
  else sparse_payload (nb_Level b) (size_of (nb_Level b) count) (nb_Slots b) (nb_Sizes b).

Lemma size_of_bounds level count : 0 <= count <= 512 -> 64 <= size_of level count <= 8000 /\ size_of level count mod 8 = 0.
Proof.
  intros Hc. destruct (shape_sizes level count Hc) as (Hsp & Hds & Hd8 & Hdm). unfold size_of. destruct (504 <=? count) eqn:Ed; bool_norm.
  - split; [lia|exact Hd8].
  - destruct (Hsp ltac:(lia)). lia.
Qed.

Lemma payload_ok b : build_u b -> len (payload_of b) = size_of (nb_Level b) (countValues (nb_Slots b)) - 64 /\ bytes_ok (payload_of b).
Proof.
  intros Hb. destruct (bu_slots b Hb) as [Hsl _]. pose proof (countValues_bound _ Hsl) as Hcnt.
  destruct (shape_sizes (nb_Level b) _ Hcnt) as (Hsp & Hds & _). unfold payload_of, size_of. destruct (504 <=? countValues (nb_Slots b)) eqn:Ed; bool_norm.
  - unfold dense_payload. rewrite zip_with_entry. fold (pairs b). split; [|apply entry_bytes_ok]. unfold len. rewrite length_entry_bytes.
    assert (length (pairs b) = 512%nat) as -> by (unfold pairs; rewrite length_zip; destruct (bu_sizes b Hb); lia). lia.
  - destruct (Hsp ltac:(lia)) as [[Hle _] _]. destruct (sparse_payload_spec b _ Hb Hle) as (bm & pad & Ep & _ & _ & _ & El). split; [exact El|].
    rewrite Ep. apply bytes_ok_app. split; [apply put_words_bytes|]. apply bytes_ok_app. split; [apply entry_bytes_ok|apply bytes_ok_zeros].
Qed.

Record encoded (b : NodeBuild) (src : list Z) : Prop := mkEncoded {
  ec_entries : Forall (entry_valid (nb_Level b)) (pairs b);
  ec_top : nb_Level b = 7 -> topSlotsEmpty (nb_Slots b) = true;
  ec_count : 0 < countValues (nb_Slots b) <= 512;
  ec_level : 0 <= nb_Level b <= 7;
  ec_size : len src = size_of (nb_Level b) (countValues (nb_Slots b));
  ec_header : forall rest remaining, len src <= remaining ->
    decodeNodeHeader (src ++ rest) remaining =
      Ok (mkNode (nb_Level b) (enc_of (countValues (nb_Slots b))) (nb_NodeSeq b) (nb_Prefix b) (nb_CoveredCommitSeq b)
            (countValues (nb_Slots b)) (replicate 8 0) [] [], len src) /\
    slice 64 (Z.to_nat (len src)) (src ++ rest) = payload_of b /\ u32 44 (src ++ rest) = Checksum (payload_of b);
}.

Lemma encode_spec b src : build_u b -> EncodeNode b = Ok src -> encoded b src.
Proof.
  intros Hb E. unfold EncodeNode in E. inv_ok E. bool_norm. apply Ok_inj in E.
  destruct (bu_slots b Hb) as [Hsl Hsu]. pose proof (countValues_bound _ Hsl) as Hcnt.
  change (if SparseDenseBoundary <=? countValues (nb_Slots b) then dense_payload (nb_Level b) (nb_Slots b) (nb_Sizes b)
          else sparse_payload (nb_Level b) (if SparseDenseBoundary <=? countValues (nb_Slots b) then dense_size (nb_Level b) else sparse_size (nb_Level b) (countValues (nb_Slots b)))
            (nb_Slots b) (nb_Sizes b)) with (payload_of b) in E.
  set (count := countValues (nb_Slots b)) in *. destruct (payload_ok b Hb) as [Hpl Hpb]. fold count in Hpl.
  destruct (size_of_bounds (nb_Level b) count Hcnt) as [Hsz Hs8].
  assert (Hho : header_ok (nb_Level b) (enc_of count) (size_of (nb_Level b) count) (nb_NodeSeq b) (nb_Prefix b) (nb_CoveredCommitSeq b) count).
  { constructor; try (split; assumption || apply Hb); try apply Hb; auto.
    - unfold enc_of, is_u8, EncodingDense, EncodingSparse. destruct (504 <=? count); lia.
    - unfold is_u32. split; [lia|]. split; [lia|]. now rewrite land_7.
    - lia.
    - unfold enc_of, size_of. destruct (504 <=? count); auto. }
  set (f := node_fields (nb_Level b) (enc_of count) (size_of (nb_Level b) count) (nb_NodeSeq b) (nb_Prefix b) (nb_CoveredCommitSeq b) count (Checksum (payload_of b))).
  set (h := node_header f (put_le 4 (headerChecksum (node_header f (zeros 4))))).
  assert (Esrc : src = h ++ payload_of b) by (rewrite <- E; reflexivity).
  assert (Hhl : HasLen h 64) by (unfold HasLen, h, node_header, f, zeros; rewrite !length_app, !length_put_le, !length_replicate, (@has_len _ _ (HasLen_node_fields _ _ _ _ _ _ _ _)); reflexivity).
  assert (Hlsrc : len src = size_of (nb_Level b) count) by (rewrite Esrc, len_app, (HasLen_len _ _ Hhl); lia).
  constructor; fold count; auto.
  - unfold validateValues in *. bool_norm. apply validate_zip; [now apply pairs_length|assumption].
  - intros E7. rewrite E7 in *. cbn in *. now bool_norm.
  - lia.
  - destruct (bu_level b Hb). split; [lia|]. unfold validPrefix, MaxLevel in *. destruct (7 <? nb_Level b) eqn:?; [discriminate|bool_norm; lia].
  - intros rest remaining Hrem. destruct (decodeNodeHeader_encoded _ _ _ _ _ _ _ (Checksum (payload_of b)) (payload_of b ++ rest) remaining Hho (Checksum_u32 _ Hpb) ltac:(lia)) as [Hd Hc].
    fold f h in Hd, Hc. rewrite app_assoc, <- Esrc in Hd, Hc. rewrite Hlsrc. split; [exact Hd|]. split; [|exact Hc].
    rewrite Esrc, <- app_assoc, (slice_skip h 64) by (exact Hhl || apply Nat.leb_le; lia). rewrite Nat.sub_diag.
    apply (slice_here (payload_of b) (length (payload_of b))); [reflexivity|]. apply Nat.eqb_eq. unfold len in Hpl. lia.
Qed.

Lemma read_sparse b bm post : build_u b -> length bm = 8%nat ->
  read_entries (nb_Level b) (length (live (pairs b))) 64 (concat (map (put_le 8) bm) ++ entry_bytes (nb_Level b) (live (pairs b)) ++ post) =
    (map fst (live (pairs b)), sizes_of (nb_Level b) (live (pairs b))).
Proof.
  intros Hb L. assert (El : length (concat (map (put_le 8) bm)) = 64%nat).
  { do 8 (destruct bm as [|? bm]; [discriminate L|]). destruct bm; [|discriminate L]. cbn [map concat]. rewrite !length_app, !length_put_le. reflexivity. }
  rewrite <- El at 1. apply read_entries_spec. pose proof (pairs_u b Hb) as Hu. apply Forall_forall. intros e He%live_sub. rewrite Forall_forall in Hu. now apply Hu.
Qed.

Lemma live_valid b : Forall (entry_valid (nb_Level b)) (pairs b) -> Forall (entry_valid (nb_Level b)) (live (pairs b)).
Proof. intros H. apply Forall_forall. intros e He%live_sub. rewrite Forall_forall in H. now apply H. Qed.

Lemma decode_encoded b src rest remaining : build_u b -> encoded b src -> len src <= remaining ->
  exists n, DecodeNode (src ++ rest) remaining = Ok (n, len src) /\ node_holds b n /\ Node_PhysicalSize n = len src.
Proof.
  intros Hb [Hval Htop Hcnt Hlev Hsize Hdec] Hrem. destruct (Hdec rest remaining Hrem) as (Hh & Hsl & Hcrc).
  destruct (bu_slots b Hb) as [Hl512 _]. pose proof (shape_sizes (nb_Level b) (countValues (nb_Slots b)) ltac:(lia)) as (Hsp & _).
  assert (Hphys : forall bm vs ss, Node_PhysicalSize (mkNode (nb_Level b) (enc_of (countValues (nb_Slots b))) (nb_NodeSeq b) (nb_Prefix b) (nb_CoveredCommitSeq b)
      (countValues (nb_Slots b)) bm vs ss) = len src).
  { intros. unfold Node_PhysicalSize, EncodedNodeSize, MaxLevel, NodeSlots. cbn [nd_Level nd_EntryCount]. pass. now rewrite Hsize. }
  unfold DecodeNode. rewrite Hh, Hsl, Hcrc, Z.eqb_refl. cbn [nd_Level nd_Encoding nd_NodeSeq nd_Prefix nd_CoveredCommitSeq nd_EntryCount nd_Bitmap negb].
  rewrite len_app. pose proof (len_nonneg rest). replace (len src + len rest <? len src) with false by (symmetry; apply Z.ltb_ge; lia). cbv zeta.
  revert Hphys. unfold payload_of, enc_of, size_of in *. rewrite (countValues_live b Hb) in *. destruct (504 <=? len (live (pairs b))) eqn:Ed; bool_norm; intros Hphys.
  - change (EncodingDense =? EncodingSparse) with false. cbn [andb negb]. unfold dense_payload. rewrite zip_with_entry. fold (pairs b).
    assert (Hpl : length (pairs b) = 512%nat) by (unfold pairs; rewrite length_zip; destruct (bu_sizes b Hb); lia).
    pose proof (read_entries_spec (nb_Level b) (pairs b) [] [] (pairs_u b Hb)) as Er. cbn [app length] in Er. rewrite app_nil_r, Hpl in Er. rewrite Er.
    assert (Efst : map fst (pairs b) = nb_Slots b) by (apply map_fst_zip; now apply pairs_length). rewrite validate_selection by exact Hval. rewrite Efst.
    rewrite (countValues_live b Hb), Z.eqb_refl. cbn [negb orb]. replace ((nb_Level b =? MaxLevel) && negb (topSlotsEmpty (nb_Slots b))) with false.
    2:{ symmetry. unfold MaxLevel. destruct (nb_Level b =? 7) eqn:E7; [|reflexivity]. bool_norm. now rewrite (Htop E7). }
    eexists. split; [reflexivity|]. split; [|apply Hphys]. constructor; [reflexivity..|symmetry; now apply countValues_live|left; auto].
  - change (EncodingSparse =? EncodingSparse) with true. cbn [andb negb].
    destruct (sparse_payload_spec b (sparse_size (nb_Level b) (len (live (pairs b)))) Hb) as (bm & pad & Ep & L & U & B & _).
    { rewrite (countValues_live b Hb). apply Hsp. lia. }
    rewrite Ep, read_bitmap by assumption. replace (Z.to_nat (len (live (pairs b)))) with (length (live (pairs b))) by (unfold len; lia).
    rewrite read_sparse by assumption.
    rewrite validate_selection by now apply live_valid. cbn [negb andb].
    assert (Ebc : bitmapCount bm = len (live (pairs b))) by (rewrite bitmapCount_bits, B, count_map_filter, <- (countValues_live b Hb); reflexivity).
    rewrite Ebc, Z.eqb_refl. cbn [negb orb]. replace ((nb_Level b =? MaxLevel) && negb (topBitmapEmpty bm)) with false.
    2:{ symmetry. unfold MaxLevel. destruct (nb_Level b =? 7) eqn:E7; [|reflexivity]. bool_norm. now rewrite (top_bitmap bm (nb_Slots b) L U B Hl512 (Htop E7)). }
    eexists. split; [reflexivity|]. split; [|apply Hphys]. constructor; [reflexivity..|symmetry; now apply countValues_live|right; auto 10].
Qed.

(** A stored mapping node reads back, slot by slot.  Decoding the encoding of a
    node, at the front of a longer buffer and within the bytes left in the segment,
    gives back its identity and its exact size; the point lookup by bitmap rank and
    the expansion both show exactly the slots that were encoded, in the sparse and
    in the dense shape, and in a leaf the same holds for the record references. *)
Theorem DecodeNode_EncodeNode b src rest remaining :
  build_u b -> EncodeNode b = Ok src -> len src <= remaining ->
  exists n, DecodeNode (src ++ rest) remaining = Ok (n, len src) /\
    nd_Level n = nb_Level b /\ nd_NodeSeq n = nb_NodeSeq b /\ nd_Prefix n = nb_Prefix b /\ nd_CoveredCommitSeq n = nb_CoveredCommitSeq b /\
    Node_PhysicalSize n = len src /\ Slots n = nb_Slots b /\
    (forall slot, 0 <= slot < 512 ->
       Node_Lookup n slot = let v := nth (Z.to_nat slot) (nb_Slots b) 0 in if v =? 0 then None else Some v) /\
    (nb_Level b = 0 -> Refs n = map ref_of (pairs b) /\
       forall slot, 0 <= slot < 512 -> Node_LookupRef n slot = let v := nth (Z.to_nat slot) (nb_Slots b) 0 in
         if v =? 0 then None else Some (mkRef v (nth (Z.to_nat slot) (nb_Sizes b) 0))).
Proof.
  intros Hb He Hrem. pose proof (encode_spec b src Hb He) as Hec. destruct (decode_encoded b src rest remaining Hb Hec Hrem) as (n & Hd & Hn & Hp).
  exists n. pose proof Hn as [H1 H2 H3 H4 H5 _]. repeat (split; [assumption|]). split; [now apply (Slots_spec b n)|].
  split; [intros slot Hs; now apply (Node_Lookup_spec b n)|]. intros H0. split; [|intros slot Hs; now apply (Node_LookupRef_spec b n)].
  apply (Refs_spec b n Hb Hn H0). intros e Hin Hz. pose proof (ec_entries _ _ Hec) as Hv. rewrite Forall_forall in Hv. specialize (Hv e Hin).
  unfold entry_valid in Hv. rewrite Hz in Hv. cbn in Hv. auto.
Qed.

Definition sample_build : NodeBuild :=
  mkBuild 0 1 5 9 (<[3%nat := 4294967360]> (<[130%nat := 4294967400]> (replicate 512 0))) (<[3%nat := 40]> (<[130%nat := 40]> (replicate 512 0))).

Lemma DecodeNode_EncodeNode_witness :
  exists src n, EncodeNode sample_build = Ok src /\ DecodeNode (src ++ [0; 0]) 4096 = Ok (n, len src) /\ Slots n = nb_Slots sample_build.
Proof.
  destruct (EncodeNode sample_build) as [src|] eqn:E; [|vm_compute in E; discriminate]. exists src.
  destruct (DecodeNode_EncodeNode sample_build src [0; 0] 4096) as (n & H1 & _ & _ & _ & _ & _ & H2 & _).
  - constructor; cbn [sample_build nb_Level nb_NodeSeq nb_Prefix nb_CoveredCommitSeq nb_Slots nb_Sizes]; try (unfold is_u8, is_u64; lia).
    + split; [reflexivity|]. repeat apply Forall_insert; try (unfold is_u64; lia). apply Forall_replicate. unfold is_u64. lia.
    + split; [reflexivity|]. repeat apply Forall_insert; try (unfold is_u32; lia). apply Forall_replicate. unfold is_u32. lia.
  - exact E.
  - assert (Hl : len src = 152) by (apply Ok_inj; transitivity (match EncodeNode sample_build with Ok s => Ok (len s) | Err e => Err e end); [now rewrite E|vm_compute; reflexivity]). lia.
  - exists n. auto.
Defined.
