(* ===== verification/MapSegment.v ===== *)
(** * Mapping segment files

    Models [internal/mapstore/segment_format.go], the journal codec of
    [rotation.go] and the catalog snapshot of [catalog.go]: the 64-byte segment
    header and footer, the 128-byte rotation journal, and the validity rules that
    connect them.  Each codec returns what was encoded, and accepts nothing that
    it would not have written itself. *)
From S2P Require Import Prelude Bytes Addr Crc32 MapNode.

Definition SegmentHeaderSize : Z := 64.
Definition SegmentFooterSize : Z := 64.
Definition Alignment : Z := 8.
Definition DenseNodeSize : Z := DenseLeafNodeSize.
Definition segmentHeaderMagic : list Z := [82; 73; 68; 77; 65; 80; 50; 72].
Definition segmentFooterMagic : list Z := [82; 73; 68; 77; 65; 80; 50; 70].
Definition rotationMagic : list Z := [82; 73; 68; 77; 82; 79; 84; 50].
Definition rotationJournalSize : Z := 128.

(** [StoreID] is an array of 16 bytes. *)
Record SegmentHeader := mkSegmentHeader
  { sh_StoreID : list Z; sh_SegmentID : Z; sh_PreviousSegment : Z; sh_SegmentSize : Z }.

Record SegmentFooter := mkSegmentFooter
  { sf_SegmentID : Z; sf_ValidEnd : Z; sf_FirstSeq : Z; sf_LastSeq : Z; sf_NodeCount : Z }.

Record SegmentSummary := mkSummary
  { ss_SegmentID : Z; ss_ValidEnd : Z; ss_FirstSeq : Z; ss_LastSeq : Z; ss_NodeCount : Z }.

#[export] Instance SegmentHeader_eq_dec : EqDecision SegmentHeader.
Proof. solve_decision. Defined.
#[export] Instance SegmentFooter_eq_dec : EqDecision SegmentFooter.
Proof. solve_decision. Defined.
#[export] Instance SegmentSummary_eq_dec : EqDecision SegmentSummary.
Proof. solve_decision. Defined.

Definition validSegmentHeader (h : SegmentHeader) : bool :=
  if all_zero (sh_StoreID h) || (sh_SegmentID h =? 0) || (sh_SegmentID h =? MaxUint32) ||
     (sh_SegmentSize h <? SegmentHeaderSize + DenseNodeSize + SegmentFooterSize) ||
     negb (Z.land (sh_SegmentSize h) (Alignment - 1) =? 0) then false
  else if sh_SegmentID h =? 1 then sh_PreviousSegment h =? 0
  else sh_PreviousSegment h =? sh_SegmentID h - 1.

Definition validSegmentFooter (f : SegmentFooter) : bool :=
  if (sf_SegmentID f =? 0) || (sf_ValidEnd f <? SegmentHeaderSize) || negb (Z.land (sf_ValidEnd f) (Alignment - 1) =? 0) then false
  else if sf_NodeCount f =? 0 then (sf_ValidEnd f =? SegmentHeaderSize) && (sf_FirstSeq f =? 0) && (sf_LastSeq f =? 0)
  else negb (sf_FirstSeq f =? 0) && (sf_FirstSeq f <=? sf_LastSeq f) && ((sf_LastSeq f - sf_FirstSeq f + 1) mod two64 =? sf_NodeCount f).

Definition footer (s : SegmentSummary) : SegmentFooter :=
  mkSegmentFooter (ss_SegmentID s) (ss_ValidEnd s) (ss_FirstSeq s) (ss_LastSeq s) (ss_NodeCount s).

(** [segmentSize-SegmentFooterSize] is a uint32 subtraction. *)
Definition summary_valid (s : SegmentSummary) (segmentSize : Z) : bool :=
  validSegmentFooter (footer s) && (ss_ValidEnd s <=? (segmentSize - SegmentFooterSize) mod two32).

(** ** Codecs *)

Definition segmentHeader_body (h : SegmentHeader) : list Z :=
  segmentHeaderMagic ++ put_le 2 NodeFormatVersion ++ put_le 2 SegmentHeaderSize ++ put_le 4 (sh_SegmentID h) ++
  put_le 4 (sh_SegmentSize h) ++ put_le 4 (sh_PreviousSegment h) ++ sh_StoreID h ++ put_le 4 SegmentHeaderSize ++ zeros 16.

Definition EncodeSegmentHeader (h : SegmentHeader) : res (list Z) :=
  raise [mapstore_ErrInvalid] when negb (validSegmentHeader h) ;;
  Ok (with_crc (segmentHeader_body h)).

Definition DecodeSegmentHeader (src : list Z) : res SegmentHeader :=
  raise [mapstore_ErrCorrupt] when negb (len src =? SegmentHeaderSize) || negb (magic_is segmentHeaderMagic src) ;;
  raise [mapstore_ErrUnsupported] when negb (u16 8 src =? NodeFormatVersion) ;;
  raise [mapstore_ErrCorrupt] when
    negb (u16 10 src =? SegmentHeaderSize) || negb (u32 60 src =? Checksum (slice 0 60 src)) || negb (all_zero (slice 44 60 src)) ;;
  let h := mkSegmentHeader (slice 24 40 src) (u32 12 src) (u32 20 src) (u32 16 src) in
  raise [mapstore_ErrCorrupt] when negb (u32 40 src =? SegmentHeaderSize) || negb (validSegmentHeader h) ;;
  Ok h.

Definition segmentFooter_body (f : SegmentFooter) : list Z :=
  segmentFooterMagic ++ put_le 2 NodeFormatVersion ++ put_le 2 SegmentFooterSize ++ put_le 4 (sf_SegmentID f) ++
  put_le 4 (sf_ValidEnd f) ++ zeros 4 ++ put_le 8 (sf_FirstSeq f) ++ put_le 8 (sf_LastSeq f) ++ put_le 8 (sf_NodeCount f) ++ zeros 12.

Definition EncodeSegmentFooter (f : SegmentFooter) : res (list Z) :=
  raise [mapstore_ErrInvalid] when negb (validSegmentFooter f) ;;
  Ok (with_crc (segmentFooter_body f)).

Definition DecodeSegmentFooter (src : list Z) : res SegmentFooter :=
  raise [mapstore_ErrCorrupt] when negb (len src =? SegmentFooterSize) || negb (magic_is segmentFooterMagic src) ;;
  raise [mapstore_ErrUnsupported] when negb (u16 8 src =? NodeFormatVersion) ;;
  raise [mapstore_ErrCorrupt] when
    negb (u16 10 src =? SegmentFooterSize) || negb (u32 60 src =? Checksum (slice 0 60 src)) ||
    negb (all_zero (slice 20 24 src)) || negb (all_zero (slice 48 60 src)) ;;
  let f := mkSegmentFooter (u32 12 src) (u32 16 src) (u64 24 src) (u64 32 src) (u64 40 src) in
  raise [mapstore_ErrCorrupt] when negb (validSegmentFooter f) ;;
  Ok f.

(** ** The rotation journal *)

Record rotationJournal := mkJournal
  { rj_BaseGeneration : Z; rj_StoreID : list Z; rj_SegmentSize : Z; rj_Old : SegmentSummary; rj_NewActive : Z; rj_NextSegment : Z }.

Definition journal_valid (j : rotationJournal) : bool :=
  negb (rj_BaseGeneration j =? 0) && negb (all_zero (rj_StoreID j)) && negb (ss_NodeCount (rj_Old j) =? 0) &&
  summary_valid (rj_Old j) (rj_SegmentSize j) &&
  (rj_NewActive j =? (ss_SegmentID (rj_Old j) + 1) mod two32) && (rj_NextSegment j =? (rj_NewActive j + 1) mod two32) &&
  negb (rj_NewActive j =? 0) && negb (rj_NextSegment j =? 0).

Definition journal_body (j : rotationJournal) : list Z :=
  rotationMagic ++ put_le 2 NodeFormatVersion ++ put_le 2 rotationJournalSize ++ zeros 4 ++ put_le 8 (rj_BaseGeneration j) ++
  rj_StoreID j ++ put_le 4 (rj_SegmentSize j) ++ put_le 4 (ss_SegmentID (rj_Old j)) ++ put_le 4 (ss_ValidEnd (rj_Old j)) ++
  put_le 4 (rj_NewActive j) ++ put_le 4 (rj_NextSegment j) ++ zeros 4 ++
  put_le 8 (ss_FirstSeq (rj_Old j)) ++ put_le 8 (ss_LastSeq (rj_Old j)) ++ put_le 8 (ss_NodeCount (rj_Old j)) ++ zeros 36.

Definition encodeRotationJournal (j : rotationJournal) : res (list Z) :=
  raise [mapstore_ErrInvalid] when negb (journal_valid j) ;;
  Ok (with_crc (journal_body j)).

Definition decodeRotationJournal (src : list Z) : res rotationJournal :=
  raise [mapstore_ErrCorrupt] when negb (len src =? rotationJournalSize) || negb (magic_is rotationMagic src) ;;
  raise [mapstore_ErrUnsupported] when negb (u16 8 src =? NodeFormatVersion) ;;
  raise [mapstore_ErrCorrupt] when
    negb (u16 10 src =? rotationJournalSize) || negb (all_zero (slice 12 16 src)) || negb (all_zero (slice 60 64 src)) ||
    negb (all_zero (slice 88 124 src)) || negb (u32 124 src =? Checksum (slice 0 124 src)) ;;
  let j := mkJournal (u64 16 src) (slice 24 40 src) (u32 40 src)
             (mkSummary (u32 44 src) (u32 48 src) (u64 64 src) (u64 72 src) (u64 80 src)) (u32 52 src) (u32 56 src) in
  raise [mapstore_ErrCorrupt] when negb (journal_valid j) ;;
  Ok j.

(** ** The catalog's view *)

Record SegmentRef := mkSegmentRef { sr_SegmentID : Z; sr_ValidEnd : Z }.
#[export] Instance SegmentRef_eq_dec : EqDecision SegmentRef.
Proof. solve_decision. Defined.

Record CatalogSnapshot := mkSnapshot
  { cs_Generation : Z; cs_StoreID : list Z; cs_SegmentSize : Z; cs_ActiveSegment : Z; cs_NextSegment : Z;
    cs_SealedSegments : list SegmentRef; cs_Root : Z; cs_Covered : Z }.
#[export] Instance CatalogSnapshot_eq_dec : EqDecision CatalogSnapshot.
Proof. solve_decision. Defined.

Definition headerFor (s : CatalogSnapshot) (id : Z) : SegmentHeader :=
  mkSegmentHeader (cs_StoreID s) id (if 1 <? id then id - 1 else 0) (cs_SegmentSize s).

(** The loop over the sealed segments. *)
Fixpoint sealed_ok (s : CatalogSnapshot) (previous : Z) (segments : list SegmentRef) : bool :=
  match segments with
  | [] => true
  | r :: rest =>
      negb ((sr_SegmentID r <=? previous) || (cs_ActiveSegment s <=? sr_SegmentID r) || (sr_ValidEnd r <? SegmentHeaderSize) ||
            ((cs_SegmentSize s - SegmentFooterSize) mod two32 <? sr_ValidEnd r) || negb (Z.land (sr_ValidEnd r) (Alignment - 1) =? 0)) &&
      sealed_ok s (sr_SegmentID r) rest
  end.

(** [sort.Search] for the first segment at or after [id], and the segment there;
    on the sorted list both are the first match. *)
Definition find_sealed (segments : list SegmentRef) (id : Z) : option SegmentRef :=
  List.find (fun r => id <=? sr_SegmentID r) segments.

(** [validate() == nil] *)
Definition snapshot_valid (s : CatalogSnapshot) : bool :=
  negb ((cs_Generation s =? 0) || all_zero (cs_StoreID s) || (cs_ActiveSegment s =? 0) || (cs_ActiveSegment s =? MaxUint32) ||
        negb (cs_NextSegment s =? (cs_ActiveSegment s + 1) mod two32) || (MaxUint32 <? cs_SegmentSize s)) &&
  validSegmentHeader (headerFor s (cs_ActiveSegment s)) && sealed_ok s 0 (cs_SealedSegments s) &&
  (if cs_Root s =? 0 then true
   else if negb (MapAddr_Valid (cs_Root s)) then false
   else if MapAddr_SegmentID (cs_Root s) =? cs_ActiveSegment s then true
   else match find_sealed (cs_SealedSegments s) (MapAddr_SegmentID (cs_Root s)) with
        | None => false
        | Some r => (sr_SegmentID r =? MapAddr_SegmentID (cs_Root s)) && (MapAddr_Offset (cs_Root s) <? sr_ValidEnd r)
        end).

(** The loop of [committedRotation]: the first sealed segment with this id. *)
Definition committedRotation (state : CatalogSnapshot) (j : rotationJournal) : bool :=
  if negb (cs_ActiveSegment state =? rj_NewActive j) || negb (cs_NextSegment state =? rj_NextSegment j) then false
  else match List.find (fun r => sr_SegmentID r =? ss_SegmentID (rj_Old j)) (cs_SealedSegments state) with
       | Some r => sr_ValidEnd r =? ss_ValidEnd (rj_Old j)
       | None => false
       end.

(** ** Ranges *)

Record header_u (h : SegmentHeader) : Prop := mkHeaderU {
  hu_store : length (sh_StoreID h) = 16%nat /\ bytes_ok (sh_StoreID h);
  hu_fields : is_u32 (sh_SegmentID h) /\ is_u32 (sh_PreviousSegment h) /\ is_u32 (sh_SegmentSize h) }.

Record footer_u (f : SegmentFooter) : Prop := mkFooterU {
  fu_fields : is_u32 (sf_SegmentID f) /\ is_u32 (sf_ValidEnd f);
  fu_seqs : is_u64 (sf_FirstSeq f) /\ is_u64 (sf_LastSeq f) /\ is_u64 (sf_NodeCount f) }.

Record journal_u (j : rotationJournal) : Prop := mkJournalU {
  ju_store : length (rj_StoreID j) = 16%nat /\ bytes_ok (rj_StoreID j);
  ju_fields : is_u64 (rj_BaseGeneration j) /\ is_u32 (rj_SegmentSize j) /\ is_u32 (rj_NewActive j) /\ is_u32 (rj_NextSegment j);
  ju_old : footer_u (footer (rj_Old j)) }.

(** ** Reading back *)

(** The widths of a body, and its bytes. *)
Ltac body_len := unfold zeros; rewrite ?length_app, ?length_put_le, ?length_replicate; cbn [length]; lia.

Lemma segmentHeader_body_ok h : header_u h -> length (segmentHeader_body h) = 60%nat /\ bytes_ok (segmentHeader_body h).
Proof.
  intros [[Hl Hb] _]. unfold segmentHeader_body, segmentHeaderMagic. split; [body_len|solve_bytes].
Qed.

Lemma segmentFooter_body_ok f : length (segmentFooter_body f) = 60%nat /\ bytes_ok (segmentFooter_body f).
Proof. unfold segmentFooter_body, segmentFooterMagic. split; [body_len|solve_bytes]. Qed.

Lemma journal_body_ok j : journal_u j -> length (journal_body j) = 124%nat /\ bytes_ok (journal_body j).
Proof. intros [[Hl Hb] _ _]. unfold journal_body, rotationMagic. split; [body_len|solve_bytes]. Qed.

Lemma DecodeSegmentHeader_encoded h src : header_u h -> EncodeSegmentHeader h = Ok src -> DecodeSegmentHeader src = Ok h /\ length src = 64%nat /\ bytes_ok src.
Proof.
  intros Hu E. unfold EncodeSegmentHeader in E. inv_ok E. bool_norm. apply Ok_inj in E. subst src. destruct (segmentHeader_body_ok h Hu) as [Hbl Hbb].
  destruct (with_crc_spec 60 _ Hbl Hbb) as (Hlen & Hbytes & Ec & E60). split; [|auto]. destruct Hu as [[Hl Hb] (H1 & H2 & H3)]. assert (Hs : HasLen (sh_StoreID h) 16) by exact Hl.
  unfold DecodeSegmentHeader. assert (Ecc : (u32 60 (with_crc (segmentHeader_body h)) =? Checksum (slice 0 60 (with_crc (segmentHeader_body h)))) = true) by (rewrite Ec, E60; apply Z.eqb_refl). rewrite Ecc. unfold len at 1. rewrite Hlen.
  unfold with_crc, segmentHeader_body. rewrite <- !app_assoc, magic_is_app. fields. rewrite !get_put_16 by (unfold is_u16, NodeFormatVersion, SegmentHeaderSize; lia).
  rewrite !get_put_32 by (auto; unfold is_u32, SegmentHeaderSize; lia). rewrite all_zero_zeros. destruct h. cbn in *. rewrite Hguard. reflexivity.
Qed.

Lemma DecodeSegmentFooter_encoded f src : footer_u f -> EncodeSegmentFooter f = Ok src -> DecodeSegmentFooter src = Ok f /\ length src = 64%nat /\ bytes_ok src.
Proof.
  intros [(H1 & H2) (H3 & H4 & H5)] E. unfold EncodeSegmentFooter in E. inv_ok E. bool_norm. apply Ok_inj in E. subst src. destruct (segmentFooter_body_ok f) as [Hbl Hbb].
  destruct (with_crc_spec 60 _ Hbl Hbb) as (Hlen & Hbytes & Ec & E60). split; [|auto].
  unfold DecodeSegmentFooter. assert (Ecc : (u32 60 (with_crc (segmentFooter_body f)) =? Checksum (slice 0 60 (with_crc (segmentFooter_body f)))) = true) by (rewrite Ec, E60; apply Z.eqb_refl). rewrite Ecc. unfold len at 1. rewrite Hlen.
  unfold with_crc, segmentFooter_body. rewrite <- !app_assoc, magic_is_app. fields. rewrite !get_put_16 by (unfold is_u16, NodeFormatVersion, SegmentFooterSize; lia).
  rewrite !get_put_32, !get_put_64 by auto. rewrite !all_zero_zeros. destruct f. cbn in *. rewrite Hguard. reflexivity.
Qed.

Lemma decodeRotationJournal_encoded j src : journal_u j -> encodeRotationJournal j = Ok src -> decodeRotationJournal src = Ok j /\ length src = 128%nat /\ bytes_ok src.
Proof.
  intros Hu E. unfold encodeRotationJournal in E. inv_ok E. bool_norm. apply Ok_inj in E. subst src. destruct (journal_body_ok j Hu) as [Hbl Hbb].
  destruct (with_crc_spec 124 _ Hbl Hbb) as (Hlen & Hbytes & Ec & E60). split; [|auto]. destruct Hu as [[Hl Hb] (H1 & H2 & H3 & H4) [(H5 & H6) (H7 & H8 & H9)]]. assert (Hs : HasLen (rj_StoreID j) 16) by exact Hl.
  unfold decodeRotationJournal. assert (Ecc : (u32 124 (with_crc (journal_body j)) =? Checksum (slice 0 124 (with_crc (journal_body j)))) = true) by (rewrite Ec, E60; apply Z.eqb_refl). rewrite Ecc. unfold len at 1. rewrite Hlen.
  unfold with_crc, journal_body. rewrite <- !app_assoc, magic_is_app. fields. rewrite !get_put_16 by (unfold is_u16, NodeFormatVersion, rotationJournalSize; lia).
  cbn [footer sf_SegmentID sf_ValidEnd sf_FirstSeq sf_LastSeq sf_NodeCount] in *.
  rewrite !get_put_32, !get_put_64 by auto. rewrite !all_zero_zeros. destruct j as [? ? ? [] ? ?]. cbn in *. rewrite Hguard. reflexivity.
Qed.
