(* ===== verification/Fs.v ===== *)
(** * The file system

    The operations of package [os] that the stores use, on a file system of named
    files.  A descriptor is an inode number, so it survives a rename of its path.
    Every call that changes the file system, syncs, or passes a fault hook can
    fail: the outcome of each such call is read from a list of faults, in order.
    A failing write may have written a prefix of its bytes, and a failing rename
    or remove may or may not have happened; an empty list means that nothing
    fails any more.  Stopping the process inside an operation leaves the same
    files as an operation whose call fails there, since the callers return on the
    first error.  Calls that only read the file system always succeed when the
    file has the bytes. *)
From S2P Require Import Prelude Bytes.

(** [None]: the call succeeds.  [Some k]: it fails; [k] bytes were written, or for
    a rename or remove, [k <> 0] says that it took effect. *)
Abbreviation fault := (option nat) (only parsing).

Record os (P C : Type) `{Countable P} := mkOs
  { os_names : gmap P nat; os_data : gmap nat (list Z); os_next : nat; os_faults : list fault; os_user : C }.
Arguments mkOs {P C _ _} _ _ _ _ _.
Arguments os_names {P C _ _} _.
Arguments os_data {P C _ _} _.
Arguments os_next {P C _ _} _.
Arguments os_faults {P C _ _} _.
Arguments os_user {P C _ _} _.

Definition read_at (data : list Z) (off n : Z) : res (list Z) :=
  if off + n <=? len data then Ok (slice (Z.to_nat off) (Z.to_nat (off + n)) data) else Err [io_EOF].

(** [bytes] at offset [off]; a hole before it reads as zeros. *)
Definition splice (data : list Z) (off : Z) (bytes : list Z) : list Z :=
  let o := Z.to_nat off in
  take o data ++ zeros (o - length data) ++ bytes ++ drop (o + length bytes) data.

Section Fs.
Context {P C : Type} `{Countable P}.

Definition io (A : Type) : Type := os P C -> os P C * res A.

Definition io_ret {A} (x : A) : io A := fun o => (o, Ok x).
Definition io_fail {A} (e : goerror) : io A := fun o => (o, Err e).
Definition io_bind {A B} (c : io A) (k : A -> io B) : io B :=
  fun o => match c o with (o', Ok x) => k x o' | (o', Err e) => (o', Err e) end.
(** A result of a computation without effects. *)
Definition io_lift {A} (r : res A) : io A := fun o => (o, r).

Definition set_fs (o : os P C) (names : gmap P nat) (data : gmap nat (list Z)) (next : nat) : os P C :=
  mkOs names data next (os_faults o) (os_user o).
Definition next_fault (o : os P C) : os P C * fault :=
  match os_faults o with
  | [] => (o, None)
  | f :: rest => (mkOs (os_names o) (os_data o) (os_next o) rest (os_user o), f)
  end.

Definition bytes_of (o : os P C) (file : nat) : list Z := default [] (os_data o !! file).
Definition exists_path (o : os P C) (p : P) : bool := bool_decide (is_Some (os_names o !! p)).

(** A fault hook, [Sync], [Close] or a directory sync. *)
Definition fs_point : io unit := fun o =>
  match next_fault o with
  | (o', None) => (o', Ok tt)
  | (o', Some _) => (o', Err [io_Error])
  end.

Definition fs_open (p : P) : io nat := fun o =>
  match os_names o !! p with Some f => (o, Ok f) | None => (o, Err [os_ErrNotExist]) end.

(** [O_CREATE|O_EXCL] *)
Definition fs_create (p : P) : io nat := fun o =>
  match next_fault o with
  | (o', Some _) => (o', Err [io_Error])
  | (o', None) =>
      if exists_path o' p then (o', Err [os_ErrExist])
      else (set_fs o' (<[p := os_next o']> (os_names o')) (<[os_next o' := []]> (os_data o')) (S (os_next o')), Ok (os_next o'))
  end.

Definition fs_write (file : nat) (off : Z) (bytes : list Z) : io unit := fun o =>
  let put o' bs := set_fs o' (os_names o') (<[file := splice (bytes_of o' file) off bs]> (os_data o')) (os_next o') in
  match next_fault o with
  | (o', None) => (put o' bytes, Ok tt)
  | (o', Some k) => (put o' (take k bytes), Err [io_Error])
  end.

Definition fs_truncate (file : nat) (size : Z) : io unit := fun o =>
  match next_fault o with
  | (o', Some _) => (o', Err [io_Error])
  | (o', None) =>
      let data := bytes_of o' file in
      let data' := take (Z.to_nat size) data ++ zeros (Z.to_nat size - length data) in
      (set_fs o' (os_names o') (<[file := data']> (os_data o')) (os_next o'), Ok tt)
  end.

Definition fs_rename (p q : P) : io unit := fun o =>
  let move o' := match os_names o' !! p with
                 | Some f => set_fs o' (<[q := f]> (delete p (os_names o'))) (os_data o') (os_next o')
                 | None => o'
                 end in
  match next_fault o with
  | (o', None) => if exists_path o' p then (move o', Ok tt) else (o', Err [os_ErrNotExist])
  | (o', Some k) => (if (k =? 0)%nat then o' else move o', Err [io_Error])
  end.

Definition fs_remove (p : P) : io unit := fun o =>
  let unlink o' := set_fs o' (delete p (os_names o')) (os_data o') (os_next o') in
  match next_fault o with
  | (o', None) => if exists_path o' p then (unlink o', Ok tt) else (o', Err [os_ErrNotExist])
  | (o', Some k) => (if (k =? 0)%nat then o' else unlink o', Err [io_Error])
  end.

(** [os.Stat(path)] and [file.Stat().Size()] *)
Definition fs_exists (p : P) : io bool := fun o => (o, Ok (exists_path o p)).
Definition fs_size (file : nat) : io Z := fun o => (o, Ok (len (bytes_of o file))).
Definition fs_data (file : nat) : io (list Z) := fun o => (o, Ok (bytes_of o file)).

(** [err != nil && !errors.Is(err, os.ErrNotExist)] *)
Definition ignore_missing (c : io unit) : io unit := fun o =>
  match c o with
  | (o', Err e) => (o', if bool_decide (os_ErrNotExist ∈ e) then Ok tt else Err e)
  | r => r
  end.
End Fs.
Arguments io P C {_ _} A.

Notation "'let*' x ':=' c 'in' k" := (io_bind c (fun x => k)) (at level 10, x pattern, c at level 100, k at level 200) : go_scope.
Notation "'run' c ';;' k" := (io_bind c (fun _ => k)) (at level 10, c at level 99, k at level 200) : go_scope.

(** ** Bytes of a file *)

Lemma splice_end data bytes : splice data (len data) bytes = data ++ bytes.
Proof.
  unfold splice, len. rewrite Nat2Z.id, firstn_all, Nat.sub_diag. cbn [zeros replicate app]. rewrite drop_ge by lia. now rewrite app_nil_r.
Qed.

(** Writing at or behind the end keeps what was before. *)
Lemma splice_prefix pre data off bytes : (exists rest, data = pre ++ rest) -> len pre <= off -> exists rest, splice data off bytes = pre ++ rest.
Proof.
  intros [rest ->] Ho. unfold splice, len in *. eexists. rewrite take_app_ge by lia. rewrite <- app_assoc. reflexivity.
Qed.

(** Writing over the rest of a file. *)
Lemma splice_over pre rest bytes : (length rest <= length bytes)%nat -> splice (pre ++ rest) (len pre) bytes = pre ++ bytes.
Proof.
  intros Hl. unfold splice, len. rewrite Nat2Z.id, take_app_length, length_app. replace (length pre - (length pre + length rest))%nat with 0%nat by lia.
  cbn [zeros replicate app]. rewrite drop_ge by (rewrite length_app; lia). now rewrite app_nil_r.
Qed.

Lemma read_at_here pre mid post off n : off = len pre -> n = len mid -> read_at (pre ++ mid ++ post) off n = Ok mid.
Proof.
  intros -> ->. unfold read_at. rewrite !len_app. pose proof (len_nonneg post). pose proof (len_nonneg pre). pose proof (len_nonneg mid).
  replace (len pre + len mid <=? _) with true by (symmetry; apply Z.leb_le; lia). f_equal.
  unfold slice, len. rewrite Nat2Z.id, drop_app_length. replace (Z.to_nat (Z.of_nat (length pre) + Z.of_nat (length mid)) - length pre)%nat with (length mid) by lia.
  apply take_app_length.
Qed.

(** ** Reasoning about sequences of calls

    [triple must P c Q E]: from a state in [P], [c] ends in [Q] or fails in [E].
    With [must], it fails only when a fault was left in the list; without faults
    it succeeds and none appear. *)
Section Triple.
Context {P C : Type} `{Countable P}.
Implicit Types (o : os P C).

Definition triple (must : Prop) {A} (Pre : os P C -> Prop) (c : io P C A) (Post : A -> os P C -> Prop) (Fail : os P C -> Prop) : Prop :=
  forall o, Pre o ->
    (os_faults o = [] -> os_faults (c o).1 = []) /\
    match (c o).2 with
    | Ok x => Post x (c o).1
    | Err _ => Fail (c o).1 /\ (must -> os_faults o <> [])
    end.

Context (must : Prop).

Lemma triple_ret {A} (x : A) Pre (Post : A -> os P C -> Prop) Fail : (forall o, Pre o -> Post x o) -> triple must Pre (io_ret x) Post Fail.
Proof. intros H' o Ho. cbn. auto. Qed.

Lemma triple_fail {A} e Pre (Post : A -> os P C -> Prop) (Fail : os P C -> Prop) : (forall o, Pre o -> Fail o /\ ~ must) -> triple must Pre (io_fail e) Post Fail.
Proof. intros H' o Ho. cbn. destruct (H' o Ho). auto. Qed.

Lemma triple_bind {A B} (c : io P C A) (k : A -> io P C B) Pre Mid Post Fail :
  triple must Pre c Mid Fail -> (forall x, triple must (Mid x) (k x) Post Fail) -> triple must Pre (io_bind c k) Post Fail.
Proof.
  intros Hc Hk o Ho. unfold io_bind. specialize (Hc o Ho). destruct (c o) as [o1 [x|e]]; cbn [fst snd] in *; [|exact Hc]. destruct Hc as [Hf Hm].
  specialize (Hk x o1 Hm). destruct (k x o1) as [o2 [y|e]]; cbn [fst snd] in *; destruct Hk as [H1 H2]; (split; [auto|]); [exact H2|].
  destruct H2 as [H2 H3]. split; [exact H2|]. intros Hmust E. apply (H3 Hmust). auto.
Qed.

Lemma triple_weaken {A} (c : io P C A) Pre Pre' (Post Post' : A -> os P C -> Prop) (Fail Fail' : os P C -> Prop) :
  triple must Pre' c Post' Fail' -> (forall o, Pre o -> Pre' o) -> (forall x o, Post' x o -> Post x o) -> (forall o, Fail' o -> Fail o) -> triple must Pre c Post Fail.
Proof. intros Hc H1 H2 H3 o Ho. specialize (Hc o (H1 o Ho)). destruct (c o) as [o' [x|e]]; cbn [fst snd] in *; destruct Hc as [Hf Hx]; (split; [exact Hf|]); [auto|destruct Hx; auto]. Qed.

Lemma triple_lift {A} (r : res A) Pre (Post : A -> os P C -> Prop) Fail :
  (forall o x, Pre o -> r = Ok x -> Post x o) -> (forall o e, Pre o -> r = Err e -> Fail o /\ ~ must) -> triple must Pre (io_lift r) Post Fail.
Proof. intros H1 H2 o Ho. unfold io_lift. cbn [fst snd]. split; [auto|]. destruct r as [x|e]; [eauto|]. destruct (H2 o e Ho eq_refl). split; [auto|]. intros Hm. contradiction. Qed.

(** The same files with other faults. *)
Definition refault o (faults : list fault) : os P C := mkOs (os_names o) (os_data o) (os_next o) faults (os_user o).
Definition fault_free_pred (Pr : os P C -> Prop) : Prop := forall o faults, Pr o -> Pr (refault o faults).

Lemma next_fault_spec o : exists f, next_fault o = (refault o (tail (os_faults o)), f) /\ (f <> None -> os_faults o <> []).
Proof.
  unfold next_fault, refault. destruct o as [n d x [|f fs] u]; cbn; [exists None|exists f]; split; auto; congruence.
Qed.

Lemma triple_point Pre : fault_free_pred Pre -> triple must Pre fs_point (fun _ => Pre) Pre.
Proof.
  intros Hff o Ho. unfold fs_point. destruct (next_fault_spec o) as (f & E & Hf). rewrite E. destruct f as [k|]; cbn [fst snd]; (split; [cbn; intros ->; reflexivity|]).
  - split; [now apply Hff|]. intros _. apply Hf. discriminate.
  - now apply Hff.
Qed.

Lemma triple_from {A} (c : io P C A) (Pre Pre' : os P C -> Prop) Post Fail : (forall o, Pre o -> Pre' o) -> triple must Pre' c Post Fail -> triple must Pre c Post Fail.
Proof. intros H1 Hc o Ho. exact (Hc o (H1 o Ho)). Qed.

Lemma triple_pre {A} (c : io P C A) (Pre : os P C -> Prop) Post Fail : (forall o, Pre o -> triple must (eq o) c Post Fail) -> triple must Pre c Post Fail.
Proof. intros H' o Ho. exact (H' o Ho o eq_refl). Qed.
End Triple.
