(* ===== verification/FsDisk.v ===== *)
(** * The file system as a map from names to contents

    When no two names share a file, the calls of [Fs] act on the map [disk] from
    names to bytes.  Each call has one rule: its effect when it succeeds, and the
    states it can leave when it fails. *)
From S2P Require Import Prelude Bytes Fs.

Section Disk.
Context {P C : Type} `{Countable P}.
Implicit Types (o : os P C) (d : gmap P (list Z)) (u : C -> Prop).

Definition disk o : gmap P (list Z) := bytes_of o <$> os_names o.

Record fs_wf o : Prop := mkFsWf {
  fw_inj : forall p q f, os_names o !! p = Some f -> os_names o !! q = Some f -> p = q;
  fw_next : forall p f, os_names o !! p = Some f -> (f < os_next o)%nat;
}.

(** The files are [d] and the rest of the state satisfies [u]. *)
Record at_disk d u o : Prop := mkAtDisk { ad_wf : fs_wf o; ad_disk : disk o = d; ad_user : u (os_user o) }.

(** The descriptor [f] belongs to the file named [p]. *)
Definition owns o (p : P) (f : nat) : Prop := os_names o !! p = Some f.

Lemma at_disk_faults d u : fault_free_pred (at_disk d u).
Proof. intros o faults [[H1 H2] H3 H4]. constructor; [constructor|..]; assumption. Qed.

Lemma at_disk_owns_faults d u p f : fault_free_pred (fun o => at_disk d u o /\ owns o p f).
Proof. intros o faults [H1 H2]. split; [now apply at_disk_faults|exact H2]. Qed.

Lemma disk_owns d u o p f : at_disk d u o -> owns o p f -> d !! p = Some (bytes_of o f).
Proof. intros [_ <- _] Ho. unfold disk. now rewrite lookup_fmap, Ho. Qed.

Lemma disk_exists d u o p : at_disk d u o -> exists_path o p = bool_decide (is_Some (d !! p)).
Proof. intros [_ <- _]. unfold exists_path, disk. rewrite lookup_fmap. destruct (os_names o !! p); reflexivity. Qed.

Context (must : Prop).

Lemma disk_point d u : triple must (at_disk d u) fs_point (fun _ => at_disk d u) (at_disk d u).
Proof. apply triple_point, at_disk_faults. Qed.

Lemma disk_point_owns d u p f : triple must (fun o => at_disk d u o /\ owns o p f) fs_point (fun _ o => at_disk d u o /\ owns o p f) (at_disk d u).
Proof. exact (triple_weaken _ _ _ _ _ _ _ _ (triple_point _ _ (at_disk_owns_faults d u p f)) (fun o H => H) (fun _ o H => H) (fun o H => proj1 H)). Qed.

Lemma disk_open d u p x : d !! p = Some x -> triple must (at_disk d u) (fs_open p) (fun f o => at_disk d u o /\ owns o p f) (at_disk d u).
Proof.
  intros Hp o Ho. unfold fs_open. pose proof Ho as [_ Hd _]. rewrite <- Hd in Hp. unfold disk in Hp. rewrite lookup_fmap in Hp. destruct (os_names o !! p) as [f|] eqn:E; [|discriminate].
  cbn. auto.
Qed.

Lemma disk_data d u p f x : d !! p = Some x -> triple must (fun o => at_disk d u o /\ owns o p f) (fs_data f) (fun y o => (at_disk d u o /\ owns o p f) /\ y = x) (at_disk d u).
Proof. intros Hp o [Ho Hf]. cbn. split; [auto|]. split; [auto|]. rewrite (disk_owns d u o p f Ho Hf) in Hp. congruence. Qed.

Lemma disk_test d u p : triple must (at_disk d u) (fs_exists p) (fun y o => at_disk d u o /\ y = bool_decide (is_Some (d !! p))) (at_disk d u).
Proof. intros o Ho. cbn. split; [auto|]. split; [exact Ho|]. now apply (disk_exists d u). Qed.

Lemma disk_create d u p : d !! p = None -> triple must (at_disk d u) (fs_create p) (fun f o => at_disk (<[p := []]> d) u o /\ owns o p f) (at_disk d u).
Proof.
  intros Hp o Ho. unfold fs_create. destruct (next_fault_spec o) as (f & E & Hf). rewrite E. set (o1 := refault o (tail (os_faults o))). assert (H1 : at_disk d u o1) by now apply at_disk_faults.
  rewrite (disk_exists d u o1 p H1), Hp. destruct f as [k|]; cbn [fst snd]; (split; [cbn; intros ->; reflexivity|]); [split; [exact H1|intros _; apply Hf; discriminate]|].
  destruct Ho as [[W1 W2] Hd Hu]. change (os_names o1) with (os_names o). change (os_data o1) with (os_data o). change (os_next o1) with (os_next o).
  assert (Hpn : os_names o !! p = None) by (rewrite <- Hd in Hp; unfold disk in Hp; rewrite lookup_fmap in Hp; now destruct (os_names o !! p)).
  split; [|unfold owns; cbn; apply lookup_insert_eq]. constructor; [constructor| |exact Hu]; cbn.
  - intros q r g [[<- <-]|[Hq Eq]]%lookup_insert_Some [[<- Er]|[Hr Er]]%lookup_insert_Some; auto; [apply W2 in Er; lia|subst g; apply W2 in Eq; lia|eauto].
  - intros q g [[<- <-]|[_ Eq]]%lookup_insert_Some; [lia|]. apply W2 in Eq. lia.
  - rewrite <- Hd. unfold disk. cbn. rewrite fmap_insert. unfold bytes_of at 1. cbn. rewrite lookup_insert_eq. cbn. f_equal. apply map_fmap_ext. intros q g Eq.
    apply W2 in Eq. unfold bytes_of. cbn. now rewrite lookup_insert_ne by lia.
Qed.

(** The files after the contents of one of them have been replaced. *)
Lemma disk_set d u o p f x faults : at_disk d u o -> owns o p f ->
  at_disk (<[p := x]> d) u (mkOs (os_names o) (<[f := x]> (os_data o)) (os_next o) faults (os_user o)).
Proof.
  intros [[W1 W2] Hd Hu] Hf. constructor; [constructor; assumption| |exact Hu]. rewrite <- Hd. unfold disk. cbn [os_names]. apply map_eq. intros q.
  rewrite lookup_fmap. destruct (decide (q = p)) as [->|Hq].
  - rewrite lookup_insert_eq. unfold owns in Hf. rewrite Hf. cbn. unfold bytes_of. cbn. now rewrite lookup_insert_eq.
  - rewrite lookup_insert_ne by congruence. rewrite lookup_fmap. destruct (os_names o !! q) as [g|] eqn:Eg; [|reflexivity]. cbn. f_equal. unfold bytes_of. cbn.
    rewrite lookup_insert_ne; [reflexivity|]. intros ->. apply Hq. eapply W1; eauto.
Qed.

Lemma disk_write d u p f x off bytes : d !! p = Some x ->
  triple must (fun o => at_disk d u o /\ owns o p f) (fs_write f off bytes)
    (fun _ o => at_disk (<[p := splice x off bytes]> d) u o /\ owns o p f)
    (fun o => exists k, at_disk (<[p := splice x off (take k bytes)]> d) u o).
Proof.
  intros Hp o [Ho Hf]. rewrite (disk_owns d u o p f Ho Hf) in Hp. injection Hp as Hp. unfold fs_write. destruct (next_fault_spec o) as (ft & E & Hft). rewrite E.
  destruct ft as [k|]; cbn [fst snd]; (split; [cbn; intros ->; reflexivity|]).
  - split; [|intros _; apply Hft; discriminate]. exists k. rewrite <- Hp. exact (disk_set d u o p f (splice (bytes_of o f) off (take k bytes)) _ Ho Hf).
  - split; [|exact Hf]. rewrite <- Hp. exact (disk_set d u o p f (splice (bytes_of o f) off bytes) _ Ho Hf).
Qed.

Lemma disk_truncate d u p f x size : d !! p = Some x -> 0 <= size <= len x ->
  triple must (fun o => at_disk d u o /\ owns o p f) (fs_truncate f size)
    (fun _ o => at_disk (<[p := take (Z.to_nat size) x]> d) u o /\ owns o p f) (at_disk d u).
Proof.
  intros Hp Hs o [Ho Hf]. rewrite (disk_owns d u o p f Ho Hf) in Hp. injection Hp as Hp. unfold fs_truncate. destruct (next_fault_spec o) as (ft & E & Hft). rewrite E.
  destruct ft as [k|]; cbn [fst snd]; (split; [cbn; intros ->; reflexivity|]).
  - split; [now apply at_disk_faults|intros _; apply Hft; discriminate].
  - split; [|exact Hf]. change (bytes_of (refault o (tail (os_faults o))) f) with (bytes_of o f). rewrite Hp.
    replace (take (Z.to_nat size) x ++ zeros (Z.to_nat size - length x)) with (take (Z.to_nat size) x).
    + exact (disk_set d u o p f _ _ Ho Hf).
    + unfold len in Hs. replace (Z.to_nat size - length x)%nat with 0%nat by lia. unfold zeros. cbn. now rewrite app_nil_r.
Qed.

Lemma disk_moved d u o p q f faults : at_disk d u o -> owns o p f ->
  at_disk (<[q := bytes_of o f]> (delete p d)) u (mkOs (<[q := f]> (delete p (os_names o))) (os_data o) (os_next o) faults (os_user o)).
Proof.
  intros [[W1 W2] Hd Hu] Hf. constructor; [constructor| |exact Hu]; cbn.
  - intros x y g [[<- <-]|[Hx Ex]]%lookup_insert_Some [[<- Ey]|[Hy Ey]]%lookup_insert_Some; auto.
    + apply lookup_delete_Some in Ey as [Hne Ey]. exfalso. apply Hne. eapply W1; eauto.
    + subst g. apply lookup_delete_Some in Ex as [Hne Ex]. exfalso. apply Hne. eapply W1; eauto.
    + apply lookup_delete_Some in Ex as [_ Ex], Ey as [_ Ey]. eauto.
  - intros x g [[_ <-]|[_ [_ Ex]%lookup_delete_Some]]%lookup_insert_Some; eapply W2; eauto.
  - rewrite <- Hd. unfold disk. cbn. rewrite fmap_insert, fmap_delete. reflexivity.
Qed.

(** A file that had the new name is replaced. *)
Lemma disk_rename d u p q x : d !! p = Some x ->
  triple must (at_disk d u) (fs_rename p q)
    (fun _ => at_disk (<[q := x]> (delete p d)) u) (fun o => at_disk d u o \/ at_disk (<[q := x]> (delete p d)) u o).
Proof.
  intros Hp o Ho. pose proof Ho as [_ Hd _]. rewrite <- Hd in Hp. unfold disk in Hp. rewrite lookup_fmap in Hp. destruct (os_names o !! p) as [f|] eqn:Ef; [|discriminate]. injection Hp as Hp.
  pose proof (fun faults => disk_moved d u o p q f faults Ho Ef) as Hm. rewrite Hp in Hm. unfold fs_rename. destruct (next_fault_spec o) as (ft & E & Hft). rewrite E. set (o1 := refault o (tail (os_faults o))).
  assert (H1 : at_disk d u o1) by now apply at_disk_faults. assert (Ex : exists_path o1 p = true) by (unfold exists_path; cbn; rewrite Ef; reflexivity). rewrite Ex.
  change (os_names o1 !! p) with (os_names o !! p). rewrite Ef.
  destruct ft as [k|]; cbn [fst snd]; [destruct (k =? 0)%nat|]; (split; [cbn; intros ->; reflexivity|]).
  - split; [left; exact H1|intros _; apply Hft; discriminate].
  - split; [right; apply Hm|intros _; apply Hft; discriminate].
  - apply Hm.
Qed.

(** The descriptor follows its file. *)
Lemma disk_rename_owns d u p q x f : d !! p = Some x ->
  triple must (fun o => at_disk d u o /\ owns o p f) (fs_rename p q)
    (fun _ o => at_disk (<[q := x]> (delete p d)) u o /\ owns o q f) (fun o => at_disk d u o \/ at_disk (<[q := x]> (delete p d)) u o).
Proof.
  intros Hp o [Ho Hf]. pose proof (disk_rename d u p q x Hp o Ho) as [H1 H2]. split; [exact H1|]. destruct (fs_rename p q o) as [o' [y|e]] eqn:E; cbn [fst snd] in *; [|exact H2]. split; [exact H2|].
  unfold fs_rename in E. destruct (next_fault_spec o) as (ft & Ef & _). rewrite Ef in E. destruct ft as [k|]; [discriminate|]. unfold exists_path in E. cbn [os_names refault] in E. unfold owns in *. rewrite Hf in E. cbn in E. injection E as <- _. cbn. apply lookup_insert_eq.
Qed.

Lemma disk_unlinked d u o p faults : at_disk d u o -> at_disk (delete p d) u (mkOs (delete p (os_names o)) (os_data o) (os_next o) faults (os_user o)).
Proof.
  intros [[W1 W2] Hd Hu]. constructor; [constructor| |exact Hu]; cbn.
  - intros x y g [_ Ex]%lookup_delete_Some [_ Ey]%lookup_delete_Some. eauto.
  - intros x g [_ Ex]%lookup_delete_Some. eauto.
  - rewrite <- Hd. unfold disk. cbn. now rewrite fmap_delete.
Qed.

Lemma disk_remove d u p : is_Some (d !! p) ->
  triple must (at_disk d u) (fs_remove p) (fun _ => at_disk (delete p d) u) (fun o => at_disk d u o \/ at_disk (delete p d) u o).
Proof.
  intros Hp o Ho. unfold fs_remove. destruct (next_fault_spec o) as (ft & E & Hft). rewrite E. set (o1 := refault o (tail (os_faults o))).
  assert (H1 : at_disk d u o1) by now apply at_disk_faults. rewrite (disk_exists d u o1 p H1), bool_decide_eq_true_2 by exact Hp.
  pose proof (fun faults => disk_unlinked d u o p faults Ho) as Hm.
  destruct ft as [k|]; cbn [fst snd]; [destruct (k =? 0)%nat|]; (split; [cbn; intros ->; reflexivity|]).
  - split; [left; exact H1|intros _; apply Hft; discriminate].
  - split; [right; apply Hm|intros _; apply Hft; discriminate].
  - apply Hm.
Qed.

(** Removing a file that may be missing. *)
Lemma disk_remove_any d u p : triple must (at_disk d u) (ignore_missing (fs_remove p))
    (fun _ => at_disk (delete p d) u) (fun o => at_disk d u o \/ at_disk (delete p d) u o).
Proof.
  intros o Ho. unfold ignore_missing. destruct (d !! p) as [x|] eqn:Ep.
  - pose proof (disk_remove d u p (mk_is_Some _ _ Ep) o Ho) as Hr. destruct (fs_remove p o) as [o' [y|e]] eqn:Er; cbn [fst snd] in *; [exact Hr|].
    assert (Ee : e = [io_Error]).
    { unfold fs_remove in Er. destruct (next_fault_spec o) as (ft & E & _). rewrite E in Er. destruct ft as [k|]; [congruence|].
      rewrite (disk_exists d u _ p (at_disk_faults d u _ _ Ho)), Ep in Er. rewrite bool_decide_eq_true_2 in Er by eauto. discriminate. }
    subst e. rewrite bool_decide_eq_false_2 by set_solver. exact Hr.
  - rewrite delete_id by exact Ep. unfold fs_remove. destruct (next_fault_spec o) as (ft & E & Hft). rewrite E. set (o1 := refault o (tail (os_faults o))).
    assert (H1 : at_disk d u o1) by now apply at_disk_faults. pose proof (disk_unlinked d u o p (tail (os_faults o)) Ho) as Hm. rewrite delete_id in Hm by exact Ep.
    rewrite (disk_exists d u o1 p H1), Ep. destruct ft as [k|]; [destruct (k =? 0)%nat|]; cbn -[elem_of]; (split; [intros ->; reflexivity|]).
    + rewrite bool_decide_eq_false_2 by set_solver. split; [left; exact H1|intros _; apply Hft; discriminate].
    + rewrite bool_decide_eq_false_2 by set_solver. split; [right; exact Hm|intros _; apply Hft; discriminate].
    + rewrite bool_decide_eq_true_2 by set_solver. exact H1.
Qed.

(** ** Names that a computation leaves alone *)

Definition keeps {A} (q : P) (c : io P C A) : Prop := forall o, os_names (c o).1 !! q = os_names o !! q.

Lemma names_next_fault o : os_names (next_fault o).1 = os_names o.
Proof. unfold next_fault. now destruct (os_faults o). Qed.

Lemma keeps_bind {A B} q (c : io P C A) (k : A -> io P C B) : keeps q c -> (forall x, keeps q (k x)) -> keeps q (io_bind c k).
Proof. intros Hc Hk o. unfold io_bind. specialize (Hc o). destruct (c o) as [o1 [x|e]]; cbn in *; [now rewrite Hk|exact Hc]. Qed.

Lemma keeps_lift {A} q (r : res A) : keeps q (io_lift r).
Proof. now intros o. Qed.

Lemma keeps_point q : keeps q fs_point.
Proof. intros o. unfold fs_point. pose proof (names_next_fault o). destruct (next_fault o) as [o' []]; cbn in *; congruence. Qed.

Lemma keeps_write q f off bytes : keeps q (fs_write f off bytes).
Proof. intros o. unfold fs_write. pose proof (names_next_fault o). destruct (next_fault o) as [o' []]; cbn in *; congruence. Qed.

Lemma keeps_create q p : q <> p -> keeps q (fs_create p).
Proof.
  intros Hq o. unfold fs_create. pose proof (names_next_fault o) as Hn. destruct (next_fault o) as [o' []]; cbn in *; [congruence|]. destruct (exists_path o' p); cbn; [congruence|].
  rewrite lookup_insert_ne by congruence. congruence.
Qed.

Lemma keeps_rename q p p' : q <> p -> q <> p' -> keeps q (fs_rename p p').
Proof.
  intros Hq Hq' o. unfold fs_rename. pose proof (names_next_fault o) as Hn. destruct (next_fault o) as [o' [n|]]; cbn in *; rewrite <- Hn.
  - destruct (n =? 0)%nat; [reflexivity|]. destruct (os_names o' !! p); cbn; [|reflexivity]. now rewrite lookup_insert_ne, lookup_delete_ne by congruence.
  - destruct (exists_path o' p); [|reflexivity]. cbn. destruct (os_names o' !! p); cbn; [|reflexivity]. now rewrite lookup_insert_ne, lookup_delete_ne by congruence.
Qed.

Lemma keeps_remove q p : q <> p -> keeps q (fs_remove p).
Proof.
  intros Hq o. unfold fs_remove. pose proof (names_next_fault o) as Hn. destruct (next_fault o) as [o' [n|]]; cbn in *; rewrite <- Hn.
  - destruct (n =? 0)%nat; [reflexivity|]. cbn. now rewrite lookup_delete_ne by congruence.
  - destruct (exists_path o' p); [|reflexivity]. cbn. now rewrite lookup_delete_ne by congruence.
Qed.

Lemma keeps_missing q (c : io P C unit) : keeps q c -> keeps q (ignore_missing c).
Proof. intros Hc o. unfold ignore_missing. specialize (Hc o). destruct (c o) as [o' []]; exact Hc. Qed.

Lemma keeps_ret {A} q (x : A) : keeps q (io_ret x).
Proof. now intros o. Qed.

Lemma keeps_test q p : keeps q (fs_exists p).
Proof. now intros o. Qed.

Lemma triple_keeps {A} q g (c : io P C A) Pre Post Fail : keeps q c -> triple must Pre c Post Fail ->
  triple must (fun o => Pre o /\ owns o q g) c (fun x o => Post x o /\ owns o q g) Fail.
Proof.
  intros Hk Hc o [Ho Hg]. specialize (Hc o Ho). specialize (Hk o). unfold owns in *. destruct (c o) as [o' [x|e]]; cbn in *; destruct Hc as [H1 H2]; (split; [exact H1|]); [split; [exact H2|congruence]|exact H2].
Qed.
End Disk.

(** * Steps through the states in which a process may be stopped

    A multi-step operation on files goes through phases: states of the disk in
    which it may be stopped.  [stopped] is what a stop leaves.  Each rule below
    takes one call: the disk before it is a phase, the states that the call can
    leave when it fails are stopped ones, and the rest of the operation continues
    from the disk after it. *)

Lemma splice_fresh bytes : splice [] 0 bytes = bytes.
Proof. unfold splice. cbn. now rewrite drop_nil, app_nil_r. Qed.

Section Phases.
Context {P C : Type} `{Countable P} (must : Prop).
Context (phase : gmap P (list Z) -> (C -> Prop) -> Prop) (stopped : os P C -> Prop).
Context (stopped_in : forall d u o, phase d u -> at_disk d u o -> stopped o).

Section Steps.
Context {A : Type} (d : gmap P (list Z)) (u : C -> Prop) (Hp : phase d u) (Post : A -> os P C -> Prop).

Lemma step_point (k : io P C A) : triple must (at_disk d u) k Post stopped -> triple must (at_disk d u) (run fs_point ;; k) Post stopped.
Proof.
  intros Hk. apply (triple_bind _ _ _ _ (fun _ => at_disk d u)); [|auto]. eapply triple_weaken; [apply (disk_point must d u)|auto..]. intros o Ho. exact (stopped_in _ _ _ Hp Ho).
Qed.

Lemma step_point_owns p f (k : io P C A) : triple must (fun o => at_disk d u o /\ owns o p f) k Post stopped -> triple must (fun o => at_disk d u o /\ owns o p f) (run fs_point ;; k) Post stopped.
Proof.
  intros Hk. apply (triple_bind _ _ _ _ (fun _ o => at_disk d u o /\ owns o p f)); [|auto]. eapply triple_weaken; [apply (disk_point_owns must d u p f)|auto..]. intros o Ho. exact (stopped_in _ _ _ Hp Ho).
Qed.

Lemma step_open p x (k : nat -> io P C A) : d !! p = Some x -> (forall f, triple must (fun o => at_disk d u o /\ owns o p f) (k f) Post stopped) -> triple must (at_disk d u) (let* f := fs_open p in k f) Post stopped.
Proof.
  intros Hx Hk. apply (triple_bind _ _ _ _ (fun f o => at_disk d u o /\ owns o p f)); [|exact Hk]. eapply triple_weaken; [apply (disk_open must d u p x Hx)|auto..]. intros o Ho. exact (stopped_in _ _ _ Hp Ho).
Qed.

Lemma step_data p f x (k : list Z -> io P C A) : d !! p = Some x -> triple must (fun o => at_disk d u o /\ owns o p f) (k x) Post stopped -> triple must (fun o => at_disk d u o /\ owns o p f) (let* y := fs_data f in k y) Post stopped.
Proof.
  intros Hx Hk. apply (triple_bind _ _ _ _ (fun y o => (at_disk d u o /\ owns o p f) /\ y = x)).
  - eapply triple_weaken; [apply (disk_data must d u p f x Hx)|auto..]. intros o Ho. exact (stopped_in _ _ _ Hp Ho).
  - intros y. apply triple_pre. intros o [Ho ->]. eapply triple_from; [|exact Hk]. intros o' <-. exact Ho.
Qed.

Lemma step_test p (k : bool -> io P C A) : triple must (at_disk d u) (k (bool_decide (is_Some (d !! p)))) Post stopped -> triple must (at_disk d u) (let* b := fs_exists p in k b) Post stopped.
Proof.
  intros Hk. apply (triple_bind _ _ _ _ (fun y o => at_disk d u o /\ y = bool_decide (is_Some (d !! p)))).
  - eapply triple_weaken; [apply (disk_test must d u p)|auto..]. intros o Ho. exact (stopped_in _ _ _ Hp Ho).
  - intros y. apply triple_pre. intros o [Ho ->]. eapply triple_from; [|exact Hk]. intros o' <-. exact Ho.
Qed.

Lemma step_lift {B} Pre (r : res B) x (k : B -> io P C A) : r = Ok x -> triple must Pre (k x) Post stopped -> triple must Pre (let* y := io_lift r in k y) Post stopped.
Proof.
  intros -> Hk. apply (triple_bind _ _ _ _ (fun y o => Pre o /\ y = x)).
  - apply triple_lift; [intros o y Ho [= <-]; auto|discriminate].
  - intros y. apply triple_pre. intros o [Ho ->]. eapply triple_from; [|exact Hk]. intros o' <-. exact Ho.
Qed.

Lemma step_rename p q x d' (k : io P C A) : d !! p = Some x -> <[q := x]> (delete p d) = d' -> phase d' u ->
  triple must (at_disk d' u) k Post stopped -> triple must (at_disk d u) (run fs_rename p q ;; k) Post stopped.
Proof.
  intros H1 <- H3 Hk. apply (triple_bind _ _ _ _ (fun _ => at_disk (<[q := x]> (delete p d)) u)); [|auto]. eapply triple_weaken; [apply (disk_rename must d u p q x H1)|auto..].
  intros o [Ho|Ho]; [exact (stopped_in _ _ _ Hp Ho)|exact (stopped_in _ _ _ H3 Ho)].
Qed.

Lemma step_rename_owns p q f x d' (k : io P C A) : d !! p = Some x -> <[q := x]> (delete p d) = d' -> phase d' u ->
  triple must (fun o => at_disk d' u o /\ owns o q f) k Post stopped -> triple must (fun o => at_disk d u o /\ owns o p f) (run fs_rename p q ;; k) Post stopped.
Proof.
  intros H1 <- H3 Hk. apply (triple_bind _ _ _ _ (fun _ o => at_disk (<[q := x]> (delete p d)) u o /\ owns o q f)); [|auto]. eapply triple_weaken; [apply (disk_rename_owns must d u p q x f H1)|auto..].
  intros o [Ho|Ho]; [exact (stopped_in _ _ _ Hp Ho)|exact (stopped_in _ _ _ H3 Ho)].
Qed.

Lemma step_forget p f (k : io P C A) : triple must (at_disk d u) k Post stopped -> triple must (fun o => at_disk d u o /\ owns o p f) k Post stopped.
Proof. apply triple_from. tauto. Qed.

Lemma step_write p f x off bytes d' (k : io P C A) : d !! p = Some x -> <[p := splice x off bytes]> d = d' -> (forall n, phase (<[p := splice x off (take n bytes)]> d) u) ->
  triple must (fun o => at_disk d' u o /\ owns o p f) k Post stopped -> triple must (fun o => at_disk d u o /\ owns o p f) (run fs_write f off bytes ;; k) Post stopped.
Proof.
  intros H1 <- H2 Hk. apply (triple_bind _ _ _ _ (fun _ o => at_disk (<[p := splice x off bytes]> d) u o /\ owns o p f)); [|auto]. eapply triple_weaken; [apply (disk_write must d u p f x off bytes H1)|auto..].
  intros o [n Ho]. exact (stopped_in _ _ _ (H2 n) Ho).
Qed.

Lemma step_create p d' (k : nat -> io P C A) : d !! p = None -> <[p := []]> d = d' -> (forall f, triple must (fun o => at_disk d' u o /\ owns o p f) (k f) Post stopped) -> triple must (at_disk d u) (let* f := fs_create p in k f) Post stopped.
Proof.
  intros H1 <- Hk. apply (triple_bind _ _ _ _ (fun f o => at_disk (<[p := []]> d) u o /\ owns o p f)); [|exact Hk]. eapply triple_weaken; [apply (disk_create must d u p H1)|auto..]. intros o Ho. exact (stopped_in _ _ _ Hp Ho).
Qed.

Lemma step_remove_any p d' (k : io P C A) : delete p d = d' -> phase d' u -> triple must (at_disk d' u) k Post stopped -> triple must (at_disk d u) (run ignore_missing (fs_remove p) ;; k) Post stopped.
Proof.
  intros <- H3 Hk. apply (triple_bind _ _ _ _ (fun _ => at_disk (delete p d) u)); [|auto]. eapply triple_weaken; [apply (disk_remove_any must d u p)|auto..].
  intros o [Ho|Ho]; [exact (stopped_in _ _ _ Hp Ho)|exact (stopped_in _ _ _ H3 Ho)].
Qed.

Lemma step_remove p d' (k : io P C A) : is_Some (d !! p) -> delete p d = d' -> phase d' u -> triple must (at_disk d' u) k Post stopped -> triple must (at_disk d u) (run fs_remove p ;; k) Post stopped.
Proof.
  intros H1 <- H3 Hk. apply (triple_bind _ _ _ _ (fun _ => at_disk (delete p d) u)); [|auto]. eapply triple_weaken; [apply (disk_remove must d u p H1)|auto..].
  intros o [Ho|Ho]; [exact (stopped_in _ _ _ Hp Ho)|exact (stopped_in _ _ _ H3 Ho)].
Qed.

Lemma step_truncate p f x size d' (k : io P C A) : d !! p = Some x -> 0 <= size <= len x -> <[p := take (Z.to_nat size) x]> d = d' ->
  triple must (fun o => at_disk d' u o /\ owns o p f) k Post stopped -> triple must (fun o => at_disk d u o /\ owns o p f) (run fs_truncate f size ;; k) Post stopped.
Proof.
  intros H1 H2 <- Hk. apply (triple_bind _ _ _ _ (fun _ o => at_disk (<[p := take (Z.to_nat size) x]> d) u o /\ owns o p f)); [|auto]. eapply triple_weaken; [apply (disk_truncate must d u p f x size H1 H2)|auto..].
  intros o Ho. exact (stopped_in _ _ _ Hp Ho).
Qed.
End Steps.

Lemma step_seq {A B} Pre Mid (c : io P C A) (k : A -> io P C B) Post : triple must Pre c Mid stopped -> (forall x, triple must (Mid x) (k x) Post stopped) -> triple must Pre (io_bind c k) Post stopped.
Proof. apply triple_bind. Qed.

Lemma last_step d u : phase d u -> triple must (at_disk d u) fs_point (fun _ => at_disk d u) stopped.
Proof. intros Hp. eapply triple_weaken; [apply (disk_point must d u)|auto..]. intros o Ho. exact (stopped_in _ _ _ Hp Ho). Qed.
End Phases.
