(* ===== verification/NodeIface.v ===== *)
(** * The contract of a node store

    The radix tree reads immutable nodes by address and appends new ones
    ([NodeReader] and [NodeStore] of internal/radix/tree.go, implemented by
    internal/mapstore).  [NodeStore] states the operations, [NodeStoreLaws] what
    they promise: a node that can be read stays readable and the same, and a
    successful append returns an address under which exactly the given slots are
    read back. *)
From S2P Require Import Prelude Addr MapNode.

Class NodeStore (N : Type) := {
  ns_Read : N -> Z -> res Node;
  (** level, prefix, covered, slots *)
  ns_Append : N -> Z -> Z -> Z -> list Z -> N * res Z;
  (** prefix, covered, refs *)
  ns_AppendLeaf : N -> Z -> Z -> list RecordRef -> N * res Z;
  ns_Sync : N -> N * option goerror;
}.

(** [nd] is a decoded node with this identity and these slots. *)
Definition node_of (nd : Node) (level prefix covered : Z) (slots sizes : list Z) : Prop :=
  exists seq, let b := mkBuild level seq prefix covered slots sizes in
    build_u b /\ node_holds b nd /\ Forall (entry_valid level) (pairs b) /\ (level = 7 -> topSlotsEmpty slots = true).

Definition readable {N} `{!NodeStore N} (n n' : N) : Prop := forall a nd, ns_Read n a = Ok nd -> ns_Read n' a = Ok nd.

Class NodeStoreLaws (N : Type) `{!NodeStore N} := {
  ns_ok : N -> Prop;

  ns_append n level prefix covered slots n' r : ns_ok n -> 0 <= level <= 7 -> is_u64 prefix -> is_u64 covered ->
    length slots = 512%nat -> Forall is_u64 slots -> ns_Append n level prefix covered slots = (n', r) ->
    ns_ok n' /\ readable n n' /\
    match r with
    | Err _ => True
    | Ok a => is_u64 a /\ MapAddr_Valid a = true /\ exists nd, ns_Read n' a = Ok nd /\ node_of nd level prefix covered slots (replicate 512 0)
    end;

  ns_append_leaf n prefix covered refs n' r : ns_ok n -> is_u64 prefix -> is_u64 covered ->
    length refs = 512%nat -> Forall ref_u refs -> ns_AppendLeaf n prefix covered refs = (n', r) ->
    ns_ok n' /\ readable n n' /\
    match r with
    | Err _ => True
    | Ok a => is_u64 a /\ MapAddr_Valid a = true /\
              exists nd, ns_Read n' a = Ok nd /\ node_of nd 0 prefix covered (map Addr refs) (map PhysicalSize refs)
    end;

  ns_sync n n' e : ns_ok n -> ns_Sync n = (n', e) -> ns_ok n' /\ readable n n';
}.

Lemma readable_refl {N} `{!NodeStore N} (n : N) : readable n n.
Proof. now intros a nd. Qed.

Lemma readable_trans {N} `{!NodeStore N} (n1 n2 n3 : N) : readable n1 n2 -> readable n2 n3 -> readable n1 n3.
Proof. intros H1 H2 a nd H. auto. Qed.
