(* ===== verification/MapStore.v ===== *)
(** * The mapping store

    Models [internal/mapstore/store.go], the files part of [rotation.go] and
    [rotation_lifecycle.go]: segments of encoded nodes, appends that rotate to a
    new segment when the active one is full, the journal that makes a rotation
    restartable, and opening with tail repair.  One writer runs at a time
    ([writerMu]), so an operation is one step; the checks for a concurrent change
    of [active], [nextSeq] and [state] that the writer lock rules out are left
    out.  The catalog is a parameter ([CatalogPort]). *)
From S2P Require Import Prelude Bytes Addr Crc32 MapNode MapSegment Fs NodeIface.

(** The files of the directory [mapping-v2]. *)
Inductive mpath := PActive (id : Z) | PSealed (id : Z) | PCreating (id : Z) | PRotation | PRotationTmp.

#[export] Instance mpath_eq_dec : EqDecision mpath.
Proof. solve_decision. Defined.
#[export] Instance mpath_countable : Countable mpath.
Proof.
  refine (inj_countable'
    (fun p => match p with PActive i => inl (inl (inl i)) | PSealed i => inl (inl (inr i)) | PCreating i => inl (inr i) | PRotation => inr false | PRotationTmp => inr true end)
    (fun s => match s with inl (inl (inl i)) => PActive i | inl (inl (inr i)) => PSealed i | inl (inr i) => PCreating i | inr false => PRotation | inr true => PRotationTmp end) _).
  now intros [].
Defined.

(** ** Reading nodes *)

Definition readNodeAt (data : list Z) (validEnd addr : Z) : res Node :=
  let! header := read_at data (MapAddr_Offset addr) NodeHeaderSize in
  let! (_, size) := decodeNodeHeader header ((validEnd - MapAddr_Offset addr) mod two32) in
  let! encoded := read_at data (MapAddr_Offset addr) size in
  let! (node, _) := DecodeNode encoded ((validEnd - MapAddr_Offset addr) mod two32) in
  Ok node.

(** A node seen by a scan: offset, node and size. *)
Record visit := mkVisit { vi_offset : Z; vi_node : Node; vi_size : Z }.

(** [for result.ValidEnd < end]; every round moves the end by at least one node
    header, so the number of bytes is enough fuel. *)
Fixpoint scan_loop (fuel : nat) (data : list Z) (header : SegmentHeader) (end_ root : Z) (result : SegmentSummary) (visits : list visit) : res (SegmentSummary * bool * list visit) :=
  if end_ <=? ss_ValidEnd result then Ok (result, false, visits)
  else match fuel with
  | O => Err [mapstore_ErrCorrupt]
  | S fuel' =>
      let remainingFile := end_ - ss_ValidEnd result in
      let torn := if (MapAddr_SegmentID root =? sh_SegmentID header) && (ss_ValidEnd result <=? MapAddr_Offset root) then Err [mapstore_ErrCorrupt]
                  else Ok (result, true, visits) in
      let remaining := (sh_SegmentSize header - SegmentFooterSize - ss_ValidEnd result) mod two32 in
      if remainingFile <? NodeHeaderSize then torn
      else
        let! headerBytes := read_at data (ss_ValidEnd result) NodeHeaderSize in
        let! (node, size) := decodeNodeHeader headerBytes remaining in
        if remainingFile <? size then torn
        else
          let! encoded := read_at data (ss_ValidEnd result) size in
          match DecodeNode encoded remaining with
          | Err e => Err ([mapstore_ErrCorrupt] ++ e)
          | Ok (decoded, _) =>
              raise [mapstore_ErrCorrupt] when negb (nd_NodeSeq decoded =? nd_NodeSeq node) ;;
              raise [mapstore_ErrCorrupt] when
                negb (ss_NodeCount result =? 0) && negb (nd_NodeSeq decoded =? (ss_LastSeq result + 1) mod two64) ;;
              scan_loop fuel' data header end_ root
                (mkSummary (ss_SegmentID result) ((ss_ValidEnd result + size) mod two32)
                   (if ss_NodeCount result =? 0 then nd_NodeSeq decoded else ss_FirstSeq result) (nd_NodeSeq decoded) ((ss_NodeCount result + 1) mod two64))
                (visits ++ [mkVisit (ss_ValidEnd result) decoded size])
          end
  end.

Definition empty_summary (id : Z) : SegmentSummary := mkSummary id SegmentHeaderSize 0 0 0.

(** [visit] sees the nodes in this order; it is not called when it is nil. *)
Definition scanNodesWithVisitor (data : list Z) (header : SegmentHeader) (end_ root : Z) : res (SegmentSummary * bool * list visit) :=
  scan_loop (length data) data header end_ root (empty_summary (sh_SegmentID header)) [].

Definition scanNodes (data : list Z) (header : SegmentHeader) (end_ root : Z) : res (SegmentSummary * bool) :=
  let! (summary, repaired, _) := scanNodesWithVisitor data header end_ root in Ok (summary, repaired).

Definition verifyHeader (data : list Z) (expected : SegmentHeader) : res unit :=
  let! encoded := read_at data 0 SegmentHeaderSize in
  let! header := DecodeSegmentHeader encoded in
  raise [mapstore_ErrCorrupt] when negb (bool_decide (header = expected)) ;; Ok tt.

(** ** Segments *)

Record segmentFile := mkSegment { sg_file : nat; sg_header : SegmentHeader; sg_summary : SegmentSummary }.

Definition footer_summary (f : SegmentFooter) : SegmentSummary :=
  mkSummary (sf_SegmentID f) (sf_ValidEnd f) (sf_FirstSeq f) (sf_LastSeq f) (sf_NodeCount f).

(** The checks of [openSealed] on the bytes of the file. *)
Definition check_sealed (data : list Z) (expected : SegmentHeader) (ref : SegmentRef) : res SegmentSummary :=
  raise [mapstore_ErrCorrupt] when negb (len data =? (sr_ValidEnd ref + SegmentFooterSize) mod two32) ;;
  let! _ := verifyHeader data expected in
  let! footerBytes := read_at data (sr_ValidEnd ref) SegmentFooterSize in
  match DecodeSegmentFooter footerBytes with
  | Err e => Err ([mapstore_ErrCorrupt] ++ e)
  | Ok f =>
      raise [mapstore_ErrCorrupt] when negb (sf_SegmentID f =? sr_SegmentID ref) || negb (sf_ValidEnd f =? sr_ValidEnd ref) ;;
      match scanNodes data expected (sr_ValidEnd ref) 0 with
      | Err e => Err ([mapstore_ErrCorrupt] ++ e)
      | Ok (actual, _) => raise [mapstore_ErrCorrupt] when negb (bool_decide (actual = footer_summary f)) ;; Ok (footer_summary f)
      end
  end.

Class CatalogPort (C : Type) := {
  cp_Snapshot : C -> CatalogSnapshot;
  (** the faults of its file calls, expected generation, sealed, new active, next;
      the faults that are left *)
  cp_Install : C -> list fault -> Z -> SegmentRef -> Z -> Z -> C * list fault * res CatalogSnapshot;
  (** what a new process reads *)
  cp_Reload : C -> C;
}.

Section Store.
Context {C : Type} `{!CatalogPort C}.
Abbreviation mio := (io mpath C).

Definition hitFault : mio unit := fs_point.
Definition file_Sync (file : nat) : mio unit := fs_point.
Definition file_Close (file : nat) : mio unit := fs_point.
Definition syncDirectory : mio unit := fs_point.
Definition ensureDirectory : mio unit := fs_point.
Definition writeFullAt (file : nat) (bytes : list Z) (off : Z) : mio unit := fs_write file off bytes.

Definition snapshot : mio CatalogSnapshot := fun o => (o, Ok (cp_Snapshot (os_user o))).

Definition openSealed (expected : SegmentHeader) (ref : SegmentRef) : mio segmentFile :=
  let* file := fs_open (PSealed (sh_SegmentID expected)) in
  let* data := fs_data file in
  let* summary := io_lift (check_sealed data expected ref) in
  io_ret (mkSegment file expected summary).

Definition openActive (expected : SegmentHeader) (rootAddr : Z) : mio (segmentFile * bool) :=
  let* file := fs_open (PActive (sh_SegmentID expected)) in
  let* data := fs_data file in
  let* _ := io_lift (verifyHeader data expected) in
  if (len data <? SegmentHeaderSize) || ((sh_SegmentSize expected - SegmentFooterSize) mod two32 <? len data) then io_fail [mapstore_ErrCorrupt]
  else
    let* (summary, repaired) := io_lift (scanNodes data expected (len data) rootAddr) in
    if repaired then
      run hitFault ;; run fs_truncate file (ss_ValidEnd summary) ;; run hitFault ;; run file_Sync file ;;
      io_ret (mkSegment file expected summary, true)
    else io_ret (mkSegment file expected summary, false).

Definition createActive (header : SegmentHeader) : mio segmentFile :=
  let* encoded := io_lift (EncodeSegmentHeader header) in
  run ensureDirectory ;;
  let* file := fs_create (PCreating (sh_SegmentID header)) in
  run hitFault ;; run writeFullAt file encoded 0 ;;
  run hitFault ;; run file_Sync file ;;
  run hitFault ;; run fs_rename (PCreating (sh_SegmentID header)) (PActive (sh_SegmentID header)) ;;
  run hitFault ;; run syncDirectory ;;
  io_ret (mkSegment file header (empty_summary (sh_SegmentID header))).

Definition CreateInitialSegment (storeID : list Z) (segmentSize : Z) : mio unit :=
  let header := mkSegmentHeader storeID 1 0 segmentSize in
  match EncodeSegmentHeader header with
  | Err e => io_fail ([mapstore_ErrInvalid] ++ e)
  | Ok encoded =>
      run ensureDirectory ;;
      let* file := fs_create (PCreating 1) in
      run writeFullAt file encoded 0 ;; run file_Sync file ;;
      run fs_rename (PCreating 1) (PActive 1) ;;
      run syncDirectory ;; file_Close file
  end.

Definition sealActive (active : segmentFile) (expected : SegmentSummary) : mio segmentFile :=
  if negb (bool_decide (sg_summary active = expected)) || (ss_NodeCount expected =? 0) then io_fail [mapstore_ErrInvalid]
  else
    let* encoded := io_lift (EncodeSegmentFooter (footer expected)) in
    run hitFault ;; run writeFullAt (sg_file active) encoded (ss_ValidEnd expected) ;;
    run hitFault ;; run file_Sync (sg_file active) ;;
    run hitFault ;; run fs_rename (PActive (ss_SegmentID expected)) (PSealed (ss_SegmentID expected)) ;;
    run hitFault ;; run syncDirectory ;;
    io_ret active.

(** ** The journal *)

Definition installRotationJournal (j : rotationJournal) : mio unit :=
  let* encoded := io_lift (encodeRotationJournal j) in
  let* file := fs_create PRotationTmp in
  run hitFault ;; run writeFullAt file encoded 0 ;;
  run hitFault ;; run file_Sync file ;; run file_Close file ;;
  run hitFault ;; run fs_rename PRotationTmp PRotation ;;
  run hitFault ;; syncDirectory.

Definition removeRotationTemp : mio unit :=
  let* found := fs_exists PRotationTmp in
  if negb found then io_ret tt
  else run hitFault ;; run fs_remove PRotationTmp ;; run hitFault ;; syncDirectory.

Definition loadRotationJournal : mio (option rotationJournal) :=
  let* found := fs_exists PRotation in
  if negb found then run removeRotationTemp ;; run syncDirectory ;; io_ret None
  else
    let* file := fs_open PRotation in
    let* data := fs_data file in
    let* j := io_lift (decodeRotationJournal data) in
    io_ret (Some j).

Definition removeRotationJournal : mio unit :=
  let* journal := fs_exists PRotation in
  let* temp := fs_exists PRotationTmp in
  let found := journal || temp in
  run (if found then hitFault else io_ret tt) ;;
  run ignore_missing (fs_remove PRotation) ;;
  run ignore_missing (fs_remove PRotationTmp) ;;
  run (if found then hitFault else io_ret tt) ;;
  syncDirectory.

(** [for attempts := 0; attempts < 16; attempts++] *)
Fixpoint install_loop (attempts : nat) (current : CatalogSnapshot) (j : rotationJournal) : mio CatalogSnapshot :=
  match attempts with
  | O => io_fail [mapstore_ErrPoisoned]
  | S attempts' => fun o =>
      let ref := mkSegmentRef (ss_SegmentID (rj_Old j)) (ss_ValidEnd (rj_Old j)) in
      let '(c, faults, r) := cp_Install (os_user o) (os_faults o) (cs_Generation current) ref (rj_NewActive j) (rj_NextSegment j) in
      let o := mkOs (os_names o) (os_data o) (os_next o) faults c in
      match r with
      | Ok installed => (o, if committedRotation installed j then Ok installed else Err [mapstore_ErrCorrupt])
      | Err e =>
          let fresh := cp_Snapshot c in
          if committedRotation fresh j then (o, Ok fresh)
          else if cs_Generation fresh =? cs_Generation current then (o, Err e)
          else if negb (bool_decide (cs_StoreID fresh = rj_StoreID j)) || negb (cs_SegmentSize fresh =? rj_SegmentSize j) ||
                  negb (cs_ActiveSegment fresh =? ss_SegmentID (rj_Old j)) || negb (cs_NextSegment fresh =? rj_NewActive j) then (o, Err (e ++ [mapstore_ErrCorrupt]))
          else install_loop attempts' fresh j o
      end
  end.

Definition installCatalogRotation (state : CatalogSnapshot) (j : rotationJournal) : mio CatalogSnapshot := install_loop 16 state j.

(** ** Recovery of an interrupted rotation *)

Definition resumeSeal (header : SegmentHeader) (rootAddr : Z) (summary : SegmentSummary) : mio segmentFile :=
  let ref := mkSegmentRef (ss_SegmentID summary) (ss_ValidEnd summary) in
  let* activeExists := fs_exists (PActive (sh_SegmentID header)) in
  let* sealedExists := fs_exists (PSealed (sh_SegmentID header)) in
  if activeExists && sealedExists then io_fail [mapstore_ErrCorrupt]
  else if sealedExists then openSealed header ref
  else if negb activeExists then io_fail [mapstore_ErrCorrupt; os_ErrNotExist]
  else
    let* file := fs_open (PActive (sh_SegmentID header)) in
    let* data := fs_data file in
    let* _ := io_lift (verifyHeader data header) in
    if (len data <? ss_ValidEnd summary) || ((ss_ValidEnd summary + SegmentFooterSize) mod two32 <? len data) then io_fail [mapstore_ErrCorrupt]
    else
      match scanNodes data header (ss_ValidEnd summary) rootAddr with
      | Err e => io_fail ([mapstore_ErrCorrupt] ++ e)
      | Ok (actual, repaired) =>
          if repaired || negb (bool_decide (actual = summary)) then io_fail [mapstore_ErrCorrupt]
          else
            run (if negb (len data =? (ss_ValidEnd summary + SegmentFooterSize) mod two32) then
                   run hitFault ;; run fs_truncate file (ss_ValidEnd summary) ;;
                   (* [footer, _ := EncodeSegmentFooter(...)] *)
                   writeFullAt file (match EncodeSegmentFooter (footer summary) with Ok f => f | Err _ => zeros 64 end) (ss_ValidEnd summary)
                 else
                   let* footerBytes := io_lift (read_at data (ss_ValidEnd summary) SegmentFooterSize) in
                   match DecodeSegmentFooter footerBytes with
                   | Err e => io_fail ([mapstore_ErrCorrupt] ++ e)
                   | Ok f => if negb (bool_decide (f = footer summary)) then io_fail [mapstore_ErrCorrupt] else io_ret tt
                   end) ;;
            run hitFault ;; run file_Sync file ;; run file_Close file ;;
            run hitFault ;; run fs_rename (PActive (sh_SegmentID header)) (PSealed (sh_SegmentID header)) ;;
            run hitFault ;; run syncDirectory ;;
            openSealed header ref
      end.

Definition ensureNewActive (header : SegmentHeader) : mio segmentFile :=
  let* found := fs_exists (PActive (sh_SegmentID header)) in
  if found then
    let* (active, repaired) := openActive header 0 in
    if repaired || negb (ss_NodeCount (sg_summary active) =? 0) then io_fail [mapstore_ErrCorrupt] else io_ret active
  else run ignore_missing (fs_remove (PCreating (sh_SegmentID header))) ;; createActive header.

Definition verifyCommittedRotationFiles (state : CatalogSnapshot) (j : rotationJournal) : mio unit :=
  let* sealed := openSealed (headerFor state (ss_SegmentID (rj_Old j))) (mkSegmentRef (ss_SegmentID (rj_Old j)) (ss_ValidEnd (rj_Old j))) in
  run file_Close (sg_file sealed) ;;
  let* (active, _) := openActive (headerFor state (rj_NewActive j)) (cs_Root state) in
  file_Close (sg_file active).

Definition recoverRotation : mio CatalogSnapshot :=
  let* state := snapshot in
  let* found := loadRotationJournal in
  match found with
  | None => io_ret state
  | Some j =>
      if (cs_Generation state <? rj_BaseGeneration j) || negb (bool_decide (cs_StoreID state = rj_StoreID j)) || negb (cs_SegmentSize state =? rj_SegmentSize j)
      then io_fail [mapstore_ErrCorrupt]
      else if committedRotation state j then
        run verifyCommittedRotationFiles state j ;; run removeRotationJournal ;; io_ret state
      else if negb (cs_ActiveSegment state =? ss_SegmentID (rj_Old j)) || negb (cs_NextSegment state =? rj_NewActive j) then io_fail [mapstore_ErrCorrupt]
      else
        let* sealed := resumeSeal (headerFor state (ss_SegmentID (rj_Old j))) (cs_Root state) (rj_Old j) in
        run file_Close (sg_file sealed) ;;
        let* active := ensureNewActive (headerFor state (rj_NewActive j)) in
        run file_Close (sg_file active) ;;
        let* installed := installCatalogRotation state j in
        run removeRotationJournal ;;
        io_ret installed
  end.

(** ** The store *)

Record Store := mkStore
  { st_state : CatalogSnapshot; st_active : segmentFile; st_sealed : gmap Z segmentFile; st_nextSeq : Z; st_closed : bool; st_poisoned : bool }.

Definition set_poisoned (s : Store) : Store := mkStore (st_state s) (st_active s) (st_sealed s) (st_nextSeq s) (st_closed s) true.

Definition segmentForReadLocked (s : Store) (addr : Z) : res segmentFile :=
  raise [mapstore_ErrInvalid] when negb (MapAddr_Valid addr) ;;
  let segment := if MapAddr_SegmentID addr =? cs_ActiveSegment (st_state s) then Some (st_active s) else st_sealed s !! MapAddr_SegmentID addr in
  match segment with
  | None => Err [mapstore_ErrInvalid]
  | Some sg =>
      raise [mapstore_ErrInvalid] when (ss_ValidEnd (sg_summary sg) <? MapAddr_Offset addr) || (ss_ValidEnd (sg_summary sg) - MapAddr_Offset addr <? NodeHeaderSize) ;;
      Ok sg
  end.

Definition readLocked (o : os mpath C) (s : Store) (addr : Z) : res Node :=
  let! segment := segmentForReadLocked s addr in readNodeAt (bytes_of o (sg_file segment)) (ss_ValidEnd (sg_summary segment)) addr.

Definition Store_Read (o : os mpath C) (s : Store) (addr : Z) : res Node :=
  raise [mapstore_ErrClosed] when st_closed s ;; readLocked o s addr.

Definition swap_active (s : Store) (state : CatalogSnapshot) (active : segmentFile) (oldID : Z) (sealed : segmentFile) : Store :=
  mkStore state active (<[oldID := sealed]> (st_sealed s)) (st_nextSeq s) (st_closed s) (st_poisoned s).

(** The journal of a rotation of [s] against the catalog state [fresh]. *)
Definition rotation_journal (s : Store) (fresh : CatalogSnapshot) : rotationJournal :=
  mkJournal (cs_Generation fresh) (cs_StoreID fresh) (cs_SegmentSize fresh) (sg_summary (st_active s)) (cs_NextSegment fresh) ((cs_NextSegment fresh + 1) mod two32).

(** [rotate] up to the swap of the active segment; the result is the store after it. *)
Definition rotate_files (s : Store) : mio Store :=
  let* fresh := snapshot in
  if negb (snapshot_valid fresh) then io_fail [mapstore_ErrInvalid]
  else if negb (bool_decide (cs_StoreID fresh = cs_StoreID (st_state s))) || negb (cs_SegmentSize fresh =? cs_SegmentSize (st_state s)) ||
          negb (cs_ActiveSegment fresh =? cs_ActiveSegment (st_state s)) || negb (cs_NextSegment fresh =? cs_NextSegment (st_state s)) then io_fail [mapstore_ErrCorrupt]
  else
    let j := rotation_journal s fresh in
    run installRotationJournal j ;;
    let* sealed := sealActive (st_active s) (rj_Old j) in
    let* newActive := createActive (headerFor fresh (rj_NewActive j)) in
    let* installed := installCatalogRotation fresh j in
    io_ret (swap_active s installed newActive (ss_SegmentID (rj_Old j)) sealed).

(** The store is swapped before the journal is removed. *)
Definition rotate (s : Store) (o : os mpath C) : os mpath C * (Store * option goerror) :=
  match rotate_files s o with
  | (o, Err e) => (o, (s, Some e))
  | (o, Ok s') =>
      match removeRotationJournal o with
      | (o, Err e) => (o, (s', Some e))
      | (o, Ok _) => (o, (s', None))
      end
  end.

Definition node_fits (s : Store) (encoded : list Z) : bool :=
  ss_ValidEnd (sg_summary (st_active s)) + len encoded + SegmentFooterSize <=? cs_SegmentSize (st_state s).

Definition with_seq (b : NodeBuild) (seq : Z) : NodeBuild :=
  mkBuild (nb_Level b) seq (nb_Prefix b) (nb_CoveredCommitSeq b) (nb_Slots b) (nb_Sizes b).

(** The last part of [appendBuild]: write the node and advance the segment. *)
Definition append_encoded (s : Store) (encoded : list Z) (o : os mpath C) : os mpath C * (Store * res Z) :=
  let sg := st_active s in
  let sum := sg_summary sg in
  let poison o e := (o, (set_poisoned s, Err ([mapstore_ErrPoisoned] ++ e))) in
  match hitFault o with
  | (o, Err e) => poison o e
  | (o, Ok _) =>
      match writeFullAt (sg_file sg) encoded (ss_ValidEnd sum) o with
      | (o, Err e) => poison o e
      | (o, Ok _) =>
          match NewMapAddr (sh_SegmentID (sg_header sg)) (ss_ValidEnd sum) with
          | Err e => poison o e
          | Ok addr =>
              let sum' := mkSummary (ss_SegmentID sum) ((ss_ValidEnd sum + len encoded) mod two32)
                            (if ss_NodeCount sum =? 0 then st_nextSeq s else ss_FirstSeq sum) (st_nextSeq s) ((ss_NodeCount sum + 1) mod two64) in
              (o, (mkStore (st_state s) (mkSegment (sg_file sg) (sg_header sg) sum') (st_sealed s) ((st_nextSeq s + 1) mod two64) (st_closed s) (st_poisoned s), Ok addr))
          end
      end
  end.

Definition appendBuild (s : Store) (b : NodeBuild) (o : os mpath C) : os mpath C * (Store * res Z) :=
  if st_closed s then (o, (s, Err [mapstore_ErrClosed]))
  else if st_poisoned s then (o, (s, Err [mapstore_ErrPoisoned]))
  else if st_nextSeq s =? MaxUint64 then (o, (s, Err [mapstore_ErrFull]))
  else
    match EncodeNode (with_seq b (st_nextSeq s)) with
    | Err e => (o, (s, Err e))
    | Ok encoded =>
        if node_fits s encoded then append_encoded s encoded o
        else if ss_NodeCount (sg_summary (st_active s)) =? 0 then (o, (s, Err [mapstore_ErrFull]))
        else
          match rotate s o with
          | (o, (s, Some e)) => (o, (set_poisoned s, Err ([mapstore_ErrPoisoned] ++ e)))
          | (o, (s, None)) =>
              match EncodeNode (with_seq b (st_nextSeq s)) with
              | Err e => (o, (s, Err ([mapstore_ErrFull] ++ e)))
              | Ok encoded => if node_fits s encoded then append_encoded s encoded o else (o, (s, Err [mapstore_ErrFull]))
              end
          end
    end.

Definition Append (s : Store) (level prefix covered : Z) (slots : list Z) (o : os mpath C) : os mpath C * (Store * res Z) :=
  appendBuild s (mkBuild level 0 prefix covered slots (replicate 512 0)) o.

Definition AppendLeaf (s : Store) (prefix covered : Z) (refs : list RecordRef) (o : os mpath C) : os mpath C * (Store * res Z) :=
  appendBuild s (mkBuild 0 0 prefix covered (map Addr.Addr refs) (map PhysicalSize refs)) o.

Definition Store_Sync (s : Store) (o : os mpath C) : os mpath C * (Store * option goerror) :=
  if st_closed s then (o, (s, Some [mapstore_ErrClosed]))
  else if st_poisoned s then (o, (s, Some [mapstore_ErrPoisoned]))
  else
    match (run hitFault ;; file_Sync (sg_file (st_active s))) o with
    | (o, Err e) => (o, (set_poisoned s, Some ([mapstore_ErrPoisoned] ++ e)))
    | (o, Ok _) => (o, (s, None))
    end.

(** The loop over the sealed segments, in the order of the map. *)
Fixpoint sum_bytes (total : Z) (segments : list segmentFile) : res Z :=
  match segments with
  | [] => Ok total
  | sg :: rest =>
      let bytes := ss_ValidEnd (sg_summary sg) + SegmentFooterSize in
      raise [mapstore_ErrInvalid] when MaxUint64 - bytes <? total ;; sum_bytes (total + bytes) rest
  end.

Definition PhysicalBytes (s : Store) : res Z :=
  raise [mapstore_ErrClosed] when st_closed s ;;
  sum_bytes (ss_ValidEnd (sg_summary (st_active s))) (map snd (map_to_list (st_sealed s))).

(** ** Opening *)

(** One sealed segment of the loop of [Open]: the map, the next sequence number
    and the last one seen. *)
Record opening := mkOpening { op_sealed : gmap Z segmentFile; op_nextSeq : Z; op_lastSeq : Z }.

Definition admit_seqs (acc : opening) (sum : SegmentSummary) : res (Z * Z) :=
  raise [mapstore_ErrCorrupt] when negb (ss_NodeCount sum =? 0) && negb (op_lastSeq acc =? 0) && (ss_FirstSeq sum <=? op_lastSeq acc) ;;
  if negb (ss_NodeCount sum =? 0) && (op_nextSeq acc <=? ss_LastSeq sum) then
    raise [mapstore_ErrCorrupt] when ss_LastSeq sum =? MaxUint64 ;; Ok (ss_LastSeq sum + 1, ss_LastSeq sum)
  else Ok (op_nextSeq acc, op_lastSeq acc).

Fixpoint open_sealed_all (state : CatalogSnapshot) (acc : opening) (segments : list SegmentRef) : mio opening :=
  match segments with
  | [] => io_ret acc
  | ref :: rest =>
      let* sg := openSealed (headerFor state (sr_SegmentID ref)) ref in
      let* (next, last) := io_lift (admit_seqs acc (sg_summary sg)) in
      open_sealed_all state (mkOpening (<[sr_SegmentID ref := sg]> (op_sealed acc)) next last) rest
  end.

Definition Open : mio Store :=
  let* state := recoverRotation in
  if negb (snapshot_valid state) then io_fail [mapstore_ErrInvalid]
  else
    let* acc := open_sealed_all state (mkOpening ∅ 1 0) (cs_SealedSegments state) in
    let* (active, _) := openActive (headerFor state (cs_ActiveSegment state)) (cs_Root state) in
    let* (next, _) := io_lift (admit_seqs acc (sg_summary active)) in
    let s := mkStore state active (op_sealed acc) next false false in
    fun o =>
      if cs_Root state =? 0 then (o, Ok s)
      else match readLocked o s (cs_Root state) with
           | Err e => (o, Err e)
           | Ok node =>
               if negb (nd_Level node =? MaxLevel) || negb (nd_Prefix node =? 0) || (cs_Covered state <? nd_CoveredCommitSeq node)
               then (o, Err [mapstore_ErrCorrupt]) else (o, Ok s)
           end.

(** [if err := os.Remove(creating); err == nil { return Join(syncDirectory, e) }
    else if !missing { return Join(err, e) }; return e], with the pending error [e]. *)
Definition remove_creating (pending : goerror) : mio unit := fun o =>
  let finish o e := (o, match e ++ pending with [] => Ok tt | e => Err e end) in
  match fs_remove (PCreating 1) o with
  | (o, Ok _) => let '(o, r) := syncDirectory o in finish o (err_of r)
  | (o, Err e) => finish o (if bool_decide (os_ErrNotExist ∈ e) then [] else e)
  end.

Definition EnsureInitialSegment (storeID : list Z) (segmentSize : Z) : mio unit :=
  let header := mkSegmentHeader storeID 1 0 segmentSize in
  match EncodeSegmentHeader header with
  | Err e => io_fail ([mapstore_ErrInvalid] ++ e)
  | Ok _ =>
      run ensureDirectory ;;
      let* found := fs_exists (PActive 1) in
      if found then
        let* (segment, repaired) := openActive header 0 in
        let invalid := repaired || negb (ss_ValidEnd (sg_summary segment) =? SegmentHeaderSize) || negb (ss_NodeCount (sg_summary segment) =? 0) in
        fun o =>
          let '(o, closeErr) := file_Close (sg_file segment) o in
          if invalid then (o, Err ([mapstore_ErrCorrupt] ++ err_of closeErr)) else remove_creating (err_of closeErr) o
      else run remove_creating [] ;; CreateInitialSegment storeID segmentSize
  end.

(** ** As a node store *)

Definition files : Type := os mpath C * Store.

#[export] Instance MapStore_nodes : NodeStore files := {
  ns_Read n addr := Store_Read n.1 n.2 addr;
  ns_Append n level prefix covered slots :=
    let '(o, (s, r)) := Append n.2 level prefix covered slots n.1 in ((o, s), r);
  ns_AppendLeaf n prefix covered refs :=
    let '(o, (s, r)) := AppendLeaf n.2 prefix covered refs n.1 in ((o, s), r);
  ns_Sync n := let '(o, (s, r)) := Store_Sync n.2 n.1 in ((o, s), r) }.
End Store.
Arguments files C : clear implicits.
