(* ===== verification/MapScan.v ===== *)
(** * Scanning a segment

    A segment file is its header, the encodings of its nodes with consecutive
    sequence numbers, and possibly more bytes.  Reading at a node's offset returns
    that node; a scan of such a file finds exactly the nodes; a file that ends in
    the middle of a node is cut back to the last complete one. *)
From S2P Require Import Prelude Bytes Addr Crc32 MapNode MapSegment Fs NodeIface MapStore.

(** A node with its encoding. *)
Definition enc : Type := NodeBuild * list Z.
Definition enc_ok (e : enc) : Prop := build_u e.1 /\ EncodeNode e.1 = Ok e.2.
Definition body (nodes : list enc) : list Z := concat (map snd nodes).

Fixpoint seqs_from (seq : Z) (nodes : list enc) : Prop :=
  match nodes with [] => True | e :: rest => nb_NodeSeq e.1 = seq /\ seqs_from (seq + 1) rest end.
Definition first_seq (nodes : list enc) : Z := match nodes with [] => 0 | e :: _ => nb_NodeSeq e.1 end.

Record nodes_ok (nodes : list enc) : Prop := mkNodesOk {
  no_enc : Forall enc_ok nodes;
  no_seqs : seqs_from (first_seq nodes) nodes;
}.

(** The summary of a segment with these nodes. *)
Definition summary_of (id : Z) (nodes : list enc) : SegmentSummary :=
  mkSummary id (64 + len (body nodes)) (first_seq nodes) (if len nodes =? 0 then 0 else first_seq nodes + len nodes - 1) (len nodes).

Lemma body_app a b : body (a ++ b) = body a ++ body b.
Proof. unfold body. now rewrite map_app, concat_app. Qed.

Lemma body_snoc nodes e : body (nodes ++ [e]) = body nodes ++ e.2.
Proof. rewrite body_app. unfold body at 2. cbn. now rewrite app_nil_r. Qed.

Lemma seqs_from_app a : forall seq b, seqs_from seq (a ++ b) <-> seqs_from seq a /\ seqs_from (seq + len a) b.
Proof.
  induction a as [|e a IH]; intros seq b; cbn [app seqs_from]; [rewrite len_nil, Z.add_0_r; tauto|].
  rewrite IH, len_cons. replace (seq + 1 + len a) with (seq + (1 + len a)) by lia. tauto.
Qed.

Lemma enc_size e : enc_ok e -> 64 <= len e.2 <= 8000 /\ len e.2 mod 8 = 0 /\ bytes_ok e.2 /\ 0 < nb_NodeSeq e.1.
Proof.
  intros [Hb E]. pose proof (encode_spec _ _ Hb E) as Hec. rewrite (ec_size _ _ Hec). destruct (bu_slots _ Hb) as [Hl _].
  destruct (size_of_bounds (nb_Level e.1) _ (countValues_bound _ Hl)) as [H1 H2]. split; [exact H1|]. split; [exact H2|].
  unfold EncodeNode in E. inv_ok E. bool_norm. apply Ok_inj in E. split; [|pose proof (bu_seq _ Hb) as Hs; unfold is_u64 in Hs; lia].
  rewrite <- E. apply bytes_ok_app. split; [|exact (proj2 (payload_ok _ Hb))].
  apply node_header_bytes; [|apply put_le_bytes]. apply node_fields_bytes; [apply Hb|].
  unfold is_u8, EncodingDense, EncodingSparse. destruct (_ <=? _); lia.
Qed.

Lemma body_aligned nodes : Forall enc_ok nodes -> len (body nodes) mod 8 = 0.
Proof.
  induction 1 as [|e nodes He _ IH]; [reflexivity|]. change (body (e :: nodes)) with (e.2 ++ body nodes). rewrite len_app.
  destruct (enc_size e He) as (_ & H8 & _). dlia.
Qed.

(** ** One node *)

Lemma header_of_encoding e rest remaining : enc_ok e -> len e.2 <= remaining -> exists nd,
  decodeNodeHeader (slice 0 64 (e.2 ++ rest)) remaining = Ok (nd, len e.2) /\ nd_NodeSeq nd = nb_NodeSeq e.1.
Proof.
  intros He Hrem. pose proof He as [Hb E]. destruct (enc_size e He) as (Hsz & _). pose proof (encode_spec _ _ Hb E) as Hec.
  destruct (ec_header _ _ Hec rest remaining Hrem) as (Hd & _ & _). eexists. split; [|shelve].
  assert (Es : decodeNodeHeader (slice 0 64 (e.2 ++ rest)) remaining = decodeNodeHeader (e.2 ++ rest) remaining); [|rewrite Es; exact Hd].
  unfold decodeNodeHeader. assert (Hss : slice 0 64 (slice 0 64 (e.2 ++ rest)) = slice 0 64 (e.2 ++ rest)).
  { unfold slice. rewrite !drop_0. now rewrite take_take, Nat.min_id. }
  rewrite Hss. replace (len (slice 0 64 (e.2 ++ rest)) <? NodeHeaderSize) with false; [replace (len (e.2 ++ rest) <? NodeHeaderSize) with false; [reflexivity|]|].
  - symmetry. apply Z.ltb_ge. rewrite len_app. pose proof (len_nonneg rest). unfold NodeHeaderSize. lia.
  - symmetry. apply Z.ltb_ge. unfold len, NodeHeaderSize in *. rewrite length_slice by (rewrite length_app; lia). lia.
  Unshelve. reflexivity.
Qed.

Lemma decode_of_encoding e rest remaining : enc_ok e -> len e.2 <= remaining ->
  exists nd, DecodeNode (e.2 ++ rest) remaining = Ok (nd, len e.2) /\ node_holds e.1 nd.
Proof.
  intros [Hb E] Hrem. destruct (decode_encoded _ _ rest remaining Hb (encode_spec _ _ Hb E) Hrem) as (nd & Hd & Hn & _). eauto.
Qed.

(** The decoded node of an encoding. *)
Definition node_of_enc (e : enc) : Node := match DecodeNode e.2 (len e.2) with Ok (nd, _) => nd | Err _ => mkNode 0 0 0 0 0 0 [] [] [] end.

Lemma decodeNodeHeader_mono src r r' x : decodeNodeHeader src r = Ok x -> r <= r' -> decodeNodeHeader src r' = Ok x /\ 64 <= x.2 <= r.
Proof.
  intros H Hr. revert H. unfold decodeNodeHeader. destruct (len src <? NodeHeaderSize); [discriminate|].
  set (header := slice 0 64 src). set (size := u32 12 header). set (n := mkNode _ _ _ _ _ _ _ _ _).
  destruct (negb (bool_decide _) || _); [discriminate|]. destruct (negb (u16 8 header =? _)); [discriminate|]. destruct (negb (u16 42 header =? 0) || _ || _); [discriminate|].
  destruct ((size <? NodeHeaderSize) || negb (Z.land size 7 =? 0)) eqn:Es; [discriminate|]. cbn [orb]. destruct (r <? size) eqn:Er; [discriminate|]. unfold NodeHeaderSize in Es. bool_norm.
  replace (r' <? size) with false by (symmetry; apply Z.ltb_ge; lia). intros Hres. split; [exact Hres|]. enough (Ex : x.2 = size) by (rewrite Ex; lia).
  destruct (_ || _ || _ || _ || _); [discriminate|]. destruct (nd_Encoding n =? EncodingSparse); [|destruct (nd_Encoding n =? EncodingDense); [|discriminate]].
  all: destruct (negb (size =? _)); [discriminate|]; apply Ok_inj in Hres; now rewrite <- Hres.
Qed.

Lemma DecodeNode_mono src r r' x : DecodeNode src r = Ok x -> r <= r' -> DecodeNode src r' = Ok x.
Proof.
  intros H Hr. revert H. unfold DecodeNode. destruct (decodeNodeHeader src r) as [[n size]|e] eqn:E; [|discriminate].
  destruct (decodeNodeHeader_mono _ _ r' _ E Hr) as [-> _]. auto.
Qed.

Lemma decode_enc e rest remaining : enc_ok e -> len e.2 <= remaining -> DecodeNode (e.2 ++ rest) remaining = Ok (node_of_enc e, len e.2) /\ node_holds e.1 (node_of_enc e).
Proof.
  intros He Hrem. destruct (decode_of_encoding e rest remaining He Hrem) as (nd & E1 & Hn). destruct (decode_of_encoding e [] (len e.2) He ltac:(lia)) as (nd' & E2 & Hn').
  rewrite app_nil_r in E2. unfold node_of_enc. rewrite E2. split; [|exact Hn']. rewrite E1. do 2 f_equal.
  (* a longer buffer decodes to the same node *)
  destruct He as [Hb E]. pose proof (encode_spec _ _ Hb E) as Hec. destruct (ec_header _ _ Hec rest remaining Hrem) as (Hd1 & Hp1 & Hc1).
  destruct (ec_header _ _ Hec [] (len e.2) ltac:(lia)) as (Hd2 & Hp2 & Hc2). rewrite app_nil_r in Hd2, Hp2, Hc2.
  revert E1 E2. unfold DecodeNode. rewrite Hd1, Hd2, Hp1, Hp2, Hc1, Hc2. replace (len (e.2 ++ rest) <? len e.2) with false by (symmetry; apply Z.ltb_ge; rewrite len_app; pose proof (len_nonneg rest); lia).
  rewrite Z.ltb_irrefl. intros E1 E2. rewrite E1 in E2. congruence.
Qed.

(** ** The bytes of a segment *)

Definition header_bytes (h : SegmentHeader) : list Z := with_crc (segmentHeader_body h).
Definition image (h : SegmentHeader) (nodes : list enc) : list Z := header_bytes h ++ body nodes.

Lemma header_bytes_len h : header_u h -> len (header_bytes h) = 64.
Proof. intros Hu. destruct (segmentHeader_body_ok h Hu) as [Hl Hb]. unfold header_bytes, len. destruct (with_crc_spec 60 _ Hl Hb) as (-> & _). reflexivity. Qed.

Lemma image_len h nodes : header_u h -> len (image h nodes) = 64 + len (body nodes).
Proof. intros Hu. unfold image. now rewrite len_app, header_bytes_len. Qed.

Lemma image_snoc h nodes e : image h (nodes ++ [e]) = image h nodes ++ e.2.
Proof. unfold image. now rewrite body_snoc, app_assoc. Qed.

Lemma verifyHeader_image h nodes rest : header_u h -> validSegmentHeader h = true -> verifyHeader (image h nodes ++ rest) h = Ok tt.
Proof.
  intros Hu Hv. unfold verifyHeader, image. rewrite <- app_assoc. pose proof (read_at_here [] (header_bytes h) (body nodes ++ rest) 0 SegmentHeaderSize eq_refl) as E. cbn [app] in E.
  rewrite E by (symmetry; now apply header_bytes_len). destruct (DecodeSegmentHeader_encoded h (header_bytes h) Hu) as [-> _]; [unfold EncodeSegmentHeader; now rewrite Hv|].
  now rewrite bool_decide_eq_true_2.
Qed.

(** ** The scan *)

Fixpoint visits_from (off : Z) (nodes : list enc) : list visit :=
  match nodes with [] => [] | e :: rest => mkVisit off (node_of_enc e) (len e.2) :: visits_from (off + len e.2) rest end.

Lemma visits_from_app a : forall off b, visits_from off (a ++ b) = visits_from off a ++ visits_from (off + len (body a)) b.
Proof.
  induction a as [|e a IH]; intros off b; cbn [app visits_from]; [f_equal; change (len (body [])) with 0; lia|].
  change (body (e :: a)) with (e.2 ++ body a). rewrite IH, len_app. do 3 f_equal. lia.
Qed.

Lemma last_seq pre e suf : nodes_ok (pre ++ e :: suf) -> pre <> [] -> nb_NodeSeq e.1 = first_seq pre + len pre.
Proof.
  intros [_ Hs] Hne. destruct pre as [|e0 pre]; [contradiction|]. cbn [app first_seq] in Hs. apply (seqs_from_app (e0 :: pre)) in Hs as [_ [Hs _]]. exact Hs.
Qed.

Lemma first_seq_app pre suf : pre <> [] -> first_seq (pre ++ suf) = first_seq pre.
Proof. destruct pre; [contradiction|reflexivity]. Qed.

Section Scan.
Context (h : SegmentHeader) (Hu : header_u h) (Hv : validSegmentHeader h = true).

Lemma segment_size_bounds : 128 <= sh_SegmentSize h < two32.
Proof.
  destruct Hu as [_ (_ & _ & Hs)]. unfold is_u32 in Hs. unfold validSegmentHeader in Hv.
  destruct (_ || negb _) eqn:E in Hv; [discriminate|]. unfold SegmentHeaderSize, SegmentFooterSize, DenseNodeSize, DenseLeafNodeSize, NodeHeaderSize, NodeSlots in E. bool_norm. lia.
Qed.

(** One round over a complete node. *)
Lemma scan_round fuel data pre e suf rest end_ root visits : data = image h (pre ++ e :: suf) ++ rest -> nodes_ok (pre ++ e :: suf) -> len (pre ++ e :: suf) < two64 ->
  64 + len (body (pre ++ [e])) <= end_ -> 64 + len (body (pre ++ [e])) + 64 <= sh_SegmentSize h ->
  scan_loop (S fuel) data h end_ root (summary_of (sh_SegmentID h) pre) visits =
  scan_loop fuel data h end_ root (summary_of (sh_SegmentID h) (pre ++ [e])) (visits ++ [mkVisit (64 + len (body pre)) (node_of_enc e) (len e.2)]).
Proof.
  intros Hdata Hn Hcount Hend Hsize. pose proof segment_size_bounds as Hss. pose proof (no_enc _ Hn) as Henc. rewrite Forall_app, Forall_cons_iff in Henc. destruct Henc as (_ & He & _).
  destruct (enc_size e He) as (Hsz & _ & _ & Hseq). pose proof (bu_seq _ (proj1 He)) as Hsu. rewrite body_snoc, len_app in *. pose proof (len_nonneg (body pre)) as Hb0. pose proof (len_nonneg pre) as Hp0.
  assert (Hlast : pre <> [] -> nb_NodeSeq e.1 = first_seq pre + len pre) by (apply last_seq with (suf := suf); exact Hn).
  assert (Esplit : data = image h pre ++ e.2 ++ (body suf ++ rest)).
  { rewrite Hdata. unfold image. rewrite body_app. change (body (e :: suf)) with (e.2 ++ body suf). now rewrite <- !app_assoc. }
  assert (Eimg : 64 + len (body pre) = len (image h pre)) by now rewrite image_len.
  cbn [scan_loop summary_of ss_ValidEnd ss_NodeCount ss_LastSeq ss_SegmentID ss_FirstSeq].
  replace (end_ <=? 64 + len (body pre)) with false by (symmetry; apply Z.leb_gt; lia).
  unfold NodeHeaderSize, SegmentFooterSize. rewrite (Z.mod_small (sh_SegmentSize h - 64 - (64 + len (body pre)))) by lia.
  replace (end_ - (64 + len (body pre)) <? 64) with false by (symmetry; apply Z.ltb_ge; lia).
  assert (Er64 : read_at data (64 + len (body pre)) 64 = Ok (slice 0 64 e.2)).
  { rewrite Esplit. rewrite <- (take_drop 64 e.2) at 1. rewrite <- app_assoc. unfold slice. rewrite drop_0. apply read_at_here; [exact Eimg|]. unfold len in *. rewrite length_take. lia. }
  rewrite Er64. destruct (header_of_encoding e [] (sh_SegmentSize h - 64 - (64 + len (body pre))) He ltac:(lia)) as (nd & Ed & Es). rewrite app_nil_r in Ed. rewrite Ed.
  replace (end_ - (64 + len (body pre)) <? len e.2) with false by (symmetry; apply Z.ltb_ge; lia).
  rewrite Esplit at 1. rewrite (read_at_here (image h pre) e.2) by (auto; lia).
  destruct (decode_enc e [] (sh_SegmentSize h - 64 - (64 + len (body pre))) He ltac:(lia)) as [Edn Hh]. rewrite app_nil_r in Edn. rewrite Edn.
  rewrite (nh_seq _ _ Hh), Es, Z.eqb_refl. cbn [negb].
  assert (Eseq : negb (len pre =? 0) && negb (nb_NodeSeq e.1 =? ((if len pre =? 0 then 0 else first_seq pre + len pre - 1) + 1) mod two64) = false).
  { destruct (len pre =? 0) eqn:E0; [reflexivity|]. bool_norm. cbn [negb andb]. rewrite Hlast by (intros ->; now rewrite len_nil in E0). apply negb_false_iff, Z.eqb_eq.
    unfold is_u64 in Hsu. assert (nb_NodeSeq e.1 = first_seq pre + len pre) by (apply Hlast; intros ->; now rewrite len_nil in E0). rewrite Z.mod_small; lia. }
  assert (El1 : len (pre ++ [e]) = len pre + 1) by now rewrite len_app. pose proof Hcount as Hc. rewrite len_app, len_cons in Hc. pose proof (len_nonneg suf).
  rewrite Eseq. f_equal. unfold summary_of. rewrite body_snoc, len_app, El1. rewrite !Z.mod_small by lia. replace (len pre + 1 =? 0) with false by (symmetry; apply Z.eqb_neq; lia).
  f_equal; [lia| |].
  - destruct (len pre =? 0) eqn:E0; bool_norm; [apply len_zero_nil in E0 as ->; reflexivity|]. rewrite first_seq_app; [reflexivity|]. intros ->. now rewrite len_nil in E0.
  - destruct pre as [|e0 pre]; [change (first_seq ([] ++ [e])) with (nb_NodeSeq e.1); change (len (@nil enc)) with 0; lia|]. rewrite first_seq_app by discriminate. rewrite Hlast by discriminate. lia.
Qed.

Lemma scan_advance data rest end_ root : forall suf pre fuel visits, data = image h (pre ++ suf) ++ rest -> nodes_ok (pre ++ suf) -> len (pre ++ suf) < two64 ->
  64 + len (body (pre ++ suf)) <= end_ -> 64 + len (body (pre ++ suf)) + 64 <= sh_SegmentSize h ->
  scan_loop (length suf + fuel) data h end_ root (summary_of (sh_SegmentID h) pre) visits =
  scan_loop fuel data h end_ root (summary_of (sh_SegmentID h) (pre ++ suf)) (visits ++ visits_from (64 + len (body pre)) suf).
Proof.
  induction suf as [|e suf IH]; intros pre fuel visits Hd Hn Hc Hend Hsize.
  { cbn [visits_from]. rewrite !app_nil_r. reflexivity. }
  assert (Hle : len (body (pre ++ [e])) <= len (body (pre ++ e :: suf))).
  { rewrite body_snoc, body_app. change (body (e :: suf)) with (e.2 ++ body suf). rewrite !len_app. pose proof (len_nonneg (body suf)). lia. }
  cbn [length Nat.add]. rewrite (scan_round _ data pre e suf rest) by (auto; lia).
  assert (Ea : pre ++ e :: suf = (pre ++ [e]) ++ suf) by now rewrite <- app_assoc.
  rewrite Ea in Hd, Hn, Hc, Hend, Hsize. rewrite (IH (pre ++ [e])) by auto. rewrite <- Ea, <- app_assoc. cbn [visits_from app]. rewrite body_snoc, len_app. do 3 f_equal. f_equal. lia.
Qed.

Lemma length_body nodes : Forall enc_ok nodes -> (64 * length nodes <= length (body nodes))%nat.
Proof.
  induction 1 as [|e nodes He _ IH]; [cbn; lia|]. change (body (e :: nodes)) with (e.2 ++ body nodes). rewrite length_app. cbn [length].
  destruct (enc_size e He) as (Hsz & _). unfold len in Hsz. lia.
Qed.

Lemma fuel_enough data nodes rest : data = image h nodes ++ rest -> Forall enc_ok nodes -> exists fuel, length data = (length nodes + S fuel)%nat.
Proof.
  intros -> Hn. pose proof (length_body nodes Hn). pose proof (header_bytes_len h Hu) as Hl. unfold len in Hl. unfold image. rewrite !length_app.
  exists (length (header_bytes h) + length (body nodes) + length rest - length nodes - 1)%nat. lia.
Qed.

(** A scan that ends behind a node finds the nodes before it. *)
Lemma scan_complete nodes rest root end_ : nodes_ok nodes -> len nodes < two64 -> end_ = 64 + len (body nodes) -> end_ + 64 <= sh_SegmentSize h ->
  scanNodesWithVisitor (image h nodes ++ rest) h end_ root = Ok (summary_of (sh_SegmentID h) nodes, false, visits_from 64 nodes).
Proof.
  intros Hn Hc -> Hsize. unfold scanNodesWithVisitor. destruct (fuel_enough _ nodes rest eq_refl (no_enc _ Hn)) as [fuel ->].
  change (empty_summary (sh_SegmentID h)) with (summary_of (sh_SegmentID h) []).
  rewrite (scan_advance _ rest _ root nodes [] (S fuel) []) by (cbn [app]; auto; lia). cbn [app scan_loop summary_of ss_ValidEnd].
  replace (64 + len (body nodes) <=? 64 + len (body nodes)) with true by (symmetry; apply Z.leb_refl). reflexivity.
Qed.

(** A file that ends in the middle of a node. *)
Lemma scan_torn nodes e k root : nodes_ok nodes -> len nodes < two64 -> enc_ok e -> (0 < k < length e.2)%nat ->
  64 + len (body nodes) + len e.2 + 64 <= sh_SegmentSize h ->
  (MapAddr_SegmentID root = sh_SegmentID h -> MapAddr_Offset root < 64 + len (body nodes)) ->
  let data := image h nodes ++ take k e.2 in
  scanNodesWithVisitor data h (len data) root = Ok (summary_of (sh_SegmentID h) nodes, true, visits_from 64 nodes).
Proof.
  intros Hn Hc He Hk Hsize Hroot data. unfold scanNodesWithVisitor. pose proof segment_size_bounds as Hss. pose proof (len_nonneg (body nodes)) as Hb0.
  assert (Hlen : len data = 64 + len (body nodes) + Z.of_nat k) by (unfold data; rewrite len_app, image_len by exact Hu; unfold len at 2; rewrite length_take; lia).
  destruct (fuel_enough data nodes (take k e.2) eq_refl (no_enc _ Hn)) as [fuel ->]. change (empty_summary (sh_SegmentID h)) with (summary_of (sh_SegmentID h) []).
  rewrite (scan_advance data (take k e.2) (len data) root nodes [] (S fuel) []) by (auto; cbn [app]; unfold len in *; lia). cbn [app scan_loop summary_of ss_ValidEnd].
  destruct (enc_size e He) as (Hsz & _). rewrite Hlen. replace (64 + len (body nodes) + Z.of_nat k <=? 64 + len (body nodes)) with false by (symmetry; apply Z.leb_gt; lia).
  assert (Et : (MapAddr_SegmentID root =? sh_SegmentID h) && (64 + len (body nodes) <=? MapAddr_Offset root) = false).
  { destruct (MapAddr_SegmentID root =? sh_SegmentID h) eqn:E; [|reflexivity]. bool_norm. specialize (Hroot E). apply Z.leb_gt. lia. }
  rewrite Et. unfold NodeHeaderSize, SegmentFooterSize. destruct (_ - _ <? 64) eqn:E64; bool_norm; [reflexivity|].
  assert (Er : read_at data (64 + len (body nodes)) 64 = Ok (slice 0 64 e.2)).
  { unfold data. replace (take k e.2) with (slice 0 64 e.2 ++ drop 64 (take k e.2)).
    - apply read_at_here; [now rewrite image_len|]. unfold slice, len in *. rewrite drop_0, length_take. lia.
    - unfold slice. rewrite drop_0. replace (64 - 0)%nat with 64%nat by lia. rewrite <- (take_drop 64 (take k e.2)) at 2. rewrite take_take, Nat.min_l by lia. reflexivity. }
  rewrite Er. unfold len in *. rewrite Z.mod_small by lia.
  destruct (header_of_encoding e [] (sh_SegmentSize h - 64 - (64 + Z.of_nat (length (body nodes)))) He ltac:(unfold len; lia)) as (nd & Ed & _). rewrite app_nil_r in Ed. rewrite Ed.
  unfold len. replace (_ - _ <? Z.of_nat (length e.2)) with true by (symmetry; apply Z.ltb_lt; lia). reflexivity.
Qed.

(** Recovery keeps the whole nodes and drops the torn one.  A segment file
    that holds the nodes [nodes] and the first [k] bytes of one more node's
    encoding, as an interrupted append leaves it, scans to exactly [nodes], with
    the tail marked for repair when there is one. *)
Theorem scan_repairs_tail nodes e k root : nodes_ok nodes -> len nodes < two64 -> enc_ok e -> (k < length e.2)%nat ->
  64 + len (body nodes) + len e.2 + 64 <= sh_SegmentSize h ->
  (MapAddr_SegmentID root = sh_SegmentID h -> MapAddr_Offset root < 64 + len (body nodes)) ->
  let data := image h nodes ++ take k e.2 in
  scanNodesWithVisitor data h (len data) root = Ok (summary_of (sh_SegmentID h) nodes, bool_decide (k <> 0%nat), visits_from 64 nodes).
Proof.
  intros Hn Hc He Hk Hsize Hroot data. case_bool_decide as E0; [apply scan_torn; auto; lia|]. assert (k = 0%nat) as -> by lia.
  pose proof (len_nonneg e.2). unfold data. apply scan_complete; auto; rewrite take_0, app_nil_r; rewrite image_len by exact Hu; lia.
Qed.
End Scan.
