(* ===== verification/MapStoreSpec.v ===== *)
(** * The mapping store keeps its nodes

    The store satisfies the contract of [NodeIface]: an append, also one that
    rotates to a new segment or fails on the way, never changes a node that could
    be read, and a successful append returns an address under which exactly the
    given slots are read back. *)
From S2P Require Import Prelude Bytes Addr Crc32 MapNode MapSegment Fs NodeIface MapStore MapScan.

(** ** What the store relies on: the catalog *)

Record snapshot_u (s : CatalogSnapshot) : Prop := mkSnapshotU {
  su_store : length (cs_StoreID s) = 16%nat /\ bytes_ok (cs_StoreID s);
  su_gen : is_u64 (cs_Generation s);
  su_ids : is_u32 (cs_SegmentSize s) /\ is_u32 (cs_ActiveSegment s) /\ is_u32 (cs_NextSegment s);
  su_sealed : Forall (fun r => is_u32 (sr_SegmentID r) /\ is_u32 (sr_ValidEnd r)) (cs_SealedSegments s);
}.

(** The snapshot after a rotation. *)
Definition rotated (s : CatalogSnapshot) (ref : SegmentRef) (active next : Z) : CatalogSnapshot :=
  mkSnapshot (cs_Generation s + 1) (cs_StoreID s) (cs_SegmentSize s) active next (cs_SealedSegments s ++ [ref]) (cs_Root s) (cs_Covered s).

(** A rotation that the catalog accepts. *)
Record installable (s : CatalogSnapshot) (gen : Z) (ref : SegmentRef) (active next : Z) : Prop := mkInstallable {
  in_gen : gen = cs_Generation s /\ gen < MaxUint64;
  in_ids : sr_SegmentID ref = cs_ActiveSegment s /\ active = cs_NextSegment s /\ next = active + 1 /\ next < two32;
  in_valid : snapshot_valid (rotated s ref active next) = true;
}.

Class CatalogLaws (C : Type) `{!CatalogPort C} := {
  cp_ok : C -> Prop;
  cp_range c : cp_ok c -> snapshot_u (cp_Snapshot c);
  (** there is room for one more segment in the catalog's file *)
  cp_room : C -> Prop;
  cp_reload c : cp_ok c -> cp_ok (cp_Reload c) /\ cp_Snapshot (cp_Reload (cp_Reload c)) = cp_Snapshot (cp_Reload c) /\
    (cp_room c -> cp_Snapshot (cp_Reload c) = cp_Snapshot c -> cp_room (cp_Reload c));
  (** a failing call leaves the snapshot of this process, and what the next one
      reads may be the old or the new one *)
  cp_install c fs gen ref active next c' fs' r : cp_ok c -> is_u32 (sr_SegmentID ref) -> is_u32 (sr_ValidEnd ref) -> is_u32 active -> is_u32 next ->
    cp_Install c fs gen ref active next = (c', fs', r) ->
    cp_ok c' /\ (fs = [] -> fs' = []) /\
    match r with
    | Ok s => s = cp_Snapshot c' /\ s = rotated (cp_Snapshot c) ref active next /\ cp_Snapshot (cp_Reload c') = s
    | Err _ => cp_Snapshot c' = cp_Snapshot c /\
               (cp_Snapshot (cp_Reload c') = cp_Snapshot (cp_Reload c) \/ cp_Snapshot (cp_Reload c') = rotated (cp_Snapshot c) ref active next) /\
               (cp_room c -> cp_room c') /\ (fs <> [] \/ ~ (installable (cp_Snapshot c) gen ref active next /\ cp_room c))
    end;
}.

Section Laws.
Context {C : Type} `{!CatalogPort C} `{!CatalogLaws C}.
Abbreviation mos := (os mpath C).
Implicit Types (o : mos) (s : Store).

(** ** What an operation leaves alone *)

(** Of the files that exist in [o0], only [a] may have changed, and only behind
    its first [n] bytes. *)
Record moved (a : nat) (n : Z) (o0 o : mos) : Prop := mkMoved {
  mv_next : (os_next o0 <= os_next o)%nat;
  mv_data : forall f, (f < os_next o0)%nat -> f <> a -> bytes_of o f = bytes_of o0 f;
  mv_active : forall pre rest, len pre = n -> bytes_of o0 a = pre ++ rest -> exists rest', bytes_of o a = pre ++ rest';
  mv_cat : cp_ok (os_user o);
  mv_ident : cs_StoreID (cp_Snapshot (os_user o)) = cs_StoreID (cp_Snapshot (os_user o0)) /\
             cs_SegmentSize (cp_Snapshot (os_user o)) = cs_SegmentSize (cp_Snapshot (os_user o0));
}.

Lemma moved_refl a n o : cp_ok (os_user o) -> moved a n o o.
Proof. intros H. constructor; auto. eauto. Qed.

(** Predicates on the contents, not on names or faults. *)
Definition data_pred (Pr : mos -> Prop) : Prop := forall o names faults, Pr o -> Pr (mkOs names (os_data o) (os_next o) faults (os_user o)).

Lemma data_pred_faults Pr : data_pred Pr -> fault_free_pred Pr.
Proof. intros H o faults. apply H. Qed.

Lemma moved_data a n o0 : data_pred (moved a n o0).
Proof. intros o names faults []. constructor; auto. Qed.

Lemma data_pred_and Pr Qr : data_pred Pr -> data_pred Qr -> data_pred (fun o => Pr o /\ Qr o).
Proof. intros H1 H2 o names faults [Ha Hb]. split; [now apply H1|now apply H2]. Qed.

Lemma data_pred_bytes f d : data_pred (fun o => bytes_of o f = d).
Proof. intros o names faults H. exact H. Qed.

Lemma data_pred_next k : data_pred (fun o => (k <= os_next o)%nat).
Proof. intros o names faults H. exact H. Qed.

Lemma data_pred_const (X : Prop) : data_pred (fun _ => X).
Proof. intros o names faults H. exact H. Qed.

(** Renames and removals change only names; they can fail on a missing file. *)
Lemma fs_rename_data Pre p q : data_pred Pre -> triple False Pre (fs_rename p q) (fun _ => Pre) Pre.
Proof.
  intros H o Ho. unfold fs_rename. destruct (next_fault_spec o) as (f & E & _). rewrite E. set (o1 := refault o (tail (os_faults o))).
  set (o2 := match os_names o1 !! p with Some f0 => _ | None => _ end).
  assert (Hm : Pre o2 /\ os_faults o2 = tail (os_faults o)) by (unfold o2; cbn; destruct (os_names o !! p); (split; [exact (H o _ _ Ho)|reflexivity])).
  destruct f as [k|]; [destruct (k =? 0)%nat|destruct (exists_path o1 p)]; cbn [fst snd]; (split; [cbn; try rewrite (proj2 Hm); intros ->; reflexivity|]); try apply Hm; split; try tauto; try apply Hm; exact (H o _ _ Ho).
Qed.

Lemma fs_remove_data Pre p : data_pred Pre -> triple False Pre (fs_remove p) (fun _ => Pre) Pre.
Proof.
  intros H o Ho. unfold fs_remove. destruct (next_fault_spec o) as (f & E & _). rewrite E. set (o1 := refault o (tail (os_faults o))).
  destruct f as [k|]; [destruct (k =? 0)%nat|destruct (exists_path o1 p)]; cbn [fst snd]; (split; [cbn; intros ->; reflexivity|]); try (exact (H o _ _ Ho)); split; try tauto; exact (H o _ _ Ho).
Qed.

Lemma point_data Pre : data_pred Pre -> triple False Pre fs_point (fun _ => Pre) Pre.
Proof. intros H. now apply triple_point, data_pred_faults. Qed.

Lemma ignore_missing_any (Pre : mos -> Prop) c : triple False Pre c (fun _ => Pre) Pre -> triple False Pre (ignore_missing c) (fun _ => Pre) Pre.
Proof.
  intros Hc o Ho. unfold ignore_missing. specialize (Hc o Ho). destruct (c o) as [o' [x|e]]; cbn [fst snd] in *; destruct Hc as [Hf Hp]; (split; [exact Hf|]); [exact Hp|].
  destruct Hp as [Hp _]. case_bool_decide; [exact Hp|split; [exact Hp|tauto]].
Qed.

(** ** Effects on the contents *)

Section Moved.
Context (a : nat) (n : Z) (o0 : mos) (Ha : (a < os_next o0)%nat).
Abbreviation K := (moved a n o0).

Lemma create_moved p : triple False K (fs_create p) (fun f o => K o /\ (os_next o0 <= f < os_next o)%nat /\ bytes_of o f = []) K.
Proof.
  intros o Ho. unfold fs_create. destruct (next_fault_spec o) as (f & E & _). rewrite E. set (o1 := refault o (tail (os_faults o))). assert (H1 : K o1) by exact (moved_data a n o0 o _ _ Ho).
  destruct f as [k|]; [|destruct (exists_path o1 p)]; cbn [fst snd]; (split; [cbn; intros ->; reflexivity|]); try (split; [exact H1|tauto]).
  destruct Ho as [M1 M2 M3 M4 M5]. split; [|split; [cbn; lia|cbn; unfold bytes_of; cbn; now rewrite lookup_insert_eq]].
  assert (Hb : forall g, (g < os_next o0)%nat -> bytes_of (set_fs o1 (<[p:=os_next o1]> (os_names o1)) (<[os_next o1:=[]]> (os_data o1)) (S (os_next o1))) g = bytes_of o g).
  { intros g Hg. unfold bytes_of. cbn. rewrite lookup_insert_ne by lia. reflexivity. }
  constructor; auto; [cbn; lia| |].
  - intros g Hg Hne. rewrite Hb by exact Hg. auto.
  - intros pre rest Hl He. rewrite Hb by exact Ha. eauto.
Qed.

Lemma bytes_after_write o f off bs faults g : bytes_of (set_fs (refault o faults) (os_names (refault o faults)) (<[f := splice (bytes_of (refault o faults) f) off bs]> (os_data (refault o faults))) (os_next (refault o faults))) g =
  if decide (g = f) then splice (bytes_of o f) off bs else bytes_of o g.
Proof. unfold bytes_of at 1. cbn. case_decide as E; [subst g; now rewrite lookup_insert_eq|now rewrite lookup_insert_ne by congruence]. Qed.

(** Writing to a file that is not protected, or behind the protected part. *)
Lemma write_moved f off bytes d : (os_next o0 <= f)%nat \/ (f = a /\ 0 <= n <= off) ->
  triple False (fun o => K o /\ ((os_next o0 <= f)%nat -> bytes_of o f = d /\ (f < os_next o)%nat)) (fs_write f off bytes)
    (fun _ o => K o /\ ((os_next o0 <= f)%nat -> bytes_of o f = splice d off bytes /\ (f < os_next o)%nat)) K.
Proof.
  intros Hf o [Ho Hd]. unfold fs_write. destruct (next_fault_spec o) as (ft & E & _). rewrite E. set (fs' := tail (os_faults o)).
  assert (HK : forall bs, K (set_fs (refault o fs') (os_names (refault o fs')) (<[f := splice (bytes_of (refault o fs') f) off bs]> (os_data (refault o fs'))) (os_next (refault o fs')))).
  { intros bs. destruct Ho as [M1 M2 M3 M4 M5]. constructor; auto.
    - intros g Hg Hne. rewrite bytes_after_write. rewrite decide_False by (intros Egf; destruct Hf as [Hf|[Hf _]]; [lia|congruence]). auto.
    - intros pre rest Hl He. rewrite bytes_after_write. case_decide as Ef; [|eauto]. subst f. destruct Hf as [Hf|[_ Hf]]; [lia|]. apply splice_prefix; [eauto|lia]. }
  destruct ft as [k|]; cbn [fst snd]; (split; [cbn; subst fs'; intros ->; reflexivity|]); [split; [apply HK|tauto]|].
  split; [apply HK|]. intros Hge. destruct (Hd Hge) as [<- Hlt]. rewrite bytes_after_write, decide_True by reflexivity. auto.
Qed.

(** Calls that sync, pass a hook or change names, in sequence. *)
Section Seq.
Context (Pr : mos -> Prop) (HPr : data_pred Pr) (HK : forall o, Pr o -> K o).

Lemma run_names {A} (c : io mpath C unit) (k : io mpath C A) Post : triple False Pr c (fun _ => Pr) Pr -> triple False Pr k Post K -> triple False Pr (run c ;; k) Post K.
Proof. intros Hc Hk. apply (triple_bind _ _ _ _ (fun _ => Pr)); [|auto]. eapply triple_weaken; [exact Hc|auto..]. Qed.

Lemma run_point {A} (k : io mpath C A) Post : triple False Pr k Post K -> triple False Pr (run fs_point ;; k) Post K.
Proof. apply run_names. now apply point_data. Qed.

Lemma run_rename {A} p q (k : io mpath C A) Post : triple False Pr k Post K -> triple False Pr (run fs_rename p q ;; k) Post K.
Proof. apply run_names. now apply fs_rename_data. Qed.

Lemma last_point : triple False Pr fs_point (fun _ => K) K.
Proof. exact (triple_weaken _ _ _ _ _ _ _ _ (point_data Pr HPr) (fun o H => H) (fun _ => HK) HK). Qed.
End Seq.

Lemma lift_moved {A} (r : res A) (X : A -> Prop) : (forall x, r = Ok x -> X x) -> triple False K (io_lift r) (fun x o => K o /\ X x) K.
Proof. intros H. apply triple_lift; auto. Qed.

Lemma data_pred_file f d : data_pred (fun o => K o /\ bytes_of o f = d /\ (f < os_next o)%nat).
Proof. intros o names faults (H1 & H2 & H3). split; [now apply moved_data|]. auto. Qed.

Lemma write_new f d bytes : (os_next o0 <= f)%nat -> triple False (fun o => K o /\ bytes_of o f = d /\ (f < os_next o)%nat) (fs_write f 0 bytes) (fun _ o => K o /\ bytes_of o f = splice d 0 bytes /\ (f < os_next o)%nat) K.
Proof.
  intros Hf. eapply triple_weaken; [apply (write_moved f 0 bytes d); auto| | |auto].
  - intros o (H1 & H2 & H3). auto.
  - intros _ o (H1 & H2). destruct (H2 Hf). auto.
Qed.

Lemma createActive_moved h : triple False K (createActive h)
  (fun sg o => K o /\ sg_header sg = h /\ sg_summary sg = empty_summary (sh_SegmentID h) /\ (os_next o0 <= sg_file sg)%nat /\
     bytes_of o (sg_file sg) = header_bytes h /\ (sg_file sg < os_next o)%nat /\ validSegmentHeader h = true) K.
Proof.
  unfold createActive. apply (triple_bind _ _ _ _ (fun encoded o => K o /\ (encoded = header_bytes h /\ validSegmentHeader h = true))).
  { apply lift_moved. intros x E. unfold EncodeSegmentHeader in E. inv_ok E. bool_norm. apply Ok_inj in E. split; [now rewrite <- E|assumption]. }
  intros encoded. apply triple_pre. intros o1 (H1 & -> & Hv). apply (triple_from _ _ _ K); [intros o <-; exact H1|].
  apply run_point; [apply moved_data|auto|]. apply (triple_bind _ _ _ _ _ _ _ (create_moved _)). intros f. apply triple_pre. intros o2 (H2 & Hf & Hb).
  apply (triple_from _ _ _ (fun o => K o /\ bytes_of o f = [] /\ (f < os_next o)%nat)); [intros o <-; split; [exact H2|split; [exact Hb|lia]]|].
  apply run_point; [apply data_pred_file|tauto|].
  apply (triple_bind _ _ _ _ _ _ _ (write_new f [] _ (proj1 Hf))). intros _. replace (splice [] 0 (header_bytes h)) with (header_bytes h) by (unfold splice; cbn; now rewrite drop_nil, app_nil_r).
  do 3 (apply run_point; [apply data_pred_file|tauto|]). apply run_rename; [apply data_pred_file|tauto|]. do 2 (apply run_point; [apply data_pred_file|tauto|]).
  apply triple_ret. intros o (H3 & H4 & H5). cbn. repeat (split; [first [assumption|reflexivity|lia]|]). exact Hv.
Qed.

Lemma sealActive_moved active expected : sg_file active = a -> 0 <= n <= ss_ValidEnd expected -> triple False K (sealActive active expected) (fun sg o => K o /\ sg = active) K.
Proof.
  intros Hf Hn. unfold sealActive. case_if; [apply triple_fail; auto|].
  apply (triple_bind _ _ _ _ (fun _ => K)); [apply triple_lift; auto|]. intros encoded. apply run_point; [apply moved_data|auto|].
  apply (triple_bind _ _ _ _ (fun _ => K)).
  { eapply triple_weaken; [apply (write_moved (sg_file active) _ encoded []); rewrite Hf; auto| | |auto].
    - intros o Ho. split; [exact Ho|]. lia.
    - intros _ o [Ho _]. exact Ho. }
  intros _. do 3 (apply run_point; [apply moved_data|auto|]). apply run_rename; [apply moved_data|auto|]. do 2 (apply run_point; [apply moved_data|auto|]).
  apply triple_ret. auto.
Qed.

Lemma installRotationJournal_moved j : triple False K (installRotationJournal j) (fun _ => K) K.
Proof.
  unfold installRotationJournal. apply (triple_bind _ _ _ _ (fun _ => K)); [apply triple_lift; auto|]. intros encoded.
  apply (triple_bind _ _ _ _ _ _ _ (create_moved _)). intros f. apply triple_pre. intros o2 (H2 & Hf & Hb).
  apply (triple_from _ _ _ (fun o => K o /\ bytes_of o f = [] /\ (f < os_next o)%nat)); [intros o <-; split; [exact H2|split; [exact Hb|lia]]|].
  apply run_point; [apply data_pred_file|tauto|]. apply (triple_bind _ _ _ _ _ _ _ (write_new f [] _ (proj1 Hf))). intros _.
  do 4 (apply run_point; [apply data_pred_file|tauto|]). apply run_rename; [apply data_pred_file|tauto|]. apply run_point; [apply data_pred_file|tauto|].
  apply last_point; [apply data_pred_file|tauto].
Qed.

Lemma removeRotationJournal_moved Pr : data_pred Pr -> (forall o, Pr o -> K o) -> triple False Pr removeRotationJournal (fun _ => Pr) Pr.
Proof.
  intros HPr HK. unfold removeRotationJournal. apply (triple_bind _ _ _ _ (fun _ => Pr)); [intros o Ho; cbn; auto|]. intros j.
  apply (triple_bind _ _ _ _ (fun _ => Pr)); [intros o Ho; cbn; auto|]. intros t.
  apply (triple_bind _ _ _ _ (fun _ => Pr)); [destruct (j || t); [now apply point_data|apply triple_ret; auto]|]. intros _.
  apply (triple_bind _ _ _ _ (fun _ => Pr)); [now apply ignore_missing_any, fs_remove_data|]. intros _.
  apply (triple_bind _ _ _ _ (fun _ => Pr)); [now apply ignore_missing_any, fs_remove_data|]. intros _.
  apply (triple_bind _ _ _ _ (fun _ => Pr)); [destruct (j || t); [now apply point_data|apply triple_ret; auto]|]. intros _. now apply point_data.
Qed.

Definition ref_of_journal (j : rotationJournal) : SegmentRef := mkSegmentRef (ss_SegmentID (rj_Old j)) (ss_ValidEnd (rj_Old j)).

Record journal_ids (j : rotationJournal) : Prop := mkJournalIds {
  ji_old : is_u32 (ss_SegmentID (rj_Old j)) /\ is_u32 (ss_ValidEnd (rj_Old j)); ji_new : is_u32 (rj_NewActive j) /\ is_u32 (rj_NextSegment j) }.

Lemma committed_active st j : committedRotation st j = true -> cs_ActiveSegment st = rj_NewActive j.
Proof. unfold committedRotation. destruct (_ || _) eqn:E; [discriminate|]. bool_norm. auto. Qed.

Lemma install_moved attempts j : journal_ids j -> forall current, triple False K (install_loop attempts current j)
  (fun st o => K o /\ cs_ActiveSegment st = rj_NewActive j /\ cs_SegmentSize st = cs_SegmentSize (cp_Snapshot (os_user o0)) /\ cs_StoreID st = cs_StoreID (cp_Snapshot (os_user o0))) K.
Proof.
  intros [[J1 J2] [J3 J4]]. induction attempts as [|n' IH]; intros current o Ho; [cbn; auto|]. cbn [install_loop].
  destruct (cp_Install _ _ _ _ _ _) as [[c fs'] r] eqn:Ei. fold (ref_of_journal j) in Ei. pose proof (mv_cat _ _ _ _ Ho) as Hcat.
  destruct (cp_install _ _ (cs_Generation current) (ref_of_journal j) _ _ c fs' r Hcat J1 J2 J3 J4 Ei) as (Hc' & Hfs & Hr).
  destruct Ho as [M1 M2 M3 M4 [M5 M6]]. set (o1 := mkOs _ _ _ _ c).
  assert (Hident : cs_StoreID (cp_Snapshot c) = cs_StoreID (cp_Snapshot (os_user o0)) /\ cs_SegmentSize (cp_Snapshot c) = cs_SegmentSize (cp_Snapshot (os_user o0))).
  { destruct r as [st|e]; [destruct Hr as (Hr1 & Hr2 & _); rewrite <- Hr1, Hr2; cbn; auto|]. destruct Hr as [-> _]; cbn; auto. }
  assert (H1 : K o1) by (constructor; auto). assert (Hf1 : os_faults o = [] -> os_faults o1 = []) by exact Hfs.
  destruct r as [st|e].
  - cbn [fst snd]. split; [exact Hf1|]. destruct (committedRotation st j) eqn:Ec; [|auto]. destruct Hr as [Hr1 _]. subst st. destruct Hident. apply committed_active in Ec. auto.
  - destruct (committedRotation (cp_Snapshot c) j) eqn:Ec; [cbn [fst snd]; split; [exact Hf1|]; destruct Hident; apply committed_active in Ec; auto|].
    destruct (_ =? _); [cbn [fst snd]; auto|]. destruct (_ || _); [cbn [fst snd]; auto|].
    specialize (IH (cp_Snapshot c) o1 H1). destruct (install_loop n' (cp_Snapshot c) j o1) as [o2 [st|e2]]; cbn [fst snd] in *; destruct IH as [I1 I2]; (split; [intros E0; apply I1, Hf1, E0|]); [exact I2|split; [apply I2|tauto]].
Qed.
End Moved.

Lemma install_files att : forall cur j o, os_data (install_loop att cur j o).1 = os_data o /\ os_next (install_loop att cur j o).1 = os_next o.
Proof.
  induction att as [|att IH]; intros cur j o; [auto|]. cbn [install_loop].
  destruct (cp_Install _ _ _ _ _ _) as [[c fs'] [st|e]]; cbn [fst snd]; [auto|]. repeat (case_if; [cbn; auto|]). rewrite (proj1 (IH _ _ _)), (proj2 (IH _ _ _)). auto.
Qed.

(** ** The invariant of an open store *)

Record seg_ok o (sg : segmentFile) (nodes : list enc) : Prop := mkSegOk {
  so_data : exists rest, bytes_of o (sg_file sg) = image (sg_header sg) nodes ++ rest;
  so_summary : sg_summary sg = summary_of (sh_SegmentID (sg_header sg)) nodes;
  so_header : header_u (sg_header sg) /\ validSegmentHeader (sg_header sg) = true;
  so_nodes : nodes_ok nodes;
  so_end : 64 + len (body nodes) + 64 <= sh_SegmentSize (sg_header sg);
  so_file : (sg_file sg < os_next o)%nat;
}.

Record store_ok o s : Prop := mkStoreOk {
  sk_active : exists nodes, seg_ok o (st_active s) nodes /\ (nodes <> [] -> first_seq nodes + len nodes = st_nextSeq s);
  sk_state : sh_SegmentID (sg_header (st_active s)) = cs_ActiveSegment (st_state s) /\ sh_SegmentSize (sg_header (st_active s)) = cs_SegmentSize (st_state s);
  sk_sealed : forall id sg, st_sealed s !! id = Some sg ->
    (exists nodes, seg_ok o sg nodes) /\ sg_file sg <> sg_file (st_active s) /\ id < cs_ActiveSegment (st_state s);
  sk_seq : 1 <= st_nextSeq s <= MaxUint64;
  sk_cat : cp_ok (os_user o);
}.

(** The segment that serves an id. *)
Definition seg_for s (id : Z) : option segmentFile := if id =? cs_ActiveSegment (st_state s) then Some (st_active s) else st_sealed s !! id.

(** Every segment is still there with the bytes it had. *)
Record extends o s o' s' : Prop := mkExtends {
  ex_segs : forall id sg, seg_for s id = Some sg -> exists sg' pre r r', seg_for s' id = Some sg' /\
    len pre = ss_ValidEnd (sg_summary sg) /\ ss_ValidEnd (sg_summary sg) <= ss_ValidEnd (sg_summary sg') < two32 /\
    bytes_of o (sg_file sg) = pre ++ r /\ bytes_of o' (sg_file sg') = pre ++ r';
  ex_closed : st_closed s' = st_closed s;
}.

Lemma read_at_prefix pre r off k : 0 <= off -> 0 <= k -> off + k <= len pre -> read_at (pre ++ r) off k = read_at pre off k.
Proof.
  intros Ho Hk Hl. unfold read_at. rewrite len_app. pose proof (len_nonneg r). replace (off + k <=? len pre + len r) with true by (symmetry; apply Z.leb_le; lia).
  replace (off + k <=? len pre) with true by (symmetry; apply Z.leb_le; lia). f_equal. unfold slice, len in *. rewrite drop_app_le by lia. rewrite take_app_le; [reflexivity|]. rewrite length_drop. lia.
Qed.

Lemma readNodeAt_extend pre r r' v v' addr nd : len pre = v -> v <= v' < two32 -> MapAddr_Offset addr + 64 <= v ->
  readNodeAt (pre ++ r) v addr = Ok nd -> readNodeAt (pre ++ r') v' addr = Ok nd.
Proof.
  intros Hl Hv Ho. assert (H0 : 0 <= MapAddr_Offset addr) by (unfold MapAddr_Offset; apply Z.mod_pos_bound; lia). unfold readNodeAt, NodeHeaderSize.
  rewrite !(Z.mod_small (_ - MapAddr_Offset addr)) by lia. rewrite !(read_at_prefix pre) with (k := 64) by lia.
  destruct (read_at pre (MapAddr_Offset addr) 64) as [hb|e]; [|discriminate]. destruct (decodeNodeHeader hb (v - MapAddr_Offset addr)) as [[n0 size]|e] eqn:E; [|discriminate].
  destruct (decodeNodeHeader_mono _ _ (v' - MapAddr_Offset addr) _ E ltac:(lia)) as [-> Hs]. cbn [snd] in Hs. rewrite !(read_at_prefix pre) by lia.
  destruct (read_at pre _ size) as [enc|e]; [|discriminate]. destruct (DecodeNode enc (v - MapAddr_Offset addr)) as [[n1 z]|e] eqn:E1; [|discriminate].
  rewrite (DecodeNode_mono _ _ (v' - MapAddr_Offset addr) _ E1 ltac:(lia)). auto.
Qed.

Lemma extends_readable o s o' s' : extends o s o' s' -> readable (N := files C) (o, s) (o', s').
Proof.
  intros [Hx Hc] addr nd. cbn. unfold Store_Read, readLocked, segmentForReadLocked. rewrite Hc. destruct (st_closed s); [discriminate|]. destruct (negb (MapAddr_Valid addr)); [discriminate|].
  fold (seg_for s (MapAddr_SegmentID addr)) (seg_for s' (MapAddr_SegmentID addr)). destruct (seg_for s _) as [sg|] eqn:Es; [|discriminate].
  destruct (Hx _ _ Es) as (sg' & pre & r & r' & E' & Hl & Hv & Hb & Hb'). rewrite E'. unfold NodeHeaderSize. destruct (_ || _) eqn:E; [discriminate|]. bool_norm.
  replace (_ || _) with false by (symmetry; apply orb_false_iff; split; apply Z.ltb_ge; lia). rewrite Hb, Hb'. apply readNodeAt_extend; auto. lia.
Qed.

Lemma extends_trans o s o1 s1 o2 s2 : extends o s o1 s1 -> extends o1 s1 o2 s2 -> extends o s o2 s2.
Proof.
  intros [X1 C1] [X2 C2]. constructor; [|congruence]. intros id sg Es. destruct (X1 _ _ Es) as (sg1 & pre & r & r1 & E1 & Hl & Hv & Hb & Hb1).
  destruct (X2 _ _ E1) as (sg2 & pre2 & r2 & r3 & E2 & Hl2 & Hv2 & Hb2 & Hb3). exists sg2, pre, r.
  assert (Hp : exists m, pre2 = pre ++ m).
  { rewrite Hb1 in Hb2. exists (drop (length pre) pre2). rewrite <- (take_drop (length pre) pre2) at 1. f_equal.
    assert (E : take (length pre) (pre ++ r1) = take (length pre) (pre2 ++ r2)) by now rewrite Hb2.
    rewrite take_app_length, take_app_le in E by (unfold len in *; lia). now symmetry. }
  destruct Hp as [m ->]. exists (m ++ r3). split; [exact E2|]. split; [exact Hl|]. split; [lia|]. split; [exact Hb|]. rewrite Hb3. now rewrite <- app_assoc.
Qed.

(** ** Appending *)

Lemma splice_at pre rest bytes : splice (pre ++ rest) (len pre) bytes = pre ++ bytes ++ drop (length bytes) rest.
Proof.
  unfold splice, len. rewrite Nat2Z.id, take_app_length, length_app. replace (length pre - (length pre + length rest))%nat with 0%nat by lia.
  cbn [zeros replicate app]. rewrite (drop_app_ge pre) by lia. replace (length pre + length bytes - length pre)%nat with (length bytes) by lia. reflexivity.
Qed.

Lemma NewMapAddr_ok id off : is_u32 id -> id <> 0 -> 64 <= off < two32 -> off mod 8 = 0 ->
  exists addr, NewMapAddr id off = Ok addr /\ is_u64 addr /\ MapAddr_Valid addr = true /\ MapAddr_SegmentID addr = id /\ MapAddr_Offset addr = off.
Proof.
  intros Hid Hn Hoff H8. unfold is_u32 in Hid. unfold NewMapAddr. rewrite land_7, H8. replace (id =? 0) with false by (symmetry; now apply Z.eqb_neq).
  replace (off <? 64) with false by (symmetry; apply Z.ltb_ge; lia). cbn [negb orb Z.eqb]. rewrite lor_shiftl by (change (2 ^ 32) with two32; lia). change (2 ^ 32) with two32.
  exists (id * two32 + off). split; [reflexivity|]. assert (Es : MapAddr_SegmentID (id * two32 + off) = id) by (unfold MapAddr_SegmentID; rewrite shiftr_32; dlia).
  assert (Eo : MapAddr_Offset (id * two32 + off) = off) by (unfold MapAddr_Offset; dlia). split; [unfold is_u64; lia|].
  unfold MapAddr_Valid. rewrite Es, Eo, land_7, H8. replace (id =? 0) with false by (symmetry; now apply Z.eqb_neq). replace (64 <=? off) with true by (symmetry; apply Z.leb_le; lia). auto.
Qed.

Lemma valid_header_id h : validSegmentHeader h = true -> sh_SegmentID h <> 0.
Proof. unfold validSegmentHeader. destruct (_ || _ || _ || _ || _) eqn:E; [discriminate|]. bool_norm. auto. Qed.

(** Reading the node at its place. *)
Lemma read_here o s sg pre e suf addr : seg_ok o sg (pre ++ e :: suf) -> seg_for s (MapAddr_SegmentID addr) = Some sg -> st_closed s = false ->
  MapAddr_Valid addr = true -> MapAddr_Offset addr = 64 + len (body pre) -> Store_Read o s addr = Ok (node_of_enc e).
Proof.
  intros [[rest Hd] Hsum [Hu Hv] Hn Hend _] Hseg Hc Hva Hoff. pose proof (segment_size_bounds _ Hu Hv) as Hss. pose proof (no_enc _ Hn) as Henc. rewrite Forall_app, Forall_cons_iff in Henc. destruct Henc as (_ & He & _).
  destruct (enc_size e He) as (Hsz & _). unfold Store_Read, readLocked, segmentForReadLocked. rewrite Hc, Hva. cbn [negb]. fold (seg_for s (MapAddr_SegmentID addr)). rewrite Hseg, Hsum. cbn [summary_of ss_ValidEnd].
  assert (Eb : len (body (pre ++ e :: suf)) = len (body pre) + len e.2 + len (body suf)).
  { rewrite body_app. change (body (e :: suf)) with (e.2 ++ body suf). rewrite !len_app. lia. }
  rewrite Eb in *. pose proof (len_nonneg (body pre)). pose proof (len_nonneg (body suf)). rewrite Hoff. unfold NodeHeaderSize.
  replace (_ || _) with false by (symmetry; apply orb_false_iff; split; apply Z.ltb_ge; lia). rewrite Hd, Hsum. cbn [summary_of ss_ValidEnd]. rewrite Eb.
  assert (Es : image (sg_header sg) (pre ++ e :: suf) ++ rest = image (sg_header sg) pre ++ e.2 ++ (body suf ++ rest)).
  { unfold image. rewrite body_app. change (body (e :: suf)) with (e.2 ++ body suf). now rewrite <- !app_assoc. }
  rewrite Es. unfold readNodeAt. rewrite Hoff. rewrite Z.mod_small by lia.
  assert (El : 64 + len (body pre) = len (image (sg_header sg) pre)) by now rewrite image_len.
  assert (Er : read_at (image (sg_header sg) pre ++ e.2 ++ body suf ++ rest) (64 + len (body pre)) NodeHeaderSize = Ok (slice 0 64 e.2)).
  { rewrite <- (take_drop 64 e.2) at 1. rewrite <- (app_assoc (take 64 e.2)). unfold slice. rewrite drop_0. apply read_at_here; [exact El|]. unfold len in *. rewrite length_take. unfold NodeHeaderSize. lia. }
  rewrite Er. destruct (header_of_encoding e [] (64 + (len (body pre) + len e.2 + len (body suf)) - (64 + len (body pre))) He ltac:(lia)) as (nd & Ed & _). rewrite app_nil_r in Ed. rewrite Ed.
  rewrite (read_at_here (image (sg_header sg) pre) e.2) by auto.
  destruct (decode_enc e [] (64 + (len (body pre) + len e.2 + len (body suf)) - (64 + len (body pre))) He ltac:(lia)) as [Edn _]. rewrite app_nil_r in Edn. now rewrite Edn.
Qed.

Lemma seg_ok_moved a n o0 o sg nodes : moved a n o0 o -> seg_ok o0 sg nodes -> sg_file sg <> a \/ n = 64 + len (body nodes) -> seg_ok o sg nodes.
Proof.
  intros [M1 M2 M3 _ _] [[rest Hd] H2 [H3 H3'] H4 H5 H6] Hn. constructor; auto; [|lia]. destruct (decide (sg_file sg = a)) as [E|E].
  - destruct Hn as [Hn|Hn]; [contradiction|]. rewrite E in *. apply (M3 (image (sg_header sg) nodes) rest); [now rewrite image_len, Hn|exact Hd].
  - rewrite M2 by auto. eauto.
Qed.

(** A step that changes only bytes behind the end of the active segment. *)
Lemma store_ok_moved o o' s nodes : store_ok o s -> seg_ok o (st_active s) nodes -> moved (sg_file (st_active s)) (64 + len (body nodes)) o o' ->
  store_ok o' s /\ extends o s o' s /\ forall p, store_ok o' (mkStore (st_state s) (st_active s) (st_sealed s) (st_nextSeq s) (st_closed s) p).
Proof.
  intros [(n0 & Ha & Hseq) Hst Hsl Hq Hc] Hact M. assert (Hlen : len (body n0) = len (body nodes)).
  { pose proof (so_summary _ _ _ Ha) as E1. pose proof (so_summary _ _ _ Hact) as E2. rewrite E1 in E2. injection E2 as E2 _. lia. }
  assert (Ha' : seg_ok o' (st_active s) n0) by (apply (seg_ok_moved _ _ o o' _ _ M Ha); right; lia).
  assert (Hsl' : forall id sg, st_sealed s !! id = Some sg -> (exists k, seg_ok o' sg k) /\ sg_file sg <> sg_file (st_active s) /\ id < cs_ActiveSegment (st_state s)).
  { intros id sg Es. destruct (Hsl id sg Es) as ((k & Hk) & Hf & Hid). split; [|auto]. exists k. apply (seg_ok_moved _ _ o o' _ _ M Hk). now left. }
  assert (Hall : forall p, store_ok o' (mkStore (st_state s) (st_active s) (st_sealed s) (st_nextSeq s) (st_closed s) p)) by (intros p; constructor; eauto; apply M).
  split; [destruct s; apply Hall|]. split; [|exact Hall]. constructor; [|reflexivity]. intros id sg Es. exists sg.
  assert (Hgen : forall k, seg_ok o sg k -> seg_ok o' sg k -> exists pre r r', Some sg = Some sg /\ len pre = ss_ValidEnd (sg_summary sg) /\ ss_ValidEnd (sg_summary sg) <= ss_ValidEnd (sg_summary sg) < two32 /\
    bytes_of o (sg_file sg) = pre ++ r /\ bytes_of o' (sg_file sg) = pre ++ r').
  { intros k [[r Hr] Hs [Hu Hv] _ He _] [[r' Hr'] _ _ _ _ _]. pose proof (segment_size_bounds _ Hu Hv). exists (image (sg_header sg) k), r, r'.
    split; [reflexivity|]. rewrite Hs. cbn [summary_of ss_ValidEnd]. rewrite image_len by exact Hu. split; [reflexivity|]. split; [lia|]. auto. }
  rewrite Es. unfold seg_for in Es. destruct (id =? _); [injection Es as <-; exact (Hgen n0 Ha Ha')|]. destruct (Hsl id sg Es) as ((k & Hk) & Hf & _).
  apply (Hgen k Hk). apply (seg_ok_moved _ _ o o' _ _ M Hk). now left.
Qed.

(** What an append promises, whatever its outcome. *)
Record appended o s (e : enc) o' s' (r : res Z) : Prop := mkAppended {
  ap_ok : store_ok o' s';
  ap_extends : extends o s o' s';
  ap_result : forall a, r = Ok a -> is_u64 a /\ MapAddr_Valid a = true /\ (st_closed s = false -> Store_Read o' s' a = Ok (node_of_enc e));
}.

Lemma appended_poison o s e o' nodes err : store_ok o s -> seg_ok o (st_active s) nodes -> moved (sg_file (st_active s)) (64 + len (body nodes)) o o' ->
  appended o s e o' (set_poisoned s) (Err err).
Proof.
  intros H Ha M. destruct (store_ok_moved o o' s nodes H Ha M) as (_ & [X _] & Hp). constructor; [apply Hp|constructor; [exact X|reflexivity]|discriminate].
Qed.

Lemma append_encoded_spec o s e o' s' r : store_ok o s -> enc_ok e -> nb_NodeSeq e.1 = st_nextSeq s -> st_nextSeq s < MaxUint64 -> node_fits s e.2 = true ->
  append_encoded s e.2 o = (o', (s', r)) -> appended o s e o' s' r.
Proof.
  intros H He Hseq Hmax Hfit. pose proof H as [(nodes & Ha & Hnext) [Hid Hsize] Hsl Hq Hc]. pose proof Ha as [[rest Hd] Hsum [Hu Hv] Hn Hend Hfile].
  pose proof (segment_size_bounds _ Hu Hv) as Hss. destruct (enc_size e He) as (Hsz & He8 & _). pose proof (len_nonneg (body nodes)) as Hb0.
  unfold node_fits, SegmentFooterSize in Hfit. rewrite Hsum in Hfit. cbn [summary_of ss_ValidEnd] in Hfit. bool_norm. rewrite <- Hsize in Hfit.
  set (sg := st_active s) in *. set (h := sg_header sg) in *. set (a := sg_file sg) in *. set (n := 64 + len (body nodes)) in *.
  unfold append_encoded. fold sg. rewrite Hsum. cbn [summary_of ss_ValidEnd ss_SegmentID ss_NodeCount ss_FirstSeq]. fold n h a.
  assert (Hn64 : 64 <= n) by (unfold n; lia). assert (Hn1 : 0 <= n) by lia.
  pose proof (point_data (moved a n o) (moved_data a n o) o (moved_refl a n o Hc)) as Hpt. unfold hitFault. destruct (fs_point o) as [o1 [u|err]]; cbn [fst snd] in Hpt; destruct Hpt as [_ Hpt].
  2:{ intros [= <- <- <-]. apply (appended_poison o s e o1 nodes); auto. apply Hpt. }
  pose proof (write_moved a n o Hfile a n e.2 [] (or_intror (conj eq_refl (conj Hn1 (Z.le_refl n)))) o1) as Hw. destruct Hw as [_ Hw]; [split; [exact Hpt|intros Hge; exfalso; lia]|].
  unfold writeFullAt. destruct (fs_write a n e.2 o1) as [o2 [u2|err]] eqn:Ew; cbn [fst snd] in Hw.
  2:{ intros [= <- <- <-]. apply (appended_poison o s e o2 nodes); auto. apply Hw. }
  destruct Hw as [Hw _]. destruct (NewMapAddr_ok (sh_SegmentID h) n) as (addr & -> & Hau & Hav & Hasg & Haoff); [apply Hu|now apply valid_header_id|lia|unfold n; pose proof (body_aligned nodes (no_enc _ Hn)); dlia|].
  (* the new bytes *)
  assert (Hbytes : exists rest', bytes_of o2 a = image h (nodes ++ [e]) ++ rest').
  { destruct (mv_active _ _ _ _ Hpt (image h nodes) rest (image_len h nodes Hu) Hd) as [r1 Hr1]. unfold fs_write in Ew. destruct (next_fault_spec o1) as (f & Ef & _). rewrite Ef in Ew.
    destruct f as [k|]; [discriminate|]. injection Ew as <- _. exists (drop (length e.2) r1). rewrite bytes_after_write, decide_True by reflexivity. rewrite Hr1. unfold n. rewrite <- (image_len h nodes Hu).
    rewrite splice_at, image_snoc, <- app_assoc. reflexivity. }
  assert (Hn' : nodes_ok (nodes ++ [e])).
  { constructor; [apply Forall_app; split; [apply Hn|now constructor]|]. destruct nodes as [|e0 nodes]; [cbn; auto|]. rewrite first_seq_app by discriminate. apply seqs_from_app. split; [apply Hn|].
    cbn [seqs_from]. split; [|exact I]. rewrite Hseq. symmetry. now apply Hnext. }
  assert (Hcnt : len nodes * 64 <= len (body nodes)) by (pose proof (length_body nodes (no_enc _ Hn)); unfold len; lia).
  assert (El1 : len (nodes ++ [e]) = len nodes + 1) by now rewrite len_app. pose proof (len_nonneg nodes) as Hn0.
  set (sum' := mkSummary _ _ _ _ _). assert (Esum : sum' = summary_of (sh_SegmentID h) (nodes ++ [e])).
  { unfold sum', summary_of. rewrite body_snoc, len_app, El1. rewrite !Z.mod_small by lia. replace (len nodes + 1 =? 0) with false by (symmetry; apply Z.eqb_neq; lia).
    destruct (len nodes =? 0) eqn:E0; bool_norm.
    - apply len_zero_nil in E0 as E1. subst nodes. unfold n. change (first_seq ([] ++ [e])) with (nb_NodeSeq e.1). rewrite Hseq. f_equal; change (len (@nil enc)) with 0; change (len (body [])) with 0; lia.
    - assert (Hne : nodes <> []) by (intros ->; now rewrite len_nil in E0). rewrite first_seq_app by exact Hne. specialize (Hnext Hne). unfold n. f_equal; lia. }
  set (sg' := mkSegment a h sum'). assert (Hsg' : seg_ok o2 sg' (nodes ++ [e])).
  { constructor; cbn [sg' sg_file sg_header sg_summary]; auto; [|pose proof (mv_next _ _ _ _ Hw); lia]. rewrite body_snoc, len_app. lia. }
  intros [= <- <- <-]. rewrite (Z.mod_small (st_nextSeq s + 1)) by lia.
  destruct (store_ok_moved o o2 s nodes H Ha Hw) as ([_ _ Hsl2 _ _] & [X _] & _). constructor.
  - constructor; cbn [st_active st_state st_sealed st_nextSeq]; auto.
    + exists (nodes ++ [e]). split; [exact Hsg'|]. intros _. rewrite El1. destruct nodes as [|e0 nodes]; [cbn; rewrite Hseq; change (len (@nil enc)) with 0; lia|]. rewrite first_seq_app by discriminate.
      specialize (Hnext ltac:(discriminate)). lia.
    + lia.
    + apply Hw.
  - constructor; [|reflexivity]. intros id sg0 Es. destruct (X id sg0 Es) as (sg1 & pre & r0 & r1 & E1 & P1 & P2 & P3 & P4). unfold seg_for in *. cbn [st_state st_active st_sealed].
    destruct (id =? _); [|eauto 10]. injection Es as <-. injection E1 as <-. exists sg', pre, r0, r1. split; [reflexivity|]. split; [exact P1|]. split; [|auto].
    cbn [sg' sg_summary]. rewrite Esum. change (st_active s) with sg. rewrite Hsum. cbn [summary_of ss_ValidEnd]. rewrite body_snoc, len_app. lia.
  - intros a0 [= <-]. split; [exact Hau|]. split; [exact Hav|]. intros Hcl. apply (read_here o2 _ sg' nodes e []); auto. unfold seg_for. cbn [st_state st_active]. rewrite Hasg, Hid, Z.eqb_refl. reflexivity.
Qed.

(** ** Rotation *)

Lemma headerFor_u st id : snapshot_u st -> is_u32 id -> header_u (headerFor st id).
Proof. intros [H1 H2 (H3 & _) _] Hid. constructor; [exact H1|]. cbn. split; [exact Hid|]. split; [|exact H3]. unfold is_u32 in *. destruct (1 <? id) eqn:E; bool_norm; lia. Qed.

Lemma snapshot_valid_next st : snapshot_u st -> snapshot_valid st = true -> cs_NextSegment st = cs_ActiveSegment st + 1 /\ 0 < cs_ActiveSegment st /\ cs_NextSegment st < two32.
Proof.
  intros [_ _ (_ & H2 & H3) _] Hv. unfold snapshot_valid in Hv. bool_norm. unfold is_u32 in *. rewrite Z.mod_small in * by lia. lia.
Qed.

Record swapped o s (nodes : list enc) o' s' : Prop := mkSwapped {
  sw_moved : moved (sg_file (st_active s)) (64 + len (body nodes)) o o';
  sw_new : exists installed new, s' = swap_active s installed new (cs_ActiveSegment (st_state s)) (st_active s) /\
    cs_ActiveSegment installed = cs_ActiveSegment (st_state s) + 1 /\ cs_ActiveSegment installed < two32 /\
    sh_SegmentID (sg_header new) = cs_ActiveSegment installed /\ sh_SegmentSize (sg_header new) = cs_SegmentSize installed /\
    (os_next o <= sg_file new < os_next o')%nat /\ seg_ok o' new [];
}.

Lemma rotate_files_spec o s nodes : store_ok o s -> seg_ok o (st_active s) nodes ->
  triple False (eq o) (rotate_files s) (fun s' o' => swapped o s nodes o' s') (moved (sg_file (st_active s)) (64 + len (body nodes)) o).
Proof.
  intros H Ha. pose proof H as [_ [Hid Hsize] _ _ Hc]. pose proof Ha as [_ Hsum [Hu Hv] _ Hend Hfile]. pose proof (segment_size_bounds _ Hu Hv) as Hss. pose proof (len_nonneg (body nodes)) as Hb0.
  set (a := sg_file (st_active s)) in *. set (n := 64 + len (body nodes)) in *. pose proof (moved_refl a n o Hc) as HK. unfold rotate_files.
  set (fresh := cp_Snapshot (os_user o)). apply (triple_bind _ _ _ _ (fun st o' => o' = o /\ st = fresh)); [intros o1 <-; cbn; auto|]. intros st. apply triple_pre. intros o1 [-> ->].
  pose proof (cp_range _ Hc) as Hfu. fold fresh in Hfu. destruct (snapshot_valid fresh) eqn:Hfv; cbn [negb]; [|apply triple_fail; intros o1 <-; auto].
  destruct (snapshot_valid_next _ Hfu Hfv) as (Hnx & Hact & Hnx32). case_if; [apply triple_fail; intros o1 <-; auto|]. bool_norm.
  set (j := rotation_journal s fresh). assert (Ej : rj_Old j = sg_summary (st_active s)) by reflexivity. assert (Hsid : ss_SegmentID (rj_Old j) = cs_ActiveSegment (st_state s)) by (rewrite Ej, Hsum; exact Hid).
  assert (Hji : journal_ids j).
  { destruct Hfu as [_ _ (_ & F1 & F2) _]. unfold is_u32 in *. constructor; [rewrite Hsid; rewrite Ej, Hsum; cbn; fold n; unfold is_u32; split; [lia|unfold n; lia]|]. cbn. split; [exact F2|]. apply Z.mod_pos_bound. lia. }
  apply (triple_from _ _ _ (moved a n o)); [intros o1 <-; exact HK|].
  apply (triple_bind _ _ _ _ (fun _ => moved a n o)); [now apply installRotationJournal_moved|]. intros _.
  assert (Hnv : 0 <= n <= ss_ValidEnd (rj_Old j)) by (rewrite Ej, Hsum; cbn [summary_of ss_ValidEnd]; fold n; unfold n; lia).
  apply (triple_bind _ _ _ _ _ _ _ (sealActive_moved a n o Hfile (st_active s) (rj_Old j) eq_refl Hnv)).
  intros sealed. apply triple_pre. intros o2 [K2 ->]. apply (triple_from _ _ _ (moved a n o)); [intros o1 <-; exact K2|].
  apply (triple_bind _ _ _ _ _ _ _ (createActive_moved a n o Hfile _)). intros new. apply triple_pre. intros o3 (K3 & Eh & Es & Hge & Hby & Hlt & Hvh).
  (* installing the catalog changes no file *)
  intros o3' <-. pose proof (install_moved a n o 16 j Hji fresh o3 K3) as Hin. unfold io_bind, installCatalogRotation.
  assert (Hsame : forall att cur, os_data (install_loop att cur j o3).1 = os_data o3 /\ os_next (install_loop att cur j o3).1 = os_next o3) by (intros; apply install_files).
  destruct (install_loop 16 fresh j o3) as [o4 [inst|err]] eqn:E4; cbn [fst snd] in Hin; [|exact Hin]. destruct Hin as [Hf4 (K4 & Hia & Hisz & _)].
  specialize (Hsame 16%nat fresh). rewrite E4 in Hsame. cbn [fst] in Hsame. destruct Hsame as [Ed4 En4]. cbn [io_ret fst snd]. split; [exact Hf4|].
  constructor; [exact K4|]. exists inst, new. rewrite Hsid. cbn [rotation_journal rj_NewActive j] in Hia, Eh.
  assert (Hactive : cs_ActiveSegment fresh = cs_ActiveSegment (st_state s)) by assumption.
  assert (Hu' : header_u (headerFor fresh (cs_NextSegment fresh))) by (apply headerFor_u; [exact Hfu|apply Hfu]).
  split; [reflexivity|]. split; [lia|]. split; [lia|]. rewrite Eh. split; [cbn; congruence|]. split; [cbn; symmetry; exact Hisz|]. split; [lia|].
  pose proof (segment_size_bounds _ Hu' Hvh). constructor; rewrite ?Eh; auto.
  - exists []. unfold bytes_of. rewrite Ed4. fold (bytes_of o3 (sg_file new)). rewrite Hby. unfold image. cbn. now rewrite !app_nil_r.
  - constructor; constructor.
  - change (len (body [])) with 0. lia.
  - lia.
Qed.

Lemma extends_same o s nodes : store_ok o s -> seg_ok o (st_active s) nodes -> extends o s o s.
Proof. intros H Ha. now apply (store_ok_moved o o s nodes H Ha), moved_refl, H. Qed.

Lemma swapped_ok o s nodes o' s' : store_ok o s -> seg_ok o (st_active s) nodes -> swapped o s nodes o' s' ->
  store_ok o' s' /\ extends o s o' s' /\ st_nextSeq s' = st_nextSeq s.
Proof.
  intros H Ha [M (inst & new & -> & Hia & Hi32 & Hnid & Hnsz & Hnf & Hno)]. destruct (store_ok_moved o o' s nodes H Ha M) as ([_ _ Hsl' _ Hc'] & [X _] & _).
  pose proof H as [_ [Hid Hsize] Hsl Hq Hc]. pose proof (so_file _ _ _ Ha) as Hfa.
  assert (Hold : seg_ok o' (st_active s) nodes) by (apply (seg_ok_moved _ _ o o' _ _ M Ha); right; reflexivity).
  split; [|split; [|reflexivity]].
  - constructor; cbn [swap_active st_active st_state st_sealed st_nextSeq]; auto.
    + exists []. split; [exact Hno|congruence].
    + intros id sg [[<- <-]|[Hne Es]]%lookup_insert_Some; [split; [eauto|]; split; lia|].
      destruct (Hsl' id sg Es) as (Hk & _ & Hlt). destruct (Hsl id sg Es) as ((k & Hko) & _ & _). pose proof (so_file _ _ _ Hko). split; [exact Hk|]. split; lia.
  - constructor; [|reflexivity]. intros id sg Es. destruct (X id sg Es) as (sg1 & pre & r0 & r1 & E1 & Hrest). unfold seg_for in *. cbn [swap_active st_state st_active st_sealed].
    destruct (id =? cs_ActiveSegment (st_state s)) eqn:E; bool_norm.
    + subst id. replace (cs_ActiveSegment (st_state s) =? cs_ActiveSegment inst) with false by (symmetry; apply Z.eqb_neq; lia). rewrite lookup_insert_eq. injection E1 as <-. eauto 10.
    + destruct (Hsl id sg Es) as (_ & _ & Hlt). replace (id =? cs_ActiveSegment inst) with false by (symmetry; apply Z.eqb_neq; lia). rewrite lookup_insert_ne by congruence. rewrite E1. eauto 10.
Qed.

Lemma rotate_spec o s o' s' e : store_ok o s -> rotate s o = (o', (s', e)) -> store_ok o' s' /\ extends o s o' s' /\ st_nextSeq s' = st_nextSeq s.
Proof.
  intros H. pose proof H as [(nodes & Ha & _) _ _ _ _]. pose proof (rotate_files_spec o s nodes H Ha o eq_refl) as Hr. unfold rotate.
  destruct (rotate_files s o) as [o1 [s1|e1]]; cbn [fst snd] in Hr; destruct Hr as [_ Hr].
  - pose proof (removeRotationJournal_moved (sg_file (st_active s)) (64 + len (body nodes)) o (fun o2 => swapped o s nodes o2 s1)) as Hrm.
    assert (Hdp : data_pred (fun o2 => swapped o s nodes o2 s1)).
    { intros o2 names faults [M2 (inst & new & E & R1 & R2 & R3 & R4 & R5 & [S1 S2 S3 S4 S5 S6])]. constructor; [now apply moved_data|]. exists inst, new.
      split; [exact E|]. repeat (split; [assumption|]). constructor; auto. }
    specialize (Hrm Hdp (fun o2 Hs => sw_moved _ _ _ _ _ Hs) o1 Hr).
    destruct (removeRotationJournal o1) as [o2 [u|e2]]; cbn [fst snd] in Hrm; destruct Hrm as [_ Hrm]; intros [= <- <- <-]; apply (swapped_ok o s nodes); auto. apply Hrm.
  - intros [= <- <- <-]. destruct (store_ok_moved o o1 s nodes H Ha (proj1 Hr)) as (H1 & H2 & _). auto.
Qed.

(** ** The contract *)

Lemma with_seq_u b seq : build_u b -> is_u64 seq -> build_u (with_seq b seq).
Proof. intros [] Hs. constructor; auto. Qed.

Lemma appended_same o s e err : store_ok o s -> appended o s e o s (Err err).
Proof. intros H. pose proof H as [(nodes & Ha & _) _ _ _ _]. constructor; [exact H|now apply (extends_same o s nodes)|discriminate]. Qed.

Lemma appendBuild_spec o s b o' s' r : store_ok o s -> build_u b -> appendBuild s b o = (o', (s', r)) ->
  store_ok o' s' /\ extends o s o' s' /\ forall a, r = Ok a -> is_u64 a /\ MapAddr_Valid a = true /\
    exists seq enc, EncodeNode (with_seq b seq) = Ok enc /\ build_u (with_seq b seq) /\ Store_Read o' s' a = Ok (node_of_enc (with_seq b seq, enc)).
Proof.
  intros H Hb. unfold appendBuild. pose proof H as [(nodes & Ha & _) _ _ Hq _]. pose proof (extends_same o s nodes H Ha) as Hx.
  assert (Same : forall e, (o, (s, Err e)) = (o', (s', r)) -> store_ok o' s' /\ extends o s o' s' /\ forall a, r = Ok a -> is_u64 a /\ MapAddr_Valid a = true /\
    exists seq enc, EncodeNode (with_seq b seq) = Ok enc /\ build_u (with_seq b seq) /\ Store_Read o' s' a = Ok (node_of_enc (with_seq b seq, enc))).
  { intros e [= <- <- <-]. split; [exact H|]. split; [exact Hx|discriminate]. }
  destruct (st_closed s) eqn:Hcl; [apply Same|]. destruct (st_poisoned s); [apply Same|]. destruct (st_nextSeq s =? MaxUint64) eqn:Em; [apply Same|]. bool_norm.
  assert (Hsq : is_u64 (st_nextSeq s)) by (unfold is_u64; lia). pose proof (with_seq_u b _ Hb Hsq) as Hbu.
  destruct (EncodeNode (with_seq b (st_nextSeq s))) as [encoded|e] eqn:Ee; [|apply Same].
  assert (Done : forall o1 s1, store_ok o1 s1 -> extends o s o1 s1 -> st_nextSeq s1 = st_nextSeq s -> st_closed s1 = false -> node_fits s1 encoded = true ->
    append_encoded s1 encoded o1 = (o', (s', r)) -> store_ok o' s' /\ extends o s o' s' /\ forall a, r = Ok a -> is_u64 a /\ MapAddr_Valid a = true /\
    exists seq enc, EncodeNode (with_seq b seq) = Ok enc /\ build_u (with_seq b seq) /\ Store_Read o' s' a = Ok (node_of_enc (with_seq b seq, enc))).
  { intros o1 s1 H1 X1 E1 C1 Hf Eap. destruct (append_encoded_spec o1 s1 (with_seq b (st_nextSeq s), encoded) o' s' r H1) as [A1 A2 A3]; auto; [split; auto|lia|].
    split; [exact A1|]. split; [eapply extends_trans; eauto|]. intros a Era. destruct (A3 a Era) as (B1 & B2 & B3). split; [exact B1|]. split; [exact B2|]. exists (st_nextSeq s), encoded. auto. }
  destruct (node_fits s encoded) eqn:Ef; [now apply Done|]. destruct (_ =? 0); [apply Same|].
  destruct (rotate s o) as [o1 [s1 e1]] eqn:Er. destruct (rotate_spec o s o1 s1 e1 H Er) as (R1 & R2 & R3).
  destruct e1 as [e1|].
  - intros [= <- <- <-]. split; [|split; [destruct R2; constructor; auto|discriminate]]. pose proof R1 as [(n1 & Ha1 & _) _ _ _ Hc1]. apply (store_ok_moved o1 o1 s1 n1 R1 Ha1), moved_refl, Hc1.
  - rewrite R3, Ee. assert (Hc1 : st_closed s1 = false) by (rewrite (ex_closed _ _ _ _ R2); exact Hcl). destruct (node_fits s1 encoded) eqn:Ef1; [now apply Done|].
    intros [= <- <- <-]. split; [exact R1|]. split; [exact R2|discriminate].
Qed.

(** The decoded node of an encoding, as the contract describes it. *)
Lemma node_of_enc_of b seq enc : build_u (with_seq b seq) -> EncodeNode (with_seq b seq) = Ok enc ->
  node_of (node_of_enc (with_seq b seq, enc)) (nb_Level b) (nb_Prefix b) (nb_CoveredCommitSeq b) (nb_Slots b) (nb_Sizes b).
Proof.
  intros Hb E. pose proof (encode_spec _ _ Hb E) as Hec. destruct (decode_enc (with_seq b seq, enc) [] (len enc) (conj Hb E) ltac:(cbn; lia)) as [_ Hh].
  exists seq. cbv zeta. split; [exact Hb|]. split; [exact Hh|]. split; [apply Hec|apply Hec].
Qed.

#[export] Instance MapStore_laws : NodeStoreLaws (files C).
Proof.
  unshelve econstructor; [exact (fun n => store_ok n.1 n.2)|..].
  - intros [o s] level prefix covered slots n' r H Hl Hp Hc Hsl Hsu E. cbn in E, H. unfold Append in E. destruct (appendBuild _ _ _) as [o' [s' r']] eqn:Ea. injection E as <- <-.
    assert (Hb : build_u (mkBuild level 0 prefix covered slots (replicate 512 0))).
    { constructor; cbn [nb_Level nb_NodeSeq nb_Prefix nb_CoveredCommitSeq nb_Slots nb_Sizes]; auto; [unfold is_u8; lia|unfold is_u64; lia|]. split; [reflexivity|]. apply Forall_replicate. unfold is_u32. lia. }
    destruct (appendBuild_spec o s _ o' s' r' H Hb Ea) as (A1 & A2 & A3). split; [exact A1|]. split; [now apply extends_readable|]. destruct r' as [a|e]; [|exact I].
    destruct (A3 a eq_refl) as (B1 & B2 & seq & enc & B3 & B4 & B5). split; [exact B1|]. split; [exact B2|]. eexists. split; [exact B5|]. exact (node_of_enc_of _ seq enc B4 B3).
  - intros [o s] prefix covered refs n' r H Hp Hc Hl Hu E. cbn in E, H. unfold AppendLeaf in E. destruct (appendBuild _ _ _) as [o' [s' r']] eqn:Ea. injection E as <- <-.
    assert (Hb : build_u (mkBuild 0 0 prefix covered (map Addr.Addr refs) (map PhysicalSize refs))).
    { constructor; cbn [nb_Level nb_NodeSeq nb_Prefix nb_CoveredCommitSeq nb_Slots nb_Sizes]; auto; [unfold is_u8; lia|unfold is_u64; lia| |];
        (split; [now rewrite length_map|]); apply Forall_map; (eapply Forall_impl; [exact Hu|]); intros x Hx; apply Hx. }
    destruct (appendBuild_spec o s _ o' s' r' H Hb Ea) as (A1 & A2 & A3). split; [exact A1|]. split; [now apply extends_readable|]. destruct r' as [a|e]; [|exact I].
    destruct (A3 a eq_refl) as (B1 & B2 & seq & enc & B3 & B4 & B5). split; [exact B1|]. split; [exact B2|]. eexists. split; [exact B5|]. exact (node_of_enc_of _ seq enc B4 B3).
  - intros [o s] n' e H E. cbn in E, H. unfold Store_Sync in E. pose proof H as [(nodes & Ha & _) _ _ _ Hc].
    assert (Hx : forall o1 s1, moved (sg_file (st_active s)) (64 + len (body nodes)) o o1 -> (s1 = s \/ s1 = set_poisoned s) -> store_ok o1 s1 /\ readable (N := files C) (o, s) (o1, s1)).
    { intros o1 s1 M Hs. destruct (store_ok_moved o o1 s nodes H Ha M) as (H1 & [X _] & Hp). destruct Hs as [-> | ->]; (split; [first [exact H1|apply Hp]|]); apply extends_readable; constructor; auto. }
    assert (HK : moved (sg_file (st_active s)) (64 + len (body nodes)) o o) by now apply moved_refl.
    destruct (st_closed s); [injection E as <- <-; auto|]. destruct (st_poisoned s); [injection E as <- <-; auto|].
    pose proof (point_data _ (moved_data _ _ o) o HK) as Hp. unfold io_bind, hitFault in E. destruct (fs_point o) as [o1 [u|e1]]; cbn [fst snd] in Hp; destruct Hp as [_ Hp].
    + pose proof (point_data _ (moved_data _ _ o) o1 Hp) as Hp2. unfold file_Sync in E. destruct (fs_point o1) as [o2 [u2|e2]]; cbn [fst snd] in Hp2; destruct Hp2 as [_ Hp2]; injection E as <- <-; apply Hx; auto. apply Hp2.
    + injection E as <- <-. apply Hx; auto. apply Hp.
Defined.

(** C25: the node store is append-only.  Appending a node to a well-formed store,
    whether it is written, rotates the segment first or fails with any fault at any
    call, leaves a well-formed store in which every node that could be read is
    read unchanged; when it returns an address, the node under it has exactly the
    level, prefix, covered sequence and slots that were given. *)
Theorem append_keeps_nodes o s b o' s' r : store_ok o s -> build_u b -> appendBuild s b o = (o', (s', r)) ->
  store_ok o' s' /\
  (forall addr nd, Store_Read o s addr = Ok nd -> Store_Read o' s' addr = Ok nd) /\
  forall a, r = Ok a -> MapAddr_Valid a = true /\
    exists nd, Store_Read o' s' a = Ok nd /\ node_of nd (nb_Level b) (nb_Prefix b) (nb_CoveredCommitSeq b) (nb_Slots b) (nb_Sizes b).
Proof.
  intros H Hb E. destruct (appendBuild_spec o s b o' s' r H Hb E) as (A1 & A2 & A3). split; [exact A1|]. split; [exact (extends_readable o s o' s' A2)|].
  intros a Ha. destruct (A3 a Ha) as (_ & B2 & seq & enc & B3 & B4 & B5). split; [exact B2|]. eexists. split; [exact B5|]. exact (node_of_enc_of b seq enc B4 B3).
Qed.
End Laws.
