(* ===== verification/Rotation.v ===== *)
(** * Rotation survives a stop at any point

    A rotation of the mapping store moves through a sequence of file states: the
    journal, the footer, the rename to sealed, the new segment, the catalog.  The
    predicate [phase] lists every state in which it can be stopped.  Both the
    rotation and its recovery, with faults at any calls, end in one of them, and
    a recovery without faults ends with the old segment active or with the whole
    rotation done; no node is lost in any of them. *)
From S2P Require Import Prelude Bytes Addr Crc32 MapNode MapSegment Fs FsDisk NodeIface MapStore MapScan MapStoreSpec.

(** ** The values that a rotation writes *)

Section Values.
Context (s0 : CatalogSnapshot) (nodes : list enc).
Local Abbreviation id := (cs_ActiveSegment s0).
Local Abbreviation nid := (cs_NextSegment s0).

Definition old_summary : SegmentSummary := summary_of id nodes.
Definition old_ref : SegmentRef := mkSegmentRef id (64 + len (body nodes)).
Definition the_journal : rotationJournal := mkJournal (cs_Generation s0) (cs_StoreID s0) (cs_SegmentSize s0) old_summary nid ((nid + 1) mod two32).
Definition s1 : CatalogSnapshot := rotated s0 old_ref nid ((nid + 1) mod two32).

Definition active_image : list Z := image (headerFor s0 id) nodes.
Definition footer_bytes : list Z := with_crc (segmentFooter_body (footer old_summary)).
Definition journal_bytes : list Z := with_crc (journal_body the_journal).
Definition sealed_image : list Z := active_image ++ footer_bytes.
Definition new_image : list Z := header_bytes (headerFor s0 nid).

(** A store that is due to rotate. *)
Record rotatable : Prop := mkRotatable {
  ro_range : snapshot_u s0;
  ro_valid : snapshot_valid s0 = true;
  ro_nodes : nodes_ok nodes;
  ro_some : nodes <> [];
  ro_seqs : first_seq nodes + len nodes < two64;
  ro_fits : 64 + len (body nodes) + 64 <= cs_SegmentSize s0;
  ro_gen : cs_Generation s0 < MaxUint64;
  ro_next : nid + 1 < two32;
  ro_root : MapAddr_SegmentID (cs_Root s0) = id -> MapAddr_Offset (cs_Root s0) < 64 + len (body nodes);
}.

Context (R : rotatable).

Lemma snapshot_parts : cs_Generation s0 <> 0 /\ all_zero (cs_StoreID s0) = false /\ 0 < id < MaxUint32 /\ nid = id + 1 /\ cs_SegmentSize s0 <= MaxUint32 /\
  validSegmentHeader (headerFor s0 id) = true /\ sealed_ok s0 0 (cs_SealedSegments s0) = true.
Proof.
  pose proof (ro_valid R) as Hv. pose proof (su_ids _ (ro_range R)) as (_ & Ha & _). unfold is_u32 in Ha. unfold snapshot_valid in Hv. bool_norm.
  assert (Hid : 0 < id < MaxUint32) by (lia). assert (nid = id + 1) by (rewrite Z.mod_small in * by lia; lia). repeat split; auto; lia.
Qed.

Lemma next_small : (nid + 1) mod two32 = nid + 1.
Proof. pose proof (ro_next R). destruct snapshot_parts as (_ & _ & Hb & E & _). apply Z.mod_small. lia. Qed.

Lemma nid_bounds : 1 < nid < MaxUint32.
Proof. pose proof (ro_next R). destruct snapshot_parts as (_ & _ & Hb & E & _). lia. Qed.

Lemma header_ok x : 0 < x < MaxUint32 -> header_u (headerFor s0 x) /\ validSegmentHeader (headerFor s0 x) = true.
Proof.
  intros Hx. pose proof (su_ids _ (ro_range R)) as (H1 & H2 & _). pose proof (su_store _ (ro_range R)) as H3. destruct snapshot_parts as (_ & _ & _ & _ & _ & Hv & _).
  assert (Hprev : (if 1 <? x then x - 1 else 0) = (if x =? 1 then 0 else x - 1)) by (destruct (1 <? x) eqn:E, (x =? 1) eqn:E'; bool_norm; lia). split.
  - constructor; [exact H3|]. unfold is_u32 in *. cbn. rewrite Hprev. destruct (x =? 1) eqn:E; bool_norm; lia.
  - unfold validSegmentHeader in *. cbn [headerFor sh_StoreID sh_SegmentID sh_SegmentSize sh_PreviousSegment] in *. destruct (_ || _ || _ || _ || _) eqn:E in Hv; [discriminate|].
    apply orb_false_iff in E as [E E5]. apply orb_false_iff in E as [E E4]. apply orb_false_iff in E as [E E3]. apply orb_false_iff in E as [E1 E2].
    rewrite E1, E4, E5, Hprev. replace (x =? 0) with false by (symmetry; apply Z.eqb_neq; lia). replace (x =? MaxUint32) with false by (symmetry; apply Z.eqb_neq; lia). cbn.
    destruct (x =? 1); apply Z.eqb_refl.
Qed.

Lemma id_header : header_u (headerFor s0 id) /\ validSegmentHeader (headerFor s0 id) = true.
Proof. apply header_ok. apply snapshot_parts. Qed.

Lemma nid_header : header_u (headerFor s0 nid) /\ validSegmentHeader (headerFor s0 nid) = true.
Proof. apply header_ok. pose proof nid_bounds. lia. Qed.

Lemma nodes_count : 0 < len nodes < two64 /\ 0 < first_seq nodes.
Proof.
  pose proof (ro_some R) as Hn. pose proof (ro_seqs R) as Hq. pose proof (ro_nodes R) as [He _]. destruct nodes as [|e l]; [congruence|]. rewrite len_cons in *. pose proof (len_nonneg l). cbn [first_seq] in *.
  apply Forall_cons in He as [He _]. destruct (enc_size e He) as (_ & _ & _ & H1). lia.
Qed.

Lemma end_bounds : 64 <= 64 + len (body nodes) < two32 /\ 64 + len (body nodes) + 64 < two32 /\ (64 + len (body nodes)) mod 8 = 0.
Proof.
  pose proof (ro_fits R). destruct snapshot_parts as (_ & _ & _ & _ & H5 & _). pose proof (len_nonneg (body nodes)). pose proof (body_aligned nodes (no_enc _ (ro_nodes R))). split; [lia|]. split; [lia|]. dlia.
Qed.

Lemma old_summary_eq : old_summary = mkSummary id (64 + len (body nodes)) (first_seq nodes) (first_seq nodes + len nodes - 1) (len nodes).
Proof. unfold old_summary, summary_of. destruct nodes_count as [H _]. replace (len nodes =? 0) with false by (symmetry; apply Z.eqb_neq; lia). reflexivity. Qed.

Lemma footer_range : footer_u (footer old_summary).
Proof.
  rewrite old_summary_eq. pose proof (su_ids _ (ro_range R)) as (_ & H2 & _). pose proof nodes_count. pose proof end_bounds. pose proof (ro_seqs R).
  constructor; cbn; unfold is_u32, is_u64 in *; repeat split; try lia.
Qed.

Lemma footer_valid : validSegmentFooter (footer old_summary) = true.
Proof.
  rewrite old_summary_eq. pose proof nodes_count as [H1 H2]. pose proof end_bounds as (H3 & _ & H4). pose proof (ro_seqs R). destruct snapshot_parts as (_ & _ & H5 & _).
  unfold validSegmentFooter. cbn [footer ss_SegmentID ss_ValidEnd ss_FirstSeq ss_LastSeq ss_NodeCount sf_SegmentID sf_ValidEnd sf_FirstSeq sf_LastSeq sf_NodeCount].
  change (Alignment - 1) with 7. rewrite land_7, H4. change SegmentHeaderSize with 64.
  replace (id =? 0) with false by (symmetry; apply Z.eqb_neq; lia). replace (_ <? 64) with false by (symmetry; apply Z.ltb_ge; lia). cbn [orb negb Z.eqb].
  replace (len nodes =? 0) with false by (symmetry; apply Z.eqb_neq; lia). replace (first_seq nodes =? 0) with false by (symmetry; apply Z.eqb_neq; lia).
  replace (first_seq nodes <=? _) with true by (symmetry; apply Z.leb_le; lia). replace (first_seq nodes + len nodes - 1 - first_seq nodes + 1) with (len nodes) by lia. rewrite Z.mod_small by lia. apply Z.eqb_refl.
Qed.

Lemma footer_encoded : EncodeSegmentFooter (footer old_summary) = Ok footer_bytes.
Proof. unfold EncodeSegmentFooter. rewrite footer_valid. reflexivity. Qed.

Lemma footer_facts : DecodeSegmentFooter footer_bytes = Ok (footer old_summary) /\ length footer_bytes = 64%nat.
Proof. destruct (DecodeSegmentFooter_encoded _ _ footer_range footer_encoded) as (H1 & H2 & _). auto. Qed.

Lemma journal_range : journal_u the_journal.
Proof.
  pose proof (su_ids _ (ro_range R)) as (H1 & H2 & H3). constructor; [apply (su_store _ (ro_range R))| |apply footer_range].
  cbn. rewrite next_small. pose proof (ro_next R). pose proof nid_bounds. split; [apply (su_gen _ (ro_range R))|]. unfold is_u32 in *. lia.
Qed.

Lemma journal_encoded : encodeRotationJournal the_journal = Ok journal_bytes.
Proof.
  unfold encodeRotationJournal. enough (E : journal_valid the_journal = true) by (rewrite E; reflexivity). unfold journal_valid, summary_valid. cbn [rj_BaseGeneration rj_StoreID rj_Old rj_SegmentSize rj_NewActive rj_NextSegment the_journal].
  rewrite footer_valid, next_small. destruct snapshot_parts as (H1 & H2 & H3 & H4 & H5 & _). pose proof nodes_count as [H6 _]. pose proof end_bounds as (H7 & _). pose proof (ro_fits R). pose proof (ro_next R).
  pose proof (su_ids _ (ro_range R)) as ([H8 H9] & _). rewrite old_summary_eq. cbn [ss_NodeCount ss_ValidEnd ss_SegmentID]. rewrite H2. change SegmentFooterSize with 64. rewrite !Z.mod_small by lia.
  rewrite !andb_true_iff, !negb_true_iff, !Z.eqb_neq, !Z.eqb_eq, Z.leb_le. repeat split; lia.
Qed.

Lemma journal_decoded : decodeRotationJournal journal_bytes = Ok the_journal.
Proof. apply (decodeRotationJournal_encoded _ _ journal_range journal_encoded). Qed.

(** ** What the reading side sees *)

Lemma active_len : len active_image = 64 + len (body nodes).
Proof. apply image_len. apply id_header. Qed.

Lemma scan_active rest root : scanNodes (active_image ++ rest) (headerFor s0 id) (64 + len (body nodes)) root = Ok (old_summary, false).
Proof.
  unfold scanNodes, active_image. destruct id_header as [H1 H2]. rewrite (scan_complete _ H1 H2 nodes rest root _ (ro_nodes R)); [reflexivity|apply nodes_count|reflexivity|]. apply (ro_fits R).
Qed.

Lemma check_sealed_ok : check_sealed sealed_image (headerFor s0 id) old_ref = Ok old_summary.
Proof.
  destruct footer_facts as [F1 F2]. pose proof end_bounds as (B1 & B2 & _). destruct id_header as [H1 H2]. unfold check_sealed, sealed_image.
  cbn [sr_ValidEnd sr_SegmentID old_ref]. rewrite len_app, active_len. change SegmentFooterSize with 64. unfold len at 2. rewrite F2. rewrite Z.mod_small by lia. rewrite Z.eqb_refl.
  unfold active_image at 1. rewrite (verifyHeader_image _ nodes footer_bytes H1 H2).
  rewrite (read_at_here active_image footer_bytes [] _ 64) by (rewrite ?active_len; unfold len; rewrite ?F2; reflexivity) || (rewrite <- (app_nil_r footer_bytes) at 1; rewrite (read_at_here active_image footer_bytes [] _ 64) by (rewrite ?active_len; unfold len; rewrite ?F2; reflexivity)).
  rewrite F1. cbn [footer sf_SegmentID sf_ValidEnd]. rewrite scan_active, old_summary_eq. cbn [ss_SegmentID ss_ValidEnd]. rewrite !Z.eqb_refl. cbn [orb negb].
  rewrite bool_decide_eq_true_2 by reflexivity. reflexivity.
Qed.

Lemma scan_new root : scanNodes new_image (headerFor s0 nid) 64 root = Ok (empty_summary nid, false).
Proof.
  unfold scanNodes. destruct nid_header as [H1 H2]. pose proof (scan_complete _ H1 H2 [] [] root 64) as E. unfold image in E. cbn [body map concat] in E. rewrite !app_nil_r in E. unfold new_image. rewrite E; [reflexivity| |reflexivity|reflexivity|].
  - constructor; [constructor|exact I].
  - pose proof (ro_fits R). pose proof (len_nonneg (body nodes)). cbn. lia.
Qed.

Lemma verify_new : verifyHeader new_image (headerFor s0 nid) = Ok tt.
Proof. destruct nid_header as [H1 H2]. pose proof (verifyHeader_image _ [] [] H1 H2) as E. unfold image in E. cbn [body map concat] in E. now rewrite !app_nil_r in E. Qed.

Lemma new_len : len new_image = 64.
Proof. apply header_bytes_len. apply nid_header. Qed.

(** ** The catalog before and after *)

Lemma sealed_below a segs : forall p, sealed_ok s0 p segs = true -> cs_ActiveSegment s0 <= a -> Forall (fun r => sr_SegmentID r < a) segs.
Proof. induction segs as [|r segs IH]; intros p E Ha; [constructor|]. cbn [sealed_ok] in E. bool_norm. constructor; [lia|eauto]. Qed.

Lemma sealed_ok_snoc st r segs : cs_ActiveSegment s0 <= cs_ActiveSegment st -> cs_SegmentSize st = cs_SegmentSize s0 ->
  forall p, sealed_ok s0 p segs = true -> sealed_ok st (default p (last (map sr_SegmentID segs))) [r] = true -> sealed_ok st p (segs ++ [r]) = true.
Proof.
  intros Ha Hs. induction segs as [|x segs IH]; intros p E Er; [exact Er|]. revert Er. cbn [sealed_ok app] in *. bool_norm. intros Er. rewrite Hs. rewrite IH; [|assumption|].
  - rewrite andb_true_r, negb_true_iff, !orb_false_iff. repeat split; try (first [apply Z.leb_gt|apply Z.ltb_ge|apply negb_false_iff, Z.eqb_eq]; lia).
  - destruct segs as [|y segs]; [exact Er|]. cbn [map] in *. rewrite last_cons_cons in Er. destruct (last (sr_SegmentID y :: map sr_SegmentID segs)) eqn:El; [exact Er|]. apply last_None in El. discriminate.
Qed.

Lemma find_app_r {A} (f : A -> bool) l x : Forall (fun y => f y = false) l -> List.find f (l ++ [x]) = if f x then Some x else None.
Proof. induction 1 as [|y l Hy _ IH]; cbn; [reflexivity|]. now rewrite Hy. Qed.

Lemma find_app_l {A} (f : A -> bool) l x y : List.find f l = Some y -> List.find f (l ++ [x]) = Some y.
Proof. induction l as [|z l IH]; cbn; [discriminate|]. destruct (f z); auto. Qed.

Lemma sealed_before : Forall (fun r => sr_SegmentID r < id) (cs_SealedSegments s0).
Proof. destruct snapshot_parts as (_ & _ & _ & _ & _ & _ & Hs). eapply sealed_below; [exact Hs|lia]. Qed.

Lemma s1_valid : snapshot_valid s1 = true.
Proof.
  destruct snapshot_parts as (P1 & P2 & P3 & P4 & P5 & P6 & P7). pose proof end_bounds as (B1 & B2 & B3). pose proof (ro_next R) as Hn. pose proof (ro_fits R) as Hf. pose proof (ro_gen R) as Hg.
  pose proof (su_ids _ (ro_range R)) as ([S1 S2] & _). pose proof (su_gen _ (ro_range R)) as Hgu. unfold is_u64 in Hgu. unfold snapshot_valid, s1, rotated. rewrite next_small.
  cbn [cs_Generation cs_StoreID cs_SegmentSize cs_ActiveSegment cs_NextSegment cs_SealedSegments cs_Root].
  rewrite P2. replace (cs_Generation s0 + 1 =? 0) with false by (symmetry; apply Z.eqb_neq; lia). replace (nid =? 0) with false by (symmetry; apply Z.eqb_neq; lia).
  replace (nid =? MaxUint32) with false by (symmetry; apply Z.eqb_neq; lia). rewrite Z.mod_small by lia. rewrite Z.eqb_refl. replace (MaxUint32 <? cs_SegmentSize s0) with false by (symmetry; apply Z.ltb_ge; lia). cbn [orb negb andb].
  destruct nid_header as [_ Hv]. unfold headerFor at 1. cbn [cs_StoreID cs_SegmentSize]. fold (headerFor s0 nid). rewrite Hv. cbn [andb].
  rewrite sealed_ok_snoc; [|cbn; lia|reflexivity|exact P7|].
  - cbn [andb]. pose proof (ro_valid R) as V. unfold snapshot_valid in V. apply andb_true_iff in V as [_ V]. destruct (cs_Root s0 =? 0); [reflexivity|]. destruct (negb (MapAddr_Valid (cs_Root s0))); [discriminate|].
    unfold find_sealed in *. destruct (MapAddr_SegmentID (cs_Root s0) =? nid) eqn:En; [reflexivity|]. destruct (MapAddr_SegmentID (cs_Root s0) =? id) eqn:Ei; bool_norm.
    + rewrite find_app_r by (eapply Forall_impl; [apply sealed_before|]; intros r Hr; cbn in *; apply Z.leb_gt; lia). cbn [old_ref sr_SegmentID sr_ValidEnd].
      replace (_ <=? id) with true by (symmetry; apply Z.leb_le; lia). cbn [sr_SegmentID sr_ValidEnd]. rewrite Ei, Z.eqb_refl. apply Z.ltb_lt. now apply (ro_root R).
    + destruct (List.find _ _) as [r|] eqn:Ef; [|discriminate]. now rewrite (find_app_l _ _ _ r Ef).
  - cbn [sealed_ok cs_ActiveSegment cs_SegmentSize old_ref sr_SegmentID sr_ValidEnd]. rewrite andb_true_r, negb_true_iff, !orb_false_iff. change (Alignment - 1) with 7. rewrite land_7, B3. change SegmentFooterSize with 64. change SegmentHeaderSize with 64.
    rewrite Z.mod_small by lia. repeat split; try (first [apply Z.leb_gt|apply Z.ltb_ge]; lia). apply Z.leb_gt.
    destruct (last (map sr_SegmentID (cs_SealedSegments s0))) as [z|] eqn:El; cbn [default]; [|lia]. apply last_Some_elem_of in El. apply list_elem_of_fmap in El as (r & -> & Hr). pose proof sealed_before as Hb. rewrite Forall_forall in Hb. now apply Hb.
Qed.

Lemma can_install : installable s0 (cs_Generation s0) old_ref nid ((nid + 1) mod two32).
Proof. constructor; [split; [reflexivity|apply (ro_gen R)]| |apply s1_valid]. rewrite next_small. pose proof (ro_next R). cbn. auto. Qed.

Lemma not_committed : committedRotation s0 the_journal = false.
Proof. unfold committedRotation. cbn [rj_NewActive the_journal]. destruct snapshot_parts as (_ & _ & _ & -> & _). replace (id =? id + 1) with false by (symmetry; apply Z.eqb_neq; lia). reflexivity. Qed.

Lemma committed : committedRotation s1 the_journal = true.
Proof.
  unfold committedRotation. cbn [s1 rotated cs_ActiveSegment cs_NextSegment cs_SealedSegments rj_NewActive rj_NextSegment rj_Old the_journal]. rewrite !Z.eqb_refl. cbn [negb orb].
  rewrite old_summary_eq. cbn [ss_SegmentID ss_ValidEnd]. rewrite find_app_r by (eapply Forall_impl; [apply sealed_before|]; intros r Hr; cbn in *; apply Z.eqb_neq; lia). cbn [old_ref sr_SegmentID]. rewrite Z.eqb_refl. cbn [sr_ValidEnd]. apply Z.eqb_refl.
Qed.
End Values.
