(* ===== verification/RotationSpec.v ===== *)
(** * The phases of a rotation

    Every state in which a rotation of the mapping store can be stopped, and the
    proofs that the rotation and its recovery stay within them, whatever calls
    fail, and finish when none fail. *)
From S2P Require Import Prelude Bytes Addr Crc32 MapNode MapSegment Fs FsDisk NodeIface MapStore MapScan MapStoreSpec Rotation.

Section Phases.
Context {C : Type} `{!CatalogPort C} `{!CatalogLaws C}.
Context (s0 : CatalogSnapshot) (nodes : list enc) (R : rotatable s0 nodes) (d0 : gmap mpath (list Z)).
Local Abbreviation id := (cs_ActiveSegment s0).
Local Abbreviation nid := (cs_NextSegment s0).
Local Abbreviation snap1 := (s1 s0 nodes).
Local Abbreviation image0 := (active_image s0 nodes).
Local Abbreviation image1 := (sealed_image s0 nodes).
Local Abbreviation image2 := (new_image s0).
Local Abbreviation foot := (footer_bytes s0 nodes).
Local Abbreviation jbytes := (journal_bytes s0 nodes).
Local Abbreviation jrn := (the_journal s0 nodes).
Local Abbreviation mio := (io mpath C).

Definition put (p : mpath) (x : option (list Z)) (d : gmap mpath (list Z)) : gmap mpath (list Z) := partial_alter (fun _ => x) p d.

(** The files a rotation works on: temporary journal, journal, the old segment
    as active and as sealed, the new segment being created and as active.  All
    other files are those of [d0]. *)
Definition dsk (t j a s c n : option (list Z)) : gmap mpath (list Z) :=
  put PRotationTmp t (put PRotation j (put (PActive id) a (put (PSealed id) s (put (PCreating nid) c (put (PActive nid) n d0))))).

Definition catalog_at (s : CatalogSnapshot) : C -> Prop := fun c => cp_ok c /\ cp_Snapshot c = s /\ cp_Snapshot (cp_Reload c) = s /\ (s = s0 -> cp_room c).
(** The catalog's files may be new already when this process has failed. *)
Definition catalog_torn : C -> Prop := fun c => cp_ok c /\ cp_Snapshot c = s0 /\ cp_room c /\ (cp_Snapshot (cp_Reload c) = s0 \/ cp_Snapshot (cp_Reload c) = snap1).

Inductive phase : gmap mpath (list Z) -> (C -> Prop) -> Prop :=
  | ph_before t : phase (dsk t None (Some image0) None None None) (catalog_at s0)
  | ph_sealing r : r = foot \/ (length r < 64)%nat -> phase (dsk None (Some jbytes) (Some (image0 ++ r)) None None None) (catalog_at s0)
  | ph_sealed c : phase (dsk None (Some jbytes) None (Some image1) c None) (catalog_at s0)
  | ph_created : phase (dsk None (Some jbytes) None (Some image1) None (Some image2)) (catalog_at s0)
  | ph_committed : phase (dsk None (Some jbytes) None (Some image1) None (Some image2)) (catalog_at snap1)
  | ph_done : phase (dsk None None None (Some image1) None (Some image2)) (catalog_at snap1).

(** A process can be stopped in a phase, or while the catalog was installing. *)
Definition in_phase (o : os mpath C) : Prop := exists d u, phase d u /\ at_disk d u o.
Definition stopped (o : os mpath C) : Prop := in_phase o \/ at_disk (dsk None (Some jbytes) None (Some image1) None (Some image2)) catalog_torn o.

Lemma stopped_in d u o : phase d u -> at_disk d u o -> stopped o.
Proof. intros H1 H2. left. exists d, u. auto. Qed.

Lemma ids_differ : id <> nid.
Proof. destruct (snapshot_parts s0 nodes R) as (_ & _ & _ & -> & _). lia. Qed.

Ltac disk_cases := unfold dsk, put; repeat (rewrite lookup_insert || rewrite lookup_delete || rewrite lookup_partial_alter || (case_decide; subst)); pose proof ids_differ; try congruence; try reflexivity.
Ltac disk_eq := apply map_eq; intros ?q; disk_cases.
Ltac disk_at := solve [disk_cases].

(** ** Steps *)

Local Abbreviation step_point := (FsDisk.step_point True phase stopped stopped_in).
Local Abbreviation step_point_owns := (FsDisk.step_point_owns True phase stopped stopped_in).
Local Abbreviation step_open := (FsDisk.step_open True phase stopped stopped_in).
Local Abbreviation step_data := (FsDisk.step_data True phase stopped stopped_in).
Local Abbreviation step_test := (FsDisk.step_test True phase stopped stopped_in).
Local Abbreviation step_lift := (FsDisk.step_lift True stopped).
Local Abbreviation step_rename := (FsDisk.step_rename True phase stopped stopped_in).
Local Abbreviation step_forget := (FsDisk.step_forget True stopped).
Local Abbreviation step_write := (FsDisk.step_write True phase stopped stopped_in).
Local Abbreviation step_create := (FsDisk.step_create True phase stopped stopped_in).
Local Abbreviation step_remove_any := (FsDisk.step_remove_any True phase stopped stopped_in).
Local Abbreviation step_remove := (FsDisk.step_remove True phase stopped stopped_in).
Local Abbreviation step_truncate := (FsDisk.step_truncate True phase stopped stopped_in).
Local Abbreviation last_step := (FsDisk.last_step True phase stopped stopped_in).
Local Abbreviation step_seq := (FsDisk.step_seq True stopped).


Lemma ph_journaled : phase (dsk None (Some jbytes) (Some image0) None None None) (catalog_at s0).
Proof. rewrite <- (app_nil_r image0). apply ph_sealing. right. cbn. lia. Qed.

(** ** The journal *)

Lemma installRotationJournal_phase : triple True (at_disk (dsk None None (Some image0) None None None) (catalog_at s0)) (installRotationJournal jrn)
  (fun _ => at_disk (dsk None (Some jbytes) (Some image0) None None None) (catalog_at s0)) stopped.
Proof.
  unfold installRotationJournal. apply (step_lift _ _ _ _ _ (journal_encoded s0 nodes R)).
  apply (step_create _ _ (ph_before None) _ _ (dsk (Some []) None (Some image0) None None None)); [disk_at|disk_eq|]. intros f.
  apply step_point_owns; [apply ph_before|]. apply (step_write _ _ _ _ _ [] _ _ (dsk (Some jbytes) None (Some image0) None None None)); [disk_at|rewrite splice_fresh; disk_eq| |].
  { intros n. replace (<[_ := _]> _) with (dsk (Some (splice [] 0 (take n jbytes))) None (Some image0) None None None) by disk_eq. apply ph_before. }
  apply step_forget. do 4 (apply step_point; [apply ph_before|]).
  apply (step_rename _ _ (ph_before _) _ _ _ jbytes (dsk None (Some jbytes) (Some image0) None None None)); [disk_at|disk_eq|apply ph_journaled|].
  apply step_point; [apply ph_journaled|]. apply last_step, ph_journaled.
Qed.

(** Removing the journal once the rotation is committed. *)
Lemma removeRotationJournal_phase : triple True (at_disk (dsk None (Some jbytes) None (Some image1) None (Some image2)) (catalog_at snap1)) removeRotationJournal
  (fun _ => at_disk (dsk None None None (Some image1) None (Some image2)) (catalog_at snap1)) stopped.
Proof.
  unfold removeRotationJournal. apply step_test; [apply ph_committed|]. apply step_test; [apply ph_committed|].
  replace (dsk None (Some jbytes) None (Some image1) None (Some image2) !! PRotation) with (Some jbytes) by disk_at. cbn [bool_decide orb].
  rewrite bool_decide_eq_true_2 by eauto. cbn [orb].
  apply step_point; [apply ph_committed|]. apply (step_remove_any _ _ ph_committed _ _ (dsk None None None (Some image1) None (Some image2))); [disk_eq|apply ph_done|].
  apply (step_remove_any _ _ ph_done _ _ (dsk None None None (Some image1) None (Some image2))); [disk_eq|apply ph_done|].
  apply step_point; [apply ph_done|]. apply last_step, ph_done.
Qed.

(** ** Sealing the old segment *)

Lemma take_footer n : take n foot = foot \/ (length (take n foot) < 64)%nat.
Proof.
  destruct (footer_facts s0 nodes R) as [_ Hl]. destruct (le_lt_dec 64 n); [left; apply take_ge; lia|right]. rewrite length_take. lia.
Qed.

Lemma sealActive_phase active : sg_summary active = old_summary s0 nodes ->
  triple True (fun o => at_disk (dsk None (Some jbytes) (Some image0) None None None) (catalog_at s0) o /\ owns o (PActive id) (sg_file active)) (sealActive active (old_summary s0 nodes))
    (fun sg o => at_disk (dsk None (Some jbytes) None (Some image1) None None) (catalog_at s0) o /\ sg = active) stopped.
Proof.
  intros Hs. unfold sealActive. rewrite Hs, bool_decide_eq_true_2 by reflexivity. rewrite (old_summary_eq s0 nodes R) at 1. cbn [ss_NodeCount negb orb].
  destruct (nodes_count s0 nodes R) as [Hc _]. replace (len nodes =? 0) with false by (symmetry; apply Z.eqb_neq; lia).
  apply (step_lift _ _ _ _ _ (footer_encoded s0 nodes R)). apply step_point_owns; [apply ph_journaled|].
  assert (Ee : ss_ValidEnd (old_summary s0 nodes) = len image0) by (rewrite (active_len s0 nodes R), (old_summary_eq s0 nodes R); reflexivity).
  assert (Ei : ss_SegmentID (old_summary s0 nodes) = id) by (rewrite (old_summary_eq s0 nodes R); reflexivity). rewrite Ee, Ei.
  apply (step_write _ _ _ _ _ image0 _ _ (dsk None (Some jbytes) (Some image1) None None None)); [disk_at|rewrite splice_end; disk_eq| |].
  { intros n. rewrite splice_end. replace (<[_ := _]> _) with (dsk None (Some jbytes) (Some (image0 ++ take n foot)) None None None) by disk_eq. apply ph_sealing, take_footer. }
  assert (Hph : phase (dsk None (Some jbytes) (Some image1) None None None) (catalog_at s0)) by (apply ph_sealing; auto). apply step_forget.
  do 3 (apply step_point; [exact Hph|]). apply (step_rename _ _ Hph _ _ _ image1 (dsk None (Some jbytes) None (Some image1) None None)); [disk_at|disk_eq|apply ph_sealed|].
  do 2 (apply step_point; [apply ph_sealed|]). apply triple_ret. auto.
Qed.

(** ** The new segment *)

Lemma createActive_phase : triple True (at_disk (dsk None (Some jbytes) None (Some image1) None None) (catalog_at s0)) (createActive (headerFor s0 nid))
  (fun sg o => at_disk (dsk None (Some jbytes) None (Some image1) None (Some image2)) (catalog_at s0) o /\ sg_header sg = headerFor s0 nid /\ sg_summary sg = empty_summary nid) stopped.
Proof.
  unfold createActive. apply (step_lift _ _ _ image2); [unfold EncodeSegmentHeader; rewrite (proj2 (nid_header s0 nodes R)); reflexivity|].
  apply step_point; [apply ph_sealed|]. cbn [sh_SegmentID headerFor].
  apply (step_create _ _ (ph_sealed None) _ _ (dsk None (Some jbytes) None (Some image1) (Some []) None)); [disk_at|disk_eq|]. intros f.
  apply step_point_owns; [apply ph_sealed|]. apply (step_write _ _ _ _ _ [] _ _ (dsk None (Some jbytes) None (Some image1) (Some image2) None)); [disk_at|rewrite splice_fresh; disk_eq| |].
  { intros n. replace (<[_ := _]> _) with (dsk None (Some jbytes) None (Some image1) (Some (splice [] 0 (take n image2))) None) by disk_eq. apply ph_sealed. }
  apply step_forget. do 3 (apply step_point; [apply ph_sealed|]).
  apply (step_rename _ _ (ph_sealed _) _ _ _ image2 (dsk None (Some jbytes) None (Some image1) None (Some image2))); [disk_at|disk_eq|apply ph_created|].
  do 2 (apply step_point; [apply ph_created|]). apply triple_ret. cbn. auto.
Qed.

(** ** The catalog *)

Lemma s1_differs : snap1 <> s0.
Proof. intros E. apply (f_equal cs_Generation) in E. cbn in E. lia. Qed.

Lemma install_law c fs c' fs' r : catalog_at s0 c -> cp_Install c fs (cs_Generation s0) (old_ref s0 nodes) nid ((nid + 1) mod two32) = (c', fs', r) ->
  cp_ok c' /\ (fs = [] -> fs' = []) /\
  match r with
  | Ok s => cp_Snapshot c' = s /\ s = snap1 /\ cp_Snapshot (cp_Reload c') = snap1
  | Err _ => cp_Snapshot c' = s0 /\ cp_room c' /\ (cp_Snapshot (cp_Reload c') = s0 \/ cp_Snapshot (cp_Reload c') = snap1) /\ fs <> []
  end.
Proof.
  intros (Hok & Hsn & Hre & Hrm) Ei. destruct (su_ids _ (ro_range _ _ R)) as (_ & I1 & I2). pose proof (end_bounds s0 nodes R) as (B1 & _). pose proof (next_small s0 nodes R) as En. pose proof (ro_next _ _ R). pose proof (nid_bounds s0 nodes R).
  assert (U1 : is_u32 (sr_ValidEnd (old_ref s0 nodes))) by (unfold is_u32; cbn [old_ref sr_ValidEnd]; lia). assert (U2 : is_u32 ((nid + 1) mod two32)) by (unfold is_u32; rewrite En; lia).
  destruct (cp_install c fs (cs_Generation s0) (old_ref s0 nodes) nid ((nid + 1) mod two32) c' fs' r Hok I1 U1 I2 U2 Ei) as (H1 & H2 & H3).
  split; [exact H1|]. split; [exact H2|]. rewrite Hsn, Hre in H3. destruct r as [s|e].
  - destruct H3 as (H3 & H4 & H5). change (rotated s0 (old_ref s0 nodes) nid ((nid + 1) mod two32)) with snap1 in H4. split; [congruence|]. split; congruence.
  - destruct H3 as (H3 & H4 & H5 & H6). specialize (Hrm eq_refl). repeat (split; [auto|]). destruct H6 as [H6|H6]; [exact H6|]. exfalso. apply H6. split; [apply (can_install s0 nodes R)|exact Hrm].
Qed.

Lemma install_loop_phase n : triple True (at_disk (dsk None (Some jbytes) None (Some image1) None (Some image2)) (catalog_at s0)) (install_loop (S n) s0 jrn)
  (fun st o => at_disk (dsk None (Some jbytes) None (Some image1) None (Some image2)) (catalog_at snap1) o /\ st = snap1) stopped.
Proof.
  intros o Ho. cbn [install_loop].
  assert (Er : mkSegmentRef (ss_SegmentID (rj_Old jrn)) (ss_ValidEnd (rj_Old jrn)) = old_ref s0 nodes) by (cbn [rj_Old the_journal]; rewrite (old_summary_eq s0 nodes R); reflexivity). rewrite Er.
  change (rj_NewActive jrn) with nid. change (rj_NextSegment jrn) with ((nid + 1) mod two32). pose proof Ho as [W Hd Hcat]. pose proof Hcat as (Hok & Hsn & Hre & Hrm).
  destruct (cp_Install _ _ _ _ _ _) as [[c fs] r] eqn:Ei. apply install_law in Ei; [|exact Hcat]. destruct Ei as (Hc & Hff & Hi).
  set (o2 := mkOs (os_names o) (os_data o) (os_next o) fs c).
  assert (Hat : forall u : C -> Prop, u c -> at_disk (dsk None (Some jbytes) None (Some image1) None (Some image2)) u o2).
  { intros u Hu. destruct W as [W1 W2]. constructor; [constructor; assumption|exact Hd|exact Hu]. }
  destruct r as [s|e].
  - destruct Hi as (Hi1 & -> & Hi2). rewrite (committed s0 nodes R). cbn [fst snd]. split; [exact Hff|]. split; [apply Hat; repeat (split; [assumption|]); intros E; now destruct (s1_differs E)|reflexivity].
  - destruct Hi as (Hi1 & Hi2 & Hi3 & Hne). rewrite Hi1, (not_committed s0 nodes R), Z.eqb_refl. cbn [fst snd]. split; [exact Hff|]. split; [|auto]. right. apply Hat. repeat (split; [assumption|]). exact Hi3.
Qed.

Lemma install_phase : triple True (at_disk (dsk None (Some jbytes) None (Some image1) None (Some image2)) (catalog_at s0)) (installCatalogRotation s0 jrn)
  (fun st o => at_disk (dsk None (Some jbytes) None (Some image1) None (Some image2)) (catalog_at snap1) o /\ st = snap1) stopped.
Proof. apply (install_loop_phase 15). Qed.

(** ** The rotation *)

Lemma installRotationJournal_keeps q j : q <> PRotation -> q <> PRotationTmp -> keeps q (C := C) (installRotationJournal j).
Proof.
  intros H1 H2. unfold installRotationJournal. repeat first [apply keeps_bind; [|intros ?] | apply keeps_point | apply keeps_lift | apply keeps_write | apply keeps_create | apply keeps_rename]; auto.
Qed.

Lemma rotate_files_phase s : sg_summary (st_active s) = old_summary s0 nodes -> cs_StoreID (st_state s) = cs_StoreID s0 -> cs_SegmentSize (st_state s) = cs_SegmentSize s0 ->
  cs_ActiveSegment (st_state s) = id -> cs_NextSegment (st_state s) = nid ->
  triple True (fun o => at_disk (dsk None None (Some image0) None None None) (catalog_at s0) o /\ owns o (PActive id) (sg_file (st_active s))) (rotate_files s)
    (fun s' o => at_disk (dsk None (Some jbytes) None (Some image1) None (Some image2)) (catalog_at snap1) o /\
       exists sg, s' = swap_active s snap1 sg id (st_active s) /\ sg_header sg = headerFor s0 nid /\ sg_summary sg = empty_summary nid) stopped.
Proof.
  intros Hsum E1 E2 E3 E4. unfold rotate_files.
  apply (step_seq _ (fun st o => (at_disk (dsk None None (Some image0) None None None) (catalog_at s0) o /\ owns o (PActive id) (sg_file (st_active s))) /\ st = s0)).
  { intros o [Ho Hw]. unfold snapshot. cbn. split; [auto|]. split; [auto|]. destruct Ho as [_ _ (_ & Hu & _)]. exact Hu. }
  intros st. apply triple_pre. intros o [Ho ->]. apply (triple_from _ _ _ (fun o => at_disk (dsk None None (Some image0) None None None) (catalog_at s0) o /\ owns o (PActive id) (sg_file (st_active s)))); [intros ? <-; exact Ho|]. clear o Ho.
  rewrite (ro_valid _ _ R), E1, E2, E3, E4, !Z.eqb_refl, bool_decide_eq_true_2 by reflexivity. cbn [negb orb].
  assert (Ej : rotation_journal s s0 = jrn) by (unfold rotation_journal, the_journal; now rewrite Hsum). rewrite Ej.
  eapply step_seq; [apply triple_keeps; [apply installRotationJournal_keeps; discriminate|apply installRotationJournal_phase]|]. intros x.
  eapply step_seq; [apply (sealActive_phase _ Hsum)|]. intros sealed. apply triple_pre. intros o [Ho ->].
  apply (triple_from _ _ _ (at_disk (dsk None (Some jbytes) None (Some image1) None None) (catalog_at s0))); [intros ? <-; exact Ho|]. clear o Ho.
  eapply step_seq; [apply createActive_phase|]. intros sg. apply triple_pre. intros o (Ho & Hh & Hs).
  apply (triple_from _ _ _ (at_disk (dsk None (Some jbytes) None (Some image1) None (Some image2)) (catalog_at s0))); [intros ? <-; exact Ho|]. clear o Ho.
  eapply step_seq; [apply install_phase|]. intros st. apply triple_ret. intros o [Ho ->]. split; [exact Ho|]. exists sg.
  change (rj_Old jrn) with (old_summary s0 nodes). rewrite (old_summary_eq s0 nodes R). auto.
Qed.

(** ** Recovery *)

Lemma openSealed_phase d u : phase d u -> d !! PSealed id = Some image1 ->
  triple True (at_disk d u) (openSealed (headerFor s0 id) (old_ref s0 nodes)) (fun sg o => at_disk d u o /\ sg_summary sg = old_summary s0 nodes) stopped.
Proof.
  intros Hp Hd. unfold openSealed. cbn [headerFor sh_SegmentID]. apply (step_open _ _ Hp _ _ image1); [exact Hd|]. intros f. apply (step_data _ _ Hp _ _ _ image1); [exact Hd|].
  apply (step_lift _ _ _ _ _ (check_sealed_ok s0 nodes R)). apply step_forget, triple_ret. auto.
Qed.

Lemma openActive_phase d u root : phase d u -> d !! PActive nid = Some image2 ->
  triple True (at_disk d u) (openActive (headerFor s0 nid) root) (fun r o => at_disk d u o /\ r.2 = false /\ sg_summary r.1 = empty_summary nid) stopped.
Proof.
  intros Hp Hd. unfold openActive. cbn [headerFor sh_SegmentID sh_SegmentSize]. apply (step_open _ _ Hp _ _ image2); [exact Hd|]. intros f. apply (step_data _ _ Hp _ _ _ image2); [exact Hd|].
  apply (step_lift _ _ _ _ _ (verify_new s0 nodes R)). rewrite (new_len s0 nodes R). change SegmentHeaderSize with 64. change SegmentFooterSize with 64.
  pose proof (ro_fits _ _ R). pose proof (len_nonneg (body nodes)). destruct (su_ids _ (ro_range _ _ R)) as ([S1 S2] & _). rewrite Z.mod_small by lia.
  replace (_ <? 64) with false by (symmetry; apply Z.ltb_ge; lia). replace (_ <? 64) with false by (symmetry; apply Z.ltb_ge; lia). cbn [orb].
  apply (step_lift _ _ _ (empty_summary nid, false)); [apply (scan_new s0 nodes R)|]. apply step_forget, triple_ret. cbn. auto.
Qed.

Local Abbreviation sealed_ref := (mkSegmentRef (ss_SegmentID (old_summary s0 nodes)) (ss_ValidEnd (old_summary s0 nodes))).

Lemma sealed_ref_eq : sealed_ref = old_ref s0 nodes.
Proof. rewrite (old_summary_eq s0 nodes R). reflexivity. Qed.

(** The footer is completed, whatever part of it was written. *)
Lemma finish_footer r f (A : Type) (k : mio A) Post : r = foot \/ (length r < 64)%nat ->
  triple True (at_disk (dsk None (Some jbytes) (Some image1) None None None) (catalog_at s0)) k Post stopped ->
  triple True (fun o => at_disk (dsk None (Some jbytes) (Some (image0 ++ r)) None None None) (catalog_at s0) o /\ owns o (PActive id) f)
    (run (if negb (len (image0 ++ r) =? (64 + len (body nodes) + 64) mod two32) then
            run fs_point ;; run fs_truncate f (64 + len (body nodes)) ;; fs_write f (64 + len (body nodes)) foot
          else
            let* footerBytes := io_lift (read_at (image0 ++ r) (64 + len (body nodes)) SegmentFooterSize) in
            match DecodeSegmentFooter footerBytes with
            | Err e => io_fail ([mapstore_ErrCorrupt] ++ e)
            | Ok fo => if negb (bool_decide (fo = footer (old_summary s0 nodes))) then io_fail [mapstore_ErrCorrupt] else io_ret tt
            end) ;; k) Post stopped.
Proof.
  intros Hr Hk. destruct (end_bounds s0 nodes R) as (B1 & B2 & _). destruct (footer_facts s0 nodes R) as [F1 F2]. pose proof (active_len s0 nodes R) as Hl.
  rewrite Z.mod_small by lia. rewrite len_app, Hl. pose proof (ph_sealing r Hr) as Hph.
  apply (step_seq _ (fun _ o => at_disk (dsk None (Some jbytes) (Some image1) None None None) (catalog_at s0) o)); [|intros ?; exact Hk].
  destruct (_ =? _) eqn:E; bool_norm; cbn [negb].
  - assert (r = foot) by (destruct Hr as [Hr|Hr]; [exact Hr|unfold len in *; lia]). subst r.
    apply (step_lift _ _ _ foot); [rewrite <- (app_nil_r foot) at 1; apply read_at_here; [now rewrite Hl|unfold len; rewrite F2; reflexivity]|].
    rewrite F1, bool_decide_eq_true_2 by reflexivity. apply step_forget, triple_ret. auto.
  - apply step_point_owns; [exact Hph|].
    apply (step_truncate _ _ Hph _ _ _ (image0 ++ r) _ (dsk None (Some jbytes) (Some image0) None None None)); [disk_at|rewrite len_app; pose proof (len_nonneg r); lia| |].
    { replace (Z.to_nat (64 + len (body nodes))) with (length image0) by (unfold len in *; lia). rewrite take_app_length. disk_eq. }
    eapply triple_weaken; [apply (disk_write True (dsk None (Some jbytes) (Some image0) None None None) (catalog_at s0) (PActive id) f image0); disk_at|auto| |].
    + intros x o [Ho _]. rewrite <- Hl, splice_end in Ho. replace (<[_ := _]> _) with (dsk None (Some jbytes) (Some image1) None None None) in Ho by disk_eq. exact Ho.
    + intros o [n Ho]. rewrite <- Hl, splice_end in Ho. replace (<[_ := _]> _) with (dsk None (Some jbytes) (Some (image0 ++ take n foot)) None None None) in Ho by disk_eq.
      exact (stopped_in _ _ _ (ph_sealing _ (take_footer n)) Ho).
Qed.

Lemma resumeSeal_sealing r root : r = foot \/ (length r < 64)%nat ->
  triple True (at_disk (dsk None (Some jbytes) (Some (image0 ++ r)) None None None) (catalog_at s0)) (resumeSeal (headerFor s0 id) root (old_summary s0 nodes))
    (fun sg => at_disk (dsk None (Some jbytes) None (Some image1) None None) (catalog_at s0)) stopped.
Proof.
  intros Hr. pose proof (ph_sealing r Hr) as Hph. destruct (end_bounds s0 nodes R) as (B1 & B2 & _). destruct (footer_facts s0 nodes R) as [_ F2]. pose proof (active_len s0 nodes R) as Hl.
  assert (Hrl : (length r <= 64)%nat) by (destruct Hr as [-> | Hr]; lia).
  unfold resumeSeal. rewrite sealed_ref_eq. cbn [headerFor sh_SegmentID]. apply step_test; [exact Hph|]. apply step_test; [exact Hph|].
  replace (dsk None (Some jbytes) (Some (image0 ++ r)) None None None !! PActive id) with (Some (image0 ++ r)) by disk_at.
  replace (dsk None (Some jbytes) (Some (image0 ++ r)) None None None !! PSealed id) with (@None (list Z)) by disk_at.
  rewrite bool_decide_eq_true_2 by eauto. rewrite bool_decide_eq_false_2 by (intros [? ?]; discriminate). cbn [andb negb].
  apply (step_open _ _ Hph _ _ (image0 ++ r)); [disk_at|]. intros f. apply (step_data _ _ Hph _ _ _ (image0 ++ r)); [disk_at|].
  apply (step_lift _ _ _ tt); [destruct (id_header s0 nodes R) as [X1 X2]; apply (verifyHeader_image _ nodes r X1 X2)|].
  assert (Ev : ss_ValidEnd (old_summary s0 nodes) = 64 + len (body nodes)) by (rewrite (old_summary_eq s0 nodes R); reflexivity). rewrite Ev. change SegmentFooterSize with 64 at 1.
  rewrite (Z.mod_small (64 + len (body nodes) + 64)) by lia. rewrite len_app at 1 2. rewrite Hl.
  replace (_ + len r <? _) with false by (symmetry; apply Z.ltb_ge; pose proof (len_nonneg r); lia).
  replace (_ <? _ + len r) with false by (symmetry; apply Z.ltb_ge; unfold len in *; lia). cbn [orb].
  rewrite (scan_active s0 nodes R r root), bool_decide_eq_true_2 by reflexivity. cbn [orb negb]. rewrite (footer_encoded s0 nodes R).
  apply (finish_footer r f _ _ _ Hr). assert (Hp1 : phase (dsk None (Some jbytes) (Some image1) None None None) (catalog_at s0)) by (apply ph_sealing; auto).
  do 4 (apply step_point; [exact Hp1|]). apply (step_rename _ _ Hp1 _ _ _ image1 (dsk None (Some jbytes) None (Some image1) None None)); [disk_at|disk_eq|apply ph_sealed|].
  do 2 (apply step_point; [apply ph_sealed|]). eapply triple_weaken; [apply (openSealed_phase _ _ (ph_sealed None)); disk_at|auto| |auto]. intros x o [Ho _]. exact Ho.
Qed.

Lemma resumeSeal_sealed d c n root : d = dsk None (Some jbytes) None (Some image1) c n -> phase d (catalog_at s0) ->
  triple True (at_disk d (catalog_at s0)) (resumeSeal (headerFor s0 id) root (old_summary s0 nodes)) (fun sg => at_disk d (catalog_at s0)) stopped.
Proof.
  intros -> Hph. unfold resumeSeal. rewrite sealed_ref_eq. cbn [headerFor sh_SegmentID]. apply step_test; [exact Hph|]. apply step_test; [exact Hph|].
  replace (dsk None (Some jbytes) None (Some image1) c n !! PActive id) with (@None (list Z)) by disk_at.
  replace (dsk None (Some jbytes) None (Some image1) c n !! PSealed id) with (Some image1) by disk_at.
  rewrite bool_decide_eq_false_2 by (intros [? ?]; discriminate). rewrite bool_decide_eq_true_2 by eauto. cbn [andb].
  eapply triple_weaken; [apply (openSealed_phase _ _ Hph); disk_at|auto| |auto]. intros x o [Ho _]. exact Ho.
Qed.

Lemma ensureNewActive_missing c : triple True (at_disk (dsk None (Some jbytes) None (Some image1) c None) (catalog_at s0)) (ensureNewActive (headerFor s0 nid))
  (fun sg => at_disk (dsk None (Some jbytes) None (Some image1) None (Some image2)) (catalog_at s0)) stopped.
Proof.
  unfold ensureNewActive. cbn [headerFor sh_SegmentID]. apply step_test; [apply ph_sealed|].
  replace (dsk None (Some jbytes) None (Some image1) c None !! PActive nid) with (@None (list Z)) by disk_at. rewrite bool_decide_eq_false_2 by (intros [? ?]; discriminate).
  apply (step_remove_any _ _ (ph_sealed c) _ _ (dsk None (Some jbytes) None (Some image1) None None)); [disk_eq|apply ph_sealed|].
  eapply triple_weaken; [apply createActive_phase|auto| |auto]. intros x o [Ho _]. exact Ho.
Qed.

Lemma ensureNewActive_found : triple True (at_disk (dsk None (Some jbytes) None (Some image1) None (Some image2)) (catalog_at s0)) (ensureNewActive (headerFor s0 nid))
  (fun sg => at_disk (dsk None (Some jbytes) None (Some image1) None (Some image2)) (catalog_at s0)) stopped.
Proof.
  unfold ensureNewActive. cbn [headerFor sh_SegmentID]. apply step_test; [apply ph_created|].
  replace (dsk None (Some jbytes) None (Some image1) None (Some image2) !! PActive nid) with (Some image2) by disk_at. rewrite bool_decide_eq_true_2 by eauto.
  eapply step_seq; [apply (openActive_phase _ _ 0 ph_created); disk_at|]. intros [sg rep]. apply triple_pre. intros o (Ho & Hr & Hs). cbn [fst snd] in *. subst rep. rewrite Hs. cbn [orb negb empty_summary ss_NodeCount Z.eqb].
  apply triple_ret. intros ? <-. exact Ho.
Qed.

(** The two states in which a recovery ends. *)
Definition unrotated (o : os mpath C) : Prop := at_disk (dsk None None (Some image0) None None None) (catalog_at s0) o.
Definition rotation_done (o : os mpath C) : Prop := at_disk (dsk None None None (Some image1) None (Some image2)) (catalog_at snap1) o.

Lemma load_missing d u t x : d = put PRotationTmp t x -> d !! PRotation = None -> phase d u -> phase (put PRotationTmp None x) u ->
  triple True (at_disk d u) loadRotationJournal (fun found o => at_disk (put PRotationTmp None x) u o /\ found = None) stopped.
Proof.
  intros -> Hn Hp Hq. unfold loadRotationJournal. apply step_test; [exact Hp|]. rewrite Hn, bool_decide_eq_false_2 by (intros [? ?]; discriminate). cbn [negb].
  apply (step_seq _ (fun _ => at_disk (put PRotationTmp None x) u)).
  - unfold removeRotationTemp. apply step_test; [exact Hp|]. destruct t as [b|].
    + rewrite bool_decide_eq_true_2 by (unfold put; rewrite lookup_partial_alter, decide_True by reflexivity; eauto). cbn [negb].
      apply step_point; [exact Hp|]. apply (step_remove _ _ Hp _ _ (put PRotationTmp None x)); [unfold put; rewrite lookup_partial_alter, decide_True by reflexivity; eauto| |exact Hq|].
      { apply map_eq. intros p. unfold put. rewrite lookup_delete, !lookup_partial_alter. case_decide; reflexivity. }
      apply step_point; [exact Hq|]. apply last_step, Hq.
    + rewrite bool_decide_eq_false_2 by (unfold put; rewrite lookup_partial_alter, decide_True by reflexivity; intros [? ?]; discriminate). apply triple_ret. auto.
  - intros ?. apply step_point; [exact Hq|]. apply triple_ret. auto.
Qed.

Lemma load_found d u : phase d u -> d !! PRotation = Some jbytes -> triple True (at_disk d u) loadRotationJournal (fun found o => at_disk d u o /\ found = Some jrn) stopped.
Proof.
  intros Hp Hd. unfold loadRotationJournal. apply step_test; [exact Hp|]. rewrite Hd, bool_decide_eq_true_2 by eauto. cbn [negb].
  apply (step_open _ _ Hp _ _ jbytes); [exact Hd|]. intros f. apply (step_data _ _ Hp _ _ _ jbytes); [exact Hd|].
  apply (step_lift _ _ _ jrn); [exact (journal_decoded s0 nodes R)|]. apply step_forget, triple_ret. auto.
Qed.

Lemma take_snapshot {A} d st (k : CatalogSnapshot -> mio A) Post : triple True (at_disk d (catalog_at st)) (k st) Post stopped -> triple True (at_disk d (catalog_at st)) (let* s := snapshot in k s) Post stopped.
Proof.
  intros Hk o Ho. specialize (Hk o Ho). unfold io_bind, snapshot. destruct Ho as [_ _ (_ & -> & _)]. exact Hk.
Qed.

(** Recovery from a state where the catalog is still the old one. *)
Lemma recover_uncommitted d d' : phase d (catalog_at s0) -> d !! PRotation = Some jbytes ->
  triple True (at_disk d (catalog_at s0)) (resumeSeal (headerFor s0 id) (cs_Root s0) (old_summary s0 nodes)) (fun _ => at_disk d' (catalog_at s0)) stopped -> phase d' (catalog_at s0) ->
  triple True (at_disk d' (catalog_at s0)) (ensureNewActive (headerFor s0 nid)) (fun _ => at_disk (dsk None (Some jbytes) None (Some image1) None (Some image2)) (catalog_at s0)) stopped ->
  triple True (at_disk d (catalog_at s0)) recoverRotation (fun st o => st = snap1 /\ rotation_done o) stopped.
Proof.
  intros Hp Hd Hseal Hp' Hnew. unfold recoverRotation. apply take_snapshot. eapply step_seq; [apply (load_found _ _ Hp Hd)|]. intros found. apply triple_pre. intros o [Ho ->].
  apply (triple_from _ _ _ (at_disk d (catalog_at s0))); [intros ? <-; exact Ho|]. clear o Ho.
  rewrite (not_committed s0 nodes R). cbn [the_journal rj_BaseGeneration rj_StoreID rj_SegmentSize rj_Old rj_NewActive]. rewrite Z.ltb_irrefl, bool_decide_eq_true_2, Z.eqb_refl by reflexivity. cbn [negb orb].
  assert (Ei : ss_SegmentID (old_summary s0 nodes) = id) by (rewrite (old_summary_eq s0 nodes R); reflexivity). rewrite Ei, !Z.eqb_refl. cbn [negb orb].
  eapply step_seq; [exact Hseal|]. intros sg. apply step_point; [exact Hp'|]. eapply step_seq; [exact Hnew|]. intros ac. apply step_point; [apply ph_created|].
  eapply step_seq; [apply install_phase|]. intros st. apply triple_pre. intros o [Ho ->].
  apply (triple_from _ _ _ (at_disk (dsk None (Some jbytes) None (Some image1) None (Some image2)) (catalog_at snap1))); [intros ? <-; exact Ho|]. clear o Ho.
  eapply step_seq; [apply removeRotationJournal_phase|]. intros ?. apply triple_ret. auto.
Qed.

Lemma recover_committed : triple True (at_disk (dsk None (Some jbytes) None (Some image1) None (Some image2)) (catalog_at snap1)) recoverRotation (fun st o => st = snap1 /\ rotation_done o) stopped.
Proof.
  unfold recoverRotation. apply take_snapshot. eapply step_seq; [apply (load_found _ _ ph_committed); disk_at|]. intros found. apply triple_pre. intros o [Ho ->].
  apply (triple_from _ _ _ (at_disk (dsk None (Some jbytes) None (Some image1) None (Some image2)) (catalog_at snap1))); [intros ? <-; exact Ho|]. clear o Ho.
  rewrite (committed s0 nodes R). cbn [s1 rotated the_journal cs_Generation cs_StoreID cs_SegmentSize rj_BaseGeneration rj_StoreID rj_SegmentSize]. replace (_ <? _) with false by (symmetry; apply Z.ltb_ge; lia). rewrite bool_decide_eq_true_2, Z.eqb_refl by reflexivity. cbn [negb orb].
  apply (step_seq _ (fun _ => at_disk (dsk None (Some jbytes) None (Some image1) None (Some image2)) (catalog_at snap1))).
  - unfold verifyCommittedRotationFiles. cbn [rj_Old rj_NewActive the_journal]. rewrite sealed_ref_eq. assert (Ei : ss_SegmentID (old_summary s0 nodes) = id) by (rewrite (old_summary_eq s0 nodes R); reflexivity). rewrite Ei.
    change (headerFor snap1 id) with (headerFor s0 id). change (headerFor snap1 nid) with (headerFor s0 nid).
    eapply step_seq; [apply (openSealed_phase _ _ ph_committed); disk_at|]. intros sg. apply (triple_from _ _ _ (at_disk (dsk None (Some jbytes) None (Some image1) None (Some image2)) (catalog_at snap1))); [tauto|].
    apply step_point; [apply ph_committed|]. eapply step_seq; [apply (openActive_phase _ _ (cs_Root snap1) ph_committed); disk_at|]. intros [ac rp].
    apply (triple_from _ _ _ (at_disk (dsk None (Some jbytes) None (Some image1) None (Some image2)) (catalog_at snap1))); [tauto|]. apply last_step, ph_committed.
  - intros ?. eapply step_seq; [apply removeRotationJournal_phase|]. intros ?. apply triple_ret. auto.
Qed.

Lemma recoverRotation_phase d u : phase d u ->
  triple True (at_disk d u) recoverRotation (fun st o => st = s0 /\ unrotated o /\ d !! PRotation = None \/ st = snap1 /\ rotation_done o) stopped.
Proof.
  assert (W : forall d u, triple True (at_disk d u) recoverRotation (fun st o => st = snap1 /\ rotation_done o) stopped ->
    triple True (at_disk d u) recoverRotation (fun st o => st = s0 /\ unrotated o /\ d !! PRotation = None \/ st = snap1 /\ rotation_done o) stopped).
  { intros d' u' HW. eapply triple_weaken; [exact HW|auto| |auto]. intros x o Ho. auto. }
  intros [t|r Hr|c| | |].
  - unfold recoverRotation. apply take_snapshot. eapply step_seq; [apply (load_missing _ _ t (put PRotation None (put (PActive id) (Some image0) (put (PSealed id) None (put (PCreating nid) None (put (PActive nid) None d0)))))); [reflexivity|disk_at|apply ph_before|apply (ph_before None)]|].
    intros found. apply triple_pre. intros o [Ho ->]. apply triple_ret. intros ? <-. left. split; [reflexivity|]. split; [exact Ho|disk_at].
  - apply W, (recover_uncommitted _ (dsk None (Some jbytes) None (Some image1) None None) (ph_sealing r Hr)); [disk_at|apply (resumeSeal_sealing r _ Hr)|apply ph_sealed|apply ensureNewActive_missing].
  - apply W, (recover_uncommitted _ (dsk None (Some jbytes) None (Some image1) c None) (ph_sealed c)); [disk_at|apply (resumeSeal_sealed _ c None); [reflexivity|apply ph_sealed]|apply ph_sealed|apply ensureNewActive_missing].
  - apply W, (recover_uncommitted _ (dsk None (Some jbytes) None (Some image1) None (Some image2)) ph_created); [disk_at|apply (resumeSeal_sealed _ None (Some image2)); [reflexivity|apply ph_created]|apply ph_created|apply ensureNewActive_found].
  - apply W, recover_committed.
  - apply W. unfold recoverRotation. apply take_snapshot. eapply step_seq; [apply (load_missing _ _ None (put PRotation None (put (PActive id) None (put (PSealed id) (Some image1) (put (PCreating nid) None (put (PActive nid) (Some image2) d0)))))); [reflexivity|disk_at|apply ph_done|apply ph_done]|].
    intros found. apply triple_pre. intros o [Ho ->]. apply triple_ret. intros ? <-. auto.
Qed.

(** A new process on the files that a stopped one has left. *)
Definition restart (o : os mpath C) (faults : list fault) : os mpath C := mkOs (os_names o) (os_data o) (os_next o) faults (cp_Reload (os_user o)).

Lemma settled_stopped o : unrotated o \/ rotation_done o -> stopped o.
Proof. intros [Ho|Ho]; [exact (stopped_in _ _ _ (ph_before None) Ho)|exact (stopped_in _ _ _ ph_done Ho)]. Qed.

Lemma restart_at d o faults (u u' : C -> Prop) : at_disk d u o -> (forall c, u c -> u' (cp_Reload c)) -> at_disk d u' (restart o faults).
Proof. intros [[W1 W2] Hd Hu] Hr. constructor; [constructor; assumption|exact Hd|apply Hr, Hu]. Qed.

Lemma reload_at s c : cp_ok c -> cp_Snapshot (cp_Reload c) = s -> (s = s0 -> cp_room c /\ cp_Snapshot c = s0) -> catalog_at s (cp_Reload c).
Proof.
  intros Hc Hs Hr. destruct (cp_reload c Hc) as (H1 & H2 & H3). split; [exact H1|]. split; [congruence|]. split; [congruence|]. intros E. destruct (Hr E) as [Hm Hc0]. apply H3; congruence.
Qed.

Lemma phase_catalog d u : phase d u -> exists s, u = catalog_at s.
Proof. intros []; eauto. Qed.

Lemma restart_phase o faults : stopped o -> in_phase (restart o faults).
Proof.
  intros [(d & u & Hp & Ho)|Ho].
  - exists d, u. split; [exact Hp|]. apply (restart_at _ _ _ u u Ho). destruct (phase_catalog d u Hp) as [s ->]. intros c (H1 & H2 & H3 & H4). apply reload_at; auto. intros E. rewrite <- E. auto.
  - pose proof Ho as [_ _ (H1 & H2 & H4 & [H3|H3])].
    + eexists _, _. split; [exact ph_created|]. destruct Ho as [[W1 W2] Hd _]. constructor; [constructor; assumption|exact Hd|]. apply reload_at; auto.
    + eexists _, _. split; [exact ph_committed|]. destruct Ho as [[W1 W2] Hd _]. constructor; [constructor; assumption|exact Hd|]. apply reload_at; auto.
Qed.

(** A run of the recovery, stopped at one of its calls or not. *)
Lemma recover_stopped o : in_phase o -> stopped (recoverRotation o).1.
Proof.
  intros (d & u & Hp & Ho). pose proof (recoverRotation_phase d u Hp o Ho) as [_ H]. destruct (recoverRotation o) as [o' [st|e]]; cbn [fst snd] in *; [|apply H].
  apply settled_stopped. destruct H as [(_ & H & _)|[_ H]]; auto.
Qed.

Lemma recover_succeeds o : in_phase o -> os_faults o = [] -> exists o' st, recoverRotation o = (o', Ok st) /\ (st = s0 /\ unrotated o' \/ st = snap1 /\ rotation_done o').
Proof.
  intros (d & u & Hp & Ho) Hf. pose proof (recoverRotation_phase d u Hp o Ho) as [_ H]. destruct (recoverRotation o) as [o' [st|e]]; cbn [fst snd] in *.
  - exists o', st. split; [reflexivity|]. destruct H as [(H1 & H2 & _)|[H1 H2]]; auto.
  - destruct H as [_ H]. now destruct (H I Hf).
Qed.

Definition due (s : Store) (o : os mpath C) : Prop :=
  unrotated o /\ owns o (PActive id) (sg_file (st_active s)) /\ sg_summary (st_active s) = old_summary s0 nodes /\
  cs_StoreID (st_state s) = cs_StoreID s0 /\ cs_SegmentSize (st_state s) = cs_SegmentSize s0 /\ cs_ActiveSegment (st_state s) = id /\ cs_NextSegment (st_state s) = nid.

Lemma rotate_phase s o : due s o ->
  match rotate s o with
  | (o', (s', None)) => rotation_done o' /\ st_state s' = snap1
  | (o', (s', Some e)) => stopped o' /\ os_faults o <> []
  end.
Proof.
  intros (Ho & Hw & H1 & H2 & H3 & H4 & H5). unfold rotate. pose proof (rotate_files_phase s H1 H2 H3 H4 H5 o (conj Ho Hw)) as Hr.
  destruct (rotate_files s o) as [o1 [s'|e]]; cbn [fst snd] in Hr; [|destruct Hr as (_ & Hr1 & Hr2); auto].
  destruct Hr as (Hf & Hd & sg & -> & _). pose proof (removeRotationJournal_phase o1 Hd) as Hj. destruct (removeRotationJournal o1) as [o2 [x|e]]; cbn [fst snd] in Hj; destruct Hj as [_ Hj]; [auto|].
  destruct Hj as [Hj1 Hj2]. split; [exact Hj1|]. intros E. exact (Hj2 I (Hf E)).
Qed.

(** The nodes of the old segment, as a scan of its file finds them. *)
Definition nodes_on_disk (o : os mpath C) : Prop := exists data,
  (disk o !! PActive id = Some data \/ disk o !! PSealed id = Some data) /\
  scanNodesWithVisitor data (headerFor s0 id) (64 + len (body nodes)) 0 = Ok (old_summary s0 nodes, false, visits_from 64 nodes).

Lemma phase_nodes o : in_phase o -> nodes_on_disk o.
Proof.
  assert (Hs : forall r, scanNodesWithVisitor (image0 ++ r) (headerFor s0 id) (64 + len (body nodes)) 0 = Ok (old_summary s0 nodes, false, visits_from 64 nodes)).
  { intros r. destruct (id_header s0 nodes R) as [X1 X2]. apply (scan_complete _ X1 X2 nodes r 0 _ (ro_nodes _ _ R)); [apply (nodes_count s0 nodes R)|reflexivity|apply (ro_fits _ _ R)]. }
  intros (d & u & Hp & [_ <- _]). unfold nodes_on_disk. destruct Hp as [t|r Hr|c| | |]; try (exists image1; split; [right; disk_at|apply Hs]).
  - exists image0. split; [left; disk_at|]. rewrite <- (app_nil_r image0). apply Hs.
  - exists (image0 ++ r). split; [left; disk_at|apply Hs].
Qed.
End Phases.

(** ** The theorem *)

Section Safety.
Context {C : Type} `{!CatalogPort C} `{!CatalogLaws C}.

(** Processes that open the directory one after the other, each with its own faults. *)
Definition reopen (runs : list (list fault)) (o : os mpath C) : os mpath C :=
  fold_left (fun o faults => (recoverRotation (restart o faults)).1) runs o.

Lemma reopen_stopped s0 nodes d0 runs : rotatable s0 nodes -> forall o, stopped s0 nodes d0 o -> stopped s0 nodes d0 (reopen runs o).
Proof. intros R. induction runs as [|fs runs IH]; intros o Ho; [exact Ho|]. exact (IH _ (recover_stopped s0 nodes R d0 _ (restart_phase s0 nodes d0 o fs Ho))). Qed.

(** C7: rotation is crash-safe.  A rotation of a store with nodes [nodes] in its
    active segment, with faults at any of its calls (writes cut short, renames and
    catalog installs that took effect or not), leaves files from which any number
    of recoveries that are again stopped anywhere, followed by one that is not,
    ends either with nothing rotated or with the rotation done: the catalog and
    the files agree, and the old segment still has exactly its nodes.  Without
    faults the rotation itself is done. *)
Theorem rotation_crash_safe s0 nodes d0 s (o : os mpath C) runs :
  rotatable s0 nodes -> due s0 nodes d0 s o ->
  (os_faults o = [] -> (rotate s o).2.2 = None) /\
  ((rotate s o).2.2 = None -> rotation_done s0 nodes d0 (rotate s o).1 /\ st_state (rotate s o).2.1 = s1 s0 nodes) /\
  exists o' st, recoverRotation (restart (reopen runs (rotate s o).1) []) = (o', Ok st) /\
    (st = s0 /\ unrotated s0 nodes d0 o' \/ st = s1 s0 nodes /\ rotation_done s0 nodes d0 o') /\
    cp_Snapshot (os_user o') = st /\ snapshot_valid st = true /\ nodes_on_disk s0 nodes o'.
Proof.
  intros R Hdue. pose proof (rotate_phase s0 nodes R d0 s o Hdue) as Hr.
  assert (Hst : stopped s0 nodes d0 (rotate s o).1).
  { destruct (rotate s o) as [o1 [s' [e|]]]; cbn [fst]; [apply Hr|]. apply settled_stopped. right. apply Hr. }
  split; [|split].
  - intros Hf. destruct (rotate s o) as [o1 [s' [e|]]]; [|reflexivity]. now destruct Hr.
  - destruct (rotate s o) as [o1 [s' [e|]]]; [discriminate|auto].
  - pose proof (restart_phase s0 nodes d0 _ [] (reopen_stopped s0 nodes d0 runs R _ Hst)) as Hs2. destruct (recover_succeeds s0 nodes R d0 _ Hs2 eq_refl) as (o' & st & E & Hcase). exists o', st. split; [exact E|]. split; [exact Hcase|].
    split; [|split; [|apply (phase_nodes s0 nodes R d0); destruct Hcase as [[_ Hx]|[_ Hx]]; eexists _, _; (split; [|exact Hx]); [apply (ph_before s0 nodes d0 None)|apply ph_done]]].
    + destruct Hcase as [(-> & [_ _ (_ & Hu & _)])|(-> & [_ _ (_ & Hu & _)])]; exact Hu.
    + destruct Hcase as [(-> & _)|(-> & _)]; [apply (ro_valid _ _ R)|apply (s1_valid s0 nodes R)].
Qed.
End Safety.
