(* ===== verification/Catalog.v ===== *)
(** * The store catalog: manifest and transitions

    Models [internal/storecatalog/types.go], [Validate] and its helpers in
    [codec.go], the transitions of [catalog.go] and the snapshots that the record
    log and the mapping store take ([recordlog/catalog.go]).  A transition is a
    function from the current manifest to the next one or an error; writing the
    next one to disk is modelled in [CatalogFiles]. *)
From S2P Require Import Prelude Bytes Addr RecordFormat RecordCodec MapNode MapSegment.

(** ** The manifest *)

Record HardLimits := mkHardLimits
  { hl_SegmentSize : Z; hl_MaxValueSize : Z; hl_MaxBatchBytes : Z; hl_MaxBatchMutations : Z; hl_MaxBatchConditions : Z;
    hl_MaxOpenBatches : Z; hl_MaxRecordLogPayload : Z; hl_IDReserveSize : Z; hl_BatchIDReserveSize : Z }.

(** [recordlog.SegmentSummary] *)
Record DataSegmentSummary := mkData { ds_SegmentID : Z; ds_ValidEnd : Z; ds_RecordCount : Z; ds_FirstAddr : Z; ds_LastAddr : Z }.
Record MapSegmentSummary := mkMap { ms_SegmentID : Z; ms_ValidEnd : Z }.
Record SegmentStats := mkStats { sst_SegmentID : Z; sst_LiveBytes : Z; sst_LiveRecords : Z }.

Record Manifest := mkManifest
  { mf_Generation : Z; mf_StoreUUID : list Z; mf_HardLimits : HardLimits;
    mf_RecordLogID : list Z; mf_ActiveData : Z; mf_NextData : Z; mf_CompactionFloor : Z; mf_SealedData : list DataSegmentSummary;
    mf_ActiveMap : Z; mf_NextMap : Z; mf_SealedMap : list MapSegmentSummary; mf_MappingRoot : Z; mf_MappingEntryCount : Z;
    mf_CoveredCommitSeq : Z; mf_ReplayStart : LogPos; mf_ReservedIDHigh : Z; mf_ReservedBatchIDHigh : Z;
    mf_IssuedBatchIDHighAtCut : Z; mf_OpenBatchIDsAtCut : list Z;
    mf_StatsCoveredCommitSeq : Z; mf_SegmentStats : list SegmentStats }.

#[export] Instance HardLimits_eq_dec : EqDecision HardLimits.
Proof. solve_decision. Defined.
#[export] Instance DataSegmentSummary_eq_dec : EqDecision DataSegmentSummary.
Proof. solve_decision. Defined.
#[export] Instance MapSegmentSummary_eq_dec : EqDecision MapSegmentSummary.
Proof. solve_decision. Defined.
#[export] Instance SegmentStats_eq_dec : EqDecision SegmentStats.
Proof. solve_decision. Defined.
#[export] Instance Manifest_eq_dec : EqDecision Manifest.
Proof. solve_decision. Defined.

(** Assignments to the groups of fields that the transitions change. *)
Definition set_generation (m : Manifest) (g : Z) : Manifest :=
  mkManifest g (mf_StoreUUID m) (mf_HardLimits m) (mf_RecordLogID m) (mf_ActiveData m) (mf_NextData m) (mf_CompactionFloor m) (mf_SealedData m)
    (mf_ActiveMap m) (mf_NextMap m) (mf_SealedMap m) (mf_MappingRoot m) (mf_MappingEntryCount m) (mf_CoveredCommitSeq m) (mf_ReplayStart m)
    (mf_ReservedIDHigh m) (mf_ReservedBatchIDHigh m) (mf_IssuedBatchIDHighAtCut m) (mf_OpenBatchIDsAtCut m) (mf_StatsCoveredCommitSeq m) (mf_SegmentStats m).
Definition set_data (m : Manifest) (active next floor : Z) (sealed : list DataSegmentSummary) : Manifest :=
  mkManifest (mf_Generation m) (mf_StoreUUID m) (mf_HardLimits m) (mf_RecordLogID m) active next floor sealed
    (mf_ActiveMap m) (mf_NextMap m) (mf_SealedMap m) (mf_MappingRoot m) (mf_MappingEntryCount m) (mf_CoveredCommitSeq m) (mf_ReplayStart m)
    (mf_ReservedIDHigh m) (mf_ReservedBatchIDHigh m) (mf_IssuedBatchIDHighAtCut m) (mf_OpenBatchIDsAtCut m) (mf_StatsCoveredCommitSeq m) (mf_SegmentStats m).
Definition set_map (m : Manifest) (active next : Z) (sealed : list MapSegmentSummary) (root : Z) : Manifest :=
  mkManifest (mf_Generation m) (mf_StoreUUID m) (mf_HardLimits m) (mf_RecordLogID m) (mf_ActiveData m) (mf_NextData m) (mf_CompactionFloor m) (mf_SealedData m)
    active next sealed root (mf_MappingEntryCount m) (mf_CoveredCommitSeq m) (mf_ReplayStart m)
    (mf_ReservedIDHigh m) (mf_ReservedBatchIDHigh m) (mf_IssuedBatchIDHighAtCut m) (mf_OpenBatchIDsAtCut m) (mf_StatsCoveredCommitSeq m) (mf_SegmentStats m).
Definition set_stats (m : Manifest) (stats : list SegmentStats) : Manifest :=
  mkManifest (mf_Generation m) (mf_StoreUUID m) (mf_HardLimits m) (mf_RecordLogID m) (mf_ActiveData m) (mf_NextData m) (mf_CompactionFloor m) (mf_SealedData m)
    (mf_ActiveMap m) (mf_NextMap m) (mf_SealedMap m) (mf_MappingRoot m) (mf_MappingEntryCount m) (mf_CoveredCommitSeq m) (mf_ReplayStart m)
    (mf_ReservedIDHigh m) (mf_ReservedBatchIDHigh m) (mf_IssuedBatchIDHighAtCut m) (mf_OpenBatchIDsAtCut m) (mf_StatsCoveredCommitSeq m) stats.

(** ** Validation *)

Definition maxManifestPayload : Z := 67108864.

Definition validateHardLimits (h : HardLimits) : bool :=
  forallb (fun v => negb (v =? 0))
    [hl_SegmentSize h; hl_MaxValueSize h; hl_MaxBatchBytes h; hl_MaxBatchMutations h; hl_MaxBatchConditions h; hl_MaxOpenBatches h; hl_MaxRecordLogPayload h; hl_IDReserveSize h; hl_BatchIDReserveSize h] &&
  negb ((hl_SegmentSize h <=? Addr.SegmentHeaderSize + RecordHeaderSize + Addr.SegmentFooterSize) ||
        (hl_SegmentSize h <? MapSegment.SegmentHeaderSize + DenseNodeSize + MapSegment.SegmentFooterSize) || (MaxUint32 <? hl_SegmentSize h) ||
        negb (Z.land (hl_SegmentSize h) (RecordAlignment - 1) =? 0) ||
        (MaxUint32 <? hl_MaxBatchMutations h) || (MaxUint32 <? hl_MaxBatchConditions h) || (MaxUint32 <? hl_MaxOpenBatches h) || (MaxUint32 <? hl_MaxRecordLogPayload h)) &&
  negb (hl_MaxBatchBytes h <? hl_MaxValueSize h) &&
  match PutPayloadSize (hl_MaxValueSize h), DescriptorSize (hl_MaxBatchMutations h), PhysicalRecordSize (hl_MaxRecordLogPayload h) with
  | Ok putMax, Ok descriptorMax, Ok physical =>
      negb (MaxUint32 <? CommitGroupHeadSize + descriptorMax) &&
      negb ((hl_MaxRecordLogPayload h <? putMax) || (hl_MaxRecordLogPayload h <? CommitGroupHeadSize + descriptorMax)) &&
      (physical <=? hl_SegmentSize h - Addr.SegmentHeaderSize - Addr.SegmentFooterSize)
  | _, _, _ => false
  end.

(** [regular || compacted] *)
Definition data_id_ok (active floor id : Z) : bool :=
  (id <? active) || (IsCompactionSegment id && negb (floor =? 0) && (floor <? id)).

(** The conditions of [validateDataSet] on one summary after its id. *)
Definition data_summary_ok (segmentSize : Z) (s : DataSegmentSummary) : bool :=
  negb ((ds_ValidEnd s <? Addr.SegmentHeaderSize) || ((segmentSize - Addr.SegmentFooterSize) mod two64 <? ds_ValidEnd s) || negb (Z.land (ds_ValidEnd s) (RecordAlignment - 1) =? 0)) &&
  (if ds_RecordCount s =? 0 then (ds_ValidEnd s =? Addr.SegmentHeaderSize) && (ds_FirstAddr s =? 0) && (ds_LastAddr s =? 0)
   else VAddr_Valid (ds_FirstAddr s) && VAddr_Valid (ds_LastAddr s) && (SegmentID (ds_FirstAddr s) =? ds_SegmentID s) && (SegmentID (ds_LastAddr s) =? ds_SegmentID s) &&
        (ds_FirstAddr s <=? ds_LastAddr s) && (Offset (ds_LastAddr s) <? ds_ValidEnd s)).

Fixpoint data_set_ok (active floor segmentSize previous : Z) (segments : list DataSegmentSummary) : bool :=
  match segments with
  | [] => true
  | s :: rest =>
      negb ((ds_SegmentID s =? 0) || negb (data_id_ok active floor (ds_SegmentID s)) || (ds_SegmentID s =? active) || (ds_SegmentID s <=? previous)) &&
      data_summary_ok segmentSize s && data_set_ok active floor segmentSize (ds_SegmentID s) rest
  end.

Definition find_data (segments : list DataSegmentSummary) (id : Z) : option DataSegmentSummary := List.find (fun s => ds_SegmentID s =? id) segments.

Definition validateDataSet (m : Manifest) : bool :=
  negb ((CompactionSegmentBase <=? mf_ActiveData m) || negb (mf_NextData m =? (mf_ActiveData m + 1) mod two32) ||
        (negb (mf_CompactionFloor m =? 0) && (mf_CompactionFloor m <? CompactionSegmentBase - 1))) &&
  data_set_ok (mf_ActiveData m) (mf_CompactionFloor m) (hl_SegmentSize (mf_HardLimits m)) 0 (mf_SealedData m) &&
  (if pos_SegmentID (mf_ReplayStart m) =? mf_ActiveData m then pos_Offset (mf_ReplayStart m) <=? (hl_SegmentSize (mf_HardLimits m) - Addr.SegmentFooterSize) mod two64
   else match find_data (mf_SealedData m) (pos_SegmentID (mf_ReplayStart m)) with
        | Some s => pos_Offset (mf_ReplayStart m) <=? ds_ValidEnd s
        | None => false
        end).

Fixpoint map_set_ok (active next segmentSize previous : Z) (segments : list MapSegmentSummary) : bool :=
  match segments with
  | [] => true
  | s :: rest =>
      negb ((ms_SegmentID s =? 0) || (active <=? ms_SegmentID s) || (next <=? ms_SegmentID s) || (ms_SegmentID s <=? previous) ||
            (ms_ValidEnd s <? MapSegment.SegmentHeaderSize) || ((segmentSize - MapSegment.SegmentFooterSize) mod two64 <? ms_ValidEnd s) || negb (Z.land (ms_ValidEnd s) (Alignment - 1) =? 0)) &&
      map_set_ok active next segmentSize (ms_SegmentID s) rest
  end.

Definition validateMapSet (m : Manifest) : bool :=
  map_set_ok (mf_ActiveMap m) (mf_NextMap m) (hl_SegmentSize (mf_HardLimits m)) 0 (mf_SealedMap m) &&
  (if mf_MappingRoot m =? 0 then true
   else MapAddr_Valid (mf_MappingRoot m) &&
        (if MapAddr_SegmentID (mf_MappingRoot m) =? mf_ActiveMap m then MapAddr_Offset (mf_MappingRoot m) <? (hl_SegmentSize (mf_HardLimits m) - MapSegment.SegmentFooterSize) mod two64
         else match List.find (fun s => ms_SegmentID s =? MapAddr_SegmentID (mf_MappingRoot m)) (mf_SealedMap m) with
              | Some s => MapAddr_Offset (mf_MappingRoot m) <? ms_ValidEnd s
              | None => false
              end)).

Fixpoint strictBatchIDs (high previous : Z) (values : list Z) : bool :=
  match values with
  | [] => true
  | v :: rest => negb ((v =? 0) || (high <=? v) || (v <=? previous)) && strictBatchIDs high v rest
  end.

(** The loop of [Validate] over the statistics; the result is [liveRecords]. *)
Definition stat_ok (m : Manifest) (st : SegmentStats) : bool :=
  if sst_SegmentID st =? mf_ActiveData m then
    negb (negb (pos_SegmentID (mf_ReplayStart m) =? sst_SegmentID st) || (pos_Offset (mf_ReplayStart m) <? Addr.SegmentHeaderSize) ||
          (pos_Offset (mf_ReplayStart m) - Addr.SegmentHeaderSize <? sst_LiveBytes st) || (sst_LiveBytes st / RecordHeaderSize <? sst_LiveRecords st))
  else match find_data (mf_SealedData m) (sst_SegmentID st) with
       | None => false
       | Some s => negb ((ds_RecordCount s <? sst_LiveRecords st) || ((ds_ValidEnd s - Addr.SegmentHeaderSize) mod two32 <? sst_LiveBytes st))
       end.

Fixpoint stats_live (m : Manifest) (previous liveRecords : Z) (stats : list SegmentStats) : option Z :=
  match stats with
  | [] => Some liveRecords
  | st :: rest =>
      if (sst_SegmentID st =? 0) || (sst_SegmentID st <=? previous) then None
      else if negb (Bool.eqb (sst_LiveBytes st =? 0) (sst_LiveRecords st =? 0)) || (MaxUint64 - sst_LiveRecords st <? liveRecords) then None
      else if stat_ok m st then stats_live m (sst_SegmentID st) (liveRecords + sst_LiveRecords st) rest else None
  end.

(** [Validate(m) == nil]; every failure is [ErrInvalid]. *)
Definition manifest_ok (m : Manifest) : bool :=
  negb ((mf_Generation m =? 0) || all_zero (mf_StoreUUID m) || all_zero (mf_RecordLogID m) || (mf_ActiveData m =? 0) || (mf_NextData m <=? mf_ActiveData m) ||
        (mf_ActiveMap m =? 0) || (mf_NextMap m <=? mf_ActiveMap m) || negb (LogPos_Valid (mf_ReplayStart m))) &&
  validateHardLimits (mf_HardLimits m) &&
  negb ((maxManifestPayload / 32 <? len (mf_SealedData m)) || (maxManifestPayload / 8 <? len (mf_SealedMap m)) ||
        (maxManifestPayload / 8 <? len (mf_OpenBatchIDsAtCut m)) || (maxManifestPayload / 24 <? len (mf_SegmentStats m))) &&
  validateDataSet m && validateMapSet m &&
  negb ((mf_ReservedIDHigh m =? 0) || (mf_ReservedBatchIDHigh m =? 0) || (mf_IssuedBatchIDHighAtCut m =? 0) || (mf_ReservedBatchIDHigh m <? mf_IssuedBatchIDHighAtCut m) ||
        (hl_MaxOpenBatches (mf_HardLimits m) <? len (mf_OpenBatchIDsAtCut m)) || negb (strictBatchIDs (mf_IssuedBatchIDHighAtCut m) 0 (mf_OpenBatchIDsAtCut m)) ||
        negb (mf_StatsCoveredCommitSeq m =? mf_CoveredCommitSeq m) || negb (Bool.eqb (mf_MappingRoot m =? 0) (mf_MappingEntryCount m =? 0))) &&
  match stats_live m 0 0 (mf_SegmentStats m) with Some live => live =? mf_MappingEntryCount m | None => false end.

Definition Validate (m : Manifest) : res unit := raise [storecatalog_ErrInvalid] when negb (manifest_ok m) ;; Ok tt.

(** ** Transitions *)

(** [sort.Slice] by segment id; the sort of a list with distinct ids is unique,
    and a list with equal ids fails [Validate]. *)
Fixpoint insert_data (s : DataSegmentSummary) (l : list DataSegmentSummary) : list DataSegmentSummary :=
  match l with
  | [] => [s]
  | x :: rest => if ds_SegmentID s <? ds_SegmentID x then s :: l else x :: insert_data s rest
  end.
Definition sortDataSegments (l : list DataSegmentSummary) : list DataSegmentSummary := foldr insert_data [] l.

(** The checks and the change of [install], before the manifest is written. *)
Definition install (current : Manifest) (expect : Z) (mutate : Manifest -> res Manifest) : res Manifest :=
  raise [storecatalog_ErrConflict] when negb (expect =? mf_Generation current) ;;
  raise [storecatalog_ErrInvalid] when mf_Generation current =? MaxUint64 ;;
  let! next := mutate (set_generation current (mf_Generation current + 1)) in
  let! _ := Validate next in Ok next.

Record DataRotation := mkDataRotation { dr_SealedOld : DataSegmentSummary; dr_NewActive : Z; dr_NextID : Z }.

Definition apply_data_rotation (update : DataRotation) (next : Manifest) : res Manifest :=
  raise [storecatalog_ErrInvalid] when
    negb (ds_SegmentID (dr_SealedOld update) =? mf_ActiveData next) || negb (dr_NewActive update =? mf_NextData next) ||
    negb (dr_NextID update =? (dr_NewActive update + 1) mod two32) || (dr_NewActive update =? MaxUint32) ;;
  Ok (set_data next (dr_NewActive update) (dr_NextID update) (mf_CompactionFloor next) (sortDataSegments (mf_SealedData next ++ [dr_SealedOld update]))).

Definition InstallDataRotation (current : Manifest) (expect : Z) (update : DataRotation) : res Manifest :=
  install current expect (apply_data_rotation update).

Definition ReserveCompactionSegments (current : Manifest) (expect count : Z) : res (Manifest * list Z) :=
  raise [storecatalog_ErrInvalid] when count =? 0 ;;
  raise [storecatalog_ErrConflict] when negb (expect =? mf_Generation current) ;;
  let top := if mf_CompactionFloor current =? 0 then MaxUint32 else mf_CompactionFloor current in
  raise [storecatalog_ErrInvalid] when
    (top <? CompactionSegmentBase) || (top - CompactionSegmentBase + 1 <? count) || (mf_Generation current =? MaxUint64) ;;
  let first := top - count + 1 in
  let ids := map (fun i => first + Z.of_nat i) (seq 0 (Z.to_nat count)) in
  let next := set_generation current (mf_Generation current + 1) in
  let next := set_data next (mf_ActiveData next) (mf_NextData next) (first - 1) (mf_SealedData next) in
  let! _ := Validate next in Ok (next, ids).

(** The loop of [InstallCompactionOutputs] over the outputs. *)
Fixpoint add_outputs (floor : Z) (sealed outputs : list DataSegmentSummary) : res (list DataSegmentSummary) :=
  match outputs with
  | [] => Ok sealed
  | output :: rest =>
      raise [storecatalog_ErrInvalid] when negb (IsCompactionSegment (ds_SegmentID output)) || (ds_SegmentID output <=? floor) ;;
      raise [storecatalog_ErrInvalid] when existsb (fun s => ds_SegmentID s =? ds_SegmentID output) sealed ;;
      add_outputs floor (sealed ++ [output]) rest
  end.

Definition apply_outputs (outputs : list DataSegmentSummary) (next : Manifest) : res Manifest :=
  raise [storecatalog_ErrInvalid] when (len outputs =? 0) || (mf_CompactionFloor next =? 0) ;;
  let! sealed := add_outputs (mf_CompactionFloor next) (mf_SealedData next) outputs in
  Ok (set_data next (mf_ActiveData next) (mf_NextData next) (mf_CompactionFloor next) (sortDataSegments sealed)).

Definition InstallCompactionOutputs (current : Manifest) (expect : Z) (outputs : list DataSegmentSummary) : res Manifest :=
  install current expect (apply_outputs outputs).

Record MapRotation := mkMapRotation { mr_SealedOld : MapSegmentSummary; mr_NewActive : Z; mr_NextID : Z }.

Definition apply_map_rotation (update : MapRotation) (next : Manifest) : res Manifest :=
  raise [storecatalog_ErrInvalid] when
    negb (ms_SegmentID (mr_SealedOld update) =? mf_ActiveMap next) || negb (mr_NewActive update =? mf_NextMap next) ||
    negb (mr_NextID update =? (mr_NewActive update + 1) mod two32) || (mr_NewActive update =? MaxUint32) ;;
  Ok (set_map next (mr_NewActive update) (mr_NextID update) (mf_SealedMap next ++ [mr_SealedOld update]) (mf_MappingRoot next)).

Definition InstallMapRotation (current : Manifest) (expect : Z) (update : MapRotation) : res Manifest :=
  install current expect (apply_map_rotation update).

(** *** Rebasing over data rotations *)

(** [sort.Search(n, f)] *)
Fixpoint search_loop (fuel : nat) (f : nat -> bool) (i j : nat) : nat :=
  match fuel with
  | O => i
  | S fuel' => if (i <? j)%nat then let h := Nat.div2 (i + j) in if f h then search_loop fuel' f i h else search_loop fuel' f (S h) j else i
  end.
Definition sort_Search (n : nat) (f : nat -> bool) : nat := search_loop (S n) f 0 n.

Definition zero_data : DataSegmentSummary := mkData 0 0 0 0 0.

Definition splitDataSegments (segments : list DataSegmentSummary) : list DataSegmentSummary * list DataSegmentSummary :=
  let index := sort_Search (length segments) (fun i => IsCompactionSegment (ds_SegmentID (nth i segments zero_data))) in
  (take index segments, drop index segments).

(** [reflect.DeepEqual] on the outputs.  An empty slice of a manifest is nil, and
    [segments[index:]] is nil only when [segments] is: two empty parts are equal
    only when both lists are empty or neither is. *)
Definition outputs_equal (base current : list DataSegmentSummary) : bool :=
  bool_decide ((splitDataSegments base).2 = (splitDataSegments current).2) && Bool.eqb (bool_decide (base = [])) (bool_decide (current = [])).

Definition clear_data (m : Manifest) : Manifest := set_data (set_generation m 0) 0 0 (mf_CompactionFloor m) [].

(** The loop over the segments sealed since the base. *)
Fixpoint rotations_from (active next : Z) (sealed : list DataSegmentSummary) : option (Z * Z) :=
  match sealed with
  | [] => Some (active, next)
  | s :: rest => if negb (ds_SegmentID s =? active) || negb (next =? (active + 1) mod two32) then None else rotations_from next ((next + 1) mod two32) rest
  end.

Definition checkpointBaseCompatible (base current : Manifest) : bool :=
  if (mf_Generation base =? 0) || (mf_Generation current <? mf_Generation base) then false
  else if negb (bool_decide (clear_data base = clear_data current)) then false
  else
    let baseNormal := (splitDataSegments (mf_SealedData base)).1 in
    let currentNormal := (splitDataSegments (mf_SealedData current)).1 in
    if negb (outputs_equal (mf_SealedData base) (mf_SealedData current)) || (len currentNormal <? len baseNormal) then false
    else if negb (bool_decide (take (length baseNormal) currentNormal = baseNormal)) then false
    else match rotations_from (mf_ActiveData base) (mf_NextData base) (drop (length baseNormal) currentNormal) with
         | None => false
         | Some (active, next) => (mf_ActiveData current =? active) && (mf_NextData current =? next)
         end.

Record MappingRewrite := mkRewrite { rw_SealedSegments : list MapSegmentSummary; rw_ActiveSegment : Z; rw_NextSegment : Z; rw_Root : Z; rw_Covered : Z }.

(** The loop over the rewritten segments; the result is [want]. *)
Fixpoint rewrite_ids (segmentSize want : Z) (segments : list MapSegmentSummary) : option Z :=
  match segments with
  | [] => Some want
  | s :: rest =>
      if negb (ms_SegmentID s =? want) || (ms_ValidEnd s <? MapSegment.SegmentHeaderSize) ||
         ((segmentSize mod two32 - MapSegment.SegmentFooterSize) mod two32 <? ms_ValidEnd s) || negb (ms_ValidEnd s mod Alignment =? 0) then None
      else rewrite_ids segmentSize ((want + 1) mod two32) rest
  end.

Definition apply_rewrite (update : MappingRewrite) (next : Manifest) : res Manifest :=
  raise [storecatalog_ErrInvalid] when
    negb (rw_Covered update =? mf_CoveredCommitSeq next) || (rw_ActiveSegment update =? 0) || (rw_ActiveSegment update =? MaxUint32) ||
    negb (rw_NextSegment update =? (rw_ActiveSegment update + 1) mod two32) ;;
  let first := match rw_SealedSegments update with [] => rw_ActiveSegment update | s :: _ => ms_SegmentID s end in
  raise [storecatalog_ErrInvalid] when negb (first =? mf_NextMap next) ;;
  match rewrite_ids (hl_SegmentSize (mf_HardLimits next)) first (rw_SealedSegments update) with
  | None => Err [storecatalog_ErrInvalid]
  | Some want =>
      raise [storecatalog_ErrInvalid] when
        negb (want =? rw_ActiveSegment update) || ((rw_Root update =? 0) && negb (len (rw_SealedSegments update) =? 0)) ;;
      Ok (set_map next (rw_ActiveSegment update) (rw_NextSegment update) (rw_SealedSegments update) (rw_Root update))
  end.

(** [InstallCheckpoint] and [InstallMappingRewrite] differ in the change only. *)
Definition install_rebased (current base : Manifest) (mutate : Manifest -> res Manifest) : res Manifest :=
  raise [storecatalog_ErrConflict] when negb (checkpointBaseCompatible base current) ;;
  raise [storecatalog_ErrInvalid] when mf_Generation current =? MaxUint64 ;;
  let! next := mutate (set_generation current (mf_Generation current + 1)) in
  let! _ := Validate next in Ok next.

Definition InstallMappingRewrite (current base : Manifest) (update : MappingRewrite) : res Manifest :=
  install_rebased current base (apply_rewrite update).

Record Checkpoint := mkCheckpoint
  { cpt_MappingRoot : Z; cpt_MappingEntryCount : Z; cpt_CoveredCommitSeq : Z; cpt_ReplayStart : LogPos; cpt_ReservedIDHigh : Z; cpt_ReservedBatchIDHigh : Z;
    cpt_IssuedBatchIDHighAtCut : Z; cpt_OpenBatchIDsAtCut : list Z; cpt_StatsCoveredCommitSeq : Z; cpt_SegmentStats : list SegmentStats }.

Definition applyCheckpoint (update : Checkpoint) (next : Manifest) : res Manifest :=
  raise [storecatalog_ErrInvalid] when
    (cpt_CoveredCommitSeq update <? mf_CoveredCommitSeq next) || (LogPos_Compare (cpt_ReplayStart update) (mf_ReplayStart next) <? 0) ||
    (cpt_ReservedIDHigh update <? mf_ReservedIDHigh next) || (cpt_ReservedBatchIDHigh update <? mf_ReservedBatchIDHigh next) ||
    (cpt_IssuedBatchIDHighAtCut update <? mf_IssuedBatchIDHighAtCut next) ;;
  Ok (mkManifest (mf_Generation next) (mf_StoreUUID next) (mf_HardLimits next) (mf_RecordLogID next) (mf_ActiveData next) (mf_NextData next) (mf_CompactionFloor next) (mf_SealedData next)
        (mf_ActiveMap next) (mf_NextMap next) (mf_SealedMap next) (cpt_MappingRoot update) (cpt_MappingEntryCount update) (cpt_CoveredCommitSeq update) (cpt_ReplayStart update)
        (cpt_ReservedIDHigh update) (cpt_ReservedBatchIDHigh update) (cpt_IssuedBatchIDHighAtCut update) (cpt_OpenBatchIDsAtCut update) (cpt_StatsCoveredCommitSeq update) (cpt_SegmentStats update)).

Definition InstallCheckpoint (current base : Manifest) (update : Checkpoint) : res Manifest :=
  install_rebased current base (applyCheckpoint update).

(** *** Retiring data segments *)

Definition StatsKnownForSegment (replayStart : LogPos) (segment : DataSegmentSummary) : bool :=
  IsCompactionSegment (ds_SegmentID segment) || (LogPos_Compare (mkPos (ds_SegmentID segment) (ds_ValidEnd segment)) replayStart <? 0).

Definition has_live (stat : SegmentStats) : bool := negb (sst_LiveBytes stat =? 0) || negb (sst_LiveRecords stat =? 0).

(** The first loop of [InstallDataCompaction]: the map [remove]. *)
Fixpoint collect_inputs (m : Manifest) (remove : gmap Z DataSegmentSummary) (inputs : list DataSegmentSummary) : res (gmap Z DataSegmentSummary) :=
  match inputs with
  | [] => Ok remove
  | input :: rest =>
      raise [storecatalog_ErrInvalid] when (ds_SegmentID input =? mf_ActiveData m) || negb (StatsKnownForSegment (mf_ReplayStart m) input) ;;
      raise [storecatalog_ErrInvalid] when existsb (fun st => (sst_SegmentID st =? ds_SegmentID input) && has_live st) (mf_SegmentStats m) ;;
      collect_inputs m (<[ds_SegmentID input := input]> remove) rest
  end.

(** The second loop: the kept segments and what is left to remove. *)
Fixpoint remove_inputs (remove : gmap Z DataSegmentSummary) (segments : list DataSegmentSummary) : res (list DataSegmentSummary * gmap Z DataSegmentSummary) :=
  match segments with
  | [] => Ok ([], remove)
  | s :: rest =>
      match remove !! ds_SegmentID s with
      | Some want =>
          raise [storecatalog_ErrInvalid] when negb (bool_decide (want = s)) ;;
          remove_inputs (delete (ds_SegmentID s) remove) rest
      | None => let! (kept, pending) := remove_inputs remove rest in Ok (s :: kept, pending)
      end
  end.

Definition apply_compaction (inputs : list DataSegmentSummary) (covered : Z) (replayStart : LogPos) (next : Manifest) : res Manifest :=
  raise [storecatalog_ErrInvalid] when
    (len inputs =? 0) || negb (covered =? mf_CoveredCommitSeq next) || negb (bool_decide (replayStart = mf_ReplayStart next)) ;;
  let! remove := collect_inputs next ∅ inputs in
  let! (kept, pending) := remove_inputs remove (mf_SealedData next) in
  raise [storecatalog_ErrInvalid] when negb (bool_decide (pending = ∅)) ;;
  Ok (set_stats (set_data next (mf_ActiveData next) (mf_NextData next) (mf_CompactionFloor next) kept)
        (List.filter (fun st => negb (existsb (fun input => sst_SegmentID st =? ds_SegmentID input) inputs)) (mf_SegmentStats next))).

Definition InstallDataCompaction (current : Manifest) (expect : Z) (inputs : list DataSegmentSummary) (covered : Z) (replayStart : LogPos) : res Manifest :=
  install current expect (apply_compaction inputs covered replayStart).

Record DataRetire := mkRetire { rt_Source : DataSegmentSummary; rt_CoveredCommitSeq : Z; rt_ReplayStart : LogPos }.

(** The list without the first element equal to [s]. *)
Fixpoint remove_first (s : DataSegmentSummary) (l : list DataSegmentSummary) : option (list DataSegmentSummary) :=
  match l with
  | [] => None
  | x :: rest => if bool_decide (x = s) then Some rest else match remove_first s rest with Some r => Some (x :: r) | None => None end
  end.

Definition applyDataRetire (update : DataRetire) (next : Manifest) : res Manifest :=
  raise [storecatalog_ErrInvalid] when negb (rt_CoveredCommitSeq update =? mf_CoveredCommitSeq next) || (ds_SegmentID (rt_Source update) =? mf_ActiveData next) ;;
  match remove_first (rt_Source update) (mf_SealedData next) with
  | None => Err [storecatalog_ErrInvalid]
  | Some rest =>
      raise [storecatalog_ErrInvalid] when negb (StatsKnownForSegment (mf_ReplayStart next) (rt_Source update)) ;;
      raise [storecatalog_ErrInvalid] when
        match List.find (fun st => sst_SegmentID st =? ds_SegmentID (rt_Source update)) (mf_SegmentStats next) with Some st => has_live st | None => false end ;;
      raise [storecatalog_ErrInvalid] when negb (bool_decide (rt_ReplayStart update = mf_ReplayStart next)) ;;
      Ok (set_stats (set_data next (mf_ActiveData next) (mf_NextData next) (mf_CompactionFloor next) rest)
            (List.filter (fun st => negb (sst_SegmentID st =? ds_SegmentID (rt_Source update))) (mf_SegmentStats next)))
  end.

Definition InstallDataRetire (current : Manifest) (expect : Z) (update : DataRetire) : res Manifest := install current expect (applyDataRetire update).

Definition RemoveRecordLogSegment (current : Manifest) (minimumGeneration : Z) (sealed : DataSegmentSummary) : res Manifest :=
  raise [storecatalog_ErrConflict] when (mf_Generation current <? minimumGeneration) || (mf_Generation current =? MaxUint64) ;;
  let! next := applyDataRetire (mkRetire sealed (mf_CoveredCommitSeq current) (mf_ReplayStart current)) (set_generation current (mf_Generation current + 1)) in
  let! _ := Validate next in Ok next.

(** ** The views of the two stores *)

Definition mapStoreSnapshot (m : Manifest) : CatalogSnapshot :=
  mkSnapshot (mf_Generation m) (mf_StoreUUID m) (hl_SegmentSize (mf_HardLimits m) mod two32) (mf_ActiveMap m) (mf_NextMap m)
    (map (fun s => mkSegmentRef (ms_SegmentID s) (ms_ValidEnd s)) (mf_SealedMap m)) (mf_MappingRoot m) (mf_CoveredCommitSeq m).

(** [recordlog.CatalogSnapshot] *)
Record LogSnapshot := mkLogSnapshot
  { ls_Generation : Z; ls_LogID : list Z; ls_SegmentSize : Z; ls_MaxPayloadBytes : Z; ls_ActiveSegmentID : Z; ls_NextSegmentID : Z;
    ls_CompactionSegmentFloor : Z; ls_SealedSegments : list DataSegmentSummary }.

Definition recordLogSnapshot (m : Manifest) : LogSnapshot :=
  mkLogSnapshot (mf_Generation m) (mf_RecordLogID m) (hl_SegmentSize (mf_HardLimits m) mod two32) (hl_MaxRecordLogPayload (mf_HardLimits m) mod two32)
    (mf_ActiveData m) (mf_NextData m) (mf_CompactionFloor m) (mf_SealedData m).

Definition log_headerFor (s : LogSnapshot) (id : Z) : RecordFormat.SegmentHeader :=
  RecordFormat.mkSegmentHeader (ls_LogID s) id (if 1 <? id then id - 1 else 0) (ls_SegmentSize s).

(** [SegmentSummary.validate == nil] *)
Definition data_summary_valid (s : DataSegmentSummary) (segmentSize : Z) : bool :=
  negb ((segmentSize <=? Addr.SegmentFooterSize) ||
        negb (validateSegmentFooter (RecordFormat.mkSegmentFooter (ds_SegmentID s) (ds_ValidEnd s) (ds_FirstAddr s) (ds_LastAddr s) (ds_RecordCount s))) ||
        (segmentSize - Addr.SegmentFooterSize <? ds_ValidEnd s)).

Fixpoint log_sealed_ok (s : LogSnapshot) (previous : Z) (segments : list DataSegmentSummary) : bool :=
  match segments with
  | [] => true
  | x :: rest =>
      negb ((ds_SegmentID x <=? previous) || negb (data_id_ok (ls_ActiveSegmentID s) (ls_CompactionSegmentFloor s) (ds_SegmentID x)) ||
            (ds_SegmentID x =? ls_ActiveSegmentID s) || negb (data_summary_valid x (ls_SegmentSize s))) &&
      log_sealed_ok s (ds_SegmentID x) rest
  end.

(** [recordlog.CatalogSnapshot.validate == nil] *)
Definition log_snapshot_valid (s : LogSnapshot) : bool :=
  negb ((ls_Generation s =? 0) || all_zero (ls_LogID s) || (ls_ActiveSegmentID s =? 0) || negb (ls_NextSegmentID s =? (ls_ActiveSegmentID s + 1) mod two32) ||
        (CompactionSegmentBase <=? ls_ActiveSegmentID s) || (MaxUint32 <? ls_SegmentSize s) || (ls_MaxPayloadBytes s =? 0) ||
        (negb (ls_CompactionSegmentFloor s =? 0) && (ls_CompactionSegmentFloor s <? CompactionSegmentBase - 1))) &&
  is_ok (RecordFormat.EncodeSegmentHeader (log_headerFor s (ls_ActiveSegmentID s))) &&
  match PhysicalRecordSize (ls_MaxPayloadBytes s) with
  | Ok maximum => maximum <=? (ls_SegmentSize s - Addr.SegmentHeaderSize - Addr.SegmentFooterSize) mod two32
  | Err _ => false
  end &&
  log_sealed_ok s 0 (ls_SealedSegments s).

Definition sealedSummary (s : LogSnapshot) (id : Z) : option DataSegmentSummary :=
  let index := sort_Search (length (ls_SealedSegments s)) (fun i => id <=? ds_SegmentID (nth i (ls_SealedSegments s) zero_data)) in
  match ls_SealedSegments s !! index with
  | Some x => if ds_SegmentID x =? id then Some x else None
  | None => None
  end.

Definition validateRotationResult (before after : LogSnapshot) (sealed : DataSegmentSummary) (newActive next : Z) : res unit :=
  raise [recordlog_ErrCorrupt] when
    (ls_Generation after <=? ls_Generation before) || negb (bool_decide (ls_LogID after = ls_LogID before)) || negb (ls_SegmentSize after =? ls_SegmentSize before) ||
    negb (ls_MaxPayloadBytes after =? ls_MaxPayloadBytes before) || negb (ls_ActiveSegmentID after =? newActive) || negb (ls_NextSegmentID after =? next) ;;
  raise [recordlog_ErrCorrupt] when negb (bool_decide (sealedSummary after (ds_SegmentID sealed) = Some sealed)) ;;
  raise [recordlog_ErrInvalidConfig] when negb (log_snapshot_valid after) ;;
  Ok tt.
