(* ===== verification/CatalogSpec.v ===== *)
(** * Theorems on the catalog's transitions

    A valid manifest gives the mapping store and the record log snapshots that
    they accept; the transitions keep the manifest valid, keep the identity of the
    store, move every watermark in one direction and never hand out a segment id
    twice; a segment is dropped only when it has no live record. *)
From S2P Require Import Prelude Bytes Addr RecordFormat RecordCodec MapNode MapSegment Catalog.

Definition data_u (s : DataSegmentSummary) : Prop :=
  is_u32 (ds_SegmentID s) /\ is_u32 (ds_ValidEnd s) /\ is_u64 (ds_RecordCount s) /\ is_u64 (ds_FirstAddr s) /\ is_u64 (ds_LastAddr s).
Definition map_u (s : MapSegmentSummary) : Prop := is_u32 (ms_SegmentID s) /\ is_u32 (ms_ValidEnd s).
Definition stats_u (s : SegmentStats) : Prop := is_u32 (sst_SegmentID s) /\ is_u64 (sst_LiveBytes s) /\ is_u64 (sst_LiveRecords s).

Definition limits_of (h : HardLimits) : list Z :=
  [hl_SegmentSize h; hl_MaxValueSize h; hl_MaxBatchBytes h; hl_MaxBatchMutations h; hl_MaxBatchConditions h; hl_MaxOpenBatches h; hl_MaxRecordLogPayload h; hl_IDReserveSize h; hl_BatchIDReserveSize h].

Record manifest_u (m : Manifest) : Prop := mkManifestU {
  mu_gen : is_u64 (mf_Generation m);
  mu_uuid : length (mf_StoreUUID m) = 16%nat /\ bytes_ok (mf_StoreUUID m);
  mu_log : length (mf_RecordLogID m) = 16%nat /\ bytes_ok (mf_RecordLogID m);
  mu_limits : Forall is_u64 (limits_of (mf_HardLimits m));
  mu_ids : is_u32 (mf_ActiveData m) /\ is_u32 (mf_NextData m) /\ is_u32 (mf_CompactionFloor m) /\ is_u32 (mf_ActiveMap m) /\ is_u32 (mf_NextMap m);
  mu_data : Forall data_u (mf_SealedData m);
  mu_map : Forall map_u (mf_SealedMap m);
  mu_root : is_u64 (mf_MappingRoot m) /\ is_u64 (mf_MappingEntryCount m) /\ is_u64 (mf_CoveredCommitSeq m);
  mu_pos : pos_u (mf_ReplayStart m);
  mu_high : is_u64 (mf_ReservedIDHigh m) /\ is_u64 (mf_ReservedBatchIDHigh m) /\ is_u64 (mf_IssuedBatchIDHighAtCut m);
  mu_open : Forall is_u64 (mf_OpenBatchIDsAtCut m);
  mu_stats : is_u64 (mf_StatsCoveredCommitSeq m) /\ Forall stats_u (mf_SegmentStats m);
}.

(** ** Reading [Validate] *)

Lemma Validate_ok m u : Validate m = Ok u -> manifest_ok m = true.
Proof. unfold Validate. now destruct (manifest_ok m). Qed.

(** What the theorems use of a valid segment size. *)
Lemma limits_size h : validateHardLimits h = true -> is_u64 (hl_SegmentSize h) ->
  64 + DenseNodeSize + 64 <= hl_SegmentSize h < two32 /\ Z.land (hl_SegmentSize h) 7 = 0 /\ 160 < hl_SegmentSize h.
Proof.
  intros E Hu. unfold validateHardLimits in E. bool_norm. change (RecordAlignment - 1) with 7 in *. unfold Addr.SegmentHeaderSize, Addr.SegmentFooterSize, MapSegment.SegmentHeaderSize, MapSegment.SegmentFooterSize, RecordHeaderSize, is_u64 in *. split; [lia|]. split; [assumption|lia].
Qed.

Lemma limits_payload h : validateHardLimits h = true -> is_u64 (hl_MaxRecordLogPayload h) ->
  0 < hl_MaxRecordLogPayload h < two32 /\ exists physical, PhysicalRecordSize (hl_MaxRecordLogPayload h) = Ok physical /\ physical <= hl_SegmentSize h - 64 - 64.
Proof.
  intros E Hu. unfold validateHardLimits in E. destruct (PutPayloadSize _); [|rewrite andb_false_r in E; discriminate]. destruct (DescriptorSize _); [|rewrite andb_false_r in E; discriminate].
  destruct (PhysicalRecordSize _) as [physical|]; [|rewrite andb_false_r in E; discriminate]. cbn [forallb] in E. bool_norm. unfold Addr.SegmentHeaderSize, Addr.SegmentFooterSize, is_u64 in *. split; [lia|]. exists physical. split; [reflexivity|lia].
Qed.

Record manifest_facts (m : Manifest) : Prop := mkFacts {
  mv_gen : mf_Generation m <> 0;
  mv_uuid : all_zero (mf_StoreUUID m) = false /\ all_zero (mf_RecordLogID m) = false;
  mv_ids : mf_ActiveData m <> 0 /\ mf_ActiveData m < mf_NextData m /\ mf_ActiveMap m <> 0 /\ mf_ActiveMap m < mf_NextMap m;
  mv_limits : validateHardLimits (mf_HardLimits m) = true;
  mv_data : validateDataSet m = true;
  mv_map : validateMapSet m = true;
  mv_lens : len (mf_SealedData m) <= maxManifestPayload / 32 /\ len (mf_SealedMap m) <= maxManifestPayload / 8 /\ len (mf_OpenBatchIDsAtCut m) <= maxManifestPayload / 8 /\ len (mf_SegmentStats m) <= maxManifestPayload / 24;
  mv_pos : LogPos_Valid (mf_ReplayStart m) = true;
}.

Lemma manifest_facts_of m : manifest_ok m = true -> manifest_facts m.
Proof. unfold manifest_ok. intros E. bool_norm. constructor; auto; repeat split; auto; lia. Qed.

(** ** The snapshots of a valid manifest *)

Lemma map_set_sealed st size next segs : forall p, map_set_ok (cs_ActiveSegment st) next size p segs = true -> cs_SegmentSize st = size -> 64 <= size < two32 ->
  0 <= p -> sealed_ok st p (map (fun s => mkSegmentRef (ms_SegmentID s) (ms_ValidEnd s)) segs) = true.
Proof.
  induction segs as [|s segs IH]; intros p E Hs Hb Hp; [reflexivity|]. cbn [map_set_ok map sealed_ok sr_SegmentID sr_ValidEnd] in *. apply andb_true_iff in E as [E Er]. rewrite (IH _ Er Hs Hb); [|bool_norm; lia].
  unfold MapSegment.SegmentFooterSize in *. rewrite Hs, andb_true_r. bool_norm. rewrite Z.mod_small in * by lia.
  rewrite negb_true_iff, !orb_false_iff, !Z.leb_gt, !Z.ltb_ge, negb_false_iff, Z.eqb_eq. repeat split; try assumption; lia.
Qed.

Lemma find_first_ge active next size id segs : forall p s, map_set_ok active next size p segs = true -> List.find (fun s => ms_SegmentID s =? id) segs = Some s ->
  find_sealed (map (fun s => mkSegmentRef (ms_SegmentID s) (ms_ValidEnd s)) segs) id = Some (mkSegmentRef id (ms_ValidEnd s)).
Proof.
  unfold find_sealed. induction segs as [|x segs IH]; intros p s E Ef; [discriminate|]. cbn [map List.find sr_SegmentID map_set_ok] in *. apply andb_true_iff in E as [_ E].
  destruct (ms_SegmentID x =? id) eqn:Ex.
  - injection Ef as <-. apply Z.eqb_eq in Ex. rewrite Ex, Z.leb_refl. reflexivity.
  - replace (id <=? ms_SegmentID x) with false; [eauto|]. symmetry. apply Z.leb_gt.
    assert (Hin : forall l p', map_set_ok active next size p' l = true -> List.find (fun s => ms_SegmentID s =? id) l = Some s -> p' < id).
    { clear. induction l as [|y l IHl]; intros p' E Ef; [discriminate|]. cbn [map_set_ok List.find] in *. apply andb_true_iff in E as [E1 E2]. bool_norm. destruct (ms_SegmentID y =? id) eqn:Ey; bool_norm; [lia|]. specialize (IHl _ E2 Ef). lia. }
    exact (Hin _ _ E Ef).
Qed.

Lemma map_snapshot_valid m : manifest_u m -> manifest_ok m = true -> mf_NextMap m = mf_ActiveMap m + 1 -> snapshot_valid (mapStoreSnapshot m) = true.
Proof.
  intros Hu Hv Hn. destruct (manifest_facts_of m Hv) as [F1 [F2 _] (_ & _ & F4 & F5) F6 _ F7 _ _]. destruct (mu_ids _ Hu) as (_ & _ & _ & U1 & U2).
  pose proof (mu_limits _ Hu) as Hl. unfold limits_of in Hl. apply Forall_cons in Hl as [Hsz _]. destruct (limits_size _ F6 Hsz) as (S1 & S2 & S3).
  unfold snapshot_valid, mapStoreSnapshot. cbn [cs_Generation cs_StoreID cs_SegmentSize cs_ActiveSegment cs_NextSegment cs_SealedSegments cs_Root]. rewrite (Z.mod_small (hl_SegmentSize _)) by lia.
  unfold is_u32 in *. rewrite F2, Hn, Z.mod_small by lia. replace (mf_Generation m =? 0) with false by (symmetry; now apply Z.eqb_neq). replace (mf_ActiveMap m =? 0) with false by (symmetry; now apply Z.eqb_neq).
  replace (mf_ActiveMap m =? MaxUint32) with false by (symmetry; apply Z.eqb_neq; lia). rewrite Z.eqb_refl. replace (MaxUint32 <? _) with false by (symmetry; apply Z.ltb_ge; lia). cbn [orb negb andb].
  unfold validateMapSet in F7. apply andb_true_iff in F7 as [F7 F8]. rewrite !andb_true_iff. split; [split|].
  - unfold validSegmentHeader, headerFor. cbn [sh_StoreID sh_SegmentID sh_SegmentSize sh_PreviousSegment cs_StoreID cs_SegmentSize]. rewrite F2. replace (mf_ActiveMap m =? 0) with false by (symmetry; now apply Z.eqb_neq).
    replace (mf_ActiveMap m =? MaxUint32) with false by (symmetry; apply Z.eqb_neq; lia). change (Alignment - 1) with 7. rewrite S2. unfold MapSegment.SegmentHeaderSize, MapSegment.SegmentFooterSize.
    replace (_ <? 64 + DenseNodeSize + 64) with false by (symmetry; apply Z.ltb_ge; lia). cbn [orb negb Z.eqb]. destruct (mf_ActiveMap m =? 1) eqn:E1, (1 <? mf_ActiveMap m) eqn:E2; bool_norm; try lia; apply Z.eqb_refl.
  - eapply (map_set_sealed _ (hl_SegmentSize (mf_HardLimits m)) (mf_NextMap m)); [rewrite Hn in *; exact F7|reflexivity|lia|lia].
  - destruct (mf_MappingRoot m =? 0); [reflexivity|]. apply andb_true_iff in F8 as [F8 F9]. rewrite F8. cbn [negb]. destruct (_ =? mf_ActiveMap m); [reflexivity|].
    destruct (List.find _ _) as [s|] eqn:Ef; [|discriminate]. rewrite (find_first_ge _ _ _ _ _ 0 s F7 Ef). cbn [sr_SegmentID sr_ValidEnd]. rewrite Z.eqb_refl, F9. reflexivity.
Qed.

Lemma data_set_sealed st size segs : forall p, data_set_ok (ls_ActiveSegmentID st) (ls_CompactionSegmentFloor st) size p segs = true -> ls_SegmentSize st = size -> 160 < size < two32 ->
  log_sealed_ok st p segs = true.
Proof.
  induction segs as [|s segs IH]; intros p E Hs Hb; [reflexivity|]. cbn [data_set_ok log_sealed_ok] in *. apply andb_true_iff in E as [E Er]. apply andb_true_iff in E as [E1 E2].
  rewrite (IH _ Er Hs Hb), andb_true_r. rewrite negb_true_iff, !orb_false_iff in *. destruct E1 as [[[E3 E4] E5] E6]. repeat split; auto. rewrite negb_false_iff.
  unfold data_summary_ok in E2. apply andb_true_iff in E2 as [E2 E7]. unfold data_summary_valid, validateSegmentFooter. cbn [RecordFormat.sf_SegmentID RecordFormat.sf_DataEnd RecordFormat.sf_RecordCount RecordFormat.sf_FirstAddr RecordFormat.sf_LastAddr].
  rewrite negb_true_iff, !orb_false_iff in *. destruct E2 as [[E8 E9] E10]. rewrite E3, E8, E10, Hs. unfold Addr.SegmentFooterSize in *. rewrite Z.mod_small in E9 by lia. repeat split; [apply Z.leb_gt; lia| |exact E9].
  rewrite negb_false_iff. cbn [orb]. destruct (ds_RecordCount s =? 0); [|exact E7]. rewrite !andb_true_iff in *. tauto.
Qed.

Lemma log_snapshot_ok m : manifest_u m -> manifest_ok m = true -> log_snapshot_valid (recordLogSnapshot m) = true.
Proof.
  intros Hu Hv. destruct (manifest_facts_of m Hv) as [F1 [_ F2] (F3 & F4 & _) F6 F7 _ _ _]. pose proof (mu_limits _ Hu) as Hl. unfold limits_of in Hl.
  assert (Hsz : is_u64 (hl_SegmentSize (mf_HardLimits m)) /\ is_u64 (hl_MaxRecordLogPayload (mf_HardLimits m))) by (rewrite !Forall_cons in Hl; tauto). destruct Hsz as [Hsz Hpl].
  destruct (limits_size _ F6 Hsz) as (S1 & S2 & S3). destruct (limits_payload _ F6 Hpl) as (P1 & physical & P2 & P3). destruct (mu_ids _ Hu) as (U1 & _ & U3 & _).
  unfold log_snapshot_valid, recordLogSnapshot. cbn [ls_Generation ls_LogID ls_SegmentSize ls_MaxPayloadBytes ls_ActiveSegmentID ls_NextSegmentID ls_CompactionSegmentFloor ls_SealedSegments].
  rewrite !(Z.mod_small (hl_SegmentSize _)), (Z.mod_small (hl_MaxRecordLogPayload _)) by lia. rewrite P2, F2. unfold validateDataSet in F7. apply andb_true_iff in F7 as [F7 _]. apply andb_true_iff in F7 as [F7 F8].
  rewrite negb_true_iff, !orb_false_iff in F7. destruct F7 as [[F9 F10] F11]. rewrite F9, F10, F11. replace (mf_Generation m =? 0) with false by (symmetry; now apply Z.eqb_neq). replace (mf_ActiveData m =? 0) with false by (symmetry; now apply Z.eqb_neq).
  replace (MaxUint32 <? _) with false by (symmetry; apply Z.ltb_ge; lia). replace (hl_MaxRecordLogPayload _ =? 0) with false by (symmetry; apply Z.eqb_neq; lia). cbn [orb negb andb].
  rewrite !andb_true_iff. split; [split|].
  - unfold RecordFormat.EncodeSegmentHeader, segmentHeader_bad, log_headerFor. cbn [RecordFormat.sh_LogID RecordFormat.sh_SegmentID RecordFormat.sh_SegmentSize ls_LogID ls_SegmentSize]. change (RecordAlignment - 1) with 7. rewrite F2, S2.
    replace (mf_ActiveData m =? 0) with false by (symmetry; now apply Z.eqb_neq). unfold Addr.SegmentHeaderSize, Addr.SegmentFooterSize, RecordHeaderSize. replace (_ <=? 64 + 32 + 64) with false by (symmetry; apply Z.leb_gt; lia). reflexivity.
  - unfold Addr.SegmentHeaderSize, Addr.SegmentFooterSize. unfold DenseNodeSize, DenseLeafNodeSize, NodeHeaderSize, NodeSlots in S1. rewrite Z.mod_small by lia. apply Z.leb_le. lia.
  - eapply data_set_sealed; [exact F8|reflexivity|cbn; lia].
Qed.

(** ** Histories of the catalog *)

Inductive transition (m : Manifest) : Manifest -> Prop :=
  | tr_data_rotation expect update next : InstallDataRotation m expect update = Ok next -> transition m next
  | tr_reserve expect count next ids : 0 <= count -> ReserveCompactionSegments m expect count = Ok (next, ids) -> transition m next
  | tr_outputs expect outputs next : InstallCompactionOutputs m expect outputs = Ok next -> transition m next
  | tr_map_rotation expect update next : is_u32 (mr_NewActive update) -> InstallMapRotation m expect update = Ok next -> transition m next
  | tr_rewrite base update next : is_u32 (rw_ActiveSegment update) -> InstallMappingRewrite m base update = Ok next -> transition m next
  | tr_checkpoint base update next : InstallCheckpoint m base update = Ok next -> transition m next
  | tr_compaction expect inputs covered pos next : InstallDataCompaction m expect inputs covered pos = Ok next -> transition m next
  | tr_retire expect update next : InstallDataRetire m expect update = Ok next -> transition m next
  | tr_remove minimum sealed next : RemoveRecordLogSegment m minimum sealed = Ok next -> transition m next.

Definition pos_le (p q : LogPos) : Prop := pos_SegmentID p < pos_SegmentID q \/ (pos_SegmentID p = pos_SegmentID q /\ pos_Offset p <= pos_Offset q).
Definition floor_top (m : Manifest) : Z := if mf_CompactionFloor m =? 0 then MaxUint32 else mf_CompactionFloor m.

(** What never changes, and what moves in one direction. *)
Record forward (m n : Manifest) : Prop := mkForward {
  fo_ident : mf_StoreUUID n = mf_StoreUUID m /\ mf_RecordLogID n = mf_RecordLogID m /\ mf_HardLimits n = mf_HardLimits m;
  fo_gen : mf_Generation m <= mf_Generation n;
  fo_data : mf_ActiveData m <= mf_ActiveData n;
  fo_map : mf_NextMap m <= mf_NextMap n;
  fo_floor : floor_top n <= floor_top m;
  fo_covered : mf_CoveredCommitSeq m <= mf_CoveredCommitSeq n;
  fo_replay : pos_le (mf_ReplayStart m) (mf_ReplayStart n);
  fo_high : mf_ReservedIDHigh m <= mf_ReservedIDHigh n /\ mf_ReservedBatchIDHigh m <= mf_ReservedBatchIDHigh n /\ mf_IssuedBatchIDHighAtCut m <= mf_IssuedBatchIDHighAtCut n;
}.

Lemma pos_le_refl p : pos_le p p.
Proof. right. lia. Qed.

#[export] Instance forward_preorder : PreOrder forward.
Proof.
  split.
  - intros m. constructor; auto using pos_le_refl; lia.
  - intros a b c [(H1 & H2 & H3) H4 H5 H6 H7 H8 H9 (H10 & H11 & H12)] [(K1 & K2 & K3) K4 K5 K6 K7 K8 K9 (K10 & K11 & K12)]. constructor; try lia; [split; [|split]; congruence|].
    unfold pos_le in *. lia.
Qed.

Lemma compare_ge p q : (LogPos_Compare p q <? 0) = false -> pos_le q p.
Proof.
  unfold LogPos_Compare, pos_le. destruct (_ || _) eqn:E; [discriminate|]. apply orb_false_iff in E as [E1 E2]. bool_norm. intros _. destruct (pos_SegmentID p =? pos_SegmentID q) eqn:E; bool_norm; [|lia].
  cbn [andb] in E2. bool_norm. lia.
Qed.

(** The common part of the transitions: the checks around the change. *)
Lemma install_inv m expect mutate next : install m expect mutate = Ok next ->
  mutate (set_generation m (mf_Generation m + 1)) = Ok next /\ manifest_ok next = true /\ expect = mf_Generation m /\ mf_Generation m <> MaxUint64.
Proof.
  unfold install. intros E. inv_ok E. apply Ok_inj in E. bool_norm. apply Validate_ok in Hcall0. subst. auto.
Qed.

Lemma install_rebased_inv m base mutate next : install_rebased m base mutate = Ok next ->
  mutate (set_generation m (mf_Generation m + 1)) = Ok next /\ manifest_ok next = true /\ checkpointBaseCompatible base m = true /\ mf_Generation m <> MaxUint64.
Proof.
  unfold install_rebased. intros E. inv_ok E. apply Ok_inj in E. bool_norm. apply Validate_ok in Hcall0. subst. auto.
Qed.

Lemma forward_bump m n : mf_Generation n = mf_Generation m + 1 -> mf_StoreUUID n = mf_StoreUUID m -> mf_RecordLogID n = mf_RecordLogID m -> mf_HardLimits n = mf_HardLimits m ->
  mf_ActiveData m <= mf_ActiveData n -> mf_NextMap m <= mf_NextMap n -> floor_top n <= floor_top m -> mf_CoveredCommitSeq n = mf_CoveredCommitSeq m -> mf_ReplayStart n = mf_ReplayStart m ->
  mf_ReservedIDHigh n = mf_ReservedIDHigh m -> mf_ReservedBatchIDHigh n = mf_ReservedBatchIDHigh m -> mf_IssuedBatchIDHighAtCut n = mf_IssuedBatchIDHighAtCut m -> forward m n.
Proof. intros. constructor; auto; try lia. replace (mf_ReplayStart n) with (mf_ReplayStart m) by auto. apply pos_le_refl. Qed.

Definition serves (m : Manifest) : Prop := manifest_ok m = true /\ mf_NextMap m = mf_ActiveMap m + 1.

Lemma retire_shape update m n : applyDataRetire update m = Ok n -> exists rest stats,
  n = set_stats (set_data m (mf_ActiveData m) (mf_NextData m) (mf_CompactionFloor m) rest) stats.
Proof. unfold applyDataRetire. intros E. inv_ok E. destruct (remove_first _ _) as [rest|]; [|discriminate]. inv_ok E. apply Ok_inj in E. eauto. Qed.

Lemma reserve_inv m expect count next ids : ReserveCompactionSegments m expect count = Ok (next, ids) -> 0 <= count ->
  let first := floor_top m - count + 1 in
  next = set_data (set_generation m (mf_Generation m + 1)) (mf_ActiveData m) (mf_NextData m) (first - 1) (mf_SealedData m) /\ manifest_ok next = true /\
  ids = map (fun i => first + Z.of_nat i) (seq 0 (Z.to_nat count)) /\ 0 < count /\ CompactionSegmentBase <= first /\ mf_Generation m <> MaxUint64.
Proof.
  unfold ReserveCompactionSegments, floor_top. intros E Hc. inv_ok E. injection E as <- <-. bool_norm. apply Validate_ok in Hcall. repeat split; auto; lia.
Qed.

Lemma rewrite_first m update n : apply_rewrite update m = Ok n ->
  mf_NextMap m = match rw_SealedSegments update with [] => rw_ActiveSegment update | s :: _ => ms_SegmentID s end /\
  rw_ActiveSegment update <> MaxUint32 /\ rw_NextSegment update = (rw_ActiveSegment update + 1) mod two32 /\
  n = set_map m (rw_ActiveSegment update) (rw_NextSegment update) (rw_SealedSegments update) (rw_Root update).
Proof.
  unfold apply_rewrite. intros E. inv_ok E. destruct (rewrite_ids _ _ _); [|discriminate]. inv_ok E. apply Ok_inj in E. bool_norm. auto.
Qed.

Lemma transition_forward m next : serves m -> transition m next -> forward m next /\ serves next /\ mf_Generation next = mf_Generation m + 1.
Proof.
  intros [Hv Hn] T. destruct (manifest_facts_of m Hv) as [_ _ (_ & F1 & _ & F2) _ _ _ _ _].
  destruct T as [ex up n E|ex co n ids Hc E|ex out n E|ex up n Hu E|base up n Hu E|base up n E|ex inp cov pos n E|ex up n E|mi se n E].
  - apply install_inv in E as (E & Hok & _). unfold apply_data_rotation in E. inv_ok E. apply Ok_inj in E. subst n. bool_norm. cbn in *. split; [|split; [split; [exact Hok|exact Hn]|reflexivity]].
    apply forward_bump; cbn; try reflexivity; lia.
  - apply reserve_inv in E as (-> & Hok & _ & Hc' & Hb & _); [|exact Hc]. split; [|split; [split; [exact Hok|exact Hn]|reflexivity]]. apply forward_bump; cbn; try reflexivity; try lia.
    unfold floor_top in *. cbn [mf_CompactionFloor set_data]. unfold CompactionSegmentBase in Hb. destruct (_ - 1 =? 0) eqn:E0; bool_norm; lia.
  - apply install_inv in E as (E & Hok & _). unfold apply_outputs in E. inv_ok E. apply Ok_inj in E. subst n. split; [|split; [split; [exact Hok|exact Hn]|reflexivity]]. apply forward_bump; cbn; try reflexivity; lia.
  - apply install_inv in E as (E & Hok & _). unfold apply_map_rotation in E. inv_ok E. apply Ok_inj in E. subst n. bool_norm. cbn in *. unfold is_u32 in Hu.
    assert (Enx : mr_NextID up = mr_NewActive up + 1) by (rewrite Z.mod_small in * by lia; lia).
    split; [|split; [split; [exact Hok|exact Enx]|reflexivity]]. apply forward_bump; cbn; try reflexivity; lia.
  - apply install_rebased_inv in E as (E & Hok & _). apply rewrite_first in E as (Ef & Em & En & ->). cbn in Ef. unfold is_u32 in Hu.
    assert (Enx : rw_NextSegment up = rw_ActiveSegment up + 1) by (rewrite Z.mod_small in * by lia; lia).
    split; [|split; [split; [exact Hok|exact Enx]|reflexivity]]. apply forward_bump; cbn; try reflexivity; try lia.
    destruct (manifest_facts_of _ Hok) as [_ _ _ _ _ Fm _ _]. unfold validateMapSet in Fm. apply andb_true_iff in Fm as [Fm _]. cbn in Fm.
    destruct (rw_SealedSegments up) as [|s segs]; [lia|]. cbn [map_set_ok] in Fm. bool_norm. lia.
  - apply install_rebased_inv in E as (E & Hok & _). unfold applyCheckpoint in E. inv_ok E. apply Ok_inj in E. subst n. split; [|split; [split; [exact Hok|exact Hn]|reflexivity]].
    apply orb_false_iff in Hguard as [G G5]. apply orb_false_iff in G as [G G4]. apply orb_false_iff in G as [G G3]. apply orb_false_iff in G as [G1 G2]. apply compare_ge in G2. bool_norm. cbn in *. constructor; cbn; auto; try lia; reflexivity.
  - apply install_inv in E as (E & Hok & _). unfold apply_compaction in E. inv_ok E. destruct a0 as [kept pending]. inv_ok E. apply Ok_inj in E. subst n. split; [|split; [split; [exact Hok|exact Hn]|reflexivity]].
    apply forward_bump; cbn; try reflexivity; lia.
  - apply install_inv in E as (E & Hok & _). apply retire_shape in E as (rest & st & ->). split; [|split; [split; [exact Hok|exact Hn]|reflexivity]]. apply forward_bump; cbn; try reflexivity; lia.
  - unfold RemoveRecordLogSegment in E. inv_ok E. apply Ok_inj in E. subst. apply Validate_ok in Hcall0. apply retire_shape in Hcall as (rest & st & ->). split; [|split; [split; [exact Hcall0|exact Hn]|reflexivity]]. apply forward_bump; cbn; try reflexivity; lia.
Qed.

Lemma map_snapshot_next m : manifest_u m -> manifest_ok m = true -> snapshot_valid (mapStoreSnapshot m) = true -> mf_NextMap m = mf_ActiveMap m + 1.
Proof.
  intros Hu Hv E. destruct (manifest_facts_of m Hv) as [_ _ (_ & F1 & _ & F2) _ _ _ _ _]. destruct Hu. unfold is_u32 in *. unfold snapshot_valid in E. apply andb_true_iff in E as [E _]. do 2 apply andb_true_iff in E as [E _]. rewrite negb_true_iff, !orb_false_iff in E. destruct E as [[_ E] _]. rewrite negb_false_iff in E. apply Z.eqb_eq in E. cbn [mapStoreSnapshot cs_NextSegment cs_ActiveSegment] in E. rewrite E. apply Z.mod_small. lia.
Qed.

(** C34: what a manifest that validates gives to the two stores: the snapshot for the
    record log always passes that log's [validate]; the snapshot for the mapping store
    passes that store's [validate] exactly when the next mapping segment id is the one
    after the active id, which [Validate] does not ask. *)
Theorem manifest_serves_stores m : manifest_u m -> manifest_ok m = true ->
  log_snapshot_valid (recordLogSnapshot m) = true /\ (snapshot_valid (mapStoreSnapshot m) = true <-> mf_NextMap m = mf_ActiveMap m + 1).
Proof. intros Hu Hv. split; [now apply log_snapshot_ok|]. split; [now apply map_snapshot_next|intros Hn; now apply map_snapshot_valid]. Qed.

Lemma history_forward m n k : serves m -> nsteps transition k m n -> serves n /\ forward m n /\ mf_Generation n = mf_Generation m + Z.of_nat k.
Proof.
  intros Hm Hs. induction Hs as [m|k m m' n T Hs IH]; [split; [exact Hm|]; split; [reflexivity|lia]|]. destruct (transition_forward _ _ Hm T) as (H1 & H2 & H3). destruct (IH H2) as (H4 & H5 & H6).
  split; [exact H4|]. split; [etransitivity; eassumption|lia].
Qed.

(** C23: along every history of catalog transitions the manifest stays valid and
    can still be served to both stores, the identity of the store never changes,
    the generation counts the transitions, and the data and mapping segment ids, the compaction
    floor, the checkpoint's cut and the reserved id ranges each move in one
    direction only. *)
Theorem catalog_history_forward m n k : serves m -> nsteps transition k m n -> serves n /\ forward m n /\ mf_Generation n = mf_Generation m + Z.of_nat k.
Proof. apply history_forward. Qed.

Lemma reserved_range m expect count next ids id : ReserveCompactionSegments m expect count = Ok (next, ids) -> 0 <= count -> id ∈ ids ->
  floor_top next < id <= floor_top m /\ CompactionSegmentBase <= id.
Proof.
  intros E Hc Hid. apply reserve_inv in E as (-> & _ & -> & Hc' & Hb & _); [|exact Hc]. apply list_elem_of_fmap in Hid as (i & -> & Hi). apply elem_of_seq in Hi.
  unfold floor_top at 1. cbn [mf_CompactionFloor set_data]. unfold CompactionSegmentBase in *. destruct (_ - 1 =? 0) eqn:E0; bool_norm; lia.
Qed.

(** No compaction output is above the floor. *)
Lemma sealed_above active floor size id segs : forall p, data_set_ok active floor size p segs = true -> active < CompactionSegmentBase -> CompactionSegmentBase <= id -> id ∈ map ds_SegmentID segs -> floor <> 0 /\ floor < id.
Proof.
  induction segs as [|s segs IH]; intros p E Ha Hid Hin; [now apply not_elem_of_nil in Hin|]. cbn [data_set_ok map] in *. apply elem_of_cons in Hin as [->|Hin].
  - bool_norm. unfold data_id_ok in *. match goal with H : _ || _ = true |- _ => apply orb_true_iff in H as [H|H] end; bool_norm; [lia|auto].
  - bool_norm. eauto.
Qed.

(** Reserved compaction segment ids are fresh: they are distinct, no sealed
    segment has one of them, and no reservation later in any history returns one
    of them again. *)
Theorem reserved_ids_fresh m expect count next ids n expect' count' next' ids' :
  serves m -> 0 <= count -> 0 <= count' ->
  ReserveCompactionSegments m expect count = Ok (next, ids) -> rtc transition next n -> ReserveCompactionSegments n expect' count' = Ok (next', ids') ->
  NoDup ids /\ len ids = count /\ (forall id, id ∈ ids -> id ∉ map ds_SegmentID (mf_SealedData m) /\ id ∉ ids').
Proof.
  intros Hm Hc Hc' E Hr E'. pose proof (reserve_inv _ _ _ _ _ E Hc) as (Hn & Hv & Hi & Hpos & _). split; [|split].
  - rewrite Hi. apply NoDup_fmap_2; [intros i j ?; lia|apply NoDup_seq].
  - rewrite Hi. unfold len. rewrite length_map, length_seq. lia.
  - intros id Hid. destruct (reserved_range _ _ _ _ _ id E Hc Hid) as [R1 R2]. split.
    + intros Hin. destruct Hm as [Hm _]. destruct (manifest_facts_of m Hm) as [_ _ _ _ Fd _ _ _]. unfold validateDataSet in Fd. bool_norm.
      match goal with H : data_set_ok _ _ _ _ _ = true |- _ => destruct (sealed_above _ _ _ id _ _ H) as [S1 S2]; auto end. unfold floor_top in R1. replace (mf_CompactionFloor m =? 0) with false in R1 by (symmetry; now apply Z.eqb_neq). lia.
    + intros Hid'. destruct (reserved_range _ _ _ _ _ id E' Hc' Hid') as [R3 _]. apply rtc_nsteps in Hr as [k Hr].
      assert (Hnext : serves next) by (destruct (transition_forward m next Hm (tr_reserve m expect count next ids Hc E)) as (_ & H & _); exact H).
      destruct (history_forward next n k Hnext Hr) as (_ & Hf & _). pose proof (fo_floor _ _ Hf). lia.
Qed.

(** ** Dropping data segments *)

(** Nothing that the store still needs is in the segment. *)
Definition droppable (m : Manifest) (s : DataSegmentSummary) : Prop :=
  s ∈ mf_SealedData m /\ ds_SegmentID s <> mf_ActiveData m /\
  (IsCompactionSegment (ds_SegmentID s) = true \/ ~ pos_le (mf_ReplayStart m) (mkPos (ds_SegmentID s) (ds_ValidEnd s))) /\
  forall st, st ∈ mf_SegmentStats m -> sst_SegmentID st = ds_SegmentID s -> sst_LiveBytes st = 0 /\ sst_LiveRecords st = 0.

Lemma has_live_false st : has_live st = false -> sst_LiveBytes st = 0 /\ sst_LiveRecords st = 0.
Proof. unfold has_live. intros E. bool_norm. auto. Qed.

Lemma stats_known m s : StatsKnownForSegment (mf_ReplayStart m) s = true ->
  IsCompactionSegment (ds_SegmentID s) = true \/ ~ pos_le (mf_ReplayStart m) (mkPos (ds_SegmentID s) (ds_ValidEnd s)).
Proof.
  unfold StatsKnownForSegment. intros E. apply orb_true_iff in E as [E|E]; [auto|right]. apply Z.ltb_lt in E. unfold LogPos_Compare in E. destruct (_ || _) eqn:Eo; [|destruct (bool_decide _); lia].
  unfold pos_le. cbn [pos_SegmentID pos_Offset] in *. apply orb_true_iff in Eo as [Eo|Eo]; bool_norm; lia.
Qed.

Lemma remove_first_perm s l rest : remove_first s l = Some rest -> l ≡ₚ s :: rest.
Proof.
  revert rest. induction l as [|x l IH]; intros rest E; [discriminate|]. cbn in E. case_bool_decide as Ex; [injection E as <-; now subst|]. destruct (remove_first s l) as [r|]; [|discriminate]. injection E as <-.
  rewrite (IH r eq_refl). apply Permutation_swap.
Qed.

(** A strictly ascending list has one entry per segment. *)
Lemma stats_live_unique m stats : forall p live r, stats_live m p live stats = Some r ->
  Forall (fun st => p < sst_SegmentID st) stats /\ forall a b, a ∈ stats -> b ∈ stats -> sst_SegmentID a = sst_SegmentID b -> a = b.
Proof.
  induction stats as [|st stats IH]; intros p live r E; [split; [constructor|intros a b Ha; now apply not_elem_of_nil in Ha]|]. cbn [stats_live] in E. destruct (_ || _) eqn:E1 in E; [discriminate|]. destruct (_ || _) in E; [discriminate|]. destruct (stat_ok m st); [|discriminate].
  destruct (IH _ _ _ E) as [H1 H2]. bool_norm. split; [constructor; [lia|]; eapply Forall_impl; [exact H1|]; cbn; lia|]. rewrite Forall_forall in H1.
  intros a b Ha Hb Eab. apply elem_of_cons in Ha as [->|Ha], Hb as [->|Hb]; auto; [apply H1 in Hb; lia|apply H1 in Ha; lia].
Qed.

Lemma manifest_stats_unique m a b : manifest_ok m = true -> a ∈ mf_SegmentStats m -> b ∈ mf_SegmentStats m -> sst_SegmentID a = sst_SegmentID b -> a = b.
Proof. intros E. unfold manifest_ok in E. apply andb_true_iff in E as [_ E]. destruct (stats_live _ _ _ _) eqn:El; [|discriminate]. apply (stats_live_unique _ _ _ _ _ El). Qed.

Lemma retire_drops update m n : (forall a b, a ∈ mf_SegmentStats m -> b ∈ mf_SegmentStats m -> sst_SegmentID a = sst_SegmentID b -> a = b) -> applyDataRetire update m = Ok n -> droppable m (rt_Source update) /\ mf_SealedData m ≡ₚ rt_Source update :: mf_SealedData n.
Proof.
  intros Hv E. unfold applyDataRetire in E. inv_ok E. destruct (remove_first _ _) as [rest|] eqn:Er; [|discriminate]. inv_ok E. apply Ok_inj in E. subst n. apply remove_first_perm in Er. split; [|exact Er].
  bool_norm. split; [rewrite Er; apply list_elem_of_here|]. split; [assumption|]. split; [now apply stats_known|]. intros st Hst Eid.
  destruct (List.find _ _) as [st'|] eqn:Ef.
  - apply List.find_some in Ef as [Hin Eq]. apply Z.eqb_eq in Eq. replace st with st' by (apply Hv; [now apply list_elem_of_In|exact Hst|congruence]). now apply has_live_false.
  - apply list_elem_of_In in Hst. eapply List.find_none in Ef; [|exact Hst]. apply Z.eqb_neq in Ef. congruence.
Qed.

Lemma collect_inputs_spec m inputs : forall remove r, collect_inputs m remove inputs = Ok r ->
  (forall id s, r !! id = Some s -> remove !! id = Some s \/ (s ∈ inputs /\ ds_SegmentID s = id)) /\
  Forall (fun s => ds_SegmentID s <> mf_ActiveData m /\ StatsKnownForSegment (mf_ReplayStart m) s = true /\ forall st, st ∈ mf_SegmentStats m -> sst_SegmentID st = ds_SegmentID s -> has_live st = false) inputs.
Proof.
  induction inputs as [|s inputs IH]; intros remove r E; cbn in E; [apply Ok_inj in E; subst r; split; [auto|constructor]|]. inv_ok E. destruct (IH _ _ E) as [H1 H2]. bool_norm. split.
  - intros id x Hx. destruct (H1 id x Hx) as [Hx'|[Hx' Eid]]; [|right; split; [now apply list_elem_of_further|exact Eid]]. apply lookup_insert_Some in Hx' as [[<- <-]|[_ Hx']]; [right; split; [apply list_elem_of_here|reflexivity]|auto].
  - constructor; [|exact H2]. split; [assumption|]. split; [assumption|]. intros st Hst Eid. destruct (has_live st) eqn:Eh; [|reflexivity]. exfalso.
    match goal with H : existsb _ _ = false |- _ => rewrite <- Bool.not_true_iff_false in H; apply H end. apply existsb_exists. exists st. split; [now apply list_elem_of_In|]. rewrite Eid, Z.eqb_refl. exact Eh.
Qed.

Lemma remove_inputs_spec segs : forall remove kept pending, remove_inputs remove segs = Ok (kept, pending) ->
  (forall s, s ∈ segs -> s ∈ kept \/ remove !! ds_SegmentID s = Some s) /\ (forall s, s ∈ kept -> s ∈ segs).
Proof.
  induction segs as [|x segs IH]; intros remove kept pending E; cbn in E; [injection E as <- <-; split; auto; intros s Hs; now apply not_elem_of_nil in Hs|].
  destruct (remove !! ds_SegmentID x) as [want|] eqn:Ex.
  - inv_ok E. bool_norm. subst want. destruct (IH _ _ _ E) as [H1 H2]. split; [|intros s Hs; apply list_elem_of_further; auto]. intros s Hs. apply elem_of_cons in Hs as [->|Hs]; [auto|].
    destruct (H1 s Hs) as [H|H]; [auto|]. apply lookup_delete_Some in H. tauto.
  - destruct (remove_inputs remove segs) as [[kept' pending']|e] eqn:Er; [|discriminate]. injection E as <- <-. destruct (IH _ _ _ Er) as [H1 H2]. split.
    + intros s Hs. apply elem_of_cons in Hs as [->|Hs]; [left; apply list_elem_of_here|]. destruct (H1 s Hs) as [H|H]; [left; now apply list_elem_of_further|auto].
    + intros s Hs. apply elem_of_cons in Hs as [->|Hs]; [apply list_elem_of_here|apply list_elem_of_further; auto].
Qed.

Lemma compaction_drops inputs covered pos m n : apply_compaction inputs covered pos m = Ok n ->
  (forall s, s ∈ mf_SealedData m -> s ∈ mf_SealedData n \/ droppable m s) /\ (forall s, s ∈ mf_SealedData n -> s ∈ mf_SealedData m).
Proof.
  intros E. unfold apply_compaction in E. destruct (_ || _ || _); [discriminate|]. destruct (collect_inputs m ∅ inputs) as [rem|] eqn:Ec; [|discriminate]. destruct (remove_inputs rem _) as [[kept pending]|] eqn:Er; [|discriminate]. inv_ok E. apply Ok_inj in E. subst n. cbn [mf_SealedData set_stats set_data].
  destruct (collect_inputs_spec _ _ _ _ Ec) as [H1 H2]. destruct (remove_inputs_spec _ _ _ _ Er) as [H3 H4]. split; [|exact H4]. intros s Hs. destruct (H3 s Hs) as [H|H]; [auto|right].
  destruct (H1 _ _ H) as [H5|[H5 _]]; [now rewrite lookup_empty in H5|]. rewrite Forall_forall in H2. destruct (H2 s H5) as (H6 & H7 & H8). split; [exact Hs|]. split; [exact H6|]. split; [now apply stats_known|].
  intros st Hst Eid. apply has_live_false. eauto.
Qed.

Lemma insert_elem x y l : x ∈ insert_data y l <-> x = y \/ x ∈ l.
Proof. induction l as [|z l IH]; cbn; [set_solver|]. destruct (_ <? _); [set_solver|]. rewrite !elem_of_cons, IH. tauto. Qed.

Lemma sort_elem x l : x ∈ sortDataSegments l <-> x ∈ l.
Proof. induction l as [|z l IH]; [reflexivity|]. cbn. rewrite insert_elem, IH, elem_of_cons. tauto. Qed.

Lemma add_outputs_keeps x outs : forall fl l r, add_outputs fl l outs = Ok r -> x ∈ l -> x ∈ r.
Proof. induction outs as [|o outs IH]; intros fl l r E Hx; cbn in E; [apply Ok_inj in E; now subst|]. inv_ok E. apply (IH _ _ _ E), elem_of_app. auto. Qed.

(** C24: the catalog drops a data segment only when it may: a transition that
    removes a sealed segment removes one that is not active, has no live record in the
    statistics of the checkpoint, and either lies behind the replay start or is the
    output of a compaction, wherever the replay start is. *)
Theorem dropped_segments_are_dead m next s : serves m -> transition m next -> s ∈ mf_SealedData m -> s ∉ mf_SealedData next -> droppable m s.
Proof.
  intros [Hv Hn] T Hs Hgone. set (m1 := set_generation m (mf_Generation m + 1)).
  assert (Hkeep : forall l, (forall x, x ∈ mf_SealedData m -> x ∈ l) -> mf_SealedData next = l -> droppable m s) by (intros l Hl El; exfalso; apply Hgone; rewrite El; auto).
  assert (Hret : forall up n, applyDataRetire up m1 = Ok n -> s ∉ mf_SealedData n -> droppable m s).
  { intros up n E Hg. destruct (retire_drops up m1 n (fun a b => manifest_stats_unique m a b Hv) E) as [Hd Hp]. change (mf_SealedData m1) with (mf_SealedData m) in Hp.
    rewrite Hp in Hs. apply elem_of_cons in Hs as [->|Hs]; [exact Hd|contradiction]. }
  destruct T as [ex up n E|ex co n ids Hc E|ex out n E|ex up n Hu E|base up n Hu E|base up n E|ex inp cov pos n E|ex up n E|mi se n E].
  - apply install_inv in E as (E & _). unfold apply_data_rotation in E. inv_ok E. apply Ok_inj in E. eapply Hkeep; [|subst n; reflexivity]. intros x Hx. apply sort_elem, elem_of_app. auto.
  - apply reserve_inv in E as (-> & _); [|exact Hc]. eapply Hkeep; [|reflexivity]. auto.
  - apply install_inv in E as (E & _). unfold apply_outputs in E. inv_ok E. apply Ok_inj in E. eapply Hkeep; [|subst n; reflexivity]. intros x Hx. apply sort_elem.
    eapply add_outputs_keeps; [exact Hcall|exact Hx].
  - apply install_inv in E as (E & _). unfold apply_map_rotation in E. inv_ok E. apply Ok_inj in E. apply (Hkeep (mf_SealedData m)); [auto|now subst n].
  - apply install_rebased_inv in E as (E & _). apply rewrite_first in E as (_ & _ & _ & ->). eapply Hkeep; [|reflexivity]. auto.
  - apply install_rebased_inv in E as (E & _). unfold applyCheckpoint in E. inv_ok E. apply Ok_inj in E. apply (Hkeep (mf_SealedData m)); [auto|now subst n].
  - apply install_inv in E as (E & _). destruct (compaction_drops _ _ _ _ _ E) as [H1 _]. destruct (H1 s Hs) as [H|H]; [contradiction|exact H].
  - apply install_inv in E as (E & _). eapply Hret; eauto.
  - unfold RemoveRecordLogSegment in E. inv_ok E. apply Ok_inj in E. subst. eapply Hret; eauto.
Qed.

(** ** Examples *)

Definition demo_limits : HardLimits := mkHardLimits 8192 1024 4096 16 16 8 2048 64 64.
Definition demo_uuid : list Z := [1; 2; 3; 4; 5; 6; 7; 8; 9; 10; 11; 12; 13; 14; 15; 16].

(** A new store. *)
Definition demo_manifest : Manifest :=
  mkManifest 1 demo_uuid demo_limits demo_uuid 1 2 0 [] 1 2 [] 0 0 0 (mkPos 1 64) 1 1 1 [] 0 [].

Definition demo_data (id count : Z) : DataSegmentSummary := mkData id 128 count (id * two32 + 64) (id * two32 + 64).

(** A store with two sealed data segments, one of them dead, and a mapping root. *)
Definition demo_full : Manifest :=
  mkManifest 9 demo_uuid demo_limits demo_uuid 3 4 4294967290 [demo_data 1 1; demo_data 2 1; demo_data 4294967293 1] 2 3 [mkMap 1 128] (two32 * 2 + 64) 1 7 (mkPos 3 64) 100 100 50 [2; 7] 7
    [mkStats 2 64 1].

Ltac manifest_u := constructor; unfold pos_u, data_u, map_u, stats_u; cbn [demo_manifest demo_full demo_data demo_limits demo_uuid limits_of mf_Generation mf_StoreUUID mf_RecordLogID mf_HardLimits mf_ActiveData mf_NextData mf_CompactionFloor mf_ActiveMap mf_NextMap
    mf_SealedData mf_SealedMap mf_MappingRoot mf_MappingEntryCount mf_CoveredCommitSeq mf_ReplayStart mf_ReservedIDHigh mf_ReservedBatchIDHigh mf_IssuedBatchIDHighAtCut mf_OpenBatchIDsAtCut mf_StatsCoveredCommitSeq mf_SegmentStats
    hl_SegmentSize hl_MaxValueSize hl_MaxBatchBytes hl_MaxBatchMutations hl_MaxBatchConditions hl_MaxOpenBatches hl_MaxRecordLogPayload hl_IDReserveSize hl_BatchIDReserveSize pos_SegmentID pos_Offset
    ds_SegmentID ds_ValidEnd ds_RecordCount ds_FirstAddr ds_LastAddr ms_SegmentID ms_ValidEnd sst_SegmentID sst_LiveBytes sst_LiveRecords length]; unfold bytes_ok, demo_uuid, limits_of, demo_limits; solve_u.

Lemma demo_manifest_u : manifest_u demo_manifest.
Proof. manifest_u. Qed.
Lemma demo_full_u : manifest_u demo_full.
Proof. manifest_u. Qed.
Lemma demo_manifest_serves : serves demo_manifest.
Proof. split; vm_compute; reflexivity. Qed.
Lemma demo_full_serves : serves demo_full.
Proof. split; vm_compute; reflexivity. Qed.

(** A manifest that validates and skips mapping segment ids. *)
Definition demo_skipping : Manifest :=
  mkManifest 1 demo_uuid demo_limits demo_uuid 1 2 0 [] 1 5 [] 0 0 0 (mkPos 1 64) 1 1 1 [] 0 [].

Lemma demo_skipping_u : manifest_u demo_skipping.
Proof. unfold demo_skipping. manifest_u. Qed.

Lemma manifest_serves_stores_witness :
  (log_snapshot_valid (recordLogSnapshot demo_full) = true /\ snapshot_valid (mapStoreSnapshot demo_full) = true) /\
  (Validate demo_skipping = Ok tt /\ snapshot_valid (mapStoreSnapshot demo_skipping) <> true).
Proof.
  split.
  - destruct (manifest_serves_stores demo_full demo_full_u (proj1 demo_full_serves)) as [H1 H2]. split; [exact H1|]. apply H2. reflexivity.
  - split; [vm_compute; reflexivity|]. intros H. apply (manifest_serves_stores demo_skipping demo_skipping_u) in H; [discriminate|vm_compute; reflexivity].
Defined.

Definition demo_rotation : DataRotation := mkDataRotation (mkData 3 64 0 0 0) 4 5.
Definition demo_rotated : Manifest := match InstallDataRotation demo_full 9 demo_rotation with Ok m => m | Err _ => demo_full end.

Lemma demo_rotation_ok : InstallDataRotation demo_full 9 demo_rotation = Ok demo_rotated.
Proof. vm_compute. reflexivity. Qed.

Lemma catalog_history_forward_witness : serves demo_rotated /\ forward demo_full demo_rotated /\ mf_Generation demo_rotated = 10.
Proof.
  apply (catalog_history_forward demo_full demo_rotated 1 demo_full_serves). apply nsteps_once. exact (tr_data_rotation demo_full 9 demo_rotation demo_rotated demo_rotation_ok).
Defined.

Definition demo_reserved : Manifest := match ReserveCompactionSegments demo_full 9 3 with Ok (m, _) => m | Err _ => demo_full end.

Lemma reserved_ids_fresh_witness : NoDup [4294967288; 4294967289; 4294967290] /\ forall id, id ∈ [4294967288; 4294967289; 4294967290] -> id ∉ [4294967286; 4294967287].
Proof.
  destruct (reserved_ids_fresh demo_full 9 3 demo_reserved [4294967288; 4294967289; 4294967290] demo_reserved 10 2 (match ReserveCompactionSegments demo_reserved 10 2 with Ok (m, _) => m | Err _ => demo_full end) [4294967286; 4294967287]) as (H1 & _ & H2);
    [apply demo_full_serves|lia|lia|vm_compute; reflexivity|apply rtc_refl|vm_compute; reflexivity|].
  split; [exact H1|]. intros id Hid. apply (H2 id Hid).
Defined.

Lemma dropped_segments_are_dead_witness : droppable demo_full (demo_data 1 1).
Proof.
  apply (dropped_segments_are_dead demo_full (match RemoveRecordLogSegment demo_full 9 (demo_data 1 1) with Ok m => m | Err _ => demo_full end) (demo_data 1 1) demo_full_serves).
  - apply (tr_remove demo_full 9 (demo_data 1 1)). vm_compute. reflexivity.
  - apply list_elem_of_here.
  - apply (bool_decide_eq_true_1 (demo_data 1 1 ∉ _)). vm_compute. reflexivity.
Defined.

(** The exception is real: an output is dropped although the replay start is before it. *)
Example output_dropped_ahead : exists next, RemoveRecordLogSegment demo_full 9 (demo_data 4294967293 1) = Ok next /\ demo_data 4294967293 1 ∉ mf_SealedData next /\
  pos_le (mf_ReplayStart demo_full) (mkPos 4294967293 (ds_ValidEnd (demo_data 4294967293 1))).
Proof.
  exists (match RemoveRecordLogSegment demo_full 9 (demo_data 4294967293 1) with Ok m => m | Err _ => demo_full end). split; [vm_compute; reflexivity|]. split; [apply (bool_decide_eq_true_1 (demo_data 4294967293 1 ∉ _)); vm_compute; reflexivity|].
  left. vm_compute. reflexivity.
Qed.
