(* ===== verification/CatalogRebase.v ===== *)
(** * Rebasing a checkpoint over data rotations

    [checkpointBaseCompatible] is meant to admit a checkpoint built from a
    snapshot of the catalog when only data segments have rotated since.  It does
    when the snapshot had a sealed data segment; from a snapshot without one, the
    comparison of two empty slices, one nil and one not, rejects the checkpoint. *)
From S2P Require Import Prelude Bytes Addr RecordFormat RecordCodec MapNode MapSegment Catalog CatalogSpec.

(** ** [sort.Search] *)

Lemma search_loop_spec f n fuel : forall i j, (i <= j <= n)%nat -> (j - i < fuel)%nat -> (forall k, (k < i)%nat -> f k = false) -> (forall k, (j <= k < n)%nat -> f k = true) ->
  (forall a b, (a <= b < n)%nat -> f a = true -> f b = true) ->
  let r := search_loop fuel f i j in (r <= n)%nat /\ (forall k, (k < r)%nat -> f k = false) /\ (forall k, (r <= k < n)%nat -> f k = true).
Proof.
  induction fuel as [|fuel IH]; intros i j Hij Hf Hlo Hhi Hmono; [lia|]. cbn [search_loop]. destruct (i <? j)%nat eqn:E.
  - apply Nat.ltb_lt in E. pose proof (Nat.div2_odd (i + j)) as Hd. assert (Hh : (i <= Nat.div2 (i + j) < j)%nat) by (destruct (Nat.odd (i + j)); cbn [Nat.b2n] in Hd; lia). set (h := Nat.div2 (i + j)) in *. clearbody h. clear Hd.
    destruct (f h) eqn:Eh.
    + apply IH; auto; try lia. intros k Hk. apply (Hmono h k); [lia|exact Eh].
    + apply IH; auto; try lia. intros k Hk. destruct (f k) eqn:Ek; [|reflexivity]. rewrite (Hmono k h) in Eh; [discriminate|lia|exact Ek].
  - apply Nat.ltb_ge in E. assert (i = j) by lia. subst j. cbv zeta. split; [lia|]. auto.
Qed.

Lemma sort_Search_spec n f : (forall a b, (a <= b < n)%nat -> f a = true -> f b = true) ->
  (sort_Search n f <= n)%nat /\ (forall k, (k < sort_Search n f)%nat -> f k = false) /\ (forall k, (sort_Search n f <= k < n)%nat -> f k = true).
Proof. intros Hm. unfold sort_Search. apply (search_loop_spec f n); auto; lia. Qed.

(** Normal segments before compaction outputs. *)
Definition normal (active : Z) (s : DataSegmentSummary) : Prop := ds_SegmentID s < active.
Definition output (s : DataSegmentSummary) : Prop := CompactionSegmentBase <= ds_SegmentID s.

Lemma split_spec active N O : active <= CompactionSegmentBase -> Forall (normal active) N -> Forall output O -> splitDataSegments (N ++ O) = (N, O).
Proof.
  intros Ha HN HO. unfold splitDataSegments. set (f := fun i => IsCompactionSegment (ds_SegmentID (nth i (N ++ O) zero_data))).
  assert (F1 : forall k, (k < length N)%nat -> f k = false).
  { intros k Hk. unfold f. rewrite app_nth1 by exact Hk. rewrite Forall_forall in HN. assert (Hin : nth k N zero_data ∈ N) by (apply list_elem_of_In, nth_In, Hk). apply HN in Hin. unfold normal in Hin. unfold IsCompactionSegment. apply Z.leb_gt. lia. }
  assert (F2 : forall k, (length N <= k < length (N ++ O))%nat -> f k = true).
  { intros k Hk. rewrite length_app in Hk. unfold f. rewrite app_nth2 by lia. rewrite Forall_forall in HO. assert (Hin : nth (k - length N) O zero_data ∈ O) by (apply list_elem_of_In, nth_In; lia). apply HO in Hin. unfold output in Hin. unfold IsCompactionSegment. apply Z.leb_le. lia. }
  destruct (sort_Search_spec (length (N ++ O)) f) as (S1 & S2 & S3).
  { intros a b Hab Ea. destruct (le_lt_dec (length N) a) as [Hl|Hl]; [apply F2; lia|]. rewrite F1 in Ea by exact Hl. discriminate. }
  assert (E : sort_Search (length (N ++ O)) f = length N).
  { rewrite length_app in *. destruct (lt_eq_lt_dec (sort_Search (length N + length O) f) (length N)) as [[L|L]|L]; [|exact L|].
    - assert (Et : f (sort_Search (length N + length O) f) = true) by (apply S3; lia). rewrite F1 in Et by exact L. discriminate.
    - pose proof (S2 (length N) L) as Et. rewrite F2 in Et by lia. discriminate. }
  rewrite E. now rewrite take_app_length, drop_app_length.
Qed.

(** ** Where a rotation puts the sealed segment *)

Definition ascending (l : list DataSegmentSummary) : Prop := StronglySorted (fun a b => ds_SegmentID a < ds_SegmentID b) l.

Lemma insert_front x l : Forall (fun y => ds_SegmentID x < ds_SegmentID y) l -> insert_data x l = x :: l.
Proof. destruct l as [|y l]; intros H; [reflexivity|]. cbn. apply Forall_cons in H as [H _]. now rewrite (proj2 (Z.ltb_lt _ _) H). Qed.

Lemma sort_placed N s O : ascending (N ++ s :: O) -> sortDataSegments (N ++ O ++ [s]) = N ++ s :: O.
Proof.
  unfold sortDataSegments, ascending. induction N as [|x N IH]; cbn [app]; intros H.
  - inversion H as [|? ? Hs Hf]; subst. rewrite foldr_app. cbn [foldr insert_data]. clear H. induction O as [|y O IHO]; [reflexivity|]. cbn [foldr]. inversion Hs as [|? ? Hs' Hy]; subst. apply Forall_cons in Hf as [Hf1 Hf2].
    rewrite (IHO Hs' Hf2). cbn [insert_data]. replace (_ <? _) with false by (symmetry; apply Z.ltb_ge; lia). now rewrite (insert_front y O Hy).
  - inversion H as [|? ? Hs Hf]; subst. cbn [foldr]. rewrite (IH Hs). now apply insert_front.
Qed.

Lemma data_set_split active floor size segs : active <= CompactionSegmentBase -> forall p, data_set_ok active floor size p segs = true ->
  ascending segs /\ Forall (fun s => p < ds_SegmentID s) segs /\ exists N O, segs = N ++ O /\ Forall (normal active) N /\ Forall output O.
Proof.
  intros Ha. induction segs as [|s segs IH]; intros p E; [split; [constructor|]; split; [constructor|]; exists [], []; auto|]. cbn [data_set_ok] in E. apply andb_true_iff in E as [E Er]. apply andb_true_iff in E as [E _]. destruct (IH _ Er) as (H1 & H2 & N & O & -> & H3 & H4).
  bool_norm. split; [constructor; assumption|]. split; [constructor; [lia|]; eapply Forall_impl; [exact H2|]; cbn; lia|].
  unfold data_id_ok in *. match goal with H : _ || _ = true |- _ => apply orb_true_iff in H as [Hr|Hr] end; bool_norm.
  - exists (s :: N), O. split; [reflexivity|]. split; [constructor; assumption|exact H4].
  - exists [], (s :: N ++ O). split; [reflexivity|]. split; [constructor|]. unfold IsCompactionSegment in *. bool_norm. constructor; [unfold output; lia|]. eapply Forall_impl; [exact H2|]. unfold output. cbn. lia.
Qed.

Definition data_rotation (m n : Manifest) : Prop := exists expect update, InstallDataRotation m expect update = Ok n.

Lemma manifest_split m : manifest_ok m = true -> mf_ActiveData m < CompactionSegmentBase /\ mf_NextData m = (mf_ActiveData m + 1) mod two32 /\ ascending (mf_SealedData m) /\
  exists N O, mf_SealedData m = N ++ O /\ Forall (normal (mf_ActiveData m)) N /\ Forall output O.
Proof.
  intros Hv. destruct (manifest_facts_of m Hv) as [_ _ _ _ Fd _ _ _]. unfold validateDataSet in Fd. bool_norm. match goal with H : data_set_ok _ _ _ _ _ = true |- _ => apply data_set_split in H as (H & _ & Hx); [|lia] end. auto.
Qed.

Lemma rotation_placed m n N O : manifest_ok m = true -> data_rotation m n -> mf_SealedData m = N ++ O -> Forall (normal (mf_ActiveData m)) N -> Forall output O ->
  exists s, mf_SealedData n = N ++ s :: O /\ ds_SegmentID s = mf_ActiveData m /\ mf_ActiveData n = mf_NextData m /\ mf_NextData n = (mf_NextData m + 1) mod two32 /\
    clear_data n = clear_data m /\ mf_Generation n = mf_Generation m + 1 /\ manifest_ok n = true.
Proof.
  intros Hv (ex & up & E) Hs HN HO. destruct (manifest_split m Hv) as (Ha & _ & Hasc & _). apply install_inv in E as (E & Hok & _). unfold apply_data_rotation in E. inv_ok E. apply Ok_inj in E. bool_norm. cbn in *. assert (Eid : ds_SegmentID (dr_SealedOld up) = mf_ActiveData m) by assumption.
  exists (dr_SealedOld up). split; [|split; [assumption|]].
  - subst n. cbn [mf_SealedData set_data set_generation]. rewrite Hs, <- app_assoc. apply sort_placed. rewrite Hs in Hasc. clear -Hasc HN HO Eid Ha. unfold ascending in *.
    induction N as [|x N IH]; cbn [app] in *.
    + constructor; [exact Hasc|]. eapply Forall_impl; [exact HO|]. unfold output. cbn. lia.
    + inversion Hasc as [|? ? Hs' Hf]; subst. apply Forall_cons in HN as [Hx HN]. constructor; [auto|]. apply Forall_app in Hf as [Hf1 Hf2]. apply Forall_app. split; [exact Hf1|]. constructor; [unfold normal in Hx; lia|exact Hf2].
  - subst n. cbn in *. split; [assumption|]. split; [congruence|]. split; [reflexivity|]. auto.
Qed.

Lemma rotations_from_snoc l s : forall a n a' n', rotations_from a n l = Some (a', n') -> ds_SegmentID s = a' -> n' = (a' + 1) mod two32 -> rotations_from a n (l ++ [s]) = Some (n', (n' + 1) mod two32).
Proof.
  induction l as [|x l IH]; intros a n a' n' E Hs Hn; cbn [rotations_from app] in *.
  - injection E as -> ->. rewrite Hs, Hn, !Z.eqb_refl. reflexivity.
  - destruct (_ || _); [discriminate|]. eauto.
Qed.

(** The state after some rotations, relative to the base. *)
Lemma rotations_shape base m N O : manifest_ok base = true -> mf_SealedData base = N ++ O -> Forall (normal (mf_ActiveData base)) N -> Forall output O -> rtc data_rotation base m ->
  manifest_ok m = true /\ clear_data m = clear_data base /\ mf_Generation base <= mf_Generation m /\
  exists ext, mf_SealedData m = (N ++ ext) ++ O /\ Forall (normal (mf_ActiveData m)) (N ++ ext) /\ rotations_from (mf_ActiveData base) (mf_NextData base) ext = Some (mf_ActiveData m, mf_NextData m).
Proof.
  intros Hv Hs HN HO Hr. revert m Hr. apply rtc_ind_r; [|intros m n _ T IH].
  - split; [exact Hv|]. split; [reflexivity|]. split; [lia|]. exists []. rewrite app_nil_r. auto.
  - destruct IH as (Hm & Hc & Hg & ext & E1 & E2 & E3). destruct (rotation_placed m n _ _ Hm T E1 E2 HO) as (s & P1 & P2 & P3 & P4 & P5 & P6 & P7). destruct (manifest_split m Hm) as (_ & Hnx & _).
    destruct (manifest_facts_of m Hm) as [_ _ (_ & Hlt & _) _ _ _ _ _].
    split; [exact P7|]. split; [congruence|]. split; [lia|]. exists (ext ++ [s]). rewrite P1. split; [now rewrite <- !app_assoc|]. split.
    + rewrite app_assoc. apply Forall_app. split; [eapply Forall_impl; [exact E2|]; unfold normal; cbn; lia|]. constructor; [unfold normal; lia|constructor].
    + rewrite P3, P4. now apply (rotations_from_snoc _ _ _ _ _ _ E3).
Qed.

(** A checkpoint can be rebased over any number of data rotations: when the
    catalog has gone from [base], which had a sealed data segment, to [current]
    by data rotations only, [base] is compatible with [current]. *)
Theorem rebase_over_data_rotations base current : serves base -> mf_SealedData base <> [] -> rtc data_rotation base current -> checkpointBaseCompatible base current = true.
Proof.
  intros [Hv _] Hne Hr. destruct (manifest_split base Hv) as (Ha & _ & _ & N & O & Hs & HN & HO). destruct (rotations_shape base current N O Hv Hs HN HO Hr) as (Hm & Hc & Hg & ext & E1 & E2 & E3).
  destruct (manifest_split current Hm) as (Ha' & _). destruct (manifest_facts_of base Hv) as [Hg0 _ _ _ _ _ _ _].
  unfold checkpointBaseCompatible. replace (mf_Generation base =? 0) with false by (symmetry; now apply Z.eqb_neq). replace (_ <? _) with false by (symmetry; apply Z.ltb_ge; lia). cbn [orb].
  rewrite bool_decide_eq_true_2 by (symmetry; exact Hc). cbn [negb]. unfold outputs_equal. rewrite E1, Hs. rewrite (split_spec (mf_ActiveData base)), (split_spec (mf_ActiveData current)) by (assumption || lia). cbn [fst snd].
  rewrite bool_decide_eq_true_2 by reflexivity. rewrite !(bool_decide_eq_false_2 (_ = [])) by (rewrite Hs in Hne; intros E; apply Hne; destruct N, O, ext; first [discriminate|reflexivity|cbn in E; congruence]). cbn [andb eqb negb orb].
  rewrite len_app. replace (_ <? _) with false by (symmetry; apply Z.ltb_ge; pose proof (len_nonneg ext); lia). rewrite take_app_length, bool_decide_eq_true_2, drop_app_length by reflexivity. cbn [negb]. rewrite E3, !Z.eqb_refl. reflexivity.
Qed.

(** C33: the first data rotation of a store makes every checkpoint built before it
    fail with [ErrConflict]: with no sealed data segment in the base, the base's
    outputs are a nil slice and the outputs of the catalog an empty one, and
    [reflect.DeepEqual] tells them apart. *)
Theorem first_rotation_conflicts base current update : serves base -> mf_SealedData base = [] -> data_rotation base current ->
  InstallCheckpoint current base update = Err [storecatalog_ErrConflict].
Proof.
  intros [Hv _] Hs T. destruct (rotation_placed base current [] [] Hv T) as (s & E & _); [exact Hs|constructor|constructor|].
  assert (Hc : checkpointBaseCompatible base current = false); [|unfold InstallCheckpoint, install_rebased; rewrite Hc; reflexivity].
  unfold checkpointBaseCompatible. destruct (_ || _); [reflexivity|]. destruct (negb (bool_decide _)); [reflexivity|]. unfold outputs_equal. rewrite Hs, E. rewrite (bool_decide_eq_true_2 ([] = [])) by reflexivity. rewrite (bool_decide_eq_false_2 ([] ++ [s] = [])) by discriminate.
  cbn [eqb]. now rewrite andb_false_r.
Qed.

Lemma rebase_over_data_rotations_witness : checkpointBaseCompatible demo_full demo_rotated = true.
Proof.
  apply (rebase_over_data_rotations demo_full demo_rotated demo_full_serves); [discriminate|]. apply rtc_once. exists 9, demo_rotation. exact demo_rotation_ok.
Defined.

Definition demo_first_rotation : DataRotation := mkDataRotation (mkData 1 64 0 0 0) 2 3.
Definition demo_first : Manifest := match InstallDataRotation demo_manifest 1 demo_first_rotation with Ok m => m | Err _ => demo_manifest end.
Definition demo_checkpoint : Checkpoint := mkCheckpoint 0 0 0 (mkPos 1 64) 1 1 1 [] 0 [].

(** The same checkpoint is accepted without the rotation. *)
Lemma first_rotation_conflicts_witness :
  InstallCheckpoint demo_first demo_manifest demo_checkpoint = Err [storecatalog_ErrConflict] /\ is_ok (InstallCheckpoint demo_manifest demo_manifest demo_checkpoint) = true.
Proof.
  split; [|vm_compute; reflexivity]. apply (first_rotation_conflicts demo_manifest demo_first demo_checkpoint demo_manifest_serves eq_refl). exists 1, demo_first_rotation. vm_compute. reflexivity.
Defined.
