(* ===== verification/CatalogCodec.v ===== *)
(** * The manifest file format

    Models the codec of [internal/storecatalog/codec.go]: a 64-byte container
    header with its own checksum and the checksum of the payload, and a payload of
    typed, padded items.  [Decode] returns what [Encode] wrote, and rejects a file
    in which any one byte differs. *)
From S2P Require Import Prelude Bytes Addr Crc32 RecordFormat RecordCodec MapNode MapSegment Catalog CatalogSpec.

Definition FormatMajor : Z := 2.
Definition FormatMinor : Z := 4.
Definition containerHeaderSize : Z := 64.
Definition tlvHeaderSize : Z := 8.
Definition tlvRequired : Z := 1.
Definition tlvCount : Z := 13.
Definition manifestMagic : list Z := [82; 73; 68; 77; 86; 50; 0; 0].

Record ContainerHeader := mkContainer { ch_FormatMajor : Z; ch_FormatMinor : Z; ch_Generation : Z; ch_StoreUUID : list Z; ch_PayloadSize : Z }.

(** [(value + 7) &^ 7]; the lengths are far below [math.MaxInt]. *)
Definition align8 (value : Z) : Z := Z.ldiff (value + 7) 7.

(** ** Encoding *)

Definition encodeHardLimits (h : HardLimits) : list Z := concat (map (put_le 8) (limits_of h)).
Definition encodeData (s : DataSegmentSummary) : list Z :=
  put_le 4 (ds_SegmentID s) ++ put_le 4 (ds_ValidEnd s) ++ put_le 8 (ds_RecordCount s) ++ put_le 8 (ds_FirstAddr s) ++ put_le 8 (ds_LastAddr s).
Definition encodeDataSegments (values : list DataSegmentSummary) : list Z := put_le 4 (len values) ++ zeros 4 ++ concat (map encodeData values).
Definition encodeMap (s : MapSegmentSummary) : list Z := put_le 4 (ms_SegmentID s) ++ put_le 4 (ms_ValidEnd s).
Definition encodeMapSegments (values : list MapSegmentSummary) : list Z := put_le 4 (len values) ++ zeros 4 ++ concat (map encodeMap values).
Definition encodeCheckpoint (m : Manifest) : list Z :=
  put_le 8 (mf_CoveredCommitSeq m) ++ put_le 8 (LogPos_Uint64 (mf_ReplayStart m)) ++ put_le 8 (mf_ReservedIDHigh m) ++ put_le 8 (mf_ReservedBatchIDHigh m) ++
  put_le 8 (mf_IssuedBatchIDHighAtCut m) ++ zeros 16.
Definition encodeBatchIDs (values : list Z) : list Z := put_le 4 (len values) ++ zeros 4 ++ concat (map (put_le 8) values).
Definition encodeStat (s : SegmentStats) : list Z := put_le 4 (sst_SegmentID s) ++ zeros 4 ++ put_le 8 (sst_LiveBytes s) ++ put_le 8 (sst_LiveRecords s).
Definition encodeStats (covered : Z) (values : list SegmentStats) : list Z := put_le 8 covered ++ put_le 4 (len values) ++ zeros 4 ++ concat (map encodeStat values).
Definition encodePair32 (a b : Z) : list Z := put_le 4 a ++ put_le 4 b.

(** The items of [Encode]; the types are their positions, from 1. *)
Definition manifest_items (m : Manifest) : list (list Z) :=
  [encodeHardLimits (mf_HardLimits m); mf_RecordLogID m; encodePair32 (mf_ActiveData m) (mf_NextData m); encodeDataSegments (mf_SealedData m);
   encodePair32 (mf_ActiveMap m) (mf_NextMap m); encodeMapSegments (mf_SealedMap m); put_le 8 (mf_MappingRoot m); encodeCheckpoint m;
   encodeBatchIDs (mf_OpenBatchIDsAtCut m); encodeStats (mf_StatsCoveredCommitSeq m) (mf_SegmentStats m); put_le 8 (mf_MappingEntryCount m); put_le 4 (mf_CompactionFloor m)].

Fixpoint payload_size (size : Z) (items : list (list Z)) : res Z :=
  match items with
  | [] => Ok size
  | value :: rest =>
      let padded := align8 (len value) in
      raise [storecatalog_ErrInvalid] when maxManifestPayload - tlvHeaderSize - padded <? size ;;
      payload_size (size + tlvHeaderSize + padded) rest
  end.

Definition encode_item (typ : Z) (value : list Z) : list Z :=
  put_le 2 typ ++ put_le 2 tlvRequired ++ put_le 4 (len value) ++ value ++ zeros (Z.to_nat (align8 (len value) - len value)).
Fixpoint encode_items (typ : Z) (items : list (list Z)) : list Z :=
  match items with [] => [] | value :: rest => encode_item typ value ++ encode_items (typ + 1) rest end.

(** The header up to its own checksum. *)
Definition container_head (m : Manifest) (payload : list Z) : list Z :=
  manifestMagic ++ put_le 2 FormatMajor ++ put_le 2 FormatMinor ++ put_le 2 containerHeaderSize ++ zeros 2 ++ put_le 8 (mf_Generation m) ++ mf_StoreUUID m ++
  put_le 8 (len payload) ++ put_le 4 (Checksum payload).

Definition Encode (m : Manifest) : res (list Z) :=
  let! _ := Validate m in
  let! _ := payload_size 0 (manifest_items m) in
  let payload := encode_items 1 (manifest_items m) in
  Ok (with_crc (container_head m payload) ++ zeros 8 ++ payload).

(** ** Decoding *)

Definition InspectHeader (src : list Z) : res ContainerHeader :=
  raise [storecatalog_ErrCorrupt] when (len src <? containerHeaderSize) || negb (magic_is manifestMagic src) ;;
  raise [storecatalog_ErrCorrupt] when
    negb (u16 12 src =? containerHeaderSize) || negb (u16 14 src =? 0) || negb (all_zero (slice 56 64 src)) || negb (u32 52 src =? Checksum (slice 0 52 src)) ;;
  let header := mkContainer (u16 8 src) (u16 10 src) (u64 16 src) (slice 24 40 src) (u64 40 src) in
  raise [storecatalog_ErrCorrupt] when (ch_FormatMajor header =? 0) || (ch_Generation header =? 0) || all_zero (ch_StoreUUID header) ;;
  raise [storecatalog_ErrCorrupt] when
    (maxManifestPayload <? ch_PayloadSize header) || negb (ch_PayloadSize header =? len src - containerHeaderSize) || negb (u32 48 src =? Checksum (drop 64 src)) ;;
  Ok header.

(** The loop of [decodeTLVs] on the rest of the payload; each item takes eight
    bytes or more, so the number of bytes is enough fuel. *)
Fixpoint decodeTLVs_loop (fuel : nat) (src : list Z) (items : gmap Z (list Z)) : res (gmap Z (list Z)) :=
  if len src =? 0 then Ok items
  else match fuel with
  | O => Err [storecatalog_ErrCorrupt]
  | S fuel' =>
      raise [storecatalog_ErrCorrupt] when len src <? tlvHeaderSize ;;
      let typ := u16 0 src in
      let flags := u16 2 src in
      let length := u32 4 src in
      let padded := align8 length in
      raise [storecatalog_ErrCorrupt] when negb (Z.ldiff flags tlvRequired =? 0) || (padded <? length) || (len src - tlvHeaderSize <? padded) ;;
      raise [storecatalog_ErrCorrupt] when negb (all_zero (slice (Z.to_nat (8 + length)) (Z.to_nat (8 + padded)) src)) ;;
      let rest := drop (Z.to_nat (8 + padded)) src in
      if (typ =? 0) || (tlvCount <=? typ) then
        raise [storecatalog_ErrUnsupported] when negb (Z.land flags tlvRequired =? 0) ;; decodeTLVs_loop fuel' rest items
      else
        raise [storecatalog_ErrCorrupt] when Z.land flags tlvRequired =? 0 ;;
        raise [storecatalog_ErrCorrupt] when bool_decide (is_Some (items !! typ)) ;;
        decodeTLVs_loop fuel' rest (<[typ := slice 8 (Z.to_nat (8 + length)) src]> items)
  end.

Definition all_types : list Z := [1; 2; 3; 4; 5; 6; 7; 8; 9; 10; 11; 12].

Definition decodeTLVs (src : list Z) : res (gmap Z (list Z)) :=
  let! items := decodeTLVs_loop (length src) src ∅ in
  raise [storecatalog_ErrCorrupt] when negb (forallb (fun t => bool_decide (is_Some (items !! t))) all_types) ;;
  Ok items.

Definition decodeHardLimits (src : list Z) : res HardLimits :=
  raise [storecatalog_ErrCorrupt] when negb (len src =? 72) ;;
  Ok (mkHardLimits (u64 0 src) (u64 8 src) (u64 16 src) (u64 24 src) (u64 32 src) (u64 40 src) (u64 48 src) (u64 56 src) (u64 64 src)).

(** [n] values of [width] bytes each, one after the other. *)
Fixpoint decode_chunks {A} (width n : nat) (dec : list Z -> res A) (src : list Z) : res (list A) :=
  match n with
  | O => Ok []
  | S n' => let! x := dec (take width src) in let! rest := decode_chunks width n' dec (drop width src) in Ok (x :: rest)
  end.

(** A count, four zero bytes and the values: the shape of [decodeDataSegments],
    [decodeMapSegments] and [decodeBatchIDs]. *)
Definition decode_list {A} (width : Z) (dec : list Z -> res A) (src : list Z) : res (list A) :=
  raise [storecatalog_ErrCorrupt] when (len src <? 8) || negb (u32 4 src =? 0) ;;
  let count := u32 0 src in
  raise [storecatalog_ErrCorrupt] when ((len src - 8) / width <? count) || negb (8 + count * width =? len src) ;;
  decode_chunks (Z.to_nat width) (Z.to_nat count) dec (drop 8 src).

Definition decodeDataSegments : list Z -> res (list DataSegmentSummary) :=
  decode_list 32 (fun c => Ok (mkData (u32 0 c) (u32 4 c) (u64 8 c) (u64 16 c) (u64 24 c))).
Definition decodeMapSegments : list Z -> res (list MapSegmentSummary) := decode_list 8 (fun c => Ok (mkMap (u32 0 c) (u32 4 c))).
Definition decodeBatchIDs : list Z -> res (list Z) := decode_list 8 (fun c => Ok (u64 0 c)).

Definition decode_stat (c : list Z) : res SegmentStats :=
  raise [storecatalog_ErrCorrupt] when negb (u32 4 c =? 0) ;; Ok (mkStats (u32 0 c) (u64 8 c) (u64 16 c)).

Definition decodeStats (src : list Z) : res (Z * list SegmentStats) :=
  raise [storecatalog_ErrCorrupt] when (len src <? 16) || negb (u32 12 src =? 0) ;;
  let count := u32 8 src in
  raise [storecatalog_ErrCorrupt] when ((len src - 16) / 24 <? count) || negb (16 + count * 24 =? len src) ;;
  let! values := decode_chunks 24 (Z.to_nat count) decode_stat (drop 16 src) in
  Ok (u64 0 src, values).

Definition decodePair32 (src : list Z) : res (Z * Z) :=
  raise [storecatalog_ErrCorrupt] when negb (len src =? 8) ;; Ok (u32 0 src, u32 4 src).

(** The fields that [decodeCheckpoint] sets. *)
Definition decodeCheckpoint (src : list Z) : res (Z * LogPos * Z * Z * Z) :=
  raise [storecatalog_ErrCorrupt] when negb (len src =? 56) || negb (all_zero (slice 40 56 src)) ;;
  match ParseLogPos (u64 8 src) with
  | Err _ => Err [storecatalog_ErrCorrupt]
  | Ok pos => Ok (u64 0 src, pos, u64 16 src, u64 24 src, u64 32 src)
  end.

Definition Decode (src : list Z) : res Manifest :=
  raise [storecatalog_ErrUnsupported] when
    (containerHeaderSize <=? len src) && magic_is manifestMagic src && (negb (u16 8 src =? FormatMajor) || negb (u16 10 src =? FormatMinor)) ;;
  let! header := InspectHeader src in
  let! items := decodeTLVs (drop 64 src) in
  let item t := default [] (items !! t) in
  let! limits := decodeHardLimits (item 1) in
  raise [storecatalog_ErrCorrupt] when negb (len (item 2) =? 16) ;;
  let! (dataActive, dataNext) := decodePair32 (item 3) in
  let! sealedData := decodeDataSegments (item 4) in
  let! (mapActive, mapNext) := decodePair32 (item 5) in
  let! sealedMap := decodeMapSegments (item 6) in
  raise [storecatalog_ErrCorrupt] when negb (len (item 7) =? 8) ;;
  let! (covered, replay, idHigh, batchHigh, issued) := decodeCheckpoint (item 8) in
  let! open_ := decodeBatchIDs (item 9) in
  let! (statsCovered, stats) := decodeStats (item 10) in
  raise [storecatalog_ErrCorrupt] when negb (len (item 11) =? 8) ;;
  raise [storecatalog_ErrCorrupt] when negb (len (item 12) =? 4) ;;
  let m := mkManifest (ch_Generation header) (ch_StoreUUID header) limits (item 2) dataActive dataNext (u32 0 (item 12)) sealedData mapActive mapNext sealedMap
             (u64 0 (item 7)) (u64 0 (item 11)) covered replay idHigh batchHigh issued open_ statsCovered stats in
  raise [storecatalog_ErrCorrupt] when negb (is_ok (Validate m)) ;;
  Ok m.

(** ** Items *)

Lemma align8_spec v : 0 <= v -> v <= align8 v < v + 8 /\ align8 v mod 8 = 0.
Proof. intros H. unfold align8. rewrite ldiff_7. dlia. Qed.

Lemma len_item t v : len (encode_item t v) = 8 + align8 (len v).
Proof. unfold encode_item. autorewrite with lens. pose proof (align8_spec (len v) (len_nonneg v)). lia. Qed.

Lemma decode_item fuel t v rest items : 1 <= t < 13 -> len v < two32 - 8 -> items !! t = None ->
  decodeTLVs_loop (S fuel) (encode_item t v ++ rest) items = decodeTLVs_loop fuel rest (<[t := v]> items).
Proof.
  intros Ht Hv Hn. pose proof (len_nonneg v) as Hv0. pose proof (align8_spec (len v) Hv0) as [Ha _]. pose proof (len_item t v) as Hl. pose proof (len_nonneg rest) as Hr.
  cbn [decodeTLVs_loop]. rewrite len_app, Hl. replace (_ =? 0) with false by (symmetry; apply Z.eqb_neq; lia). unfold tlvHeaderSize. replace (_ <? 8) with false by (symmetry; apply Z.ltb_ge; lia).
  set (tail := v ++ zeros (Z.to_nat (align8 (len v) - len v)) ++ rest).
  assert (Es : encode_item t v ++ rest = put_le 2 t ++ put_le 2 tlvRequired ++ put_le 4 (len v) ++ tail) by (unfold encode_item, tail; now rewrite <- !app_assoc).
  assert (E1 : u16 0 (encode_item t v ++ rest) = t /\ u16 2 (encode_item t v ++ rest) = 1 /\ u32 4 (encode_item t v ++ rest) = len v).
  { rewrite Es. fields. rewrite !get_put_16, get_put_32 by (unfold is_u16, is_u32, tlvRequired; lia). auto. }
  destruct E1 as (-> & -> & ->). unfold tlvRequired. change (Z.ldiff 1 1) with 0. change (Z.land 1 1) with 1. cbn [Z.eqb negb orb].
  replace (align8 (len v) <? len v) with false by (symmetry; apply Z.ltb_ge; lia). replace (_ - 8 <? align8 (len v)) with false by (symmetry; apply Z.ltb_ge; lia). cbn [orb].
  assert (Hh : length (put_le 2 t ++ put_le 2 tlvRequired ++ put_le 4 (len v)) = 8%nat) by (rewrite !length_app, !length_put_le; reflexivity).
  assert (Es2 : encode_item t v ++ rest = (put_le 2 t ++ put_le 2 tlvRequired ++ put_le 4 (len v)) ++ v ++ zeros (Z.to_nat (align8 (len v) - len v)) ++ rest) by (unfold encode_item; now rewrite <- !app_assoc).
  assert (Ez : slice (Z.to_nat (8 + len v)) (Z.to_nat (8 + align8 (len v))) (encode_item t v ++ rest) = zeros (Z.to_nat (align8 (len v) - len v))).
  { rewrite Es2. unfold len in *. rewrite (slice_skip _ 8) by (exact Hh || (apply Nat.leb_le; lia)). rewrite (slice_skip v (length v)) by (reflexivity || (apply Nat.leb_le; lia)).
    replace (Z.to_nat (8 + Z.of_nat (length v)) - 8 - length v)%nat with 0%nat by lia. rewrite (slice_here _ (Z.to_nat (align8 (Z.of_nat (length v)) - Z.of_nat (length v)))) by (apply HasLen_zeros || (apply Nat.eqb_eq; lia)). reflexivity. }
  rewrite Ez, all_zero_zeros. cbn [negb]. replace (t =? 0) with false by (symmetry; apply Z.eqb_neq; lia). unfold tlvCount. replace (13 <=? t) with false by (symmetry; apply Z.leb_gt; lia). cbn [orb].
  rewrite Hn, bool_decide_eq_false_2 by (intros [? ?]; discriminate). f_equal.
  - replace (Z.to_nat (8 + align8 (len v))) with (length (encode_item t v)) by (unfold len in *; lia). apply drop_app_length.
  - f_equal. rewrite Es2, (slice_skip _ 8) by (exact Hh || reflexivity). unfold len. replace (8 - 8)%nat with 0%nat by lia. apply (slice_here v (length v)); [reflexivity|]. apply Nat.eqb_eq. lia.
Qed.

Fixpoint insert_items (t : Z) (vs : list (list Z)) (items : gmap Z (list Z)) : gmap Z (list Z) :=
  match vs with [] => items | v :: rest => insert_items (t + 1) rest (<[t := v]> items) end.

Lemma decode_items vs : forall t items fuel, 1 <= t -> t + len vs <= 13 -> Forall (fun v => len v < two32 - 8) vs -> (forall k, t <= k -> items !! k = None) -> (length vs <= fuel)%nat ->
  decodeTLVs_loop fuel (encode_items t vs) items = Ok (insert_items t vs items).
Proof.
  induction vs as [|v vs IH]; intros t items fuel Ht Hb Hv Hn Hf; cbn [encode_items insert_items]; [now destruct fuel|]. rewrite len_cons in Hb. apply Forall_cons in Hv as [Hv Hvs]. cbn [length] in Hf.
  destruct fuel as [|fuel]; [lia|]. pose proof (len_nonneg vs). rewrite decode_item; [|lia|exact Hv|apply Hn; lia]. apply IH; auto; [lia|lia|intros k Hk; rewrite lookup_insert_ne by lia; apply Hn; lia|lia].
Qed.

Lemma items_length vs : forall t, (length vs <= length (encode_items t vs))%nat.
Proof.
  induction vs as [|v vs IH]; intros t; cbn [encode_items length]; [lia|]. rewrite length_app. pose proof (len_item t v). pose proof (align8_spec (len v) (len_nonneg v)). pose proof (len_nonneg v). specialize (IH (t + 1)). unfold len in *. lia.
Qed.

Lemma payload_size_spec vs : forall s r t, 0 <= s -> payload_size s vs = Ok r -> r = s + len (encode_items t vs) /\ (vs <> [] -> r <= maxManifestPayload) /\ Forall (fun v => len v < two32 - 8) vs.
Proof.
  induction vs as [|v vs IH]; intros s r t Hs E; cbn [payload_size encode_items] in *; [apply Ok_inj in E; subst r; cbn; split; [unfold len; cbn; lia|]; split; [congruence|constructor]|].
  inv_ok E. pose proof (align8_spec (len v) (len_nonneg v)). pose proof (len_nonneg v). unfold tlvHeaderSize, maxManifestPayload in *. bool_norm. assert (Hs' : 0 <= s + 8 + align8 (len v)) by lia. destruct (IH _ _ (t + 1) Hs' E) as (H1 & H2 & H3).
  rewrite len_app, len_item. split; [lia|]. split; [|constructor; [lia|exact H3]]. intros _. destruct vs as [|w vs]; [apply Ok_inj in E; lia|apply H2; discriminate].
Qed.

Lemma all_items v1 v2 v3 v4 v5 v6 v7 v8 v9 v10 v11 v12 : let items := insert_items 1 [v1; v2; v3; v4; v5; v6; v7; v8; v9; v10; v11; v12] ∅ in
  (default [] (items !! 1) = v1 /\ default [] (items !! 2) = v2 /\ default [] (items !! 3) = v3 /\ default [] (items !! 4) = v4 /\ default [] (items !! 5) = v5 /\ default [] (items !! 6) = v6 /\ default [] (items !! 7) = v7 /\ default [] (items !! 8) = v8 /\ default [] (items !! 9) = v9 /\ default [] (items !! 10) = v10 /\ default [] (items !! 11) = v11 /\ default [] (items !! 12) = v12) /\
  forallb (fun t => bool_decide (is_Some (items !! t))) all_types = true.
Proof. repeat split; vm_compute; reflexivity. Qed.

(** ** Values *)

Lemma chunks_roundtrip {A} width (enc : A -> list Z) dec l : Forall (fun x => length (enc x) = width /\ dec (enc x) = Ok x) l ->
  decode_chunks width (length l) dec (concat (map enc l)) = Ok l /\ length (concat (map enc l)) = (width * length l)%nat.
Proof.
  induction 1 as [|x l [Hl Hd] _ [IH1 IH2]]; cbn [map concat length decode_chunks]; [split; [reflexivity|lia]|]. rewrite take_app_length', drop_app_length' by (symmetry; exact Hl). rewrite Hd, IH1, length_app, Hl. split; [reflexivity|lia].
Qed.

Lemma list_roundtrip {A} width (enc : A -> list Z) dec l : 0 < width -> Forall (fun x => length (enc x) = Z.to_nat width /\ dec (enc x) = Ok x) l -> len l < two32 ->
  decode_list width dec (put_le 4 (len l) ++ zeros 4 ++ concat (map enc l)) = Ok l.
Proof.
  intros Hw Hl Hn. destruct (chunks_roundtrip _ _ _ _ Hl) as [H1 H2]. pose proof (len_nonneg l). unfold decode_list.
  assert (Hlen : len (put_le 4 (len l) ++ zeros 4 ++ concat (map enc l)) = 8 + len l * width) by (rewrite !len_app, len_put_le, len_zeros; unfold len; rewrite H2; lia). rewrite Hlen.
  replace (_ <? 8) with false by (symmetry; apply Z.ltb_ge; nia). fields. rewrite get_put_32 by (unfold is_u32; lia). change (get_le (zeros 4)) with 0. cbn [Z.eqb negb orb].
  replace (8 + len l * width - 8) with (len l * width) by lia. rewrite Z.div_mul by lia. rewrite Z.ltb_irrefl, Z.eqb_refl. cbn [negb orb].
  replace (drop 8 (put_le 4 (len l) ++ zeros 4 ++ concat (map enc l))) with (concat (map enc l)) by (rewrite app_assoc; symmetry; apply drop_app_length'; rewrite length_app, length_put_le; reflexivity).
  unfold len. rewrite Nat2Z.id. exact H1.
Qed.

Lemma data_roundtrip s : data_u s -> length (encodeData s) = Z.to_nat 32 /\ (fun c => Ok (mkData (u32 0 c) (u32 4 c) (u64 8 c) (u64 16 c) (u64 24 c))) (encodeData s) = Ok s.
Proof.
  intros (H1 & H2 & H3 & H4 & H5). unfold encodeData. split; [rewrite !length_app, !length_put_le; reflexivity|]. fields. rewrite !get_put_32, !get_put_64 by assumption. now destruct s.
Qed.

Lemma map_roundtrip s : map_u s -> length (encodeMap s) = Z.to_nat 8 /\ (fun c => Ok (mkMap (u32 0 c) (u32 4 c))) (encodeMap s) = Ok s.
Proof. intros (H1 & H2). unfold encodeMap. split; [rewrite !length_app, !length_put_le; reflexivity|]. fields. rewrite !get_put_32 by assumption. now destruct s. Qed.

Lemma stat_roundtrip s : stats_u s -> length (encodeStat s) = 24%nat /\
  decode_stat (encodeStat s) = Ok s.
Proof.
  intros (H1 & H2 & H3). unfold decode_stat, encodeStat. split; [rewrite !length_app, !length_put_le; reflexivity|]. fields. rewrite !get_put_32, !get_put_64 by assumption. change (get_le (zeros 4)) with 0. now destruct s.
Qed.

Lemma id_roundtrip v : is_u64 v -> length (put_le 8 v) = Z.to_nat 8 /\ (fun c => Ok (u64 0 c)) (put_le 8 v) = Ok v.
Proof. intros H. split; [apply length_put_le|]. cbv beta. fields. now rewrite get_put_64. Qed.

Lemma limits_roundtrip h : Forall is_u64 (limits_of h) -> decodeHardLimits (encodeHardLimits h) = Ok h.
Proof.
  intros H. unfold limits_of in H. rewrite !Forall_cons in H. destruct H as (H1 & H2 & H3 & H4 & H5 & H6 & H7 & H8 & H9 & _). unfold decodeHardLimits, encodeHardLimits, limits_of. cbn [map concat].
  autorewrite with lens. cbn [Z.of_nat Pos.of_succ_nat Z.add Pos.add Pos.succ Pos.add_carry Z.eqb Pos.eqb negb]. fields. rewrite !get_put_64 by assumption. now destruct h.
Qed.

Lemma pair_roundtrip a b : is_u32 a -> is_u32 b -> decodePair32 (encodePair32 a b) = Ok (a, b).
Proof. intros Ha Hb. unfold decodePair32, encodePair32. rewrite len_app, !len_put_le. cbn. fields. now rewrite !get_put_32. Qed.

Lemma stats_roundtrip covered l : is_u64 covered -> Forall stats_u l -> len l < two32 -> decodeStats (encodeStats covered l) = Ok (covered, l).
Proof.
  intros Hc Hl Hn. assert (Hf : Forall (fun x => length (encodeStat x) = 24%nat /\ decode_stat (encodeStat x) = Ok x) l).
  { eapply Forall_impl; [exact Hl|]. apply stat_roundtrip. }
  destruct (chunks_roundtrip _ _ _ _ Hf) as [H1 H2]. pose proof (len_nonneg l). unfold decodeStats, encodeStats.
  assert (Hlen : len (put_le 8 covered ++ put_le 4 (len l) ++ zeros 4 ++ concat (map encodeStat l)) = 16 + len l * 24) by (rewrite !len_app, !len_put_le, len_zeros; unfold len; rewrite H2; lia). rewrite Hlen.
  replace (_ <? 16) with false by (symmetry; apply Z.ltb_ge; lia). fields. rewrite get_put_32, get_put_64 by (assumption || (unfold is_u32; lia)). change (get_le (zeros 4)) with 0. cbn [Z.eqb negb orb].
  replace (16 + len l * 24 - 16) with (len l * 24) by lia. rewrite Z.div_mul by lia. rewrite Z.ltb_irrefl, Z.eqb_refl. cbn [negb orb].
  replace (drop 16 _) with (concat (map encodeStat l)) by (rewrite !app_assoc; symmetry; apply drop_app_length'; rewrite !length_app, !length_put_le; reflexivity).
  unfold len. rewrite Nat2Z.id, H1. reflexivity.
Qed.

Lemma pos_roundtrip p : pos_u p -> LogPos_Valid p = true -> ParseLogPos (LogPos_Uint64 p) = Ok p /\ is_u64 (LogPos_Uint64 p).
Proof.
  intros [H1 H2] Hv. unfold is_u32 in *. assert (E : LogPos_Uint64 p = pos_SegmentID p * two32 + pos_Offset p).
  { unfold LogPos_Uint64. rewrite lor_disjoint by (apply land_shiftl_low; lia). rewrite Z.shiftl_mul_pow2 by lia. reflexivity. }
  rewrite E. split; [|unfold is_u64; nia]. unfold ParseLogPos. rewrite shiftr_32. rewrite Z.div_add_l by lia. rewrite Z.div_small, Z.add_0_r by lia. rewrite Z.add_comm, Z.mod_add, Z.mod_small by lia.
  unfold LogPos_Valid in Hv. unfold NewLogPos in *. destruct (_ || _ || _); [discriminate|]. now destruct p.
Qed.

Lemma checkpoint_roundtrip m : manifest_u m -> LogPos_Valid (mf_ReplayStart m) = true ->
  decodeCheckpoint (encodeCheckpoint m) = Ok (mf_CoveredCommitSeq m, mf_ReplayStart m, mf_ReservedIDHigh m, mf_ReservedBatchIDHigh m, mf_IssuedBatchIDHighAtCut m).
Proof.
  intros Hu Hv. destruct (pos_roundtrip _ (mu_pos _ Hu) Hv) as [P1 P2]. destruct (mu_root _ Hu) as (_ & _ & H1). destruct (mu_high _ Hu) as (H2 & H3 & H4). unfold decodeCheckpoint, encodeCheckpoint.
  autorewrite with lens. cbn [Z.of_nat Pos.of_succ_nat Z.add Pos.add Pos.succ Pos.add_carry Z.eqb Pos.eqb negb orb]. fields. rewrite all_zero_zeros, !get_put_64 by assumption. cbn [negb]. now rewrite P1.
Qed.

(** ** The container *)

Lemma head_ok m payload : manifest_u m -> length (container_head m payload) = 52%nat /\ bytes_ok (container_head m payload).
Proof.
  intros Hu. destruct (mu_uuid _ Hu) as [Hl Hb]. unfold container_head, manifestMagic. split; [unfold zeros; rewrite !length_app, !length_put_le, length_replicate, Hl; reflexivity|]. solve_bytes.
Qed.

Definition container (m : Manifest) (payload : list Z) : list Z := with_crc (container_head m payload) ++ zeros 8 ++ payload.

Lemma container_len m payload : manifest_u m -> len (container m payload) = 64 + len payload.
Proof. intros Hu. destruct (head_ok m payload Hu) as [Hl _]. unfold container, with_crc. autorewrite with lens. unfold len at 1. rewrite Hl. cbn. lia. Qed.

Lemma container_parts m payload : manifest_u m -> len payload <= maxManifestPayload -> bytes_ok payload -> let src := container m payload in
  magic_is manifestMagic src = true /\ u16 8 src = 2 /\ u16 10 src = 4 /\ u16 12 src = 64 /\ u16 14 src = 0 /\ u64 16 src = mf_Generation m /\ slice 24 40 src = mf_StoreUUID m /\
  u64 40 src = len payload /\ u32 48 src = Checksum payload /\ u32 52 src = Checksum (container_head m payload) /\ slice 0 52 src = container_head m payload /\ slice 56 64 src = zeros 8 /\ drop 64 src = payload.
Proof.
  intros Hu Hp Hb. destruct (head_ok m payload Hu) as [Hl Hhb]. destruct (mu_uuid _ Hu) as [Hul _]. assert (HasLen (mf_StoreUUID m) 16) by exact Hul. pose proof (len_nonneg payload). unfold maxManifestPayload in Hp.
  assert (HasLen (container_head m payload) 52) by exact Hl. cbv zeta. unfold container, with_crc. rewrite <- !app_assoc.
  repeat match goal with |- _ /\ _ => apply conj end.
  1: { unfold container_head. rewrite <- !app_assoc. apply magic_is_app. }
  9: { fields. apply get_put_32, Checksum_u32, Hhb. }
  9: fields; reflexivity.
  9: fields; reflexivity.
  9: { rewrite !app_assoc. apply drop_app_length'. unfold zeros. rewrite !length_app, Hl, length_put_le. reflexivity. }
  all: unfold container_head; rewrite <- !app_assoc; fields; rewrite ?get_put_16, ?get_put_32, ?get_put_64 by (first [apply (mu_gen _ Hu)|now apply Checksum_u32|unfold is_u16, is_u64, FormatMajor, FormatMinor, containerHeaderSize; lia]); reflexivity.
Qed.

Lemma InspectHeader_container m payload : manifest_u m -> manifest_ok m = true -> len payload <= maxManifestPayload -> bytes_ok payload ->
  InspectHeader (container m payload) = Ok (mkContainer 2 4 (mf_Generation m) (mf_StoreUUID m) (len payload)).
Proof.
  intros Hu Hv Hp Hb. pose proof (container_len m payload Hu) as Hl. destruct (container_parts m payload Hu Hp Hb) as (P1 & P2 & P3 & P4 & P5 & P6 & P7 & P8 & P9 & P10 & P11 & P12 & P13). pose proof (len_nonneg payload).
  destruct (manifest_facts_of m Hv) as [F1 [F2 _] _ _ _ _ _ _]. unfold InspectHeader. rewrite Hl, P1, P2, P3, P4, P5, P6, P7, P8, P9, P10, P11, P12, P13, all_zero_zeros, Z.eqb_refl. unfold containerHeaderSize. cbn [ch_FormatMajor ch_Generation ch_StoreUUID ch_PayloadSize].
  replace (_ <? 64) with false by (symmetry; apply Z.ltb_ge; lia). cbn [negb orb Z.eqb Pos.eqb]. replace (mf_Generation m =? 0) with false by (symmetry; now apply Z.eqb_neq). rewrite F2. cbn [orb].
  replace (maxManifestPayload <? _) with false by (symmetry; apply Z.ltb_ge; lia). replace (64 + len payload - 64) with (len payload) by lia. rewrite !Z.eqb_refl. reflexivity.
Qed.

Lemma concat_bytes {A} (enc : A -> list Z) l : (forall x, bytes_ok (enc x)) -> bytes_ok (concat (map enc l)).
Proof. intros H. induction l as [|x l IH]; cbn [map concat]; [constructor|]. apply bytes_ok_app. auto. Qed.

Lemma items_bytes vs : forall t, Forall bytes_ok vs -> bytes_ok (encode_items t vs).
Proof.
  induction vs as [|v vs IH]; intros t H; cbn [encode_items]; [constructor|]. apply Forall_cons in H as [Hv H]. apply bytes_ok_app. split; [|auto]. unfold encode_item. rewrite !bytes_ok_app. repeat split; auto using put_le_bytes, bytes_ok_zeros.
Qed.

Lemma manifest_items_bytes m : manifest_u m -> Forall bytes_ok (manifest_items m).
Proof.
  intros Hu. destruct (mu_log _ Hu) as [_ Hb]. unfold manifest_items, encodeHardLimits, encodeDataSegments, encodeMapSegments, encodeCheckpoint, encodeBatchIDs, encodeStats, encodePair32.
  rewrite !Forall_cons, !bytes_ok_app. repeat split; try apply Forall_nil_2; auto using put_le_bytes, bytes_ok_zeros; apply concat_bytes; intros x; auto using put_le_bytes; unfold encodeData, encodeMap, encodeStat; rewrite ?bytes_ok_app; repeat split; auto using put_le_bytes, bytes_ok_zeros.
Qed.

Lemma encode_inv m src : Encode m = Ok src -> manifest_ok m = true /\ src = container m (encode_items 1 (manifest_items m)) /\
  len (encode_items 1 (manifest_items m)) <= maxManifestPayload /\ Forall (fun v => len v < two32 - 8) (manifest_items m).
Proof.
  unfold Encode. intros E. inv_ok E. apply Ok_inj in E. apply Validate_ok in Hcall. destruct (payload_size_spec _ 0 _ 1 ltac:(lia) Hcall0) as (H1 & H2 & H3). split; [exact Hcall|]. split; [symmetry; exact E|]. split; [|exact H3].
  specialize (H2 ltac:(discriminate)). lia.
Qed.

Lemma lens_small m : manifest_ok m = true -> len (mf_SealedData m) < two32 /\ len (mf_SealedMap m) < two32 /\ len (mf_OpenBatchIDsAtCut m) < two32 /\ len (mf_SegmentStats m) < two32.
Proof.
  intros Hv. destruct (manifest_facts_of m Hv) as [_ _ _ _ _ _ (L1 & L2 & L3 & L4) _]. change (maxManifestPayload / 32) with 2097152 in L1. change (maxManifestPayload / 8) with 8388608 in *. change (maxManifestPayload / 24) with 2796202 in L4. lia.
Qed.

Lemma decode_values m : manifest_u m -> manifest_ok m = true ->
  decodeHardLimits (encodeHardLimits (mf_HardLimits m)) = Ok (mf_HardLimits m) /\ decodeDataSegments (encodeDataSegments (mf_SealedData m)) = Ok (mf_SealedData m) /\
  decodeMapSegments (encodeMapSegments (mf_SealedMap m)) = Ok (mf_SealedMap m) /\ decodeBatchIDs (encodeBatchIDs (mf_OpenBatchIDsAtCut m)) = Ok (mf_OpenBatchIDsAtCut m) /\
  decodeStats (encodeStats (mf_StatsCoveredCommitSeq m) (mf_SegmentStats m)) = Ok (mf_StatsCoveredCommitSeq m, mf_SegmentStats m).
Proof.
  intros Hu Hv. destruct (lens_small m Hv) as (L1 & L2 & L3 & L4). destruct (mu_stats _ Hu) as [S1 S2].
  split; [apply limits_roundtrip, (mu_limits _ Hu)|]. split; [apply (list_roundtrip 32 encodeData); [lia|eapply Forall_impl; [apply (mu_data _ Hu)|apply data_roundtrip]|exact L1]|].
  split; [apply (list_roundtrip 8 encodeMap); [lia|eapply Forall_impl; [apply (mu_map _ Hu)|apply map_roundtrip]|exact L2]|].
  split; [apply (list_roundtrip 8 (put_le 8)); [lia|eapply Forall_impl; [apply (mu_open _ Hu)|apply id_roundtrip]|exact L3]|]. now apply stats_roundtrip.
Qed.

Lemma decode_encoded_manifest m src : manifest_u m -> Encode m = Ok src -> Decode src = Ok m.
Proof.
  intros Hu E. apply encode_inv in E as (Hv & -> & Hp & Hs). set (payload := encode_items 1 (manifest_items m)) in *. assert (Hpb : bytes_ok payload) by (apply items_bytes, manifest_items_bytes, Hu).
  destruct (container_parts m payload Hu Hp Hpb) as (P1 & P2 & P3 & _ & _ & _ & _ & _ & _ & _ & _ & _ & P13). unfold Decode. rewrite P1, P2, P3, (InspectHeader_container m payload Hu Hv Hp Hpb), P13. change FormatMajor with 2. change FormatMinor with 4. rewrite andb_true_r. cbn [Z.eqb Pos.eqb negb orb]. rewrite andb_false_r.
  unfold decodeTLVs. unfold payload at 2. rewrite decode_items; [|lia|change (len (manifest_items m)) with 12; lia|exact Hs|intros k _; apply lookup_empty|apply items_length].
  destruct (all_items (encodeHardLimits (mf_HardLimits m)) (mf_RecordLogID m) (encodePair32 (mf_ActiveData m) (mf_NextData m)) (encodeDataSegments (mf_SealedData m)) (encodePair32 (mf_ActiveMap m) (mf_NextMap m)) (encodeMapSegments (mf_SealedMap m))
    (put_le 8 (mf_MappingRoot m)) (encodeCheckpoint m) (encodeBatchIDs (mf_OpenBatchIDsAtCut m)) (encodeStats (mf_StatsCoveredCommitSeq m) (mf_SegmentStats m)) (put_le 8 (mf_MappingEntryCount m)) (put_le 4 (mf_CompactionFloor m))) as [Hi Ha].
  fold (manifest_items m) in Hi, Ha. set (items := insert_items 1 (manifest_items m) ∅) in *. clearbody items. rewrite Ha. cbn [negb]. destruct Hi as (-> & -> & -> & -> & -> & -> & -> & -> & -> & -> & -> & ->).
  destruct (decode_values m Hu Hv) as (V1 & V2 & V3 & V4 & V5). destruct (mu_ids _ Hu) as (I1 & I2 & I3 & I4 & I5). destruct (mu_root _ Hu) as (R1 & R2 & _). destruct (mu_log _ Hu) as [Hll _]. destruct (manifest_facts_of m Hv) as [_ _ _ _ _ _ _ Hpos].
  rewrite V1. rewrite (HasLen_len (mf_RecordLogID m) 16 Hll). cbn [Z.eqb Z.of_nat Pos.of_succ_nat Pos.succ Pos.eqb negb]. rewrite pair_roundtrip by assumption. rewrite V2. rewrite pair_roundtrip by assumption. rewrite V3, !len_put_le. cbn [Z.eqb Z.of_nat Pos.of_succ_nat Pos.succ Pos.eqb negb].
  rewrite (checkpoint_roundtrip m Hu Hpos), V4, V5. cbn [ch_Generation ch_StoreUUID].
  assert (Eu : forall v, is_u64 v -> u64 0 (put_le 8 v) = v) by (intros v Hv'; fields; now apply get_put_64). rewrite !Eu by assumption.
  assert (E4 : u32 0 (put_le 4 (mf_CompactionFloor m)) = mf_CompactionFloor m) by (fields; now apply get_put_32). rewrite E4.
  assert (Em : mkManifest (mf_Generation m) (mf_StoreUUID m) (mf_HardLimits m) (mf_RecordLogID m) (mf_ActiveData m) (mf_NextData m) (mf_CompactionFloor m) (mf_SealedData m) (mf_ActiveMap m) (mf_NextMap m) (mf_SealedMap m)
    (mf_MappingRoot m) (mf_MappingEntryCount m) (mf_CoveredCommitSeq m) (mf_ReplayStart m) (mf_ReservedIDHigh m) (mf_ReservedBatchIDHigh m) (mf_IssuedBatchIDHighAtCut m) (mf_OpenBatchIDsAtCut m) (mf_StatsCoveredCommitSeq m) (mf_SegmentStats m) = m) by now destruct m.
  rewrite Em. unfold Validate. rewrite Hv. reflexivity.
Qed.

(** ** Damage *)

Lemma slice_prefix a b lo hi : (hi <= length a)%nat -> slice lo hi (a ++ b) = slice lo hi a.
Proof.
  intros H. unfold slice. destruct (le_lt_dec lo (length a)) as [Hl|Hl].
  - rewrite drop_app_le by exact Hl. apply take_app_le. rewrite length_drop. lia.
  - replace (hi - lo)%nat with 0%nat by lia. reflexivity.
Qed.

Lemma inspect_fails src : u32 52 src <> Checksum (slice 0 52 src) \/ all_zero (slice 56 64 src) = false \/ u32 48 src <> Checksum (drop 64 src) -> is_ok (InspectHeader src) = false.
Proof.
  intros H. destruct (InspectHeader src) as [h|] eqn:E; [|reflexivity]. exfalso. unfold InspectHeader in E. inv_ok E. bool_norm. destruct H as [H|[H|H]]; congruence.
Qed.

Lemma damaged_container m src src' : manifest_u m -> Encode m = Ok src -> damaged src src' -> bytes_ok src' -> is_ok (Decode src') = false.
Proof.
  intros Hu E Hd Hb. apply encode_inv in E as (Hv & -> & Hp & _). set (payload := encode_items 1 (manifest_items m)) in *. assert (Hpb : bytes_ok payload) by (apply items_bytes, manifest_items_bytes, Hu).
  enough (Hi : is_ok (InspectHeader src') = false) by (unfold Decode; destruct (_ && _ && _); [reflexivity|]; destruct (InspectHeader src'); [discriminate|reflexivity]).
  destruct (head_ok m payload Hu) as [Hl Hhb]. destruct (with_crc_spec 52 _ Hl Hhb) as (Wl & _). pose proof (damaged_length _ _ Hd) as Hlen. unfold container in Hd, Hlen. rewrite !length_app, Wl in Hlen. change (length (zeros 8)) with 8%nat in Hlen.
  set (a := take 56 src'). set (b := take 8 (drop 56 src')). set (c := drop 64 src').
  assert (Es : src' = a ++ b ++ c) by (subst a b c; change 64%nat with (56 + 8)%nat; rewrite <- drop_drop, (take_drop 8 (drop 56 src')), take_drop; reflexivity).
  assert (La : length a = 56%nat) by (subst a; rewrite length_take; lia). assert (Lb : length b = 8%nat) by (subst b; rewrite length_take, length_drop; lia).
  assert (Hba : bytes_ok a) by (rewrite Es in Hb; now apply bytes_ok_app in Hb as [Hb _]). assert (Hbc : bytes_ok c) by (rewrite Es in Hb; now apply bytes_ok_app in Hb as [_ [_ Hb]%bytes_ok_app]).
  assert (Sa : forall lo hi, (hi <= 56)%nat -> slice lo hi src' = slice lo hi a) by (intros lo hi Hhi; rewrite Es at 1; apply slice_prefix; lia).
  apply inspect_fails. rewrite Es in Hd. apply damaged_app in Hd as [[Hd _]|[Ea Hd]]; [| |rewrite Wl, La; reflexivity].
  - left. unfold u32. rewrite !Sa by lia. exact (with_crc_damaged 52 _ a Hl Hhb Hba Hd).
  - right. apply damaged_app in Hd as [[Hd _]|[Eb Hd]]; [| |rewrite Lb; reflexivity].
    + left. destruct (all_zero (slice 56 64 src')) eqn:Ez; [|reflexivity]. exfalso. apply damaged_neq in Hd. apply Hd.
      replace (slice 56 64 src') with b in Ez by (subst b; unfold slice; reflexivity). apply all_zero_spec in Ez. rewrite Lb in Ez. symmetry. exact Ez.
    + right. unfold u32. rewrite Sa by lia. rewrite <- Ea. change (u32 48 (with_crc (container_head m payload)) <> Checksum c).
      destruct (container_parts m payload Hu Hp Hpb) as (_ & _ & _ & _ & _ & _ & _ & _ & P9 & _). intros E. apply (Checksum_damaged _ _ Hpb Hbc Hd). transitivity (u32 48 (container m payload)); [symmetry; exact P9|]. rewrite <- E. unfold container, u32. f_equal. apply slice_prefix. rewrite Wl. lia.
Qed.

(** C40: a manifest file reads back: what [Encode] writes, [Decode] returns; and a
    file in which one byte was changed, wherever it is, is rejected. *)
Theorem manifest_file_roundtrip m src : manifest_u m -> Encode m = Ok src ->
  Decode src = Ok m /\ forall src', damaged src src' -> bytes_ok src' -> is_ok (Decode src') = false.
Proof. intros Hu E. split; [now apply decode_encoded_manifest|]. intros src' Hd Hb. exact (damaged_container m src src' Hu E Hd Hb). Qed.

Definition demo_file : list Z := match Encode demo_full with Ok src => src | Err _ => [] end.

Lemma manifest_file_roundtrip_witness : Decode demo_file = Ok demo_full /\ is_ok (Decode (<[70%nat := 200]> demo_file)) = false.
Proof.
  destruct (manifest_file_roundtrip demo_full demo_file demo_full_u) as [H1 H2]; [vm_compute; reflexivity|]. split; [exact H1|]. apply H2.
  - apply (damaged_insert 70 200 demo_file 0); [vm_compute; reflexivity|discriminate].
  - apply (Forall_insert _ _ 70); [|unfold is_u8; lia]. apply (bool_decide_eq_true_1 (Forall (fun b => 0 <= b < 256) demo_file)). vm_compute. reflexivity.
Defined.
