(* ===== verification/CatalogFiles.v ===== *)
(** * Installing and loading manifests

    Models [internal/storecatalog/install.go] and the methods of [Manager] around
    the transitions: a manifest is written to a temporary file and renamed over
    the slot of its generation's parity, so the other slot keeps the last one.
    Loading takes the newer of the two slots that decode.  A file is a regular
    file; the checks for other file types are left out. *)
From S2P Require Import Prelude Bytes Addr Crc32 RecordFormat RecordCodec MapNode MapSegment Fs FsDisk Catalog CatalogSpec CatalogCodec.

(** [MANIFEST-v2-0], [MANIFEST-v2-1] and their temporary files. *)
Inductive cpath := PSlot (slot : bool) | PTemp (slot : bool).

#[export] Instance cpath_eq_dec : EqDecision cpath.
Proof. solve_decision. Defined.
#[export] Instance cpath_countable : Countable cpath.
Proof.
  refine (inj_countable' (fun p => match p with PSlot b => inl b | PTemp b => inr b end) (fun s => match s with inl b => PSlot b | inr b => PTemp b end) _).
  now intros [].
Defined.

(** [manifest.Generation & 1] *)
Definition slot_of (m : Manifest) : bool := Z.odd (mf_Generation m).

(** The user state of the file system is [Manager.current]. *)
Definition manager : Type := os cpath Manifest.
Abbreviation cio := (io cpath Manifest).

Definition hit : cio unit := fs_point.
(** [os.Open(root)] and [errors.Join(dir.Sync(), dir.Close())] after the hook *)
Definition syncManifestDir : cio unit := run hit ;; fs_point.

Definition removeManifestTemp (p : cpath) : cio bool :=
  let* found := fs_exists p in
  if negb found then io_ret false else run hit ;; run fs_remove p ;; io_ret true.

Definition Install (m : Manifest) : cio unit :=
  let* encoded := io_lift (Encode m) in
  let temp := PTemp (slot_of m) in
  let* removed := removeManifestTemp temp in
  run (if removed : bool then syncManifestDir else io_ret tt) ;;
  let* file := fs_create temp in
  run hit ;; run fs_write file 0 encoded ;;
  run hit ;; run fs_point ;; run fs_point ;;
  run hit ;; run fs_rename temp (PSlot (slot_of m)) ;;
  run hit ;; fs_point.

(** ** Loading *)

Definition content (o : manager) (p : cpath) : option (list Z) := bytes_of o <$> (os_names o !! p).

Record candidate := mkCandidate { cd_manifest : Manifest; cd_encoded : list Z }.

(** One slot of [load]: a candidate, or the failure to add. *)
Definition read_slot (o : manager) (strict : bool) (slot : bool) : res (option candidate * goerror) :=
  raise [storecatalog_ErrRecoveryRequired] when strict && exists_path o (PTemp slot) ;;
  match content o (PSlot slot) with
  | None => Ok (None, [])
  | Some encoded =>
      match Decode encoded with
      | Ok m => Ok (Some (mkCandidate m encoded), [])
      | Err e => if strict then Err e else Ok (None, e)
      end
  end.

(** The choice between the candidates of the two slots. *)
Definition choose (a b : option candidate) (failures : goerror) : res Manifest :=
  match a, b with
  | None, None => Err (match failures with [] => [os_ErrNotExist] | _ => failures end)
  | Some x, None => Ok (cd_manifest x)
  | None, Some y => Ok (cd_manifest y)
  | Some x, Some y =>
      if mf_Generation (cd_manifest x) =? mf_Generation (cd_manifest y) then
        raise [storecatalog_ErrCorrupt] when negb (bool_decide (cd_encoded x = cd_encoded y)) ;; Ok (cd_manifest x)
      else if mf_Generation (cd_manifest x) <? mf_Generation (cd_manifest y) then Ok (cd_manifest y) else Ok (cd_manifest x)
  end.

Definition load (o : manager) (strict : bool) : res Manifest :=
  let! (a, fa) := read_slot o strict false in
  let! (b, fb) := read_slot o strict true in
  choose a b (fa ++ fb).

Definition Load (o : manager) : res Manifest := load o false.
Definition LoadStrict (o : manager) : res Manifest := load o true.

Definition LoadRecovering : cio Manifest := fun o =>
  match Load o with
  | Err e => (o, Err e)
  | Ok m => (let* _ := removeManifestTemp (PTemp false) in let* _ := removeManifestTemp (PTemp true) in run syncManifestDir ;; io_ret m) o
  end.

(** [InspectLatestHeader]: the newer header of the two slots. *)
Definition inspect_slot (o : manager) (slot : bool) : res (option (ContainerHeader * list Z)) :=
  raise [storecatalog_ErrRecoveryRequired] when exists_path o (PTemp slot) ;;
  match content o (PSlot slot) with
  | None => Ok None
  | Some encoded =>
      raise [storecatalog_ErrCorrupt] when (len encoded <? containerHeaderSize) || (containerHeaderSize + maxManifestPayload <? len encoded) ;;
      let! header := InspectHeader encoded in
      raise [storecatalog_ErrCorrupt] when negb (Bool.eqb (Z.odd (ch_Generation header)) slot) ;;
      Ok (Some (header, encoded))
  end.

Definition InspectLatestHeader (o : manager) : res ContainerHeader :=
  let! a := inspect_slot o false in
  let! b := inspect_slot o true in
  match a, b with
  | None, None => Err [os_ErrNotExist]
  | Some (x, _), None => Ok x
  | None, Some (y, _) => Ok y
  | Some (x, ex), Some (y, ey) =>
      raise [storecatalog_ErrCorrupt] when negb (bool_decide (ch_StoreUUID x = ch_StoreUUID y)) ;;
      if ch_Generation x =? ch_Generation y then raise [storecatalog_ErrCorrupt] when negb (bool_decide (ex = ey)) ;; Ok x
      else Ok (if ch_Generation x <? ch_Generation y then y else x)
  end.

(** ** The manager *)

Definition set_current (o : manager) (m : Manifest) : manager := mkOs (os_names o) (os_data o) (os_next o) (os_faults o) m.

Definition OpenManager : cio unit := fun o =>
  match LoadRecovering o with
  | (o, Err e) => (o, Err e)
  | (o, Ok m) => match Validate m with Err e => (o, Err e) | Ok _ => (set_current o m, Ok tt) end
  end.

(** A method: the transition from [current], [Install], and the new [current]. *)
Definition Manager_update {A} (transition : Manifest -> res (Manifest * A)) : cio (Manifest * A) := fun o =>
  match transition (os_user o) with
  | Err e => (o, Err e)
  | Ok (next, x) =>
      match Install next o with
      | (o, Err e) => (o, Err e)
      | (o, Ok _) => (set_current o next, Ok (next, x))
      end
  end.

Definition no_result (r : res Manifest) : res (Manifest * unit) := let! m := r in Ok (m, tt).

Definition InstallMapStoreRotation (expect : Z) (sealed : SegmentRef) (newActive next : Z) : cio CatalogSnapshot :=
  let* (installed, _) := Manager_update (fun m => no_result (InstallMapRotation m expect (mkMapRotation (mkMap (sr_SegmentID sealed) (sr_ValidEnd sealed)) newActive next))) in
  io_ret (mapStoreSnapshot installed).

Definition InstallRecordLogRotation (expect : Z) (sealed : DataSegmentSummary) (newActive next : Z) : cio LogSnapshot :=
  let* (installed, _) := Manager_update (fun m => no_result (InstallDataRotation m expect (mkDataRotation sealed newActive next))) in
  io_ret (recordLogSnapshot installed).

(** ** Loading what was installed *)

Definition holds (o : manager) (m : Manifest) : Prop := exists encoded, content o (PSlot (slot_of m)) = Some encoded /\ Encode m = Ok encoded.

Lemma content_disk d u o p : at_disk d u o -> content o p = d !! p.
Proof. intros [_ <- _]. unfold content, disk. now rewrite lookup_fmap. Qed.

(** A slot whose manifest is newer than whatever the other slot has. *)
Lemma load_newest o m : manifest_u m -> holds o m ->
  (forall x m', content o (PSlot (negb (slot_of m))) = Some x -> Decode x = Ok m' -> mf_Generation m' < mf_Generation m) -> Load o = Ok m.
Proof.
  intros Hu (enc & Hc & He) Hother. unfold Load, load, read_slot. cbn [andb]. pose proof (decode_encoded_manifest m enc Hu He) as Hd. destruct (slot_of m); cbn [negb] in *; rewrite Hc, Hd.
  - destruct (content o (PSlot false)) as [x|]; [|reflexivity]. destruct (Decode x) as [m'|e] eqn:Ex; [|reflexivity]. specialize (Hother x m' eq_refl Ex). cbn [choose cd_manifest].
    replace (_ =? _) with false by (symmetry; apply Z.eqb_neq; lia). replace (_ <? _) with true by (symmetry; apply Z.ltb_lt; lia). reflexivity.
  - destruct (content o (PSlot true)) as [x|]; [|reflexivity]. destruct (Decode x) as [m'|e] eqn:Ex; [|reflexivity]. specialize (Hother x m' eq_refl Ex). cbn [choose cd_manifest].
    replace (_ =? _) with false by (symmetry; apply Z.eqb_neq; lia). replace (_ <? _) with false by (symmetry; apply Z.ltb_ge; lia). reflexivity.
Qed.

Lemma slot_next m n : mf_Generation n = mf_Generation m + 1 -> slot_of n = negb (slot_of m).
Proof. intros E. unfold slot_of. rewrite E, Z.odd_add. now destruct (Z.odd (mf_Generation m)). Qed.

(** [n] over [m] in the other slot. *)
Lemma load_next o m n : manifest_u m -> manifest_u n -> mf_Generation n = mf_Generation m + 1 -> holds o m -> holds o n -> Load o = Ok n.
Proof.
  intros Hm Hn Hg (em & Hcm & Hem) Ho. apply load_newest; auto. intros x m' Hx Hd. rewrite (slot_next m n Hg), negb_involutive, Hcm in Hx. injection Hx as <-. rewrite (decode_encoded_manifest m em Hm Hem) in Hd. injection Hd as <-. lia.
Qed.

(** ** Installing *)

(** The slots are those of [d]; the temporary file of [slot] can be anything. *)
Definition slots (d : gmap cpath (list Z)) (u : Manifest -> Prop) (slot : bool) (o : manager) : Prop := exists t, at_disk (partial_alter (fun _ => t) (PTemp slot) d) u o.

Section Installing.
Context (d : gmap cpath (list Z)) (u : Manifest -> Prop) (m : Manifest) (encoded : list Z) (E : Encode m = Ok encoded).
Local Abbreviation slot := (slot_of m).
Local Abbreviation with_temp := (fun t => partial_alter (fun _ => t) (PTemp slot) d).
Local Abbreviation renamed := (<[PSlot slot := encoded]> (with_temp None)).

(** Stopped before or after the rename. *)
Definition stopped_install (o : manager) : Prop := slots d u slot o \/ at_disk renamed u o.

Lemma point_at d' (A : Type) (k : cio A) Post : (forall o, at_disk d' u o -> stopped_install o) -> triple True (at_disk d' u) k Post stopped_install -> triple True (at_disk d' u) (run fs_point ;; k) Post stopped_install.
Proof. intros Hs Hk. apply (triple_bind _ _ _ _ (fun _ => at_disk d' u)); [|auto]. eapply triple_weaken; [apply (disk_point True d' u)|auto..]. Qed.

Lemma temp_stopped t o : at_disk (with_temp t) u o -> stopped_install o.
Proof. intros H. left. now exists t. Qed.

Lemma remove_temp_at : triple True (slots d u slot) (removeManifestTemp (PTemp slot)) (fun _ => at_disk (with_temp None) u) stopped_install.
Proof.
  intros o [t Ho]. revert o Ho. change (triple True (at_disk (with_temp t) u) (removeManifestTemp (PTemp slot)) (fun _ => at_disk (with_temp None) u) stopped_install). unfold removeManifestTemp.
  apply (triple_bind _ _ _ _ (fun y o => at_disk (with_temp t) u o /\ y = bool_decide (is_Some t))).
  { eapply triple_weaken; [apply (disk_test True (with_temp t) u (PTemp slot))|auto| |apply temp_stopped]. intros x o [Ho ->]. split; [exact Ho|]. f_equal. now rewrite lookup_partial_alter, decide_True by reflexivity. }
  intros y. apply triple_pre. intros o [Ho ->]. apply (triple_from _ _ _ (at_disk (with_temp t) u)); [intros ? <-; exact Ho|]. destruct t as [b|].
  - rewrite bool_decide_eq_true_2 by eauto. cbn [negb]. apply point_at; [apply temp_stopped|]. assert (Ed : delete (PTemp slot) (with_temp (Some b)) = with_temp None).
    { apply map_eq. intros p. rewrite lookup_delete, !lookup_partial_alter. now case_decide. }
    apply (triple_bind _ _ _ _ (fun _ => at_disk (with_temp None) u)).
    + eapply triple_weaken; [apply (disk_remove True (with_temp (Some b)) u (PTemp slot)); rewrite lookup_partial_alter, decide_True by reflexivity; eauto|auto| |]; rewrite Ed; [auto|]. intros o' [Ho'|Ho']; eapply temp_stopped; eauto.
    + intros _. apply triple_ret. auto.
  - rewrite bool_decide_eq_false_2 by (intros [? ?]; discriminate). apply triple_ret. auto.
Qed.

Lemma Install_steps : triple True (slots d u slot) (Install m) (fun _ => at_disk renamed u) stopped_install.
Proof.
  unfold Install. apply (triple_bind _ _ _ _ (fun y o => slots d u slot o /\ y = encoded)).
  { apply triple_lift; [intros o x Ho Ex; split; [exact Ho|congruence]|congruence]. }
  intros y. apply triple_pre. intros o1 [Ho1 ->]. apply (triple_from _ _ _ (slots d u slot)); [intros ? <-; exact Ho1|]. clear o1 Ho1.
  apply (triple_bind _ _ _ _ _ _ _ remove_temp_at). intros removed.
  apply (triple_bind _ _ _ _ (fun _ => at_disk (with_temp None) u)).
  { destruct removed; [|apply triple_ret; auto]. apply point_at; [apply temp_stopped|]. eapply triple_weaken; [apply (disk_point True (with_temp None) u)|auto|auto|apply temp_stopped]. }
  intros _. assert (Ec : forall x, <[PTemp slot := x]> (with_temp None) = with_temp (Some x)).
  { intros x. apply map_eq. intros p. rewrite lookup_insert, !lookup_partial_alter. now case_decide. }
  assert (Ew : forall x y, <[PTemp slot := x]> (with_temp (Some y)) = with_temp (Some x)).
  { intros x y. apply map_eq. intros p. rewrite lookup_insert, !lookup_partial_alter. now case_decide. }
  apply (triple_bind _ _ _ _ (fun f o => at_disk (with_temp (Some [])) u o /\ owns o (PTemp slot) f)).
  { eapply triple_weaken; [apply (disk_create True (with_temp None) u (PTemp slot)); now rewrite lookup_partial_alter, decide_True by reflexivity|auto| |apply temp_stopped]. rewrite Ec. auto. }
  intros f. apply (triple_bind _ _ _ _ (fun _ o => at_disk (with_temp (Some [])) u o /\ owns o (PTemp slot) f)).
  { eapply triple_weaken; [apply (disk_point_owns True (with_temp (Some [])) u (PTemp slot) f)|auto|auto|apply temp_stopped]. }
  intros _. apply (triple_bind _ _ _ _ (fun _ => at_disk (with_temp (Some encoded)) u)).
  { eapply triple_weaken; [apply (disk_write True (with_temp (Some [])) u (PTemp slot) f []); now rewrite lookup_partial_alter, decide_True by reflexivity|auto| |].
    - intros x o [Ho _]. rewrite Ew in Ho. unfold splice in Ho. cbn in Ho. rewrite drop_nil, app_nil_r in Ho. exact Ho.
    - intros o [k Ho]. rewrite Ew in Ho. eapply temp_stopped; eauto. }
  intros _. do 4 (apply point_at; [apply temp_stopped|]).
  assert (Er : <[PSlot slot := encoded]> (delete (PTemp slot) (with_temp (Some encoded))) = renamed).
  { f_equal. apply map_eq. intros p. rewrite lookup_delete, !lookup_partial_alter. now case_decide. }
  apply (triple_bind _ _ _ _ (fun _ => at_disk renamed u)).
  { eapply triple_weaken; [apply (disk_rename True (with_temp (Some encoded)) u (PTemp slot) (PSlot slot) encoded); now rewrite lookup_partial_alter, decide_True by reflexivity|auto| |]; rewrite Er; [auto|].
    intros o [Ho|Ho]; [eapply temp_stopped; eauto|right; exact Ho]. }
  intros _. apply point_at; [right; assumption|]. eapply triple_weaken; [apply (disk_point True renamed u)|auto|auto|]. right. assumption.
Qed.
End Installing.

Lemma load_slots o o' : (forall s, content o' (PSlot s) = content o (PSlot s)) -> Load o' = Load o.
Proof. intros H. unfold Load, load, read_slot. cbn [andb]. now rewrite !H. Qed.

(** The outcome of an install of [n], over slots that hold [m]. *)
Lemma Install_outcome o m n encoded : fs_wf o -> manifest_u m -> manifest_u n -> holds o m -> mf_Generation n = mf_Generation m + 1 -> Encode n = Ok encoded ->
  let r := Install n o in
  (os_faults o = [] -> os_faults r.1 = []) /\ fs_wf r.1 /\ os_user r.1 = os_user o /\ holds r.1 m /\
  match r.2 with
  | Ok _ => holds r.1 n
  | Err _ => os_faults o <> [] /\ ((forall s, content r.1 (PSlot s) = content o (PSlot s)) \/ holds r.1 n)
  end.
Proof.
  intros W Hm Hn (em & Hcm & Hem) Hg He r. set (d := disk o). set (u := fun c => c = os_user o).
  assert (Ho : slots d u (slot_of n) o).
  { exists (d !! PTemp (slot_of n)). replace (partial_alter _ _ _) with d; [constructor; [exact W|reflexivity|reflexivity]|]. apply map_eq. intros p. rewrite lookup_partial_alter. case_decide; [now subst|reflexivity]. }
  pose proof (Install_steps d u n encoded He o Ho) as [Hf Hr]. fold r in Hf, Hr.
  assert (Dm : d !! PSlot (slot_of m) = Some em) by (unfold d, disk; rewrite lookup_fmap; exact Hcm).
  assert (Hren : at_disk (<[PSlot (slot_of n) := encoded]> (partial_alter (fun _ => None) (PTemp (slot_of n)) d)) u r.1 -> fs_wf r.1 /\ os_user r.1 = os_user o /\ holds r.1 m /\ holds r.1 n).
  { intros Ha. split; [apply Ha|]. split; [apply Ha|]. rewrite (slot_next m n Hg) in Ha. split.
    - exists em. split; [|exact Hem]. rewrite (content_disk _ _ _ _ Ha), lookup_insert_ne, lookup_partial_alter_ne by (destruct (slot_of m); discriminate). exact Dm.
    - exists encoded. split; [|exact He]. rewrite (content_disk _ _ _ _ Ha), (slot_next m n Hg), lookup_insert_eq. reflexivity. }
  assert (Hslot : forall t, at_disk (partial_alter (fun _ => t) (PTemp (slot_of n)) d) u r.1 -> fs_wf r.1 /\ os_user r.1 = os_user o /\ holds r.1 m /\ (forall s, content r.1 (PSlot s) = content o (PSlot s))).
  { intros t Ha. split; [apply Ha|]. split; [apply Ha|]. assert (Hs : forall s, content r.1 (PSlot s) = content o (PSlot s)).
    { intros s. rewrite (content_disk _ _ _ _ Ha), lookup_partial_alter_ne by discriminate. unfold d, disk, content. now rewrite lookup_fmap. }
    split; [exists em; split; [rewrite Hs; exact Hcm|exact Hem]|exact Hs]. }
  split; [exact Hf|]. destruct r as [o' [x|e]]; cbn [fst snd] in *; [destruct (Hren Hr) as (H1 & H2 & H3 & H4); auto|].
  destruct Hr as [[[t Ha]|Ha] Hmust]; [destruct (Hslot t Ha) as (H1 & H2 & H3 & H4)|destruct (Hren Ha) as (H1 & H2 & H3 & H4)]; auto 6.
Qed.

(** C10: installing a manifest is atomic: whatever calls of [Install] fail or where
    the process stops, the directory afterwards loads what it loaded before or
    the new manifest; a successful install is loaded, an install without faults
    succeeds, and the slot of the last manifest is never touched. *)
Theorem manifest_install_atomic o m n encoded : fs_wf o -> manifest_u m -> manifest_u n -> holds o m -> mf_Generation n = mf_Generation m + 1 -> Encode n = Ok encoded ->
  let r := Install n o in
  (os_faults o = [] -> r.2 = Ok tt) /\ (r.2 = Ok tt -> Load r.1 = Ok n) /\ (Load r.1 = Load o \/ Load r.1 = Ok n) /\ holds r.1 m.
Proof.
  intros W Hm Hn Ho Hg He. pose proof (Install_outcome o m n encoded W Hm Hn Ho Hg He) as (_ & _ & _ & H3 & H4). cbv zeta in *. destruct (Install n o) as [o' [[]|e]]; cbn [fst snd] in *.
  - pose proof (load_next o' m n Hm Hn Hg H3 H4) as Hl. auto.
  - destruct H4 as [Hf H4]. split; [contradiction|]. split; [discriminate|]. split; [|exact H3]. destruct H4 as [H4|H4]; [left; now apply load_slots|right; now apply (load_next o' m n)].
Qed.

Definition demo_dir (faults : list fault) : manager := mkOs {[PSlot true := 0%nat]} {[0%nat := match Encode demo_manifest with Ok src => src | Err _ => [] end]} 1 faults demo_manifest.
Definition demo_next : Manifest := set_generation demo_manifest 2.

Lemma demo_dir_wf faults : fs_wf (demo_dir faults).
Proof.
  constructor; cbn.
  - intros p q f [<- _]%lookup_singleton_Some [<- _]%lookup_singleton_Some. reflexivity.
  - intros p f [_ <-]%lookup_singleton_Some. lia.
Qed.

Lemma demo_dir_holds faults : holds (demo_dir faults) demo_manifest.
Proof. exists (match Encode demo_manifest with Ok src => src | Err _ => [] end). split; vm_compute; reflexivity. Qed.

(** Stopped in the middle of the write of the new manifest. *)
Lemma manifest_install_atomic_witness : let r := Install demo_next (demo_dir [None; None; Some 30%nat]) in
  is_ok r.2 = false /\ (Load r.1 = Load (demo_dir [None; None; Some 30%nat]) \/ Load r.1 = Ok demo_next) /\ holds r.1 demo_manifest.
Proof.
  split; [vm_compute; reflexivity|]. destruct (manifest_install_atomic (demo_dir [None; None; Some 30%nat]) demo_manifest demo_next (match Encode demo_next with Ok src => src | Err _ => [] end)) as (_ & _ & H1 & H2).
  - apply demo_dir_wf.
  - apply demo_manifest_u.
  - pose proof demo_manifest_u as []. constructor; try assumption.
  - apply demo_dir_holds.
  - reflexivity.
  - vm_compute. reflexivity.
  - exact (conj H1 H2).
Defined.
