(* ===== verification/CatalogStore.v ===== *)
(** * The catalog behind the mapping store

    The manager of [CatalogFiles] satisfies the contract that the mapping store
    and its crash-safe rotation rely on ([CatalogLaws]): the instances at the end
    close the stack from the manifest files to the radix tree. *)
From S2P Require Import Prelude Bytes Addr Crc32 RecordFormat RecordCodec MapNode MapSegment Fs FsDisk NodeIface MapStore MapScan MapStoreSpec Catalog CatalogSpec CatalogCodec CatalogFiles.

#[export] Instance Manager_port : CatalogPort manager := {
  cp_Snapshot c := mapStoreSnapshot (os_user c);
  cp_Install c faults expect sealed active next :=
    let '(c', r) := InstallMapStoreRotation expect sealed active next (refault c faults) in (c', os_faults c', r);
  cp_Reload c := match Load c with Ok m => set_current c m | Err _ => c end }.

(** ** A rotation of the mapping keeps the manifest valid *)

Lemma stats_live_ext m n stats : mf_ActiveData n = mf_ActiveData m -> mf_ReplayStart n = mf_ReplayStart m -> mf_SealedData n = mf_SealedData m ->
  forall p live, stats_live n p live stats = stats_live m p live stats.
Proof.
  intros H1 H2 H3. induction stats as [|st stats IH]; intros p live; [reflexivity|]. cbn [stats_live]. unfold stat_ok. rewrite H1, H2, H3. repeat case_if; auto.
Qed.

Lemma sealed_map_set st next size segs : cs_SegmentSize st = size -> 64 <= size < two32 -> cs_ActiveSegment st <= next ->
  forall p, 0 <= p -> sealed_ok st p (map (fun s => mkSegmentRef (ms_SegmentID s) (ms_ValidEnd s)) segs) = true -> map_set_ok (cs_ActiveSegment st) next size p segs = true.
Proof.
  intros Hs Hb Hn. induction segs as [|s segs IH]; intros p Hp E; [reflexivity|]. cbn [map sealed_ok map_set_ok sr_SegmentID sr_ValidEnd] in *. apply andb_true_iff in E as [E Er].
  rewrite negb_true_iff, !orb_false_iff in E. destruct E as [[[[E1 E2] E3] E4] E5]. bool_norm. rewrite (IH (ms_SegmentID s)) by (assumption || lia). unfold MapSegment.SegmentFooterSize in *. rewrite Hs in *. rewrite Z.mod_small in * by lia.
  rewrite andb_true_r, negb_true_iff, !orb_false_iff, !Z.leb_gt, !Z.ltb_ge, Z.eqb_neq, negb_false_iff, Z.eqb_eq. repeat split; try assumption; lia.
Qed.

Definition rotated_map (m : Manifest) (ref : SegmentRef) (active next : Z) : Manifest :=
  set_map (set_generation m (mf_Generation m + 1)) active next (mf_SealedMap m ++ [mkMap (sr_SegmentID ref) (sr_ValidEnd ref)]) (mf_MappingRoot m).

Lemma rotated_snapshot m ref active next : mapStoreSnapshot (rotated_map m ref active next) = rotated (mapStoreSnapshot m) ref active next.
Proof. unfold mapStoreSnapshot, rotated, rotated_map. cbn. rewrite map_app. cbn. now destruct ref. Qed.

Lemma find_app_equal (id : Z) l s : List.find (fun x => ms_SegmentID x =? id) (l ++ [s]) = match List.find (fun x => ms_SegmentID x =? id) l with Some x => Some x | None => if ms_SegmentID s =? id then Some s else None end.
Proof. induction l as [|x l IH]; cbn [app List.find]; [reflexivity|]. destruct (ms_SegmentID x =? id); [reflexivity|exact IH]. Qed.

Lemma rotated_map_set m ref active next : manifest_u m -> serves m -> installable (mapStoreSnapshot m) (mf_Generation m) ref active next -> validateMapSet (rotated_map m ref active next) = true.
Proof.
  intros Hu [Hv Hn] [[_ Hg] (I1 & I2 & I3 & I4) Iv]. destruct (manifest_facts_of m Hv) as [_ _ _ F6 _ F7 _ _]. pose proof (mu_limits _ Hu) as Hl. unfold limits_of in Hl. apply Forall_cons in Hl as [Hsz _]. destruct (limits_size _ F6 Hsz) as (S1 & S2 & S3).
  cbn [mapStoreSnapshot cs_ActiveSegment cs_NextSegment] in I1, I2. rewrite <- rotated_snapshot in Iv. unfold snapshot_valid in Iv. apply andb_true_iff in Iv as [Iv Ir]. apply andb_true_iff in Iv as [_ Is].
  set (n := rotated_map m ref active next) in *. unfold validateMapSet in *. apply andb_true_iff in F7 as [F7 F8]. apply andb_true_iff. split.
  - assert (Hs : cs_SegmentSize (mapStoreSnapshot n) = hl_SegmentSize (mf_HardLimits m)) by (apply Z.mod_small; lia).
    apply (sealed_map_set (mapStoreSnapshot n) next (hl_SegmentSize (mf_HardLimits m)) (mf_SealedMap n) Hs); [lia|cbn; lia|lia|exact Is].
  - change (mf_MappingRoot n) with (mf_MappingRoot m). change (cs_Root (mapStoreSnapshot n)) with (mf_MappingRoot m) in Ir. destruct (mf_MappingRoot m =? 0); [reflexivity|]. apply andb_true_iff in F8 as [F8 F9]. rewrite F8 in Ir |- *. cbn [negb] in Ir. cbn [andb].
    change (cs_ActiveSegment (mapStoreSnapshot n)) with active in Ir. change (mf_ActiveMap n) with active. change (mf_SealedMap n) with (mf_SealedMap m ++ [mkMap (sr_SegmentID ref) (sr_ValidEnd ref)]).
    assert (Hlt : MapAddr_SegmentID (mf_MappingRoot m) <= mf_ActiveMap m).
    { destruct (_ =? mf_ActiveMap m) eqn:Ea; bool_norm; [lia|]. destruct (List.find _ _) as [s|] eqn:Ef; [|discriminate]. apply List.find_some in Ef as [Hin Eq]. bool_norm. rewrite <- Eq. clear -F7 Hin.
      revert F7. generalize 0. induction (mf_SealedMap m) as [|x l IH]; intros p F7; [destruct Hin|]. cbn [map_set_ok] in F7. apply andb_true_iff in F7 as [F1 F2]. destruct Hin as [->|Hin]; [bool_norm; lia|eauto]. }
    replace (_ =? active) with false in * by (symmetry; apply Z.eqb_neq; lia). rewrite find_app_equal. cbn [ms_SegmentID ms_ValidEnd]. destruct (_ =? mf_ActiveMap m) eqn:Ea; bool_norm.
    + destruct (List.find _ (mf_SealedMap m)) as [s|] eqn:Ef.
      { apply List.find_some in Ef as [Hin Eq]. bool_norm. exfalso. clear -F7 Hin Eq Ea. revert F7. generalize 0. induction (mf_SealedMap m) as [|x l IH]; intros p F7; [destruct Hin|]. cbn [map_set_ok] in F7. apply andb_true_iff in F7 as [F1 F2]. destruct Hin as [->|Hin]; [bool_norm; lia|eauto]. }
      rewrite I1, Ea, Z.eqb_refl. change (cs_SealedSegments (mapStoreSnapshot n)) with (map (fun s => mkSegmentRef (ms_SegmentID s) (ms_ValidEnd s)) (mf_SealedMap m ++ [mkMap (sr_SegmentID ref) (sr_ValidEnd ref)])) in Ir.
      assert (Hset : map_set_ok active next (hl_SegmentSize (mf_HardLimits m)) 0 (mf_SealedMap m ++ [mkMap (sr_SegmentID ref) (sr_ValidEnd ref)]) = true).
      { assert (Hs : cs_SegmentSize (mapStoreSnapshot n) = hl_SegmentSize (mf_HardLimits m)) by (apply Z.mod_small; lia). apply (sealed_map_set (mapStoreSnapshot n) next (hl_SegmentSize (mf_HardLimits m)) (mf_SealedMap n) Hs); [lia|cbn; lia|lia|exact Is]. }
      rewrite (find_first_ge _ _ _ _ _ 0 (mkMap (sr_SegmentID ref) (sr_ValidEnd ref)) Hset) in Ir; [bool_norm; apply Z.ltb_lt; assumption|].
      rewrite find_app_equal, Ef. cbn [ms_SegmentID]. rewrite I1, Ea, Z.eqb_refl. reflexivity.
    + destruct (List.find _ _) as [s|]; [exact F9|discriminate].
Qed.

Lemma rotated_ok m ref active next : manifest_u m -> serves m -> installable (mapStoreSnapshot m) (mf_Generation m) ref active next -> len (mf_SealedMap m) < maxManifestPayload / 8 ->
  manifest_ok (rotated_map m ref active next) = true.
Proof.
  intros Hu Hs Hi Hr. pose proof (rotated_map_set m ref active next Hu Hs Hi) as Hms. destruct Hs as [Hv Hn]. destruct Hi as [[_ Hg] (I1 & I2 & I3 & I4) _]. cbn [mapStoreSnapshot cs_ActiveSegment cs_NextSegment] in I1, I2. pose proof (mu_gen _ Hu) as Hgu. unfold is_u64 in Hgu.
  destruct (manifest_facts_of m Hv) as [_ _ (_ & _ & F4 & F5) _ _ _ _ _]. destruct (mu_ids _ Hu) as (_ & _ & _ & U1 & U2). unfold is_u32 in *.
  unfold manifest_ok in *. rewrite (stats_live_ext m (rotated_map m ref active next)) by reflexivity. rewrite Hms. unfold rotated_map at 1 2 3 4 5 6 7 8 9 10 11 12 13. cbn [mf_Generation mf_StoreUUID mf_RecordLogID mf_ActiveData mf_NextData mf_ActiveMap mf_NextMap mf_ReplayStart mf_HardLimits mf_SealedData mf_SealedMap mf_OpenBatchIDsAtCut mf_SegmentStats set_map set_generation].
  change (validateDataSet (rotated_map m ref active next)) with (validateDataSet m). apply andb_true_iff in Hv as [Hv L7]. apply andb_true_iff in Hv as [Hv L6]. apply andb_true_iff in Hv as [Hv L5]. apply andb_true_iff in Hv as [Hv L4]. apply andb_true_iff in Hv as [Hv L3]. apply andb_true_iff in Hv as [L1 L2].
  rewrite !andb_true_iff. repeat split; auto; rewrite negb_true_iff, !orb_false_iff in *.
  - repeat split; try (apply L1); try (apply Z.eqb_neq; lia). apply Z.leb_gt. lia.
  - repeat split; try apply L3. apply Z.ltb_ge. rewrite len_app. change (len [mkMap (sr_SegmentID ref) (sr_ValidEnd ref)]) with 1. lia.
Qed.

(** ** Room in the manifest file *)

Definition room (m : Manifest) : Prop := len (encode_items 1 (manifest_items m)) + 8 <= maxManifestPayload /\ len (mf_SealedMap m) < maxManifestPayload / 8.

Lemma payload_fits vs : forall s t, 0 <= s -> s + len (encode_items t vs) <= maxManifestPayload -> exists r, payload_size s vs = Ok r.
Proof.
  induction vs as [|v vs IH]; intros s t Hs H; cbn [payload_size encode_items] in *; [eauto|]. rewrite len_app, len_item in H. pose proof (len_nonneg (encode_items (t + 1) vs)). pose proof (align8_spec (len v) (len_nonneg v)). pose proof (len_nonneg v). unfold tlvHeaderSize.
  replace (_ <? s) with false by (symmetry; apply Z.ltb_ge; lia). apply (IH _ (t + 1)); lia.
Qed.

Lemma map_item_len segs : len (encodeMapSegments segs) = 8 + 8 * len segs.
Proof.
  unfold encodeMapSegments. rewrite !len_app, len_put_le, len_zeros. assert (E : len (concat (map encodeMap segs)) = 8 * len segs); [|lia].
  induction segs as [|s segs IH]; [reflexivity|]. cbn [map concat]. rewrite len_app, len_cons, IH. unfold encodeMap. rewrite len_app, !len_put_le. lia.
Qed.

Lemma rotated_items m ref active next : len (encode_items 1 (manifest_items (rotated_map m ref active next))) = len (encode_items 1 (manifest_items m)) + 8.
Proof.
  unfold manifest_items, rotated_map. cbn [encode_items mf_HardLimits mf_RecordLogID mf_ActiveData mf_NextData mf_SealedData mf_ActiveMap mf_NextMap mf_SealedMap mf_MappingRoot mf_OpenBatchIDsAtCut mf_StatsCoveredCommitSeq mf_SegmentStats mf_MappingEntryCount mf_CompactionFloor set_map set_generation].
  rewrite !len_app, !len_item, !map_item_len, !len_app. change (len [mkMap (sr_SegmentID ref) (sr_ValidEnd ref)]) with 1. unfold encodePair32. rewrite !len_app, !len_put_le.
  replace (8 + 8 * (len (mf_SealedMap m) + 1)) with (8 + 8 * len (mf_SealedMap m) + 8) by lia.
  assert (Ea : forall x, align8 (x + 8) = align8 x + 8) by (intros x; unfold align8; rewrite !ldiff_7; dlia). rewrite Ea.
  change (encodeCheckpoint (set_map _ _ _ _ _)) with (encodeCheckpoint m). lia.
Qed.

Lemma rotation_encodes m ref active next : manifest_u m -> serves m -> installable (mapStoreSnapshot m) (mf_Generation m) ref active next -> room m ->
  exists encoded, Encode (rotated_map m ref active next) = Ok encoded.
Proof.
  intros Hu Hs Hi [R1 R2]. unfold Encode, Validate. rewrite (rotated_ok m ref active next Hu Hs Hi R2). cbn [negb]. destruct (payload_fits (manifest_items (rotated_map m ref active next)) 0 1) as [r ->]; [lia|rewrite rotated_items; lia|eauto].
Qed.

Lemma rotation_accepted m gen ref active next : manifest_u m -> serves m -> installable (mapStoreSnapshot m) gen ref active next -> room m ->
  InstallMapRotation m gen (mkMapRotation (mkMap (sr_SegmentID ref) (sr_ValidEnd ref)) active next) = Ok (rotated_map m ref active next).
Proof.
  intros Hu Hs Hi [_ R2]. pose proof Hi as [[Eg Hg] (I1 & I2 & I3 & I4) Iv]. cbn in Eg, I1, I2. rewrite Eg in Hi. destruct (mu_ids _ Hu) as (_ & _ & _ & U1 & U2). unfold is_u32 in *.
  unfold InstallMapRotation, install, apply_map_rotation. cbn [mr_SealedOld mr_NewActive mr_NextID ms_SegmentID mf_ActiveMap mf_NextMap set_generation]. rewrite Eg, Z.eqb_refl. replace (mf_Generation m =? MaxUint64) with false by (symmetry; apply Z.eqb_neq; lia). cbn [negb].
  assert (G : negb (sr_SegmentID ref =? mf_ActiveMap m) || negb (active =? mf_NextMap m) || negb (next =? (active + 1) mod two32) || (active =? MaxUint32) = false).
  { rewrite !orb_false_iff, !negb_false_iff, !Z.eqb_eq, Z.eqb_neq. rewrite Z.mod_small by lia. lia. }
  rewrite G. change (set_map _ _ _ _ _) with (rotated_map m ref active next). unfold Validate. rewrite (rotated_ok m ref active next Hu Hs Hi R2). reflexivity.
Qed.

Lemma rotation_result m gen ref active next n : InstallMapRotation m gen (mkMapRotation (mkMap (sr_SegmentID ref) (sr_ValidEnd ref)) active next) = Ok n ->
  n = rotated_map m ref active next /\ mf_Generation m <> MaxUint64.
Proof. intros E. apply install_inv in E as (E & _ & _ & Hg). unfold apply_map_rotation in E. inv_ok E. apply Ok_inj in E. split; [symmetry; exact E|exact Hg]. Qed.

Lemma rotated_u m ref active next : manifest_u m -> mf_Generation m <> MaxUint64 -> is_u32 (sr_SegmentID ref) -> is_u32 (sr_ValidEnd ref) -> is_u32 active -> is_u32 next -> manifest_u (rotated_map m ref active next).
Proof.
  intros Hu Hg H1 H2 H3 H4. pose proof (mu_gen _ Hu) as Hgen. destruct Hu. constructor; cbn; try assumption; [unfold is_u64 in *; lia|tauto|]. apply Forall_app. split; [assumption|]. constructor; [split; assumption|constructor].
Qed.

(** ** The contract *)

(** A manager and its files: the current manifest is in its slot, and a new
    process loads it or the next one. *)
Record manager_ok (c : manager) : Prop := mkManagerOk {
  mo_wf : fs_wf c;
  mo_range : manifest_u (os_user c);
  mo_serves : serves (os_user c);
  mo_holds : holds c (os_user c);
  mo_load : exists m, Load c = Ok m /\ manifest_u m /\ serves m /\ holds c m /\ (m = os_user c \/ mf_Generation m = mf_Generation (os_user c) + 1);
}.

Lemma snapshot_range m : manifest_u m -> snapshot_u (mapStoreSnapshot m).
Proof.
  intros Hu. destruct (mu_ids _ Hu) as (_ & _ & _ & U1 & U2). constructor; cbn; [apply (mu_uuid _ Hu)|apply (mu_gen _ Hu)| |].
  - split; [|auto]. unfold is_u32. apply Z.mod_pos_bound. lia.
  - rewrite Forall_map. eapply Forall_impl; [apply (mu_map _ Hu)|]. intros s H. exact H.
Qed.

Lemma manager_same c c' : manager_ok c -> os_names c' = os_names c -> os_data c' = os_data c -> os_next c' = os_next c -> os_user c' = os_user c -> manager_ok c'.
Proof.
  intros [[W1 W2] H2 H3 (e & He1 & He2) (m & L1 & L2 & L3 & (e' & Hm1 & Hm2) & L5)] E1 E2 E3 E4. assert (Ec : forall p, content c' p = content c p) by (intros p; unfold content, bytes_of; now rewrite E1, E2).
  constructor; rewrite ?E4; auto.
  - constructor; rewrite ?E1, ?E3; assumption.
  - exists e. rewrite Ec. auto.
  - exists m. rewrite (load_slots c c') by (intros s; apply Ec). repeat (split; [assumption|]). split; [exists e'; rewrite Ec; auto|exact L5].
Qed.

Lemma reload_set c m : Load c = Ok m -> cp_Reload c = set_current c m.
Proof. intros E. cbn. now rewrite E. Qed.

Lemma set_current_ok c m : manager_ok c -> Load c = Ok m -> manager_ok (set_current c m).
Proof.
  intros [[W1 W2] _ _ _ (m' & L1 & L2 & L3 & L4 & _)] E. assert (m' = m) by congruence. subst m'. constructor; auto; [constructor; assumption|]. exists m. repeat (split; [assumption|]). auto.
Qed.

(** The two ways in which an update by the manager can end. *)
Lemma update_cases c fs (tr : Manifest -> res Manifest) : manager_ok c -> (forall n, tr (os_user c) = Ok n -> manifest_u n /\ transition (os_user c) n) ->
  let '(c', r) := Manager_update (fun m => no_result (tr m)) (refault c fs) in
  manager_ok c' /\ (fs = [] -> os_faults c' = []) /\
  match r with
  | Ok (n, _) => os_user c' = n /\ tr (os_user c) = Ok n /\ Load c' = Ok n
  | Err _ => os_user c' = os_user c /\ (Load c' = Load c \/ exists n, tr (os_user c) = Ok n /\ Load c' = Ok n) /\
             (fs <> [] \/ ~ exists n encoded, tr (os_user c) = Ok n /\ Encode n = Ok encoded)
  end.
Proof.
  intros Hc Htr. pose proof Hc as [W Hu Hs Hh _]. set (m := os_user c) in *. unfold Manager_update. change (os_user (refault c fs)) with m.
  assert (Same : manager_ok (refault c fs)) by (apply (manager_same c); auto).
  destruct (tr m) as [n|e] eqn:E; cbn [no_result].
  2: { split; [exact Same|]. split; [intros ->; reflexivity|]. split; [reflexivity|]. split; [left; now apply load_slots|]. right. intros (n & x & Hx & _). discriminate. }
  destruct (Htr n eq_refl) as [Hnu Ht]. destruct (transition_forward m n Hs Ht) as (_ & Hns & Hng).
  destruct (Encode n) as [encoded|e] eqn:Een.
  2: { unfold Install. unfold io_bind at 1, io_lift. rewrite Een. split; [exact Same|]. split; [intros ->; reflexivity|]. split; [reflexivity|]. split; [left; now apply load_slots|]. right. intros (n' & x & Hx & Hy). congruence. }
  destruct (Install_outcome (refault c fs) m n encoded) as (O1 & O2 & O3 & O4 & O5); auto; [destruct W; constructor; assumption|].
  destruct (Install n (refault c fs)) as [c' [x|e]]; cbn [fst snd] in *.
  - assert (Hl : Load (set_current c' n) = Ok n) by exact (load_next c' m n Hu Hnu Hng O4 O5).
    split; [|split; [exact O1|split; [reflexivity|split; [reflexivity|exact Hl]]]]. constructor; auto; [destruct O2; constructor; assumption|]. exists n. auto 6.
  - destruct O5 as [Of O5]. change (os_user (refault c fs)) with m in O3. assert (Hlc : Load c' = Load c \/ (Load c' = Ok n /\ holds c' n)).
    { destruct O5 as [O5|O5]; [left; rewrite (load_slots (refault c fs) c' O5); now apply load_slots|right; split; [exact (load_next c' m n Hu Hnu Hng O4 O5)|exact O5]]. }
    split; [|split; [intros ->; now destruct Of|split; [exact O3|split; [destruct Hlc as [Hlc|[Hlc _]]; eauto|left; exact Of]]]].
    constructor; rewrite ?O3; auto. destruct (mo_load _ Hc) as (m' & L1 & L2 & L3 & (e' & Hm1 & Hm2) & L5). destruct Hlc as [Hlc|[Hlc Hhn]]; [|exists n; auto 6].
    destruct O5 as [O5|O5].
    + exists m'. rewrite Hlc. repeat (split; [assumption|]). split; [exists e'; split; [rewrite O5; exact Hm1|exact Hm2]|exact L5].
    + exists n. rewrite (load_next c' m n Hu Hnu Hng O4 O5). auto 6.
Qed.

(** The two ways in which a rotation installed by the manager can end. *)
Lemma install_cases c fs gen ref active next : manager_ok c -> is_u32 (sr_SegmentID ref) -> is_u32 (sr_ValidEnd ref) -> is_u32 active -> is_u32 next ->
  let '(c', r) := InstallMapStoreRotation gen ref active next (refault c fs) in
  manager_ok c' /\ (fs = [] -> os_faults c' = []) /\
  match r with
  | Ok s => s = mapStoreSnapshot (os_user c') /\ os_user c' = rotated_map (os_user c) ref active next /\ Load c' = Ok (os_user c')
  | Err _ => os_user c' = os_user c /\ (Load c' = Load c \/ Load c' = Ok (rotated_map (os_user c) ref active next)) /\
             (fs <> [] \/ ~ (installable (mapStoreSnapshot (os_user c)) gen ref active next /\ room (os_user c)))
  end.
Proof.
  intros Hc H1 H2 H3 H4. pose proof Hc as [_ Hu Hs _ _]. set (tr := fun m => InstallMapRotation m gen (mkMapRotation (mkMap (sr_SegmentID ref) (sr_ValidEnd ref)) active next)).
  assert (Htr : forall n, tr (os_user c) = Ok n -> manifest_u n /\ transition (os_user c) n).
  { intros n E. split; [|exact (tr_map_rotation _ gen (mkMapRotation (mkMap (sr_SegmentID ref) (sr_ValidEnd ref)) active next) n H3 E)]. destruct (rotation_result _ _ _ _ _ _ E) as [-> Hg]. now apply rotated_u. }
  pose proof (update_cases c fs tr Hc Htr) as H. unfold InstallMapStoreRotation, io_bind. fold tr. change (fun m => no_result (InstallMapRotation m gen _)) with (fun m => no_result (tr m)).
  destruct (Manager_update _ (refault c fs)) as [c' [[n x]|e]]; cbn [io_ret]; destruct H as (I1 & I2 & I3); (split; [exact I1|split; [exact I2|]]).
  - destruct I3 as (-> & E & L). destruct (rotation_result _ _ _ _ _ _ E) as [-> _]. auto.
  - destruct I3 as (J1 & J2 & J3). split; [exact J1|]. split.
    + destruct J2 as [J2|(n & E & J2)]; [auto|]. destruct (rotation_result _ _ _ _ _ _ E) as [-> _]. auto.
    + destruct J3 as [J3|J3]; [auto|]. right. intros [Hi Hr]. apply J3. pose proof Hi as [[Eg _] _ _]. cbn in Eg. pose proof (rotation_accepted _ gen ref active next Hu Hs Hi Hr) as E. rewrite Eg in Hi. destruct (rotation_encodes _ ref active next Hu Hs Hi Hr) as [y Ey]. eauto.
Qed.

#[export] Instance Manager_laws : CatalogLaws manager.
Proof.
  unshelve econstructor; [exact manager_ok|exact (fun c => room (os_user c))|..].
  - intros c Hc. apply snapshot_range, (mo_range _ Hc).
  - intros c Hc. destruct (mo_load _ Hc) as (m & L1 & L2 & L3 & L4 & L5). rewrite (reload_set c m L1). assert (El : Load (set_current c m) = Ok m) by exact L1. split; [now apply set_current_ok|]. split; [now rewrite (reload_set _ m El)|].
    intros Hr Es. destruct L5 as [->|L5]; [exact Hr|]. apply (f_equal cs_Generation) in Es. cbn in Es. lia.
  - intros c fs gen ref active next c' fs' r Hc H1 H2 H3 H4 E. cbn in E. pose proof (install_cases c fs gen ref active next Hc H1 H2 H3 H4) as Hi. destruct (InstallMapStoreRotation _ _ _ _ _) as [c1 r1]. injection E as <- <- <-. destruct Hi as (I1 & I2 & I3). split; [exact I1|]. split; [exact I2|].
    destruct r1 as [s|e].
    + destruct I3 as (J1 & J2 & J3). split; [exact J1|]. split; [rewrite J1, J2; apply rotated_snapshot|]. rewrite (reload_set _ _ J3), J1. reflexivity.
    + destruct I3 as (J1 & J2 & J3). cbn [cp_Snapshot Manager_port]. rewrite J1. split; [reflexivity|]. split; [|split; [auto|exact J3]]. destruct (mo_load _ Hc) as (m & L1 & _). rewrite (reload_set c m L1). destruct J2 as [J2|J2].
      * left. rewrite L1 in J2. now rewrite (reload_set c1 m J2).
      * right. rewrite (reload_set c1 _ J2). cbn. apply rotated_snapshot.
Defined.
