(* ===== verification/LogSegment.v ===== *)
(** * Record log segments

    Models [internal/recordlog/segment.go], [rotation_journal.go] and [fileio.go]:
    the active segment with its append, sync and two-step seal, the scan of an
    active file that drops an unfinished tail, sealed segments, reading one record
    with the size hint of its address, and the rotation journal.  An operation
    returns the new state of the segment it works on; locks are not modelled. *)
From S2P Require Import Prelude Bytes Addr Crc32 RecordFormat Fs Catalog.

(** The names below the directories of the log. *)
Inductive lpath := LActive (id : Z) | LSealed (id : Z) | LCreating (id : Z) | LTrash (id : Z) | LRotation | LRotationTmp.

#[export] Instance lpath_eq_dec : EqDecision lpath.
Proof. solve_decision. Defined.
#[export] Instance lpath_countable : Countable lpath.
Proof.
  refine (inj_countable'
    (fun p => match p with LActive i => (0, i) | LSealed i => (1, i) | LCreating i => (2, i) | LTrash i => (5, i) | LRotation => (3, 0) | LRotationTmp => (4, 0) end)
    (fun c => match c with (0, i) => LActive i | (1, i) => LSealed i | (2, i) => LCreating i | (5, i) => LTrash i | (3, _) => LRotation | _ => LRotationTmp end) _).
  by intros [].
Defined.

#[export] Instance SegmentHeader_eq_dec : EqDecision SegmentHeader.
Proof. solve_decision. Defined.
#[export] Instance SegmentFooter_eq_dec : EqDecision SegmentFooter.
Proof. solve_decision. Defined.
#[export] Instance RecordHeader_eq_dec : EqDecision RecordHeader.
Proof. solve_decision. Defined.

Abbreviation SegmentSummary := DataSegmentSummary (only parsing).
Abbreviation LogRecord := (AppendResult * list Z)%type.

Record recordExtent := mkExtent { ex_Result : AppendResult; ex_Size : Z }.

(** [as_file]: [None] after [close]. *)
Record activeSegment := mkActive
  { as_file : option nat; as_header : SegmentHeader; as_end : Z; as_first : Z; as_last : Z; as_records : Z; as_sealed : bool; as_transferred : bool }.
Record sealedSegment := mkSealed { sl_file : option nat; sl_header : SegmentHeader; sl_summary : SegmentSummary }.

Definition log_footer (s : SegmentSummary) : SegmentFooter :=
  mkSegmentFooter (ds_SegmentID s) (ds_ValidEnd s) (ds_FirstAddr s) (ds_LastAddr s) (ds_RecordCount s).

Definition summaryLocked (s : activeSegment) : SegmentSummary :=
  mkData (sh_SegmentID (as_header s)) (as_end s) (as_records s) (as_first s) (as_last s).

(** ** Scanning *)

(** The loop over the file [data] of [scanActiveSegmentWithVisitor]; the visitor
    is the list of its calls. *)
Fixpoint scan_active_loop (fuel : nat) (data : list Z) (expected : SegmentHeader) (result : SegmentSummary) (visits : list LogRecord)
  : res (SegmentSummary * bool * list LogRecord) :=
  let fileEnd := len data mod two32 in
  let contentLimit := (sh_SegmentSize expected - SegmentFooterSize) mod two32 in
  if fileEnd <=? ds_ValidEnd result then Ok (result, false, visits)
  else match fuel with
  | O => Err [recordlog_ErrCorrupt]
  | S fuel' =>
      let remaining := fileEnd - ds_ValidEnd result in
      let! footer := (if (remaining <=? SegmentFooterSize) && (8 <=? remaining) then
                        let! magic := read_at data (ds_ValidEnd result) 8 in Ok (bool_decide (magic = segmentFooterMagic))
                      else Ok false) in
      if footer : bool then Ok (result, true, visits)
      else if remaining <? RecordHeaderSize then Ok (result, true, visits)
      else
        let! headerBytes := read_at data (ds_ValidEnd result) RecordHeaderSize in
        let! recordHeader := DecodeRecordHeader headerBytes in
        raise [recordlog_ErrCorrupt] when
          (contentLimit <? ds_ValidEnd result) || negb (SegmentID (rh_Addr recordHeader) =? sh_SegmentID expected) ||
          negb (Offset (rh_Addr recordHeader) =? ds_ValidEnd result) || (contentLimit - ds_ValidEnd result <? rh_PhysicalSize recordHeader) ;;
        if remaining <? rh_PhysicalSize recordHeader then Ok (result, true, visits)
        else
          let! record := read_at data (ds_ValidEnd result) (rh_PhysicalSize recordHeader) in
          let! (decoded, payload) := DecodeRecord record in
          raise [recordlog_ErrCorrupt] when negb (bool_decide (decoded = recordHeader)) ;;
          let! ar := NewAppendResult (rh_Addr recordHeader) (rh_PhysicalSize recordHeader) in
          scan_active_loop fuel' data expected
            (mkData (ds_SegmentID result) ((ds_ValidEnd result + rh_PhysicalSize recordHeader) mod two32) ((ds_RecordCount result + 1) mod two64)
               (if ds_RecordCount result =? 0 then rh_Addr recordHeader else ds_FirstAddr result) (rh_Addr recordHeader))
            (visits ++ [(ar, payload)])
  end.

Definition scanActiveSegmentWithVisitor (data : list Z) (expected : SegmentHeader) : res (SegmentSummary * bool * list LogRecord) :=
  raise [recordlog_ErrCorrupt] when (len data <? SegmentHeaderSize) || (sh_SegmentSize expected <? len data) ;;
  let! headerBytes := read_at data 0 SegmentHeaderSize in
  let! header := DecodeSegmentHeader headerBytes in
  raise [recordlog_ErrCorrupt] when negb (bool_decide (header = expected)) ;;
  scan_active_loop (length data) data expected (mkData (sh_SegmentID expected) SegmentHeaderSize 0 0 0) [].

Definition scanActiveSegment (data : list Z) (expected : SegmentHeader) : res (SegmentSummary * bool) :=
  let! (summary, repaired, _) := scanActiveSegmentWithVisitor data expected in Ok (summary, repaired).

(** [scanRecordRange] *)
Fixpoint scan_range_loop (fuel : nat) (data : list Z) (summary : SegmentSummary) (offset : Z) (visits : list LogRecord) : res (list LogRecord) :=
  if ds_ValidEnd summary <=? offset then Ok visits
  else match fuel with
  | O => Err [recordlog_ErrCorrupt]
  | S fuel' =>
      let! headerBytes := read_at data offset RecordHeaderSize in
      let! header := DecodeRecordHeader headerBytes in
      raise [recordlog_ErrCorrupt] when
        negb (SegmentID (rh_Addr header) =? ds_SegmentID summary) || negb (Offset (rh_Addr header) =? offset) || (ds_ValidEnd summary - offset <? rh_PhysicalSize header) ;;
      let! encoded := read_at data offset (rh_PhysicalSize header) in
      let! (decoded, payload) := DecodeRecord encoded in
      raise [recordlog_ErrCorrupt] when negb (bool_decide (decoded = header)) ;;
      let! ar := NewAppendResult (rh_Addr header) (rh_PhysicalSize header) in
      scan_range_loop fuel' data summary ((offset + rh_PhysicalSize header) mod two32) (visits ++ [(ar, payload)])
  end.

Definition scanRecordRange (data : list Z) (summary : SegmentSummary) (from : Z) : res (list LogRecord) :=
  raise [recordlog_ErrInvalidConfig] when
    (from <? SegmentHeaderSize) || (ds_ValidEnd summary <? from) || negb (Z.land from (RecordAlignment - 1) =? 0) ;;
  scan_range_loop (length data) data summary from [].

(** ** Reading one record *)

Definition readRecordAt (data : list Z) (summary : SegmentSummary) (addr : Z) : res (list Z) :=
  raise [recordlog_ErrInvalidVAddr] when
    negb (VAddr_Valid addr) || negb (SegmentID addr =? ds_SegmentID summary) || (Offset addr <? SegmentHeaderSize) || (ds_ValidEnd summary <=? Offset addr) ;;
  let! hint := ReadHint addr in
  let available := ds_ValidEnd summary - Offset addr in
  let firstSize := if available <? hint then available else hint in
  raise [recordlog_ErrCorrupt] when firstSize <? RecordHeaderSize ;;
  let! first := read_at data (Offset addr) firstSize in
  let! header := DecodeRecordHeader (slice 0 32 first) in
  raise [recordlog_ErrCorrupt] when negb (rh_Addr header =? addr) || (available <? rh_PhysicalSize header) ;;
  let! encoded := (if rh_PhysicalSize header <? len first then Ok (slice 0 (Z.to_nat (rh_PhysicalSize header)) first)
                   else if len first <? rh_PhysicalSize header then
                     let! rest := read_at data (Offset addr + len first) (rh_PhysicalSize header - len first) in Ok (first ++ rest)
                   else Ok first) in
  let! (_, payload) := DecodeRecord encoded in
  Ok payload.

Section Segments.
Context {C : Type}.
Abbreviation lio := (io lpath C).

Definition hitSegmentFault : lio unit := fs_point.
(** [mkdir] when it is missing, and the sync of its parent *)
Definition ensureRecordsDirectory : lio unit := fs_point.
Definition syncDir : lio unit := fs_point.
Definition log_file_Sync (file : nat) : lio unit := fs_point.
Definition log_file_Close (file : nat) : lio unit := fs_point.
Definition log_writeFullAt (file : nat) (bytes : list Z) (off : Z) : lio unit := fs_write file off bytes.

Definition createActiveSegment (header : SegmentHeader) : lio activeSegment :=
  let* encoded := io_lift (EncodeSegmentHeader header) in
  run ensureRecordsDirectory ;;
  let* file := fs_create (LCreating (sh_SegmentID header)) in
  run hitSegmentFault ;; run log_writeFullAt file encoded 0 ;;
  run hitSegmentFault ;; run log_file_Sync file ;;
  run hitSegmentFault ;; run fs_rename (LCreating (sh_SegmentID header)) (LActive (sh_SegmentID header)) ;;
  run hitSegmentFault ;; run syncDir ;;
  io_ret (mkActive (Some file) header SegmentHeaderSize 0 0 0 false false).

Definition openActiveSegment (expected : SegmentHeader) : lio (activeSegment * bool) :=
  let* file := fs_open (LActive (sh_SegmentID expected)) in
  let* data := fs_data file in
  let* (metadata, repaired) := io_lift (scanActiveSegment data expected) in
  run (if repaired : bool then
         run hitSegmentFault ;; run fs_truncate file (ds_ValidEnd metadata) ;;
         run hitSegmentFault ;; log_file_Sync file
       else io_ret tt) ;;
  io_ret (mkActive (Some file) expected (ds_ValidEnd metadata) (ds_FirstAddr metadata) (ds_LastAddr metadata) (ds_RecordCount metadata) false false, repaired).

(** ** Appending *)

Definition remainingLocked (s : activeSegment) : Z :=
  let limit := (sh_SegmentSize (as_header s) - SegmentFooterSize) mod two32 in
  if limit <=? as_end s then 0 else limit - as_end s.

(** The check of the append plan; the result is [total]. *)
Fixpoint append_plan (s : activeSegment) (total : Z) (records : list recordExtent) : res Z :=
  match records with
  | [] => Ok total
  | r :: rest =>
      raise [recordlog_ErrCorrupt] when (remainingLocked s <? total) || (ex_Size r =? 0) || (remainingLocked s - total <? ex_Size r) ;;
      let offset := (as_end s + total) mod two32 in
      let end_ := (offset + ex_Size r) mod two32 in
      raise [recordlog_ErrCorrupt] when
        negb (SegmentID (ar_Addr (ex_Result r)) =? sh_SegmentID (as_header s)) || negb (Offset (ar_Addr (ex_Result r)) =? offset) ||
        negb (bool_decide (ar_End (ex_Result r) = mkPos (sh_SegmentID (as_header s)) end_)) ;;
      append_plan s ((total + ex_Size r) mod two32) rest
  end.

(** [first], [last] and [records] after the records of an append. *)
Definition count_record (s : activeSegment) (r : recordExtent) : activeSegment :=
  mkActive (as_file s) (as_header s) (as_end s) (if as_records s =? 0 then ar_Addr (ex_Result r) else as_first s) (ar_Addr (ex_Result r)) ((as_records s + 1) mod two64)
    (as_sealed s) (as_transferred s).
Definition set_end (s : activeSegment) (end_ : Z) : activeSegment :=
  mkActive (as_file s) (as_header s) end_ (as_first s) (as_last s) (as_records s) (as_sealed s) (as_transferred s).

Definition appendEncoded (s : activeSegment) (encoded : list Z) (records : list recordExtent) : lio activeSegment :=
  match as_file s, as_sealed s with
  | None, _ | _, true => io_fail [recordlog_ErrClosed]
  | Some file, false =>
      if (len records =? 0) || (len encoded =? 0) then
        if (len records =? 0) && (len encoded =? 0) then io_ret s else io_fail [recordlog_ErrInvalidConfig]
      else
        let* total := io_lift (append_plan s 0 records) in
        if negb (len encoded mod two32 =? total) then io_fail [recordlog_ErrCorrupt]
        else
          run hitSegmentFault ;; run log_writeFullAt file encoded (as_end s) ;;
          io_ret (set_end (foldl count_record s records) ((as_end s + total) mod two32))
  end.

Definition segment_sync (s : activeSegment) : lio unit :=
  match as_file s, as_sealed s with
  | None, _ | _, true => io_fail [recordlog_ErrClosed]
  | Some file, false => run hitSegmentFault ;; log_file_Sync file
  end.

(** ** Sealing *)

Definition prepareSeal (s : activeSegment) : lio SegmentSummary :=
  match as_file s, as_sealed s with
  | None, _ | _, true => io_fail [recordlog_ErrClosed]
  | Some file, false =>
      let summary := summaryLocked s in
      let* footer := io_lift (EncodeSegmentFooter (log_footer summary)) in
      run hitSegmentFault ;; run log_writeFullAt file footer (ds_ValidEnd summary) ;;
      run hitSegmentFault ;; run log_file_Sync file ;;
      io_ret summary
  end.

Definition set_sealed (s : activeSegment) : activeSegment :=
  mkActive (as_file s) (as_header s) (as_end s) (as_first s) (as_last s) (as_records s) true (as_transferred s).

(** Both wrappers share the descriptor. *)
Definition publishPreparedSeal (s : activeSegment) (expected : SegmentSummary) : lio (activeSegment * sealedSegment * SegmentSummary) :=
  if negb (bool_decide (is_Some (as_file s))) || as_sealed s || negb (bool_decide (summaryLocked s = expected)) then io_fail [recordlog_ErrClosed]
  else
    let id := sh_SegmentID (as_header s) in
    run hitSegmentFault ;; run fs_rename (LActive id) (LSealed id) ;;
    run hitSegmentFault ;; run syncDir ;;
    io_ret (set_sealed s, mkSealed (as_file s) (as_header s) expected, expected).

Definition seal (s : activeSegment) : lio (activeSegment * sealedSegment * SegmentSummary) :=
  let* summary := prepareSeal s in publishPreparedSeal s summary.

(** The checks of [openSealedSegment] on the bytes of the file. *)
Definition check_sealed_data (data : list Z) (expected : SegmentHeader) (summary : SegmentSummary) : res unit :=
  raise [recordlog_ErrCorrupt] when negb (len data =? (ds_ValidEnd summary + SegmentFooterSize) mod two32) ;;
  let! headerBytes := read_at data 0 SegmentHeaderSize in
  let! header := DecodeSegmentHeader headerBytes in
  raise [recordlog_ErrCorrupt] when negb (bool_decide (header = expected)) ;;
  let! footerBytes := read_at data (ds_ValidEnd summary) SegmentFooterSize in
  let! footer := DecodeSegmentFooter footerBytes in
  raise [recordlog_ErrCorrupt] when negb (bool_decide (footer = log_footer summary)) ;;
  Ok tt.

Definition openSealedSegment (expected : SegmentHeader) (summary : SegmentSummary) : lio sealedSegment :=
  if negb (ds_SegmentID summary =? sh_SegmentID expected) || negb (data_summary_valid summary (sh_SegmentSize expected)) then io_fail [recordlog_ErrInvalidConfig]
  else
    let* file := fs_open (LSealed (sh_SegmentID expected)) in
    let* data := fs_data file in
    let* _ := io_lift (check_sealed_data data expected summary) in
    io_ret (mkSealed (Some file) expected summary).

(** ** Reading segments *)

Definition active_read (s : activeSegment) (addr : Z) : lio (list Z) :=
  match as_file s with
  | None => io_fail [recordlog_ErrClosed]
  | Some file => let* data := fs_data file in io_lift (readRecordAt data (summaryLocked s) addr)
  end.

Definition scanTo (s : activeSegment) (from limit : Z) : lio (list LogRecord) :=
  match as_file s with
  | None => io_fail [recordlog_ErrClosed]
  | Some file =>
      let summary := summaryLocked s in
      if ds_ValidEnd summary <? limit then io_fail [recordlog_ErrInvalidLogPos]
      else
        let* data := fs_data file in
        io_lift (scanRecordRange data (mkData (ds_SegmentID summary) limit (ds_RecordCount summary) (ds_FirstAddr summary) (ds_LastAddr summary)) from)
  end.

Definition sealed_read (s : sealedSegment) (addr : Z) : lio (list Z) :=
  match sl_file s with
  | None => io_fail [recordlog_ErrClosed]
  | Some file => let* data := fs_data file in io_lift (readRecordAt data (sl_summary s) addr)
  end.

Definition sealed_scan (s : sealedSegment) (from : Z) : lio (list LogRecord) :=
  match sl_file s with
  | None => io_fail [recordlog_ErrClosed]
  | Some file => let* data := fs_data file in io_lift (scanRecordRange data (sl_summary s) from)
  end.

(** [activeSegment.close] and [sealedSegment.close]: the file is forgotten also
    when closing it fails. *)
Definition active_close (s : activeSegment) (o : os lpath C) : os lpath C * (activeSegment * option goerror) :=
  match as_file s with
  | None => (o, (s, None))
  | Some file =>
      if as_sealed s && as_transferred s then (o, (s, None))
      else
        let '(o, r) := log_file_Close file o in
        (o, (mkActive None (as_header s) (as_end s) (as_first s) (as_last s) (as_records s) (as_sealed s) (as_transferred s), match r with Ok _ => None | Err e => Some e end))
  end.

Definition sealed_close (s : sealedSegment) (o : os lpath C) : os lpath C * (sealedSegment * option goerror) :=
  match sl_file s with
  | None => (o, (s, None))
  | Some file =>
      let '(o, r) := log_file_Close file o in (o, (mkSealed None (sl_header s) (sl_summary s), match r with Ok _ => None | Err e => Some e end))
  end.

Definition transferSealedOwnership (s : activeSegment) (sealed : sealedSegment) : res activeSegment :=
  raise [recordlog_ErrInvalidConfig] when
    negb (as_sealed s) || as_transferred s || negb (bool_decide (is_Some (as_file s))) || negb (bool_decide (sl_file sealed = as_file s)) ;;
  Ok (mkActive (as_file s) (as_header s) (as_end s) (as_first s) (as_last s) (as_records s) (as_sealed s) true).

End Segments.
