(* ===== verification/LogRotate.v ===== *)
(** * Rotation of the record log and its recovery

    Models [internal/recordlog/rotation_journal.go] and the file part of [open.go]:
    the journal, the rotation of the active segment, the handshake with the
    catalog, and the recovery of an interrupted rotation when the log is opened.
    The catalog is a parameter ([LogPort]). *)
From S2P Require Import Prelude Bytes Addr Crc32 RecordFormat Fs Catalog LogSegment.

(** [recordlog.CatalogPort], with the faults of its own files; [lp_Reload] is what
    the next process reads. *)
Class LogPort (C : Type) := {
  lp_Snapshot : C -> LogSnapshot;
  (** expected generation, sealed, new active, next *)
  lp_Install : C -> list fault -> Z -> SegmentSummary -> Z -> Z -> C * list fault * res LogSnapshot;
  lp_Reload : C -> C;
}.

(** ** The journal *)

Definition rotationJournalSize : Z := 96.
Definition rotationJournalMagic : list Z := [82; 73; 68; 82; 74; 86; 50; 0].

Record rotationJournal := mkLogJournal
  { lj_BaseGeneration : Z; lj_LogID : list Z; lj_SegmentSize : Z; lj_Old : SegmentSummary; lj_NewActive : Z; lj_NextSegmentID : Z }.

(** [rotationJournal.validate() == nil] *)
Definition log_journal_valid (j : rotationJournal) : bool :=
  negb ((lj_BaseGeneration j =? 0) || all_zero (lj_LogID j) || (ds_SegmentID (lj_Old j) =? MaxUint32) || (lj_NewActive j =? MaxUint32) ||
        negb (lj_NewActive j =? (ds_SegmentID (lj_Old j) + 1) mod two32) || negb (lj_NextSegmentID j =? (lj_NewActive j + 1) mod two32) ||
        negb (data_summary_valid (lj_Old j) (lj_SegmentSize j))).

Definition log_journal_body (j : rotationJournal) : list Z :=
  rotationJournalMagic ++ put_le 2 FormatVersion ++ put_le 2 rotationJournalSize ++ zeros 4 ++ put_le 8 (lj_BaseGeneration j) ++ lj_LogID j ++
  put_le 4 (lj_SegmentSize j) ++ put_le 4 (ds_SegmentID (lj_Old j)) ++ put_le 4 (ds_ValidEnd (lj_Old j)) ++ zeros 4 ++ put_le 8 (ds_RecordCount (lj_Old j)) ++
  put_le 8 (ds_FirstAddr (lj_Old j)) ++ put_le 8 (ds_LastAddr (lj_Old j)) ++ put_le 4 (lj_NewActive j) ++ put_le 4 (lj_NextSegmentID j) ++ zeros 4.

Definition encodeRotationJournal (j : rotationJournal) : res (list Z) :=
  raise [recordlog_ErrInvalidConfig] when negb (log_journal_valid j) ;;
  let body := log_journal_body j in Ok (body ++ put_le 4 (Checksum body)).

Definition decodeRotationJournal (encoded : list Z) : res rotationJournal :=
  raise [recordlog_ErrCorrupt] when
    negb (len encoded =? rotationJournalSize) || negb (magic_is rotationJournalMagic encoded) || negb (u16 8 encoded =? FormatVersion) ;;
  raise [recordlog_ErrCorrupt] when
    negb (u16 10 encoded =? rotationJournalSize) || negb (all_zero (slice 12 16 encoded)) || negb (all_zero (slice 52 56 encoded)) ||
    negb (all_zero (slice 88 92 encoded)) || negb (u32 92 encoded =? Checksum (slice 0 92 encoded)) ;;
  let j := mkLogJournal (u64 16 encoded) (slice 24 40 encoded) (u32 40 encoded)
             (mkData (u32 44 encoded) (u32 48 encoded) (u64 56 encoded) (u64 64 encoded) (u64 72 encoded)) (u32 80 encoded) (u32 84 encoded) in
  raise [recordlog_ErrCorrupt] when negb (log_journal_valid j) ;;
  Ok j.

Section Rotate.
Context {C : Type} `{!LogPort C}.
Abbreviation lio := (io lpath C).

Definition ensureJournalDirectory : lio unit := fs_point.

Definition installRotationJournal (j : rotationJournal) : lio unit :=
  let* encoded := io_lift (encodeRotationJournal j) in
  run ensureJournalDirectory ;;
  let* found := fs_exists LRotation in
  if found then io_fail [recordlog_ErrCorrupt]
  else
    let* file := fs_create LRotationTmp in
    run hitSegmentFault ;; run log_writeFullAt file encoded 0 ;;
    run hitSegmentFault ;; run log_file_Sync file ;; run log_file_Close file ;;
    run hitSegmentFault ;; run fs_rename LRotationTmp LRotation ;;
    run hitSegmentFault ;; syncDir.

Definition removeRotationJournalTemp : lio unit :=
  let* found := fs_exists LRotationTmp in
  if negb found then io_ret tt
  else run hitSegmentFault ;; run ignore_missing (fs_remove LRotationTmp) ;; run hitSegmentFault ;; syncDir.

(** The sync of the directory is skipped when it does not exist; a step that may
    fail stands for it either way. *)
Definition loadRotationJournal : lio (option rotationJournal) :=
  let* found := fs_exists LRotation in
  if negb found then run removeRotationJournalTemp ;; run syncDir ;; io_ret None
  else
    let* file := fs_open LRotation in
    let* encoded := fs_data file in
    let* j := io_lift (decodeRotationJournal encoded) in io_ret (Some j).

Definition removeRotationJournal : lio unit :=
  let* journal := fs_exists LRotation in
  let* temp := fs_exists LRotationTmp in
  let found := journal || temp in
  run (if found then hitSegmentFault else io_ret tt) ;;
  run ignore_missing (fs_remove LRotation) ;;
  run ignore_missing (fs_remove LRotationTmp) ;;
  run (if found then hitSegmentFault else io_ret tt) ;;
  syncDir.

(** ** The catalog *)

Definition log_snapshot : lio LogSnapshot := fun o => (o, Ok (lp_Snapshot (os_user o))).

Definition committedRotation (s : LogSnapshot) (j : rotationJournal) : bool :=
  (ls_ActiveSegmentID s =? lj_NewActive j) && (ls_NextSegmentID s =? lj_NextSegmentID j) &&
  bool_decide (sealedSummary s (ds_SegmentID (lj_Old j)) = Some (lj_Old j)).

(** [for attempts := 0; attempts < 16; attempts++] *)
Fixpoint log_install_loop (attempts : nat) (current : LogSnapshot) (j : rotationJournal) : lio LogSnapshot :=
  match attempts with
  | O => io_fail [recordlog_ErrPoisoned]
  | S attempts' => fun o =>
      let '(c, faults, r) := lp_Install (os_user o) (os_faults o) (ls_Generation current) (lj_Old j) (lj_NewActive j) (lj_NextSegmentID j) in
      let o := mkOs (os_names o) (os_data o) (os_next o) faults c in
      match r with
      | Ok installed => (o, Ok installed)
      | Err e =>
          let fresh := lp_Snapshot c in
          if committedRotation fresh j then (o, Ok fresh)
          else if ls_Generation fresh =? ls_Generation current then (o, Err e)
          else if negb (ls_ActiveSegmentID fresh =? ds_SegmentID (lj_Old j)) || negb (bool_decide (ls_LogID fresh = lj_LogID j)) || negb (ls_SegmentSize fresh =? lj_SegmentSize j)
          then (o, Err (e ++ [recordlog_ErrCorrupt]))
          else log_install_loop attempts' fresh j o
      end
  end.

Definition installCatalogRotation (before : LogSnapshot) (j : rotationJournal) : lio LogSnapshot := log_install_loop 16 before j.

(** ** Rotation *)

(** Both halves run, whatever the other returns.  The code starts them together
    (or one after the other when a fault hook is set, and then not the second one
    after a failure of the first); they work on different names, so their steps
    commute. *)
Definition prepareRotationFiles (old : activeSegment) (prepared : SegmentSummary) (header : SegmentHeader)
  : lio (activeSegment * sealedSegment * SegmentSummary * activeSegment) := fun o =>
  let '(o, sealed) := publishPreparedSeal old prepared o in
  let '(o, active) := createActiveSegment header o in
  match sealed, active with
  | Ok x, Ok y => (o, Ok (x, y))
  | Err e, Ok y => let '(o, (_, c)) := active_close y o in (o, Err (e ++ match c with Some e' => e' | None => [] end))
  | Ok _, Err e => (o, Err e)
  | Err e, Err e' => (o, Err (e ++ e'))
  end.

Definition log_rotation_journal (snapshot : LogSnapshot) (summary : SegmentSummary) : rotationJournal :=
  mkLogJournal (ls_Generation snapshot) (ls_LogID snapshot) (ls_SegmentSize snapshot) summary (ls_NextSegmentID snapshot) ((ls_NextSegmentID snapshot + 1) mod two32).

(** [errors.Join(e, newActive.close())] *)
Definition fail_closing {A} (e : goerror) (s : activeSegment) : lio A := fun o =>
  let '(o, (_, c)) := active_close s o in (o, Err (e ++ match c with Some e' => e' | None => [] end)).

(** [rotationManager.rotate] up to the publication in the registry; the result has
    the two views of the old segment and the new one. *)
Definition rotate_segments (old : activeSegment) : lio (activeSegment * sealedSegment * activeSegment) :=
  let* snapshot := log_snapshot in
  if negb (log_snapshot_valid snapshot) then io_fail [recordlog_ErrInvalidConfig]
  else if negb (ls_ActiveSegmentID snapshot =? sh_SegmentID (as_header old)) || negb (bool_decide (ls_LogID snapshot = sh_LogID (as_header old))) ||
          negb (ls_SegmentSize snapshot =? sh_SegmentSize (as_header old)) then io_fail [recordlog_ErrCorrupt]
  else
    let summary := summaryLocked old in
    let j := log_rotation_journal snapshot summary in
    let* prepared := prepareSeal old in
    if negb (bool_decide (prepared = summary)) then io_fail [recordlog_ErrCorrupt]
    else
      run installRotationJournal j ;;
      let* (old', sealed, sealedSum, newActive) := prepareRotationFiles old prepared (log_headerFor snapshot (lj_NewActive j)) in
      if negb (bool_decide (sealedSum = summary)) then fail_closing [recordlog_ErrCorrupt] newActive
      else fun o =>
        match installCatalogRotation snapshot j o with
        | (o, Err e) => fail_closing e newActive o
        | (o, Ok installed) =>
            match validateRotationResult snapshot installed summary (lj_NewActive j) (lj_NextSegmentID j) with
            | Err e => fail_closing e newActive o
            | Ok _ => (o, Ok (old', sealed, newActive))
            end
        end.

(** ** Recovery *)

(** [segment.close()] whose error is returned. *)
Definition close_active_then {A} (s : activeSegment) (k : lio A) : lio A := fun o =>
  match active_close s o with (o, (_, None)) => k o | (o, (_, Some e)) => (o, Err e) end.
Definition close_sealed_then {A} (s : sealedSegment) (k : lio A) : lio A := fun o =>
  match sealed_close s o with (o, (_, None)) => k o | (o, (_, Some e)) => (o, Err e) end.
(** [_ = segment.close()] *)
Definition fail_ignoring {A} (e : goerror) (s : activeSegment) : lio A := fun o => let '(o, _) := active_close s o in (o, Err e).

Definition ensureCommittedRotationFiles (snapshot : LogSnapshot) (j : rotationJournal) : lio unit :=
  let* sealed := openSealedSegment (log_headerFor snapshot (ds_SegmentID (lj_Old j))) (lj_Old j) in
  close_sealed_then sealed
    (let* (active, _) := openActiveSegment (log_headerFor snapshot (lj_NewActive j)) in
     close_active_then active (io_ret tt)).

(** The tail of the source is cut before it is opened. *)
Definition cut_source (header : SegmentHeader) (summary : SegmentSummary) : lio unit :=
  let* file := fs_open (LActive (sh_SegmentID header)) in
  let* data := fs_data file in
  if (len data <? ds_ValidEnd summary) || ((ds_ValidEnd summary + SegmentFooterSize) mod two32 <? len data) then io_fail [recordlog_ErrCorrupt]
  else
    run (if ds_ValidEnd summary <? len data then
           run hitSegmentFault ;; run fs_truncate file (ds_ValidEnd summary) ;; run hitSegmentFault ;; log_file_Sync file
         else io_ret tt) ;;
    log_file_Close file.

Definition resumeJournalSeal (header : SegmentHeader) (summary : SegmentSummary) : lio sealedSegment :=
  let* activeExists := fs_exists (LActive (sh_SegmentID header)) in
  let* sealedExists := fs_exists (LSealed (sh_SegmentID header)) in
  if activeExists && sealedExists then io_fail [recordlog_ErrCorrupt]
  else if sealedExists then openSealedSegment header summary
  else if negb activeExists then io_fail [recordlog_ErrCorrupt]
  else
    run cut_source header summary ;;
    let* (active, repaired) := openActiveSegment header in
    if repaired || negb (bool_decide (summaryLocked active = summary)) then fail_ignoring [recordlog_ErrCorrupt] active
    else fun o =>
      match seal active o with
      | (o, Err e) => fail_ignoring e active o
      | (o, Ok (_, sealed, got)) => if negb (bool_decide (got = summary)) then (let '(o, _) := sealed_close sealed o in (o, Err [recordlog_ErrCorrupt])) else (o, Ok sealed)
      end.

Definition ensureJournalActive (header : SegmentHeader) : lio activeSegment :=
  let* found := fs_exists (LActive (sh_SegmentID header)) in
  if found then
    let* (active, repaired) := openActiveSegment header in
    if repaired || negb (ds_ValidEnd (summaryLocked active) =? SegmentHeaderSize) then fail_ignoring [recordlog_ErrCorrupt] active else io_ret active
  else run ignore_missing (fs_remove (LCreating (sh_SegmentID header))) ;; createActiveSegment header.

Definition recoverRotation (snapshot : LogSnapshot) : lio LogSnapshot :=
  let* found := loadRotationJournal in
  match found with
  | None => io_ret snapshot
  | Some j =>
      if negb (bool_decide (lj_LogID j = ls_LogID snapshot)) || negb (lj_SegmentSize j =? ls_SegmentSize snapshot) || (ls_Generation snapshot <? lj_BaseGeneration j)
      then io_fail [recordlog_ErrCorrupt]
      else if committedRotation snapshot j then
        run ensureCommittedRotationFiles snapshot j ;; run removeRotationJournal ;; io_ret snapshot
      else if negb (ls_ActiveSegmentID snapshot =? ds_SegmentID (lj_Old j)) then io_fail [recordlog_ErrCorrupt]
      else
        let* sealed := resumeJournalSeal (log_headerFor snapshot (ds_SegmentID (lj_Old j))) (lj_Old j) in
        close_sealed_then sealed
          (let* newActive := ensureJournalActive (log_headerFor snapshot (lj_NewActive j)) in
           close_active_then newActive
             (let* installed := installCatalogRotation snapshot j in
              let* _ := io_lift (validateRotationResult snapshot installed (lj_Old j) (lj_NewActive j) (lj_NextSegmentID j)) in
              run removeRotationJournal ;; io_ret installed))
  end.

(** ** The first segment *)

Definition CreateInitialSegment (logID : list Z) (segmentSize : Z) : lio unit :=
  let* segment := createActiveSegment (mkSegmentHeader logID 1 0 segmentSize) in
  close_active_then segment (io_ret tt).

(** [os.Remove(creating)] and the sync when there was one *)
Definition remove_initial_creating (pending : goerror) : lio unit := fun o =>
  match fs_remove (LCreating 1) o with
  | (o, Ok _) => match syncDir o with (o, Ok _) => (o, if bool_decide (pending = []) then Ok tt else Err pending) | (o, Err e) => (o, Err (e ++ pending)) end
  | (o, Err e) => if bool_decide (os_ErrNotExist ∈ e) then (o, if bool_decide (pending = []) then Ok tt else Err pending) else (o, Err (e ++ pending))
  end.

Definition EnsureInitialSegment (logID : list Z) (segmentSize : Z) : lio unit :=
  let header := mkSegmentHeader logID 1 0 segmentSize in
  let* _ := io_lift (EncodeSegmentHeader header) in
  run ensureRecordsDirectory ;;
  let* found := fs_exists (LActive 1) in
  if found then
    let* (segment, repaired) := openActiveSegment header in
    let invalid := repaired || negb (as_end segment =? SegmentHeaderSize) || negb (as_records segment =? 0) in
    fun o =>
      let '(o, (_, closeErr)) := active_close segment o in
      let closed := match closeErr with Some e => e | None => [] end in
      if invalid then (o, Err ([recordlog_ErrCorrupt] ++ closed)) else remove_initial_creating closed o
  else
    run remove_initial_creating [] ;;
    let* segment := createActiveSegment header in
    close_active_then segment (io_ret tt).
End Rotate.
