(* ===== verification/LogScan.v ===== *)
(** * Scanning and reading record segments

    A segment that was written is the header followed by the encodings of its
    records, each at the offset that its address names.  The scans of
    [LogSegment] find exactly these records, whatever unfinished tail follows
    them, and a read at the address of one of them returns its payload. *)
From S2P Require Import Prelude Bytes Addr Crc32 RecordFormat Fs Catalog LogSegment.

Definition rec_size (r : LogRecord) : Z := match PhysicalRecordSize (len r.2) with Ok n => n | Err _ => 0 end.
Definition rec_bytes (r : LogRecord) : list Z := match EncodeRecord (ar_Addr r.1) r.2 with Ok b => b | Err _ => [] end.

(** [r] is a record of segment [id] at offset [off]. *)
Record rec_at (id off : Z) (r : LogRecord) : Prop := mkRecAt {
  ra_bytes : bytes_ok r.2;
  ra_size : PhysicalRecordSize (len r.2) = Ok (rec_size r);
  ra_addr : NewVAddr id off (rec_size r) = Ok (ar_Addr r.1);
  ra_result : NewAppendResult (ar_Addr r.1) (rec_size r) = Ok r.1;
}.

Fixpoint placed (id off : Z) (recs : list LogRecord) : Prop :=
  match recs with [] => True | r :: rest => rec_at id off r /\ placed id (off + rec_size r) rest end.

Definition log_body (recs : list LogRecord) : list Z := concat (map rec_bytes recs).
Definition body_size (recs : list LogRecord) : Z := foldr (fun r n => rec_size r + n) 0 recs.

Definition log_header_bytes (h : SegmentHeader) : list Z := with_crc (segmentHeader_body h).
Definition log_image (h : SegmentHeader) (recs : list LogRecord) : list Z := log_header_bytes h ++ log_body recs.

Definition log_summary (id : Z) (recs : list LogRecord) : SegmentSummary :=
  mkData id (64 + body_size recs) (len recs) (match recs with [] => 0 | r :: _ => ar_Addr r.1 end) (match last recs with None => 0 | Some r => ar_Addr r.1 end).

(** What the parts of an encoded record are. *)
Record rec_facts (id off : Z) (r : LogRecord) : Prop := mkRecFacts {
  rf_len : len (rec_bytes r) = rec_size r;
  rf_size : 32 <= rec_size r <= MaxUint32 /\ rec_size r mod 8 = 0;
  rf_addr : is_u64 (ar_Addr r.1) /\ SegmentID (ar_Addr r.1) = id /\ Offset (ar_Addr r.1) = off /\ VAddr_Valid (ar_Addr r.1) = true /\ sizeTag (rec_size r) = Ok (SizeTag (ar_Addr r.1));
  rf_header : DecodeRecordHeader (slice 0 32 (rec_bytes r)) = Ok (mkRecordHeader (rec_size r) (len r.2) (ar_Addr r.1) (Checksum r.2));
  rf_record : DecodeRecord (rec_bytes r) = Ok (mkRecordHeader (rec_size r) (len r.2) (ar_Addr r.1) (Checksum r.2), r.2);
  rf_magic : slice 0 8 (rec_bytes r) <> segmentFooterMagic;
}.

Lemma rec_at_facts id off r : is_u32 id -> is_u32 off -> rec_at id off r -> rec_facts id off r.
Proof.
  intros Hi Ho [Hb Hs Ha Hr]. pose proof (PhysicalRecordSize_spec _ _ (len_nonneg r.2) Hs) as (Hs1 & Hs2 & Hs3).
  destruct (NewVAddr_parts _ _ _ _ Hi Ho Ha) as (A1 & A2 & A3 & A4 & A5). pose proof (NewVAddr_matches _ _ _ _ Hi Ho Ha) as A6.
  assert (He : EncodeRecord (ar_Addr r.1) r.2 = Ok (rec_bytes r)).
  { unfold rec_bytes. destruct (EncodeRecord _ _) as [src|e] eqn:E; [reflexivity|]. exfalso. revert E. unfold EncodeRecord, EncodeRecordTo. rewrite Hs, Z.eqb_refl, A5, A6. discriminate. }
  destruct (EncodeRecord_layout _ _ _ He) as (total & Ht & _ & _ & Hl & Hsrc). assert (Et : total = rec_size r) by congruence. rewrite Et in Hl, Hsrc.
  pose proof (DecodeRecordHeader_encoded _ _ _ A1 Hb Hs A5 A6) as Hd. cbv zeta in Hsrc, Hd. set (head := record_header_body _ _ _) in *.
  assert (Hh : HasLen head 28) by (unfold HasLen, head, record_header_body; rewrite !length_app, !length_put_le; reflexivity).
  assert (H32 : HasLen (head ++ put_le 4 (Checksum head)) 32) by (unfold HasLen in *; rewrite length_app, length_put_le; lia).
  assert (Esl : slice 0 32 (rec_bytes r) = head ++ put_le 4 (Checksum head)) by (rewrite Hsrc; apply (slice_here _ 32); [exact H32|reflexivity]).
  constructor; [exact Hl|tauto|tauto|..].
  - rewrite Esl. exact Hd.
  - rewrite (DecodeRecord_encoded _ _ _ A1 Hb He), Hl. reflexivity.
  - rewrite Hsrc. unfold head, record_header_body. rewrite <- !app_assoc. intros E. apply (f_equal (fun l => nth 1 l 0)) in E. discriminate E.
Qed.

Lemma rec_bytes_length id off r : is_u32 id -> is_u32 off -> rec_at id off r -> Z.of_nat (length (rec_bytes r)) = rec_size r.
Proof. intros Hi Ho H. exact (rf_len _ _ _ (rec_at_facts _ _ _ Hi Ho H)). Qed.

(** The end of the result of a placed record. *)
Lemma rec_at_end id off r : is_u32 id -> is_u32 off -> rec_at id off r -> ar_End r.1 = mkPos id (off + rec_size r).
Proof.
  intros Hi Ho H. destruct (rec_at_facts _ _ _ Hi Ho H) as [_ _ (_ & A2 & A3 & _) _ _ _]. pose proof (ra_result _ _ _ H) as E. unfold NewAppendResult, VAddr_End, NewLogPos in E. inv_ok E. apply Ok_inj in E.
  rewrite <- E at 1. cbn. inv_ok Hcall. apply Ok_inj in Hcall. rewrite <- Hcall, A2, A3. reflexivity.
Qed.

(** ** Lists of placed records *)

Lemma body_size_cons r recs : body_size (r :: recs) = rec_size r + body_size recs.
Proof. reflexivity. Qed.

Lemma body_size_nonneg id : forall recs off, placed id off recs -> 0 <= body_size recs.
Proof.
  induction recs as [|r recs IH]; intros off; [cbn; lia|]. rewrite body_size_cons. intros [H1 H2]. pose proof (IH _ H2). pose proof (PhysicalRecordSize_spec _ _ (len_nonneg r.2) (ra_size _ _ _ H1)). lia.
Qed.

Lemma placed_app id : forall a off b, placed id off (a ++ b) <-> placed id off a /\ placed id (off + body_size a) b.
Proof.
  induction a as [|r a IH]; intros off b; cbn [app placed]; [change (body_size []) with 0; rewrite Z.add_0_r; tauto|]. rewrite IH, body_size_cons.
  replace (off + rec_size r + body_size a) with (off + (rec_size r + body_size a)) by lia. tauto.
Qed.

Lemma body_size_app a b : body_size (a ++ b) = body_size a + body_size b.
Proof. induction a as [|r a IH]; [reflexivity|]. cbn [app]. rewrite !body_size_cons, IH. lia. Qed.

Lemma log_body_app a b : log_body (a ++ b) = log_body a ++ log_body b.
Proof. unfold log_body. now rewrite map_app, concat_app. Qed.

Lemma log_body_len id : is_u32 id -> forall recs off, placed id off recs -> 0 <= off -> off + body_size recs < two32 -> len (log_body recs) = body_size recs.
Proof.
  intros Hi. induction recs as [|r recs IH]; intros off; [reflexivity|]. cbn [placed]. rewrite body_size_cons. intros [H1 H2] Ho Hb. pose proof (body_size_nonneg _ _ _ H2).
  pose proof (PhysicalRecordSize_spec _ _ (len_nonneg r.2) (ra_size _ _ _ H1)) as Hs. change (log_body (r :: recs)) with (rec_bytes r ++ log_body recs).
  rewrite len_app, (IH (off + rec_size r)) by (auto; lia). unfold len at 1. rewrite (rec_bytes_length id off r Hi) by (auto; unfold is_u32; lia). reflexivity.
Qed.

Lemma placed_count id : forall recs off, placed id off recs -> 32 * len recs <= body_size recs.
Proof.
  induction recs as [|r recs IH]; intros off; cbn [placed]; [reflexivity|]. intros [H1 H2]. specialize (IH _ H2). pose proof (PhysicalRecordSize_spec _ _ (len_nonneg r.2) (ra_size _ _ _ H1)).
  rewrite body_size_cons, len_cons. lia.
Qed.

(** ** One segment *)

Section Scan.
Context (h : SegmentHeader) (Hu : segmentHeader_u h) (Hv : segmentHeader_bad h = false).
Local Abbreviation id := (sh_SegmentID h).
Local Abbreviation size := (sh_SegmentSize h).

Lemma header_parts : is_u32 id /\ id <> 0 /\ 160 < size < two32 /\ size mod 8 = 0.
Proof.
  destruct Hu as (_ & _ & H1 & _ & H2). unfold segmentHeader_bad, SegmentHeaderSize, RecordHeaderSize, SegmentFooterSize, RecordAlignment in Hv.
  change (8 - 1) with 7 in Hv. rewrite land_7 in Hv. rewrite !orb_false_iff in Hv. destruct Hv as [[[_ H3] H4] H5]. bool_norm. unfold is_u32 in *. split; [exact H1|]. split; [exact H3|]. split; [lia|]. destruct (Z.eq_dec (size mod 8) 0); [assumption|contradiction].
Qed.

Lemma log_header_len : len (log_header_bytes h) = 64.
Proof.
  unfold log_header_bytes, len. destruct Hu as (Hl & _). destruct (with_crc_spec 60 _ (length_segmentHeader_body h Hl) (bytes_segmentHeader_body h Hu)) as (-> & _). reflexivity.
Qed.

Lemma log_header_encoded : EncodeSegmentHeader h = Ok (log_header_bytes h).
Proof. unfold EncodeSegmentHeader. rewrite Hv. reflexivity. Qed.

Lemma log_header_decoded : DecodeSegmentHeader (log_header_bytes h) = Ok h.
Proof. apply DecodeSegmentHeader_EncodeSegmentHeader; [exact Hu|exact log_header_encoded]. Qed.

(** The records of a file fit below the footer. *)
Record log_recs (recs : list LogRecord) : Prop := mkLogRecs { lr_placed : placed id 64 recs; lr_fits : 64 + body_size recs + 64 <= size }.

Lemma log_recs_app a b : log_recs (a ++ b) -> log_recs a.
Proof.
  intros [H1 H2]. apply placed_app in H1 as [H1 H3]. rewrite body_size_app in H2. pose proof (body_size_nonneg _ _ _ H3). constructor; [exact H1|lia].
Qed.

Lemma log_image_len recs : log_recs recs -> len (log_image h recs) = 64 + body_size recs.
Proof.
  intros [H1 H2]. destruct header_parts as (P1 & P2 & P3 & _). unfold log_image. rewrite len_app, log_header_len, (log_body_len id P1 recs 64) by (auto; lia). reflexivity.
Qed.

Lemma log_image_snoc recs r : log_image h (recs ++ [r]) = log_image h recs ++ rec_bytes r.
Proof. unfold log_image, log_body. rewrite map_app, concat_app. cbn. now rewrite app_nil_r, app_assoc. Qed.

(** The facts of the record behind a prefix. *)
Lemma next_facts pre r suf : log_recs (pre ++ r :: suf) ->
  rec_facts id (64 + body_size pre) r /\ rec_at id (64 + body_size pre) r /\ 64 + body_size pre + rec_size r + 64 <= size.
Proof.
  intros [H1 H2]. apply placed_app in H1 as [H1 [H3 H4]]. rewrite body_size_app, body_size_cons in H2. pose proof (body_size_nonneg _ _ _ H1). pose proof (body_size_nonneg _ _ _ H4).
  destruct header_parts as (P1 & P2 & P3 & _). pose proof (PhysicalRecordSize_spec _ _ (len_nonneg r.2) (ra_size _ _ _ H3)). split; [|split; [exact H3|lia]]. apply rec_at_facts; [exact P1|unfold is_u32; lia|exact H3].
Qed.

Lemma read_record_bytes pre r suf rest n : log_recs (pre ++ r :: suf) -> 0 <= n <= rec_size r ->
  read_at (log_image h (pre ++ r :: suf) ++ rest) (64 + body_size pre) n = Ok (slice 0 (Z.to_nat n) (rec_bytes r)).
Proof.
  intros H Hn. destruct (next_facts pre r suf H) as (F & _ & _). pose proof (log_image_len pre (log_recs_app _ _ H)) as Hl.
  assert (E : log_image h (pre ++ r :: suf) ++ rest = log_image h pre ++ slice 0 (Z.to_nat n) (rec_bytes r) ++ drop (Z.to_nat n) (rec_bytes r) ++ log_body suf ++ rest).
  { unfold log_image. rewrite log_body_app. change (log_body (r :: suf)) with (rec_bytes r ++ log_body suf). unfold slice. rewrite drop_0, Nat.sub_0_r. rewrite <- (take_drop (Z.to_nat n) (rec_bytes r)) at 1. rewrite <- !app_assoc. reflexivity. }
  rewrite E. apply read_at_here; [symmetry; exact Hl|]. pose proof (rf_len _ _ _ F) as HL. unfold slice, len in *. rewrite drop_0, length_take. lia.
Qed.

(** One round of the scan of an active file. *)
Lemma scan_active_round fuel data pre r suf rest visits : data = log_image h (pre ++ r :: suf) ++ rest -> len data <= size -> log_recs (pre ++ r :: suf) -> len (pre ++ r :: suf) < two64 ->
  scan_active_loop (S fuel) data h (log_summary id pre) visits = scan_active_loop fuel data h (log_summary id (pre ++ [r])) (visits ++ [r]).
Proof.
  intros Hd Hlen H Hcount. destruct (next_facts pre r suf H) as (F & Hat & Hfit). destruct header_parts as (P1 & P2 & P3 & _). pose proof (log_recs_app _ _ H) as Hpre.
  pose proof (body_size_nonneg _ _ _ (lr_placed _ Hpre)) as Hb0. destruct F as [F1 [F2 F2'] (A1 & A2 & A3 & A4 & A5) F4 F5 F6].
  assert (Hdl : 64 + body_size pre + rec_size r <= len data).
  { rewrite Hd. rewrite len_app, log_image_len by exact H. rewrite body_size_app, body_size_cons. pose proof (len_nonneg rest). destruct H as [H' _]. apply placed_app in H' as [_ [_ H']]. pose proof (body_size_nonneg _ _ _ H'). lia. }
  cbn [scan_active_loop]. cbn [log_summary ds_ValidEnd ds_RecordCount ds_SegmentID ds_FirstAddr]. rewrite (Z.mod_small (len data)), (Z.mod_small (size - SegmentFooterSize)) by (unfold SegmentFooterSize; lia).
  unfold SegmentFooterSize, RecordHeaderSize. replace (len data <=? 64 + body_size pre) with false by (symmetry; apply Z.leb_gt; lia).
  assert (Hread : forall n, 0 <= n <= rec_size r -> read_at data (64 + body_size pre) n = Ok (slice 0 (Z.to_nat n) (rec_bytes r))) by (intros n Hn; rewrite Hd; now apply read_record_bytes).
  assert (Efoot : (if (len data - (64 + body_size pre) <=? 64) && (8 <=? len data - (64 + body_size pre)) then let! magic := read_at data (64 + body_size pre) 8 in Ok (bool_decide (magic = segmentFooterMagic)) else Ok false) = Ok false).
  { case_if; [|reflexivity]. rewrite Hread by lia. change (Z.to_nat 8) with 8%nat. now rewrite bool_decide_eq_false_2 by exact F6. }
  rewrite Efoot. replace (len data - (64 + body_size pre) <? 32) with false by (symmetry; apply Z.ltb_ge; lia). rewrite (Hread 32) by lia. change (Z.to_nat 32) with 32%nat. rewrite F4. cbn [rh_Addr rh_PhysicalSize].
  rewrite A2, A3, !Z.eqb_refl. replace (size - 64 <? 64 + body_size pre) with false by (symmetry; apply Z.ltb_ge; lia). replace (size - 64 - (64 + body_size pre) <? rec_size r) with false by (symmetry; apply Z.ltb_ge; lia).
  cbn [orb negb]. replace (len data - (64 + body_size pre) <? rec_size r) with false by (symmetry; apply Z.ltb_ge; lia). rewrite (Hread (rec_size r)) by lia.
  replace (slice 0 (Z.to_nat (rec_size r)) (rec_bytes r)) with (rec_bytes r) by (rewrite <- F1; unfold len; rewrite Nat2Z.id; symmetry; apply slice_full). rewrite F5. rewrite bool_decide_eq_true_2 by reflexivity. cbn [negb].
  rewrite (ra_result _ _ _ Hat). destruct r as [ar payload]. cbn [fst snd]. f_equal.
  unfold log_summary. rewrite body_size_app, body_size_cons, len_app, last_snoc. change (body_size []) with 0. change (len [(ar, payload)]) with 1. rewrite !Z.mod_small by (rewrite ?len_app, ?len_cons in Hcount; pose proof (len_nonneg pre); pose proof (len_nonneg suf); lia).
  cbn [fst] in *. f_equal; [lia|]. destruct pre; [reflexivity|]. rewrite len_cons. pose proof (len_nonneg pre). replace (1 + len pre =? 0) with false by (symmetry; apply Z.eqb_neq; lia). reflexivity.
Qed.

Lemma scan_active_advance data rest : forall suf pre fuel visits, data = log_image h (pre ++ suf) ++ rest -> len data <= size -> log_recs (pre ++ suf) -> len (pre ++ suf) < two64 ->
  scan_active_loop (length suf + fuel) data h (log_summary id pre) visits = scan_active_loop fuel data h (log_summary id (pre ++ suf)) (visits ++ suf).
Proof.
  induction suf as [|r suf IH]; intros pre fuel visits Hd Hl H Hc; [now rewrite !app_nil_r|].
  cbn [length Nat.add]. rewrite (scan_active_round _ data pre r suf rest) by auto. assert (E : pre ++ r :: suf = (pre ++ [r]) ++ suf) by now rewrite <- app_assoc.
  rewrite E in Hd, H, Hc. rewrite (IH (pre ++ [r])) by auto. now rewrite <- E, <- app_assoc.
Qed.

(** What an interrupted append or seal can leave behind the records. *)
Inductive unfinished (recs : list LogRecord) : list Z -> Prop :=
  | uf_none : unfinished recs []
  | uf_record r k : log_recs (recs ++ [r]) -> (k < length (rec_bytes r))%nat -> unfinished recs (take k (rec_bytes r))
  | uf_footer f k : unfinished recs (take k (with_crc (segmentFooter_body f))).

Lemma footer_bytes_length f : length (with_crc (segmentFooter_body f)) = 64%nat.
Proof. unfold with_crc. rewrite length_app, length_put_le. unfold segmentFooter_body, zeros. rewrite !length_app, !length_put_le, !length_replicate. reflexivity. Qed.

Lemma unfinished_len recs t : log_recs recs -> unfinished recs t -> 64 + body_size recs + len t <= size.
Proof.
  intros [H1 H2] [|r k Hr Hk|f k].
  - rewrite len_nil. lia.
  - destruct (next_facts recs r [] Hr) as (F & _ & Hf). pose proof (rf_len _ _ _ F) as Hl. unfold len in *. rewrite length_take. lia.
  - unfold len. rewrite length_take, footer_bytes_length. lia.
Qed.

Lemma read_tail recs t n : log_recs recs -> 0 <= n <= len t -> read_at (log_image h recs ++ t) (64 + body_size recs) n = Ok (slice 0 (Z.to_nat n) t).
Proof.
  intros H Hn. replace (log_image h recs ++ t) with (log_image h recs ++ slice 0 (Z.to_nat n) t ++ drop (Z.to_nat n) t).
  - apply read_at_here; [symmetry; now apply log_image_len|]. unfold slice, len in *. rewrite drop_0, length_take. lia.
  - unfold slice. rewrite drop_0, Nat.sub_0_r, take_drop. reflexivity.
Qed.

Lemma slice_take (n k : nat) (l : list Z) : (n <= k)%nat -> slice 0 n (take k l) = slice 0 n l.
Proof. intros Hn. unfold slice. rewrite !drop_0, !Nat.sub_0_r, take_take. f_equal. lia. Qed.

(** The scan stops at an unfinished tail. *)
Lemma scan_active_stop fuel recs t visits : log_recs recs -> unfinished recs t -> t <> [] ->
  scan_active_loop (S fuel) (log_image h recs ++ t) h (log_summary id recs) visits = Ok (log_summary id recs, true, visits).
Proof.
  intros H Ht Hne. pose proof (unfinished_len recs t H Ht) as Hlen. destruct (header_parts) as (P1 & P2 & P3 & _). pose proof (body_size_nonneg _ _ _ (lr_placed _ H)) as Hb0. pose proof (len_nonneg t).
  assert (Hpos : 0 < len t) by (destruct t; [contradiction|rewrite len_cons; pose proof (len_nonneg t); lia]).
  cbn [scan_active_loop]. cbn [log_summary ds_ValidEnd ds_RecordCount ds_SegmentID ds_FirstAddr]. rewrite len_app, log_image_len by exact H. rewrite (Z.mod_small (64 + _ + _)), (Z.mod_small (size - SegmentFooterSize)) by (unfold SegmentFooterSize; lia).
  unfold SegmentFooterSize, RecordHeaderSize. replace (64 + body_size recs + len t <=? 64 + body_size recs) with false by (symmetry; apply Z.leb_gt; lia).
  replace (64 + body_size recs + len t - (64 + body_size recs)) with (len t) by lia.
  destruct Ht as [|r k Hr Hk|f k]; [contradiction| |].
  - destruct (next_facts recs r [] Hr) as ([F1 [F2 F2'] (A1 & A2 & A3 & A4 & A5) F4 F5 F6] & Hat & Hf). set (t := take k (rec_bytes r)) in *.
    assert (Hlt : len t = Z.of_nat k /\ Z.of_nat k < rec_size r) by (unfold t, len in *; rewrite length_take; lia).
    assert (Efoot : (if (len t <=? 64) && (8 <=? len t) then let! magic := read_at (log_image h recs ++ t) (64 + body_size recs) 8 in Ok (bool_decide (magic = segmentFooterMagic)) else Ok false) = Ok false).
    { case_if; [|reflexivity]. bool_norm. rewrite read_tail by (auto; lia). change (Z.to_nat 8) with 8%nat. unfold t. rewrite slice_take by lia. now rewrite bool_decide_eq_false_2 by exact F6. }
    rewrite Efoot. destruct (len t <? 32) eqn:E32; [reflexivity|]. bool_norm. rewrite read_tail by (auto; lia). change (Z.to_nat 32) with 32%nat. unfold t at 1. rewrite slice_take by lia. rewrite F4. cbn [rh_Addr rh_PhysicalSize]. rewrite A2, A3, !Z.eqb_refl.
    replace (size - 64 <? 64 + body_size recs) with false by (symmetry; apply Z.ltb_ge; lia). replace (size - 64 - (64 + body_size recs) <? rec_size r) with false by (symmetry; apply Z.ltb_ge; lia). cbn [orb negb].
    replace (len t <? rec_size r) with true by (symmetry; apply Z.ltb_lt; lia). reflexivity.
  - set (t := take k (with_crc (segmentFooter_body f))) in *. assert (Hlt : len t <= 64) by (unfold t, len; rewrite length_take, footer_bytes_length; lia).
    replace (len t <=? 64) with true by (symmetry; apply Z.leb_le; lia). cbn [andb]. destruct (8 <=? len t) eqn:E8; bool_norm.
    + rewrite read_tail by (auto; lia). change (Z.to_nat 8) with 8%nat. rewrite bool_decide_eq_true_2; [reflexivity|]. unfold t, len in E8 |- *. rewrite length_take in E8. rewrite slice_take by lia.
      unfold with_crc, segmentFooter_body. rewrite <- !app_assoc. apply (slice_here segmentFooterMagic 8); reflexivity.
    + replace (len t <? 32) with true by (symmetry; apply Z.ltb_lt; lia). reflexivity.
Qed.

(** Scanning finds the records and says whether there is a tail to cut. *)
Lemma scan_active_spec recs t : log_recs recs -> unfinished recs t ->
  scanActiveSegmentWithVisitor (log_image h recs ++ t) h = Ok (log_summary id recs, bool_decide (t <> []), recs).
Proof.
  intros H Ht. pose proof (unfinished_len recs t H Ht) as Hlen. destruct (header_parts) as (P1 & P2 & P3 & _). pose proof (body_size_nonneg _ _ _ (lr_placed _ H)) as Hb0. pose proof (len_nonneg t).
  pose proof (placed_count _ _ _ (lr_placed _ H)) as Hcount. assert (Hl : len (log_image h recs ++ t) = 64 + body_size recs + len t) by (rewrite len_app, log_image_len by exact H; reflexivity).
  unfold scanActiveSegmentWithVisitor, SegmentHeaderSize. rewrite Hl. replace (64 + body_size recs + len t <? 64) with false by (symmetry; apply Z.ltb_ge; lia). replace (size <? 64 + body_size recs + len t) with false by (symmetry; apply Z.ltb_ge; lia). cbn [orb].
  assert (Eh : read_at (log_image h recs ++ t) 0 64 = Ok (log_header_bytes h)).
  { unfold log_image. rewrite <- app_assoc. apply (read_at_here [] (log_header_bytes h)); [reflexivity|]. symmetry. apply log_header_len. }
  rewrite Eh, log_header_decoded, bool_decide_eq_true_2 by reflexivity. cbn [negb].
  assert (Hfuel : exists fuel, length (log_image h recs ++ t) = (length recs + S fuel)%nat) by (exists (length (log_image h recs ++ t) - length recs - 1)%nat; unfold len in *; lia). destruct Hfuel as [fuel ->].
  change (mkData id 64 0 0 0) with (log_summary id []). rewrite (scan_active_advance (log_image h recs ++ t) t recs [] (S fuel) []) by (cbn [app]; auto; lia). cbn [app].
  case_bool_decide as Ene; [now apply scan_active_stop|]. destruct t as [|x t]; [|discriminate Ene]. rewrite app_nil_r in *. cbn [scan_active_loop log_summary ds_ValidEnd]. rewrite Hl, len_nil.
  rewrite Z.mod_small by lia. replace (_ <=? _) with true by (symmetry; apply Z.leb_le; lia). reflexivity.
Qed.

Lemma scan_active_summary recs t : log_recs recs -> unfinished recs t -> scanActiveSegment (log_image h recs ++ t) h = Ok (log_summary id recs, bool_decide (t <> [])).
Proof. intros H Ht. unfold scanActiveSegment. rewrite scan_active_spec by auto. reflexivity. Qed.

(** ** Ranges and single records *)

(** A file that holds these records, with a summary that ends behind some of them. *)
Lemma scan_range_loop_spec data rest n f l : forall suf pre fuel visits, data = log_image h (pre ++ suf) ++ rest -> log_recs (pre ++ suf) ->
  scan_range_loop (length suf + fuel) data (mkData id (64 + body_size (pre ++ suf)) n f l) (64 + body_size pre) visits = Ok (visits ++ suf).
Proof.
  destruct header_parts as (P1 & P2 & P3 & _). induction suf as [|r suf IH]; intros pre fuel visits Hd H.
  { rewrite !app_nil_r. destruct fuel; cbn [length Nat.add scan_range_loop ds_ValidEnd]; replace (_ <=? _) with true by (symmetry; apply Z.leb_le; lia); reflexivity. }
  destruct (next_facts pre r suf H) as ([F1 [F2 F2'] (A1 & A2 & A3 & A4 & A5) F4 F5 F6] & Hat & Hfit). pose proof H as [H1 _]. apply placed_app in H1 as [H1 [_ H2]]. pose proof (body_size_nonneg _ _ _ H1). pose proof (body_size_nonneg _ _ _ H2).
  assert (Hread : forall n, 0 <= n <= rec_size r -> read_at data (64 + body_size pre) n = Ok (slice 0 (Z.to_nat n) (rec_bytes r))) by (intros k Hk; rewrite Hd; now apply read_record_bytes).
  cbn [length Nat.add scan_range_loop ds_ValidEnd ds_SegmentID]. rewrite body_size_app, body_size_cons. replace (_ <=? 64 + body_size pre) with false by (symmetry; apply Z.leb_gt; lia).
  unfold RecordHeaderSize. rewrite (Hread 32) by lia. change (Z.to_nat 32) with 32%nat. rewrite F4. cbn [rh_Addr rh_PhysicalSize]. rewrite A2, A3, !Z.eqb_refl. replace (_ <? rec_size r) with false by (symmetry; apply Z.ltb_ge; lia). cbn [orb negb].
  rewrite (Hread (rec_size r)) by lia. replace (slice 0 (Z.to_nat (rec_size r)) (rec_bytes r)) with (rec_bytes r) by (rewrite <- F1; unfold len; rewrite Nat2Z.id; symmetry; apply slice_full).
  rewrite F5, bool_decide_eq_true_2 by reflexivity. cbn [negb]. rewrite (ra_result _ _ _ Hat). rewrite Z.mod_small by lia. destruct r as [ar payload]. cbn [fst snd] in *.
  assert (E : pre ++ (ar, payload) :: suf = (pre ++ [(ar, payload)]) ++ suf) by now rewrite <- app_assoc. rewrite E in Hd, H. specialize (IH (pre ++ [(ar, payload)]) fuel (visits ++ [(ar, payload)]) Hd H).
  rewrite !body_size_app, body_size_cons in IH. change (body_size []) with 0 in IH. rewrite Z.add_0_r in IH. replace (body_size pre + (rec_size (ar, payload) + body_size suf)) with (body_size pre + rec_size (ar, payload) + body_size suf) by lia.
  replace (64 + body_size pre + rec_size (ar, payload)) with (64 + (body_size pre + rec_size (ar, payload))) by lia. rewrite IH. now rewrite <- app_assoc.
Qed.

Lemma placed_aligned : forall recs off, off mod 8 = 0 -> placed id off recs -> (off + body_size recs) mod 8 = 0.
Proof.
  induction recs as [|r recs IH]; intros off Ho; [now rewrite Z.add_0_r|]. intros [H1 H2]. pose proof (PhysicalRecordSize_spec _ _ (len_nonneg r.2) (ra_size _ _ _ H1)). rewrite body_size_cons, Z.add_assoc. apply IH; [dlia|exact H2].
Qed.

Lemma scan_range_spec pre suf rest n f l : log_recs (pre ++ suf) ->
  scanRecordRange (log_image h (pre ++ suf) ++ rest) (mkData id (64 + body_size (pre ++ suf)) n f l) (64 + body_size pre) = Ok suf.
Proof.
  intros H. pose proof H as [H1 _]. apply placed_app in H1 as [H1 H2]. pose proof (body_size_nonneg _ _ _ H1). pose proof (body_size_nonneg _ _ _ H2). pose proof (placed_count _ _ _ H2) as Hc.
  unfold scanRecordRange, SegmentHeaderSize, RecordAlignment. cbn [ds_ValidEnd]. change (8 - 1) with 7. rewrite land_7. rewrite (placed_aligned pre 64) by (auto; reflexivity). rewrite body_size_app at 1.
  replace (_ <? 64) with false by (symmetry; apply Z.ltb_ge; lia). replace (_ <? 64 + body_size pre) with false by (symmetry; apply Z.ltb_ge; lia). cbn [orb negb Z.eqb].
  assert (Hfuel : exists fuel, length (log_image h (pre ++ suf) ++ rest) = (length suf + fuel)%nat).
  { exists (length (log_image h (pre ++ suf) ++ rest) - length suf)%nat. pose proof (log_image_len _ H) as Hl. rewrite body_size_app in Hl. rewrite length_app. unfold len in *. lia. }
  destruct Hfuel as [fuel ->]. exact (scan_range_loop_spec _ rest n f l suf pre fuel [] eq_refl H).
Qed.

(** A read at the address of a record returns its payload. *)
Lemma read_record_spec pre r suf rest n f l : log_recs (pre ++ r :: suf) ->
  readRecordAt (log_image h (pre ++ r :: suf) ++ rest) (mkData id (64 + body_size (pre ++ r :: suf)) n f l) (ar_Addr r.1) = Ok r.2.
Proof.
  intros H. destruct (header_parts) as (P1 & P2 & P3 & _). destruct (next_facts pre r suf H) as ([F1 [F2 F2'] (A1 & A2 & A3 & A4 & A5) F4 F5 F6] & Hat & Hfit).
  pose proof H as [H1 _]. apply placed_app in H1 as [H1 [_ H2]]. pose proof (body_size_nonneg _ _ _ H1). pose proof (body_size_nonneg _ _ _ H2). pose proof (fun k => read_record_bytes pre r suf rest k H) as Hread.
  unfold readRecordAt, SegmentHeaderSize, RecordHeaderSize. cbn [ds_SegmentID ds_ValidEnd]. rewrite A2, A3, A4, Z.eqb_refl, body_size_app, body_size_cons. replace (_ <? 64) with false by (symmetry; apply Z.ltb_ge; lia). replace (_ <=? 64 + body_size pre) with false by (symmetry; apply Z.leb_gt; lia). cbn [negb orb].
  assert (Eh : exists hint, ReadHint (ar_Addr r.1) = Ok hint) by (unfold ReadHint; rewrite A4; cbn; eauto). destruct Eh as [hint Eh]. rewrite Eh. destruct (ReadHint_bounds _ _ _ A5 Eh) as (Hh & _ & Hh2).
  assert (Hh64 : 64 <= hint) by (rewrite Hh; destruct (sizeTag_class _ _ A5) as (T1 & _); pose proof (Z.pow_le_mono_r 2 0 (SizeTag (ar_Addr r.1)) ltac:(lia) ltac:(lia)); lia).
  set (available := 64 + (body_size pre + (rec_size r + body_size suf)) - (64 + body_size pre)). assert (Hav : rec_size r <= available) by (unfold available; lia).
  set (first := if available <? hint then available else hint). assert (Hfirst : 32 <= first <= available /\ first <= hint) by (unfold first; case_if; bool_norm; lia).
  replace (first <? 32) with false by (symmetry; apply Z.ltb_ge; lia).
  set (data := log_image h (pre ++ r :: suf) ++ rest). assert (Hd : data = log_image h pre ++ (rec_bytes r ++ log_body suf) ++ rest).
  { unfold data, log_image. rewrite log_body_app. change (log_body (r :: suf)) with (rec_bytes r ++ log_body suf). now rewrite <- !app_assoc. }
  pose proof (log_image_len pre (log_recs_app _ _ H)) as Hpl. pose proof (log_body_len id P1 suf (64 + body_size pre + rec_size r) H2 ltac:(lia)) as Hsl. destruct H as [_ Hsz]. rewrite body_size_app, body_size_cons in Hsz. specialize (Hsl ltac:(lia)).
  set (mid := rec_bytes r ++ log_body suf) in *. assert (Hml : len mid = available) by (unfold mid, available; rewrite len_app, F1, Hsl; lia).
  assert (Ef : read_at data (64 + body_size pre) first = Ok (take (Z.to_nat first) mid)).
  { rewrite Hd. rewrite <- (take_drop (Z.to_nat first) mid) at 1. rewrite <- app_assoc. apply read_at_here; [lia|]. unfold len in *. rewrite length_take. lia. }
  rewrite Ef. set (fb := take (Z.to_nat first) mid) in *. assert (Hfl : len fb = first) by (unfold fb, len in *; rewrite length_take; lia).
  assert (E32 : slice 0 32 fb = slice 0 32 (rec_bytes r)).
  { unfold fb. rewrite slice_take by lia. unfold mid, slice. rewrite !drop_0. apply take_app_le. unfold len in F1. lia. }
  rewrite E32, F4. cbn [rh_Addr rh_PhysicalSize]. rewrite Z.eqb_refl. replace (available <? rec_size r) with false by (symmetry; apply Z.ltb_ge; lia). cbn [negb orb]. rewrite Hfl.
  assert (Etake : forall k, k = rec_size r -> take (Z.to_nat k) mid = rec_bytes r) by (intros k ->; rewrite <- F1; unfold len, mid; rewrite Nat2Z.id; apply take_app_length).
  destruct (rec_size r <? first) eqn:E1; bool_norm.
  - assert (Es : slice 0 (Z.to_nat (rec_size r)) fb = rec_bytes r) by (unfold fb; rewrite slice_take by lia; unfold slice; rewrite drop_0, Nat.sub_0_r; now apply Etake).
    rewrite Es, F5. reflexivity.
  - destruct (first <? rec_size r) eqn:E2; bool_norm.
    + assert (Er : read_at data (64 + body_size pre + first) (rec_size r - first) = Ok (drop (Z.to_nat first) (rec_bytes r))).
      { rewrite Hd. assert (Em : mid = take (Z.to_nat first) mid ++ drop (Z.to_nat first) (rec_bytes r) ++ log_body suf).
        { unfold mid. rewrite take_app_le by (unfold len in F1; lia). now rewrite app_assoc, take_drop. }
        assert (Ed : log_image h pre ++ mid ++ rest = (log_image h pre ++ fb) ++ drop (Z.to_nat first) (rec_bytes r) ++ (log_body suf ++ rest)).
        { rewrite Em at 1. fold fb. now rewrite <- !app_assoc. }
        rewrite Ed. apply read_at_here; [rewrite len_app; lia|]. unfold len in *. rewrite length_drop. lia. }
      rewrite Er. assert (Ej : fb ++ drop (Z.to_nat first) (rec_bytes r) = rec_bytes r) by (unfold fb, mid; rewrite take_app_le by (unfold len in F1; lia); apply take_drop).
      rewrite Ej, F5. reflexivity.
    + assert (Es : fb = rec_bytes r) by (unfold fb; apply Etake; lia). rewrite Es, F5. reflexivity.
Qed.
End Scan.
