(* ===== verification/LogRotation.v ===== *)
(** * The values of a record log rotation

    The contract of the catalog that the record log relies on ([LogPortLaws]), and
    for a log that rotates: the bytes of the segments and of the journal before and
    after, the catalog snapshots, and that every check of [LogRotate] accepts
    them. *)
From S2P Require Import Prelude Bytes Addr Crc32 RecordFormat Fs Catalog CatalogRebase LogSegment LogRotate LogScan.

(** ** What the log relies on: the catalog *)

Record log_snapshot_u (s : LogSnapshot) : Prop := mkLogSnapshotU {
  lu_log : length (ls_LogID s) = 16%nat /\ bytes_ok (ls_LogID s);
  lu_gen : is_u64 (ls_Generation s);
  lu_ids : is_u32 (ls_SegmentSize s) /\ is_u32 (ls_ActiveSegmentID s) /\ is_u32 (ls_NextSegmentID s);
}.

(** The snapshot after a rotation. *)
Definition log_rotated (s : LogSnapshot) (sum : SegmentSummary) (active next : Z) : LogSnapshot :=
  mkLogSnapshot (ls_Generation s + 1) (ls_LogID s) (ls_SegmentSize s) (ls_MaxPayloadBytes s) active next (ls_CompactionSegmentFloor s)
    (sortDataSegments (ls_SealedSegments s ++ [sum])).

(** A rotation that the catalog accepts. *)
Record log_installable (s : LogSnapshot) (gen : Z) (sum : SegmentSummary) (active next : Z) : Prop := mkLogInstallable {
  li_gen : gen = ls_Generation s /\ gen < MaxUint64;
  li_ids : ds_SegmentID sum = ls_ActiveSegmentID s /\ active = ls_NextSegmentID s /\ next = active + 1 /\ next < two32;
  li_valid : log_snapshot_valid (log_rotated s sum active next) = true;
}.

Class LogPortLaws (C : Type) `{!LogPort C} := {
  lp_ok : C -> Prop;
  lp_range c : lp_ok c -> log_snapshot_u (lp_Snapshot c);
  (** the catalog's own conditions for sealing this segment: room in its file for
      one more segment, and positions and statistics it keeps that lie within it *)
  lp_room : C -> SegmentSummary -> Prop;
  lp_reload c : lp_ok c -> lp_ok (lp_Reload c) /\ lp_Snapshot (lp_Reload (lp_Reload c)) = lp_Snapshot (lp_Reload c) /\
    (forall sum, lp_room c sum -> lp_Snapshot (lp_Reload c) = lp_Snapshot c -> lp_room (lp_Reload c) sum);
  (** a failing call leaves the snapshot of this process, and what the next one
      reads may be the old or the new one *)
  lp_install c fs gen sum active next c' fs' r : lp_ok c -> segmentFooter_u (log_footer sum) -> is_u32 active -> is_u32 next ->
    lp_Install c fs gen sum active next = (c', fs', r) ->
    lp_ok c' /\ (fs = [] -> fs' = []) /\
    match r with
    | Ok s => s = lp_Snapshot c' /\ s = log_rotated (lp_Snapshot c) sum active next /\ lp_Snapshot (lp_Reload c') = s
    | Err _ => lp_Snapshot c' = lp_Snapshot c /\
               (lp_Snapshot (lp_Reload c') = lp_Snapshot (lp_Reload c) \/ lp_Snapshot (lp_Reload c') = log_rotated (lp_Snapshot c) sum active next) /\
               (forall sum', lp_room c sum' -> lp_room c' sum') /\ (fs <> [] \/ ~ (log_installable (lp_Snapshot c) gen sum active next /\ lp_room c sum))
    end;
}.

(** ** The journal reads back *)

Record log_journal_u (j : rotationJournal) : Prop := mkLogJournalU {
  lju_log : length (lj_LogID j) = 16%nat /\ bytes_ok (lj_LogID j);
  lju_fields : is_u64 (lj_BaseGeneration j) /\ is_u32 (lj_SegmentSize j) /\ is_u32 (lj_NewActive j) /\ is_u32 (lj_NextSegmentID j);
  lju_old : segmentFooter_u (log_footer (lj_Old j)) }.

Lemma log_journal_body_ok j : log_journal_u j -> length (log_journal_body j) = 92%nat /\ bytes_ok (log_journal_body j).
Proof.
  intros [[Hl Hb] _ _]. unfold log_journal_body, rotationJournalMagic. split; [unfold zeros; rewrite ?length_app, ?length_put_le, ?length_replicate; cbn [length]; lia|solve_bytes].
Qed.

Lemma log_journal_decoded j src : log_journal_u j -> encodeRotationJournal j = Ok src -> decodeRotationJournal src = Ok j /\ length src = 96%nat.
Proof.
  intros Hu E. unfold encodeRotationJournal in E. inv_ok E. bool_norm. apply Ok_inj in E. subst src. destruct (log_journal_body_ok j Hu) as [Hbl Hbb].
  destruct (with_crc_spec 92 _ Hbl Hbb) as (Hlen & Hbytes & Ec & E60). change (log_journal_body j ++ put_le 4 (Checksum (log_journal_body j))) with (with_crc (log_journal_body j)). split; [|exact Hlen].
  destruct Hu as [[Hl Hb] (H1 & H2 & H3 & H4) (H5 & H6 & H7 & H8 & H9)]. assert (Hs : HasLen (lj_LogID j) 16) by exact Hl.
  unfold decodeRotationJournal. assert (Ecc : (u32 92 (with_crc (log_journal_body j)) =? Checksum (slice 0 92 (with_crc (log_journal_body j)))) = true) by (rewrite Ec, E60; apply Z.eqb_refl). rewrite Ecc. unfold len at 1. rewrite Hlen.
  unfold with_crc, log_journal_body. rewrite <- !app_assoc, magic_is_app. fields. rewrite !get_put_16 by (unfold is_u16, FormatVersion, rotationJournalSize; lia).
  cbn [log_footer sf_SegmentID sf_DataEnd sf_FirstAddr sf_LastAddr sf_RecordCount] in *.
  rewrite !get_put_32, !get_put_64 by auto. rewrite !all_zero_zeros. destruct j as [? ? ? [] ? ?]. cbn in *. rewrite Hguard. reflexivity.
Qed.

(** ** Summaries of written segments *)

Section Summary.
Context (h : SegmentHeader) (Hu : segmentHeader_u h) (Hv : segmentHeader_bad h = false) (recs : list LogRecord) (Hr : log_recs h recs).
Local Abbreviation id := (sh_SegmentID h).

Lemma summary_end : 64 <= 64 + body_size recs /\ 64 + body_size recs + 64 <= sh_SegmentSize h < two32 /\ (64 + body_size recs) mod 8 = 0.
Proof.
  destruct (header_parts h Hu Hv) as (_ & _ & H3 & _). destruct Hr as [H4 H5]. pose proof (body_size_nonneg _ _ _ H4). split; [lia|]. split; [lia|]. now apply (placed_aligned h).
Qed.

(** The addresses of the first and of the last record. *)
Lemma summary_first r rest : recs = r :: rest -> is_u64 (ar_Addr r.1) /\ SegmentID (ar_Addr r.1) = id /\ Offset (ar_Addr r.1) = 64 /\ VAddr_Valid (ar_Addr r.1) = true.
Proof. intros E. pose proof Hr as Hr'. rewrite E in Hr'. destruct (next_facts h Hu Hv [] r rest Hr') as ([_ _ (A1 & A2 & A3 & A4 & _) _ _ _] & _). rewrite Z.add_0_r in A3. auto. Qed.

Lemma summary_last r pre : recs = pre ++ [r] -> is_u64 (ar_Addr r.1) /\ SegmentID (ar_Addr r.1) = id /\ Offset (ar_Addr r.1) = 64 + body_size pre /\ VAddr_Valid (ar_Addr r.1) = true /\ 64 + body_size pre < 64 + body_size recs.
Proof.
  intros E. pose proof Hr as Hr'. rewrite E in Hr'. destruct (next_facts h Hu Hv pre r [] Hr') as ([_ [S1 _] (A1 & A2 & A3 & A4 & _) _ _ _] & _). rewrite E, body_size_app, body_size_cons. change (body_size []) with 0. repeat (split; [assumption|]). lia.
Qed.

Lemma recs_cases : recs = [] \/ exists r rest, recs = r :: rest.
Proof. destruct recs; eauto. Qed.

Lemma summary_range : segmentFooter_u (log_footer (log_summary id recs)).
Proof.
  destruct (header_parts h Hu Hv) as (P1 & _). destruct summary_end as (E1 & E2 & _). pose proof (placed_count _ _ _ (lr_placed _ _ Hr)) as Hc. pose proof (len_nonneg recs).
  unfold segmentFooter_u, log_footer, log_summary. cbn [sf_SegmentID sf_DataEnd sf_FirstAddr sf_LastAddr sf_RecordCount ds_SegmentID ds_ValidEnd ds_FirstAddr ds_LastAddr ds_RecordCount].
  split; [exact P1|]. split; [unfold is_u32; lia|]. split; [|split; [|unfold is_u64; lia]].
  - destruct recs_cases as [E|(r & rest & E)]; [rewrite E; unfold is_u64; lia|]. pose proof (proj1 (summary_first r rest E)) as Hx. rewrite E. exact Hx.
  - destruct (last recs) as [r|] eqn:E; [|unfold is_u64; lia]. apply last_Some in E as [pre E]. exact (proj1 (summary_last r pre E)).
Qed.

Lemma summary_footer_valid : validateSegmentFooter (log_footer (log_summary id recs)) = true.
Proof.
  destruct (header_parts h Hu Hv) as (P1 & P2 & _). destruct summary_end as (E1 & E2 & E3). unfold validateSegmentFooter, log_footer, log_summary. cbn [sf_SegmentID sf_DataEnd sf_FirstAddr sf_LastAddr sf_RecordCount ds_SegmentID ds_ValidEnd ds_FirstAddr ds_LastAddr ds_RecordCount].
  change (RecordAlignment - 1) with 7. rewrite land_7, E3. unfold SegmentHeaderSize. replace (id =? 0) with false by (symmetry; now apply Z.eqb_neq). replace (_ <? 64) with false by (symmetry; apply Z.ltb_ge; lia). cbn [orb negb Z.eqb].
  destruct recs_cases as [Er|(r & rest & Er)]; [rewrite Er; reflexivity|]. replace (len recs =? 0) with false by (rewrite Er, len_cons; pose proof (len_nonneg rest); symmetry; apply Z.eqb_neq; lia).
  replace (match recs with [] => 0 | r0 :: _ => ar_Addr r0.1 end) with (ar_Addr r.1) by now rewrite Er.
  destruct (summary_first r rest Er) as (A1 & A2 & A3 & A4). destruct (last recs) as [l|] eqn:El; [|apply last_None in El; congruence]. pose proof El as El'. apply last_Some in El as [pre El]. destruct (summary_last l pre El) as (B1 & B2 & B3 & B4 & B5).
  rewrite A4, A2, B4, B2, B3, !Z.eqb_refl. cbn [andb]. apply andb_true_iff. split; [|apply Z.ltb_lt; lia]. apply Z.leb_le. destruct pre as [|x pre].
  - cbn [app] in El. assert (r = l) by congruence. subst l. lia.
  - cbn [app] in El. assert (x = r) by congruence. subst x. apply Z.lt_le_incl. apply VAddr_order; auto. right. split; [congruence|]. rewrite A3, B3, body_size_cons. pose proof (lr_placed _ _ Hr) as Hp. rewrite El in Hp. cbn [app placed] in Hp. destruct Hp as [Hp1 Hp2].
    apply placed_app in Hp2 as [Hp2 _]. pose proof (body_size_nonneg _ _ _ Hp2). pose proof (PhysicalRecordSize_spec _ _ (len_nonneg r.2) (ra_size _ _ _ Hp1)). lia.
Qed.

Lemma summary_valid_data : data_summary_valid (log_summary id recs) (sh_SegmentSize h) = true.
Proof.
  destruct summary_end as (E1 & E2 & E3). unfold data_summary_valid. change (mkSegmentFooter _ _ _ _ _) with (log_footer (log_summary id recs)). rewrite summary_footer_valid. unfold SegmentFooterSize. cbn [negb orb log_summary ds_ValidEnd].
  replace (_ <=? 64) with false by (symmetry; apply Z.leb_gt; lia). replace (_ <? _) with false by (symmetry; apply Z.ltb_ge; lia). reflexivity.
Qed.

Definition log_footer_bytes : list Z := with_crc (segmentFooter_body (log_footer (log_summary id recs))).
Definition log_sealed_image : list Z := log_image h recs ++ log_footer_bytes.

Lemma log_footer_encoded : EncodeSegmentFooter (log_footer (log_summary id recs)) = Ok log_footer_bytes.
Proof. unfold EncodeSegmentFooter. rewrite summary_footer_valid. reflexivity. Qed.

Lemma log_footer_decoded : DecodeSegmentFooter log_footer_bytes = Ok (log_footer (log_summary id recs)).
Proof. apply DecodeSegmentFooter_EncodeSegmentFooter; [apply summary_range|apply log_footer_encoded]. Qed.

Lemma log_footer_len : len log_footer_bytes = 64.
Proof. unfold len, log_footer_bytes. rewrite footer_bytes_length. reflexivity. Qed.

(** A sealed file passes the checks of [openSealedSegment]. *)
Lemma sealed_image_checks : check_sealed_data log_sealed_image h (log_summary id recs) = Ok tt.
Proof.
  destruct summary_end as (E1 & E2 & E3). pose proof (log_image_len h Hu Hv recs Hr) as Hl. pose proof log_footer_len as Hf. unfold check_sealed_data, log_sealed_image, SegmentFooterSize, SegmentHeaderSize. cbn [log_summary ds_ValidEnd].
  rewrite len_app, Hl, Hf, Z.mod_small, Z.eqb_refl by lia. cbn [negb].
  assert (Eh : read_at (log_image h recs ++ log_footer_bytes) 0 64 = Ok (log_header_bytes h)).
  { unfold log_image. rewrite <- app_assoc. apply (read_at_here [] (log_header_bytes h)); [reflexivity|]. symmetry. now apply log_header_len. }
  rewrite Eh, (log_header_decoded h Hu Hv), bool_decide_eq_true_2 by reflexivity. cbn [negb].
  assert (Ef : read_at (log_image h recs ++ log_footer_bytes) (64 + body_size recs) 64 = Ok log_footer_bytes).
  { rewrite <- (app_nil_r log_footer_bytes) at 1. apply read_at_here; [now rewrite Hl|now rewrite Hf]. }
  rewrite Ef, log_footer_decoded, bool_decide_eq_true_2 by reflexivity. reflexivity.
Qed.
End Summary.

(** ** The catalog's list of sealed segments *)

Lemma log_sealed_split s segs : ls_ActiveSegmentID s <= CompactionSegmentBase -> forall p, log_sealed_ok s p segs = true ->
  ascending segs /\ Forall (fun x => p < ds_SegmentID x) segs /\ exists N O, segs = N ++ O /\ Forall (normal (ls_ActiveSegmentID s)) N /\ Forall output O.
Proof.
  intros Ha. induction segs as [|x segs IH]; intros p E; [split; [constructor|]; split; [constructor|]; exists [], []; auto|]. cbn [log_sealed_ok] in E. apply andb_true_iff in E as [E Er]. destruct (IH _ Er) as (H1 & H2 & N & O & -> & H3 & H4).
  bool_norm. split; [constructor; assumption|]. split; [constructor; [lia|]; eapply Forall_impl; [exact H2|]; cbn; lia|].
  unfold data_id_ok in *. match goal with H : _ || _ = true |- _ => apply orb_true_iff in H as [Hr|Hr] end; bool_norm.
  - exists (x :: N), O. split; [reflexivity|]. split; [constructor; assumption|exact H4].
  - exists [], (x :: N ++ O). split; [reflexivity|]. split; [constructor|]. unfold IsCompactionSegment in *. bool_norm. constructor; [unfold output; lia|]. eapply Forall_impl; [exact H2|]. unfold output. cbn. lia.
Qed.

Lemma log_sealed_above s segs p : log_sealed_ok s p segs = true -> Forall (fun x => p < ds_SegmentID x) segs.
Proof.
  revert p. induction segs as [|a segs IH]; intros p E; [constructor|]. cbn [log_sealed_ok] in E. apply andb_true_iff in E as [E Er]. rewrite negb_true_iff, !orb_false_iff in E. destruct E as [[[E _] _] _]. apply Z.leb_gt in E.
  constructor; [exact E|]. eapply Forall_impl; [exact (IH _ Er)|]. cbn. lia.
Qed.

(** The sealed segments stay in order when the old active one joins them. *)
Lemma log_sealed_insert s t sum O : ls_ActiveSegmentID s < ls_ActiveSegmentID t -> ls_ActiveSegmentID t < CompactionSegmentBase -> ls_SegmentSize t = ls_SegmentSize s -> ls_CompactionSegmentFloor t = ls_CompactionSegmentFloor s ->
  ds_SegmentID sum = ls_ActiveSegmentID s -> data_summary_valid sum (ls_SegmentSize s) = true -> Forall output O ->
  forall N p, Forall (normal (ls_ActiveSegmentID s)) N -> p < ls_ActiveSegmentID s -> log_sealed_ok s p (N ++ O) = true -> log_sealed_ok t p (N ++ sum :: O) = true.
Proof.
  intros H1 H2 H3 H4 H5 H6 HO.
  assert (Step : forall x p, ds_SegmentID x < ls_ActiveSegmentID s \/ output x -> negb ((ds_SegmentID x <=? p) || negb (data_id_ok (ls_ActiveSegmentID s) (ls_CompactionSegmentFloor s) (ds_SegmentID x)) || (ds_SegmentID x =? ls_ActiveSegmentID s) || negb (data_summary_valid x (ls_SegmentSize s))) = true ->
    negb ((ds_SegmentID x <=? p) || negb (data_id_ok (ls_ActiveSegmentID t) (ls_CompactionSegmentFloor t) (ds_SegmentID x)) || (ds_SegmentID x =? ls_ActiveSegmentID t) || negb (data_summary_valid x (ls_SegmentSize t))) = true).
  { intros x p Hx E. rewrite negb_true_iff, !orb_false_iff, !negb_false_iff in *. destruct E as [[[E1 E2] E3] E4]. rewrite H3, H4. split; [split; [split; [exact E1|]|]|exact E4]; unfold data_id_ok, output in *.
    - apply orb_true_iff in E2 as [E2|E2]; apply orb_true_iff; [left|right; exact E2]. apply Z.ltb_lt in E2. apply Z.ltb_lt. lia.
    - apply Z.eqb_neq. lia. }
  induction N as [|x N IH]; intros p HN Hp E; cbn [app log_sealed_ok] in *.
  - apply andb_true_iff. split.
    + rewrite H5, H3. unfold data_id_ok. replace (_ <=? p) with false by (symmetry; apply Z.leb_gt; lia). replace (_ <? ls_ActiveSegmentID t) with true by (symmetry; apply Z.ltb_lt; lia). replace (_ =? ls_ActiveSegmentID t) with false by (symmetry; apply Z.eqb_neq; lia). now rewrite H6.
    + rewrite H5. clear HN. revert p Hp E. assert (Hgo : forall O p q, Forall output O -> (forall x, x ∈ O -> q < ds_SegmentID x) -> log_sealed_ok s p O = true -> log_sealed_ok t q O = true).
      { clear -Step. induction O as [|x O IHO]; intros p q HO Hq E; [reflexivity|]. cbn [log_sealed_ok] in *. apply andb_true_iff in E as [E Er]. apply Forall_cons in HO as [Hx HO]. apply andb_true_iff. split.
        - apply (Step x q (or_intror Hx)). rewrite negb_true_iff, !orb_false_iff in *. destruct E as [[[E1 E2] E3] E4]. repeat split; auto. apply Z.leb_gt, Hq. constructor.
        - apply (IHO (ds_SegmentID x)); auto. apply Forall_forall, (log_sealed_above s). exact Er. }
      intros p Hp E. apply (Hgo O p); auto. intros x Hx. rewrite Forall_forall in HO. specialize (HO x Hx). unfold output in HO. lia.
  - apply andb_true_iff in E as [E Er]. apply Forall_cons in HN as [Hx HN]. apply andb_true_iff. split; [apply (Step x p (or_introl Hx) E)|]. apply IH; auto.
Qed.

(** [sealedSummary] finds the segment with the id. *)
Lemma sealedSummary_found s x : ascending (ls_SealedSegments s) -> x ∈ ls_SealedSegments s -> sealedSummary s (ds_SegmentID x) = Some x.
Proof.
  intros Ha Hx. unfold sealedSummary. set (l := ls_SealedSegments s) in *. set (f := fun i => ds_SegmentID x <=? ds_SegmentID (nth i l zero_data)).
  apply list_elem_of_lookup in Hx as [i Hi].
  assert (Hmono : forall a b, (a < b < length l)%nat -> ds_SegmentID (nth a l zero_data) < ds_SegmentID (nth b l zero_data)).
  { clear -Ha. unfold ascending in Ha. induction Ha as [|y l Hs IH Hf]; intros a b Hab; [cbn in Hab; lia|]. destruct b as [|b]; [lia|]. cbn [length] in Hab. destruct a as [|a]; cbn [nth]; [|apply IH; lia]. rewrite Forall_forall in Hf. apply Hf, list_elem_of_In, nth_In. lia. }
  assert (Hn : nth i l zero_data = x) by (apply nth_lookup_Some with (d := zero_data) in Hi; exact Hi). pose proof (lookup_lt_Some _ _ _ Hi) as Hl.
  destruct (sort_Search_spec (length l) f) as (S1 & S2 & S3).
  { intros a b Hab Hfa. unfold f in *. bool_norm. apply Z.leb_le. destruct (Nat.eq_dec a b) as [->|]; [lia|]. pose proof (Hmono a b). lia. }
  assert (E : sort_Search (length l) f = i).
  { destruct (lt_eq_lt_dec (sort_Search (length l) f) i) as [[L|L]|L]; [|exact L|].
    - assert (Ht : f (sort_Search (length l) f) = true) by (apply S3; lia). unfold f in Ht at 1. apply Z.leb_le in Ht. pose proof (Hmono (sort_Search (length l) f) i ltac:(lia)) as Hm. rewrite Hn in Hm. lia.
    - pose proof (S2 i L) as Ht. unfold f in Ht. rewrite Hn, Z.leb_refl in Ht. discriminate. }
  fold f. rewrite E, Hi, Z.eqb_refl. reflexivity.
Qed.

(** ** One rotation *)

Section Values.
Context (s0 : LogSnapshot) (recs : list LogRecord).
Local Abbreviation id := (ls_ActiveSegmentID s0).
Local Abbreviation nid := (ls_NextSegmentID s0).
Local Abbreviation next := ((nid + 1) mod two32).

Definition old_header : SegmentHeader := log_headerFor s0 id.
Definition new_header : SegmentHeader := log_headerFor s0 nid.
Definition log_old_summary : SegmentSummary := log_summary id recs.
Definition log_journal : rotationJournal := log_rotation_journal s0 log_old_summary.
Definition log_journal_bytes : list Z := with_crc (log_journal_body log_journal).
Definition log_s1 : LogSnapshot := log_rotated s0 log_old_summary nid next.

(** A log that can rotate. *)
Record log_rotatable : Prop := mkLogRotatable {
  lro_range : log_snapshot_u s0;
  lro_valid : log_snapshot_valid s0 = true;
  lro_recs : log_recs old_header recs;
  lro_gen : ls_Generation s0 < MaxUint64;
  lro_next : nid < CompactionSegmentBase;
}.

Record log_parts : Prop := mkLogParts {
  pt_gen : ls_Generation s0 <> 0;
  pt_log : all_zero (ls_LogID s0) = false;
  pt_ids : 0 < id < CompactionSegmentBase /\ nid = id + 1;
  pt_size : ls_SegmentSize s0 <= MaxUint32;
  pt_header : segmentHeader_bad old_header = false;
  pt_sealed : log_sealed_ok s0 0 (ls_SealedSegments s0) = true;
  pt_record : exists maximum, PhysicalRecordSize (ls_MaxPayloadBytes s0) = Ok maximum /\ maximum <= (ls_SegmentSize s0 - Addr.SegmentHeaderSize - Addr.SegmentFooterSize) mod two32;
}.

Lemma log_snapshot_parts : log_snapshot_u s0 -> log_snapshot_valid s0 = true -> log_parts.
Proof.
  intros Hu Hv. pose proof (lu_ids _ Hu) as (_ & Ha & _). unfold is_u32 in Ha. unfold log_snapshot_valid in Hv. rewrite !andb_true_iff in Hv. destruct Hv as [[[Hv H2] H3] H4].
  rewrite negb_true_iff, !orb_false_iff, negb_false_iff in Hv. destruct Hv as [[[[[[[V1 V2] V3] V4] V5] V6] V7] V8]. bool_norm. unfold CompactionSegmentBase in *.
  constructor; auto.
  - unfold CompactionSegmentBase; split; [lia|]; rewrite Z.mod_small in * by lia; congruence.
  - unfold EncodeSegmentHeader in H2. destruct (segmentHeader_bad _) eqn:Eb in H2; [discriminate|]. exact Eb.
  - destruct (PhysicalRecordSize _) as [m|]; [|discriminate]. exists m. split; [reflexivity|]. now apply Z.leb_le.
Qed.

Lemma snapshot_header x : log_snapshot_u s0 -> log_parts -> 0 < x < CompactionSegmentBase -> segmentHeader_u (log_headerFor s0 x) /\ segmentHeader_bad (log_headerFor s0 x) = false.
Proof.
  intros Hu Hp Hx. unfold CompactionSegmentBase in Hx. pose proof (lu_ids _ Hu) as (H1 & H2 & _). pose proof (lu_log _ Hu) as [H3 H4]. pose proof (pt_header Hp) as Hb. split.
  - unfold segmentHeader_u, is_u32 in *. cbn. split; [exact H3|]. split; [exact H4|]. split; [lia|]. split; [|lia]. destruct (1 <? x) eqn:E; bool_norm; lia.
  - unfold segmentHeader_bad, old_header in *. cbn [log_headerFor sh_LogID sh_SegmentID sh_SegmentSize] in *. rewrite !orb_false_iff in *. destruct Hb as [[[B1 B2] B3] B4]. repeat split; auto. apply Z.eqb_neq. lia.
Qed.

Context (R : log_rotatable).

Lemma log_parts_of : log_parts.
Proof. exact (log_snapshot_parts (lro_range R) (lro_valid R)). Qed.

Lemma log_next_small : next = nid + 1.
Proof. pose proof (lro_next R). destruct (pt_ids log_parts_of). unfold CompactionSegmentBase in *. apply Z.mod_small. lia. Qed.

Lemma log_header_ok x : 0 < x < CompactionSegmentBase -> segmentHeader_u (log_headerFor s0 x) /\ segmentHeader_bad (log_headerFor s0 x) = false.
Proof. exact (snapshot_header x (lro_range R) log_parts_of). Qed.

Lemma old_header_ok : segmentHeader_u old_header /\ segmentHeader_bad old_header = false.
Proof. apply log_header_ok, (pt_ids log_parts_of). Qed.

Lemma new_header_ok : segmentHeader_u new_header /\ segmentHeader_bad new_header = false.
Proof. apply log_header_ok. pose proof (lro_next R). destruct (pt_ids log_parts_of). lia. Qed.

Lemma old_end : 64 <= 64 + body_size recs /\ 64 + body_size recs + 64 <= ls_SegmentSize s0 < two32 /\ (64 + body_size recs) mod 8 = 0.
Proof. destruct old_header_ok as [H1 H2]. exact (summary_end old_header H1 H2 recs (lro_recs R)). Qed.

Lemma old_summary_valid : data_summary_valid log_old_summary (ls_SegmentSize s0) = true.
Proof. destruct old_header_ok as [H1 H2]. exact (summary_valid_data old_header H1 H2 recs (lro_recs R)). Qed.

Lemma old_summary_range : segmentFooter_u (log_footer log_old_summary).
Proof. destruct old_header_ok as [H1 H2]. exact (summary_range old_header H1 H2 recs (lro_recs R)). Qed.

(** *** The journal *)

Lemma the_log_journal_u : log_journal_u log_journal.
Proof.
  pose proof (lu_ids _ (lro_range R)) as (H1 & H2 & H3). constructor; [apply (lu_log _ (lro_range R))| |apply old_summary_range].
  cbn. rewrite log_next_small. pose proof (lro_next R). destruct (pt_ids log_parts_of). split; [apply (lu_gen _ (lro_range R))|]. unfold is_u32, CompactionSegmentBase in *. lia.
Qed.

Lemma the_journal_encoded : encodeRotationJournal log_journal = Ok log_journal_bytes.
Proof.
  unfold encodeRotationJournal. enough (E : log_journal_valid log_journal = true) by (rewrite E; reflexivity). unfold log_journal_valid. cbn [log_journal log_rotation_journal lj_BaseGeneration lj_LogID lj_Old lj_SegmentSize lj_NewActive lj_NextSegmentID].
  rewrite old_summary_valid. cbn [log_old_summary log_summary ds_SegmentID]. destruct log_parts_of as [P1 P2 (P3 & P4) P5 _ _]. pose proof (lro_next R) as Hn. unfold CompactionSegmentBase in *. rewrite P2.
  rewrite negb_true_iff, !orb_false_iff, !negb_false_iff, !Z.eqb_neq, !Z.eqb_eq. rewrite !Z.mod_small by lia. repeat split; lia.
Qed.

Lemma the_journal_decoded : decodeRotationJournal log_journal_bytes = Ok log_journal.
Proof. apply (log_journal_decoded _ _ the_log_journal_u the_journal_encoded). Qed.

(** *** The catalog before and after *)

Lemma log_s1_sealed : exists N O, ls_SealedSegments s0 = N ++ O /\ ls_SealedSegments log_s1 = N ++ log_old_summary :: O /\ ascending (N ++ log_old_summary :: O) /\ Forall (normal id) N /\ Forall output O.
Proof.
  destruct log_parts_of as [P1 P2 (P3 & P4) P5 P6 P7]. destruct (log_sealed_split s0 (ls_SealedSegments s0) ltac:(lia) 0 P7) as (H1 & H2 & N & O & Es & HN & HO). exists N, O. split; [exact Es|]. rewrite Es in H1.
  assert (Hasc : ascending (N ++ log_old_summary :: O)).
  { clear -H1 HN HO P3. unfold ascending in *. induction N as [|x N IH]; cbn [app] in *.
    - constructor; [exact H1|]. eapply Forall_impl; [exact HO|]. unfold output. cbn. lia.
    - inversion H1 as [|? ? Hs Hf]; subst. apply Forall_cons in HN as [Hx HN]. constructor; [auto|]. apply Forall_app in Hf as [Hf1 Hf2]. apply Forall_app. split; [exact Hf1|]. constructor; [unfold normal in Hx; cbn; lia|exact Hf2]. }
  split; [|auto]. cbn [log_s1 log_rotated ls_SealedSegments]. rewrite Es, <- app_assoc. now apply sort_placed.
Qed.

Lemma log_s1_valid : log_snapshot_valid log_s1 = true.
Proof.
  destruct log_parts_of as [P1 P2 (P3 & P4) P5 P6 P7]. pose proof (lro_next R) as Hn. pose proof (lro_gen R). pose proof (lu_gen _ (lro_range R)) as Hg. unfold is_u64 in Hg. pose proof (lro_valid R) as Hv. unfold log_snapshot_valid in *. rewrite !andb_true_iff in Hv. destruct Hv as [[[Hv V2] V3] _].
  rewrite negb_true_iff, !orb_false_iff, negb_false_iff in Hv. destruct Hv as [[[[[[[W1 W2] W3] W4] W5] W6] W7] W8].
  destruct log_s1_sealed as (N & O & Es & E1 & Hasc & HN & HO). rewrite E1. cbn [log_s1 log_rotated ls_Generation ls_LogID ls_ActiveSegmentID ls_NextSegmentID ls_SegmentSize ls_MaxPayloadBytes ls_CompactionSegmentFloor]. rewrite !andb_true_iff. split; [split; [split|]|].
  - rewrite negb_true_iff, !orb_false_iff, negb_false_iff. repeat split; auto; try (apply Z.eqb_neq; lia); [apply Z.eqb_refl|apply Z.leb_gt; lia].
  - destruct new_header_ok as [_ H2]. change (is_ok (EncodeSegmentHeader new_header) = true). unfold EncodeSegmentHeader. now rewrite H2.
  - exact V3.
  - rewrite Es in P7. change (log_sealed_ok log_s1 0 (N ++ log_old_summary :: O) = true). apply (log_sealed_insert s0 log_s1 log_old_summary O); auto; try reflexivity; try exact old_summary_valid; cbn; lia.
Qed.

Lemma log_can_install : log_installable s0 (ls_Generation s0) log_old_summary nid next.
Proof. constructor; [split; [reflexivity|apply (lro_gen R)]| |apply log_s1_valid]. rewrite log_next_small. pose proof (lro_next R). unfold CompactionSegmentBase in *. cbn. repeat (split; [reflexivity|]). lia. Qed.

Lemma log_not_committed : committedRotation s0 log_journal = false.
Proof. unfold committedRotation. cbn. destruct (pt_ids log_parts_of) as [_ ->]. replace (id =? id + 1) with false by (symmetry; apply Z.eqb_neq; lia). reflexivity. Qed.

Lemma s1_summary : sealedSummary log_s1 id = Some log_old_summary.
Proof.
  destruct log_s1_sealed as (N & O & _ & E1 & Hasc & _). change id with (ds_SegmentID log_old_summary). apply sealedSummary_found; rewrite E1; [exact Hasc|]. set_solver.
Qed.

Lemma log_committed : committedRotation log_s1 log_journal = true.
Proof. unfold committedRotation. cbn [log_s1 log_rotated ls_ActiveSegmentID ls_NextSegmentID log_journal log_rotation_journal lj_NewActive lj_NextSegmentID lj_Old]. rewrite !Z.eqb_refl. cbn [andb]. apply bool_decide_eq_true_2. exact s1_summary. Qed.

Lemma log_result_valid : validateRotationResult s0 log_s1 log_old_summary nid next = Ok tt.
Proof.
  unfold validateRotationResult. rewrite log_s1_valid. change (ds_SegmentID log_old_summary) with id. rewrite s1_summary. rewrite !bool_decide_eq_true_2 by reflexivity. cbn [log_s1 log_rotated ls_Generation ls_LogID ls_SegmentSize ls_MaxPayloadBytes ls_ActiveSegmentID ls_NextSegmentID].
  rewrite !Z.eqb_refl. replace (_ <=? _) with false by (symmetry; apply Z.leb_gt; lia). reflexivity.
Qed.
End Values.
