(* ===== verification/LogRotationSpec.v ===== *)
(** * The phases of a record log rotation

    Every state in which a rotation of the record log can be stopped, and the
    proofs that the rotation and its recovery stay within them, whatever calls
    fail, and finish when none fail.  Unlike the mapping store, the log writes the
    footer before the journal, and publishes the old file and creates the new one
    independently of each other, so every combination of the two occurs. *)
From S2P Require Import Prelude Bytes Addr Crc32 RecordFormat Fs FsDisk Catalog LogSegment LogRotate LogScan LogRotation.

Section Phases.
Context {C : Type} `{!LogPort C} `{!LogPortLaws C}.
(** [room]: the catalog has room for one more segment. *)
Context (room : Prop) (s0 : LogSnapshot) (recs : list LogRecord) (R : log_rotatable s0 recs) (d0 : gmap lpath (list Z)).
Local Abbreviation id := (ls_ActiveSegmentID s0).
Local Abbreviation nid := (ls_NextSegmentID s0).
Local Abbreviation snap1 := (log_s1 s0 recs).
Local Abbreviation image0 := (log_image (old_header s0) recs).
Local Abbreviation foot := (log_footer_bytes (old_header s0) recs).
Local Abbreviation image1 := (log_sealed_image (old_header s0) recs).
Local Abbreviation image2 := (log_header_bytes (new_header s0)).
Local Abbreviation jbytes := (log_journal_bytes s0 recs).
Local Abbreviation jrn := (log_journal s0 recs).
Local Abbreviation oldsum := (log_old_summary s0 recs).
Local Abbreviation lio := (io lpath C).

Definition lput (p : lpath) (x : option (list Z)) (d : gmap lpath (list Z)) : gmap lpath (list Z) := partial_alter (fun _ => x) p d.

(** The files a rotation works on: temporary journal, journal, the old segment
    as active and as sealed, the new segment being created and as active.  All
    other files are those of [d0]. *)
Definition ldsk (t j a s c n : option (list Z)) : gmap lpath (list Z) :=
  lput LRotationTmp t (lput LRotation j (lput (LActive id) a (lput (LSealed id) s (lput (LCreating nid) c (lput (LActive nid) n d0))))).

Definition lcatalog_at (s : LogSnapshot) : C -> Prop := fun c => lp_ok c /\ lp_Snapshot c = s /\ lp_Snapshot (lp_Reload c) = s /\ (room -> s = s0 -> lp_room c oldsum).
(** The catalog's files may be new already when this process has failed. *)
Definition lcatalog_torn : C -> Prop := fun c => lp_ok c /\ lp_Snapshot c = s0 /\ (room -> lp_room c oldsum) /\ (lp_Snapshot (lp_Reload c) = s0 \/ lp_Snapshot (lp_Reload c) = snap1).

(** The old segment while the journal is there, and the new one. *)
Inductive front : option (list Z) -> option (list Z) -> Prop :=
  | fr_active k : front (Some (image0 ++ take k foot)) None
  | fr_sealed : front None (Some image1).
Inductive back : option (list Z) -> option (list Z) -> Prop :=
  | bk_creating c : back c None
  | bk_created : back None (Some image2).

Inductive lphase : gmap lpath (list Z) -> (C -> Prop) -> Prop :=
  | lp_before t k : lphase (ldsk t None (Some (image0 ++ take k foot)) None None None) (lcatalog_at s0)
  | lp_journaled a s c n : front a s -> back c n -> lphase (ldsk None (Some jbytes) a s c n) (lcatalog_at s0)
  | lp_committed : lphase (ldsk None (Some jbytes) None (Some image1) None (Some image2)) (lcatalog_at snap1)
  | lp_done : lphase (ldsk None None None (Some image1) None (Some image2)) (lcatalog_at snap1).

(** A process can be stopped in a phase, or while the catalog was installing. *)
Definition lin_phase (o : os lpath C) : Prop := exists d u, lphase d u /\ at_disk d u o.
Definition lstopped (o : os lpath C) : Prop := lin_phase o \/ at_disk (ldsk None (Some jbytes) None (Some image1) None (Some image2)) lcatalog_torn o.

Lemma lstopped_in d u o : lphase d u -> at_disk d u o -> lstopped o.
Proof. intros H1 H2. left. exists d, u. auto. Qed.

Lemma log_ids_differ : id <> nid.
Proof. destruct (pt_ids _ (log_parts_of s0 recs R)) as [_ ->]. lia. Qed.

Ltac disk_cases := unfold ldsk, lput; repeat (rewrite lookup_insert || rewrite lookup_delete || rewrite lookup_partial_alter || (case_decide; subst)); pose proof log_ids_differ; try congruence; try reflexivity.
Ltac disk_eq := apply map_eq; intros ?q; disk_cases.
Ltac disk_at := solve [disk_cases].

Local Abbreviation step_point := (FsDisk.step_point room lphase lstopped lstopped_in).
Local Abbreviation step_point_owns := (FsDisk.step_point_owns room lphase lstopped lstopped_in).
Local Abbreviation step_open := (FsDisk.step_open room lphase lstopped lstopped_in).
Local Abbreviation step_data := (FsDisk.step_data room lphase lstopped lstopped_in).
Local Abbreviation step_test := (FsDisk.step_test room lphase lstopped lstopped_in).
Local Abbreviation step_lift := (FsDisk.step_lift room lstopped).
Local Abbreviation step_rename := (FsDisk.step_rename room lphase lstopped lstopped_in).
Local Abbreviation step_rename_owns := (FsDisk.step_rename_owns room lphase lstopped lstopped_in).
Local Abbreviation step_forget := (FsDisk.step_forget room lstopped).
Local Abbreviation step_write := (FsDisk.step_write room lphase lstopped lstopped_in).
Local Abbreviation step_create := (FsDisk.step_create room lphase lstopped lstopped_in).
Local Abbreviation step_remove_any := (FsDisk.step_remove_any room lphase lstopped lstopped_in).
Local Abbreviation step_truncate := (FsDisk.step_truncate room lphase lstopped lstopped_in).
Local Abbreviation last_step := (FsDisk.last_step room lphase lstopped lstopped_in).
Local Abbreviation step_seq := (FsDisk.step_seq room lstopped).

Lemma take_all : take 64 foot = foot.
Proof. apply take_ge. unfold log_footer_bytes. rewrite footer_bytes_length. lia. Qed.

Lemma front_footed : front (Some image1) None.
Proof. unfold log_sealed_image. rewrite <- take_all. apply fr_active. Qed.

Lemma before_any t k : lphase (ldsk t None (Some (image0 ++ take k foot)) None None None) (lcatalog_at s0).
Proof. apply lp_before. Qed.

Lemma before_plain t : lphase (ldsk t None (Some image0) None None None) (lcatalog_at s0).
Proof. rewrite <- (app_nil_r image0). apply (lp_before t 0). Qed.

Lemma before_footed t : lphase (ldsk t None (Some image1) None None None) (lcatalog_at s0).
Proof. unfold log_sealed_image. rewrite <- take_all. apply lp_before. Qed.

Lemma image0_len : len image0 = 64 + body_size recs.
Proof. destruct (old_header_ok s0 recs R) as [H1 H2]. apply (log_image_len _ H1 H2), (lro_recs _ _ R). Qed.

(** ** The rotation *)

Definition rotating (old : activeSegment) (f : nat) : Prop :=
  as_file old = Some f /\ as_header old = old_header s0 /\ as_sealed old = false /\ summaryLocked old = oldsum.

Lemma prepareSeal_phase old f j c n : rotating old f -> (forall k, lphase (ldsk None j (Some (image0 ++ take k foot)) None c n) (lcatalog_at s0)) ->
  triple room (fun o => at_disk (ldsk None j (Some image0) None c n) (lcatalog_at s0) o /\ owns o (LActive id) f) (prepareSeal old)
    (fun r o => (at_disk (ldsk None j (Some image1) None c n) (lcatalog_at s0) o /\ owns o (LActive id) f) /\ r = oldsum) lstopped.
Proof.
  intros (H1 & H2 & H3 & H4) Hk. destruct (old_header_ok s0 recs R) as [Hu Hv]. pose proof (Hk 0%nat) as Hk0. pose proof (Hk 64%nat) as Hk1. rewrite take_all in Hk1. cbn [take] in Hk0. rewrite app_nil_r in Hk0. change (image0 ++ foot) with image1 in Hk1.
  unfold prepareSeal. rewrite H1, H3, H4. apply (step_lift _ _ _ _ _ (log_footer_encoded _ Hu Hv recs (lro_recs _ _ R))).
  apply step_point_owns; [exact Hk0|]. assert (Ee : ds_ValidEnd oldsum = len image0) by (rewrite image0_len; reflexivity). rewrite Ee.
  apply (step_write _ _ _ _ _ image0 _ _ (ldsk None j (Some image1) None c n)); [disk_at|rewrite splice_end; disk_eq| |].
  { intros k. rewrite splice_end. replace (<[_ := _]> _) with (ldsk None j (Some (image0 ++ take k foot)) None c n) by disk_eq. apply Hk. }
  do 2 (apply step_point_owns; [exact Hk1|]). apply triple_ret. auto.
Qed.

Lemma log_installJournal_phase : triple room (at_disk (ldsk None None (Some image1) None None None) (lcatalog_at s0)) (installRotationJournal jrn)
  (fun _ => at_disk (ldsk None (Some jbytes) (Some image1) None None None) (lcatalog_at s0)) lstopped.
Proof.
  pose proof (lp_journaled _ _ _ _ front_footed (bk_creating None)) as Hj.
  unfold installRotationJournal. apply (step_lift _ _ _ _ _ (the_journal_encoded s0 recs R)). apply step_point; [apply before_footed|]. apply step_test; [apply before_footed|].
  rewrite bool_decide_eq_false_2 by (replace (ldsk _ _ _ _ _ _ !! LRotation) with (@None (list Z)) by disk_at; intros [? ?]; discriminate).
  apply (step_create _ _ (before_footed None) _ _ (ldsk (Some []) None (Some image1) None None None)); [disk_at|disk_eq|]. intros f.
  apply step_point_owns; [apply before_footed|]. apply (step_write _ _ _ _ _ [] _ _ (ldsk (Some jbytes) None (Some image1) None None None)); [disk_at|rewrite splice_fresh; disk_eq| |].
  { intros n. replace (<[_ := _]> _) with (ldsk (Some (splice [] 0 (take n jbytes))) None (Some image1) None None None) by disk_eq. apply before_footed. }
  apply step_forget. do 4 (apply step_point; [apply before_footed|]).
  apply (step_rename _ _ (before_footed _) _ _ _ jbytes (ldsk None (Some jbytes) (Some image1) None None None)); [disk_at|disk_eq|exact Hj|].
  apply step_point; [exact Hj|]. apply last_step, Hj.
Qed.

Lemma log_installJournal_keeps q j : q <> LRotation -> q <> LRotationTmp -> keeps q (C := C) (installRotationJournal j).
Proof.
  intros H1 H2. unfold installRotationJournal. apply keeps_bind; [apply keeps_lift|intros x]. apply keeps_bind; [apply keeps_point|intros _]. apply keeps_bind; [apply keeps_test|intros found]. destruct found; [now intros o|].
  repeat first [apply keeps_bind; [|intros ?] | apply keeps_point | apply keeps_write | apply keeps_create | apply keeps_rename]; auto.
Qed.

(** Publishing the old file touches only its two names. *)
Definition half (c n : option (list Z)) (o : os lpath C) : Prop := exists a s, front a s /\ at_disk (ldsk None (Some jbytes) a s c n) (lcatalog_at s0) o.
Definition half_phase (c n : option (list Z)) (d : gmap lpath (list Z)) (u : C -> Prop) : Prop := exists a s, front a s /\ d = ldsk None (Some jbytes) a s c n /\ u = lcatalog_at s0.

Lemma half_in c n d u o : half_phase c n d u -> at_disk d u o -> half c n o.
Proof. intros (a & s & H1 & -> & ->) H2. exists a, s. auto. Qed.

Lemma half_stopped c n o : back c n -> half c n o -> lstopped o.
Proof. intros Hb (a & s & H1 & H2). exact (lstopped_in _ _ _ (lp_journaled _ _ _ _ H1 Hb) H2). Qed.

Lemma publish_phase old f c n : rotating old f ->
  triple room (fun o => at_disk (ldsk None (Some jbytes) (Some image1) None c n) (lcatalog_at s0) o /\ owns o (LActive id) f) (publishPreparedSeal old oldsum)
    (fun r o => (at_disk (ldsk None (Some jbytes) None (Some image1) c n) (lcatalog_at s0) o /\ owns o (LSealed id) f) /\ r = (set_sealed old, mkSealed (Some f) (old_header s0) oldsum, oldsum)) (half c n).
Proof.
  intros (H1 & H2 & H3 & H4). unfold publishPreparedSeal. rewrite H1, H3, H4, H2. rewrite !bool_decide_eq_true_2 by eauto. cbn [negb orb]. change (sh_SegmentID (old_header s0)) with id.
  assert (P1 : half_phase c n (ldsk None (Some jbytes) (Some image1) None c n) (lcatalog_at s0)) by (exists (Some image1), None; split; [apply front_footed|auto]).
  assert (P2 : half_phase c n (ldsk None (Some jbytes) None (Some image1) c n) (lcatalog_at s0)) by (exists None, (Some image1); split; [apply fr_sealed|auto]).
  apply (FsDisk.step_point_owns room (half_phase c n) (half c n) (half_in c n)); [exact P1|].
  apply (FsDisk.step_rename_owns room (half_phase c n) (half c n) (half_in c n) _ _ P1 _ _ _ _ image1 (ldsk None (Some jbytes) None (Some image1) c n)); [disk_at|disk_eq|exact P2|].
  do 2 (apply (FsDisk.step_point_owns room (half_phase c n) (half c n) (half_in c n)); [exact P2|]). apply triple_ret. auto.
Qed.

Definition fresh_active (f : nat) : activeSegment := mkActive (Some f) (new_header s0) 64 0 0 0 false false.

Lemma create_phase a s : front a s ->
  triple room (at_disk (ldsk None (Some jbytes) a s None None) (lcatalog_at s0)) (createActiveSegment (new_header s0))
    (fun seg o => exists f, (at_disk (ldsk None (Some jbytes) a s None (Some image2)) (lcatalog_at s0) o /\ owns o (LActive nid) f) /\ seg = fresh_active f) lstopped.
Proof.
  intros Hf. destruct (new_header_ok s0 recs R) as [Hu Hv]. pose proof (fun c => lp_journaled _ _ _ _ Hf (bk_creating c)) as Hc. pose proof (lp_journaled _ _ _ _ Hf bk_created) as Hd.
  unfold createActiveSegment. apply (step_lift _ _ _ image2); [now apply log_header_encoded|]. change (sh_SegmentID (new_header s0)) with nid. apply step_point; [apply Hc|].
  apply (step_create _ _ (Hc None) _ _ (ldsk None (Some jbytes) a s (Some []) None)); [disk_at|disk_eq|]. intros f.
  apply step_point_owns; [apply Hc|]. apply (step_write _ _ _ _ _ [] _ _ (ldsk None (Some jbytes) a s (Some image2) None)); [disk_at|rewrite splice_fresh; disk_eq| |].
  { intros n. replace (<[_ := _]> _) with (ldsk None (Some jbytes) a s (Some (splice [] 0 (take n image2))) None) by disk_eq. apply Hc. }
  do 3 (apply step_point_owns; [apply Hc|]). apply (step_rename_owns _ _ (Hc _) _ _ _ _ image2 (ldsk None (Some jbytes) a s None (Some image2))); [disk_at|disk_eq|exact Hd|].
  do 2 (apply step_point_owns; [exact Hd|]). apply triple_ret. intros o Ho. exists f. auto.
Qed.

Lemma create_keeps q h : q <> LCreating (sh_SegmentID h) -> q <> LActive (sh_SegmentID h) -> keeps q (C := C) (createActiveSegment h).
Proof.
  intros H1 H2. unfold createActiveSegment. repeat first [apply keeps_bind; [|intros ?] | apply keeps_lift | apply keeps_point | apply keeps_write | apply keeps_create | apply keeps_rename | apply keeps_ret]; auto.
Qed.

(** Closing changes no file. *)
Lemma close_active_faults s (o : os lpath C) : (active_close s o).1 = o \/ (active_close s o).1 = refault o (tail (os_faults o)).
Proof.
  unfold active_close. destruct (as_file s); [|auto]. destruct (as_sealed s && as_transferred s); [auto|]. unfold log_file_Close, fs_point. destruct (next_fault_spec o) as (ft & E & _). rewrite E. destruct ft; cbn; auto.
Qed.

Lemma lstopped_refault o fs : lstopped o -> lstopped (refault o fs).
Proof. intros [(d & u & H1 & H2)|H]; [left; exists d, u; split; [exact H1|]|right]; now apply at_disk_faults. Qed.

Lemma close_active_stopped s o : lstopped o -> lstopped (active_close s o).1 /\ (os_faults o = [] -> os_faults (active_close s o).1 = []).
Proof. intros Ho. destruct (close_active_faults s o) as [-> | ->]; [auto|]. split; [now apply lstopped_refault|]. cbn. now intros ->. Qed.

Local Abbreviation made := (ldsk None (Some jbytes) None (Some image1) None (Some image2)).

Definition rotated_files (old : activeSegment) (f : nat) (u : C -> Prop) (d : gmap lpath (list Z)) (r : activeSegment * sealedSegment * activeSegment) (o : os lpath C) : Prop :=
  exists g, (at_disk d u o /\ owns o (LActive nid) g) /\ owns o (LSealed id) f /\ r = (set_sealed old, mkSealed (Some f) (old_header s0) oldsum, fresh_active g).

Lemma prepareRotationFiles_phase old f : rotating old f ->
  triple room (fun o => at_disk (ldsk None (Some jbytes) (Some image1) None None None) (lcatalog_at s0) o /\ owns o (LActive id) f) (prepareRotationFiles old oldsum (new_header s0))
    (fun '(a, b, sum, n) o => rotated_files old f (lcatalog_at s0) made (a, b, n) o /\ sum = oldsum) lstopped.
Proof.
  intros Hr o Ho. unfold prepareRotationFiles. pose proof (publish_phase old f None None Hr o Ho) as Hp. destruct (publishPreparedSeal old oldsum o) as [o1 [x|e]]; cbn [fst snd] in Hp; destruct Hp as [F1 Hp].
  - destruct Hp as [[Hd Hw] ->]. assert (Hk : keeps (LSealed id) (C := C) (createActiveSegment (new_header s0))) by (apply create_keeps; discriminate).
    pose proof (triple_keeps room (LSealed id) f _ _ _ _ Hk (create_phase None (Some image1) fr_sealed) o1 (conj Hd Hw)) as Hc.
    destruct (createActiveSegment (new_header s0) o1) as [o2 [y|e]]; cbn [fst snd] in *; destruct Hc as [F2 Hc]; (split; [auto|]).
    + destruct Hc as [(g & Hg & ->) Hw2]. split; [|reflexivity]. exists g. auto.
    + destruct Hc as [H1 H2]. split; [exact H1|]. intros Hm E. exact (H2 Hm (F1 E)).
  - destruct Hp as [(a & s & Hf & Hd) Hne]. pose proof (create_phase a s Hf o1 Hd) as Hc. destruct (createActiveSegment (new_header s0) o1) as [o2 [y|e2]]; cbn [fst snd] in *; destruct Hc as [F2 Hc].
    + destruct Hc as (g & [Hg _] & ->). destruct (close_active_stopped (fresh_active g) o2 (lstopped_in _ _ _ (lp_journaled _ _ _ _ Hf bk_created) Hg)) as [H1 H2].
      destruct (active_close (fresh_active g) o2) as [o3 [s3 c3]]; cbn in *. auto.
    + destruct Hc as [H1 H2]. cbn. auto.
Qed.

Lemma log_s1_differs : snap1 <> s0.
Proof. intros E. apply (f_equal ls_Generation) in E. cbn in E. lia. Qed.

Lemma log_install_law c fs c' fs' r : lcatalog_at s0 c -> lp_Install c fs (ls_Generation s0) oldsum nid ((nid + 1) mod two32) = (c', fs', r) ->
  lp_ok c' /\ (fs = [] -> fs' = []) /\
  match r with
  | Ok s => lp_Snapshot c' = s /\ s = snap1 /\ lp_Snapshot (lp_Reload c') = snap1
  | Err _ => lp_Snapshot c' = s0 /\ (room -> lp_room c' oldsum) /\ (lp_Snapshot (lp_Reload c') = s0 \/ lp_Snapshot (lp_Reload c') = snap1) /\ (room -> fs <> [])
  end.
Proof.
  intros (Hok & Hsn & Hre & Hrm) Ei. destruct (lu_ids _ (lro_range _ _ R)) as (_ & I1 & I2). assert (U2 : is_u32 ((nid + 1) mod two32)) by (unfold is_u32; apply Z.mod_pos_bound; lia).
  destruct (lp_install c fs (ls_Generation s0) oldsum nid ((nid + 1) mod two32) c' fs' r Hok (old_summary_range s0 recs R) I2 U2 Ei) as (H1 & H2 & H3).
  split; [exact H1|]. split; [exact H2|]. rewrite Hsn, Hre in H3. destruct r as [s|e].
  - destruct H3 as (H3 & H4 & H5). change (log_rotated s0 oldsum nid ((nid + 1) mod two32)) with snap1 in H4. split; [congruence|]. split; congruence.
  - destruct H3 as (H3 & H4 & H5 & H6). repeat (split; [auto|]). intros Hm. destruct H6 as [H6|H6]; [exact H6|]. exfalso. apply H6. split; [apply (log_can_install s0 recs R)|auto].
Qed.

Lemma log_install_round n : triple room (at_disk made (lcatalog_at s0)) (log_install_loop (S n) s0 jrn) (fun st o => at_disk made (lcatalog_at snap1) o /\ st = snap1) lstopped.
Proof.
  intros o Ho. cbn [log_install_loop]. change (lj_Old jrn) with oldsum. change (lj_NewActive jrn) with nid. change (lj_NextSegmentID jrn) with ((nid + 1) mod two32).
  pose proof Ho as [W Hd Hcat]. destruct (lp_Install _ _ _ _ _ _) as [[c fs] r] eqn:Ei. apply log_install_law in Ei; [|exact Hcat]. destruct Ei as (Hc & Hff & Hi).
  set (o2 := mkOs (os_names o) (os_data o) (os_next o) fs c).
  assert (Hat : forall u : C -> Prop, u c -> at_disk made u o2) by (intros u Hu; destruct W as [W1 W2]; constructor; [constructor; assumption|exact Hd|exact Hu]).
  destruct r as [s|e].
  - destruct Hi as (Hi1 & -> & Hi2). cbn [fst snd]. split; [exact Hff|]. split; [apply Hat; repeat (split; [assumption|]); intros _ E; now destruct (log_s1_differs E)|reflexivity].
  - destruct Hi as (Hi1 & Hi2 & Hi3 & Hne). rewrite Hi1, (log_not_committed s0 recs R), Z.eqb_refl. cbn [fst snd]. split; [exact Hff|]. split; [|auto]. right. apply Hat. repeat (split; [assumption|]). exact Hi3.
Qed.

Lemma log_install_phase : triple room (at_disk made (lcatalog_at s0)) (installCatalogRotation s0 jrn) (fun st o => at_disk made (lcatalog_at snap1) o /\ st = snap1) lstopped.
Proof. apply (log_install_round 15). Qed.

(** The catalog changes no name. *)
Lemma log_install_keeps q n : forall st j, keeps q (C := C) (log_install_loop n st j).
Proof.
  induction n as [|n IH]; intros st j o; [reflexivity|]. cbn [log_install_loop]. destruct (lp_Install _ _ _ _ _ _) as [[c fs] [x|e]]; [reflexivity|]. repeat case_match; try reflexivity. rewrite IH. reflexivity.
Qed.

Lemma installCatalog_keeps q st j : keeps q (C := C) (installCatalogRotation st j).
Proof. exact (log_install_keeps q 16 st j). Qed.

Lemma log_removeJournal_phase : triple room (at_disk made (lcatalog_at snap1)) removeRotationJournal
  (fun _ => at_disk (ldsk None None None (Some image1) None (Some image2)) (lcatalog_at snap1)) lstopped.
Proof.
  unfold removeRotationJournal. do 2 (apply step_test; [apply lp_committed|]).
  replace (made !! LRotation) with (Some jbytes) by disk_at. rewrite (bool_decide_eq_true_2 (is_Some (Some jbytes))) by eauto. cbn [orb].
  apply step_point; [apply lp_committed|]. apply (step_remove_any _ _ lp_committed _ _ (ldsk None None None (Some image1) None (Some image2))); [disk_eq|apply lp_done|].
  apply (step_remove_any _ _ lp_done _ _ (ldsk None None None (Some image1) None (Some image2))); [disk_eq|apply lp_done|].
  apply step_point; [apply lp_done|]. apply last_step, lp_done.
Qed.

Lemma log_removeJournal_keeps q : q <> LRotation -> q <> LRotationTmp -> keeps q (C := C) removeRotationJournal.
Proof.
  intros H1 H2. unfold removeRotationJournal. apply keeps_bind; [apply keeps_test|intros a]. apply keeps_bind; [apply keeps_test|intros b].
  repeat first [apply keeps_bind; [|intros ?] | apply keeps_point | apply keeps_missing, keeps_remove]; auto; destruct (a || b); first [apply keeps_point|apply keeps_ret].
Qed.

Lemma log_take_snapshot {A} (Pre : os lpath C -> Prop) st (k : LogSnapshot -> lio A) Post : (forall o, Pre o -> lp_Snapshot (os_user o) = st) ->
  triple room Pre (k st) Post lstopped -> triple room Pre (let* s := log_snapshot in k s) Post lstopped.
Proof. intros Hp Hk o Ho. specialize (Hk o Ho). unfold io_bind, log_snapshot. rewrite (Hp o Ho). exact Hk. Qed.

Lemma rotate_segments_phase old f : rotating old f ->
  triple room (fun o => at_disk (ldsk None None (Some image0) None None None) (lcatalog_at s0) o /\ owns o (LActive id) f) (rotate_segments old)
    (rotated_files old f (lcatalog_at snap1) made) lstopped.
Proof.
  intros Hr. pose proof Hr as (H1 & H2 & H3 & H4). unfold rotate_segments. apply (log_take_snapshot _ s0); [intros o [[_ _ (_ & Hu & _)] _]; exact Hu|].
  rewrite (lro_valid _ _ R), H2, H4. cbn [negb]. cbn [old_header log_headerFor sh_SegmentID sh_LogID sh_SegmentSize]. rewrite !Z.eqb_refl, bool_decide_eq_true_2 by reflexivity. cbn [negb orb].
  change (log_rotation_journal s0 oldsum) with jrn. eapply step_seq; [apply (prepareSeal_phase old f None None None Hr (lp_before None))|]. intros r. apply triple_pre. intros o [Ho ->]. apply (triple_from _ _ _ (fun o => at_disk (ldsk None None (Some image1) None None None) (lcatalog_at s0) o /\ owns o (LActive id) f)); [intros ? <-; exact Ho|]. clear o Ho.
  rewrite bool_decide_eq_true_2 by reflexivity. cbn [negb]. eapply step_seq; [apply triple_keeps; [apply log_installJournal_keeps; discriminate|apply log_installJournal_phase]|]. intros ?.
  change (log_headerFor s0 (lj_NewActive jrn)) with (new_header s0). eapply step_seq; [apply (prepareRotationFiles_phase old f Hr)|]. intros [[[a b] sum] n]. apply triple_pre. intros o [Ho ->]. rewrite bool_decide_eq_true_2 by reflexivity. cbn [negb].
  intros ? <-. destruct Ho as (g & [Hd Hg] & Hw & [= -> -> ->]).
  pose proof (triple_keeps room (LSealed id) f _ _ _ _ (installCatalog_keeps _ s0 jrn) (triple_keeps room (LActive nid) g _ _ _ _ (installCatalog_keeps _ s0 jrn) log_install_phase) o (conj (conj Hd Hg) Hw)) as Hi.
  destruct (installCatalogRotation s0 jrn o) as [o' [st|e]]; cbn [fst snd] in Hi; destruct Hi as [F Hi].
  - destruct Hi as [[[Hd' ->] Hg'] Hw']. change (lj_NewActive jrn) with nid. change (lj_NextSegmentID jrn) with ((nid + 1) mod two32). rewrite (log_result_valid s0 recs R). cbn [fst snd]. split; [exact F|]. exists g. auto.
  - destruct Hi as [Hs Hne]. unfold fail_closing. destruct (close_active_stopped (fresh_active g) o' Hs) as [S1 S2]. destruct (active_close (fresh_active g) o') as [o3 [s3 c3]]; cbn in *. auto.
Qed.

(** ** Opening the files *)

Lemma open_sealed_phase d u : lphase d u -> d !! LSealed id = Some image1 ->
  triple room (at_disk d u) (openSealedSegment (old_header s0) oldsum) (fun _ => at_disk d u) lstopped.
Proof.
  intros Hp Hd. destruct (old_header_ok s0 recs R) as [Hu Hv]. unfold openSealedSegment. pose proof (old_summary_valid s0 recs R) as Hs. cbn [old_header log_headerFor sh_SegmentID sh_SegmentSize log_old_summary log_summary ds_SegmentID] in Hs |- *. fold (old_header s0). rewrite Z.eqb_refl.
  change (mkData id _ _ _ _) with oldsum in Hs |- *. rewrite Hs. cbn [negb orb]. apply (step_open _ _ Hp _ _ image1); [exact Hd|]. intros f. apply (step_data _ _ Hp _ _ _ image1); [exact Hd|].
  apply (step_lift _ _ _ tt); [exact (sealed_image_checks _ Hu Hv recs (lro_recs _ _ R))|]. apply step_forget, triple_ret. auto.
Qed.

Lemma close_sealed_phase {A} sl d u (k : lio A) Post : lphase d u -> triple room (at_disk d u) k Post lstopped -> triple room (at_disk d u) (close_sealed_then sl k) Post lstopped.
Proof.
  intros Hp Hk o Ho. unfold close_sealed_then, sealed_close. destruct (sl_file sl); [|exact (Hk o Ho)]. pose proof (last_step d u Hp o Ho) as Hl. unfold log_file_Close. destruct (fs_point o) as [o' [x|e]]; cbn [fst snd] in *; destruct Hl as [F Hl]; [|auto].
  specialize (Hk o' Hl). destruct (k o') as [o2 [y|e]]; cbn [fst snd] in *; destruct Hk as [F2 Hk]; (split; [auto|]); [exact Hk|]. destruct Hk as [H1 H2]. split; [exact H1|]. intros Hm E. exact (H2 Hm (F E)).
Qed.

Lemma close_active_phase {A} sg d u (k : lio A) Post : lphase d u -> triple room (at_disk d u) k Post lstopped -> triple room (at_disk d u) (close_active_then sg k) Post lstopped.
Proof.
  intros Hp Hk o Ho. unfold close_active_then, active_close. destruct (as_file sg); [|exact (Hk o Ho)]. destruct (as_sealed sg && as_transferred sg); [exact (Hk o Ho)|]. pose proof (last_step d u Hp o Ho) as Hl. unfold log_file_Close. destruct (fs_point o) as [o' [x|e]]; cbn [fst snd] in *; destruct Hl as [F Hl]; [|auto].
  specialize (Hk o' Hl). destruct (k o') as [o2 [y|e]]; cbn [fst snd] in *; destruct Hk as [F2 Hk]; (split; [auto|]); [exact Hk|]. destruct Hk as [H1 H2]. split; [exact H1|]. intros Hm E. exact (H2 Hm (F E)).
Qed.

(** Opening a clean active file, the old one or the new one. *)
Lemma open_clean_phase h rs d u : lphase d u -> segmentHeader_u h -> segmentHeader_bad h = false -> log_recs h rs -> d !! LActive (sh_SegmentID h) = Some (log_image h rs) ->
  triple room (at_disk d u) (openActiveSegment h) (fun r o => exists f, (at_disk d u o /\ owns o (LActive (sh_SegmentID h)) f) /\
    r = (mkActive (Some f) h (64 + body_size rs) (ds_FirstAddr (log_summary (sh_SegmentID h) rs)) (ds_LastAddr (log_summary (sh_SegmentID h) rs)) (len rs) false false, false)) lstopped.
Proof.
  intros Hp Hu Hv Hr Hd. unfold openActiveSegment. apply (step_open _ _ Hp _ _ _ _ Hd). intros f. apply (step_data _ _ Hp _ _ _ _ _ Hd).
  pose proof (scan_active_summary h Hu Hv rs [] Hr (uf_none h rs)) as Es. rewrite app_nil_r, bool_decide_eq_false_2 in Es by (intros X; now apply X).
  apply (step_lift _ _ _ _ _ Es). apply (step_seq _ (fun _ o => at_disk d u o /\ owns o (LActive (sh_SegmentID h)) f)); [apply triple_ret; auto|]. intros ?. apply triple_ret. intros o Ho. exists f. split; [exact Ho|]. reflexivity.
Qed.

Lemma new_file_open d u : lphase d u -> d !! LActive nid = Some image2 ->
  triple room (at_disk d u) (openActiveSegment (new_header s0)) (fun r o => exists f, (at_disk d u o /\ owns o (LActive nid) f) /\ r = (fresh_active f, false)) lstopped.
Proof.
  intros Hp Hd. destruct (new_header_ok s0 recs R) as [Hu Hv]. assert (Hr : log_recs (new_header s0) []) by (constructor; [exact I|]; destruct (header_parts _ Hu Hv) as (_ & _ & H3 & _); change (body_size []) with 0; lia).
  assert (Hi : d !! LActive (sh_SegmentID (new_header s0)) = Some (log_image (new_header s0) [])) by (unfold log_image; cbn [log_body map concat]; rewrite app_nil_r; exact Hd).
  eapply triple_weaken; [exact (open_clean_phase (new_header s0) [] d u Hp Hu Hv Hr Hi)|auto| |auto]. intros r o (f & Ho & ->). exists f. split; [exact Ho|reflexivity].
Qed.

(** ** Recovery *)

Lemma ensureCommitted_phase : triple room (at_disk made (lcatalog_at snap1)) (ensureCommittedRotationFiles snap1 jrn) (fun _ => at_disk made (lcatalog_at snap1)) lstopped.
Proof.
  unfold ensureCommittedRotationFiles. change (log_headerFor snap1 (ds_SegmentID (lj_Old jrn))) with (old_header s0). change (lj_Old jrn) with oldsum. change (log_headerFor snap1 (lj_NewActive jrn)) with (new_header s0).
  eapply step_seq; [apply (open_sealed_phase _ _ lp_committed); disk_at|]. intros sl. apply close_sealed_phase; [apply lp_committed|].
  eapply step_seq; [apply (new_file_open _ _ lp_committed); disk_at|]. intros [ac rp]. apply triple_pre. intros o (f & [Ho _] & _). apply (triple_from _ _ _ (at_disk made (lcatalog_at snap1))); [intros ? <-; exact Ho|].
  apply close_active_phase; [apply lp_committed|]. apply triple_ret. auto.
Qed.

(** The tail of the old file is cut. *)
Lemma cut_source_phase k c n : back c n ->
  triple room (at_disk (ldsk None (Some jbytes) (Some (image0 ++ take k foot)) None c n) (lcatalog_at s0)) (cut_source (old_header s0) oldsum)
    (fun _ => at_disk (ldsk None (Some jbytes) (Some image0) None c n) (lcatalog_at s0)) lstopped.
Proof.
  intros Hb. pose proof (fun k => lp_journaled _ _ _ _ (fr_active k) Hb) as Hp. pose proof image0_len as Hl. destruct (old_end s0 recs R) as (E1 & E2 & _). pose proof (log_footer_len (old_header s0) recs) as Hf.
  assert (Ht : 0 <= len (take k foot) <= 64) by (unfold len in *; rewrite length_take; lia).
  pose proof (Hp 0%nat) as Hp0. cbn [take] in Hp0. rewrite app_nil_r in Hp0.
  unfold cut_source. change (sh_SegmentID (old_header s0)) with id. apply (step_open _ _ (Hp k) _ _ (image0 ++ take k foot)); [disk_at|]. intros f. apply (step_data _ _ (Hp k) _ _ _ (image0 ++ take k foot)); [disk_at|].
  change (ds_ValidEnd oldsum) with (64 + body_size recs). unfold SegmentFooterSize. rewrite len_app, Hl, Z.mod_small by lia. replace (_ <? 64 + body_size recs) with false by (symmetry; apply Z.ltb_ge; lia). replace (_ + 64 <? _) with false by (symmetry; apply Z.ltb_ge; lia). cbn [orb].
  apply (step_seq _ (fun _ => at_disk (ldsk None (Some jbytes) (Some image0) None c n) (lcatalog_at s0))); [|intros ?; apply last_step, Hp0].
  destruct (_ <? _) eqn:E; bool_norm.
  - apply step_point_owns; [apply Hp|]. apply (step_truncate _ _ (Hp k) _ _ _ (image0 ++ take k foot) _ (ldsk None (Some jbytes) (Some image0) None c n)); [disk_at|rewrite len_app; lia| |].
    { replace (Z.to_nat (64 + body_size recs)) with (length image0) by (unfold len in *; lia). rewrite take_app_length. disk_eq. }
    apply step_forget, step_point; [exact Hp0|]. apply last_step, Hp0.
  - assert (Et : take k foot = []) by (apply length_zero_iff_nil; unfold len in *; lia). rewrite Et, app_nil_r. apply step_forget, triple_ret. auto.
Qed.

Lemma resume_active k c n : back c n ->
  triple room (at_disk (ldsk None (Some jbytes) (Some (image0 ++ take k foot)) None c n) (lcatalog_at s0)) (resumeJournalSeal (old_header s0) oldsum)
    (fun _ => at_disk (ldsk None (Some jbytes) None (Some image1) c n) (lcatalog_at s0)) lstopped.
Proof.
  intros Hb. pose proof (fun k => lp_journaled _ _ _ _ (fr_active k) Hb) as Hp. destruct (old_header_ok s0 recs R) as [Hu Hv]. pose proof (Hp 0%nat) as Hp0. cbn [take] in Hp0. rewrite app_nil_r in Hp0.
  unfold resumeJournalSeal. change (sh_SegmentID (old_header s0)) with id. apply step_test; [apply Hp|]. apply step_test; [apply Hp|].
  replace (ldsk _ _ _ _ _ _ !! LActive id) with (Some (image0 ++ take k foot)) by disk_at. replace (ldsk _ _ _ _ _ _ !! LSealed id) with (@None (list Z)) by disk_at.
  rewrite bool_decide_eq_true_2 by eauto. rewrite (bool_decide_eq_false_2 (is_Some None)) by (intros [? ?]; discriminate). cbn [andb negb].
  eapply step_seq; [apply (cut_source_phase k c n Hb)|]. intros ?.
  eapply step_seq; [apply (open_clean_phase (old_header s0) recs _ _ Hp0 Hu Hv (lro_recs _ _ R)); change (sh_SegmentID (old_header s0)) with id; disk_at|]. intros [ac rp]. apply triple_pre. intros o (f & Ho & [= -> ->]).
  assert (Es : summaryLocked (mkActive (Some f) (old_header s0) (64 + body_size recs) (ds_FirstAddr (log_summary (sh_SegmentID (old_header s0)) recs)) (ds_LastAddr (log_summary (sh_SegmentID (old_header s0)) recs)) (len recs) false false) = oldsum) by reflexivity.
  set (ac := mkActive _ _ _ _ _ _ _ _) in *. assert (Hr : rotating ac f) by (repeat split; exact Es). rewrite Es, bool_decide_eq_true_2 by reflexivity. cbn [orb negb]. intros ? <-. unfold seal, io_bind.
  pose proof (prepareSeal_phase ac f (Some jbytes) c n Hr Hp o Ho) as H1. destruct (prepareSeal ac o) as [o1 [sum|e]]; cbn [fst snd] in H1; destruct H1 as [F1 H1].
  2: { destruct H1 as [S1 N1]. unfold fail_ignoring. destruct (close_active_stopped ac o1 S1) as [S2 S3]. destruct (active_close ac o1) as [o2 x2]. cbn in *. auto. }
  destruct H1 as [Hd ->]. pose proof (publish_phase ac f c n Hr o1 Hd) as H2. destruct (publishPreparedSeal ac oldsum o1) as [o2 [[[x1 sl] sum]|e]]; cbn [fst snd] in H2; destruct H2 as [F2 H2].
  - destruct H2 as [[Hd2 _] [= -> -> ->]]. rewrite bool_decide_eq_true_2 by reflexivity. cbn. auto.
  - destruct H2 as [S1 N1]. unfold fail_ignoring. destruct (close_active_stopped ac o2 (half_stopped _ _ _ Hb S1)) as [S2 S3]. destruct (active_close ac o2) as [o3 x3]. cbn in *. split; [auto|]. split; [exact S2|]. intros Hm E. exact (N1 Hm (F1 E)).
Qed.

Lemma resume_sealed c n : back c n ->
  triple room (at_disk (ldsk None (Some jbytes) None (Some image1) c n) (lcatalog_at s0)) (resumeJournalSeal (old_header s0) oldsum)
    (fun _ => at_disk (ldsk None (Some jbytes) None (Some image1) c n) (lcatalog_at s0)) lstopped.
Proof.
  intros Hb. pose proof (lp_journaled _ _ _ _ fr_sealed Hb) as Hp. unfold resumeJournalSeal. change (sh_SegmentID (old_header s0)) with id. apply step_test; [exact Hp|]. apply step_test; [exact Hp|].
  replace (ldsk _ _ _ _ _ _ !! LActive id) with (@None (list Z)) by disk_at. replace (ldsk _ _ _ _ _ _ !! LSealed id) with (Some image1) by disk_at.
  rewrite (bool_decide_eq_false_2 (is_Some None)) by (intros [? ?]; discriminate). rewrite bool_decide_eq_true_2 by eauto. cbn [andb]. apply (open_sealed_phase _ _ Hp). disk_at.
Qed.

Lemma ensure_active_phase c n : back c n ->
  triple room (at_disk (ldsk None (Some jbytes) None (Some image1) c n) (lcatalog_at s0)) (ensureJournalActive (new_header s0)) (fun _ => at_disk made (lcatalog_at s0)) lstopped.
Proof.
  intros Hb. pose proof (lp_journaled _ _ _ _ fr_sealed Hb) as Hp. unfold ensureJournalActive. change (sh_SegmentID (new_header s0)) with nid. apply step_test; [exact Hp|]. destruct Hb as [c|].
  - replace (ldsk _ _ _ _ _ _ !! LActive nid) with (@None (list Z)) by disk_at. rewrite (bool_decide_eq_false_2 (is_Some None)) by (intros [? ?]; discriminate).
    apply (step_remove_any _ _ Hp _ _ (ldsk None (Some jbytes) None (Some image1) None None)); [disk_eq|exact (lp_journaled _ _ _ _ fr_sealed (bk_creating None))|].
    eapply triple_weaken; [apply (create_phase _ _ fr_sealed)|auto| |auto]. intros x o (f & [Ho _] & _). exact Ho.
  - replace (made !! LActive nid) with (Some image2) by disk_at. rewrite bool_decide_eq_true_2 by eauto.
    eapply step_seq; [apply (new_file_open _ _ Hp); disk_at|]. intros [ac rp]. apply triple_pre. intros o (f & [Ho _] & [= -> ->]). cbn [fresh_active summaryLocked ds_ValidEnd as_end]. change (64 =? SegmentHeaderSize) with true. cbn [orb negb].
    apply triple_ret. intros ? <-. exact Ho.
Qed.

Lemma log_load_found d u : lphase d u -> d !! LRotation = Some jbytes -> triple room (at_disk d u) loadRotationJournal (fun found o => at_disk d u o /\ found = Some jrn) lstopped.
Proof.
  intros Hp Hd. unfold loadRotationJournal. apply step_test; [exact Hp|]. rewrite Hd, bool_decide_eq_true_2 by eauto. cbn [negb].
  apply (step_open _ _ Hp _ _ jbytes); [exact Hd|]. intros f. apply (step_data _ _ Hp _ _ _ jbytes); [exact Hd|].
  apply (step_lift _ _ _ jrn); [exact (the_journal_decoded s0 recs R)|]. apply step_forget, triple_ret. auto.
Qed.

Lemma log_load_missing t a s c n u : lphase (ldsk t None a s c n) u -> lphase (ldsk None None a s c n) u ->
  triple room (at_disk (ldsk t None a s c n) u) loadRotationJournal (fun found o => at_disk (ldsk None None a s c n) u o /\ found = None) lstopped.
Proof.
  intros Hp Hq. unfold loadRotationJournal. apply step_test; [exact Hp|]. replace (ldsk _ _ _ _ _ _ !! LRotation) with (@None (list Z)) by disk_at. rewrite (bool_decide_eq_false_2 (is_Some None)) by (intros [? ?]; discriminate). cbn [negb].
  apply (step_seq _ (fun _ => at_disk (ldsk None None a s c n) u)).
  - unfold removeRotationJournalTemp. apply step_test; [exact Hp|]. replace (ldsk _ _ _ _ _ _ !! LRotationTmp) with t by disk_at. destruct t as [b|].
    + rewrite bool_decide_eq_true_2 by eauto. cbn [negb]. apply step_point; [exact Hp|]. apply (step_remove_any _ _ Hp _ _ (ldsk None None a s c n)); [disk_eq|exact Hq|]. apply step_point; [exact Hq|]. apply last_step, Hq.
    + rewrite (bool_decide_eq_false_2 (is_Some None)) by (intros [? ?]; discriminate). cbn [negb]. apply triple_ret. auto.
  - intros ?. apply step_point; [exact Hq|]. apply triple_ret. auto.
Qed.

(** What recovery ends with. *)
Definition log_unrotated (o : os lpath C) : Prop := exists k, at_disk (ldsk None None (Some (image0 ++ take k foot)) None None None) (lcatalog_at s0) o.
Definition log_rotation_done (o : os lpath C) : Prop := at_disk (ldsk None None None (Some image1) None (Some image2)) (lcatalog_at snap1) o.

Lemma log_recover_journaled a s c n : front a s -> back c n ->
  triple room (at_disk (ldsk None (Some jbytes) a s c n) (lcatalog_at s0)) (recoverRotation s0) (fun st o => st = snap1 /\ log_rotation_done o) lstopped.
Proof.
  intros Hf Hb. pose proof (lp_journaled _ _ _ _ Hf Hb) as Hp. unfold recoverRotation. eapply step_seq; [apply (log_load_found _ _ Hp); disk_at|]. intros found. apply triple_pre. intros o [Ho ->].
  apply (triple_from _ _ _ (at_disk (ldsk None (Some jbytes) a s c n) (lcatalog_at s0))); [intros ? <-; exact Ho|]. clear o Ho.
  rewrite (log_not_committed s0 recs R). cbn [log_journal log_rotation_journal lj_BaseGeneration lj_LogID lj_SegmentSize lj_Old lj_NewActive lj_NextSegmentID]. rewrite Z.ltb_irrefl, bool_decide_eq_true_2, Z.eqb_refl by reflexivity. cbn [negb orb].
  change (ds_SegmentID oldsum) with id. rewrite Z.eqb_refl. cbn [negb]. change (log_headerFor s0 id) with (old_header s0). change (log_headerFor s0 nid) with (new_header s0).
  apply (step_seq _ (fun _ => at_disk (ldsk None (Some jbytes) None (Some image1) c n) (lcatalog_at s0))); [destruct Hf as [k|]; [now apply resume_active|now apply resume_sealed]|]. intros sl.
  apply close_sealed_phase; [exact (lp_journaled _ _ _ _ fr_sealed Hb)|]. eapply step_seq; [apply (ensure_active_phase c n Hb)|]. intros ac. apply close_active_phase; [exact (lp_journaled _ _ _ _ fr_sealed bk_created)|].
  eapply step_seq; [apply log_install_phase|]. intros st. apply triple_pre. intros o [Ho ->]. apply (triple_from _ _ _ (at_disk made (lcatalog_at snap1))); [intros ? <-; exact Ho|]. clear o Ho.
  apply (step_lift _ _ _ _ _ (log_result_valid s0 recs R)). eapply step_seq; [apply log_removeJournal_phase|]. intros ?. apply triple_ret. auto.
Qed.

Lemma log_recover_committed : triple room (at_disk made (lcatalog_at snap1)) (recoverRotation snap1) (fun st o => st = snap1 /\ log_rotation_done o) lstopped.
Proof.
  unfold recoverRotation. eapply step_seq; [apply (log_load_found _ _ lp_committed); disk_at|]. intros found. apply triple_pre. intros o [Ho ->].
  apply (triple_from _ _ _ (at_disk made (lcatalog_at snap1))); [intros ? <-; exact Ho|]. clear o Ho.
  rewrite (log_committed s0 recs R). cbn [log_s1 log_rotated log_journal log_rotation_journal ls_Generation ls_LogID ls_SegmentSize lj_BaseGeneration lj_LogID lj_SegmentSize]. replace (_ <? _) with false by (symmetry; apply Z.ltb_ge; lia). rewrite bool_decide_eq_true_2, Z.eqb_refl by reflexivity. cbn [negb orb].
  change (mkLogSnapshot _ _ _ _ _ _ _ _) with snap1. change (mkLogJournal _ _ _ _ _ _) with jrn. eapply step_seq; [apply ensureCommitted_phase|]. intros ?. eapply step_seq; [apply log_removeJournal_phase|]. intros ?. apply triple_ret. auto.
Qed.

(** The snapshot that the process of a phase reads. *)
Lemma log_recover_phase d u : lphase d u ->
  triple room (at_disk d u) (let* st := log_snapshot in recoverRotation st) (fun st o => st = s0 /\ log_unrotated o /\ d !! LRotation = None \/ st = snap1 /\ log_rotation_done o) lstopped.
Proof.
  assert (W : forall d u st, triple room (at_disk d u) (recoverRotation st) (fun st o => st = snap1 /\ log_rotation_done o) lstopped ->
    triple room (at_disk d u) (recoverRotation st) (fun st o => st = s0 /\ log_unrotated o /\ d !! LRotation = None \/ st = snap1 /\ log_rotation_done o) lstopped) by (intros d' u' st HW; eapply triple_weaken; [exact HW|auto| |auto]; auto).
  assert (S : forall d st (o : os lpath C), at_disk d (lcatalog_at st) o -> lp_Snapshot (os_user o) = st) by (intros d' st o [_ _ (_ & H & _)]; exact H).
  intros [t k|a s c n Hf Hb| |]; (apply (log_take_snapshot _ _ _ _ (S _ _))).
  - unfold recoverRotation. eapply step_seq; [apply log_load_missing; apply lp_before|]. intros found. apply triple_pre. intros o [Ho ->]. apply triple_ret. intros ? <-. left. split; [reflexivity|]. split; [exists k; exact Ho|disk_at].
  - apply W, log_recover_journaled; assumption.
  - apply W, log_recover_committed.
  - apply W. unfold recoverRotation. eapply step_seq; [apply log_load_missing; apply lp_done|]. intros found. apply triple_pre. intros o [Ho ->]. apply triple_ret. intros ? <-. auto.
Qed.
End Phases.
