(* ===== verification/CatalogLog.v ===== *)
(** * The catalog behind the record log

    The manager of [CatalogFiles] satisfies the contract that the record log and
    its crash-safe rotation rely on ([LogPortLaws]). *)
From S2P Require Import Prelude Bytes Addr Crc32 RecordFormat RecordCodec MapNode MapSegment Fs FsDisk NodeIface MapStore MapScan MapStoreSpec Catalog CatalogSpec CatalogRebase CatalogCodec CatalogFiles CatalogStore LogSegment LogRotate LogScan LogRotation.

#[export] Instance Manager_log_port : LogPort manager := {
  lp_Snapshot c := recordLogSnapshot (os_user c);
  lp_Install c faults expect sealed active next :=
    let '(c', r) := InstallRecordLogRotation expect sealed active next (refault c faults) in (c', os_faults c', r);
  lp_Reload c := match Load c with Ok m => set_current c m | Err _ => c end }.

Definition rotated_data (m : Manifest) (sum : DataSegmentSummary) (active next : Z) : Manifest :=
  set_data (set_generation m (mf_Generation m + 1)) active next (mf_CompactionFloor m) (sortDataSegments (mf_SealedData m ++ [sum])).

Lemma rotated_log_snapshot m sum active next : recordLogSnapshot (rotated_data m sum active next) = log_rotated (recordLogSnapshot m) sum active next.
Proof. reflexivity. Qed.

(** ** A rotation of the data keeps the manifest valid *)

(** The catalog's own conditions: room in the file, and the replay start and the
    statistics of the segment that is sealed lie within it. *)
Record log_room (m : Manifest) (sum : DataSegmentSummary) : Prop := mkLogRoom {
  rm_file : len (encode_items 1 (manifest_items m)) + 32 <= maxManifestPayload /\ len (mf_SealedData m) < maxManifestPayload / 32;
  rm_replay : pos_SegmentID (mf_ReplayStart m) = mf_ActiveData m -> pos_Offset (mf_ReplayStart m) <= ds_ValidEnd sum;
  rm_stats : Forall (fun st => sst_SegmentID st = mf_ActiveData m -> sst_LiveRecords st <= ds_RecordCount sum /\ sst_LiveBytes st <= ds_ValidEnd sum - 64) (mf_SegmentStats m);
}.

(** The converse of [data_set_sealed]. *)
Lemma sealed_data_set st size segs : ls_SegmentSize st = size -> 160 < size < two32 ->
  forall p, 0 <= p -> log_sealed_ok st p segs = true -> data_set_ok (ls_ActiveSegmentID st) (ls_CompactionSegmentFloor st) size p segs = true.
Proof.
  intros Hs Hb. induction segs as [|s segs IH]; intros p Hp E; [reflexivity|]. cbn [data_set_ok log_sealed_ok] in *. apply andb_true_iff in E as [E Er]. rewrite negb_true_iff, !orb_false_iff, !negb_false_iff in E. destruct E as [[[E1 E2] E3] E4]. apply Z.leb_gt in E1.
  rewrite (IH (ds_SegmentID s)) by (assumption || lia). rewrite andb_true_r. apply andb_true_iff. split.
  - rewrite negb_true_iff, !orb_false_iff, negb_false_iff. repeat split; auto; [apply Z.eqb_neq; lia|apply Z.leb_gt; lia].
  - unfold data_summary_valid, validateSegmentFooter in E4. cbn [sf_SegmentID sf_DataEnd sf_RecordCount sf_FirstAddr sf_LastAddr] in E4. rewrite negb_true_iff, !orb_false_iff, negb_false_iff in E4. destruct E4 as [[F1 F2] F3].
    match type of F2 with (if ?b then _ else _) = _ => destruct b eqn:Eb end; [discriminate|]. rewrite !orb_false_iff in Eb. destruct Eb as [[_ G1] G2]. unfold data_summary_ok. rewrite G1, G2. unfold Addr.SegmentFooterSize in *. rewrite Hs in F3. rewrite Z.mod_small by lia. rewrite F3. cbn [orb negb andb].
    destruct (ds_RecordCount s =? 0); [|exact F2]. rewrite !andb_true_iff in *. tauto.
Qed.

Lemma find_data_ascending l s : ascending l -> s ∈ l -> find_data l (ds_SegmentID s) = Some s.
Proof.
  unfold ascending, find_data. induction 1 as [|x l Hs IH Hf]; intros Hin; [now apply not_elem_of_nil in Hin|]. cbn [List.find]. destruct (ds_SegmentID x =? ds_SegmentID s) eqn:E; bool_norm.
  - apply elem_of_cons in Hin as [->|Hin]; [reflexivity|]. rewrite Forall_forall in Hf. specialize (Hf s Hin). lia.
  - apply elem_of_cons in Hin as [->|Hin]; [congruence|auto].
Qed.

Lemma find_data_inv l id s : find_data l id = Some s -> s ∈ l /\ ds_SegmentID s = id.
Proof. intros E. apply List.find_some in E as [H1 H2]. bool_norm. split; [now apply list_elem_of_In|assumption]. Qed.

Section Rotated.
Context (m : Manifest) (sum : DataSegmentSummary) (active next : Z) (Hu : manifest_u m) (Hs : serves m).
Context (Hi : log_installable (recordLogSnapshot m) (mf_Generation m) sum active next) (Hr : log_room m sum).
Local Abbreviation n := (rotated_data m sum active next).

(** What the sealed segments of the new manifest are. *)
Record sealed_parts : Prop := mkSealedParts {
  sp_set : data_set_ok active (mf_CompactionFloor m) (hl_SegmentSize (mf_HardLimits m)) 0 (mf_SealedData n) = true;
  sp_asc : ascending (mf_SealedData n);
  sp_elem : forall s, s ∈ mf_SealedData n <-> s = sum \/ s ∈ mf_SealedData m;
  sp_ids : active < CompactionSegmentBase /\ active = mf_ActiveData m + 1 /\ next = active + 1 /\ next < two32 /\ ds_SegmentID sum = mf_ActiveData m;
}.

Lemma sealed_parts_of : sealed_parts.
Proof.
  destruct Hs as [Hv _]. destruct (manifest_facts_of m Hv) as [_ _ (F3 & F4 & _) Fl Fd _ _ _]. pose proof (mu_limits _ Hu) as Hl. unfold limits_of in Hl. apply Forall_cons in Hl as [Hsz _]. destruct (limits_size _ Fl Hsz) as (S1 & S2 & S3).
  destruct Hi as [[_ Hg] (I1 & I2 & I3 & I4) Iv]. cbn in I1, I2. rewrite <- rotated_log_snapshot in Iv. unfold log_snapshot_valid in Iv. rewrite !andb_true_iff in Iv. destruct Iv as [[[Iv _] _] Is]. rewrite negb_true_iff, !orb_false_iff in Iv.
  destruct Iv as [[[[[[[_ _] _] _] V5] _] _] _]. apply Z.leb_gt in V5. cbn in V5. cbn [recordLogSnapshot ls_SealedSegments] in Is.
  destruct (manifest_split m Hv) as (A1 & A2 & _). destruct (mu_ids _ Hu) as (U1 & _). unfold is_u32, CompactionSegmentBase in *.
  assert (Hsize : ls_SegmentSize (recordLogSnapshot n) = hl_SegmentSize (mf_HardLimits m)) by (apply Z.mod_small; lia).
  assert (Hset : data_set_ok active (mf_CompactionFloor m) (hl_SegmentSize (mf_HardLimits m)) 0 (mf_SealedData n) = true) by (apply (sealed_data_set (recordLogSnapshot n)); auto; lia).
  constructor; [exact Hset| | |].
  - apply data_set_split in Hset as (H & _); [exact H|unfold CompactionSegmentBase; lia].
  - intros s. cbn [rotated_data set_data mf_SealedData]. rewrite sort_elem, elem_of_app, list_elem_of_singleton. tauto.
  - rewrite Z.mod_small in A2 by lia. unfold CompactionSegmentBase. lia.
Qed.

(** No id of the old manifest is that of the new active segment. *)
Lemma old_id_differs s : s ∈ mf_SealedData m -> ds_SegmentID s <> active.
Proof.
  destruct sealed_parts_of as [_ _ _ (P1 & P2 & _)]. destruct Hs as [Hv _]. destruct (manifest_split m Hv) as (_ & _ & _ & N & O & -> & HN & HO). intros Hin. apply elem_of_app in Hin as [Hin|Hin].
  - rewrite Forall_forall in HN. specialize (HN s Hin). unfold normal in HN. lia.
  - rewrite Forall_forall in HO. specialize (HO s Hin). unfold output in HO. lia.
Qed.

Lemma stat_ok_rotated st : st ∈ mf_SegmentStats m -> stat_ok m st = true -> stat_ok n st = true.
Proof.
  destruct sealed_parts_of as [_ Pa Pe (P1 & P2 & P3 & P4 & P5)]. intros Hin E. pose proof (rm_stats _ _ Hr) as Hst. rewrite Forall_forall in Hst. specialize (Hst st Hin). unfold stat_ok in *. change (mf_ActiveData n) with active.
  destruct (sst_SegmentID st =? mf_ActiveData m) eqn:Ea; bool_norm.
  - replace (sst_SegmentID st =? active) with false by (symmetry; apply Z.eqb_neq; lia). rewrite Ea, <- P5, (find_data_ascending _ sum Pa) by (apply Pe; auto). destruct (Hst Ea) as [HS1 HS2].
    destruct Hi as [_ _ Iv].
    assert (Hb : 64 <= ds_ValidEnd sum < two32).
    { pose proof (sp_set sealed_parts_of) as Hset. assert (Hx : forall l p, data_set_ok active (mf_CompactionFloor m) (hl_SegmentSize (mf_HardLimits m)) p l = true -> sum ∈ l -> data_summary_ok (hl_SegmentSize (mf_HardLimits m)) sum = true).
      { clear. induction l as [|y l IH]; intros p E Hin; [now apply not_elem_of_nil in Hin|]. cbn [data_set_ok] in E. rewrite !andb_true_iff in E. destruct E as [[_ E1] E2]. apply elem_of_cons in Hin as [->|Hin]; eauto. }
      specialize (Hx _ _ Hset ltac:(apply Pe; auto)). unfold data_summary_ok in Hx. apply andb_true_iff in Hx as [Hx _]. rewrite negb_true_iff, !orb_false_iff in Hx. destruct Hx as [[X1 X2] _]. unfold Addr.SegmentHeaderSize, Addr.SegmentFooterSize in *. apply Z.ltb_ge in X1, X2.
      destruct Hs as [Hv _]. destruct (manifest_facts_of m Hv) as [_ _ _ Fl _ _ _ _]. pose proof (mu_limits _ Hu) as Hl. unfold limits_of in Hl. apply Forall_cons in Hl as [Hsz _]. destruct (limits_size _ Fl Hsz) as (S1 & S2 & S3). rewrite Z.mod_small in X2 by lia. lia. }
    unfold Addr.SegmentHeaderSize. rewrite Z.mod_small by lia. rewrite negb_true_iff, orb_false_iff, !Z.ltb_ge. lia.
  - destruct (find_data (mf_SealedData m) (sst_SegmentID st)) as [s|] eqn:Ef; [|discriminate]. apply find_data_inv in Ef as [Hs1 Hs2]. pose proof (old_id_differs s Hs1) as Hd. replace (sst_SegmentID st =? active) with false by (symmetry; apply Z.eqb_neq; congruence).
    rewrite <- Hs2, (find_data_ascending _ s Pa) by (apply Pe; auto). exact E.
Qed.

Lemma stats_live_rotated stats : Forall (fun st => st ∈ mf_SegmentStats m) stats -> forall p live r, stats_live m p live stats = Some r -> stats_live n p live stats = Some r.
Proof.
  induction 1 as [|st stats Hin _ IH]; intros p live r E; [exact E|]. cbn [stats_live] in *. destruct (_ || _); [discriminate|]. destruct (_ || _); [discriminate|]. destruct (stat_ok m st) eqn:Eo; [|discriminate]. rewrite (stat_ok_rotated st Hin Eo). auto.
Qed.

Lemma rotated_data_set : validateDataSet n = true.
Proof.
  destruct sealed_parts_of as [Ps Pa Pe (P1 & P2 & P3 & P4 & P5)]. destruct Hs as [Hv _]. destruct (manifest_facts_of m Hv) as [_ _ (F3 & F4 & _) Fl Fd _ _ _]. unfold validateDataSet in *. apply andb_true_iff in Fd as [Fd Fr]. apply andb_true_iff in Fd as [Fd _].
  rewrite negb_true_iff, !orb_false_iff in Fd. destruct Fd as [[_ _] Fc]. change (mf_ActiveData n) with active. change (mf_NextData n) with next. change (mf_CompactionFloor n) with (mf_CompactionFloor m). change (mf_HardLimits n) with (mf_HardLimits m). change (mf_ReplayStart n) with (mf_ReplayStart m).
  rewrite Ps, Fc. replace (CompactionSegmentBase <=? active) with false by (symmetry; apply Z.leb_gt; lia). replace (next =? (active + 1) mod two32) with true by (symmetry; apply Z.eqb_eq; rewrite Z.mod_small by (unfold CompactionSegmentBase in *; destruct (mu_ids _ Hu) as (U & _); unfold is_u32 in U; lia); lia). cbn [orb negb andb].
  destruct (pos_SegmentID (mf_ReplayStart m) =? mf_ActiveData m) eqn:Ea; bool_norm.
  - replace (pos_SegmentID (mf_ReplayStart m) =? active) with false by (symmetry; apply Z.eqb_neq; lia). rewrite Ea, <- P5, (find_data_ascending _ sum Pa) by (apply Pe; auto). apply Z.leb_le, (rm_replay _ _ Hr), Ea.
  - destruct (find_data (mf_SealedData m) _) as [s|] eqn:Ef; [|discriminate]. apply find_data_inv in Ef as [Hs1 Hs2]. pose proof (old_id_differs s Hs1) as Hd. replace (pos_SegmentID (mf_ReplayStart m) =? active) with false by (symmetry; apply Z.eqb_neq; congruence).
    rewrite <- Hs2, (find_data_ascending _ s Pa) by (apply Pe; auto). exact Fr.
Qed.

Lemma insert_data_length x l : length (insert_data x l) = S (length l).
Proof. induction l as [|y l IH]; [reflexivity|]. cbn [insert_data]. destruct (_ <? _); cbn [length]; congruence. Qed.

Lemma sealed_count : len (mf_SealedData n) = len (mf_SealedData m) + 1.
Proof.
  cbn [rotated_data set_data mf_SealedData set_generation]. enough (E : forall l, len (sortDataSegments l) = len l) by (rewrite E, len_app; reflexivity). intros l. unfold len, sortDataSegments. f_equal. induction l as [|x l IH]; [reflexivity|]. cbn [foldr]. rewrite insert_data_length, IH. reflexivity.
Qed.

Lemma rotated_data_ok : manifest_ok n = true.
Proof.
  pose proof rotated_data_set as Hd. destruct sealed_parts_of as [Ps Pa Pe (P1 & P2 & P3 & P4 & P5)]. pose proof sealed_count as Hc. destruct (rm_file _ _ Hr) as [_ R2]. destruct Hi as [[_ Hg] _ _]. pose proof (mu_gen _ Hu) as Hgu. unfold is_u64 in Hgu. destruct Hs as [Hv _].
  destruct (manifest_facts_of m Hv) as [_ _ (F3 & F4 & _) _ _ _ _ _]. destruct (mu_ids _ Hu) as (U1 & _). unfold is_u32 in U1. pose proof Hv as Hv'. unfold manifest_ok in Hv' |- *. rewrite Hd, Hc. rewrite !andb_true_iff in Hv' |- *. destruct Hv' as [[[[[[L1 L2] L3] L4] L5] L6] L7].
  rewrite negb_true_iff, !orb_false_iff in L1. destruct L1 as [[[[[[[_ Q2] Q3] _] _] Q6] Q7] Q8]. rewrite negb_true_iff, !orb_false_iff in L3. destruct L3 as [[[_ Q10] Q11] Q12].
  repeat split; auto.
  - rewrite negb_true_iff, !orb_false_iff. repeat split; auto; [apply Z.eqb_neq; cbn; lia|apply Z.eqb_neq; cbn; lia|apply Z.leb_gt; cbn; lia].
  - rewrite negb_true_iff, !orb_false_iff. repeat split; auto. apply Z.ltb_ge. lia.
  - destruct (stats_live m 0 0 (mf_SegmentStats m)) as [live|] eqn:El; [|discriminate]. change (mf_SegmentStats n) with (mf_SegmentStats m). rewrite (stats_live_rotated (mf_SegmentStats m) ltac:(apply Forall_forall; auto) 0 0 live El). exact L7.
Qed.

Lemma data_item_len segs : len (encodeDataSegments segs) = 8 + 32 * len segs.
Proof.
  unfold encodeDataSegments. rewrite !len_app, len_put_le, len_zeros. assert (E : len (concat (map encodeData segs)) = 32 * len segs); [|lia].
  induction segs as [|s segs IH]; [reflexivity|]. cbn [map concat]. rewrite len_app, len_cons, IH. unfold encodeData. rewrite !len_app, !len_put_le. lia.
Qed.

Lemma rotated_data_encodes : exists encoded, Encode n = Ok encoded.
Proof.
  unfold Encode, Validate. rewrite rotated_data_ok. cbn [negb]. destruct (payload_fits (manifest_items n) 0 1) as [r ->]; [lia| |eauto]. destruct (rm_file _ _ Hr) as [R1 _].
  enough (E : len (encode_items 1 (manifest_items n)) = len (encode_items 1 (manifest_items m)) + 32) by lia.
  unfold manifest_items. cbn [encode_items]. rewrite !len_app, !len_item, !data_item_len, sealed_count. cbn [rotated_data set_data set_generation mf_HardLimits mf_RecordLogID mf_ActiveData mf_NextData mf_ActiveMap mf_NextMap mf_SealedMap mf_MappingRoot mf_OpenBatchIDsAtCut mf_StatsCoveredCommitSeq mf_SegmentStats mf_MappingEntryCount mf_CompactionFloor].
  unfold encodePair32. rewrite !len_app, !len_put_le. replace (8 + 32 * (len (mf_SealedData m) + 1)) with (8 + 32 * len (mf_SealedData m) + 32) by lia.
  assert (Ea : forall x, align8 (x + 32) = align8 x + 32) by (intros x; unfold align8; rewrite !ldiff_7; dlia). rewrite Ea. change (encodeCheckpoint n) with (encodeCheckpoint m). lia.
Qed.

Lemma rotated_data_accepted : InstallDataRotation m (mf_Generation m) (mkDataRotation sum active next) = Ok n.
Proof.
  pose proof rotated_data_ok as Hok. destruct sealed_parts_of as [_ _ _ (P1 & P2 & P3 & P4 & P5)]. destruct Hi as [[_ Hg] (_ & I2 & _) _]. cbn in I2. unfold CompactionSegmentBase in *. pose proof (mu_ids _ Hu) as (U1 & _). unfold is_u32 in U1.
  unfold InstallDataRotation, install, apply_data_rotation. cbn [dr_SealedOld dr_NewActive dr_NextID set_generation mf_ActiveData mf_NextData]. rewrite Z.eqb_refl. replace (mf_Generation m =? MaxUint64) with false by (symmetry; apply Z.eqb_neq; lia). cbn [negb].
  rewrite P5, <- I2, !Z.eqb_refl. replace (next =? _) with true by (symmetry; apply Z.eqb_eq; rewrite Z.mod_small by lia; lia). replace (active =? MaxUint32) with false by (symmetry; apply Z.eqb_neq; lia). cbn [negb orb].
  change (set_data _ _ _ _ _) with n. unfold Validate. rewrite Hok. reflexivity.
Qed.
End Rotated.

Lemma data_rotation_result m gen sum active next n : InstallDataRotation m gen (mkDataRotation sum active next) = Ok n -> n = rotated_data m sum active next /\ mf_Generation m <> MaxUint64.
Proof. intros E. apply install_inv in E as (E & _ & _ & Hg). unfold apply_data_rotation in E. inv_ok E. apply Ok_inj in E. split; [symmetry; exact E|exact Hg]. Qed.

Lemma rotated_data_u m sum active next : manifest_u m -> mf_Generation m <> MaxUint64 -> data_u sum -> is_u32 active -> is_u32 next -> manifest_u (rotated_data m sum active next).
Proof.
  intros Hu Hg H1 H3 H4. pose proof (mu_gen _ Hu) as Hgen. pose proof (mu_data _ Hu) as Hd. destruct Hu. constructor; cbn; try assumption; [unfold is_u64 in *; lia|tauto|]. rewrite Forall_forall in *. intros s Hs. apply sort_elem, elem_of_app in Hs as [Hs|Hs]; [auto|]. apply list_elem_of_singleton in Hs as ->. exact H1.
Qed.

Lemma log_range m : manifest_u m -> log_snapshot_u (recordLogSnapshot m).
Proof. intros Hu. destruct (mu_ids _ Hu) as (U1 & U2 & _). constructor; cbn; [apply (mu_log _ Hu)|apply (mu_gen _ Hu)|]. split; [|auto]. unfold is_u32. apply Z.mod_pos_bound. lia. Qed.

(** ** The contract *)

Lemma log_install_cases c fs gen sum active next : manager_ok c -> data_u sum -> is_u32 active -> is_u32 next ->
  let '(c', r) := InstallRecordLogRotation gen sum active next (refault c fs) in
  manager_ok c' /\ (fs = [] -> os_faults c' = []) /\
  match r with
  | Ok s => s = recordLogSnapshot (os_user c') /\ os_user c' = rotated_data (os_user c) sum active next /\ Load c' = Ok (os_user c')
  | Err _ => os_user c' = os_user c /\ (Load c' = Load c \/ Load c' = Ok (rotated_data (os_user c) sum active next)) /\
             (fs <> [] \/ ~ (log_installable (recordLogSnapshot (os_user c)) gen sum active next /\ log_room (os_user c) sum))
  end.
Proof.
  intros Hc H1 H3 H4. pose proof Hc as [_ Hu Hs _ _]. set (tr := fun m => InstallDataRotation m gen (mkDataRotation sum active next)).
  assert (Htr : forall n, tr (os_user c) = Ok n -> manifest_u n /\ transition (os_user c) n).
  { intros n E. split; [|exact (tr_data_rotation _ gen (mkDataRotation sum active next) n E)]. destruct (data_rotation_result _ _ _ _ _ _ E) as [-> Hg]. now apply rotated_data_u. }
  pose proof (update_cases c fs tr Hc Htr) as H. unfold InstallRecordLogRotation, io_bind. change (fun m => no_result (InstallDataRotation m gen _)) with (fun m => no_result (tr m)).
  destruct (Manager_update _ (refault c fs)) as [c' [[n x]|e]]; cbn [io_ret]; destruct H as (I1 & I2 & I3); (split; [exact I1|split; [exact I2|]]).
  - destruct I3 as (-> & E & L). destruct (data_rotation_result _ _ _ _ _ _ E) as [-> _]. auto.
  - destruct I3 as (J1 & J2 & J3). split; [exact J1|]. split.
    + destruct J2 as [J2|(n & E & J2)]; [auto|]. destruct (data_rotation_result _ _ _ _ _ _ E) as [-> _]. auto.
    + destruct J3 as [J3|J3]; [auto|]. right. intros [Hi Hr]. apply J3. pose proof Hi as [[Eg _] _ _]. cbn in Eg. unfold tr. rewrite Eg in Hi |- *. destruct (rotated_data_encodes (os_user c) sum active next Hu Hs Hi Hr) as [y Ey]. exists (rotated_data (os_user c) sum active next), y. split; [now apply rotated_data_accepted|exact Ey].
Qed.

Lemma log_reload_set c m : Load c = Ok m -> lp_Reload c = set_current c m.
Proof. intros E. cbn. now rewrite E. Qed.

#[export] Instance Manager_log_laws : LogPortLaws manager.
Proof.
  unshelve econstructor; [exact manager_ok|exact (fun c => log_room (os_user c))|..].
  - intros c Hc. apply log_range, (mo_range _ Hc).
  - intros c Hc. destruct (mo_load _ Hc) as (m & L1 & L2 & L3 & L4 & L5). rewrite (log_reload_set c m L1). assert (El : Load (set_current c m) = Ok m) by exact L1. split; [now apply set_current_ok|].
    split; [now rewrite (log_reload_set _ m El)|]. intros sum Hr Es. destruct L5 as [->|L5]; [exact Hr|]. apply (f_equal ls_Generation) in Es. cbn in Es. lia.
  - intros c fs gen sum active next c' fs' r Hc H1 H3 H4 E. cbn in E. assert (Hd : data_u sum) by (unfold data_u; unfold segmentFooter_u in H1; cbn in H1; tauto). pose proof (log_install_cases c fs gen sum active next Hc Hd H3 H4) as Hi. destruct (InstallRecordLogRotation _ _ _ _ _) as [c1 r1]. injection E as <- <- <-. destruct Hi as (I1 & I2 & I3). split; [exact I1|]. split; [exact I2|].
    destruct r1 as [s|e].
    + destruct I3 as (J1 & J2 & J3). split; [exact J1|]. split; [rewrite J1, J2; apply rotated_log_snapshot|]. rewrite (log_reload_set _ _ J3), J1. reflexivity.
    + destruct I3 as (J1 & J2 & J3). cbn [lp_Snapshot Manager_log_port]. rewrite J1. split; [reflexivity|]. split; [|split; [auto|exact J3]]. destruct (mo_load _ Hc) as (m & L1 & _). rewrite (log_reload_set c m L1). destruct J2 as [J2|J2].
      * left. rewrite L1 in J2. now rewrite (log_reload_set c1 m J2).
      * right. rewrite (log_reload_set c1 _ J2). cbn. apply rotated_log_snapshot.
Defined.
