(* ===== verification/LogRegistry.v ===== *)
(** * The segment registry of the record log

    Models [internal/recordlog/registry.go].  The code keeps a map from segment ids
    to entries that are shared with the pins of readers, so the model has a heap
    of entries: the map holds locations, a pin holds a location, and an entry that
    has left the map is still on the heap.  The channel that wakes waiters is
    replaced whenever it is closed; [rg_changed] counts these replacements, and a
    waiter remembers the number it has seen.  A method is one step under the
    registry's mutex. *)
From S2P Require Import Prelude Bytes Addr RecordFormat Fs Catalog LogSegment.

Inductive segmentState := segmentActive | segmentSealed | segmentRetiring.
#[export] Instance segmentState_eq_dec : EqDecision segmentState.
Proof. solve_decision. Defined.

Record registryEntry := mkEntry { re_state : segmentState; re_active : option activeSegment; re_sealed : option sealedSegment; re_pins : Z }.

(** [rg_entries] is empty after [close]. *)
Record segmentRegistry := mkRegistry
  { rg_heap : gmap nat registryEntry; rg_fresh : nat; rg_entries : gmap Z nat; rg_active : Z; rg_changed : nat; rg_closed : bool }.

(** A pin is released once; then the code forgets registry and entry. *)
Record segmentPin := mkPin { pn_id : Z; pn_entry : nat; pn_released : bool }.

(** What a loop that waits for the registry sees in one turn. *)
Inductive attempt (A : Type) := Return (r : res A) | Wait (changed : nat).
Arguments Return {A} r.
Arguments Wait {A} changed.

(** [r.entries[id]], dereferenced *)
Definition entry_at (r : segmentRegistry) (id : Z) : option (nat * registryEntry) :=
  match rg_entries r !! id with
  | None => None
  | Some l => match rg_heap r !! l with Some e => Some (l, e) | None => None end
  end.

Definition set_entry (r : segmentRegistry) (l : nat) (e : registryEntry) : segmentRegistry :=
  mkRegistry (<[l := e]> (rg_heap r)) (rg_fresh r) (rg_entries r) (rg_active r) (rg_changed r) (rg_closed r).
(** [r.entries[id] = &registryEntry{...}] *)
Definition add_entry (r : segmentRegistry) (id : Z) (e : registryEntry) : segmentRegistry :=
  mkRegistry (<[rg_fresh r := e]> (rg_heap r)) (S (rg_fresh r)) (<[id := rg_fresh r]> (rg_entries r)) (rg_active r) (rg_changed r) (rg_closed r).
Definition set_active_id (r : segmentRegistry) (id : Z) : segmentRegistry :=
  mkRegistry (rg_heap r) (rg_fresh r) (rg_entries r) id (rg_changed r) (rg_closed r).
Definition signalLocked (r : segmentRegistry) : segmentRegistry :=
  mkRegistry (rg_heap r) (rg_fresh r) (rg_entries r) (rg_active r) (S (rg_changed r)) (rg_closed r).

Definition set_pins (e : registryEntry) (n : Z) : registryEntry := mkEntry (re_state e) (re_active e) (re_sealed e) n.
Definition set_state (e : registryEntry) (s : segmentState) : registryEntry := mkEntry s (re_active e) (re_sealed e) (re_pins e).
(** [entry.pins++] *)
Definition take_pin (r : segmentRegistry) (l : nat) (e : registryEntry) : segmentRegistry := set_entry r l (set_pins e ((re_pins e + 1) mod two64)).

(** The loop of [newSegmentRegistry] over the sealed segments. *)
Fixpoint add_sealed (r : segmentRegistry) (sealed : list sealedSegment) : res segmentRegistry :=
  match sealed with
  | [] => Ok r
  | item :: rest =>
      let id := sh_SegmentID (sl_header item) in
      raise [recordlog_ErrInvalidConfig] when negb (bool_decide (is_Some (sl_file item))) || (id =? rg_active r) ;;
      raise [recordlog_ErrInvalidConfig] when bool_decide (is_Some (rg_entries r !! id)) ;;
      add_sealed (add_entry r id (mkEntry segmentSealed None (Some item) 0)) rest
  end.

Definition newSegmentRegistry (active : activeSegment) (sealed : list sealedSegment) : res segmentRegistry :=
  let id := sh_SegmentID (as_header active) in
  raise [recordlog_ErrInvalidConfig] when negb (bool_decide (is_Some (as_file active))) || (id =? 0) ;;
  add_sealed (add_entry (mkRegistry ∅ 0 ∅ id 0 false) id (mkEntry segmentActive (Some active) None 0)) sealed.

(** ** Pins *)

Definition pin (r : segmentRegistry) (id : Z) : res (segmentRegistry * segmentPin) :=
  raise [recordlog_ErrInvalidVAddr] when id =? 0 ;;
  raise [recordlog_ErrClosed] when rg_closed r ;;
  match entry_at r id with
  | None => Err [recordlog_ErrSegmentMissing]
  | Some (l, e) =>
      raise [recordlog_ErrSegmentRetiring] when bool_decide (re_state e = segmentRetiring) ;;
      Ok (take_pin r l e, mkPin id l false)
  end.

(** One turn of the loop of [pinSealed]. *)
Definition pinSealed (r : segmentRegistry) (id : Z) : attempt (segmentRegistry * segmentPin) :=
  if id =? 0 then Return (Err [recordlog_ErrInvalidVAddr])
  else if rg_closed r then Return (Err [recordlog_ErrClosed])
  else match entry_at r id with
  | None => Return (Err [recordlog_ErrSegmentMissing])
  | Some (l, e) =>
      match re_state e with
      | segmentSealed =>
          if bool_decide (is_Some (re_sealed e)) then Return (Ok (take_pin r l e, mkPin id l false)) else Return (Err [recordlog_ErrInvalidConfig])
      | segmentRetiring => Return (Err [recordlog_ErrSegmentRetiring])
      | segmentActive => Wait (rg_changed r)
      end
  end.

(** The second loop of [pinSnapshot]. *)
Fixpoint pin_all (r : segmentRegistry) (ids : list Z) : segmentRegistry * list segmentPin :=
  match ids with
  | [] => (r, [])
  | id :: rest =>
      match entry_at r id with
      | None => pin_all r rest
      | Some (l, e) => let '(r', pins) := pin_all (take_pin r l e) rest in (r', mkPin id l false :: pins)
      end
  end.

Definition entry_retiring (r : segmentRegistry) (l : nat) : bool := match rg_heap r !! l with Some e => bool_decide (re_state e = segmentRetiring) | None => false end.

Definition pinSnapshot (r : segmentRegistry) : res (segmentRegistry * list segmentPin) :=
  raise [recordlog_ErrClosed] when rg_closed r ;;
  let entries := map_to_list (rg_entries r) in
  raise [recordlog_ErrSegmentRetiring] when existsb (fun e => entry_retiring r e.2) entries ;;
  Ok (pin_all r (merge_sort Z.le (map fst entries))).

Definition pin_release (r : segmentRegistry) (p : segmentPin) : res (segmentRegistry * segmentPin) :=
  raise [recordlog_ErrClosed] when pn_released p ;;
  match entry_at r (pn_id p) with
  | None => Err [recordlog_ErrCorrupt]
  | Some (l, e) =>
      raise [recordlog_ErrCorrupt] when negb (l =? pn_entry p)%nat || (re_pins e =? 0) ;;
      Ok (signalLocked (set_entry r l (set_pins e (re_pins e - 1))), mkPin (pn_id p) (pn_entry p) true)
  end.

(** ** Publishing *)

Definition publishRotation (r : segmentRegistry) (oldID : Z) (sealed : sealedSegment) (active : activeSegment) : res segmentRegistry :=
  let newID := sh_SegmentID (as_header active) in
  raise [recordlog_ErrInvalidConfig] when
    negb (sh_SegmentID (sl_header sealed) =? oldID) || negb (sh_PreviousSegment (as_header active) =? oldID) ||
    negb (bool_decide (is_Some (sl_file sealed))) || negb (bool_decide (is_Some (as_file active))) ;;
  raise [recordlog_ErrClosed] when rg_closed r ;;
  match entry_at r oldID with
  | None => Err [recordlog_ErrInvalidConfig]
  | Some (l, e) =>
      match re_active e with
      | None => Err [recordlog_ErrInvalidConfig]
      | Some old =>
          raise [recordlog_ErrInvalidConfig] when negb (rg_active r =? oldID) || negb (bool_decide (re_state e = segmentActive)) ;;
          raise [recordlog_ErrInvalidConfig] when bool_decide (is_Some (rg_entries r !! newID)) ;;
          let! _ := transferSealedOwnership old sealed in
          Ok (signalLocked (set_active_id (add_entry (set_entry r l (mkEntry segmentSealed None (Some sealed) (re_pins e))) newID (mkEntry segmentActive (Some active) None 0)) newID))
      end
  end.

Definition output_refused (r : segmentRegistry) (s : sealedSegment) : bool :=
  negb (bool_decide (is_Some (sl_file s))) || negb (IsCompactionSegment (sh_SegmentID (sl_header s))) || bool_decide (is_Some (rg_entries r !! sh_SegmentID (sl_header s))).

Definition publishSealed (r : segmentRegistry) (segments : list sealedSegment) : res segmentRegistry :=
  raise [recordlog_ErrInvalidConfig] when rg_closed r || (len segments =? 0) ;;
  raise [recordlog_ErrInvalidConfig] when existsb (output_refused r) segments ;;
  Ok (signalLocked (foldl (fun r s => add_entry r (sh_SegmentID (sl_header s)) (mkEntry segmentSealed None (Some s) 0)) r segments)).

(** ** Retiring *)

Definition beginRetire (r : segmentRegistry) (id : Z) : res segmentRegistry :=
  raise [recordlog_ErrClosed] when rg_closed r ;;
  match entry_at r id with
  | None => Err [recordlog_ErrSegmentMissing]
  | Some (l, e) =>
      if bool_decide (re_state e = segmentRetiring) then Ok r
      else
        raise [recordlog_ErrInvalidConfig] when negb (bool_decide (re_state e = segmentSealed)) || negb (bool_decide (is_Some (re_sealed e))) ;;
        Ok (signalLocked (set_entry r l (set_state e segmentRetiring)))
  end.

Definition cancelRetire (r : segmentRegistry) (id : Z) : res segmentRegistry :=
  raise [recordlog_ErrClosed] when rg_closed r ;;
  match entry_at r id with
  | None => Err [recordlog_ErrSegmentMissing]
  | Some (l, e) =>
      raise [recordlog_ErrInvalidConfig] when negb (bool_decide (re_state e = segmentRetiring)) ;;
      Ok (signalLocked (set_entry r l (set_state e segmentSealed)))
  end.

(** One turn of the loop of [waitNoReaders]. *)
Definition waitNoReaders (r : segmentRegistry) (id : Z) : attempt unit :=
  match entry_at r id with
  | None => Return (Err [recordlog_ErrSegmentMissing])
  | Some (_, e) =>
      if negb (bool_decide (re_state e = segmentRetiring)) then Return (Err [recordlog_ErrInvalidConfig])
      else if re_pins e =? 0 then Return (Ok tt)
      else Wait (rg_changed r)
  end.

Definition detachRetired (r : segmentRegistry) (id : Z) : res (segmentRegistry * sealedSegment) :=
  match entry_at r id with
  | None => Err [recordlog_ErrSegmentMissing]
  | Some (_, e) =>
      match re_sealed e with
      | None => Err [recordlog_ErrInvalidConfig]
      | Some sealed =>
          raise [recordlog_ErrInvalidConfig] when negb (bool_decide (re_state e = segmentRetiring)) ;;
          raise [recordlog_ErrReadersActive] when negb (re_pins e =? 0) ;;
          Ok (signalLocked (mkRegistry (rg_heap r) (rg_fresh r) (delete id (rg_entries r)) (rg_active r) (rg_changed r) (rg_closed r)), sealed)
      end
  end.

(** ** Closing *)

Definition close_begin (r : segmentRegistry) : res segmentRegistry :=
  raise [recordlog_ErrClosed] when rg_closed r ;;
  Ok (mkRegistry (rg_heap r) (rg_fresh r) (rg_entries r) (rg_active r) (rg_changed r) true).

Definition entry_pinned (r : segmentRegistry) (l : nat) : bool := match rg_heap r !! l with Some e => negb (re_pins e =? 0) | None => false end.

(** One turn of the loop of [close]; the result is the detached entries, which are
    closed outside the mutex. *)
Definition close_turn (r : segmentRegistry) : attempt (segmentRegistry * list registryEntry) :=
  let locations := map snd (map_to_list (rg_entries r)) in
  if existsb (entry_pinned r) locations then Wait (rg_changed r)
  else Return (Ok (signalLocked (mkRegistry (rg_heap r) (rg_fresh r) ∅ (rg_active r) (rg_changed r) (rg_closed r)), omap (fun l => rg_heap r !! l) locations)).

Section Reading.
Context {C : Type}.
Abbreviation lio := (io lpath C).

(** Closing the detached entries; every one is closed, the errors are joined. *)
Fixpoint close_entries (entries : list registryEntry) (o : os lpath C) : os lpath C * goerror :=
  match entries with
  | [] => (o, [])
  | e :: rest =>
      let '(o, e1) := match re_active e with Some s => let '(o, (_, c)) := active_close s o in (o, default [] c) | None => (o, []) end in
      let '(o, e2) := match re_sealed e with Some s => let '(o, (_, c)) := sealed_close s o in (o, default [] c) | None => (o, []) end in
      let '(o, e3) := close_entries rest o in (o, e1 ++ e2 ++ e3)
  end.

Definition pin_read (r : segmentRegistry) (p : segmentPin) (addr : Z) : lio (list Z) :=
  if pn_released p then io_fail [recordlog_ErrClosed]
  else if negb (SegmentID addr =? pn_id p) then io_fail [recordlog_ErrInvalidVAddr]
  else match rg_heap r !! pn_entry p with
  | None => io_fail [recordlog_ErrSegmentMissing]
  | Some e =>
      match re_active e, re_sealed e with
      | Some s, _ => active_read s addr
      | None, Some s => sealed_read s addr
      | None, None => io_fail [recordlog_ErrSegmentMissing]
      end
  end.

Definition scanSealed (r : segmentRegistry) (p : segmentPin) (start : Z) : lio (list LogRecord) :=
  if pn_released p then io_fail [recordlog_ErrClosed]
  else match rg_heap r !! pn_entry p with
  | None => io_fail [recordlog_ErrInvalidConfig]
  | Some e =>
      match re_state e, re_sealed e with
      | segmentSealed, Some s => sealed_scan s start
      | _, _ => io_fail [recordlog_ErrInvalidConfig]
      end
  end.
End Reading.
