(* ===== verification/LogRegistrySpec.v ===== *)
(** * Pins protect segments

    The registry and the readers that hold pins, as a step relation.  A segment
    with a live pin stays in the registry until the pin is released, the release of
    a live pin never fails, and no waiter misses the change it waits for. *)
From S2P Require Import Prelude Bytes Addr RecordFormat Fs Catalog LogSegment LogRegistry.

(** The registry and the pins that have not been released. *)
Record shelf := mkShelf { sf_reg : segmentRegistry; sf_pins : list segmentPin }.

(** Fewer than 2^64 pins exist at a time. *)
Definition pins_fit (pins : list segmentPin) : Prop := Z.of_nat (length pins) < two64.

Inductive shelf_step : shelf -> shelf -> Prop :=
  | ss_pin r pins id r' p : pin r id = Ok (r', p) -> pins_fit (p :: pins) -> shelf_step (mkShelf r pins) (mkShelf r' (p :: pins))
  | ss_pinSealed r pins id r' p : pinSealed r id = Return (Ok (r', p)) -> pins_fit (p :: pins) -> shelf_step (mkShelf r pins) (mkShelf r' (p :: pins))
  | ss_pinSnapshot r pins r' ps : pinSnapshot r = Ok (r', ps) -> pins_fit (ps ++ pins) -> shelf_step (mkShelf r pins) (mkShelf r' (ps ++ pins))
  | ss_release r p pre post r' p' : pin_release r p = Ok (r', p') -> shelf_step (mkShelf r (pre ++ p :: post)) (mkShelf r' (pre ++ post))
  | ss_rotation r pins id sealed active r' : publishRotation r id sealed active = Ok r' -> shelf_step (mkShelf r pins) (mkShelf r' pins)
  | ss_publish r pins segs r' : publishSealed r segs = Ok r' -> NoDup (map (fun s => sh_SegmentID (sl_header s)) segs) -> shelf_step (mkShelf r pins) (mkShelf r' pins)
  | ss_begin r pins id r' : beginRetire r id = Ok r' -> shelf_step (mkShelf r pins) (mkShelf r' pins)
  | ss_cancel r pins id r' : cancelRetire r id = Ok r' -> shelf_step (mkShelf r pins) (mkShelf r' pins)
  | ss_detach r pins id r' s : detachRetired r id = Ok (r', s) -> shelf_step (mkShelf r pins) (mkShelf r' pins)
  | ss_close r pins r' : close_begin r = Ok r' -> shelf_step (mkShelf r pins) (mkShelf r' pins)
  | ss_closed r pins r' es : close_turn r = Return (Ok (r', es)) -> rg_closed r = true -> shelf_step (mkShelf r pins) (mkShelf r' pins)
  (** an operation on the active segment changes its object in place *)
  | ss_write r pins l e s s' : rg_heap r !! l = Some e -> re_active e = Some s -> shelf_step (mkShelf r pins) (mkShelf (set_entry r l (mkEntry (re_state e) (Some s') (re_sealed e) (re_pins e))) pins).

Abbreviation shelf_steps := (rtc shelf_step).

(** The live pins of an entry. *)
Definition pins_of (l : nat) (pins : list segmentPin) : Z := Z.of_nat (length (filter (fun p => pn_entry p = l) pins)).

Record shelf_ok (s : shelf) : Prop := mkShelfOk {
  so_inj : forall i j l, rg_entries (sf_reg s) !! i = Some l -> rg_entries (sf_reg s) !! j = Some l -> i = j;
  so_fresh : forall i l, rg_entries (sf_reg s) !! i = Some l -> (l < rg_fresh (sf_reg s))%nat;
  so_heap : forall i l, rg_entries (sf_reg s) !! i = Some l -> exists e, rg_heap (sf_reg s) !! l = Some e /\ re_pins e = pins_of l (sf_pins s);
  so_pins : Forall (fun p => pn_released p = false /\ rg_entries (sf_reg s) !! pn_id p = Some (pn_entry p)) (sf_pins s);
  so_count : pins_fit (sf_pins s);
}.

Lemma entry_at_spec r id l e : entry_at r id = Some (l, e) <-> rg_entries r !! id = Some l /\ rg_heap r !! l = Some e.
Proof.
  unfold entry_at. split.
  - intros E. destruct (rg_entries r !! id) as [l'|] eqn:E1; [|discriminate]. destruct (rg_heap r !! l') eqn:E2; [|discriminate]. injection E as -> ->. auto.
  - intros [-> ->]. reflexivity.
Qed.

Lemma pins_of_cons l p pins : pins_of l (p :: pins) = (if decide (pn_entry p = l) then 1 else 0) + pins_of l pins.
Proof. unfold pins_of. rewrite filter_cons. case_decide; cbn [length]; lia. Qed.

Lemma pins_of_app l a b : pins_of l (a ++ b) = pins_of l a + pins_of l b.
Proof. unfold pins_of. rewrite filter_app, length_app. lia. Qed.

Lemma pins_of_le l pins : 0 <= pins_of l pins <= Z.of_nat (length pins).
Proof. unfold pins_of. pose proof (length_filter (fun p => pn_entry p = l) pins). lia. Qed.

Lemma pins_of_zero l pins : pins_of l pins = 0 -> Forall (fun p => pn_entry p <> l) pins.
Proof.
  induction pins as [|p pins IH]; intros E; [constructor|]. rewrite pins_of_cons in E. pose proof (pins_of_le l pins). case_decide; [lia|]. constructor; [assumption|apply IH; lia].
Qed.

(** ** Changes that keep the map *)

(** An entry of the map is replaced by one with the right number of pins. *)
Lemma shelf_set r pins pins' l e id : shelf_ok (mkShelf r pins) -> rg_entries r !! id = Some l -> re_pins e = pins_of l pins' -> (forall k, k <> l -> pins_of k pins' = pins_of k pins) ->
  Forall (fun p => pn_released p = false /\ rg_entries r !! pn_id p = Some (pn_entry p)) pins' -> pins_fit pins' -> shelf_ok (mkShelf (set_entry r l e) pins').
Proof.
  intros [H1 H2 H3 H4 H5] Hl He Ho Hp Hf. cbn in *. constructor; cbn; auto. intros i k Hk. destruct (decide (k = l)) as [->|Hne].
  - exists e. rewrite lookup_insert_eq. auto.
  - rewrite lookup_insert_ne by congruence. destruct (H3 i k Hk) as (e' & E1 & E2). exists e'. rewrite Ho by exact Hne. auto.
Qed.

Lemma shelf_signal r pins : shelf_ok (mkShelf r pins) -> shelf_ok (mkShelf (signalLocked r) pins).
Proof. intros [H1 H2 H3 H4 H5]. constructor; assumption. Qed.

Lemma shelf_take r pins id l e : shelf_ok (mkShelf r pins) -> entry_at r id = Some (l, e) -> pins_fit (mkPin id l false :: pins) -> shelf_ok (mkShelf (take_pin r l e) (mkPin id l false :: pins)).
Proof.
  intros Hs He Hf. apply entry_at_spec in He as [Hl Hh]. pose proof Hs as [H1 H2 H3 H4 H5]. cbn in *. destruct (H3 id l Hl) as (e' & E1 & E2). assert (e' = e) by congruence. subst e'. pose proof (pins_of_le l pins). unfold pins_fit in Hf. cbn [length] in Hf.
  apply (shelf_set r pins _ l _ id); auto.
  - cbn [set_pins re_pins]. rewrite pins_of_cons. cbn [pn_entry]. rewrite decide_True by reflexivity. rewrite Z.mod_small by lia. lia.
  - intros k Hk. rewrite pins_of_cons. cbn [pn_entry]. rewrite decide_False by congruence. reflexivity.
Qed.

Lemma shelf_pin_all : forall ids r pins, shelf_ok (mkShelf r pins) -> let '(r', ps) := pin_all r ids in pins_fit (ps ++ pins) -> shelf_ok (mkShelf r' (ps ++ pins)) /\ rg_changed r' = rg_changed r.
Proof.
  induction ids as [|id ids IH]; intros r pins Hs; cbn [pin_all]; [auto|]. destruct (entry_at r id) as [[l e]|] eqn:E; [|apply IH, Hs].
  destruct (pin_all (take_pin r l e) ids) as [r' ps] eqn:Ep. intros Hf.
  assert (Hs' : shelf_ok (mkShelf (take_pin r l e) (mkPin id l false :: pins))).
  { apply (shelf_take r pins id l e Hs E). unfold pins_fit in *. rewrite length_app in Hf. cbn [length] in *. lia. }
  specialize (IH _ _ Hs'). rewrite Ep in IH. destruct IH as [IH Hc]; [unfold pins_fit in *; rewrite length_app in *; cbn [length] in *; lia|].
  split; [|exact Hc]. destruct IH as [H1 H2 H3 H4 H5]. cbn [sf_reg sf_pins] in *.
  assert (Hp : forall k, pins_of k ((mkPin id l false :: ps) ++ pins) = pins_of k (ps ++ mkPin id l false :: pins)) by (intros k; rewrite !pins_of_app, !pins_of_cons; lia).
  constructor; cbn [sf_reg sf_pins]; auto.
  - intros i k Hk. rewrite Hp. eauto.
  - cbn [app]. apply Forall_app in H4 as [H4 H4']. apply Forall_cons in H4' as [H6 H7]. constructor; [exact H6|]. apply Forall_app. auto.
Qed.

Lemma shelf_add r pins id e : shelf_ok (mkShelf r pins) -> rg_entries r !! id = None -> re_pins e = 0 -> shelf_ok (mkShelf (add_entry r id e) pins).
Proof.
  intros [H1 H2 H3 H4 H5] Hid He. cbn in *.
  assert (Hz : pins_of (rg_fresh r) pins = 0).
  { clear -H2 H4. induction pins as [|p pins IH]; [reflexivity|]. apply Forall_cons in H4 as [[_ Hp] H4]. rewrite pins_of_cons, (IH H4). rewrite decide_False; [reflexivity|]. apply H2 in Hp. lia. }
  constructor; cbn [sf_reg sf_pins add_entry rg_entries rg_heap rg_fresh]; auto.
  - intros i j l [[<- <-]|[Hi Ei]]%lookup_insert_Some [[<- Ej]|[Hj Ej]]%lookup_insert_Some; auto; [apply H2 in Ej; lia|subst l; apply H2 in Ei; lia|eauto].
  - intros i l [[<- <-]|[_ Ei]]%lookup_insert_Some; [lia|]. apply H2 in Ei. lia.
  - intros i l [[<- <-]|[_ Ei]]%lookup_insert_Some; [exists e; rewrite lookup_insert_eq, Hz; auto|]. pose proof (H2 _ _ Ei). rewrite lookup_insert_ne by lia. eauto.
  - eapply Forall_impl; [exact H4|]. intros p [P1 P2]. split; [exact P1|]. rewrite lookup_insert_ne; [exact P2|]. intros ->. congruence.
Qed.

(** Replacing an entry without changing its pins. *)
Lemma shelf_update r pins id l e e' : shelf_ok (mkShelf r pins) -> entry_at r id = Some (l, e) -> re_pins e' = re_pins e -> shelf_ok (mkShelf (set_entry r l e') pins).
Proof.
  intros Hs He Hp. apply entry_at_spec in He as [Hl Hh]. pose proof Hs as [H1 H2 H3 H4 H5]. cbn in *. destruct (H3 id l Hl) as (e0 & E1 & E2). assert (e0 = e) by congruence. subst e0. apply (shelf_set r pins pins l e' id); auto. congruence.
Qed.

Lemma shelf_active_id r pins id : shelf_ok (mkShelf r pins) -> shelf_ok (mkShelf (set_active_id r id) pins).
Proof. intros [H1 H2 H3 H4 H5]. constructor; assumption. Qed.

Lemma shelf_outputs segs : forall r pins, shelf_ok (mkShelf r pins) -> NoDup (map (fun s => sh_SegmentID (sl_header s)) segs) -> Forall (fun s => rg_entries r !! sh_SegmentID (sl_header s) = None) segs ->
  shelf_ok (mkShelf (foldl (fun r s => add_entry r (sh_SegmentID (sl_header s)) (mkEntry segmentSealed None (Some s) 0)) r segs) pins).
Proof.
  induction segs as [|s segs IH]; intros r pins Hs Hd Hn; [exact Hs|]. cbn [foldl]. cbn [map] in Hd. apply NoDup_cons in Hd as [Hx Hd]. apply Forall_cons in Hn as [Hs0 Hn]. apply IH; [now apply shelf_add|exact Hd|].
  rewrite Forall_forall in *. intros t Ht. cbn [add_entry rg_entries]. rewrite lookup_insert_ne; [now apply Hn|]. intros E. apply Hx. rewrite E. apply list_elem_of_fmap. eauto.
Qed.

Lemma release_inv r p r' p' : pin_release r p = Ok (r', p') -> exists e, entry_at r (pn_id p) = Some (pn_entry p, e) /\ re_pins e <> 0 /\ r' = signalLocked (set_entry r (pn_entry p) (set_pins e (re_pins e - 1))) /\ p' = mkPin (pn_id p) (pn_entry p) true.
Proof.
  intros E. unfold pin_release in E. destruct (pn_released p); [discriminate|]. destruct (entry_at r (pn_id p)) as [[l e]|] eqn:Ee; [|discriminate]. destruct (negb _ || _) eqn:Eg; [discriminate|]. apply orb_false_iff in Eg as [G1 G2]. apply negb_false_iff, Nat.eqb_eq in G1. apply Z.eqb_neq in G2. subst l.
  injection E as <- <-. eauto.
Qed.

Lemma shelf_step_ok s s' : shelf_step s s' -> shelf_ok s -> shelf_ok s'.
Proof.
  intros Hst Hs. destruct Hst as [r pins id r' p E Hf|r pins id r' p E Hf|r pins r' ps E Hf|r p pre post r' p' E|r pins id sealed active r' E|r pins segs r' E Hd|r pins id r' E|r pins id r' E|r pins id r' s E|r pins r' E|r pins r' es E Hc|r pins l e s s' E1 E2].
  - unfold pin in E. inv_ok E. destruct (entry_at r id) as [[l e]|] eqn:Ee; [|discriminate]. inv_ok E. injection E as <- <-. now apply shelf_take.
  - unfold pinSealed in E. destruct (id =? 0); [discriminate|]. destruct (rg_closed r); [discriminate|]. destruct (entry_at r id) as [[l e]|] eqn:Ee; [|discriminate]. destruct (re_state e); try discriminate. case_bool_decide; [|discriminate]. injection E as <- <-. now apply shelf_take.
  - unfold pinSnapshot in E. inv_ok E. apply Ok_inj in E. pose proof (shelf_pin_all (merge_sort Z.le (map fst (map_to_list (rg_entries r)))) r pins Hs) as H. rewrite E in H. now apply H.
  - destruct (release_inv _ _ _ _ E) as (e & He & Hne & -> & _). apply shelf_signal. pose proof Hs as [H1 H2 H3 H4 H5]. apply entry_at_spec in He as [Hl Hh]. cbn in *. destruct (H3 _ _ Hl) as (e0 & E1 & E2). assert (e0 = e) by congruence. subst e0.
    assert (Hp : forall k, pins_of k (pre ++ p :: post) = (if decide (pn_entry p = k) then 1 else 0) + pins_of k (pre ++ post)) by (intros k; rewrite !pins_of_app, pins_of_cons; lia).
    apply (shelf_set r (pre ++ p :: post) _ _ _ (pn_id p)); auto.
    + cbn [set_pins re_pins]. rewrite E2, Hp, decide_True by reflexivity. lia.
    + intros k Hk. rewrite Hp, decide_False by congruence. lia.
    + apply Forall_app in H4 as [H4 H4']. apply Forall_cons in H4' as [_ H4']. apply Forall_app. auto.
    + unfold pins_fit in *. rewrite length_app in *. cbn [length] in H5. lia.
  - unfold publishRotation in E. inv_ok E. destruct (entry_at r id) as [[l e]|] eqn:Ee; [|discriminate]. destruct (re_active e) as [old|]; [|discriminate]. inv_ok E. injection E as <-. apply shelf_signal, shelf_active_id, shelf_add; [now apply (shelf_update r pins id l e)| |reflexivity].
    match goal with H : bool_decide _ = false |- _ => apply bool_decide_eq_false in H; destruct (rg_entries r !! sh_SegmentID (as_header active)) eqn:En end; [exfalso; eauto|exact En].
  - unfold publishSealed in E. inv_ok E. injection E as <-. apply shelf_signal, shelf_outputs; auto. apply Forall_forall. intros s Hs'. apply not_true_iff_false in Hguard0. destruct (rg_entries r !! sh_SegmentID (sl_header s)) eqn:En; [|reflexivity].
    exfalso. apply Hguard0, existsb_exists. exists s. split; [now apply list_elem_of_In|]. unfold output_refused. rewrite En, (bool_decide_eq_true_2 (is_Some (Some _))) by eauto. apply orb_true_r.
  - unfold beginRetire in E. inv_ok E. destruct (entry_at r id) as [[l e]|] eqn:Ee; [|discriminate]. case_bool_decide; [injection E as <-; exact Hs|]. inv_ok E. injection E as <-. apply shelf_signal. now apply (shelf_update r pins id l e).
  - unfold cancelRetire in E. inv_ok E. destruct (entry_at r id) as [[l e]|] eqn:Ee; [|discriminate]. inv_ok E. injection E as <-. apply shelf_signal. now apply (shelf_update r pins id l e).
  - unfold detachRetired in E. destruct (entry_at r id) as [[l e]|] eqn:Ee; [|discriminate]. destruct (re_sealed e); [|discriminate]. inv_ok E. injection E as <- <-. apply shelf_signal. apply entry_at_spec in Ee as [Hl Hh]. destruct Hs as [H1 H2 H3 H4 H5]. cbn in *.
    apply negb_false_iff, Z.eqb_eq in Hguard0. destruct (H3 _ _ Hl) as (e0 & E1 & E2). assert (e0 = e) by congruence. subst e0. assert (Hz : pins_of l pins = 0) by congruence. apply pins_of_zero in Hz.
    constructor; cbn; auto.
    + intros i j k [_ Hi]%lookup_delete_Some [_ Hj]%lookup_delete_Some. eauto.
    + intros i k [_ Hi]%lookup_delete_Some. eauto.
    + intros i k [_ Hi]%lookup_delete_Some. eauto.
    + rewrite Forall_forall in *. intros p Hp. destruct (H4 p Hp) as [P1 P2]. split; [exact P1|]. rewrite lookup_delete_ne; [exact P2|]. intros ->. apply (Hz p Hp). congruence.
  - unfold close_begin in E. inv_ok E. injection E as <-. destruct Hs as [H1 H2 H3 H4 H5]. constructor; assumption.
  - unfold close_turn in E. destruct (existsb _ _) eqn:Ex; [discriminate|]. injection E as <- <-. apply shelf_signal. destruct Hs as [H1 H2 H3 H4 H5]. cbn in *. assert (Hnil : pins = []).
    { destruct pins as [|p pins]; [reflexivity|]. exfalso. apply Forall_cons in H4 as [[_ Hp] _]. destruct (H3 _ _ Hp) as (e & E1 & E2). apply not_true_iff_false in Ex. apply Ex, existsb_exists. exists (pn_entry p). split.
      - apply in_map_iff. exists (pn_id p, pn_entry p). split; [reflexivity|]. apply list_elem_of_In, elem_of_map_to_list, Hp.
      - unfold entry_pinned. rewrite E1, E2, pins_of_cons, decide_True by reflexivity. pose proof (pins_of_le (pn_entry p) pins). apply negb_true_iff, Z.eqb_neq. lia. }
    subst pins. constructor; cbn; auto; intros *; rewrite lookup_empty; discriminate.
  - destruct Hs as [H1 H2 H3 H4 H5]. cbn in *. constructor; cbn; auto. intros i k Hk. destruct (H3 i k Hk) as (e0 & E3 & E4). destruct (decide (k = l)) as [->|Hne].
    + assert (e0 = e) by congruence. subst e0. rewrite lookup_insert_eq. eexists. split; [reflexivity|exact E4].
    + rewrite lookup_insert_ne by congruence. eauto.
Qed.

Lemma shelf_steps_ok s s' : shelf_steps s s' -> shelf_ok s -> shelf_ok s'.
Proof. induction 1; auto. intros Hs. eauto using shelf_step_ok. Qed.

(** ** Waiters *)

(** What a step that closes no channel can do. *)
Record quiet (r r' : segmentRegistry) : Prop := mkQuiet {
  qu_entries : rg_entries r' = rg_entries r;
  qu_changed : rg_changed r' = rg_changed r;
  qu_heap : forall l e, rg_heap r !! l = Some e -> exists e', rg_heap r' !! l = Some e' /\ re_state e' = re_state e /\ (re_pins e <> 0 -> re_pins e' <> 0);
}.

#[export] Instance quiet_preorder : PreOrder quiet.
Proof.
  split.
  - intros r. constructor; auto. intros l e E. exists e. auto.
  - intros r1 r2 r3 [A1 A2 A3] [B1 B2 B3]. constructor; [congruence|congruence|]. intros l e E. destruct (A3 l e E) as (e1 & E1 & E2 & E3). destruct (B3 l e1 E1) as (e2 & F1 & F2 & F3). exists e2. split; [exact F1|]. split; [congruence|auto].
Qed.

Lemma quiet_take r pins l e id : shelf_ok (mkShelf r pins) -> entry_at r id = Some (l, e) -> Z.of_nat (length pins) + 1 < two64 -> quiet r (take_pin r l e).
Proof.
  intros Hs He Hf. apply entry_at_spec in He as [Hl Hh]. destruct (so_heap _ Hs _ _ Hl) as (e0 & E1 & E2). cbn in E1, E2. assert (e0 = e) by congruence. subst e0. pose proof (pins_of_le l pins). constructor; auto. intros k x Hx. cbn. destruct (decide (k = l)) as [->|Hne].
  - rewrite lookup_insert_eq. eexists. split; [reflexivity|]. assert (x = e) by congruence. subst x. cbn. split; [reflexivity|]. intros _. rewrite Z.mod_small by lia. lia.
  - rewrite lookup_insert_ne by congruence. eauto.
Qed.

Lemma quiet_pin_all : forall ids r pins, shelf_ok (mkShelf r pins) -> let '(r', ps) := pin_all r ids in pins_fit (ps ++ pins) -> quiet r r'.
Proof.
  induction ids as [|id ids IH]; intros r pins Hs; cbn [pin_all]; [reflexivity|]. destruct (entry_at r id) as [[l e]|] eqn:E; [|apply IH, Hs].
  destruct (pin_all (take_pin r l e) ids) as [r' ps] eqn:Ep. intros Hf. unfold pins_fit in Hf. rewrite length_app in Hf. cbn [length] in Hf.
  assert (Hs' : shelf_ok (mkShelf (take_pin r l e) (mkPin id l false :: pins))) by (apply (shelf_take r pins id l e Hs E); unfold pins_fit; cbn [length]; lia).
  specialize (IH _ _ Hs'). rewrite Ep in IH. transitivity (take_pin r l e); [apply (quiet_take r pins l e id Hs E); lia|]. apply IH. unfold pins_fit. rewrite length_app. cbn [length]. lia.
Qed.

Lemma step_signals s s' : shelf_step s s' -> shelf_ok s -> (rg_changed (sf_reg s) < rg_changed (sf_reg s'))%nat \/ quiet (sf_reg s) (sf_reg s').
Proof.
  intros Hst Hs. destruct Hst as [r pins id r' p E Hf|r pins id r' p E Hf|r pins r' ps E Hf|r p pre post r' p' E|r pins id sealed active r' E|r pins segs r' E Hd|r pins id r' E|r pins id r' E|r pins id r' s E|r pins r' E|r pins r' es E Hc|r pins l e s s' E1 E2]; cbn [sf_reg].
  - right. unfold pin in E. inv_ok E. destruct (entry_at r id) as [[l e]|] eqn:Ee; [|discriminate]. inv_ok E. injection E as <- <-. apply (quiet_take r pins l e id Hs Ee). unfold pins_fit in Hf. cbn [length] in Hf. lia.
  - right. unfold pinSealed in E. destruct (id =? 0); [discriminate|]. destruct (rg_closed r); [discriminate|]. destruct (entry_at r id) as [[l e]|] eqn:Ee; [|discriminate]. destruct (re_state e); try discriminate. case_bool_decide; [|discriminate]. injection E as <- <-. apply (quiet_take r pins l e id Hs Ee). unfold pins_fit in Hf. cbn [length] in Hf. lia.
  - right. unfold pinSnapshot in E. inv_ok E. apply Ok_inj in E. pose proof (quiet_pin_all (merge_sort Z.le (map fst (map_to_list (rg_entries r)))) r pins Hs) as H. rewrite E in H. now apply H.
  - left. destruct (release_inv _ _ _ _ E) as (e & _ & _ & -> & _). cbn. lia.
  - left. unfold publishRotation in E. inv_ok E. destruct (entry_at r id) as [[l e]|]; [|discriminate]. destruct (re_active e); [|discriminate]. inv_ok E. injection E as <-. cbn. lia.
  - left. unfold publishSealed in E. inv_ok E. injection E as <-. cbn. enough (H : forall segs r, rg_changed (foldl (fun r s => add_entry r (sh_SegmentID (sl_header s)) (mkEntry segmentSealed None (Some s) 0)) r segs) = rg_changed r) by (rewrite H; lia). clear. induction segs as [|s segs IH]; intros r; [reflexivity|]. cbn [foldl]. now rewrite IH.
  - unfold beginRetire in E. inv_ok E. destruct (entry_at r id) as [[l e]|]; [|discriminate]. case_bool_decide; [injection E as <-; right; reflexivity|]. inv_ok E. injection E as <-. left. cbn. lia.
  - left. unfold cancelRetire in E. inv_ok E. destruct (entry_at r id) as [[l e]|]; [|discriminate]. inv_ok E. injection E as <-. cbn. lia.
  - left. unfold detachRetired in E. destruct (entry_at r id) as [[l e]|]; [|discriminate]. destruct (re_sealed e); [|discriminate]. inv_ok E. injection E as <- <-. cbn. lia.
  - right. unfold close_begin in E. inv_ok E. injection E as <-. constructor; auto. cbn. eauto.
  - left. unfold close_turn in E. destruct (existsb _ _); [discriminate|]. injection E as <- <-. cbn. lia.
  - right. constructor; auto. cbn. intros k x Hx. destruct (decide (k = l)) as [->|Hne].
    + assert (x = e) by congruence. subst x. rewrite lookup_insert_eq. eexists. split; [reflexivity|]. auto.
    + rewrite lookup_insert_ne by congruence. eauto.
Qed.

Lemma steps_signal s s' : shelf_steps s s' -> shelf_ok s -> (rg_changed (sf_reg s) < rg_changed (sf_reg s'))%nat \/ quiet (sf_reg s) (sf_reg s').
Proof.
  induction 1 as [s|s s1 s2 H1 H2 IH]; intros Hs; [right; reflexivity|]. pose proof (shelf_step_ok _ _ H1 Hs) as Hs1. destruct (step_signals _ _ H1 Hs) as [L|Q], (IH Hs1) as [L'|Q'].
  - left. lia.
  - left. rewrite (qu_changed _ _ Q'). exact L.
  - left. rewrite <- (qu_changed _ _ Q). exact L'.
  - right. now transitivity (sf_reg s1).
Qed.

(** ** The first registry *)

Lemma add_sealed_ok : forall sealed r r' pins, add_sealed r sealed = Ok r' -> shelf_ok (mkShelf r pins) -> shelf_ok (mkShelf r' pins).
Proof.
  induction sealed as [|x sealed IH]; intros r r' pins E Hs; cbn [add_sealed] in E; [injection E as <-; exact Hs|]. inv_ok E. apply (IH _ _ _ E). apply shelf_add; [exact Hs| |reflexivity].
  apply bool_decide_eq_false in Hguard0. destruct (rg_entries r !! _) eqn:En; [exfalso; eauto|reflexivity].
Qed.

Lemma newSegmentRegistry_ok active sealed r : newSegmentRegistry active sealed = Ok r -> shelf_ok (mkShelf r []).
Proof.
  intros E. unfold newSegmentRegistry in E. inv_ok E. apply (add_sealed_ok _ _ _ _ E). apply shelf_add; [|apply lookup_empty|reflexivity]. constructor; cbn; try (intros *; rewrite lookup_empty; discriminate); [constructor|]. unfold pins_fit. cbn. lia.
Qed.

(** ** The theorems *)

(** C30: pins protect segments.  However readers, rotations, compaction and
    retirement interleave after the log was opened, a segment with a live pin is
    in the registry under its id, the release of the pin succeeds, the segment
    cannot be detached for deletion and the registry does not close its files. *)
Theorem pins_protect active sealed r s p : newSegmentRegistry active sealed = Ok r -> shelf_steps (mkShelf r []) s -> p ∈ sf_pins s ->
  (exists e, entry_at (sf_reg s) (pn_id p) = Some (pn_entry p, e) /\ 0 < re_pins e) /\
  is_ok (pin_release (sf_reg s) p) = true /\ is_ok (detachRetired (sf_reg s) (pn_id p)) = false /\ close_turn (sf_reg s) = Wait (rg_changed (sf_reg s)).
Proof.
  intros E Hst Hp. pose proof (shelf_steps_ok _ _ Hst (newSegmentRegistry_ok _ _ _ E)) as [H1 H2 H3 H4 H5]. rewrite Forall_forall in H4. destruct (H4 p Hp) as [P1 P2]. destruct (H3 _ _ P2) as (e & E1 & E2).
  assert (Hpos : 0 < re_pins e).
  { rewrite E2. apply list_elem_of_split in Hp as (a & b & ->). rewrite pins_of_app, pins_of_cons, decide_True by reflexivity. pose proof (pins_of_le (pn_entry p) a). pose proof (pins_of_le (pn_entry p) b). lia. }
  assert (Ee : entry_at (sf_reg s) (pn_id p) = Some (pn_entry p, e)) by now apply entry_at_spec. assert (En : (re_pins e =? 0) = false) by (apply Z.eqb_neq; lia).
  split; [eauto|]. split; [|split].
  - unfold pin_release. rewrite P1, Ee, Nat.eqb_refl, En. reflexivity.
  - unfold detachRetired. rewrite Ee. destruct (re_sealed e); [|reflexivity]. destruct (negb (bool_decide _)); [reflexivity|]. rewrite En. reflexivity.
  - unfold close_turn. replace (existsb _ _) with true; [reflexivity|]. symmetry. apply existsb_exists. exists (pn_entry p). split.
    + apply in_map_iff. exists (pn_id p, pn_entry p). split; [reflexivity|]. apply list_elem_of_In, elem_of_map_to_list, P2.
    + unfold entry_pinned. rewrite E1, En. reflexivity.
Qed.

(** No wake-up is lost.  A goroutine that waits in [waitNoReaders],
    [pinSealed] or [close] holds the channel it has seen; as long as nobody has
    closed that channel, whatever steps the others take, the condition it waits
    for has not come true (only the flag that the registry is closing is set
    without closing the channel). *)
Theorem no_lost_wakeup active sealed r s s' id v : newSegmentRegistry active sealed = Ok r -> shelf_steps (mkShelf r []) s -> shelf_steps s s' -> rg_changed (sf_reg s') = v ->
  (waitNoReaders (sf_reg s) id = Wait v -> waitNoReaders (sf_reg s') id = Wait v) /\
  (pinSealed (sf_reg s) id = Wait v -> rg_closed (sf_reg s') = false -> pinSealed (sf_reg s') id = Wait v) /\
  (close_turn (sf_reg s) = Wait v -> close_turn (sf_reg s') = Wait v).
Proof.
  intros E Hst Hst' Hv. pose proof (shelf_steps_ok _ _ Hst (newSegmentRegistry_ok _ _ _ E)) as Hs.
  assert (Q : rg_changed (sf_reg s) = v -> quiet (sf_reg s) (sf_reg s')) by (intros Hv'; destruct (steps_signal _ _ Hst' Hs) as [L|Q]; [lia|exact Q]).
  split; [|split].
  - unfold waitNoReaders. destruct (entry_at (sf_reg s) id) as [[l e]|] eqn:Ee; [|discriminate]. apply entry_at_spec in Ee as [Hl Hh]. destruct (negb _) eqn:En; [discriminate|]. destruct (re_pins e =? 0) eqn:Ep; [discriminate|]. intros [= Hx]. destruct (Q Hx) as [Q1 Q2 Q3]. destruct (Q3 l e Hh) as (e' & F1 & F2 & F3).
    assert (Ee' : entry_at (sf_reg s') id = Some (l, e')) by (apply entry_at_spec; split; [congruence|exact F1]). rewrite Ee', F2, En. apply Z.eqb_neq in Ep. apply F3 in Ep. apply Z.eqb_neq in Ep. rewrite Ep. now rewrite Hv.
  - unfold pinSealed. destruct (id =? 0); [discriminate|]. destruct (rg_closed (sf_reg s)); [discriminate|]. destruct (entry_at (sf_reg s) id) as [[l e]|] eqn:Ee; [|discriminate]. apply entry_at_spec in Ee as [Hl Hh]. intros Hw ->. destruct (re_state e) eqn:Es; [|case_bool_decide; discriminate|discriminate]. injection Hw as Hx.
    destruct (Q Hx) as [Q1 Q2 Q3]. destruct (Q3 l e Hh) as (e' & F1 & F2 & F3). assert (Ee' : entry_at (sf_reg s') id = Some (l, e')) by (apply entry_at_spec; split; [congruence|exact F1]). rewrite Ee', F2, Es. now rewrite Hv.
  - unfold close_turn. destruct (existsb _ _) eqn:Ex; [|discriminate]. intros [= Hx]. destruct (Q Hx) as [Q1 Q2 Q3]. rewrite Q1. apply existsb_exists in Ex as (l & Hin & Hl). replace (existsb _ _) with true; [now rewrite Hv|]. symmetry. apply existsb_exists. exists l. split; [exact Hin|].
    unfold entry_pinned in *. destruct (rg_heap (sf_reg s) !! l) as [e|] eqn:Hh; [|discriminate]. destruct (Q3 l e Hh) as (e' & -> & _ & F3). apply negb_true_iff, Z.eqb_neq in Hl. apply negb_true_iff, Z.eqb_neq, F3, Hl.
Qed.

(** ** Examples *)

Definition demo_registry_header (id : Z) : SegmentHeader := mkSegmentHeader (1 :: zeros 15) id (id - 1) 4096.
Definition demo_active : activeSegment := mkActive (Some 1%nat) (demo_registry_header 2) 64 0 0 0 false false.
Definition demo_sealed : sealedSegment := mkSealed (Some 0%nat) (demo_registry_header 1) (mkData 1 64 0 0 0).
Definition demo_registry : segmentRegistry := match newSegmentRegistry demo_active [demo_sealed] with Ok r => r | Err _ => mkRegistry ∅ 0 ∅ 0 0 true end.
Definition demo_pinned : segmentRegistry := match pin demo_registry 1 with Ok (r, _) => r | Err _ => demo_registry end.
Definition demo_retiring : segmentRegistry := match beginRetire demo_pinned 1 with Ok r => r | Err _ => demo_pinned end.
Definition demo_reader : segmentPin := mkPin 1 1 false.

Lemma demo_retiring_reached : shelf_steps (mkShelf demo_registry []) (mkShelf demo_retiring [demo_reader]).
Proof.
  eapply rtc_l; [apply (ss_pin demo_registry [] 1 demo_pinned demo_reader); [vm_compute; reflexivity|reflexivity]|].
  eapply rtc_l; [apply (ss_begin demo_pinned [demo_reader] 1 demo_retiring); vm_compute; reflexivity|]. apply rtc_refl.
Qed.

Lemma pins_protect_witness : is_ok (detachRetired demo_retiring 1) = false /\ is_ok (pin_release demo_retiring demo_reader) = true.
Proof.
  destruct (pins_protect demo_active [demo_sealed] demo_registry (mkShelf demo_retiring [demo_reader]) demo_reader) as (_ & H2 & H3 & _); [vm_compute; reflexivity|exact demo_retiring_reached|set_solver|]. split; [exact H3|exact H2].
Defined.

Lemma no_lost_wakeup_witness : let s' := match pin demo_retiring 2 with Ok (r, _) => r | Err _ => demo_retiring end in waitNoReaders demo_retiring 1 = Wait 1 /\ waitNoReaders s' 1 = Wait 1.
Proof.
  split; [vm_compute; reflexivity|]. set (s' := match pin demo_retiring 2 with Ok (r, _) => r | Err _ => demo_retiring end).
  destruct (no_lost_wakeup demo_active [demo_sealed] demo_registry (mkShelf demo_retiring [demo_reader]) (mkShelf s' [mkPin 2 0 false; demo_reader]) 1 1) as (H1 & _); [vm_compute; reflexivity|exact demo_retiring_reached| |vm_compute; reflexivity|apply H1; vm_compute; reflexivity].
  eapply rtc_l; [|apply rtc_refl]. apply (ss_pin demo_retiring [demo_reader] 2 s' (mkPin 2 0 false)); [vm_compute; reflexivity|reflexivity].
Defined.
