(* ===== verification/LogState.v ===== *)
(** * The record log and its writer

    Models [internal/recordlog/log.go], [writer.go], [budget.go] and the rest of
    [open.go]: clients reserve bytes, submit requests to a bounded channel and wait
    for the response; one writer stages requests into a buffer, writes the buffer to
    the active segment, syncs when a request asks for it, rotates when a record does
    not fit, and poisons the log on the first failure.  Requests are shared between
    client, channel and writer, so they live on a heap and are named by location;
    the active segment object is the one of the registry entry [w_active].
    Contexts are an argument of [stage]; times are not modelled. *)
From S2P Require Import Prelude Bytes Addr Crc32 RecordFormat Fs FsDisk Catalog LogSegment LogRotate LogScan LogRotation LogRotationSpec LogRegistry.

Record Config := mkConfig { cf_MaxQueuedBytes : Z; cf_QueueCapacity : Z; cf_BufferBytes : Z; cf_BufferRecords : Z }.

(** [Config.validate == nil] *)
Definition config_valid (c : Config) (segmentSize maxPayloadBytes : Z) : bool :=
  negb ((segmentSize <=? SegmentHeaderSize + SegmentFooterSize) || (maxPayloadBytes =? 0) || (cf_MaxQueuedBytes c =? 0) || (cf_QueueCapacity c <=? 0) ||
        (cf_BufferBytes c =? 0) || (cf_BufferRecords c <=? 0)) &&
  match PhysicalRecordSize maxPayloadBytes with
  | Ok maximum => negb ((segmentSize - SegmentHeaderSize - SegmentFooterSize <? maximum) || (cf_MaxQueuedBytes c <? maximum))
  | Err _ => false
  end.

Record Watermarks := mkMarks { wm_Reserved : LogPos; wm_Written : LogPos; wm_Durable : LogPos }.

(** [Status] without the durations of rotations. *)
Record Status := mkStatus
  { st_Watermarks : Watermarks; st_PendingRecords : Z; st_PendingBytes : Z; st_WriteCalls : Z; st_SyncCalls : Z; st_RotationCalls : Z; st_Poisoned : bool; st_Closed : bool }.

(** ** The byte budget *)

(** [bb_panicked]: [release] has panicked. *)
Record byteBudget := mkByteBudget { bb_limit : Z; bb_used : Z; bb_changed : nat; bb_closed : bool; bb_panicked : bool }.

Definition newByteBudget (limit : Z) : byteBudget := mkByteBudget limit 0 0 false false.

(** One turn of the loop of [acquire]. *)
Definition budget_acquire (b : byteBudget) (bytes : Z) : attempt byteBudget :=
  if bb_limit b <? bytes then Return (Err [recordlog_ErrPayloadTooBig])
  else if bb_closed b then Return (Err [recordlog_ErrClosed])
  else if bytes <=? (bb_limit b - bb_used b) mod two64 then Return (Ok (mkByteBudget (bb_limit b) ((bb_used b + bytes) mod two64) (bb_changed b) (bb_closed b) (bb_panicked b)))
  else Wait (bb_changed b).

Definition budget_release (b : byteBudget) (bytes : Z) : byteBudget :=
  if bb_used b <? bytes then mkByteBudget (bb_limit b) (bb_used b) (bb_changed b) (bb_closed b) true
  else mkByteBudget (bb_limit b) (bb_used b - bytes) (if bb_closed b then bb_changed b else S (bb_changed b)) (bb_closed b) (bb_panicked b).

Definition budget_close (b : byteBudget) : byteBudget :=
  if bb_closed b then b else mkByteBudget (bb_limit b) (bb_used b) (S (bb_changed b)) true (bb_panicked b).

(** ** Requests *)

(** [rq_response]: what was sent to the response channel. *)
Record appendRequest := mkRequest
  { rq_payload : list Z; rq_physical : Z; rq_sync : bool; rq_budget : Z; rq_stop : bool; rq_reserved : bool; rq_completed : bool;
    rq_result : option AppendResult; rq_response : option (res AppendResult) }.

Record pendingRecord := mkPending { pr_request : nat; pr_result : AppendResult; pr_size : Z; pr_payload : list Z }.

Record Log := mkLog
  { lg_cfg : Config; lg_maxPayloadBytes : Z; lg_requests : list nat; lg_heap : gmap nat appendRequest; lg_fresh : nat; lg_budget : byteBudget; lg_registry : segmentRegistry;
    lg_closing : bool; lg_pending : gmap Z (list Z); lg_status : Status; lg_terminal : option goerror }.

Record writer := mkWriter
  { w_active : nat; w_deferred : option nat; w_pending : list pendingRecord; w_encoded : list Z; w_bytes : Z; w_waiters : list pendingRecord; w_needSync : bool;
    w_writes : Z; w_syncs : Z; w_fault : option goerror }.

Definition set_requests (l : Log) (x : list nat) : Log := mkLog (lg_cfg l) (lg_maxPayloadBytes l) x (lg_heap l) (lg_fresh l) (lg_budget l) (lg_registry l) (lg_closing l) (lg_pending l) (lg_status l) (lg_terminal l).
Definition set_request (l : Log) (q : nat) (r : appendRequest) : Log := mkLog (lg_cfg l) (lg_maxPayloadBytes l) (lg_requests l) (<[q := r]> (lg_heap l)) (lg_fresh l) (lg_budget l) (lg_registry l) (lg_closing l) (lg_pending l) (lg_status l) (lg_terminal l).
Definition set_budget (l : Log) (x : byteBudget) : Log := mkLog (lg_cfg l) (lg_maxPayloadBytes l) (lg_requests l) (lg_heap l) (lg_fresh l) x (lg_registry l) (lg_closing l) (lg_pending l) (lg_status l) (lg_terminal l).
Definition set_registry (l : Log) (x : segmentRegistry) : Log := mkLog (lg_cfg l) (lg_maxPayloadBytes l) (lg_requests l) (lg_heap l) (lg_fresh l) (lg_budget l) x (lg_closing l) (lg_pending l) (lg_status l) (lg_terminal l).
Definition set_shared (l : Log) (pending : gmap Z (list Z)) (status : Status) (terminal : option goerror) : Log := mkLog (lg_cfg l) (lg_maxPayloadBytes l) (lg_requests l) (lg_heap l) (lg_fresh l) (lg_budget l) (lg_registry l) (lg_closing l) pending status terminal.
Definition set_closing (l : Log) : Log := mkLog (lg_cfg l) (lg_maxPayloadBytes l) (lg_requests l) (lg_heap l) (lg_fresh l) (lg_budget l) (lg_registry l) true (lg_pending l) (lg_status l) (lg_terminal l).
Definition new_request (l : Log) (r : appendRequest) : Log * nat :=
  (mkLog (lg_cfg l) (lg_maxPayloadBytes l) (lg_requests l) (<[lg_fresh l := r]> (lg_heap l)) (S (lg_fresh l)) (lg_budget l) (lg_registry l) (lg_closing l) (lg_pending l) (lg_status l) (lg_terminal l), lg_fresh l).

Definition set_marks (s : Status) (m : Watermarks) : Status := mkStatus m (st_PendingRecords s) (st_PendingBytes s) (st_WriteCalls s) (st_SyncCalls s) (st_RotationCalls s) (st_Poisoned s) (st_Closed s).

(** The active segment object of the writer.  After a rotation that failed the
    writer is poisoned and the object is not used any more. *)
Definition lost_segment : activeSegment := mkActive None (mkSegmentHeader [] 0 0 0) 0 0 0 0 true false.
Definition active_of (l : Log) (w : writer) : activeSegment :=
  match rg_heap (lg_registry l) !! w_active w with Some e => default lost_segment (re_active e) | None => lost_segment end.
Definition put_active (l : Log) (w : writer) (s : activeSegment) : Log :=
  match rg_heap (lg_registry l) !! w_active w with
  | Some e => set_registry l (set_entry (lg_registry l) (w_active w) (mkEntry (re_state e) (Some s) (re_sealed e) (re_pins e)))
  | None => l
  end.

(** ** Responses and poisoning *)

Definition complete (l : Log) (q : nat) (response : res AppendResult) : Log :=
  match lg_heap l !! q with
  | None => l
  | Some r =>
      if rq_completed r then l
      else set_request l q (mkRequest (rq_payload r) (rq_physical r) (rq_sync r) (rq_budget r) (rq_stop r) (rq_reserved r) true (rq_result r) (Some response))
  end.

Definition clear_budget (r : appendRequest) : appendRequest :=
  mkRequest (rq_payload r) (rq_physical r) (rq_sync r) 0 (rq_stop r) (rq_reserved r) (rq_completed r) (rq_result r) (rq_response r).

Definition reject (l : Log) (q : nat) (e : goerror) : Log :=
  match lg_heap l !! q with
  | None => l
  | Some r =>
      if rq_completed r then l
      else
        let l := if negb (rq_reserved r) && negb (rq_budget r =? 0) then set_request (set_budget l (budget_release (lg_budget l) (rq_budget r))) q (clear_budget r) else l in
        complete l q (Err e)
  end.

Definition setTerminal (l : Log) (cause : goerror) : Log * goerror :=
  match lg_terminal l with
  | Some t => (l, t)
  | None =>
      let t := recordlog_ErrPoisoned :: cause in
      let s := lg_status l in
      (set_budget (set_shared l (lg_pending l) (mkStatus (st_Watermarks s) (st_PendingRecords s) (st_PendingBytes s) (st_WriteCalls s) (st_SyncCalls s) (st_RotationCalls s) true (st_Closed s)) (Some t)) (budget_close (lg_budget l)), t)
  end.

Definition no_pending (s : Status) : Status := mkStatus (st_Watermarks s) 0 0 (st_WriteCalls s) (st_SyncCalls s) (st_RotationCalls s) (st_Poisoned s) (st_Closed s).

Definition poison (l : Log) (w : writer) (cause : goerror) : Log * writer * goerror :=
  match w_fault w with
  | Some f => (l, w, f)
  | None =>
      let '(l, f) := setTerminal l cause in
      let l := foldl (fun l p => complete l (pr_request p) (Err f)) l (w_waiters w) in
      let l := set_shared l ∅ (no_pending (lg_status l)) (lg_terminal l) in
      (l, mkWriter (w_active w) (w_deferred w) [] [] 0 [] false (w_writes w) (w_syncs w) (Some f), f)
  end.

Section Writer.
Context {C : Type} `{!LogPort C}.
Abbreviation lio := (io lpath C).

(** ** Rotation *)

Definition set_object (r : segmentRegistry) (l : nat) (s : activeSegment) : segmentRegistry :=
  match rg_heap r !! l with Some e => set_entry r l (mkEntry (re_state e) (Some s) (re_sealed e) (re_pins e)) | None => r end.

(** [rotationManager.rotate] of the object at [l] *)
Definition rotate (r : segmentRegistry) (l : nat) (old : activeSegment) (o : os lpath C) : os lpath C * (segmentRegistry * res activeSegment) :=
  match rotate_segments old o with
  | (o, Err e) => (o, (r, Err e))
  | (o, Ok (old', sealed, newActive)) =>
      let r := set_object r l old' in
      match publishRotation r (sh_SegmentID (as_header old)) sealed newActive with
      | Err e => let '(o, x) := fail_closing e newActive o in (o, (r, x))
      | Ok r => match removeRotationJournal o with (o, Err e) => (o, (r, Err e)) | (o, Ok _) => (o, (r, Ok newActive)) end
      end
  end.

(** ** The writer *)

Definition canStage (l : Log) (w : writer) (q : nat) : bool :=
  match lg_heap l !! q with
  | None => false
  | Some r =>
      if rq_stop r || (rq_physical r =? 0) then false
      else if negb (len (w_pending w) =? 0) && ((cf_BufferBytes (lg_cfg l) <? rq_physical r) || (cf_BufferBytes (lg_cfg l) - rq_physical r <? w_bytes w)) then false
      else
        let remaining := remainingLocked (active_of l w) in
        (w_bytes w <=? remaining) && (rq_physical r <=? remaining - w_bytes w)
  end.

Definition count_rotation (s : Status) : Status := mkStatus (st_Watermarks s) (st_PendingRecords s) (st_PendingBytes s) (st_WriteCalls s) (st_SyncCalls s) ((st_RotationCalls s + 1) mod two64) (st_Poisoned s) (st_Closed s).

Definition set_writer_active (w : writer) (l : nat) : writer := mkWriter l (w_deferred w) (w_pending w) (w_encoded w) (w_bytes w) (w_waiters w) (w_needSync w) (w_writes w) (w_syncs w) (w_fault w).

(** The first half of [stage]: rotation when the record does not fit. *)
Definition stage_rotate (l : Log) (w : writer) (r : appendRequest) (o : os lpath C) : os lpath C * (Log * writer * option goerror) :=
  if rq_physical r <=? remainingLocked (active_of l w) then (o, (l, w, None))
  else
    let '(o, (reg, next)) := rotate (lg_registry l) (w_active w) (active_of l w) o in
    let prev := sh_SegmentID (as_header (active_of l w)) in
    let l := set_registry l reg in
    let l := set_shared l (lg_pending l) (count_rotation (lg_status l)) (lg_terminal l) in
    match next with
    | Err e => (o, (l, w, Some e))
    | Ok next =>
        match as_file next, rg_entries reg !! sh_SegmentID (as_header next) with
        | Some _, Some loc =>
            if sh_PreviousSegment (as_header next) =? prev then
              let position := mkPos (sh_SegmentID (as_header next)) (as_end next) in
              (o, (set_shared l (lg_pending l) (set_marks (lg_status l) (mkMarks position position position)) (lg_terminal l), set_writer_active w loc, None))
            else (o, (l, w, Some [recordlog_ErrInvalidConfig]))
        | _, _ => (o, (l, w, Some [recordlog_ErrInvalidConfig]))
        end
    end.

(** [w.reject(request, w.poison(err))] *)
Definition reject_poisoned (l : Log) (w : writer) (q : nat) (e : goerror) : Log * writer :=
  let '(l, w, f) := poison l w e in (reject l q f, w).

(** The address and the encoding of the next record. *)
Definition place_record (l : Log) (w : writer) (r : appendRequest) : res (Z * AppendResult * list Z) :=
  let offset := (as_end (active_of l w) + w_bytes w) mod two32 in
  let! addr := NewVAddr (sh_SegmentID (as_header (active_of l w))) offset (rq_physical r) in
  let! result := NewAppendResult addr (rq_physical r) in
  let! encoded := EncodeRecordTo (rq_physical r) addr (rq_payload r) in
  Ok (addr, result, encoded).

Definition reserve_request (r : appendRequest) (result : AppendResult) : appendRequest :=
  mkRequest [] (rq_physical r) (rq_sync r) (rq_budget r) (rq_stop r) true (rq_completed r) (Some result) (rq_response r).

(** [w.pending = append(...)] and the shared state after the record is encoded. *)
Definition add_pending (w : writer) (rec : pendingRecord) (encoded : list Z) (sync : bool) : writer :=
  mkWriter (w_active w) (w_deferred w) (w_pending w ++ [rec]) (w_encoded w ++ encoded) ((w_bytes w + pr_size rec) mod two32) (if sync then w_waiters w ++ [rec] else w_waiters w) (w_needSync w || sync)
    (w_writes w) (w_syncs w) (w_fault w).
Definition share_pending (l : Log) (w : writer) (addr : Z) (result : AppendResult) (payload : list Z) : Log :=
  let s := lg_status l in
  set_shared l (<[addr := payload]> (lg_pending l))
    (mkStatus (mkMarks (ar_End result) (wm_Written (st_Watermarks s)) (wm_Durable (st_Watermarks s))) (len (w_pending w)) (w_bytes w) (st_WriteCalls s) (st_SyncCalls s) (st_RotationCalls s) (st_Poisoned s) (st_Closed s)) (lg_terminal l).

(** [stage]; [ctxErr] is what the request's context says.  The payload that is kept
    is the copy inside the encoded buffer. *)
Definition stage (l : Log) (w : writer) (q : nat) (ctxErr : option goerror) (o : os lpath C) : os lpath C * (Log * writer * bool) :=
  match lg_heap l !! q with
  | None => (o, (l, w, false))
  | Some r =>
      match ctxErr with
      | Some e => (o, (reject l q e, w, false))
      | None =>
          let '(o, (l, w, failed)) := stage_rotate l w r o in
          match failed with
          | Some e => let '(l, w) := reject_poisoned l w q e in (o, (l, w, false))
          | None =>
              match place_record l w r with
              | Err e => let '(l, w) := reject_poisoned l w q e in (o, (l, w, false))
              | Ok (addr, result, encoded) =>
                  let payload := slice 32 (32 + length (rq_payload r)) encoded in
                  let w := add_pending w (mkPending q result (rq_physical r) payload) encoded (rq_sync r) in
                  let l := set_request l q (reserve_request r result) in
                  let l := share_pending l w addr result payload in
                  let l := set_request (set_budget l (budget_release (lg_budget l) (rq_budget r))) q (clear_budget (reserve_request r result)) in
                  let l := if rq_sync r then l else complete l q (Ok result) in
                  (o, (l, w, true))
              end
          end
      end
  end.

(** [flush]: the write and what becomes visible of it. *)
Definition count_write (l : Log) (w : writer) : Log :=
  let s := lg_status l in
  set_shared l (foldl (fun m p => delete (ar_Addr (pr_result p)) m) (lg_pending l) (w_pending w))
    (mkStatus (mkMarks (wm_Reserved (st_Watermarks s)) (match last (w_pending w) with Some p => ar_End (pr_result p) | None => wm_Written (st_Watermarks s) end) (wm_Durable (st_Watermarks s)))
       0 0 (w_writes w) (st_SyncCalls s) (st_RotationCalls s) (st_Poisoned s) (st_Closed s)) (lg_terminal l).

Definition count_sync (l : Log) (w : writer) : Log :=
  let s := lg_status l in let m := st_Watermarks s in
  set_shared l (lg_pending l) (mkStatus (mkMarks (wm_Reserved m) (wm_Written m) (wm_Written m)) (st_PendingRecords s) (st_PendingBytes s) (st_WriteCalls s) (w_syncs w) (st_RotationCalls s) (st_Poisoned s) (st_Closed s)) (lg_terminal l).

Definition bump_writes (w : writer) : writer := mkWriter (w_active w) (w_deferred w) (w_pending w) (w_encoded w) (w_bytes w) (w_waiters w) (w_needSync w) ((w_writes w + 1) mod two64) (w_syncs w) (w_fault w).
Definition bump_syncs (w : writer) : writer := mkWriter (w_active w) (w_deferred w) (w_pending w) (w_encoded w) (w_bytes w) (w_waiters w) (w_needSync w) (w_writes w) ((w_syncs w + 1) mod two64) (w_fault w).
Definition empty_buffer (w : writer) : writer := mkWriter (w_active w) (w_deferred w) [] [] 0 [] false (w_writes w) (w_syncs w) (w_fault w).

Definition flush_sync (l : Log) (w : writer) (o : os lpath C) : os lpath C * (Log * writer * option goerror) :=
  if w_needSync w then
    match segment_sync (active_of l w) o with
    | (o, Err e) => (o, (l, w, Some e))
    | (o, Ok _) =>
        let w := bump_syncs w in
        let l := count_sync l w in
        (o, (foldl (fun l p => complete l (pr_request p) (Ok (pr_result p))) l (w_waiters w), w, None))
    end
  else (o, (l, w, None)).

Definition flush (l : Log) (w : writer) (o : os lpath C) : os lpath C * (Log * writer * option goerror) :=
  if len (w_pending w) =? 0 then (o, (l, w, None))
  else
    match appendEncoded (active_of l w) (w_encoded w) (map (fun p => mkExtent (pr_result p) (pr_size p)) (w_pending w)) o with
    | (o, Err e) => (o, (l, w, Some (e ++ [recordlog_ErrCorrupt])))
    | (o, Ok s) =>
        let l := put_active l w s in
        let w := bump_writes w in
        let '(o, (l, w, e)) := flush_sync (count_write l w) w o in
        (o, (l, match e with Some _ => w | None => empty_buffer w end, e))
    end.

(** [stop] *)
Definition stop (l : Log) (w : writer) (q : nat) (o : os lpath C) : os lpath C * (Log * writer) :=
  match w_fault w with
  | Some f => (o, (complete l q (Err f), w))
  | None =>
      match segment_sync (active_of l w) o with
      | (o, Err e) => let '(l, w, f) := poison l w e in (o, (complete l q (Err f), w))
      | (o, Ok _) => let w := bump_syncs w in (o, (complete (count_sync l w) q (Ok (mkAppend 0 (mkPos 0 0))), w))
      end
  end.

(** ** The loop of [run] *)

(** Where the writer is: waiting for a request, collecting more requests for the
    buffer, or finished. *)
Inductive wpc := WIdle | WCollect | WStopped.

Definition set_deferred (w : writer) (q : option nat) : writer := mkWriter (w_active w) q (w_pending w) (w_encoded w) (w_bytes w) (w_waiters w) (w_needSync w) (w_writes w) (w_syncs w) (w_fault w).

(** [nextRequest]; [None] when it would block *)
Definition nextRequest (l : Log) (w : writer) : option (Log * writer * nat) :=
  match w_deferred w, lg_requests l with
  | Some q, _ => Some (l, set_deferred w None, q)
  | None, q :: rest => Some (set_requests l rest, w, q)
  | None, [] => None
  end.

Definition is_stop (l : Log) (q : nat) : bool := match lg_heap l !! q with Some r => rq_stop r | None => false end.

(** One turn of the outer loop, up to the inner loop. *)
Definition idle_turn (l : Log) (w : writer) (ctxErr : option goerror) (o : os lpath C) : option (os lpath C * (Log * writer * wpc)) :=
  match nextRequest l w with
  | None => None
  | Some (l, w, q) => Some
      (if is_stop l q then let '(o, (l, w)) := stop l w q o in (o, (l, w, WStopped))
       else match w_fault w with
       | Some f => (o, (reject l q f, w, WIdle))
       | None => let '(o, (l, w, ok)) := stage l w q ctxErr o in (o, (l, w, if ok then WCollect else WIdle))
       end)
  end.

(** [flush:] *)
Definition flush_turn (l : Log) (w : writer) (o : os lpath C) : os lpath C * (Log * writer * wpc) :=
  let '(o, (l, w, e)) := flush l w o in
  match e with
  | Some e => let '(l, w, _) := poison l w e in (o, (l, w, WIdle))
  | None => (o, (l, w, WIdle))
  end.

(** One turn of the inner loop. *)
Definition collect_turn (l : Log) (w : writer) (ctxErr : option goerror) (o : os lpath C) : os lpath C * (Log * writer * wpc) :=
  if (len (w_pending w) <? cf_BufferRecords (lg_cfg l)) && (w_bytes w <? cf_BufferBytes (lg_cfg l)) then
    match lg_requests l with
    | [] => flush_turn l w o
    | q :: rest =>
        let l := set_requests l rest in
        if is_stop l q || negb (canStage l w q) then flush_turn l (set_deferred w (Some q)) o
        else
          let '(o, (l, w, ok)) := stage l w q ctxErr o in
          if negb ok && bool_decide (is_Some (w_fault w)) then flush_turn l w o else (o, (l, w, WCollect))
    end
  else flush_turn l w o.

(** ** Clients *)

(** [Append] up to the reservation of the bytes. *)
Definition append_acquire (l : Log) (payload : list Z) (sync : bool) : attempt (Log * nat) :=
  if lg_maxPayloadBytes l <? len payload then Return (Err [recordlog_ErrPayloadTooBig])
  else match PhysicalRecordSize (len payload) with
  | Err e => Return (Err e)
  | Ok physical =>
      match budget_acquire (lg_budget l) physical with
      | Return (Ok b) => Return (Ok (new_request (set_budget l b) (mkRequest payload physical sync physical false false false None None)))
      | Return (Err e) => Return (Err (match lg_terminal l with Some t => t | None => if lg_closing l then [recordlog_ErrClosed] else e end))
      | Wait c => Wait c
      end
  end.

(** The ways out of [Append] after the reservation: the bytes are given back. *)
Definition append_abandon (l : Log) (q : nat) : Log :=
  match lg_heap l !! q with
  | None => l
  | Some r => set_request (set_budget l (budget_release (lg_budget l) (rq_budget r))) q (clear_budget r)
  end.

Definition submit_error (l : Log) : goerror := default [recordlog_ErrClosed] (lg_terminal l).

(** [l.requests <- request]; [None] when the channel is full *)
Definition append_send (l : Log) (q : nat) : option Log :=
  if len (lg_requests l) <? cf_QueueCapacity (lg_cfg l) then Some (set_requests l (lg_requests l ++ [q])) else None.

Definition stop_request : appendRequest := mkRequest [] 0 false 0 true false false None None.

(** [Close] up to the stop request. *)
Definition close_submit (l : Log) : Log := let l := set_closing l in set_budget l (budget_close (lg_budget l)).

(** ** Reading *)

Definition log_usable (l : Log) : res unit :=
  match lg_terminal l with Some t => Err t | None => if lg_closing l then Err [recordlog_ErrClosed] else Ok tt end.

(** [Read] when the payload is still in the buffer. *)
Definition read_pending (l : Log) (addr : Z) : res (option (list Z)) :=
  raise [recordlog_ErrInvalidVAddr] when negb (VAddr_Valid addr) ;;
  let! _ := log_usable l in Ok (lg_pending l !! addr).

(** The rest of [Read]. *)
Definition read_segment (l : Log) (addr : Z) (o : os lpath C) : os lpath C * (Log * res (list Z)) :=
  match pin (lg_registry l) (SegmentID addr) with
  | Err e => (o, (l, Err e))
  | Ok (r, p) =>
      let '(o, x) := pin_read r p addr o in
      match pin_release r p with
      | Ok (r, _) => (o, (set_registry l r, x))
      | Err e => (o, (set_registry l r, Err (match x with Ok _ => e | Err e' => e' ++ e end)))
      end
  end.

Definition Log_Read (l : Log) (addr : Z) (o : os lpath C) : os lpath C * (Log * res (list Z)) :=
  match read_pending l addr with
  | Err e => (o, (l, Err e))
  | Ok (Some payload) => (o, (l, Ok payload))
  | Ok None => read_segment l addr o
  end.

Record scanSnapshot := mkScanSnapshot { sn_written : LogPos; sn_reserved : LogPos; sn_pending : list LogRecord }.

(** A payload of the buffer with its result, as [snapshotForScan] rebuilds it. *)
Definition pending_result (addr : Z) (payload : list Z) : LogRecord :=
  let size := match PhysicalRecordSize (len payload) with Ok n => n | Err _ => 0 end in
  (match NewAppendResult addr size with Ok r => r | Err _ => mkAppend 0 (mkPos 0 0) end, payload).

Definition addr_le (a b : LogRecord) : Prop := ar_Addr a.1 <= ar_Addr b.1.
#[export] Instance addr_le_dec a b : Decision (addr_le a b).
Proof. unfold addr_le. apply _. Defined.

Definition snapshotForScan (l : Log) : scanSnapshot :=
  mkScanSnapshot (wm_Written (st_Watermarks (lg_status l))) (wm_Reserved (st_Watermarks (lg_status l)))
    (merge_sort addr_le (map (fun '(a, p) => pending_result a p) (map_to_list (lg_pending l)))).

Definition rec_start (r : LogRecord) : LogPos := mkPos (SegmentID (ar_Addr r.1)) (Offset (ar_Addr r.1)).

Definition validPendingBoundary (s : scanSnapshot) (p : LogPos) : bool :=
  bool_decide (p = sn_written s) || bool_decide (p = sn_reserved s) || existsb (fun r => bool_decide (p = rec_start r) || bool_decide (p = ar_End r.1)) (sn_pending s).

(** The end up to which a pinned segment is scanned. *)
Definition scan_limit (s : scanSnapshot) (id : Z) (e : registryEntry) : Z :=
  match re_active e, re_sealed e with
  | Some a, _ => if (id =? pos_SegmentID (sn_written s)) && (pos_Offset (sn_written s) <? as_end a) then pos_Offset (sn_written s) else as_end a
  | None, Some x => ds_ValidEnd (sl_summary x)
  | None, None => 0
  end.

(** The loop of [Scan] over the pins; the visitor is the list of its calls. *)
Fixpoint scan_pins (r : segmentRegistry) (s : scanSnapshot) (from : LogPos) (pins : list segmentPin) (found : bool) (visits : list LogRecord) : lio (bool * list LogRecord) :=
  match pins with
  | [] => io_ret (found, visits)
  | p :: rest =>
      if (pn_id p <? pos_SegmentID from) || (pos_SegmentID (sn_written s) <? pn_id p) then scan_pins r s from rest found visits
      else
        let here := pn_id p =? pos_SegmentID from in
        let found := found || here in
        let start := if here then pos_Offset from else SegmentHeaderSize in
        match rg_heap r !! pn_entry p with
        | None => io_fail [recordlog_ErrSegmentMissing]
        | Some e =>
            let limit := scan_limit s (pn_id p) e in
            if limit <? start then
              if bool_decide (is_Some (re_active e)) && (pn_id p =? pos_SegmentID (sn_reserved s)) && validPendingBoundary s from then scan_pins r s from rest found visits
              else io_fail [recordlog_ErrInvalidLogPos]
            else if start =? limit then scan_pins r s from rest found visits
            else
              let* more := (match re_active e, re_sealed e with
                            | Some a, _ => scanTo a start limit
                            | None, Some x => sealed_scan x start
                            | None, None => io_fail [recordlog_ErrSegmentMissing]
                            end) in
              scan_pins r s from rest found (visits ++ more)
        end
  end.

(** [releasePins]: the errors are dropped. *)
Definition releasePins (r : segmentRegistry) (pins : list segmentPin) : segmentRegistry :=
  foldl (fun r p => match pin_release r p with Ok (r', _) => r' | Err _ => r end) r pins.

(** [Scan] once it has its snapshot: the pins, the loop and the pending records. *)
Definition scan_run (l : Log) (snapshot : scanSnapshot) (from : LogPos) (o : os lpath C) : os lpath C * (Log * res (list LogRecord)) :=
  match pinSnapshot (lg_registry l) with
  | Err e => (o, (l, Err e))
  | Ok (r, pins) =>
      let '(o, x) := scan_pins r snapshot from pins false [] o in
      (o, (set_registry l (releasePins r pins),
           match x with
           | Err e => Err e
           | Ok (found, visits) =>
               if negb found then Err [recordlog_ErrInvalidLogPos]
               else Ok (visits ++ filter (fun r => 0 <= LogPos_Compare (rec_start r) from) (sn_pending snapshot))
           end))
  end.

Definition Log_Scan (l : Log) (from : LogPos) (o : os lpath C) : os lpath C * (Log * res (list LogRecord)) :=
  if negb (LogPos_Valid from) then (o, (l, Err [recordlog_ErrInvalidConfig]))
  else match log_usable l with
  | Err e => (o, (l, Err e))
  | Ok _ => scan_run l (snapshotForScan l) from o
  end.

(** [ScanSegment]: one turn, since [pinSealed] may have to wait. *)
Definition Log_ScanSegment (l : Log) (id : Z) (o : os lpath C) : os lpath C * (Log * attempt (list LogRecord)) :=
  if id =? 0 then (o, (l, Return (Err [recordlog_ErrInvalidConfig])))
  else match log_usable l with
  | Err e => (o, (l, Return (Err e)))
  | Ok _ =>
      let snapshot := lp_Snapshot (os_user o) in
      if negb (log_snapshot_valid snapshot) || (ls_ActiveSegmentID snapshot =? id) then (o, (l, Return (Err [recordlog_ErrInvalidConfig])))
      else if negb (bool_decide (is_Some (sealedSummary snapshot id))) then (o, (l, Return (Err [recordlog_ErrSegmentMissing])))
      else match pinSealed (lg_registry l) id with
      | Wait c => (o, (l, Wait c))
      | Return (Err e) => (o, (l, Return (Err e)))
      | Return (Ok (r, p)) =>
          let '(o, x) := scanSealed r p SegmentHeaderSize o in
          match pin_release r p with
          | Ok (r, _) => (o, (set_registry l r, Return x))
          | Err e => (o, (set_registry l r, Return (Err (match x with Ok _ => e | Err e' => e' ++ e end))))
          end
      end
  end.

(** ** Opening *)

(** [newLog]: the log, its writer and where the writer starts. *)
Definition newLog (cfg : Config) (maxPayloadBytes : Z) (active : activeSegment) (registry : segmentRegistry) : res (Log * writer) :=
  raise [recordlog_ErrInvalidConfig] when negb (config_valid cfg (sh_SegmentSize (as_header active)) maxPayloadBytes) ;;
  match entry_at registry (rg_active registry) with
  | None => Err [recordlog_ErrInvalidConfig]
  | Some (loc, e) =>
      raise [recordlog_ErrInvalidConfig] when
        rg_closed registry || negb (rg_active registry =? sh_SegmentID (as_header active)) || negb (bool_decide (is_Some (re_active e))) ;;
      let initial := mkPos (sh_SegmentID (as_header active)) (as_end active) in
      Ok (mkLog cfg maxPayloadBytes [] ∅ 0 (newByteBudget (cf_MaxQueuedBytes cfg)) registry false ∅ (mkStatus (mkMarks initial initial initial) 0 0 0 0 0 false false) None,
          mkWriter loc None [] [] 0 [] false 0 0 None)
  end.

(** [fail(err)]: the sealed segments that are open are closed. *)
Fixpoint close_all_sealed (sealed : list sealedSegment) (o : os lpath C) : os lpath C * goerror :=
  match sealed with
  | [] => (o, [])
  | x :: rest => let '(o, (_, c)) := sealed_close x o in let '(o, e) := close_all_sealed rest o in (o, default [] c ++ e)
  end.
Definition fail_open {A} (e : goerror) (sealed : list sealedSegment) : lio A := fun o => let '(o, e') := close_all_sealed sealed o in (o, Err (e ++ e')).

(** The loop of [OpenWithFaultHook] over the sealed segments. *)
Fixpoint open_all_sealed (snapshot : LogSnapshot) (summaries : list SegmentSummary) (opened : list sealedSegment) : lio (list sealedSegment) := fun o =>
  match summaries with
  | [] => (o, Ok opened)
  | x :: rest =>
      match openSealedSegment (log_headerFor snapshot (ds_SegmentID x)) x o with
      | (o, Ok segment) => open_all_sealed snapshot rest (opened ++ [segment]) o
      | (o, Err e) => fail_open e opened o
      end
  end.

Definition Open (cfg : Config) : lio (Log * writer) :=
  let* snapshot := log_snapshot in
  if negb (log_snapshot_valid snapshot) || negb (config_valid cfg (ls_SegmentSize snapshot) (ls_MaxPayloadBytes snapshot)) then io_fail [recordlog_ErrInvalidConfig]
  else
    let* snapshot := recoverRotation snapshot in
    let* sealed := open_all_sealed snapshot (ls_SealedSegments snapshot) [] in
    fun o =>
      match openActiveSegment (log_headerFor snapshot (ls_ActiveSegmentID snapshot)) o with
      | (o, Err e) => fail_open e sealed o
      | (o, Ok (active, _)) =>
          match newSegmentRegistry active sealed with
          | Err e => let '(o, _) := active_close active o in fail_open e sealed o
          | Ok registry =>
              match newLog cfg (ls_MaxPayloadBytes snapshot) active registry with
              | Ok x => (o, Ok x)
              | Err e => match close_turn registry with
                         | Return (Ok (_, entries)) => let '(o, _) := close_entries entries o in (o, Err e)
                         | _ => (o, Err e)
                         end
              end
          end
      end.
End Writer.

(** * What a rotation of the record log leaves alone

    File operations do not touch the catalog, a rotation renames and creates only
    its own files, and a rotation that succeeds had a generation and a segment
    number left. *)

Section User.
Context {P C : Type} `{Countable P}.

Definition keeps_user {A} (c : io P C A) : Prop := forall o, os_user (c o).1 = os_user o.

Lemma user_next_fault (o : os P C) : os_user (next_fault o).1 = os_user o.
Proof. unfold next_fault. now destruct (os_faults o). Qed.

Lemma user_bind {A B} (c : io P C A) (k : A -> io P C B) : keeps_user c -> (forall x, keeps_user (k x)) -> keeps_user (io_bind c k).
Proof. intros Hc Hk o. unfold io_bind. specialize (Hc o). destruct (c o) as [o1 [x|e]]; cbn in *; [now rewrite Hk|exact Hc]. Qed.

Lemma user_const {A} (r : res A) : keeps_user (fun o => (o, r)).
Proof. now intros o. Qed.

Ltac after_fault := intros o; pose proof (user_next_fault o) as Hn; destruct (next_fault o) as [o' [n|]]; cbn in *.

Lemma user_point : keeps_user (fs_point (P := P)).
Proof. unfold fs_point. after_fault; congruence. Qed.

Lemma user_write f off bytes : keeps_user (fs_write (P := P) f off bytes).
Proof. unfold fs_write. after_fault; congruence. Qed.

Lemma user_create (p : P) : keeps_user (fs_create p).
Proof. unfold fs_create. after_fault; [congruence|]. destruct (exists_path o' p); cbn; congruence. Qed.

Lemma user_rename (p q : P) : keeps_user (fs_rename p q).
Proof.
  unfold fs_rename. after_fault; [destruct (n =? 0)%nat; [exact Hn|]|destruct (exists_path o' p); [|exact Hn]]; cbn; destruct (os_names o' !! p); cbn; congruence.
Qed.

Lemma user_test (p : P) : keeps_user (fs_exists p).
Proof. now intros o. Qed.
End User.

Create HintDb user.
#[export] Hint Resolve user_const user_point user_write user_create user_rename user_test : user.
#[export] Hint Extern 2 (keeps_user (io_bind _ _)) => apply user_bind; [|intros ?] : user.
#[export] Hint Extern 2 (keeps_user (io_ret _)) => exact (user_const _) : user.
#[export] Hint Extern 2 (keeps_user (io_fail _)) => exact (user_const _) : user.
#[export] Hint Extern 2 (keeps_user (io_lift _)) => exact (user_const _) : user.

Section Frame.
Context {C : Type} `{!LogPort C}.

Lemma user_prepareSeal s : keeps_user (C := C) (prepareSeal s).
Proof. unfold prepareSeal, hitSegmentFault, log_writeFullAt, log_file_Sync. destruct (as_file s); [destruct (as_sealed s)|]; auto 12 with user. Qed.

Lemma user_installJournal j : keeps_user (C := C) (installRotationJournal j).
Proof.
  unfold installRotationJournal, hitSegmentFault, log_writeFullAt, log_file_Sync, log_file_Close, syncDir, ensureJournalDirectory. apply user_bind; [auto with user|intros x]. apply user_bind; [auto with user|intros ?]. apply user_bind; [auto with user|intros found]. destruct found; auto 24 with user.
Qed.

Lemma user_publish s sum : keeps_user (C := C) (publishPreparedSeal s sum).
Proof. unfold publishPreparedSeal, hitSegmentFault, syncDir. destruct (_ || _); auto 12 with user. Qed.

Lemma user_createActive h : keeps_user (C := C) (createActiveSegment h).
Proof. unfold createActiveSegment, hitSegmentFault, log_writeFullAt, log_file_Sync, syncDir, ensureRecordsDirectory. auto 24 with user. Qed.

Lemma user_close s (o : os lpath C) : os_user (active_close s o).1 = os_user o.
Proof. destruct (close_active_faults s o) as [-> | ->]; reflexivity. Qed.

Lemma user_prepareFiles old sum h : keeps_user (C := C) (prepareRotationFiles old sum h).
Proof.
  intros o. unfold prepareRotationFiles. pose proof (user_publish old sum o) as H1. destruct (publishPreparedSeal old sum o) as [o1 r1]. pose proof (user_createActive h o1) as H2. destruct (createActiveSegment h o1) as [o2 r2]. cbn [fst] in *.
  destruct r1 as [x|e], r2 as [y|e2]; cbn; try congruence. pose proof (user_close y o2) as H3. destruct (active_close y o2) as [o3 [s3 c3]]. cbn in *. congruence.
Qed.

(** The names that a rotation of segment [id] to [nid] uses. *)
Definition rotation_name (id nid : Z) (q : lpath) : Prop := q = LRotation \/ q = LRotationTmp \/ q = LActive id \/ q = LSealed id \/ q = LCreating nid \/ q = LActive nid.

Lemma keeps_prepareSeal q s : keeps q (C := C) (prepareSeal s).
Proof.
  unfold prepareSeal, hitSegmentFault, log_writeFullAt, log_file_Sync. destruct (as_file s); [destruct (as_sealed s)|]; try (now intros o). repeat first [apply keeps_bind; [|intros ?] | apply keeps_point | apply keeps_write | apply keeps_lift | apply keeps_ret].
Qed.

Lemma keeps_publish q s sum : q <> LActive (sh_SegmentID (as_header s)) -> q <> LSealed (sh_SegmentID (as_header s)) -> keeps q (C := C) (publishPreparedSeal s sum).
Proof.
  intros H1 H2. unfold publishPreparedSeal, hitSegmentFault, syncDir. destruct (_ || _); [now intros o|]. repeat first [apply keeps_bind; [|intros ?] | apply keeps_point | apply keeps_rename; assumption | apply keeps_ret].
Qed.

Lemma rotate_segments_ok old (o o' : os lpath C) r : rotate_segments old o = (o', Ok r) -> let s := lp_Snapshot (os_user o) in
  let j := log_rotation_journal s (summaryLocked old) in
  exists o3 installed, os_user o3 = os_user o /\ installCatalogRotation s j o3 = (o', Ok installed) /\ validateRotationResult s installed (summaryLocked old) (lj_NewActive j) (lj_NextSegmentID j) = Ok tt /\
    ls_ActiveSegmentID s = sh_SegmentID (as_header old) /\ forall q, ~ rotation_name (sh_SegmentID (as_header old)) (ls_NextSegmentID s) q -> os_names o' !! q = os_names o !! q.
Proof.
  intros E s j. unfold rotate_segments in E. unfold io_bind at 1, log_snapshot in E. fold s in E. destruct (negb (log_snapshot_valid s)); [discriminate|]. destruct (_ || _) eqn:Ec in E; [discriminate|]. apply orb_false_iff in Ec as [Ec _]. apply orb_false_iff in Ec as [Ec _]. apply negb_false_iff, Z.eqb_eq in Ec. fold j in E. cbv zeta in E.
  unfold io_bind at 1 in E. pose proof (user_prepareSeal old o) as U1. pose proof (fun q => keeps_prepareSeal q old o) as K1. destruct (prepareSeal old o) as [o1 [sum|e]]; [|discriminate]. cbn [fst] in U1, K1. destruct (negb (bool_decide (sum = summaryLocked old))); [discriminate|].
  unfold io_bind at 1 in E. pose proof (user_installJournal j o1) as U2. pose proof (fun q H1 H2 => log_installJournal_keeps q j H1 H2 o1) as K2. destruct (installRotationJournal j o1) as [o2 [u|e]]; [|discriminate]. cbn [fst] in U2, K2.
  unfold io_bind at 1 in E. set (nh := log_headerFor s (lj_NewActive j)) in *. pose proof (user_prepareFiles old sum nh o2) as U3. assert (K3 : forall q, ~ rotation_name (sh_SegmentID (as_header old)) (ls_NextSegmentID s) q -> forall o3 x, prepareRotationFiles old sum nh o2 = (o3, Ok x) -> os_names o3 !! q = os_names o2 !! q).
  { intros q Hq o3 x Ex. unfold prepareRotationFiles in Ex. pose proof (keeps_publish q old sum ltac:(unfold rotation_name in Hq; tauto) ltac:(unfold rotation_name in Hq; tauto) o2) as P1. destruct (publishPreparedSeal old sum o2) as [oa ra]. pose proof (create_keeps q nh ltac:(unfold rotation_name in Hq; cbn; tauto) ltac:(unfold rotation_name in Hq; cbn; tauto) oa) as P2. destruct (createActiveSegment nh oa) as [ob rb]. cbn [fst] in P1, P2. destruct ra, rb; try discriminate Ex; [injection Ex as <- _; congruence|]. destruct (active_close _ _) as [? [? ?]]. discriminate Ex. }
  destruct (prepareRotationFiles old sum nh o2) as [o3 [[[[a b] sum2] n]|e]]; [|discriminate]. cbn [fst] in U3. destruct (negb (bool_decide (sum2 = summaryLocked old))); [unfold fail_closing in E; destruct (active_close _ _) as [? [? ?]]; discriminate|].
  pose proof (fun q => installCatalog_keeps q s j o3) as K4. destruct (installCatalogRotation s j o3) as [o4 [installed|e]] eqn:Ei; [|unfold fail_closing in E; destruct (active_close _ _) as [? [? ?]]; discriminate]. cbn [fst] in K4.
  destruct (validateRotationResult _ _ _ _ _) as [[]|e] eqn:Ev; [|unfold fail_closing in E; destruct (active_close _ _) as [? [? ?]]; discriminate]. injection E as <- _. exists o3, installed. split; [congruence|]. split; [exact Ei|]. split; [exact Ev|]. split; [exact Ec|].
  intros q Hq. rewrite K4, (K3 q Hq o3 _ eq_refl), K2, K1; [reflexivity|unfold rotation_name in Hq; tauto|unfold rotation_name in Hq; tauto].
Qed.
End Frame.

Section Needs.
Context {C : Type} `{!LogPort C} `{!LogPortLaws C}.

Lemma log_install_range j : segmentFooter_u (log_footer (lj_Old j)) -> is_u32 (lj_NewActive j) -> is_u32 (lj_NextSegmentID j) -> forall n cur (o o' : os lpath C) st, lp_ok (os_user o) -> log_install_loop n cur j o = (o', Ok st) -> is_u64 (ls_Generation st).
Proof.
  intros H1 H2 H3. induction n as [|n IH]; intros cur o o' st Hok E; [discriminate|]. cbn [log_install_loop] in E. destruct (lp_Install _ _ _ _ _ _) as [[c fs] r] eqn:Ei. destruct (lp_install _ _ _ _ _ _ _ _ _ Hok H1 H2 H3 Ei) as (Hc & _ & Hr). pose proof (lu_gen _ (lp_range c Hc)) as Hg. destruct r as [s|e].
  - injection E as _ <-. destruct Hr as (-> & _). exact Hg.
  - destruct (committedRotation _ j); [injection E as _ <-; exact Hg|]. destruct (_ =? _); [discriminate|]. destruct (_ || _); [discriminate|]. refine (IH _ _ _ _ _ E). exact Hc.
Qed.

Lemma installCatalog_range s j (o o' : os lpath C) st : segmentFooter_u (log_footer (lj_Old j)) -> is_u32 (lj_NewActive j) -> is_u32 (lj_NextSegmentID j) -> lp_ok (os_user o) -> installCatalogRotation s j o = (o', Ok st) -> is_u64 (ls_Generation st).
Proof. intros H1 H2 H3. exact (log_install_range j H1 H2 H3 16 s o o' st). Qed.

(** A rotation that succeeds had room for one more. *)
Lemma rotate_needs old (o o' : os lpath C) r h recs : rotate_segments old o = (o', Ok r) -> lp_ok (os_user o) -> segmentHeader_u h -> segmentHeader_bad h = false -> log_recs h recs -> summaryLocked old = log_summary (sh_SegmentID h) recs ->
  ls_Generation (lp_Snapshot (os_user o)) < MaxUint64 /\ ls_NextSegmentID (lp_Snapshot (os_user o)) < CompactionSegmentBase.
Proof.
  intros E Hok Hu Hv Hr Hs. destruct (rotate_segments_ok _ _ _ _ E) as (o3 & st & U & Ei & Ev & _). set (s := lp_Snapshot (os_user o)) in *. set (j := log_rotation_journal s (summaryLocked old)) in *.
  pose proof (lp_range _ Hok) as [_ _ (_ & _ & Hn)]. fold s in Hn. assert (Hg : is_u64 (ls_Generation st)).
  { refine (installCatalog_range s j o3 o' st _ _ _ _ Ei); [cbn; rewrite Hs; now apply summary_range|exact Hn|cbn; unfold is_u32; apply Z.mod_pos_bound; lia|now rewrite U]. }
  clear Ei E. unfold validateRotationResult in Ev. inv_ok Ev. destruct_or?; bool_norm. unfold is_u64 in Hg. split; [lia|].
  assert (Hvalid : log_snapshot_valid st = true) by (destruct (log_snapshot_valid st); [reflexivity|discriminate]). unfold log_snapshot_valid in Hvalid. apply andb_true_iff in Hvalid as [Hvalid _]. apply andb_true_iff in Hvalid as [Hvalid _]. apply andb_true_iff in Hvalid as [Hvalid _]. apply negb_true_iff in Hvalid. rewrite !orb_false_iff in Hvalid. destruct Hvalid as (((( _ & Hb) & _) & _) & _). apply Z.leb_gt in Hb. cbn in *. lia.
Qed.
End Needs.
