(* ===== verification/LogQueue.v ===== *)
(** * The queue of the record log

    Clients and the writer as steps of one system: clients reserve bytes, submit,
    give up or close; the writer takes turns.  The byte budget accounts exactly for
    the requests that are not staged yet, and every accepted request is answered
    once. *)
From S2P Require Import Prelude Bytes Addr Crc32 RecordFormat Fs Catalog LogSegment LogRotate LogRegistry LogState.

Definition request_at (l : Log) (q : nat) (Q : appendRequest -> Prop) : Prop := exists r, lg_heap l !! q = Some r /\ Q r.

(** Submitted, or about to be: its bytes are reserved and nobody has answered. *)
Record unstaged (r : appendRequest) : Prop := mkUnstaged {
  un_flags : rq_reserved r = false /\ rq_completed r = false /\ rq_response r = None;
  un_bytes : rq_budget r = rq_physical r /\ 0 <= rq_physical r;
}.
(** Staged, and waiting for the sync. *)
Record waiting (r : appendRequest) : Prop := mkWaiting {
  wt_flags : rq_reserved r = true /\ rq_completed r = false /\ rq_response r = None;
  wt_bytes : rq_budget r = 0;
}.
(** Answered. *)
Record answered (r : appendRequest) : Prop := mkAnswered { an_flags : rq_completed r = true; an_response : is_Some (rq_response r) }.

Definition physical_of (l : Log) (q : nat) : Z := match lg_heap l !! q with Some r => rq_physical r | None => 0 end.
Definition bytes_held (l : Log) (U : list nat) : Z := foldr (fun q n => physical_of l q + n) 0 U.

(** [U]: the requests that clients hold or that are queued; [S]: those that wait
    for a sync; [G]: those whose clients have given up before submitting. *)
Record accounted (l : Log) (U S G : list nat) : Prop := mkAccounted {
  ac_nodup : NoDup (U ++ S);
  ac_unstaged : forall q, q ∈ U -> request_at l q unstaged;
  ac_waiting : forall q, q ∈ S -> request_at l q waiting;
  ac_answered : forall q, is_Some (lg_heap l !! q) -> q ∉ U -> q ∉ S -> q ∉ G -> request_at l q answered;
  ac_fresh : forall q, is_Some (lg_heap l !! q) -> (q < lg_fresh l)%nat;
  ac_gone : forall q, q ∈ G -> q ∉ U /\ q ∉ S /\ (q < lg_fresh l)%nat;
  ac_used : bb_used (lg_budget l) = bytes_held l U;
  ac_limit : bb_used (lg_budget l) <= bb_limit (lg_budget l) < two64;
  ac_calm : bb_panicked (lg_budget l) = false;
}.

Lemma bytes_held_cons l q U : bytes_held l (q :: U) = physical_of l q + bytes_held l U.
Proof. reflexivity. Qed.

Lemma bytes_held_nonneg l U : (forall q, q ∈ U -> request_at l q unstaged) -> 0 <= bytes_held l U.
Proof.
  induction U as [|q U IH]; intros H; [cbn; lia|]. rewrite bytes_held_cons. specialize (IH ltac:(intros x Hx; apply H; now right)). destruct (H q ltac:(now left)) as (r & E & [_ [_ Hr]]). unfold physical_of. rewrite E. lia.
Qed.

Lemma bytes_held_ext l l' U : (forall q, q ∈ U -> physical_of l' q = physical_of l q) -> bytes_held l' U = bytes_held l U.
Proof. induction U as [|q U IH]; intros H; [reflexivity|]. rewrite !bytes_held_cons, H by now left. rewrite IH; [reflexivity|]. intros x Hx. apply H. now right. Qed.

Lemma bytes_held_app l A B : bytes_held l (A ++ B) = bytes_held l A + bytes_held l B.
Proof. induction A as [|q A IH]; [reflexivity|]. cbn [app]. rewrite !bytes_held_cons, IH. lia. Qed.

Lemma bytes_held_perm l A B : A ≡ₚ B -> bytes_held l A = bytes_held l B.
Proof. induction 1; rewrite ?bytes_held_cons; [reflexivity|congruence|lia|congruence]. Qed.

#[export] Instance accounted_perm l : Proper (Permutation ==> Permutation ==> Permutation ==> iff) (accounted l).
Proof.
  assert (H : forall U U' S S' G G', U ≡ₚ U' -> S ≡ₚ S' -> G ≡ₚ G' -> accounted l U S G -> accounted l U' S' G').
  { intros U U' S S' G G' H1 H2 H3 []. constructor; try assumption; setoid_rewrite <- H1 || idtac; setoid_rewrite <- H2 || idtac; setoid_rewrite <- H3 || idtac; try assumption. rewrite <- (bytes_held_perm l _ _ H1). assumption. }
  intros U U' H1 S S' H2 G G' H3. split; apply H; auto using Permutation_sym.
Qed.

(** ** How the books change *)

Lemma accounted_same l l' U S G : lg_heap l' = lg_heap l -> lg_fresh l' = lg_fresh l -> bb_used (lg_budget l') = bb_used (lg_budget l) ->
  bb_limit (lg_budget l') = bb_limit (lg_budget l) -> bb_panicked (lg_budget l') = bb_panicked (lg_budget l) -> accounted l U S G -> accounted l' U S G.
Proof.
  intros H1 H2 H3 H4 H5 []. constructor; unfold request_at, physical_of in *; rewrite ?H1, ?H2, ?H3, ?H4, ?H5; try assumption.
  rewrite (bytes_held_ext l l') by (intros q _; unfold physical_of; now rewrite H1). assumption.
Qed.

(** Where a request of [U] goes. *)
Inductive moved (q : nat) (r : appendRequest) (S G : list nat) : list nat -> list nat -> Prop :=
  | mv_answered : answered r -> moved q r S G S G
  | mv_waiting : waiting r -> moved q r S G (q :: S) G
  | mv_gone : moved q r S G S (q :: G).

Lemma accounted_front l q U S G : accounted l (q :: U) S G -> exists r, lg_heap l !! q = Some r /\ unstaged r /\ q ∉ U /\ q ∉ S /\ q ∉ G /\ rq_physical r <= bb_used (lg_budget l).
Proof.
  intros []. destruct (ac_unstaged0 q ltac:(now left)) as (r & E & Hr). exists r. cbn in ac_nodup0. rewrite NoDup_cons, not_elem_of_app in ac_nodup0. destruct ac_nodup0 as [[N1 N2] _].
  repeat (split; [assumption|]). split; [intros HG; destruct (ac_gone0 q HG) as [X _]; apply X; now left|].
  rewrite ac_used0, bytes_held_cons. unfold physical_of at 1. rewrite E. pose proof (bytes_held_nonneg l U ltac:(intros x Hx; apply ac_unstaged0; now right)). lia.
Qed.

Lemma accounted_moved l l' q r r' U S G S' G' : accounted l (q :: U) S G -> lg_heap l !! q = Some r -> lg_heap l' = <[q := r']> (lg_heap l) -> lg_fresh l' = lg_fresh l ->
  bb_used (lg_budget l') = bb_used (lg_budget l) - rq_physical r -> bb_limit (lg_budget l') = bb_limit (lg_budget l) -> bb_panicked (lg_budget l') = false ->
  moved q r' S G S' G' -> accounted l' U S' G'.
Proof.
  intros Ha E Hh Hf Hu Hl Hp Hm. pose proof (accounted_front _ _ _ _ _ Ha) as (r0 & E0 & Hr & N1 & N2 & N3 & _). assert (r0 = r) by congruence. subst r0. destruct Ha.
  assert (Hother : forall x (Q : appendRequest -> Prop), x <> q -> request_at l x Q -> request_at l' x Q).
  { intros x Q Hx (rx & Ex & HQ). exists rx. rewrite Hh, lookup_insert_ne by congruence. auto. }
  assert (Hdom : forall x, is_Some (lg_heap l' !! x) -> is_Some (lg_heap l !! x)).
  { intros x. rewrite Hh. destruct (decide (x = q)) as [->|Hx]; [intros _; eauto|now rewrite lookup_insert_ne by congruence]. }
  assert (Hheld : bytes_held l' U = bb_used (lg_budget l')).
  { rewrite Hu, ac_used0, bytes_held_cons. unfold physical_of at 1. rewrite E. rewrite (bytes_held_ext l l'); [lia|]. intros x Hx. unfold physical_of. rewrite Hh, lookup_insert_ne by set_solver. reflexivity. }
  cbn in ac_nodup0. apply NoDup_cons in ac_nodup0 as [Nq Nd].
  assert (Hlq : (q < lg_fresh l)%nat) by (apply ac_fresh0; eauto).
  constructor; rewrite ?Hf, ?Hl, ?Hheld; try assumption; try reflexivity.
  - destruct Hm; [exact Nd| |exact Nd]. rewrite <- Permutation_middle. apply NoDup_cons. auto.
  - intros x Hx. apply Hother; [set_solver|]. apply ac_unstaged0. now right.
  - intros x Hx. destruct (decide (x = q)) as [->|Hne].
    + destruct Hm as [| Hw|]; [contradiction| |contradiction]. exists r'. rewrite Hh, lookup_insert_eq. auto.
    + apply Hother; [exact Hne|]. apply ac_waiting0. destruct Hm; set_solver.
  - intros x Hx X1 X2 X3. destruct (decide (x = q)) as [->|Hne].
    + destruct Hm as [Hw| |]; [|set_solver|set_solver]. exists r'. rewrite Hh, lookup_insert_eq. auto.
    + apply Hother; [exact Hne|]. apply ac_answered0; auto; destruct Hm; set_solver.
  - intros x Hx. apply ac_fresh0. auto.
  - intros x Hx. destruct (decide (x = q)) as [->|Hne].
    + destruct Hm; [contradiction|contradiction|]. auto.
    + destruct (ac_gone0 x ltac:(destruct Hm; set_solver)) as (G1 & G2 & G3). split; [set_solver|]. split; [destruct Hm; set_solver|exact G3].
  - rewrite Hu. pose proof (un_bytes _ Hr). lia.
Qed.

Lemma accounted_new l l' r q b U S G : accounted l U S G -> new_request (set_budget l b) r = (l', q) -> unstaged r -> bb_used b = bb_used (lg_budget l) + rq_physical r -> bb_limit b = bb_limit (lg_budget l) -> bb_used b <= bb_limit b ->
  bb_panicked b = false -> accounted l' (q :: U) S G.
Proof.
  intros [] E Hr Hu Hl Hle Hp. injection E as <- <-. set (l' := mkLog _ _ _ _ _ _ _ _ _ _ _). assert (Hnew : lg_heap l !! lg_fresh l = None) by (destruct (lg_heap l !! lg_fresh l) eqn:E; [|reflexivity]; specialize (ac_fresh0 _ ltac:(eauto)); lia).
  assert (Hlt : forall x, x ∈ U \/ x ∈ S -> (x < lg_fresh l)%nat).
  { intros x [Hx|Hx]; [destruct (ac_unstaged0 x Hx) as (y & Ey & _)|destruct (ac_waiting0 x Hx) as (y & Ey & _)]; eauto. }
  assert (Hother : forall x (Q : appendRequest -> Prop), x <> lg_fresh l -> request_at l x Q -> request_at l' x Q).
  { intros x Q Hx (rx & Ex & HQ). exists rx. cbn. rewrite lookup_insert_ne by congruence. auto. }
  constructor; cbn [lg_heap lg_fresh lg_budget l' set_budget]; rewrite ?Hl; try assumption.
  - cbn. apply NoDup_cons. split; [|assumption]. rewrite elem_of_app. intros Hx. specialize (Hlt _ Hx). lia.
  - intros x Hx. apply elem_of_cons in Hx as [->|Hx]; [exists r; cbn; now rewrite lookup_insert_eq|]. apply Hother; [pose proof (Hlt x (or_introl Hx)); lia|auto].
  - intros x Hx. apply Hother; [pose proof (Hlt x (or_intror Hx)); lia|auto].
  - intros x Hx X1 X2 X3. apply Hother; [set_solver|]. apply ac_answered0; [|set_solver..]. rewrite lookup_insert_ne in Hx by set_solver. exact Hx.
  - intros x [y Ey]. destruct (decide (x = lg_fresh l)) as [->|Hne]; [lia|]. rewrite lookup_insert_ne in Ey by congruence. specialize (ac_fresh0 x ltac:(eauto)). lia.
  - intros x Hx. destruct (ac_gone0 x Hx) as (G1 & G2 & G3). rewrite not_elem_of_cons. repeat split; [lia|assumption|assumption|lia].
  - rewrite Hu, bytes_held_cons. unfold physical_of at 1. cbn. rewrite lookup_insert_eq. rewrite (bytes_held_ext l l'), ac_used0; [lia|]. intros x Hx. unfold physical_of. cbn. rewrite lookup_insert_ne; [reflexivity|]. pose proof (Hlt x (or_introl Hx)). lia.
  - rewrite Hl in *. lia.
Qed.

(** ** The operations *)

Lemma release_spec b n : n <= bb_used b -> bb_panicked b = false ->
  bb_used (budget_release b n) = bb_used b - n /\ bb_limit (budget_release b n) = bb_limit b /\ bb_panicked (budget_release b n) = false.
Proof. intros H1 H2. unfold budget_release. destruct (_ <? _) eqn:E; bool_norm; [lia|]. auto. Qed.

Lemma complete_open l q r response : lg_heap l !! q = Some r -> rq_completed r = false ->
  complete l q response = set_request l q (mkRequest (rq_payload r) (rq_physical r) (rq_sync r) (rq_budget r) (rq_stop r) (rq_reserved r) true (rq_result r) (Some response)).
Proof. intros E Hc. unfold complete. now rewrite E, Hc. Qed.

Lemma accounted_complete l q U S G response : accounted l U (q :: S) G -> accounted (complete l q response) U S G.
Proof.
  intros Ha. pose proof Ha as []. destruct (ac_waiting0 q ltac:(now left)) as (r & E & [(F1 & F2 & F3) F4]). rewrite (complete_open _ _ _ _ E F2).
  set (r' := mkRequest _ _ _ _ _ _ _ _ _). rewrite <- Permutation_middle in ac_nodup0. apply NoDup_cons in ac_nodup0 as [Nq Nd]. rewrite not_elem_of_app in Nq. destruct Nq as [Nq1 Nq2].
  assert (Hother : forall x (Q : appendRequest -> Prop), x <> q -> request_at l x Q -> request_at (set_request l q r') x Q).
  { intros x Q Hx (rx & Ex & HQ). exists rx. cbn. rewrite lookup_insert_ne by congruence. auto. }
  assert (Hdom : forall x, is_Some (<[q := r']> (lg_heap l) !! x) -> is_Some (lg_heap l !! x)).
  { intros x. destruct (decide (x = q)) as [->|Hx]; [eauto|now rewrite lookup_insert_ne by congruence]. }
  constructor; cbn [lg_heap lg_fresh lg_budget set_request]; try assumption.
  - intros x Hx. apply Hother; [set_solver|auto].
  - intros x Hx. apply Hother; [set_solver|]. apply ac_waiting0. now right.
  - intros x Hx X1 X2 X3. destruct (decide (x = q)) as [->|Hne]; [exists r'; cbn; rewrite lookup_insert_eq; split; [reflexivity|constructor; [reflexivity|eexists; reflexivity]]|].
    apply Hother; [exact Hne|]. apply ac_answered0; auto. set_solver.
  - intros x Hx. auto.
  - intros x Hx. destruct (ac_gone0 x Hx) as (G1 & G2 & G3). set_solver.
  - rewrite ac_used0. symmetry. apply bytes_held_ext. intros x Hx. unfold physical_of. cbn. rewrite lookup_insert_ne; [reflexivity|set_solver].
Qed.

Lemma accounted_complete_all {A} (f : A -> nat) (response : A -> res AppendResult) : forall S l U G, accounted l U (map f S) G ->
  accounted (foldl (fun l p => complete l (f p) (response p)) l S) U [] G.
Proof. induction S as [|p S IH]; intros l U G Ha; [exact Ha|]. cbn [foldl]. apply IH, accounted_complete, Ha. Qed.

Lemma accounted_reject l q U S G e : accounted l (q :: U) S G -> accounted (reject l q e) U S G.
Proof.
  intros Ha. destruct (accounted_front _ _ _ _ _ Ha) as (r & E & Hr & _ & _ & _ & Hle). pose proof Hr as [(F1 & F2 & F3) [F4 F5]]. pose proof (ac_calm _ _ _ _ Ha) as Hc. pose proof (release_spec (lg_budget l) (rq_budget r) ltac:(lia) Hc) as (R1 & R2 & R3).
  unfold reject. rewrite E, F1, F2. cbn [negb andb]. destruct (rq_budget r =? 0) eqn:Eb; cbn [negb]; bool_norm.
  - rewrite (complete_open _ _ _ _ E F2). eapply (accounted_moved l _ q r); [exact Ha|exact E|reflexivity..| |reflexivity|exact Hc|apply mv_answered]; [cbn; lia|]. constructor; [reflexivity|eexists; reflexivity].
  - rewrite (complete_open _ q (clear_budget r)); [|cbn; apply lookup_insert_eq|exact F2]. eapply (accounted_moved l _ q r); [exact Ha|exact E|cbn; apply insert_insert_eq|reflexivity|cbn; rewrite R1; lia|exact R2|exact R3|apply mv_answered]. constructor; [reflexivity|eexists; reflexivity].
Qed.

(** The end of [stage]: the bytes are given back and a request without sync is answered. *)
Lemma accounted_staged l l1 q r result U S G : accounted l (q :: U) S G -> lg_heap l !! q = Some r -> lg_heap l1 = <[q := reserve_request r result]> (lg_heap l) -> lg_fresh l1 = lg_fresh l -> lg_budget l1 = lg_budget l ->
  let l2 := set_request (set_budget l1 (budget_release (lg_budget l1) (rq_budget r))) q (clear_budget (reserve_request r result)) in
  accounted (if rq_sync r then l2 else complete l2 q (Ok result)) U (if rq_sync r then q :: S else S) G.
Proof.
  intros Ha E H1 H2 H3 l2. destruct (accounted_front _ _ _ _ _ Ha) as (r0 & E0 & Hr & _ & _ & _ & Hle). assert (r0 = r) by congruence. subst r0. pose proof Hr as [(F1 & F2 & F3) [F4 F5]].
  pose proof (release_spec (lg_budget l) (rq_budget r) ltac:(lia) (ac_calm _ _ _ _ Ha)) as (R1 & R2 & R3).
  assert (Hh : lg_heap l2 = <[q := clear_budget (reserve_request r result)]> (lg_heap l)) by (cbn; rewrite H1; apply insert_insert_eq).
  destruct (rq_sync r).
  - eapply (accounted_moved l l2 q r); [exact Ha|exact E|exact Hh|exact H2|cbn; rewrite H3, R1; lia|cbn; rewrite H3; exact R2|cbn; rewrite H3; exact R3|apply mv_waiting]. constructor; cbn; auto.
  - rewrite (complete_open l2 q (clear_budget (reserve_request r result))); [|rewrite Hh; apply lookup_insert_eq|exact F2].
    eapply (accounted_moved l _ q r); [exact Ha|exact E|cbn [set_request lg_heap]; rewrite Hh; apply insert_insert_eq|exact H2|cbn; rewrite H3, R1; lia|cbn; rewrite H3; exact R2|cbn; rewrite H3; exact R3|apply mv_answered]. constructor; [reflexivity|eexists; reflexivity].
Qed.

Lemma PhysicalRecordSize_nonneg n p : 0 <= n -> PhysicalRecordSize n = Ok p -> 0 < p.
Proof. intros Hn E. destruct (PhysicalRecordSize_spec _ _ Hn E) as (H & _). lia. Qed.

Lemma accounted_acquire l payload sync l' q U S G : append_acquire l payload sync = Return (Ok (l', q)) -> accounted l U S G -> accounted l' (q :: U) S G.
Proof.
  intros E Ha. unfold append_acquire in E. destruct (_ <? _); [discriminate|]. destruct (PhysicalRecordSize _) as [physical|] eqn:Ep; [|discriminate]. apply PhysicalRecordSize_nonneg in Ep; [|apply len_nonneg].
  unfold budget_acquire in E. destruct (_ <? physical) eqn:E1; [discriminate|]. destruct (bb_closed _); [discriminate|]. destruct (_ <=? _) eqn:E2; [|discriminate]. injection E as <- <-. bool_norm. pose proof (ac_limit _ _ _ _ Ha) as Hl. assert (H0 : 0 <= bb_used (lg_budget l)) by (rewrite (ac_used _ _ _ _ Ha); apply bytes_held_nonneg, (ac_unstaged _ _ _ _ Ha)).
  rewrite Z.mod_small in E2 by lia. eapply (accounted_new l); [exact Ha|reflexivity|..]; cbn; [constructor; cbn; auto; lia|rewrite Z.mod_small by lia; reflexivity|reflexivity|rewrite Z.mod_small by lia; lia|apply (ac_calm _ _ _ _ Ha)].
Qed.

Lemma accounted_abandon l q U S G : accounted l (q :: U) S G -> accounted (append_abandon l q) U S (q :: G).
Proof.
  intros Ha. destruct (accounted_front _ _ _ _ _ Ha) as (r & E & [(F1 & F2 & F3) [F4 F5]] & _ & _ & _ & Hle). pose proof (release_spec (lg_budget l) (rq_budget r) ltac:(lia) (ac_calm _ _ _ _ Ha)) as (R1 & R2 & R3).
  unfold append_abandon. rewrite E. eapply (accounted_moved l _ q r); [exact Ha|exact E|reflexivity|reflexivity|cbn; rewrite R1; lia|exact R2|exact R3|apply mv_gone].
Qed.

(** The stop request holds no bytes. *)
Lemma accounted_stop_new l l' q U S G : accounted l U S G -> new_request l stop_request = (l', q) -> accounted l' (q :: U) S G.
Proof.
  intros Ha E. apply (accounted_new l l' stop_request q (lg_budget l) U S G Ha); [|repeat split; cbn; lia|cbn; lia|reflexivity|apply (ac_limit _ _ _ _ Ha)|apply (ac_calm _ _ _ _ Ha)]. rewrite <- E. reflexivity.
Qed.

Lemma accounted_stop_done l q r U S G response : accounted l (q :: U) S G -> lg_heap l !! q = Some r -> rq_physical r = 0 -> accounted (complete l q response) U S G.
Proof.
  intros Ha E Hz. destruct (accounted_front _ _ _ _ _ Ha) as (r0 & E0 & [(F1 & F2 & F3) [F4 F5]] & _). assert (r0 = r) by congruence. subst r0. rewrite (complete_open _ _ _ _ E F2).
  eapply (accounted_moved l _ q r); [exact Ha|exact E|reflexivity|reflexivity|cbn; lia|reflexivity|apply (ac_calm _ _ _ _ Ha)|apply mv_answered]. constructor; [reflexivity|eexists; reflexivity].
Qed.

Lemma accounted_poison l w cause U G : accounted l U (map pr_request (w_waiters w)) G -> (w_fault w <> None -> w_waiters w = []) ->
  let '(l', w', f) := poison l w cause in accounted l' U (map pr_request (w_waiters w')) G /\ w_fault w' = Some f /\ w_deferred w' = w_deferred w /\ lg_requests l' = lg_requests l /\ w_waiters w' = [] /\ lg_closing l' = lg_closing l /\ lg_cfg l' = lg_cfg l.
Proof.
  intros Ha Hf. unfold poison. destruct (w_fault w) as [f|] eqn:E; [rewrite (Hf ltac:(discriminate)) in *; auto 8|]. unfold setTerminal.
  assert (Hkeep : forall f (S : list pendingRecord) l, lg_requests (foldl (fun l p => complete l (pr_request p) (Err f)) l S) = lg_requests l /\ lg_closing (foldl (fun l p => complete l (pr_request p) (Err f)) l S) = lg_closing l /\ lg_cfg (foldl (fun l p => complete l (pr_request p) (Err f)) l S) = lg_cfg l).
  { intros f S. induction S as [|p S IH]; intros l0; [auto|]. cbn [foldl]. destruct (IH (complete l0 (pr_request p) (Err f))) as (-> & -> & ->). unfold complete. destruct (lg_heap l0 !! _) as [r|]; [|auto]. destruct (rq_completed r); auto. }
  destruct (lg_terminal l) as [t|] eqn:Et; cbn [w_waiters w_fault w_deferred map lg_requests set_shared lg_closing lg_cfg].
  - destruct (Hkeep t (w_waiters w) l) as (-> & -> & ->). split; [|auto 8]. apply (accounted_same (foldl (fun l p => complete l (pr_request p) (Err t)) l (w_waiters w))); try reflexivity. now apply accounted_complete_all.
  - match goal with |- context [foldl _ ?l0 _] => destruct (Hkeep (recordlog_ErrPoisoned :: cause) (w_waiters w) l0) as (-> & -> & ->) end. split; [|auto 8].
    match goal with |- accounted (set_shared (foldl ?f ?l0 ?S) _ _ _) _ _ _ => apply (accounted_same (foldl f l0 S)) end; try reflexivity. apply accounted_complete_all.
    apply (accounted_same l); try reflexivity; try assumption; cbn; unfold budget_close; now destruct (bb_closed (lg_budget l)).
Qed.

(** ** The turns of the writer *)

Record writer_ok (w : writer) : Prop := mkWriterOk {
  wk_sync : w_needSync w = false -> w_waiters w = [];
  wk_pending : w_pending w = [] -> w_waiters w = [];
  wk_fault : w_fault w <> None -> w_pending w = [];
}.

Definition queued (l : Log) (w : writer) : list nat := option_list (w_deferred w) ++ lg_requests l.
Definition waiters (w : writer) : list nat := map pr_request (w_waiters w).

(** What a part of a turn leaves alone. *)
Record same_queue (l : Log) (w : writer) (l' : Log) (w' : writer) : Prop := mkSameQueue {
  sq_queue : lg_requests l' = lg_requests l /\ w_deferred w' = w_deferred w;
  sq_rest : lg_closing l' = lg_closing l /\ lg_cfg l' = lg_cfg l;
}.

Lemma same_queue_refl l w : same_queue l w l w.
Proof. constructor; auto. Qed.

Lemma same_queue_trans l w l1 w1 l2 w2 : same_queue l w l1 w1 -> same_queue l1 w1 l2 w2 -> same_queue l w l2 w2.
Proof. intros [[] []] [[] []]. constructor; split; congruence. Qed.

Lemma complete_queue l q response : lg_requests (complete l q response) = lg_requests l /\ lg_closing (complete l q response) = lg_closing l /\ lg_cfg (complete l q response) = lg_cfg l.
Proof. unfold complete. destruct (lg_heap l !! q) as [r|]; [|auto]. destruct (rq_completed r); auto. Qed.

Lemma complete_all_queue {A} (f : A -> nat) (response : A -> res AppendResult) : forall S l, let l' := foldl (fun l p => complete l (f p) (response p)) l S in lg_requests l' = lg_requests l /\ lg_closing l' = lg_closing l /\ lg_cfg l' = lg_cfg l.
Proof. induction S as [|p S IH]; intros l; [auto|]. cbn. destruct (IH (complete l (f p) (response p))) as (-> & -> & ->). apply complete_queue. Qed.

Lemma reject_queue l q e : lg_requests (reject l q e) = lg_requests l /\ lg_closing (reject l q e) = lg_closing l /\ lg_cfg (reject l q e) = lg_cfg l.
Proof. unfold reject. destruct (lg_heap l !! q) as [r|]; [|auto]. destruct (rq_completed r); [auto|]. match goal with |- context [complete ?l ?q ?r] => destruct (complete_queue l q r) as (-> & -> & ->) end. destruct (_ && _); auto. Qed.

Section Turns.
Context {C : Type} `{!LogPort C}.

(** [poison] and the rejection of the request in hand. *)
Lemma poison_books l w cause U G : accounted l U (waiters w) G -> writer_ok w ->
  let '(l', w', f) := poison l w cause in accounted l' U [] G /\ writer_ok w' /\ same_queue l w l' w' /\ w_fault w' = Some f /\ w_pending w' = [] /\ w_waiters w' = [].
Proof.
  intros Ha [K1 K2 K3]. pose proof (accounted_poison l w cause U G Ha ltac:(auto)) as H.
  unfold poison in *. destruct (w_fault w) as [f|] eqn:E.
  - specialize (K3 ltac:(discriminate)). specialize (K2 K3). unfold waiters in Ha. rewrite K2 in Ha. split; [exact Ha|]. split; [constructor; auto|]. split; [apply same_queue_refl|auto].
  - destruct (setTerminal l cause) as [l1 f]. cbn [w_waiters w_fault w_pending w_needSync w_deferred map] in *. destruct H as (H1 & _ & H3 & H4 & H5 & H6 & H7). split; [exact H1|]. split; [constructor; auto|]. split; [constructor; auto|auto].
Qed.

Lemma reject_poisoned_books l w q e U G : accounted l (q :: U) (waiters w) G -> writer_ok w ->
  let '(l', w') := reject_poisoned l w q e in accounted l' U [] G /\ writer_ok w' /\ same_queue l w l' w' /\ w_fault w' <> None /\ w_pending w' = [] /\ w_waiters w' = [].
Proof.
  intros Ha Hw. unfold reject_poisoned. pose proof (poison_books l w e (q :: U) G Ha Hw) as H. destruct (poison l w e) as [[l1 w1] f]. destruct H as (H1 & H2 & [[S1 S2] [S3 S4]] & H4 & H5 & H6).
  split; [now apply accounted_reject|]. split; [exact H2|]. split; [|rewrite H4; auto]. destruct (reject_queue l1 q f) as (R1 & R2 & R3). constructor; split; congruence.
Qed.

Lemma stage_rotate_books l w r o : let '(_, (l', w', failed)) := stage_rotate l w r o in
  lg_heap l' = lg_heap l /\ lg_fresh l' = lg_fresh l /\ lg_budget l' = lg_budget l /\ same_queue l w l' w' /\ (exists loc, w' = set_writer_active w loc) /\ lg_maxPayloadBytes l' = lg_maxPayloadBytes l.
Proof.
  assert (Hid : w = set_writer_active w (w_active w)) by now destruct w.
  unfold stage_rotate. destruct (_ <=? _); [repeat split; eauto|]. destruct (rotate _ _ _ o) as [o1 [reg [next|e]]]; [|repeat split; eauto]. destruct (as_file next); [|repeat split; eauto]. destruct (rg_entries reg !! _) as [loc|]; [|repeat split; eauto]. destruct (_ =? _); repeat split; eauto.
Qed.

Definition staged_books (l : Log) (w : writer) (U G : list nat) (l' : Log) (w' : writer) (ok : bool) : Prop :=
  accounted l' U (waiters w') G /\ writer_ok w' /\ same_queue l w l' w' /\
  (if ok then w_fault w' = None else w_fault w' = None /\ w_pending w' = w_pending w /\ w_waiters w' = w_waiters w \/ w_fault w' <> None).

Lemma stage_books l w q ctxErr o U G : accounted l (q :: U) (waiters w) G -> writer_ok w -> w_fault w = None ->
  let '(_, (l', w', ok)) := stage l w q ctxErr o in staged_books l w U G l' w' ok.
Proof.
  intros Ha Hw Hf. unfold staged_books. destruct (accounted_front _ _ _ _ _ Ha) as (r & E & _). unfold stage. rewrite E. destruct ctxErr as [e|].
  { destruct (reject_queue l q e) as (R1 & R2 & R3). split; [now apply accounted_reject|]. split; [exact Hw|]. split; [constructor; auto|auto]. }
  pose proof (stage_rotate_books l w r o) as Hr. destruct (stage_rotate l w r o) as [o1 [[l1 w1] failed]]. destruct Hr as (R1 & R2 & R3 & R4 & (loc & ->) & _).
  assert (Ha1 : accounted l1 (q :: U) (waiters (set_writer_active w loc)) G) by (apply (accounted_same l); try congruence; exact Ha).
  assert (Hw1 : writer_ok (set_writer_active w loc)) by (destruct Hw; constructor; assumption).
  assert (Hpoison : forall e, let '(l2, w2) := reject_poisoned l1 (set_writer_active w loc) q e in staged_books l w U G l2 w2 false).
  { intros e. pose proof (reject_poisoned_books l1 (set_writer_active w loc) q e U G Ha1 Hw1) as H. destruct (reject_poisoned l1 _ q e) as [l2 w2]. destruct H as (H1 & H2 & H3 & H4 & H5 & H6). unfold staged_books, waiters. rewrite H6. split; [exact H1|]. split; [exact H2|]. split; [exact (same_queue_trans _ _ _ _ _ _ R4 H3)|auto]. }
  destruct failed as [e|]; [specialize (Hpoison e); destruct (reject_poisoned _ _ _ _); exact Hpoison|].
  destruct (place_record l1 _ r) as [[[addr result] encoded]|e]; [|specialize (Hpoison e); destruct (reject_poisoned _ _ _ _); exact Hpoison]. clear Hpoison.
  set (payload := slice 32 _ encoded). set (w2 := add_pending _ _ _ _). rewrite <- R1 in E.
  match goal with |- context [share_pending ?a ?b ?c ?d ?e] => set (l2 := share_pending a b c d e) end.
  pose proof (accounted_staged l1 l2 q r result U (waiters (set_writer_active w loc)) G Ha1 E eq_refl eq_refl eq_refl) as H. cbv zeta in H. set (l3 := set_request (set_budget _ _) q _) in *.
  assert (Hq : forall x, lg_requests x = lg_requests l1 -> lg_closing x = lg_closing l1 -> lg_cfg x = lg_cfg l1 -> same_queue l w x w2) by (intros x X1 X2 X3; destruct R4 as [[] []]; constructor; split; cbn in *; congruence).
  split; [|split; [|split; [|exact Hf]]].
  - unfold waiters in *. cbn [w2 add_pending w_waiters set_writer_active] in *. destruct (rq_sync r); [|exact H]. rewrite map_app. cbn [map pr_request]. rewrite <- Permutation_cons_append. exact H.
  - destruct Hw as [K1 K2 K3]. constructor; cbn; [|destruct (w_pending w); discriminate|congruence]. intros N. apply orb_false_iff in N as [N1 N2]. rewrite N2. auto.
  - destruct (complete_queue l3 q (Ok result)) as (X1 & X2 & X3). assert (Hif : forall b : bool, same_queue l w (if b then l3 else complete l3 q (Ok result)) w2) by (intros [|]; apply Hq; first [reflexivity|exact X1|exact X2|exact X3]). apply Hif.
Qed.

Lemma flush_books l w (o : os lpath C) U G : accounted l U (waiters w) G -> writer_ok w -> w_fault w = None ->
  let '(_, (l', w', e)) := flush l w o in
  same_queue l w l' w' /\ w_fault w' = None /\ writer_ok w' /\ accounted l' U (waiters w') G /\ (e = None -> w_pending w' = []).
Proof.
  intros Ha Hw Hf. pose proof Hw as [K1 K2 K3]. unfold flush. destruct (len (w_pending w) =? 0) eqn:E0; bool_norm.
  { apply len_zero_nil in E0. split; [apply same_queue_refl|auto]. }
  destruct (appendEncoded _ _ _ o) as [o1 [s|e]]; [|split; [apply same_queue_refl|split; [auto|split; [auto|split; [auto|discriminate]]]]].
  set (w1 := bump_writes w). set (l1 := count_write (put_active l w s) w1).
  assert (Hbooks : lg_heap l1 = lg_heap l /\ lg_fresh l1 = lg_fresh l /\ lg_budget l1 = lg_budget l /\ lg_requests l1 = lg_requests l /\ lg_closing l1 = lg_closing l /\ lg_cfg l1 = lg_cfg l).
  { unfold l1, count_write, put_active. destruct (rg_heap _ !! _); repeat split. }
  destruct Hbooks as (B1 & B2 & B3 & B4 & B5 & B6).
  assert (Ha1 : accounted l1 U (waiters w1) G) by (apply (accounted_same l); try congruence; exact Ha).
  unfold flush_sync. change (w_needSync w1) with (w_needSync w). destruct (w_needSync w) eqn:En.
  - destruct (segment_sync _ o1) as [o2 [u|e]].
    + set (w2 := bump_syncs w1). set (l2 := count_sync l1 w2). cbn [w_waiters empty_buffer w_pending w_fault w_deferred].
      pose proof (complete_all_queue pr_request (fun p => Ok (pr_result p)) (w_waiters w2) l2) as (Q1 & Q2 & Q3). split; [constructor; split; cbn in *; congruence|]. split; [exact Hf|]. split; [constructor; auto|]. split; [|auto].
      apply (accounted_complete_all pr_request (fun p => Ok (pr_result p))). apply (accounted_same l1); try reflexivity. exact Ha1.
    + split; [constructor; [split; [exact B4|reflexivity]|auto]|]. split; [exact Hf|]. split; [constructor; cbn; [congruence|auto|auto]|]. split; [exact Ha1|discriminate].
  - cbn [empty_buffer]. split; [constructor; [split; [exact B4|reflexivity]|auto]|]. split; [exact Hf|]. split; [constructor; auto|]. split; [|auto]. unfold waiters in *. cbn in *. rewrite (K1 eq_refl) in Ha1. exact Ha1.
Qed.

(** Between the turns. *)
Record writer_at (w : writer) (pc : wpc) : Prop := mkWriterAt {
  wa_ok : writer_ok w;
  wa_idle : pc <> WCollect -> w_pending w = [];
  wa_collect : pc = WCollect -> w_fault w = None;
}.

Lemma writer_at_idle w pc : writer_at w pc -> pc <> WCollect -> w_waiters w = [].
Proof. intros [[_ K _] H _] Hp. auto. Qed.

Lemma flush_turn_books l w (o : os lpath C) U G : accounted l U (waiters w) G -> writer_ok w -> (w_fault w <> None -> w_waiters w = []) ->
  let '(_, (l', w', pc)) := flush_turn l w o in accounted l' U (waiters w') G /\ same_queue l w l' w' /\ writer_at w' pc /\ pc = WIdle.
Proof.
  intros Ha Hw Hf. unfold flush_turn. destruct (w_fault w) as [f|] eqn:Ef.
  { assert (Hp : w_pending w = []) by (apply (wk_fault _ Hw); congruence). unfold flush. rewrite Hp. cbn. split; [exact Ha|]. split; [apply same_queue_refl|]. split; [constructor; [exact Hw|auto|discriminate]|reflexivity]. }
  pose proof (flush_books l w o U G Ha Hw Ef) as H. destruct (flush l w o) as [o1 [[l1 w1] [e|]]]; destruct H as (H1 & H2 & H3 & H4 & H5).
  - pose proof (poison_books l1 w1 e U G H4 H3) as Hp. destruct (poison l1 w1 e) as [[l2 w2] f]. destruct Hp as (P1 & P2 & P3 & P4 & P5 & P6). unfold waiters. rewrite P6. split; [exact P1|]. split; [exact (same_queue_trans _ _ _ _ _ _ H1 P3)|]. split; [constructor; [exact P2|auto|discriminate]|reflexivity].
  - split; [exact H4|]. split; [exact H1|]. split; [constructor; [exact H3|auto|discriminate]|reflexivity].
Qed.
End Turns.

(** ** Requests only progress *)

Record request_le (r r' : appendRequest) : Prop := mkRequestLe {
  rl_same : rq_stop r' = rq_stop r /\ rq_physical r' = rq_physical r /\ rq_sync r' = rq_sync r;
  rl_answer : rq_completed r = true -> rq_completed r' = true /\ rq_response r' = rq_response r;
  rl_payload : rq_reserved r' = false -> rq_reserved r = false /\ rq_payload r' = rq_payload r;
}.
#[export] Instance request_le_preorder : PreOrder request_le.
Proof.
  split; [intros r; constructor; auto|]. intros a b c [[A1 [A2 A3]] H1 P1] [[B1 [B2 B3]] H2 P2]. constructor; [repeat split; congruence| |].
  - intros E. destruct (H1 E) as [E1 E2]. destruct (H2 E1) as [E3 E4]. split; congruence.
  - intros E. destruct (P2 E) as [E1 E2]. destruct (P1 E1) as [E3 E4]. split; congruence.
Qed.

(** What never changes. *)
Definition fixed_of (l : Log) : Z * Config * Z := (bb_limit (lg_budget l), lg_cfg l, lg_maxPayloadBytes l).

Record heap_le (l l' : Log) : Prop := mkHeapLe {
  hl_heap : forall q r, lg_heap l !! q = Some r -> exists r', lg_heap l' !! q = Some r' /\ request_le r r';
  hl_fixed : fixed_of l' = fixed_of l;
}.
#[export] Instance heap_le_preorder : PreOrder heap_le.
Proof.
  split; [intros l; constructor; [intros q r E; exists r; split; [exact E|reflexivity]|reflexivity]|]. intros a b c [H1 F1] [H2 F2]. constructor; [|congruence]. intros q r E. destruct (H1 q r E) as (r1 & E1 & L1). destruct (H2 q r1 E1) as (r2 & E2 & L2). exists r2. split; [exact E2|]. etransitivity; eassumption.
Qed.

Lemma heap_le_same l l' : lg_heap l' = lg_heap l -> fixed_of l' = fixed_of l -> heap_le l l'.
Proof. intros E F. constructor; [|exact F]. intros q r Er. exists r. rewrite E. split; [exact Er|reflexivity]. Qed.

Lemma heap_le_insert l l' q r r' : lg_heap l !! q = Some r -> lg_heap l' = <[q := r']> (lg_heap l) -> fixed_of l' = fixed_of l -> request_le r r' -> heap_le l l'.
Proof.
  intros E E' F H. constructor; [|exact F]. intros x y Ex. rewrite E'. destruct (decide (x = q)) as [->|Hx]; [exists r'; rewrite lookup_insert_eq; split; [reflexivity|congruence]|]. exists y. rewrite lookup_insert_ne by congruence. split; [exact Ex|reflexivity].
Qed.

Lemma fixed_release l n : fixed_of (set_budget l (budget_release (lg_budget l) n)) = fixed_of l.
Proof. unfold fixed_of, budget_release. cbn. now destruct (_ <? _). Qed.

Lemma heap_le_complete l q response : heap_le l (complete l q response).
Proof. unfold complete. destruct (lg_heap l !! q) as [r|] eqn:E; [|reflexivity]. destruct (rq_completed r) eqn:Ec; [reflexivity|]. eapply (heap_le_insert l _ q r); [exact E|reflexivity|reflexivity|]. constructor; cbn; [auto|congruence|auto]. Qed.

Lemma heap_le_complete_all {A} (f : A -> nat) (response : A -> res AppendResult) : forall S l, heap_le l (foldl (fun l p => complete l (f p) (response p)) l S).
Proof. induction S as [|p S IH]; intros l; [reflexivity|]. cbn. etransitivity; [apply heap_le_complete|apply IH]. Qed.

Lemma heap_le_reject l q e : heap_le l (reject l q e).
Proof.
  unfold reject. destruct (lg_heap l !! q) as [r|] eqn:E; [|reflexivity]. destruct (rq_completed r) eqn:Ec; [reflexivity|]. etransitivity; [|apply heap_le_complete]. destruct (_ && _); [|reflexivity].
  eapply (heap_le_insert l _ q r); [exact E|reflexivity|exact (fixed_release l _)|]. constructor; cbn; [auto|congruence|auto].
Qed.

Lemma heap_le_poison l w cause : heap_le l (poison l w cause).1.1.
Proof.
  unfold poison. destruct (w_fault w); [reflexivity|]. destruct (setTerminal l cause) as [l1 f] eqn:E. assert (H : lg_heap l1 = lg_heap l /\ fixed_of l1 = fixed_of l) by (unfold setTerminal in E; destruct (lg_terminal l); injection E as <- <-; [auto|]; unfold fixed_of, budget_close; cbn; now destruct (bb_closed _)).
  destruct H as [H1 H2]. cbn [fst]. transitivity l1; [now apply heap_le_same|]. etransitivity; [apply (heap_le_complete_all pr_request (fun _ => Err f) (w_waiters w))|]. now apply heap_le_same.
Qed.

Section Progress.
Context {C : Type} `{!LogPort C}.

Lemma heap_le_stage l w q ctxErr (o : os lpath C) : heap_le l (stage l w q ctxErr o).2.1.1.
Proof.
  unfold stage. destruct (lg_heap l !! q) as [r|] eqn:E; [|reflexivity]. destruct ctxErr as [e|]; [apply heap_le_reject|].
  pose proof (stage_rotate_books l w r o) as Hr. destruct (stage_rotate l w r o) as [o1 [[l1 w1] failed]]. destruct Hr as (R1 & _ & R3 & [_ [_ R4]] & _ & R5). assert (Hfix : fixed_of l1 = fixed_of l) by (unfold fixed_of; congruence).
  assert (Hp : forall e, heap_le l (reject_poisoned l1 w1 q e).1).
  { intros e. transitivity l1; [now apply heap_le_same|]. unfold reject_poisoned. pose proof (heap_le_poison l1 w1 e) as H. destruct (poison l1 w1 e) as [[l2 w2] f]. cbn [fst] in *. etransitivity; [exact H|apply heap_le_reject]. }
  destruct failed as [e|]; [specialize (Hp e); destruct (reject_poisoned _ _ _ _); exact Hp|]. destruct (place_record l1 w1 r) as [[[addr result] encoded]|e]; [|specialize (Hp e); destruct (reject_poisoned _ _ _ _); exact Hp]. cbn [fst snd].
  match goal with |- heap_le _ (if _ then ?l2 else _) => assert (H : heap_le l l2) end.
  { apply (heap_le_insert _ _ q r (clear_budget (reserve_request r result)) E); [cbn; rewrite R1; apply insert_insert_eq| |constructor; cbn; [auto|auto|discriminate]]. rewrite <- Hfix. match goal with |- fixed_of (set_request (set_budget ?x _) _ _) = _ => exact (fixed_release x _) end. }
  destruct (rq_sync r); [exact H|]. etransitivity; [exact H|apply heap_le_complete].
Qed.

Lemma heap_le_flush_turn l w (o : os lpath C) : heap_le l (flush_turn l w o).2.1.1.
Proof.
  assert (H : heap_le l (flush l w o).2.1.1).
  { unfold flush. destruct (_ =? 0); [reflexivity|]. destruct (appendEncoded _ _ _ o) as [o1 [s|e]]; [|reflexivity]. assert (H1 : lg_heap (count_write (put_active l w s) (bump_writes w)) = lg_heap l /\ fixed_of (count_write (put_active l w s) (bump_writes w)) = fixed_of l) by (unfold put_active; destruct (rg_heap _ !! _); auto). destruct H1 as [H1 H2].
    unfold flush_sync. destruct (w_needSync _); [|now apply heap_le_same]. destruct (segment_sync _ o1) as [o2 [u|e]]; [|now apply heap_le_same]. cbn [fst snd].
    etransitivity; [|apply (heap_le_complete_all pr_request (fun p => Ok (pr_result p)))]. now apply heap_le_same. }
  unfold flush_turn. destruct (flush l w o) as [o1 [[l1 w1] [e|]]]; cbn [fst snd] in *; [|exact H]. pose proof (heap_le_poison l1 w1 e) as Hp. destruct (poison l1 w1 e) as [[l2 w2] f]. cbn [fst snd] in *. etransitivity; eassumption.
Qed.

Lemma heap_le_stop l w q (o : os lpath C) : heap_le l (stop l w q o).2.1.
Proof.
  unfold stop. destruct (w_fault w); [apply heap_le_complete|]. destruct (segment_sync _ o) as [o1 [u|e]]; cbn [fst snd].
  - etransitivity; [|apply heap_le_complete]. now apply heap_le_same.
  - pose proof (heap_le_poison l w e) as Hp. destruct (poison l w e) as [[l2 w2] f]. cbn [fst snd] in *. etransitivity; [exact Hp|apply heap_le_complete].
Qed.

Lemma heap_le_is_stop l l' q : heap_le l l' -> is_Some (lg_heap l !! q) -> is_stop l' q = is_stop l q.
Proof. intros [H _] [r E]. unfold is_stop. destruct (H q r E) as (r' & -> & [[-> _] _ _]). now rewrite E. Qed.

Lemma stop_books l w q (o : os lpath C) U G : accounted l (q :: U) (waiters w) G -> writer_ok w -> w_pending w = [] -> physical_of l q = 0 ->
  let '(_, (l', w')) := stop l w q o in accounted l' U (waiters w') G /\ same_queue l w l' w' /\ writer_at w' WStopped.
Proof.
  intros Ha Hw Hp Hz. pose proof Hw as [K1 K2 K3]. destruct (accounted_front _ _ _ _ _ Ha) as (r & E & _). assert (Hr : rq_physical r = 0) by (unfold physical_of in Hz; now rewrite E in Hz).
  assert (Hdone : forall l1 w1 x response, lg_heap l1 !! q = Some x -> rq_physical x = 0 -> accounted l1 (q :: U) (waiters w1) G -> same_queue l w l1 w1 -> writer_ok w1 -> w_pending w1 = [] ->
    accounted (complete l1 q response) U (waiters w1) G /\ same_queue l w (complete l1 q response) w1 /\ writer_at w1 WStopped).
  { intros l1 w1 x response E1 Z1 A1 [S1 S2] W1 P1. split; [now apply (accounted_stop_done l1 q x)|]. split; [destruct (complete_queue l1 q response) as (X1 & X2 & X3); constructor; split; try tauto; destruct S1, S2; congruence|constructor; [exact W1|auto|discriminate]]. }
  unfold stop. destruct (w_fault w) as [f|] eqn:Ef; [apply (Hdone l w r); auto using same_queue_refl|]. destruct (segment_sync _ o) as [o1 [u|e]].
  - refine (Hdone (count_sync l (bump_syncs w)) (bump_syncs w) r _ E Hr _ _ _ Hp); [apply (accounted_same l); try reflexivity; exact Ha|constructor; auto|constructor; auto].
  - pose proof (poison_books l w e (q :: U) G Ha Hw) as H. pose proof (hl_heap _ _ (heap_le_poison l w e) q r E) as Hle. destruct (poison l w e) as [[l2 w2] f]. destruct H as (H1 & H2 & H3 & H4 & H5 & H6). destruct Hle as (x & E2 & [[_ [Z2 _]] _ _]). cbn [fst] in E2.
    apply (Hdone l2 w2 x); auto; [congruence|]. unfold waiters. rewrite H6. exact H1.
Qed.
End Progress.

(** ** The system *)

(** [wd_held]: the requests whose clients are between the reservation of the bytes
    and the submission; [wd_gone]: those whose clients gave up there; [wd_given]: the
    payloads the clients passed; [wd_stop]: [Close] has sent the stop request. *)
Record world (C : Type) := mkWorld
  { wd_log : Log; wd_writer : writer; wd_pc : wpc; wd_os : os lpath C; wd_held : list nat; wd_gone : list nat; wd_given : gmap nat (list Z); wd_stop : bool }.
Arguments mkWorld {C}.
Arguments wd_log {C}. Arguments wd_writer {C}. Arguments wd_pc {C}. Arguments wd_os {C}. Arguments wd_held {C}. Arguments wd_gone {C}. Arguments wd_given {C}. Arguments wd_stop {C}.

Section World.
Context {C : Type} `{!LogPort C}.

Definition with_log (W : world C) (l : Log) : world C := mkWorld l (wd_writer W) (wd_pc W) (wd_os W) (wd_held W) (wd_gone W) (wd_given W) (wd_stop W).
Definition after_turn (W : world C) (x : os lpath C * (Log * writer * wpc)) : world C :=
  mkWorld x.2.1.1 x.2.1.2 x.2.2 x.1 (wd_held W) (wd_gone W) (wd_given W) (wd_stop W).

(** A turn of the writer, when it has something to do. *)
Definition writer_turn (W : world C) (ctxErr : option goerror) : option (world C) :=
  match wd_pc W with
  | WIdle => match idle_turn (wd_log W) (wd_writer W) ctxErr (wd_os W) with Some x => Some (after_turn W x) | None => None end
  | WCollect => Some (after_turn W (collect_turn (wd_log W) (wd_writer W) ctxErr (wd_os W)))
  | WStopped => None
  end.

Inductive world_step : world C -> world C -> Prop :=
  | ws_acquire W payload sync l q : bytes_ok payload -> append_acquire (wd_log W) payload sync = Return (Ok (l, q)) ->
      world_step W (mkWorld l (wd_writer W) (wd_pc W) (wd_os W) (q :: wd_held W) (wd_gone W) (<[q := payload]> (wd_given W)) (wd_stop W))
  | ws_abandon W held q : wd_held W ≡ₚ q :: held ->
      world_step W (mkWorld (append_abandon (wd_log W) q) (wd_writer W) (wd_pc W) (wd_os W) held (q :: wd_gone W) (wd_given W) (wd_stop W))
  | ws_send W held q l : wd_held W ≡ₚ q :: held -> lg_closing (wd_log W) = false -> append_send (wd_log W) q = Some l ->
      world_step W (mkWorld l (wd_writer W) (wd_pc W) (wd_os W) held (wd_gone W) (wd_given W) (wd_stop W))
  | ws_close W : lg_closing (wd_log W) = false -> world_step W (with_log W (close_submit (wd_log W)))
  | ws_stop W l q l' : lg_closing (wd_log W) = true -> wd_stop W = false -> new_request (wd_log W) stop_request = (l, q) -> append_send l q = Some l' ->
      world_step W (mkWorld l' (wd_writer W) (wd_pc W) (wd_os W) (wd_held W) (wd_gone W) (wd_given W) true)
  | ws_pin W id r p : pin (lg_registry (wd_log W)) id = Ok (r, p) -> world_step W (with_log W (set_registry (wd_log W) r))
  | ws_unpin W p r q : pin_release (lg_registry (wd_log W)) p = Ok (r, q) -> world_step W (with_log W (set_registry (wd_log W) r))
  | ws_writer W ctxErr W' : writer_turn W ctxErr = Some W' -> world_step W W'.

(** The invariant of the queue. *)
Record world_ok (W : world C) : Prop := mkWorldOk {
  wo_books : accounted (wd_log W) (wd_held W ++ queued (wd_log W) (wd_writer W)) (waiters (wd_writer W)) (wd_gone W);
  wo_writer : writer_at (wd_writer W) (wd_pc W);
  wo_held : forall q, q ∈ wd_held W -> is_stop (wd_log W) q = false;
  wo_last : forall q, q ∈ queued (wd_log W) (wd_writer W) -> is_stop (wd_log W) q = true -> last (queued (wd_log W) (wd_writer W)) = Some q /\ wd_stop W = true /\ physical_of (wd_log W) q = 0;
  wo_closing : wd_stop W = true -> lg_closing (wd_log W) = true;
  wo_stopped : wd_pc W = WStopped -> queued (wd_log W) (wd_writer W) = [] /\ wd_stop W = true;
  wo_collect : wd_pc W = WCollect -> w_deferred (wd_writer W) = None;
}.

Lemma queued_exists W q : world_ok W -> q ∈ wd_held W ++ queued (wd_log W) (wd_writer W) -> is_Some (lg_heap (wd_log W) !! q).
Proof. intros Hw Hq. destruct (ac_unstaged _ _ _ _ (wo_books _ Hw) q Hq) as (r & E & _). eauto. Qed.

(** The part of the invariant about stop requests, after a turn that took the
    front of the queue or left the queue alone. *)
Definition stops_ok (l : Log) (Q : list nat) (stop : bool) : Prop := forall q, q ∈ Q -> is_stop l q = true -> last Q = Some q /\ stop = true /\ physical_of l q = 0.

Lemma heap_le_physical l l' q : heap_le l l' -> is_Some (lg_heap l !! q) -> physical_of l' q = physical_of l q.
Proof. intros [H _] [r E]. unfold physical_of. destruct (H q r E) as (r' & -> & [[_ [-> _]] _ _]). now rewrite E. Qed.

Lemma stops_ok_le l l' Q stop : heap_le l l' -> (forall q, q ∈ Q -> is_Some (lg_heap l !! q)) -> stops_ok l Q stop -> stops_ok l' Q stop.
Proof. intros Hle Hs H q Hq E. rewrite (heap_le_is_stop _ _ _ Hle (Hs q Hq)) in E. rewrite (heap_le_physical _ _ _ Hle (Hs q Hq)). auto. Qed.

Lemma stops_ok_tail l x Q stop : stops_ok l (x :: Q) stop -> stops_ok l Q stop.
Proof. intros H q Hq E. destruct (H q ltac:(now right) E) as (H1 & H2 & H3). split; [|auto]. destruct Q; [inversion Hq|exact H1]. Qed.

Definition measure (W : world C) : nat := 2 * length (queued (wd_log W) (wd_writer W)) + match wd_pc W with WCollect => 1 | _ => 0 end.

(** What a turn of the writer does to the queue. *)
Record turn_ok (W W' : world C) : Prop := mkTurnOk {
  to_ok : world_ok W';
  to_le : heap_le (wd_log W) (wd_log W');
  to_less : (measure W' < measure W)%nat;
  to_same : wd_held W' = wd_held W /\ wd_gone W' = wd_gone W /\ wd_given W' = wd_given W /\ wd_stop W' = wd_stop W;
  to_queue : forall q, q ∈ queued (wd_log W') (wd_writer W') -> q ∈ queued (wd_log W) (wd_writer W);
}.

(** A turn that leaves [Q] queued. *)
Lemma turn_result (W : world C) l w o l1 w1 pc Q : world_ok W -> heap_le (wd_log W) l1 -> accounted l1 (wd_held W ++ Q) (waiters w1) (wd_gone W) -> same_queue l w l1 w1 -> queued l w = Q -> lg_closing l = lg_closing (wd_log W) ->
  (exists pre, queued (wd_log W) (wd_writer W) = pre ++ Q) -> writer_at w1 pc -> (pc = WStopped -> Q = [] /\ wd_stop W = true) -> (pc = WCollect -> w_deferred w1 = None) ->
  (2 * length Q + match pc with WCollect => 1 | _ => 0 end < measure W)%nat -> turn_ok W (after_turn W (o, (l1, w1, pc))).
Proof.
  intros Hw Hle Ha [[S1 S2] [S3 _]] HQ Hcl [pre Hpre] Hat Hst Hco Hm. assert (HQ1 : queued l1 w1 = Q) by (unfold queued in *; congruence).
  constructor; cbn [after_turn wd_log wd_writer wd_pc wd_held wd_gone wd_given wd_stop fst snd]; [|exact Hle| |auto|rewrite HQ1, Hpre; intros q Hq; apply elem_of_app; now right].
  - constructor; cbn [after_turn wd_log wd_writer wd_pc wd_held wd_gone wd_given wd_stop fst snd]; rewrite ?HQ1; try assumption.
    + intros q Hq. rewrite (heap_le_is_stop _ _ _ Hle); [exact (wo_held _ Hw q Hq)|]. apply (queued_exists W q Hw). set_solver.
    + apply (stops_ok_le (wd_log W)); [exact Hle|intros q Hq; apply (queued_exists W q Hw); rewrite Hpre; set_solver|]. pose proof (wo_last _ Hw) as Hl. change (stops_ok (wd_log W) (queued (wd_log W) (wd_writer W)) (wd_stop W)) in Hl. rewrite Hpre in Hl. clear -Hl. induction pre as [|x pre IH]; [exact Hl|]. apply IH, (stops_ok_tail _ x), Hl.
    + intros Hs. rewrite S3, Hcl. exact (wo_closing _ Hw Hs).
  - unfold measure. cbn [after_turn wd_log wd_writer wd_pc fst snd]. rewrite HQ1. exact Hm.
Qed.

Lemma idle_turn_ok W ctxErr x : world_ok W -> wd_pc W = WIdle -> idle_turn (wd_log W) (wd_writer W) ctxErr (wd_os W) = Some x -> turn_ok W (after_turn W x).
Proof.
  intros Hw Hpc E. pose proof (wo_books _ Hw) as Ha. pose proof (wo_writer _ Hw) as Hat. pose proof (writer_at_idle _ _ Hat ltac:(rewrite Hpc; discriminate)) as Hwt. destruct Hat as [Hok Hid _]. specialize (Hid ltac:(rewrite Hpc; discriminate)).
  unfold idle_turn in E. assert (Hnext : exists l1 w1 q, nextRequest (wd_log W) (wd_writer W) = Some (l1, w1, q) /\ queued (wd_log W) (wd_writer W) = q :: queued l1 w1 /\ (l1 = wd_log W \/ l1 = set_requests (wd_log W) (lg_requests l1)) /\ (w1 = wd_writer W \/ w1 = set_deferred (wd_writer W) None) /\ w_deferred w1 = None).
  { unfold nextRequest in *. unfold queued. destruct (w_deferred (wd_writer W)) as [d|] eqn:Ed; [exists (wd_log W), (set_deferred (wd_writer W) None), d; repeat split; auto|]. destruct (lg_requests (wd_log W)) as [|q rest] eqn:Er; [discriminate|]. exists (set_requests (wd_log W) rest), (wd_writer W), q. repeat split; auto. now rewrite Ed. }
  destruct Hnext as (l1 & w1 & q & En & EQ & Hl1 & Hw1 & Hd1). rewrite En in E. injection E as <-.
  assert (Hheap : lg_heap l1 = lg_heap (wd_log W) /\ lg_fresh l1 = lg_fresh (wd_log W) /\ lg_budget l1 = lg_budget (wd_log W) /\ lg_closing l1 = lg_closing (wd_log W) /\ fixed_of l1 = fixed_of (wd_log W)) by (destruct Hl1 as [-> | ->]; auto 6). destruct Hheap as (B1 & B2 & B3 & B4 & B5).
  assert (Hwr : waiters w1 = [] /\ writer_ok w1 /\ w_pending w1 = [] /\ w_fault w1 = w_fault (wd_writer W)) by (destruct Hok; unfold waiters; destruct Hw1 as [-> | ->]; cbn; rewrite ?Hwt; repeat split; auto). destruct Hwr as (V1 & V2 & V3 & V4).
  assert (Ha1 : accounted l1 (q :: wd_held W ++ queued l1 w1) (waiters w1) (wd_gone W)). { apply (accounted_same (wd_log W)); try congruence. rewrite V1. unfold waiters in Ha. rewrite Hwt, EQ, <- Permutation_middle in Ha. exact Ha. }
  assert (Hle1 : heap_le (wd_log W) l1) by now apply heap_le_same.
  assert (Hm : forall pc, (2 * length (queued l1 w1) + match pc with WCollect => 1 | _ => 0 end < measure W)%nat) by (intros pc; unfold measure; rewrite EQ; cbn [length]; destruct pc, (wd_pc W); lia).
  assert (Hpre : exists pre, queued (wd_log W) (wd_writer W) = pre ++ queued l1 w1) by (exists [q]; exact EQ).
  destruct (is_stop l1 q) eqn:Es.
  - assert (Hq : q ∈ queued (wd_log W) (wd_writer W)) by (rewrite EQ; now left). assert (Es' : is_stop (wd_log W) q = true) by (unfold is_stop in *; now rewrite <- B1).
    destruct (wo_last _ Hw q Hq Es') as (L1 & L2 & L3). assert (HQ : queued l1 w1 = []).
    { rewrite EQ in L1. destruct (queued l1 w1) as [|y t] eqn:Et; [reflexivity|]. exfalso. change (last (y :: t) = Some q) in L1. apply last_Some_elem_of in L1. pose proof (ac_nodup _ _ _ _ Ha1) as Nd. cbn in Nd. apply NoDup_cons in Nd as [Nd _]. apply Nd. rewrite !elem_of_app. left. right. exact L1. }
    assert (Hz : physical_of l1 q = 0) by (unfold physical_of in *; now rewrite B1).
    pose proof (stop_books l1 w1 q (wd_os W) _ _ Ha1 V2 V3 Hz) as H. pose proof (heap_le_stop l1 w1 q (wd_os W)) as Hle. destruct (stop l1 w1 q (wd_os W)) as [o' [l' w']]. destruct H as (H1 & H2 & H3). cbn [fst snd] in *.
    apply (turn_result W l1 w1 o' l' w' WStopped (queued l1 w1)); auto; try discriminate; try exact (Hm WStopped); etransitivity; eassumption.
  - rewrite V4. destruct (w_fault (wd_writer W)) as [f|] eqn:Ef.
    + apply (turn_result W l1 w1 (wd_os W) (reject l1 q f) w1 WIdle (queued l1 w1)); auto; try discriminate; try exact (Hm WIdle).
      * etransitivity; [exact Hle1|apply heap_le_reject].
      * now apply accounted_reject.
      * destruct (reject_queue l1 q f) as (R1 & R2 & R3). constructor; auto.
      * constructor; [exact V2|auto|discriminate].
    + pose proof (stage_books l1 w1 q ctxErr (wd_os W) _ _ Ha1 V2 V4) as H. pose proof (heap_le_stage l1 w1 q ctxErr (wd_os W)) as Hle. destruct (stage l1 w1 q ctxErr (wd_os W)) as [o' [[l' w'] ok]]. destruct H as (H1 & H2 & H3 & H4). cbn [fst snd] in *.
      apply (turn_result W l1 w1 o' l' w' _ (queued l1 w1)); auto; try (destruct ok; discriminate).
      * etransitivity; eassumption.
      * constructor; [exact H2| |destruct ok; [auto|discriminate]]. destruct ok; [congruence|]. intros _. destruct H4 as [(_ & -> & _)|H4]; [exact V3|]. exact (wk_fault _ H2 H4).
      * intros _. destruct H3 as [[_ ->] _]. exact Hd1.
Qed.

Lemma flush_turn_ok (W : world C) l w (o : os lpath C) Q : world_ok W -> heap_le (wd_log W) l -> accounted l (wd_held W ++ Q) (waiters w) (wd_gone W) -> writer_ok w -> (w_fault w <> None -> w_waiters w = []) -> queued l w = Q -> lg_closing l = lg_closing (wd_log W) ->
  (exists pre, queued (wd_log W) (wd_writer W) = pre ++ Q) -> (2 * length Q < measure W)%nat -> turn_ok W (after_turn W (flush_turn l w o)).
Proof.
  intros Hw Hle Ha Hok Hf HQ Hcl Hpre Hm. pose proof (flush_turn_books l w o _ _ Ha Hok Hf) as H. pose proof (heap_le_flush_turn l w o) as Hle2. destruct (flush_turn l w o) as [o' [[l' w'] pc]]. destruct H as (H1 & H2 & H3 & ->). cbn [fst snd] in *.
  apply (turn_result W l w o' l' w' WIdle Q); auto; try discriminate; [etransitivity; eassumption|lia].
Qed.

Lemma collect_turn_ok W ctxErr : world_ok W -> wd_pc W = WCollect -> turn_ok W (after_turn W (collect_turn (wd_log W) (wd_writer W) ctxErr (wd_os W))).
Proof.
  intros Hw Hpc. pose proof (wo_books _ Hw) as Ha. pose proof (wo_writer _ Hw) as [Hok _ Hfault]. specialize (Hfault Hpc). pose proof (wo_collect _ Hw Hpc) as Hd.
  assert (Hnf : w_fault (wd_writer W) <> None -> w_waiters (wd_writer W) = []) by congruence.
  assert (Hall : turn_ok W (after_turn W (flush_turn (wd_log W) (wd_writer W) (wd_os W)))).
  { apply (flush_turn_ok W _ _ _ (queued (wd_log W) (wd_writer W))); auto; [reflexivity|exists []; reflexivity|unfold measure; rewrite Hpc; lia]. }
  unfold collect_turn. destruct (_ && _); [|exact Hall]. destruct (lg_requests (wd_log W)) as [|q rest] eqn:Er; [exact Hall|]. clear Hall.
  assert (EQ : queued (wd_log W) (wd_writer W) = q :: rest) by (unfold queued; rewrite Hd, Er; reflexivity). set (l1 := set_requests (wd_log W) rest).
  assert (Hle1 : heap_le (wd_log W) l1) by now apply heap_le_same.
  destruct (is_stop l1 q || negb (canStage l1 (wd_writer W) q)).
  - apply (flush_turn_ok W _ _ _ (q :: rest)); auto; [apply (accounted_same (wd_log W)); try reflexivity; rewrite <- EQ; exact Ha|destruct Hok; constructor; assumption|exists []; exact EQ|unfold measure; rewrite EQ, Hpc; cbn; lia].
  - assert (Ha1 : accounted l1 (q :: wd_held W ++ rest) (waiters (wd_writer W)) (wd_gone W)) by (apply (accounted_same (wd_log W)); try reflexivity; rewrite EQ, <- Permutation_middle in Ha; exact Ha).
    pose proof (stage_books l1 (wd_writer W) q ctxErr (wd_os W) _ _ Ha1 Hok Hfault) as H. pose proof (heap_le_stage l1 (wd_writer W) q ctxErr (wd_os W)) as Hle. destruct (stage l1 _ q ctxErr _) as [o' [[l' w'] ok]]. destruct H as (H1 & H2 & H3 & H4). cbn [fst snd] in *.
    assert (HQ' : queued l1 (wd_writer W) = rest) by (unfold queued; rewrite Hd; reflexivity). assert (HQ2 : queued l' w' = rest) by (destruct H3 as [[S1 S2] _]; unfold queued in *; rewrite S1, S2; exact HQ').
    assert (Hpre : exists pre, queued (wd_log W) (wd_writer W) = pre ++ rest) by (exists [q]; exact EQ). assert (Hm : (2 * length rest + 1 < measure W)%nat) by (unfold measure; rewrite EQ, Hpc; cbn; lia).
    assert (Hle2 : heap_le (wd_log W) l') by (exact (transitivity Hle1 Hle)).
    destruct (negb ok && bool_decide (is_Some (w_fault w'))) eqn:Eb.
    + apply (flush_turn_ok W _ _ _ rest); auto; [intros Hf; apply (wk_pending _ H2), (wk_fault _ H2 Hf)|destruct H3 as [_ [S3 _]]; exact S3|lia].
    + apply (turn_result W l1 (wd_writer W) o' l' w' WCollect rest); auto; try discriminate.
      * constructor; [exact H2|congruence|]. intros _. destruct ok; [exact H4|]. destruct (w_fault w') eqn:Ef; [|reflexivity]. exfalso. cbn [negb andb] in Eb. rewrite bool_decide_eq_true_2 in Eb by eauto. discriminate.
      * intros _. destruct H3 as [[_ ->] _]. exact Hd.
Qed.

Lemma writer_turn_ok W ctxErr W' : world_ok W -> writer_turn W ctxErr = Some W' -> turn_ok W W'.
Proof.
  intros Hw E. unfold writer_turn in E. destruct (wd_pc W) eqn:Hpc; [|injection E as <-; now apply collect_turn_ok|discriminate].
  destruct (idle_turn _ _ _ _) as [x|] eqn:Ei; [|discriminate]. injection E as <-. now apply (idle_turn_ok W ctxErr).
Qed.

(** ** The steps of the clients *)

Lemma heap_le_new l b r l' q : (forall q, is_Some (lg_heap l !! q) -> (q < lg_fresh l)%nat) -> bb_limit b = bb_limit (lg_budget l) -> new_request (set_budget l b) r = (l', q) -> heap_le l l' /\ lg_heap l' !! q = Some r /\ lg_heap l !! q = None.
Proof.
  intros Hf Hb E. injection E as <- <-. assert (Hn : lg_heap l !! lg_fresh l = None) by (destruct (lg_heap l !! lg_fresh l) eqn:En; [|reflexivity]; specialize (Hf _ ltac:(eauto)); lia).
  split; [|cbn; split; [apply lookup_insert_eq|exact Hn]]. constructor; [|unfold fixed_of; cbn; congruence]. intros x y Ex. cbn. exists y. rewrite lookup_insert_ne by congruence. split; [exact Ex|reflexivity].
Qed.

Lemma acquire_parts l payload sync l' q : append_acquire l payload sync = Return (Ok (l', q)) ->
  exists physical b, PhysicalRecordSize (len payload) = Ok physical /\ len payload <= lg_maxPayloadBytes l /\ bb_limit b = bb_limit (lg_budget l) /\
    new_request (set_budget l b) (mkRequest payload physical sync physical false false false None None) = (l', q).
Proof.
  unfold append_acquire, budget_acquire. intros E. destruct (_ <? len payload) eqn:E0; [discriminate|]. destruct (PhysicalRecordSize _) as [physical|] eqn:Ep; [|discriminate]. destruct (_ <? physical); [discriminate|]. destruct (bb_closed _); [discriminate|]. destruct (_ <=? _); [|discriminate].
  bool_norm. eexists physical, _. split; [reflexivity|]. split; [exact E0|]. split; [|injection E as <- <-; reflexivity]. reflexivity.
Qed.

Lemma send_parts l q l' : append_send l q = Some l' -> l' = set_requests l (lg_requests l ++ [q]).
Proof. unfold append_send. destruct (_ <? _); [|discriminate]. now intros [= <-]. Qed.

Lemma queued_send l w q : queued (set_requests l (lg_requests l ++ [q])) w = queued l w ++ [q].
Proof. unfold queued. cbn. now rewrite app_assoc. Qed.

(** The books and the queue after a step of a client that keeps the queue. *)
Lemma client_ok W l held gone given : world_ok W -> heap_le (wd_log W) l -> lg_requests l = lg_requests (wd_log W) -> (lg_closing (wd_log W) = true -> lg_closing l = true) ->
  accounted l (held ++ queued (wd_log W) (wd_writer W)) (waiters (wd_writer W)) gone -> (forall q, q ∈ held -> is_stop l q = false) ->
  world_ok (mkWorld l (wd_writer W) (wd_pc W) (wd_os W) held gone given (wd_stop W)).
Proof.
  intros Hw Hle Hr Hc Ha Hh. assert (HQ : queued l (wd_writer W) = queued (wd_log W) (wd_writer W)) by (unfold queued; congruence).
  constructor; cbn [wd_log wd_writer wd_pc wd_held wd_gone wd_stop]; rewrite ?HQ; try assumption; try apply Hw.
  - apply (stops_ok_le (wd_log W)); [exact Hle|intros q Hq; apply (queued_exists W q Hw); set_solver|exact (wo_last _ Hw)].
  - intros Hs. apply Hc, (wo_closing _ Hw Hs).
Qed.

Lemma world_step_ok W W' : world_ok W -> world_step W W' -> world_ok W' /\ heap_le (wd_log W) (wd_log W').
Proof.
  intros Hw Hs. pose proof (wo_books _ Hw) as Ha. pose proof (ac_fresh _ _ _ _ Ha) as Hf. destruct Hs as [W payload sync l q Hb E|W held q Hp|W held q l Hp Hc E|W Hc|W l q l' Hc Hst En Es|W id r p E|W p r q E|W ctxErr W' E]; cbn [wd_log with_log].
  - pose proof (accounted_acquire _ _ _ _ _ _ _ _ E Ha) as Ha'. apply acquire_parts in E as (physical & b & _ & _ & Eb & En). destruct (heap_le_new _ _ _ _ _ Hf Eb En) as (Hle & Eq & _). split; [|exact Hle].
    apply client_ok; [exact Hw|exact Hle|injection En as <- <-; reflexivity|injection En as <- <-; auto|exact Ha'|].
    intros x Hx. apply elem_of_cons in Hx as [->|Hx]; [unfold is_stop; now rewrite Eq|]. rewrite (heap_le_is_stop _ _ _ Hle); [exact (wo_held _ Hw x Hx)|]. apply (queued_exists W x Hw). set_solver.
  - assert (Ha' : accounted (wd_log W) (q :: held ++ queued (wd_log W) (wd_writer W)) (waiters (wd_writer W)) (wd_gone W)) by (rewrite Hp in Ha; exact Ha).
    destruct (accounted_front _ _ _ _ _ Ha') as (r & Er & [[_ [Hrc _]] _] & _). assert (Hle : heap_le (wd_log W) (append_abandon (wd_log W) q)).
    { unfold append_abandon. rewrite Er. eapply (heap_le_insert _ _ q r); [exact Er|reflexivity|exact (fixed_release _ _)|]. constructor; cbn; [auto|congruence|auto]. }
    split; [|exact Hle]. apply client_ok; [exact Hw|exact Hle|unfold append_abandon; now rewrite Er|unfold append_abandon; now rewrite Er|now apply accounted_abandon|].
    intros x Hx. assert (Hin : x ∈ wd_held W) by (rewrite Hp; now right). rewrite (heap_le_is_stop _ _ _ Hle); [exact (wo_held _ Hw x Hin)|]. apply (queued_exists W x Hw). set_solver.
  - apply send_parts in E as ->. split; [|now apply heap_le_same]. assert (Hns : forall x, x ∈ queued (wd_log W) (wd_writer W) -> is_stop (wd_log W) x = false).
    { intros x Hx. destruct (is_stop (wd_log W) x) eqn:Ex; [|reflexivity]. destruct (wo_last _ Hw x Hx Ex) as (_ & Hst & _). rewrite (wo_closing _ Hw Hst) in Hc. discriminate. }
    constructor; cbn [wd_log wd_writer wd_pc wd_held wd_gone wd_stop]; rewrite ?queued_send.
    + apply (accounted_same (wd_log W)); try reflexivity. rewrite app_assoc, <- Permutation_cons_append, app_comm_cons, <- Hp. exact Ha.
    + apply Hw.
    + intros x Hx. apply (wo_held _ Hw). rewrite Hp. now right.
    + intros x Hx Ex. change (is_stop (wd_log W) x = true) in Ex. apply elem_of_app in Hx as [Hx|Hx]; [rewrite (Hns x Hx) in Ex; discriminate|]. apply list_elem_of_singleton in Hx as ->. rewrite (wo_held _ Hw q) in Ex; [discriminate|]. rewrite Hp. now left.
    + exact (wo_closing _ Hw).
    + intros Hpc. destruct (wo_stopped _ Hw Hpc) as [_ Hst]. rewrite (wo_closing _ Hw Hst) in Hc. discriminate.
    + exact (wo_collect _ Hw).
  - assert (Hle : heap_le (wd_log W) (close_submit (wd_log W))) by (apply heap_le_same; [reflexivity|]; unfold fixed_of, close_submit, budget_close; cbn; now destruct (bb_closed _)). split; [|exact Hle].
    apply client_ok; [exact Hw|exact Hle|reflexivity|reflexivity| |exact (wo_held _ Hw)]. apply (accounted_same (wd_log W)); try reflexivity; try exact Ha; unfold close_submit, budget_close; cbn; now destruct (bb_closed _).
  - apply send_parts in Es as ->. destruct (heap_le_new (wd_log W) (lg_budget (wd_log W)) stop_request l q Hf eq_refl En) as (Hle & Eq & Enone). pose proof (accounted_stop_new _ _ _ _ _ _ Ha En) as Ha'.
    assert (HQ : queued l (wd_writer W) = queued (wd_log W) (wd_writer W)) by (injection En as <- <-; reflexivity). assert (Hcl : lg_closing l = true) by (injection En as <- <-; exact Hc).
    assert (Hold : forall x, x ∈ wd_held W ++ queued (wd_log W) (wd_writer W) -> is_stop l x = is_stop (wd_log W) x) by (intros x Hx; apply (heap_le_is_stop _ _ _ Hle), (queued_exists W x Hw Hx)).
    split; [|exact (transitivity Hle (heap_le_same l (set_requests l (lg_requests l ++ [q])) eq_refl eq_refl))]. constructor; cbn [wd_log wd_writer wd_pc wd_held wd_gone wd_stop]; rewrite ?queued_send, ?HQ.
    + apply (accounted_same l); try reflexivity. rewrite app_assoc, <- Permutation_cons_append. exact Ha'.
    + apply Hw.
    + intros x Hx. change (is_stop l x = false). rewrite Hold by set_solver. exact (wo_held _ Hw x Hx).
    + intros x Hx Ex. change (is_stop l x = true) in Ex. change (physical_of (set_requests l _) x) with (physical_of l x). apply elem_of_app in Hx as [Hx|Hx].
      * rewrite Hold in Ex by set_solver. destruct (wo_last _ Hw x Hx Ex) as (_ & Hst' & _). congruence.
      * apply list_elem_of_singleton in Hx as ->. split; [apply last_snoc|]. split; [reflexivity|]. unfold physical_of. now rewrite Eq.
    + intros _. exact Hcl.
    + intros Hpc. destruct (wo_stopped _ Hw Hpc) as [_ Hst']. congruence.
    + exact (wo_collect _ Hw).
  - assert (Hle : heap_le (wd_log W) (set_registry (wd_log W) r)) by now apply heap_le_same. split; [|exact Hle]. apply client_ok; auto; [apply (accounted_same (wd_log W)); try reflexivity; exact Ha|exact (wo_held _ Hw)].
  - assert (Hle : heap_le (wd_log W) (set_registry (wd_log W) r)) by now apply heap_le_same. split; [|exact Hle]. apply client_ok; auto; [apply (accounted_same (wd_log W)); try reflexivity; exact Ha|exact (wo_held _ Hw)].
  - destruct (writer_turn_ok _ _ _ Hw E) as [H1 H2 _ _ _]. auto.
Qed.

Lemma world_steps_ok W W' : world_ok W -> rtc world_step W W' -> world_ok W' /\ heap_le (wd_log W) (wd_log W').
Proof.
  intros Hw H. induction H as [W|W1 W2 W3 Hs _ IH]; [split; [exact Hw|reflexivity]|]. destruct (world_step_ok _ _ Hw Hs) as [H1 H2]. destruct (IH H1) as [H3 H4]. split; [exact H3|]. exact (transitivity H2 H4).
Qed.

(** The world of a log that has just been opened. *)
Definition opened (l : Log) (w : writer) (o : os lpath C) : world C := mkWorld l w WIdle o [] [] ∅ false.

Lemma opened_ok cfg maxPayload active registry l w o : newLog cfg maxPayload active registry = Ok (l, w) -> 0 <= cf_MaxQueuedBytes cfg < two64 -> world_ok (opened l w o) /\ fixed_of l = (cf_MaxQueuedBytes cfg, cfg, maxPayload).
Proof.
  intros E Hm. unfold newLog in E. inv_ok E. destruct (entry_at _ _) as [[loc e]|]; [|discriminate]. inv_ok E. apply Ok_inj in E. injection E as <- <-. split; [|reflexivity].
  constructor; cbn; try discriminate.
  - constructor; cbn; try (intros q Hq; inversion Hq; fail); try reflexivity; try lia; [constructor|intros q Hq; rewrite lookup_empty in Hq; destruct Hq; discriminate|intros q Hq; rewrite lookup_empty in Hq; destruct Hq; discriminate].
  - constructor; [constructor; auto|auto|discriminate].
  - intros q Hq. inversion Hq.
Qed.

(** ** The writer alone *)

(** At most [n] turns of the writer; [ctx] gives the contexts. *)
Fixpoint run_writer (ctx : nat -> option goerror) (n : nat) (W : world C) : world C :=
  match n with
  | O => W
  | S n => match writer_turn W (ctx n) with Some W' => run_writer ctx n W' | None => W end
  end.

Lemma writer_blocked W ctxErr : world_ok W -> writer_turn W ctxErr = None -> queued (wd_log W) (wd_writer W) = [] /\ wd_pc W <> WCollect.
Proof.
  intros Hw E. unfold writer_turn in E. destruct (wd_pc W) eqn:Hpc; [|discriminate|].
  - split; [|discriminate]. unfold idle_turn, nextRequest in E. unfold queued. destruct (w_deferred _); [discriminate|]. destruct (lg_requests _); [reflexivity|discriminate].
  - split; [apply (wo_stopped _ Hw Hpc)|discriminate].
Qed.

Lemma run_writer_ok ctx : forall n W, world_ok W -> (measure W <= n)%nat -> let W' := run_writer ctx n W in
  world_ok W' /\ heap_le (wd_log W) (wd_log W') /\ queued (wd_log W') (wd_writer W') = [] /\ wd_pc W' <> WCollect /\ wd_held W' = wd_held W /\ wd_gone W' = wd_gone W.
Proof.
  induction n as [|n IH]; intros W Hw Hm; cbn [run_writer].
  - split; [exact Hw|]. split; [reflexivity|]. unfold measure in Hm. destruct (queued (wd_log W) (wd_writer W)); [|cbn in Hm; lia]. split; [reflexivity|]. split; [|auto]. intros E. rewrite E in Hm. cbn in Hm. lia.
  - destruct (writer_turn W (ctx n)) as [W1|] eqn:E.
    + destruct (writer_turn_ok _ _ _ Hw E) as [T1 T2 T3 (T4 & T5 & _) _]. destruct (IH W1 T1 ltac:(lia)) as (H1 & H2 & H3 & H4 & H5 & H6). split; [exact H1|]. split; [exact (transitivity T2 H2)|]. repeat split; congruence.
    + destruct (writer_blocked _ _ Hw E) as [H1 H2]. split; [exact Hw|]. split; [reflexivity|auto].
Qed.

(** A request with a response is completed. *)
Lemma response_completed W q r x : world_ok W -> lg_heap (wd_log W) !! q = Some r -> q ∉ wd_gone W -> rq_response r = Some x -> rq_completed r = true.
Proof.
  intros Hw E Hg Hx. pose proof (wo_books _ Hw) as Ha. destruct (decide (q ∈ wd_held W ++ queued (wd_log W) (wd_writer W))) as [Hq|Hq].
  { destruct (ac_unstaged _ _ _ _ Ha q Hq) as (r0 & E0 & [(_ & _ & F) _]). congruence. }
  destruct (decide (q ∈ waiters (wd_writer W))) as [Hs|Hs]; [destruct (ac_waiting _ _ _ _ Ha q Hs) as (r0 & E0 & [(_ & _ & F) _]); congruence|].
  destruct (ac_answered _ _ _ _ Ha q ltac:(eauto) Hq Hs Hg) as (r0 & E0 & [F _]). congruence.
Qed.
End World.

(** C32: the byte budget of the queue is exact.  However clients reserve, submit,
    give up and close, and whatever the writer does, the bytes that are accounted as
    used are those of the requests that clients hold or that wait in the queue,
    never more than [MaxQueuedBytes], and the release that would panic is never
    reached; with nothing held and nothing queued all bytes are free. *)
Theorem queue_budget_exact {C} `{!LogPort C} cfg maxPayload active registry l w (o : os lpath C) W :
  newLog cfg maxPayload active registry = Ok (l, w) -> 0 <= cf_MaxQueuedBytes cfg < two64 -> rtc world_step (opened l w o) W ->
  bb_panicked (lg_budget (wd_log W)) = false /\ 0 <= bb_used (lg_budget (wd_log W)) <= cf_MaxQueuedBytes cfg /\
  bb_used (lg_budget (wd_log W)) = bytes_held (wd_log W) (wd_held W ++ queued (wd_log W) (wd_writer W)).
Proof.
  intros E Hm Hs. destruct (opened_ok _ _ _ _ _ _ o E Hm) as [H0 F0]. destruct (world_steps_ok _ _ H0 Hs) as [Hw Hle]. pose proof (wo_books _ Hw) as Ha. pose proof (hl_fixed _ _ Hle) as F. cbn [opened wd_log] in F. rewrite F0 in F. injection F as F1 _ _.
  split; [apply (ac_calm _ _ _ _ Ha)|]. pose proof (bytes_held_nonneg _ _ (ac_unstaged _ _ _ _ Ha)). pose proof (ac_limit _ _ _ _ Ha). rewrite (ac_used _ _ _ _ Ha) in *. split; [lia|reflexivity].
Qed.

(** C31: every accepted append is answered, once.  In any reachable state of the
    queue, [measure W] turns of the writer, whatever the contexts and the files do,
    leave an empty queue; every request that was submitted has a response then, and
    a response that was there is not replaced. *)
Theorem appends_answered {C} `{!LogPort C} cfg maxPayload active registry l w (o : os lpath C) W ctx n :
  newLog cfg maxPayload active registry = Ok (l, w) -> 0 <= cf_MaxQueuedBytes cfg < two64 -> rtc world_step (opened l w o) W -> (measure W <= n)%nat ->
  let W' := run_writer ctx n W in
  queued (wd_log W') (wd_writer W') = [] /\ wd_pc W' <> WCollect /\
  forall q r, lg_heap (wd_log W) !! q = Some r -> q ∉ wd_held W -> q ∉ wd_gone W ->
    exists r' x, lg_heap (wd_log W') !! q = Some r' /\ rq_response r' = Some x /\ (forall y, rq_response r = Some y -> y = x).
Proof.
  intros E Hm Hs Hn W'. destruct (opened_ok _ _ _ _ _ _ o E Hm) as [H0 _]. destruct (world_steps_ok _ _ H0 Hs) as [Hw _]. destruct (run_writer_ok ctx n W Hw Hn) as (H1 & H2 & H3 & H4 & H5 & H6). fold W' in H1, H2, H3, H4, H5, H6.
  split; [exact H3|]. split; [exact H4|]. intros q r Er Nh Ng. destruct (hl_heap _ _ H2 q r Er) as (r' & Er' & [_ Hans _]).
  assert (Ha : request_at (wd_log W') q answered).
  { apply (ac_answered _ _ _ _ (wo_books _ H1)); [eauto|rewrite H3, H5, app_nil_r; exact Nh| |rewrite H6; exact Ng]. unfold waiters. rewrite (writer_at_idle _ _ (wo_writer _ H1) H4). apply not_elem_of_nil. }
  destruct Ha as (r0 & E0 & [_ [x Hx]]). assert (r0 = r') by congruence. subst r0. exists r', x. split; [exact Er'|]. split; [exact Hx|]. intros y Hy. destruct (Hans (response_completed W q r y Hw Er Ng Hy)) as [_ Hr]. congruence.
Qed.
