(* ===== verification/LogCrash.v ===== *)
(** * Rotation of the record log is crash-safe

    The whole rotation, with the publication in the registry, and any number of
    interrupted recoveries after it. *)
From S2P Require Import Prelude Bytes Addr Crc32 RecordFormat Fs FsDisk Catalog LogSegment LogRotate LogScan LogRotation LogRotationSpec LogRegistry LogState.

Section Rotation.
Context {C : Type} `{!LogPort C} `{!LogPortLaws C}.
Context (room : Prop) (s0 : LogSnapshot) (recs : list LogRecord) (R : log_rotatable s0 recs) (d0 : gmap lpath (list Z)).
Local Abbreviation id := (ls_ActiveSegmentID s0).
Local Abbreviation nid := (ls_NextSegmentID s0).

(** The registry of a log whose active segment object is [old], at [l]. *)
Record registered (r : segmentRegistry) (l : nat) (old : activeSegment) (e : registryEntry) : Prop := mkRegistered {
  rd_entry : entry_at r id = Some (l, e);
  rd_object : re_active e = Some old /\ re_state e = segmentActive;
  rd_active : rg_active r = id /\ rg_closed r = false;
  rd_next : nid < CompactionSegmentBase -> rg_entries r !! nid = None;
}.

(** The registry after a rotation. *)
Definition rotated_registry (r : segmentRegistry) (l : nat) (e : registryEntry) (f g : nat) : segmentRegistry :=
  signalLocked (set_active_id (add_entry (set_entry r l (mkEntry segmentSealed None (Some (mkSealed (Some f) (old_header s0) (log_old_summary s0 recs))) (re_pins e)))
    nid (mkEntry segmentActive (Some (fresh_active s0 g)) None 0)) nid).

Lemma entry_set r l e i : rg_entries r !! i = Some l -> entry_at (set_entry r l e) i = Some (l, e).
Proof. intros E. unfold entry_at. cbn. now rewrite E, lookup_insert_eq. Qed.

Lemma publishRotation_ok r l old e f g : registered r l old e -> rotating s0 recs old f -> as_transferred old = false ->
  publishRotation (set_object r l (set_sealed old)) id (mkSealed (Some f) (old_header s0) (log_old_summary s0 recs)) (fresh_active s0 g) = Ok (rotated_registry r l e f g).
Proof.
  intros [Hent [Ho Hst] [Ha Hc] Hn] (F1 & F2 & F3 & F4) Ht. pose proof Hent as Hent'. unfold entry_at in Hent'. destruct (rg_entries r !! id) as [l'|] eqn:E1; [|discriminate]. destruct (rg_heap r !! l') as [e'|] eqn:E2; [|discriminate]. injection Hent' as -> ->.
  assert (Hprev : sh_PreviousSegment (new_header s0) = id).
  { cbn. destruct (pt_ids _ (log_parts_of s0 recs R)) as [[P1 P2] ->]. replace (1 <? id + 1) with true by (symmetry; apply Z.ltb_lt; lia). lia. }
  unfold publishRotation, set_object. rewrite E2. cbn [fresh_active as_header sl_header sl_file as_file]. rewrite Hprev. change (sh_SegmentID (old_header s0)) with id. change (sh_SegmentID (new_header s0)) with nid. rewrite Z.eqb_refl, !(bool_decide_eq_true_2 (is_Some (Some _))) by eauto. cbn [negb orb].
  rewrite (entry_set r l _ id E1). cbn [re_active re_state]. cbn [set_entry rg_closed rg_active rg_entries]. rewrite Hc, Ha, Z.eqb_refl, Hst, bool_decide_eq_true_2 by reflexivity. cbn [negb orb].
  rewrite (Hn (lro_next _ _ R)), bool_decide_eq_false_2 by (intros [? ?]; discriminate). unfold transferSealedOwnership. cbn [set_sealed as_sealed as_transferred as_file sl_file]. rewrite Ht, F1, !bool_decide_eq_true_2 by eauto. cbn [negb orb re_pins].
  unfold rotated_registry. do 4 f_equal. unfold set_entry. cbn [rg_heap rg_fresh rg_entries rg_active rg_changed rg_closed]. rewrite insert_insert_eq. reflexivity.
Qed.

(** Everything a finished rotation leaves. *)
Definition log_rotation_result (r : segmentRegistry) (l : nat) (e : registryEntry) (f : nat) (o : os lpath C) (r' : segmentRegistry) (n : activeSegment) : Prop :=
  exists g, log_rotation_done room s0 recs d0 o /\ owns o (LActive nid) g /\ owns o (LSealed id) f /\ n = fresh_active s0 g /\ r' = rotated_registry r l e f g.

Lemma log_rotate_phase r l old e f o : registered r l old e -> rotating s0 recs old f -> as_transferred old = false ->
  at_disk (ldsk s0 d0 None None (Some (log_image (old_header s0) recs)) None None None) (lcatalog_at room s0 recs s0) o -> owns o (LActive id) f ->
  match rotate r l old o with
  | (o', (r', Ok n)) => log_rotation_result r l e f o' r' n /\ (os_faults o = [] -> os_faults o' = [])
  | (o', (r', Err _)) => lstopped room s0 recs d0 o' /\ (room -> os_faults o <> [])
  end.
Proof.
  intros Hreg Hrot Htr Ho Hw. unfold rotate. pose proof (rotate_segments_phase room s0 recs R d0 old f Hrot o (conj Ho Hw)) as H1. destruct (rotate_segments old o) as [o1 [[[a b] n]|x]]; cbn [fst snd] in H1; destruct H1 as [F1 H1]; [|exact H1].
  destruct H1 as (g & [Hd Hg] & Hs & [= -> -> ->]). pose proof Hrot as (_ & Hh & _). rewrite Hh. change (sh_SegmentID (old_header s0)) with id. rewrite (publishRotation_ok r l old e f g Hreg Hrot Htr).
  assert (Hk : forall q, q <> LRotation -> q <> LRotationTmp -> os_names (removeRotationJournal o1).1 !! q = os_names o1 !! q) by (intros q Q1 Q2; apply (log_removeJournal_keeps q Q1 Q2)).
  pose proof (Hk (LActive nid) ltac:(discriminate) ltac:(discriminate)) as K1. pose proof (Hk (LSealed id) ltac:(discriminate) ltac:(discriminate)) as K2.
  pose proof (log_removeJournal_phase room s0 recs R d0 o1 Hd) as H2. destruct (removeRotationJournal o1) as [o2 [y|x]]; cbn [fst snd] in *; destruct H2 as [F2 H2].
  - split; [|auto]. exists g. unfold owns in *. split; [exact H2|]. split; [congruence|]. split; [congruence|]. auto.
  - destruct H2 as [H2 H3]. split; [exact H2|]. intros Hm E. exact (H3 Hm (F1 E)).
Qed.
End Rotation.

(** ** Processes that are stopped and restarted *)

Section Crash.
Context {C : Type} `{!LogPort C} `{!LogPortLaws C}.
Context (s0 : LogSnapshot) (recs : list LogRecord) (R : log_rotatable s0 recs) (d0 : gmap lpath (list Z)).
Local Abbreviation id := (ls_ActiveSegmentID s0).
Local Abbreviation nid := (ls_NextSegmentID s0).
Local Abbreviation stopped := (lstopped True s0 recs d0).

Definition log_restart (o : os lpath C) (faults : list fault) : os lpath C := mkOs (os_names o) (os_data o) (os_next o) faults (lp_Reload (os_user o)).
(** What [Open] does about an interrupted rotation. *)
Definition recover_log : io lpath C LogSnapshot := let* s := log_snapshot in recoverRotation s.
(** Processes that open the directory one after the other, each with its own faults. *)
Definition log_reopen (runs : list (list fault)) (o : os lpath C) : os lpath C := fold_left (fun o faults => (recover_log (log_restart o faults)).1) runs o.

Lemma log_reload_at s c : lp_ok c -> lp_Snapshot (lp_Reload c) = s -> (s = s0 -> lp_room c (log_old_summary s0 recs) /\ lp_Snapshot c = s0) -> lcatalog_at True s0 recs s (lp_Reload c).
Proof.
  intros Hc Hs Hr. destruct (lp_reload c Hc) as (H1 & H2 & H3). split; [exact H1|]. split; [congruence|]. split; [congruence|]. intros _ E. destruct (Hr E) as [Hm Hc0]. apply H3; congruence.
Qed.

Lemma log_restart_phase o faults : stopped o -> lin_phase True s0 recs d0 (log_restart o faults).
Proof.
  intros [(d & u & Hp & [[W1 W2] Hd Hu])|[[W1 W2] Hd (H1 & H2 & H4 & H3)]].
  - exists d, u. split; [exact Hp|]. constructor; [constructor; assumption|exact Hd|]. assert (Hcat : exists s, u = lcatalog_at True s0 recs s) by (destruct Hp; eauto). destruct Hcat as [s ->]. destruct Hu as (H1 & H2 & H3 & H4). apply log_reload_at; auto. intros E. split; [auto|congruence].
  - destruct H3 as [H3|H3]; [eexists _, _; split; [exact (lp_journaled True s0 recs d0 _ _ _ _ (fr_sealed s0 recs) (bk_created s0))|]|eexists _, _; split; [exact (lp_committed True s0 recs d0)|]];
      (constructor; [constructor; assumption|exact Hd|]); apply log_reload_at; auto.
Qed.

Lemma log_recover_stopped o : lin_phase True s0 recs d0 o -> stopped (recover_log o).1.
Proof.
  intros (d & u & Hp & Ho). pose proof (log_recover_phase True s0 recs R d0 d u Hp o Ho) as [_ H]. unfold recover_log. destruct ((let* s := log_snapshot in recoverRotation s) o) as [o' [st|e]]; cbn [fst snd] in *; [|apply H].
  destruct H as [(_ & (k & H) & _)|[_ H]]; [exact (lstopped_in True s0 recs d0 _ _ _ (lp_before True s0 recs d0 None k) H)|exact (lstopped_in True s0 recs d0 _ _ _ (lp_done True s0 recs d0) H)].
Qed.

Lemma log_reopen_stopped runs : forall o, stopped o -> stopped (log_reopen runs o).
Proof. induction runs as [|fs runs IH]; intros o Ho; [exact Ho|]. exact (IH _ (log_recover_stopped _ (log_restart_phase o fs Ho))). Qed.

(** The records of the old segment, as a scan of its file finds them. *)
Definition records_on_disk (o : os lpath C) : Prop :=
  (exists data, disk o !! LActive id = Some data /\ exists torn, scanActiveSegmentWithVisitor data (old_header s0) = Ok (log_old_summary s0 recs, torn, recs)) \/
  (exists data, disk o !! LSealed id = Some data /\ check_sealed_data data (old_header s0) (log_old_summary s0 recs) = Ok tt /\ scanRecordRange data (log_old_summary s0 recs) 64 = Ok recs).

Lemma lphase_records o : log_unrotated True s0 recs d0 o \/ log_rotation_done True s0 recs d0 o -> records_on_disk o.
Proof.
  destruct (old_header_ok s0 recs R) as [Hu Hv]. pose proof (lro_recs _ _ R) as Hr. intros [(k & [_ Hd _])|[_ Hd _]]; unfold records_on_disk; rewrite Hd.
  - left. eexists. split; [unfold ldsk, lput; rewrite !lookup_partial_alter; rewrite !decide_False by discriminate; rewrite decide_True by reflexivity; reflexivity|]. eexists. apply (scan_active_spec _ Hu Hv recs _ Hr). apply uf_footer.
  - right. exists (log_sealed_image (old_header s0) recs). split; [|split].
    + unfold ldsk, lput. rewrite !lookup_partial_alter. rewrite !decide_False by discriminate. rewrite decide_True by reflexivity. reflexivity.
    + exact (sealed_image_checks _ Hu Hv recs Hr).
    + exact (scan_range_spec (old_header s0) Hu Hv [] recs _ _ _ _ Hr).
Qed.
End Crash.

(** C8: rotation of the record log is crash-safe.  A rotation of a log whose
    active segment holds [recs], with faults at any of its calls (writes cut
    short, renames and catalog installs that took effect or not, the seal of the
    old file and the creation of the new one independent of each other), leaves
    files from which any number of recoveries that are again stopped anywhere,
    followed by one that is not, ends either with nothing rotated or with the
    rotation done: the catalog and the files agree, the snapshot is valid and the
    old segment still has exactly its records.  Without faults the rotation itself
    succeeds, with the old segment sealed and the new one active in the registry. *)
Theorem log_rotation_crash_safe {C} `{!LogPort C} `{!LogPortLaws C} s0 recs d0 r l old e f (o : os lpath C) runs :
  log_rotatable s0 recs -> registered s0 r l old e -> rotating s0 recs old f -> as_transferred old = false ->
  at_disk (ldsk s0 d0 None None (Some (log_image (old_header s0) recs)) None None None) (lcatalog_at True s0 recs s0) o -> owns o (LActive (ls_ActiveSegmentID s0)) f ->
  (os_faults o = [] -> is_ok (rotate r l old o).2.2 = true) /\
  (forall n, (rotate r l old o).2.2 = Ok n -> log_rotation_result True s0 recs d0 r l e f (rotate r l old o).1 (rotate r l old o).2.1 n) /\
  exists o' st, recover_log (log_restart (log_reopen runs (rotate r l old o).1) []) = (o', Ok st) /\
    (st = s0 /\ log_unrotated True s0 recs d0 o' \/ st = log_s1 s0 recs /\ log_rotation_done True s0 recs d0 o') /\
    lp_Snapshot (os_user o') = st /\ log_snapshot_valid st = true /\ records_on_disk s0 recs o'.
Proof.
  intros R Hreg Hrot Htr Ho Hw. pose proof (log_rotate_phase True s0 recs R d0 r l old e f o Hreg Hrot Htr Ho Hw) as Hr.
  assert (Hst : lstopped True s0 recs d0 (rotate r l old o).1).
  { destruct (rotate r l old o) as [o1 [r1 [n|x]]]; cbn [fst]; [|apply Hr]. destruct Hr as [(g & Hd & _) _]. exact (lstopped_in True s0 recs d0 _ _ _ (lp_done True s0 recs d0) Hd). }
  split; [|split].
  - intros Hf. destruct (rotate r l old o) as [o1 [r1 [n|x]]]; [reflexivity|]. destruct Hr as [_ Hr]. now destruct (Hr I).
  - intros n E. destruct (rotate r l old o) as [o1 [r1 [n'|x]]]; cbn [fst snd] in *; [|discriminate]. injection E as <-. apply Hr.
  - pose proof (log_restart_phase s0 recs d0 _ [] (log_reopen_stopped s0 recs R d0 runs _ Hst)) as (d & u & Hp & Hs2). pose proof (log_recover_phase True s0 recs R d0 d u Hp _ Hs2) as [_ H]. change (let* st := log_snapshot in recoverRotation st) with recover_log in H.
    destruct (recover_log _) as [o' [st|x]]; cbn [fst snd] in H; [|destruct H as [_ H]; now destruct (H I)]. exists o', st. split; [reflexivity|].
    assert (Hcase : st = s0 /\ log_unrotated True s0 recs d0 o' \/ st = log_s1 s0 recs /\ log_rotation_done True s0 recs d0 o') by (destruct H as [(H1 & H2 & _)|H]; auto). split; [exact Hcase|]. split; [|split].
    + destruct Hcase as [(-> & k & [_ _ (_ & Hu & _)])|(-> & [_ _ (_ & Hu & _)])]; exact Hu.
    + destruct Hcase as [[-> _]|[-> _]]; [apply (lro_valid _ _ R)|apply (log_s1_valid s0 recs R)].
    + apply (lphase_records s0 recs R d0). destruct Hcase as [[_ Hx]|[_ Hx]]; auto.
Qed.
