(* ===== verification/LogData.v ===== *)
(** * The records of the log

    What the files, the registry, the catalog and the buffer of the writer hold
    while the log is not poisoned: every segment file is the image of its records,
    the buffer holds the records that follow, and the shared table of pending
    payloads is that of the buffer. *)
From S2P Require Import Prelude Bytes Addr Crc32 RecordFormat Fs FsDisk Catalog LogSegment LogRotate LogScan LogRotation LogRotationSpec LogRegistry LogState LogQueue LogCrash.

(** Registries that differ in the counts of pins and in wake-ups. *)
Definition same_entry (e e' : registryEntry) : Prop := re_state e' = re_state e /\ re_active e' = re_active e /\ re_sealed e' = re_sealed e.
Record same_registry (r r' : segmentRegistry) : Prop := mkSameRegistry {
  sr_fixed : rg_entries r' = rg_entries r /\ rg_active r' = rg_active r /\ rg_closed r' = rg_closed r /\ rg_fresh r' = rg_fresh r;
  sr_heap : forall l, option_Forall2 same_entry (rg_heap r !! l) (rg_heap r' !! l);
}.

Lemma same_registry_entry r r' i l e : same_registry r r' -> entry_at r i = Some (l, e) -> exists e', entry_at r' i = Some (l, e') /\ same_entry e e'.
Proof.
  intros [(H1 & _) Hh] E. unfold entry_at in *. rewrite H1. destruct (rg_entries r !! i) as [l'|]; [|discriminate]. specialize (Hh l'). destruct (rg_heap r !! l') as [e0|]; [|discriminate]. injection E as -> ->. inversion Hh as [? e' He E1 E2|]; subst. exists e'. auto.
Qed.

Lemma same_registry_set r l e e' : rg_heap r !! l = Some e -> same_entry e e' -> same_registry r (set_entry r l e').
Proof.
  intros E He. constructor; [auto|]. intros x. cbn. destruct (decide (x = l)) as [->|Hx]; [rewrite E, lookup_insert_eq; now constructor|]. rewrite lookup_insert_ne by congruence. destruct (rg_heap r !! x); constructor. repeat split.
Qed.

Lemma pin_same r i r' p : pin r i = Ok (r', p) -> same_registry r r' /\ rg_entries r !! i = Some (pn_entry p) /\ pn_id p = i /\ pn_released p = false.
Proof.
  intros E. unfold pin in E. inv_ok E. destruct (entry_at r i) as [[l e]|] eqn:Ee; [|discriminate]. inv_ok E. injection E as <- <-. unfold entry_at in Ee. destruct (rg_entries r !! i) as [l'|]; [|discriminate]. destruct (rg_heap r !! l') as [e'|] eqn:Eh; [|discriminate]. injection Ee as -> ->.
  split; [|auto]. apply (same_registry_set _ _ e); [exact Eh|repeat split].
Qed.

Lemma release_same r p r' p' : pin_release r p = Ok (r', p') -> same_registry r r'.
Proof.
  intros E. unfold pin_release in E. inv_ok E. destruct (entry_at r (pn_id p)) as [[l e]|] eqn:Ee; [|discriminate]. inv_ok E. injection E as <- <-. unfold entry_at in Ee. destruct (rg_entries r !! pn_id p) as [l'|]; [|discriminate]. destruct (rg_heap r !! l') as [e'|] eqn:Eh; [|discriminate]. injection Ee as -> ->.
  destruct (same_registry_set r l e (set_pins e (re_pins e - 1)) Eh ltac:(repeat split)) as [H1 H2]. constructor; [exact H1|exact H2].
Qed.

(** Locations are below the next one, and pins are counted from zero. *)
Definition heap_ok (r : segmentRegistry) : Prop := forall x e, rg_heap r !! x = Some e -> (x < rg_fresh r)%nat /\ 0 <= re_pins e.

Lemma heap_ok_set r l e : heap_ok r -> is_Some (rg_heap r !! l) -> 0 <= re_pins e -> heap_ok (set_entry r l e).
Proof. intros H [e0 E] Hp x y Ex. cbn in Ex. apply lookup_insert_Some in Ex as [[<- <-]|[_ Ex]]; [split; [exact (proj1 (H _ _ E))|exact Hp]|exact (H _ _ Ex)]. Qed.

Lemma entry_parts r i l e : entry_at r i = Some (l, e) -> rg_entries r !! i = Some l /\ rg_heap r !! l = Some e.
Proof. unfold entry_at. destruct (rg_entries r !! i) as [l'|]; [|discriminate]. destruct (rg_heap r !! l') as [e'|] eqn:E; [|discriminate]. intros [= -> ->]. auto. Qed.

Lemma entry_of r i l e : rg_entries r !! i = Some l -> rg_heap r !! l = Some e -> entry_at r i = Some (l, e).
Proof. unfold entry_at. now intros -> ->. Qed.

Lemma pin_heap_ok r i r' p : heap_ok r -> pin r i = Ok (r', p) -> heap_ok r'.
Proof.
  intros H E. unfold pin in E. inv_ok E. destruct (entry_at r i) as [[l e]|] eqn:Ee; [|discriminate]. inv_ok E. injection E as <- <-. apply entry_parts in Ee as [_ Ee]. apply heap_ok_set; [exact H|eauto|]. cbn. apply Z.mod_pos_bound. lia.
Qed.

Lemma release_heap_ok r p r' p' : heap_ok r -> pin_release r p = Ok (r', p') -> heap_ok r'.
Proof.
  intros H E. unfold pin_release in E. inv_ok E. destruct (entry_at r (pn_id p)) as [[l e]|] eqn:Ee; [|discriminate]. inv_ok E. injection E as <- <-. apply entry_parts in Ee as [_ Ee]. pose proof (H _ _ Ee). bool_norm. intros x y Ex. apply (heap_ok_set r l (set_pins e (re_pins e - 1)) H ltac:(eauto)) in Ex; [exact Ex|cbn; lia].
Qed.

Section Segments.
Context {C : Type}.

(** Segment [i] of the registry, at [l], holds [recs] as a reader sees it. *)
Record shown (r : segmentRegistry) (o : os lpath C) (i : Z) (l : nat) (recs : list LogRecord) : Prop := mkShown {
  sw_header : exists h, segmentHeader_u h /\ segmentHeader_bad h = false /\ sh_SegmentID h = i /\ log_recs h recs /\
    exists e f rest, rg_heap r !! l = Some e /\ re_state e <> segmentRetiring /\ bytes_of o f = log_image h recs ++ rest /\
      ((exists a, re_active e = Some a /\ as_file a = Some f /\ summaryLocked a = log_summary i recs) \/
       (exists s, re_active e = None /\ re_sealed e = Some s /\ sl_file s = Some f /\ sl_summary s = log_summary i recs));
  sw_entry : rg_entries r !! i = Some l;
}.

Lemma shown_read r o i l recs rec p : shown r o i l recs -> rec ∈ recs -> pn_released p = false -> pn_id p = i -> pn_entry p = l -> pin_read r p (ar_Addr rec.1) o = (o, Ok rec.2).
Proof.
  intros [(h & Hu & Hv & Hi & Hr & e & f & rest & Ee & _ & Hb & Hcase) _] Hrec Hp Hid Hl. apply list_elem_of_split in Hrec as (pre & suf & ->).
  destruct (header_parts h Hu Hv) as (P1 & _). destruct (next_facts h Hu Hv pre rec suf Hr) as ([_ _ (_ & A2 & _) _ _ _] & _). unfold pin_read. rewrite Hp, A2, Hid, Hi, Z.eqb_refl, Hl, Ee. cbn [negb].
  pose proof (fun n f l => read_record_spec h Hu Hv pre rec suf rest n f l Hr) as Hread. rewrite Hi in Hread.
  destruct Hcase as [(a & -> & Hf & Hs)|(s & -> & -> & Hf & Hs)]; unfold active_read, sealed_read; rewrite Hf; unfold io_bind, fs_data, io_lift; rewrite Hb, Hs; unfold log_summary; rewrite Hread; reflexivity.
Qed.

Lemma shown_same r r' o i l recs : same_registry r r' -> shown r o i l recs -> shown r' o i l recs.
Proof.
  intros [(H1 & _) Hh] [(h & Hu & Hv & Hi & Hr & e & f & rest & Ee & Hst & Hb & Hcase) Hen]. constructor; [|congruence]. exists h. repeat (split; [assumption|]). specialize (Hh l). rewrite Ee in Hh. inversion Hh as [? e' (S1 & S2 & S3) E1 E2|]; subst. exists e', f, rest. split; [reflexivity|]. split; [congruence|]. split; [exact Hb|].
  rewrite S2, S3. exact Hcase.
Qed.
End Segments.

(** ** The state of a log that works *)

(** The snapshot of the catalog, the records of the sealed segments, those written
    to the active one and those in the buffer. *)
Record ghost := mkGhost { gh_snap : LogSnapshot; gh_sealed : gmap Z (list LogRecord); gh_written : list LogRecord; gh_buffer : list LogRecord }.

Definition written (g : ghost) (rec : LogRecord) : Prop := rec ∈ gh_written g \/ exists i recs, gh_sealed g !! i = Some recs /\ rec ∈ recs.
Definition holds (g : ghost) (rec : LogRecord) : Prop := written g rec \/ rec ∈ gh_buffer g.

Section Live.
Context {C : Type} `{!LogPort C} `{!LogPortLaws C}.

Definition sealed_at (r : segmentRegistry) (o : os lpath C) (i : Z) (recs : list LogRecord) : Prop :=
  exists l e s f h rest, rg_entries r !! i = Some l /\ rg_heap r !! l = Some e /\ re_state e = segmentSealed /\ re_active e = None /\ re_sealed e = Some s /\ sl_file s = Some f /\ sl_summary s = log_summary i recs /\
    segmentHeader_u h /\ segmentHeader_bad h = false /\ sh_SegmentID h = i /\ log_recs h recs /\ owns o (LSealed i) f /\ bytes_of o f = log_image h recs ++ rest.

(** No file of a rotation is there, and no segment after the active one. *)
Record clean (r : segmentRegistry) (o : os lpath C) (id : Z) : Prop := mkClean {
  cl_journal : os_names o !! LRotation = None /\ os_names o !! LRotationTmp = None;
  cl_active : forall i, id < i < CompactionSegmentBase -> os_names o !! LActive i = None /\ os_names o !! LCreating i = None /\ rg_entries r !! i = None;
  cl_sealed : forall i, id <= i < CompactionSegmentBase -> os_names o !! LSealed i = None;
}.

Definition buffer_of (w : writer) : list LogRecord := map (fun p => (pr_result p, pr_payload p)) (w_pending w).
Definition pending_map (recs : list LogRecord) : gmap Z (list Z) := list_to_map (map (fun r => (ar_Addr r.1, r.2)) recs).
(** The order of positions. *)
Definition pos_le (p q : LogPos) : Prop := pos_SegmentID p < pos_SegmentID q \/ pos_SegmentID p = pos_SegmentID q /\ pos_Offset p <= pos_Offset q.
Definition end_of (s : LogSnapshot) (recs : list LogRecord) : LogPos := mkPos (ls_ActiveSegmentID s) (64 + body_size recs).

Record live (l : Log) (w : writer) (o : os lpath C) (g : ghost) (e : registryEntry) (a : activeSegment) (f : nat) : Prop := mkLive {
  lv_catalog : lcatalog_at False (gh_snap g) (gh_written g) (gh_snap g) (os_user o);
  lv_valid : log_snapshot_valid (gh_snap g) = true;
  lv_recs : log_recs (old_header (gh_snap g)) (gh_written g ++ gh_buffer g);
  lv_entry : registered (gh_snap g) (lg_registry l) (w_active w) a e;
  lv_object : rotating (gh_snap g) (gh_written g) a f /\ as_transferred a = false;
  lv_heap : heap_ok (lg_registry l);
  lv_files : fs_wf o /\ owns o (LActive (ls_ActiveSegmentID (gh_snap g))) f /\ bytes_of o f = log_image (old_header (gh_snap g)) (gh_written g);
  lv_clean : clean (lg_registry l) o (ls_ActiveSegmentID (gh_snap g));
  lv_sealed : forall i recs, gh_sealed g !! i = Some recs -> sealed_at (lg_registry l) o i recs /\ i <> ls_ActiveSegmentID (gh_snap g);
  lv_buffer : buffer_of w = gh_buffer g /\ w_encoded w = log_body (gh_buffer g) /\ w_bytes w = body_size (gh_buffer g) /\ Forall (fun p => pr_size p = rec_size (pr_result p, pr_payload p)) (w_pending w);
  lv_pending : lg_pending l = pending_map (gh_buffer g);
  lv_marks : wm_Written (st_Watermarks (lg_status l)) = end_of (gh_snap g) (gh_written g);
  lv_durable : pos_le (wm_Durable (st_Watermarks (lg_status l))) (wm_Written (st_Watermarks (lg_status l)));
  lv_max : lg_maxPayloadBytes l = ls_MaxPayloadBytes (gh_snap g);
  lv_terminal : lg_terminal l = None /\ w_fault w = None;
}.

Definition lives (l : Log) (w : writer) (o : os lpath C) (g : ghost) : Prop := exists e a f, live l w o g e a f.

Lemma sealed_at_shown r o i recs : sealed_at r o i recs -> exists l, shown r o i l recs.
Proof.
  intros (l & e & s & f & h & rest & H1 & H2 & H3 & H4 & H5 & H6 & H7 & H8 & H9 & H10 & H11 & H12 & H13). exists l. constructor; [|exact H1]. exists h. repeat (split; [assumption|]). exists e, f, rest. repeat (split; [first [assumption|rewrite H3; discriminate]|]). right. exists s. auto.
Qed.

Lemma live_range l w o g e a f : live l w o g e a f -> log_snapshot_u (gh_snap g).
Proof. intros L. destruct (lv_catalog _ _ _ _ _ _ _ L) as (Hok & <- & _). exact (lp_range _ Hok). Qed.

Lemma live_parts l w o g e a f : live l w o g e a f -> log_parts (gh_snap g).
Proof. intros L. exact (log_snapshot_parts _ (live_range _ _ _ _ _ _ _ L) (lv_valid _ _ _ _ _ _ _ L)). Qed.

Lemma live_header l w o g e a f : live l w o g e a f -> segmentHeader_u (old_header (gh_snap g)) /\ segmentHeader_bad (old_header (gh_snap g)) = false.
Proof.
  intros L. pose proof (live_range _ _ _ _ _ _ _ L) as Hu. pose proof (log_snapshot_parts _ Hu (lv_valid _ _ _ _ _ _ _ L)) as Hp. apply (snapshot_header _ _ Hu Hp), Hp.
Qed.

Lemma live_shown l w o g e a f : live l w o g e a f -> shown (lg_registry l) o (ls_ActiveSegmentID (gh_snap g)) (w_active w) (gh_written g).
Proof.
  intros L. destruct (live_header _ _ _ _ _ _ _ L) as [Hu Hv]. destruct (lv_entry _ _ _ _ _ _ _ L) as [E [Ea Es] _ _]. destruct (lv_object _ _ _ _ _ _ _ L) as [(O1 & O2 & O3 & O4) _]. destruct (lv_files _ _ _ _ _ _ _ L) as (_ & _ & Hb). unfold entry_at in E. destruct (rg_entries _ !! _) as [x|] eqn:E1; [|discriminate]. destruct (rg_heap _ !! x) as [y|] eqn:E2; [|discriminate]. injection E as -> ->.
  constructor; [|exact E1]. exists (old_header (gh_snap g)). repeat (split; [first [assumption|reflexivity]|]). split; [exact (log_recs_app _ _ _ (lv_recs _ _ _ _ _ _ _ L))|]. exists e, f, []. split; [exact E2|]. split; [rewrite Es; discriminate|]. rewrite app_nil_r. split; [exact Hb|]. left. exists a. auto.
Qed.
End Live.

(** ** Reading *)

Lemma placed_elem id : is_u32 id -> forall recs off rec, placed id off recs -> 0 <= off -> off + body_size recs < two32 -> rec ∈ recs -> VAddr_Valid (ar_Addr rec.1) = true /\ SegmentID (ar_Addr rec.1) = id /\ off <= Offset (ar_Addr rec.1) < off + body_size recs.
Proof.
  intros Hid. induction recs as [|r recs IH]; intros off rec Hp Ho Hb Hin; [inversion Hin|]. cbn in Hp. destruct Hp as [Hr Hp]. rewrite body_size_cons in *. pose proof (body_size_nonneg _ _ _ Hp).
  assert (Hs : is_u32 off) by (unfold is_u32; destruct Hr as [_ Hr _ _]; apply PhysicalRecordSize_nonneg in Hr; [lia|apply len_nonneg]). destruct (rec_at_facts _ _ _ Hid Hs Hr) as [_ [F2 _] (_ & F3 & F4 & F5 & _) _ _ _].
  apply elem_of_cons in Hin as [->|Hin]; [rewrite F3, F4, F5; repeat split; lia|]. destruct (IH (off + rec_size r) rec Hp ltac:(lia) ltac:(lia) Hin) as (I0 & I1 & I2). split; [exact I0|]. split; [exact I1|lia].
Qed.

Lemma pending_found id : is_u32 id -> forall recs off rec, placed id off recs -> 0 <= off -> off + body_size recs < two32 -> rec ∈ recs -> pending_map recs !! ar_Addr rec.1 = Some rec.2.
Proof.
  intros Hid. induction recs as [|r recs IH]; intros off rec Hp Ho Hb Hin; [inversion Hin|]. pose proof Hp as [Hr Hp']. unfold pending_map. cbn [map list_to_map foldr uncurry]. cbn. fold (pending_map recs). apply elem_of_cons in Hin as [->|Hin]; [apply lookup_insert_eq|].
  rewrite body_size_cons in Hb. pose proof (body_size_nonneg _ _ _ Hp'). pose proof Hr as [_ Hs _ _]. apply PhysicalRecordSize_nonneg in Hs; [|apply len_nonneg].
  destruct (placed_elem id Hid (r :: recs) off r Hp Ho ltac:(rewrite body_size_cons; lia) ltac:(now left)) as (_ & _ & _). destruct (placed_elem id Hid recs (off + rec_size r) rec Hp' ltac:(lia) ltac:(lia) Hin) as (_ & _ & E2).
  assert (Hoff : Offset (ar_Addr r.1) = off) by (apply (rec_at_facts id off r Hid ltac:(unfold is_u32; lia) Hr)). rewrite lookup_insert_ne by (intros E; rewrite E in Hoff; lia). exact (IH _ _ Hp' ltac:(lia) ltac:(lia) Hin).
Qed.

Lemma pending_only recs addr p : pending_map recs !! addr = Some p -> exists rec, rec ∈ recs /\ ar_Addr rec.1 = addr /\ rec.2 = p.
Proof. unfold pending_map. intros E. apply elem_of_list_to_map_2, list_elem_of_fmap in E as (rec & [= -> ->] & Hin). eauto. Qed.

Section Reads.
Context {C : Type} `{!LogPort C} `{!LogPortLaws C}.

Lemma live_bounds l w o g e a f : live (C := C) l w o g e a f -> let id := ls_ActiveSegmentID (gh_snap g) in
  is_u32 id /\ placed id 64 (gh_written g) /\ placed id (64 + body_size (gh_written g)) (gh_buffer g) /\ 0 <= body_size (gh_written g) /\ 0 <= body_size (gh_buffer g) /\
  64 + body_size (gh_written g) + body_size (gh_buffer g) + 64 <= ls_SegmentSize (gh_snap g) < two32.
Proof.
  intros L id. destruct (live_header _ _ _ _ _ _ _ L) as [Hu Hv]. destruct (header_parts _ Hu Hv) as (P1 & _ & P3 & _). destruct (lv_recs _ _ _ _ _ _ _ L) as [Hp Hf]. apply placed_app in Hp as [Hp1 Hp2]. rewrite body_size_app in Hf. pose proof (body_size_nonneg _ _ _ Hp1). pose proof (body_size_nonneg _ _ _ Hp2). repeat (split; [assumption|]). cbn in *. lia.
Qed.

(** A record of the log that is not in the buffer is written. *)
Lemma live_unpending l w o g e a f rec : live (C := C) l w o g e a f -> holds g rec -> lg_pending l !! ar_Addr rec.1 = None -> written g rec.
Proof.
  intros L [Hw|Hb] E; [exact Hw|]. exfalso. rewrite (lv_pending _ _ _ _ _ _ _ L) in E. destruct (live_bounds _ _ _ _ _ _ _ L) as (B1 & _ & B3 & B4 & B5 & B6). rewrite (pending_found _ B1 _ _ _ B3 ltac:(lia) ltac:(lia) Hb) in E. discriminate.
Qed.

(** Where a written record is. *)
Lemma written_shown l w o g rec : lives (C := C) l w o g -> written g rec -> exists loc recs, shown (lg_registry l) o (SegmentID (ar_Addr rec.1)) loc recs /\ rec ∈ recs.
Proof.
  intros (e & a & f & L) [Hw|(i & recs & Hi & Hin)].
  - destruct (live_bounds _ _ _ _ _ _ _ L) as (B1 & B2 & _ & B4 & B5 & B6). destruct (placed_elem _ B1 _ _ _ B2 ltac:(lia) ltac:(lia) Hw) as (_ & -> & _). exists (w_active w), (gh_written g). split; [exact (live_shown _ _ _ _ _ _ _ L)|exact Hw].
  - destruct (lv_sealed _ _ _ _ _ _ _ L _ _ Hi) as [Hs _]. destruct (sealed_at_shown _ _ _ _ Hs) as [loc Hl]. pose proof Hl as [(h & Hu & Hv & Hh & Hr & _) _]. destruct (header_parts _ Hu Hv) as (P1 & _ & P3 & _). destruct Hr as [Hp Hf]. pose proof (body_size_nonneg _ _ _ Hp). destruct (placed_elem _ P1 _ _ _ Hp ltac:(lia) ltac:(lia) Hin) as (_ & -> & _). rewrite Hh. eauto.
Qed.

Lemma written_valid l w o g rec : lives (C := C) l w o g -> holds g rec -> VAddr_Valid (ar_Addr rec.1) = true /\ SegmentID (ar_Addr rec.1) <> 0.
Proof.
  intros HL [Hw|Hb].
  - destruct (written_shown _ _ _ _ _ HL Hw) as (loc & recs & [(h & Hu & Hv & Hh & [Hp Hf] & _) _] & Hin). destruct (header_parts _ Hu Hv) as (P1 & P2 & P3 & _). pose proof (body_size_nonneg _ _ _ Hp). destruct (placed_elem _ P1 _ _ _ Hp ltac:(lia) ltac:(lia) Hin) as (V & E & _). split; [exact V|congruence].
  - destruct HL as (e & a & f & L). destruct (live_bounds _ _ _ _ _ _ _ L) as (B1 & _ & B3 & B4 & B5 & B6). destruct (placed_elem _ B1 _ _ _ B3 ltac:(lia) ltac:(lia) Hb) as (V & -> & _). split; [exact V|]. destruct (pt_ids _ (live_parts _ _ _ _ _ _ _ L)) as [P _]. lia.
Qed.

(** The parts of [Read]: the buffer, and the segment of a pin. *)
Lemma read_pending_ok l w o g rec : lives (C := C) l w o g -> lg_closing l = false -> holds g rec -> read_pending l (ar_Addr rec.1) = Ok (Some rec.2) \/ read_pending l (ar_Addr rec.1) = Ok None /\ written g rec.
Proof.
  intros HL Hc Hh. destruct (written_valid _ _ _ _ _ HL Hh) as [V _]. destruct HL as (e & a & f & L). pose proof (live_bounds _ _ _ _ _ _ _ L) as (B1 & B2 & B3 & B4 & B5 & B6). destruct (lv_terminal _ _ _ _ _ _ _ L) as [Ht _]. unfold read_pending, log_usable. rewrite V, Ht, Hc. cbn.
  destruct (lg_pending l !! ar_Addr rec.1) as [p|] eqn:E; [|right; split; [reflexivity|exact (live_unpending _ _ _ _ _ _ _ _ L Hh E)]]. left. do 2 f_equal. rewrite (lv_pending _ _ _ _ _ _ _ L) in E. destruct Hh as [Hw|Hb].
  - exfalso. apply pending_only in E as (rec' & Hin & Ea & _). destruct (placed_elem _ B1 _ _ _ B3 ltac:(lia) ltac:(lia) Hin) as (_ & E1 & E2). rewrite Ea in E1, E2. destruct Hw as [Hw|(i & recs & Hi & Hir)].
    + destruct (placed_elem _ B1 _ _ _ B2 ltac:(lia) ltac:(lia) Hw) as (_ & _ & E3). lia.
    + destruct (lv_sealed _ _ _ _ _ _ _ L _ _ Hi) as [Hs Hne]. destruct (sealed_at_shown _ _ _ _ Hs) as [loc [(h & Hu & Hv & Hh & [Hp Hf] & _) _]]. destruct (header_parts _ Hu Hv) as (P1 & _ & P3 & _). pose proof (body_size_nonneg _ _ _ Hp). destruct (placed_elem _ P1 _ _ _ Hp ltac:(lia) ltac:(lia) Hir) as (_ & E3 & _). congruence.
  - rewrite (pending_found _ B1 _ _ _ B3 ltac:(lia) ltac:(lia) Hb) in E. now injection E.
Qed.

Lemma read_segment_ok l w o g rec : lives (C := C) l w o g -> (forall x e, rg_heap (lg_registry l) !! x = Some e -> re_pins e < MaxUint64) -> written g rec ->
  exists r, same_registry (lg_registry l) r /\ read_segment l (ar_Addr rec.1) o = (o, (set_registry l r, Ok rec.2)).
Proof.
  intros HL Hpins Hw. destruct (written_valid _ _ _ _ _ HL (or_introl Hw)) as [_ Hnz]. destruct (written_shown _ _ _ _ _ HL Hw) as (loc & recs & Hs & Hin). destruct HL as (e0 & a & f & L). destruct (lv_entry _ _ _ _ _ _ _ L) as [_ _ [_ Hcl] _]. set (i := SegmentID (ar_Addr rec.1)) in *. set (r := lg_registry l) in *.
  pose proof Hs as [(h & _ & _ & _ & _ & e & f' & rest & Ee & Hst & _) Hen]. pose proof (lv_heap _ _ _ _ _ _ _ L loc e Ee) as [_ Hp0]. specialize (Hpins loc e Ee).
  assert (Ep : pin r i = Ok (take_pin r loc e, mkPin i loc false)).
  { unfold pin. rewrite (entry_of _ _ _ _ Hen Ee), Hcl, bool_decide_eq_false_2 by exact Hst. now replace (i =? 0) with false by (symmetry; now apply Z.eqb_neq). }
  destruct (pin_same _ _ _ _ Ep) as (Hsame & _). unfold read_segment. fold i r. rewrite Ep. rewrite (shown_read _ _ _ _ _ rec (mkPin i loc false) (shown_same _ _ _ _ _ _ Hsame Hs) Hin) by reflexivity.
  assert (Er : exists r', pin_release (take_pin r loc e) (mkPin i loc false) = Ok (r', mkPin i loc true)).
  { unfold pin_release. cbn [pn_released pn_id pn_entry]. rewrite (entry_of _ i loc (set_pins e ((re_pins e + 1) mod two64))); [|exact Hen|cbn; apply lookup_insert_eq]. rewrite Nat.eqb_refl. cbn [re_pins set_pins]. rewrite Z.mod_small by lia. replace (re_pins e + 1 =? 0) with false by (symmetry; apply Z.eqb_neq; lia). cbn. eauto. }
  destruct Er as [r' Er]. rewrite Er. exists r'. split; [|reflexivity]. pose proof (release_same _ _ _ _ Er) as Hsame2. destruct Hsame as [(S1 & S2 & S3 & S4) S5], Hsame2 as [(T1 & T2 & T3 & T4) T5]. constructor; [repeat split; congruence|]. intros x. specialize (S5 x). specialize (T5 x).
  destruct S5 as [u v (Q1 & Q2 & Q3)|]; inversion T5 as [? z (W1 & W2 & W3)|]; constructor; repeat split; congruence.
Qed.
End Reads.

(** ** Staging *)

Lemma PhysicalRecordSize_mono n m p q : 0 <= n <= m -> PhysicalRecordSize n = Ok p -> PhysicalRecordSize m = Ok q -> p <= q.
Proof.
  intros Hn Ep Eq. destruct (PhysicalRecordSize_spec _ _ (proj1 Hn) Ep) as (P1 & P2 & _). destruct (PhysicalRecordSize_spec m q ltac:(lia) Eq) as (Q1 & Q2 & _). apply Z.mod_divide in P2 as [x ->]; [|lia]. apply Z.mod_divide in Q2 as [y ->]; [|lia]. lia.
Qed.

Lemma NewAppendResult_addr addr size r : NewAppendResult addr size = Ok r -> ar_Addr r = addr.
Proof. unfold NewAppendResult. intros E. inv_ok E. apply Ok_inj in E. now rewrite <- E. Qed.

Definition add_buffer (g : ghost) (rec : LogRecord) : ghost := mkGhost (gh_snap g) (gh_sealed g) (gh_written g) (gh_buffer g ++ [rec]).

(** A request as [Append] makes it. *)
Record proper (l : Log) (payload : list Z) (physical : Z) : Prop := mkProper {
  pp_bytes : bytes_ok payload;
  pp_size : PhysicalRecordSize (len payload) = Ok physical;
  pp_max : len payload <= lg_maxPayloadBytes l;
}.

Section Staging.
Context {C : Type} `{!LogPort C} `{!LogPortLaws C}.

Lemma live_active l w o g e a f : live (C := C) l w o g e a f -> active_of l w = a /\ rg_heap (lg_registry l) !! w_active w = Some e.
Proof. intros L. destruct (lv_entry _ _ _ _ _ _ _ L) as [E [Ha _] _ _]. apply entry_parts in E as [_ E]. unfold active_of. rewrite E, Ha. auto. Qed.

Lemma live_object l w o g e a f : live (C := C) l w o g e a f -> as_header a = old_header (gh_snap g) /\ as_end a = 64 + body_size (gh_written g) /\ as_records a = len (gh_written g) /\ as_file a = Some f /\ as_sealed a = false.
Proof. intros L. destruct (lv_object _ _ _ _ _ _ _ L) as [(O1 & O2 & O3 & O4) _]. unfold summaryLocked, log_old_summary, log_summary in O4. injection O4 as O4 O5 O6 _ _. auto. Qed.

Lemma live_remaining l w o g e a f : live (C := C) l w o g e a f -> remainingLocked a = ls_SegmentSize (gh_snap g) - 64 - (64 + body_size (gh_written g)).
Proof.
  intros L. destruct (live_object _ _ _ _ _ _ _ L) as (H1 & H2 & _). destruct (live_bounds _ _ _ _ _ _ _ L) as (_ & _ & _ & B4 & B5 & B6). unfold remainingLocked, SegmentFooterSize. rewrite H1, H2. cbn [old_header log_headerFor sh_SegmentSize]. rewrite Z.mod_small by lia. destruct (_ <=? _) eqn:E; bool_norm; lia.
Qed.

(** The record that [place_record] makes is the next one of the segment. *)
Lemma place_record_ok l w o g e a f r addr result encoded : live (C := C) l w o g e a f -> proper l (rq_payload r) (rq_physical r) -> rq_physical r <= remainingLocked a - w_bytes w -> place_record l w r = Ok (addr, result, encoded) ->
  let rec := (result, rq_payload r) in ar_Addr result = addr /\ rec_size rec = rq_physical r /\ rec_bytes rec = encoded /\ log_recs (old_header (gh_snap g)) (gh_written g ++ (gh_buffer g ++ [rec])) /\ slice 32 (32 + length (rq_payload r)) encoded = rq_payload r.
Proof.
  intros L [Pb Ps Pm] Hfit E rec. destruct (live_active _ _ _ _ _ _ _ L) as [Ea _]. destruct (live_object _ _ _ _ _ _ _ L) as (H1 & H2 & _). destruct (live_bounds _ _ _ _ _ _ _ L) as (B1 & B2 & B3 & B4 & B5 & B6). rewrite (live_remaining _ _ _ _ _ _ _ L) in Hfit. destruct (lv_buffer _ _ _ _ _ _ _ L) as (_ & _ & Hb & _). rewrite Hb in Hfit.
  pose proof (PhysicalRecordSize_nonneg _ _ (len_nonneg _) Ps) as Hpos. unfold place_record in E. rewrite Ea, H1, H2, Hb in E. cbn [old_header log_headerFor sh_SegmentID] in E. rewrite Z.mod_small in E by lia. inv_ok E. apply Ok_inj in E. injection E as -> -> ->.
  match goal with H : NewAppendResult _ _ = Ok result |- _ => rename H into Er end. match goal with H : EncodeRecordTo _ _ _ = Ok encoded |- _ => rename H into Ee end. match goal with H : NewVAddr _ _ _ = Ok addr |- _ => rename H into Ev end.
  assert (Ead : ar_Addr result = addr) by exact (NewAppendResult_addr _ _ _ Er). assert (Esz : rec_size rec = rq_physical r) by (unfold rec_size, rec; cbn [snd]; now rewrite Ps).
  assert (Een : EncodeRecord addr (rq_payload r) = Ok encoded) by (unfold EncodeRecord; rewrite Ps; exact Ee).
  split; [exact Ead|]. split; [exact Esz|]. split; [unfold rec_bytes, rec; cbn [fst snd]; now rewrite Ead, Een|]. split.
  - rewrite app_assoc. destruct (lv_recs _ _ _ _ _ _ _ L) as [Hp Hf]. constructor.
    + apply placed_app. split; [exact Hp|]. cbn [placed]. split; [|exact I]. rewrite body_size_app. cbn [old_header log_headerFor sh_SegmentID]. constructor; [exact Pb|rewrite Esz; exact Ps|rewrite Esz, Z.add_assoc; cbn [rec fst]; rewrite Ead; exact Ev|rewrite Esz; cbn [rec fst]; rewrite Ead; exact Er].
    + rewrite !body_size_app in *. rewrite body_size_cons, Esz. change (body_size []) with 0. cbn in *. lia.
  - destruct (EncodeRecord_layout _ _ _ Een) as (total & Et & _ & _ & _ & ->). rewrite (slice_skip _ 32); [|unfold HasLen, record_header_body; rewrite !length_app, !length_put_le; reflexivity|apply Nat.leb_le; lia].
    replace (32 - 32)%nat with 0%nat by lia. replace (32 + length (rq_payload r) - 32)%nat with (length (rq_payload r)) by lia. apply (slice_here _ (length (rq_payload r))); [reflexivity|apply Nat.eqb_refl].
Qed.

Lemma pending_snoc id off recs rec : is_u32 id -> placed id off (recs ++ [rec]) -> 0 <= off -> off + body_size (recs ++ [rec]) < two32 -> pending_map (recs ++ [rec]) = <[ar_Addr rec.1 := rec.2]> (pending_map recs).
Proof.
  intros Hid Hp Ho Hb. apply map_eq. intros addr. destruct (decide (addr = ar_Addr rec.1)) as [->|Hne].
  - rewrite lookup_insert_eq. apply (pending_found id Hid _ off); [exact Hp|exact Ho|exact Hb|]. apply elem_of_app. right. now left.
  - rewrite lookup_insert_ne by congruence. unfold pending_map. rewrite map_app, list_to_map_app. cbn. rewrite lookup_union. rewrite lookup_insert_ne by congruence. rewrite lookup_empty. now destruct (_ !! addr).
Qed.

(** What the rest of the log may change without touching the records. *)
Lemma live_log l l' w w' o g e a f : live (C := C) l w o g e a f -> lg_registry l' = lg_registry l -> lg_pending l' = lg_pending l -> wm_Written (st_Watermarks (lg_status l')) = wm_Written (st_Watermarks (lg_status l)) -> wm_Durable (st_Watermarks (lg_status l')) = wm_Durable (st_Watermarks (lg_status l)) -> lg_maxPayloadBytes l' = lg_maxPayloadBytes l -> lg_terminal l' = lg_terminal l ->
  w_active w' = w_active w -> w_pending w' = w_pending w -> w_encoded w' = w_encoded w -> w_bytes w' = w_bytes w -> w_fault w' = w_fault w -> live l' w' o g e a f.
Proof. intros [] H1 H2 H3 H3' H4 H5 K1 K2 K3 K4 K5. constructor; unfold buffer_of in *; rewrite ?H1, ?H2, ?H3, ?H3', ?H4, ?H5, ?K1, ?K2, ?K3, ?K4, ?K5; assumption. Qed.

Lemma live_staged l w o g e a f q r addr result encoded sync : live (C := C) l w o g e a f -> proper l (rq_payload r) (rq_physical r) -> rq_physical r <= remainingLocked a - w_bytes w -> place_record l w r = Ok (addr, result, encoded) ->
  let payload := slice 32 (32 + length (rq_payload r)) encoded in
  let w' := add_pending w (mkPending q result (rq_physical r) payload) encoded sync in
  forall l1, lg_registry l1 = lg_registry l -> lg_pending l1 = lg_pending l -> lg_status l1 = lg_status l -> lg_maxPayloadBytes l1 = lg_maxPayloadBytes l -> lg_terminal l1 = lg_terminal l ->
  live (share_pending l1 w' addr result payload) w' o (add_buffer g (result, rq_payload r)) e a f.
Proof.
  intros L Hp Hfit E payload w' l1 H1 H2 H3 H4 H5. destruct (place_record_ok _ _ _ _ _ _ _ _ _ _ _ L Hp Hfit E) as (Ead & Esz & Eby & Hrecs & Epl). fold payload in Epl. destruct (live_bounds _ _ _ _ _ _ _ L) as (B1 & B2 & B3 & B4 & B5 & B6). rewrite (live_remaining _ _ _ _ _ _ _ L) in Hfit. pose proof (PhysicalRecordSize_nonneg _ _ (len_nonneg _) (pp_size _ _ _ Hp)) as Hpos.
  destruct L as [L1 L2 L3 L4 L5 L6 L7 L8 L9 (L10 & L11 & L12 & L13) L14 L15 L15' L16 [L17 L18]]. rewrite L12 in Hfit.
  constructor; cbn [add_buffer gh_snap gh_sealed gh_written gh_buffer]; try assumption.
  - cbn. rewrite H1. exact L4.
  - cbn. rewrite H1. exact L6.
  - cbn. rewrite H1. exact L8.
  - cbn. rewrite H1. exact L9.
  - unfold buffer_of. cbn [w' add_pending w_pending w_encoded w_bytes]. rewrite map_app, L11, L12, log_body_app, body_size_app. fold (buffer_of w). rewrite L10. cbn [map pr_result pr_payload pr_size]. rewrite Epl. split; [reflexivity|]. split; [unfold log_body at 3; cbn [map concat]; now rewrite Eby, app_nil_r|].
    split; [rewrite body_size_cons, Esz; change (body_size []) with 0; rewrite Z.mod_small; lia|]. apply Forall_app. split; [exact L13|]. constructor; [|constructor]. symmetry. exact Esz.
  - change (<[addr := payload]> (lg_pending l1) = pending_map (gh_buffer g ++ [(result, rq_payload r)])). rewrite H2, L14, Epl, <- Ead. symmetry. destruct Hrecs as [Hpl Hf]. apply placed_app in Hpl as [_ Hpl]. apply (pending_snoc (ls_ActiveSegmentID (gh_snap g)) (64 + body_size (gh_written g))); [exact B1|exact Hpl|lia|]. rewrite body_size_app in Hf. cbn in Hf. lia.
  - cbn. rewrite H3. exact L15.
  - cbn. rewrite H3. exact L15'.
  - cbn. rewrite H4. exact L16.
  - cbn. rewrite H5. auto.
Qed.
End Staging.

(** * The turns of the writer and the records

    Rotation, flush, and what the turns of the writer do to the records of the
    log: as long as the log is not poisoned nothing is lost. *)

(** The records after a step are those before it, and more. *)
Record extends (g g' : ghost) : Prop := mkExtends { ex_written : forall rec, written g rec -> written g' rec; ex_holds : forall rec, holds g rec -> holds g' rec }.
#[export] Instance extends_preorder : PreOrder extends.
Proof. split; [intros g; constructor; auto|]. intros a b c [A1 A2] [B1 B2]. constructor; auto. Qed.

Definition rotated_ghost (g : ghost) : ghost := mkGhost (log_s1 (gh_snap g) (gh_written g)) (<[ls_ActiveSegmentID (gh_snap g) := gh_written g]> (gh_sealed g)) [] [].
Definition flushed_ghost (g : ghost) : ghost := mkGhost (gh_snap g) (gh_sealed g) (gh_written g ++ gh_buffer g) [].

Section Rotation.
Context {C : Type} `{!LogPort C} `{!LogPortLaws C}.

Lemma disk_none (o : os lpath C) p : os_names o !! p = None <-> disk o !! p = None.
Proof. unfold disk. rewrite lookup_fmap. destruct (os_names o !! p); cbn; split; congruence. Qed.

Lemma live_at_disk l w o g e a f : live (C := C) l w o g e a f -> ls_NextSegmentID (gh_snap g) < CompactionSegmentBase ->
  at_disk (ldsk (gh_snap g) (disk o) None None (Some (log_image (old_header (gh_snap g)) (gh_written g))) None None None) (lcatalog_at False (gh_snap g) (gh_written g) (gh_snap g)) o.
Proof.
  intros L Hn. destruct (lv_files _ _ _ _ _ _ _ L) as (Hwf & Ho & Hb). destruct (pt_ids _ (live_parts _ _ _ _ _ _ _ L)) as [P1 P2]. destruct (lv_clean _ _ _ _ _ _ _ L) as [[J1 J2] Ca Cs]. destruct (Ca (ls_NextSegmentID (gh_snap g)) ltac:(lia)) as (Ca1 & Ca2 & _). specialize (Cs (ls_ActiveSegmentID (gh_snap g)) ltac:(lia)).
  constructor; [exact Hwf| |exact (lv_catalog _ _ _ _ _ _ _ L)]. apply map_eq. intros p. unfold ldsk, lput. rewrite !lookup_partial_alter.
  repeat case_decide; subst; try reflexivity; try (apply disk_none; assumption). unfold disk. rewrite lookup_fmap, Ho. cbn. now rewrite Hb.
Qed.

Lemma live_rotatable l w o g e a f o' r' x : live (C := C) l w o g e a f -> gh_buffer g = [] -> rotate (lg_registry l) (w_active w) a o = (o', (r', Ok x)) -> log_rotatable (gh_snap g) (gh_written g).
Proof.
  intros L Hb E. destruct (live_header _ _ _ _ _ _ _ L) as [Hu Hv]. pose proof (log_recs_app _ _ _ (lv_recs _ _ _ _ _ _ _ L)) as Hr. destruct (lv_object _ _ _ _ _ _ _ L) as [(_ & _ & _ & O4) _]. destruct (lv_catalog _ _ _ _ _ _ _ L) as (Hok & Hsn & _).
  unfold rotate in E. destruct (rotate_segments a o) as [o1 [[[y1 y2] y3]|]] eqn:E1; [|discriminate]. destruct (rotate_needs _ _ _ _ _ _ E1 Hok Hu Hv Hr O4) as [N1 N2]. rewrite Hsn in N1, N2. constructor; [exact (live_range _ _ _ _ _ _ _ L)|exact (lv_valid _ _ _ _ _ _ _ L)|exact Hr|exact N1|exact N2].
Qed.

Lemma rotate_keeps_name l w o g e a f o' r' x q : live (C := C) l w o g e a f -> rotate (lg_registry l) (w_active w) a o = (o', (r', Ok x)) -> ~ rotation_name (ls_ActiveSegmentID (gh_snap g)) (ls_NextSegmentID (gh_snap g)) q -> os_names o' !! q = os_names o !! q.
Proof.
  intros L E Hq. destruct (lv_object _ _ _ _ _ _ _ L) as [(_ & O2 & _) _]. destruct (lv_catalog _ _ _ _ _ _ _ L) as (_ & Hsn & _).
  unfold rotate in E. destruct (rotate_segments a o) as [o1 [[[y1 y2] y3]|]] eqn:E1; [|discriminate]. destruct (rotate_segments_ok _ _ _ _ E1) as (_ & _ & _ & _ & _ & _ & K). rewrite Hsn, O2 in K. specialize (K q Hq).
  destruct (publishRotation _ _ _ _) as [r2|]; [|unfold fail_closing in E; destruct (active_close _ _) as [? [? ?]]; discriminate]. pose proof (log_removeJournal_keeps q ltac:(unfold rotation_name in Hq; tauto) ltac:(unfold rotation_name in Hq; tauto) o1) as K2. destruct (removeRotationJournal o1) as [o2 [u|]]; [|discriminate]. injection E as <- _ _. cbn in K2. congruence.
Qed.

(** The disk after a rotation, at a name. *)
Definition after_rotation (s0 : LogSnapshot) (recs : list LogRecord) (d : gmap lpath (list Z)) : gmap lpath (list Z) :=
  ldsk s0 d None None None (Some (log_sealed_image (old_header s0) recs)) None (Some (log_header_bytes (new_header s0))).

Lemma after_rotation_other s0 recs d q : ~ rotation_name (ls_ActiveSegmentID s0) (ls_NextSegmentID s0) q -> after_rotation s0 recs d !! q = d !! q.
Proof. intros Hq. unfold rotation_name in Hq. unfold after_rotation, ldsk, lput. rewrite !lookup_partial_alter. repeat case_decide; subst; try tauto. Qed.

Lemma live_rotated l w o g e a f o' r' x : live (C := C) l w o g e a f -> gh_buffer g = [] -> rotate (lg_registry l) (w_active w) a o = (o', (r', Ok x)) ->
  exists loc e' f', as_file x = Some f' /\ rg_entries r' !! sh_SegmentID (as_header x) = Some loc /\ sh_PreviousSegment (as_header x) = ls_ActiveSegmentID (gh_snap g) /\ sh_SegmentID (as_header x) = ls_NextSegmentID (gh_snap g) /\ as_end x = 64 /\
    (forall l1 w1, lg_registry l1 = r' -> lg_pending l1 = lg_pending l -> wm_Written (st_Watermarks (lg_status l1)) = mkPos (ls_NextSegmentID (gh_snap g)) 64 -> wm_Durable (st_Watermarks (lg_status l1)) = mkPos (ls_NextSegmentID (gh_snap g)) 64 -> lg_maxPayloadBytes l1 = lg_maxPayloadBytes l -> lg_terminal l1 = lg_terminal l -> w1 = set_writer_active w loc ->
      live l1 w1 o' (rotated_ghost g) e' x f').
Proof.
  intros L Hb E. pose proof (live_rotatable _ _ _ _ _ _ _ _ _ _ L Hb E) as R. set (s0 := gh_snap g) in *. set (recs := gh_written g) in *. pose proof (lro_next _ _ R) as Hn. destruct (pt_ids _ (log_parts_of s0 recs R)) as [P1 P2]. destruct (lv_object _ _ _ _ _ _ _ L) as [Hrot Htr]. destruct (lv_files _ _ _ _ _ _ _ L) as (Hwf & Hown & _). pose proof (lv_entry _ _ _ _ _ _ _ L) as Hreg. fold s0 recs in Hrot, Hown, Hreg.
  pose proof (log_rotate_phase False s0 recs R (disk o) _ _ _ _ _ _ Hreg Hrot Htr (live_at_disk _ _ _ _ _ _ _ L Hn) Hown) as H. rewrite E in H. destruct H as [(f' & Hdone & Hown' & Hsea & -> & ->) _].
  pose proof Hdone as [Hwf' Hd' (Hok' & Hsn' & Hre' & _)]. change (disk o' = after_rotation s0 recs (disk o)) in Hd'. pose proof Hreg as [Hent [_ _] [Hact Hcl] _]. apply entry_parts in Hent as [En Eh]. pose proof (lv_heap _ _ _ _ _ _ _ L) as Hheap. pose proof (Hheap _ _ Eh) as [Hlt Hpins].
  assert (Hprev : sh_PreviousSegment (new_header s0) = ls_ActiveSegmentID s0) by (cbn; rewrite P2; replace (1 <? _ + 1) with true by (symmetry; apply Z.ltb_lt; lia); lia).
  exists (rg_fresh (lg_registry l)), (mkEntry segmentActive (Some (fresh_active s0 f')) None 0), f'. split; [reflexivity|]. split; [cbn; apply lookup_insert_eq|]. split; [exact Hprev|]. split; [reflexivity|]. split; [reflexivity|].
  intros l1 w1 Hr Hpe Hma Hdu Hmx Hte ->. assert (Hnew : rg_heap (rotated_registry s0 recs (lg_registry l) (w_active w) e f f') !! rg_fresh (lg_registry l) = Some (mkEntry segmentActive (Some (fresh_active s0 f')) None 0)) by (cbn; apply lookup_insert_eq).
  assert (Hid : forall i, rg_entries (rotated_registry s0 recs (lg_registry l) (w_active w) e f f') !! i = if decide (i = ls_NextSegmentID s0) then Some (rg_fresh (lg_registry l)) else rg_entries (lg_registry l) !! i).
  { intros i. cbn. case_decide; [subst; apply lookup_insert_eq|now rewrite lookup_insert_ne by congruence]. }
  destruct (new_header_ok s0 recs R) as [Hu2 Hv2]. destruct (old_header_ok s0 recs R) as [Hu1 Hv1].
  constructor; cbn [rotated_ghost gh_snap gh_sealed gh_written gh_buffer]; fold s0 recs.
  - split; [exact Hok'|]. split; [exact Hsn'|]. split; [exact Hre'|]. intros [].
  - exact (log_s1_valid s0 recs R).
  - constructor; [exact I|]. destruct (header_parts _ Hu2 Hv2) as (_ & _ & H3 & _). change (body_size ([] ++ [])) with 0. cbn in *. lia.
  - rewrite Hr. constructor.
    + apply entry_of; [cbn; apply lookup_insert_eq|exact Hnew].
    + auto.
    + split; [reflexivity|exact Hcl].
    + change (ls_NextSegmentID (log_s1 s0 recs)) with ((ls_NextSegmentID s0 + 1) mod two32). rewrite (log_next_small s0 recs R), Hid, decide_False by lia. intros Hs. apply (cl_active _ _ _ (lv_clean _ _ _ _ _ _ _ L)). fold s0. lia.
  - split; [|reflexivity]. repeat split.
  - rewrite Hr. intros y ey Ey. cbn in Ey |- *. apply lookup_insert_Some in Ey as [[<- <-]|[_ Ey]]; [cbn; lia|]. apply lookup_insert_Some in Ey as [[<- <-]|[_ Ey]]; [cbn; lia|]. pose proof (Hheap _ _ Ey). lia.
  - split; [exact Hwf'|]. split; [exact Hown'|]. unfold log_image. cbn [log_body map concat]. rewrite app_nil_r. pose proof (disk_owns _ _ _ _ _ Hdone Hown') as Hby. unfold ldsk, lput in Hby. rewrite !lookup_partial_alter in Hby. repeat (case_decide; [congruence|]). rewrite decide_True in Hby by reflexivity. injection Hby as Hby. rewrite <- Hby. reflexivity.
  - destruct (lv_clean _ _ _ _ _ _ _ L) as [[J1 J2] Ca Cs]. fold s0 in Ca, Cs. assert (Hkeep : forall q, ~ rotation_name (ls_ActiveSegmentID s0) (ls_NextSegmentID s0) q -> os_names o !! q = None -> os_names o' !! q = None).
    { intros q Hq Hq'. rewrite disk_none, Hd', after_rotation_other by exact Hq. now apply disk_none. }
    change (ls_ActiveSegmentID (log_s1 s0 recs)) with (ls_NextSegmentID s0). rewrite Hr. constructor.
    + split; rewrite disk_none, Hd'; unfold after_rotation, ldsk, lput; rewrite !lookup_partial_alter; repeat case_decide; congruence.
    + intros i Hi. destruct (Ca i ltac:(lia)) as (C1 & C2 & C3). rewrite Hid, decide_False by lia. split; [|split; [|exact C3]]; apply Hkeep; try assumption; unfold rotation_name; intros Hx; destruct_or? Hx; try discriminate; injection Hx as Hx; lia.
    + intros i Hi. apply Hkeep; [|apply Cs; lia]. unfold rotation_name. intros Hx; destruct_or? Hx; try discriminate; injection Hx as Hx; lia.
  - intros i rs Hi. change (ls_ActiveSegmentID (log_s1 s0 recs)) with (ls_NextSegmentID s0). rewrite Hr. apply lookup_insert_Some in Hi as [[<- <-]|[Hne Hi]].
    + split; [|lia]. exists (w_active w), (mkEntry segmentSealed None (Some (mkSealed (Some f) (old_header s0) (log_old_summary s0 recs))) (re_pins e)), (mkSealed (Some f) (old_header s0) (log_old_summary s0 recs)), f, (old_header s0), (log_footer_bytes (old_header s0) recs).
      split; [rewrite Hid, decide_False by lia; exact En|]. split; [cbn; rewrite lookup_insert_ne by lia; apply lookup_insert_eq|]. repeat (split; [first [reflexivity|assumption]|]). split; [exact (lro_recs _ _ R)|]. split; [exact Hsea|].
      pose proof (disk_owns _ _ _ _ _ Hdone Hsea) as Hby. unfold ldsk, lput in Hby. rewrite !lookup_partial_alter in Hby. repeat (rewrite decide_False in Hby by discriminate). rewrite decide_True in Hby by reflexivity. injection Hby as Hby. rewrite <- Hby. reflexivity.
    + destruct (lv_sealed _ _ _ _ _ _ _ L i rs Hi) as [(l0 & e0 & s1 & f0 & h & rest & S1 & S2 & S3 & S4 & S5 & S6 & S7 & S8 & S9 & S10 & S11 & S12 & S13) Hni]. fold s0 in Hni.
      assert (Hq : ~ rotation_name (ls_ActiveSegmentID s0) (ls_NextSegmentID s0) (LSealed i)) by (unfold rotation_name; intros Hx; destruct_or? Hx; try discriminate; injection Hx as Hx; lia).
      assert (Hnn : i <> ls_NextSegmentID s0). { intros ->. destruct (cl_active _ _ _ (lv_clean _ _ _ _ _ _ _ L) (ls_NextSegmentID s0)) as (_ & _ & X); [fold s0; lia|]. congruence. }
      split; [|exact Hnn]. exists l0, e0, s1, f0, h, rest. split; [rewrite Hid, decide_False by exact Hnn; exact S1|]. split.
      { cbn. pose proof (Hheap _ _ S2) as [X _]. rewrite lookup_insert_ne by lia. rewrite lookup_insert_ne; [exact S2|]. intros X0. subst l0. rewrite Eh in S2. injection S2 as <-. pose proof (rd_object _ _ _ _ _ Hreg) as [_ Y]. congruence. }
      repeat (split; [assumption|]). assert (Ho' : owns o' (LSealed i) f0) by (unfold owns; rewrite (rotate_keeps_name _ _ _ _ _ _ _ _ _ _ _ L E Hq); exact S12). split; [exact Ho'|].
      pose proof (disk_owns _ _ _ _ _ Hdone Ho') as Hby. change (after_rotation s0 recs (disk o) !! LSealed i = Some (bytes_of o' f0)) in Hby. rewrite after_rotation_other in Hby by exact Hq. unfold disk in Hby. rewrite lookup_fmap, S12 in Hby. injection Hby as Hby. congruence.
  - destruct (lv_buffer _ _ _ _ _ _ _ L) as (B1 & B2 & B3 & B4). rewrite Hb in *. auto.
  - rewrite Hpe, (lv_pending _ _ _ _ _ _ _ L), Hb. reflexivity.
  - rewrite Hma. reflexivity.
  - rewrite Hma, Hdu. right. cbn. lia.
  - rewrite Hmx. exact (lv_max _ _ _ _ _ _ _ L).
  - rewrite Hte. exact (lv_terminal _ _ _ _ _ _ _ L).
Qed.
End Rotation.

(** ** Flushing *)

Definition extent_of (r : LogRecord) : recordExtent := mkExtent r.1 (rec_size r).

Lemma count_end s : forall bs, as_end (foldl count_record s bs) = as_end s.
Proof. intros bs. revert s. induction bs as [|b bs IH]; intros s; [reflexivity|]. cbn [foldl]. now rewrite IH. Qed.

Lemma count_records id : forall buf recs s, summaryLocked s = log_summary id recs -> len (recs ++ buf) < two64 ->
  let s' := foldl count_record s (map extent_of buf) in
  as_file s' = as_file s /\ as_header s' = as_header s /\ as_end s' = as_end s /\ as_sealed s' = as_sealed s /\ as_transferred s' = as_transferred s /\
  forall en, en = 64 + body_size (recs ++ buf) -> summaryLocked (set_end s' en) = log_summary id (recs ++ buf).
Proof.
  induction buf as [|b buf IH]; intros recs s Hs Hlen.
  - rewrite app_nil_r. repeat (split; [reflexivity|]). intros en ->. unfold summaryLocked, set_end, log_summary in *. cbn. injection Hs as -> _ -> -> ->. reflexivity.
  - cbn [map foldl]. replace (recs ++ b :: buf) with ((recs ++ [b]) ++ buf) in * by (rewrite <- app_assoc; reflexivity).
    set (s1 := set_end (count_record s (extent_of b)) (64 + body_size (recs ++ [b]))). assert (Hs1 : summaryLocked s1 = log_summary id (recs ++ [b])).
    { unfold summaryLocked, log_summary in Hs. injection Hs as H1 _ H3 H4 H5. unfold s1, summaryLocked, set_end, count_record, log_summary, extent_of. cbn. rewrite H1, H3, H4, last_snoc. pose proof (len_nonneg buf). pose proof (len_nonneg recs). rewrite !len_app in *. change (len [b]) with 1 in *. rewrite Z.mod_small by lia.
      destruct recs as [|x recs]; [reflexivity|]. rewrite len_cons in *. pose proof (len_nonneg recs). replace (1 + len recs =? 0) with false by (symmetry; apply Z.eqb_neq; lia). reflexivity. }
    specialize (IH (recs ++ [b]) s1 Hs1 Hlen). assert (Hf : forall bs x en, foldl count_record (set_end x en) bs = set_end (foldl count_record x bs) en) by (induction bs as [|y bs IHb]; intros x en; [reflexivity|]; cbn [foldl]; rewrite <- IHb; reflexivity).
    unfold s1 in IH. rewrite Hf in IH. cbv zeta in *. destruct IH as (I1 & I2 & _ & I4 & I5 & I6). cbn in I1, I2, I4, I5. repeat (split; [assumption|]). split; [|repeat (split; [assumption|]); intros en He; rewrite <- (I6 en He); reflexivity].
    exact (count_end _ (extent_of b :: map extent_of buf)).
Qed.

Section Flush.
Context {C : Type} `{!LogPort C} `{!LogPortLaws C}.

Lemma bytes_of_insert (o : os lpath C) f g data (names : gmap lpath nat) next faults (user : C) : bytes_of (mkOs names (<[f := data]> (os_data o)) next faults user) g = if decide (g = f) then data else bytes_of o g.
Proof. unfold bytes_of. cbn. case_decide; [subst; now rewrite lookup_insert_eq|now rewrite lookup_insert_ne by congruence]. Qed.

Lemma live_extents l w o g e a f : live (C := C) l w o g e a f -> map (fun p => mkExtent (pr_result p) (pr_size p)) (w_pending w) = map extent_of (gh_buffer g).
Proof.
  intros L. destruct (lv_buffer _ _ _ _ _ _ _ L) as (Hb & _ & _ & Hs). rewrite <- Hb. unfold buffer_of. rewrite map_map. apply map_ext_in. intros p Hp. apply list_elem_of_In in Hp. rewrite Forall_forall in Hs. unfold extent_of. cbn. now rewrite (Hs p Hp).
Qed.

(** The files and the segment object after an append. *)
Record appended (g : ghost) (o o1 : os lpath C) (a s : activeSegment) (f : nat) : Prop := mkAppended {
  ap_names : os_names o1 = os_names o /\ os_next o1 = os_next o /\ os_user o1 = os_user o;
  ap_bytes : bytes_of o1 f = log_image (old_header (gh_snap g)) (gh_written g ++ gh_buffer g);
  ap_others : forall f', f' <> f -> bytes_of o1 f' = bytes_of o f';
  ap_object : rotating (gh_snap g) (gh_written g ++ gh_buffer g) s f /\ as_transferred s = as_transferred a;
}.

Lemma append_ok l w o g e a f o1 s : live (C := C) l w o g e a f -> w_pending w <> [] -> appendEncoded a (w_encoded w) (map (fun p => mkExtent (pr_result p) (pr_size p)) (w_pending w)) o = (o1, Ok s) -> appended g o o1 a s f.
Proof.
  intros L Hne E. rewrite (live_extents _ _ _ _ _ _ _ L) in E. destruct (live_object _ _ _ _ _ _ _ L) as (A1 & A2 & A3 & A4 & A5). destruct (lv_object _ _ _ _ _ _ _ L) as [(_ & _ & _ & O4) _]. destruct (lv_files _ _ _ _ _ _ _ L) as (_ & _ & Hb). destruct (live_bounds _ _ _ _ _ _ _ L) as (B1 & B2 & B3 & B4 & B5 & B6). destruct (lv_buffer _ _ _ _ _ _ _ L) as (Hbuf & Henc & Hby & _). pose proof (log_recs_app _ _ _ (lv_recs _ _ _ _ _ _ _ L)) as Hr. destruct (live_header _ _ _ _ _ _ _ L) as [Hu Hv]. rewrite Henc in E.
  assert (Hne' : gh_buffer g <> []) by (rewrite <- Hbuf; unfold buffer_of; destruct (w_pending w); [congruence|discriminate]).
  unfold appendEncoded in E. rewrite A4, A5 in E. pose proof (log_body_len _ B1 _ _ B3 ltac:(lia) ltac:(lia)) as Hlen.
  assert (Hz : len (map extent_of (gh_buffer g)) =? 0 = false) by (apply Z.eqb_neq; rewrite len_map; destruct (gh_buffer g); [congruence|]; rewrite len_cons; pose proof (len_nonneg l0); lia).
  assert (Hz2 : len (log_body (gh_buffer g)) =? 0 = false) by (apply Z.eqb_neq; pose proof (placed_count _ _ _ B3); destruct (gh_buffer g) as [|b bs]; [congruence|]; rewrite len_cons in *; pose proof (len_nonneg bs); lia).
  rewrite Hz, Hz2 in E. cbn [orb] in E. unfold io_bind at 1, io_lift at 1 in E. destruct (append_plan a 0 _) as [total|]; [|discriminate]. destruct (_ =? total) eqn:Et in E; [|discriminate]. apply Z.eqb_eq in Et. rewrite Hlen, Z.mod_small in Et by lia. subst total. cbn [negb] in E.
  unfold io_bind, hitSegmentFault, fs_point, log_writeFullAt, fs_write in E. destruct (next_fault_spec o) as (ft & Ef & _). rewrite Ef in E. destruct ft; [discriminate|]. destruct (next_fault_spec (refault o (tail (os_faults o)))) as (ft2 & Ef2 & _). rewrite Ef2 in E. destruct ft2; [discriminate|]. cbn [io_ret] in E. injection E as <- <-.
  assert (Hdata : splice (bytes_of o f) (as_end a) (log_body (gh_buffer g)) = log_image (old_header (gh_snap g)) (gh_written g ++ gh_buffer g)).
  { rewrite Hb, A2, <- (log_image_len _ Hu Hv _ Hr), splice_end. unfold log_image. now rewrite log_body_app, app_assoc. }
  assert (Hcnt : len (gh_written g ++ gh_buffer g) < two64) by (pose proof (placed_count _ _ _ B2); pose proof (placed_count _ _ _ B3); rewrite len_app; lia).
  destruct (count_records _ (gh_buffer g) (gh_written g) a O4 Hcnt) as (K1 & K2 & K3 & K4 & K5 & K6). constructor.
  - auto.
  - unfold set_fs, refault. cbn [os_data os_names os_next os_faults os_user]. rewrite bytes_of_insert, decide_True by reflexivity. exact Hdata.
  - intros f' Hf'. unfold set_fs, refault. cbn [os_data os_names os_next os_faults os_user]. rewrite bytes_of_insert, decide_False by exact Hf'. reflexivity.
  - split; [|exact K5]. cbn [set_end as_file as_header as_sealed]. split; [cbn; congruence|]. split; [cbn; congruence|]. split; [cbn; congruence|]. apply K6. rewrite body_size_app, A2, Z.mod_small by lia. lia.
Qed.

Lemma sealed_at_frame (r r' : segmentRegistry) (o o1 : os lpath C) i recs l0 f : sealed_at r o i recs -> fs_wf o -> os_names o1 = os_names o -> (forall f', f' <> f -> bytes_of o1 f' = bytes_of o f') -> owns o (LActive l0) f ->
  rg_entries r' = rg_entries r -> (forall x e, rg_heap r !! x = Some e -> re_state e = segmentSealed -> rg_heap r' !! x = Some e) -> sealed_at r' o1 i recs.
Proof.
  intros (l & e & s & f0 & h & rest & S1 & S2 & S3 & S4 & S5 & S6 & S7 & S8 & S9 & S10 & S11 & S12 & S13) Hwf Hn Hb Hf He Hh. exists l, e, s, f0, h, rest. unfold owns in *. rewrite He, Hn. repeat (split; [auto|]). rewrite Hb; [exact S13|]. intros ->. pose proof (fw_inj _ Hwf _ _ _ S12 Hf). discriminate.
Qed.

Lemma clean_frame (r r' : segmentRegistry) (o o1 : os lpath C) id : clean r o id -> os_names o1 = os_names o -> rg_entries r' = rg_entries r -> clean r' o1 id.
Proof. intros [H1 H2 H3] Hn He. constructor; rewrite ?Hn, ?He; assumption. Qed.

Lemma live_flushed l w o g e a f o1 s l' w' : live (C := C) l w o g e a f -> appended g o o1 a s f ->
  lg_registry l' = set_object (lg_registry l) (w_active w) s -> lg_pending l' = ∅ -> wm_Written (st_Watermarks (lg_status l')) = end_of (gh_snap g) (gh_written g ++ gh_buffer g) -> pos_le (wm_Durable (st_Watermarks (lg_status l'))) (wm_Written (st_Watermarks (lg_status l'))) ->
  lg_maxPayloadBytes l' = lg_maxPayloadBytes l -> lg_terminal l' = lg_terminal l -> w_active w' = w_active w -> w_pending w' = [] -> w_encoded w' = [] -> w_bytes w' = 0 -> w_fault w' = w_fault w ->
  live l' w' o1 (flushed_ghost g) (mkEntry (re_state e) (Some s) (re_sealed e) (re_pins e)) s f.
Proof.
  intros L [(N1 & N2 & N3) Hb Ho [O1 O2]] Hr Hp Hm Hd Hx Ht W1 W2 W3 W4 W5. destruct (live_active _ _ _ _ _ _ _ L) as [_ Eh]. destruct (lv_files _ _ _ _ _ _ _ L) as (Hwf & Hown & _). pose proof (lv_entry _ _ _ _ _ _ _ L) as [Hent [Ha Hs] Hact Hnx]. unfold set_object in Hr. rewrite Eh in Hr. apply entry_parts in Hent as [En _].
  constructor; cbn [flushed_ghost gh_snap gh_sealed gh_written gh_buffer].
  - rewrite N3. destruct (lv_catalog _ _ _ _ _ _ _ L) as (C1 & C2 & C3 & _). split; [exact C1|]. split; [exact C2|]. split; [exact C3|]. intros [].
  - exact (lv_valid _ _ _ _ _ _ _ L).
  - rewrite app_nil_r. exact (lv_recs _ _ _ _ _ _ _ L).
  - rewrite Hr, W1. constructor; [apply entry_of; [exact En|cbn; apply lookup_insert_eq]|auto|exact Hact|exact Hnx].
  - split; [exact O1|]. rewrite O2. exact (proj2 (lv_object _ _ _ _ _ _ _ L)).
  - rewrite Hr. apply heap_ok_set; [exact (lv_heap _ _ _ _ _ _ _ L)|eauto|]. exact (proj2 (lv_heap _ _ _ _ _ _ _ L _ _ Eh)).
  - split; [destruct Hwf as [X1 X2]; constructor; [rewrite N1; exact X1|rewrite N1, N2; exact X2]|]. split; [unfold owns in *; now rewrite N1|exact Hb].
  - rewrite Hr. apply (clean_frame (lg_registry l) _ o); [exact (lv_clean _ _ _ _ _ _ _ L)|exact N1|reflexivity].
  - intros i rs Hi. destruct (lv_sealed _ _ _ _ _ _ _ L i rs Hi) as [Hse Hne]. split; [|exact Hne]. rewrite Hr. apply (sealed_at_frame (lg_registry l) _ o _ _ _ _ _ Hse Hwf N1 Ho Hown); [reflexivity|]. intros x y Ex Ey. cbn. rewrite lookup_insert_ne; [exact Ex|]. intros <-. rewrite Eh in Ex. injection Ex as <-. congruence.
  - unfold buffer_of. rewrite W2, W3, W4. auto.
  - exact Hp.
  - exact Hm.
  - exact Hd.
  - rewrite Hx. exact (lv_max _ _ _ _ _ _ _ L).
  - rewrite Ht, W5. exact (lv_terminal _ _ _ _ _ _ _ L).
Qed.

Lemma live_refault l w o g e a f fs : live (C := C) l w o g e a f -> live l w (refault o fs) g e a f.
Proof.
  intros [L1 L2 L3 L4 L5 L6 (L7 & L8 & L9) [[L10 L11] L12 L13] L14 L15 L16 L17 L18 L19 L20]. constructor; try assumption.
  - split; [destruct L7; constructor; assumption|]. auto.
  - constructor; [split|..]; assumption.
Qed.

Lemma sync_refault a (o : os lpath C) : exists fs, (segment_sync a o).1 = refault o fs.
Proof.
  unfold segment_sync. destruct (as_file a); [|exists (os_faults o); now destruct o]. destruct (as_sealed a); [exists (os_faults o); now destruct o|]. unfold io_bind, hitSegmentFault, log_file_Sync, fs_point. destruct (next_fault_spec o) as (ft & E & _). rewrite E. destruct ft; [eexists; reflexivity|].
  destruct (next_fault_spec (refault o (tail (os_faults o)))) as (ft2 & E2 & _). rewrite E2. destruct ft2; eexists; reflexivity.
Qed.

Lemma pending_deleted : forall (ps : list pendingRecord) (m : gmap Z (list Z)), (forall k, is_Some (m !! k) -> exists p, p ∈ ps /\ ar_Addr (pr_result p) = k) -> foldl (fun m p => delete (ar_Addr (pr_result p)) m) m ps = ∅.
Proof.
  induction ps as [|p ps IH]; intros m Hm.
  - cbn [foldl]. apply map_eq. intros k. rewrite lookup_empty. destruct (m !! k) eqn:E; [|reflexivity]. destruct (Hm k ltac:(eauto)) as (? & H & _). inversion H.
  - cbn [foldl]. apply IH. intros k Hk. destruct (decide (k = ar_Addr (pr_result p))) as [->|Hne]; [rewrite lookup_delete_eq in Hk; destruct Hk; discriminate|]. rewrite lookup_delete_ne in Hk by congruence. destruct (Hm k Hk) as (p' & Hin & Hp'). apply elem_of_cons in Hin as [->|Hin]; [congruence|]. eauto.
Qed.

Lemma live_unlisted l w o g e a f : live (C := C) l w o g e a f -> foldl (fun m p => delete (ar_Addr (pr_result p)) m) (lg_pending l) (w_pending w) = ∅.
Proof.
  intros L. apply pending_deleted. intros k [p E]. rewrite (lv_pending _ _ _ _ _ _ _ L) in E. apply pending_only in E as (rec & Hin & Ha & _). destruct (lv_buffer _ _ _ _ _ _ _ L) as (Hb & _). rewrite <- Hb in Hin. unfold buffer_of in Hin. apply list_elem_of_fmap in Hin as (p0 & -> & Hin). eauto.
Qed.

(** Where the last record of the buffer ends. *)
Lemma live_last_end l w o g e a f p : live (C := C) l w o g e a f -> last (w_pending w) = Some p -> ar_End (pr_result p) = end_of (gh_snap g) (gh_written g ++ gh_buffer g).
Proof.
  intros L Hl. apply last_Some in Hl as [ps Hps]. destruct (lv_buffer _ _ _ _ _ _ _ L) as (Hb & _). unfold buffer_of in Hb. rewrite Hps, map_app in Hb. cbn [map] in Hb. set (init := map (fun p => (pr_result p, pr_payload p)) ps) in *. destruct (live_bounds _ _ _ _ _ _ _ L) as (B1 & B2 & B3 & B4 & B5 & B6). rewrite <- Hb in *. rewrite body_size_app in B6. apply placed_app in B3 as [B3 [B7 _]]. pose proof (body_size_nonneg _ _ _ B3). pose proof (ra_size _ _ _ B7) as Hsz. apply PhysicalRecordSize_nonneg in Hsz; [|apply len_nonneg]. rewrite body_size_cons in B6. change (body_size []) with 0 in B6.
  change (ar_End (pr_result p)) with (ar_End (pr_result p, pr_payload p).1). rewrite (rec_at_end _ (64 + body_size (gh_written g) + body_size init) (pr_result p, pr_payload p) B1 ltac:(unfold is_u32; lia) B7). unfold end_of. rewrite !body_size_app, body_size_cons. change (body_size []) with 0. f_equal. lia.
Qed.
End Flush.
