(* ===== verification/LogAcks.v ===== *)
(** * Acknowledged records

    Every append that was answered with success is a record of the log, is read
    back by its address at any later time as long as the log is not poisoned, and
    lies behind the durable mark when the client asked for a sync. *)
From S2P Require Import Prelude Bytes Addr Crc32 RecordFormat Fs FsDisk Catalog LogSegment LogRotate LogScan LogRotation LogRotationSpec LogState LogRegistry LogQueue LogCrash LogData.

(** ** Answers with success *)

(** The successes of [l'] are those of [l] and the ones in [P]. *)
Definition answers (l l' : Log) (P : nat -> AppendResult -> Prop) : Prop :=
  forall q r' x, lg_heap l' !! q = Some r' -> rq_response r' = Some (Ok x) -> (exists r, lg_heap l !! q = Some r /\ rq_response r = Some (Ok x)) \/ P q x.
Definition nobody (q : nat) (x : AppendResult) : Prop := False.

Lemma answers_same l l' P : lg_heap l' = lg_heap l -> answers l l' P.
Proof. intros E q r' x Er Ex. rewrite E in Er. eauto. Qed.

Lemma answers_trans l l1 l2 P Q : answers l l1 P -> answers l1 l2 Q -> answers l l2 (fun q x => P q x \/ Q q x).
Proof. intros H1 H2 q r' x Er Ex. destruct (H2 q r' x Er Ex) as [(r & E1 & E2)|H]; [|auto]. destruct (H1 q r x E1 E2) as [H|H]; auto. Qed.

Lemma answers_weaken l l' (P Q : nat -> AppendResult -> Prop) : (forall q x, P q x -> Q q x) -> answers l l' P -> answers l l' Q.
Proof. intros H Ha q r' x Er Ex. destruct (Ha q r' x Er Ex); auto. Qed.

Lemma answers_nobody l l1 l2 P : answers l l1 P -> answers l1 l2 nobody -> answers l l2 P.
Proof. intros H1 H2. eapply answers_weaken; [|exact (answers_trans _ _ _ _ _ H1 H2)]. intros q x [H|[]]. exact H. Qed.

Lemma answers_insert l l' q r r' P : lg_heap l !! q = Some r -> lg_heap l' = <[q := r']> (lg_heap l) -> (rq_response r' = rq_response r \/ forall x, rq_response r' = Some (Ok x) -> P q x) -> answers l l' P.
Proof.
  intros E El H q0 r0 x Er Ex. rewrite El in Er. apply lookup_insert_Some in Er as [[<- <-]|[_ Er]]; [|eauto]. destruct H as [H|H]; [left; exists r; split; [exact E|congruence]|auto].
Qed.

Lemma answers_complete l q response P : (forall x, response = Ok x -> P q x) -> answers l (complete l q response) P.
Proof.
  intros H. unfold complete. destruct (lg_heap l !! q) as [r|] eqn:E; [|now apply answers_same]. destruct (rq_completed r); [now apply answers_same|]. eapply answers_insert; [exact E|reflexivity|]. right. cbn. intros x [= ->]. auto.
Qed.

Lemma answers_complete_all (P : nat -> AppendResult -> Prop) (response : pendingRecord -> res AppendResult) : forall S l, (forall p x, p ∈ S -> response p = Ok x -> P (pr_request p) x) -> answers l (foldl (fun l p => complete l (pr_request p) (response p)) l S) P.
Proof.
  induction S as [|p S IH]; intros l H; [now apply answers_same|]. cbn [foldl]. refine (answers_weaken _ _ (fun q x => P q x \/ P q x) P _ (answers_trans _ _ _ P P _ _)); [tauto| |].
  - apply answers_complete. intros x Hx. exact (H p x ltac:(now left) Hx).
  - apply IH. intros p' x Hp Hx. exact (H p' x ltac:(now right) Hx).
Qed.

Lemma answers_reject l q e : answers l (reject l q e) nobody.
Proof.
  unfold reject. destruct (lg_heap l !! q) as [r|] eqn:E; [|now apply answers_same]. destruct (rq_completed r); [now apply answers_same|].
  eapply answers_nobody; [|apply answers_complete; discriminate]. destruct (_ && _); [|now apply answers_same]. eapply answers_insert; [exact E|reflexivity|]. now left.
Qed.

Lemma poison_terminal l w cause : let '(l', w', f) := poison l w cause in answers l l' nobody /\ w_fault w' <> None /\ ((w_fault w = None <-> lg_terminal l = None) -> lg_terminal l' <> None) /\ lg_registry l' = lg_registry l /\ st_Watermarks (lg_status l') = st_Watermarks (lg_status l).
Proof.
  unfold poison. destruct (w_fault w) as [f|] eqn:Ef; [split; [now apply answers_same|]; split; [congruence|]; split; [intros [H1 H2] E; specialize (H2 E); discriminate|auto]|].
  set (x := setTerminal l cause). assert (Hx : lg_heap x.1 = lg_heap l /\ lg_terminal x.1 <> None /\ lg_registry x.1 = lg_registry l /\ st_Watermarks (lg_status x.1) = st_Watermarks (lg_status l)).
  { unfold x, setTerminal. destruct (lg_terminal l) eqn:Et; cbn; [rewrite Et|]; repeat split; discriminate. }
  destruct x as [l1 f]. cbn [fst] in Hx. destruct Hx as (X1 & X2 & X3 & X4). cbn.
  assert (Hkeep : forall S l, let l' := foldl (fun l p => complete l (pr_request p) (Err f)) l S in lg_terminal l' = lg_terminal l /\ lg_registry l' = lg_registry l /\ lg_status l' = lg_status l).
  { induction S as [|p S IH]; intros l0; [auto|]. cbn. destruct (IH (complete l0 (pr_request p) (Err f))) as (-> & -> & ->). unfold complete. destruct (lg_heap l0 !! _) as [r|]; [|auto]. destruct (rq_completed r); auto. }
  destruct (Hkeep (w_waiters w) l1) as (K1 & K2 & K3). split; [|split; [discriminate|]; split; [intros _; rewrite K1; exact X2|rewrite K2, K3; auto]].
  eapply answers_nobody; [eapply answers_nobody; [apply (answers_same l l1); exact X1|apply (answers_complete_all nobody (fun _ => Err f) (w_waiters w)); discriminate]|now apply answers_same].
Qed.

Lemma reject_same l q e : lg_terminal (reject l q e) = lg_terminal l /\ lg_status (reject l q e) = lg_status l /\ lg_registry (reject l q e) = lg_registry l /\ lg_pending (reject l q e) = lg_pending l /\ lg_maxPayloadBytes (reject l q e) = lg_maxPayloadBytes l.
Proof.
  unfold reject. destruct (lg_heap l !! q) as [y|]; [|auto]. destruct (rq_completed y); [auto|]. unfold complete. destruct (_ && _); cbn; match goal with |- context [match ?x with _ => _ end] => destruct x as [z|] end; try destruct (rq_completed z); auto.
Qed.
Definition reject_terminal l q e := proj1 (reject_same l q e).
Definition reject_status l q e := proj1 (proj2 (reject_same l q e)).

(** ** Staging *)

Lemma extends_add g rec : extends g (add_buffer g rec).
Proof. constructor; [auto|]. intros x [H|H]; [now left|right; apply elem_of_app; now left]. Qed.

Lemma extends_flushed g : extends g (flushed_ghost g).
Proof. constructor; intros rec; unfold holds, written; cbn; rewrite elem_of_app; intuition. Qed.

Definition durable (l : Log) : LogPos := wm_Durable (st_Watermarks (lg_status l)).

Lemma log_pos_le_refl p : pos_le p p.
Proof. right. lia. Qed.

Lemma pos_le_trans p q r : pos_le p q -> pos_le q r -> pos_le p r.
Proof. unfold pos_le. lia. Qed.

Section Stage.
Context {C : Type} `{!LogPort C} `{!LogPortLaws C}.

Lemma extends_rotated l w o g : lives (C := C) l w o g -> gh_buffer g = [] -> extends g (rotated_ghost g).
Proof.
  intros (e & a & f & L) Hb. assert (H : forall rec, written g rec -> written (rotated_ghost g) rec).
  { intros rec [H|(i & rs & Hi & Hin)]; right; cbn; [exists (ls_ActiveSegmentID (gh_snap g)), (gh_written g); split; [apply lookup_insert_eq|exact H]|]. destruct (lv_sealed _ _ _ _ _ _ _ L _ _ Hi) as [_ Hne]. exists i, rs. rewrite lookup_insert_ne by congruence. auto. }
  constructor; [exact H|]. intros rec [Hw|Hx]; [left; auto|]. rewrite Hb in Hx. inversion Hx.
Qed.

Lemma pending_empty l w o g : lives (C := C) l w o g -> w_pending w = [] -> gh_buffer g = [] /\ w_bytes w = 0.
Proof. intros (e & a & f & L) Hp. destruct (lv_buffer _ _ _ _ _ _ _ L) as (B1 & _ & B3 & _). unfold buffer_of in B1. rewrite Hp in B1. cbn in B1. rewrite <- B1 in *. auto. Qed.

Lemma stage_rotate_data l w r o g : lives (C := C) l w o g -> proper l (rq_payload r) (rq_physical r) -> (w_pending w = [] \/ rq_physical r <= remainingLocked (active_of l w) - w_bytes w) ->
  let '(o1, (l1, w1, failed)) := stage_rotate l w r o in
  lg_terminal l1 = None /\ w_fault w1 = None /\ pos_le (durable l) (durable l1) /\
  (failed = None -> exists g1 e a f, live l1 w1 o1 g1 e a f /\ extends g g1 /\ rq_physical r <= remainingLocked a - w_bytes w1).
Proof.
  intros HL Hp Hfit. pose proof HL as (e & a & f & L). destruct (live_active _ _ _ _ _ _ _ L) as [Ea _]. destruct (lv_terminal _ _ _ _ _ _ _ L) as [Ht Hf]. unfold stage_rotate. rewrite Ea in *. destruct (rq_physical r <=? remainingLocked a) eqn:Er; bool_norm.
  - split; [exact Ht|]. split; [exact Hf|]. split; [apply log_pos_le_refl|]. intros _. exists g, e, a, f. split; [exact L|]. split; [reflexivity|]. destruct Hfit as [Hpe|Hfit]; [|exact Hfit]. destruct (pending_empty _ _ _ _ HL Hpe) as [_ ->]. lia.
  - destruct Hfit as [Hpe|Hfit]; [|exfalso; destruct (lv_buffer _ _ _ _ _ _ _ L) as (_ & _ & Hb & _); destruct (live_bounds _ _ _ _ _ _ _ L) as (_ & _ & _ & _ & B5 & _); rewrite Hb in Hfit; lia].
    destruct (pending_empty _ _ _ _ HL Hpe) as [Hbu Hby]. destruct (rotate (lg_registry l) (w_active w) a o) as [o1 [reg [next|e1]]] eqn:Erot; [|repeat split; auto; [apply log_pos_le_refl|discriminate]].
    destruct (live_rotated _ _ _ _ _ _ _ _ _ _ L Hbu Erot) as (loc & e' & f' & H1 & H2 & H3 & H4 & H5 & H6). rewrite H1, H2, H3. destruct (live_object _ _ _ _ _ _ _ L) as (Hh & _). rewrite Hh. change (sh_SegmentID (old_header (gh_snap g))) with (ls_ActiveSegmentID (gh_snap g)). rewrite Z.eqb_refl.
    assert (Hd : pos_le (durable l) (mkPos (ls_NextSegmentID (gh_snap g)) 64)).
    { pose proof (lv_durable _ _ _ _ _ _ _ L) as Hd. rewrite (lv_marks _ _ _ _ _ _ _ L) in Hd. refine (pos_le_trans _ _ _ Hd _). left. cbn. destruct (pt_ids _ (live_parts _ _ _ _ _ _ _ L)) as [_ ->]. lia. }
    split; [exact Ht|]. split; [exact Hf|]. split; [unfold durable; cbn; rewrite H4, H5; exact Hd|]. intros _. match goal with |- exists g1 e a f, live ?l1 _ _ g1 e a f /\ _ => assert (L' : live l1 (set_writer_active w loc) o1 (rotated_ghost g) e' next f') end.
    { apply H6; try reflexivity; cbn; rewrite H4, H5; reflexivity. }
    exists (rotated_ghost g), e', next, f'. split; [exact L'|]. split; [exact (extends_rotated _ _ _ _ HL Hbu)|]. rewrite (live_remaining _ _ _ _ _ _ _ L'). cbn [rotated_ghost gh_snap gh_written set_writer_active w_bytes]. rewrite Hby. change (body_size []) with 0.
    destruct (pt_record _ (live_parts _ _ _ _ _ _ _ L')) as (mx & M1 & M2). change (ls_MaxPayloadBytes (gh_snap (rotated_ghost g))) with (ls_MaxPayloadBytes (gh_snap g)) in M1. destruct Hp as [_ P2 P3]. rewrite (lv_max _ _ _ _ _ _ _ L) in P3. pose proof (PhysicalRecordSize_mono _ _ _ _ (conj (len_nonneg _) P3) P2 M1).
    destruct (live_bounds _ _ _ _ _ _ _ L') as (_ & _ & _ & _ & _ & B6). cbn [rotated_ghost gh_snap gh_written gh_buffer] in B6, M2. change (body_size []) with 0 in B6. unfold Addr.SegmentHeaderSize, Addr.SegmentFooterSize in M2. rewrite Z.mod_small in M2 by lia. lia.
Qed.

(** What [stage] does. *)
Record stage_done (l : Log) (w : writer) (g : ghost) (q : nat) (r : appendRequest) (o' : os lpath C) (l' : Log) (w' : writer) (g' : ghost) (p : pendingRecord) : Prop := mkStageDone {
  sd_live : lives l' w' o' g';
  sd_extends : extends g g';
  sd_pending : w_pending w' = w_pending w ++ [p] /\ pr_request p = q /\ pr_payload p = rq_payload r;
  sd_waiters : w_waiters w' = if rq_sync r then w_waiters w ++ [p] else w_waiters w;
  sd_holds : holds g' (pr_result p, pr_payload p);
  sd_answers : answers l l' (fun q' x => q' = q /\ x = pr_result p /\ rq_sync r = false);
}.

Lemma stage_data l w q r ctxErr o g : lives (C := C) l w o g -> lg_heap l !! q = Some r -> proper l (rq_payload r) (rq_physical r) -> (w_pending w = [] \/ rq_physical r <= remainingLocked (active_of l w) - w_bytes w) ->
  let '(o', (l', w', ok)) := stage l w q ctxErr o in pos_le (durable l) (durable l') /\
  if ok then exists g' p, stage_done l w g q r o' l' w' g' p
  else answers l l' nobody /\ (lives l' w' o' g /\ w' = w \/ w_fault w' <> None /\ lg_terminal l' <> None).
Proof.
  intros HL E Hp Hfit. unfold stage. rewrite E. destruct ctxErr as [e|].
  { destruct (reject_same l q e) as (K5 & K3 & K1 & K2 & K4). split; [unfold durable; rewrite K3; apply log_pos_le_refl|]. split; [apply answers_reject|]. left. split; [|reflexivity]. destruct HL as (e0 & a & f & L). exists e0, a, f. apply (live_log l _ w w); congruence. }
  pose proof (stage_rotate_data l w r o g HL Hp Hfit) as Hr. pose proof (stage_rotate_books l w r o) as Hk. destruct (stage_rotate l w r o) as [o1 [[l1 w1] failed]]. destruct Hr as (Ht & Hf & Hd & Hok). destruct Hk as (K1 & _ & K3 & _ & (loc & ->) & K6).
  assert (Hpoison : forall e, let '(l2, w2) := reject_poisoned l1 (set_writer_active w loc) q e in pos_le (durable l) (durable l2) /\ answers l l2 nobody /\ (lives l2 w2 o1 g /\ w2 = w \/ w_fault w2 <> None /\ lg_terminal l2 <> None)).
  { intros e. unfold reject_poisoned. pose proof (poison_terminal l1 (set_writer_active w loc) e) as H. destruct (poison _ _ e) as [[l2 w2] fl]. destruct H as (H1 & H2 & H3 & _ & H5). specialize (H3 ltac:(rewrite Ht, Hf; tauto)).
    destruct (reject_same l2 q fl) as (-> & Hk & _). split; [unfold durable in *; rewrite Hk, H5; exact Hd|]. split; [|auto]. eapply answers_nobody; [eapply answers_nobody; [now apply (answers_same l l1)|exact H1]|apply answers_reject]. }
  destruct failed as [e|]; [specialize (Hpoison e); destruct (reject_poisoned _ _ _ _); exact Hpoison|]. destruct (place_record l1 _ r) as [[[addr result] encoded]|e] eqn:Ep; [|specialize (Hpoison e); destruct (reject_poisoned _ _ _ _); exact Hpoison]. clear Hpoison.
  destruct (Hok eq_refl) as (g1 & e1 & a1 & f1 & L1 & Hext & Hfit1). assert (Hp1 : proper l1 (rq_payload r) (rq_physical r)) by (destruct Hp; constructor; [assumption..|rewrite K6; assumption]).
  destruct (place_record_ok _ _ _ _ _ _ _ _ _ _ _ L1 Hp1 Hfit1 Ep) as (Ead & Esz & Eby & Hrecs & Epl). set (payload := slice 32 _ encoded) in *. set (w2 := add_pending _ _ _ _).
  set (l2 := share_pending (set_request l1 q (reserve_request r result)) w2 addr result payload). pose proof (live_staged _ _ _ _ _ _ _ q r addr result encoded (rq_sync r) L1 Hp1 Hfit1 Ep (set_request l1 q (reserve_request r result)) eq_refl eq_refl eq_refl eq_refl eq_refl) as L2. cbv zeta in L2. fold payload w2 l2 in L2.
  set (l3 := set_request (set_budget l2 _) q _). assert (E1 : lg_heap l1 !! q = Some r) by congruence.
  assert (A3 : forall P, answers l l3 P) by (intros P; eapply (answers_insert l l3 q r); [exact E|cbn; rewrite K1; apply insert_insert_eq|now left]).
  assert (Hl4 : forall b : bool, let l4 := if b then l3 else complete l3 q (Ok result) in durable l4 = durable l1 /\ lives l4 w2 o1 (add_buffer g1 (result, rq_payload r))).
  { intros b. assert (Hc : forall z, lg_registry (complete l3 q z) = lg_registry l3 /\ lg_pending (complete l3 q z) = lg_pending l3 /\ lg_status (complete l3 q z) = lg_status l3 /\ lg_maxPayloadBytes (complete l3 q z) = lg_maxPayloadBytes l3 /\ lg_terminal (complete l3 q z) = lg_terminal l3) by (intros z; unfold complete; destruct (lg_heap l3 !! q) as [y|]; [destruct (rq_completed y)|]; auto).
    destruct (Hc (Ok result)) as (X1 & X2 & X3 & X4 & X5). destruct b; (split; [unfold durable; rewrite ?X3; reflexivity|]; exists e1, a1, f1; apply (live_log l2 _ w2 w2); rewrite ?X1, ?X2, ?X3, ?X4, ?X5; auto). }
  specialize (Hl4 (rq_sync r)). cbv zeta in Hl4. destruct Hl4 as [Hdu Hlive]. split; [rewrite Hdu; exact Hd|]. exists (add_buffer g1 (result, rq_payload r)), (mkPending q result (rq_physical r) payload). constructor.
  - exact Hlive.
  - exact (transitivity Hext (extends_add _ _)).
  - repeat split. exact Epl.
  - reflexivity.
  - right. cbn [pr_result pr_payload]. rewrite Epl. apply elem_of_app. right. now left.
  - destruct (rq_sync r) eqn:Es; [apply A3|]. eapply answers_weaken; [|eapply answers_trans; [apply (A3 nobody)|apply (answers_complete l3 q (Ok result) (fun q' x => q' = q /\ x = result))]]; [|intros x [= ->]; auto]. intros q' x [[]|[-> ->]]. auto.
Qed.
End Stage.

(** ** Flushing *)

Section Flush.
Context {C : Type} `{!LogPort C} `{!LogPortLaws C}.

Lemma live_end_le l w o g e a f p : live (C := C) l w o g e a f -> p ∈ w_pending w -> pos_le (ar_End (pr_result p)) (end_of (gh_snap g) (gh_written g ++ gh_buffer g)).
Proof.
  intros L Hin. destruct (lv_buffer _ _ _ _ _ _ _ L) as (Hb & _). destruct (live_bounds _ _ _ _ _ _ _ L) as (B1 & B2 & B3 & B4 & B5 & B6). assert (Hr : (pr_result p, pr_payload p) ∈ gh_buffer g) by (rewrite <- Hb; unfold buffer_of; apply list_elem_of_fmap; eauto).
  apply list_elem_of_split in Hr as (pre & suf & E). rewrite E in *. rewrite body_size_app, body_size_cons in B6. apply placed_app in B3 as [B3 [B7 B8]]. pose proof (body_size_nonneg _ _ _ B3). pose proof (body_size_nonneg _ _ _ B8). pose proof (ra_size _ _ _ B7) as Hsz. apply PhysicalRecordSize_nonneg in Hsz; [|apply len_nonneg].
  change (ar_End (pr_result p)) with (ar_End (pr_result p, pr_payload p).1). rewrite (rec_at_end _ (64 + body_size (gh_written g) + body_size pre) _ B1 ltac:(unfold is_u32; lia) B7). right. cbn. rewrite !body_size_app, body_size_cons. split; [reflexivity|lia].
Qed.

Definition synced_by (w : writer) (l' : Log) (q : nat) (x : AppendResult) : Prop := exists p, p ∈ w_waiters w /\ pr_request p = q /\ pr_result p = x /\ pos_le (ar_End x) (durable l').

Lemma complete_all_data (response : pendingRecord -> res AppendResult) : forall S l, let l' := foldl (fun l p => complete l (pr_request p) (response p)) l S in
  lg_registry l' = lg_registry l /\ lg_pending l' = lg_pending l /\ lg_status l' = lg_status l /\ lg_maxPayloadBytes l' = lg_maxPayloadBytes l /\ lg_terminal l' = lg_terminal l.
Proof.
  induction S as [|p S IH]; intros l; [auto|]. cbn. destruct (IH (complete l (pr_request p) (response p))) as (-> & -> & -> & -> & ->). unfold complete. destruct (lg_heap l !! _) as [y|]; [destruct (rq_completed y)|]; auto.
Qed.

Lemma flush_data l w o g : lives (C := C) l w o g -> writer_ok w -> (forall p, p ∈ w_waiters w -> p ∈ w_pending w) ->
  let '(o', (l', w', failed)) := flush l w o in pos_le (durable l) (durable l') /\
  match failed with
  | None => w_pending w' = [] /\ (exists g', lives l' w' o' g' /\ extends g g') /\ answers l l' (synced_by w l')
  | Some _ => answers l l' nobody /\ lg_terminal l' = None /\ w_fault w' = None
  end.
Proof.
  intros HL [K1 K2 K3] Hsub. pose proof HL as (e & a & f & L). destruct (live_active _ _ _ _ _ _ _ L) as [Ea Eh]. destruct (lv_terminal _ _ _ _ _ _ _ L) as [Ht Hf]. unfold flush. rewrite Ea. destruct (len (w_pending w) =? 0) eqn:E0; bool_norm.
  { apply len_zero_nil in E0. split; [apply log_pos_le_refl|]. split; [exact E0|]. split; [exists g; split; [exact HL|reflexivity]|]. now apply answers_same. }
  assert (Hne : w_pending w <> []) by (intros X; rewrite X in E0; now apply E0). destruct (appendEncoded a _ _ o) as [o1 [s|e1]] eqn:Eap; [|split; [apply log_pos_le_refl|]; split; [now apply answers_same|auto]].
  pose proof (append_ok _ _ _ _ _ _ _ _ _ L Hne Eap) as Hap. set (w1 := bump_writes w). set (l1 := count_write (put_active l w s) w1). destruct (last (w_pending w)) as [pl|] eqn:El; [|apply last_None in El; congruence]. pose proof (live_last_end _ _ _ _ _ _ _ _ L El) as Hend.
  assert (H1 : lg_heap l1 = lg_heap l /\ lg_registry l1 = set_object (lg_registry l) (w_active w) s /\ lg_pending l1 = ∅ /\ wm_Written (st_Watermarks (lg_status l1)) = end_of (gh_snap g) (gh_written g ++ gh_buffer g) /\ durable l1 = durable l /\ lg_maxPayloadBytes l1 = lg_maxPayloadBytes l /\ lg_terminal l1 = lg_terminal l).
  { unfold l1, count_write, put_active, set_object, durable. rewrite Eh. cbn. rewrite El, Hend. rewrite (live_unlisted _ _ _ _ _ _ _ L). repeat split. }
  destruct H1 as (R0 & R1 & R2 & R3 & R4 & R5 & R6). assert (Hmono : pos_le (durable l) (end_of (gh_snap g) (gh_written g ++ gh_buffer g))).
  { pose proof (lv_durable _ _ _ _ _ _ _ L) as Hd. rewrite (lv_marks _ _ _ _ _ _ _ L) in Hd. refine (pos_le_trans _ _ _ Hd _). destruct (live_bounds _ _ _ _ _ _ _ L) as (_ & _ & _ & _ & B5 & _). right. cbn. rewrite body_size_app. lia. }
  unfold flush_sync. change (w_needSync w1) with (w_needSync w). destruct (w_needSync w) eqn:En.
  - destruct (sync_refault (active_of l1 w1) o1) as [fs Es]. destruct (segment_sync (active_of l1 w1) o1) as [o2 [u|e2]]; cbn [fst] in Es; subst o2.
    + set (w2 := bump_syncs w1). set (l2 := count_sync l1 w2). change (w_waiters w2) with (w_waiters w). destruct (complete_all_data (fun p => Ok (pr_result p)) (w_waiters w) l2) as (Q1 & Q2 & Q3 & Q4 & Q5). set (l3 := foldl _ l2 (w_waiters w)) in *.
      assert (Hdu : durable l3 = end_of (gh_snap g) (gh_written g ++ gh_buffer g)) by (unfold durable; rewrite Q3; exact R3). split; [rewrite Hdu; exact Hmono|]. split; [reflexivity|]. split.
      * exists (flushed_ghost g). split; [|apply extends_flushed]. eexists _, s, f. apply live_refault. apply (live_flushed _ _ _ _ _ _ _ _ _ _ _ L Hap); [rewrite Q1; exact R1|rewrite Q2; exact R2|rewrite Q3; exact R3|rewrite Q3; apply log_pos_le_refl|rewrite Q4; exact R5|rewrite Q5; exact R6|reflexivity..].
      * intros q r' x Er Ex. destruct (answers_complete_all (synced_by w l3) (fun p => Ok (pr_result p)) (w_waiters w) l2) with (q := q) (r' := r') (x := x) as [(r0 & E1 & E2)|H]; [|exact Er|exact Ex| |right; exact H].
        { intros p y Hp [= <-]. exists p. split; [exact Hp|]. split; [reflexivity|]. split; [reflexivity|]. rewrite Hdu. exact (live_end_le _ _ _ _ _ _ _ _ L (Hsub p Hp)). }
        left. exists r0. split; [|exact E2]. rewrite <- R0. exact E1.
    + split; [rewrite R4; apply log_pos_le_refl|]. split; [now apply answers_same|]. split; [congruence|exact Hf].
  - split; [rewrite R4; apply log_pos_le_refl|]. split; [reflexivity|]. split.
    + exists (flushed_ghost g). split; [|apply extends_flushed]. eexists _, s, f. apply (live_flushed _ _ _ _ _ _ _ _ _ _ _ L Hap); [exact R1|exact R2|exact R3| |exact R5|exact R6|reflexivity..]. unfold durable in R4. rewrite R3, R4. exact Hmono.
    + now apply answers_same.
Qed.
End Flush.

(** ** The invariant of the records *)

Section World.
Context {C : Type} `{!LogPort C} `{!LogPortLaws C}.

Definition asked (l : Log) (given : gmap nat (list Z)) (q : nat) : Prop :=
  exists r, lg_heap l !! q = Some r /\ (rq_stop r = true \/ given !! q = Some (rq_payload r) /\ proper l (rq_payload r) (rq_physical r)).

(** A success that may be reported. *)
Definition backed (l : Log) (given : gmap nat (list Z)) (g : ghost) (q : nat) (x : AppendResult) : Prop :=
  forall r, lg_heap l !! q = Some r -> rq_stop r = false -> (exists p, given !! q = Some p /\ holds g (x, p)) /\ (rq_sync r = true -> pos_le (ar_End x) (durable l)).

Record world_data (W : world C) (g : ghost) : Prop := mkWorldData {
  wa_fault : w_fault (wd_writer W) = None <-> lg_terminal (wd_log W) = None;
  wa_live : lg_terminal (wd_log W) = None -> lives (wd_log W) (wd_writer W) (wd_os W) g;
  wa_asked : forall q, q ∈ wd_held W ++ queued (wd_log W) (wd_writer W) -> asked (wd_log W) (wd_given W) q;
  wa_pending : forall p, p ∈ w_pending (wd_writer W) -> wd_given W !! pr_request p = Some (pr_payload p);
  wa_waiters : forall p, p ∈ w_waiters (wd_writer W) -> p ∈ w_pending (wd_writer W);
  wa_answers : forall q r x, lg_heap (wd_log W) !! q = Some r -> rq_response r = Some (Ok x) -> backed (wd_log W) (wd_given W) g q x;
  wa_given : forall q, is_Some (wd_given W !! q) -> is_Some (lg_heap (wd_log W) !! q);
}.

Lemma backed_le l l' given g g' q x r : backed l given g q x -> heap_le l l' -> lg_heap l !! q = Some r -> extends g g' -> pos_le (durable l) (durable l') -> backed l' given g' q x.
Proof.
  intros Hb Hle Er Hext Hd r' Er' Hs. destruct (hl_heap _ _ Hle q r Er) as (r0 & E0 & [(S1 & _ & S3) _ _]). assert (r0 = r') by congruence. subst r0. destruct (Hb r Er ltac:(congruence)) as [(p & Hp & Hh) Hsy]. split; [exists p; split; [exact Hp|now apply (ex_holds _ _ Hext)]|]. intros Hy. refine (pos_le_trans _ _ _ (Hsy _) Hd). congruence.
Qed.

(** What a turn must show. *)
Lemma turn_data_intro W g l' w' o' pc g' : world_ok W -> world_data W g -> turn_ok W (after_turn W (o', (l', w', pc))) ->
  (w_fault w' = None <-> lg_terminal l' = None) -> (lg_terminal l' = None -> lives l' w' o' g') -> extends g g' -> pos_le (durable (wd_log W)) (durable l') ->
  (forall p, p ∈ w_pending w' -> wd_given W !! pr_request p = Some (pr_payload p)) -> (forall p, p ∈ w_waiters w' -> p ∈ w_pending w') ->
  answers (wd_log W) l' (backed l' (wd_given W) g') -> world_data (after_turn W (o', (l', w', pc))) g'.
Proof.
  intros Hw Hd [Ht Hle _ _ Hq] Hf Hl Hext Hdu Hp Hwt Ha. cbn [after_turn wd_log wd_writer fst snd] in Hle, Hq. constructor; cbn [after_turn wd_log wd_writer wd_os wd_held wd_given fst snd]; try assumption.
  - intros q Hin. destruct (wa_asked _ _ Hd q) as (r & Er & Hr); [apply elem_of_app in Hin as [Hin|Hin]; apply elem_of_app; auto|]. destruct (hl_heap _ _ Hle q r Er) as (r' & Er' & [(S1 & S2 & _) _ S4]). exists r'. split; [exact Er'|]. destruct Hr as [Hr|[Hg Hpr]]; [left; congruence|right].
    destruct (ac_unstaged _ _ _ _ (wo_books _ Ht) q Hin) as (r0 & E0 & [(F1 & _) _]). cbn [after_turn wd_log fst snd] in E0. assert (r0 = r') by congruence. subst r0. destruct (S4 F1) as [_ S5]. rewrite S5, S2. split; [exact Hg|]. destruct Hpr. constructor; [assumption..|]. pose proof (hl_fixed _ _ Hle) as F. injection F as _ _ F. lia.
  - intros q r' x Er' Ex. destruct (Ha q r' x Er' Ex) as [(r & Er & Exr)|H]; [|exact H]. exact (backed_le _ _ _ _ _ _ _ _ (wa_answers _ _ Hd q r x Er Exr) Hle Er Hext Hdu).
  - intros q Hqg. destruct (wa_given _ _ Hd q Hqg) as [r Er]. destruct (hl_heap _ _ Hle q r Er) as (r' & Er' & _). eauto.
Qed.

Lemma lives_log l l' w w' o g : lives (C := C) l w o g -> lg_registry l' = lg_registry l -> lg_pending l' = lg_pending l -> lg_status l' = lg_status l -> lg_maxPayloadBytes l' = lg_maxPayloadBytes l -> lg_terminal l' = lg_terminal l ->
  w_active w' = w_active w -> w_pending w' = w_pending w -> w_encoded w' = w_encoded w -> w_bytes w' = w_bytes w -> w_fault w' = w_fault w -> lives l' w' o g.
Proof. intros (e & a & f & L) H1 H2 H3 H4 H5 K1 K2 K3 K4 K5. exists e, a, f. apply (live_log l l' w w'); congruence. Qed.

(** The sync of [stop]. *)
Lemma lives_synced l w o g fs : lives (C := C) l w o g -> lives (count_sync l (bump_syncs w)) (bump_syncs w) (refault o fs) g /\ pos_le (durable l) (durable (count_sync l (bump_syncs w))).
Proof.
  intros (e & a & f & L). split; [|exact (lv_durable _ _ _ _ _ _ _ L)]. exists e, a, f. apply live_refault. destruct L. constructor; try assumption. apply log_pos_le_refl.
Qed.

(** The parts of a turn, as what they do to a state that is live or poisoned. *)
Record part (l : Log) (w : writer) (o : os lpath C) (g : ghost) (given : gmap nat (list Z)) : Prop := mkPart {
  pa_fault : w_fault w = None <-> lg_terminal l = None;
  pa_live : lg_terminal l = None -> lives l w o g;
  pa_pending : forall p, p ∈ w_pending w -> given !! pr_request p = Some (pr_payload p);
  pa_waiters : forall p, p ∈ w_waiters w -> p ∈ w_pending w;
}.

Record grows (l l' : Log) (g g' : ghost) (given : gmap nat (list Z)) : Prop := mkGrows {
  gr_extends : extends g g';
  gr_durable : pos_le (durable l) (durable l');
  gr_answers : answers l l' (backed l' given g');
}.

Lemma grows_nobody l l' g given : pos_le (durable l) (durable l') -> answers l l' nobody -> grows l l' g g given.
Proof. intros Hd Ha. constructor; [reflexivity|exact Hd|]. eapply answers_weaken; [|exact Ha]. intros q x []. Qed.

Lemma growth_trans l l1 l2 g g1 g2 given : heap_le l1 l2 -> grows l l1 g g1 given -> grows l1 l2 g1 g2 given -> grows l l2 g g2 given.
Proof.
  intros Hle [E1 D1 A1] [E2 D2 A2]. constructor; [exact (transitivity E1 E2)|exact (pos_le_trans _ _ _ D1 D2)|]. intros q r' x Er Ex. destruct (A2 q r' x Er Ex) as [(r & Er1 & Ex1)|H]; [|auto]. destruct (A1 q r x Er1 Ex1) as [H|H]; [auto|right]. exact (backed_le _ _ _ _ _ _ _ _ H Hle Er1 E2 D2).
Qed.

Lemma pending_holds l w o g p : lives (C := C) l w o g -> p ∈ w_pending w -> holds g (pr_result p, pr_payload p).
Proof. intros (e & a & f & L) Hp. right. destruct (lv_buffer _ _ _ _ _ _ _ L) as (<- & _). unfold buffer_of. apply list_elem_of_fmap. eauto. Qed.

Lemma poison_part l w cause o g given : (w_fault w = None <-> lg_terminal l = None) -> writer_ok w -> let '(l', w', _) := poison l w cause in part l' w' o g given /\ grows l l' g g given /\ w_pending w' = [].
Proof.
  intros Hf Hok. pose proof (poison_terminal l w cause) as H. assert (Hw : let '(_, w', _) := poison l w cause in w_pending w' = [] /\ w_waiters w' = []).
  { unfold poison. destruct (w_fault w) eqn:E; [|destruct (setTerminal l cause); auto]. pose proof (wk_fault _ Hok ltac:(congruence)) as Hp. split; [exact Hp|exact (wk_pending _ Hok Hp)]. }
  destruct (poison l w cause) as [[l' w'] f]. destruct H as (H1 & H2 & H3 & _ & H5), Hw as [W1 W2]. specialize (H3 Hf). split; [constructor; [tauto|congruence|rewrite W1; intros p Hp; inversion Hp|rewrite W2; intros p Hp; inversion Hp]|]. split; [|exact W1]. apply grows_nobody; [unfold durable; rewrite H5; apply log_pos_le_refl|exact H1].
Qed.

Lemma flush_turn_part l w o g given : part l w o g given -> writer_ok w -> let '(o', (l', w', _)) := flush_turn l w o in exists g', part l' w' o' g' given /\ grows l l' g g' given.
Proof.
  intros P Hok. pose proof P as [Hf Hl Hp Hw]. unfold flush_turn. destruct (lg_terminal l) as [t|] eqn:Et.
  { assert (Hpe : w_pending w = []) by (apply (wk_fault _ Hok); intros X; apply Hf in X; discriminate). unfold flush. rewrite Hpe. cbn. exists g. split; [constructor; rewrite ?Et; assumption|]. apply grows_nobody; [apply log_pos_le_refl|now apply answers_same]. }
  pose proof (Hl eq_refl) as HL. pose proof (flush_data l w o g HL Hok Hw) as H. assert (Hfn : w_fault w = None) by now apply Hf.
  assert (Hok1 : let '(_, (_, w1, _)) := flush l w o in writer_ok w1 /\ (w_pending w1 = [] -> w_waiters w1 = [])).
  { destruct Hok as [K1 K2 K3]. unfold flush. destruct (_ =? 0); [split; [constructor; assumption|exact K2]|]. destruct (appendEncoded _ _ _ o) as [o1 [s|e]]; [|split; [constructor; assumption|exact K2]]. unfold flush_sync. destruct (w_needSync (bump_writes w)) eqn:En; [|split; [constructor; auto|auto]].
    destruct (segment_sync _ o1) as [o2 [u|e]]; [split; [constructor; auto|auto]|split; [constructor; assumption|exact K2]]. }
  destruct (flush l w o) as [o1 [[l1 w1] [e|]]]; destruct H as [Hd H], Hok1 as [Hok1 Hwp].
  - destruct H as (Ha & Ht1 & Hf1). pose proof (poison_part l1 w1 e o1 g given ltac:(tauto) Hok1) as Hpo. destruct (poison l1 w1 e) as [[l2 w2] fl] eqn:Ep. destruct Hpo as (P1 & P2 & _). exists g. split; [exact P1|]. refine (growth_trans _ l1 _ _ _ _ _ _ (grows_nobody _ _ _ _ Hd Ha) P2). pose proof (heap_le_poison l1 w1 e) as Hle. rewrite Ep in Hle. exact Hle.
  - destruct H as (Hpe & (g' & HL' & Hext) & Ha). specialize (Hwp Hpe). exists g'. split.
    + destruct HL' as (e' & a' & f' & L'). destruct (lv_terminal _ _ _ _ _ _ _ L') as [T1 T2]. constructor; [tauto|intros _; exists e', a', f'; exact L'|rewrite Hpe; intros p Hin; inversion Hin|rewrite Hwp; intros p Hin; inversion Hin].
    + constructor; [exact Hext|exact Hd|]. eapply answers_weaken; [|exact Ha]. intros q x (p & Hin & <- & <- & Hpos) r Er Hs. split; [|intros _; exact Hpos]. exists (pr_payload p). split; [apply Hp, Hw, Hin|]. apply (ex_holds _ _ Hext), (pending_holds _ _ _ _ _ HL), Hw, Hin.
Qed.

Lemma stage_part l w q r ctxErr o g given : part l w o g given -> writer_ok w -> lg_terminal l = None -> lg_heap l !! q = Some r -> given !! q = Some (rq_payload r) -> proper l (rq_payload r) (rq_physical r) ->
  (w_pending w = [] \/ rq_physical r <= remainingLocked (active_of l w) - w_bytes w) ->
  let '(o', (l', w', ok)) := stage l w q ctxErr o in exists g', part l' w' o' g' given /\ grows l l' g g' given.
Proof.
  intros [Hf Hl Hp Hw] Hok Ht Er Hg Hpr Hfit. pose proof (stage_data l w q r ctxErr o g (Hl Ht) Er Hpr Hfit) as H. assert (Hpoi : let '(_, (_, w', ok)) := stage l w q ctxErr o in w_fault w' <> None -> w_pending w' = [] /\ w_waiters w' = []).
  { unfold stage. rewrite Er. destruct ctxErr; [intros X; exfalso; apply X, Hf, Ht|]. pose proof (stage_rotate_books l w r o) as Hb. destruct (stage_rotate l w r o) as [o1 [[l1 w1] failed]]. destruct Hb as (_ & _ & _ & _ & (loc & ->) & _).
    assert (Hrp : forall e, let '(_, w2) := reject_poisoned l1 (set_writer_active w loc) q e in w_fault w2 <> None -> w_pending w2 = [] /\ w_waiters w2 = []).
    { intros e. unfold reject_poisoned, poison. cbn [set_writer_active w_fault]. assert (Hn : w_fault w = None) by now apply Hf. rewrite Hn. destruct (setTerminal l1 e). auto. }
    destruct failed as [e|]; [specialize (Hrp e); destruct (reject_poisoned _ _ _ _); exact Hrp|]. destruct (place_record _ _ r) as [[[a b] c]|e]; [|specialize (Hrp e); destruct (reject_poisoned _ _ _ _); exact Hrp]. intros X. exfalso. apply X. cbn. now apply Hf. }
  pose proof (heap_le_stage l w q ctxErr o) as Hle. destruct (stage l w q ctxErr o) as [o' [[l' w'] ok]]. cbn [fst snd] in Hle. destruct H as [Hd H]. destruct ok.
  - destruct H as (g' & p & [S1 S2 (S3 & S4 & S5) S6 S7 S8]). pose proof S1 as (e' & a' & f' & L'). destruct (lv_terminal _ _ _ _ _ _ _ L') as [T1 T2]. exists g'. split.
    + constructor; [tauto|auto| |].
      * rewrite S3. intros p' Hin. apply elem_of_app in Hin as [Hin|Hin]; [auto|]. apply list_elem_of_singleton in Hin as ->. congruence.
      * rewrite S3, S6. intros p' Hin. apply elem_of_app. destruct (rq_sync r); [|left; auto]. apply elem_of_app in Hin as [Hin|Hin]; [left; auto|right; exact Hin].
    + constructor; [exact S2|exact Hd|]. intros q0 r' x Er' Ex. destruct (S8 q0 r' x Er' Ex) as [H|(-> & -> & Hns)]; [left; exact H|right]. intros r0 Er0 Hs0. split; [exists (pr_payload p); split; [congruence|exact S7]|]. intros Hsy. destruct (hl_heap _ _ Hle q r Er) as (r1 & E1 & [(_ & _ & Y) _ _]). congruence.
  - destruct H as [Ha [[HL' ->]|[H1 H2]]]; exists g; (split; [|now apply grows_nobody]).
    + destruct HL' as (e' & a' & f' & L'). destruct (lv_terminal _ _ _ _ _ _ _ L') as [T1 T2]. constructor; [tauto|intros _; exists e', a', f'; exact L'|exact Hp|exact Hw].
    + destruct (Hpoi H1) as [W1 W2]. constructor; [tauto|congruence|rewrite W1; intros p Hin; inversion Hin|rewrite W2; intros p Hin; inversion Hin].
Qed.

(** ** The turns *)

Lemma part_of W g : world_data W g -> part (wd_log W) (wd_writer W) (wd_os W) g (wd_given W).
Proof. intros []. now constructor. Qed.

Lemma data_of W g l' w' o' pc g' : world_ok W -> world_data W g -> turn_ok W (after_turn W (o', (l', w', pc))) -> part l' w' o' g' (wd_given W) -> grows (wd_log W) l' g g' (wd_given W) ->
  world_data (after_turn W (o', (l', w', pc))) g' /\ extends g g'.
Proof. intros Hw Hd Ht [] []. split; [|assumption]. now apply (turn_data_intro W g). Qed.

(** The request in hand. *)
Lemma asked_in_hand W g q : world_ok W -> world_data W g -> q ∈ queued (wd_log W) (wd_writer W) -> is_stop (wd_log W) q = false ->
  exists r, lg_heap (wd_log W) !! q = Some r /\ wd_given W !! q = Some (rq_payload r) /\ proper (wd_log W) (rq_payload r) (rq_physical r).
Proof.
  intros Hw Hd Hq Hs. destruct (wa_asked _ _ Hd q) as (r & Er & [Hr|[H1 H2]]); [apply elem_of_app; now right| |eauto]. unfold is_stop in Hs. rewrite Er in Hs. congruence.
Qed.

Lemma stop_part l w q r o g given : part l w o g given -> writer_ok w -> lg_heap l !! q = Some r -> rq_stop r = true -> w_waiters w = [] -> let '(o', (l', w')) := stop l w q o in part l' w' o' g given /\ grows l l' g g given.
Proof.
  intros P Hok Er Hst Hwt. pose proof P as [Hf Hl Hp Hw]. assert (Hkeep : forall l x, lg_terminal (complete l q x) = lg_terminal l /\ lg_registry (complete l q x) = lg_registry l /\ lg_pending (complete l q x) = lg_pending l /\ lg_status (complete l q x) = lg_status l /\ lg_maxPayloadBytes (complete l q x) = lg_maxPayloadBytes l) by (intros l0 x; unfold complete; destruct (lg_heap l0 !! q) as [y|]; [destruct (rq_completed y)|]; auto).
  unfold stop. destruct (w_fault w) as [f|] eqn:Ef.
  - destruct (Hkeep l (Err f)) as (K1 & K2 & K3 & K4 & K5). split; [constructor; rewrite ?K1, ?Ef; auto; intros X; apply Hf in X; discriminate|]. apply grows_nobody; [unfold durable; rewrite K4; apply log_pos_le_refl|]. apply answers_complete. discriminate.
  - assert (Ht : lg_terminal l = None) by now apply Hf. destruct (sync_refault (active_of l w) o) as [fs Es]. destruct (segment_sync (active_of l w) o) as [o1 [u|e]]; cbn [fst] in Es; subst o1.
    + destruct (lives_synced l w o g fs (Hl Ht)) as [HL Hd]. set (l1 := count_sync l (bump_syncs w)) in *. set (zero := Ok (mkAppend 0 (mkPos 0 0))). destruct (Hkeep l1 zero) as (K1 & K2 & K3 & K4 & K5). split.
      * constructor; [rewrite K1; cbn; tauto|intros _; apply (lives_log l1 _ (bump_syncs w) (bump_syncs w)); auto|exact Hp|exact Hw].
      * constructor; [reflexivity|unfold durable in *; rewrite K4; exact Hd|]. eapply (answers_weaken _ _ (fun q' _ => q' = q)); [|intros q' r' x E' Ex; exact (answers_complete l1 q zero (fun q' _ => q' = q) (fun _ _ => eq_refl) q' r' x E' Ex)].
        intros q' x -> r0 E0 Hs. destruct (hl_heap _ _ (heap_le_complete l1 q zero) q r Er) as (r1 & E1 & [(Y & _) _ _]). congruence.
    + pose proof (poison_part l w e (refault o fs) g given ltac:(rewrite Ef; tauto) Hok) as Hpo. destruct (poison l w e) as [[l2 w2] f]. destruct Hpo as ([Q1 Q2 Q3 Q4] & [G1 G2 G3] & _). destruct (Hkeep l2 (Err f)) as (K1 & K2 & K3 & K4 & K5). split.
      * constructor; [rewrite K1; exact Q1| |exact Q3|exact Q4]. rewrite K1. intros X. apply (lives_log l2 _ w2 w2); auto.
      * apply (growth_trans l l2 _ g g g); [apply heap_le_complete|constructor; assumption|]. apply grows_nobody; [unfold durable; rewrite K4; apply log_pos_le_refl|]. apply answers_complete. discriminate.
Qed.

Lemma idle_turn_data W ctxErr x g : world_ok W -> wd_pc W = WIdle -> world_data W g -> idle_turn (wd_log W) (wd_writer W) ctxErr (wd_os W) = Some x -> exists g', world_data (after_turn W x) g' /\ extends g g'.
Proof.
  intros Hw Hpc Hd E. pose proof (idle_turn_ok W ctxErr x Hw Hpc E) as Hturn. pose proof (wo_writer _ Hw) as Hat. pose proof (writer_at_idle _ _ Hat ltac:(rewrite Hpc; discriminate)) as Hwt. destruct Hat as [Hok Hid _]. specialize (Hid ltac:(rewrite Hpc; discriminate)).
  unfold idle_turn in E. destruct (nextRequest (wd_log W) (wd_writer W)) as [[[l1 w1] q]|] eqn:En; [|discriminate].
  assert (Hn : q ∈ queued (wd_log W) (wd_writer W) /\ (l1 = wd_log W \/ exists rest, l1 = set_requests (wd_log W) rest) /\ (w1 = wd_writer W \/ w1 = set_deferred (wd_writer W) None)).
  { unfold nextRequest in En. unfold queued. destruct (w_deferred (wd_writer W)) as [d|] eqn:Ed; [injection En as <- <- <-; cbn; split; [now left|auto]|]. destruct (lg_requests (wd_log W)) as [|q' rest] eqn:Er; [discriminate|]. injection En as <- <- <-. cbn. split; [now left|eauto]. }
  destruct Hn as (Hq & Hl1 & Hw1). assert (Hp1 : part l1 w1 (wd_os W) g (wd_given W)).
  { destruct (part_of W g Hd) as [P1 P2 P3 P4]. destruct Hl1 as [-> |[rest ->]], Hw1 as [-> | ->]; constructor; auto; intros X; apply (lives_log (wd_log W) _ (wd_writer W) _); auto. }
  assert (Hh1 : lg_heap l1 = lg_heap (wd_log W) /\ durable l1 = durable (wd_log W) /\ lg_maxPayloadBytes l1 = lg_maxPayloadBytes (wd_log W)) by (destruct Hl1 as [-> |[rest ->]]; auto). destruct Hh1 as (B1 & B2 & B3).
  assert (Hok1 : writer_ok w1 /\ w_pending w1 = [] /\ w_waiters w1 = []) by (destruct Hok; destruct Hw1 as [-> | ->]; (split; [constructor; assumption|auto])). destruct Hok1 as (V1 & V2 & V3).
  assert (Hg0 : grows (wd_log W) l1 g g (wd_given W)) by (apply grows_nobody; [rewrite B2; apply log_pos_le_refl|now apply answers_same]).
  assert (Hs1 : is_stop (wd_log W) q = is_stop l1 q) by (unfold is_stop; now rewrite B1). injection E as Ex.
  assert (Hfin : forall l' w' o' pc g', (o', (l', w', pc)) = x -> heap_le l1 l' -> part l' w' o' g' (wd_given W) -> grows l1 l' g g' (wd_given W) -> exists g', world_data (after_turn W x) g' /\ extends g g').
  { intros l' w' o' pc g' <- Hle Hp Hg. exists g'. apply (data_of W g); auto. exact (growth_trans _ l1 _ _ _ _ _ Hle Hg0 Hg). }
  destruct (ac_unstaged _ _ _ _ (wo_books _ Hw) q ltac:(apply elem_of_app; now right)) as (r & Er & Hr). assert (Er1 : lg_heap l1 !! q = Some r) by congruence.
  destruct (is_stop l1 q) eqn:Es.
  - assert (Hst : rq_stop r = true) by (unfold is_stop in Es; now rewrite Er1 in Es). pose proof (stop_part l1 w1 q r (wd_os W) g (wd_given W) Hp1 V1 Er1 Hst V3) as H. pose proof (heap_le_stop l1 w1 q (wd_os W)) as Hle.
    destruct (stop l1 w1 q (wd_os W)) as [o' [l' w']]. destruct H as [H1 H2]. exact (Hfin l' w' o' WStopped g Ex Hle H1 H2).
  - destruct (w_fault w1) as [f|] eqn:Ef.
    + apply (Hfin (reject l1 q f) w1 (wd_os W) WIdle g Ex (heap_le_reject l1 q f)); [|apply grows_nobody; [unfold durable; rewrite reject_status; apply log_pos_le_refl|apply answers_reject]].
      destruct Hp1 as [P1 P2 P3 P4]. constructor; rewrite ?reject_terminal; auto. intros X. apply P1 in X. congruence.
    + destruct (asked_in_hand W g q Hw Hd Hq Hs1) as (r0 & E0 & Hg & Hpr). assert (r0 = r) by congruence. subst r0. assert (Hpr1 : proper l1 (rq_payload r) (rq_physical r)) by (destruct Hpr; constructor; [assumption..|rewrite B3; assumption]).
      assert (Ht1 : lg_terminal l1 = None) by now apply (pa_fault _ _ _ _ _ Hp1). pose proof (stage_part l1 w1 q r ctxErr (wd_os W) g (wd_given W) Hp1 V1 Ht1 Er1 Hg Hpr1 ltac:(now left)) as H. pose proof (heap_le_stage l1 w1 q ctxErr (wd_os W)) as Hle.
      destruct (stage l1 w1 q ctxErr (wd_os W)) as [o' [[l' w'] ok]]. destruct H as (g' & H1 & H2). exact (Hfin l' w' o' _ g' Ex Hle H1 H2).
Qed.

Lemma collect_turn_data W ctxErr g : world_ok W -> wd_pc W = WCollect -> world_data W g -> exists g', world_data (after_turn W (collect_turn (wd_log W) (wd_writer W) ctxErr (wd_os W))) g' /\ extends g g'.
Proof.
  intros Hw Hpc Hd. pose proof (collect_turn_ok W ctxErr Hw Hpc) as Hturn. pose proof (wo_writer _ Hw) as [Hok _ Hfault]. specialize (Hfault Hpc). pose proof (part_of W g Hd) as Hp. assert (Ht : lg_terminal (wd_log W) = None) by now apply (wa_fault _ _ Hd).
  assert (Hfl : forall l w o g1, heap_le (wd_log W) l -> part l w o g1 (wd_given W) -> writer_ok w -> grows (wd_log W) l g g1 (wd_given W) -> turn_ok W (after_turn W (flush_turn l w o)) ->
    exists g', world_data (after_turn W (flush_turn l w o)) g' /\ extends g g').
  { intros l w o g1 Hle P O G E. pose proof (flush_turn_part l w o g1 (wd_given W) P O) as H. pose proof (heap_le_flush_turn l w o) as Hle2. destruct (flush_turn l w o) as [o' [[l' w'] pc]]. destruct H as (g' & H1 & H2). exists g'. apply (data_of W g); auto. exact (growth_trans _ l _ _ _ _ _ Hle2 G H2). }
  assert (Hg0 : forall l, lg_heap l = lg_heap (wd_log W) -> lg_status l = lg_status (wd_log W) -> grows (wd_log W) l g g (wd_given W)) by (intros l E1 E2; apply grows_nobody; [unfold durable; rewrite E2; apply log_pos_le_refl|now apply answers_same]).
  revert Hturn. unfold collect_turn. destruct (_ && _); [|exact (Hfl _ _ _ g (reflexivity _) Hp Hok (Hg0 _ eq_refl eq_refl))]. destruct (lg_requests (wd_log W)) as [|q rest] eqn:Er; [exact (Hfl _ _ _ g (reflexivity _) Hp Hok (Hg0 _ eq_refl eq_refl))|].
  set (l1 := set_requests (wd_log W) rest). assert (Hle1 : heap_le (wd_log W) l1) by now apply heap_le_same.
  assert (Hp1 : forall d, part l1 (set_deferred (wd_writer W) d) (wd_os W) g (wd_given W)) by (intros d; destruct Hp as [P1 P2 P3 P4]; constructor; auto; intros X; apply (lives_log (wd_log W) _ (wd_writer W) _); auto).
  destruct (is_stop l1 q || negb (canStage l1 (wd_writer W) q)) eqn:Ec.
  - refine (Hfl _ _ _ g Hle1 (Hp1 (Some q)) _ (Hg0 l1 eq_refl eq_refl)). destruct Hok. constructor; assumption.
  - apply orb_false_iff in Ec as [Es Ec]. apply negb_false_iff in Ec. assert (Hq : q ∈ queued (wd_log W) (wd_writer W)) by (unfold queued; rewrite Er; apply elem_of_app; right; now left).
    destruct (asked_in_hand W g q Hw Hd Hq Es) as (r & E0 & Hg & Hpr). assert (Hfit : rq_physical r <= remainingLocked (active_of l1 (wd_writer W)) - w_bytes (wd_writer W)).
    { unfold canStage in Ec. change (lg_heap l1) with (lg_heap (wd_log W)) in Ec. rewrite E0 in Ec. destruct (_ || _); [discriminate|]. destruct (_ && _) in Ec; [discriminate|]. apply andb_true_iff in Ec as [_ Ec]. now apply Z.leb_le in Ec. }
    assert (Hp1' : part l1 (wd_writer W) (wd_os W) g (wd_given W)) by (destruct Hp as [P1 P2 P3 P4]; constructor; auto; intros X; apply (lives_log (wd_log W) _ (wd_writer W) _); auto).
    assert (Hpr1 : proper l1 (rq_payload r) (rq_physical r)) by (destruct Hpr; constructor; assumption). pose proof (stage_part l1 (wd_writer W) q r ctxErr (wd_os W) g (wd_given W) Hp1' Hok Ht E0 Hg Hpr1 (or_intror Hfit)) as H. pose proof (heap_le_stage l1 (wd_writer W) q ctxErr (wd_os W)) as Hle.
    assert (Hok2 : let '(_, (_, w', _)) := stage l1 (wd_writer W) q ctxErr (wd_os W) in writer_ok w').
    { assert (Ha1 : accounted l1 (q :: wd_held W ++ rest) (waiters (wd_writer W)) (wd_gone W)). { apply (accounted_same (wd_log W)); try reflexivity. pose proof (wo_books _ Hw) as Ha. unfold queued in Ha. rewrite (wo_collect _ Hw Hpc), Er in Ha. rewrite app_assoc, <- Permutation_middle in Ha. rewrite app_nil_r in Ha. exact Ha. }
      pose proof (stage_books l1 (wd_writer W) q ctxErr (wd_os W) _ _ Ha1 Hok Hfault) as Hb. destruct (stage l1 _ q ctxErr _) as [o' [[l' w'] ok]]. apply Hb. }
    destruct (stage l1 (wd_writer W) q ctxErr (wd_os W)) as [o' [[l' w'] ok]]. destruct H as (g' & H1 & H2). cbn [fst snd] in Hle. assert (Hle2 : heap_le (wd_log W) l') by exact (transitivity Hle1 Hle). pose proof (growth_trans _ l1 _ _ _ _ _ Hle (Hg0 l1 eq_refl eq_refl) H2) as Hg2.
    destruct (negb ok && bool_decide (is_Some (w_fault w'))); [exact (Hfl _ _ _ g' Hle2 H1 Hok2 Hg2)|]. intros Hturn. exists g'. now apply (data_of W g).
Qed.

(** ** The clients *)

Lemma client_data W g l held gone given stop : world_data W g -> heap_le (wd_log W) l -> lg_pending l = lg_pending (wd_log W) -> lg_status l = lg_status (wd_log W) -> lg_terminal l = lg_terminal (wd_log W) ->
  same_registry (lg_registry (wd_log W)) (lg_registry l) -> (heap_ok (lg_registry (wd_log W)) -> heap_ok (lg_registry l)) -> (forall q p, wd_given W !! q = Some p -> given !! q = Some p) -> (forall q, q ∈ held ++ queued l (wd_writer W) -> asked l given q) -> answers (wd_log W) l nobody -> (forall q, is_Some (given !! q) -> is_Some (lg_heap l !! q)) ->
  world_data (mkWorld l (wd_writer W) (wd_pc W) (wd_os W) held gone given stop) g.
Proof.
  intros [D1 D2 D3 D4 D5 D6 D7] Hle Hp Hs Ht Hr Hh Hg Hq Ha Hgi. pose proof (hl_fixed _ _ Hle) as F. injection F as _ _ F. constructor; cbn [wd_log wd_writer wd_os wd_held wd_given]; try assumption.
  - now rewrite Ht.
  - rewrite Ht. intros X. destruct (D2 X) as (e & a & f & L). destruct (lv_entry _ _ _ _ _ _ _ L) as [E1 [E2 E3] [E4 E5] E6]. destruct (same_registry_entry _ _ _ _ _ Hr E1) as (e' & E1' & (S1 & S2 & S3)). destruct Hr as [(R1 & R2 & R3 & R4) R5]. exists e', a, f. destruct L. constructor; rewrite ?Hp, ?Hs, ?Ht; auto.
    + constructor; [exact E1'|split; congruence|split; congruence|rewrite R1; exact E6].
    + destruct lv_clean as [C1 C2 C3]. constructor; [exact C1|rewrite R1; exact C2|exact C3].
    + intros i rs Hi. destruct (lv_sealed i rs Hi) as [(l0 & e0 & s & f0 & h & rest & T1 & T2 & T3 & T4 & T5 & T6) Hne]. split; [|exact Hne]. specialize (R5 l0). rewrite T2 in R5. inversion R5 as [? e1 (U1 & U2 & U3) X1 X2|]; subst. exists l0, e1, s, f0, h, rest. rewrite R1, U1, U2, U3. do 5 (split; [now auto|]). exact T6.
    + congruence.
  - intros p Hin. apply Hg. auto.
  - intros q r' x Er Ex. destruct (Ha q r' x Er Ex) as [(r & Er0 & Ex0)|[]]. assert (Hd : durable l = durable (wd_log W)) by (unfold durable; congruence). pose proof (backed_le _ l _ _ g _ _ _ (D6 q r x Er0 Ex0) Hle Er0 (reflexivity _) ltac:(rewrite Hd; apply log_pos_le_refl)) as Hb.
    intros r1 Er1 Hs1. destruct (Hb r1 Er1 Hs1) as [(p & Hp1 & Hp2) Hsy]. split; [exists p; auto|exact Hsy].
Qed.

Lemma same_registry_refl r : same_registry r r.
Proof. constructor; [auto|]. intros x. destruct (rg_heap r !! x); constructor. repeat split. Qed.

Lemma asked_le l l' given given' q : heap_le l l' -> (forall p, given !! q = Some p -> given' !! q = Some p) -> asked l given q -> (exists r', lg_heap l' !! q = Some r' /\ rq_reserved r' = false) -> asked l' given' q.
Proof.
  intros Hle Hg (r & Er & Hr) (r' & Er' & Hn). destruct (hl_heap _ _ Hle q r Er) as (r0 & E0 & [(S1 & S2 & _) _ S4]). assert (r0 = r') by congruence. subst r0. exists r'. split; [exact Er'|]. destruct (S4 Hn) as [_ S5]. pose proof (hl_fixed _ _ Hle) as F. injection F as _ _ F.
  destruct Hr as [Hr|[H1 []]]; [left; congruence|right]. rewrite S5, S2. split; [auto|]. constructor; [assumption..|lia].
Qed.

Lemma given_le l l' (given : gmap nat (list Z)) : heap_le l l' -> (forall q, is_Some (given !! q) -> is_Some (lg_heap l !! q)) -> forall q, is_Some (given !! q) -> is_Some (lg_heap l' !! q).
Proof. intros Hle H q Hq. destruct (H q Hq) as [r Er]. destruct (hl_heap _ _ Hle q r Er) as (r' & Er' & _). eauto. Qed.

Lemma world_step_data W W' g : world_ok W -> world_data W g -> world_step W W' -> exists g', world_data W' g' /\ extends g g'.
Proof.
  intros Hw Hd Hs. destruct (world_step_ok W W' Hw Hs) as [Hw' Hle']. pose proof (wo_books _ Hw) as Ha. pose proof (ac_fresh _ _ _ _ Ha) as Hf.
  assert (Hold : forall q, q ∈ wd_held W' ++ queued (wd_log W') (wd_writer W') -> exists r', lg_heap (wd_log W') !! q = Some r' /\ rq_reserved r' = false) by (intros q Hq; destruct (ac_unstaged _ _ _ _ (wo_books _ Hw') q Hq) as (r' & Er' & [(F & _) _]); eauto).
  destruct Hs as [W payload sync l q Hb E|W held q Hp|W held q l Hp Hc E|W Hc|W l q l' Hc Hst En Es|W id r p E|W p r q E|W ctxErr W' E]; cbn [wd_log wd_held wd_writer with_log] in *; [exists g; split; [|reflexivity] ..|].
  - apply acquire_parts in E as (physical & b & Ep & Emax & Eb & En). destruct (heap_le_new _ _ _ _ _ Hf Eb En) as (_ & Eq & Enone). injection En as El Eqq. assert (Hq : queued l (wd_writer W) = queued (wd_log W) (wd_writer W)) by (rewrite <- El; reflexivity).
    assert (Hgi : forall q0 p0, wd_given W !! q0 = Some p0 -> <[q := payload]> (wd_given W) !! q0 = Some p0) by (intros q0 p0 H0; rewrite lookup_insert_ne; [exact H0|]; intros <-; destruct (wa_given _ _ Hd q ltac:(eauto)); congruence).
    apply client_data; auto; try (rewrite <- El; reflexivity); [rewrite <- El; apply same_registry_refl|rewrite <- El; auto| | |].
    + intros q0 Hq0. cbn in Hq0. apply elem_of_cons in Hq0 as [->|Hq0]; [exists (mkRequest payload physical sync physical false false false None None); split; [exact Eq|]; right; rewrite lookup_insert_eq; split; [reflexivity|]; constructor; [exact Hb|exact Ep|]; rewrite <- El; exact Emax|].
      rewrite Hq in Hq0. exact (asked_le _ _ _ _ _ Hle' (Hgi q0) (wa_asked _ _ Hd q0 Hq0) (Hold q0 ltac:(cbn; right; rewrite Hq; exact Hq0))).
    + rewrite <- El. intros q0 r' x Er Ex. cbn in Er. apply lookup_insert_Some in Er as [[<- <-]|[_ Er]]; [discriminate|eauto].
    + intros q0 Hq0. destruct (decide (q0 = q)) as [->|Hne]; [eauto|]. rewrite lookup_insert_ne in Hq0 by congruence. destruct (wa_given _ _ Hd q0 Hq0) as [r Er]. destruct (hl_heap _ _ Hle' q0 r Er) as (r' & Er' & _). eauto.
  - assert (Hk : lg_pending (append_abandon (wd_log W) q) = lg_pending (wd_log W) /\ lg_status (append_abandon (wd_log W) q) = lg_status (wd_log W) /\ lg_terminal (append_abandon (wd_log W) q) = lg_terminal (wd_log W) /\ lg_registry (append_abandon (wd_log W) q) = lg_registry (wd_log W) /\ lg_requests (append_abandon (wd_log W) q) = lg_requests (wd_log W)) by (unfold append_abandon; destruct (lg_heap _ !! q); auto).
    destruct Hk as (K1 & K2 & K3 & K4 & K5). apply client_data; auto; [rewrite K4; apply same_registry_refl|now rewrite K4| | |exact (given_le _ _ _ Hle' (wa_given _ _ Hd))].
    + intros q0 Hq0. refine (asked_le _ _ _ _ _ Hle' (fun _ X => X) (wa_asked _ _ Hd q0 _) (Hold q0 Hq0)). unfold queued in *. rewrite K5 in Hq0. rewrite Hp. apply elem_of_app in Hq0 as [Hq0|Hq0]; apply elem_of_app; [left; now right|now right].
    + unfold append_abandon. destruct (lg_heap (wd_log W) !! q) as [r|] eqn:Er; [|now apply answers_same]. eapply answers_insert; [exact Er|reflexivity|now left].
  - apply send_parts in E as ->. apply client_data; auto; [apply same_registry_refl| |now apply answers_same|exact (wa_given _ _ Hd)]. intros q0 Hq0. refine (asked_le _ _ _ _ _ Hle' (fun _ X => X) (wa_asked _ _ Hd q0 _) (Hold q0 Hq0)). rewrite queued_send in Hq0. rewrite Hp. rewrite app_assoc, <- Permutation_cons_append in Hq0. exact Hq0.
  - apply client_data; auto; [apply same_registry_refl| |now apply answers_same|exact (wa_given _ _ Hd)]. intros q0 Hq0. exact (asked_le _ _ _ _ _ Hle' (fun _ X => X) (wa_asked _ _ Hd q0 Hq0) (Hold q0 Hq0)).
  - apply send_parts in Es as ->. destruct (heap_le_new (wd_log W) (lg_budget (wd_log W)) stop_request l q Hf eq_refl En) as (_ & Eq & Enone). injection En as El Eqq. apply client_data; auto; try (rewrite <- El; reflexivity); [rewrite <- El; apply same_registry_refl|rewrite <- El; auto| | |exact (given_le _ _ _ Hle' (wa_given _ _ Hd))].
    + intros q0 Hq0. destruct (decide (q0 = q)) as [->|Hne]; [exists stop_request; split; [exact Eq|now left]|]. refine (asked_le _ _ _ _ _ Hle' (fun _ X => X) (wa_asked _ _ Hd q0 _) (Hold q0 Hq0)). rewrite queued_send, app_assoc in Hq0. apply elem_of_app in Hq0 as [Hq0|Hq0]; [|apply list_elem_of_singleton in Hq0; congruence]. rewrite <- El in Hq0. exact Hq0.
    + rewrite <- El. intros q0 r' x Er Ex. cbn in Er. apply lookup_insert_Some in Er as [[<- <-]|[_ Er]]; [discriminate|eauto].
  - destruct (pin_same _ _ _ _ E) as (Hsame & _). apply client_data; auto; [intros X; exact (pin_heap_ok _ _ _ _ X E)| |now apply answers_same|exact (wa_given _ _ Hd)]. intros q0 Hq0. exact (asked_le _ _ _ _ _ Hle' (fun _ X => X) (wa_asked _ _ Hd q0 Hq0) (Hold q0 Hq0)).
  - pose proof (release_same _ _ _ _ E) as Hsame. apply client_data; auto; [intros X; exact (release_heap_ok _ _ _ _ X E)| |now apply answers_same|exact (wa_given _ _ Hd)]. intros q0 Hq0. exact (asked_le _ _ _ _ _ Hle' (fun _ X => X) (wa_asked _ _ Hd q0 Hq0) (Hold q0 Hq0)).
  - unfold writer_turn in E. destruct (wd_pc W) eqn:Hpc; [|injection E as <-; now apply collect_turn_data|discriminate]. destruct (idle_turn _ _ _ _) as [x|] eqn:Ei; [|discriminate]. injection E as <-. exact (idle_turn_data W ctxErr x g Hw Hpc Hd Ei).
Qed.
Lemma world_steps_data W W' g : world_ok W -> world_data W g -> rtc world_step W W' -> exists g', world_data W' g' /\ extends g g'.
Proof.
  intros Hw Hd Hs. revert g Hw Hd. induction Hs as [W|W1 W2 W3 Hs _ IH]; intros g Hw Hd; [exists g; split; [exact Hd|reflexivity]|].
  destruct (world_step_data _ _ _ Hw Hd Hs) as (g1 & Hd1 & He1). destruct (IH g1 (proj1 (world_step_ok _ _ Hw Hs)) Hd1) as (g2 & Hd2 & He2). exists g2. split; [exact Hd2|exact (transitivity He1 He2)].
Qed.

(** ** A log that is opened *)

(** The files, the catalog and the registry of a log at rest: [recs] in the active
    segment, [old] in the sealed ones. *)
Record log_at (s : LogSnapshot) (recs : list LogRecord) (old : gmap Z (list LogRecord)) (r : segmentRegistry) (a : activeSegment) (o : os lpath C) (l : nat) (e : registryEntry) (f : nat) : Prop := mkLogAt {
  la_catalog : lcatalog_at False s recs s (os_user o) /\ log_snapshot_valid s = true;
  la_recs : log_recs (old_header s) recs;
  la_entry : registered s r l a e /\ heap_ok r;
  la_object : rotating s recs a f /\ as_transferred a = false;
  la_files : fs_wf o /\ owns o (LActive (ls_ActiveSegmentID s)) f /\ bytes_of o f = log_image (old_header s) recs;
  la_clean : clean r o (ls_ActiveSegmentID s);
  la_sealed : forall i rs, old !! i = Some rs -> sealed_at r o i rs /\ i <> ls_ActiveSegmentID s;
}.

Lemma opened_data s recs old cfg a r o loc e f l w : log_at s recs old r a o loc e f -> newLog cfg (ls_MaxPayloadBytes s) a r = Ok (l, w) -> world_data (opened l w o) (mkGhost s old recs []).
Proof.
  intros [[A1 A2] A3 [A4 A5] A6 A7 A8 A9] E. pose proof A4 as [B1 [B2 B3] [B4 B5] _]. unfold newLog in E. inv_ok E. rewrite B4, B1 in E. inv_ok E. apply Ok_inj in E. injection E as <- <-.
  destruct A6 as [(C1 & C2 & C3 & C4) C5]. assert (Hid : sh_SegmentID (as_header a) = ls_ActiveSegmentID s) by (rewrite C2; reflexivity).
  constructor; cbn; try (intros q Hq; inversion Hq; fail); try tauto.
  - intros _. exists e, a, f. constructor; cbn; auto; [rewrite app_nil_r; exact A3|split; [|exact C5]; repeat (split; [assumption|]); exact C4| |apply log_pos_le_refl].
    unfold end_of. rewrite Hid. f_equal. pose proof (f_equal ds_ValidEnd C4) as X. exact X.
  - intros q r0 x Hq. rewrite lookup_empty in Hq. discriminate.
  - intros q Hq. rewrite lookup_empty in Hq. destruct Hq. discriminate.
Qed.
End World.

(** No pin count is at its bound. *)
Definition few_pins (r : segmentRegistry) : Prop := forall x e, rg_heap r !! x = Some e -> re_pins e < MaxUint64.

(** [Read] of [addr] returns [p]: at once, and when the segment is read later. *)
Definition reads {C} `{!LogPort C} (W : world C) (addr : Z) (p : list Z) : Prop :=
  (exists l, Log_Read (wd_log W) addr (wd_os W) = (wd_os W, (l, Ok p))) /\
  (read_pending (wd_log W) addr = Ok (Some p) \/ read_pending (wd_log W) addr = Ok None /\
    forall W', rtc world_step W W' -> lg_terminal (wd_log W') = None -> few_pins (lg_registry (wd_log W')) -> exists l, read_segment (wd_log W') addr (wd_os W') = (wd_os W', (l, Ok p))).

Lemma reads_held {C} `{!LogPort C} `{!LogPortLaws C} (W : world C) g rec : world_ok W -> world_data W g -> lg_terminal (wd_log W) = None -> lg_closing (wd_log W) = false -> few_pins (lg_registry (wd_log W)) -> holds g rec -> reads W (ar_Addr rec.1) rec.2.
Proof.
  intros Hw D Ht Hc Hp Hh. pose proof (wa_live _ _ D Ht) as HL. unfold reads, Log_Read. destruct (read_pending_ok _ _ _ _ _ HL Hc Hh) as [->|[-> Hwr]]; [eauto|].
  destruct (read_segment_ok _ _ _ _ _ HL Hp Hwr) as (r & _ & Er). split; [eauto|]. right. split; [reflexivity|]. intros W' Hs Ht' Hp'. destruct (world_steps_data _ _ _ Hw D Hs) as (g' & D' & Hext). destruct (read_segment_ok _ _ _ _ _ (wa_live _ _ D' Ht') Hp' (ex_written _ _ Hext _ Hwr)) as (r' & _ & Er'). eauto.
Qed.

(** C6: what was acknowledged can be read.  From a log at rest, whatever the
    clients, the writer, the readers and the disk did: while no failure has poisoned
    the log, the payload of an append that was answered with success is returned by
    [Read] of the answered address, also when the look at the buffer and the read of
    the segment are separated by any number of steps; an append that asked for a
    sync ends at or before the durable mark; and the records that were there when
    the log was opened are still read. *)
Theorem acknowledged_readable {C} `{!LogPort C} `{!LogPortLaws C} s recs old cfg a r (o : os lpath C) loc e f l w W :
  log_at s recs old r a o loc e f -> newLog cfg (ls_MaxPayloadBytes s) a r = Ok (l, w) -> 0 <= cf_MaxQueuedBytes cfg < two64 ->
  rtc world_step (opened l w o) W -> lg_terminal (wd_log W) = None -> lg_closing (wd_log W) = false -> few_pins (lg_registry (wd_log W)) ->
  (forall q rq x p, lg_heap (wd_log W) !! q = Some rq -> rq_stop rq = false -> wd_given W !! q = Some p -> rq_response rq = Some (Ok x) ->
    reads W (ar_Addr x) p /\ (rq_sync rq = true -> pos_le (ar_End x) (durable (wd_log W)))) /\
  (forall rec, rec ∈ recs \/ (exists i rs, old !! i = Some rs /\ rec ∈ rs) -> reads W (ar_Addr rec.1) rec.2).
Proof.
  intros Hat E Hm Hs Ht Hc Hp. destruct (opened_ok _ _ _ _ _ _ o E Hm) as [H0 _]. pose proof (opened_data _ _ _ _ _ _ _ _ _ _ _ _ Hat E) as D0. destruct (world_steps_data _ _ _ H0 D0 Hs) as (g & D & Hext). destruct (world_steps_ok _ _ H0 Hs) as [Hw _].
  assert (Hread : forall rec, holds g rec -> reads W (ar_Addr rec.1) rec.2) by (intros rec Hrec; now apply (reads_held W g)).
  split; [|intros rec Hrec; apply Hread, (ex_holds _ _ Hext); left; exact Hrec].
  intros q rq x p Eq Est Ep Ex. destruct (wa_answers _ _ D q rq x Eq Ex rq Eq Est) as [(p' & Ep' & Hh) Hsy]. assert (p' = p) by congruence. subst p'. split; [exact (Hread _ Hh)|exact Hsy].
Qed.
