(* ===== verification/LogCompaction.v ===== *)
(** * Outputs of data compactions and the removal of retired segments

    Models [internal/recordlog/compaction.go] and [retire.go]: the writer of
    compaction outputs, their registration, the removal of outputs that were never
    published, the retirement of a sealed segment and the crash-safe deletion of its
    file through the trash directory.  The writer is a pointer that its operations
    change also when they fail, so they return it together with the result. *)
From S2P Require Import Prelude Bytes Addr Crc32 RecordFormat Fs Catalog LogSegment LogRotate LogRegistry LogState.

(** ** The writer *)

Record CompactionWriter := mkCW
  { cw_maxPayloadBytes : Z; cw_ids : list Z; cw_used : nat; cw_active : option activeSegment; cw_summaries : list SegmentSummary; cw_closed : bool }.

(** [IsCompactionSegment(id)] for each of them, and each the one before plus one *)
Fixpoint consecutive_ids (previous : option Z) (ids : list Z) : bool :=
  match ids with
  | [] => true
  | id :: rest => IsCompactionSegment id && match previous with Some p => id =? (p + 1) mod two32 | None => true end && consecutive_ids (Some id) rest
  end.

Definition NewCompactionWriter (l : Log) (ids : list Z) : res CompactionWriter :=
  raise [recordlog_ErrInvalidConfig] when (len ids =? 0) ;;
  raise [recordlog_ErrInvalidConfig] when negb (consecutive_ids None ids) ;;
  Ok (mkCW (lg_maxPayloadBytes l) ids 0 None [] false).

Definition cw_with_active (w : CompactionWriter) (a : option activeSegment) : CompactionWriter := mkCW (cw_maxPayloadBytes w) (cw_ids w) (cw_used w) a (cw_summaries w) (cw_closed w).
Definition cw_with_summary (w : CompactionWriter) (s : SegmentSummary) : CompactionWriter := mkCW (cw_maxPayloadBytes w) (cw_ids w) (cw_used w) (cw_active w) (cw_summaries w ++ [s]) (cw_closed w).
Definition cw_use (w : CompactionWriter) : CompactionWriter := mkCW (cw_maxPayloadBytes w) (cw_ids w) (S (cw_used w)) (cw_active w) (cw_summaries w) (cw_closed w).
Definition cw_close (w : CompactionWriter) : CompactionWriter := mkCW (cw_maxPayloadBytes w) (cw_ids w) (cw_used w) (cw_active w) (cw_summaries w) true.

Section Compaction.
Context {C : Type} `{!LogPort C}.
Abbreviation lio := (io lpath C).

(** The writer after a call, with what the call returned. *)
Definition wio (A : Type) : Type := CompactionWriter -> os lpath C -> os lpath C * (CompactionWriter * res A).

(** The active output is sealed and its descriptor closed. *)
Definition seal_output : wio unit := fun w o =>
  match cw_active w with
  | None => (o, (w, Ok tt))
  | Some active =>
      match seal active o with
      | (o, Err e) => (o, (w, Err e))
      | (o, Ok (active, sealed, summary)) =>
          let w := cw_with_summary (cw_with_active w (Some active)) summary in
          match sealed_close sealed o with
          | (o, (_, Some e)) => (o, (w, Err e))
          | (o, (_, None)) => (o, (cw_with_active w None, Ok tt))
          end
      end
  end.

Definition cw_rotate : wio unit := fun w o =>
  match seal_output w o with
  | (o, (w, Err e)) => (o, (w, Err e))
  | (o, (w, Ok _)) =>
      match cw_ids w !! cw_used w with
      | None => (o, (w, Err [recordlog_ErrInvalidConfig]))
      | Some id =>
          let w := cw_use w in
          let snapshot := lp_Snapshot (os_user o) in
          let header := mkSegmentHeader (ls_LogID snapshot) id ((id - 1) mod two32) (ls_SegmentSize snapshot) in
          match createActiveSegment header o with
          | (o, Err e) => (o, (w, Err e))
          | (o, Ok active) => (o, (cw_with_active w (Some active), Ok tt))
          end
      end
  end.

(** The record behind the end of the active output. *)
Definition output_record (active : activeSegment) (physical : Z) (payload : list Z) : res (AppendResult * list Z) :=
  let start := ds_ValidEnd (summaryLocked active) in
  let! addr := NewVAddr (sh_SegmentID (as_header active)) start physical in
  let! result := NewAppendResult addr physical in
  let! encoded := EncodeRecord addr payload in
  Ok (result, encoded).

Definition needs_rotation (w : CompactionWriter) (physical : Z) : bool :=
  match cw_active w with None => true | Some active => remainingLocked active <? physical end.

(** [Append]; [ctxErr] is what its context says. *)
Definition cw_Append (ctxErr : option goerror) (payload : list Z) : wio AppendResult := fun w o =>
  if cw_closed w then (o, (w, Err [recordlog_ErrClosed]))
  else match ctxErr with
  | Some e => (o, (w, Err e))
  | None =>
      if cw_maxPayloadBytes w <? len payload then (o, (w, Err [recordlog_ErrPayloadTooBig]))
      else match PhysicalRecordSize (len payload) with
      | Err e => (o, (w, Err e))
      | Ok physical =>
          match (if needs_rotation w physical then cw_rotate w o else (o, (w, Ok tt))) with
          | (o, (w, Err e)) => (o, (w, Err e))
          | (o, (w, Ok _)) =>
              match cw_active w with
              | None => (o, (w, Err [recordlog_ErrInvalidConfig]))
              | Some active =>
                  match output_record active physical payload with
                  | Err e => (o, (w, Err e))
                  | Ok (result, encoded) =>
                      match appendEncoded active encoded [mkExtent result physical] o with
                      | (o, Err e) => (o, (w, Err e))
                      | (o, Ok active) => (o, (cw_with_active w (Some active), Ok result))
                      end
                  end
              end
          end
      end
  end.

Definition cw_Finish : wio (list SegmentSummary) := fun w o =>
  if cw_closed w then (o, (w, Err [recordlog_ErrClosed]))
  else match seal_output w o with
  | (o, (w, Err e)) => (o, (w, Err e))
  | (o, (w, Ok _)) => let w := cw_close w in (o, (w, Ok (cw_summaries w)))
  end.

Definition cw_Abort : wio unit := fun w o =>
  if cw_closed w then (o, (w, Ok tt))
  else
    let w := cw_close w in
    match cw_active w with
    | None => (o, (w, Ok tt))
    | Some active => let '(o, (_, e)) := active_close active o in (o, (cw_with_active w None, match e with Some e => Err e | None => Ok tt end))
    end.

(** ** Registration and removal *)

Fixpoint open_outputs (snapshot : LogSnapshot) (summaries : list SegmentSummary) (opened : list sealedSegment) : lio (list sealedSegment) := fun o =>
  match summaries with
  | [] => (o, Ok opened)
  | x :: rest =>
      if negb (IsCompactionSegment (ds_SegmentID x)) then (o, Err [recordlog_ErrInvalidConfig])
      else match openSealedSegment (log_headerFor snapshot (ds_SegmentID x)) x o with
      | (o, Err e) => let '(o, _) := close_all_sealed opened o in (o, Err e)
      | (o, Ok segment) => open_outputs snapshot rest (opened ++ [segment]) o
      end
  end.

Definition RegisterCompactionOutputs (l : Log) (summaries : list SegmentSummary) (o : os lpath C) : os lpath C * (Log * res unit) :=
  if len summaries =? 0 then (o, (l, Err [recordlog_ErrInvalidConfig]))
  else match open_outputs (lp_Snapshot (os_user o)) summaries [] o with
  | (o, Err e) => (o, (l, Err e))
  | (o, Ok opened) =>
      match publishSealed (lg_registry l) opened with
      | Ok r => (o, (set_registry l r, Ok tt))
      | Err e => let '(o, _) := close_all_sealed opened o in (o, (l, Err e))
      end
  end.

(** The three names of each output; the errors are collected. *)
Definition remove_output (id : Z) : lio goerror := fun o =>
  foldl (fun '(o, r) p =>
           match ignore_missing (fs_remove p) o with
           | (o, Ok _) => (o, r)
           | (o, Err e) => (o, match r with Ok es => Ok (es ++ e) | Err x => Err x end)
           end) (o, Ok []) [LCreating id; LActive id; LSealed id].

Fixpoint remove_outputs (ids : list Z) (errs : goerror) : lio goerror := fun o =>
  match ids with
  | [] => (o, Ok errs)
  | id :: rest =>
      if negb (IsCompactionSegment id) then (o, Err [recordlog_ErrInvalidConfig])
      else match remove_output id o with
      | (o, Ok es) => remove_outputs rest (errs ++ es) o
      | (o, Err e) => (o, Err e)
      end
  end.

Definition RemoveUnpublishedCompactionFiles (ids : list Z) : lio unit := fun o =>
  match remove_outputs ids [] o with
  | (o, Err e) => (o, Err e)
  | (o, Ok errs) =>
      match syncDir o with
      | (o, Ok _) => (o, if len errs =? 0 then Ok tt else Err errs)
      | (o, Err e) => (o, Err (errs ++ e))
      end
  end.

(** The same before the log is open. *)
Definition CleanupUnpublishedCompactionFiles (ids : list Z) : lio unit := RemoveUnpublishedCompactionFiles ids.

(** ** Retired segments *)

(** [ensureTrashDirectory].  The disk has files and no directories, so whether the
    directory is there is not a state: the calls are those of the path that makes it,
    [mkdir], the hook and the sync of the root; the other path, [mkdir] that finds it and
    [lstat], can stop at no other file state.  A file of that name is not modelled. *)
Definition ensureTrashDirectory : lio unit := run fs_point ;; run hitSegmentFault ;; syncDir.

Definition cleanupRetiredSegment (id : Z) : lio unit :=
  run ensureTrashDirectory ;;
  let* sourceExists := fs_exists (LSealed id) in
  let* destinationExists := fs_exists (LTrash id) in
  if sourceExists && destinationExists then io_fail [recordlog_ErrCorrupt]
  else
    run (if sourceExists : bool then run hitSegmentFault ;; fs_rename (LSealed id) (LTrash id) else io_ret tt) ;;
    if sourceExists || destinationExists then
      run hitSegmentFault ;; run syncDir ;;
      run hitSegmentFault ;; run syncDir ;;
      run hitSegmentFault ;; run fs_remove (LTrash id) ;;
      run hitSegmentFault ;; syncDir
    else io_ret tt.

Definition CleanupRetiredSegment (id catalogGeneration : Z) : lio unit :=
  if (id =? 0) || (catalogGeneration =? 0) then io_fail [recordlog_ErrInvalidConfig] else cleanupRetiredSegment id.

(** *** [RetireSegment] *)

(** [catalog.RemoveRecordLogSegment]: minimum generation and sealed segment *)
Definition remover : Type := C -> list fault -> Z -> SegmentSummary -> C * list fault * res LogSnapshot.

(** Up to the wait for the readers; the snapshot and the summary are kept. *)
Definition retire_begin (l : Log) (id minimumGeneration : Z) (o : os lpath C) : Log * res (LogSnapshot * SegmentSummary) :=
  let snapshot := lp_Snapshot (os_user o) in
  if (ls_Generation snapshot <? minimumGeneration) || (ls_ActiveSegmentID snapshot =? id) then (l, Err [recordlog_ErrInvalidConfig])
  else match sealedSummary snapshot id with
  | None => (l, Err [recordlog_ErrSegmentMissing])
  | Some summary => match beginRetire (lg_registry l) id with Ok r => (set_registry l r, Ok (snapshot, summary)) | Err e => (l, Err e) end
  end.

(** The deferred [cancelRetire]. *)
Definition retire_cancel (l : Log) (id : Z) : Log := match cancelRetire (lg_registry l) id with Ok r => set_registry l r | Err _ => l end.

Definition terminal_error (l : Log) (e : goerror) : Log * attempt unit := let '(l, t) := setTerminal l e in (l, Return (Err t)).

(** The rest; [ctxErr] is what the context says while the readers drain. *)
Definition retire_rest (remove : remover) (ctxErr : option goerror) (l : Log) (id minimumGeneration : Z) (snapshot : LogSnapshot) (summary : SegmentSummary) (o : os lpath C) : os lpath C * (Log * attempt unit) :=
  match waitNoReaders (lg_registry l) id, ctxErr with
  | Return (Err e), _ => (o, (retire_cancel l id, Return (Err e)))
  | Wait _, Some e => (o, (retire_cancel l id, Return (Err e)))
  | Wait c, None => (o, (l, Wait c))
  | Return (Ok _), _ =>
      let '(c, fs, r) := remove (os_user o) (os_faults o) minimumGeneration summary in
      let o := mkOs (os_names o) (os_data o) (os_next o) fs c in
      match r with
      | Err e => (o, (retire_cancel l id, Return (Err e)))
      | Ok installed =>
          if (ls_Generation installed <=? ls_Generation snapshot) || bool_decide (is_Some (sealedSummary installed id)) then (o, terminal_error l [recordlog_ErrCorrupt])
          else match detachRetired (lg_registry l) id with
          | Err e => (o, terminal_error l e)
          | Ok (r, segment) =>
              let l := set_registry l r in
              match sealed_close segment o with
              | (o, (_, Some e)) => (o, (l, Return (Err e)))
              | (o, (_, None)) =>
                  match cleanupRetiredSegment id o with
                  | (o, Ok _) => (o, (l, Return (Ok tt)))
                  | (o, Err e) => (o, terminal_error l e)
                  end
              end
          end
      end
  end.

(** *** [FinalizeCompactionRetirement] *)

(** [registry.beginRetire] for each input *)
Fixpoint begin_retires (snapshot : LogSnapshot) (inputs : list SegmentSummary) (r : segmentRegistry) : segmentRegistry * res unit :=
  match inputs with
  | [] => (r, Ok tt)
  | x :: rest =>
      if bool_decide (is_Some (sealedSummary snapshot (ds_SegmentID x))) then (r, Err [recordlog_ErrInvalidConfig])
      else match beginRetire r (ds_SegmentID x) with
      | Err e => (r, Err e)
      | Ok r => begin_retires snapshot rest r
      end
  end.

(** A retired segment is detached, closed and its file removed. *)
Definition finalize_input (l : Log) (id : Z) (o : os lpath C) : os lpath C * (Log * attempt unit) :=
  match waitNoReaders (lg_registry l) id with
  | Wait c => (o, (l, Wait c))
  | Return (Err e) => (o, (l, Return (Err e)))
  | Return (Ok _) =>
      match detachRetired (lg_registry l) id with
      | Err e => (o, terminal_error l e)
      | Ok (r, segment) =>
          let l := set_registry l r in
          match sealed_close segment o with
          | (o, (_, Some e)) => (o, (l, Return (Err e)))
          | (o, (_, None)) =>
              match cleanupRetiredSegment id o with
              | (o, Ok _) => (o, (l, Return (Ok tt)))
              | (o, Err e) => (o, terminal_error l e)
              end
          end
      end
  end.

(** The second loop of [FinalizeCompactionRetirement]; when it has to wait, the
    inputs that are left. *)
Fixpoint finalize_inputs (l : Log) (inputs : list SegmentSummary) (o : os lpath C) : os lpath C * (Log * (attempt unit * list SegmentSummary)) :=
  match inputs with
  | [] => (o, (l, (Return (Ok tt), [])))
  | x :: rest =>
      match finalize_input l (ds_SegmentID x) o with
      | (o, (l, Return (Ok _))) => finalize_inputs l rest o
      | (o, (l, r)) => (o, (l, (r, x :: rest)))
      end
  end.

Definition FinalizeCompactionRetirement (l : Log) (inputs : list SegmentSummary) (catalogGeneration : Z) (o : os lpath C) : os lpath C * (Log * (attempt unit * list SegmentSummary)) :=
  let snapshot := lp_Snapshot (os_user o) in
  if (len inputs =? 0) || (catalogGeneration =? 0) || (ls_Generation snapshot <? catalogGeneration) then (o, (l, (Return (Err [recordlog_ErrInvalidConfig]), inputs)))
  else match begin_retires snapshot inputs (lg_registry l) with
  | (r, Err e) => (o, (set_registry l r, (Return (Err e), inputs)))
  | (r, Ok _) => finalize_inputs (set_registry l r) inputs o
  end.
End Compaction.
