(* ===== verification/LogCompactionSpec.v ===== *)
(** * Compaction outputs are exact and fit

    The writer of compaction outputs packs the payloads it is given, in order, into
    the reserved segments.  When the payloads are some of those of [n] segments of
    the same size, in their order, [n] reserved segments are enough; the output
    files hold exactly these payloads; no other file changes, and removing the
    unpublished outputs restores the directory. *)
From S2P Require Import Prelude Bytes Addr Crc32 RecordFormat Fs FsDisk Catalog LogSegment LogRotate LogScan LogRotation LogState LogRegistry LogCrash LogData LogCompaction.

(** ** Packing *)

Section Packing.
Context (cap : Z).

(** One size into the bins: the number of bins in use and the load of the last. *)
Definition pack1 (st : Z * Z) (size : Z) : Z * Z :=
  let '(bins, load) := st in if (bins =? 0) || (cap - load <? size) then (bins + 1, size) else (bins, load + size).
Definition pack (st : Z * Z) (sizes : list Z) : Z * Z := foldl pack1 st sizes.

(** The greedy packing is never behind a packing that keeps the order: [i] bins, the
    last one with load [r]. *)
Definition ahead (st : Z * Z) (i r : Z) : Prop := 0 <= st.1 /\ (st.1 < i \/ st.1 = i /\ st.2 <= r).

Definition total (sizes : list Z) : Z := foldr Z.add 0 sizes.

Lemma total_nonneg sizes : Forall (fun s => 0 <= s) sizes -> 0 <= total sizes.
Proof. unfold total; induction 1; cbn; lia. Qed.

Lemma pack_part part : forall st i r, Forall (fun s => 0 <= s) part -> 1 <= i -> 0 <= r -> r + total part <= cap -> ahead st i r -> ahead (pack st part) i (r + total part).
Proof.
  induction part as [|s part IH]; intros [bins load] i r Hp Hi Hr Hc [H0 H]; cbn [total foldr pack foldl] in *; [split; cbn in *; [exact H0|lia]|]. inversion Hp as [|? ? Hs Hp']; subst. fold (total part) in *. pose proof (total_nonneg _ Hp').
  replace (r + (s + total part)) with (r + s + total part) by lia. apply IH; [exact Hp'|exact Hi|lia|lia|]. cbn [fst snd] in *. unfold ahead, pack1. destruct (bins =? 0) eqn:E0; cbn [orb]; [apply Z.eqb_eq in E0; cbn; lia|]. destruct (cap - load <? s) eqn:E1; bool_norm; cbn; lia.
Qed.

Lemma pack_parts parts : forall st i, Forall (Forall (fun s => 0 <= s)) parts -> Forall (fun p => total p <= cap) parts -> 0 <= i -> 0 <= st.1 <= i -> (pack st (concat parts)).1 <= i + len parts /\ 0 <= (pack st (concat parts)).1.
Proof.
  induction parts as [|p parts IH]; intros st i Hn Hc Hi Hst; [unfold len; cbn; lia|]. inversion Hn; inversion Hc; subst. cbn [concat]. unfold pack. rewrite foldl_app. fold (pack st p). fold (pack (pack st p) (concat parts)).
  pose proof (pack_part p st (i + 1) 0 ltac:(assumption) ltac:(lia) ltac:(lia) ltac:(lia) ltac:(split; [lia|left; lia])) as [A1 A2]. rewrite len_cons. specialize (IH (pack st p) (i + 1) ltac:(assumption) ltac:(assumption) ltac:(lia) ltac:(lia)). lia.
Qed.

Lemma Forall_sublist {A} (P : A -> Prop) a b : a `sublist_of` b -> Forall P b -> Forall P a.
Proof. induction 1; intros Hb; inversion Hb; subst; auto. Qed.

Lemma total_sublist a b : a `sublist_of` b -> Forall (fun s => 0 <= s) b -> total a <= total b.
Proof. unfold total. induction 1 as [|x a b Hab IH|x a b Hab IH]; intros Hb; inversion Hb; subst; cbn; [lia| |]; specialize (IH ltac:(assumption)); lia. Qed.

(** Some of the items of [n] bins, in their order, need at most [n] bins. *)
Lemma pack_sublist sizes parts : sizes `sublist_of` concat parts -> Forall (Forall (fun s => 0 <= s)) parts -> Forall (fun p => total p <= cap) parts -> (pack (0, 0) sizes).1 <= len parts.
Proof.
  intros Hs Hn Hc. assert (exists parts', sizes = concat parts' /\ Forall2 sublist parts' parts) as (parts' & -> & Hf).
  { clear Hn Hc. revert sizes Hs. induction parts as [|p parts IH]; intros sizes Hs; cbn [concat] in Hs; [apply sublist_nil_r in Hs as ->; exists []; auto|]. apply sublist_app_r in Hs as (a & b & -> & Ha & Hb). destruct (IH _ Hb) as (ps & -> & Hf). exists (a :: ps). split; [reflexivity|now constructor]. }
  assert (Hlen : len parts' = len parts) by (unfold len; now rewrite (Forall2_length _ _ _ Hf)). rewrite <- Hlen. refine (proj1 (pack_parts parts' (0, 0) 0 _ _ ltac:(lia) ltac:(cbn; lia))); clear Hlen Hs.
  - induction Hf as [|a b x y Hab Hf IH]; [constructor|]. inversion Hn; inversion Hc; subst. constructor; [|auto]. eapply Forall_sublist; eassumption.
  - induction Hf as [|a b x y Hab Hf IH]; [constructor|]. inversion Hn as [|? ? Hb ?]; inversion Hc; subst. constructor; [|auto]. pose proof (total_sublist a b Hab Hb). lia.
Qed.
End Packing.

(** ** One record more *)

(** A payload has a place behind a record or the header. *)
Lemma record_fits id off p total : is_u32 id -> id <> 0 -> 64 <= off -> off mod 8 = 0 -> off + total < two32 -> PhysicalRecordSize (len p) = Ok total -> bytes_ok p ->
  exists r, r.2 = p /\ rec_size r = total /\ rec_at id off r /\ NewVAddr id off total = Ok (ar_Addr r.1) /\ NewAppendResult (ar_Addr r.1) total = Ok r.1 /\ EncodeRecord (ar_Addr r.1) p = Ok (rec_bytes r).
Proof.
  intros Hid Hz Ho Ha Hend Ep Hb. destruct (PhysicalRecordSize_spec _ _ (len_nonneg p) Ep) as (S1 & S2 & S3). destruct (sizeTag_total total ltac:(lia) S2) as [tag Et].
  assert (Hv : exists v, NewVAddr id off total = Ok v).
  { unfold NewVAddr. rewrite Et. unfold SegmentHeaderSize, vaddrSizeMask. rewrite land_7, Ha. replace (id =? 0) with false by (symmetry; now apply Z.eqb_neq). replace (off <? 64) with false by (symmetry; apply Z.ltb_ge; lia). cbn. eauto. }
  destruct Hv as [v Hv]. assert (Hu : is_u32 off) by (unfold is_u32; lia). destruct (NewVAddr_parts _ _ _ _ Hid Hu Hv) as (V1 & V2 & V3 & V4 & V5). pose proof (NewVAddr_matches _ _ _ _ Hid Hu Hv) as V6.
  assert (Hr : exists res, NewAppendResult v total = Ok res /\ ar_Addr res = v).
  { unfold NewAppendResult, VAddr_End. rewrite V5, V6, V2, V3. replace (_ <? total) with false by (symmetry; apply Z.ltb_ge; lia). cbn [negb orb]. unfold NewLogPos, LogPos_Valid, SegmentHeaderSize, RecordAlignment. cbn [pos_SegmentID pos_Offset]. change (8 - 1) with 7. rewrite ?land_7. replace ((off + total) mod 8) with 0 by (symmetry; dlia).
    replace (id =? 0) with false by (symmetry; now apply Z.eqb_neq). try replace (64 <=? off + total) with true by (symmetry; apply Z.leb_le; lia). try replace (off + total <? 64) with false by (symmetry; apply Z.ltb_ge; lia). cbn. eauto. }
  destruct Hr as (res & Hr & Er). exists (res, p). cbn [fst snd]. assert (Esz : rec_size (res, p) = total) by (unfold rec_size; cbn [snd]; now rewrite Ep).
  assert (Een : exists b, EncodeRecord v p = Ok b) by (unfold EncodeRecord, EncodeRecordTo; rewrite Ep, Z.eqb_refl, V5, V6; cbn; eauto). destruct Een as [b Een].
  rewrite Er. repeat (split; [first [reflexivity|exact Esz|exact Hv|exact Hr| constructor; cbn [fst snd]; rewrite ?Esz, ?Er; assumption]|]). unfold rec_bytes. cbn [fst snd]. now rewrite Er, Een.
Qed.

(** ** The files of an output *)

(** A name that the writer of [ids] may use. *)
Definition output_name (ids : list Z) (p : lpath) : Prop := exists id, id ∈ ids /\ (p = LCreating id \/ p = LActive id \/ p = LSealed id).

Section Files.
Context {C : Type} `{!LogPort C} (ids : list Z) (d0 : gmap lpath (list Z)) (u : C -> Prop).

(** Other names have what they had. *)
Definition outside (d : gmap lpath (list Z)) : Prop := forall p, ~ output_name ids p -> d !! p = d0 !! p.
Definition oph (d : gmap lpath (list Z)) (v : C -> Prop) : Prop := outside d /\ v = u.
Definition ostop (o : os lpath C) : Prop := exists d, outside d /\ at_disk d u o.

Lemma ostop_in d v o : oph d v -> at_disk d v o -> ostop o.
Proof. intros [H ->] Ho. exists d. auto. Qed.

Lemma ostop_refault o fs : ostop o -> ostop (refault o fs).
Proof. intros (d & H & Ho). exists d. split; [exact H|now apply at_disk_faults]. Qed.

Lemma outside_insert d id p x : id ∈ ids -> p = LCreating id \/ p = LActive id \/ p = LSealed id -> outside d -> outside (<[p := x]> d).
Proof. intros Hi Hp H q Hq. rewrite lookup_insert_ne; [auto|]. intros <-. apply Hq. exists id. auto. Qed.
Lemma outside_delete d id p : id ∈ ids -> p = LCreating id \/ p = LActive id \/ p = LSealed id -> outside d -> outside (delete p d).
Proof. intros Hi Hp H q Hq. rewrite lookup_delete_ne; [auto|]. intros <-. apply Hq. exists id. auto. Qed.

Local Abbreviation step_point := (FsDisk.step_point True oph ostop ostop_in).
Local Abbreviation step_point_owns := (FsDisk.step_point_owns True oph ostop ostop_in).
Local Abbreviation step_lift := (FsDisk.step_lift True ostop).
Local Abbreviation step_rename_owns := (FsDisk.step_rename_owns True oph ostop ostop_in).
Local Abbreviation step_write := (FsDisk.step_write True oph ostop ostop_in).
Local Abbreviation step_create := (FsDisk.step_create True oph ostop ostop_in).

(** An output that is open: its descriptor, header and records. *)
Record output (h : SegmentHeader) (recs : list LogRecord) (f : nat) (a : activeSegment) : Prop := mkOutput {
  op_file : as_file a = Some f;
  op_header : as_header a = h;
  op_sealed : as_sealed a = false;
  op_summary : summaryLocked a = log_summary (sh_SegmentID h) recs;
}.

Section One.
Context (h : SegmentHeader) (Hu : segmentHeader_u h) (Hv : segmentHeader_bad h = false) (Hin : sh_SegmentID h ∈ ids).
Local Abbreviation id := (sh_SegmentID h).

Lemma create_output d : outside d -> d !! LCreating id = None ->
  triple True (at_disk d u) (createActiveSegment h) (fun a o => exists f, (at_disk (<[LActive id := log_image h []]> d) u o /\ owns o (LActive id) f) /\ output h [] f a) ostop.
Proof.
  intros Ho Hc. assert (Hp : forall x, oph (<[LCreating id := x]> d) u) by (intros x; split; [eapply outside_insert; eauto|reflexivity]). assert (Hp0 : oph d u) by (split; auto).
  assert (Hp1 : oph (<[LActive id := log_header_bytes h]> d) u) by (split; [eapply outside_insert; eauto|reflexivity]).
  unfold createActiveSegment. apply (step_lift _ _ _ _ _ (log_header_encoded h Hv)). apply step_point; [exact Hp0|]. apply (step_create _ _ Hp0 _ _ (<[LCreating id := []]> d)); [exact Hc|reflexivity|]. intros f.
  apply step_point_owns; [apply Hp|]. apply (step_write _ _ _ _ _ [] _ _ (<[LCreating id := log_header_bytes h]> d)); [apply lookup_insert_eq|rewrite splice_fresh; apply insert_insert_eq|intros n; rewrite insert_insert_eq; apply Hp|].
  do 3 (apply step_point_owns; [apply Hp|]). apply (step_rename_owns _ _ (Hp _) _ _ _ _ (log_header_bytes h) (<[LActive id := log_header_bytes h]> d)); [apply lookup_insert_eq|now rewrite delete_insert_id|exact Hp1|].
  do 2 (apply step_point_owns; [exact Hp1|]). apply triple_ret. intros o Hd. exists f. split; [unfold log_image; rewrite app_nil_r; exact Hd|now constructor].
Qed.

Lemma append_output d a f recs r : outside d -> d !! LActive id = Some (log_image h recs) -> output h recs f a -> log_recs h (recs ++ [r]) ->
  triple True (fun o => at_disk d u o /\ owns o (LActive id) f) (appendEncoded a (rec_bytes r) [mkExtent r.1 (rec_size r)])
    (fun a' o => (at_disk (<[LActive id := log_image h (recs ++ [r])]> d) u o /\ owns o (LActive id) f) /\ output h (recs ++ [r]) f a') ostop.
Proof.
  intros Ho Hd [O1 O2 O3 O4] Hr. destruct (header_parts h Hu Hv) as (P1 & P2 & P3 & _). pose proof (next_facts h Hu Hv recs r [] Hr) as ([F1 F2 F3 F4 F5 F6] & Hat & Hfit). pose proof (log_recs_app _ _ _ Hr) as Hr0. pose proof (body_size_nonneg _ _ _ (lr_placed _ _ Hr0)) as Hb.
  unfold summaryLocked, log_summary in O4. injection O4 as Q1 Q2 Q3 Q4 Q5.
  assert (Hrem : remainingLocked a = sh_SegmentSize h - 64 - (64 + body_size recs)) by (unfold remainingLocked, SegmentFooterSize; rewrite O2, Q2, Z.mod_small by lia; destruct (_ <=? _) eqn:E; bool_norm; lia).
  assert (Hplan : append_plan a 0 [mkExtent r.1 (rec_size r)] = Ok (rec_size r)).
  { cbn [append_plan ex_Size ex_Result]. rewrite Hrem, O2, Q2. replace (_ <? 0) with false by (symmetry; apply Z.ltb_ge; lia). replace (rec_size r =? 0) with false by (symmetry; apply Z.eqb_neq; lia). replace (_ - 0 <? rec_size r) with false by (symmetry; apply Z.ltb_ge; lia). cbn [orb].
    destruct F3 as (_ & A2 & A3 & _). rewrite Z.add_0_r, Z.mod_small, A2, A3, !Z.eqb_refl by lia. rewrite (Z.mod_small (_ + rec_size r)) by lia. pose proof (ra_result _ _ _ Hat) as Er. unfold NewAppendResult in Er. destruct (VAddr_End _ _) as [e|] eqn:Ee; [|discriminate].
    rewrite Z.mod_small by lia. rewrite bool_decide_eq_true_2; [reflexivity|]. injection Er as Er. rewrite <- Er. cbn [ar_End]. unfold VAddr_End in Ee. inv_ok Ee. unfold NewLogPos in Ee. inv_ok Ee. apply Ok_inj in Ee. rewrite <- Ee, A2, A3. reflexivity. }
  assert (Hp0 : oph d u) by (split; auto). assert (Hp1 : forall x, oph (<[LActive id := x]> d) u) by (intros x; split; [eapply outside_insert; eauto|reflexivity]).
  unfold appendEncoded. rewrite O1, O3. change (len [mkExtent r.1 (rec_size r)] =? 0) with false. rewrite F1. replace (rec_size r =? 0) with false by (symmetry; apply Z.eqb_neq; lia). cbn [orb].
  apply (step_lift _ _ _ _ _ Hplan). rewrite Z.mod_small, Z.eqb_refl by lia. cbn [negb]. apply step_point_owns; [exact Hp0|].
  apply (step_write _ _ _ _ _ (log_image h recs) _ _ (<[LActive id := log_image h (recs ++ [r])]> d)); [exact Hd| |intros n; apply Hp1|].
  - f_equal. rewrite Q2, <- (log_image_len h Hu Hv recs Hr0), splice_end. unfold log_image. rewrite log_body_app, app_assoc. unfold log_body at 3. cbn [map concat]. now rewrite app_nil_r.
  - apply triple_ret. intros o Hod. split; [exact Hod|]. pose proof (placed_count _ _ _ (lr_placed _ _ Hr)) as Hcnt. rewrite body_size_app, body_size_cons in Hcnt. change (body_size []) with 0 in Hcnt.
    constructor; cbn [foldl count_record set_end as_file as_header as_sealed]; try assumption. unfold summaryLocked, log_summary. cbn. rewrite O2, Q2, Q3, Q4, body_size_app, body_size_cons, last_snoc. change (body_size []) with 0. rewrite !len_app in *. change (len [r]) with 1 in *. pose proof (len_nonneg recs). rewrite !Z.mod_small by lia. f_equal; [lia|].
    destruct recs as [|x recs]; [reflexivity|]. rewrite len_cons. pose proof (len_nonneg recs). replace (1 + len recs =? 0) with false by (symmetry; apply Z.eqb_neq; lia). reflexivity.
Qed.

Lemma seal_output_files d a f recs : outside d -> d !! LActive id = Some (log_image h recs) -> output h recs f a -> log_recs h recs ->
  triple True (fun o => at_disk d u o /\ owns o (LActive id) f) (seal a)
    (fun r o => at_disk (<[LSealed id := log_sealed_image h recs]> (delete (LActive id) d)) u o /\ r = (set_sealed a, mkSealed (Some f) h (log_summary id recs), log_summary id recs)) ostop.
Proof.
  intros Ho Hd [O1 O2 O3 O4] Hr. assert (Hp0 : oph d u) by (split; auto). assert (Hp1 : forall x, oph (<[LActive id := x]> d) u) by (intros x; split; [eapply outside_insert; eauto|reflexivity]).
  assert (Hp2 : oph (<[LSealed id := log_sealed_image h recs]> (delete (LActive id) d)) u) by (split; [eapply outside_insert; eauto; eapply outside_delete; eauto|reflexivity]).
  assert (Ee : ds_ValidEnd (log_summary id recs) = len (log_image h recs)) by (rewrite (log_image_len h Hu Hv recs Hr); reflexivity).
  unfold seal. apply (step_seq True ostop _ (fun r o => (at_disk (<[LActive id := log_sealed_image h recs]> d) u o /\ owns o (LActive id) f) /\ r = log_summary id recs)).
  - unfold prepareSeal. rewrite O1, O3, O4. apply (step_lift _ _ _ _ _ (log_footer_encoded h Hu Hv recs Hr)). apply step_point_owns; [exact Hp0|]. rewrite Ee.
    apply (step_write _ _ _ _ _ (log_image h recs) _ _ (<[LActive id := log_sealed_image h recs]> d)); [exact Hd|now rewrite splice_end|intros n; apply Hp1|]. do 2 (apply step_point_owns; [apply Hp1|]). apply triple_ret. auto.
  - intros r. apply triple_pre. intros o [Hod ->]. apply (triple_from True _ _ (fun o => at_disk (<[LActive id := log_sealed_image h recs]> d) u o /\ owns o (LActive id) f)); [intros o' <-; exact Hod|]. unfold publishPreparedSeal. rewrite O1, O3, O4, O2. rewrite !bool_decide_eq_true_2 by eauto. cbn [negb orb].
    apply step_point_owns; [apply Hp1|]. apply (step_rename_owns _ _ (Hp1 _) _ _ _ _ (log_sealed_image h recs) (<[LSealed id := log_sealed_image h recs]> (delete (LActive id) d))); [apply lookup_insert_eq|now rewrite delete_insert_eq|exact Hp2|].
    do 2 (apply step_point_owns; [exact Hp2|]). apply triple_ret. intros o' [H1 _]. auto.
Qed.
End One.
End Files.

(** ** The writer *)

Lemma zip_fst_sublist {A B} (a : list A) (b : list B) : (zip a b).*1 `sublist_of` a.
Proof. revert b. induction a as [|x a IH]; intros [|y b]; cbn; [constructor|constructor|apply sublist_nil_l|now constructor]. Qed.

Lemma Forall2_member_r {A B} (R : A -> B -> Prop) a b y : Forall2 R a b -> y ∈ b -> exists x, R x y /\ x ∈ a.
Proof. induction 1 as [|x z a b Hxz Hf IH]; intros Hy; [inversion Hy|]. apply elem_of_cons in Hy as [->|Hy]; [exists x; split; [exact Hxz|now left]|]. destruct (IH Hy) as (x' & H1 & H2). exists x'. split; [exact H1|now right]. Qed.
Lemma Forall2_member_l {A B} (R : A -> B -> Prop) a b x : Forall2 R a b -> x ∈ a -> exists y, R x y /\ y ∈ b.
Proof. intros H. apply Forall2_flip in H. apply (Forall2_member_r _ _ _ _ H). Qed.

(** Locations of the registry are below its counter. *)
Definition heap_fresh (r : segmentRegistry) : Prop := forall x, is_Some (rg_heap r !! x) -> (x < rg_fresh r)%nat.

Section Writer.
Context {C : Type} `{!LogPort C} (s : LogSnapshot) (ids : list Z) (d0 : gmap lpath (list Z)).

Definition log_of (c : C) : Prop := lp_Snapshot c = s.
Local Abbreviation u := log_of.
Local Abbreviation hdr := (log_headerFor s).

(** The reserved segments: consecutive compaction segments that have no files yet. *)
Record reserved : Prop := mkReserved {
  rv_ids : ids <> [] /\ NoDup ids /\ consecutive_ids None ids = true;
  rv_range : Forall (fun id => CompactionSegmentBase <= id < two32) ids;
  rv_headers : Forall (fun id => segmentHeader_u (hdr id) /\ segmentHeader_bad (hdr id) = false) ids;
  rv_fresh : forall p, output_name ids p -> d0 !! p = None;
}.
Context (Hres : reserved).

Definition sealed_disk (segs : list (list LogRecord)) : gmap lpath (list Z) := foldl (fun d x => <[LSealed x.1 := log_sealed_image (hdr x.1) x.2]> d) d0 (zip ids segs).
Definition out_disk (segs : list (list LogRecord)) (cur : option (list LogRecord)) : gmap lpath (list Z) :=
  match cur, ids !! length segs with Some recs, Some id => <[LActive id := log_image (hdr id) recs]> (sealed_disk segs) | _, _ => sealed_disk segs end.

Lemma zip_snoc {A B} (a : list A) (b : list B) x y : a !! length b = Some x -> zip a (b ++ [y]) = zip a b ++ [(x, y)].
Proof. revert a. induction b as [|z b IH]; intros [|v a] E; try discriminate; cbn in *; [injection E as ->; now destruct a|f_equal; now apply IH]. Qed.

Lemma sealed_snoc segs recs id : ids !! length segs = Some id -> sealed_disk (segs ++ [recs]) = <[LSealed id := log_sealed_image (hdr id) recs]> (sealed_disk segs).
Proof. intros E. unfold sealed_disk. rewrite (zip_snoc _ _ _ _ E), foldl_app. reflexivity. Qed.

Lemma sealed_disk_other segs p : (forall id, p <> LSealed id) -> sealed_disk segs !! p = d0 !! p.
Proof.
  intros Hp. unfold sealed_disk. generalize (zip ids segs). intros l. assert (H : forall d : gmap lpath (list Z), foldl (fun d x => <[LSealed x.1 := log_sealed_image (hdr x.1) x.2]> d) d l !! p = d !! p); [|apply H].
  induction l as [|x l IH]; intros d; cbn [foldl]; [reflexivity|]. rewrite IH, lookup_insert_ne; [reflexivity|]. intros E. exact (Hp _ (eq_sym E)).
Qed.

Lemma sealed_outside segs : outside ids d0 (sealed_disk segs).
Proof.
  unfold sealed_disk. assert (Hz : Forall (fun x => x.1 ∈ ids) (zip ids segs)). { apply Forall_forall. intros [id recs] Hx. apply elem_of_zip_l in Hx. exact Hx. }
  assert (H : forall d : gmap lpath (list Z), outside ids d0 d -> outside ids d0 (foldl (fun d x => <[LSealed x.1 := log_sealed_image (hdr x.1) x.2]> d) d (zip ids segs))); [|now apply H].
  induction Hz as [|x l Hx Hl IH]; intros d Hd; cbn [foldl]; [exact Hd|]. apply IH. eapply outside_insert; eauto.
Qed.

Lemma fresh_active_name segs id : id ∈ ids -> sealed_disk segs !! LActive id = None /\ sealed_disk segs !! LCreating id = None.
Proof. intros Hi. rewrite !sealed_disk_other by discriminate. split; apply (rv_fresh Hres); exists id; auto. Qed.

Lemma out_outside segs cur : outside ids d0 (out_disk segs cur).
Proof.
  unfold out_disk. pose proof (sealed_outside segs). destruct cur; [|assumption]. destruct (ids !! length segs) as [id|] eqn:E; [|assumption]. eapply outside_insert; [exact (list_elem_of_lookup_2 _ _ _ E)|eauto|assumption].
Qed.

(** The writer has written [segs] and is writing [cur]. *)
Record writing (segs : list (list LogRecord)) (cur : option (list LogRecord)) (w : CompactionWriter) (o : os lpath C) : Prop := mkWriting {
  wr_ids : cw_ids w = ids /\ cw_closed w = false /\ cw_maxPayloadBytes w = ls_MaxPayloadBytes s;
  wr_used : cw_used w = (length segs + match cur with Some _ => 1 | None => 0 end)%nat;
  wr_summaries : cw_summaries w = map (fun x => log_summary x.1 x.2) (zip ids segs);
  wr_recs : Forall (fun x => log_recs (hdr x.1) x.2) (zip ids segs) /\ (length segs + match cur with Some _ => 1 | None => 0 end <= length ids)%nat;
  wr_disk : at_disk (out_disk segs cur) u o;
  wr_active : match cur with
              | None => cw_active w = None
              | Some recs => exists id a f, ids !! length segs = Some id /\ cw_active w = Some a /\ output (hdr id) recs f a /\ owns o (LActive id) f /\ log_recs (hdr id) recs
              end;
}.

Lemma id_facts i id : ids !! i = Some id -> id ∈ ids /\ CompactionSegmentBase <= id < two32 /\ segmentHeader_u (hdr id) /\ segmentHeader_bad (hdr id) = false.
Proof.
  intros E. pose proof (list_elem_of_lookup_2 _ _ _ E) as Hi. split; [exact Hi|]. pose proof (rv_range Hres) as H1. pose proof (rv_headers Hres) as H2. rewrite Forall_forall in H1, H2. auto.
Qed.

(** A call of the writer: without faults it succeeds, and a failure leaves other
    files alone. *)
Definition wtriple {A} (Pre : CompactionWriter -> os lpath C -> Prop) (c : wio A) (Post : A -> CompactionWriter -> os lpath C -> Prop) : Prop :=
  forall w o, Pre w o -> (os_faults o = [] -> os_faults (c w o).1 = []) /\
    match (c w o).2.2 with Ok x => Post x (c w o).2.1 (c w o).1 | Err _ => ostop ids d0 u (c w o).1 /\ os_faults o <> [] end.

Lemma sealed_close_spec x (o : os lpath C) : is_Some (sl_file x) -> exists fs, (sealed_close x o).1 = refault o fs /\ (os_faults o = [] -> fs = [] /\ (sealed_close x o).2.2 = None).
Proof.
  intros [f E]. unfold sealed_close, log_file_Close, fs_point. rewrite E. destruct (next_fault_spec o) as (ft & Ef & Hf). rewrite Ef. exists (tail (os_faults o)). destruct ft; cbn; (split; [reflexivity|]); intros X; rewrite X in *; [destruct (Hf ltac:(discriminate) eq_refl)|auto].
Qed.

Lemma seal_writing segs recs : wtriple (writing segs (Some recs)) seal_output (fun _ w o => writing (segs ++ [recs]) None w o).
Proof.
  intros w o [(W1 & W2 & W2') W3 W4 [W5 W6] W7 (id & a & f & E & Ea & Ho & Hw & Hr)]. destruct (id_facts _ _ E) as (Hi & _ & Hu & Hv). unfold seal_output. rewrite Ea.
  unfold out_disk in W7. rewrite E in W7. assert (Hout : outside ids d0 (<[LActive id := log_image (hdr id) recs]> (sealed_disk segs))) by (pose proof (out_outside segs (Some recs)) as X; unfold out_disk in X; rewrite E in X; exact X).
  pose proof (seal_output_files ids d0 u (hdr id) Hu Hv Hi _ a f recs Hout (lookup_insert_eq _ _ _) Ho Hr o (conj W7 Hw)) as H. cbn [hdr log_headerFor sh_SegmentID] in H.
  destruct (seal a o) as [o1 [[[a' sl] sum]|e]]; cbn [fst snd] in H; destruct H as [F1 H]; [|destruct H as [H1 H2]; cbn; auto]. destruct H as [Hd [= -> -> ->]].
  destruct (sealed_close_spec (mkSealed (Some f) (log_headerFor s id) (log_summary id recs)) o1 ltac:(eauto)) as (fs & Ec & Hn). destruct (sealed_close _ o1) as [o2 [s2 c2]]. cbn [fst snd] in Ec, Hn. subst o2.
  assert (Hstop : ostop ids d0 u (refault o1 fs)). { exists (<[LSealed id := log_sealed_image (hdr id) recs]> (delete (LActive id) (<[LActive id := log_image (hdr id) recs]> (sealed_disk segs)))). split; [|now apply at_disk_faults]. eapply outside_insert; eauto. eapply outside_delete; eauto. }
  destruct c2 as [e|]; cbn [fst snd].
  - split; [intros X; destruct (Hn (F1 X)); discriminate|]. split; [exact Hstop|]. intros X. destruct (Hn (F1 X)). discriminate.
  - split; [intros X; destruct (Hn (F1 X)) as [-> _]; reflexivity|]. constructor; cbn; auto.
    + rewrite W3, length_app. cbn. lia.
    + rewrite W4, (zip_snoc _ _ _ _ E), map_app. reflexivity.
    + rewrite (zip_snoc _ _ _ _ E), length_app. split; [apply Forall_app; split; [exact W5|now constructor]|cbn; lia].
    + apply at_disk_faults. rewrite (sealed_snoc _ _ _ E). destruct (fresh_active_name segs id Hi) as [Hn1 _]. rewrite delete_insert_id in Hd by exact Hn1. exact Hd.
Qed.

Lemma output_header id : CompactionSegmentBase <= id < two32 -> mkSegmentHeader (ls_LogID s) id ((id - 1) mod two32) (ls_SegmentSize s) = hdr id.
Proof. intros H. unfold CompactionSegmentBase in H. unfold log_headerFor. rewrite Z.mod_small by lia. replace (1 <? id) with true by (symmetry; apply Z.ltb_lt; lia). reflexivity. Qed.

Definition closed_outputs (segs : list (list LogRecord)) (cur : option (list LogRecord)) : list (list LogRecord) := segs ++ option_list cur.

(** The active output is sealed when there is one. *)
Lemma seal_any segs cur : wtriple (writing segs cur) seal_output (fun _ w o => writing (closed_outputs segs cur) None w o).
Proof.
  destruct cur as [recs|]; [apply seal_writing|]. intros w o Hw. unfold seal_output. rewrite (wr_active _ _ _ _ Hw). cbn. split; [auto|]. unfold closed_outputs. cbn. rewrite app_nil_r. exact Hw.
Qed.

Lemma rotate_writing segs cur : (length (closed_outputs segs cur) < length ids)%nat -> wtriple (writing segs cur) cw_rotate (fun _ w o => writing (closed_outputs segs cur) (Some []) w o).
Proof.
  intros Hroom w o Hw. unfold cw_rotate. pose proof (seal_any segs cur w o Hw) as H. destruct (seal_output w o) as [o1 [w1 [[]|e]]]; cbn [fst snd] in H; destruct H as [F1 H]; [|cbn; auto].
  set (segs1 := closed_outputs segs cur) in *. destruct H as [(W1 & W2 & W2') W3 W4 [W5 W6] W7 W8]. rewrite W1, W3, Nat.add_0_r. destruct (lookup_lt_is_Some_2 ids (length segs1) Hroom) as [id E]. rewrite E. destruct (id_facts _ _ E) as (Hi & Hr & Hu & Hv).
  assert (Hsn : lp_Snapshot (os_user o1) = s) by exact (ad_user _ _ _ W7). rewrite Hsn, (output_header id Hr). unfold out_disk in W7. destruct (fresh_active_name segs1 id Hi) as [_ Hn2].
  pose proof (create_output ids d0 u (hdr id) Hv Hi _ (sealed_outside segs1) Hn2 o1 W7) as H. cbn [hdr log_headerFor sh_SegmentID] in H. destruct (createActiveSegment (log_headerFor s id) o1) as [o2 [a|e]]; cbn [fst snd] in H |- *; destruct H as [F2 H].
  - split; [auto|]. destruct H as (f & [Hd Hw2] & Ho). destruct (header_parts _ Hu Hv) as (_ & _ & P3 & _). constructor; cbn; auto.
    + rewrite W3. lia.
    + split; [exact W5|lia].
    + unfold out_disk. rewrite E. exact Hd.
    + exists id, a, f. split; [exact E|]. split; [reflexivity|]. split; [exact Ho|]. split; [exact Hw2|]. constructor; [exact I|]. cbn in *. lia.
  - destruct H as [H1 H2]. split; [auto|]. split; [exact H1|]. intros X. exact (H2 I (F1 X)).
Qed.

(** *** One append *)

Definition cap : Z := ls_SegmentSize s - 128.
Definition bins (segs : list (list LogRecord)) (cur : option (list LogRecord)) : Z * Z := (len (closed_outputs segs cur), match cur with Some recs => body_size recs | None => 0 end).

Definition packed (segs : list (list LogRecord)) (cur : option (list LogRecord)) (r : LogRecord) : list (list LogRecord) * list LogRecord :=
  match cur with
  | Some recs => if cap - body_size recs <? rec_size r then (segs ++ [recs], [r]) else (segs, recs ++ [r])
  | None => (segs, [r])
  end.

(** A payload that an output can hold. *)
Record payload_ok (p : list Z) (total : Z) : Prop := mkPayloadOk {
  pk_bytes : bytes_ok p /\ len p <= ls_MaxPayloadBytes s;
  pk_size : PhysicalRecordSize (len p) = Ok total;
  pk_fits : total <= cap;
}.

Lemma remaining_output i id recs f a : ids !! i = Some id -> output (hdr id) recs f a -> log_recs (hdr id) recs -> remainingLocked a = cap - body_size recs.
Proof.
  intros E [O1 O2 O3 O4] [Hp Hf]. destruct (id_facts _ _ E) as (_ & _ & Hu & Hv). destruct (header_parts _ Hu Hv) as (_ & _ & P3 & _). pose proof (body_size_nonneg _ _ _ Hp). unfold summaryLocked, log_summary in O4. injection O4 as _ Q2 _ _ _. unfold remainingLocked, cap, SegmentFooterSize. rewrite O2, Q2. cbn in *. rewrite Z.mod_small by lia. destruct (_ <=? _) eqn:X; bool_norm; lia.
Qed.

(** The record goes behind the records of the active output. *)
Lemma place_writing segs recs p total : payload_ok p total -> total <= cap - body_size recs ->
  forall w o, writing segs (Some recs) w o -> exists a r, cw_active w = Some a /\ r.2 = p /\ rec_size r = total /\ output_record a total p = Ok (r.1, rec_bytes r) /\
    (os_faults o = [] -> os_faults (appendEncoded a (rec_bytes r) [mkExtent r.1 total] o).1 = []) /\
    match appendEncoded a (rec_bytes r) [mkExtent r.1 total] o with
    | (o', Ok a') => writing segs (Some (recs ++ [r])) (cw_with_active w (Some a')) o'
    | (o', Err _) => ostop ids d0 u o' /\ os_faults o <> []
    end.
Proof.
  intros [[Hb Hm] Hp Hf] Hfit w o [(W1 & W2 & W2') W3 W4 [W5 W6] W7 (id & a & f & E & Ea & Ho & Hw & Hr)]. destruct (id_facts _ _ E) as (Hi & Hrg & Hu & Hv). destruct (header_parts _ Hu Hv) as (P1 & P2 & P3 & _). pose proof (body_size_nonneg _ _ _ (lr_placed _ _ Hr)) as Hnn. unfold cap in *. cbn [log_headerFor sh_SegmentSize sh_SegmentID] in P1, P2, P3.
  assert (Hal : (64 + body_size recs) mod 8 = 0) by (apply (placed_aligned (hdr id) recs 64); [reflexivity|exact (lr_placed _ _ Hr)]).
  destruct (record_fits id (64 + body_size recs) p total P1 P2 ltac:(lia) Hal ltac:(lia) Hp Hb) as (r & R1 & R2 & R3 & R4 & R5 & R6). exists a, r. split; [exact Ea|]. split; [exact R1|]. split; [exact R2|].
  pose proof Ho as [O1 O2 O3 O4]. split. { unfold output_record. rewrite O4, O2. cbn [log_headerFor sh_SegmentID log_summary ds_ValidEnd]. rewrite R4. cbn. rewrite R5. cbn. now rewrite R6. }
  assert (Hrecs : log_recs (hdr id) (recs ++ [r])). { destruct Hr as [Hp1 Hp2]. constructor; [apply placed_app; split; [exact Hp1|split; [exact R3|exact I]]|]. rewrite body_size_app, body_size_cons, R2. change (body_size []) with 0. cbn in *. lia. }
  unfold out_disk in W7. rewrite E in W7. assert (Hout : outside ids d0 (<[LActive id := log_image (hdr id) recs]> (sealed_disk segs))) by (pose proof (out_outside segs (Some recs)) as X; unfold out_disk in X; rewrite E in X; exact X).
  pose proof (append_output ids d0 u (hdr id) Hu Hv Hi _ a f recs r Hout (lookup_insert_eq _ _ _) Ho Hrecs o (conj W7 Hw)) as H. rewrite R2 in H. destruct (appendEncoded a _ _ o) as [o1 [a1|e]]; cbn [fst snd] in H |- *; destruct H as [F1 H]; (split; [exact F1|]); [|destruct H as [H1 H2]; auto].
  destruct H as [[Hd Hw1] Ho1]. constructor; cbn; auto.
  - unfold out_disk. rewrite E. cbn [log_headerFor sh_SegmentID] in Hd. rewrite insert_insert_eq in Hd. exact Hd.
  - exists id, a1, f. auto.
Qed.

(** The records are packed as [pack1] says. *)
Lemma packed_bins segs cur r : (cur = None -> segs = []) -> let '(segs', recs') := packed segs cur r in bins segs' (Some recs') = pack1 cap (bins segs cur) (rec_size r).
Proof.
  intros Hc. unfold packed, bins, pack1, closed_outputs. destruct cur as [recs|]; cbn [option_list option_rect].
  - rewrite len_app. change (len [recs]) with 1. pose proof (len_nonneg segs). replace (len segs + 1 =? 0) with false by (symmetry; apply Z.eqb_neq; lia). cbn [orb]. destruct (_ <? _); apply pair_equal_spec; rewrite ?body_size_app, !body_size_cons; change (body_size []) with 0; unfold len; rewrite !length_app; cbn [length]; split; lia.
  - rewrite (Hc eq_refl). cbn. f_equal; lia.
Qed.

Lemma append_writing segs cur p total : payload_ok p total -> (cur = None -> segs = []) -> (pack1 cap (bins segs cur) total).1 <= len ids ->
  wtriple (writing segs cur) (cw_Append None p) (fun x w o => rec_size (x, p) = total /\ let '(segs', recs') := packed segs cur (x, p) in writing segs' (Some recs') w o).
Proof.
  intros Hp Hc Hroom w o Hw. pose proof Hp as [[_ Hm] Hs Hf]. unfold cw_Append. destruct (wr_ids _ _ _ _ Hw) as (W1 & W2 & W2'). rewrite W2, W2', Hs. replace (_ <? len p) with false by (symmetry; apply Z.ltb_ge; lia).
  assert (Hnn : 0 <= total) by (destruct (PhysicalRecordSize_spec _ _ (len_nonneg p) Hs); lia).
  (* the output that takes the record *)
  assert (Hrot : exists segs1 recs1, (forall r, rec_size r = total -> packed segs cur r = (segs1, recs1 ++ [r])) /\ total <= cap - body_size recs1 /\
    let c := if needs_rotation w total then cw_rotate w o else (o, (w, Ok tt)) in
    (os_faults o = [] -> os_faults c.1 = []) /\ match c.2.2 with Ok _ => writing segs1 (Some recs1) c.2.1 c.1 | Err _ => ostop ids d0 u c.1 /\ os_faults o <> [] end).
  { unfold needs_rotation. destruct cur as [recs|].
    - destruct (wr_active _ _ _ _ Hw) as (id & a & f & E & Ea & Ho & Hown & Hr). rewrite Ea, (remaining_output _ _ _ _ _ E Ho Hr). destruct (cap - body_size recs <? total) eqn:Ef.
      + exists (segs ++ [recs]), []. split; [intros r Er; unfold packed; now rewrite Er, Ef|]. split; [change (body_size []) with 0; lia|]. apply (rotate_writing segs (Some recs)); [|exact Hw]. unfold bins, pack1 in Hroom. rewrite Ef, orb_true_r in Hroom. cbn [fst] in Hroom. unfold len in Hroom. lia.
      + exists segs, recs. split; [intros r Er; unfold packed; now rewrite Er, Ef|]. split; [bool_norm; lia|]. cbn. auto.
    - rewrite (wr_active _ _ _ _ Hw). exists segs, []. split; [reflexivity|]. split; [change (body_size []) with 0; lia|]. pose proof (rotate_writing segs None) as H. unfold closed_outputs in H. cbn [option_list option_rect] in H. rewrite app_nil_r in H. apply H; [|exact Hw].
      unfold bins, pack1, closed_outputs in Hroom. rewrite (Hc eq_refl) in *. cbn [app option_list option_rect] in Hroom. change (len (@nil (list LogRecord))) with 0 in Hroom. cbn in *. unfold len in Hroom. lia. }
  destruct Hrot as (segs1 & recs1 & Hpk & Hfit & Hcall). destruct (if needs_rotation w total then cw_rotate w o else (o, (w, Ok tt))) as [o1 [w1 [[]|e]]]; cbn [fst snd] in Hcall; destruct Hcall as [F1 H]; [|cbn; auto].
  destruct (place_writing segs1 recs1 p total Hp Hfit w1 o1 H) as (a & r & Ea & R1 & R2 & R3 & F2 & Hap). rewrite Ea, R3. destruct (appendEncoded a (rec_bytes r) _ o1) as [o2 [a2|e]]; cbn [fst snd] in *; (split; [auto|]); [|destruct Hap; auto].
  destruct r as [x p']. cbn [fst snd] in *. subst p'. split; [exact R2|]. rewrite (Hpk _ R2). exact Hap.
Qed.

(** *** All of them *)

Fixpoint copy_all (ps : list (list Z)) : wio (C := C) (list AppendResult) := fun w o =>
  match ps with
  | [] => (o, (w, Ok []))
  | p :: rest =>
      match cw_Append None p w o with
      | (o, (w, Err e)) => (o, (w, Err e))
      | (o, (w, Ok x)) => match copy_all rest w o with (o, (w, Ok xs)) => (o, (w, Ok (x :: xs))) | r => r end
      end
  end.

Definition payload_size (p : list Z) : Z := match PhysicalRecordSize (len p) with Ok n => n | Err _ => 0 end.

Lemma pack_grows sizes : forall st, st.1 <= (pack cap st sizes).1.
Proof. induction sizes as [|x sizes IH]; intros [b l]; cbn [pack foldl]; [lia|]. fold (pack cap (pack1 cap (b, l) x) sizes). specialize (IH (pack1 cap (b, l) x)). unfold pack1 in *. destruct (_ || _); cbn in *; lia. Qed.

Lemma packed_concat segs cur r segs' recs' : packed segs cur r = (segs', recs') -> concat (closed_outputs segs' (Some recs')) = concat (closed_outputs segs cur) ++ [r].
Proof.
  unfold packed, closed_outputs. destruct cur as [recs|]; [destruct (_ <? _)|]; intros [= <- <-]; cbn [option_list option_rect]; rewrite !concat_app; cbn [concat]; rewrite ?app_nil_r, ?app_assoc; reflexivity.
Qed.

Lemma copy_writing ps : forall segs cur, Forall (fun p => payload_ok p (payload_size p)) ps -> (cur = None -> segs = []) -> (pack cap (bins segs cur) (map payload_size ps)).1 <= len ids ->
  wtriple (writing segs cur) (copy_all ps) (fun xs w o => exists segs' cur', writing segs' cur' w o /\ concat (closed_outputs segs' cur') = concat (closed_outputs segs cur) ++ zip xs ps /\ length xs = length ps /\
    len (closed_outputs segs' cur') = (pack cap (bins segs cur) (map payload_size ps)).1).
Proof.
  induction ps as [|p ps IH]; intros segs cur Hp Hc Hroom w o Hw; cbn [copy_all].
  - cbn. split; [auto|]. exists segs, cur. rewrite app_nil_r. auto.
  - inversion Hp as [|? ? Hp1 Hps]; subst. cbn [map pack foldl] in Hroom |- *. fold (pack cap (pack1 cap (bins segs cur) (payload_size p)) (map payload_size ps)) in *. pose proof (pack_grows (map payload_size ps) (pack1 cap (bins segs cur) (payload_size p))) as Hg.
    pose proof (append_writing segs cur p _ Hp1 Hc ltac:(lia) w o Hw) as H. destruct (cw_Append None p w o) as [o1 [w1 [x|e]]]; cbn [fst snd] in H; destruct H as [F1 H]; [|cbn; auto]. destruct H as [Esz H]. pose proof (packed_bins segs cur (x, p) Hc) as Hb. destruct (packed segs cur (x, p)) as [segs1 recs1] eqn:Epk. rewrite Esz in Hb.
    specialize (IH segs1 (Some recs1) Hps ltac:(discriminate)). rewrite Hb in IH. specialize (IH Hroom w1 o1 H). destruct (copy_all ps w1 o1) as [o2 [w2 [xs|e]]]; cbn [fst snd] in IH |- *; destruct IH as [F2 IH]; (split; [auto|]).
    + destruct IH as (segs2 & cur2 & I1 & I2 & I3 & I4). exists segs2, cur2. split; [exact I1|]. split; [|split; [cbn; lia|exact I4]]. rewrite I2, (packed_concat _ _ _ _ _ Epk), <- app_assoc. reflexivity.
    + destruct IH as [I1 I2]. auto.
Qed.

Lemma finish_writing segs cur : wtriple (writing segs cur) cw_Finish (fun sums w o => sums = map (fun x => log_summary x.1 x.2) (zip ids (closed_outputs segs cur)) /\
  Forall (fun x => log_recs (hdr x.1) x.2) (zip ids (closed_outputs segs cur)) /\ (length (closed_outputs segs cur) <= length ids)%nat /\ at_disk (sealed_disk (closed_outputs segs cur)) u o).
Proof.
  intros w o Hw. unfold cw_Finish. destruct (wr_ids _ _ _ _ Hw) as (_ & -> & _). pose proof (seal_any segs cur w o Hw) as H. destruct (seal_output w o) as [o1 [w1 [[]|e]]]; cbn [fst snd] in H |- *; destruct H as [F1 H]; (split; [exact F1|]); [|auto].
  destruct H as [(W1 & W2 & W2') W3 W4 [W5 W6] W7 W8]. cbn. split; [exact W4|]. split; [exact W5|]. split; [lia|exact W7].
Qed.

(** ** Rollback *)

Lemma remove_name d p (o : os lpath C) : at_disk d u o -> os_faults o = [] -> exists o', ignore_missing (fs_remove p) o = (o', Ok tt) /\ at_disk (delete p d) u o' /\ os_faults o' = [].
Proof.
  intros Ho Hf. pose proof (disk_remove_any True d u p o Ho) as H. destruct (ignore_missing (fs_remove p) o) as [o' [[]|e]]; cbn [fst snd] in H; destruct H as [F H]; [|destruct H as [_ H]; destruct (H I Hf)]. exists o'. auto.
Qed.

Lemma remove_output_ok d id (o : os lpath C) : at_disk d u o -> os_faults o = [] -> exists o', remove_output id o = (o', Ok []) /\ at_disk (delete (LSealed id) (delete (LActive id) (delete (LCreating id) d))) u o' /\ os_faults o' = [].
Proof.
  intros Ho Hf. unfold remove_output. cbn [foldl]. destruct (remove_name d (LCreating id) o Ho Hf) as (o1 & -> & H1 & F1). destruct (remove_name _ (LActive id) o1 H1 F1) as (o2 & -> & H2 & F2). destruct (remove_name _ (LSealed id) o2 H2 F2) as (o3 & -> & H3 & F3). eauto.
Qed.

Lemma remove_outputs_ok : forall l d (o : os lpath C), Forall (fun id => IsCompactionSegment id = true) l -> at_disk d u o -> os_faults o = [] ->
  exists o' d', remove_outputs l [] o = (o', Ok []) /\ at_disk d' u o' /\ os_faults o' = [] /\ (forall p, output_name l p -> d' !! p = None) /\ (forall p, ~ output_name l p -> d' !! p = d !! p) /\ (forall p, d !! p = None -> d' !! p = None).
Proof.
  induction l as [|id l IH]; intros d o Hl Ho Hf; cbn [remove_outputs].
  - exists o, d. repeat (split; [first [reflexivity|assumption|intros p (id & Hi & _); inversion Hi]|]). auto.
  - inversion Hl as [|? ? Hid Hl']; subst. rewrite Hid. cbn [negb]. destruct (remove_output_ok d id o Ho Hf) as (o1 & -> & H1 & F1). cbn [app]. destruct (IH _ o1 Hl' H1 F1) as (o2 & d2 & E2 & H2 & F2 & K1 & K2 & K3). exists o2, d2. split; [exact E2|]. split; [exact H2|]. split; [exact F2|]. split; [|split].
    + intros p (i & Hi & Hp). apply elem_of_cons in Hi as [->|Hi]; [|apply K1; exists i; auto]. apply K3. destruct Hp as [->|[->| ->]]; [rewrite !lookup_delete_ne by discriminate; apply lookup_delete_eq|rewrite lookup_delete_ne by discriminate; apply lookup_delete_eq|apply lookup_delete_eq].
    + intros p Hp. rewrite K2 by (intros (i & Hi & X); apply Hp; exists i; split; [now right|exact X]). rewrite !lookup_delete_ne; [reflexivity|..]; intros <-; apply Hp; exists id; (split; [now left|auto]).
    + intros p Hp. apply K3. rewrite !lookup_delete_None. auto.
Qed.

(** Removing the unpublished outputs restores the directory. *)
Lemma rollback_ok (o : os lpath C) : ostop ids d0 u o -> exists o', RemoveUnpublishedCompactionFiles ids (refault o []) = (o', Ok tt) /\ at_disk d0 u o'.
Proof.
  intros (d & Hd & Ho). unfold RemoveUnpublishedCompactionFiles. assert (Hc : Forall (fun id => IsCompactionSegment id = true) ids) by (eapply Forall_impl; [exact (rv_range Hres)|]; intros id [Hid _]; apply Z.leb_le; exact Hid).
  destruct (remove_outputs_ok ids d (refault o []) Hc ltac:(now apply at_disk_faults) eq_refl) as (o1 & d1 & -> & H1 & F1 & K1 & K2 & _). assert (d1 = d0) as ->.
  { apply map_eq. intros p. assert (Hdec : output_name ids p \/ ~ output_name ids p).
    { assert (Hx : forall i, i ∈ ids \/ i ∉ ids) by (intros i; destruct (decide (i ∈ ids)); auto). unfold output_name. destruct p as [i|i|i|i| |]; try (right; intros (j & _ & [X|[X|X]]); discriminate); destruct (Hx i); try (left; exists i; auto; fail); right; intros (j & Hj & [X|[X|X]]); try discriminate; congruence. }
    destruct Hdec as [Hp|Hp]; [rewrite (K1 p Hp); symmetry; now apply (rv_fresh Hres)|rewrite (K2 p Hp); now apply Hd]. }
  unfold syncDir, fs_point, next_fault. rewrite F1. exists o1. split; [reflexivity|exact H1].
Qed.

(** ** Registration *)

(** The sealed segment of an output, as it is opened. *)
Definition opened_as (o : os lpath C) (x : Z * list LogRecord) (sg : sealedSegment) : Prop := exists f, owns o (LSealed x.1) f /\ sg = mkSealed (Some f) (hdr x.1) (log_summary x.1 x.2).

Lemma open_output d (o : os lpath C) id recs : at_disk d u o -> id ∈ ids -> log_recs (hdr id) recs -> d !! LSealed id = Some (log_sealed_image (hdr id) recs) -> exists sg, openSealedSegment (hdr id) (log_summary id recs) o = (o, Ok sg) /\ opened_as o (id, recs) sg.
Proof.
  intros Ho Hi Hr Hd. pose proof (rv_headers Hres) as Hh. rewrite Forall_forall in Hh. destruct (Hh id Hi) as [Hu Hv]. pose proof (summary_valid_data _ Hu Hv recs Hr) as Hs. pose proof (sealed_image_checks _ Hu Hv recs Hr) as Hk. unfold openSealedSegment. cbn [log_headerFor sh_SegmentID sh_SegmentSize log_summary ds_SegmentID] in *. rewrite Z.eqb_refl, Hs. cbn [negb orb].
  assert (Hf : exists f, os_names o !! LSealed id = Some f /\ bytes_of o f = log_sealed_image (hdr id) recs). { rewrite <- (ad_disk _ _ _ Ho) in Hd. unfold disk in Hd. rewrite lookup_fmap in Hd. destruct (os_names o !! LSealed id) as [f|]; [|discriminate]. injection Hd as Hd. eauto. }
  destruct Hf as (f & Ef & Eb). unfold io_bind, fs_open, fs_data, io_lift. rewrite Ef, Eb, Hk. eexists. split; [reflexivity|]. exists f. auto.
Qed.

Lemma open_outputs_ok d (o : os lpath C) : at_disk d u o -> forall l acc, Forall (fun x => x.1 ∈ ids /\ log_recs (hdr x.1) x.2 /\ d !! LSealed x.1 = Some (log_sealed_image (hdr x.1) x.2)) l ->
  exists sgs, open_outputs s (map (fun x => log_summary x.1 x.2) l) acc o = (o, Ok (acc ++ sgs)) /\ Forall2 (opened_as o) l sgs.
Proof.
  intros Ho. induction l as [|[id recs] l IH]; intros acc Hl; cbn [map open_outputs].
  - exists []. rewrite app_nil_r. auto.
  - inversion Hl as [|? ? (H1 & H2 & H3) Hl']; subst. cbn [fst snd] in *. pose proof (rv_range Hres) as Hrg. rewrite Forall_forall in Hrg. destruct (Hrg id H1) as [Hc _]. change (ds_SegmentID (log_summary id recs)) with id. unfold IsCompactionSegment. replace (_ <=? id) with true by (symmetry; now apply Z.leb_le). cbn [negb].
    destruct (open_output d o id recs Ho H1 H2 H3) as (sg & -> & Hsg). destruct (IH (acc ++ [sg]) Hl') as (sgs & E & Hf). exists (sg :: sgs). rewrite E, <- app_assoc. split; [reflexivity|now constructor].
Qed.

Lemma add_outputs : forall sgs r, NoDup (map (fun sg => sh_SegmentID (sl_header sg)) sgs) -> Forall (fun sg => rg_entries r !! sh_SegmentID (sl_header sg) = None) sgs -> heap_fresh r ->
  let r' := foldl (fun r sg => add_entry r (sh_SegmentID (sl_header sg)) (mkEntry segmentSealed None (Some sg) 0)) r sgs in
  heap_fresh r' /\ (forall i x, entry_at r i = Some x -> entry_at r' i = Some x) /\ Forall (fun sg => exists l, entry_at r' (sh_SegmentID (sl_header sg)) = Some (l, mkEntry segmentSealed None (Some sg) 0)) sgs.
Proof.
  induction sgs as [|sg sgs IH]; intros r Hn He Hf; cbn [foldl]; [auto|]. inversion Hn as [|? ? Hnot Hn']; inversion He as [|? ? He1 He']; subst. set (i := sh_SegmentID (sl_header sg)) in *. set (r1 := add_entry r i (mkEntry segmentSealed None (Some sg) 0)).
  assert (Hold : forall j x, entry_at r j = Some x -> entry_at r1 j = Some x).
  { intros j [l e] E. apply entry_parts in E as [E1 E2]. unfold entry_at, r1, add_entry. cbn. rewrite lookup_insert_ne by (intros <-; congruence). rewrite E1, lookup_insert_ne; [now rewrite E2|]. intros <-. pose proof (Hf _ ltac:(eauto) : (_ < _)%nat). lia. }
  assert (Hf1 : heap_fresh r1) by (intros x [e Ex]; cbn in Ex |- *; apply lookup_insert_Some in Ex as [[<- _]|[_ Ex]]; [lia|]; pose proof (Hf _ ltac:(eauto)); lia).
  destruct (IH r1 Hn') as (K1 & K2 & K3); [|exact Hf1|].
  - rewrite Forall_forall in He'. apply Forall_forall. intros y Hy. unfold r1, add_entry. cbn. rewrite lookup_insert_ne; [auto|]. intros E. apply Hnot. apply list_elem_of_In. rewrite E. apply (in_map (fun sg => sh_SegmentID (sl_header sg))). now apply list_elem_of_In.
  - split; [exact K1|]. split; [auto|]. constructor; [|exact K3]. eexists. apply K2. unfold entry_at, r1, add_entry. cbn. rewrite !lookup_insert_eq. reflexivity.
Qed.

Lemma sealed_disk_at segs id recs : (id, recs) ∈ zip ids segs -> sealed_disk segs !! LSealed id = Some (log_sealed_image (hdr id) recs).
Proof.
  intros Hin. unfold sealed_disk. assert (Hn : NoDup (zip ids segs).*1) by (destruct (rv_ids Hres) as (_ & Hn & _); eapply sublist_NoDup; [exact Hn|apply zip_fst_sublist]).
  revert Hn Hin. generalize (zip ids segs) d0. clear. induction l as [|[a b] l IH]; intros d Hn Hin; [inversion Hin|]. cbn [foldl fst snd] in *. inversion Hn as [|? ? Ha Hn']; subst. apply elem_of_cons in Hin as [[= <- <-]|Hin]; [|now apply IH].
  enough (forall d : gmap lpath (list Z), foldl (fun d x => <[LSealed x.1 := log_sealed_image (hdr x.1) x.2]> d) d l !! LSealed id = d !! LSealed id) as -> by apply lookup_insert_eq.
  clear IH Hn Hn'. induction l as [|[a b] l IH]; intros d'; [reflexivity|]. cbn [foldl fst snd] in *. rewrite IH by (intros X; apply Ha; now right). rewrite lookup_insert_ne; [reflexivity|]. intros [= ->]. apply Ha. now left.
Qed.

(** What a registered output shows. *)
Definition registered_output (l : Log) (o : os lpath C) (x : Z * list LogRecord) : Prop :=
  exists loc sg, entry_at (lg_registry l) x.1 = Some (loc, mkEntry segmentSealed None (Some sg) 0) /\ sl_summary sg = log_summary x.1 x.2 /\ sealed_scan sg 64 o = (o, Ok x.2).

Lemma register_ok l outs (o : os lpath C) : at_disk (sealed_disk outs) u o -> Forall (fun x => log_recs (hdr x.1) x.2) (zip ids outs) -> (length outs <= length ids)%nat -> outs <> [] ->
  rg_closed (lg_registry l) = false -> heap_fresh (lg_registry l) -> Forall (fun id => rg_entries (lg_registry l) !! id = None) ids ->
  exists l', RegisterCompactionOutputs l (map (fun x => log_summary x.1 x.2) (zip ids outs)) o = (o, (l', Ok tt)) /\ Forall (registered_output l' o) (zip ids outs) /\ (forall i x, entry_at (lg_registry l) i = Some x -> entry_at (lg_registry l') i = Some x).
Proof.
  intros Ho Hr Hlen Hne Hc Hf Hno. unfold RegisterCompactionOutputs. destruct (rv_ids Hres) as (Hids & Hnd & _). set (xs := zip ids outs) in *.
  assert (Hxs : xs <> []) by (unfold xs; clear - Hids Hne; destruct ids, outs; cbn; congruence). assert (Hz : len (map (fun x => log_summary x.1 x.2) xs) =? 0 = false) by (apply Z.eqb_neq; rewrite len_map; destruct xs; [congruence|]; rewrite len_cons; pose proof (len_nonneg xs); lia). rewrite Hz.
  assert (Hsn : lp_Snapshot (os_user o) = s) by exact (ad_user _ _ _ Ho). rewrite Hsn.
  assert (Hin : Forall (fun x => x.1 ∈ ids /\ log_recs (hdr x.1) x.2 /\ sealed_disk outs !! LSealed x.1 = Some (log_sealed_image (hdr x.1) x.2)) xs).
  { rewrite Forall_forall in *. intros [id recs] Hx. split; [exact (elem_of_zip_l _ _ _ _ Hx)|]. split; [exact (Hr _ Hx)|now apply sealed_disk_at]. }
  destruct (open_outputs_ok _ o Ho xs [] Hin) as (sgs & -> & Hop). cbn [app].
  assert (Hids2 : map (fun sg => sh_SegmentID (sl_header sg)) sgs = xs.*1) by (clear -Hop; induction Hop as [|x sg l l' (f & _ & ->) H IH]; cbn; [reflexivity|now f_equal]).
  assert (Hfst : xs.*1 `sublist_of` ids) by apply zip_fst_sublist.
  assert (Hnone : Forall (fun sg => rg_entries (lg_registry l) !! sh_SegmentID (sl_header sg) = None) sgs).
  { apply Forall_forall. intros sg Hsg. rewrite Forall_forall in Hno. apply Hno. pose proof (Forall_sublist (fun i => i ∈ ids) _ _ Hfst (proj2 (Forall_forall _ _) (fun i H => H))) as Hall. rewrite Forall_forall in Hall. apply Hall. rewrite <- Hids2. apply list_elem_of_In, (in_map (fun sg => sh_SegmentID (sl_header sg))). now apply list_elem_of_In. }
  unfold publishSealed. rewrite Hc. assert (Hsz : len sgs =? 0 = false) by (apply Z.eqb_neq; unfold len; rewrite <- (Forall2_length _ _ _ Hop); destruct xs; [congruence|cbn; lia]). rewrite Hsz. cbn [orb].
  assert (Href : existsb (output_refused (lg_registry l)) sgs = false).
  { apply not_true_is_false. rewrite existsb_exists. intros (sg & Hsg & Hb). apply list_elem_of_In in Hsg. rewrite Forall_forall in Hnone. specialize (Hnone sg Hsg). unfold output_refused in Hb. rewrite Hnone in Hb. destruct (Forall2_member_r _ _ _ sg Hop Hsg) as (x & (f & _ & ->) & Hx). rewrite Forall_forall in Hin. destruct (Hin x Hx) as (Hi & _). pose proof (rv_range Hres) as Hrg. rewrite Forall_forall in Hrg. destruct (Hrg _ Hi) as [Hcb _].
    cbn in Hb. unfold IsCompactionSegment in Hb. replace (_ <=? x.1) with true in Hb by (symmetry; now apply Z.leb_le). discriminate. }
  rewrite Href. destruct (add_outputs sgs (lg_registry l)) as (A1 & A2 & A3); [rewrite Hids2; eapply sublist_NoDup; eassumption|exact Hnone|exact Hf|]. eexists. split; [reflexivity|]. split; [|intros i x Ei; exact (A2 i x Ei)].
  apply Forall_forall. intros x Hx. destruct (Forall2_member_l _ _ _ x Hop Hx) as (sg & (f & Hown & ->) & Hsg). rewrite Forall_forall in A3. destruct (A3 _ Hsg) as [loc El]. exists loc, (mkSealed (Some f) (hdr x.1) (log_summary x.1 x.2)). split; [exact El|]. split; [reflexivity|].
  rewrite Forall_forall in Hin. destruct (Hin x Hx) as (Hi & Hrx & Hdx). rewrite (disk_owns _ _ _ _ _ Ho Hown) in Hdx. injection Hdx as Hdx. pose proof (rv_headers Hres) as Hh. rewrite Forall_forall in Hh. destruct (Hh _ Hi) as [Hu Hv].
  unfold sealed_scan. cbn [sl_file sl_summary]. unfold io_bind, fs_data, io_lift. rewrite Hdx. unfold log_sealed_image, log_summary. now rewrite (scan_range_spec (hdr x.1) Hu Hv [] x.2 _ _ _ _ Hrx).
Qed.
End Writer.

(** ** The whole copy *)

(** What the engine does with the writer: every payload is appended, then the
    outputs are finished. *)
Definition write_outputs {C} `{!LogPort C} (ps : list (list Z)) : wio (C := C) (list AppendResult * list SegmentSummary) := fun w o =>
  match copy_all ps w o with
  | (o, (w, Err e)) => (o, (w, Err e))
  | (o, (w, Ok results)) => match cw_Finish w o with (o, (w, Ok summaries)) => (o, (w, Ok (results, summaries))) | (o, (w, Err e)) => (o, (w, Err e)) end
  end.

(** The records of a segment of the log. *)
Definition segment_records (s : LogSnapshot) (recs : list LogRecord) : Prop := exists h, sh_SegmentSize h = ls_SegmentSize s /\ log_recs h recs /\ Forall (fun r => len r.2 <= ls_MaxPayloadBytes s) recs.

Lemma placed_sizes id off recs : placed id off recs -> Forall (fun r => bytes_ok r.2 /\ PhysicalRecordSize (len r.2) = Ok (payload_size r.2)) recs /\ total (map payload_size (map snd recs)) = body_size recs.
Proof.
  revert off. induction recs as [|r recs IH]; intros off; cbn [placed map]; [repeat split; constructor|]. intros [[H1 H2 _ _] H3]. destruct (IH _ H3) as [I1 I2]. assert (Hs : payload_size r.2 = rec_size r) by (unfold payload_size; now rewrite H2). split; [constructor; [split; [exact H1|now rewrite Hs]|exact I1]|]. unfold total in *. cbn [map foldr]. rewrite I2, body_size_cons, Hs. reflexivity.
Qed.

Lemma physical_nonneg p : 0 <= payload_size p.
Proof. unfold payload_size. destruct (PhysicalRecordSize (len p)) eqn:E; [|lia]. destruct (PhysicalRecordSize_spec _ _ (len_nonneg p) E). lia. Qed.

Lemma map_sublist {A B} (f : A -> B) a b : a `sublist_of` b -> map f a `sublist_of` map f b.
Proof. induction 1; cbn; constructor; assumption. Qed.

(** The payloads to copy, and the segments they come from. *)
Lemma copies_fit s parts ps : Forall (segment_records s) parts -> ps `sublist_of` map snd (concat parts) ->
  Forall (fun p => payload_ok s p (payload_size p)) ps /\ (pack (cap s) (0, 0) (map payload_size ps)).1 <= len parts.
Proof.
  intros Hparts Hsub. split.
  - refine (Forall_sublist _ _ _ Hsub _). apply Forall_forall. intros p Hp. apply list_elem_of_In, in_map_iff in Hp as (r & <- & Hr). apply in_concat in Hr as (recs & Hrecs & Hr). rewrite Forall_forall in Hparts. apply list_elem_of_In in Hrecs. destruct (Hparts _ Hrecs) as (h & Hsz & [Hpl Hfit] & Hmax).
    destruct (placed_sizes _ _ _ Hpl) as [Hall Htot]. rewrite Forall_forall in Hall, Hmax. apply list_elem_of_In in Hr. destruct (Hall r Hr) as [Hb Hp]. constructor; [split; [exact Hb|exact (Hmax r Hr)]|exact Hp|].
    apply list_elem_of_split in Hr as (pre & suf & ->). rewrite body_size_app, body_size_cons in Hfit. apply placed_app in Hpl as [Hp1 [Hp2 Hp3]]. pose proof (body_size_nonneg _ _ _ Hp1). pose proof (body_size_nonneg _ _ _ Hp3). unfold cap. rewrite Hsz in Hfit. unfold rec_size in Hfit. unfold payload_size. lia.
  - rewrite <- (len_map (fun recs => map payload_size (map snd recs))). apply pack_sublist.
    + replace (concat (map (fun recs => map payload_size (map snd recs)) parts)) with (map payload_size (map snd (concat parts))); [now apply map_sublist|]. clear. induction parts as [|a parts IH]; [reflexivity|]. cbn [concat map]. now rewrite !map_app, IH.
    + apply Forall_forall. intros x Hx. apply list_elem_of_In, in_map_iff in Hx as (recs & <- & _). apply Forall_forall. intros n Hn. apply list_elem_of_In, in_map_iff in Hn as (p & <- & _). apply physical_nonneg.
    + apply Forall_forall. intros x Hx. apply list_elem_of_In, in_map_iff in Hx as (recs & <- & Hr). rewrite Forall_forall in Hparts. apply list_elem_of_In in Hr. destruct (Hparts _ Hr) as (h & Hsz & [Hpl Hfit] & _). rewrite (proj2 (placed_sizes _ _ _ Hpl)). unfold cap. lia.
Qed.

(** C9: the outputs of a data compaction.  When the payloads are some of those of
    the input segments, in their order, as many reserved segments as there are
    inputs are enough: without faults every append and [Finish] succeed.  The
    outputs are then sealed files, at most as many as inputs, that hold exactly the
    payloads, at the addresses that were returned; registering them makes each of
    them scan as its records and leaves the other segments.  After a failure no
    other file has changed, and removing the unpublished files restores the
    directory. *)
Theorem compaction_outputs_exact {C} `{!LogPort C} s ids d0 parts ps (l : Log) w (o : os lpath C) :
  reserved s ids d0 -> at_disk d0 (log_of s) o -> lg_maxPayloadBytes l = ls_MaxPayloadBytes s -> NewCompactionWriter l ids = Ok w ->
  Forall (segment_records s) parts -> (length parts <= length ids)%nat -> ps `sublist_of` map snd (concat parts) ->
  let '(o', (w', r)) := write_outputs ps w o in
  match r with
  | Ok (results, summaries) => exists outs, length results = length ps /\ concat outs = zip results ps /\ (length outs <= length parts)%nat /\
      summaries = map (fun x => log_summary x.1 x.2) (zip ids outs) /\ disk o' = sealed_disk s ids d0 outs /\
      (outs <> [] -> rg_closed (lg_registry l) = false -> heap_fresh (lg_registry l) -> Forall (fun id => rg_entries (lg_registry l) !! id = None) ids ->
       exists l', RegisterCompactionOutputs l summaries o' = (o', (l', Ok tt)) /\ Forall (registered_output l' o') (zip ids outs) /\
         forall i x, entry_at (lg_registry l) i = Some x -> entry_at (lg_registry l') i = Some x)
  | Err _ => os_faults o <> [] /\ exists o2, RemoveUnpublishedCompactionFiles ids (refault o' []) = (o2, Ok tt) /\ disk o2 = d0
  end.
Proof.
  intros Hres Ho Hmax Ew Hparts Hlen Hsub. destruct (copies_fit s parts ps Hparts Hsub) as [Hps Hbins]. destruct (rv_ids _ _ _ Hres) as (Hne & _ & Hcons).
  assert (Hw : writing s ids d0 [] None w o). { unfold NewCompactionWriter in Ew. inv_ok Ew. apply Ok_inj in Ew. subst w. assert (Hz : zip ids (@nil (list LogRecord)) = []) by (clear; destruct ids; reflexivity). constructor; cbn [cw_ids cw_closed cw_maxPayloadBytes cw_used cw_summaries cw_active]; rewrite ?Hz; auto; [split; [constructor|cbn; lia]|]. unfold out_disk, sealed_disk. rewrite Hz. exact Ho. }
  assert (Hfail : forall o1, ostop ids d0 (log_of s) o1 -> exists o2, RemoveUnpublishedCompactionFiles ids (refault o1 []) = (o2, Ok tt) /\ disk o2 = d0).
  { intros o1 H. destruct (rollback_ok s ids d0 Hres o1 H) as (o2 & E & Hd). exists o2. split; [exact E|exact (ad_disk _ _ _ Hd)]. }
  assert (Hlz : len parts <= len ids) by (unfold len; lia). unfold write_outputs. pose proof (copy_writing s ids d0 Hres ps [] None Hps (fun _ => eq_refl) ltac:(change (bins [] None) with (0, 0); lia) w o Hw) as H. change (bins [] None) with (0, 0) in H.
  destruct (copy_all ps w o) as [o1 [w1 [xs|e]]]; cbn [fst snd] in H; destruct H as [F1 H]; [|destruct H; auto]. destruct H as (segs & cur & H1 & H2 & H3 & H4).
  pose proof (finish_writing s ids d0 Hres segs cur w1 o1 H1) as H. destruct (cw_Finish w1 o1) as [o2 [w2 [sums|e]]]; cbn [fst snd] in H; destruct H as [F2 H]; [|destruct H as [K1 K2]; split; [auto|now apply Hfail]].
  destruct H as (-> & K2 & K3 & K4). exists (closed_outputs segs cur). split; [exact H3|]. split; [exact H2|]. split; [unfold len in *; lia|]. split; [reflexivity|]. split; [exact (ad_disk _ _ _ K4)|]. intros N1 N2 N3 N4. exact (register_ok s ids d0 Hres l _ o2 K4 K2 K3 N1 N2 N3 N4).
Qed.

(** ** Removing the file of a retired segment *)

Section Retire.
Context {C : Type} (id : Z) (x : list Z) (d0 : gmap lpath (list Z)) (u : C -> Prop).
Context (Hs : d0 !! LSealed id = Some x) (Ht : d0 !! LTrash id = None).

Definition in_trash : gmap lpath (list Z) := <[LTrash id := x]> (delete (LSealed id) d0).
Definition gone : gmap lpath (list Z) := delete (LSealed id) d0.
Definition rph (d : gmap lpath (list Z)) (v : C -> Prop) : Prop := (d = d0 \/ d = in_trash \/ d = gone) /\ v = u.
Definition rstop (o : os lpath C) : Prop := exists d, (d = d0 \/ d = in_trash \/ d = gone) /\ at_disk d u o.

Lemma rstop_in d v o : rph d v -> at_disk d v o -> rstop o.
Proof. intros [H ->] Ho. exists d. auto. Qed.

Local Abbreviation step_point := (FsDisk.step_point True rph rstop rstop_in).
Local Abbreviation step_test := (FsDisk.step_test True rph rstop rstop_in).
Local Abbreviation step_rename := (FsDisk.step_rename True rph rstop rstop_in).
Local Abbreviation step_remove := (FsDisk.step_remove True rph rstop rstop_in).

Lemma trash_removed : delete (LTrash id) in_trash = gone.
Proof. unfold in_trash, gone. apply delete_insert_id. rewrite lookup_delete_ne by discriminate. exact Ht. Qed.

(** The second half: the file is in the trash. *)
Lemma empty_trash : triple True (at_disk in_trash u) (run hitSegmentFault ;; run syncDir ;; run hitSegmentFault ;; run syncDir ;; run hitSegmentFault ;; run fs_remove (LTrash id) ;; run hitSegmentFault ;; syncDir) (fun _ => at_disk gone u) rstop.
Proof.
  assert (Hp : rph in_trash u) by (split; auto). assert (Hg : rph gone u) by (split; auto). do 5 (apply step_point; [exact Hp|]).
  apply (step_remove _ _ Hp _ _ gone); [unfold in_trash; rewrite lookup_insert_eq; eauto|exact trash_removed|exact Hg|]. apply step_point; [exact Hg|]. apply (FsDisk.last_step True rph rstop rstop_in). exact Hg.
Qed.

Lemma cleanup_step d : d = d0 \/ d = in_trash \/ d = gone -> triple True (at_disk d u) (cleanupRetiredSegment id) (fun _ => at_disk gone u) rstop.
Proof.
  intros Hd. assert (Hp : rph d u) by (split; auto). assert (Hp2 : rph in_trash u) by (split; auto). unfold cleanupRetiredSegment. apply (FsDisk.step_seq True rstop _ (fun _ => at_disk d u)); [unfold ensureTrashDirectory; do 2 (apply step_point; [exact Hp|]); apply (FsDisk.last_step True rph rstop rstop_in); exact Hp|intros _]. apply step_test; [exact Hp|]. apply step_test; [exact Hp|]. unfold gone, in_trash in *. destruct Hd as [->|[->| ->]].
  - rewrite Hs, Ht. rewrite bool_decide_eq_true_2 by eauto. rewrite (bool_decide_eq_false_2 (is_Some None)) by (intros [? ?]; discriminate). cbn [andb orb].
    apply (FsDisk.step_seq True rstop _ (fun _ => at_disk in_trash u)); [|intros _; apply empty_trash]. apply step_point; [exact Hp|].
    intros o Ho. pose proof (step_rename d0 u Hp (fun _ : unit => at_disk in_trash u) (LSealed id) (LTrash id) x in_trash (io_ret tt) Hs eq_refl Hp2 (triple_ret _ _ _ _ _ (fun o Ho => Ho)) o Ho) as H. unfold io_bind in H. destruct (fs_rename (LSealed id) (LTrash id) o) as [o1 [[]|e]]; exact H.
  - rewrite lookup_insert_ne, lookup_delete_eq, lookup_insert_eq by discriminate. rewrite (bool_decide_eq_true_2 (is_Some (Some x))) by eauto. rewrite (bool_decide_eq_false_2 (is_Some None)) by (intros [? ?]; discriminate). cbn [andb orb].
    apply (FsDisk.step_seq True rstop _ (fun _ => at_disk in_trash u)); [now apply triple_ret|intros _; apply empty_trash].
  - rewrite lookup_delete_eq, lookup_delete_ne, Ht by discriminate. rewrite !bool_decide_eq_false_2 by (intros [? ?]; discriminate). cbn [andb orb]. apply (FsDisk.step_seq True rstop _ (fun _ => at_disk gone u)); [now apply triple_ret|intros _; now apply triple_ret].
Qed.

(** The same removal again and again, each time with other faults. *)
Fixpoint cleanup_again (runs : list (list fault)) (o : os lpath C) : os lpath C :=
  match runs with [] => o | fs :: runs => cleanup_again runs (cleanupRetiredSegment id (refault o fs)).1 end.

Lemma cleanup_again_phase runs : forall o, rstop o -> rstop (cleanup_again runs o).
Proof.
  induction runs as [|fs runs IH]; intros o Ho; [exact Ho|]. apply IH. destruct Ho as (d & Hd & Ho). pose proof (cleanup_step d Hd (refault o fs) ltac:(now apply at_disk_faults)) as [_ H]. destruct (cleanupRetiredSegment id (refault o fs)) as [o1 [y|e]]; cbn [fst snd] in *; [exists gone; auto|exact (proj1 H)].
Qed.
End Retire.

(** C28: removing the file of a retired segment is crash safe.  However often the
    removal is stopped and at whatever call, the file is in its place, in the trash
    or gone and no other file has changed; a removal that is not disturbed then
    ends with the file gone. *)
Theorem retired_file_removed {C} id x (o : os lpath C) runs : fs_wf o -> disk o !! LSealed id = Some x -> disk o !! LTrash id = None ->
  let o1 := cleanup_again id runs o in
  (disk o1 = disk o \/ disk o1 = in_trash id x (disk o) \/ disk o1 = gone id (disk o)) /\
  exists o2, cleanupRetiredSegment id (refault o1 []) = (o2, Ok tt) /\ disk o2 = delete (LSealed id) (disk o) /\ os_user o2 = os_user o.
Proof.
  intros Hwf Hs Ht o1. destruct (cleanup_again_phase id x (disk o) (fun c => c = os_user o) Hs Ht runs o) as (d & Hd & Ho); [exists (disk o); split; [auto|constructor; auto]|]. fold o1 in Ho. rewrite (ad_disk _ _ _ Ho). split; [exact Hd|].
  pose proof (cleanup_step id x (disk o) (fun c => c = os_user o) Hs Ht d Hd (refault o1 []) ltac:(now apply at_disk_faults)) as [_ H]. destruct (cleanupRetiredSegment id (refault o1 [])) as [o2 [[]|e]]; cbn [fst snd] in H; [|destruct H as [_ H]; destruct (H I eq_refl)]. exists o2. split; [reflexivity|]. destruct H as [_ H1 H2]. auto.
Qed.
