(* ===== verification/SegmentStats.v ===== *)
(** * Live statistics of the data segments

    Models [internal/segmentstats] (the statistics of one immutable mapping, from a
    walk over its references) and [checkpointSegmentStats] of
    [internal/engine/store.go] (the statistics a checkpoint installs, from the
    counters that the mapping keeps).  The two are shown to agree, and to be what the
    validation of a manifest asks for. *)
From S2P Require Import Prelude Addr RecordFormat Mapping Catalog.

(** ** Building from a walk *)

Record FileSet := mkFileSet { fl_Active : Z; fl_Sealed : list DataSegmentSummary }.

Fixpoint sealed_files (active previous : Z) (sealed : list DataSegmentSummary) (m : gmap Z DataSegmentSummary) : res (gmap Z DataSegmentSummary) :=
  match sealed with
  | [] => Ok m
  | s :: rest =>
      let regular := ds_SegmentID s <? active in
      let compacted := IsCompactionSegment (ds_SegmentID s) in
      raise [base_ErrInvalidConfig] when (ds_SegmentID s =? 0) || (negb regular && negb compacted) || (ds_SegmentID s <=? previous) ;;
      sealed_files active (ds_SegmentID s) rest (<[ds_SegmentID s := s]> m)
  end.
Definition sealedFiles (files : FileSet) : res (gmap Z DataSegmentSummary) := sealed_files (fl_Active files) 0 (fl_Sealed files) ∅.

(** the summary when the segment is sealed *)
Definition locate (addr active : Z) (sealed : gmap Z DataSegmentSummary) : res (option DataSegmentSummary) :=
  match sealed !! SegmentID addr with
  | Some s => Ok (Some s)
  | None => raise [base_ErrCorrupt] when negb (SegmentID addr =? active) ;; Ok None
  end.

Abbreviation StatsMap := (gmap Z SegmentStats).

Definition stats_add (stats : StatsMap) (id physicalSize : Z) : res StatsMap :=
  let stat := default (mkStats 0 0 0) (stats !! id) in
  let stat := if sst_SegmentID stat =? 0 then mkStats id (sst_LiveBytes stat) (sst_LiveRecords stat) else stat in
  raise [base_ErrOverflow] when (MaxUint64 - physicalSize <? sst_LiveBytes stat) || (sst_LiveRecords stat =? MaxUint64) ;;
  Ok (<[id := mkStats (sst_SegmentID stat) (sst_LiveBytes stat + physicalSize) (sst_LiveRecords stat + 1)]> stats).

(** The callback of the walk; [ctx.Err()] is not modelled. *)
Definition count_ref (files : FileSet) (sealed : gmap Z DataSegmentSummary) (maxEntries : Z) (stats : StatsMap) (ref : RecordRef) : res StatsMap :=
  let! summary := locate (Addr ref) (fl_Active files) sealed in
  raise [base_ErrCorrupt] when
    negb (RecordRef_Valid ref) ||
    match summary with Some s => (ds_ValidEnd s <? Offset (Addr ref)) || (ds_ValidEnd s - Offset (Addr ref) <? PhysicalSize ref) | None => false end ;;
  let! stats := stats_add stats (match summary with Some s => ds_SegmentID s | None => SegmentID (Addr ref) end) (PhysicalSize ref) in
  raise [base_ErrOverflow] when maxEntries <? Z.of_nat (size stats) ;;
  Ok stats.

Fixpoint count_refs (files : FileSet) (sealed : gmap Z DataSegmentSummary) (maxEntries : Z) (refs : list (Z * RecordRef)) (stats : StatsMap) : res StatsMap :=
  match refs with
  | [] => Ok stats
  | (_, ref) :: rest => let! stats := count_ref files sealed maxEntries stats ref in count_refs files sealed maxEntries rest stats
  end.

(** [sort.Slice] by segment id *)
Definition stat_le (a b : SegmentStats) : Prop := sst_SegmentID a <= sst_SegmentID b.
#[export] Instance stat_le_dec a b : Decision (stat_le a b).
Proof. unfold stat_le. apply _. Defined.
Definition sorted_stats (l : list SegmentStats) : list SegmentStats := merge_sort stat_le l.

(** [Build]; [walk] is what [WalkRefs] visits, with its error. *)
Definition Build (walk : res (list (Z * RecordRef))) (files : FileSet) (maxEntries : Z) : res (list SegmentStats) :=
  raise [base_ErrInvalidConfig] when (fl_Active files =? 0) || (maxEntries =? 0) ;;
  let! sealed := sealedFiles files in
  let! refs := walk in
  let! stats := count_refs files sealed maxEntries refs ∅ in
  raise [base_ErrOverflow] when maxEntries <? Z.of_nat (size stats) ;;
  Ok (sorted_stats (map snd (map_to_list stats))).

(** ** From the counters of the mapping *)

(** The summary of a sealed segment comes from a map by id; the ids of a validated
    manifest are distinct. *)
Definition checkpoint_stat (m : Manifest) (replayStart : LogPos) (id : Z) (st : SegmentLiveStats) : bool :=
  negb ((ls_LiveBytes st =? 0) || (ls_LiveRecords st =? 0)) &&
  if id =? mf_ActiveData m then
    negb (negb (pos_SegmentID replayStart =? id) || (pos_Offset replayStart <? Addr.SegmentHeaderSize) ||
          (pos_Offset replayStart - Addr.SegmentHeaderSize <? ls_LiveBytes st) || (ls_LiveBytes st / RecordHeaderSize <? ls_LiveRecords st))
  else match find_data (mf_SealedData m) id with
       | None => false
       | Some s => negb ((ds_ValidEnd s <? Addr.SegmentHeaderSize) || (ds_ValidEnd s - Addr.SegmentHeaderSize <? ls_LiveBytes st) || (ds_RecordCount s <? ls_LiveRecords st))
       end.

(** The loop over the map; [live] is the order in which it is visited. *)
Fixpoint checkpoint_stats (m : Manifest) (replayStart : LogPos) (maxEntries : Z) (live : list (Z * SegmentLiveStats)) (result : list SegmentStats) : res (list SegmentStats) :=
  match live with
  | [] => Ok result
  | (id, st) :: rest =>
      raise [base_ErrCorrupt] when negb (checkpoint_stat m replayStart id st) ;;
      raise [base_ErrOverflow] when len result =? maxEntries ;;
      checkpoint_stats m replayStart maxEntries rest (result ++ [mkStats id (ls_LiveBytes st) (ls_LiveRecords st)])
  end.

Definition checkpointSegmentStats (live : list (Z * SegmentLiveStats)) (m : Manifest) (replayStart : LogPos) (maxEntries : Z) : res (list SegmentStats) :=
  raise [base_ErrCorrupt] when negb (LogPos_Valid replayStart) ;;
  let! result := checkpoint_stats m replayStart maxEntries live [] in
  Ok (sorted_stats result).

(** ** The comparison of the verifier *)

Definition stats_by_id (l : list SegmentStats) : StatsMap := foldl (fun m st => <[sst_SegmentID st := st]> m) ∅ l.

(** The loop over the recorded statistics accepts. *)
Definition recorded_ok (exactByID : StatsMap) (stat : SegmentStats) : bool :=
  match exactByID !! sst_SegmentID stat with
  | Some want => bool_decide (want = stat)
  | None => (sst_LiveBytes stat =? 0) && (sst_LiveRecords stat =? 0)
  end.

Definition equalCoveredSegmentStats (exact recorded : list SegmentStats) : bool :=
  let exactByID := stats_by_id exact in
  let recordedByID := stats_by_id recorded in
  forallb (recorded_ok exactByID) recorded &&
  forallb (fun x => match recordedByID !! x.1 with Some got => bool_decide (got = x.2) | None => false end) (map_to_list exactByID).

(** ** Exact statistics *)

(** [l] lists, by segment, the bytes and records of [S]. *)
Record exact_stats (S : Entries) (l : list SegmentStats) : Prop := mkExactStats {
  xs_sorted : StronglySorted Z.lt (map sst_SegmentID l);
  xs_all : forall st, st ∈ l <-> seg_records S (sst_SegmentID st) <> 0 /\ sst_LiveBytes st = seg_bytes S (sst_SegmentID st) /\ sst_LiveRecords st = seg_records S (sst_SegmentID st);
}.

Lemma sorted_ids_unique (a b : list SegmentStats) : StronglySorted Z.lt (map sst_SegmentID a) -> StronglySorted Z.lt (map sst_SegmentID b) -> (forall st, st ∈ a <-> st ∈ b) -> a = b.
Proof.
  revert b. induction a as [|x a IH]; intros [|y b] Ha Hb H.
  - reflexivity.
  - exfalso. assert (X : y ∈ @nil SegmentStats) by (apply H; now left). inversion X.
  - exfalso. assert (X : x ∈ @nil SegmentStats) by (apply H; now left). inversion X.
  - cbn [map] in Ha, Hb. inversion Ha as [|? ? Ha1 Ha2]; inversion Hb as [|? ? Hb1 Hb2]; subst. rewrite Forall_forall in Ha2, Hb2.
    assert (La : forall z, z ∈ a -> sst_SegmentID x < sst_SegmentID z) by (intros z Hz; apply Ha2; apply list_elem_of_In, in_map, list_elem_of_In, Hz). assert (Lb : forall z, z ∈ b -> sst_SegmentID y < sst_SegmentID z) by (intros z Hz; apply Hb2; apply list_elem_of_In, in_map, list_elem_of_In, Hz).
    assert (x = y). { pose proof (proj1 (H x) ltac:(now left)) as Hx. apply elem_of_cons in Hx as [Hx|Hx]; [exact Hx|]. pose proof (proj2 (H y) ltac:(now left)) as Hy. apply elem_of_cons in Hy as [Hy|Hy]; [now symmetry|]. pose proof (La _ Hy). pose proof (Lb _ Hx). lia. }
    subst y. f_equal. apply IH; [exact Ha1|exact Hb1|]. intros st. split; intros Hs.
    + pose proof (proj1 (H st) ltac:(now right)) as X. apply elem_of_cons in X as [->|X]; [pose proof (La _ Hs); lia|exact X].
    + pose proof (proj2 (H st) ltac:(now right)) as X. apply elem_of_cons in X as [->|X]; [pose proof (Lb _ Hs); lia|exact X].
Qed.

Lemma exact_unique S a b : exact_stats S a -> exact_stats S b -> a = b.
Proof. intros [A1 A2] [B1 B2]. apply sorted_ids_unique; [exact A1|exact B1|]. intros st. rewrite A2, B2. reflexivity. Qed.

#[local] Instance stat_le_total : Total stat_le.
Proof. intros a b. unfold stat_le. lia. Qed.
#[local] Instance stat_le_trans : Transitive stat_le.
Proof. intros a b c. unfold stat_le. lia. Qed.

(** Sorting a list with distinct ids. *)
Lemma sorted_stats_strict l : NoDup (map sst_SegmentID l) -> StronglySorted Z.lt (map sst_SegmentID (sorted_stats l)) /\ (forall st, st ∈ sorted_stats l <-> st ∈ l).
Proof.
  intros Hn. pose proof (merge_sort_Permutation stat_le l) as Hp. assert (Hmem : forall st, st ∈ sorted_stats l <-> st ∈ l) by (intros st; unfold sorted_stats; now rewrite Hp). split; [|exact Hmem].
  assert (Hn' : NoDup (map sst_SegmentID (sorted_stats l))) by (unfold sorted_stats; now rewrite Hp). pose proof (StronglySorted_merge_sort stat_le l) as Hs. fold (sorted_stats l) in Hs. clear Hp Hmem Hn. revert Hn' Hs. generalize (sorted_stats l). clear. induction l as [|x l IH]; intros Hn Hs; cbn [map]; [constructor|].
  cbn [map] in Hn. inversion Hn as [|? ? Hx Hn']; inversion Hs as [|? ? Hs' Hle]; subst. constructor; [auto|]. rewrite Forall_forall in Hle. apply Forall_forall. intros i Hi. apply list_elem_of_In, in_map_iff in Hi as (y & <- & Hy). apply list_elem_of_In in Hy. specialize (Hle y Hy). unfold stat_le in Hle. enough (sst_SegmentID x <> sst_SegmentID y) by lia. intros E. apply Hx. rewrite E. apply list_elem_of_In, in_map, list_elem_of_In, Hy.
Qed.

(** *** The walk *)

(** Sums over a list of references. *)
Definition lsum (f : RecordRef -> Z) (l : list (Z * RecordRef)) : Z := foldr (fun x n => f x.2 + n) 0 l.

Lemma lsum_msum f (S : Entries) l : l ≡ₚ map_to_list S -> lsum f l = msum f S.
Proof.
  intros Hp. assert (Hl : forall a b, a ≡ₚ b -> lsum f a = lsum f b) by (induction 1; unfold lsum in *; cbn; lia). rewrite (Hl _ _ Hp). clear Hp Hl. unfold msum. rewrite map_fold_foldr. unfold lsum. induction (map_to_list S) as [|[i r] m IH]; cbn; [reflexivity|]. now rewrite IH.
Qed.

(** [m] counts [b s] bytes and [r s] records in segment [s]. *)
Definition counts (m : StatsMap) (b r : Z -> Z) : Prop := forall s, match m !! s with None => r s = 0 /\ b s = 0 | Some st => st = mkStats s (b s) (r s) /\ 0 < r s end.

Lemma counts_add m b r id n m' : counts m b r -> id <> 0 -> 0 <= r id -> stats_add m id n = Ok m' -> counts m' (fun s => b s + if s =? id then n else 0) (fun s => r s + if s =? id then 1 else 0).
Proof.
  intros Hc Hid Hr E. unfold stats_add in E. pose proof (Hc id) as Hi. assert (Hd : exists i0, default (mkStats 0 0 0) (m !! id) = mkStats i0 (b id) (r id) /\ (i0 = 0 \/ i0 = id)).
  { destruct (m !! id) as [st|]; [destruct Hi as [-> _]; exists id; auto|destruct Hi as [-> ->]; exists 0; auto]. }
  destruct Hd as (i0 & Hd & Hi0). rewrite Hd in E. assert (Hst : (if sst_SegmentID (mkStats i0 (b id) (r id)) =? 0 then mkStats id (b id) (r id) else mkStats i0 (b id) (r id)) = mkStats id (b id) (r id)) by (cbn; destruct Hi0 as [-> | ->]; [reflexivity|]; now destruct (id =? 0)).
  cbn [sst_LiveBytes sst_LiveRecords] in E. rewrite Hst in E. inv_ok E. apply Ok_inj in E. subst m'. intros s. destruct (Z.eqb_spec s id) as [->|Hne].
  - rewrite lookup_insert_eq. cbn. split; [reflexivity|lia].
  - rewrite lookup_insert_ne by congruence. specialize (Hc s). rewrite !Z.add_0_r. exact Hc.
Qed.

Lemma sealed_files_spec active sealed : forall previous m m', sealed_files active previous sealed m = Ok m' -> (forall k s, m !! k = Some s -> ds_SegmentID s = k /\ k <= previous) ->
  (forall k s, m' !! k = Some s -> ds_SegmentID s = k) /\ (forall k s, m !! k = Some s -> m' !! k = Some s) /\ (forall s, s ∈ sealed -> m' !! ds_SegmentID s = Some s) /\ (forall k, is_Some (m' !! k) -> is_Some (m !! k) \/ exists s, s ∈ sealed /\ ds_SegmentID s = k).
Proof.
  induction sealed as [|x sealed IH]; intros previous m m' E Hm; cbn [sealed_files] in E.
  - apply Ok_inj in E. subst. split; [intros k s Hs; apply Hm, Hs|]. split; [auto|]. split; [intros s Hs; inversion Hs|auto].
  - inv_ok E. match goal with H : _ || _ = false |- _ => rewrite !orb_false_iff in H; destruct H as [[_ _] Hgt] end. apply Z.leb_gt in Hgt. destruct (IH _ _ _ E) as (I1 & I2 & I3 & I4).
    + intros k s Hs. apply lookup_insert_Some in Hs as [[<- <-]|[_ Hs]]; [split; [reflexivity|lia]|]. destruct (Hm k s Hs). split; [assumption|lia].
    + split; [exact I1|]. assert (Hx : m' !! ds_SegmentID x = Some x) by (apply I2, lookup_insert_eq). split; [|split].
      * intros k s Hs. apply I2. rewrite lookup_insert_ne; [exact Hs|]. intros <-. destruct (Hm _ _ Hs). lia.
      * intros s Hs. apply elem_of_cons in Hs as [->|Hs]; [exact Hx|auto].
      * intros k Hk. destruct (I4 k Hk) as [Hi|(s & Hs & Es)]; [|right; exists s; split; [now right|exact Es]]. destruct (decide (k = ds_SegmentID x)) as [->|Hne]; [right; exists x; split; [now left|reflexivity]|]. rewrite lookup_insert_ne in Hi by congruence. auto.
Qed.

Lemma count_refs_exact files sealed maxEntries : (forall k s, sealed !! k = Some s -> ds_SegmentID s = k) -> forall refs m m' b r, Forall (fun x => SegmentID (Addr x.2) <> 0) refs -> counts m b r -> (forall s, 0 <= r s) -> count_refs files sealed maxEntries refs m = Ok m' ->
  counts m' (fun s => b s + lsum (in_segment s PhysicalSize) refs) (fun s => r s + lsum (in_segment s one) refs).
Proof.
  intros Hse. induction refs as [|[i ref] refs IH]; intros m m' b r Hz Hc Hr E; cbn [count_refs] in E.
  - apply Ok_inj in E. subst. intros s. specialize (Hc s). cbn. rewrite !Z.add_0_r. exact Hc.
  - inversion Hz as [|? ? Hz1 Hz']; subst. cbn [snd] in Hz1. inv_ok E. match goal with H : count_ref _ _ _ _ _ = Ok ?m1 |- _ => rename H into Ec; rename m1 into m1' end. unfold count_ref in Ec. inv_ok Ec. apply Ok_inj in Ec. subst m1'.
    match goal with H : stats_add _ ?k _ = Ok _ |- _ => rename H into Ea; assert (Ek : k = SegmentID (Addr ref)) end. { match goal with H : locate _ _ _ = Ok ?s |- _ => unfold locate in H; destruct (sealed !! SegmentID (Addr ref)) as [sm|] eqn:Es; [apply Ok_inj in H; subst s; exact (Hse _ _ Es)|inv_ok H; apply Ok_inj in H; subst s; reflexivity] end. }
    rewrite Ek in Ea. pose proof (counts_add _ _ _ _ _ _ Hc Hz1 (Hr _) Ea) as Hc1. specialize (IH _ _ _ _ Hz' Hc1 ltac:(intros s; cbv beta; specialize (Hr s); destruct (s =? _); lia) E). intros s. specialize (IH s). cbn [lsum foldr snd]. fold (lsum (in_segment s PhysicalSize) refs) (lsum (in_segment s one) refs). assert (E1 : forall f, in_segment s f ref = if s =? SegmentID (Addr ref) then f ref else 0) by (intros f; unfold in_segment; now rewrite Z.eqb_sym). rewrite !E1. change (one ref) with 1.
    destruct (m' !! s) as [st|]; [destruct IH as [-> IH]; split; [f_equal; lia|lia]|lia].
Qed.

Lemma counts_exact m S : entries_ok S -> counts m (seg_bytes S) (seg_records S) -> exact_stats S (sorted_stats (map snd (map_to_list m))).
Proof.
  intros HS Hc. assert (Hk : map sst_SegmentID (map snd (map_to_list m)) = (map_to_list m).*1).
  { rewrite map_map. apply map_ext_in. intros [k st] Hin. apply list_elem_of_In, elem_of_map_to_list in Hin. specialize (Hc k). rewrite Hin in Hc. cbn. now destruct Hc as [-> _]. }
  destruct (sorted_stats_strict (map snd (map_to_list m))) as [H1 H2]; [rewrite Hk; apply NoDup_fst_map_to_list|]. constructor; [exact H1|]. intros st. rewrite H2. split.
  - intros Hin. apply list_elem_of_In, in_map_iff in Hin as ([k st'] & <- & Hin). apply list_elem_of_In, elem_of_map_to_list in Hin. specialize (Hc k). rewrite Hin in Hc. cbn. destruct Hc as [-> Hp]. cbn. split; [lia|auto].
  - intros (N & E1 & E2). pose proof (Hc (sst_SegmentID st)) as Hs. destruct (m !! sst_SegmentID st) as [st'|] eqn:Em; [|destruct Hs; contradiction]. destruct Hs as [Es _]. assert (Est : st' = st) by (rewrite Es; destruct st; cbn in *; congruence). apply list_elem_of_In, in_map_iff. exists (sst_SegmentID st, st). split; [reflexivity|]. apply list_elem_of_In, elem_of_map_to_list. congruence.
Qed.

Lemma valid_segment r : RecordRef_Valid r = true -> SegmentID (Addr r) <> 0.
Proof. unfold RecordRef_Valid, VAddr_Valid. intros H. bool_norm. assumption. Qed.

Lemma walk_ok (S : Entries) l : entries_ok S -> l ≡ₚ map_to_list S -> Forall (fun x => RecordRef_Valid x.2 = true) l.
Proof. intros HS Hp. apply Forall_forall. intros [i r] Hx. rewrite Hp in Hx. apply elem_of_map_to_list in Hx. exact (proj2 (HS _ _ Hx)). Qed.

Lemma Build_exact S l files maxEntries a : entries_ok S -> l ≡ₚ map_to_list S -> Build (Ok l) files maxEntries = Ok a -> exact_stats S a.
Proof.
  intros HS Hp E. unfold Build in E. inv_ok E. apply Ok_inj in E. subst a. match goal with H : sealedFiles _ = Ok ?m |- _ => rename H into Es; rename m into sealed end. unfold sealedFiles in Es. destruct (sealed_files_spec _ _ _ _ _ Es) as (S1 & _); [intros k s Hk; rewrite lookup_empty in Hk; discriminate|].
  match goal with H : count_refs _ _ _ _ _ = Ok ?m |- _ => rename H into Ec; rename m into stats end. apply counts_exact; [exact HS|].
  assert (Hz : Forall (fun x => SegmentID (Addr x.2) <> 0) l) by (eapply Forall_impl; [exact (walk_ok S l HS Hp)|]; intros x Hx; exact (valid_segment _ Hx)).
  assert (H0 : counts ∅ (fun _ => 0) (fun _ => 0)) by (intros s; rewrite lookup_empty; auto). pose proof (count_refs_exact _ _ _ S1 _ _ _ _ _ Hz H0 (fun _ => Z.le_refl 0) Ec) as Hc. intros s. specialize (Hc s). cbv beta in Hc. rewrite !Z.add_0_l, !(lsum_msum _ S l Hp) in Hc. exact Hc.
Qed.

(** *** The counters *)

Lemma checkpoint_stats_spec m replay maxEntries order : forall acc l, checkpoint_stats m replay maxEntries order acc = Ok l -> l = acc ++ map (fun x => mkStats x.1 (ls_LiveBytes x.2) (ls_LiveRecords x.2)) order /\ Forall (fun x => checkpoint_stat m replay x.1 x.2 = true) order.
Proof.
  induction order as [|[id st] order IH]; intros acc l E; cbn [checkpoint_stats] in E; [apply Ok_inj in E; subst; rewrite app_nil_r; auto|]. inv_ok E. match goal with H : negb _ = false |- _ => apply negb_false_iff in H end. destruct (IH _ _ E) as [-> I2]. rewrite <- app_assoc. split; [reflexivity|now constructor].
Qed.

Lemma live_listed live (S : Entries) order : live_exact live S -> order ≡ₚ map_to_list live -> exact_stats S (sorted_stats (map (fun x => mkStats x.1 (ls_LiveBytes x.2) (ls_LiveRecords x.2)) order)).
Proof.
  intros Hl Hp. set (f := fun x : Z * SegmentLiveStats => mkStats x.1 (ls_LiveBytes x.2) (ls_LiveRecords x.2)). assert (Hk : map sst_SegmentID (map f order) = order.*1) by (rewrite map_map; reflexivity).
  destruct (sorted_stats_strict (map f order)) as [H1 H2]; [rewrite Hk, Hp; apply NoDup_fst_map_to_list|]. constructor; [exact H1|]. intros st. rewrite H2. split.
  - intros Hin. apply list_elem_of_In, in_map_iff in Hin as ([k x] & <- & Hin). apply list_elem_of_In in Hin. rewrite Hp in Hin. apply elem_of_map_to_list in Hin. specialize (Hl k). rewrite Hin in Hl. exact Hl.
  - intros (N & E1 & E2). specialize (Hl (sst_SegmentID st)). destruct (live !! sst_SegmentID st) as [x|] eqn:Em; [|contradiction]. destruct Hl as (_ & L1 & L2). apply list_elem_of_In, in_map_iff. exists (sst_SegmentID st, x). split; [unfold f; cbn; rewrite L1, L2, <- E1, <- E2; now destruct st|]. apply list_elem_of_In. rewrite Hp. apply elem_of_map_to_list. exact Em.
Qed.

Lemma checkpoint_exact live S order m replay maxEntries b : live_exact live S -> order ≡ₚ map_to_list live -> checkpointSegmentStats order m replay maxEntries = Ok b -> exact_stats S b /\ Forall (fun st => checkpoint_stat m replay (sst_SegmentID st) (mkLive (sst_LiveBytes st) (sst_LiveRecords st) 0) = true) b.
Proof.
  intros Hl Hp E. unfold checkpointSegmentStats in E. inv_ok E. apply Ok_inj in E. subst b. match goal with H : checkpoint_stats _ _ _ _ _ = Ok _ |- _ => apply checkpoint_stats_spec in H as [-> Hok] end. cbn [app]. split; [now apply live_listed with live|].
  unfold sorted_stats. rewrite merge_sort_Permutation. apply Forall_forall. intros st Hin. apply list_elem_of_In, in_map_iff in Hin as (x & <- & Hin). rewrite Forall_forall in Hok. apply list_elem_of_In in Hin. exact (Hok x Hin).
Qed.
