(* ===== verification/SegmentStatsSpec.v ===== *)
(** * The statistics of a checkpoint are exact and valid

    For a mapping whose references are records of the data segments, the statistics
    from a walk and those from the counters of the mapping are computed without
    error, are equal and exact, and satisfy what [Validate] asks of a manifest. *)
From S2P Require Import Prelude Bytes Addr RecordFormat Mapping Fs Catalog LogSegment LogScan SegmentStats.

(** ** The references are records of the log *)

Section Held.
Context (owner : list Z -> Z) (recs : Z -> list LogRecord).

(** Every visible reference is the record of its id. *)
Definition stored_refs (S : Entries) : Prop := forall id ref, S !! id = Some ref -> exists rec, rec ∈ recs (SegmentID (Addr ref)) /\ ref = mkRef (ar_Addr rec.1) (rec_size rec) /\ owner rec.2 = id.

(** Entries that are different records of one segment take no more than the
    segment. *)
Lemma held_sum (f : RecordRef -> Z) s l : (forall rec, rec ∈ l -> 0 <= f (mkRef (ar_Addr rec.1) (rec_size rec))) -> forall S : Entries,
  (forall id ref, S !! id = Some ref -> SegmentID (Addr ref) = s -> exists rec, rec ∈ l /\ ref = mkRef (ar_Addr rec.1) (rec_size rec) /\ owner rec.2 = id) ->
  msum (in_segment s f) S <= foldr (fun rec n => f (mkRef (ar_Addr rec.1) (rec_size rec)) + n) 0 l.
Proof.
  induction l as [|r l IH]; intros Hf S HS; cbn [foldr].
  - enough (msum (in_segment s f) S = 0) by lia. assert (Hz : 0 <= msum (in_segment s f) S <= msum (fun _ => 0) S). { apply msum_le. intros id ref E. unfold in_segment. destruct (Z.eqb_spec (SegmentID (Addr ref)) s) as [Es|_]; [|lia]. destruct (HS _ _ E Es) as (rec & Hr & _). inversion Hr. }
    assert (msum (fun _ => 0) S = 0); [|lia]. clear. induction S as [|i r S Hn IH] using map_ind; [apply msum_empty|]. now rewrite msum_insert_new.
  - assert (Hfr : 0 <= f (mkRef (ar_Addr r.1) (rec_size r))) by (apply Hf; now left). destruct (decide (S !! owner r.2 = Some (mkRef (ar_Addr r.1) (rec_size r)))) as [E|E].
    + rewrite (msum_delete _ _ (owner r.2)), E. assert (in_segment s f (mkRef (ar_Addr r.1) (rec_size r)) <= f (mkRef (ar_Addr r.1) (rec_size r))) by (unfold in_segment; destruct (_ =? s); lia).
      enough (msum (in_segment s f) (delete (owner r.2) S) <= foldr (fun rec n => f (mkRef (ar_Addr rec.1) (rec_size rec)) + n) 0 l) by lia. apply IH; [intros rec Hr; apply Hf; now right|]. intros id ref Ei Es. apply lookup_delete_Some in Ei as [Hne Ei]. destruct (HS _ _ Ei Es) as (rec & Hr & -> & Ho). apply elem_of_cons in Hr as [->|Hr]; [congruence|eauto].
    + enough (msum (in_segment s f) S <= foldr (fun rec n => f (mkRef (ar_Addr rec.1) (rec_size rec)) + n) 0 l) by lia. apply IH; [intros rec Hr; apply Hf; now right|]. intros id ref Ei Es. destruct (HS _ _ Ei Es) as (rec & Hr & -> & Ho). apply elem_of_cons in Hr as [->|Hr]; [|eauto]. subst id. contradiction.
Qed.

Lemma held_bounds S s : stored_refs S -> placed s 64 (recs s) -> seg_bytes S s <= body_size (recs s) /\ seg_records S s <= len (recs s).
Proof.
  intros HS Hp. assert (Hin : forall id ref, S !! id = Some ref -> SegmentID (Addr ref) = s -> exists rec, rec ∈ recs s /\ ref = mkRef (ar_Addr rec.1) (rec_size rec) /\ owner rec.2 = id) by (intros id ref E <-; exact (HS id ref E)).
  assert (Hpos : forall rec, rec ∈ recs s -> 0 <= rec_size rec). { clear HS Hin. revert Hp. generalize 64. induction (recs s) as [|r l IH]; intros off Hp rec Hr; [inversion Hr|]. destruct Hp as [H1 H2]. apply elem_of_cons in Hr as [->|Hr]; [|exact (IH _ H2 _ Hr)]. destruct (PhysicalRecordSize_spec _ _ (len_nonneg _) (ra_size _ _ _ H1)). lia. }
  split.
  - pose proof (held_sum PhysicalSize s (recs s) Hpos S Hin) as H. cbn in H. exact H.
  - pose proof (held_sum one s (recs s) ltac:(intros; unfold one; lia) S Hin) as H. unfold one in H at 2. unfold seg_records. enough (foldr (fun (_ : LogRecord) n => 1 + n) 0 (recs s) = len (recs s)) by lia. clear. induction (recs s) as [|r l IH]; [reflexivity|]. cbn [foldr]. rewrite IH, len_cons. reflexivity.
Qed.
End Held.

(** ** The records of the data segments of a manifest *)

(** [recs id] are the records of segment [id] that a checkpoint covers; the segments
    of the manifest have at least them. *)
Record files_hold (m : Manifest) (recs : Z -> list LogRecord) : Prop := mkFilesHold {
  fh_set : data_set_ok (mf_ActiveData m) (mf_CompactionFloor m) (hl_SegmentSize (mf_HardLimits m)) 0 (mf_SealedData m) = true /\ mf_ActiveData m <> 0;
  fh_sealed : forall id s, find_data (mf_SealedData m) id = Some s -> 64 + body_size (recs id) <= ds_ValidEnd s < two32 /\ len (recs id) <= ds_RecordCount s;
  fh_other : forall id, recs id <> [] -> id = mf_ActiveData m \/ is_Some (find_data (mf_SealedData m) id);
  fh_placed : forall id, recs id <> [] -> is_u32 id /\ placed id 64 (recs id) /\ 64 + body_size (recs id) < two32;
}.

(** The cut of the checkpoint is at the end of those of the active segment. *)
Definition cut_after (m : Manifest) (cut : LogPos) (recs : Z -> list LogRecord) : Prop :=
  recs (mf_ActiveData m) <> [] -> pos_SegmentID cut = mf_ActiveData m /\ 64 + body_size (recs (mf_ActiveData m)) <= pos_Offset cut.

Lemma find_data_id l id s : find_data l id = Some s -> ds_SegmentID s = id /\ s ∈ l.
Proof. intros E. apply List.find_some in E as [H1 H2]. split; [now apply Z.eqb_eq|now apply list_elem_of_In]. Qed.

Section Manifest.
Context (m : Manifest) (owner : list Z -> Z) (recs : Z -> list LogRecord) (S : Entries).
Context (Hfiles : files_hold m recs) (Hstored : stored_refs owner recs S) (HS : entries_ok S).

Lemma held_placed s : placed s 64 (recs s).
Proof. destruct (recs s) as [|r l] eqn:E; [exact I|]. rewrite <- E. apply (fh_placed _ _ Hfiles). congruence. Qed.

Lemma live_segment s : seg_records S s <> 0 -> recs s <> [].
Proof. intros H E. destruct (held_bounds owner recs S s Hstored (held_placed s)) as [_ H1]. rewrite E in H1. change (len []) with 0 in H1. pose proof (seg_bounds S s HS). lia. Qed.

Lemma seg_bytes_floor s : 32 * seg_records S s <= seg_bytes S s.
Proof.
  unfold seg_records, seg_bytes. clear - HS. induction S as [|i r T Hn IH] using map_ind; [rewrite !msum_empty; lia|]. rewrite !msum_insert_new by done. assert (HT : entries_ok T) by (intros j x Hj; apply (HS j); rewrite lookup_insert_ne; [exact Hj|congruence]). specialize (IH HT). destruct (HS i r (lookup_insert_eq _ _ _)) as [_ Hv%valid_size]. unfold in_segment, one in *. destruct (_ =? s); lia.
Qed.

(** Every counter passes the check of the checkpoint. *)
Lemma checkpoint_stat_ok cut s x : cut_after m cut recs -> seg_records S s <> 0 -> checkpoint_stat m cut s (mkLive (seg_bytes S s) (seg_records S s) x) = true.
Proof.
  intros Hcut Hn. pose proof (live_segment s Hn) as Hne. destruct (held_bounds owner recs S s Hstored (held_placed s)) as [B1 B2]. pose proof (seg_bytes_floor s) as B3. pose proof (seg_bounds S s HS) as [B4 _]. unfold checkpoint_stat. cbn [ls_LiveBytes ls_LiveRecords]. unfold Addr.SegmentHeaderSize, RecordHeaderSize.
  replace (seg_bytes S s =? 0) with false by (symmetry; apply Z.eqb_neq; lia). replace (seg_records S s =? 0) with false by (symmetry; now apply Z.eqb_neq). cbn [orb negb andb]. pose proof (body_size_nonneg _ _ _ (held_placed s)) as Hnn.
  destruct (Z.eqb_spec s (mf_ActiveData m)) as [->|Hna].
  - destruct (Hcut Hne) as [-> Ho]. rewrite Z.eqb_refl. replace (_ <? 64) with false by (symmetry; apply Z.ltb_ge; lia). replace (_ <? seg_bytes S _) with false by (symmetry; apply Z.ltb_ge; lia). replace (_ / 32 <? _) with false; [reflexivity|]. symmetry. apply Z.ltb_ge. apply Z.div_le_lower_bound; lia.
  - destruct (fh_other _ _ Hfiles s Hne) as [|[sm Es]]; [contradiction|]. rewrite Es. destruct (fh_sealed _ _ Hfiles _ _ Es) as [Ho1 Ho2]. replace (_ <? 64) with false by (symmetry; apply Z.ltb_ge; lia). replace (_ <? seg_bytes S s) with false by (symmetry; apply Z.ltb_ge; lia). replace (_ <? seg_records S s) with false by (symmetry; apply Z.ltb_ge; lia). reflexivity.
Qed.

Lemma checkpoint_total cut live order maxEntries : cut_after m cut recs -> live_exact live S -> order ≡ₚ map_to_list live -> LogPos_Valid cut = true -> Z.of_nat (size live) <= maxEntries -> exists b, checkpointSegmentStats order m cut maxEntries = Ok b.
Proof.
  intros Hcut Hl Hp Hv Hm. unfold checkpointSegmentStats. rewrite Hv. cbn [negb]. assert (Hlen : len order <= maxEntries) by (unfold len; rewrite Hp, length_map_to_list; exact Hm).
  assert (Hok : Forall (fun x => checkpoint_stat m cut x.1 x.2 = true) order). { rewrite Hp. apply Forall_forall. intros [k st] Hin. apply elem_of_map_to_list in Hin. specialize (Hl k). rewrite Hin in Hl. destruct Hl as (L1 & L2 & L3). cbn [fst snd]. destruct st as [lb lr x]. cbn in *. subst. now apply checkpoint_stat_ok. }
  assert (H : forall acc, len acc + len order <= maxEntries -> exists l, checkpoint_stats m cut maxEntries order acc = Ok l); [|destruct (H [] ltac:(change (len []) with 0; lia)) as [l ->]; cbn; eauto].
  clear Hp Hlen Hl. induction Hok as [|[k st] order Hx Hok IH]; intros acc Ha; cbn [checkpoint_stats]; [eauto|]. cbn [fst snd] in Hx. rewrite Hx. rewrite len_cons in Ha. pose proof (len_nonneg order). replace (len acc =? maxEntries) with false by (symmetry; apply Z.eqb_neq; lia). cbn [negb]. apply IH. rewrite len_app. change (len [mkStats k (ls_LiveBytes st) (ls_LiveRecords st)]) with 1. lia.
Qed.

(** *** The walk *)

Lemma sealed_files_total : exists sealed, sealedFiles (mkFileSet (mf_ActiveData m) (mf_SealedData m)) = Ok sealed /\ forall k, sealed !! k = find_data (mf_SealedData m) k.
Proof.
  destruct (fh_set _ _ Hfiles) as [Hset _]. unfold sealedFiles. cbn [fl_Active fl_Sealed].
  assert (H : forall l previous acc, data_set_ok (mf_ActiveData m) (mf_CompactionFloor m) (hl_SegmentSize (mf_HardLimits m)) previous l = true -> exists x, sealed_files (mf_ActiveData m) previous l acc = Ok x).
  { induction l as [|s l IH]; intros previous acc E; cbn [sealed_files]; [eauto|]. cbn [data_set_ok] in E. rewrite !andb_true_iff, negb_true_iff, !orb_false_iff, negb_false_iff in E. destruct E as [[[[[E1 E2] E3] E4] _] E5]. rewrite E1, E4. assert (Hok : negb (ds_SegmentID s <? mf_ActiveData m) && negb (IsCompactionSegment (ds_SegmentID s)) = false) by (unfold data_id_ok in E2; destruct (_ <? _); [reflexivity|]; cbn in *; destruct (IsCompactionSegment _); [reflexivity|discriminate]). rewrite Hok. cbn [orb]. now apply IH. }
  destruct (H _ _ ∅ Hset) as [x Hx]. exists x. split; [exact Hx|]. destruct (sealed_files_spec _ _ _ _ _ Hx) as (K1 & _ & K3 & K4); [intros k s Hk; rewrite lookup_empty in Hk; discriminate|]. intros k. destruct (find_data (mf_SealedData m) k) as [s|] eqn:Ef.
  - apply find_data_id in Ef as [<- Hin]. auto.
  - destruct (x !! k) as [s|] eqn:Ek; [|reflexivity]. destruct (K4 k ltac:(eauto)) as [[y Hy]|(s' & Hs & Es)]; [rewrite lookup_empty in Hy; discriminate|]. exfalso. pose proof (List.find_none _ _ Ef s' (proj1 (list_elem_of_In _ _) Hs)) as X. cbn in X. now apply Z.eqb_neq in X.
Qed.

Lemma count_ref_total sealed maxEntries stats b r ref live id : (forall k, sealed !! k = find_data (mf_SealedData m) k) -> live_exact live S -> Z.of_nat (size live) <= maxEntries -> S !! id = Some ref -> counts stats b r -> (forall s, 0 <= b s /\ 0 <= r s) ->
  (forall s, b s + in_segment s PhysicalSize ref <= seg_bytes S s) -> (forall s, r s + in_segment s one ref <= seg_records S s) -> exists stats', count_ref (mkFileSet (mf_ActiveData m) (mf_SealedData m)) sealed maxEntries stats ref = Ok stats'.
Proof.
  intros Hse Hlive Hmax Ei Hc Hnn Hb Hr. destruct (HS _ _ Ei) as [_ Hv]. destruct (Hstored _ _ Ei) as (rec & Hrec & Eref & _). set (s := SegmentID (Addr ref)) in *. assert (Hne : recs s <> []) by (intros E; rewrite E in Hrec; inversion Hrec). destruct (fh_placed _ _ Hfiles s Hne) as (P1 & P2 & P3).
  assert (Hin1 : forall f, in_segment s f ref = f ref) by (intros f; unfold in_segment; fold s; now rewrite Z.eqb_refl). pose proof (Hb s) as Hbs. pose proof (Hr s) as Hrs. rewrite Hin1 in Hbs, Hrs. unfold one in Hrs. destruct (held_bounds owner recs S s Hstored P2) as [B1 B2]. pose proof (seg_bounds S s HS) as [B4 _]. pose proof (Hnn s) as [N1 N2].
  assert (Hoff : 64 <= Offset (Addr ref) /\ Offset (Addr ref) + PhysicalSize ref <= 64 + body_size (recs s)).
  { apply list_elem_of_split in Hrec as (pre & suf & Hsplit). pose proof P2 as Hpl. rewrite Hsplit in Hpl. apply placed_app in Hpl as [Q1 [Q2 Q3]]. pose proof (body_size_nonneg _ _ _ Q1). pose proof (body_size_nonneg _ _ _ Q3). rewrite Hsplit, body_size_app, body_size_cons in P3 |- *. assert (Hu : is_u32 (64 + body_size pre)) by (unfold is_u32; destruct (PhysicalRecordSize_spec _ _ (len_nonneg _) (ra_size _ _ _ Q2)); lia).
    destruct (rec_at_facts _ _ _ P1 Hu Q2) as [_ _ (_ & _ & A3 & _) _ _ _]. rewrite Eref. cbn [Addr PhysicalSize]. rewrite A3. lia. }
  assert (Hloc : exists summary, locate (Addr ref) (mf_ActiveData m) sealed = Ok summary /\ match summary with Some x => ds_SegmentID x = s /\ 64 + body_size (recs s) <= ds_ValidEnd x | None => True end).
  { unfold locate. fold s. rewrite Hse. destruct (find_data (mf_SealedData m) s) as [x|] eqn:Ef; [exists (Some x); split; [reflexivity|]; split; [exact (proj1 (find_data_id _ _ _ Ef))|exact (proj1 (proj1 (fh_sealed _ _ Hfiles _ _ Ef)))]|]. destruct (fh_other _ _ Hfiles s Hne) as [Ea|[x Ex]]; [|congruence]. rewrite Ea, Z.eqb_refl. exists None. split; [reflexivity|exact I]. }
  destruct Hloc as (summary & El & Hsum). unfold count_ref. cbn [fl_Active]. rewrite El. cbn. rewrite Hv. cbn [negb orb]. assert (Hchk : match summary with Some x => (ds_ValidEnd x <? Offset (Addr ref)) || (ds_ValidEnd x - Offset (Addr ref) <? PhysicalSize ref) | None => false end = false).
  { destruct summary as [x|]; [|reflexivity]. destruct Hsum as [_ Hend]. pose proof (valid_size _ Hv). apply orb_false_iff. split; apply Z.ltb_ge; lia. }
  rewrite Hchk. assert (Hkey : match summary with Some x => ds_SegmentID x | None => SegmentID (Addr ref) end = s) by (destruct summary as [x|]; [exact (proj1 Hsum)|reflexivity]). rewrite Hkey.
  assert (Hadd : exists st', stats_add stats s (PhysicalSize ref) = Ok st').
  { unfold stats_add. assert (Hd : exists i0, default (mkStats 0 0 0) (stats !! s) = mkStats i0 (b s) (r s)) by (specialize (Hc s); destruct (stats !! s) as [st|]; [destruct Hc as [-> _]; exists s; reflexivity|destruct Hc as [-> ->]; exists 0; reflexivity]). destruct Hd as [i0 ->].
    cbn [sst_SegmentID sst_LiveBytes sst_LiveRecords]. set (st0 := if i0 =? 0 then _ else _). assert (Est : sst_LiveBytes st0 = b s /\ sst_LiveRecords st0 = r s) by (unfold st0; destruct (i0 =? 0); split; reflexivity). destruct Est as [-> ->]. pose proof (len_nonneg (recs s)). pose proof (placed_count _ _ _ P2). replace (_ <? b s) with false by (symmetry; apply Z.ltb_ge; lia). replace (r s =? MaxUint64) with false by (symmetry; apply Z.eqb_neq; lia). cbn. eauto. }
  destruct Hadd as [st' Hst]. rewrite Hst. cbn. pose proof (counts_add _ _ _ _ _ _ Hc (valid_segment _ Hv) N2 Hst) as Hc'.
  assert (Hsz : (size st' <= size live)%nat). { rewrite <- !size_dom. apply subseteq_size. intros k Hk. apply elem_of_dom in Hk as [st Ek]. specialize (Hc' k). rewrite Ek in Hc'. destruct Hc' as [_ Hpos]. apply elem_of_dom. specialize (Hlive k). destruct (live !! k) as [y|]; [eauto|]. exfalso. specialize (Hr k). unfold in_segment, one in Hr. fold s in Hr. rewrite (Z.eqb_sym s k) in Hr. cbv beta in Hpos. fold s in Hpos. destruct (k =? s); lia. }
  replace (_ <? _) with false by (symmetry; apply Z.ltb_ge; lia). eauto.
Qed.

Lemma count_refs_total sealed maxEntries live : (forall k, sealed !! k = find_data (mf_SealedData m) k) -> live_exact live S -> Z.of_nat (size live) <= maxEntries -> forall refs stats b r,
  Forall (fun x => S !! x.1 = Some x.2) refs -> counts stats b r -> (forall s, 0 <= b s /\ 0 <= r s) ->
  (forall s, b s + lsum (in_segment s PhysicalSize) refs <= seg_bytes S s) -> (forall s, r s + lsum (in_segment s one) refs <= seg_records S s) -> Z.of_nat (size stats) <= maxEntries ->
  exists stats', count_refs (mkFileSet (mf_ActiveData m) (mf_SealedData m)) sealed maxEntries refs stats = Ok stats' /\ Z.of_nat (size stats') <= maxEntries.
Proof.
  intros Hse Hlive Hmax. induction refs as [|[i ref] refs IH]; intros stats b r Hin Hc Hnn Hb Hr Hsz; cbn [count_refs]; [eauto|]. inversion Hin as [|? ? Hi Hin']; subst. cbn [fst snd] in Hi. cbn [lsum foldr snd] in Hb, Hr.
  assert (Hpos : forall f l s, (forall x, x ∈ l -> 0 <= f x.2) -> 0 <= lsum (in_segment s f) l). { intros f l s. induction l as [|x l IHl]; intros H; [unfold lsum; cbn; lia|]. cbn [lsum foldr]. fold (lsum (in_segment s f) l). pose proof (IHl ltac:(intros y Hy; apply H; now right)). pose proof (H x ltac:(now left)). unfold in_segment at 1. destruct (_ =? s); lia. }
  assert (Hp1 : forall s, 0 <= lsum (in_segment s PhysicalSize) refs) by (intros s; apply Hpos; intros x Hx; rewrite Forall_forall in Hin'; destruct (HS _ _ (Hin' x Hx)) as [_ Hv%valid_size]; lia). assert (Hp2 : forall s, 0 <= lsum (in_segment s one) refs) by (intros s; apply Hpos; intros; unfold one; lia).
  destruct (count_ref_total sealed maxEntries stats b r ref live i Hse Hlive Hmax Hi Hc Hnn) as [st' Est]; [intros s; specialize (Hb s); specialize (Hp1 s); unfold lsum in Hp1; lia|intros s; specialize (Hr s); specialize (Hp2 s); unfold lsum in Hp2; lia|]. rewrite Est. cbn.
  assert (Hz : Forall (fun x => SegmentID (Addr x.2) <> 0) [(i, ref)]) by (constructor; [exact (valid_segment _ (proj2 (HS _ _ Hi)))|constructor]). assert (E1 : count_refs (mkFileSet (mf_ActiveData m) (mf_SealedData m)) sealed maxEntries [(i, ref)] stats = Ok st') by (cbn [count_refs]; rewrite Est; reflexivity).
  pose proof (count_refs_exact _ _ _ (fun k s H => proj1 (find_data_id _ _ _ (eq_trans (eq_sym (Hse k)) H))) _ _ _ _ _ Hz Hc (fun s => proj2 (Hnn s)) E1) as Hc'. apply (IH _ _ _ Hin' Hc').
  - intros s. cbn [lsum foldr snd]. specialize (Hnn s). unfold in_segment, one. destruct (HS _ _ Hi) as [_ Hv%valid_size]. destruct (_ =? s); lia.
  - intros s. specialize (Hb s). cbn [lsum foldr snd]. unfold lsum. lia.
  - intros s. specialize (Hr s). cbn [lsum foldr snd]. unfold lsum. lia.
  - unfold count_ref in Est. inv_ok Est. apply Ok_inj in Est. subst st'. match goal with H : (maxEntries <? _) = false |- _ => apply Z.ltb_ge in H; exact H end.
Qed.

Lemma Build_total live walk maxEntries : live_exact live S -> Z.of_nat (size live) <= maxEntries -> 0 < maxEntries -> walk ≡ₚ map_to_list S -> exists a, Build (Ok walk) (mkFileSet (mf_ActiveData m) (mf_SealedData m)) maxEntries = Ok a.
Proof.
  intros Hlive Hmax Hpos Hp. unfold Build. cbn [fl_Active]. destruct (fh_set _ _ Hfiles) as [_ Ha]. apply Z.eqb_neq in Ha. rewrite Ha. replace (maxEntries =? 0) with false by (symmetry; apply Z.eqb_neq; lia). cbn [orb]. destruct sealed_files_total as (sealed & Es & Hse). rewrite Es. cbn.
  destruct (count_refs_total sealed maxEntries live Hse Hlive Hmax walk ∅ (fun _ => 0) (fun _ => 0)) as (st & Est & Hsz).
  - rewrite Hp. apply Forall_forall. intros [i r] Hx. now apply elem_of_map_to_list in Hx.
  - intros s. rewrite lookup_empty. auto.
  - intros s. lia.
  - intros s. rewrite (lsum_msum _ S walk Hp). unfold seg_bytes. lia.
  - intros s. rewrite (lsum_msum _ S walk Hp). unfold seg_records. lia.
  - rewrite map_size_empty. lia.
  - rewrite Est. cbn. replace (maxEntries <? _) with false by (symmetry; apply Z.ltb_ge; exact Hsz). eauto.
Qed.

Lemma size_list_to_set_le (l : list Z) : (size (list_to_set l : gset Z) <= length l)%nat.
Proof. induction l as [|x l IH]; [cbn; now rewrite size_empty|]. rewrite list_to_set_cons, size_union_alt, size_singleton. assert (H : (size ((list_to_set l : gset Z) ∖ {[x]}) <= size (list_to_set l : gset Z))%nat) by (apply subseteq_size; set_solver). cbn [length]. lia. Qed.

(** There are no more entries than segments. *)
Lemma live_few live : live_exact live S -> Z.of_nat (size live) <= len (mf_SealedData m) + 1.
Proof.
  intros Hlive. rewrite <- size_dom. assert (Hsub : dom live ⊆ (list_to_set (mf_ActiveData m :: map ds_SegmentID (mf_SealedData m)) : gset Z)).
  { intros k Hk. apply elem_of_dom in Hk as [st Ek]. specialize (Hlive k). rewrite Ek in Hlive. destruct Hlive as [Hn _]. apply elem_of_list_to_set, elem_of_cons. destruct (fh_other _ _ Hfiles k (live_segment k Hn)) as [->|[x Hx]]; [auto|right]. apply find_data_id in Hx as [<- Hx]. apply list_elem_of_In, in_map, list_elem_of_In, Hx. }
  apply subseteq_size in Hsub. etrans; [apply inj_le, Hsub|]. etrans; [apply inj_le, size_list_to_set_le|]. rewrite length_cons, length_map. unfold len. lia.
Qed.
End Manifest.


(** ** What the validation of a manifest asks for *)

Definition stats_records (l : list SegmentStats) : Z := foldr (fun st n => sst_LiveRecords st + n) 0 l.

(** The records of a list of segments that has those of all references. *)
Lemma records_of_segments (ks : list Z) : NoDup ks -> forall S : Entries, (forall id ref, S !! id = Some ref -> SegmentID (Addr ref) ∈ ks) -> foldr (fun k n => seg_records S k + n) 0 ks = Z.of_nat (size S).
Proof.
  intros Hn S. induction S as [|i ref S Hi IH] using map_ind; intros Hks.
  - rewrite map_size_empty. clear. induction ks as [|k ks IH]; [reflexivity|]. cbn. rewrite IH. unfold seg_records. rewrite msum_empty. reflexivity.
  - rewrite map_size_insert_None by done. specialize (IH ltac:(intros j r Hj; apply (Hks j); rewrite lookup_insert_ne; [exact Hj|congruence])). pose proof (Hks i ref (lookup_insert_eq _ _ _)) as Hin. rewrite Nat2Z.inj_succ, <- IH.
    assert (H : forall l, NoDup l -> foldr (fun k n => seg_records (<[i:=ref]> S) k + n) 0 l = foldr (fun k n => seg_records S k + n) 0 l + if decide (SegmentID (Addr ref) ∈ l) then 1 else 0).
    { induction l as [|k l IHl]; intros Hl; [cbn; destruct (decide _) as [H|_]; [inversion H|reflexivity]|]. inversion Hl as [|? ? Hk Hl']; subst. cbn [foldr]. rewrite (IHl Hl'). unfold seg_records at 1. rewrite msum_insert_new by done. fold (seg_records S k). unfold in_segment, one. destruct (Z.eqb_spec (SegmentID (Addr ref)) k) as [->|Hne].
      - destruct (decide (k ∈ l)) as [Hx|_]; [contradiction|]. destruct (decide (k ∈ k :: l)) as [_|Hx]; [lia|]. exfalso. apply Hx. now left.
      - destruct (decide (_ ∈ l)) as [Hx|Hx]; destruct (decide (_ ∈ k :: l)) as [Hy|Hy]; try lia; exfalso; [apply Hy; now right|]. apply elem_of_cons in Hy as [Hy|Hy]; contradiction. }
    rewrite (H ks Hn). destruct (decide _); [lia|contradiction].
Qed.

Lemma seg_records_pos (S : Entries) id ref : entries_ok S -> S !! id = Some ref -> seg_records S (SegmentID (Addr ref)) <> 0.
Proof.
  intros HS E. unfold seg_records. rewrite (msum_delete _ _ id), E. unfold in_segment at 1, one at 1. rewrite Z.eqb_refl. assert (HD : entries_ok (delete id S)) by (intros j r Hj; apply lookup_delete_Some in Hj as [_ Hj]; exact (HS _ _ Hj)).
  pose proof (proj1 (seg_bounds _ (SegmentID (Addr ref)) HD)) as H. unfold seg_records in H. lia.
Qed.

Lemma exact_records S l : entries_ok S -> exact_stats S l -> stats_records l = Z.of_nat (size S).
Proof.
  intros HS [X1 X2]. assert (Hn : NoDup (map sst_SegmentID l)) by (apply sorted_lt_NoDup; exact X1).
  rewrite <- (records_of_segments _ Hn S).
  - assert (H : Forall (fun st => sst_LiveRecords st = seg_records S (sst_SegmentID st)) l) by (apply Forall_forall; intros st Hst; apply X2 in Hst; tauto). clear - H. induction H as [|st l Hs Hl IH]; [reflexivity|]. cbn. fold (stats_records l). rewrite IH, Hs. reflexivity.
  - intros id ref E. set (s := SegmentID (Addr ref)). pose proof (seg_records_pos S id ref HS E) as Hr. assert (Hin : mkStats s (seg_bytes S s) (seg_records S s) ∈ l) by (apply X2; cbn; auto). change s with (sst_SegmentID (mkStats s (seg_bytes S s) (seg_records S s))). apply list_elem_of_In, in_map, list_elem_of_In, Hin.
Qed.

Lemma stats_live_sum m : forall l previous acc, 0 <= previous -> StronglySorted Z.lt (previous :: map sst_SegmentID l) -> Forall (fun st => stat_ok m st = true /\ 0 < sst_LiveRecords st /\ 0 < sst_LiveBytes st) l -> acc + stats_records l <= MaxUint64 -> stats_live m previous acc l = Some (acc + stats_records l).
Proof.
  induction l as [|st l IH]; intros previous acc H0 Hs Hok Hmax; cbn [stats_live]; [cbn; f_equal; lia|]. cbn [map] in Hs. inversion Hs as [|? ? Hs' Hlt]; subst. inversion Hlt as [|? ? Hp _]; subst. inversion Hok as [|? ? (K1 & K2 & K3) Hok']; subst. cbn [stats_records foldr] in Hmax |- *. fold (stats_records l) in Hmax |- *.
  assert (Hnn : 0 <= stats_records l) by (clear - Hok'; induction Hok' as [|st l (_ & H & _) Hl IH]; cbn; [lia|fold (stats_records l); lia]).
  replace (sst_SegmentID st =? 0) with false by (symmetry; apply Z.eqb_neq; lia). replace (sst_SegmentID st <=? previous) with false by (symmetry; apply Z.leb_gt; lia). cbn [orb]. replace (sst_LiveBytes st =? 0) with false by (symmetry; apply Z.eqb_neq; lia). replace (sst_LiveRecords st =? 0) with false by (symmetry; apply Z.eqb_neq; lia). replace (_ <? acc) with false by (symmetry; apply Z.ltb_ge; lia). cbn [Bool.eqb negb orb]. rewrite K1, IH; [f_equal; lia|lia|exact Hs'|exact Hok'|lia].
Qed.

(** The check of the checkpoint is that of the validation. *)
Lemma checkpoint_stat_valid m m' cut st : checkpoint_stat m cut (sst_SegmentID st) (mkLive (sst_LiveBytes st) (sst_LiveRecords st) 0) = true -> mf_ActiveData m' = mf_ActiveData m -> mf_SealedData m' = mf_SealedData m -> mf_ReplayStart m' = cut ->
  (forall s, find_data (mf_SealedData m) (sst_SegmentID st) = Some s -> ds_ValidEnd s < two32) -> 0 <= sst_LiveBytes st -> 0 <= sst_LiveRecords st -> stat_ok m' st = true /\ 0 < sst_LiveRecords st /\ 0 < sst_LiveBytes st.
Proof.
  unfold checkpoint_stat, stat_ok. cbn [ls_LiveBytes ls_LiveRecords]. intros H -> -> -> Hlt H1 H2. apply andb_true_iff in H as [Hz H]. apply negb_true_iff, orb_false_iff in Hz as [Z1 Z2]. apply Z.eqb_neq in Z1, Z2. split; [|lia]. destruct (_ =? mf_ActiveData m); [exact H|]. destruct (find_data _ _) as [s|]; [|exact H]. apply negb_true_iff, orb_false_iff in H as [H H3]. apply orb_false_iff in H as [H4 H5]. apply Z.ltb_ge in H4. specialize (Hlt s eq_refl). unfold Addr.SegmentHeaderSize in *. rewrite Z.mod_small by lia. now rewrite H3, H5.
Qed.

Lemma stats_by_id_lookup l : NoDup (map sst_SegmentID l) -> forall st, stats_by_id l !! sst_SegmentID st = Some st <-> st ∈ l.
Proof.
  intros Hn st. unfold stats_by_id. assert (H : forall acc : StatsMap, NoDup (map sst_SegmentID l) -> forall k, foldl (fun m st => <[sst_SegmentID st := st]> m) acc l !! k = match List.find (fun x => sst_SegmentID x =? k) l with Some x => Some x | None => acc !! k end).
  { clear. induction l as [|x l IH]; intros acc Hn k; [reflexivity|]. cbn [foldl List.find]. cbn [map] in Hn. inversion Hn as [|? ? Hx Hn']; subst. rewrite (IH _ Hn'). destruct (List.find _ l) as [y|] eqn:Ef; destruct (Z.eqb_spec (sst_SegmentID x) k) as [<-|Hne]; try reflexivity.
    - exfalso. apply List.find_some in Ef as [E1 E2%Z.eqb_eq]. apply Hx. rewrite <- E2. apply list_elem_of_In, in_map, E1.
    - apply lookup_insert_eq.
    - now rewrite lookup_insert_ne. }
  rewrite (H ∅ Hn). rewrite lookup_empty. split.
  - destruct (List.find _ l) as [x|] eqn:Ef; [|discriminate]. intros [= ->]. apply List.find_some in Ef as [E _]. now apply list_elem_of_In.
  - intros Hin. destruct (List.find _ l) as [x|] eqn:Ef.
    + apply List.find_some in Ef as [E1 E2%Z.eqb_eq]. f_equal. apply list_elem_of_In in E1. exact (NoDup_map_inj sst_SegmentID l x st Hn E1 Hin E2).
    + exfalso. pose proof (List.find_none _ _ Ef st (proj1 (list_elem_of_In _ _) Hin)) as X. cbn in X. now rewrite Z.eqb_refl in X.
Qed.

(** ** The comparison of the verifier *)

Lemma stats_by_id_key l k st : stats_by_id l !! k = Some st -> sst_SegmentID st = k.
Proof.
  unfold stats_by_id. assert (H : forall acc : StatsMap, (forall j x, acc !! j = Some x -> sst_SegmentID x = j) -> foldl (fun m st => <[sst_SegmentID st := st]> m) acc l !! k = Some st -> sst_SegmentID st = k); [|apply H; intros j x Hx; rewrite lookup_empty in Hx; discriminate].
  induction l as [|y l IH]; intros acc Ha; cbn [foldl]; [apply Ha|]. apply IH. intros j x [[<- <-]|[_ Hx]]%lookup_insert_Some; auto.
Qed.

Lemma placed_segment_pos id off r : rec_at id off r -> id <> 0.
Proof. intros [_ _ H _] ->. unfold NewVAddr in H. destruct (sizeTag _); discriminate. Qed.

Definition nonzero_stat (st : SegmentStats) : bool := negb ((sst_LiveBytes st =? 0) && (sst_LiveRecords st =? 0)).

Lemma sorted_filter_ids (p : SegmentStats -> bool) l : StronglySorted Z.lt (map sst_SegmentID l) -> StronglySorted Z.lt (map sst_SegmentID (List.filter p l)).
Proof.
  induction l as [|x l IH]; intros Hs; [constructor|]. cbn in Hs. inversion Hs as [|? ? Hs' Hx]; subst. cbn [List.filter]. destruct (p x); [|auto]. cbn. constructor; [auto|]. rewrite Forall_forall in *. intros k Hk. apply Hx. apply list_elem_of_In, in_map_iff in Hk as (y & <- & Hy). apply List.filter_In in Hy as [Hy _]. apply list_elem_of_In, in_map, Hy.
Qed.

(** The recorded statistics are accepted exactly when they are the exact ones, up to
    entries that count nothing. *)
Lemma equal_covered exact recorded : StronglySorted Z.lt (map sst_SegmentID exact) -> Forall (fun st => nonzero_stat st = true) exact -> StronglySorted Z.lt (map sst_SegmentID recorded) ->
  equalCoveredSegmentStats exact recorded = true <-> List.filter nonzero_stat recorded = exact.
Proof.
  intros He Hnz Hr. pose proof (stats_by_id_lookup exact (sorted_lt_NoDup _ He)) as Le. pose proof (stats_by_id_lookup recorded (sorted_lt_NoDup _ Hr)) as Lr. rewrite Forall_forall in Hnz. unfold equalCoveredSegmentStats. rewrite andb_true_iff, !forallb_forall. split.
  - intros [H1 H2]. apply sorted_ids_unique; [now apply sorted_filter_ids|exact He|]. intros st. rewrite list_elem_of_In, List.filter_In. split.
    + intros [Hin Hz]. specialize (H1 st Hin). unfold recorded_ok in H1. destruct (_ !! _) as [w|] eqn:Ew; [apply bool_decide_eq_true in H1; subst w; now apply Le|]. unfold nonzero_stat in Hz. rewrite H1 in Hz. discriminate.
    + intros Hin. split; [|auto]. apply Le in Hin as Ei. specialize (H2 (sst_SegmentID st, st) (proj1 (list_elem_of_In _ _) (proj2 (elem_of_map_to_list _ _ _) Ei))). cbn in H2. destruct (_ !! _) as [g|] eqn:Eg; [|discriminate]. apply bool_decide_eq_true in H2. subst g. apply list_elem_of_In. now apply Lr.
  - intros <-. assert (Hsub : forall st, st ∈ List.filter nonzero_stat recorded <-> st ∈ recorded /\ nonzero_stat st = true) by (intros st; rewrite !list_elem_of_In; apply List.filter_In). split.
    + intros st Hin%list_elem_of_In. unfold recorded_ok. destruct (nonzero_stat st) eqn:Ez.
      * assert (E : stats_by_id (List.filter nonzero_stat recorded) !! sst_SegmentID st = Some st) by (apply Le, Hsub; auto). rewrite E. now apply bool_decide_eq_true.
      * destruct (_ !! _) as [w|] eqn:Ew; [|now apply negb_false_iff]. exfalso. assert (Hid : sst_SegmentID w = sst_SegmentID st) by (revert Ew; apply stats_by_id_key). rewrite <- Hid in Ew. apply Le, Hsub in Ew as [W1 W2]. rewrite (NoDup_map_inj sst_SegmentID recorded w st (sorted_lt_NoDup _ Hr) W1 Hin Hid) in W2. congruence.
    + intros [k st] Hin%list_elem_of_In. apply elem_of_map_to_list in Hin. cbn. assert (Hid : sst_SegmentID st = k) by (revert Hin; apply stats_by_id_key). subst k. apply Le, Hsub in Hin as [Hin _]. apply Lr in Hin. rewrite Hin. now apply bool_decide_eq_true.
Qed.

(** The statistics that a checkpoint records are those that the verifier finds.
    For a mapping [S] whose references are records of the data segments, the
    checkpoint's computation from the counters of the mapping and the verifier's from
    a walk over the references both succeed, the second also with the segments of a
    later manifest, after rotations; both give the same list, with the exact bytes and
    records of every segment; the manifest with them passes the loop of [Validate],
    which counts the entries of the mapping; and the comparison of the verifier
    accepts a recorded list exactly when it is that one, up to entries of zero. *)
Theorem stats_agree m later cut owner recs S live order walk maxEntries :
  files_hold m recs -> files_hold later recs -> cut_after m cut recs -> LogPos_Valid cut = true -> stored_refs owner recs S -> entries_ok S ->
  live_exact live S -> order ≡ₚ map_to_list live -> walk ≡ₚ map_to_list S -> Z.of_nat (size live) <= maxEntries -> Z.of_nat (size S) <= MaxUint64 ->
  exists stats, checkpointSegmentStats order m cut maxEntries = Ok stats /\ Build (Ok walk) (mkFileSet (mf_ActiveData later) (mf_SealedData later)) (len (mf_SealedData later) + 1) = Ok stats /\ exact_stats S stats /\
    (forall next, mf_ActiveData next = mf_ActiveData m -> mf_SealedData next = mf_SealedData m -> mf_ReplayStart next = cut -> stats_live next 0 0 stats = Some (Z.of_nat (size S))) /\
    (forall recorded, StronglySorted Z.lt (map sst_SegmentID recorded) -> equalCoveredSegmentStats stats recorded = true <-> List.filter nonzero_stat recorded = stats).
Proof.
  intros Hm Hl Hcut Hv Hst HS Hlive Ho Hw Hmax Hu. destruct (checkpoint_total m owner recs S Hm Hst HS cut live order maxEntries Hcut Hlive Ho Hv Hmax) as [b Eb]. exists b. split; [exact Eb|]. destruct (checkpoint_exact _ _ _ _ _ _ _ Hlive Ho Eb) as [Hx Hok].
  destruct (Build_total later owner recs S Hl Hst HS live walk _ Hlive (live_few later owner recs S Hl Hst HS live Hlive) ltac:(pose proof (len_nonneg (mf_SealedData later)); lia) Hw) as [a Ea]. rewrite Ea, (exact_unique S a b (Build_exact _ _ _ _ _ HS Hw Ea) Hx). split; [reflexivity|]. split; [exact Hx|].
  assert (Hpos : Forall (fun st => 0 < sst_LiveRecords st /\ 0 < sst_LiveBytes st) b). { apply Forall_forall. intros st Hin. apply (xs_all _ _ Hx) in Hin as (N & -> & ->). pose proof (seg_bytes_floor S HS (sst_SegmentID st)). pose proof (proj1 (seg_bounds S (sst_SegmentID st) HS)). lia. }
  split.
  - intros next N1 N2 N3. rewrite <- (exact_records S b HS Hx). rewrite <- (Z.add_0_l (stats_records b)). apply stats_live_sum; [lia| | |rewrite (exact_records S b HS Hx); lia].
    + constructor; [exact (xs_sorted _ _ Hx)|]. apply Forall_forall. intros k Hk. apply list_elem_of_In, in_map_iff in Hk as (st & <- & Hin). apply list_elem_of_In in Hin. apply (xs_all _ _ Hx) in Hin as (N & _). pose proof (live_segment m owner recs S Hm Hst HS _ N) as Hne. destruct (fh_placed _ _ Hm _ Hne) as ([U _] & Hp & _). destruct (recs (sst_SegmentID st)) as [|r rest] eqn:Er; [contradiction|]. destruct Hp as [Hr _]. apply placed_segment_pos in Hr. lia.
    + rewrite Forall_forall in Hok, Hpos |- *. intros st Hin. specialize (Hpos st Hin). apply (checkpoint_stat_valid m next cut st (Hok st Hin) N1 N2 N3); [|lia|lia]. intros s Es. apply (fh_sealed _ _ Hm) in Es. lia.
  - intros recorded Hr. apply equal_covered; [exact (xs_sorted _ _ Hx)| |exact Hr]. eapply Forall_impl; [exact Hpos|]. intros st [P1 P2]. unfold nonzero_stat. replace (sst_LiveBytes st =? 0) with false by (symmetry; apply Z.eqb_neq; lia). reflexivity.
Qed.
