(* ===== verification/Compaction.v ===== *)
(** * Data compaction of the engine

    Models [internal/engine/relocation.go]: the snapshot of the references of open
    batches, the copy of live records into outputs, the rewriting of open batches, the
    publication of relocations and the proof that an input has no reference left.  A
    read of the mapping, a commit of relocations, a call on a batch and a command of
    the coordinator are single steps; between two of them anything may happen
    ([CompactionWorld]).  Metrics, pacing times and the disk-space reservation are not
    modelled; an error of the pacer is an argument. *)
From S2P Require Import Prelude Addr RecordFormat RecordCodec Mapping LogIface Batch Catalog Coordinator.

(** ** Results and limits *)

Record SegmentRelocationResult := mkRelocated
  { sr_ScannedRecords : Z; sr_PutRecords : Z; sr_LiveCandidates : Z; sr_CopiedRecords : Z; sr_CopiedValueBytes : Z; sr_CopiedPhysicalBytes : Z;
    sr_Applied : Z; sr_Skipped : Z; sr_FirstCommitSeq : Z; sr_LastCommitSeq : Z }.

Definition zeroRelocated : SegmentRelocationResult := mkRelocated 0 0 0 0 0 0 0 0 0 0.

Definition add64 (x y : Z) : Z := (x + y) mod two64.

Definition sr_scanned (r : SegmentRelocationResult) : SegmentRelocationResult :=
  mkRelocated (add64 (sr_ScannedRecords r) 1) (sr_PutRecords r) (sr_LiveCandidates r) (sr_CopiedRecords r) (sr_CopiedValueBytes r) (sr_CopiedPhysicalBytes r) (sr_Applied r) (sr_Skipped r) (sr_FirstCommitSeq r) (sr_LastCommitSeq r).
Definition sr_put (r : SegmentRelocationResult) : SegmentRelocationResult :=
  mkRelocated (sr_ScannedRecords r) (add64 (sr_PutRecords r) 1) (sr_LiveCandidates r) (sr_CopiedRecords r) (sr_CopiedValueBytes r) (sr_CopiedPhysicalBytes r) (sr_Applied r) (sr_Skipped r) (sr_FirstCommitSeq r) (sr_LastCommitSeq r).
Definition sr_live (r : SegmentRelocationResult) : SegmentRelocationResult :=
  mkRelocated (sr_ScannedRecords r) (sr_PutRecords r) (add64 (sr_LiveCandidates r) 1) (sr_CopiedRecords r) (sr_CopiedValueBytes r) (sr_CopiedPhysicalBytes r) (sr_Applied r) (sr_Skipped r) (sr_FirstCommitSeq r) (sr_LastCommitSeq r).
Definition sr_copied (r : SegmentRelocationResult) (physical value : Z) : SegmentRelocationResult :=
  mkRelocated (sr_ScannedRecords r) (sr_PutRecords r) (sr_LiveCandidates r) (add64 (sr_CopiedRecords r) 1) (sr_CopiedValueBytes r + value) (sr_CopiedPhysicalBytes r + physical) (sr_Applied r) (sr_Skipped r) (sr_FirstCommitSeq r) (sr_LastCommitSeq r).
Definition sr_skip (r : SegmentRelocationResult) : SegmentRelocationResult :=
  mkRelocated (sr_ScannedRecords r) (sr_PutRecords r) (sr_LiveCandidates r) (sr_CopiedRecords r) (sr_CopiedValueBytes r) (sr_CopiedPhysicalBytes r) (sr_Applied r) (add64 (sr_Skipped r) 1) (sr_FirstCommitSeq r) (sr_LastCommitSeq r).
(** The counts of a published batch of relocations. *)
Definition sr_published (r : SegmentRelocationResult) (p : RelocationResult) : SegmentRelocationResult :=
  mkRelocated (sr_ScannedRecords r) (sr_PutRecords r) (sr_LiveCandidates r) (sr_CopiedRecords r) (sr_CopiedValueBytes r) (sr_CopiedPhysicalBytes r) (add64 (sr_Applied r) (rr_Applied p)) (add64 (sr_Skipped r) (rr_Skipped p))
    (if sr_FirstCommitSeq r =? 0 then rr_CommitSeq p else sr_FirstCommitSeq r) (rr_CommitSeq p).

Record copiedRecord := mkCopied { cp_id : Z; cp_oldAddr : Z; cp_newRef : RecordRef; cp_valueBytes : Z }.

(** [maintenanceRuntime.maxRelocationMutations] and [.maxRelocationBytes] *)
Record RelocationLimits := mkRelLimits { maxRelocationMutations : Z; maxRelocationBytes : Z }.

(** ** The references of open batches *)

(** [batches] holds the handles of the batches that have one. *)
Record openBatchCompactionRefs := mkOpenRefs { ob_refs : gmap Z RecordRef; ob_batches : list Z }.

Definition snapshot_ref (inputs : list Z) (acc : gmap Z RecordRef * bool) (ref : RecordRef) : gmap Z RecordRef * bool :=
  if bool_decide (SegmentID (Addr ref) ∈ inputs) then (<[Addr ref := ref]> acc.1, true) else acc.

(** One turn of the loop over the open batches. *)
Definition snapshot_batch (inputs : list Z) (h : Z) (b : Batch) (r : openBatchCompactionRefs) : openBatchCompactionRefs :=
  let '(refs, referenced) := foldl (snapshot_ref inputs) (ob_refs r, false) (PendingPutRefs b) in
  mkOpenRefs refs (if referenced : bool then ob_batches r ++ [h] else ob_batches r).

(** ** Copying *)

(** A function from the id of a record to its visible reference, or an error. *)
Abbreviation lookup_ref := (Z -> res (option RecordRef)).

Record copy_state := mkCopy { cs_result : SegmentRelocationResult; cs_redirects : gmap Z RecordRef; cs_origins : gmap Z Z; cs_unpaced : Z }.

(** A record with its Put; the errors of both decoders are joined with
    [base.ErrCorrupt]. *)
Definition put_of (limits : Limits) (payload : list Z) : res (option PutRecord) :=
  match TypeOf payload with
  | Err e => Err (base_ErrCorrupt :: e)
  | Ok typ =>
      if negb (typ =? RecordTypePut) then Ok None
      else match DecodePut payload (MaxValueSize limits) with
           | Err e => Err (base_ErrCorrupt :: e)
           | Ok put => Ok (Some put)
           end
  end.

(** Is the scanned record live?  [None] when it is not; else its Put and whether an
    open batch refers to it. *)
Definition copy_live (limits : Limits) (pending : gmap Z RecordRef) (lookup : lookup_ref) (x : LogRecord) : res (option (PutRecord * bool)) :=
  let! decoded := put_of limits x.2 in
  match decoded with
  | None => Ok None
  | Some put =>
      let! current := lookup (put_RecordID put) in
      let pendingRef := pending !! ar_Addr x.1 in
      let pendingLive := bool_decide (is_Some pendingRef) in
      let! _ := (match pendingRef with
                 | None => Ok tt
                 | Some ref =>
                     match AppendResult_Ref x.1 with
                     | Err e => Err (base_ErrCorrupt :: e)
                     | Ok scannedRef => raise [base_ErrCorrupt] when negb (bool_decide (scannedRef = ref)) ;; Ok tt
                     end
                 end) in
      let here := match current with Some ref => Addr ref =? ar_Addr x.1 | None => false end in
      Ok (if negb here && negb pendingLive then None else Some (put, pendingLive))
  end.

(** After the append of the copy. *)
Definition copy_done (scanned : Z) (put : PutRecord) (pendingLive : bool) (copied : AppendResult) (st : copy_state) : res copy_state :=
  let physical := (pos_Offset (ar_End copied) - Offset (ar_Addr copied)) mod two32 in
  let r := cs_result st in
  raise [base_ErrOverflow] when
    (MaxUint64 - physical <? sr_CopiedPhysicalBytes r) || (MaxUint64 - len (put_Value put) <? sr_CopiedValueBytes r) || (MaxUint64 - physical <? cs_unpaced st) ;;
  let st := mkCopy (sr_copied r physical (len (put_Value put))) (cs_redirects st) (cs_origins st) (cs_unpaced st + physical) in
  if pendingLive then
    match AppendResult_Ref copied with
    | Err e => Err (base_ErrCorrupt :: e)
    | Ok newRef => Ok (mkCopy (cs_result st) (<[scanned := newRef]> (cs_redirects st)) (<[Addr newRef := scanned]> (cs_origins st)) (cs_unpaced st))
    end
  else Ok st.

(** [paceCopy]; [paced] is the error of the pacer. *)
Definition paceCopy (rl : RelocationLimits) (force : bool) (paced : option goerror) (st : copy_state) : copy_state * res unit :=
  if (cs_unpaced st =? 0) || (negb force && (cs_unpaced st <? maxRelocationBytes rl)) then (st, Ok tt)
  else (mkCopy (cs_result st) (cs_redirects st) (cs_origins st) 0, match paced with Some e => Err e | None => Ok tt end).

(** The counts of a scanned record. *)
Definition copy_counted (payload : list Z) (st : copy_state) : copy_state :=
  let r := sr_scanned (cs_result st) in
  let isPut := match TypeOf payload with Ok typ => typ =? RecordTypePut | Err _ => false end in
  mkCopy (if isPut then sr_put r else r) (cs_redirects st) (cs_origins st) (cs_unpaced st).

(** The callback of the scan of an input; [append] is the [Append] of the writer of
    the outputs. *)
Definition copy_record {W : Type} (append : W -> list Z -> W * res AppendResult) (limits : Limits) (rl : RelocationLimits) (pending : gmap Z RecordRef) (lookup : lookup_ref) (paced : option goerror) (x : LogRecord) (w : W) (st : copy_state)
    : W * (copy_state * res unit) :=
  let st := copy_counted x.2 st in
  match copy_live limits pending lookup x with
  | Err e => (w, (st, Err e))
  | Ok None => (w, (st, Ok tt))
  | Ok (Some (put, pendingLive)) =>
      let st := mkCopy (sr_live (cs_result st)) (cs_redirects st) (cs_origins st) (cs_unpaced st) in
      match append w x.2 with
      | (w, Err e) => (w, (st, Err e))
      | (w, Ok copied) =>
          match copy_done (ar_Addr x.1) put pendingLive copied st with
          | Err e => (w, (st, Err e))
          | Ok st => (w, paceCopy rl false paced st)
          end
      end
  end.

(** ** Publishing relocations *)

Record publish_state := mkPublishing { pb_pending : list copiedRecord; pb_ids : gset Z; pb_bytes : Z; pb_result : SegmentRelocationResult }.

(** What the callback finds for an output record: [None] is a skip.  [verify] reads
    the payload of the source when the compaction is resumed. *)
Definition publish_examine (limits : Limits) (inputs : list Z) (origins : gmap Z Z) (verify : option (Z -> res (list Z))) (lookup : lookup_ref) (ids : gset Z) (x : LogRecord) : res (option copiedRecord) :=
  let! decoded := put_of limits x.2 in
  match decoded with
  | None => Err [base_ErrCorrupt]
  | Some put =>
      let! current := lookup (put_RecordID put) in
      match current with
      | None => Ok None
      | Some current =>
          if negb (bool_decide (SegmentID (Addr current) ∈ inputs)) then Ok None
          else
            match AppendResult_Ref x.1 with
            | Err e => Err (base_ErrCorrupt :: e)
            | Ok ref =>
                let other :=
                  match origins !! ar_Addr x.1 with
                  | Some origin => negb (Addr current =? origin)
                  | None => bool_decide (Addr current ∈ (map_to_list origins).*2)
                  end in
                if other then Ok None
                else
                  let! same := (match verify with
                                | None => Ok true
                                | Some read => let! source := read (Addr current) in Ok (bool_decide (source = x.2))
                                end) in
                  if negb same then Ok None
                  else if bool_decide (put_RecordID put ∈ ids) then Ok None
                  else Ok (Some (mkCopied (put_RecordID put) (Addr current) ref (len (put_Value put))))
            end
      end
  end.

Definition capacity (limits : Limits) (rl : RelocationLimits) : Z := Z.min (MaxBatchMutations limits) (maxRelocationMutations rl).

(** Does the next record need a flush first? *)
Definition needs_flush (limits : Limits) (rl : RelocationLimits) (st : publish_state) (c : copiedRecord) : bool :=
  let exceedsBytes := (maxRelocationBytes rl <? cp_valueBytes c) || (maxRelocationBytes rl - cp_valueBytes c <? pb_bytes st) in
  negb (len (pb_pending st) =? 0) && ((len (pb_pending st) =? capacity limits rl) || exceedsBytes).

Definition publish_add (st : publish_state) (c : copiedRecord) : publish_state :=
  mkPublishing (pb_pending st ++ [c]) ({[cp_id c]} ∪ pb_ids st) (add64 (pb_bytes st) (cp_valueBytes c)) (pb_result st).

Definition publish_skip (st : publish_state) : publish_state := mkPublishing (pb_pending st) (pb_ids st) (pb_bytes st) (sr_skip (pb_result st)).

(** [flush] empties the list after [publishCopiedRecords]. *)
Definition publish_flushed (st : publish_state) : publish_state := mkPublishing [] ∅ 0 (pb_result st).

(** *** One batch of [publishCopiedRecords] *)

(** The loop that counts the records of the batch; the subtraction wraps. *)
Fixpoint batch_count (maxBytes : Z) (room : nat) (count : nat) (bytes : Z) (copied : list copiedRecord) : nat * Z :=
  match room, copied with
  | S room, c :: rest =>
      if (count =? 0)%nat || (cp_valueBytes c <=? (maxBytes - bytes) mod two64) then batch_count maxBytes room (S count) (add64 bytes (cp_valueBytes c)) rest else (count, bytes)
  | _, _ => (count, bytes)
  end.

Definition next_batch (limits : Limits) (rl : RelocationLimits) (copied : list copiedRecord) : nat * Z :=
  batch_count (Z.min (MaxBatchBytes limits) (maxRelocationBytes rl)) (Z.to_nat (Z.min (len copied) (capacity limits rl))) 0 0 copied.

Definition by_id (a b : copiedRecord) : Prop := cp_id a <= cp_id b.
#[export] Instance by_id_dec a b : Decision (by_id a b).
Proof. unfold by_id. apply _. Defined.

Definition relocate_change (c : copiedRecord) : Change := mkChange (cp_id c) (cp_newRef c) (cp_oldAddr c) OpRelocate.

Definition relocation_of (batchID bytes : Z) (batch : list copiedRecord) : Relocation :=
  mkRelocation batchID (map relocate_change (merge_sort by_id batch)) bytes.

(** ** Proving that an input is dead *)

Record SegmentRetirementProof := mkProof
  { rp_Source : DataSegmentSummary; rp_CatalogGeneration : Z; rp_CoveredCommitSeq : Z; rp_ReplayStart : LogPos; rp_ManifestGeneration : Z }.

(** [sort.Search] for the first segment that is not before [id]. *)
Definition search_sealed (sealed : list DataSegmentSummary) (id : Z) : option DataSegmentSummary := List.find (fun s => id <=? ds_SegmentID s) sealed.

Definition containsSealedSegment (m : Manifest) (source : DataSegmentSummary) : bool :=
  match search_sealed (mf_SealedData m) (ds_SegmentID source) with Some s => bool_decide (s = source) | None => false end.

(** The callback of the scan of the source. *)
Definition prove_record (limits : Limits) (lookup : lookup_ref) (x : LogRecord) : res unit :=
  let! decoded := put_of limits x.2 in
  match decoded with
  | None => Ok tt
  | Some put =>
      let! current := lookup (put_RecordID put) in
      raise [base_ErrConflict] when match current with Some ref => Addr ref =? ar_Addr x.1 | None => false end ;;
      Ok tt
  end.

(** [ScanSegment] with that callback: the first error ends the scan. *)
Fixpoint prove_scan (limits : Limits) (lookup : lookup_ref) (records : list LogRecord) : res unit :=
  match records with
  | [] => Ok tt
  | x :: rest => let! _ := prove_record limits lookup x in prove_scan limits lookup rest
  end.

Definition is_errCorrupt (e : goerror) : bool := bool_decide (base_ErrCorrupt ∈ e).

(** [open] are the open batches, [scan] the answer of the scan when it is done; the
    first result is the fault that is set. *)
Definition proveSegmentRetirementAtCheckpoint (fault : option goerror) (open : list Batch) (commitFault : option goerror) (m : Manifest) (scan : option (res unit)) (source relocationEnd : Z) : option goerror * res SegmentRetirementProof :=
  match fault with
  | Some e => (None, Err (base_ErrReadOnly :: e))
  | None =>
      if existsb (fun b => ReferencesSegment b source) open then (None, Err [base_ErrConflict])
      else
        match commitFault with
        | Some e => (None, Err (base_ErrReadOnly :: e))
        | None =>
            if (mf_CoveredCommitSeq m <? relocationEnd) || negb (mf_StatsCoveredCommitSeq m =? mf_CoveredCommitSeq m) then (Some [base_ErrCorrupt], Err [base_ErrCorrupt])
            else
              match search_sealed (mf_SealedData m) source with
              | None => (None, Err [recordlog_ErrSegmentMissing])
              | Some s =>
                  if negb (ds_SegmentID s =? source) then (None, Err [recordlog_ErrSegmentMissing])
                  else if negb (StatsKnownForSegment (mf_ReplayStart m) s) then (None, Err [base_ErrConflict])
                  else
                    match scan with
                    | Some (Err e) => (if is_errCorrupt e then Some e else None, Err e)
                    | _ =>
                        if existsb (fun st => (sst_SegmentID st =? source) && (negb (sst_LiveBytes st =? 0) || negb (sst_LiveRecords st =? 0))) (mf_SegmentStats m) then (None, Err [base_ErrConflict; engine_errCheckpointStatsStale])
                        else (None, Ok (mkProof s (mf_Generation m) (mf_CoveredCommitSeq m) (mf_ReplayStart m) (mf_Generation m)))
                    end
              end
        end
  end.

(** [proveCompactionRetirements]; the second result says that the statistics are
    stale.  [answers] are the results for the inputs in order. *)
Fixpoint prove_all (answers : list (res SegmentRetirementProof)) (proofs : list SegmentRetirementProof) : res (list SegmentRetirementProof * bool) :=
  match answers with
  | [] => Ok (proofs, false)
  | Ok p :: rest => prove_all rest (proofs ++ [p])
  | Err e :: _ => if bool_decide (engine_errCheckpointStatsStale ∈ e) then Ok ([], true) else Err e
  end.

Definition proof_matches (m : Manifest) (input : DataSegmentSummary) (p : SegmentRetirementProof) : bool :=
  negb (negb (bool_decide (rp_Source p = input)) || (rp_ManifestGeneration p =? 0) || negb (rp_CatalogGeneration p =? rp_ManifestGeneration p) ||
        negb (rp_ManifestGeneration p =? mf_Generation m) || negb (rp_CoveredCommitSeq p =? mf_CoveredCommitSeq m) ||
        negb (bool_decide (rp_ReplayStart p = mf_ReplayStart m)) || negb (containsSealedSegment m (rp_Source p))).

Definition validateRetirementProofs (m : Manifest) (inputs : list DataSegmentSummary) (proofs : list SegmentRetirementProof) : res Manifest :=
  raise [base_ErrInvalidConfig] when (len inputs =? 0) || negb (len inputs =? len proofs) ;;
  raise [base_ErrConflict] when negb (forallb (fun x => proof_matches m x.1 x.2) (combine inputs proofs)) ;;
  Ok m.

(** The catalog step of the retirement; a conflict is also the engine's. *)
Definition installCompactionRetirement (m : Manifest) (inputs : list DataSegmentSummary) (proofs : list SegmentRetirementProof) : res Manifest :=
  let! m := validateRetirementProofs m inputs proofs in
  match InstallDataCompaction m (mf_Generation m) inputs (mf_CoveredCommitSeq m) (mf_ReplayStart m) with
  | Err e => Err (if bool_decide (storecatalog_ErrConflict ∈ e) then base_ErrConflict :: e else e)
  | Ok next => Ok next
  end.
