(* ===== verification/CompactionWorld.v ===== *)
(** * Compaction beside running transactions

    The compaction of sealed segments as one of many threads.  Clients stage
    mutations in batches and submit them, the coordinator takes requests from its
    queue one after the other, and the compaction goes through the phases of
    [compactSegmentsCopy] and [publishCompactionOutputs]; every constructor of [step]
    is one atomic action of one thread.  What a group of commits does to the mapping
    is [spec_proposal], which the coordinator and the persistent mapping are shown to
    implement ([CoordinatorSpec], [PersistentSpec]). *)
From S2P Require Import Prelude Bytes Addr RecordFormat RecordCodec Mapping LogIface Batch Catalog Coordinator Compaction.

(** ** The writer of the outputs *)

Class OutputWriter (W : Type) := { ow_append : W -> list Z -> W * res AppendResult }.

(** [ids] are the reserved segments, [fits] the payloads that an output can hold. *)
Class OutputWriterLaws (W : Type) `{!OutputWriter W} (ids : list Z) (fits : list Z -> Prop) := {
  ow_written : W -> list LogRecord -> Prop;
  ow_append_ok w recs p w' r : fits p -> ow_written w recs -> ow_append w p = (w', Ok r) -> ow_written w' (recs ++ [(r, p)]);
  ow_distinct w recs : ow_written w recs -> NoDup (map (fun x => ar_Addr x.1) recs);
  ow_segment w recs x : ow_written w recs -> x ∈ recs -> SegmentID (ar_Addr x.1) ∈ ids /\ exists ref, AppendResult_Ref x.1 = Ok ref;
}.

(** ** The state *)

(** A request in the queue of the coordinator. *)
Inductive command := CUser (h : Z) (p : Prepared) | CInstall (redirects : gmap Z RecordRef) | CRelease.

(** What [compactSegmentsCopy] hands over; a compaction that is resumed after a restart
    compares payloads instead. *)
Record copied_work := mkWork { cw_refs : openBatchCompactionRefs; cw_copy : copy_state; cw_resumed : bool }.

Inductive phase :=
| Snapshotting (todo : list Z) (acc : openBatchCompactionRefs)
| Copying (todo : list LogRecord) (work : copied_work)
| Installing (work : copied_work)
| Rewriting (todo : list Z) (work : copied_work)
| Releasing (work : copied_work)
| Publishing (todo : list LogRecord) (ps : publish_state) (work : copied_work)
| Flushing (copied : list copiedRecord) (next : option copiedRecord) (todo : list LogRecord) (ps : publish_state) (work : copied_work)
| Waiting (work : copied_work)
| Finished
| Stopped (e : goerror).

Section World.
Context {L : Type} `{!AppendLog L} {W : Type} `{!OutputWriter W}.

(** [wd_heap] are the batch objects, [wd_open] the handles in [state.open],
    [wd_admitting] the submissions between [Prepare] and the queue, under the
    admission lock; [wd_outputs] are the records of the output segments. *)
Record world := mkWorld
  { wd_log : L; wd_entries : Entries; wd_heap : gmap Z Batch; wd_open : gset Z; wd_admitting : gmap Z Prepared; wd_queue : list command;
    wd_redirects : gmap Z RecordRef; wd_writer : W; wd_outputs : list LogRecord; wd_phase : phase }.

Definition set_phase (w : world) (p : phase) : world := mkWorld (wd_log w) (wd_entries w) (wd_heap w) (wd_open w) (wd_admitting w) (wd_queue w) (wd_redirects w) (wd_writer w) (wd_outputs w) p.
Definition set_heap (w : world) (h : Z) (b : Batch) : world := mkWorld (wd_log w) (wd_entries w) (<[h := b]> (wd_heap w)) (wd_open w) (wd_admitting w) (wd_queue w) (wd_redirects w) (wd_writer w) (wd_outputs w) (wd_phase w).
Definition set_wlog (w : world) (l : L) : world := mkWorld l (wd_entries w) (wd_heap w) (wd_open w) (wd_admitting w) (wd_queue w) (wd_redirects w) (wd_writer w) (wd_outputs w) (wd_phase w).
Definition set_entries (w : world) (s : Entries) : world := mkWorld (wd_log w) s (wd_heap w) (wd_open w) (wd_admitting w) (wd_queue w) (wd_redirects w) (wd_writer w) (wd_outputs w) (wd_phase w).
Definition set_open (w : world) (o : gset Z) : world := mkWorld (wd_log w) (wd_entries w) (wd_heap w) o (wd_admitting w) (wd_queue w) (wd_redirects w) (wd_writer w) (wd_outputs w) (wd_phase w).
Definition set_admitting (w : world) (a : gmap Z Prepared) : world := mkWorld (wd_log w) (wd_entries w) (wd_heap w) (wd_open w) a (wd_queue w) (wd_redirects w) (wd_writer w) (wd_outputs w) (wd_phase w).
Definition set_queue (w : world) (q : list command) : world := mkWorld (wd_log w) (wd_entries w) (wd_heap w) (wd_open w) (wd_admitting w) q (wd_redirects w) (wd_writer w) (wd_outputs w) (wd_phase w).
Definition set_redirects (w : world) (m : gmap Z RecordRef) : world := mkWorld (wd_log w) (wd_entries w) (wd_heap w) (wd_open w) (wd_admitting w) (wd_queue w) m (wd_writer w) (wd_outputs w) (wd_phase w).
Definition set_writer (w : world) (x : W) (outs : list LogRecord) : world := mkWorld (wd_log w) (wd_entries w) (wd_heap w) (wd_open w) (wd_admitting w) (wd_queue w) (wd_redirects w) x outs (wd_phase w).

Definition lookup_in (w : world) : lookup_ref := fun id => Ok (wd_entries w !! id).

(** [applyCommitRedirects] on the prepared batch of a request *)
Definition redirect_prepared (redirects : gmap Z RecordRef) (p : Prepared) : Prepared :=
  mkPrepared (pp_BatchID p) (map (redirect_mutation redirects) (pp_Mutations p)) (pp_Conditions p) (pp_LogicalPayloadBytes p).

(** ** Clients and coordinator *)

(** The operations of a client on its batch. *)
Inductive client_step (l : L) (b : Batch) : L -> Batch -> Prop :=
| cl_allocate al ctx b' al' l' r : Allocate b al l ctx = (b', al', l', r) -> client_step l b l' b'
| cl_create al ctx value b' al' l' r : bytes_ok value -> Create b al l ctx value = (b', al', l', r) -> client_step l b l' b'
| cl_put al ctx id value b' l' r : bytes_ok value -> Put b al l ctx id value = (b', l', r) -> client_step l b l' b'
| cl_compare_put al ctx id expected value b' l' r : bytes_ok value -> CompareAndPut b al l ctx id expected value = (b', l', r) -> client_step l b l' b'
| cl_delete id b' r : Delete b id = (b', r) -> client_step l b l b'
| cl_compare_delete id expected b' r : CompareAndDelete b id expected = (b', r) -> client_step l b l b'
| cl_condition c b' r : addCondition b c = (b', r) -> client_step l b l b'
| cl_abort reason b' l' r : Abort b l reason = (b', l', r) -> client_step l b l' b'.

Section Steps.
Context (limits : Limits) (rl : RelocationLimits) (inputs ids : list Z) (scan : list LogRecord).

(** Records are appended to the active segment: not to a sealed input and not to an
    output. *)
Definition appends_elsewhere (l l' : L) : Prop :=
  exists new, log_records l' = log_records l ++ new /\ Forall (fun x => SegmentID (ar_Addr x.1) ∉ inputs /\ SegmentID (ar_Addr x.1) ∉ ids) new.

(** Record ids are 64-bit values. *)
Definition ids_u (b : Batch) : Prop := forall i m, ba_mutations b !! i = Some m -> is_u64 i.

Inductive user_step (w : world) : world -> Prop :=
| us_log l' : appends_elsewhere (wd_log w) l' -> user_step w (set_wlog w l')
| us_begin h id b : wd_heap w !! h = None -> is_u64 id -> Batch.New id limits = Ok b -> user_step w (set_open (set_heap w h b) ({[h]} ∪ wd_open w))
| us_client h b l' b' : wd_heap w !! h = Some b -> client_step (wd_log w) b l' b' -> ids_u b' -> appends_elsewhere (wd_log w) l' -> user_step w (set_heap (set_wlog w l') h b')
| us_prepare h b b' p : wd_heap w !! h = Some b -> Prepare b = (b', Ok p) -> user_step w (set_admitting (set_heap w h b') (<[h := p]> (wd_admitting w)))
| us_unprepared h b b' e : wd_heap w !! h = Some b -> Prepare b = (b', Err e) -> user_step w (set_heap w h b')
| us_enqueue h p : wd_admitting w !! h = Some p -> user_step w (set_queue (set_admitting w (delete h (wd_admitting w))) (wd_queue w ++ [CUser h p]))
| us_withdraw h p b : wd_admitting w !! h = Some p -> wd_heap w !! h = Some b -> user_step w (set_heap (set_admitting w (delete h (wd_admitting w))) h (MarkAborted b).1)
| us_commit h p b rest seq : wd_queue w = CUser h p :: rest -> wd_heap w !! h = Some b -> seq <> 0 -> spec_accepts (wd_entries w) (Prepared_Proposal (redirect_prepared (wd_redirects w) p)) = true ->
    user_step w (set_heap (set_entries (set_queue w rest) (spec_proposal (wd_entries w) (Prepared_Proposal (redirect_prepared (wd_redirects w) p)))) h (MarkCommitted b seq).1)
| us_refuse h p b rest : wd_queue w = CUser h p :: rest -> wd_heap w !! h = Some b -> user_step w (set_heap (set_queue w rest) h (MarkAborted b).1)
| us_unknown h p b rest : wd_queue w = CUser h p :: rest -> wd_heap w !! h = Some b -> user_step w (set_heap (set_queue w rest) h (MarkCommitUnknown b).1)
| us_finish h b : wd_heap w !! h = Some b -> terminal (ba_state b) = true -> user_step w (set_open w (wd_open w ∖ {[h]}))
(* a command whose sender has given up *)
| us_orphan_install e m rest : wd_phase w = Stopped e -> wd_queue w = CInstall m :: rest -> user_step w (set_redirects (set_queue w rest) m)
| us_orphan_release e rest : wd_phase w = Stopped e -> wd_queue w = CRelease :: rest -> user_step w (set_redirects (set_queue w rest) ∅).

(** ** The compaction *)

Definition read_input (addr : Z) : res (list Z) := match List.find (fun x => ar_Addr x.1 =? addr) scan with Some x => Ok x.2 | None => Err [recordlog_ErrSegmentMissing] end.

Definition origins_of (work : copied_work) : gmap Z Z := cs_origins (cw_copy work).

Definition verify_of (work : copied_work) : option (Z -> res (list Z)) := if cw_resumed work then Some read_input else None.

(** The append to an output, with the records of the outputs. *)
Definition output_append (x : W * list LogRecord) (payload : list Z) : (W * list LogRecord) * res AppendResult :=
  match ow_append x.1 payload with
  | (w, Ok r) => ((w, x.2 ++ [(r, payload)]), Ok r)
  | (w, Err e) => ((w, x.2), Err e)
  end.

(** What [publishCopiedRecords] does next with the records of a flush. *)
Definition after_flush (next : option copiedRecord) (todo : list LogRecord) (ps : publish_state) (work : copied_work) : phase :=
  let ps := publish_flushed ps in
  match next with Some c => Publishing todo (publish_add ps c) work | None => Finished end.

Definition start_publish (w : world) (work : copied_work) : phase := Publishing (wd_outputs w) (mkPublishing [] ∅ 0 (cs_result (cw_copy work))) work.

Inductive gc_step (w : world) : world -> Prop :=
(* snapshotOpenBatchCompactionRefs *)
| gs_snapshot h b todo acc : wd_phase w = Snapshotting (h :: todo) acc -> wd_heap w !! h = Some b -> gc_step w (set_phase w (Snapshotting todo (snapshot_batch inputs h b acc)))
| gs_copy_start acc : wd_phase w = Snapshotting [] acc -> gc_step w (set_phase w (Copying scan (mkWork acc (mkCopy zeroRelocated ∅ ∅ 0) false)))
(* compactSegmentsCopy *)
| gs_copy x todo work paced w' outs st : wd_phase w = Copying (x :: todo) work ->
    copy_record output_append limits rl (ob_refs (cw_refs work)) (lookup_in w) paced x (wd_writer w, wd_outputs w) (cw_copy work) = ((w', outs), (st, Ok tt)) ->
    gc_step w (set_phase (set_writer w w' outs) (Copying todo (mkWork (cw_refs work) st false)))
| gs_copied work paced st : wd_phase w = Copying [] work -> paceCopy rl true paced (cw_copy work) = (st, Ok tt) -> Z.of_nat (size (cs_redirects st)) = Z.of_nat (size (ob_refs (cw_refs work))) -> cs_redirects st <> ∅ ->
    gc_step w (set_queue (set_phase w (Installing (mkWork (cw_refs work) st false))) (wd_queue w ++ [CInstall (cs_redirects st)]))
| gs_copied_none work paced st : wd_phase w = Copying [] work -> paceCopy rl true paced (cw_copy work) = (st, Ok tt) -> Z.of_nat (size (cs_redirects st)) = Z.of_nat (size (ob_refs (cw_refs work))) -> cs_redirects st = ∅ ->
    gc_step w (set_phase w (start_publish w (mkWork (cw_refs work) st false)))
(* rewriteOpenBatchCompactionRefs; the coordinator handles the two commands *)
| gs_install work m rest : wd_phase w = Installing work -> wd_queue w = CInstall m :: rest -> wd_redirects w = ∅ -> gc_step w (set_phase (set_redirects (set_queue w rest) m) (Rewriting (ob_batches (cw_refs work)) work))
| gs_rewrite h b todo work : wd_phase w = Rewriting (h :: todo) work -> wd_heap w !! h = Some b -> gc_step w (set_phase (set_heap w h (RewritePutRefs b (cs_redirects (cw_copy work))).1) (Rewriting todo work))
| gs_release work : wd_phase w = Rewriting [] work -> wd_admitting w = ∅ -> gc_step w (set_queue (set_phase w (Releasing work)) (wd_queue w ++ [CRelease]))
| gs_released work rest : wd_phase w = Releasing work -> wd_queue w = CRelease :: rest -> gc_step w (set_phase (set_redirects (set_queue w rest) ∅) (start_publish w work))
(* publishCompactionOutputs *)
| gs_skip x todo ps work : wd_phase w = Publishing (x :: todo) ps work -> publish_examine limits inputs (origins_of work) (verify_of work) (lookup_in w) (pb_ids ps) x = Ok None -> gc_step w (set_phase w (Publishing todo (publish_skip ps) work))
| gs_add x todo ps work c : wd_phase w = Publishing (x :: todo) ps work -> publish_examine limits inputs (origins_of work) (verify_of work) (lookup_in w) (pb_ids ps) x = Ok (Some c) -> needs_flush limits rl ps c = false -> gc_step w (set_phase w (Publishing todo (publish_add ps c) work))
| gs_full x todo ps work c : wd_phase w = Publishing (x :: todo) ps work -> publish_examine limits inputs (origins_of work) (verify_of work) (lookup_in w) (pb_ids ps) x = Ok (Some c) -> needs_flush limits rl ps c = true -> gc_step w (set_phase w (Flushing (pb_pending ps) (Some c) todo ps work))
| gs_last ps work : wd_phase w = Publishing [] ps work -> gc_step w (set_phase w (Flushing (pb_pending ps) None [] ps work))
(* publishCopiedRecords *)
| gs_flushed next todo ps work : wd_phase w = Flushing [] next todo ps work -> gc_step w (set_phase w (after_flush next todo ps work))
| gs_relocate copied next todo ps work count bytes batchID result : wd_phase w = Flushing copied next todo ps work -> copied <> [] -> next_batch limits rl copied = (count, bytes) -> count <> 0%nat ->
    gc_step w (set_phase (set_entries w (spec_proposal (wd_entries w) (relocationProposal (relocation_of batchID bytes (take count copied)))))
                 (Flushing (drop count copied) next todo (mkPublishing (pb_pending ps) (pb_ids ps) (pb_bytes ps) (sr_published (pb_result ps) result)) work))
(* a checkpoint is needed first; the phase starts again after it *)
| gs_dependency copied next todo ps work : wd_phase w = Flushing copied next todo ps work -> gc_step w (set_phase w (Waiting work))
| gs_again work : wd_phase w = Waiting work -> gc_step w (set_phase w (start_publish w work))
(* every error *)
| gs_stop e : gc_step w (set_phase w (Stopped e)).

Inductive step (w w' : world) : Prop := step_user (H : user_step w w') | step_gc (H : gc_step w w').
End Steps.
End World.
Arguments world L W : clear implicits.
