(* ===== verification/CompactionSteps.v ===== *)
(** * The steps of clients, commits and relocations

    What an operation of a client can do to its batch, what preparing it copies, and
    which references a commit or a batch of relocations leaves in the mapping. *)
From S2P Require Import Prelude Bytes Addr RecordFormat RecordCodec Mapping LogIface Batch Coordinator Catalog Compaction CompactionWorld.

(** ** References and records *)

Lemma Ref_addr r ref : AppendResult_Ref r = Ok ref -> Addr ref = ar_Addr r /\ RecordRef_Valid ref = true.
Proof. unfold AppendResult_Ref. intros H. inv_ok H. apply NewRecordRef_valid in H as [-> Hv]. auto. Qed.

(** [p] is a Put of record [id]. *)
Definition put_payload (limits : Limits) (id : Z) (p : list Z) : Prop := exists put, put_of limits p = Ok (Some put) /\ put_RecordID put = id.

Lemma put_payload_unique limits i j p : put_payload limits i p -> put_payload limits j p -> i = j.
Proof. intros (a & A & <-) (b & B & <-). congruence. Qed.

Lemma put_of_encoded limits batch id value p : is_u64 batch -> is_u64 id -> bytes_ok value -> EncodePut (mkPut batch id value) (MaxValueSize limits) = Ok p -> put_payload limits id p.
Proof.
  intros Hb Hi Hv E. destruct (DecodePut_EncodePut _ _ _ (conj Hb (conj Hi Hv) : put_u (mkPut batch id value)) E) as [D T]. exists (mkPut batch id value). split; [|reflexivity]. unfold put_of. rewrite T, D. reflexivity.
Qed.

(** ** What a client can do to its batch *)

Section Client.
Context {L : Type} `{!AppendLog L} `{!AppendLogLaws L}.

(** Mutations are old ones, deletions, or refer to a new record with the Put. *)
Definition new_mutations (l l' : L) (b b' : Batch) (i : Z) (m : BMutation) : Prop :=
  ba_mutations b !! i = Some m \/ bm_Operation m = OpDelete \/
  bm_Operation m = OpPut /\ bm_RecordID m = i /\ exists new r p value, log_records l' = log_records l ++ new /\ (r, p) ∈ new /\ AppendResult_Ref r = Ok (bm_Ref m) /\ bytes_ok value /\ EncodePut (mkPut (ba_id b) i value) (MaxValueSize (ba_limits b)) = Ok p.

Record client_result (l : L) (b : Batch) (l' : L) (b' : Batch) : Prop := mkClientResult {
  cr_same : ba_id b' = ba_id b /\ ba_limits b' = ba_limits b;
  cr_state : b' = b \/ (ba_state b = StateOpen \/ ba_state b = StateFailed) /\ (ba_state b' = StateOpen /\ ba_state b = StateOpen \/ ba_state b' = StateFailed \/ ba_state b' = StateAborted);
  cr_mutations : forall i m, ba_mutations b' !! i = Some m -> new_mutations l l' b b' i m;
}.

Lemma client_same l b l' : client_result l b l' b.
Proof. constructor; [auto|auto|]. intros i m H. now left. Qed.

Lemma client_failed l b l' : ba_state b = StateOpen -> client_result l b l' (set_state b StateFailed).
Proof. intros Ho. constructor; [auto|right; auto|]. intros i m H. now left. Qed.

Lemma client_condition l b l' b' c : client_result l b l' b' -> ba_state b' = StateOpen -> client_result l b l' (set_condition b' c).
Proof.
  intros [R1 R2 R3] Ho. constructor; cbn; [exact R1| |exact R3]. right. destruct R2 as [->|(R4 & [[R5 R6]|[R5|R5]])]; try congruence; auto.
Qed.

(** Steps before the operation that only extend the log. *)
Lemma client_after l l1 l' b b' : (exists ys, log_records l1 = log_records l ++ ys) -> client_result l1 b l' b' -> client_result l b l' b'.
Proof.
  intros [ys Ey] [R1 R2 R3]. constructor; auto. intros i m H. destruct (R3 i m H) as [H1|[H1|(H1 & H2 & new & r & p & v & E & Hin & H3)]]; [now left|right; now left|]. right; right. split; [exact H1|]. split; [exact H2|]. exists (ys ++ new), r, p, v. split; [now rewrite E, Ey, app_assoc|]. split; [apply elem_of_app; now right|exact H3].
Qed.

Lemma putLocked_client b al l ctx id value b' l' r : ba_state b = StateOpen -> bytes_ok value -> putLocked b al l ctx id value = (b', l', r) -> client_result l b l' b' /\ (ba_state b' = StateOpen \/ ba_state b' = StateFailed) /\ (exists ys, log_records l' = log_records l ++ ys).
Proof.
  intros Ho Hv E. unfold putLocked in E. assert (Hsame : client_result l b l b /\ (ba_state b = StateOpen \/ ba_state b = StateFailed) /\ exists ys, log_records l = log_records l ++ ys) by (split; [apply client_same|]; split; [auto|exists []; now rewrite app_nil_r]).
  destruct (validatePut _ _ _ _); [|injection E as <- <- _; exact Hsame]. destruct (negb _); [injection E as <- <- _; exact Hsame|]. destruct ctx; [injection E as <- <- _; exact Hsame|]. destruct (EncodePut _ _) as [p|] eqn:Ep; [|injection E as <- <- _; exact Hsame].
  destruct (log_append l p false) as [l1 [res|e]] eqn:Ea.
  - destruct (append_ok _ _ _ _ _ Ea) as [Er _]. destruct (AppendResult_Ref res) as [ref|] eqn:Eref; injection E as <- <- _.
    + split; [|split; [now left|eauto]]. constructor; cbn; [auto|right; split; [now left|left; auto]|]. intros i m [[<- <-]|[_ H]]%lookup_insert_Some; [|now left]. right; right. split; [reflexivity|]. split; [reflexivity|]. exists [(res, p)], res, p, value. cbn. split; [exact Er|]. split; [now left|]. auto.
    + split; [now apply client_failed|]. split; [now right|eauto].
  - injection E as <- <- _. split; [now apply client_failed|]. split; [now right|]. destruct (append_extends _ _ _ _ _ Ea) as [->|[x ->]]; [exists []; now rewrite app_nil_r|eauto].
Qed.

Lemma putLocked_open b al l ctx id value b' l' x : putLocked b al l ctx id value = (b', l', Ok x) -> ba_state b = StateOpen -> ba_state b' <> StateFailed.
Proof. intros E Ho. unfold putLocked in E. repeat case_match; try discriminate; injection E as <- _ _; cbn; congruence. Qed.

Lemma deleteLocked_client l b id b' r : ba_state b = StateOpen -> deleteLocked b id = (b', r) -> client_result l b l b' /\ ba_state b' = StateOpen.
Proof.
  intros Ho E. unfold deleteLocked in E. repeat (case_match; [injection E as <- _; split; [apply client_same|exact Ho]|]). injection E as <- _. split; [|exact Ho]. constructor; cbn; [auto|right; split; [now left|left; auto]|]. intros i m [[<- <-]|[_ Hx]]%lookup_insert_Some; [right; left; reflexivity|now left].
Qed.

Lemma validateCondition_client l l' b c b' r : ba_state b = StateOpen -> validateCondition b c = (b', r) -> client_result l b l' b' /\ (is_ok r = true -> b' = b).
Proof.
  intros Ho E. unfold validateCondition in E. repeat case_match; injection E as <- <-; (split; [first [apply client_same|now apply client_failed]|first [reflexivity|discriminate]]).
Qed.

Lemma requireOpen_open b : requireOpen b = None -> ba_state b = StateOpen.
Proof. unfold requireOpen, stateError. destruct (ba_state b); congruence. Qed.

Lemma allocateLocked_client b al l ctx b' al' l' r : ba_state b = StateOpen -> allocateLocked b al l ctx = (b', al', l', r) -> client_result l b l' b' /\ (is_ok r = true -> b' = b) /\ exists ys, log_records l' = log_records l ++ ys.
Proof.
  intros Ho E. destruct (allocateLocked_step _ _ _ _ _ _ _ _ Ho E) as [[_ _ _ _ He] Hb]. split; [|split; [exact Hb|exact He]]. unfold allocateLocked in E. repeat case_match; injection E as <- <- <- <-; first [apply client_same|now apply client_failed].
Qed.

Lemma client_step_result l b l' b' : client_step l b l' b' -> client_result l b l' b'.
Proof.
  intros H. destruct H as [al ctx b' al' l' r E|al ctx value b' al' l' r Hv E|al ctx id value b' l' r Hv E|al ctx id expected value b' l' r Hv E|id b' r E|id expected b' r E|c b' r E|reason b' l' r E].
  - unfold Allocate in E. destruct (requireOpen b) eqn:Eo; [injection E as <- <- <- <-; apply client_same|]. apply requireOpen_open in Eo. now apply allocateLocked_client in E as [H _].
  - unfold Create in E. destruct (requireOpen b) eqn:Eo; [injection E as <- <- <- <-; apply client_same|]. apply requireOpen_open in Eo. destruct (validatePut _ _ _ _); [|injection E as <- <- <- <-; apply client_same]. destruct (allocateLocked _ _ _ _) as [[[b1 al1] l1] [id|e]] eqn:Ea; apply (allocateLocked_client _ _ _ _ _ _ _ _ Eo) in Ea as (R1 & R2 & R3).
    + destruct (putLocked _ _ _ _ _ _) as [[b2 l2] r2] eqn:Ep. injection E as <- <- <- <-. specialize (R2 eq_refl). subst b1. apply (client_after l l1 _ _ _ R3). now apply putLocked_client in Ep as [H _].
    + injection E as <- <- <- <-. exact R1.
  - unfold Put in E. destruct (requireOpen b) eqn:Eo; [injection E as <- <- <-; apply client_same|]. apply requireOpen_open in Eo. now apply putLocked_client in E as [H _].
  - unfold CompareAndPut in E. destruct (requireOpen b) eqn:Eo; [injection E as <- <- <-; apply client_same|]. apply requireOpen_open in Eo. destruct (validateCondition _ _) as [b1 [x|e]] eqn:Ec; apply (validateCondition_client l l _ _ _ _ Eo) in Ec as [R1 R2]; [|injection E as <- <- <-; exact R1]. specialize (R2 eq_refl). subst b1.
    destruct (putLocked _ _ _ _ _ _) as [[b2 l2] [y|e]] eqn:Ep; pose proof Ep as Ep'; apply putLocked_client in Ep as (P1 & P2 & P3); auto; injection E as <- <- <-; [|exact P1]. apply client_condition; [exact P1|]. destruct P2 as [P2|P2]; [exact P2|]. exfalso. now apply (putLocked_open _ _ _ _ _ _ _ _ _ Ep' Eo).
  - unfold Delete in E. destruct (requireOpen b) eqn:Eo; [injection E as <- <-; apply client_same|]. apply requireOpen_open in Eo. now apply (deleteLocked_client l) in E as [H _].
  - unfold CompareAndDelete in E. destruct (requireOpen b) eqn:Eo; [injection E as <- <-; apply client_same|]. apply requireOpen_open in Eo. destruct (validateCondition _ _) as [b1 [x|e]] eqn:Ec; apply (validateCondition_client l l _ _ _ _ Eo) in Ec as [R1 R2]; [|injection E as <- <-; exact R1]. specialize (R2 eq_refl). subst b1.
    destruct (deleteLocked _ _) as [b2 [y|e]] eqn:Ed; apply (deleteLocked_client l) in Ed as (P1 & P2); auto; injection E as <- <-; [now apply client_condition|exact P1].
  - unfold addCondition in E. destruct (requireOpen b) eqn:Eo; [injection E as <- <-; apply client_same|]. apply requireOpen_open in Eo. destruct (validateCondition _ _) as [b1 [x|e]] eqn:Ec; apply (validateCondition_client l l _ _ _ _ Eo) in Ec as [R1 R2]; injection E as <- <-; [|exact R1]. specialize (R2 eq_refl). subst b1. now apply client_condition.
  - unfold Abort in E. destruct (ba_state b) eqn:Es; try (injection E as <- <- <-; apply client_same); (destruct (EncodeAbort _) as [p|]; [|injection E as <- <- <-; apply client_same]); destruct (log_append _ _ _) as [l1 r1]; injection E as <- <- <-; (constructor; cbn; [auto|right; split; [rewrite Es; auto|auto]|intros i m Hx; rewrite lookup_empty in Hx; discriminate]).
Qed.
End Client.

(** ** Preparation and commits *)

Lemma Prepare_mutations b b' p : Prepare b = (b', Ok p) -> ba_state b = StateOpen /\ b' = set_state b StateCommitting /\ forall m, m ∈ pp_Mutations p <-> exists i, ba_mutations b !! i = Some m.
Proof.
  unfold Prepare. destruct (requireOpen b) eqn:Eo; [discriminate|]. apply requireOpen_open in Eo. destruct (payload_sum _ _); [|discriminate]. intros E. injection E as <- <-. split; [exact Eo|]. split; [reflexivity|]. intros m. cbn. rewrite merge_sort_Permutation. split; [apply values_elem|]. intros [i Hi]. apply list_elem_of_fmap. exists (i, m). split; [reflexivity|now apply elem_of_map_to_list].
Qed.

Lemma Prepare_failed b b' e : Prepare b = (b', Err e) -> b' = b \/ ba_state b = StateOpen /\ b' = set_state b StateFailed.
Proof.
  unfold Prepare. destruct (requireOpen b) eqn:Eo; [intros E; injection E as <- _; now left|]. apply requireOpen_open in Eo. destruct (payload_sum _ _); [discriminate|]. intros E. injection E as <- _. auto.
Qed.

Lemma user_change S c id ref : spec_change ProposalUserCommit S c !! id = Some ref -> S !! id = Some ref \/ ch_Operation c <> OpDelete /\ ch_RecordID c = id /\ ch_NewRef c = ref.
Proof.
  unfold spec_change. rewrite Z.eqb_refl. destruct (Z.eqb_spec (ch_Operation c) OpDelete) as [_|Hne].
  - intros [_ H]%lookup_delete_Some. now left.
  - intros [[<- <-]|[_ H]]%lookup_insert_Some; auto.
Qed.

(** A user commit shows old references and those of its Puts. *)
Lemma user_spec S p id ref : spec_proposal S (Prepared_Proposal p) !! id = Some ref -> S !! id = Some ref \/ exists m, m ∈ pp_Mutations p /\ bm_Operation m <> OpDelete /\ bm_RecordID m = id /\ bm_Ref m = ref.
Proof.
  unfold spec_proposal. destruct (spec_accepts _ _); [|auto]. cbn [Prepared_Proposal pr_Kind pr_Changes]. revert S. induction (pp_Mutations p) as [|m ms IH]; intros S H; [now left|]. cbn [map foldl] in H. apply IH in H as [H|(m' & Hm & H)]; [|right; exists m'; split; [now right|exact H]].
  apply user_change in H as [H|(H1 & H2 & H3)]; [now left|]. right. exists m. split; [now left|auto].
Qed.

Definition moved (cs : list copiedRecord) (S S' : Entries) : Prop :=
  forall id, S' !! id = S !! id \/ exists c r, c ∈ cs /\ cp_id c = id /\ S !! id = Some r /\ Addr r = cp_oldAddr c /\ S' !! id = Some (cp_newRef c).

Lemma relocate_change_spec S c id : spec_change ProposalRelocation S (relocate_change c) !! id = if decide (id = cp_id c) then match S !! id with Some r => if Addr r =? cp_oldAddr c then Some (cp_newRef c) else Some r | None => None end else S !! id.
Proof.
  unfold spec_change. change (ProposalRelocation =? ProposalUserCommit) with false. cbn [relocate_change ch_RecordID ch_ExpectedOldAddr ch_NewRef]. destruct (decide (id = cp_id c)) as [->|Hne].
  - destruct (S !! cp_id c) as [r|] eqn:E; [|exact E]. destruct (_ =? _); [apply lookup_insert_eq|exact E].
  - destruct (S !! cp_id c) as [r|]; [|reflexivity]. destruct (_ =? _); [now rewrite lookup_insert_ne|reflexivity].
Qed.

(** Relocations of different ids move exactly the references that are unchanged. *)
Lemma relocations_spec cs : NoDup (map cp_id cs) -> forall S id, foldl (spec_change ProposalRelocation) S (map relocate_change cs) !! id =
  match List.find (fun c => cp_id c =? id) cs with Some c => match S !! id with Some r => if Addr r =? cp_oldAddr c then Some (cp_newRef c) else Some r | None => None end | None => S !! id end.
Proof.
  induction cs as [|c cs IH]; intros Hn S id; [reflexivity|]. cbn [map] in Hn. inversion Hn as [|? ? Hc Hn']; subst. cbn [map foldl List.find]. rewrite (IH Hn'), relocate_change_spec. destruct (Z.eqb_spec (cp_id c) id) as [<-|Hne].
  - rewrite decide_True by reflexivity. destruct (List.find _ cs) as [c'|] eqn:E; [|reflexivity]. exfalso. apply List.find_some in E as [E1 E2%Z.eqb_eq]. apply Hc. rewrite <- E2. apply list_elem_of_In, in_map, E1.
  - rewrite decide_False by congruence. reflexivity.
Qed.

Lemma relocation_accepted S r : spec_proposal S (relocationProposal r) = foldl (spec_change ProposalRelocation) S (rl_Changes r).
Proof. reflexivity. Qed.

Lemma relocation_moves S batchID bytes cs : NoDup (map cp_id cs) -> let S' := spec_proposal S (relocationProposal (relocation_of batchID bytes cs)) in
  moved cs S S' /\ forall c, c ∈ cs -> forall r, S' !! cp_id c = Some r -> Addr r = cp_oldAddr c -> Addr (cp_newRef c) = cp_oldAddr c.
Proof.
  intros Hn. cbv zeta. rewrite relocation_accepted. cbn [relocation_of rl_Changes]. pose proof (merge_sort_Permutation by_id cs) as Hp. assert (Hn' : NoDup (map cp_id (merge_sort by_id cs))) by (rewrite Hp; exact Hn).
  assert (Hin : forall c, c ∈ merge_sort by_id cs <-> c ∈ cs) by (intros c; now rewrite Hp). set (S' := foldl _ S _). assert (HS : forall id, S' !! id = _) by (intros id; apply (relocations_spec _ Hn')). split.
  - intros id. rewrite (HS id). destruct (List.find _ _) as [c|] eqn:E; [|now left]. apply List.find_some in E as [E1 E2%Z.eqb_eq]. destruct (S !! id) as [r|] eqn:Er; [|now left]. destruct (Z.eqb_spec (Addr r) (cp_oldAddr c)) as [Ea|_]; [|now left]. right. exists c, r. split; [apply Hin, list_elem_of_In, E1|auto].
  - intros c Hc r Hr Ha. rewrite (HS (cp_id c)) in Hr. destruct (List.find _ _) as [c'|] eqn:E.
    + apply List.find_some in E as [E1 E2%Z.eqb_eq]. assert (c' = c) by (apply (NoDup_map_inj cp_id (merge_sort by_id cs)); auto; [now apply list_elem_of_In|now apply Hin]). subst c'. destruct (S !! cp_id c) as [r0|]; [|discriminate]. destruct (Z.eqb_spec (Addr r0) (cp_oldAddr c)) as [_|Hne]; injection Hr as <-; [exact Ha|contradiction].
    + exfalso. pose proof (List.find_none _ _ E c (proj1 (list_elem_of_In _ _) (proj2 (Hin c) Hc))) as X. cbn in X. now rewrite Z.eqb_refl in X.
Qed.

(** * The invariant of compaction

    Which records the references of the mapping, of the batches and of the queued
    commits name, and how each phase of the compaction relates the copies to them. *)

Abbreviation rec_addr := (fun x : LogRecord => ar_Addr x.1).

Definition queue_handles (q : list command) : list Z := omap (fun c => match c with CUser h _ => Some h | _ => None end) q.

Lemma queue_handles_app a b : queue_handles (a ++ b) = queue_handles a ++ queue_handles b.
Proof. apply omap_app. Qed.

Lemma queue_handles_elem q h : h ∈ queue_handles q <-> exists p, CUser h p ∈ q.
Proof.
  unfold queue_handles. rewrite list_elem_of_omap. split.
  - intros ([h' p| |] & Hin & E); try discriminate. injection E as ->. eauto.
  - intros [p Hp]. exists (CUser h p). auto.
Qed.

Section Inv.
Context {L : Type} `{!AppendLog L} `{!AppendLogLaws L} {W : Type} `{!OutputWriter W}.
Context (limits : Limits) (rl : RelocationLimits) (inputs ids : list Z) (base scan : list LogRecord).
Abbreviation world := (world L W).

(** The inputs are sealed: [scan] are all their records.  The outputs are new
    segments.  [base] are the records that were there before, in any segment. *)
Record sealed_inputs : Prop := mkSealedInputs {
  si_distinct : NoDup (map rec_addr scan);
  si_segment : forall x, x ∈ scan -> SegmentID (rec_addr x) ∈ inputs;
  si_fresh : forall s, s ∈ inputs -> s ∉ ids;
  si_base : forall x, x ∈ base -> (SegmentID (rec_addr x) ∈ inputs -> x ∈ scan) /\ SegmentID (rec_addr x) ∉ ids;
}.
Context (Hsealed : sealed_inputs).

Definition all_records (w : world) : list LogRecord := base ++ log_records (wd_log w) ++ wd_outputs w.
(** [p] is the payload at the reference. *)
Definition holds (w : world) (ref : RecordRef) (p : list Z) : Prop := exists r, (r, p) ∈ all_records w /\ AppendResult_Ref r = Ok ref.
Definition ref_put (w : world) (id : Z) (ref : RecordRef) : Prop := exists p, holds w ref p /\ put_payload limits id p.
Definition inp (a : Z) : Prop := SegmentID a ∈ inputs.
Definition mut_ok (w : world) (m : BMutation) : Prop := bm_Operation m = OpDelete \/ bm_Operation m = OpPut /\ ref_put w (bm_RecordID m) (bm_Ref m).
Definition request (w : world) (h : Z) (p : Prepared) : Prop := wd_admitting w !! h = Some p \/ CUser h p ∈ wd_queue w.
Definition live_state (s : State) : Prop := s = StateOpen \/ s = StateCommitting.

Record records_ok (w : world) : Prop := mkRecordsOk {
  ro_log : forall x, x ∈ log_records (wd_log w) -> (inp (rec_addr x) -> x ∈ scan) /\ SegmentID (rec_addr x) ∉ ids;
  ro_scan : forall x, x ∈ scan -> x ∈ base ++ log_records (wd_log w);
  ro_outputs : NoDup (map rec_addr (wd_outputs w)) /\ forall x, x ∈ wd_outputs w -> SegmentID (rec_addr x) ∈ ids /\ exists ref, AppendResult_Ref x.1 = Ok ref;
}.

Record base_inv (w : world) : Prop := mkBaseInv {
  bi_records : records_ok w;
  bi_entries : forall id ref, wd_entries w !! id = Some ref -> ref_put w id ref;
  bi_heap : forall h b i m, wd_heap w !! h = Some b -> ba_mutations b !! i = Some m -> mut_ok w m;
  bi_limits : forall h b, wd_heap w !! h = Some b -> is_u64 (ba_id b) /\ ba_limits b = limits;
  bi_open : forall h b, wd_heap w !! h = Some b -> live_state (ba_state b) -> h ∈ wd_open w;
  bi_request : forall h p, request w h p -> exists b, wd_heap w !! h = Some b /\ ba_state b = StateCommitting /\ forall m, m ∈ pp_Mutations p <-> exists i, ba_mutations b !! i = Some m;
  bi_committing : forall h b, wd_heap w !! h = Some b -> ba_state b = StateCommitting -> exists p, request w h p;
  bi_once : NoDup (queue_handles (wd_queue w)) /\ forall h p, wd_admitting w !! h = Some p -> h ∉ queue_handles (wd_queue w);
}.

(** *** Records *)

Lemma scan_unique r p r' p' : (r, p) ∈ scan -> (r', p') ∈ scan -> ar_Addr r = ar_Addr r' -> p = p'.
Proof. intros H1 H2 E. pose proof (NoDup_map_inj rec_addr scan (r, p) (r', p') (si_distinct Hsealed) H1 H2 E). congruence. Qed.

Lemma holds_input w ref p : records_ok w -> holds w ref p -> inp (Addr ref) -> exists r, (r, p) ∈ scan /\ ar_Addr r = Addr ref.
Proof.
  intros Hr (r & Hin & Er) Hi. destruct (Ref_addr _ _ Er) as [Ea _]. exists r. split; [|now symmetry]. unfold all_records in Hin. rewrite !elem_of_app in Hin. destruct Hin as [Hin|[Hin|Hin]].
  - apply (si_base Hsealed) in Hin as [H _]. apply H. unfold inp in Hi. rewrite Ea in Hi. exact Hi.
  - apply (ro_log _ Hr) in Hin as [H _]. apply H. rewrite Ea in Hi. exact Hi.
  - apply (ro_outputs _ Hr) in Hin as [H _]. exfalso. rewrite Ea in Hi. exact (si_fresh Hsealed _ Hi H).
Qed.

Lemma holds_mono w w' ref p : (forall x, x ∈ all_records w -> x ∈ all_records w') -> holds w ref p -> holds w' ref p.
Proof. intros H (r & Hin & Er). exists r. auto. Qed.
Lemma ref_put_mono w w' id ref : (forall x, x ∈ all_records w -> x ∈ all_records w') -> ref_put w id ref -> ref_put w' id ref.
Proof. intros H (p & Hp & Hq). exists p. split; [now apply (holds_mono w)|exact Hq]. Qed.
Lemma mut_ok_mono w w' m : (forall x, x ∈ all_records w -> x ∈ all_records w') -> mut_ok w m -> mut_ok w' m.
Proof. intros H [Hm|[Hm Hr]]; [now left|]. right. split; [exact Hm|now apply (ref_put_mono w)]. Qed.

Lemma records_same w w' : wd_log w' = wd_log w -> wd_outputs w' = wd_outputs w -> records_ok w -> records_ok w'.
Proof. intros E1 E2 [R1 R2 R3]. constructor; rewrite ?E1, ?E2; assumption. Qed.

Lemma records_log w l' : records_ok w -> appends_elsewhere inputs ids (wd_log w) l' -> records_ok (set_wlog w l') /\ forall x, x ∈ all_records w -> x ∈ all_records (set_wlog w l').
Proof.
  intros [R1 R2 R3] (new & En & Hn). rewrite Forall_forall in Hn. split.
  - constructor; cbn [set_wlog wd_log wd_outputs]; [| |exact R3].
    + rewrite En. intros x [Hx|Hx]%elem_of_app; [now apply R1|]. destruct (Hn x Hx) as [H1 H2]. split; [intros H; contradiction|exact H2].
    + intros x Hx. apply R2 in Hx. rewrite En. rewrite !elem_of_app in *. tauto.
  - intros x. unfold all_records. cbn [set_wlog wd_log wd_outputs]. rewrite En, !elem_of_app. tauto.
Qed.

(** *** In-flight references to the inputs *)

Definition pend (w : world) (s : State) (h : Z) (ref : RecordRef) : Prop :=
  exists b i m, wd_heap w !! h = Some b /\ ba_state b = s /\ live_state s /\ ba_mutations b !! i = Some m /\ bm_Operation m = OpPut /\ bm_Ref m = ref /\ inp (Addr ref).

(** What the redirect table says of a reference that is redirected. *)
Definition redirects_keep (w : world) : Prop := forall ref new id, wd_redirects w !! Addr ref = Some new -> ref_put w id ref -> ref_put w id new.

Lemma redirect_ok_mut w m : redirects_keep w -> mut_ok w m -> mut_ok w (redirect_mutation (wd_redirects w) m).
Proof.
  intros Hk Hm. unfold redirect_mutation. destruct (bm_Operation m =? OpPut) eqn:E; cbn [negb]; [|exact Hm]. destruct (wd_redirects w !! Addr (bm_Ref m)) as [new|] eqn:El; [|exact Hm]. apply Z.eqb_eq in E. destruct Hm as [Hm|[_ Hm]]; [rewrite E in Hm; discriminate|]. right. cbn. split; [exact E|]. now apply (Hk (bm_Ref m)).
Qed.

(** The effect of a step of the others. *)
Record user_frame (w w' : world) : Prop := mkUserFrame {
  uf_same : wd_redirects w' = wd_redirects w /\ wd_writer w' = wd_writer w /\ wd_outputs w' = wd_outputs w /\ wd_phase w' = wd_phase w;
  uf_records : forall x, x ∈ all_records w -> x ∈ all_records w';
  uf_entries : forall id ref, wd_entries w' !! id = Some ref -> wd_entries w !! id = Some ref \/
    exists h p rest m, wd_queue w = CUser h p :: rest /\ m ∈ pp_Mutations p /\ bm_Operation m = OpPut /\ ref = bm_Ref (redirect_mutation (wd_redirects w) m);
  uf_pend : forall s h ref, pend w' s h ref -> exists s', pend w s' h ref /\ (s = StateOpen -> s' = StateOpen);
  uf_queue : wd_queue w' = wd_queue w \/ (exists h p, wd_queue w = CUser h p :: wd_queue w') \/ exists h p, wd_admitting w !! h = Some p /\ wd_queue w' = wd_queue w ++ [CUser h p];
  uf_admitting : forall h p, wd_admitting w' !! h = Some p -> wd_admitting w !! h = Some p \/ exists b, wd_heap w !! h = Some b /\ ba_state b = StateOpen /\ forall m, m ∈ pp_Mutations p -> exists i, ba_mutations b !! i = Some m;
}.

(** *** Changing one batch *)

(** [b'] replaces [b] and [requests'] are the requests afterwards. *)
Record batch_change (w : world) (h : Z) (b b' : Batch) (w' : world) : Prop := mkBatchChange {
  bc_heap : wd_heap w' = <[h := b']> (wd_heap w);
  bc_same : ba_id b' = ba_id b /\ ba_limits b' = ba_limits b;
  bc_state : live_state (ba_state b') -> live_state (ba_state b) /\ (ba_state b' = StateOpen -> ba_state b = StateOpen);
  bc_mutations : forall i m, ba_mutations b' !! i = Some m -> mut_ok w' m /\ (bm_Operation m = OpPut -> inp (Addr (bm_Ref m)) -> exists j, ba_mutations b !! j = Some m);
  bc_others : forall k p, k <> h -> request w' k p <-> request w k p;
  bc_request : (ba_state b' = StateCommitting -> exists p, request w' h p) /\ forall p, request w' h p -> ba_state b' = StateCommitting /\ forall m, m ∈ pp_Mutations p <-> exists i, ba_mutations b' !! i = Some m;
}.

Lemma batch_change_base w w' h b b' : base_inv w -> wd_heap w !! h = Some b -> batch_change w h b b' w' -> records_ok w' -> (forall x, x ∈ all_records w -> x ∈ all_records w') -> wd_open w ⊆ wd_open w' ->
  (forall id ref, wd_entries w' !! id = Some ref -> ref_put w' id ref) -> NoDup (queue_handles (wd_queue w')) /\ (forall k p, wd_admitting w' !! k = Some p -> k ∉ queue_handles (wd_queue w')) -> base_inv w'.
Proof.
  intros [B1 B2 B3 B4 B5 B6 B7 B8] Hh [C1 C2 C3 C4 C5 [C6 C7]] Hr Hmono Hopen He Ho. constructor; [exact Hr|exact He| | | | | |exact Ho].
  - intros k x i m Hk Hm. rewrite C1 in Hk. apply lookup_insert_Some in Hk as [[<- <-]|[_ Hk]]; [now apply C4 in Hm|]. apply (mut_ok_mono w w'); [exact Hmono|]. now apply (B3 k x i).
  - intros k x Hk. rewrite C1 in Hk. apply lookup_insert_Some in Hk as [[<- <-]|[_ Hk]]; [destruct C2 as [-> ->]; now apply (B4 h)|now apply (B4 k)].
  - intros k x Hk Hs. rewrite C1 in Hk. apply Hopen. apply lookup_insert_Some in Hk as [[<- <-]|[_ Hk]]; [apply (B5 h b Hh); now apply C3|now apply (B5 k x)].
  - intros k p Hq. destruct (decide (k = h)) as [->|Hne].
    + exists b'. rewrite C1, lookup_insert_eq. split; [reflexivity|now apply C7].
    + apply (C5 _ _ Hne) in Hq. apply B6 in Hq as (x & Hx & Hq). exists x. rewrite C1, lookup_insert_ne by congruence. auto.
  - intros k x Hk Hs. rewrite C1 in Hk. apply lookup_insert_Some in Hk as [[<- <-]|[Hne Hk]]; [auto|]. destruct (B7 k x Hk Hs) as [p Hp]. exists p. apply C5; [congruence|exact Hp].
Qed.

Lemma batch_change_pend w w' h b b' : wd_heap w !! h = Some b -> batch_change w h b b' w' -> forall s k ref, pend w' s k ref -> exists s', pend w s' k ref /\ (s = StateOpen -> s' = StateOpen).
Proof.
  intros Hh [C1 _ C3 C4 _ _] s k ref (x & i & m & Hx & Hs & Hl & Hm & Ho & Hr & Hi). rewrite C1 in Hx. apply lookup_insert_Some in Hx as [[<- <-]|[_ Hx]].
  - subst s. destruct (C3 Hl) as [L1 L2]. subst ref. destruct (proj2 (C4 i m Hm) Ho Hi) as [j Hj]. exists (ba_state b). split; [|exact L2]. exists b, j, m. auto 10.
  - exists s. split; [|auto]. exists x, i, m. auto 10.
Qed.

(** *** Every step of the others *)

Lemma request_frame w w' h p : wd_admitting w' = wd_admitting w -> wd_queue w' = wd_queue w -> request w' h p <-> request w h p.
Proof. unfold request. now intros -> ->. Qed.

Lemma user_log w l' : base_inv w -> appends_elsewhere inputs ids (wd_log w) l' -> base_inv (set_wlog w l') /\ user_frame w (set_wlog w l').
Proof.
  intros B Ha. destruct (records_log w l' (bi_records _ B) Ha) as [R1 R2]. destruct B as [B1 B2 B3 B4 B5 B6 B7 B8]. split.
  - constructor; auto; cbn.
    + intros id ref E. apply (ref_put_mono w); auto.
    + intros h b i m Hh Hm. apply (mut_ok_mono w); [exact R2|]. now apply (B3 h b i).
  - constructor; cbn; auto. intros s h ref H. exists s. auto.
Qed.

Lemma user_begin w h id b : base_inv w -> wd_heap w !! h = None -> is_u64 id -> Batch.New id limits = Ok b -> base_inv (set_open (set_heap w h b) ({[h]} ∪ wd_open w)) /\ user_frame w (set_open (set_heap w h b) ({[h]} ∪ wd_open w)).
Proof.
  intros [B1 B2 B3 B4 B5 B6 B7 B8] Hh Hu E. unfold Batch.New in E. inv_ok E. apply Ok_inj in E. subst b. assert (Hreq : forall p, ~ request w h p) by (intros p Hp; destruct (B6 h p Hp) as (x & Hx & _); congruence). split.
  - constructor; cbn; auto; [now apply (records_same w)| | | | |].
    + intros k x i m [[<- <-]|[_ Hk]]%lookup_insert_Some Hm; [cbn in Hm; rewrite lookup_empty in Hm; discriminate|now apply (B3 k x i)].
    + intros k x [[<- <-]|[_ Hk]]%lookup_insert_Some; [auto|now apply (B4 k)].
    + intros k x [[<- <-]|[_ Hk]]%lookup_insert_Some Hs; [set_solver|]. pose proof (B5 k x Hk Hs). set_solver.
    + intros k p Hq. destruct (B6 k p Hq) as (x & Hx & Hq'). exists x. rewrite lookup_insert_ne; [auto|]. intros <-. congruence.
    + intros k x [[<- <-]|[_ Hk]]%lookup_insert_Some Hs; [discriminate|]. now apply (B7 k x).
  - constructor; cbn; auto. intros s k ref (x & i & m & Hx & Hs & Hl & Hm & H). cbn in Hx. apply lookup_insert_Some in Hx as [[<- <-]|[_ Hx]]; [cbn in Hm; rewrite lookup_empty in Hm; discriminate|]. exists s. split; [|auto]. exists x, i, m. auto.
Qed.

Lemma user_client w h b l' b' : base_inv w -> wd_heap w !! h = Some b -> client_step (wd_log w) b l' b' -> ids_u b' -> appends_elsewhere inputs ids (wd_log w) l' -> base_inv (set_heap (set_wlog w l') h b') /\ user_frame w (set_heap (set_wlog w l') h b').
Proof.
  intros B Hh Hc Hu Ha. destruct (records_log w l' (bi_records _ B) Ha) as [R1 R2]. apply client_step_result in Hc as [K1 K2 K3]. set (w' := set_heap (set_wlog w l') h b'). assert (R1' : records_ok w') by now apply (records_same (set_wlog w l')). assert (R2' : forall x, x ∈ all_records w -> x ∈ all_records w') by exact R2.
  assert (Hchange : batch_change w h b b' w').
  { constructor; [reflexivity|exact K1| | |reflexivity|].
    - intros Hl. destruct K2 as [->|[_ [[_ K2]|[K2|K2]]]]; [auto|rewrite K2; split; [now left|reflexivity]|rewrite K2 in Hl; destruct Hl; discriminate|rewrite K2 in Hl; destruct Hl; discriminate].
    - intros i m Hm. destruct (K3 i m Hm) as [Hold|[Hd|(Hp & Hid & new & r & p & value & En & Hin & Er & Hv & Ee)]].
      + split; [apply (mut_ok_mono w); [exact R2'|exact (bi_heap _ B h b i m Hh Hold)]|eauto].
      + split; [now left|]. intros Ho. rewrite Hd in Ho. discriminate.
      + destruct (bi_limits _ B h b Hh) as [U1 U2]. split.
        * right. split; [exact Hp|]. exists p. split; [exists r; split; [|exact Er]|].
          { unfold all_records, w'. cbn. rewrite En, !elem_of_app. auto. }
          rewrite Hid. rewrite U2 in Ee. exact (put_of_encoded limits _ _ _ _ U1 (Hu i m Hm) Hv Ee).
        * intros _ Hi. exfalso. destruct (Ref_addr _ _ Er) as [Ea _]. unfold inp in Hi. rewrite Ea in Hi. destruct Ha as (new' & En' & Hn). rewrite En in En'. apply app_inv_head in En'. subst new'. rewrite Forall_forall in Hn. destruct (Hn _ Hin) as [Hn' _]. exact (Hn' Hi).
    - assert (Hsame : forall p, request w h p -> b' = b). { intros p Hp. destruct (bi_request _ B h p Hp) as (x & Hx & Hs & _). assert (x = b) by congruence. subst x. destruct K2 as [->|[[K2|K2] _]]; [reflexivity|congruence|congruence]. }
      split.
      + intros Hs. destruct K2 as [->|[_ [[K2 _]|[K2|K2]]]]; [|congruence|congruence|congruence]. exact (bi_committing _ B h b Hh Hs).
      + intros p Hp. rewrite (Hsame p Hp). destruct (bi_request _ B h p Hp) as (x & Hx & Hs & Hm). assert (x = b) by congruence. subst x. auto. }
  split.
  - apply (batch_change_base w w' h b b'); auto; [|exact (bi_once _ B)]. intros id ref E. apply (ref_put_mono w); [exact R2'|]. exact (bi_entries _ B id ref E).
  - constructor; auto. now apply (batch_change_pend w w' h b b').
Qed.

Lemma user_prepare w h b b' p : base_inv w -> wd_heap w !! h = Some b -> Prepare b = (b', Ok p) -> let w' := set_admitting (set_heap w h b') (<[h := p]> (wd_admitting w)) in base_inv w' /\ user_frame w w'.
Proof.
  intros B Hh E w'. destruct (Prepare_mutations _ _ _ E) as (Ho & -> & Hm). assert (R1 : records_ok w') by (apply (records_same w); [reflexivity|reflexivity|apply B]). assert (Hno : forall q, ~ request w h q) by (intros q Hq; destruct (bi_request _ B h q Hq) as (x & Hx & Hs & _); congruence).
  assert (Hchange : batch_change w h b (set_state b StateCommitting) w').
  { constructor; [reflexivity|split; reflexivity| | | |].
    - intros _. rewrite Ho. split; [now left|reflexivity].
    - cbn. intros i m Hi. split; [|eauto]. apply (mut_ok_mono w); [auto|]. exact (bi_heap _ B h b i m Hh Hi).
    - intros k q Hne. unfold request, w'. cbn. rewrite lookup_insert_ne by congruence. reflexivity.
    - unfold request, w'. cbn. rewrite lookup_insert_eq. split; [eauto|]. intros q [[= <-]|Hq]; [split; [reflexivity|exact Hm]|]. exfalso. apply (Hno q). now right. }
  split.
  - apply (batch_change_base w w' h b (set_state b StateCommitting)); auto; [exact (bi_entries _ B)|]. destruct (bi_once _ B) as [O1 O2]. split; [exact O1|]. cbn. intros k q [[<- <-]|[_ Hq]]%lookup_insert_Some; [|eauto]. intros [q Hq]%queue_handles_elem. apply (Hno q). now right.
  - constructor; auto; [now apply (batch_change_pend w w' h b (set_state b StateCommitting))|]. cbn. intros k q [[<- <-]|[_ Hq]]%lookup_insert_Some; [right; exists b; split; [exact Hh|]; split; [exact Ho|]; intros m Hin; now apply Hm|now left].
Qed.

(** Ending a batch that has no request, or whose request is taken away. *)
Lemma user_end w h b b' w' : base_inv w -> wd_heap w !! h = Some b -> wd_heap w' = <[h := b']> (wd_heap w) -> ba_id b' = ba_id b /\ ba_limits b' = ba_limits b -> (ba_mutations b' = ∅ \/ ba_mutations b' = ba_mutations b) -> ~ live_state (ba_state b') ->
  wd_log w' = wd_log w -> wd_outputs w' = wd_outputs w -> wd_open w' = wd_open w -> wd_redirects w' = wd_redirects w /\ wd_writer w' = wd_writer w /\ wd_phase w' = wd_phase w ->
  (forall q, ~ request w' h q) -> (forall k q, k <> h -> request w' k q <-> request w k q) -> (forall k q, wd_admitting w' !! k = Some q -> wd_admitting w !! k = Some q) ->
  (forall id ref, wd_entries w' !! id = Some ref -> ref_put w id ref /\ (wd_entries w !! id = Some ref \/ exists h p rest m, wd_queue w = CUser h p :: rest /\ m ∈ pp_Mutations p /\ bm_Operation m = OpPut /\ ref = bm_Ref (redirect_mutation (wd_redirects w) m))) ->
  wd_queue w' = wd_queue w \/ (exists h p, wd_queue w = CUser h p :: wd_queue w') -> base_inv w' /\ user_frame w w'.
Proof.
  intros B Hh H1 H2 H3 H4 E1 E2 E3 (E4 & E5 & E6) Hno Hother Hadm He Hq. assert (R1 : records_ok w') by (apply (records_same w); auto; apply B). assert (R2 : forall x, x ∈ all_records w -> x ∈ all_records w') by (unfold all_records; rewrite E1, E2; auto).
  assert (Hchange : batch_change w h b b' w').
  { constructor; auto.
    - intros Hl. contradiction.
    - intros i m Hm. assert (Hold : ba_mutations b !! i = Some m) by (destruct H3 as [H3|H3]; rewrite H3 in Hm; [rewrite lookup_empty in Hm; discriminate|exact Hm]). split; [|eauto]. apply (mut_ok_mono w); [exact R2|]. exact (bi_heap _ B h b i m Hh Hold).
    - split; [intros Hs; exfalso; apply H4; now right|]. intros q Hq'. now apply Hno in Hq'. }
  split.
  - apply (batch_change_base w w' h b b'); auto; [now rewrite E3| |].
    + intros id ref E. apply (ref_put_mono w); [exact R2|]. now apply He.
    + destruct (bi_once _ B) as [O1 O2]. assert (Hsub : forall k, k ∈ queue_handles (wd_queue w') -> k ∈ queue_handles (wd_queue w)) by (intros k Hk; destruct Hq as [Hq|(k' & p & Hq)]; [now rewrite <- Hq|]; rewrite Hq; cbn; right; exact Hk). split.
      * destruct Hq as [->|(k & p & Hq)]; [exact O1|]. rewrite Hq in O1. cbn in O1. now inversion O1.
      * intros k q Hk Hin. exact (O2 k q (Hadm k q Hk) (Hsub k Hin)).
  - constructor; auto.
    + intros id ref E. now apply He.
    + now apply (batch_change_pend w w' h b b').
    + tauto.
Qed.

Lemma frame_refl w : user_frame w w.
Proof. constructor; auto. intros s h ref H. exists s. auto. Qed.

Lemma set_heap_id (w : world) h b : wd_heap w !! h = Some b -> set_heap w h b = w.
Proof. intros H. destruct w. unfold set_heap. cbn in *. now rewrite insert_id. Qed.

Lemma user_enqueue w h p : base_inv w -> wd_admitting w !! h = Some p -> let w' := set_queue (set_admitting w (delete h (wd_admitting w))) (wd_queue w ++ [CUser h p]) in base_inv w' /\ user_frame w w'.
Proof.
  intros B Ha w'. assert (Hreq : forall k q, request w' k q <-> request w k q).
  { intros k q. unfold request, w'. cbn. rewrite elem_of_app, list_elem_of_singleton. destruct (decide (k = h)) as [->|Hne].
    - rewrite lookup_delete_eq, Ha. split; [intros [|[|[= ->]]]; [discriminate|tauto|tauto]|]. intros [[= ->]|]; auto.
    - rewrite lookup_delete_ne by congruence. split; [intros [|[|[= ]]]; tauto|tauto]. }
  destruct (bi_once _ B) as [O1 O2]. destruct B as [B1 B2 B3 B4 B5 B6 B7 B8]. split.
  - constructor; auto; [now apply (records_same w)| | |].
    + intros k q Hq. now apply B6, Hreq.
    + intros k x Hk Hs. destruct (B7 k x Hk Hs) as [q Hq]. exists q. now apply Hreq.
    + cbn. rewrite queue_handles_app. cbn. split.
      * apply NoDup_app. split; [exact O1|]. split; [|apply NoDup_singleton]. intros k Hk Hin. apply list_elem_of_singleton in Hin. subst k. exact (O2 h p Ha Hk).
      * intros k q Hk Hin. apply lookup_delete_Some in Hk as [Hne Hk]. apply elem_of_app in Hin as [Hin|Hin]; [exact (O2 k q Hk Hin)|]. apply list_elem_of_singleton in Hin. congruence.
  - constructor; auto.
    + intros s k ref H. exists s. auto.
    + right; right. exists h, p. auto.
    + cbn. intros k q [_ Hk]%lookup_delete_Some. now left.
Qed.

Lemma MarkAborted_committing b : ba_state b = StateCommitting -> ba_state (MarkAborted b).1 = StateAborted /\ ba_mutations (MarkAborted b).1 = ∅ /\ ba_id (MarkAborted b).1 = ba_id b /\ ba_limits (MarkAborted b).1 = ba_limits b.
Proof. intros E. unfold MarkAborted, markTerminal. rewrite E. auto. Qed.
Lemma MarkCommitUnknown_committing b : ba_state b = StateCommitting -> ba_state (MarkCommitUnknown b).1 = StateCommitUnknown /\ ba_mutations (MarkCommitUnknown b).1 = ∅ /\ ba_id (MarkCommitUnknown b).1 = ba_id b /\ ba_limits (MarkCommitUnknown b).1 = ba_limits b.
Proof. intros E. unfold MarkCommitUnknown, markTerminal. rewrite E. auto. Qed.
Lemma MarkCommitted_committing b seq : ba_state b = StateCommitting -> seq <> 0 -> ba_state (MarkCommitted b seq).1 = StateCommitted /\ ba_mutations (MarkCommitted b seq).1 = ∅ /\ ba_id (MarkCommitted b seq).1 = ba_id b /\ ba_limits (MarkCommitted b seq).1 = ba_limits b.
Proof. intros E Hs. unfold MarkCommitted. replace (seq =? 0) with false by (symmetry; now apply Z.eqb_neq). rewrite E. auto. Qed.

Lemma user_withdraw w h p b : base_inv w -> wd_admitting w !! h = Some p -> wd_heap w !! h = Some b -> let w' := set_heap (set_admitting w (delete h (wd_admitting w))) h (MarkAborted b).1 in base_inv w' /\ user_frame w w'.
Proof.
  intros B Ha Hh w'. destruct (bi_request _ B h p (or_introl Ha)) as (x & Hx & Hs & _). assert (x = b) by congruence. subst x. destruct (MarkAborted_committing b Hs) as (M1 & M2 & M3 & M4). destruct (bi_once _ B) as [O1 O2].
  apply (user_end w h b (MarkAborted b).1 w'); auto.
  - rewrite M1. intros [|]; discriminate.
  - intros q [Hq|Hq]; cbn in Hq; [rewrite lookup_delete_eq in Hq; discriminate|]. apply (O2 h p Ha), queue_handles_elem. eauto.
  - intros k q Hne. unfold request, w'. cbn. now rewrite lookup_delete_ne by congruence.
  - cbn. intros k q [_ Hk]%lookup_delete_Some. exact Hk.
  - intros id ref E. split; [exact (bi_entries _ B id ref E)|now left].
Qed.

(** The request at the head of the queue is handled. *)
Lemma user_handled w h p b b' rest s : base_inv w -> redirects_keep w -> wd_queue w = CUser h p :: rest -> wd_heap w !! h = Some b -> (ba_state b = StateCommitting -> ~ live_state (ba_state b') /\ ba_mutations b' = ∅ /\ ba_id b' = ba_id b /\ ba_limits b' = ba_limits b) ->
  (s = wd_entries w \/ s = spec_proposal (wd_entries w) (Prepared_Proposal (redirect_prepared (wd_redirects w) p))) -> let w' := set_heap (set_entries (set_queue w rest) s) h b' in base_inv w' /\ user_frame w w'.
Proof.
  intros B Hk Hq Hh Hend Hs w'. assert (Hreq : request w h p) by (right; rewrite Hq; now left). destruct (bi_request _ B h p Hreq) as (x & Hx & Hst & Hm). assert (x = b) by congruence. subst x. destruct (Hend Hst) as (M1 & M2 & M3 & M4). destruct (bi_once _ B) as [O1 O2]. rewrite Hq in O1. cbn in O1. inversion O1 as [|? ? Hnot O1']; subst.
  apply (user_end w h b b' w'); auto.
  - intros q [Hadm|Hin]; cbn in *; [apply (O2 h q Hadm); rewrite Hq; cbn; now left|]. apply Hnot, queue_handles_elem. eauto.
  - intros k q Hne. unfold request, w'. cbn. rewrite Hq, elem_of_cons. split; [tauto|]. intros [H|[H|H]]; [now left|congruence|now right].
  - cbn. intros id ref E. destruct Hs as [->| ->]; [split; [exact (bi_entries _ B id ref E)|now left]|]. apply user_spec in E as [E|(m & Hin & Hop & Hid & Href)]; [split; [exact (bi_entries _ B id ref E)|now left]|]. cbn in Hin. apply list_elem_of_In, in_map_iff in Hin as (m0 & Em & Hin). apply list_elem_of_In in Hin. destruct (proj1 (Hm m0) Hin) as [i Hi]. pose proof (bi_heap _ B h b i m0 Hh Hi) as Hok.
    destruct (redirect_same (wd_redirects w) m0) as (_ & Eo & _). rewrite <- Em, Eo in Hop. destruct Hok as [Hd|[Hp Hput]]; [contradiction|]. split.
    + pose proof (redirect_ok_mut w m0 Hk (or_intror (conj Hp Hput))) as [Hd|[_ Hr]]; [rewrite Eo in Hd; contradiction|]. rewrite Em in Hr. now rewrite Hid, Href in Hr.
    + right. exists h, p, rest, m0. rewrite Em. auto.
  - right. exists h, p. exact Hq.
Qed.

Lemma user_step_inv w w' : base_inv w -> redirects_keep w -> (forall e, wd_phase w <> Stopped e) -> user_step limits inputs ids w w' -> base_inv w' /\ user_frame w w'.
Proof.
  intros B Hk Hns H. destruct H as [l' Ha|h id b Hh Hu E|h b l' b' Hh Hc Hu Ha|h b b' p Hh E|h b b' e Hh E|h p Ha|h p b Ha Hh|h p b rest seq Hq Hh Hs _|h p b rest Hq Hh|h p b rest Hq Hh|h b Hh Ht|e m rest Hp|e rest Hp]; [| | | | | | | | | | |now apply Hns in Hp|now apply Hns in Hp].
  - now apply user_log.
  - now apply (user_begin w h id).
  - now apply (user_client w h b).
  - now apply (user_prepare w h b).
  - apply Prepare_failed in E as [->|[Ho ->]]; [rewrite set_heap_id by exact Hh; split; [exact B|apply frame_refl]|]. apply (user_end w h b (set_state b StateFailed)); auto.
    + intros [|]; discriminate.
    + intros q Hq. destruct (bi_request _ B h q Hq) as (x & Hx & Hs & _). congruence.
    + intros id ref E. split; [exact (bi_entries _ B id ref E)|now left].
  - now apply user_enqueue.
  - now apply (user_withdraw w h p).
  - apply (user_handled w h p b _ rest); auto. intros Hst. destruct (MarkCommitted_committing b seq Hst Hs) as (-> & ? & ? & ?). split; [intros [|]; discriminate|auto].
  - apply (user_handled w h p b _ rest (wd_entries w)); auto. intros Hst. destruct (MarkAborted_committing b Hst) as (-> & ? & ? & ?). split; [intros [|]; discriminate|auto].
  - apply (user_handled w h p b _ rest (wd_entries w)); auto. intros Hst. destruct (MarkCommitUnknown_committing b Hst) as (-> & ? & ? & ?). split; [intros [|]; discriminate|auto].
  - destruct B as [B1 B2 B3 B4 B5 B6 B7 B8]. split.
    + constructor; auto; [now apply (records_same w)|]. cbn. intros k x Hk' Hs. pose proof (B5 k x Hk' Hs) as Hin. apply elem_of_difference. split; [exact Hin|]. intros ->%elem_of_singleton. assert (x = b) by congruence. subst x. destruct Hs as [Hs|Hs]; rewrite Hs in Ht; discriminate.
    + constructor; auto. intros s k ref Hp. exists s. auto.
Qed.
End Inv.
