(* ===== verification/CompactionSpec.v ===== *)
(** * Compaction keeps every value and empties its inputs

    Whatever clients and the coordinator do between the steps of a compaction, no step
    of it changes what a record id reads as, and when it has finished nothing refers
    to the inputs any more: not the mapping, not a batch, not a queued commit.  Every
    answer to the question whether an input may be retired is given for its reason. *)
From S2P Require Import Prelude Bytes Addr RecordFormat RecordCodec Mapping LogIface Batch Catalog Coordinator SegmentStats Compaction CompactionWorld CompactionSteps.

(** A segment has live records exactly when an entry refers to it. *)
Lemma seg_records_zero (S : Entries) segment : seg_records S segment = 0 <-> forall id ref, S !! id = Some ref -> SegmentID (Addr ref) <> segment.
Proof.
  unfold seg_records. induction S as [|i r S Hn IH] using map_ind; [rewrite msum_empty; split; [intros _ id ref E; rewrite lookup_empty in E; discriminate|reflexivity]|].
  rewrite msum_insert_new by done. assert (Hp : 0 <= msum (in_segment segment one) S) by (apply msum_nonneg; intros; unfold in_segment, one; destruct (_ =? _); lia). unfold in_segment at 1, one at 1. destruct (Z.eqb_spec (SegmentID (Addr r)) segment) as [E|E].
  - split; [lia|]. intros H. exfalso. exact (H i r (lookup_insert_eq _ _ _) E).
  - rewrite Z.add_0_l, IH. split; intros H id ref Ei.
    + apply lookup_insert_Some in Ei as [[<- <-]|[_ Ei]]; [exact E|exact (H _ _ Ei)].
    + apply (H id). rewrite lookup_insert_ne; [exact Ei|]. intros ->. congruence.
Qed.

Lemma seg_records_some (S : Entries) segment : seg_records S segment <> 0 -> exists id ref, S !! id = Some ref /\ SegmentID (Addr ref) = segment.
Proof.
  intros N. destruct (existsb (fun x => SegmentID (Addr x.2) =? segment) (map_to_list S)) eqn:E.
  - apply existsb_exists in E as ([id ref] & Hin & H%Z.eqb_eq). exists id, ref. split; [|exact H]. apply list_elem_of_In in Hin. now apply elem_of_map_to_list.
  - exfalso. apply N, seg_records_zero. intros id ref Hid H. apply not_true_iff_false in E. apply E, existsb_exists. exists (id, ref). split; [apply list_elem_of_In; now apply elem_of_map_to_list|now apply Z.eqb_eq].
Qed.

Definition stat_live (segment : Z) (st : SegmentStats) : bool := (sst_SegmentID st =? segment) && (negb (sst_LiveBytes st =? 0) || negb (sst_LiveRecords st =? 0)).

(** The entry of a segment in exact statistics says whether an entry refers to it. *)
Lemma exact_stats_live (S : Entries) stats segment : exact_stats S stats -> existsb (stat_live segment) stats = true <-> seg_records S segment <> 0.
Proof.
  intros X. rewrite existsb_exists. split.
  - intros (st & Hin & H). apply list_elem_of_In in Hin. apply andb_true_iff in H as [H%Z.eqb_eq _]. subst segment. now apply (xs_all _ _ X) in Hin.
  - intros N. exists (mkStats segment (seg_bytes S segment) (seg_records S segment)). split; [apply list_elem_of_In; apply (xs_all _ _ X); auto|]. unfold stat_live. cbn [sst_SegmentID sst_LiveBytes sst_LiveRecords]. apply Z.eqb_neq in N. now rewrite Z.eqb_refl, N, orb_true_r.
Qed.

Section Spec.
Context {L : Type} `{!AppendLog L} `{!AppendLogLaws L} {W : Type} `{!OutputWriter W}.
Context (limits : Limits) (rl : RelocationLimits) (inputs ids : list Z) (base scan : list LogRecord).
Context (fits : list Z -> Prop) `{!OutputWriterLaws W ids fits} (Hsealed : sealed_inputs inputs ids base scan) (Hfits : forall x, x ∈ scan -> fits x.2).
Abbreviation world := (world L W).
Implicit Types w : world.
Abbreviation inp := (inp inputs).
Abbreviation holds := (holds base).
Abbreviation ref_put := (ref_put limits base).
Abbreviation base_inv := (base_inv limits inputs ids base scan).
Abbreviation pend := (pend inputs).
Abbreviation all_records := (all_records base).
Abbreviation user_frame := (user_frame inputs base).

(** ** The copies *)

(** [refs] are the references of open batches, [todo] the records that are not
    scanned yet.  [ck_source]: a copy that is not of an open batch is the copy of the
    only record of the inputs that its id can still refer to. *)
Record copied_ok (refs : gmap Z RecordRef) (st : copy_state) (todo : list LogRecord) (w : world) : Prop := mkCopiedOk {
  ck_refs : forall a, is_Some (refs !! a) -> exists x id, x ∈ scan /\ rec_addr x = a /\ put_payload limits id x.2;
  ck_todo : forall x, x ∈ todo -> x ∈ scan;
  ck_origins : forall k a, cs_origins st !! k = Some a -> is_Some (refs !! a) /\ exists x, x ∈ wd_outputs w /\ rec_addr x = k;
  ck_source : forall r' p, (r', p) ∈ wd_outputs w -> exists r id, (r, p) ∈ scan /\ put_payload limits id p /\
    match cs_origins st !! ar_Addr r' with
    | Some a => ar_Addr r = a
    | None => forall ref, wd_entries w !! id = Some ref -> inp (Addr ref) -> refs !! Addr ref = None -> Addr ref = ar_Addr r
    end;
  ck_live : forall id ref, wd_entries w !! id = Some ref -> inp (Addr ref) -> refs !! Addr ref = None ->
    (exists x, x ∈ todo /\ rec_addr x = Addr ref) \/ exists r' p, (r', p) ∈ wd_outputs w /\ cs_origins st !! ar_Addr r' = None /\ put_payload limits id p;
  ck_pending : forall a, is_Some (refs !! a) -> (exists x, x ∈ todo /\ rec_addr x = a) \/ is_Some (cs_redirects st !! a) /\ exists r' p, (r', p) ∈ wd_outputs w /\ cs_origins st !! ar_Addr r' = Some a;
  ck_redirects : forall a new, cs_redirects st !! a = Some new -> exists r' p r, (r', p) ∈ wd_outputs w /\ AppendResult_Ref r' = Ok new /\ (r, p) ∈ scan /\ ar_Addr r = a /\ is_Some (refs !! a);
}.

(** Only references of open batches come into the inputs. *)
Lemma copied_user refs st todo w w' : copied_ok refs st todo w -> wd_outputs w' = wd_outputs w -> (forall id ref, wd_entries w' !! id = Some ref -> inp (Addr ref) -> refs !! Addr ref = None -> wd_entries w !! id = Some ref) -> copied_ok refs st todo w'.
Proof.
  intros [C1 C2 C3 C4 C5 C6 C7] Eo He. constructor; rewrite ?Eo; auto. intros r' p Hin. destruct (C4 r' p Hin) as (r & id & H1 & H2 & H3). exists r, id. split; [exact H1|]. split; [exact H2|]. destruct (cs_origins st !! ar_Addr r'); [exact H3|]. intros ref E Hi Hn. apply H3; auto.
Qed.

Lemma redirects_kept refs st todo w (m : gmap Z RecordRef) : copied_ok refs st todo w -> records_ok inputs ids base scan w -> (m = ∅ \/ m = cs_redirects st) -> forall ref new id, m !! Addr ref = Some new -> ref_put w id ref -> ref_put w id new /\ SegmentID (Addr new) ∈ ids.
Proof.
  intros C R [->| ->] ref new id E Hp; [rewrite lookup_empty in E; discriminate|]. destruct (ck_redirects _ _ _ _ C _ _ E) as (r' & p & r & H1 & H2 & H3 & H4 & _). destruct Hp as (q & Hq & Hput). assert (Hi : inp (Addr ref)) by (rewrite <- H4; exact (si_segment _ _ _ _ Hsealed _ H3)).
  destruct (holds_input inputs ids base scan Hsealed w ref q R Hq Hi) as (r0 & S1 & S2). assert (q = p) by (eapply (scan_unique inputs ids base scan Hsealed); eauto; congruence). subst q. destruct (Ref_addr _ _ H2) as [Ea _]. split.
  - exists p. split; [|exact Hput]. exists r'. split; [|exact H2]. unfold CompactionSteps.all_records. rewrite !elem_of_app. auto.
  - rewrite Ea. exact (proj1 (proj2 (ro_outputs _ _ _ _ _ R) _ H1)).
Qed.

(** ** The phases *)

Definition no_control (q : list command) : Prop := forall c, c ∈ q -> exists h p, c = CUser h p.
Definition clean (p : Prepared) : Prop := forall m, m ∈ pp_Mutations p -> bm_Operation m = OpPut -> ~ inp (Addr (bm_Ref m)).
(** Nothing in flight refers to the inputs. *)
Record calm (w : world) : Prop := mkCalm { ca_redirects : wd_redirects w = ∅; ca_queue : no_control (wd_queue w); ca_pend : forall s h ref, ~ pend w s h ref }.

(** What a compaction may publish: the copies of this run, or those of an interrupted
    one, of which every record of the inputs in use has one. *)
Definition publishable (work : copied_work) (w : world) : Prop :=
  if cw_resumed work then
    cs_origins (cw_copy work) = ∅ /\ (forall id ref p, wd_entries w !! id = Some ref -> inp (Addr ref) -> holds w ref p -> exists r', (r', p) ∈ wd_outputs w)
  else copied_ok (ob_refs (cw_refs work)) (cw_copy work) [] w.

(** A relocation to a copy of the same record. *)
Definition item_ok (w : world) (c : copiedRecord) : Prop := exists r p r', (r, p) ∈ scan /\ ar_Addr r = cp_oldAddr c /\ (r', p) ∈ wd_outputs w /\ AppendResult_Ref r' = Ok (cp_newRef c) /\ put_payload limits (cp_id c) p.

(** [x] is the copy to which the reference is to be moved. *)
Definition matches (work : copied_work) (id : Z) (ref : RecordRef) (x : LogRecord) : Prop :=
  put_payload limits id x.2 /\ (exists r, (r, x.2) ∈ scan /\ ar_Addr r = Addr ref) /\
  match cs_origins (cw_copy work) !! rec_addr x with Some a => a = Addr ref | None => Addr ref ∉ (map_to_list (cs_origins (cw_copy work))).*2 end.

Record publish_ok (work : copied_work) (todo : list LogRecord) (items : list copiedRecord) (w : world) : Prop := mkPublishOk {
  pk_calm : calm w;
  pk_work : publishable work w;
  pk_todo : forall x, x ∈ todo -> x ∈ wd_outputs w;
  pk_distinct : NoDup (map cp_id items);
  pk_items : forall c, c ∈ items -> item_ok w c;
  pk_current : forall c ref, c ∈ items -> wd_entries w !! cp_id c = Some ref -> inp (Addr ref) -> Addr ref = cp_oldAddr c;
  pk_left : forall id ref, wd_entries w !! id = Some ref -> inp (Addr ref) -> (exists x, x ∈ todo /\ matches work id ref x) \/ exists c, c ∈ items /\ cp_id c = id;
}.

(** Every reference of an open batch to the inputs is known. *)
Definition known (r : openBatchCompactionRefs) (h : Z) (ref : RecordRef) : Prop := is_Some (ob_refs r !! Addr ref) /\ h ∈ ob_batches r.

Definition phase_inv (w : world) : Prop :=
  match wd_phase w with
  | Snapshotting todo acc =>
      wd_redirects w = ∅ /\ no_control (wd_queue w) /\ wd_outputs w = [] /\ ow_written (wd_writer w) [] /\
      (forall a, is_Some (ob_refs acc !! a) -> exists x id, x ∈ scan /\ rec_addr x = a /\ put_payload limits id x.2) /\ (forall s h ref, pend w s h ref -> h ∈ todo \/ known acc h ref)
  | Copying todo work =>
      wd_redirects w = ∅ /\ no_control (wd_queue w) /\ ow_written (wd_writer w) (wd_outputs w) /\ (forall s h ref, pend w s h ref -> known (cw_refs work) h ref) /\ copied_ok (ob_refs (cw_refs work)) (cw_copy work) todo w
  | Installing work =>
      wd_redirects w = ∅ /\ (exists pre post, wd_queue w = pre ++ CInstall (cs_redirects (cw_copy work)) :: post /\ no_control pre /\ no_control post) /\
      (forall s h ref, pend w s h ref -> known (cw_refs work) h ref) /\ copied_ok (ob_refs (cw_refs work)) (cw_copy work) [] w /\ cw_resumed work = false
  | Rewriting todo work =>
      wd_redirects w = cs_redirects (cw_copy work) /\ no_control (wd_queue w) /\ (forall s h ref, pend w s h ref -> known (cw_refs work) h ref /\ (s = StateOpen -> h ∈ todo)) /\
      copied_ok (ob_refs (cw_refs work)) (cw_copy work) [] w /\ cw_resumed work = false
  | Releasing work =>
      wd_redirects w = cs_redirects (cw_copy work) /\
      (exists pre post, wd_queue w = pre ++ CRelease :: post /\ no_control pre /\ no_control post /\ (forall h p, CUser h p ∈ post -> clean p) /\ forall h p, wd_admitting w !! h = Some p -> clean p) /\
      (forall s h ref, pend w s h ref -> known (cw_refs work) h ref /\ s = StateCommitting) /\ copied_ok (ob_refs (cw_refs work)) (cw_copy work) [] w /\ cw_resumed work = false
  | Publishing todo ps work => publish_ok work todo (pb_pending ps) w /\ (forall id, id ∈ pb_ids ps <-> id ∈ map cp_id (pb_pending ps))
  | Flushing copied next todo ps work => publish_ok work todo (copied ++ option_list next) w /\ (next = None -> todo = [])
  | Waiting work => calm w /\ publishable work w
  | Finished => calm w /\ forall id ref, wd_entries w !! id = Some ref -> ~ inp (Addr ref)
  | Stopped _ => True
  end.

Definition invariant (w : world) : Prop := (exists e, wd_phase w = Stopped e) \/ base_inv w /\ phase_inv w.

(** ** Steps of the others *)

Lemma not_output a : inp a -> SegmentID a ∉ ids.
Proof. intros H. exact (si_fresh _ _ _ _ Hsealed _ H). Qed.

(** A new reference comes from a queued commit. *)
Lemma entry_source w w' id ref : base_inv w -> user_frame w w' -> wd_entries w' !! id = Some ref -> wd_entries w !! id = Some ref \/
  exists h b i m, wd_heap w !! h = Some b /\ ba_state b = StateCommitting /\ ba_mutations b !! i = Some m /\ bm_Operation m = OpPut /\ ref = bm_Ref (redirect_mutation (wd_redirects w) m).
Proof.
  intros B F E. destruct (uf_entries _ _ _ _ F _ _ E) as [H|(h & p & rest & m & Hq & Hm & Ho & Hr)]; [now left|right]. destruct (bi_request _ _ _ _ _ _ B h p) as (b & Hb & Hs & Hms); [right; rewrite Hq; now left|]. destruct (proj1 (Hms m) Hm) as [i Hi]. exists h, b, i, m. auto.
Qed.

Lemma entry_plain w w' id ref : base_inv w -> user_frame w w' -> wd_redirects w = ∅ -> wd_entries w' !! id = Some ref -> inp (Addr ref) -> wd_entries w !! id = Some ref \/ exists h, pend w StateCommitting h ref.
Proof.
  intros B F Hr E Hi. destruct (entry_source w w' id ref B F E) as [H|(h & b & i & m & H1 & H2 & H3 & H4 & H5)]; [now left|right]. exists h. rewrite Hr in H5. assert (Em : redirect_mutation ∅ m = m) by (unfold redirect_mutation; rewrite H4, Z.eqb_refl, lookup_empty; reflexivity). rewrite Em in H5. subst ref. exists b, i, m. repeat split; auto. now right.
Qed.

Lemma entry_redirected w w' work id ref : base_inv w -> user_frame w w' -> wd_redirects w = cs_redirects (cw_copy work) -> (forall s h ref, pend w s h ref -> known (cw_refs work) h ref) -> copied_ok (ob_refs (cw_refs work)) (cw_copy work) [] w ->
  wd_entries w' !! id = Some ref -> inp (Addr ref) -> wd_entries w !! id = Some ref.
Proof.
  intros B F Hr Hk C E Hi. destruct (entry_source w w' id ref B F E) as [H|(h & b & i & m & H1 & H2 & H3 & H4 & H5)]; [exact H|]. exfalso. unfold redirect_mutation in H5. rewrite H4, Z.eqb_refl, Hr in H5. cbn [negb] in H5. destruct (cs_redirects (cw_copy work) !! Addr (bm_Ref m)) as [new|] eqn:En.
  - cbn in H5. subst ref. destruct (ck_redirects _ _ _ _ C _ _ En) as (r' & p & r & K1 & K2 & _). destruct (Ref_addr _ _ K2) as [Ea _]. apply (not_output _ Hi). rewrite Ea. exact (proj1 (proj2 (ro_outputs _ _ _ _ _ (bi_records _ _ _ _ _ _ B)) _ K1)).
  - subst ref. destruct (Hk StateCommitting h (bm_Ref m)) as [K1 _]; [exists b, i, m; repeat split; auto; now right|]. destruct (ck_pending _ _ _ _ C (Addr (bm_Ref m)) K1) as [(x & Hx & _)|[[new Hn] _]]; [inversion Hx|congruence].
Qed.

Lemma no_control_user w w' : user_frame w w' -> no_control (wd_queue w) -> no_control (wd_queue w').
Proof.
  intros F H. destruct (uf_queue _ _ _ _ F) as [->|[(h & p & Hq)|(h & p & _ & ->)]]; [exact H| |].
  - intros c Hc. apply H. rewrite Hq. now right.
  - intros c [Hc|Hc]%elem_of_app; [auto|]. apply list_elem_of_singleton in Hc. eauto.
Qed.

Lemma known_user w w' r : user_frame w w' -> (forall s h ref, pend w s h ref -> known r h ref) -> forall s h ref, pend w' s h ref -> known r h ref.
Proof. intros F H s h ref Hp. destruct (uf_pend _ _ _ _ F s h ref Hp) as (s' & Hp' & _). exact (H _ _ _ Hp'). Qed.

Lemma calm_user w w' : user_frame w w' -> calm w -> calm w'.
Proof.
  intros F [C1 C2 C3]. destruct (uf_same _ _ _ _ F) as (E1 & _). constructor; [now rewrite E1|now apply (no_control_user w)|]. intros s h ref Hp. destruct (uf_pend _ _ _ _ F s h ref Hp) as (s' & Hp' & _). exact (C3 _ _ _ Hp').
Qed.

Lemma calm_entries w w' id ref : base_inv w -> user_frame w w' -> calm w -> wd_entries w' !! id = Some ref -> inp (Addr ref) -> wd_entries w !! id = Some ref.
Proof. intros B F C E Hi. destruct (entry_plain w w' id ref B F (ca_redirects _ C) E Hi) as [H|[h Hp]]; [exact H|]. now apply (ca_pend _ C) in Hp. Qed.

Lemma publishable_shrinks work w w' : publishable work w -> wd_outputs w' = wd_outputs w -> (forall ref p, inp (Addr ref) -> holds w' ref p -> holds w ref p) -> (forall id ref, wd_entries w' !! id = Some ref -> inp (Addr ref) -> wd_entries w !! id = Some ref) -> publishable work w'.
Proof.
  unfold publishable. intros H Eo Hh He. destruct (cw_resumed work).
  - destruct H as [H1 H2]. split; [exact H1|]. intros id ref p E Hi Hp. rewrite Eo. eauto.
  - apply (copied_user _ _ _ w); auto.
Qed.

Lemma item_same w w' c : wd_outputs w' = wd_outputs w -> item_ok w c -> item_ok w' c.
Proof. intros E (r & p & r' & H). exists r, p, r'. now rewrite E. Qed.

Lemma publish_shrinks work todo items w w' : publish_ok work todo items w -> calm w' -> wd_outputs w' = wd_outputs w -> (forall ref p, inp (Addr ref) -> holds w' ref p -> holds w ref p) -> (forall id ref, wd_entries w' !! id = Some ref -> inp (Addr ref) -> wd_entries w !! id = Some ref) -> publish_ok work todo items w'.
Proof.
  intros [P1 P2 P3 P4 P5 P6 P7] Hc Eo Hh He. constructor; [exact Hc|now apply (publishable_shrinks work w)|now rewrite Eo|exact P4| | |].
  - intros c Hin. apply (item_same w); auto.
  - intros c ref Hin E Hi. apply P6; auto.
  - intros id ref E Hi. apply P7; auto.
Qed.

(** The payload of a reference to an input does not change. *)
Lemma holds_input_back w w' ref p : records_ok inputs ids base scan w' -> records_ok inputs ids base scan w -> inp (Addr ref) -> holds w' ref p -> holds w ref p.
Proof.
  intros R' R Hi (r & Hin & Er). destruct (Ref_addr _ _ Er) as [Ea _]. exists r. split; [|exact Er]. assert (Hs : (r, p) ∈ scan).
  { unfold CompactionSteps.all_records in Hin. rewrite !elem_of_app in Hin. rewrite Ea in Hi. destruct Hin as [Hin|[Hin|Hin]]; [exact (proj1 (si_base _ _ _ _ Hsealed _ Hin) Hi)|exact (proj1 (ro_log _ _ _ _ _ R' _ Hin) Hi)|]. exfalso. exact (not_output _ Hi (proj1 (proj2 (ro_outputs _ _ _ _ _ R') _ Hin))). }
  unfold CompactionSteps.all_records. apply (ro_scan _ _ _ _ _ R) in Hs. rewrite !elem_of_app in *. tauto.
Qed.


Lemma user_keeps w : base_inv w -> phase_inv w -> (forall e, wd_phase w <> Stopped e) -> redirects_keep limits base w.
Proof.
  intros B P Hns ref new id E Hp. assert (He : wd_redirects w = ∅ -> ref_put w id new) by (intros H; rewrite H, lookup_empty in E; discriminate).
  assert (Ht : forall work, wd_redirects w = cs_redirects (cw_copy work) -> copied_ok (ob_refs (cw_refs work)) (cw_copy work) [] w -> ref_put w id new) by (intros work H C; rewrite H in E; exact (proj1 (redirects_kept _ _ _ w _ C (bi_records _ _ _ _ _ _ B) (or_intror eq_refl) ref new id E Hp))).
  unfold phase_inv in P. destruct (wd_phase w) as [todo acc|todo work|work|todo work|work|todo ps work|copied next todo ps work|work| |e] eqn:Eph.
  - now apply He.
  - now apply He.
  - now apply He.
  - destruct P as (P1 & _ & _ & P4 & _). now apply (Ht work).
  - destruct P as (P1 & _ & _ & P4 & _). now apply (Ht work).
  - apply He, (ca_redirects _ (pk_calm _ _ _ _ (proj1 P))).
  - apply He, (ca_redirects _ (pk_calm _ _ _ _ (proj1 P))).
  - apply He, (ca_redirects _ (proj1 P)).
  - apply He, (ca_redirects _ (proj1 P)).
  - now destruct (Hns e).
Qed.

(** A queue with one command of the compaction. *)
Lemma control_user w w' c pre post : user_frame w w' -> (forall h p, c <> CUser h p) -> wd_queue w = pre ++ c :: post -> no_control pre -> no_control post ->
  exists pre' post', wd_queue w' = pre' ++ c :: post' /\ no_control pre' /\ no_control post' /\ forall h p, CUser h p ∈ post' -> CUser h p ∈ post \/ wd_admitting w !! h = Some p.
Proof.
  intros F Hc Hq H1 H2. destruct (uf_queue _ _ _ _ F) as [E|[(h & p & E)|(h & p & Ha & E)]].
  - exists pre, post. rewrite E. auto.
  - rewrite Hq in E. destruct pre as [|x pre]; cbn in E; [exfalso; apply (Hc h p); congruence|]. injection E as _ E. exists pre, post. split; [now symmetry|]. split; [intros y Hy; apply H1; now right|auto].
  - exists pre, (post ++ [CUser h p]). rewrite E, Hq, <- app_assoc. split; [reflexivity|]. split; [exact H1|]. split.
    + intros y [Hy|Hy]%elem_of_app; [auto|]. apply list_elem_of_singleton in Hy. eauto.
    + intros k q [Hk|Hk]%elem_of_app; [now left|]. apply list_elem_of_singleton in Hk. injection Hk as -> ->. now right.
Qed.

Lemma user_phase w w' : base_inv w -> base_inv w' -> phase_inv w -> user_frame w w' -> phase_inv w'.
Proof.
  intros B B' P F. destruct (uf_same _ _ _ _ F) as (E1 & E2 & E3 & E4). unfold phase_inv in *. rewrite E4.
  assert (Hback : forall ref p, inp (Addr ref) -> holds w' ref p -> holds w ref p) by (intros ref p; exact (holds_input_back w w' ref p (bi_records _ _ _ _ _ _ B') (bi_records _ _ _ _ _ _ B))).
  assert (Hcopy : forall r st todo, wd_redirects w = ∅ -> (forall s h ref, pend w s h ref -> known r h ref) -> copied_ok (ob_refs r) st todo w -> copied_ok (ob_refs r) st todo w').
  { intros r st todo Hr Hk C. apply (copied_user _ _ _ w); auto. intros id ref E Hi Hn. destruct (entry_plain w w' id ref B F Hr E Hi) as [H|[h Hp]]; [exact H|]. apply Hk in Hp as [[y Hp] _]. congruence. }
  assert (Hcopy' : forall work, wd_redirects w = cs_redirects (cw_copy work) -> (forall s h ref, pend w s h ref -> known (cw_refs work) h ref) -> copied_ok (ob_refs (cw_refs work)) (cw_copy work) [] w -> copied_ok (ob_refs (cw_refs work)) (cw_copy work) [] w').
  { intros work Hr Hk C. apply (copied_user _ _ _ w); auto. intros id ref E Hi _. now apply (entry_redirected w w' work). }
  destruct (wd_phase w) as [todo acc|todo work|work|todo work|work|todo ps work|copied next todo ps work|work| |e] eqn:Eph.
  - destruct P as (P1 & P2 & P3 & P4 & P5 & P6). rewrite E1, E2, E3. repeat (split; [first [assumption|now apply (no_control_user w)]|]). intros s h ref Hp. destruct (uf_pend _ _ _ _ F s h ref Hp) as (s' & Hp' & _). eauto.
  - destruct P as (P1 & P2 & P3 & P4 & P5). rewrite E1, E2, E3. repeat (split; [first [assumption|now apply (no_control_user w)|now apply (known_user w)]|]). now apply Hcopy.
  - destruct P as (P1 & (pre & post & Hq & Q1 & Q2) & P4 & P5 & P6). rewrite E1. split; [exact P1|]. split; [|split; [now apply (known_user w)|split; [now apply Hcopy|exact P6]]]. destruct (control_user w w' (CInstall (cs_redirects (cw_copy work))) pre post F (fun _ _ H => ltac:(discriminate H)) Hq Q1 Q2) as (pre' & post' & K1 & K2 & K3 & _). eauto.
  - destruct P as (P1 & P2 & P3 & P4 & P5). rewrite E1. split; [exact P1|]. split; [now apply (no_control_user w)|]. split; [|split; [apply Hcopy'; auto; intros s h ref Hp; exact (proj1 (P3 _ _ _ Hp))|exact P5]].
    intros s h ref Hp. destruct (uf_pend _ _ _ _ F s h ref Hp) as (s' & Hp' & Hs). destruct (P3 _ _ _ Hp') as [K1 K2]. auto.
  - destruct P as (P1 & (pre & post & Hq & Q1 & Q2 & Q3 & Q4) & P3 & P4 & P5). rewrite E1. split; [exact P1|]. assert (Hnew : forall h p, wd_admitting w' !! h = Some p -> clean p).
    { intros h p Ha. destruct (uf_admitting _ _ _ _ F h p Ha) as [Ha'|(b & Hb & Ho & Hm)]; [eauto|]. intros m Hin Hop Hi. destruct (Hm m Hin) as [i Hi']. destruct (P3 StateOpen h (bm_Ref m)) as [_ K]; [exists b, i, m; repeat split; auto; now left|discriminate]. }
    split; [|split; [|split; [apply Hcopy'; auto; intros s h ref Hp; exact (proj1 (P3 _ _ _ Hp))|exact P5]]].
    + destruct (control_user w w' CRelease pre post F (fun _ _ H => ltac:(discriminate H)) Hq Q1 Q2) as (pre' & post' & K1 & K2 & K3 & K4). exists pre', post'. repeat (split; [assumption|]). split; [|exact Hnew]. intros h p Hin. destruct (K4 h p Hin) as [K|K]; eauto.
    + intros s h ref Hp. destruct (uf_pend _ _ _ _ F s h ref Hp) as (s' & Hp' & Hs). destruct (P3 _ _ _ Hp') as [K1 K2]. split; [exact K1|]. destruct Hp as (b & i & m & _ & _ & [Hl|Hl] & _); [|exact Hl]. specialize (Hs Hl). congruence.
  - destruct P as [P1 P2]. split; [|exact P2]. apply (publish_shrinks work todo _ w); auto; [exact (calm_user w w' F (pk_calm _ _ _ _ P1))|]. intros id ref E Hi. exact (calm_entries w w' id ref B F (pk_calm _ _ _ _ P1) E Hi).
  - destruct P as [P1 P2]. split; [|exact P2]. apply (publish_shrinks work todo _ w); auto; [exact (calm_user w w' F (pk_calm _ _ _ _ P1))|]. intros id ref E Hi. exact (calm_entries w w' id ref B F (pk_calm _ _ _ _ P1) E Hi).
  - destruct P as [P1 P2]. split; [now apply (calm_user w)|]. apply (publishable_shrinks work w); auto. intros id ref E Hi. exact (calm_entries w w' id ref B F P1 E Hi).
  - destruct P as [P1 P2]. split; [now apply (calm_user w)|]. intros id ref E Hi. apply (P2 id ref); [exact (calm_entries w w' id ref B F P1 E Hi)|exact Hi].
  - exact I.
Qed.

(** ** The snapshot *)

Lemma snapshot_refs_spec refs : forall acc : gmap Z RecordRef * bool, let acc' := foldl (snapshot_ref inputs) acc refs in
  (forall a, is_Some (acc.1 !! a) -> is_Some (acc'.1 !! a)) /\ (acc.2 = true -> acc'.2 = true) /\ (forall ref, ref ∈ refs -> inp (Addr ref) -> is_Some (acc'.1 !! Addr ref) /\ acc'.2 = true) /\
  (forall a, is_Some (acc'.1 !! a) -> is_Some (acc.1 !! a) \/ exists ref, ref ∈ refs /\ Addr ref = a /\ inp a).
Proof.
  induction refs as [|r refs IH]; intros acc; cbn [foldl]; [split; [auto|]; split; [auto|]; split; [intros ref Hr; inversion Hr|auto]|]. destruct (IH (snapshot_ref inputs acc r)) as (I1 & I2 & I3 & I4). unfold snapshot_ref in *. destruct (bool_decide_reflect (SegmentID (Addr r) ∈ inputs)) as [Hi|Hi]; cbn [fst snd] in *.
  - split; [|split; [|split]].
    + intros a Ha. apply I1. destruct (decide (a = Addr r)) as [->|Hne]; [rewrite lookup_insert_eq; eauto|now rewrite lookup_insert_ne].
    + auto.
    + intros ref [->|Hin]%elem_of_cons Hr; [|auto]. split; [apply I1; rewrite lookup_insert_eq; eauto|auto].
    + intros a Ha. destruct (I4 a Ha) as [Hx|(ref & Hin & Hx)]; [|right; exists ref; split; [now right|exact Hx]]. destruct (decide (a = Addr r)) as [->|Hne]; [right; exists r; split; [now left|auto]|]. rewrite lookup_insert_ne in Hx by congruence. auto.
  - split; [exact I1|]. split; [exact I2|]. split.
    + intros ref [->|Hin]%elem_of_cons Hr; [contradiction|auto].
    + intros a Ha. destruct (I4 a Ha) as [Hx|(ref & Hin & Hx)]; [auto|right; exists ref; split; [now right|exact Hx]].
Qed.

Lemma PendingPutRefs_elem b ref : ref ∈ PendingPutRefs b <-> live_state (ba_state b) /\ exists i m, ba_mutations b !! i = Some m /\ bm_Operation m = OpPut /\ bm_Ref m = ref.
Proof.
  unfold PendingPutRefs, live_state. assert (H : ref ∈ map (fun '(_, m) => bm_Ref m) (filter (fun '(_, m) => bm_Operation m = OpPut) (map_to_list (ba_mutations b))) <-> exists i m, ba_mutations b !! i = Some m /\ bm_Operation m = OpPut /\ bm_Ref m = ref).
  { rewrite list_elem_of_In, in_map_iff. split.
    - intros ([i m] & E & Hin). apply list_elem_of_In, list_elem_of_filter in Hin as [Ho Hin]. apply elem_of_map_to_list in Hin. eauto.
    - intros (i & m & Hm & Ho & E). exists (i, m). split; [exact E|]. apply list_elem_of_In, list_elem_of_filter. split; [exact Ho|now apply elem_of_map_to_list]. }
  destruct (ba_state b); try (rewrite H; split; [intros Hx; split; [auto|exact Hx]|tauto]); (split; [intros Hx; inversion Hx|intros [[|] _]; discriminate]).
Qed.

Lemma pend_refs w s h ref : pend w s h ref <-> exists b, wd_heap w !! h = Some b /\ ba_state b = s /\ ref ∈ PendingPutRefs b /\ inp (Addr ref).
Proof.
  split.
  - intros (b & i & m & Hb & Hs & Hl & Hm & Ho & Hr & Hi). exists b. split; [exact Hb|]. split; [exact Hs|]. split; [|exact Hi]. apply PendingPutRefs_elem. subst s. split; [exact Hl|]. exists i, m. auto.
  - intros (b & Hb & Hs & Hin & Hi). apply PendingPutRefs_elem in Hin as (Hl & i & m & Hm & Ho & Hr). exists b, i, m. subst s. auto 10.
Qed.

Lemma snapshot_batch_spec h b acc : let acc' := snapshot_batch inputs h b acc in
  (forall a, is_Some (ob_refs acc !! a) -> is_Some (ob_refs acc' !! a)) /\ (forall k, k ∈ ob_batches acc -> k ∈ ob_batches acc') /\ (forall ref, ref ∈ PendingPutRefs b -> inp (Addr ref) -> known acc' h ref) /\
  (forall a, is_Some (ob_refs acc' !! a) -> is_Some (ob_refs acc !! a) \/ exists ref, ref ∈ PendingPutRefs b /\ Addr ref = a /\ inp a).
Proof.
  unfold snapshot_batch. pose proof (snapshot_refs_spec (PendingPutRefs b) (ob_refs acc, false)) as (S1 & _ & S3 & S4). destruct (foldl _ _ _) as [refs referenced]. cbn [fst snd ob_refs ob_batches] in *. split; [exact S1|]. split; [|split; [|exact S4]].
  - intros k Hk. destruct referenced; [apply elem_of_app; now left|exact Hk].
  - intros ref Hin Hi. destruct (S3 ref Hin Hi) as [K1 K2]. split; [exact K1|]. rewrite K2. cbn. apply elem_of_app. right. now left.
Qed.

(** What a pending reference to an input names. *)
Lemma pend_put w s h ref : base_inv w -> pend w s h ref -> exists x id, x ∈ scan /\ rec_addr x = Addr ref /\ put_payload limits id x.2.
Proof.
  intros B (b & i & m & Hb & _ & _ & Hm & Ho & Hr & Hi). destruct (bi_heap _ _ _ _ _ _ B h b i m Hb Hm) as [Hd|[_ (p & Hp & Hput)]]; [rewrite Hd in Ho; discriminate|]. rewrite Hr in Hp. destruct (holds_input inputs ids base scan Hsealed w ref p (bi_records _ _ _ _ _ _ B) Hp Hi) as (r & S1 & S2). exists (r, p), (bm_RecordID m). auto.
Qed.

(** ** The copy of one record *)

Record copied_one (w : world) (refs : gmap Z RecordRef) (x : LogRecord) (st : copy_state) (wr : W) (outs : list LogRecord) (st' : copy_state) (put : PutRecord) (r : AppendResult) : Prop := mkCopiedOne {
  c1_put : put_of limits x.2 = Ok (Some put);
  c1_live : is_Some (refs !! rec_addr x) \/ exists ref, wd_entries w !! put_RecordID put = Some ref /\ Addr ref = rec_addr x;
  c1_append : ow_append (wd_writer w) x.2 = (wr, Ok r) /\ outs = wd_outputs w ++ [(r, x.2)];
  c1_maps : is_Some (refs !! rec_addr x) /\ (exists new, AppendResult_Ref r = Ok new /\ cs_redirects st' = <[rec_addr x := new]> (cs_redirects st) /\ cs_origins st' = <[ar_Addr r := rec_addr x]> (cs_origins st)) \/
    refs !! rec_addr x = None /\ cs_redirects st' = cs_redirects st /\ cs_origins st' = cs_origins st;
}.

Definition skipped_one (w : world) (refs : gmap Z RecordRef) (x : LogRecord) : Prop :=
  put_of limits x.2 = Ok None \/ refs !! rec_addr x = None /\ exists put, put_of limits x.2 = Ok (Some put) /\ forall ref, wd_entries w !! put_RecordID put = Some ref -> Addr ref <> rec_addr x.

Lemma paceCopy_maps force paced st st' r : paceCopy rl force paced st = (st', r) -> cs_redirects st' = cs_redirects st /\ cs_origins st' = cs_origins st.
Proof. unfold paceCopy. destruct (_ || _); intros E; injection E as <- _; auto. Qed.

Lemma copy_record_cases w refs paced x st wr outs st' : copy_record output_append limits rl refs (lookup_in w) paced x (wd_writer w, wd_outputs w) st = ((wr, outs), (st', Ok tt)) ->
  (skipped_one w refs x /\ wr = wd_writer w /\ outs = wd_outputs w /\ cs_redirects st' = cs_redirects st /\ cs_origins st' = cs_origins st) \/ exists put r, copied_one w refs x st wr outs st' put r.
Proof.
  unfold copy_record. assert (M1 : cs_redirects (copy_counted x.2 st) = cs_redirects st) by reflexivity. assert (M2 : cs_origins (copy_counted x.2 st) = cs_origins st) by reflexivity. revert M1 M2. generalize (copy_counted x.2 st). intros st0 M1 M2.
  unfold copy_live. destruct (put_of limits x.2) as [[put|]|e] eqn:Ep; cbn [lookup_in]; [| |discriminate].
  - set (chk := match refs !! ar_Addr x.1 with None => Ok tt | Some _ => _ end). destruct chk as [u|e]; [|discriminate]. cbn. destruct (negb _ && _) eqn:Eskip.
    + intros E. injection E as <- <- <-. left. split; [|auto]. right. apply andb_true_iff in Eskip as [H1 H2]. apply negb_true_iff in H1, H2. apply bool_decide_eq_false in H2. split; [destruct (refs !! ar_Addr x.1); [exfalso; eauto|reflexivity]|]. exists put. split; [exact Ep|]. intros ref Er. rewrite Er in H1. now apply Z.eqb_neq.
    + unfold output_append. cbn [fst snd]. destruct (ow_append (wd_writer w) x.2) as [w2 [r|e]] eqn:Ea; [|discriminate]. destruct (copy_done _ _ _ _ _) as [st2|e] eqn:Ed; [|discriminate]. intros E. destruct (paceCopy rl false paced st2) as [st3 r3] eqn:Epace. apply paceCopy_maps in Epace as [N1 N2]. injection E as <- <- <- _. right. exists put, r. constructor; [exact Ep| |auto|].
      * apply andb_false_iff in Eskip as [H|H]; apply negb_false_iff in H; [right|left; now apply bool_decide_eq_true in H]. destruct (wd_entries w !! put_RecordID put) as [ref|]; [|discriminate]. exists ref. split; [reflexivity|now apply Z.eqb_eq].
      * unfold copy_done in Ed. inv_ok Ed. destruct (bool_decide_reflect (is_Some (refs !! ar_Addr x.1))) as [Hs|Hs].
        { destruct (AppendResult_Ref r) as [new|] eqn:Er; [|discriminate]. apply Ok_inj in Ed. subst st2. left. split; [exact Hs|]. exists new. rewrite N1, N2. cbn. destruct (Ref_addr _ _ Er) as [-> _]. rewrite M1, M2. auto. }
        { apply Ok_inj in Ed. subst st2. right. rewrite N1, N2. cbn. split; [destruct (refs !! ar_Addr x.1); [exfalso; eauto|reflexivity]|auto]. }
  - intros E. injection E as <- <- <-. left. split; [now left|auto].
Qed.

(** The scanned record of a visible reference is found live. *)
Lemma live_record w id ref x : base_inv w -> x ∈ scan -> wd_entries w !! id = Some ref -> Addr ref = rec_addr x -> put_payload limits id x.2.
Proof.
  intros B Hx E Ea. destruct (bi_entries _ _ _ _ _ _ B id ref E) as (p & Hp & Hput). assert (Hi : inp (Addr ref)) by (rewrite Ea; exact (si_segment _ _ _ _ Hsealed _ Hx)). destruct (holds_input inputs ids base scan Hsealed w ref p (bi_records _ _ _ _ _ _ B) Hp Hi) as (r & S1 & S2). destruct x as [rx px]. assert (p = px) by (eapply (scan_unique inputs ids base scan Hsealed); eauto; cbn in *; congruence). now subst.
Qed.

Lemma copy_skipped w refs st st' x todo w' : base_inv w -> copied_ok refs st (x :: todo) w -> skipped_one w refs x -> wd_outputs w' = wd_outputs w -> wd_entries w' = wd_entries w -> cs_redirects st' = cs_redirects st -> cs_origins st' = cs_origins st -> copied_ok refs st' todo w'.
Proof.
  intros B [C1 C2 C3 C4 C5 C6 C7] Hs Eo Ee E1 E2. assert (Hx : x ∈ scan) by (apply C2; now left). constructor; rewrite ?Eo, ?Ee, ?E1, ?E2; auto.
  - intros y Hy. apply C2. now right.
  - intros id ref E Hi Hn. destruct (C5 id ref E Hi Hn) as [(y & Hy & Ey)|H]; [|now right]. apply elem_of_cons in Hy as [->|Hy]; [|left; eauto]. exfalso. symmetry in Ey. destruct (live_record w id ref x B Hx E Ey) as (put & Hput & Hid). destruct Hs as [Hs|(_ & put' & Hput' & Hs)]; [congruence|]. rewrite Hput in Hput'. injection Hput' as <-. rewrite Hid in Hs. exact (Hs ref E Ey).
  - intros a Ha. destruct (C6 a Ha) as [(y & Hy & Ey)|H]; [|now right]. apply elem_of_cons in Hy as [->|Hy]; [|left; eauto]. exfalso. destruct (C1 a Ha) as (z & id & Hz & Ez & Hput). assert (z = x) by (apply (NoDup_map_inj rec_addr scan); auto; [exact (si_distinct _ _ _ _ Hsealed)|congruence]). subst z. destruct Hput as (put & Hput & _). destruct Hs as [Hs|(Hn & _)]; [congruence|]. rewrite Ey in Hn. destruct Ha. congruence.
Qed.

Lemma written_fresh (wr : W) outs r p : ow_written wr (outs ++ [(r, p)]) -> forall r' p', (r', p') ∈ outs -> ar_Addr r' <> ar_Addr r.
Proof.
  intros H r' p' Hin E. pose proof (ow_distinct _ _ H) as Hn. rewrite map_app in Hn. apply NoDup_app in Hn as (_ & Hn & _). apply (Hn (ar_Addr r')); [apply list_elem_of_In, in_map_iff; exists (r', p'); split; [reflexivity|now apply list_elem_of_In]|]. cbn. rewrite E. now left.
Qed.

Lemma copy_copied w refs st st' x todo wr outs put r w' : base_inv w -> copied_ok refs st (x :: todo) w -> ow_written (wd_writer w) (wd_outputs w) -> copied_one w refs x st wr outs st' put r -> wd_outputs w' = outs -> wd_entries w' = wd_entries w -> ow_written wr outs /\ copied_ok refs st' todo w'.
Proof.
  intros B [C1 C2 C3 C4 C5 C6 C7] Hw [K1 K2 [K3 K4] K5] Eo Ee. assert (Hx : x ∈ scan) by (apply C2; now left). assert (Hw' : ow_written wr outs) by (rewrite K4; exact (ow_append_ok _ _ _ _ _ (Hfits x Hx) Hw K3)). split; [exact Hw'|]. pose proof Hw' as Hfresh. rewrite K4 in Hfresh. pose proof (written_fresh _ _ _ _ Hfresh) as Hne.
  assert (Hin : (r, x.2) ∈ outs) by (rewrite K4; apply elem_of_app; right; now left). assert (Hold : forall y, y ∈ wd_outputs w -> y ∈ outs) by (intros y Hy; rewrite K4; apply elem_of_app; now left). assert (Hcase : forall y, y ∈ outs -> y ∈ wd_outputs w \/ y = (r, x.2)) by (intros y; rewrite K4; intros [Hy|Hy]%elem_of_app; [now left|apply list_elem_of_singleton in Hy; now right]).
  assert (Hput : put_payload limits (put_RecordID put) x.2) by (exists put; auto). assert (Hno : cs_origins st !! ar_Addr r = None) by (destruct (cs_origins st !! ar_Addr r) as [a|] eqn:Ea; [|reflexivity]; destruct (C3 _ _ Ea) as (_ & [r0 p0] & Hy & Ey); exfalso; exact (Hne r0 p0 Hy Ey)).
  assert (Hmaps : forall r' p', (r', p') ∈ wd_outputs w -> cs_origins st' !! ar_Addr r' = cs_origins st !! ar_Addr r') by (intros r' p' Hy; destruct K5 as [(_ & new & _ & _ & ->)|(_ & _ & ->)]; [rewrite lookup_insert_ne; [reflexivity|exact (not_eq_sym (Hne _ _ Hy))]|reflexivity]).
  constructor; rewrite ?Eo, ?Ee; auto.
  - intros y Hy. apply C2. now right.
  - intros k a Ek. destruct K5 as [(Hs & new & _ & _ & E2)|(_ & _ & E2)]; rewrite E2 in Ek.
    + apply lookup_insert_Some in Ek as [[<- <-]|[_ Ek]]; [split; [exact Hs|exists (r, x.2); auto]|]. destruct (C3 k a Ek) as (S1 & y & Hy & Ey). eauto.
    + destruct (C3 k a Ek) as (S1 & y & Hy & Ey). eauto.
  - intros r' p' Hy. destruct (Hcase _ Hy) as [Hy'|[= -> ->]]; [rewrite (Hmaps _ _ Hy'); now apply C4|]. exists x.1, (put_RecordID put). split; [now destruct x|]. split; [exact Hput|]. destruct K5 as [(_ & new & _ & _ & ->)|(Hn & _ & ->)]; [rewrite lookup_insert_eq; reflexivity|]. rewrite Hno. intros ref E Hi Hr. destruct K2 as [[y Hy']|(ref' & E' & Ea)]; [congruence|]. congruence.
  - intros id ref E Hi Hn. destruct (C5 id ref E Hi Hn) as [(y & Hy & Ey)|(r' & p' & Hy & Hor & Hpp)]; [|right; exists r', p'; rewrite (Hmaps _ _ Hy); auto]. apply elem_of_cons in Hy as [->|Hy]; [|left; eauto]. right. exists r, x.2. split; [exact Hin|]. destruct K5 as [(Hs & _)|(_ & _ & ->)]; [rewrite Ey in Hs; destruct Hs; congruence|]. split; [exact Hno|]. symmetry in Ey. exact (live_record w id ref x B Hx E Ey).
  - intros a Ha. destruct (decide (a = rec_addr x)) as [->|Hna].
    + right. destruct K5 as [(_ & new & _ & -> & ->)|(Hn & _)]; [|destruct Ha; congruence]. split; [rewrite lookup_insert_eq; eauto|]. exists r, x.2. split; [exact Hin|apply lookup_insert_eq].
    + destruct (C6 a Ha) as [(y & Hy & Ey)|(S1 & r' & p' & Hy & Hor)]; [apply elem_of_cons in Hy as [->|Hy]; [congruence|left; eauto]|]. right. split; [|exists r', p'; rewrite (Hmaps _ _ Hy); auto]. destruct K5 as [(_ & new & _ & -> & _)|(_ & -> & _)]; [rewrite lookup_insert_ne by congruence; exact S1|exact S1].
  - intros a new En. destruct K5 as [(Hsome & new' & Hr & E1 & _)|(_ & E1 & _)]; rewrite E1 in En.
    + apply lookup_insert_Some in En as [[<- <-]|[_ En]]; [exists r, x.2, x.1; repeat split; auto; now destruct x|]. destruct (C7 a new En) as (r' & p' & r0 & H1 & H2). exists r', p', r0. split; [auto|exact H2].
    + destruct (C7 a new En) as (r' & p' & r0 & H1 & H2). exists r', p', r0. split; [auto|exact H2].
Qed.

(** ** Publishing *)

Lemma copied_matches work w id ref : base_inv w -> copied_ok (ob_refs (cw_refs work)) (cw_copy work) [] w -> wd_entries w !! id = Some ref -> inp (Addr ref) -> exists x, x ∈ wd_outputs w /\ matches work id ref x.
Proof.
  intros B C E Hi. destruct (ob_refs (cw_refs work) !! Addr ref) as [y|] eqn:Er.
  - destruct (ck_pending _ _ _ _ C (Addr ref) ltac:(eauto)) as [(x & Hx & _)|(_ & r' & p & Hin & Ho)]; [inversion Hx|]. destruct (ck_source _ _ _ _ C r' p Hin) as (r & id' & Hs & _ & Ha). rewrite Ho in Ha. exists (r', p). split; [exact Hin|]. unfold matches. cbn [fst snd]. rewrite Ho. split; [|split; [eauto|reflexivity]]. exact (live_record w id ref (r, p) B Hs E (eq_sym Ha)).
  - destruct (ck_live _ _ _ _ C id ref E Hi Er) as [(x & Hx & _)|(r' & p & Hin & Ho & Hput)]; [inversion Hx|]. destruct (ck_source _ _ _ _ C r' p Hin) as (r & id' & Hs & Hput' & Ha). rewrite Ho in Ha. rewrite (put_payload_unique _ _ _ _ Hput' Hput) in Ha. exists (r', p). split; [exact Hin|]. unfold matches. cbn [fst snd]. rewrite Ho. split; [exact Hput|]. split; [exists r; split; [exact Hs|symmetry; now apply Ha]|].
    intros Hx. apply list_elem_of_fmap in Hx as ([k a] & Ek & Hx). apply elem_of_map_to_list in Hx. cbn in Ek. subst a. destruct (ck_origins _ _ _ _ C k _ Hx) as [[z Hz] _]. congruence.
Qed.

Lemma start_ok w w' work ps : base_inv w -> calm w' -> publishable work w -> wd_entries w' = wd_entries w -> wd_outputs w' = wd_outputs w -> (forall ref p, holds w' ref p <-> holds w ref p) -> pb_pending ps = [] -> publish_ok work (wd_outputs w) (pb_pending ps) w'.
Proof.
  intros B Hc Hw Ee Eo Hh Hp. rewrite Hp. assert (Hw' : publishable work w') by (apply (publishable_shrinks work w); auto; [intros ref p _; apply Hh|intros id ref; now rewrite Ee]). constructor; auto.
  - now rewrite Eo.
  - constructor.
  - intros c Hc'. inversion Hc'.
  - intros c ref Hc'. inversion Hc'.
  - intros id ref E Hi. rewrite Ee in E. left. unfold publishable in Hw. destruct (cw_resumed work) eqn:Er; [|now apply copied_matches]. destruct Hw as [Ho Hw]. destruct (bi_entries _ _ _ _ _ _ B id ref E) as (p & Hpp & Hput). destruct (Hw id ref p E Hi Hpp) as [r' Hin]. exists (r', p). split; [exact Hin|]. destruct (holds_input inputs ids base scan Hsealed w ref p (bi_records _ _ _ _ _ _ B) Hpp Hi) as (r & S1 & S2). split; [exact Hput|]. split; [eauto|]. rewrite Ho, lookup_empty, map_to_list_empty. intros Hx. inversion Hx.
Qed.

(** What the examination of an output record finds. *)
Lemma read_input_scan a p : read_input scan a = Ok p -> exists r, (r, p) ∈ scan /\ ar_Addr r = a.
Proof. unfold read_input. destruct (List.find _ _) as [[r q]|] eqn:E; [|discriminate]. intros [= <-]. apply List.find_some in E as [E1 E2%Z.eqb_eq]. exists r. split; [now apply list_elem_of_In|exact E2]. Qed.

Lemma examine_found w work ids' x c : base_inv w -> publishable work w -> x ∈ wd_outputs w -> publish_examine limits inputs (origins_of work) (verify_of scan work) (lookup_in w) ids' x = Ok (Some c) ->
  item_ok w c /\ cp_id c ∉ ids' /\ put_payload limits (cp_id c) x.2 /\ exists ref, wd_entries w !! cp_id c = Some ref /\ Addr ref = cp_oldAddr c.
Proof.
  intros B Hw Hx E. unfold publish_examine in E. destruct (put_of limits x.2) as [[put|]|] eqn:Ep; cbn in E; [|discriminate|discriminate]. destruct (wd_entries w !! put_RecordID put) as [ref|] eqn:Er; [|discriminate]. destruct (bool_decide_reflect (SegmentID (Addr ref) ∈ inputs)) as [Hi|]; [|discriminate]. cbn [negb] in E. destruct (AppendResult_Ref x.1) as [new|] eqn:Enew; [|discriminate].
  set (other := match origins_of work !! ar_Addr x.1 with Some _ => _ | None => _ end) in E. destruct other eqn:Eother; [discriminate|]. unfold verify_of in E. assert (Hput : put_payload limits (put_RecordID put) x.2) by (exists put; auto). destruct x as [r' p]. cbn [fst snd] in *.
  assert (Hfin : (exists r, (r, p) ∈ scan /\ ar_Addr r = Addr ref) -> (if bool_decide (put_RecordID put ∈ ids') then Ok None else Ok (Some (mkCopied (put_RecordID put) (Addr ref) new (len (put_Value put))))) = Ok (Some c) -> item_ok w c /\ cp_id c ∉ ids' /\ put_payload limits (cp_id c) p /\ exists ref, wd_entries w !! cp_id c = Some ref /\ Addr ref = cp_oldAddr c).
  { intros (r & Hs & Ha) Ec. destruct (bool_decide_reflect (put_RecordID put ∈ ids')) as [|Hni]; [discriminate|]. injection Ec as <-. cbn. split; [exists r, p, r'; auto|]. split; [exact Hni|]. split; [exact Hput|]. eauto. }
  unfold publishable in Hw. destruct (cw_resumed work).
  - destruct (read_input scan (Addr ref)) as [q|] eqn:Eq; [|discriminate]. cbn in E. destruct (bool_decide_reflect (q = p)) as [->|]; [|discriminate]. cbn in E. apply Hfin; [exact (read_input_scan _ _ Eq)|exact E].
  - cbn in E. apply Hfin; [|exact E]. destruct (ck_source _ _ _ _ Hw r' p Hx) as (r & id & Hs & Hput' & Ha). exists r. split; [exact Hs|]. unfold other, origins_of in Eother. cbn [fst] in Eother. destruct (cs_origins (cw_copy work) !! ar_Addr r') as [a|].
    + apply negb_false_iff, Z.eqb_eq in Eother. congruence.
    + apply bool_decide_eq_false in Eother. symmetry. rewrite (put_payload_unique _ _ _ _ Hput' Hput) in Ha. apply Ha; [exact Er|exact Hi|]. destruct (ob_refs (cw_refs work) !! Addr ref) as [z|] eqn:Ez; [|reflexivity]. exfalso. apply Eother. destruct (ck_pending _ _ _ _ Hw (Addr ref) ltac:(eauto)) as [(y & Hy & _)|(_ & r1 & p1 & _ & Ho)]; [inversion Hy|]. apply list_elem_of_fmap. exists (ar_Addr r1, Addr ref). split; [reflexivity|now apply elem_of_map_to_list].
Qed.

Lemma read_input_of r p : (r, p) ∈ scan -> read_input scan (ar_Addr r) = Ok p.
Proof.
  intros Hin. unfold read_input. destruct (List.find _ _) as [[r0 q]|] eqn:E.
  - apply List.find_some in E as [E1 E2%Z.eqb_eq]. f_equal. symmetry. eapply (scan_unique inputs ids base scan Hsealed); [exact Hin|apply list_elem_of_In, E1|cbn in E2; congruence].
  - exfalso. pose proof (List.find_none _ _ E (r, p) (proj1 (list_elem_of_In _ _) Hin)) as X. cbn in X. now rewrite Z.eqb_refl in X.
Qed.

(** A record that a reference waits for is only skipped when its id is pending. *)
Lemma examine_skipped w work ids' x id ref : base_inv w -> x ∈ wd_outputs w -> matches work id ref x -> wd_entries w !! id = Some ref -> inp (Addr ref) -> publish_examine limits inputs (origins_of work) (verify_of scan work) (lookup_in w) ids' x = Ok None -> id ∈ ids'.
Proof.
  intros B Hx ((put & Hput & Hid) & (r & Hs & Ha) & Ho) E Hi Ex. unfold publish_examine in Ex. rewrite Hput in Ex. cbn in Ex. rewrite Hid, E in Ex. rewrite bool_decide_eq_true_2 in Ex by exact Hi. cbn [negb] in Ex. destruct (proj2 (proj2 (ro_outputs _ _ _ _ _ (bi_records _ _ _ _ _ _ B)) x Hx)) as [new Hnew]. rewrite Hnew in Ex.
  assert (Hother : match origins_of work !! ar_Addr x.1 with Some origin => negb (Addr ref =? origin) | None => bool_decide (Addr ref ∈ (map_to_list (origins_of work)).*2) end = false).
  { unfold origins_of. cbn [fst] in Ho. destruct (cs_origins (cw_copy work) !! ar_Addr x.1) as [a|]; [rewrite Ho, Z.eqb_refl; reflexivity|now apply bool_decide_eq_false]. }
  rewrite Hother in Ex. unfold verify_of in Ex. rewrite <- Ha in Ex. assert (Hend : (if bool_decide (id ∈ ids') then Ok None else Ok (Some (mkCopied id (ar_Addr r) new (len (put_Value put))))) = Ok None -> id ∈ ids') by (destruct (bool_decide_reflect (id ∈ ids')) as [Hin|]; [intros _; exact Hin|discriminate]).
  destruct (cw_resumed work); [rewrite (read_input_of r x.2 Hs) in Ex; cbn in Ex; rewrite bool_decide_eq_true_2 in Ex by reflexivity; now apply Hend|now apply Hend].
Qed.

(** ** The steps of the compaction *)

(** What every id reads as stays. *)
Definition keeps (w w' : world) : Prop :=
  (forall id ref p, wd_entries w !! id = Some ref -> holds w ref p -> exists ref', wd_entries w' !! id = Some ref' /\ holds w' ref' p) /\ (forall id, wd_entries w !! id = None -> wd_entries w' !! id = None).

Lemma keeps_same w w' : wd_entries w' = wd_entries w -> (forall x, x ∈ all_records w -> x ∈ all_records w') -> keeps w w'.
Proof. intros E Hm. split; rewrite E; [|auto]. intros id ref p Er Hp. exists ref. split; [exact Er|now apply (holds_mono base w)]. Qed.

Lemma base_frame w w' : base_inv w -> records_ok inputs ids base scan w' -> (forall x, x ∈ all_records w -> x ∈ all_records w') -> (forall id ref, wd_entries w' !! id = Some ref -> ref_put w' id ref) -> wd_heap w' = wd_heap w -> wd_open w' = wd_open w -> wd_admitting w' = wd_admitting w ->
  (forall h p, CUser h p ∈ wd_queue w' <-> CUser h p ∈ wd_queue w) -> queue_handles (wd_queue w') = queue_handles (wd_queue w) -> base_inv w'.
Proof.
  intros [B1 B2 B3 B4 B5 B6 B7 B8] R Hm He Eh Eo Ea Hq Eq. assert (Hreq : forall h p, request w' h p <-> request w h p) by (intros h p; unfold request; rewrite Ea, Hq; reflexivity). constructor; rewrite ?Eh, ?Eo, ?Ea, ?Eq; auto.
  - intros h b i m Hb Hi. apply (mut_ok_mono limits base w); [exact Hm|]. now apply (B3 h b i).
  - intros h p Hp. apply Hreq in Hp. exact (B6 h p Hp).
  - intros h b Hb Hs. destruct (B7 h b Hb Hs) as [p Hp]. exists p. now apply Hreq.
Qed.

Lemma base_phase w p : base_inv w -> base_inv (set_phase w p).
Proof. intros B. apply (base_frame w); [exact B|apply (records_same _ _ _ _ w); [reflexivity|reflexivity|apply B]|auto|exact (bi_entries _ _ _ _ _ _ B)|reflexivity..]. Qed.

Lemma pend_heap w w' s h ref : wd_heap w' = wd_heap w -> pend w' s h ref -> pend w s h ref.
Proof. intros E. unfold CompactionSteps.pend. now rewrite E. Qed.

Lemma holds_phase w p ref q : holds (set_phase w p) ref q <-> holds w ref q.
Proof. reflexivity. Qed.

Lemma gc_snapshot w h b todo acc : base_inv w -> phase_inv w -> wd_phase w = Snapshotting (h :: todo) acc -> wd_heap w !! h = Some b -> phase_inv (set_phase w (Snapshotting todo (snapshot_batch inputs h b acc))).
Proof.
  intros B P Ep Hb. unfold phase_inv in *. rewrite Ep in P. cbn [set_phase wd_phase]. destruct P as (P1 & P2 & P3 & P4 & P5 & P6). destruct (snapshot_batch_spec h b acc) as (S1 & S2 & S3 & S4). repeat (split; [assumption|]). split.
  - intros a Ha. destruct (S4 a Ha) as [Ha'|(ref & Hin & <- & Hi)]; [auto|]. apply (pend_put w (ba_state b) h ref B). apply pend_refs. eauto.
  - intros s k ref Hp. apply (pend_heap w) in Hp; [|reflexivity]. destruct (decide (k = h)) as [->|Hne].
    + right. apply pend_refs in Hp as (b' & Hb' & _ & Hin & Hi). assert (b' = b) by congruence. subst b'. now apply S3.
    + destruct (P6 s k ref Hp) as [Hk|[K1 K2]]; [|right; split; auto]. apply elem_of_cons in Hk as [Hk|Hk]; [contradiction|now left].
Qed.

Lemma gc_copy_start w acc : base_inv w -> phase_inv w -> wd_phase w = Snapshotting [] acc -> phase_inv (set_phase w (Copying scan (mkWork acc (mkCopy zeroRelocated ∅ ∅ 0) false))).
Proof.
  intros B P Ep. unfold phase_inv in *. rewrite Ep in P. cbn [set_phase wd_phase]. destruct P as (P1 & P2 & P3 & P4 & P5 & P6). cbn [cw_refs cw_copy]. assert (Eo : wd_outputs (set_phase w (Copying scan (mkWork acc (mkCopy zeroRelocated ∅ ∅ 0) false))) = []) by exact P3.
  split; [exact P1|]. split; [exact P2|]. split; [cbn; now rewrite P3|]. split; [intros s h ref Hp; apply (pend_heap w) in Hp; [|reflexivity]; destruct (P6 s h ref Hp) as [Hk|Hk]; [inversion Hk|exact Hk]|].
  constructor; rewrite ?Eo; cbn [cs_origins cs_redirects]; auto.
  - intros k a E. rewrite lookup_empty in E. discriminate.
  - intros r' p Hin. inversion Hin.
  - intros id ref E Hi _. left. destruct (bi_entries _ _ _ _ _ _ B id ref E) as (p & Hp & _). destruct (holds_input inputs ids base scan Hsealed w ref p (bi_records _ _ _ _ _ _ B) Hp Hi) as (r & S1 & S2). exists (r, p). auto.
  - intros a Ha. left. destruct (P5 a Ha) as (x & id & Hx & Ex & _). eauto.
  - intros a new E. rewrite lookup_empty in E. discriminate.
Qed.

Lemma gc_copy w x todo work paced wr outs st : base_inv w -> phase_inv w -> wd_phase w = Copying (x :: todo) work ->
  copy_record output_append limits rl (ob_refs (cw_refs work)) (lookup_in w) paced x (wd_writer w, wd_outputs w) (cw_copy work) = ((wr, outs), (st, Ok tt)) ->
  let w' := set_phase (set_writer w wr outs) (Copying todo (mkWork (cw_refs work) st false)) in base_inv w' /\ phase_inv w' /\ keeps w w'.
Proof.
  intros B P Ep E w'. unfold phase_inv in *. rewrite Ep in P. destruct P as (P1 & P2 & P3 & P4 & P5). apply copy_record_cases in E.
  assert (Hext : (exists new, outs = wd_outputs w ++ new) /\ ow_written wr outs /\ copied_ok (ob_refs (cw_refs work)) st todo w').
  { destruct E as [(Hs & -> & -> & E1 & E2)|(put & r & Hc)].
    - split; [exists []; now rewrite app_nil_r|]. split; [exact P3|]. now apply (copy_skipped w _ (cw_copy work) st x).
    - split; [exists [(r, x.2)]; exact (proj2 (c1_append _ _ _ _ _ _ _ _ _ Hc))|]. now apply (copy_copied w _ (cw_copy work) st x todo wr outs put r w'). }
  destruct Hext as ([new En] & Hw & C). assert (Hm : forall y, y ∈ all_records w -> y ∈ all_records w') by (intros y; unfold CompactionSteps.all_records, w'; cbn; rewrite En, !elem_of_app; tauto).
  assert (R : records_ok inputs ids base scan w') by (destruct (bi_records _ _ _ _ _ _ B) as [R1 R2 R3]; constructor; cbn; auto; split; [exact (ow_distinct _ _ Hw)|intros y Hy; exact (ow_segment _ _ _ Hw Hy)]).
  split; [|split; [|now apply keeps_same]].
  - apply (base_frame w); [exact B|exact R|exact Hm| |reflexivity..]. intros id ref Er. apply (ref_put_mono limits base w); [exact Hm|]. exact (bi_entries _ _ _ _ _ _ B id ref Er).
  - cbn [w' set_phase wd_phase cw_refs cw_copy]. split; [exact P1|]. split; [exact P2|]. split; [exact Hw|]. split; [|exact C]. intros s h ref Hp. apply (pend_heap w) in Hp; [|reflexivity]. eauto.
Qed.

(** Steps that change neither batches nor records, with a queue of the same requests. *)
Lemma gc_queue w w' : base_inv w -> wd_log w' = wd_log w -> wd_outputs w' = wd_outputs w -> wd_entries w' = wd_entries w -> wd_heap w' = wd_heap w -> wd_open w' = wd_open w -> wd_admitting w' = wd_admitting w ->
  (forall h p, CUser h p ∈ wd_queue w' <-> CUser h p ∈ wd_queue w) -> queue_handles (wd_queue w') = queue_handles (wd_queue w) -> base_inv w' /\ keeps w w'.
Proof.
  intros B E1 E2 E3 E4 E5 E6 Hq Eq. assert (Hm : forall x, x ∈ all_records w -> x ∈ all_records w') by (unfold CompactionSteps.all_records; rewrite E1, E2; auto). split; [|now apply keeps_same].
  apply (base_frame w); auto; [apply (records_same _ _ _ _ w); auto; apply B|]. rewrite E3. intros id ref E. apply (ref_put_mono limits base w); [exact Hm|]. exact (bi_entries _ _ _ _ _ _ B id ref E).
Qed.

Lemma control_cons c rest pre c' post : no_control pre -> (forall h p, c <> CUser h p) -> c :: rest = pre ++ c' :: post -> pre = [] /\ c = c' /\ rest = post.
Proof.
  intros Hp Hc E. destruct pre as [|x pre]; cbn in E; [injection E as -> ->; auto|]. injection E as <- _. destruct (Hp c ltac:(now left)) as (h & p & ->). now destruct (Hc h p).
Qed.

(** The copied state after the last pause has the same maps. *)
Lemma copied_paced refs st st' w w' : copied_ok refs st [] w -> cs_redirects st' = cs_redirects st -> cs_origins st' = cs_origins st -> wd_outputs w' = wd_outputs w -> wd_entries w' = wd_entries w -> copied_ok refs st' [] w'.
Proof. intros [C1 C2 C3 C4 C5 C6 C7] E1 E2 E3 E4. constructor; rewrite ?E1, ?E2, ?E3, ?E4; auto. Qed.

Lemma gc_copied w work paced st : base_inv w -> phase_inv w -> wd_phase w = Copying [] work -> paceCopy rl true paced (cw_copy work) = (st, Ok tt) ->
  let w' := set_queue (set_phase w (Installing (mkWork (cw_refs work) st false))) (wd_queue w ++ [CInstall (cs_redirects st)]) in base_inv w' /\ phase_inv w' /\ keeps w w'.
Proof.
  intros B P Ep Hp w'. apply paceCopy_maps in Hp as [E1 E2]. destruct (gc_queue w w') as [B' K]; auto.
  - cbn. intros h p. rewrite elem_of_app, list_elem_of_singleton. split; [intros [H|H]; [exact H|discriminate]|auto].
  - cbn. rewrite queue_handles_app. cbn. apply app_nil_r.
  - split; [exact B'|]. split; [|exact K]. unfold phase_inv in *. rewrite Ep in P. destruct P as (P1 & P2 & P3 & P4 & P5). cbn [w' set_queue set_phase wd_phase cw_refs cw_copy cw_resumed]. split; [exact P1|]. split; [exists (wd_queue w), []; repeat split; auto; intros c Hc; inversion Hc|]. split; [|split; [|reflexivity]].
    + intros s h ref H. apply (pend_heap w) in H; [|reflexivity]. eauto.
    + now apply (copied_paced _ (cw_copy work) _ w).
Qed.

Lemma gc_copied_none w work paced st : base_inv w -> phase_inv w -> wd_phase w = Copying [] work -> paceCopy rl true paced (cw_copy work) = (st, Ok tt) -> Z.of_nat (size (cs_redirects st)) = Z.of_nat (size (ob_refs (cw_refs work))) -> cs_redirects st = ∅ ->
  phase_inv (set_phase w (start_publish w (mkWork (cw_refs work) st false))).
Proof.
  intros B P Ep Hp Hs Hr. apply paceCopy_maps in Hp as [E1 E2]. unfold phase_inv in *. rewrite Ep in P. destruct P as (P1 & P2 & P3 & P4 & P5). cbn [set_phase wd_phase start_publish]. assert (He : ob_refs (cw_refs work) = ∅) by (apply map_size_empty_inv; rewrite Hr, map_size_empty in Hs; lia).
  split; [|intros id; cbn; split; [intros H; now apply not_elem_of_empty in H|intros H; inversion H]]. apply (start_ok w); auto.
  - constructor; [exact P1|exact P2|]. intros s h ref H. apply (pend_heap w) in H; [|reflexivity]. destruct (P4 _ _ _ H) as [[y Hy] _]. rewrite He, lookup_empty in Hy. discriminate.
  - unfold publishable. cbn [cw_resumed cw_refs cw_copy]. now apply (copied_paced _ (cw_copy work) _ w).
Qed.

Lemma gc_install w work m rest : base_inv w -> phase_inv w -> wd_phase w = Installing work -> wd_queue w = CInstall m :: rest -> let w' := set_phase (set_redirects (set_queue w rest) m) (Rewriting (ob_batches (cw_refs work)) work) in base_inv w' /\ phase_inv w' /\ keeps w w'.
Proof.
  intros B P Ep Hq w'. destruct (gc_queue w w') as [B' K]; auto.
  - cbn. intros h p. rewrite Hq, elem_of_cons. split; [auto|intros [H|H]; [discriminate|exact H]].
  - cbn. now rewrite Hq.
  - split; [exact B'|]. split; [|exact K]. unfold phase_inv in *. rewrite Ep in P. destruct P as (P1 & (pre & post & Eq & Q1 & Q2) & P3 & P4 & P5). rewrite Hq in Eq. destruct (control_cons (CInstall m) rest pre _ post Q1 (fun _ _ H => ltac:(discriminate H)) Eq) as (-> & [= ->] & ->). cbn [w' set_queue set_phase set_redirects wd_phase]. split; [reflexivity|]. split; [exact Q2|]. split; [|split; [|exact P5]].
    + intros s h ref H. apply (pend_heap w) in H; [|reflexivity]. split; [eauto|]. intros _. exact (proj2 (P3 _ _ _ H)).
    + now apply (copied_paced _ (cw_copy work) _ w).
Qed.

Lemma gc_release w work : base_inv w -> phase_inv w -> wd_phase w = Rewriting [] work -> wd_admitting w = ∅ -> let w' := set_queue (set_phase w (Releasing work)) (wd_queue w ++ [CRelease]) in base_inv w' /\ phase_inv w' /\ keeps w w'.
Proof.
  intros B P Ep Ha w'. destruct (gc_queue w w') as [B' K]; auto.
  - cbn. intros h p. rewrite elem_of_app, list_elem_of_singleton. split; [intros [H|H]; [exact H|discriminate]|auto].
  - cbn. rewrite queue_handles_app. cbn. apply app_nil_r.
  - split; [exact B'|]. split; [|exact K]. unfold phase_inv in *. rewrite Ep in P. destruct P as (P1 & P2 & P3 & P4 & P5). cbn [w' set_queue set_phase wd_phase]. split; [exact P1|]. split; [|split; [|split; [|exact P5]]].
    + exists (wd_queue w), []. split; [reflexivity|]. split; [exact P2|]. split; [intros c Hc; inversion Hc|]. split; [intros h p Hc; inversion Hc|]. cbn. rewrite Ha. intros h p H. rewrite lookup_empty in H. discriminate.
    + intros s h ref H. apply (pend_heap w) in H; [|reflexivity]. destruct (P3 _ _ _ H) as [H1 H2]. split; [exact H1|]. destruct H as (b & i & m & _ & _ & [Hl|Hl] & _); [|exact Hl]. specialize (H2 Hl). inversion H2.
    + now apply (copied_paced _ (cw_copy work) _ w).
Qed.

Lemma gc_released w work rest : base_inv w -> phase_inv w -> wd_phase w = Releasing work -> wd_queue w = CRelease :: rest -> let w' := set_phase (set_redirects (set_queue w rest) ∅) (start_publish w work) in base_inv w' /\ phase_inv w' /\ keeps w w'.
Proof.
  intros B P Ep Hq w'. destruct (gc_queue w w') as [B' K]; auto.
  - cbn. intros h p. rewrite Hq, elem_of_cons. split; [auto|intros [H|H]; [discriminate|exact H]].
  - cbn. now rewrite Hq.
  - split; [exact B'|]. split; [|exact K]. unfold phase_inv in *. rewrite Ep in P. destruct P as (P1 & (pre & post & Eq & Q1 & Q2 & Q3 & Q4) & P3 & P4 & P5). rewrite Hq in Eq. destruct (control_cons CRelease rest pre _ post Q1 (fun _ _ H => ltac:(discriminate H)) Eq) as (-> & _ & ->).
    cbn [w' set_queue set_phase set_redirects wd_phase start_publish]. split; [|intros id; cbn; split; [intros H; now apply not_elem_of_empty in H|intros H; inversion H]]. apply (start_ok w); auto; [|unfold publishable; now rewrite P5]. constructor; [reflexivity|exact Q2|].
    intros s h ref H. apply (pend_heap w) in H; [|reflexivity]. destruct (P3 _ _ _ H) as [_ Es]. destruct H as (b & i & m & Hb & Hst & _ & Hm & Ho & Hr & Hi). destruct (bi_committing _ _ _ _ _ _ B h b Hb) as [p Hp]; [congruence|]. destruct (bi_request _ _ _ _ _ _ B h p Hp) as (b' & Hb' & _ & Hms). assert (b' = b) by congruence. subst b'. assert (Hin : m ∈ pp_Mutations p) by (apply Hms; eauto).
    assert (Hclean : clean p) by (destruct Hp as [Hp|Hp]; [eauto|]; rewrite Hq in Hp; apply elem_of_cons in Hp as [Hp|Hp]; [discriminate|eauto]). apply (Hclean m Hin Ho). now rewrite Hr.
Qed.

(** *** Rewriting an open batch *)

Lemma RewritePutRefs_same b m : let b' := (RewritePutRefs b m).1 in ba_state b' = ba_state b /\ ba_id b' = ba_id b /\ ba_limits b' = ba_limits b /\ (ba_state b <> StateOpen -> b' = b) /\
  (ba_state b = StateOpen -> forall i x, ba_mutations b' !! i = Some x -> exists y, ba_mutations b !! i = Some y /\ x = redirect_mutation m y).
Proof.
  unfold RewritePutRefs. case_bool_decide as Em; [|destruct (ba_state b) eqn:Es; cbn; repeat (split; [congruence|]); try (intros; discriminate)].
  - cbn. repeat (split; [auto|]). subst m. intros _ i x Hx. exists x. split; [exact Hx|]. unfold redirect_mutation. destruct (negb _); [reflexivity|]. now rewrite lookup_empty.
  - intros _ i x. rewrite lookup_fmap. destruct (ba_mutations b !! i) as [y|]; [|discriminate]. intros [= <-]. eauto.
Qed.

(** A redirected reference is not in the inputs. *)
Lemma redirected_away w work m : base_inv w -> copied_ok (ob_refs (cw_refs work)) (cw_copy work) [] w -> bm_Operation m = OpPut -> inp (Addr (bm_Ref (redirect_mutation (cs_redirects (cw_copy work)) m))) -> redirect_mutation (cs_redirects (cw_copy work)) m = m /\ cs_redirects (cw_copy work) !! Addr (bm_Ref m) = None.
Proof.
  intros B C Ho Hi. unfold redirect_mutation in *. rewrite Ho, Z.eqb_refl in *. cbn [negb] in *. destruct (cs_redirects (cw_copy work) !! Addr (bm_Ref m)) as [new|] eqn:En; [|auto]. exfalso. cbn in Hi. destruct (ck_redirects _ _ _ _ C _ _ En) as (r' & p & r & K1 & K2 & _). destruct (Ref_addr _ _ K2) as [Ea _]. apply (not_output _ Hi). rewrite Ea. exact (proj1 (proj2 (ro_outputs _ _ _ _ _ (bi_records _ _ _ _ _ _ B)) _ K1)).
Qed.

Lemma gc_rewrite w h b todo work : base_inv w -> phase_inv w -> wd_phase w = Rewriting (h :: todo) work -> wd_heap w !! h = Some b ->
  let w' := set_phase (set_heap w h (RewritePutRefs b (cs_redirects (cw_copy work))).1) (Rewriting todo work) in base_inv w' /\ phase_inv w' /\ keeps w w'.
Proof.
  intros B P Ep Hb w'. pose proof (user_keeps w B P ltac:(rewrite Ep; discriminate)) as Hkeep. unfold phase_inv in *. rewrite Ep in P. destruct P as (P1 & P2 & P3 & P4 & P5). destruct (RewritePutRefs_same b (cs_redirects (cw_copy work))) as (S1 & S2 & S3 & S4 & S5). set (b' := (RewritePutRefs b _).1) in *.
  assert (Hmut : forall i m, ba_mutations b' !! i = Some m -> ba_mutations b !! i = Some m \/ ba_state b = StateOpen /\ exists y, ba_mutations b !! i = Some y /\ m = redirect_mutation (cs_redirects (cw_copy work)) y).
  { intros i m Hm. destruct (decide (ba_state b = StateOpen)) as [Ho|Ho]; [right; split; [exact Ho|now apply S5]|left; now rewrite (S4 Ho) in Hm]. }
  assert (Hch : batch_change limits inputs base w h b b' w').
  { constructor; [reflexivity|auto|rewrite S1; auto| |reflexivity|].
    - intros i m Hm. destruct (Hmut i m Hm) as [Hm'|(Ho & y & Hy & ->)]; [split; [exact (bi_heap _ _ _ _ _ _ B h b i m Hb Hm')|eauto]|]. split.
      + rewrite <- P1. exact (redirect_ok_mut limits base w y Hkeep (bi_heap _ _ _ _ _ _ B h b i y Hb Hy)).
      + intros Hop Hi. destruct (redirect_same (cs_redirects (cw_copy work)) y) as (_ & Eo & _). rewrite Eo in Hop. destruct (redirected_away w work y B P4 Hop Hi) as [-> _]. eauto.
    - rewrite S1. split; [intros Hs; destruct (bi_committing _ _ _ _ _ _ B h b Hb Hs) as [p Hp]; exists p; exact Hp|]. intros p Hp. destruct (bi_request _ _ _ _ _ _ B h p Hp) as (x & Hx & Hs & Hm). assert (x = b) by congruence. subst x. rewrite (S4 ltac:(congruence)). auto. }
  split; [|split; [|now apply keeps_same]].
  - apply (batch_change_base limits inputs ids base scan w w' h b b'); auto; [apply (records_same _ _ _ _ w); auto; apply B|exact (bi_entries _ _ _ _ _ _ B)|exact (bi_once _ _ _ _ _ _ B)].
  - cbn [w' set_phase wd_phase]. split; [exact P1|]. split; [exact P2|]. split; [|split; [now apply (copied_paced _ (cw_copy work) _ w)|exact P5]].
    intros s k ref Hp. destruct (batch_change_pend limits inputs base w w' h b b' Hb Hch s k ref Hp) as (s' & Hp' & Hs). destruct (P3 _ _ _ Hp') as [K1 K2]. split; [exact K1|]. intros Ho. specialize (K2 (Hs Ho)). apply elem_of_cons in K2 as [->|K2]; [|exact K2]. exfalso.
    destruct Hp as (x & i & m & Hx & Hst & _ & Hm & Hop & Hr & Hi). cbn in Hx. rewrite lookup_insert_eq in Hx. injection Hx as <-. rewrite S1, Ho in Hst. destruct (S5 Hst i m Hm) as (y & Hy & ->). subst ref. destruct (redirect_same (cs_redirects (cw_copy work)) y) as (_ & Eo & _). rewrite Eo in Hop. destruct (redirected_away w work y B P4 Hop Hi) as [E1 E2]. rewrite E1 in *. destruct (ck_pending _ _ _ _ P4 _ (proj1 K1)) as [(z & Hz & _)|[[z Hz] _]]; [inversion Hz|congruence].
Qed.

(** *** Publishing steps *)

Lemma publish_ok_phase work todo items w p : publish_ok work todo items w -> publish_ok work todo items (set_phase w p).
Proof.
  intros P. apply (publish_shrinks work todo items w); auto. destruct (pk_calm _ _ _ _ P) as [C1 C2 C3]. constructor; auto.
Qed.

Lemma publish_skips work x todo items ids' w : base_inv w -> publish_ok work (x :: todo) items w -> (forall id, id ∈ ids' <-> id ∈ map cp_id items) -> publish_examine limits inputs (origins_of work) (verify_of scan work) (lookup_in w) ids' x = Ok None -> publish_ok work todo items w.
Proof.
  intros B [P1 P2 P3 P4 P5 P6 P7] Hids Hx. constructor; auto; [intros y Hy; apply P3; now right|]. intros id ref E Hi. destruct (P7 id ref E Hi) as [(y & Hy & Hm)|H]; [|now right]. apply elem_of_cons in Hy as [->|Hy]; [|left; eauto]. right. pose proof (examine_skipped w work ids' x id ref B (P3 x ltac:(now left)) Hm E Hi Hx) as Hin. apply Hids, list_elem_of_In, in_map_iff in Hin as (c & Ec & Hc). exists c. split; [now apply list_elem_of_In|exact Ec].
Qed.

Lemma publish_adds work x todo items ids' w c : base_inv w -> publish_ok work (x :: todo) items w -> (forall id, id ∈ ids' <-> id ∈ map cp_id items) -> publish_examine limits inputs (origins_of work) (verify_of scan work) (lookup_in w) ids' x = Ok (Some c) -> publish_ok work todo (items ++ [c]) w.
Proof.
  intros B [P1 P2 P3 P4 P5 P6 P7] Hids Hx. destruct (examine_found w work ids' x c B P2 (P3 x ltac:(now left)) Hx) as (F1 & F2 & F3 & ref0 & F4 & F5). constructor; auto.
  - intros y Hy. apply P3. now right.
  - rewrite map_app. apply NoDup_app. split; [exact P4|]. split; [|apply NoDup_singleton]. intros k Hk Hk'. apply list_elem_of_singleton in Hk'. subst k. apply F2, Hids, Hk.
  - intros k [Hk|Hk]%elem_of_app; [auto|]. apply list_elem_of_singleton in Hk. now subst k.
  - intros k ref [Hk|Hk]%elem_of_app E Hi; [auto|]. apply list_elem_of_singleton in Hk. subst k. congruence.
  - intros id ref E Hi. destruct (P7 id ref E Hi) as [(y & Hy & Hm)|(k & Hk & Ek)]; [|right; exists k; split; [apply elem_of_app; now left|exact Ek]]. apply elem_of_cons in Hy as [->|Hy]; [|left; eauto]. right. exists c. split; [apply elem_of_app; right; now left|]. exact (put_payload_unique _ _ _ _ F3 (proj1 Hm)).
Qed.

Lemma item_new w c : base_inv w -> item_ok w c -> SegmentID (Addr (cp_newRef c)) ∈ ids /\ inp (cp_oldAddr c) /\ ref_put w (cp_id c) (cp_newRef c) /\ forall ref p, Addr ref = cp_oldAddr c -> holds w ref p -> holds w (cp_newRef c) p.
Proof.
  intros B (r & p & r' & H1 & H2 & H3 & H4 & H5). destruct (Ref_addr _ _ H4) as [Ea _]. assert (Hn : holds w (cp_newRef c) p) by (exists r'; split; [unfold CompactionSteps.all_records; rewrite !elem_of_app; auto|exact H4]). assert (Hi : inp (cp_oldAddr c)) by (rewrite <- H2; exact (si_segment _ _ _ _ Hsealed _ H1)). split; [rewrite Ea; exact (proj1 (proj2 (ro_outputs _ _ _ _ _ (bi_records _ _ _ _ _ _ B)) _ H3))|]. split; [exact Hi|]. split; [exists p; auto|].
  intros ref q E Hq. rewrite <- E in Hi. destruct (holds_input inputs ids base scan Hsealed w ref q (bi_records _ _ _ _ _ _ B) Hq Hi) as (r0 & S1 & S2). assert (q = p) by (eapply (scan_unique inputs ids base scan Hsealed); eauto; congruence). now subst q.
Qed.

Lemma publish_moves work todo done items w s : base_inv w -> publish_ok work todo (done ++ items) w -> moved done (wd_entries w) s -> (forall c, c ∈ done -> forall r, s !! cp_id c = Some r -> Addr r = cp_oldAddr c -> Addr (cp_newRef c) = cp_oldAddr c) ->
  base_inv (set_entries w s) /\ publish_ok work todo items (set_entries w s) /\ keeps w (set_entries w s).
Proof.
  intros B P Hm Hdone. pose proof P as [P1 P2 P3 P4 P5 P6 P7]. assert (Hitem : forall c, c ∈ done -> item_ok w c) by (intros c Hc; apply P5, elem_of_app; now left).
  assert (Hback : forall id ref, s !! id = Some ref -> inp (Addr ref) -> wd_entries w !! id = Some ref). { intros id ref E Hi. destruct (Hm id) as [H|(c & r & Hc & _ & _ & _ & En)]; [congruence|]. exfalso. assert (ref = cp_newRef c) by congruence. subst ref. exact (not_output _ Hi (proj1 (item_new w c B (Hitem c Hc)))). }
  split; [|split].
  - apply (base_frame w); [exact B|apply (records_same _ _ _ _ w); [reflexivity|reflexivity|apply B]|auto| |reflexivity..]. cbn. intros id ref E. destruct (Hm id) as [H|(c & r & Hc & Hid & _ & _ & En)]; [apply (bi_entries _ _ _ _ _ _ B); congruence|]. assert (ref = cp_newRef c) by congruence. subst ref id. exact (proj1 (proj2 (proj2 (item_new w c B (Hitem c Hc))))).
  - assert (P' : publish_ok work todo (done ++ items) (set_entries w s)) by (apply (publish_shrinks work todo _ w); auto; destruct P1 as [C1 C2 C3]; constructor; auto). destruct P' as [Q1 Q2 Q3 Q4 Q5 Q6 Q7]. rewrite map_app in Q4. apply NoDup_app in Q4 as (_ & _ & Q4). constructor; auto.
    + intros c Hc. apply Q5, elem_of_app. now right.
    + intros c ref Hc. apply Q6, elem_of_app. now right.
    + intros id ref E Hi. destruct (Q7 id ref E Hi) as [H|(c & [Hc|Hc]%elem_of_app & Ec)]; [now left| |right; eauto]. exfalso. subst id. cbn in E. assert (Ha : Addr ref = cp_oldAddr c) by (apply P6; [apply elem_of_app; now left|now apply Hback|exact Hi]). pose proof (Hdone c Hc ref E Ha) as Hn. destruct (item_new w c B (Hitem c Hc)) as (N1 & N2 & _). rewrite Hn in N1. exact (not_output _ N2 N1).
  - split; cbn.
    + intros id ref p E Hp. destruct (Hm id) as [H|(c & r & Hc & Hid & Er & Ea & En)]; [exists ref; rewrite H; auto|]. exists (cp_newRef c). split; [exact En|]. assert (r = ref) by congruence. subst r. exact (proj2 (proj2 (proj2 (item_new w c B (Hitem c Hc)))) ref p Ea Hp).
    + intros id E. destruct (Hm id) as [H|(c & r & _ & _ & Er & _)]; congruence.
Qed.

(** A plain change of phase. *)
Lemma gc_phase w p : base_inv w -> phase_inv (set_phase w p) -> base_inv (set_phase w p) /\ phase_inv (set_phase w p) /\ keeps w (set_phase w p).
Proof. intros B P. split; [now apply base_phase|]. split; [exact P|]. now apply keeps_same. Qed.

Lemma gc_relocate w copied next todo ps work count bytes batchID result : base_inv w -> phase_inv w -> wd_phase w = Flushing copied next todo ps work ->
  let w' := set_phase (set_entries w (spec_proposal (wd_entries w) (relocationProposal (relocation_of batchID bytes (take count copied)))))
              (Flushing (drop count copied) next todo (mkPublishing (pb_pending ps) (pb_ids ps) (pb_bytes ps) (sr_published (pb_result ps) result)) work) in base_inv w' /\ phase_inv w' /\ keeps w w'.
Proof.
  intros B P Ep w'. unfold phase_inv in *. rewrite Ep in P. destruct P as [P Pn]. rewrite <- (take_drop count copied), <- app_assoc in P. assert (Hn : NoDup (map cp_id (take count copied))) by (pose proof (pk_distinct _ _ _ _ P) as Hn; rewrite map_app in Hn; now apply NoDup_app in Hn as [Hn _]).
  destruct (relocation_moves (wd_entries w) batchID bytes (take count copied) Hn) as [M1 M2]. destruct (publish_moves _ _ _ _ w _ B P M1 M2) as (B' & P' & K). split; [now apply (base_phase (set_entries w _))|]. split; [|exact K]. split; [now apply publish_ok_phase|exact Pn].
Qed.

Lemma gc_flushed w next todo ps work : base_inv w -> phase_inv w -> wd_phase w = Flushing [] next todo ps work -> phase_inv (set_phase w (after_flush next todo ps work)).
Proof.
  intros B P Ep. unfold phase_inv in *. rewrite Ep in P. destruct P as [P Pn]. unfold after_flush. cbn [set_phase wd_phase]. destruct next as [c|].
  - split; [now apply publish_ok_phase|]. cbn. intros id. rewrite elem_of_union, elem_of_singleton, list_elem_of_singleton. split; [intros [H|H]; [exact H|now apply not_elem_of_empty in H]|now left].
  - apply (publish_ok_phase _ _ _ _ Finished) in P. rewrite (Pn eq_refl) in P. destruct P as [P1 P2 P3 P4 P5 P6 P7]. split; [exact P1|]. intros id ref E Hi. destruct (P7 id ref E Hi) as [(x & Hx & _)|(c & Hc & _)]; [inversion Hx|inversion Hc].
Qed.

(** *** Every step keeps the invariant and every value. *)
Lemma gc_step_inv w w' : invariant w -> gc_step limits rl inputs scan w w' -> invariant w' /\ keeps w w'.
Proof.
  intros Hinv H. assert (Hst : (exists e, w' = set_phase w (Stopped e)) \/ base_inv w /\ phase_inv w). { destruct Hinv as [[e He]|Hinv]; [left|now right]. destruct H; try congruence. eauto. }
  destruct Hst as [[e ->]|[B P]]; [split; [left; eexists; reflexivity|now apply keeps_same]|]. clear Hinv. cut (base_inv w' /\ phase_inv w' /\ keeps w w'); [intros (B' & P' & K); split; [right; auto|exact K]|].
  destruct H as [h b todo acc Ep Hb|acc Ep|x todo work paced wr outs st Ep E|work paced st Ep E _ _|work paced st Ep E Hs Hr|work m rest Ep Hq _|h b todo work Ep Hb|work Ep Ha|work rest Ep Hq|x todo ps work Ep E|x todo ps work c Ep E _|x todo ps work c Ep E _|ps work Ep|next todo ps work Ep|copied next todo ps work count bytes batchID result Ep _ _ _|copied next todo ps work Ep|work Ep|e].
  - apply gc_phase; [exact B|now apply gc_snapshot].
  - apply gc_phase; [exact B|now apply gc_copy_start].
  - now apply (gc_copy w x todo work paced).
  - now apply (gc_copied w work paced).
  - apply gc_phase; [exact B|now apply (gc_copied_none w work paced)].
  - now apply gc_install.
  - now apply gc_rewrite.
  - now apply gc_release.
  - now apply gc_released.
  - apply gc_phase; [exact B|]. unfold phase_inv in *. rewrite Ep in P. destruct P as [P Hids]. cbn [set_phase wd_phase publish_skip pb_pending pb_ids]. split; [|exact Hids]. apply publish_ok_phase. now apply (publish_skips work x todo _ (pb_ids ps)).
  - apply gc_phase; [exact B|]. unfold phase_inv in *. rewrite Ep in P. destruct P as [P Hids]. cbn [set_phase wd_phase publish_add pb_pending pb_ids]. split; [apply publish_ok_phase; now apply (publish_adds work x todo _ (pb_ids ps))|]. intros id. rewrite map_app. cbn [map]. rewrite elem_of_union, elem_of_app, elem_of_singleton, list_elem_of_singleton, Hids. tauto.
  - apply gc_phase; [exact B|]. unfold phase_inv in *. rewrite Ep in P. destruct P as [P Hids]. cbn [set_phase wd_phase option_list]. split; [|discriminate]. apply publish_ok_phase. now apply (publish_adds work x todo _ (pb_ids ps)).
  - apply gc_phase; [exact B|]. unfold phase_inv in *. rewrite Ep in P. destruct P as [P Hids]. cbn [set_phase wd_phase option_list]. rewrite app_nil_r. split; [now apply publish_ok_phase|reflexivity].
  - apply gc_phase; [exact B|now apply gc_flushed].
  - now apply gc_relocate.
  - apply gc_phase; [exact B|]. unfold phase_inv in *. rewrite Ep in P. destruct P as [P _]. apply (publish_ok_phase _ _ _ _ (Waiting work)) in P. cbn [set_phase wd_phase]. exact (conj (pk_calm _ _ _ _ P) (pk_work _ _ _ _ P)).
  - apply gc_phase; [exact B|]. unfold phase_inv in *. rewrite Ep in P. destruct P as [[C1 C2 C3] P2]. cbn [set_phase wd_phase start_publish]. split; [|intros id; cbn; split; [intros H; now apply not_elem_of_empty in H|intros H; inversion H]]. apply (start_ok w); auto. constructor; auto.
  - apply gc_phase; [exact B|exact I].
Qed.

Lemma decide_stopped w : (exists e, wd_phase w = Stopped e) \/ forall e, wd_phase w <> Stopped e.
Proof. destruct (wd_phase w) as [| | | | | | | | |e] eqn:E; try (right; intros; discriminate). left. eauto. Qed.

Lemma gc_run_step_inv w w' : invariant w -> step limits rl inputs ids scan w w' -> invariant w'.
Proof.
  intros Hinv [H|H]; [|now apply (gc_step_inv w)]. destruct Hinv as [[e He]|[B P]].
  - left. exists e. destruct H; exact He.
  - destruct (decide_stopped w) as [[e He]|Hns]; [left; exists e; destruct H; exact He|]. right. destruct (user_step_inv limits inputs ids base scan Hsealed w w' B (user_keeps w B P Hns) Hns H) as [B' F]. split; [exact B'|]. now apply (user_phase w).
Qed.

Lemma run_inv w w' : invariant w -> rtc (step limits rl inputs ids scan) w w' -> invariant w'.
Proof. intros Hinv H. induction H as [|? ? ? Hs _ IH]; [exact Hinv|]. apply IH. now apply (gc_run_step_inv _ _ Hinv). Qed.

(** ** The start of a compaction *)

(** A new compaction with no output yet, or one that is resumed before any batch is
    opened, whose outputs hold a copy of every record in use. *)
Record started (w : world) : Prop := mkStarted {
  sd_base : base_inv w;
  sd_redirects : wd_redirects w = ∅;
  sd_queue : no_control (wd_queue w);
  sd_phase : (wd_phase w = Snapshotting (elements (wd_open w)) (mkOpenRefs ∅ []) /\ wd_outputs w = [] /\ ow_written (wd_writer w) []) \/
    (exists refs, wd_phase w = Waiting (mkWork refs (mkCopy zeroRelocated ∅ ∅ 0) true) /\ wd_heap w = ∅ /\ forall id ref p, wd_entries w !! id = Some ref -> inp (Addr ref) -> holds w ref p -> exists r', (r', p) ∈ wd_outputs w);
}.

Lemma started_inv w : started w -> invariant w.
Proof.
  intros [B Hr Hq Hp]. right. split; [exact B|]. unfold phase_inv. destruct Hp as [(-> & Ho & Hw)|(refs & -> & Hh & Hs)].
  - repeat (split; [assumption|]). split; [intros a [x Hx]; cbn in Hx; rewrite lookup_empty in Hx; discriminate|]. intros s h ref (b & i & m & Hb & Hst & Hl & _). left. apply elem_of_elements. subst s. exact (bi_open _ _ _ _ _ _ B h b Hb Hl).
  - split; [|unfold publishable; cbn; auto]. constructor; auto. intros s h ref (b & i & m & Hb & _). rewrite Hh, lookup_empty in Hb. discriminate.
Qed.

(** Nothing that can still become visible refers to the inputs. *)
Record unreferenced (w : world) : Prop := mkUnreferenced {
  un_mapping : forall id ref, wd_entries w !! id = Some ref -> ~ inp (Addr ref);
  un_batches : forall h b i m, wd_heap w !! h = Some b -> live_state (ba_state b) -> ba_mutations b !! i = Some m -> bm_Operation m = OpPut -> ~ inp (Addr (bm_Ref m));
  un_requests : forall h p, request w h p -> clean p;
}.

Lemma finished_unreferenced w : invariant w -> wd_phase w = Finished -> base_inv w /\ unreferenced w.
Proof.
  intros [[e He]|[B P]] Ep; [congruence|]. split; [exact B|]. unfold phase_inv in P. rewrite Ep in P. destruct P as [[_ _ C3] P]. assert (Hb : forall h b i m, wd_heap w !! h = Some b -> live_state (ba_state b) -> ba_mutations b !! i = Some m -> bm_Operation m = OpPut -> ~ inp (Addr (bm_Ref m))) by (intros h b i m Hb Hl Hm Ho Hi; apply (C3 (ba_state b) h (bm_Ref m)); exists b, i, m; auto 10).
  constructor; [exact P|exact Hb|]. intros h p Hp m Hm Ho. destruct (bi_request _ _ _ _ _ _ B h p Hp) as (b & Hh & Hs & Hms). destruct (proj1 (Hms m) Hm) as [i Hi]. apply (Hb h b i m); auto. now right.
Qed.

Lemma copied_sizes refs st w : copied_ok refs st [] w -> size (cs_redirects st) = size refs.
Proof.
  intros C. rewrite <- !size_dom. f_equal. apply set_eq. intros a. rewrite !elem_of_dom. split.
  - intros [new Hn]. now destruct (ck_redirects _ _ _ _ C a new Hn) as (_ & _ & _ & _ & _ & _ & _ & H).
  - intros Ha. destruct (ck_pending _ _ _ _ C a Ha) as [(x & Hx & _)|[H _]]; [inversion Hx|exact H].
Qed.

(** C13: A compaction runs beside clients that stage, submit, withdraw and abort batches
    and beside the coordinator that commits or refuses them, in any interleaving, from a
    new start or resumed after a restart.  No step of it changes what a record id reads
    as: the payload stays, and an id without a record gets none.  When every input
    record is scanned, each reference of an open batch has its copy, so the check for a
    missing one never fails.  When it has finished, and whatever happens after it, no
    entry of the mapping, no mutation of a batch that can still commit and no submitted
    commit refers to an input segment. *)
Theorem compaction_preserves w0 w : started w0 -> rtc (step limits rl inputs ids scan) w0 w ->
  (forall w', gc_step limits rl inputs scan w w' -> keeps w w') /\
  (forall work, wd_phase w = Copying [] work -> size (cs_redirects (cw_copy work)) = size (ob_refs (cw_refs work))) /\
  (wd_phase w = Finished -> unreferenced w).
Proof.
  intros Hs Hr. pose proof (run_inv _ _ (started_inv _ Hs) Hr) as Hinv. split; [|split].
  - intros w' H. now apply gc_step_inv.
  - intros work Ep. destruct Hinv as [[e He]|[_ P]]; [congruence|]. unfold phase_inv in P. rewrite Ep in P. destruct P as (_ & _ & _ & _ & C). exact (copied_sizes _ _ _ C).
  - intros Ep. now apply finished_unreferenced.
Qed.

(** ** Retiring an input *)

Definition open_batches (w : world) : list Batch := omap (fun h => wd_heap w !! h) (elements (wd_open w)).

Lemma ReferencesSegment_elem b segment : segment <> 0 -> ReferencesSegment b segment = true <-> exists i m, ba_mutations b !! i = Some m /\ bm_Operation m = OpPut /\ SegmentID (Addr (bm_Ref m)) = segment.
Proof.
  intros Hz. unfold ReferencesSegment. apply Z.eqb_neq in Hz. rewrite Hz. cbn [negb andb]. rewrite existsb_exists. split.
  - intros ([i m] & Hin & H). apply list_elem_of_In, elem_of_map_to_list in Hin. apply andb_true_iff in H as [H1%Z.eqb_eq H2%Z.eqb_eq]. eauto.
  - intros (i & m & Hm & Ho & Hs). exists (i, m). split; [apply list_elem_of_In; now apply elem_of_map_to_list|]. rewrite Ho, Hs, !Z.eqb_refl. reflexivity.
Qed.

Lemma prove_scan_ok w recs : (forall x, x ∈ recs -> inp (rec_addr x) /\ exists d, put_of limits x.2 = Ok d) -> unreferenced w -> prove_scan limits (lookup_in w) recs = Ok tt.
Proof.
  intros Hrecs U. induction recs as [|x recs IH]; [reflexivity|]. cbn [prove_scan]. rewrite IH by (intros y Hy; apply Hrecs; now right). destruct (Hrecs x ltac:(now left)) as (Hi & d & Hd). unfold prove_record. rewrite Hd. cbn. destruct d as [put|]; [|reflexivity]. destruct (wd_entries w !! put_RecordID put) as [ref|] eqn:E; [|reflexivity]. destruct (Z.eqb_spec (Addr ref) (ar_Addr x.1)) as [Ea|]; [|reflexivity]. exfalso. apply (un_mapping _ U _ _ E). rewrite Ea. exact Hi.
Qed.

(** The reasons for an answer about [source], in a state [w] under a checkpoint whose
    statistics are those of the mapping in [wc] and whose manifest is [m]. *)
Inductive retirement_answer (wc w : world) (m : Manifest) (source relocationEnd : Z) : option goerror * res SegmentRetirementProof -> Prop :=
| ra_batch h b : h ∈ wd_open w -> wd_heap w !! h = Some b -> ~ live_state (ba_state b) -> ReferencesSegment b source = true -> retirement_answer wc w m source relocationEnd (None, Err [base_ErrConflict])
| ra_uncovered : mf_CoveredCommitSeq m < relocationEnd \/ mf_StatsCoveredCommitSeq m <> mf_CoveredCommitSeq m -> retirement_answer wc w m source relocationEnd (Some [base_ErrCorrupt], Err [base_ErrCorrupt])
| ra_missing : (forall s, ds_SegmentID s = source -> containsSealedSegment m s = false) -> retirement_answer wc w m source relocationEnd (None, Err [recordlog_ErrSegmentMissing])
| ra_unknown s : ds_SegmentID s = source -> containsSealedSegment m s = true -> StatsKnownForSegment (mf_ReplayStart m) s = false -> retirement_answer wc w m source relocationEnd (None, Err [base_ErrConflict])
| ra_stale id ref : wd_phase wc <> Finished -> wd_entries wc !! id = Some ref -> SegmentID (Addr ref) = source -> retirement_answer wc w m source relocationEnd (None, Err [base_ErrConflict; engine_errCheckpointStatsStale])
| ra_proved s : ds_SegmentID s = source -> containsSealedSegment m s = true -> StatsKnownForSegment (mf_ReplayStart m) s = true -> relocationEnd <= mf_CoveredCommitSeq m -> mf_StatsCoveredCommitSeq m = mf_CoveredCommitSeq m ->
    (forall h b, h ∈ wd_open w -> wd_heap w !! h = Some b -> ReferencesSegment b source = false) ->
    (forall id ref, wd_entries wc !! id = Some ref \/ wd_entries w !! id = Some ref -> SegmentID (Addr ref) <> source) ->
    retirement_answer wc w m source relocationEnd (None, Ok (mkProof s (mf_Generation m) (mf_CoveredCommitSeq m) (mf_ReplayStart m) (mf_Generation m))).

(** The two searches of the manifest. *)
Lemma sealed_found m source : match search_sealed (mf_SealedData m) source with
  | Some s => if ds_SegmentID s =? source then ds_SegmentID s = source /\ containsSealedSegment m s = true else forall s, ds_SegmentID s = source -> containsSealedSegment m s = false
  | None => forall s, ds_SegmentID s = source -> containsSealedSegment m s = false end.
Proof.
  unfold containsSealedSegment. destruct (search_sealed (mf_SealedData m) source) as [s|] eqn:E; [|intros s' <-; now rewrite E]. destruct (Z.eqb_spec (ds_SegmentID s) source) as [Es|Es].
  - split; [exact Es|]. rewrite Es, E. now apply bool_decide_eq_true_2.
  - intros s' <-. rewrite E. apply bool_decide_eq_false_2. congruence.
Qed.

Lemma open_batches_refer w source : existsb (fun b => ReferencesSegment b source) (open_batches w) = true <-> exists h b, h ∈ wd_open w /\ wd_heap w !! h = Some b /\ ReferencesSegment b source = true.
Proof.
  rewrite existsb_exists. split.
  - intros (b & Hb & Href). apply list_elem_of_In, list_elem_of_omap in Hb as (h & Hh & Hb). apply elem_of_elements in Hh. eauto.
  - intros (h & b & Hh & Hb & Href). exists b. split; [|exact Href]. apply list_elem_of_In, list_elem_of_omap. exists h. split; [now apply elem_of_elements|exact Hb].
Qed.

(** C14: After a finished compaction, every answer about the retirement of an input, with
    or without a scan of the mapping, has its reason.  [wc] is the state in which the
    checkpoint took the live counters of the mapping, before or after the compaction
    finished; the manifest has the statistics that [checkpointSegmentStats] made of them
    for this segment.  The proof is given only for a sealed segment to which neither the
    checkpoint, nor the mapping, nor a batch refers.  It is refused with [ErrConflict]
    when a batch that is listed as open although it can never commit has a mutation in
    the segment or when the statistics of the segment are not known, with the fault
    [ErrCorrupt] when the checkpoint does not cover the relocations, with
    [ErrSegmentMissing] when the segment is not sealed, and with
    [errCheckpointStatsStale] exactly when an entry in [wc] referred to it: then the
    checkpoint is one of before the end of the compaction, so the next one is not stale.
    The scan of the mapping never refuses. *)
Theorem retirement_decided w0 wc w m live order cut maxEntries stats source relocationEnd again : started w0 -> rtc (step limits rl inputs ids scan) w0 wc -> rtc (step limits rl inputs ids scan) wc w -> wd_phase w = Finished -> source ∈ inputs -> source <> 0 ->
  live_exact live (wd_entries wc) -> order ≡ₚ map_to_list live -> checkpointSegmentStats order m cut maxEntries = Ok stats -> (forall st, sst_SegmentID st = source -> st ∈ mf_SegmentStats m <-> st ∈ stats) ->
  (forall x, x ∈ scan -> exists d, put_of limits x.2 = Ok d) ->
  let answer := if again : bool then Some (prove_scan limits (lookup_in w) (List.filter (fun x => SegmentID (rec_addr x) =? source) scan)) else None in
  let r := proveSegmentRetirementAtCheckpoint None (open_batches w) None m answer source relocationEnd in
  retirement_answer wc w m source relocationEnd r.
Proof.
  intros Hs Hrc Hr Ep Hin Hz Hlive Hord Hstats Hm Hdec answer r. pose proof (run_inv _ _ (started_inv _ Hs) Hrc) as Ic. destruct (finished_unreferenced w (run_inv _ _ Ic Hr) Ep) as [B U]. destruct (checkpoint_exact _ _ _ _ _ _ _ Hlive Hord Hstats) as [X _]. pose proof (exact_stats_live _ _ source X) as Hl.
  assert (Hm' : existsb (stat_live source) (mf_SegmentStats m) = existsb (stat_live source) stats). { apply eq_true_iff_eq. rewrite !existsb_exists. assert (Hi : forall st, stat_live source st = true -> In st (mf_SegmentStats m) <-> In st stats) by (intros st H; rewrite <- !list_elem_of_In; apply Hm; now apply andb_true_iff in H as [H%Z.eqb_eq _]). split; intros (st & H1 & H2); exists st; (split; [now apply Hi|exact H2]). }
  assert (Hans : answer = None \/ answer = Some (Ok tt)). { subst answer. destruct again; [right|now left]. f_equal. apply prove_scan_ok; [|exact U]. intros x Hx. apply list_elem_of_In, filter_In in Hx as [Hx _]. apply list_elem_of_In in Hx. split; [exact (si_segment _ _ _ _ Hsealed _ Hx)|auto]. }
  subst r. unfold proveSegmentRetirementAtCheckpoint. destruct (existsb _ (open_batches w)) eqn:Eb.
  - apply open_batches_refer in Eb as (h & b & Hh & Hb & Href). apply (ra_batch _ _ _ _ _ h b); auto. intros Hv. apply (ReferencesSegment_elem _ _ Hz) in Href as (i & x & Hx & Ho & Hseg). apply (un_batches _ U h b i x Hb Hv Hx Ho). unfold CompactionSteps.inp. now rewrite Hseg.
  - destruct (_ || _) eqn:Ec; [apply ra_uncovered; apply orb_true_iff in Ec as [Ec%Z.ltb_lt|Ec%negb_true_iff%Z.eqb_neq]; auto|]. apply orb_false_iff in Ec as [Ec1%Z.ltb_ge Ec2%negb_false_iff%Z.eqb_eq].
    pose proof (sealed_found m source) as Hf. destruct (search_sealed (mf_SealedData m) source) as [s|]; [|now apply ra_missing]. destruct (ds_SegmentID s =? source); cbn [negb]; [destruct Hf as [Es Hf]|now apply ra_missing].
    destruct (StatsKnownForSegment _ _) eqn:Ek; cbn [negb]; [|now apply (ra_unknown _ _ _ _ _ s)]. change (fun st => (sst_SegmentID st =? source) && _) with (stat_live source). rewrite Hm'.
    destruct (existsb (stat_live source) stats) eqn:Est.
    + assert (N : seg_records (wd_entries wc) source <> 0) by now apply Hl. assert (Hr' : retirement_answer wc w m source relocationEnd (None, Err [base_ErrConflict; engine_errCheckpointStatsStale])).
      { destruct (seg_records_some _ _ N) as (id & ref & E & Hseg). apply (ra_stale _ _ _ _ _ id ref); auto. intros Epc. destruct (finished_unreferenced wc Ic Epc) as [_ Uc]. apply (un_mapping _ Uc _ _ E). unfold CompactionSteps.inp. now rewrite Hseg. }
      destruct Hans as [-> | ->]; exact Hr'.
    + assert (N : seg_records (wd_entries wc) source = 0) by (destruct (Z.eq_dec (seg_records (wd_entries wc) source) 0) as [|N]; [assumption|]; apply Hl in N; congruence). rewrite seg_records_zero in N.
      assert (Hr' : retirement_answer wc w m source relocationEnd (None, Ok (mkProof s (mf_Generation m) (mf_CoveredCommitSeq m) (mf_ReplayStart m) (mf_Generation m)))).
      { apply ra_proved; auto.
        - intros h b Hh Hb. apply not_true_is_false. intros Href. rewrite (proj2 (open_batches_refer w source)) in Eb by eauto. discriminate.
        - intros id ref [E|E]; [exact (N _ _ E)|]. intros Hseg. apply (un_mapping _ U _ _ E). unfold CompactionSteps.inp. now rewrite Hseg. }
      destruct Hans as [-> | ->]; exact Hr'.
Qed.
End Spec.
