(* ===== verification/CompactionOutput.v ===== *)
(** * The writer of compaction outputs implements the interface of the compaction

    [recordlog.CompactionWriter] ([LogCompaction]) over the files of the log satisfies
    what [CompactionSpec] asks of the writer of the outputs. *)
From S2P Require Import Prelude Bytes Addr RecordFormat RecordCodec Mapping LogIface Batch Coordinator SegmentStats Fs FsDisk Catalog CatalogSpec LogSegment LogRotate LogScan LogRotation LogRegistry LogState LogCrash LogData LogCompaction LogCompactionSpec Compaction CompactionWorld CompactionSteps CompactionSpec.

(** ** Addresses of placed records *)

Lemma rec_at_ref id off r : is_u32 id -> is_u32 off -> rec_at id off r -> AppendResult_Ref r.1 = Ok (mkRef (ar_Addr r.1) (rec_size r)).
Proof.
  intros Hi Ho H. pose proof (rec_at_end _ _ _ Hi Ho H) as Ee. destruct (rec_at_facts _ _ _ Hi Ho H) as [_ [F1 F2] (_ & F3 & F4 & F5 & F6) _ _ _]. pose proof (ra_result _ _ _ H) as E. unfold NewAppendResult in E. destruct (VAddr_End _ _) as [e|] eqn:Eend; [|discriminate]. apply Ok_inj in E. assert (Hend : e = mkPos id (off + rec_size r)) by (rewrite <- Ee, <- E; reflexivity). subst e.
  unfold VAddr_End in Eend. inv_ok Eend. rewrite F3, F4 in Eend. assert (Hm : MatchesPhysicalSize (ar_Addr r.1) (rec_size r) = true) by (unfold MatchesPhysicalSize; rewrite F6; apply Z.eqb_refl).
  unfold AppendResult_Ref, AppendResult_PhysicalSize. rewrite Ee, F3, F4, F5. cbn [pos_SegmentID pos_Offset]. unfold LogPos_Valid. cbn [pos_SegmentID pos_Offset]. rewrite Eend, Z.eqb_refl. replace (off + rec_size r <? off) with false by (symmetry; apply Z.ltb_ge; lia). cbn [is_ok negb orb]. replace (off + rec_size r - off) with (rec_size r) by lia. rewrite Hm. cbn [negb]. cbn.
  unfold NewRecordRef, RecordRef_Valid. cbn [Addr PhysicalSize]. rewrite F5, Hm. unfold RecordHeaderSize, RecordAlignment. change (8 - 1) with 7. rewrite land_7. replace (32 <=? rec_size r) with true by (symmetry; apply Z.leb_le; lia). rewrite F2. reflexivity.
Qed.

Lemma placed_distinct id : is_u32 id -> forall recs off, placed id off recs -> 0 <= off -> off + body_size recs < two32 -> NoDup (map rec_addr recs).
Proof.
  intros Hi. induction recs as [|r recs IH]; intros off Hp Ho Hb; [constructor|]. pose proof Hp as [Hr Hp']. rewrite body_size_cons in Hb. pose proof (body_size_nonneg _ _ _ Hp'). assert (Hs : 32 <= rec_size r) by (destruct (PhysicalRecordSize_spec _ _ (len_nonneg _) (ra_size _ _ _ Hr)) as (? & ? & ?); lia). assert (Hu : is_u32 off) by (unfold is_u32; lia).
  destruct (rec_at_facts _ _ _ Hi Hu Hr) as [_ _ (_ & _ & F4 & _) _ _ _]. constructor; [|apply (IH (off + rec_size r)); auto; lia]. intros Hin. apply list_elem_of_In, in_map_iff in Hin as (x & Ex & Hx). apply list_elem_of_In in Hx. destruct (placed_elem id Hi recs (off + rec_size r) x Hp' ltac:(lia) ltac:(lia) Hx) as (_ & _ & K). rewrite Ex, F4 in K. lia.
Qed.

Lemma placed_refs id : is_u32 id -> forall recs off x, placed id off recs -> 0 <= off -> off + body_size recs < two32 -> x ∈ recs -> exists ref, AppendResult_Ref x.1 = Ok ref.
Proof.
  intros Hi. induction recs as [|r recs IH]; intros off x Hp Ho Hb Hin; [inversion Hin|]. pose proof Hp as [Hr Hp']. rewrite body_size_cons in Hb. pose proof (body_size_nonneg _ _ _ Hp'). assert (Hs : 32 <= rec_size r) by (destruct (PhysicalRecordSize_spec _ _ (len_nonneg _) (ra_size _ _ _ Hr)) as (? & ? & ?); lia). assert (Hu : is_u32 off) by (unfold is_u32; lia).
  apply elem_of_cons in Hin as [->|Hin]; [rewrite (rec_at_ref _ _ _ Hi Hu Hr); eauto|]. apply (IH (off + rec_size r)); auto; lia.
Qed.

(** ** The instance *)

Section Output.
Context {C : Type} `{!LogPort C} (s : LogSnapshot) (ids : list Z) (d0 : gmap lpath (list Z)) (Hres : reserved s ids d0).

(** The writer with the files. *)
Definition outputs : Type := CompactionWriter * os lpath C.

#[export] Instance outputs_writer : OutputWriter outputs :=
  { ow_append x p := let '(o, (w, r)) := cw_Append None p x.1 x.2 in ((w, o), r) }.

Definition output_fits (p : list Z) : Prop := exists total, payload_ok s p total.

(** A successful append found room. *)
Lemma append_room segs cur p total w o : (cur = None -> segs = []) -> payload_ok s p total -> writing s ids d0 segs cur w o -> is_ok (cw_Append None p w o).2.2 = true -> (pack1 (cap s) (bins segs cur) total).1 <= len ids.
Proof.
  intros Hc [[_ Hm] Hs Hf] Hw Hok. destruct (Z.le_gt_cases (pack1 (cap s) (bins segs cur) total).1 (len ids)) as [|Hfull]; [assumption|exfalso]. destruct (wr_ids _ _ _ _ _ _ _ Hw) as (W1 & W2 & W3). pose proof (proj2 (wr_recs _ _ _ _ _ _ _ Hw)) as Hlen.
  assert (Hclosed : (length (closed_outputs segs cur) = length segs + match cur with Some _ => 1 | None => 0 end)%nat) by (unfold closed_outputs; rewrite length_app; destruct cur; reflexivity).
  assert (Hrot : needs_rotation w total = true /\ (length ids <= length (closed_outputs segs cur))%nat).
  { unfold needs_rotation, bins, pack1 in *. destruct cur as [recs|].
    - destruct (wr_active _ _ _ _ _ _ _ Hw) as (id & a & f & E & Ea & Ho & _ & Hr). rewrite Ea, (remaining_output s ids d0 Hres _ _ _ _ _ E Ho Hr). destruct (Z.eqb_spec (len (closed_outputs segs (Some recs))) 0) as [E0|E0]; [exfalso; unfold len in E0; lia|]. cbn [orb] in Hfull.
      destruct (_ <? _); unfold len in Hfull; cbn [fst] in Hfull; [|exfalso; lia]. split; [reflexivity|]. lia.
    - rewrite (wr_active _ _ _ _ _ _ _ Hw). split; [reflexivity|]. rewrite (Hc eq_refl) in *. cbn in Hfull. pose proof (proj1 (rv_ids _ _ _ Hres)). destruct ids as [|i l]; [contradiction|]. exfalso. change (len (@nil (list LogRecord))) with 0 in Hfull. cbn [Z.eqb orb fst] in Hfull. unfold len in Hfull. cbn [length] in Hfull. lia. }
  destruct Hrot as [Hrot Hno]. unfold cw_Append in Hok. rewrite W2, W3, Hs, Hrot in Hok. replace (_ <? len p) with false in Hok by (symmetry; apply Z.ltb_ge; lia). unfold cw_rotate in Hok. pose proof (proj2 (seal_any s ids d0 Hres segs cur w o Hw)) as H. destruct (seal_output w o) as [o1 [w1 [[]|e]]]; cbn [fst snd] in H, Hok; [|discriminate].
  destruct (wr_ids _ _ _ _ _ _ _ H) as (V1 & _). rewrite V1, (wr_used _ _ _ _ _ _ _ H), Nat.add_0_r in Hok. rewrite lookup_ge_None_2 in Hok by exact Hno. discriminate.
Qed.

(** [recs] are in the files, in this order. *)
Definition outputs_written (x : outputs) (recs : list LogRecord) : Prop := exists segs cur, writing s ids d0 segs cur x.1 x.2 /\ (cur = None -> segs = []) /\ recs = concat (closed_outputs segs cur).

Lemma written_segments segs cur w o : writing s ids d0 segs cur w o -> Forall (fun x => log_recs (log_headerFor s x.1) x.2) (zip ids (closed_outputs segs cur)) /\ (length (closed_outputs segs cur) <= length ids)%nat.
Proof.
  intros Hw. destruct (wr_recs _ _ _ _ _ _ _ Hw) as [H1 H2]. unfold closed_outputs. rewrite length_app. pose proof (wr_active _ _ _ _ _ _ _ Hw) as H3. destruct cur as [recs|]; cbn [option_list option_rect length]; [|rewrite app_nil_r; split; [exact H1|lia]]. destruct H3 as (id & a & f & E & _ & _ & _ & Hr). split; [|lia]. rewrite (zip_snoc _ _ _ _ E). apply Forall_app. split; [exact H1|]. now constructor.
Qed.

Lemma segments_distinct : forall l (segs : list (list LogRecord)), NoDup l -> Forall (fun id => id ∈ ids) l -> Forall (fun x => log_recs (log_headerFor s x.1) x.2) (zip l segs) -> (length segs <= length l)%nat ->
  NoDup (map rec_addr (concat segs)) /\ forall x, x ∈ concat segs -> SegmentID (rec_addr x) ∈ l /\ exists ref, AppendResult_Ref x.1 = Ok ref.
Proof.
  induction l as [|id l IH]; intros [|recs segs] Hn Hin Hall Hlen; cbn in *; try lia; try (split; [constructor|intros x Hx; inversion Hx]). inversion Hn as [|? ? Hid Hn']; subst. inversion Hin as [|? ? Hi Hin']; subst. inversion Hall as [|? ? Hr Hall']; subst. cbn in Hr. destruct (IH segs Hn' Hin' Hall' ltac:(lia)) as [I1 I2].
  apply list_elem_of_lookup in Hi as [i Hi]. destruct (id_facts s ids d0 Hres _ _ Hi) as (_ & Hrg & Hu & Hv). destruct (header_parts _ Hu Hv) as (P1 & _ & P3 & _). destruct Hr as [R1 R2]. cbn [log_headerFor sh_SegmentID sh_SegmentSize] in *. assert (Hb : 64 + body_size recs < two32) by lia.
  assert (Hseg : forall x, x ∈ recs -> SegmentID (rec_addr x) = id) by (intros x Hx; exact (proj1 (proj2 (placed_elem id P1 recs 64 x R1 ltac:(lia) Hb Hx)))). split.
  - rewrite map_app. apply NoDup_app. split; [exact (placed_distinct id P1 recs 64 R1 ltac:(lia) Hb)|]. split; [|exact I1]. intros a Ha Ha'. apply list_elem_of_In, in_map_iff in Ha as (x & <- & Hx). apply list_elem_of_In in Hx. apply list_elem_of_In, in_map_iff in Ha' as (y & Ey & Hy). apply list_elem_of_In in Hy. destruct (I2 y Hy) as [Hy' _]. rewrite Ey, (Hseg x Hx) in Hy'. contradiction.
  - intros x [Hx|Hx]%elem_of_app; [rewrite (Hseg x Hx); split; [now left|exact (placed_refs id P1 recs 64 x R1 ltac:(lia) Hb Hx)]|]. destruct (I2 x Hx) as [H1 H2]. split; [now right|exact H2].
Qed.

Lemma outputs_written_facts x recs : outputs_written x recs -> NoDup (map rec_addr recs) /\ forall y, y ∈ recs -> SegmentID (rec_addr y) ∈ ids /\ exists ref, AppendResult_Ref y.1 = Ok ref.
Proof.
  intros (segs & cur & Hw & _ & ->). destruct (written_segments _ _ _ _ Hw) as [H1 H2]. apply segments_distinct; auto; [exact (proj1 (proj2 (rv_ids _ _ _ Hres)))|]. apply Forall_forall. auto.
Qed.

#[export] Instance outputs_laws : OutputWriterLaws outputs ids output_fits.
Proof.
  refine {| ow_written := outputs_written |}.
  - intros [w o] recs p [w' o'] r [total Hp] (segs & cur & Hw & Hc & ->) E. cbn in E, Hw. pose proof (append_room segs cur p total w o Hc Hp Hw) as Hroom. destruct (cw_Append None p w o) as [o1 [w1 r1]] eqn:Ea. injection E as -> -> ->. specialize (Hroom eq_refl).
    pose proof (proj2 (append_writing s ids d0 Hres segs cur p total Hp Hc Hroom w o Hw)) as H. rewrite Ea in H. cbn [fst snd] in H. destruct H as [_ H]. destruct (packed s segs cur (r, p)) as [segs' recs'] eqn:Epk. exists segs', (Some recs'). split; [exact H|]. split; [discriminate|]. symmetry. exact (packed_concat s _ _ _ _ _ Epk).
  - intros x recs H. exact (proj1 (outputs_written_facts x recs H)).
  - intros x recs y H Hy. exact (proj2 (outputs_written_facts x recs H) y Hy).
Defined.
End Output.

(** * A compaction of one record

    The smallest run of [CompactionSpec]: one record in an input, one output with room
    for it. *)

(** An output in segment 5 that takes one record. *)
Definition place_in (segment : Z) (payload : list Z) : res AppendResult :=
  let! physical := PhysicalRecordSize (len payload) in let! addr := NewVAddr segment 64 physical in NewAppendResult addr physical.

Inductive one_output := Room | Full.

#[export] Instance one_writer : OutputWriter one_output :=
  { ow_append w p := match w, place_in 5 p with Room, Ok r => (Full, Ok r) | _, _ => (w, Err [recordlog_ErrInvalidConfig]) end }.

Definition demo_payload : list Z := match EncodePut (mkPut 1 7 [1; 2; 3]) 100 with Ok p => p | Err _ => [] end.
Definition demo_at (segment : Z) : LogRecord := (match place_in segment demo_payload with Ok r => r | Err _ => mkAppend 0 (mkPos 0 0) end, demo_payload).
Definition demo_ref (segment : Z) : RecordRef := match AppendResult_Ref (demo_at segment).1 with Ok r => r | Err _ => zeroRef end.

#[export] Instance one_writer_laws : OutputWriterLaws one_output [5] (fun p => p = demo_payload).
Proof.
  refine {| ow_written w recs := (w = Room /\ recs = []) \/ (w = Full /\ recs = [demo_at 5]) |}.
  - intros w recs p w' r -> [[-> ->]|[-> ->]]; cbn [ow_append one_writer]; [|destruct (place_in 5 demo_payload); discriminate]. destruct (place_in 5 demo_payload) as [r0|] eqn:E; intros [= <- <-]. right. split; [reflexivity|]. unfold demo_at. now rewrite E.
  - intros w recs [[-> ->]|[-> ->]]; [constructor|apply NoDup_singleton].
  - intros w recs x [[-> ->]|[-> ->]] Hx; [inversion Hx|]. apply list_elem_of_singleton in Hx. subst x. split; [vm_compute; left|exists (demo_ref 5); vm_compute; reflexivity].
Defined.

Definition demo_rl : RelocationLimits := mkRelLimits 10 1000.
Definition demo_world : world MemLog one_output := mkWorld (emptyLog []) {[7 := demo_ref 3]} ∅ ∅ ∅ [] ∅ Room [] (Snapshotting [] (mkOpenRefs ∅ [])).

Lemma demo_sealed : sealed_inputs [3] [5] [demo_at 3] [demo_at 3].
Proof.
  constructor.
  - apply NoDup_singleton.
  - intros x Hx. apply list_elem_of_singleton in Hx. subst x. vm_compute. left.
  - intros s Hs. apply list_elem_of_singleton in Hs. subst s. intros H. apply list_elem_of_singleton in H. discriminate.
  - intros x Hx. apply list_elem_of_singleton in Hx. subst x. split; [intros _; now left|]. intros H. apply list_elem_of_singleton in H. vm_compute in H. discriminate.
Qed.

Lemma demo_fits x : x ∈ [demo_at 3] -> x.2 = demo_payload.
Proof. intros Hx. apply list_elem_of_singleton in Hx. now subst x. Qed.

Lemma demo_put : put_payload example_limits 7 demo_payload.
Proof. exists (mkPut 1 7 [1; 2; 3]). split; [vm_compute; reflexivity|reflexivity]. Qed.

Lemma run_started : started (W := one_output) example_limits [3] [5] [demo_at 3] [demo_at 3] (fun p => p = demo_payload) demo_world.
Proof.
  constructor; [|reflexivity|intros c Hc; inversion Hc|left; split; [reflexivity|]; split; [reflexivity|left; auto]].
  assert (Hno : forall h p, ~ request demo_world h p) by (intros h p [H|H]; [cbn in H; rewrite lookup_empty in H; discriminate|inversion H]). constructor.
  - constructor; [intros x Hx; inversion Hx|auto|]. split; [constructor|intros x Hx; inversion Hx].
  - intros id ref E. cbn [demo_world wd_entries] in E. apply lookup_singleton_Some in E as [<- <-]. exists demo_payload. split; [|exact demo_put]. exists (demo_at 3).1. split; [vm_compute; left|vm_compute; reflexivity].
  - intros h b i m Hb. cbn in Hb. rewrite lookup_empty in Hb. discriminate.
  - intros h b Hb. cbn in Hb. rewrite lookup_empty in Hb. discriminate.
  - intros h b Hb. cbn in Hb. rewrite lookup_empty in Hb. discriminate.
  - intros h p Hp. now apply Hno in Hp.
  - intros h b Hb. cbn in Hb. rewrite lookup_empty in Hb. discriminate.
  - split; [constructor|]. intros h p Hp. cbn in Hp. rewrite lookup_empty in Hp. discriminate.
Qed.

(** *** The run *)

Abbreviation demo_step := (step (W := one_output) (L := MemLog) example_limits demo_rl [3] [5] [demo_at 3]).

Lemma demo_run : exists w, rtc demo_step demo_world w /\ wd_phase w = Finished /\ wd_entries w = {[7 := demo_ref 5]} /\ wd_heap w = ∅ /\ wd_open w = ∅.
Proof.
  eexists. split.
  - eapply rtc_l; [apply step_gc; eapply gs_copy_start; reflexivity|].
    eapply rtc_l; [apply step_gc; eapply (gs_copy _ _ _ _ _ _ _ _ None); [reflexivity|vm_compute; reflexivity]|].
    eapply rtc_l; [apply step_gc; eapply (gs_copied_none _ _ _ _ _ _ None); [reflexivity|vm_compute; reflexivity|vm_compute; reflexivity|vm_compute; reflexivity]|].
    eapply rtc_l; [apply step_gc; eapply gs_add; [reflexivity|vm_compute; reflexivity|vm_compute; reflexivity]|].
    eapply rtc_l; [apply step_gc; eapply gs_last; reflexivity|].
    eapply rtc_l; [apply step_gc; eapply (gs_relocate _ _ _ _ _ _ _ _ _ _ _ _ 9 (mkRelocationResult 9 1 1 0 0)); [reflexivity|discriminate|vm_compute; reflexivity|discriminate]|].
    eapply rtc_l; [apply step_gc; eapply gs_flushed; reflexivity|]. apply rtc_refl.
  - vm_compute. auto.
Qed.

(** Manifests in which segments 3 and 5 are sealed, after a checkpoint of the mapping
    when its record is in segment [at_segment]. *)
Definition demo_summary (segment : Z) : DataSegmentSummary := mkData segment 136 1 (ar_Addr (demo_at segment).1) (ar_Addr (demo_at segment).1).
Definition retiring_manifest (at_segment : Z) : Manifest :=
  mkManifest 4 CatalogSpec.demo_uuid CatalogSpec.demo_limits CatalogSpec.demo_uuid 6 7 0 [demo_summary 3; demo_summary 5] 1 2 [] 0 1 1 (mkPos 6 64) 8 10 9 [] 1 [mkStats at_segment (PhysicalSize (demo_ref at_segment)) 1].
Definition demo_live (segment : Z) : SegmentLiveStats := Mapping.mkLive (PhysicalSize (demo_ref segment)) 1 0.

Lemma demo_live_exact segment : SegmentID (Addr (demo_ref segment)) = segment -> live_exact {[segment := demo_live segment]} {[7 := demo_ref segment]}.
Proof.
  intros Es s. unfold seg_bytes, seg_records. rewrite <- (insert_empty 7), !msum_insert_new, !msum_empty by apply lookup_empty. unfold in_segment, one. rewrite Es. destruct (Z.eqb_spec segment s) as [->|Hn].
  - rewrite lookup_singleton_eq. cbn [ls_LiveBytes ls_LiveRecords demo_live]. lia.
  - rewrite lookup_singleton_ne by exact Hn. reflexivity.
Qed.

Lemma compaction_preserves_witness : exists w, rtc demo_step demo_world w /\ wd_phase w = Finished /\ unreferenced [3] w.
Proof.
  destruct demo_run as (w & Hr & Hp & _). exists w. split; [exact Hr|]. split; [exact Hp|].
  exact (proj2 (proj2 (compaction_preserves example_limits demo_rl [3] [5] [demo_at 3] [demo_at 3] _ demo_sealed demo_fits demo_world w run_started Hr)) Hp).
Defined.

(** With the checkpoint of before the compaction the answer is that it is stale; with
    one of after it, the segment is retired. *)
Lemma retirement_decided_witness : exists w, rtc demo_step demo_world w /\ wd_phase w = Finished /\
  retirement_answer demo_world w (retiring_manifest 3) 3 1 (None, Err [base_ErrConflict; engine_errCheckpointStatsStale]) /\
  retirement_answer w w (retiring_manifest 5) 3 1 (None, Ok (mkProof (demo_summary 3) 4 1 (mkPos 6 64) 4)).
Proof.
  destruct demo_run as (w & Hr & Hp & He & Hh & Ho). exists w. split; [exact Hr|]. split; [exact Hp|].
  assert (Hob : open_batches w = []) by (unfold open_batches; now rewrite Ho). assert (Hdec : forall x, x ∈ [demo_at 3] -> exists d, put_of example_limits x.2 = Ok d) by (intros x Hx; apply list_elem_of_singleton in Hx; subst x; destruct demo_put as (put & Hput & _); eauto).
  pose proof (retirement_decided example_limits demo_rl [3] [5] [demo_at 3] [demo_at 3] _ demo_sealed demo_fits demo_world) as Hall. split.
  - specialize (Hall demo_world w (retiring_manifest 3) {[3 := demo_live 3]} [(3, demo_live 3)] (mkPos 6 64) 8 (mf_SegmentStats (retiring_manifest 3)) 3 1 true run_started (rtc_refl _ _) Hr Hp ltac:(vm_compute; left) ltac:(discriminate) (demo_live_exact 3 eq_refl)).
    specialize (Hall ltac:(now rewrite map_to_list_singleton) ltac:(vm_compute; reflexivity) (fun _ _ => iff_refl _) Hdec). rewrite Hob in Hall. unfold lookup_in in Hall. rewrite He in Hall. vm_compute in Hall |- *. exact Hall.
  - specialize (Hall w w (retiring_manifest 5) {[5 := demo_live 5]} [(5, demo_live 5)] (mkPos 6 64) 8 (mf_SegmentStats (retiring_manifest 5)) 3 1 true run_started Hr (rtc_refl _ _) Hp ltac:(vm_compute; left) ltac:(discriminate)). rewrite He in Hall at 1.
    specialize (Hall (demo_live_exact 5 eq_refl) ltac:(now rewrite map_to_list_singleton) ltac:(vm_compute; reflexivity) (fun _ _ => iff_refl _) Hdec). rewrite Hob in Hall. unfold lookup_in in Hall. rewrite He in Hall. vm_compute in Hall |- *. exact Hall.
Defined.
