(* ===== verification/SpaceGate.v ===== *)
(** * The disk-space gate and the estimates of maintenance

    Models [internal/engine/space.go] and the reservations and the pacer of
    [internal/engine/gc_budget.go].  Times are nanoseconds; the file system is asked
    through the answers that are passed in.  The sampling itself ([statfs]) is an
    answer, the metrics of rejected maintenance are not modelled. *)
From S2P Require Import Prelude Bytes Addr RecordFormat RecordCodec LogIface MapNode MapSegment Catalog.

(** ** The gate *)

(** [sg_wired]: the root is not empty and both callbacks are set. *)
Record spaceGate := mkGate
  { sg_wired : bool; sg_minimum : Z; sg_interval : Z; sg_valid : bool; sg_lastSample : Z; sg_free : Z; sg_reserved : Z; sg_rejections : Z; sg_checkErrors : Z }.

Definition newSpaceGate (minimum interval : Z) : spaceGate := mkGate true minimum interval false 0 0 0 0 0.

Definition fitsBelow (reserved requested free minimum : Z) : bool :=
  if MaxUint64 - requested <? reserved then false
  else (minimum <=? free) && (reserved + requested <=? free - minimum).

(** [answer] is what [available] returns. *)
Definition refreshLocked (g : spaceGate) (now : Z) (answer : res Z) : spaceGate * res unit :=
  match answer with
  | Err e => (mkGate (sg_wired g) (sg_minimum g) (sg_interval g) false (sg_lastSample g) (sg_free g) (sg_reserved g) (sg_rejections g) ((sg_checkErrors g + 1) mod two64), Err (base_ErrInsufficientSpace :: e))
  | Ok free => (mkGate (sg_wired g) (sg_minimum g) (sg_interval g) true now free (sg_reserved g) (sg_rejections g) (sg_checkErrors g), Ok tt)
  end.

Definition set_reserved (g : spaceGate) (n : Z) : spaceGate :=
  mkGate (sg_wired g) (sg_minimum g) (sg_interval g) (sg_valid g) (sg_lastSample g) (sg_free g) n (sg_rejections g) (sg_checkErrors g).
Definition reject_space (g : spaceGate) : spaceGate :=
  mkGate (sg_wired g) (sg_minimum g) (sg_interval g) (sg_valid g) (sg_lastSample g) (sg_free g) (sg_reserved g) ((sg_rejections g + 1) mod two64) (sg_checkErrors g).

(** [first] and [second] are the answers of the two samples it may take; the result is
    the size of the reservation. *)
Definition reserveWithMinimum (g : spaceGate) (ctxErr : option goerror) (bytes minimum : Z) (countRejection : bool) (now : Z) (first second : res Z) : spaceGate * res Z :=
  match ctxErr with
  | Some e => (g, Err e)
  | None =>
      if (bytes =? 0) || (minimum =? 0) || negb (sg_wired g) || (sg_minimum g =? 0) || (sg_interval g <=? 0) then (g, Err [base_ErrInvalidConfig])
      else
        match (if negb (sg_valid g) || ((sg_reserved g =? 0) && (sg_interval g <=? now - sg_lastSample g)) then refreshLocked g now first else (g, Ok tt)) with
        | (g, Err e) => (g, Err e)
        | (g, Ok _) =>
            match (if negb (fitsBelow (sg_reserved g) bytes (sg_free g) minimum) && (sg_reserved g =? 0) then refreshLocked g now second else (g, Ok tt)) with
            | (g, Err e) => (g, Err e)
            | (g, Ok _) =>
                if negb (fitsBelow (sg_reserved g) bytes (sg_free g) minimum) then (if countRejection then reject_space g else g, Err [base_ErrInsufficientSpace])
                else (set_reserved g (sg_reserved g + bytes), Ok bytes)
            end
        end
  end.

Definition space_reserve (g : spaceGate) (ctxErr : option goerror) (bytes now : Z) (first second : res Z) : spaceGate * res Z :=
  reserveWithMinimum g ctxErr bytes (sg_minimum g) true now first second.

(** [complete] on a reservation of [bytes]; it leaves the reservation at 0. *)
Definition complete_reservation (g : spaceGate) (bytes : Z) (success : bool) : spaceGate :=
  if bytes =? 0 then g
  else
    let '(reserved, valid) := if bytes <=? sg_reserved g then (sg_reserved g - bytes, sg_valid g) else (0, false) in
    let '(free, valid) := if success then (if bytes <=? sg_free g then sg_free g - bytes else 0, valid) else (sg_free g, false) in
    mkGate (sg_wired g) (sg_minimum g) (sg_interval g) valid (sg_lastSample g) free reserved (sg_rejections g) (sg_checkErrors g).

Record spaceSnapshot := mkSpaceSnapshot { ss_available : Z; ss_minimum : Z; ss_rejections : Z; ss_checkErrors : Z; ss_stopped : bool }.

Definition space_snapshot (g : spaceGate) : spaceSnapshot :=
  let available := if sg_valid g && (sg_reserved g <=? sg_free g) then sg_free g - sg_reserved g else 0 in
  mkSpaceSnapshot available (sg_minimum g) (sg_rejections g) (sg_checkErrors g)
    (sg_valid g && (available <=? sg_minimum g) || negb (sg_valid g) && negb (sg_checkErrors g =? 0)).

(** [filesystemAvailable] after [Statfs] *)
Definition filesystemAvailable (bsize bavail : Z) : res Z :=
  raise [io_Error] when bsize <=? 0 ;;
  if MaxUint64 / bsize <? bavail then Ok MaxUint64 else Ok (bavail * bsize).

(** *** [spaceAppender.Append] *)

Section Appender.
Context {L : Type} `{!AppendLog L}.

Definition space_append (g : spaceGate) (l : L) (ctxErr : option goerror) (payload : list Z) (sync : bool) (now : Z) (first second : res Z) : spaceGate * L * res AppendResult :=
  match TypeOf payload with
  | Err e => (g, l, Err e)
  | Ok typ =>
      if negb (typ =? RecordTypePut) then let '(l, r) := log_append l payload sync in (g, l, r)
      else
        match PhysicalRecordSize (len payload) with
        | Err e => (g, l, Err e)
        | Ok physical =>
            match space_reserve g ctxErr physical now first second with
            | (g, Err e) => (g, l, Err e)
            | (g, Ok bytes) => let '(l, r) := log_append l payload sync in (complete_reservation g bytes (is_ok r), l, r)
            end
        end
  end.
End Appender.

(** ** Estimates *)

Definition checkedGCMul (left right : Z) : option Z := if negb (left =? 0) && (MaxUint64 / left <? right) then None else Some (left * right).

Fixpoint checked_sum (result : Z) (values : list Z) : option Z :=
  match values with
  | [] => Some result
  | value :: rest => if MaxUint64 - value <? result then None else checked_sum (result + value) rest
  end.
Definition checkedGCAdd (values : list Z) : option Z := checked_sum 0 values.

Definition or_overflow {A} (x : option A) : res A := match x with Some a => Ok a | None => Err [base_ErrOverflow] end.

(** The loop over the sources: records and bytes. *)
Fixpoint source_totals (recordCount copyBytes : Z) (sources : list DataSegmentSummary) : res (Z * Z) :=
  match sources with
  | [] => Ok (recordCount, copyBytes)
  | s :: rest =>
      raise [base_ErrOverflow] when (ds_ValidEnd s <? SegmentHeaderSize) || (MaxUint64 - ds_RecordCount s <? recordCount) || (MaxUint64 - (ds_ValidEnd s - SegmentHeaderSize) <? copyBytes) ;;
      source_totals (recordCount + ds_RecordCount s) (copyBytes + (ds_ValidEnd s - SegmentHeaderSize)) rest
  end.

(** The estimate of [reserveGCCopies]. *)
Definition gc_copies_estimate (segmentSize : Z) (sources : list DataSegmentSummary) : res Z :=
  let! commitPhysical := PhysicalRecordSize (CommitGroupHeadSize + DescriptorHeadSize + MutationSize) in
  let! reservePhysical := PhysicalRecordSize FixedRecordSize in
  let! totals := source_totals 0 0 sources in
  let! controlBytes := or_overflow (checkedGCMul totals.1 (commitPhysical + reservePhysical)) in
  let! rotationBytes := or_overflow (checkedGCMul segmentSize (len sources + 1)) in
  or_overflow (checkedGCAdd [totals.2; controlBytes; rotationBytes]).

(** The reservation of an estimate below the floor of maintenance; nothing is reserved
    when there is no gate or no floor.  [ask] is the call of [reserveWithMinimum] that
    the environment answers. *)
Record space_ask := mkAsk { ask_ctx : option goerror; ask_now : Z; ask_first : res Z; ask_second : res Z }.

Definition gc_reserve (space : option spaceGate) (gcMinFreeBytes : Z) (ask : space_ask) (estimate : res Z) : option spaceGate * res (option Z) :=
  match space with
  | None => (space, Ok None)
  | Some g =>
      if gcMinFreeBytes =? 0 then (space, Ok None)
      else
        match estimate with
        | Err e => (space, Err e)
        | Ok n =>
            match reserveWithMinimum g (ask_ctx ask) n gcMinFreeBytes false (ask_now ask) (ask_first ask) (ask_second ask) with
            | (g, Err e) => (Some g, Err e)
            | (g, Ok bytes) => (Some g, Ok (Some bytes))
            end
        end
  end.

Definition reserveGCCopies (space : option spaceGate) (gcMinFreeBytes maxRelocationMutations maxRelocationBytes : Z) (ask : space_ask) (segmentSize : Z) (sources : list DataSegmentSummary) : option spaceGate * res (option Z) :=
  gc_reserve space gcMinFreeBytes ask
    (raise [base_ErrInvalidConfig] when (len sources =? 0) || (maxRelocationMutations =? 0) || (maxRelocationBytes =? 0) ;;
     gc_copies_estimate segmentSize sources).

Definition checkpoint_estimate (segmentSize entries : Z) : res Z :=
  let! perEntry := or_overflow (checkedGCMul (MaxLevel + 1) DenseNodeSize) in
  let! nodeBytes := or_overflow (checkedGCMul entries perEntry) in
  or_overflow (checkedGCAdd [nodeBytes; segmentSize]).
Definition reserveGCCheckpoint (space : option spaceGate) (gcMinFreeBytes : Z) (ask : space_ask) (segmentSize entries : Z) : option spaceGate * res (option Z) :=
  gc_reserve space gcMinFreeBytes ask (checkpoint_estimate segmentSize entries).

Definition mapping_gc_estimate (segmentSize entries : Z) : res Z :=
  let! nodes := or_overflow (checkedGCMul entries (MaxLevel + 1)) in
  let overhead := MapSegment.SegmentHeaderSize + MapSegment.SegmentFooterSize in
  raise [base_ErrCorrupt] when segmentSize <=? overhead ;;
  let nodesPerSegment := (segmentSize - overhead) / DenseNodeSize in
  raise [base_ErrCorrupt] when nodesPerSegment =? 0 ;;
  let segments := if nodes =? 0 then 1 else nodes / nodesPerSegment + (if nodes mod nodesPerSegment =? 0 then 0 else 1) in
  or_overflow (checkedGCMul segments segmentSize).
Definition reserveMappingGC (space : option spaceGate) (gcMinFreeBytes : Z) (ask : space_ask) (segmentSize entries : Z) : option spaceGate * res (option Z) :=
  gc_reserve space gcMinFreeBytes ask (mapping_gc_estimate segmentSize entries).

(** ** The pacer *)

Abbreviation Second := 1000000000 (only parsing).
Abbreviation MaxInt64 := 9223372036854775807 (only parsing).

Record gcPacer := mkPacer { gp_started : Z; gp_copied : Z; gp_rate : Z }.

(** [bits.Mul64] and [bits.Div64]; the division panics unless [high < y]. *)
Definition Mul64 (x y : Z) : Z * Z := (x * y / two64, (x * y) mod two64).
Definition Div64 (high low y : Z) : option (Z * Z) := if (y =? 0) || (y <=? high) then None else Some ((high * two64 + low) / y, (high * two64 + low) mod y).

(** The time at which [copied] bytes are due; [None] is the panic. *)
Definition pace_target (copied rate : Z) : option (res Z) :=
  let seconds := copied / rate in
  let remainder := copied mod rate in
  if MaxInt64 / Second <? seconds then Some (Err [base_ErrOverflow])
  else
    let target := seconds * Second in
    if remainder =? 0 then Some (Ok target)
    else
      let '(high, low) := Mul64 remainder Second in
      match Div64 high low rate with
      | None => None
      | Some (nanos, _) =>
          let nanos := if nanos =? 0 then 1 else nanos in
          if MaxInt64 - target <? nanos then Some (Err [base_ErrOverflow]) else Some (Ok (target + nanos))
      end.

(** How long [pace] waits; [now] is the clock before it. *)
Definition pace (p : gcPacer) (copied now : Z) : option (gcPacer * res Z) :=
  if (copied =? 0) || (gp_rate p =? 0) then Some (p, Ok 0)
  else if MaxUint64 - copied <? gp_copied p then Some (p, Err [base_ErrOverflow])
  else
    let p := mkPacer (gp_started p) (gp_copied p + copied) (gp_rate p) in
    match pace_target (gp_copied p) (gp_rate p) with
    | None => None
    | Some (Err e) => Some (p, Err e)
    | Some (Ok target) => let delay := target - (now - gp_started p) in Some (p, Ok (if delay <=? 0 then 0 else delay))
    end.

(** * The space gate keeps the floor, the estimates are bounds, the pacer keeps the rate *)

(** ** Sums over open reservations *)

Definition total_of (f : Z * Z -> Z) (m : gmap Z (Z * Z)) : Z := map_fold (fun _ x n => f x + n) 0 m.

Lemma total_insert f m k x : m !! k = None -> total_of f (<[k := x]> m) = f x + total_of f m.
Proof. intros H. unfold total_of. rewrite map_fold_insert_L; [reflexivity| |exact H]. intros; lia. Qed.

Lemma total_delete f m k x : m !! k = Some x -> total_of f m = f x + total_of f (delete k m).
Proof. intros H. rewrite <- (insert_delete_id m k x H) at 1. apply total_insert, lookup_delete_eq. Qed.

Lemma total_update f m k x y : m !! k = Some x -> total_of f (<[k := y]> m) = total_of f m - f x + f y.
Proof. intros H. rewrite (total_delete f m k x H), <- insert_delete_eq, total_insert by apply lookup_delete_eq. lia. Qed.

Lemma total_of_nonneg f m : (forall k x, m !! k = Some x -> 0 <= f x) -> 0 <= total_of f m.
Proof.
  revert m. refine (map_ind _ _ _); [intros; unfold total_of; rewrite map_fold_empty; lia|]. intros k x m Hk IH H. rewrite (total_insert _ _ _ _ Hk). pose proof (H k x (lookup_insert_eq _ _ _)). assert (0 <= total_of f m); [|lia]. apply IH. intros k' x' Hk'. apply (H k'). rewrite lookup_insert_ne; [exact Hk'|]. intros ->. congruence.
Qed.

Lemma total_member f m k x : (forall k x, m !! k = Some x -> 0 <= f x) -> m !! k = Some x -> f x <= total_of f m.
Proof. intros H Hk. rewrite (total_delete f m k x Hk). pose proof (total_of_nonneg f (delete k m)) as Hn. rewrite <- (Z.add_0_r (f x)) at 1. apply Z.add_le_mono_l, Hn. intros k' x' [_ Hk']%lookup_delete_Some. eauto. Qed.

(** ** The gate beside its users *)

(** [dw_open] holds for each open reservation its size and the bytes written so far;
    [dw_disk] is the free space. *)
Record disk_world := mkDisk { dw_gate : spaceGate; dw_disk : Z; dw_open : gmap Z (Z * Z) }.

(** A sample is the free space, or fails. *)
Definition truthful (disk : Z) (answer : res Z) : Prop := forall n, answer = Ok n -> n = disk.

Section World.
Context (floor : Z).

Inductive space_step (w : disk_world) : disk_world -> Prop :=
| sp_reserve h bytes minimum count now first second g r : dw_open w !! h = None -> 0 <= bytes -> floor <= minimum -> truthful (dw_disk w) first -> truthful (dw_disk w) second ->
    reserveWithMinimum (dw_gate w) None bytes minimum count now first second = (g, r) ->
    space_step w (mkDisk g (dw_disk w) (match r with Ok n => <[h := (n, 0)]> (dw_open w) | Err _ => dw_open w end))
| sp_write h bytes written n : dw_open w !! h = Some (bytes, written) -> 0 <= n -> written + n <= bytes -> space_step w (mkDisk (dw_gate w) (dw_disk w - n) (<[h := (bytes, written + n)]> (dw_open w)))
| sp_complete h bytes written success : dw_open w !! h = Some (bytes, written) -> space_step w (mkDisk (complete_reservation (dw_gate w) bytes success) (dw_disk w) (delete h (dw_open w)))
| sp_freed n : 0 <= n -> dw_disk w + n <= MaxUint64 -> space_step w (mkDisk (dw_gate w) (dw_disk w + n) (dw_open w)).

Definition due (m : gmap Z (Z * Z)) : Z := total_of (fun x => x.1 - x.2) m.

Record space_inv (w : disk_world) : Prop := mkSpaceInv {
  si_open : forall h x, dw_open w !! h = Some x -> 0 <= x.2 <= x.1 /\ x.1 <> 0;
  si_reserved : sg_reserved (dw_gate w) = total_of fst (dw_open w);
  si_free : 0 <= sg_free (dw_gate w) <= MaxUint64;
  si_floor : 0 <= floor <= dw_disk w - due (dw_open w) /\ dw_disk w <= MaxUint64;
  si_estimate : sg_valid (dw_gate w) = true -> sg_free (dw_gate w) - sg_reserved (dw_gate w) <= dw_disk w - due (dw_open w);
  si_config : sg_wired (dw_gate w) = true /\ sg_minimum (dw_gate w) <> 0 /\ 0 < sg_interval (dw_gate w);
}.

Lemma due_bounds m : (forall k x, m !! k = Some x -> 0 <= x.2 <= x.1 /\ x.1 <> 0) -> 0 <= due m <= total_of fst m.
Proof.
  intros Hm. split; [apply total_of_nonneg; intros k x Hk; destruct (Hm k x Hk); lia|]. assert (H : total_of fst m = due m + total_of snd m).
  { generalize m. refine (map_ind _ _ _); [reflexivity|]. intros k x m' Hk IH. unfold due in *. rewrite !(total_insert _ _ _ _ Hk), IH. lia. }
  rewrite H. assert (0 <= total_of snd m); [|lia]. apply total_of_nonneg. intros k x Hk. destruct (Hm k x Hk). lia.
Qed.

(** A sample of the free space is a safe estimate. *)
Lemma refresh_inv w now answer g r : space_inv w -> truthful (dw_disk w) answer -> refreshLocked (dw_gate w) now answer = (g, r) -> space_inv (mkDisk g (dw_disk w) (dw_open w)) /\ sg_reserved g = sg_reserved (dw_gate w) /\ (is_ok r = true -> sg_valid g = true).
Proof.
  intros I Ht E. destruct I as [I1 I2 I3 I4 I5 I6]. pose proof (due_bounds _ I1). unfold refreshLocked in E. destruct answer as [n|e]; injection E as <- <-.
  - rewrite (Ht n eq_refl). split; [|auto]. constructor; cbn; auto; lia.
  - split; [|split; [reflexivity|discriminate]]. constructor; cbn; auto. discriminate.
Qed.

Lemma fitsBelow_spec reserved requested free minimum : fitsBelow reserved requested free minimum = true <-> reserved + requested <= MaxUint64 /\ minimum <= free /\ reserved + requested <= free - minimum.
Proof.
  unfold fitsBelow. destruct (MaxUint64 - requested <? reserved) eqn:E; [split; [discriminate|bool_norm; lia]|]. rewrite andb_true_iff, !Z.leb_le. bool_norm. split; [lia|tauto].
Qed.

Lemma reserve_keeps w bytes minimum count now first second g r : space_inv w -> 0 <= bytes -> floor <= minimum -> truthful (dw_disk w) first -> truthful (dw_disk w) second -> reserveWithMinimum (dw_gate w) None bytes minimum count now first second = (g, r) ->
  forall h, dw_open w !! h = None -> space_inv (mkDisk g (dw_disk w) (match r with Ok n => <[h := (n, 0)]> (dw_open w) | Err _ => dw_open w end)).
Proof.
  intros I Hb Hm T1 T2 E h Hh. unfold reserveWithMinimum in E. destruct (_ || _) eqn:Eg in E; [injection E as <- <-; destruct w; exact I|]. repeat (apply orb_false_iff in Eg as [Eg ?]). bool_norm.
  destruct (if negb (sg_valid (dw_gate w)) || _ then _ else _) as [g1 r1] eqn:E1 in E. assert (S1 : space_inv (mkDisk g1 (dw_disk w) (dw_open w)) /\ (is_ok r1 = true -> sg_valid g1 = true)).
  { destruct (negb (sg_valid (dw_gate w)) || _) eqn:Ec in E1; [destruct (refresh_inv w now first g1 r1 I T1 E1) as (J & _ & K); auto|]. injection E1 as <- <-. apply orb_false_iff in Ec as [Ec _]. split; [destruct w; exact I|]. intros _. now apply negb_false_iff in Ec. }
  destruct S1 as [I1 V1]. destruct r1 as [[]|e]; [|injection E as <- <-; exact I1]. specialize (V1 eq_refl).
  destruct (if negb (fitsBelow _ _ _ _) && _ then _ else _) as [g2 r2] eqn:E2 in E. assert (S2 : space_inv (mkDisk g2 (dw_disk w) (dw_open w)) /\ (is_ok r2 = true -> sg_valid g2 = true)).
  { destruct (negb (fitsBelow _ _ _ _) && _) in E2; [destruct (refresh_inv (mkDisk g1 (dw_disk w) (dw_open w)) now second g2 r2 I1 T2 E2) as (J & _ & K); auto|]. injection E2 as <- <-. auto. }
  destruct S2 as [I2 V2]. destruct r2 as [[]|e]; [|injection E as <- <-; exact I2]. specialize (V2 eq_refl). destruct (fitsBelow _ _ _ _) eqn:Ef in E; cbn [negb] in E; injection E as <- <-; [|destruct count; [destruct I2; constructor; auto|exact I2]].
  apply fitsBelow_spec in Ef as (F1 & F2 & F3). destruct I2 as [J1 J2 J3 J4 J5 J6]. cbn in *. specialize (J5 V2). constructor; cbn; auto.
  - intros k x [[<- <-]|[_ Hk]]%lookup_insert_Some; [cbn; lia|eauto].
  - rewrite (total_insert _ _ _ _ Hh), J2. cbn. lia.
  - unfold due in *. rewrite (total_insert _ _ _ _ Hh). cbn. lia.
  - intros _. unfold due in *. rewrite (total_insert _ _ _ _ Hh). cbn. lia.
Qed.

Lemma space_step_inv w w' : space_inv w -> space_step w w' -> space_inv w'.
Proof.
  intros I H. destruct H as [h bytes minimum count now first second g r Hh Hb Hm T1 T2 E|h bytes written n Hh Hn Hw|h bytes written success Hh|n Hn Hd].
  - exact (reserve_keeps w bytes minimum count now first second g r I Hb Hm T1 T2 E h Hh).
  - destruct I as [I1 I2 I3 I4 I5 I6]. destruct (I1 _ _ Hh) as [K1 K2]. cbn in *. constructor; cbn; auto; unfold due in *; rewrite ?(total_update _ _ _ _ _ Hh); cbn.
    + intros k x [[<- <-]|[_ Hk]]%lookup_insert_Some; [cbn; lia|eauto].
    + lia.
    + lia.
    + intros V. specialize (I5 V). lia.
  - assert (Hother : 0 <= due (delete h (dw_open w)) <= total_of fst (delete h (dw_open w))) by (apply due_bounds; intros k x [_ Hk]%lookup_delete_Some; exact (si_open _ I k x Hk)).
    destruct I as [I1 I2 I3 I4 I5 I6]. destruct (I1 _ _ Hh) as [K1 K2]. unfold due in *. pose proof (total_delete (fun x => x.1 - x.2) _ _ _ Hh) as T1. pose proof (total_delete fst _ _ _ Hh) as T2. cbn [fst snd] in T1, T2, K1, K2.
    unfold complete_reservation. replace (bytes =? 0) with false by (symmetry; now apply Z.eqb_neq). assert (Hle : bytes <= sg_reserved (dw_gate w)) by (rewrite I2, T2; lia). replace (bytes <=? sg_reserved (dw_gate w)) with true by (symmetry; now apply Z.leb_le).
    assert (Hopen : forall k x, delete h (dw_open w) !! k = Some x -> 0 <= x.2 <= x.1 /\ x.1 <> 0) by (intros k x [_ Hk]%lookup_delete_Some; eauto).
    destruct success; [destruct (bytes <=? sg_free (dw_gate w)) eqn:Ef|]; bool_norm; constructor; cbn; auto; unfold due; try lia; try discriminate; intros V; specialize (I5 V); lia.
  - destruct I as [I1 I2 I3 I4 I5 I6]. constructor; cbn; auto; [lia|]. intros V. specialize (I5 V). lia.
Qed.
End World.

(** C27: Reservations, writes within them and their completions in any order, with
    samples of the free space that are right or fail: the free space never falls below
    the floor that every reservation asks for.  The gate's sum is exactly that of the
    open reservations, so completing one never underflows it, and when nothing is
    reserved a request that fits is admitted, however old the last sample is. *)
Theorem space_floor_kept floor minimum interval disk w : 0 <= floor <= disk -> disk <= MaxUint64 -> minimum <> 0 -> 0 < interval -> rtc (space_step floor) (mkDisk (newSpaceGate minimum interval) disk ∅) w ->
  floor <= dw_disk w /\ sg_reserved (dw_gate w) = total_of fst (dw_open w) /\
  (forall h bytes written, dw_open w !! h = Some (bytes, written) -> bytes <= sg_reserved (dw_gate w)) /\
  (forall bytes least count now, dw_open w = ∅ -> 0 < bytes -> 0 < least -> least + bytes <= dw_disk w -> (reserveWithMinimum (dw_gate w) None bytes least count now (Ok (dw_disk w)) (Ok (dw_disk w))).2 = Ok bytes).
Proof.
  intros Hf Hd Hmin Hi Hr. assert (I : space_inv floor w). { assert (I0 : space_inv floor (mkDisk (newSpaceGate minimum interval) disk ∅)) by (constructor; cbn; auto; [intros h x Hx; rewrite lookup_empty in Hx; discriminate|lia|unfold due, total_of; rewrite map_fold_empty; lia|discriminate]). induction Hr as [|? ? ? Hs _ IH]; [exact I0|]. apply IH. now apply (space_step_inv floor _ _ I0). }
  pose proof (due_bounds _ (si_open _ _ I)) as Hdue. split; [destruct (si_floor _ _ I); lia|]. split; [exact (si_reserved _ _ I)|]. split.
  - intros h bytes written Hh. rewrite (si_reserved _ _ I). apply (total_member fst (dw_open w) h (bytes, written)); [|exact Hh]. intros k x Hk. destruct (si_open _ _ I k x Hk). lia.
  - intros bytes least count now Ho Hb Hl Hfit. assert (Hres : sg_reserved (dw_gate w) = 0) by (rewrite (si_reserved _ _ I), Ho; reflexivity). pose proof (si_free _ _ I) as Hfree. destruct (si_floor _ _ I) as [_ Hmax]. destruct (si_config _ _ I) as (C1 & C2 & C3). unfold reserveWithMinimum. rewrite C1. replace (_ || _) with false by (symmetry; repeat (apply orb_false_iff; split); bool_norm; first [reflexivity|apply Z.eqb_neq; lia|apply Z.leb_gt; lia]).
    assert (Hfits : fitsBelow 0 bytes (dw_disk w) least = true) by (apply fitsBelow_spec; lia).
    destruct (negb (sg_valid (dw_gate w)) || _); cbn; rewrite ?Hres, ?Hfits; cbn; rewrite ?Hres, ?Hfits; [reflexivity|].
    destruct (fitsBelow 0 bytes (sg_free (dw_gate w)) least) eqn:Ef; cbn; rewrite ?Hres, ?Ef, ?Hfits; reflexivity.
Qed.

(** A gate with one reservation that is written and completed. *)
Definition demo_gate : spaceGate := newSpaceGate 100 1000.

Lemma space_floor_kept_witness : exists w, rtc (space_step 100) (mkDisk demo_gate 1000 ∅) w /\ dw_disk w = 300 /\ 100 <= dw_disk w.
Proof.
  eexists. split.
  - eapply rtc_l; [eapply (sp_reserve 100 _ 1 800 100 true 5 (Ok 1000) (Ok 1000)); [reflexivity|lia|lia|intros n [= <-]; reflexivity|intros n [= <-]; reflexivity|vm_compute; reflexivity]|].
    eapply rtc_l; [eapply (sp_write 100 _ 1 800 0 700); [reflexivity|lia|lia]|].
    eapply rtc_l; [eapply (sp_complete 100 _ 1 800 (0 + 700) true); reflexivity|]. apply rtc_refl.
  - split; [reflexivity|]. eapply (space_floor_kept 100 100 1000 1000); [lia|lia|lia|lia|].
    eapply rtc_l; [eapply (sp_reserve 100 _ 1 800 100 true 5 (Ok 1000) (Ok 1000)); [reflexivity|lia|lia|intros n [= <-]; reflexivity|intros n [= <-]; reflexivity|vm_compute; reflexivity]|].
    eapply rtc_l; [eapply (sp_write 100 _ 1 800 0 700); [reflexivity|lia|lia]|].
    eapply rtc_l; [eapply (sp_complete 100 _ 1 800 (0 + 700) true); reflexivity|]. apply rtc_refl.
Defined.

(** ** Estimates *)

Lemma checkedGCMul_spec l r : is_u64 l -> is_u64 r -> checkedGCMul l r = if l * r <=? MaxUint64 then Some (l * r) else None.
Proof.
  intros Hl Hr. unfold is_u64 in *. unfold checkedGCMul. destruct (Z.eqb_spec l 0) as [->|Hne]; cbn [negb andb]; [reflexivity|]. destruct (Z.leb_spec (l * r) MaxUint64) as [H|H]; destruct (Z.ltb_spec (MaxUint64 / l) r) as [H'|H']; try reflexivity; exfalso.
  - apply (Z.div_le_lower_bound MaxUint64 l r) in H; lia.
  - assert (l * (MaxUint64 / l) <= MaxUint64) by (apply Z.mul_div_le; lia). nia.
Qed.

Lemma checkedGCAdd_ok values n : Forall (fun v => 0 <= v) values -> checkedGCAdd values = Some n -> n = foldr Z.add 0 values /\ n <= MaxUint64.
Proof.
  unfold checkedGCAdd. intros Hv. assert (H : forall vs r n, Forall (fun v => 0 <= v) vs -> 0 <= r <= MaxUint64 -> checked_sum r vs = Some n -> n = r + foldr Z.add 0 vs /\ n <= MaxUint64).
  { induction vs as [|v vs IH]; intros r m Hvs Hr E; cbn in *; [injection E as <-; lia|]. inversion Hvs; subst. destruct (Z.ltb_spec (MaxUint64 - v) r); [discriminate|]. apply IH in E; [lia|assumption|lia]. }
  intros E. apply H in E; [|exact Hv|lia]. lia.
Qed.

Lemma source_totals_spec sources : forall r c t, Forall (fun s => 0 <= ds_RecordCount s) sources -> source_totals r c sources = Ok t ->
  t = (r + foldr (fun s n => ds_RecordCount s + n) 0 sources, c + foldr (fun s n => ds_ValidEnd s - 64 + n) 0 sources) /\ Forall (fun s => 64 <= ds_ValidEnd s) sources.
Proof.
  induction sources as [|s sources IH]; intros r c t Hs E; cbn [source_totals foldr] in *; [apply Ok_inj in E; subst t; split; [f_equal; lia|constructor]|]. inversion Hs; subst. inv_ok E. apply IH in E as [-> Hall]; [|assumption]. unfold SegmentHeaderSize in *. bool_norm. split; [f_equal; lia|now constructor].
Qed.

(** The estimate of a compaction covers what it can write: as many output files as
    inputs, each at most one segment, a commit record and a batch-id reservation for
    every copied record on its own, and a fresh active segment; when the estimate does
    not fit 64 bits the answer is an overflow and never a smaller number. *)
Theorem copies_estimate_covers segmentSize sources n outputs commits commitPhysical reservePhysical :
  is_u64 segmentSize -> len sources < MaxUint64 -> Forall (fun s => is_u64 (ds_RecordCount s) /\ is_u32 (ds_ValidEnd s)) sources -> gc_copies_estimate segmentSize sources = Ok n ->
  PhysicalRecordSize (CommitGroupHeadSize + DescriptorHeadSize + MutationSize) = Ok commitPhysical -> PhysicalRecordSize FixedRecordSize = Ok reservePhysical ->
  Forall (fun size => 0 <= size <= segmentSize) outputs -> (length outputs <= length sources)%nat -> 0 <= commits <= foldr (fun s n => ds_RecordCount s + n) 0 sources ->
  foldr Z.add 0 outputs + commits * (commitPhysical + reservePhysical) + segmentSize <= n <= MaxUint64.
Proof.
  intros Hz Hlen Hs E Hc Hr Ho Hol Hk. unfold gc_copies_estimate in E. rewrite Hc, Hr in E. cbn [or_overflow fst snd] in E. destruct (source_totals 0 0 sources) as [t|] eqn:Et; [|discriminate]. cbn [or_overflow fst snd] in E. assert (Hs' : Forall (fun s => 0 <= ds_RecordCount s) sources) by (apply (Forall_impl _ _ _ Hs); unfold is_u64; intros; lia). destruct (source_totals_spec _ _ _ _ Hs' Et) as [-> Hv]. cbn [fst snd] in E.
  vm_compute in Hc, Hr. injection Hc as <-. injection Hr as <-. destruct (checkedGCMul _ _) as [control|] eqn:E1 in E; [|discriminate]. cbn [or_overflow fst snd] in E. destruct (checkedGCMul segmentSize _) as [rotation|] eqn:E2 in E; [|discriminate]. cbn [or_overflow fst snd] in E. destruct (checkedGCAdd _) as [m|] eqn:E3; [|discriminate]. cbn [or_overflow fst snd] in E. apply Ok_inj in E. subst m.
  assert (Hcopy : 0 <= foldr (fun s n => ds_ValidEnd s - 64 + n) 0 sources) by (clear -Hv; induction Hv; cbn; lia). unfold checkedGCMul in E1, E2. destruct (_ && _) in E1; [discriminate|]. destruct (_ && _) in E2; [discriminate|]. injection E1 as <-. injection E2 as <-. unfold is_u64 in Hz. pose proof (len_nonneg sources) as Hl0.
  apply checkedGCAdd_ok in E3 as [-> Hmax]; [|repeat constructor; [lia|lia|nia]]. cbn [foldr] in *. assert (Hout : foldr Z.add 0 outputs <= segmentSize * len sources).
  { assert (H : foldr Z.add 0 outputs <= segmentSize * Z.of_nat (length outputs)) by (clear -Ho; induction Ho as [|x l Hx _ IH]; cbn [foldr length]; [lia|]; rewrite Nat2Z.inj_succ; lia). unfold len. nia. }
  split; [nia|lia].
Qed.

Lemma copies_estimate_covers_witness : exists n, gc_copies_estimate 1024 [mkData 1 128 2 0 0; mkData 2 256 3 0 0] = Ok n /\ foldr Z.add 0 [900; 400] + 5 * (136 + 64) + 1024 <= n <= MaxUint64.
Proof.
  eexists. split; [vm_compute; reflexivity|]. apply (copies_estimate_covers 1024 [mkData 1 128 2 0 0; mkData 2 256 3 0 0] _ [900; 400] 5 136 64).
  - unfold is_u64. lia.
  - unfold len. cbn [length]. lia.
  - apply Forall_cons. split; [unfold is_u64, is_u32; cbn; lia|]. apply Forall_cons. split; [unfold is_u64, is_u32; cbn; lia|apply Forall_nil]. exact I.
  - vm_compute. reflexivity.
  - vm_compute. reflexivity.
  - vm_compute. reflexivity.
  - apply Forall_cons. split; [lia|]. apply Forall_cons. split; [lia|apply Forall_nil]. exact I.
  - cbn. lia.
  - cbn. lia.
Defined.

(** ** Pacing *)

Lemma Div64_fits remainder rate : 0 <= remainder < rate -> is_u64 rate -> let '(high, low) := Mul64 remainder Second in exists r, Div64 high low rate = Some (remainder * Second / rate, r).
Proof.
  intros Hr Hu. unfold Mul64, Div64, is_u64 in *. assert (Hh : remainder * Second / two64 < rate) by (apply Z.div_lt_upper_bound; lia). replace (rate =? 0) with false by (symmetry; apply Z.eqb_neq; lia). replace (rate <=? _) with false by (symmetry; apply Z.leb_gt; lia). cbn [orb]. eexists. f_equal. f_equal. f_equal. rewrite (Z.div_mod (remainder * Second) two64) at 3 by lia. lia.
Qed.

Lemma pace_target_spec copied rate : is_u64 copied -> is_u64 rate -> rate <> 0 -> exists r, pace_target copied rate = Some r /\
  match r with Ok t => copied * Second / rate <= t <= copied * Second / rate + 1 /\ t <= MaxInt64 | Err e => e = [base_ErrOverflow] /\ MaxInt64 - 2 * Second < copied * Second / rate end.
Proof.
  intros Hc Hr Hne. unfold is_u64 in *. pose proof (Z.div_mod copied rate Hne) as Hdm. pose proof (Z.mod_pos_bound copied rate ltac:(lia)) as Hm. pose proof (Z.div_pos copied rate ltac:(lia) ltac:(lia)) as Hq. set (q := copied / rate) in *. set (m := copied mod rate) in *.
  assert (Hval : copied * Second / rate = q * Second + m * Second / rate) by (rewrite Hdm; replace ((rate * q + m) * Second) with (m * Second + q * Second * rate) by lia; rewrite Z.div_add by lia; lia). assert (Hlow : 0 <= m * Second / rate < Second) by (split; [apply Z.div_pos; lia|apply Z.div_lt_upper_bound; lia]).
  unfold pace_target. fold q m. change (MaxInt64 / Second) with 9223372036. destruct (Z.ltb_spec 9223372036 q); [eexists; split; [reflexivity|]; rewrite Hval; split; [reflexivity|lia]|]. destruct (Z.eqb_spec m 0) as [Em|Em].
  - eexists. split; [reflexivity|]. rewrite Hval, Em, Z.mul_0_l, Z.div_0_l by lia. lia.
  - pose proof (Div64_fits m rate ltac:(lia) Hr) as Hd. destruct (Mul64 m Second) as [high low]. destruct Hd as [r ->]. set (nanos := if _ =? 0 then 1 else _). assert (Hnanos : m * Second / rate <= nanos <= m * Second / rate + 1) by (unfold nanos; destruct (Z.eqb_spec (m * Second / rate) 0); lia). destruct (Z.ltb_spec (MaxInt64 - q * Second) nanos); (eexists; split; [reflexivity|]); rewrite Hval; [split; [reflexivity|lia]|lia].
Qed.

(** The pacer never divides out of range, and it keeps the rate: when a call returns
    a delay and the caller goes on only after it, the bytes copied since the start are
    below the rate times the elapsed nanoseconds plus one; it waits at most one
    nanosecond more than that needs. *)
Theorem pacer_keeps_rate p copied now finish : is_u64 (gp_rate p) -> is_u64 (gp_copied p) -> is_u64 copied -> copied <> 0 -> gp_rate p <> 0 -> exists p' r, pace p copied now = Some (p', r) /\
  match r with
  | Ok delay => gp_copied p' = gp_copied p + copied /\ 0 <= delay /\ (now + delay <= finish -> gp_copied p' * Second < (finish - gp_started p + 1) * gp_rate p) /\
      (0 < delay -> (now + delay - gp_started p - 1) * gp_rate p <= gp_copied p' * Second)
  | Err e => e = [base_ErrOverflow]
  end.
Proof.
  intros Hr Hc Hn Hne Hr0. unfold pace. replace (copied =? 0) with false by (symmetry; now apply Z.eqb_neq). replace (gp_rate p =? 0) with false by (symmetry; now apply Z.eqb_neq). cbn [orb]. destruct (Z.ltb_spec (MaxUint64 - copied) (gp_copied p)); [exists p, (Err [base_ErrOverflow]); split; reflexivity|]. cbn [gp_copied gp_rate gp_started].
  assert (Hsum : is_u64 (gp_copied p + copied)) by (unfold is_u64 in *; lia). destruct (pace_target_spec _ _ Hsum Hr Hr0) as ([t|e] & -> & Ht); (eexists; eexists; split; [reflexivity|]); [|now destruct Ht]. destruct Ht as [Ht _]. cbn [gp_copied]. set (b := gp_copied p + copied) in *. assert (Hrp : 0 < gp_rate p) by (unfold is_u64 in *; lia).
  pose proof (Z.mul_succ_div_gt (b * Second) (gp_rate p) Hrp) as Hgt. pose proof (Z.mul_div_le (b * Second) (gp_rate p) Hrp) as Hle. split; [reflexivity|]. remember (t - (now - gp_started p)) as d eqn:Ed. set (x := b * Second / gp_rate p) in *. destruct (Z.leb_spec d 0) as [Hd|Hd].
  - split; [lia|]. split; [|lia]. intros Hfin. assert (Ht' : t <= finish - gp_started p) by lia. nia.
  - split; [lia|]. split; intros Hfin; [assert (Ht' : t <= finish - gp_started p) by lia; nia|]. replace (now + d - gp_started p - 1) with (t - 1) by lia. nia.
Qed.

Lemma pacer_keeps_rate_witness : exists p' r, pace (mkPacer 0 0 1000) 5000 0 = Some (p', r) /\ r = Ok (5 * Second).
Proof.
  destruct (pacer_keeps_rate (mkPacer 0 0 1000) 5000 0 (5 * Second)) as (p' & r & E & _); [unfold is_u64; cbn; lia|unfold is_u64; cbn; lia|unfold is_u64; cbn; lia|discriminate|discriminate|]. exists p', r. split; [exact E|]. vm_compute in E. injection E as _ <-. reflexivity.
Defined.
