(* ===== verification/GcCandidate.v ===== *)
(** * Choosing what to compact

    Models [internal/engine/gc_candidate.go]: the candidates that a checkpoint allows,
    the runs of adjacent segments and the choice among them.  Times are nanoseconds. *)
From S2P Require Import Prelude Addr RecordFormat Catalog CatalogSpec CatalogRebase CatalogLog Compaction.

Definition compactionRatioScale : Z := 10000.

Record CompactionPolicy := mkPolicy
  { po_MinReclaimableBytes : Z; po_MinReclaimableRatioBasis : Z; po_MinStableRounds : Z; po_MaxDeathBytesPerCommit : Z; po_MaxDeathBytesPerSecond : Z; po_MinSegmentAge : Z; po_MaxInputSegments : Z; po_BypassCooldown : bool }.

Record gcStabilityView := mkView { sv_Age : Z; sv_StableRounds : Z; sv_LatestDeathBytes : Z; sv_LatestDeathPerCommit : Z; sv_LatestDeathBytesPerSec : Z }.
Definition zeroView : gcStabilityView := mkView 0 0 0 0 0.

Record SegmentCompactionCandidate := mkCandidate
  { cc_Source : DataSegmentSummary; cc_Sources : list DataSegmentSummary; cc_LiveBytesUpper : Z; cc_LiveRecordsUpper : Z; cc_ReclaimableBytesLower : Z; cc_ReclaimableRatioBasis : Z;
    cc_StatsCoveredCommitSeq : Z; cc_CatalogGeneration : Z; cc_StableRounds : Z; cc_DeathBytesPerCommit : Z; cc_DeathBytesPerSecond : Z }.

Definition normalizeCompactionPolicy (p : CompactionPolicy) : CompactionPolicy :=
  mkPolicy (po_MinReclaimableBytes p) (po_MinReclaimableRatioBasis p)
    (if (po_MinStableRounds p =? 0) && negb (po_BypassCooldown p) then 2 else po_MinStableRounds p)
    (po_MaxDeathBytesPerCommit p) (po_MaxDeathBytesPerSecond p) (po_MinSegmentAge p)
    (if po_MaxInputSegments p =? 0 then 4 else po_MaxInputSegments p) (po_BypassCooldown p).

(** The view of a segment, when there is a source of views. *)
Abbreviation stability := (option (Z -> option gcStabilityView)).

Fixpoint stats_ordered (previous : Z) (stats : list SegmentStats) : bool :=
  match stats with
  | [] => true
  | st :: rest => negb ((sst_SegmentID st =? 0) || (sst_SegmentID st <=? previous)) && stats_ordered (sst_SegmentID st) rest
  end.

(** The inner loop moves [statIndex] to the first statistic that is not before [id];
    what is left of the list stands for the index. *)
Fixpoint skip_stats (active id : Z) (stats : list SegmentStats) : res (list SegmentStats) :=
  match stats with
  | st :: rest =>
      if sst_SegmentID st <? id then raise [base_ErrCorrupt] when negb (sst_SegmentID st =? active) ;; skip_stats active id rest
      else Ok stats
  | [] => Ok []
  end.

(** The live bytes and records of the source, and the statistics behind it. *)
Definition take_stat (id : Z) (stats : list SegmentStats) : Z * Z * list SegmentStats :=
  match stats with
  | st :: rest => if sst_SegmentID st =? id then (sst_LiveBytes st, sst_LiveRecords st, rest) else (0, 0, stats)
  | [] => (0, 0, [])
  end.

Definition ratio_basis (reclaimable physical : Z) : Z := ((reclaimable * compactionRatioScale) mod two64 / physical) mod two32.

(** The rest of the loop body: is the segment a candidate? *)
Definition candidate_of (m : Manifest) (policy : CompactionPolicy) (excluded : gset Z) (view : stability) (source : DataSegmentSummary) (liveBytes liveRecords : Z) : res (option SegmentCompactionCandidate) :=
  if bool_decide (ds_SegmentID source ∈ excluded) then Ok None
  else if negb (StatsKnownForSegment (mf_ReplayStart m) source) then Ok None
  else
    raise [base_ErrCorrupt] when ds_ValidEnd source <? SegmentHeaderSize ;;
    let physical := ds_ValidEnd source - SegmentHeaderSize in
    raise [base_ErrCorrupt] when (physical <? liveBytes) || (ds_RecordCount source <? liveRecords) ;;
    let reclaimable := physical - liveBytes in
    if (reclaimable =? 0) || (reclaimable <? po_MinReclaimableBytes policy) then Ok None
    else
      let ratio := ratio_basis reclaimable physical in
      if ratio <? po_MinReclaimableRatioBasis policy then Ok None
      else
        let candidate v := mkCandidate source [source] liveBytes liveRecords reclaimable ratio (mf_StatsCoveredCommitSeq m) (mf_Generation m) (sv_StableRounds v) (sv_LatestDeathPerCommit v) (sv_LatestDeathBytesPerSec v) in
        match (if po_BypassCooldown policy then None else view) with
        | None => Ok (Some (candidate zeroView))
        | Some look =>
            match look (ds_SegmentID source) with
            | None => Ok None
            | Some v => if (sv_StableRounds v <? po_MinStableRounds policy) || (sv_Age v <? po_MinSegmentAge policy) then Ok None else Ok (Some (candidate v))
            end
        end.

(** The loop over the sealed segments; the second result are the statistics left. *)
Fixpoint eligible_loop (m : Manifest) (policy : CompactionPolicy) (excluded : gset Z) (view : stability) (sealed : list DataSegmentSummary) (stats : list SegmentStats) (eligible : list SegmentCompactionCandidate) : res (list SegmentCompactionCandidate * list SegmentStats) :=
  match sealed with
  | [] => Ok (eligible, stats)
  | source :: rest =>
      let! stats := skip_stats (mf_ActiveData m) (ds_SegmentID source) stats in
      let '(liveBytes, liveRecords, stats) := take_stat (ds_SegmentID source) stats in
      let! c := candidate_of m policy excluded view source liveBytes liveRecords in
      eligible_loop m policy excluded view rest stats (eligible ++ option_list c)
  end.

(** The last loop over the statistics: those of the active segment. *)
Fixpoint skip_active (active : Z) (stats : list SegmentStats) : list SegmentStats :=
  match stats with st :: rest => if sst_SegmentID st =? active then skip_active active rest else stats | [] => [] end.

(** *** Runs *)

Definition candidate_physical (c : SegmentCompactionCandidate) : Z := ds_ValidEnd (cc_Source c) - SegmentHeaderSize.

Definition join_candidate (group : SegmentCompactionCandidate) (physical : Z) (next : SegmentCompactionCandidate) : SegmentCompactionCandidate :=
  let reclaimable := add64 (cc_ReclaimableBytesLower group) (cc_ReclaimableBytesLower next) in
  mkCandidate (cc_Source group) (cc_Sources group ++ [cc_Source next]) (add64 (cc_LiveBytesUpper group) (cc_LiveBytesUpper next)) (add64 (cc_LiveRecordsUpper group) (cc_LiveRecordsUpper next)) reclaimable (ratio_basis reclaimable physical)
    (cc_StatsCoveredCommitSeq group) (cc_CatalogGeneration group) (if cc_StableRounds next <? cc_StableRounds group then cc_StableRounds next else cc_StableRounds group)
    (add64 (cc_DeathBytesPerCommit group) (cc_DeathBytesPerCommit next)) (add64 (cc_DeathBytesPerSecond group) (cc_DeathBytesPerSecond next)).

(** The loop over [end]; [last] is the last segment of the group. *)
Fixpoint extend_group (policy : CompactionPolicy) (group : SegmentCompactionCandidate) (last physical : Z) (rest : list SegmentCompactionCandidate) : SegmentCompactionCandidate :=
  match rest with
  | [] => group
  | next :: rest =>
      if negb (len (cc_Sources group) mod two32 <? po_MaxInputSegments policy) then group
      else if negb (ds_SegmentID (cc_Source next) =? (last + 1) mod two32) then group
      else let physical := add64 physical (candidate_physical next) in
           extend_group policy (join_candidate group physical next) (ds_SegmentID (cc_Source next)) physical rest
  end.

Definition group_at (policy : CompactionPolicy) (start : SegmentCompactionCandidate) (rest : list SegmentCompactionCandidate) : SegmentCompactionCandidate :=
  extend_group policy start (ds_SegmentID (cc_Source start)) (candidate_physical start) rest.

Definition betterCompactionCandidate (candidate current : SegmentCompactionCandidate) : bool :=
  if negb (cc_ReclaimableBytesLower candidate =? cc_ReclaimableBytesLower current) then cc_ReclaimableBytesLower current <? cc_ReclaimableBytesLower candidate
  else if negb (cc_LiveBytesUpper candidate =? cc_LiveBytesUpper current) then cc_LiveBytesUpper candidate <? cc_LiveBytesUpper current
  else ds_SegmentID (cc_Source candidate) <? ds_SegmentID (cc_Source current).

(** The loop over [start]. *)
Fixpoint best_group (policy : CompactionPolicy) (best : option SegmentCompactionCandidate) (eligible : list SegmentCompactionCandidate) : option SegmentCompactionCandidate :=
  match eligible with
  | [] => best
  | start :: rest =>
      let group := group_at policy start rest in
      best_group policy (match best with None => Some group | Some b => if betterCompactionCandidate group b then Some group else best end) rest
  end.

Definition selectCompactionCandidate (m : Manifest) (policy : CompactionPolicy) (excluded : gset Z) (view : stability) : res (option SegmentCompactionCandidate) :=
  let policy := normalizeCompactionPolicy policy in
  raise [base_ErrInvalidConfig] when compactionRatioScale <? po_MinReclaimableRatioBasis policy ;;
  raise [base_ErrCorrupt] when negb (mf_StatsCoveredCommitSeq m =? mf_CoveredCommitSeq m) || negb (LogPos_Valid (mf_ReplayStart m)) ;;
  raise [base_ErrCorrupt] when negb (stats_ordered 0 (mf_SegmentStats m)) ;;
  let! x := eligible_loop m policy excluded view (mf_SealedData m) (mf_SegmentStats m) [] in
  raise [base_ErrCorrupt] when negb (bool_decide (skip_active (mf_ActiveData m) x.2 = [])) ;;
  Ok (best_group policy None x.1).

(** * The choice of a compaction is sound and best

    On a valid manifest the selection never reports corruption; what it picks is a run
    of adjacent eligible segments with exact sums, and no other start gives a better
    one. *)

Definition stat_of (stats : list SegmentStats) (id : Z) : option SegmentStats := List.find (fun st => sst_SegmentID st =? id) stats.
Definition live_bytes (stats : list SegmentStats) (id : Z) : Z := match stat_of stats id with Some st => sst_LiveBytes st | None => 0 end.
Definition live_records (stats : list SegmentStats) (id : Z) : Z := match stat_of stats id with Some st => sst_LiveRecords st | None => 0 end.

(** The segments that may be compacted, with what the checkpoint says of them. *)
Definition eligible_of (m : Manifest) (policy : CompactionPolicy) (excluded : gset Z) (view : stability) (stats : list SegmentStats) (s : DataSegmentSummary) : option SegmentCompactionCandidate :=
  match candidate_of m policy excluded view s (live_bytes stats (ds_SegmentID s)) (live_records stats (ds_SegmentID s)) with Ok c => c | Err _ => None end.

Definition sorted_stats (stats : list SegmentStats) : Prop := StronglySorted (fun a b => sst_SegmentID a < sst_SegmentID b) stats.

(** The statistics are within the extent of the segment. *)
Definition extent_ok (stats : list SegmentStats) (s : DataSegmentSummary) : Prop :=
  64 <= ds_ValidEnd s /\ live_bytes stats (ds_SegmentID s) <= ds_ValidEnd s - 64 /\ live_records stats (ds_SegmentID s) <= ds_RecordCount s.

(** ** The walk over segments and statistics *)

Lemma stat_of_skip st stats id : sst_SegmentID st <> id -> stat_of (st :: stats) id = stat_of stats id.
Proof. intros H. unfold stat_of. cbn. now replace (sst_SegmentID st =? id) with false by (symmetry; now apply Z.eqb_neq). Qed.

Lemma stat_of_none stats id : Forall (fun st => id < sst_SegmentID st) stats -> stat_of stats id = None.
Proof. intros H. unfold stat_of. induction H as [|st stats Hst _ IH]; [reflexivity|]. cbn. now replace (sst_SegmentID st =? id) with false by (symmetry; apply Z.eqb_neq; lia). Qed.

Lemma skip_stats_spec active id stats : sorted_stats stats -> (forall st, st ∈ stats -> sst_SegmentID st < id -> sst_SegmentID st = active) ->
  exists pre post, stats = pre ++ post /\ skip_stats active id stats = Ok post /\ Forall (fun st => sst_SegmentID st < id) pre /\ Forall (fun st => id <= sst_SegmentID st) post.
Proof.
  intros Hs Ha. induction Hs as [|st stats Hs IH Hst]; [exists [], []; auto|]. cbn [skip_stats]. destruct (Z.ltb_spec (sst_SegmentID st) id) as [Hlt|Hge].
  - rewrite (Ha st ltac:(now left) Hlt), Z.eqb_refl. cbn [negb]. destruct IH as (pre & post & -> & E & H1 & H2); [intros x Hx; apply Ha; now right|]. exists (st :: pre), post. split; [reflexivity|]. split; [exact E|]. split; [constructor; auto|exact H2].
  - exists [], (st :: stats). split; [reflexivity|]. split; [reflexivity|]. split; [constructor|]. constructor; [lia|]. apply (Forall_impl _ _ _ Hst). lia.
Qed.

Lemma stat_of_app pre post id : Forall (fun st => sst_SegmentID st <> id) pre -> stat_of (pre ++ post) id = stat_of post id.
Proof. intros H. induction H as [|st pre Hst _ IH]; [reflexivity|]. cbn [app]. rewrite stat_of_skip by exact Hst. exact IH. Qed.

Lemma sorted_app {A} (R : A -> A -> Prop) a b : StronglySorted R (a ++ b) -> StronglySorted R b.
Proof. induction a as [|x a IH]; [auto|]. intros H. inversion H. auto. Qed.

Lemma skip_active_all active stats : Forall (fun st => sst_SegmentID st = active) stats -> skip_active active stats = [].
Proof. intros H. induction H as [|st stats Hst _ IH]; [reflexivity|]. cbn. now rewrite Hst, Z.eqb_refl. Qed.

Lemma candidate_of_ok m policy excluded view s stats : extent_ok stats s -> exists c, candidate_of m policy excluded view s (live_bytes stats (ds_SegmentID s)) (live_records stats (ds_SegmentID s)) = Ok c.
Proof.
  intros (H1 & H2 & H3). unfold candidate_of, SegmentHeaderSize. destruct (bool_decide _); [eauto|]. destruct (negb (StatsKnownForSegment _ _)); [eauto|]. replace (ds_ValidEnd s <? 64) with false by (symmetry; apply Z.ltb_ge; lia). replace (_ <? live_bytes _ _) with false by (symmetry; apply Z.ltb_ge; lia). replace (_ <? live_records _ _) with false by (symmetry; apply Z.ltb_ge; lia). cbn [orb]. repeat case_match; eauto.
Qed.

Lemma eligible_loop_spec m policy excluded view sealed : forall stats acc, ascending sealed -> sorted_stats stats -> (forall st, st ∈ stats -> sst_SegmentID st = mf_ActiveData m \/ exists s, s ∈ sealed /\ ds_SegmentID s = sst_SegmentID st) -> (forall s, s ∈ sealed -> extent_ok stats s) ->
  exists left, eligible_loop m policy excluded view sealed stats acc = Ok (acc ++ omap (eligible_of m policy excluded view stats) sealed, left) /\ skip_active (mf_ActiveData m) left = [].
Proof.
  induction sealed as [|s sealed IH]; intros stats acc Hs Hst Hown Hext.
  - exists stats. cbn. rewrite app_nil_r. split; [reflexivity|]. apply skip_active_all, Forall_forall. intros st Hin. destruct (Hown st Hin) as [H|(x & Hx & _)]; [exact H|inversion Hx].
  - inversion Hs as [|? ? Hs' Hlt]; subst. rewrite Forall_forall in Hlt. cbn [eligible_loop].
    destruct (skip_stats_spec (mf_ActiveData m) (ds_SegmentID s) stats Hst) as (pre & post & -> & -> & Hpre & Hpost).
    { intros st Hin Hid. destruct (Hown st Hin) as [H|(x & Hx & Ex)]; [exact H|]. apply elem_of_cons in Hx as [->|Hx]; [lia|]. specialize (Hlt x Hx). lia. }
    assert (Hlive : forall x, x ∈ s :: sealed -> stat_of (pre ++ post) (ds_SegmentID x) = stat_of post (ds_SegmentID x)).
    { intros x Hx. apply stat_of_app. apply (Forall_impl _ _ _ Hpre). intros st Hid. apply elem_of_cons in Hx as [->|Hx]; [lia|]. specialize (Hlt x Hx). lia. }
    pose proof (sorted_app _ _ _ Hst) as Hpost'. destruct (take_stat (ds_SegmentID s) post) as [[lb lr] left] eqn:Et.
    assert (Htake : lb = live_bytes (pre ++ post) (ds_SegmentID s) /\ lr = live_records (pre ++ post) (ds_SegmentID s) /\ sorted_stats left /\ Forall (fun st => ds_SegmentID s < sst_SegmentID st) left /\ (forall st, st ∈ left -> st ∈ pre ++ post) /\ forall x, x ∈ sealed -> stat_of left (ds_SegmentID x) = stat_of (pre ++ post) (ds_SegmentID x)).
    { unfold live_bytes, live_records. rewrite (Hlive s) by now left. destruct post as [|st post]; cbn [take_stat] in Et.
      - injection Et as <- <- <-. repeat (split; [first [reflexivity|constructor]|]). split; [intros st Hin; inversion Hin|]. intros x Hx. now rewrite (Hlive x) by now right.
      - inversion Hpost' as [|? ? Hp1 Hp2]; subst. inversion Hpost as [|? ? Hp3 Hp4]; subst. destruct (Z.eqb_spec (sst_SegmentID st) (ds_SegmentID s)) as [Eq|Ne]; injection Et as <- <- <-.
        + unfold stat_of at 1 2. cbn. rewrite Eq, Z.eqb_refl. split; [reflexivity|]. split; [reflexivity|]. split; [exact Hp1|]. split; [rewrite <- Eq; exact Hp2|]. split; [intros y Hy; apply elem_of_app; right; now right|]. intros x Hx. rewrite (Hlive x) by now right. rewrite stat_of_skip; [reflexivity|]. specialize (Hlt x Hx). lia.
        + assert (Hgt : Forall (fun y => ds_SegmentID s < sst_SegmentID y) (st :: post)) by (constructor; [lia|apply (Forall_impl _ _ _ Hp2); lia]). rewrite (stat_of_none _ _ Hgt). repeat (split; [first [reflexivity|assumption]|]). split; [intros y Hy; apply elem_of_app; now right|]. intros x Hx. now rewrite (Hlive x) by now right. }
    destruct Htake as (-> & -> & L1 & L2 & L3 & L4). destruct (candidate_of_ok m policy excluded view s (pre ++ post) (Hext s ltac:(now left))) as [c Ec]. rewrite Ec.
    destruct (IH left (acc ++ option_list c) Hs' L1) as (left' & -> & Hend).
    + intros st Hin. destruct (Hown st (L3 st Hin)) as [H|(x & Hx & Ex)]; [now left|]. right. apply elem_of_cons in Hx as [->|Hx]; [|eauto]. rewrite Forall_forall in L2. specialize (L2 st Hin). lia.
    + intros x Hx. unfold extent_ok, live_bytes, live_records. rewrite (L4 x Hx). exact (Hext x ltac:(now right)).
    + exists left'. split; [|exact Hend]. f_equal. f_equal. rewrite <- app_assoc. f_equal. cbn [omap list_omap]. unfold eligible_of at 2. rewrite Ec. assert (Hsame : omap (eligible_of m policy excluded view left) sealed = omap (eligible_of m policy excluded view (pre ++ post)) sealed).
      { apply list_omap_ext, Forall_Forall2_diag, Forall_forall. intros x Hx. unfold eligible_of, live_bytes, live_records. now rewrite (L4 x Hx). }
      rewrite Hsame. now destruct c.
Qed.

(** ** A valid manifest *)

Lemma stats_live_facts m stats : forall p live r, stats_live m p live stats = Some r -> sorted_stats stats /\ Forall (fun st => p < sst_SegmentID st /\ sst_SegmentID st <> 0 /\ stat_ok m st = true) stats /\ stats_ordered p stats = true.
Proof.
  induction stats as [|st stats IH]; intros p live r E; [repeat split; constructor|]. cbn [stats_live] in E. destruct (_ || _) eqn:E1 in E; [discriminate|]. destruct (_ || _) in E; [discriminate|]. destruct (stat_ok m st) eqn:E2; [|discriminate]. destruct (IH _ _ _ E) as (H1 & H2 & H3). cbn [stats_ordered]. rewrite E1, H3. bool_norm. split; [constructor; [exact H1|apply (Forall_impl _ _ _ H2); lia]|]. split; [|reflexivity]. constructor; [auto with lia|]. apply (Forall_impl _ _ _ H2). intros x (K1 & K2 & K3). repeat split; auto; lia.
Qed.

Lemma data_set_extent active floor size segs : forall p, data_set_ok active floor size p segs = true -> Forall (fun s => 64 <= ds_ValidEnd s /\ ds_SegmentID s <> active) segs.
Proof.
  induction segs as [|s segs IH]; intros p E; [constructor|]. cbn [data_set_ok] in E. apply andb_true_iff in E as [E Er]. apply andb_true_iff in E as [E1 E2]. constructor; [|exact (IH _ Er)]. unfold data_summary_ok in E2. bool_norm. unfold SegmentHeaderSize in *. lia.
Qed.

Lemma find_data_found l id s : find_data l id = Some s -> s ∈ l /\ ds_SegmentID s = id.
Proof. unfold find_data. intros E. apply List.find_some in E as [E1 E2%Z.eqb_eq]. split; [now apply list_elem_of_In|exact E2]. Qed.

Lemma manifest_walk m : manifest_ok m = true -> Forall (fun s => 0 <= ds_RecordCount s) (mf_SealedData m) -> ascending (mf_SealedData m) /\ sorted_stats (mf_SegmentStats m) /\ stats_ordered 0 (mf_SegmentStats m) = true /\
  (forall st, st ∈ mf_SegmentStats m -> sst_SegmentID st = mf_ActiveData m \/ exists s, s ∈ mf_SealedData m /\ ds_SegmentID s = sst_SegmentID st) /\ (forall s, s ∈ mf_SealedData m -> extent_ok (mf_SegmentStats m) s).
Proof.
  intros Hv Hrc. destruct (manifest_split m Hv) as (_ & _ & Hasc & _). destruct (manifest_facts_of m Hv) as [_ _ _ _ Fd _ _ _]. unfold manifest_ok in Hv. apply andb_true_iff in Hv as [_ Hv]. destruct (stats_live m 0 0 _) as [r|] eqn:El; [|discriminate]. apply stats_live_facts in El as (S1 & S2 & S3). rewrite Forall_forall in S2. rewrite Forall_forall in Hrc. unfold validateDataSet in Fd. bool_norm.
  match goal with H : data_set_ok _ _ _ _ _ = true |- _ => apply data_set_extent in H; rewrite Forall_forall in H; rename H into Hext end. split; [exact Hasc|]. split; [exact S1|]. split; [exact S3|]. split.
  - intros st Hin. destruct (S2 st Hin) as (_ & _ & Hok). unfold stat_ok in Hok. destruct (Z.eqb_spec (sst_SegmentID st) (mf_ActiveData m)); [now left|]. destruct (find_data _ (sst_SegmentID st)) as [s|] eqn:Ef; [|discriminate]. apply find_data_found in Ef. right. eauto.
  - intros s Hin. destruct (Hext s Hin) as [He Hna]. split; [exact He|]. unfold live_bytes, live_records. destruct (stat_of (mf_SegmentStats m) (ds_SegmentID s)) as [st|] eqn:Es; [|split; [lia|exact (Hrc s Hin)]]. apply List.find_some in Es as [Es1 Es2%Z.eqb_eq]. apply list_elem_of_In in Es1. destruct (S2 st Es1) as (_ & _ & Hok). unfold stat_ok in Hok. rewrite Es2 in Hok. destruct (Z.eqb_spec (ds_SegmentID s) (mf_ActiveData m)); [contradiction|].
    rewrite (CatalogLog.find_data_ascending _ _ Hasc Hin) in Hok. unfold SegmentHeaderSize in Hok. bool_norm. split; [|lia]. pose proof (Z.mod_le (ds_ValidEnd s - 64) two32 ltac:(lia) ltac:(lia)). lia.
Qed.

(** ** Runs *)

Definition sumz {A} (f : A -> Z) (l : list A) : Z := foldr (fun x n => f x + n) 0 l.

(** The longest run of adjacent segments, of at most [room]. *)
Fixpoint run_of (room : nat) (last : Z) (rest : list SegmentCompactionCandidate) : list SegmentCompactionCandidate :=
  match room, rest with
  | S room, c :: rest => if ds_SegmentID (cc_Source c) =? last + 1 then c :: run_of room (ds_SegmentID (cc_Source c)) rest else []
  | _, _ => []
  end.

Definition small (c : SegmentCompactionCandidate) : Prop := 0 <= cc_LiveBytesUpper c <= MaxUint32 /\ 0 <= cc_ReclaimableBytesLower c <= MaxUint32 /\ 0 < ds_SegmentID (cc_Source c) <= MaxUint32.

Lemma sum_small (f : SegmentCompactionCandidate -> Z) l : Forall (fun c => 0 <= f c <= MaxUint32) l -> 0 <= sumz f l <= MaxUint32 * len l.
Proof. intros H. unfold len. induction H as [|c l Hc _ IH]; cbn [sumz foldr length]; [lia|]. fold (sumz f l). rewrite Nat2Z.inj_succ. lia. Qed.

Lemma next_id id last : 0 < id <= MaxUint32 -> 0 <= last <= MaxUint32 -> (id =? (last + 1) mod two32) = (id =? last + 1).
Proof.
  intros Hi Hl. destruct (Z.eq_dec last MaxUint32) as [->|Hne]; [|now rewrite Z.mod_small by lia]. change ((MaxUint32 + 1) mod two32) with 0. replace (id =? 0) with false by (symmetry; apply Z.eqb_neq; lia). symmetry. apply Z.eqb_neq. lia.
Qed.

Lemma extend_group_spec policy rest : 0 <= po_MaxInputSegments policy <= MaxUint32 -> Forall small rest -> forall group last physical, 0 < len (cc_Sources group) <= po_MaxInputSegments policy -> 0 <= last <= MaxUint32 ->
  0 <= cc_LiveBytesUpper group <= MaxUint32 * len (cc_Sources group) -> 0 <= cc_ReclaimableBytesLower group <= MaxUint32 * len (cc_Sources group) ->
  let g := extend_group policy group last physical rest in let run := run_of (Z.to_nat (po_MaxInputSegments policy - len (cc_Sources group))) last rest in
  cc_Source g = cc_Source group /\ cc_Sources g = cc_Sources group ++ map cc_Source run /\ cc_CatalogGeneration g = cc_CatalogGeneration group /\ cc_StatsCoveredCommitSeq g = cc_StatsCoveredCommitSeq group /\
  cc_LiveBytesUpper g = cc_LiveBytesUpper group + sumz cc_LiveBytesUpper run /\ cc_ReclaimableBytesLower g = cc_ReclaimableBytesLower group + sumz cc_ReclaimableBytesLower run.
Proof.
  intros Hmax Hsmall. induction Hsmall as [|c rest Hc _ IH]; intros group last physical Hlen Hlast Hlive Hrec; cbv zeta.
  - destruct (Z.to_nat _); cbn; rewrite app_nil_r; repeat split; lia.
  - cbn [extend_group]. rewrite Z.mod_small by lia. destruct (Z.ltb_spec (len (cc_Sources group)) (po_MaxInputSegments policy)) as [Hlt|Hge]; cbn [negb]; [|replace (Z.to_nat _) with 0%nat by lia; cbn; rewrite app_nil_r; repeat split; lia].
    replace (Z.to_nat (po_MaxInputSegments policy - len (cc_Sources group))) with (S (Z.to_nat (po_MaxInputSegments policy - (len (cc_Sources group) + 1)))) by lia. cbn [run_of]. destruct Hc as (C1 & C2 & C3). rewrite (next_id _ _ C3 Hlast). destruct (Z.eqb_spec (ds_SegmentID (cc_Source c)) (last + 1)) as [Eid|Nid]; cbn [negb]; [|cbn; rewrite app_nil_r; repeat split; lia].
    set (p' := add64 physical (candidate_physical c)). set (g' := join_candidate group p' c). assert (Hl : len (cc_Sources g') = len (cc_Sources group) + 1) by (unfold g', join_candidate; cbn [cc_Sources]; unfold len; rewrite length_app; cbn [length]; lia).
    assert (El : cc_LiveBytesUpper g' = cc_LiveBytesUpper group + cc_LiveBytesUpper c) by (unfold g', join_candidate, add64; cbn [cc_LiveBytesUpper]; apply Z.mod_small; nia). assert (Er : cc_ReclaimableBytesLower g' = cc_ReclaimableBytesLower group + cc_ReclaimableBytesLower c) by (unfold g', join_candidate, add64; cbn [cc_ReclaimableBytesLower]; apply Z.mod_small; nia).
    destruct (IH g' (ds_SegmentID (cc_Source c)) p') as (I1 & I2 & I3 & I4 & I5 & I6); rewrite ?Hl, ?El, ?Er; [lia|lia|lia|lia|]. rewrite Hl in *. rewrite I1, I2, I3, I4, I5, I6, El, Er. cbn [sumz foldr map]. fold (sumz cc_LiveBytesUpper (run_of (Z.to_nat (po_MaxInputSegments policy - (len (cc_Sources group) + 1))) (ds_SegmentID (cc_Source c)) rest)). fold (sumz cc_ReclaimableBytesLower (run_of (Z.to_nat (po_MaxInputSegments policy - (len (cc_Sources group) + 1))) (ds_SegmentID (cc_Source c)) rest)).
    unfold g' at 1 2 3 4, join_candidate. cbn [cc_Source cc_Sources cc_CatalogGeneration cc_StatsCoveredCommitSeq]. rewrite <- app_assoc. repeat split; lia.
Qed.

(** ** The best run *)

Lemma better_asym a b : betterCompactionCandidate a b = true -> betterCompactionCandidate b a = false.
Proof.
  unfold betterCompactionCandidate. rewrite (Z.eqb_sym (cc_ReclaimableBytesLower b)), (Z.eqb_sym (cc_LiveBytesUpper b)). destruct (negb _); [rewrite Z.ltb_lt, Z.ltb_ge; lia|]. destruct (negb _); rewrite Z.ltb_lt, Z.ltb_ge; lia.
Qed.

Lemma better_trans a b c : betterCompactionCandidate a b = false -> betterCompactionCandidate b c = false -> betterCompactionCandidate a c = false.
Proof.
  unfold betterCompactionCandidate. destruct (Z.eqb_spec (cc_ReclaimableBytesLower a) (cc_ReclaimableBytesLower b)), (Z.eqb_spec (cc_ReclaimableBytesLower b) (cc_ReclaimableBytesLower c)), (Z.eqb_spec (cc_ReclaimableBytesLower a) (cc_ReclaimableBytesLower c)), (Z.eqb_spec (cc_LiveBytesUpper a) (cc_LiveBytesUpper b)), (Z.eqb_spec (cc_LiveBytesUpper b) (cc_LiveBytesUpper c)), (Z.eqb_spec (cc_LiveBytesUpper a) (cc_LiveBytesUpper c)); cbn [negb]; rewrite !Z.ltb_ge; lia.
Qed.

Lemma better_irrefl a : betterCompactionCandidate a a = false.
Proof. unfold betterCompactionCandidate. rewrite !Z.eqb_refl. apply Z.ltb_irrefl. Qed.

Definition beaten (policy : CompactionPolicy) (l : list SegmentCompactionCandidate) (c : SegmentCompactionCandidate) : Prop := forall pre x post, l = pre ++ x :: post -> betterCompactionCandidate (group_at policy x post) c = false.

Lemma best_group_spec policy l : forall best, match best_group policy best l with
  | None => best = None /\ l = []
  | Some c => (best = Some c \/ exists pre x post, l = pre ++ x :: post /\ c = group_at policy x post) /\ (forall b, best = Some b -> betterCompactionCandidate b c = false) /\ beaten policy l c
  end.
Proof.
  induction l as [|x l IH]; intros best; cbn [best_group].
  - destruct best as [b|]; [|auto]. split; [now left|]. split; [intros b' [= <-]; apply better_irrefl|]. intros pre y post E. destruct pre; discriminate.
  - set (g := group_at policy x l). set (best' := match best with None => Some g | Some b => if betterCompactionCandidate g b then Some g else best end). specialize (IH best'). destruct (best_group policy best' l) as [c|]; [|destruct IH as [IH _]; unfold best' in IH; destruct best as [b|]; [destruct (betterCompactionCandidate g b); discriminate|discriminate]].
    destruct IH as (I1 & I2 & I3). assert (Hb : betterCompactionCandidate g c = false /\ forall b, best = Some b -> betterCompactionCandidate b c = false).
    { unfold best' in *. destruct best as [b|]; [|split; [now apply I2|discriminate]]. destruct (betterCompactionCandidate g b) eqn:Eb.
      - pose proof (I2 g eq_refl) as Hg. split; [exact Hg|]. intros b' [= <-]. apply (better_trans _ g); [now apply better_asym|exact Hg].
      - pose proof (I2 b eq_refl) as Hg. split; [now apply (better_trans _ b)|]. intros b' [= <-]. exact Hg. }
    split; [|split; [exact (proj2 Hb)|]].
    + destruct I1 as [I1|(pre & y & post & -> & ->)]; [|right; exists (x :: pre), y, post; auto]. unfold best' in I1. destruct best as [b|]; [destruct (betterCompactionCandidate g b); [|now left]|]; injection I1 as <-; right; exists [], x, l; auto.
    + intros [|z pre] y post E; [injection E as <- <-; exact (proj1 Hb)|]. injection E as <- E. now apply (I3 pre).
Qed.

(** ** What an eligible segment is *)

Record eligible_facts (m : Manifest) (policy : CompactionPolicy) (excluded : gset Z) (view : stability) (s : DataSegmentSummary) (c : SegmentCompactionCandidate) : Prop := mkEligible {
  ef_source : cc_Source c = s /\ cc_Sources c = [s] /\ cc_CatalogGeneration c = mf_Generation m /\ cc_StatsCoveredCommitSeq c = mf_StatsCoveredCommitSeq m;
  ef_allowed : ds_SegmentID s ∉ excluded /\ StatsKnownForSegment (mf_ReplayStart m) s = true;
  ef_live : cc_LiveBytesUpper c = live_bytes (mf_SegmentStats m) (ds_SegmentID s) /\ cc_LiveBytesUpper c + cc_ReclaimableBytesLower c = ds_ValidEnd s - 64;
  ef_bytes : 0 < cc_ReclaimableBytesLower c /\ po_MinReclaimableBytes policy <= cc_ReclaimableBytesLower c;
  ef_ratio : po_MinReclaimableRatioBasis policy * (ds_ValidEnd s - 64) <= cc_ReclaimableBytesLower c * 10000;
  ef_stable : po_BypassCooldown policy = true \/ view = None \/ exists look v, view = Some look /\ look (ds_SegmentID s) = Some v /\ po_MinStableRounds policy <= sv_StableRounds v /\ po_MinSegmentAge policy <= sv_Age v;
}.

Lemma ratio_exact policy reclaimable physical : 0 < reclaimable <= physical -> physical <= MaxUint32 -> 0 <= po_MinReclaimableRatioBasis policy -> (ratio_basis reclaimable physical <? po_MinReclaimableRatioBasis policy) = false -> po_MinReclaimableRatioBasis policy * physical <= reclaimable * 10000.
Proof.
  intros Hr Hp Hm E. apply Z.ltb_ge in E. unfold ratio_basis, compactionRatioScale in E. rewrite (Z.mod_small (reclaimable * 10000)) in E by lia. assert (Hq : 0 <= reclaimable * 10000 / physical <= 10000) by (split; [apply Z.div_pos; lia|apply Z.div_le_upper_bound; nia]). rewrite Z.mod_small in E by lia. pose proof (Z.mul_div_le (reclaimable * 10000) physical ltac:(lia)). nia.
Qed.

Lemma eligible_of_facts m policy excluded view s c : 0 <= live_bytes (mf_SegmentStats m) (ds_SegmentID s) -> ds_ValidEnd s <= MaxUint32 -> 0 <= po_MinReclaimableRatioBasis policy -> eligible_of m policy excluded view (mf_SegmentStats m) s = Some c -> eligible_facts m policy excluded view s c.
Proof.
  intros Hl Hv Hm E. unfold eligible_of, candidate_of, SegmentHeaderSize in E. destruct (bool_decide_reflect (ds_SegmentID s ∈ excluded)) as [|Hx]; [discriminate|]. destruct (StatsKnownForSegment _ _) eqn:Ek; [|discriminate]. cbn [negb] in E. destruct (Z.ltb_spec (ds_ValidEnd s) 64) as [|He]; [discriminate|]. destruct (Z.ltb_spec (ds_ValidEnd s - 64) (live_bytes (mf_SegmentStats m) (ds_SegmentID s))) as [|Hb]; [discriminate|]. cbn [orb] in E. destruct (_ <? live_records _ _); [discriminate|].
  set (rc := ds_ValidEnd s - 64 - live_bytes (mf_SegmentStats m) (ds_SegmentID s)) in *. destruct (Z.eqb_spec rc 0) as [|Hz]; [discriminate|]. destruct (Z.ltb_spec rc (po_MinReclaimableBytes policy)) as [|Hmin]; [discriminate|]. cbn [orb] in E. destruct (ratio_basis _ _ <? _) eqn:Er; [discriminate|]. assert (Hrc : 0 < rc <= ds_ValidEnd s - 64) by (unfold rc in *; lia). pose proof (ratio_exact policy rc _ Hrc ltac:(lia) Hm Er) as Hratio.
  assert (Hmk : forall v, (po_BypassCooldown policy = true \/ view = None \/ exists look w, view = Some look /\ look (ds_SegmentID s) = Some w /\ po_MinStableRounds policy <= sv_StableRounds w /\ po_MinSegmentAge policy <= sv_Age w) ->
    eligible_facts m policy excluded view s (mkCandidate s [s] (live_bytes (mf_SegmentStats m) (ds_SegmentID s)) (live_records (mf_SegmentStats m) (ds_SegmentID s)) rc (ratio_basis rc (ds_ValidEnd s - 64)) (mf_StatsCoveredCommitSeq m) (mf_Generation m) (sv_StableRounds v) (sv_LatestDeathPerCommit v) (sv_LatestDeathBytesPerSec v))).
  { intros v Hst. constructor; cbn [cc_Source cc_Sources cc_CatalogGeneration cc_StatsCoveredCommitSeq cc_LiveBytesUpper cc_ReclaimableBytesLower]; auto; [unfold rc; lia|lia]. }
  destruct (po_BypassCooldown policy) eqn:Eb; [injection E as <-; apply (Hmk zeroView); auto|]. destruct view as [look|]; [|injection E as <-; apply (Hmk zeroView); auto]. destruct (look (ds_SegmentID s)) as [v|] eqn:Ev; [|discriminate]. destruct (_ || _) eqn:Eo in E; [discriminate|]. injection E as <-. bool_norm. apply (Hmk v). right; right. exists look, v. auto.
Qed.

Lemma live_bytes_nonneg m s : manifest_u m -> 0 <= live_bytes (mf_SegmentStats m) (ds_SegmentID s).
Proof.
  intros Hu. destruct (mu_stats _ Hu) as [_ Hs]. rewrite Forall_forall in Hs. unfold live_bytes. destruct (stat_of _ _) as [st|] eqn:Es; [|lia]. apply List.find_some in Es as [Es _]. apply list_elem_of_In in Es. destruct (Hs st Es) as (_ & H & _). unfold is_u64 in H. lia.
Qed.

Lemma sealed_nonzero m : manifest_ok m = true -> forall s, s ∈ mf_SealedData m -> ds_SegmentID s <> 0.
Proof.
  intros Hv. destruct (manifest_facts_of m Hv) as [_ _ _ _ Fd _ _ _]. unfold validateDataSet in Fd. apply andb_true_iff in Fd as [Fd _]. apply andb_true_iff in Fd as [_ Fd]. revert Fd. generalize 0 at 1. generalize (mf_SealedData m). induction l as [|s l IH]; intros z E x Hx; [inversion Hx|]. cbn [data_set_ok] in E. apply andb_true_iff in E as [E Er]. apply elem_of_cons in Hx as [->|Hx]; [bool_norm; assumption|exact (IH _ Er x Hx)].
Qed.

Lemma eligible_small m policy excluded view s c : manifest_u m -> s ∈ mf_SealedData m -> ds_SegmentID s <> 0 -> 0 <= po_MinReclaimableRatioBasis policy -> eligible_of m policy excluded view (mf_SegmentStats m) s = Some c -> eligible_facts m policy excluded view s c /\ small c.
Proof.
  intros Hu Hin Hz Hm E. pose proof (mu_data _ Hu) as Hd. rewrite Forall_forall in Hd. destruct (Hd s Hin) as (D1 & D2 & _). unfold is_u32 in *. pose proof (live_bytes_nonneg m s Hu) as Hl.
  pose proof (eligible_of_facts m policy excluded view s c Hl ltac:(lia) Hm E) as F. split; [exact F|]. destruct F as [(F1 & _) _ [F2 F3] [F4 _] _ _]. unfold small. rewrite F1. lia.
Qed.

Definition policy_u (p : CompactionPolicy) : Prop := 0 <= po_MinReclaimableRatioBasis p <= 10000 /\ is_u32 (po_MaxInputSegments p).

(** What the policy asks of a segment, by what the checkpoint says of it. *)
Record meets (m : Manifest) (policy : CompactionPolicy) (excluded : gset Z) (view : stability) (s : DataSegmentSummary) : Prop := mkMeets {
  me_allowed : ds_SegmentID s ∉ excluded /\ StatsKnownForSegment (mf_ReplayStart m) s = true;
  me_bytes : let garbage := ds_ValidEnd s - 64 - live_bytes (mf_SegmentStats m) (ds_SegmentID s) in
    0 < garbage /\ po_MinReclaimableBytes policy <= garbage /\ po_MinReclaimableRatioBasis policy * (ds_ValidEnd s - 64) <= garbage * 10000;
  me_stable : po_BypassCooldown policy = true \/ view = None \/ exists look v, view = Some look /\ look (ds_SegmentID s) = Some v /\ po_MinStableRounds policy <= sv_StableRounds v /\ po_MinSegmentAge policy <= sv_Age v;
}.

Lemma eligible_complete m policy excluded view s : extent_ok (mf_SegmentStats m) s -> 0 <= live_bytes (mf_SegmentStats m) (ds_SegmentID s) -> ds_ValidEnd s <= MaxUint32 -> meets m policy excluded view s -> exists c, eligible_of m policy excluded view (mf_SegmentStats m) s = Some c.
Proof.
  intros (X1 & X2 & X3) Hl Hv [[M1 M2] (B1 & B2 & B3) M4]. unfold eligible_of, candidate_of, SegmentHeaderSize. rewrite bool_decide_eq_false_2 by exact M1. rewrite M2. cbn [negb]. replace (ds_ValidEnd s <? 64) with false by (symmetry; apply Z.ltb_ge; lia). replace (_ <? live_bytes _ _) with false by (symmetry; apply Z.ltb_ge; lia). replace (_ <? live_records _ _) with false by (symmetry; apply Z.ltb_ge; lia). cbn [orb].
  set (g := ds_ValidEnd s - 64 - live_bytes (mf_SegmentStats m) (ds_SegmentID s)) in *. assert (Hg : g <= ds_ValidEnd s - 64) by (unfold g; lia). replace (g =? 0) with false by (symmetry; apply Z.eqb_neq; lia). replace (g <? _) with false by (symmetry; apply Z.ltb_ge; lia). cbn [orb].
  assert (Hr : po_MinReclaimableRatioBasis policy <= ratio_basis g (ds_ValidEnd s - 64)).
  { unfold ratio_basis, compactionRatioScale. rewrite (Z.mod_small (g * 10000)) by lia. assert (Hq : 0 <= g * 10000 / (ds_ValidEnd s - 64) <= 10000) by (split; [apply Z.div_pos; lia|apply Z.div_le_upper_bound; nia]). rewrite Z.mod_small by lia. apply Z.div_le_lower_bound; nia. }
  replace (_ <? po_MinReclaimableRatioBasis policy) with false by (symmetry; now apply Z.ltb_ge). destruct (po_BypassCooldown policy) eqn:Eb; [eauto|]. destruct M4 as [M4|[->|(look & v & -> & E & M5 & M6)]]; [discriminate|eauto|]. rewrite E. replace (_ <? po_MinStableRounds policy) with false by (symmetry; now apply Z.ltb_ge). replace (_ <? po_MinSegmentAge policy) with false by (symmetry; now apply Z.ltb_ge). eauto.
Qed.

(** The longest run from a start, and the order of runs: more garbage, then fewer live
    bytes, then the lower segment. *)
Definition run_from (p : CompactionPolicy) (x : SegmentCompactionCandidate) (post : list SegmentCompactionCandidate) : list SegmentCompactionCandidate :=
  x :: run_of (Z.to_nat (po_MaxInputSegments p - 1)) (ds_SegmentID (cc_Source x)) post.
Definition preferred (c : SegmentCompactionCandidate) (garbage live id : Z) : Prop :=
  garbage < cc_ReclaimableBytesLower c \/
  garbage = cc_ReclaimableBytesLower c /\ (cc_LiveBytesUpper c < live \/ live = cc_LiveBytesUpper c /\ ds_SegmentID (cc_Source c) <= id).

Lemma better_preferred g c : betterCompactionCandidate g c = false -> preferred c (cc_ReclaimableBytesLower g) (cc_LiveBytesUpper g) (ds_SegmentID (cc_Source g)).
Proof. unfold betterCompactionCandidate, preferred. destruct (Z.eqb_spec (cc_ReclaimableBytesLower g) (cc_ReclaimableBytesLower c)), (Z.eqb_spec (cc_LiveBytesUpper g) (cc_LiveBytesUpper c)); cbn [negb]; rewrite Z.ltb_ge; lia. Qed.

Lemma group_at_run p x post : 1 <= po_MaxInputSegments p <= MaxUint32 -> small x -> Forall small post -> cc_Sources x = [cc_Source x] ->
  let g := group_at p x post in let run := run_from p x post in
  cc_Source g = cc_Source x /\ cc_Sources g = map cc_Source run /\ cc_CatalogGeneration g = cc_CatalogGeneration x /\ cc_LiveBytesUpper g = sumz cc_LiveBytesUpper run /\ cc_ReclaimableBytesLower g = sumz cc_ReclaimableBytesLower run.
Proof.
  intros Hp (K1 & K2 & K3) Hpost Hs g run. unfold g, run, run_from, group_at. pose proof (extend_group_spec p post ltac:(lia) Hpost x (ds_SegmentID (cc_Source x)) (candidate_physical x)) as G. rewrite Hs in G. change (len [cc_Source x]) with 1 in G. destruct G as (G1 & G2 & G3 & _ & G5 & G6); [lia|lia|lia|lia|]. cbn [map sumz foldr]. auto.
Qed.

(** C26: On a valid manifest the selection always succeeds.  The segments it considers are
    exactly the sealed ones that are not excluded, that the checkpoint knows, whose
    garbage reaches the policy's bytes and ratio, and that are stable and old enough.
    It answers nothing only when there is none; otherwise it answers the longest
    run of adjacent considered segments from some start, up to the policy's maximum,
    with exact sums of live and reclaimable bytes, and every other start gives a run
    with less garbage, or as much with more live bytes, or the same of both at a
    higher segment. *)
Theorem compaction_choice m policy excluded view : manifest_ok m = true -> manifest_u m -> policy_u policy -> let p := normalizeCompactionPolicy policy in let eligible := omap (eligible_of m p excluded view (mf_SegmentStats m)) (mf_SealedData m) in
  (forall s, s ∈ mf_SealedData m -> meets m p excluded view s <-> exists c, c ∈ eligible /\ cc_Source c = s) /\
  (forall c, c ∈ eligible -> eligible_facts m p excluded view (cc_Source c) c) /\
  exists answer, selectCompactionCandidate m policy excluded view = Ok answer /\
    match answer with
    | None => eligible = []
    | Some c => exists pre x post, eligible = pre ++ x :: post /\
        cc_Source c = cc_Source x /\ cc_Sources c = map cc_Source (run_from p x post) /\ cc_CatalogGeneration c = mf_Generation m /\
        cc_LiveBytesUpper c = sumz cc_LiveBytesUpper (run_from p x post) /\ cc_ReclaimableBytesLower c = sumz cc_ReclaimableBytesLower (run_from p x post) /\
        (forall pre' y post', eligible = pre' ++ y :: post' -> preferred c (sumz cc_ReclaimableBytesLower (run_from p y post')) (sumz cc_LiveBytesUpper (run_from p y post')) (ds_SegmentID (cc_Source y)))
    end.
Proof.
  intros Hv Hu (Hp1 & Hp2) p eligible. assert (Hpm : 1 <= po_MaxInputSegments p <= MaxUint32 /\ 0 <= po_MinReclaimableRatioBasis p <= 10000) by (unfold p, normalizeCompactionPolicy, is_u32 in *; cbn; destruct (Z.eqb_spec (po_MaxInputSegments policy) 0); lia). pose proof (mu_data _ Hu) as Hd. rewrite Forall_forall in Hd.
  destruct (manifest_walk m Hv) as (W1 & W2 & W3 & W4 & W5); [apply Forall_forall; intros s Hs; destruct (Hd s Hs) as (_ & _ & H & _); unfold is_u64 in H; lia|]. pose proof (sealed_nonzero m Hv) as Hids.
  assert (Hel : forall c, c ∈ eligible -> exists s, s ∈ mf_SealedData m /\ eligible_facts m p excluded view s c /\ small c).
  { intros c Hc. apply list_elem_of_omap in Hc as (s & Hs & Ec). exists s. split; [exact Hs|]. apply eligible_small; auto. lia. }
  assert (Hrun : forall pre x post, eligible = pre ++ x :: post -> small x /\ Forall small post /\ cc_Sources x = [cc_Source x] /\ cc_CatalogGeneration x = mf_Generation m).
  { intros pre x post E. destruct (Hel x) as (s & _ & [(F1 & F2 & F3 & _) _ _ _ _ _] & Hsm); [rewrite E; apply elem_of_app; right; now left|]. split; [exact Hsm|]. split; [|split; [congruence|exact F3]]. apply Forall_forall. intros y Hy. destruct (Hel y) as (_ & _ & _ & H); [rewrite E; apply elem_of_app; right; now right|exact H]. }
  split; [|split].
  - intros s Hs. split.
    + intros M. destruct (Hd s Hs) as (_ & D2 & _). unfold is_u32 in D2. destruct (eligible_complete m p excluded view s (W5 s Hs) (live_bytes_nonneg m s Hu) ltac:(lia) M) as [c Ec]. exists c. split; [apply list_elem_of_omap; eauto|]. destruct (eligible_small m p excluded view s c Hu Hs (Hids s Hs) ltac:(lia) Ec) as [[(F1 & _) _ _ _ _ _] _]. exact F1.
    + intros (c & Hc & Es). destruct (Hel c Hc) as (s' & Hs' & [(F1 & _) A [L1 L2] [G1 G2] R T] & _). assert (s' = s) as -> by congruence. split; [exact A| |exact T]. cbv zeta. rewrite <- L1. replace (ds_ValidEnd s - 64 - cc_LiveBytesUpper c) with (cc_ReclaimableBytesLower c) by lia. auto.
  - intros c Hc. destruct (Hel c Hc) as (s & _ & F & _). pose proof (ef_source _ _ _ _ _ _ F) as (F1 & _). now rewrite F1.
  - unfold selectCompactionCandidate. fold p. replace (compactionRatioScale <? _) with false by (symmetry; apply Z.ltb_ge; unfold compactionRatioScale; lia).
    pose proof (mv_pos _ (manifest_facts_of m Hv)) as Hpos. assert (Hcov : mf_StatsCoveredCommitSeq m = mf_CoveredCommitSeq m) by (unfold manifest_ok in Hv; bool_norm; assumption). rewrite Hcov, Z.eqb_refl, Hpos, W3. cbn [negb orb]. destruct (eligible_loop_spec m p excluded view _ _ [] W1 W2 W4 W5) as (left & -> & Hend). cbn [fst snd app]. rewrite Hend, bool_decide_eq_true_2 by reflexivity. cbn [negb]. fold eligible. eexists. split; [reflexivity|].
    pose proof (best_group_spec p eligible None) as B. destruct (best_group p None eligible) as [c|]; [|now destruct B]. destruct B as ([B|(pre & x & post & E & ->)] & _ & B3); [discriminate|]. exists pre, x, post. split; [exact E|]. destruct (Hrun _ _ _ E) as (R1 & R2 & R3 & R4). destruct (group_at_run p x post (proj1 Hpm) R1 R2 R3) as (G1 & G2 & G3 & G4 & G5). repeat (split; [congruence|]).
    intros pre' y post' E'. destruct (Hrun _ _ _ E') as (Y1 & Y2 & Y3 & _). destruct (group_at_run p y post' (proj1 Hpm) Y1 Y2 Y3) as (G1' & _ & _ & G4' & G5'). pose proof (better_preferred _ _ (B3 _ _ _ E')) as Hb. now rewrite G1', G4', G5' in Hb.
Qed.

Definition any_policy : CompactionPolicy := mkPolicy 1 5000 0 0 0 0 4 true.

Lemma compaction_choice_witness : exists c, selectCompactionCandidate demo_full any_policy ∅ None = Ok (Some c) /\ map ds_SegmentID (cc_Sources c) = [1] /\ cc_ReclaimableBytesLower c = 64.
Proof.
  destruct (compaction_choice demo_full any_policy ∅ None) as (_ & _ & answer & E & _); [vm_compute; reflexivity|exact demo_full_u|unfold policy_u, is_u32; cbn; lia|]. destruct answer as [c|]; [|vm_compute in E; discriminate]. exists c. split; [exact E|]. vm_compute in E. injection E as <-. split; reflexivity.
Defined.
