(* ===== verification/Scheduler.v ===== *)
(** * The maintenance scheduler

    Models [internal/engine/maintenance_scheduler.go]: the actor that admits and
    coalesces requests, grants resources, runs the phases of workers, resumes the
    dependents of a job, preempts, cancels and shuts down.  A case of the actor's
    [select] is one function.  A job is known by its id, as the source knows it by
    its pointer; a channel of a waiter by a number; what was sent on them is a field
    of the state.  The cancel function of a running phase is an optional flag that
    says whether its context is cancelled.  Durations of waiting and running, and the
    counters of metrics, are not part of the model. *)
From stdpp Require Import strings.
From S2P Require Import Prelude Addr Catalog Compaction GcCandidate.

(** ** Errors with their structure

    [onlyContextCanceled] looks at how an error is put together, so an error here is a
    tree: a sentinel, an anonymous error, a wrapper, a join, and the two error types
    of the engine that [errors.As] looks for. *)

Inductive serr :=
| ELeaf (e : sentinel)
| EText
| EWrap (e : serr)
| EJoin (es : list serr)
| EConflict (cause : serr)
| EDependency (generation : Z).

Fixpoint errors_Is (target : sentinel) (e : serr) : bool :=
  match e with
  | ELeaf s => bool_decide (s = target)
  | EText | EDependency _ => false
  | EWrap e | EConflict e => errors_Is target e
  | EJoin es => existsb (errors_Is target) es
  end.

Fixpoint onlyContextCanceled (e : serr) : bool :=
  match e with
  | ELeaf s => bool_decide (s = context_Canceled)
  | EText | EDependency _ => false
  | EWrap e | EConflict e => onlyContextCanceled e
  | EJoin es => match es with [] => false | _ => forallb onlyContextCanceled es end
  end.

Definition only_canceled (err : option serr) : bool := match err with None => false | Some e => onlyContextCanceled e end.

(** ** Requests and results *)

Definition maintenanceHeavyIO : Z := 1.
Definition maintenanceMappingWriter : Z := 2.
Definition maintenanceRecoveryProtocol : Z := 4.

Definition maintenancePriorityMapping : Z := 1.
Definition maintenancePrioritySegment : Z := 2.
Definition maintenancePriorityCheckpoint : Z := 3.

Definition maintenanceCheckpointRequest : Z := 1.
Definition maintenanceSegmentRelocateRequest : Z := 2.
Definition maintenanceSegmentPrepareRequest : Z := 3.
Definition maintenanceSegmentCompactRequest : Z := 4.
Definition maintenanceSegmentNextRequest : Z := 5.
Definition maintenanceMappingGCRequest : Z := 6.
Definition maintenanceMappingSurveyRequest : Z := 7.

Record maintenanceRequest := mkRequest
  { rq_kind : Z; rq_source : Z; rq_policy : CompactionPolicy; rq_generation : Z; rq_gcAdmission : bool; rq_force : bool; rq_periodic : bool; rq_background : bool; rq_automatic : bool }.

Definition zeroPolicy : CompactionPolicy := mkPolicy 0 0 0 0 0 0 0 false.
Definition request_of (kind : Z) : maintenanceRequest := mkRequest kind 0 zeroPolicy 0 false false false false false.
Definition zeroRequest : maintenanceRequest := request_of 0.

Record SegmentCompactionResult := mkCompacted
  { cr_Relocation : SegmentRelocationResult; cr_Proof : SegmentRetirementProof; cr_Proofs : list SegmentRetirementProof; cr_Outputs : list DataSegmentSummary }.
Record mappingUsage := mkUsage { mu_generation : Z; mu_physicalBytes : Z; mu_reachableBytes : Z; mu_root : Z }.
Record maintenanceResult := mkResult
  { mr_relocation : SegmentRelocationResult; mr_proof : SegmentRetirementProof; mr_compaction : SegmentCompactionResult;
    mr_candidate : SegmentCompactionCandidate; mr_nextCompaction : SegmentCompactionResult; mr_found : bool; mr_usage : option mappingUsage }.

Definition zeroData : DataSegmentSummary := mkData 0 0 0 0 0.
Definition zeroProof : SegmentRetirementProof := mkProof zeroData 0 0 (mkPos 0 0) 0.
Definition zeroCompacted : SegmentCompactionResult := mkCompacted zeroRelocated zeroProof [] [].
Definition zeroCandidate : SegmentCompactionCandidate := mkCandidate zeroData [] 0 0 0 0 0 0 0 0 0.
Definition zeroResult : maintenanceResult := mkResult zeroRelocated zeroProof zeroCompacted zeroCandidate zeroCompacted false None.

Definition maintenancePhaseStart : Z := 1.
Definition maintenancePhaseCopy : Z := 2.
Definition maintenancePhaseProve : Z := 3.
Definition maintenancePhaseRetire : Z := 4.
Definition maintenancePhasePublish : Z := 5.
Definition maintenancePhaseCleanup : Z := 6.

Record maintenanceTransition := mkTransition
  { tr_next : Z; tr_retain : Z; tr_dependency : option maintenanceRequest; tr_result : maintenanceResult; tr_done : bool; tr_retryAfter : Z; tr_err : option serr }.

Record maintenanceCompletion := mkCompletion { mc_result : maintenanceResult; mc_err : option serr }.
Record maintenanceWaiter := mkWaiter { wt_id : Z; wt_chan : Z }.

Record MaintenanceConfig := mkMaintenance
  { mg_Enabled : bool; mg_Interval : Z; mg_DisableSegmentGC : bool; mg_DisableMappingGC : bool; mg_SegmentPolicy : CompactionPolicy;
    mg_MappingMinReclaimableBytes : Z; mg_MappingMinReclaimableRatioBasis : Z; mg_MappingMinInterval : Z }.

(** Coalescing key, priority, whether a request that meets a running job makes it run
    again, and whether a running job may be preempted. *)
Definition maintenanceRequestPolicy (r : maintenanceRequest) : option (string * Z * bool * bool) :=
  let k := rq_kind r in
  if k =? maintenanceCheckpointRequest then Some ("checkpoint"%string, maintenancePriorityCheckpoint, true, false)
  else if k =? maintenanceMappingGCRequest then Some ("mapping-gc"%string, maintenancePriorityMapping, false, true)
  else if k =? maintenanceMappingSurveyRequest then Some ("mapping-survey"%string, maintenancePriorityMapping, false, true)
  else if (k =? maintenanceSegmentRelocateRequest) || (k =? maintenanceSegmentPrepareRequest) || (k =? maintenanceSegmentCompactRequest) || (k =? maintenanceSegmentNextRequest) then
    if rq_background r then Some ("segment-auto"%string, maintenancePrioritySegment, false, false) else Some (""%string, maintenancePrioritySegment, false, false)
  else None.

Definition mergeMaintenanceRequest (current incoming : maintenanceRequest) : maintenanceRequest :=
  if rq_kind current =? 0 then incoming
  else mkRequest (rq_kind current) (rq_source current) (rq_policy current) (if rq_generation current <? rq_generation incoming then rq_generation incoming else rq_generation current)
    (rq_gcAdmission current || rq_gcAdmission incoming) (rq_force current || rq_force incoming) (rq_periodic current || rq_periodic incoming)
    (rq_background current || rq_background incoming) (rq_automatic current || rq_automatic incoming).

Definition invalid_transition : serr := EJoin [ELeaf base_ErrInvalidConfig; EText].

Definition validateMaintenanceTransition (t : maintenanceTransition) (owned : Z) : option serr :=
  if negb (Z.ldiff (tr_retain t) owned =? 0) then Some invalid_transition
  else if tr_done t then
    if match tr_dependency t with Some _ => true | None => false end || negb (tr_next t =? 0) || negb (tr_retain t =? 0) || negb (tr_retryAfter t =? 0) then Some invalid_transition else None
  else match tr_err t with
  | Some _ => Some invalid_transition
  | None =>
    if (tr_next t <? maintenancePhaseStart) || (maintenancePhaseCleanup <? tr_next t) then Some invalid_transition
    else match tr_dependency t with
    | None => None
    | Some d =>
      if negb (tr_retryAfter t =? 0) then Some invalid_transition
      else match maintenanceRequestPolicy d with None => Some invalid_transition | Some _ => None end
    end
  end.

(** ** The actor over a type of workers

    [Resources] and [factory] are the methods of the worker and factory interfaces. *)

Section Actor.
Context {W : Type} (Resources : W -> Z -> Z) (factory : option (maintenanceRequest -> serr + W)).

Inductive worker := Plain (w : W) | failedDependencyWorker (next : worker) (err : serr).

Fixpoint worker_Resources (w : worker) (phase : Z) : Z := match w with Plain w => Resources w phase | failedDependencyWorker next _ => worker_Resources next phase end.

Record maintenanceJob := mkJob
  { jb_id : Z; jb_sequence : Z; jb_request : maintenanceRequest; jb_key : string; jb_priority : Z; jb_phase : Z; jb_worker : worker; jb_waiters : gmap Z maintenanceWaiter; jb_nextWaiters : gmap Z maintenanceWaiter; jb_background : bool; jb_nextBackground : bool; jb_runAgain : bool; jb_nextRequest : maintenanceRequest; jb_dependencyResult : maintenanceResult; jb_dependents : gset Z; jb_nextDependents : gset Z; jb_waiting : bool; jb_held : Z; jb_running : Z; jb_cancel : option bool; jb_preempted : bool }.

Definition jb_set_sequence (v : Z) (x : maintenanceJob) : maintenanceJob := mkJob (jb_id x) v (jb_request x) (jb_key x) (jb_priority x) (jb_phase x) (jb_worker x) (jb_waiters x) (jb_nextWaiters x) (jb_background x) (jb_nextBackground x) (jb_runAgain x) (jb_nextRequest x) (jb_dependencyResult x) (jb_dependents x) (jb_nextDependents x) (jb_waiting x) (jb_held x) (jb_running x) (jb_cancel x) (jb_preempted x).
Definition jb_set_request (v : maintenanceRequest) (x : maintenanceJob) : maintenanceJob := mkJob (jb_id x) (jb_sequence x) v (jb_key x) (jb_priority x) (jb_phase x) (jb_worker x) (jb_waiters x) (jb_nextWaiters x) (jb_background x) (jb_nextBackground x) (jb_runAgain x) (jb_nextRequest x) (jb_dependencyResult x) (jb_dependents x) (jb_nextDependents x) (jb_waiting x) (jb_held x) (jb_running x) (jb_cancel x) (jb_preempted x).
Definition jb_set_phase (v : Z) (x : maintenanceJob) : maintenanceJob := mkJob (jb_id x) (jb_sequence x) (jb_request x) (jb_key x) (jb_priority x) v (jb_worker x) (jb_waiters x) (jb_nextWaiters x) (jb_background x) (jb_nextBackground x) (jb_runAgain x) (jb_nextRequest x) (jb_dependencyResult x) (jb_dependents x) (jb_nextDependents x) (jb_waiting x) (jb_held x) (jb_running x) (jb_cancel x) (jb_preempted x).
Definition jb_set_worker (v : worker) (x : maintenanceJob) : maintenanceJob := mkJob (jb_id x) (jb_sequence x) (jb_request x) (jb_key x) (jb_priority x) (jb_phase x) v (jb_waiters x) (jb_nextWaiters x) (jb_background x) (jb_nextBackground x) (jb_runAgain x) (jb_nextRequest x) (jb_dependencyResult x) (jb_dependents x) (jb_nextDependents x) (jb_waiting x) (jb_held x) (jb_running x) (jb_cancel x) (jb_preempted x).
Definition jb_set_waiters (v : gmap Z maintenanceWaiter) (x : maintenanceJob) : maintenanceJob := mkJob (jb_id x) (jb_sequence x) (jb_request x) (jb_key x) (jb_priority x) (jb_phase x) (jb_worker x) v (jb_nextWaiters x) (jb_background x) (jb_nextBackground x) (jb_runAgain x) (jb_nextRequest x) (jb_dependencyResult x) (jb_dependents x) (jb_nextDependents x) (jb_waiting x) (jb_held x) (jb_running x) (jb_cancel x) (jb_preempted x).
Definition jb_set_nextWaiters (v : gmap Z maintenanceWaiter) (x : maintenanceJob) : maintenanceJob := mkJob (jb_id x) (jb_sequence x) (jb_request x) (jb_key x) (jb_priority x) (jb_phase x) (jb_worker x) (jb_waiters x) v (jb_background x) (jb_nextBackground x) (jb_runAgain x) (jb_nextRequest x) (jb_dependencyResult x) (jb_dependents x) (jb_nextDependents x) (jb_waiting x) (jb_held x) (jb_running x) (jb_cancel x) (jb_preempted x).
Definition jb_set_background (v : bool) (x : maintenanceJob) : maintenanceJob := mkJob (jb_id x) (jb_sequence x) (jb_request x) (jb_key x) (jb_priority x) (jb_phase x) (jb_worker x) (jb_waiters x) (jb_nextWaiters x) v (jb_nextBackground x) (jb_runAgain x) (jb_nextRequest x) (jb_dependencyResult x) (jb_dependents x) (jb_nextDependents x) (jb_waiting x) (jb_held x) (jb_running x) (jb_cancel x) (jb_preempted x).
Definition jb_set_nextBackground (v : bool) (x : maintenanceJob) : maintenanceJob := mkJob (jb_id x) (jb_sequence x) (jb_request x) (jb_key x) (jb_priority x) (jb_phase x) (jb_worker x) (jb_waiters x) (jb_nextWaiters x) (jb_background x) v (jb_runAgain x) (jb_nextRequest x) (jb_dependencyResult x) (jb_dependents x) (jb_nextDependents x) (jb_waiting x) (jb_held x) (jb_running x) (jb_cancel x) (jb_preempted x).
Definition jb_set_runAgain (v : bool) (x : maintenanceJob) : maintenanceJob := mkJob (jb_id x) (jb_sequence x) (jb_request x) (jb_key x) (jb_priority x) (jb_phase x) (jb_worker x) (jb_waiters x) (jb_nextWaiters x) (jb_background x) (jb_nextBackground x) v (jb_nextRequest x) (jb_dependencyResult x) (jb_dependents x) (jb_nextDependents x) (jb_waiting x) (jb_held x) (jb_running x) (jb_cancel x) (jb_preempted x).
Definition jb_set_nextRequest (v : maintenanceRequest) (x : maintenanceJob) : maintenanceJob := mkJob (jb_id x) (jb_sequence x) (jb_request x) (jb_key x) (jb_priority x) (jb_phase x) (jb_worker x) (jb_waiters x) (jb_nextWaiters x) (jb_background x) (jb_nextBackground x) (jb_runAgain x) v (jb_dependencyResult x) (jb_dependents x) (jb_nextDependents x) (jb_waiting x) (jb_held x) (jb_running x) (jb_cancel x) (jb_preempted x).
Definition jb_set_dependencyResult (v : maintenanceResult) (x : maintenanceJob) : maintenanceJob := mkJob (jb_id x) (jb_sequence x) (jb_request x) (jb_key x) (jb_priority x) (jb_phase x) (jb_worker x) (jb_waiters x) (jb_nextWaiters x) (jb_background x) (jb_nextBackground x) (jb_runAgain x) (jb_nextRequest x) v (jb_dependents x) (jb_nextDependents x) (jb_waiting x) (jb_held x) (jb_running x) (jb_cancel x) (jb_preempted x).
Definition jb_set_dependents (v : gset Z) (x : maintenanceJob) : maintenanceJob := mkJob (jb_id x) (jb_sequence x) (jb_request x) (jb_key x) (jb_priority x) (jb_phase x) (jb_worker x) (jb_waiters x) (jb_nextWaiters x) (jb_background x) (jb_nextBackground x) (jb_runAgain x) (jb_nextRequest x) (jb_dependencyResult x) v (jb_nextDependents x) (jb_waiting x) (jb_held x) (jb_running x) (jb_cancel x) (jb_preempted x).
Definition jb_set_nextDependents (v : gset Z) (x : maintenanceJob) : maintenanceJob := mkJob (jb_id x) (jb_sequence x) (jb_request x) (jb_key x) (jb_priority x) (jb_phase x) (jb_worker x) (jb_waiters x) (jb_nextWaiters x) (jb_background x) (jb_nextBackground x) (jb_runAgain x) (jb_nextRequest x) (jb_dependencyResult x) (jb_dependents x) v (jb_waiting x) (jb_held x) (jb_running x) (jb_cancel x) (jb_preempted x).
Definition jb_set_waiting (v : bool) (x : maintenanceJob) : maintenanceJob := mkJob (jb_id x) (jb_sequence x) (jb_request x) (jb_key x) (jb_priority x) (jb_phase x) (jb_worker x) (jb_waiters x) (jb_nextWaiters x) (jb_background x) (jb_nextBackground x) (jb_runAgain x) (jb_nextRequest x) (jb_dependencyResult x) (jb_dependents x) (jb_nextDependents x) v (jb_held x) (jb_running x) (jb_cancel x) (jb_preempted x).
Definition jb_set_held (v : Z) (x : maintenanceJob) : maintenanceJob := mkJob (jb_id x) (jb_sequence x) (jb_request x) (jb_key x) (jb_priority x) (jb_phase x) (jb_worker x) (jb_waiters x) (jb_nextWaiters x) (jb_background x) (jb_nextBackground x) (jb_runAgain x) (jb_nextRequest x) (jb_dependencyResult x) (jb_dependents x) (jb_nextDependents x) (jb_waiting x) v (jb_running x) (jb_cancel x) (jb_preempted x).
Definition jb_set_running (v : Z) (x : maintenanceJob) : maintenanceJob := mkJob (jb_id x) (jb_sequence x) (jb_request x) (jb_key x) (jb_priority x) (jb_phase x) (jb_worker x) (jb_waiters x) (jb_nextWaiters x) (jb_background x) (jb_nextBackground x) (jb_runAgain x) (jb_nextRequest x) (jb_dependencyResult x) (jb_dependents x) (jb_nextDependents x) (jb_waiting x) (jb_held x) v (jb_cancel x) (jb_preempted x).
Definition jb_set_cancel (v : option bool) (x : maintenanceJob) : maintenanceJob := mkJob (jb_id x) (jb_sequence x) (jb_request x) (jb_key x) (jb_priority x) (jb_phase x) (jb_worker x) (jb_waiters x) (jb_nextWaiters x) (jb_background x) (jb_nextBackground x) (jb_runAgain x) (jb_nextRequest x) (jb_dependencyResult x) (jb_dependents x) (jb_nextDependents x) (jb_waiting x) (jb_held x) (jb_running x) v (jb_preempted x).
Definition jb_set_preempted (v : bool) (x : maintenanceJob) : maintenanceJob := mkJob (jb_id x) (jb_sequence x) (jb_request x) (jb_key x) (jb_priority x) (jb_phase x) (jb_worker x) (jb_waiters x) (jb_nextWaiters x) (jb_background x) (jb_nextBackground x) (jb_runAgain x) (jb_nextRequest x) (jb_dependencyResult x) (jb_dependents x) (jb_nextDependents x) (jb_waiting x) (jb_held x) (jb_running x) (jb_cancel x) v.

(** The variables of [run].  A timer set by [time.AfterFunc] is the id it will send. *)
Record scheduler := mkSched
  { sc_nextJobID : Z; sc_nextWaiterID : Z; sc_sequence : Z; sc_pending : list Z; sc_active : gset Z; sc_jobs : gmap Z maintenanceJob; sc_byKey : gmap string Z; sc_leased : Z; sc_closing : bool; sc_config : option MaintenanceConfig; sc_timers : list Z; sc_sent : list (Z * maintenanceCompletion) }.

Definition sc_set_nextJobID (v : Z) (x : scheduler) : scheduler := mkSched v (sc_nextWaiterID x) (sc_sequence x) (sc_pending x) (sc_active x) (sc_jobs x) (sc_byKey x) (sc_leased x) (sc_closing x) (sc_config x) (sc_timers x) (sc_sent x).
Definition sc_set_nextWaiterID (v : Z) (x : scheduler) : scheduler := mkSched (sc_nextJobID x) v (sc_sequence x) (sc_pending x) (sc_active x) (sc_jobs x) (sc_byKey x) (sc_leased x) (sc_closing x) (sc_config x) (sc_timers x) (sc_sent x).
Definition sc_set_sequence (v : Z) (x : scheduler) : scheduler := mkSched (sc_nextJobID x) (sc_nextWaiterID x) v (sc_pending x) (sc_active x) (sc_jobs x) (sc_byKey x) (sc_leased x) (sc_closing x) (sc_config x) (sc_timers x) (sc_sent x).
Definition sc_set_pending (v : list Z) (x : scheduler) : scheduler := mkSched (sc_nextJobID x) (sc_nextWaiterID x) (sc_sequence x) v (sc_active x) (sc_jobs x) (sc_byKey x) (sc_leased x) (sc_closing x) (sc_config x) (sc_timers x) (sc_sent x).
Definition sc_set_active (v : gset Z) (x : scheduler) : scheduler := mkSched (sc_nextJobID x) (sc_nextWaiterID x) (sc_sequence x) (sc_pending x) v (sc_jobs x) (sc_byKey x) (sc_leased x) (sc_closing x) (sc_config x) (sc_timers x) (sc_sent x).
Definition sc_set_jobs (v : gmap Z maintenanceJob) (x : scheduler) : scheduler := mkSched (sc_nextJobID x) (sc_nextWaiterID x) (sc_sequence x) (sc_pending x) (sc_active x) v (sc_byKey x) (sc_leased x) (sc_closing x) (sc_config x) (sc_timers x) (sc_sent x).
Definition sc_set_byKey (v : gmap string Z) (x : scheduler) : scheduler := mkSched (sc_nextJobID x) (sc_nextWaiterID x) (sc_sequence x) (sc_pending x) (sc_active x) (sc_jobs x) v (sc_leased x) (sc_closing x) (sc_config x) (sc_timers x) (sc_sent x).
Definition sc_set_leased (v : Z) (x : scheduler) : scheduler := mkSched (sc_nextJobID x) (sc_nextWaiterID x) (sc_sequence x) (sc_pending x) (sc_active x) (sc_jobs x) (sc_byKey x) v (sc_closing x) (sc_config x) (sc_timers x) (sc_sent x).
Definition sc_set_closing (v : bool) (x : scheduler) : scheduler := mkSched (sc_nextJobID x) (sc_nextWaiterID x) (sc_sequence x) (sc_pending x) (sc_active x) (sc_jobs x) (sc_byKey x) (sc_leased x) v (sc_config x) (sc_timers x) (sc_sent x).
Definition sc_set_config (v : option MaintenanceConfig) (x : scheduler) : scheduler := mkSched (sc_nextJobID x) (sc_nextWaiterID x) (sc_sequence x) (sc_pending x) (sc_active x) (sc_jobs x) (sc_byKey x) (sc_leased x) (sc_closing x) v (sc_timers x) (sc_sent x).
Definition sc_set_timers (v : list Z) (x : scheduler) : scheduler := mkSched (sc_nextJobID x) (sc_nextWaiterID x) (sc_sequence x) (sc_pending x) (sc_active x) (sc_jobs x) (sc_byKey x) (sc_leased x) (sc_closing x) (sc_config x) v (sc_sent x).
Definition sc_set_sent (v : list (Z * maintenanceCompletion)) (x : scheduler) : scheduler := mkSched (sc_nextJobID x) (sc_nextWaiterID x) (sc_sequence x) (sc_pending x) (sc_active x) (sc_jobs x) (sc_byKey x) (sc_leased x) (sc_closing x) (sc_config x) (sc_timers x) v.

Definition upd_job (id : Z) (f : maintenanceJob -> maintenanceJob) (s : scheduler) : scheduler := sc_set_jobs (alter f id (sc_jobs s)) s.
Definition is_active (s : scheduler) (id : Z) : bool := bool_decide (id ∈ sc_active s).

(** The order in which a map of waiters is visited is not specified; here it is the
    order of the keys, and no theorem depends on it. *)
Definition finishWaiters (waiters : gmap Z maintenanceWaiter) (c : maintenanceCompletion) (s : scheduler) : scheduler :=
  sc_set_sent (sc_sent s ++ map (fun x => (wt_chan x.2, c)) (map_to_list waiters)) s.

Definition removeJob (id : Z) (s : scheduler) : scheduler :=
  match sc_jobs s !! id with
  | None => s
  | Some j =>
    let s := sc_set_jobs (delete id (sc_jobs s)) (sc_set_leased (Z.ldiff (sc_leased s) (jb_held j)) s) in
    if negb (bool_decide (jb_key j = ""%string)) && bool_decide (sc_byKey s !! jb_key j = Some id) then sc_set_byKey (delete (jb_key j) (sc_byKey s)) s else s
  end.

Definition queueJob (id : Z) (s : scheduler) : scheduler := sc_set_pending (sc_pending s ++ [id]) s.
Definition next_sequence (s : scheduler) : scheduler := sc_set_sequence (add64 (sc_sequence s) 1) s.
(** [sequence++; job.sequence = sequence] *)
Definition stamp (id : Z) (s : scheduler) : scheduler := let s := next_sequence s in upd_job id (jb_set_sequence (sc_sequence s)) s.

Definition new_job (id sequence : Z) (rq : maintenanceRequest) (key : string) (priority : Z) (w : W) : maintenanceJob :=
  mkJob id sequence rq key priority maintenancePhaseStart (Plain w) ∅ ∅ false false false zeroRequest zeroResult ∅ ∅ false 0 0 None false.

(** The first half of [enqueue]: the job with the key of the request, or a new one. *)
Definition find_or_create (new : maintenanceRequest -> serr + W) (rq : maintenanceRequest) (key : string) (priority : Z) (s : scheduler) : scheduler * (serr + Z) :=
  match (if bool_decide (key = ""%string) then None else sc_byKey s !! key) with
  | Some id => (s, inr id)
  | None =>
    match new rq with
    | inl e => (s, inl e)
    | inr w =>
      let id := add64 (sc_nextJobID s) 1 in
      let s := next_sequence (sc_set_nextJobID id s) in
      let s := sc_set_jobs (<[id := new_job id (sc_sequence s) rq key priority w]> (sc_jobs s)) s in
      let s := if bool_decide (key = ""%string) then s else sc_set_byKey (<[key := id]> (sc_byKey s)) s in
      (queueJob id s, inr id)
    end
  end.

(** A request that meets a running job which has to run again. *)
Definition join_next (rq : maintenanceRequest) (dependent : Z) (j : maintenanceJob) : maintenanceJob :=
  let j := jb_set_nextBackground (jb_nextBackground j || rq_background rq) (jb_set_nextRequest (mergeMaintenanceRequest (jb_nextRequest j) rq) (jb_set_runAgain true j)) in
  if dependent =? 0 then j else jb_set_nextDependents ({[dependent]} ∪ jb_nextDependents j) j.

Definition join_current (rq : maintenanceRequest) (dependent : Z) (j : maintenanceJob) : maintenanceJob :=
  let j := jb_set_background (jb_background j || rq_background rq) j in
  if dependent =? 0 then j else jb_set_dependents ({[dependent]} ∪ jb_dependents j) j.

Definition enqueue (rq : maintenanceRequest) (dependent : Z) (s : scheduler) : scheduler * (serr + Z) :=
  match maintenanceRequestPolicy rq, factory with
  | Some (key, priority, rerun, _), Some new =>
    let existing := if bool_decide (key = ""%string) then None else sc_byKey s !! key in
    let running := match existing with Some id => is_active s id | None => false end in
    match find_or_create new rq key priority s with
    | (s, inl e) => (s, inl e)
    | (s, inr id) =>
      if running && rerun then (upd_job id (join_next rq dependent) s, inr id)
      else if running then (upd_job id (join_current rq dependent) s, inr id)
      else match sc_jobs s !! id with
      | None => (s, inr id)
      | Some j =>
        let merged := mergeMaintenanceRequest (jb_request j) rq in
        let s := upd_job id (jb_set_request merged) s in
        match new merged with
        | inl e => (s, inl e)
        | inr w => (upd_job id (fun j => join_current rq dependent (jb_set_worker (Plain w) j)) s, inr id)
        end
      end
    end
  | _, _ => (s, inl (ELeaf base_ErrInvalidConfig))
  end.

(** ** Dispatching *)

Definition job_need (j : maintenanceJob) : Z := Z.ldiff (worker_Resources (jb_worker j) (jb_phase j)) (jb_held j).

Definition runnable (s : scheduler) (id : Z) : bool := match sc_jobs s !! id with Some j => Z.land (job_need j) (sc_leased s) =? 0 | None => false end.

Definition goes_before (s : scheduler) (a b : Z) : bool :=
  match sc_jobs s !! a, sc_jobs s !! b with
  | Some x, Some y => (jb_priority y <? jb_priority x) || ((jb_priority x =? jb_priority y) && (jb_sequence x <? jb_sequence y))
  | _, _ => false
  end.

Fixpoint best_pending (s : scheduler) (best : option Z) (pending : list Z) : option Z :=
  match pending with
  | [] => best
  | id :: rest =>
    let best := if negb (runnable s id) then best else match best with None => Some id | Some b => if goes_before s id b then Some id else best end in
    best_pending s best rest
  end.

Fixpoint remove_first (id : Z) (l : list Z) : list Z := match l with [] => [] | x :: l => if x =? id then l else x :: remove_first id l end.

(** [context.WithCancel(m.ctx)]: the context of the scheduler is cancelled once it closes. *)
Definition start_job (id : Z) (s : scheduler) : scheduler :=
  match sc_jobs s !! id with
  | None => s
  | Some j =>
    let need := job_need j in
    sc_set_active ({[id]} ∪ sc_active s)
      (upd_job id (fun j => jb_set_cancel (Some (sc_closing s)) (jb_set_running need j))
        (sc_set_leased (Z.lor (sc_leased s) need) (sc_set_pending (remove_first id (sc_pending s)) s)))
  end.

(** Every turn of the loop takes a job from [pending], so its length is fuel enough. *)
Fixpoint dispatch_loop (fuel : nat) (s : scheduler) : scheduler :=
  match fuel with
  | O => s
  | S n => match best_pending s None (sc_pending s) with None => s | Some id => dispatch_loop n (start_job id s) end
  end.
Definition dispatch (s : scheduler) : scheduler := dispatch_loop (length (sc_pending s)) s.

(** ** Completion *)

(** One dependent of a completed job. *)
Definition resume_dependent (c : maintenanceCompletion) (s : scheduler) (id : Z) : scheduler :=
  match sc_jobs s !! id with
  | Some d =>
    if jb_waiting d then
      let s := upd_job id (fun d => jb_set_dependencyResult (match mc_err c with Some _ => zeroResult | None => mc_result c end) (jb_set_waiting false d)) s in
      let s := match mc_err c with Some e => upd_job id (fun d => jb_set_worker (failedDependencyWorker (jb_worker d) e) d) s | None => s end in
      queueJob id (stamp id s)
    else s
  | None => s
  end.

(** [order]: the order in which the set of dependents is visited. *)
Definition complete (id : Z) (c : maintenanceCompletion) (order : list Z) (s : scheduler) : scheduler :=
  match sc_jobs s !! id with
  | None => s
  | Some j => foldl (resume_dependent c) (finishWaiters (jb_waiters j) c s) order
  end.

(** ** The cases of the select *)

Definition on_configure (config : MaintenanceConfig) (s : scheduler) : scheduler * option serr :=
  match sc_config s with
  | Some _ => (s, Some (ELeaf base_ErrInvalidConfig))
  | None => (sc_set_config (Some config) s, None)
  end.

Definition periodic_request : maintenanceRequest := mkRequest maintenanceCheckpointRequest 0 zeroPolicy 0 false false true true false.
Definition on_checkpoint_tick (s : scheduler) : scheduler := dispatch (enqueue periodic_request 0 s).1.

Definition automatic_request (kind : Z) (policy : CompactionPolicy) : maintenanceRequest := mkRequest kind 0 policy 0 false false false true true.
Definition on_maintenance_tick (config : MaintenanceConfig) (s : scheduler) : scheduler :=
  let s := if mg_DisableSegmentGC config then s else (enqueue (automatic_request maintenanceSegmentNextRequest (normalizeCompactionPolicy (mg_SegmentPolicy config))) 0 s).1 in
  let s := if mg_DisableMappingGC config then s else (enqueue (automatic_request maintenanceMappingGCRequest zeroPolicy) 0 s).1 in
  dispatch s.

Definition low32 (x : Z) : Z := Z.land x 4294967295.

(** The id of a waiter: [job.id<<32 | (nextWaiterID & 0xffffffff)]. *)
Definition waiter_id (id n : Z) : Z := Z.lor (Z.shiftl id 32 mod two64) (low32 n).

Definition add_waiter (running : bool) (n : Z) (w : maintenanceWaiter) (j : maintenanceJob) : maintenanceJob :=
  if running && jb_runAgain j then jb_set_nextWaiters (<[low32 n := w]> (jb_nextWaiters j)) j else jb_set_waiters (<[low32 n := w]> (jb_waiters j)) j.

(** The waiter of a submission gets its id and a place in the job. *)
Definition register_waiter (id chan : Z) (s : scheduler) : scheduler :=
  let n := add64 (sc_nextWaiterID s) 1 in
  upd_job id (add_waiter (is_active s id) n (mkWaiter (waiter_id id n) chan)) (sc_set_nextWaiterID n s).

Definition preempts (j running : maintenanceJob) : bool :=
  (jb_priority running <? jb_priority j) && (match maintenanceRequestPolicy (jb_request running) with Some (_, _, _, p) => p | None => false end)
  && negb (Z.land (worker_Resources (jb_worker j) (jb_phase j)) (jb_running running) =? 0).

Definition preempt_running (id : Z) (s : scheduler) : scheduler :=
  match sc_jobs s !! id with
  | None => s
  | Some j => sc_set_jobs (map_imap (fun i r => Some (if is_active s i && preempts j r then jb_set_cancel (Some true) (jb_set_preempted true r) else r)) (sc_jobs s)) s
  end.

(** The answer is what is sent on [accepted], with the id that the waiter gets. *)
Definition on_submit (rq : maintenanceRequest) (chan : option Z) (s : scheduler) : scheduler * (serr + Z) :=
  if sc_closing s then (s, inl (ELeaf base_ErrClosed))
  else match enqueue rq 0 s with
  | (s, inl e) => (dispatch s, inl e)
  | (s, inr id) =>
    let s := match chan with Some c => register_waiter id c s | None => s end in
    (dispatch (preempt_running id s), inr (match chan with Some _ => waiter_id id (sc_nextWaiterID s) | None => 0 end))
  end.

Definition removeMaintenanceJob (jobs : list Z) (id : Z) : list Z := remove_first id jobs.

Definition unowned (j : maintenanceJob) : bool :=
  bool_decide (jb_waiters j = ∅) && bool_decide (jb_nextWaiters j = ∅) && negb (jb_background j) && negb (jb_nextBackground j)
  && bool_decide (jb_dependents j = ∅) && bool_decide (jb_nextDependents j = ∅).

Definition on_cancel (jobID waiterID : Z) (s : scheduler) : scheduler :=
  match sc_jobs s !! jobID with
  | None => s
  | Some j =>
    let j := jb_set_nextWaiters (delete waiterID (jb_nextWaiters j)) (jb_set_waiters (delete waiterID (jb_waiters j)) j) in
    let s := upd_job jobID (fun _ => j) s in
    if unowned j then
      if is_active s jobID then upd_job jobID (jb_set_cancel (Some true)) s
      else if negb (jb_waiting j) then removeJob jobID (sc_set_pending (removeMaintenanceJob (sc_pending s) jobID) s)
      else s
    else s
  end.

(** The end of a phase: the worker as the phase left it, the resources back. *)
Definition phase_ended (id : Z) (w : worker) (retain : Z) (j : maintenanceJob) (s : scheduler) : scheduler :=
  let leased := Z.ldiff (sc_leased s) (jb_running j) in
  let leased := Z.lor (Z.ldiff leased (Z.ldiff (jb_held j) retain)) retain in
  sc_set_active (sc_active s ∖ {[id]})
    (upd_job id (fun j => jb_set_held retain (jb_set_running 0 (jb_set_cancel None (jb_set_worker w j)))) (sc_set_leased leased s)).

Definition restart_job (w : W) (j : maintenanceJob) : maintenanceJob :=
  jb_set_dependencyResult zeroResult (jb_set_phase maintenancePhaseStart (jb_set_worker (Plain w) j)).

Definition take_next (j : maintenanceJob) : maintenanceJob :=
  jb_set_nextRequest zeroRequest (jb_set_request (mergeMaintenanceRequest (jb_request j) (jb_nextRequest j))
    (jb_set_nextBackground false (jb_set_background (jb_nextBackground j) (jb_set_nextDependents ∅ (jb_set_dependents (jb_nextDependents j)
      (jb_set_nextWaiters ∅ (jb_set_waiters (jb_nextWaiters j) j))))))).

Definition make_worker (rq : maintenanceRequest) : serr + W := match factory with Some new => new rq | None => inl (ELeaf base_ErrInvalidConfig) end.

Definition fail_job (id : Z) (e : serr) (order : list Z) (s : scheduler) : scheduler := removeJob id (complete id (mkCompletion zeroResult (Some e)) order s).

(** A job that was preempted starts again with a fresh worker. *)
Definition on_preempted (id : Z) (order : list Z) (s : scheduler) : scheduler :=
  let s := upd_job id (jb_set_preempted false) s in
  match sc_jobs s !! id with
  | None => s
  | Some j =>
    match make_worker (jb_request j) with
    | inl e => fail_job id e order s
    | inr w => queueJob id (stamp id (upd_job id (restart_job w) s))
    end
  end.

Definition on_finished (id : Z) (c : maintenanceCompletion) (order : list Z) (s : scheduler) : scheduler :=
  let s := complete id c order s in
  match sc_jobs s !! id with
  | None => s
  | Some j =>
    if jb_runAgain j && negb (sc_closing s) then
      let s := upd_job id take_next s in
      match make_worker (mergeMaintenanceRequest (jb_request j) (jb_nextRequest j)) with
      | inl e => removeJob id (finishWaiters (jb_nextWaiters j) (mkCompletion zeroResult (Some e)) s)
      | inr w => queueJob id (stamp id (upd_job id (fun j => restart_job w (jb_set_runAgain false j)) s))
      end
    else removeJob id s
  end.

Definition on_dependency (id : Z) (next : Z) (d : maintenanceRequest) (order : list Z) (s : scheduler) : scheduler :=
  let s := upd_job id (fun j => jb_set_waiting true (jb_set_phase next j)) s in
  match enqueue d id s with
  | (s, inr _) => s
  | (s, inl e) => fail_job id e order (upd_job id (jb_set_waiting false) s)
  end.

Definition on_next_phase (id : Z) (t : maintenanceTransition) (s : scheduler) : scheduler :=
  let s := stamp id (upd_job id (jb_set_phase (tr_next t)) s) in
  if 0 <? tr_retryAfter t then sc_set_timers (sc_timers s ++ [id]) s else queueJob id s.

(** [done := <-m.doneCh]: [w] is the worker as its [Run] left it. *)
Definition on_done (id : Z) (w : worker) (t : maintenanceTransition) (order : list Z) (s : scheduler) : scheduler :=
  match sc_jobs s !! id with
  | Some j =>
    if is_active s id then
      let t := match validateMaintenanceTransition t (Z.lor (jb_held j) (jb_running j)) with Some e => mkTransition 0 0 None zeroResult true 0 (Some e) | None => t end in
      let s := phase_ended id w (tr_retain t) j s in
      dispatch
        (if jb_preempted j && only_canceled (tr_err t) && negb (sc_closing s) then on_preempted id order s
         else if match tr_err t with Some _ => true | None => tr_done t end then on_finished id (mkCompletion (tr_result t) (tr_err t)) order s
         else match tr_dependency t with
         | Some d => on_dependency id (tr_next t) d order s
         | None => on_next_phase id t s
         end)
    else s
  | None => s
  end.

(** A timer fires: its message is received. *)
Definition on_retry (id : Z) (s : scheduler) : scheduler :=
  let s := sc_set_timers (remove_first id (sc_timers s)) s in
  match sc_jobs s !! id with
  | Some j => if negb (is_active s id) && negb (jb_waiting j) then dispatch (queueJob id (stamp id s)) else s
  | None => s
  end.

Definition close_job (j : maintenanceJob) : maintenanceJob :=
  jb_set_cancel (match jb_cancel j with Some _ => Some true | None => None end) (jb_set_nextWaiters ∅ (jb_set_waiters ∅ j)).

Definition closed_completion : maintenanceCompletion := mkCompletion zeroResult (Some (ELeaf base_ErrClosed)).

Definition on_shutdown (s : scheduler) : scheduler :=
  let s := foldl (fun s x => finishWaiters (jb_nextWaiters x.2) closed_completion (finishWaiters (jb_waiters x.2) closed_completion s)) s (map_to_list (sc_jobs s)) in
  sc_set_pending [] (sc_set_jobs (close_job <$> sc_jobs s) (sc_set_closing true s)).

Definition initial : scheduler := mkSched 0 0 0 [] ∅ ∅ ∅ 0 false None [] [].

(** ** All interleavings

    [Run] says what a phase of a worker may answer and how it leaves the worker.  The
    callers are known by their channels: [sw_issued] has the id of each accepted
    waiter, [sw_gone] the callers whose context ended before they saw a result.  The
    tickers of a configured scheduler may tick at any time: shutdown stops them, but a
    configuration that the actor receives after it starts them all the same. *)

Context (Run : W -> Z -> maintenanceResult -> maintenanceTransition -> W -> Prop).

Inductive worker_run : worker -> Z -> maintenanceResult -> maintenanceTransition -> worker -> Prop :=
| run_plain w phase r t w' (H : Run w phase r t w') : worker_run (Plain w) phase r t (Plain w')
| run_failed next e phase r : worker_run (failedDependencyWorker next e) phase r (mkTransition 0 0 None zeroResult true 0 (Some e)) (failedDependencyWorker next e).

Record sworld := mkSworld { sw_sched : scheduler; sw_issued : gmap Z Z; sw_gone : gset Z }.

(** [run] returns when it closes and no worker is running. *)
Definition returned (s : scheduler) : bool := sc_closing s && bool_decide (sc_active s = ∅).

Definition background_of (rq : maintenanceRequest) : maintenanceRequest :=
  mkRequest (rq_kind rq) (rq_source rq) (rq_policy rq) (rq_generation rq) (rq_gcAdmission rq) (rq_force rq) (rq_periodic rq) true (rq_automatic rq).

Inductive sched_case (w : sworld) : sworld -> Prop :=
| case_submit rq c s' wid (Hc : sw_issued w !! c = None) (H : on_submit rq (Some c) (sw_sched w) = (s', inr wid)) : sched_case w (mkSworld s' (<[c := wid]> (sw_issued w)) (sw_gone w))
| case_refused rq c s' e (H : on_submit rq (Some c) (sw_sched w) = (s', inl e)) : sched_case w (mkSworld s' (sw_issued w) (sw_gone w))
| case_background rq s' r (H : on_submit (background_of rq) None (sw_sched w) = (s', r)) : sched_case w (mkSworld s' (sw_issued w) (sw_gone w))
| case_cancel c wid (Hc : sw_issued w !! c = Some wid) (Hg : c ∉ sw_gone w) :
    sched_case w (mkSworld (on_cancel (Z.shiftr wid 32) (low32 wid) (sw_sched w)) (sw_issued w) ({[c]} ∪ sw_gone w))
| case_configure config s' r (H : on_configure config (sw_sched w) = (s', r)) : sched_case w (mkSworld s' (sw_issued w) (sw_gone w))
| case_checkpoint_tick config (Hc : sc_config (sw_sched w) = Some config) :
    sched_case w (mkSworld (on_checkpoint_tick (sw_sched w)) (sw_issued w) (sw_gone w))
| case_maintenance_tick config (Hc : sc_config (sw_sched w) = Some config) (He : mg_Enabled config = true) :
    sched_case w (mkSworld (on_maintenance_tick config (sw_sched w)) (sw_issued w) (sw_gone w))
| case_done id j w' t order (Hj : sc_jobs (sw_sched w) !! id = Some j) (Ha : id ∈ sc_active (sw_sched w))
    (Hr : worker_run (jb_worker j) (jb_phase j) (jb_dependencyResult j) t w') (Ho : order ≡ₚ elements (jb_dependents j)) :
    sched_case w (mkSworld (on_done id w' t order (sw_sched w)) (sw_issued w) (sw_gone w))
| case_retry id (Ht : id ∈ sc_timers (sw_sched w)) : sched_case w (mkSworld (on_retry id (sw_sched w)) (sw_issued w) (sw_gone w))
| case_shutdown (Ho : sc_closing (sw_sched w) = false) : sched_case w (mkSworld (on_shutdown (sw_sched w)) (sw_issued w) (sw_gone w)).

Definition sched_step (w w' : sworld) : Prop := returned (sw_sched w) = false /\ sched_case w w'.
Definition started : sworld := mkSworld initial ∅ ∅.

End Actor.
