(* ===== verification/SchedulerSpec.v ===== *)
(** * The scheduler: exclusive resources and answered waiters

    Invariants of the actor over any workers, by induction on its steps: what a job
    holds is leased to it alone, a job is in one place, and a waiter is answered
    once. *)
From stdpp Require Import strings.
From S2P Require Import Prelude Addr Catalog Compaction GcCandidate Scheduler.

(** ** Sets of resources as bits *)

Definition covers (a b : Z) : Prop := forall n, 0 <= n -> Z.testbit b n = true -> Z.testbit a n = true.
Definition apart (a b : Z) : Prop := forall n, 0 <= n -> Z.testbit a n = true -> Z.testbit b n = true -> False.

Lemma apart_land a b : Z.land a b = 0 <-> apart a b.
Proof.
  split.
  - intros H n Hn Ha Hb. assert (E : Z.testbit (Z.land a b) n = false) by now rewrite H, Z.testbit_0_l. rewrite Z.land_spec, Ha, Hb in E. discriminate.
  - intros H. apply Z.bits_inj'. intros n Hn. rewrite Z.land_spec, Z.testbit_0_l. destruct (Z.testbit a n) eqn:Ha, (Z.testbit b n) eqn:Hb; try reflexivity. exfalso. eauto.
Qed.

Lemma covers_ldiff a b : Z.ldiff a b = 0 <-> covers b a.
Proof.
  split.
  - intros H n Hn Ha. assert (E : Z.testbit (Z.ldiff a b) n = false) by now rewrite H, Z.testbit_0_l. rewrite Z.ldiff_spec, Ha in E. now destruct (Z.testbit b n).
  - intros H. apply Z.bits_inj'. intros n Hn. rewrite Z.ldiff_spec, Z.testbit_0_l. destruct (Z.testbit a n) eqn:Ha; [|reflexivity]. now rewrite (H n Hn Ha).
Qed.

Lemma remove_first_in i k l : NoDup l -> k ∈ remove_first i l <-> k ∈ l /\ k <> i.
Proof.
  induction l as [|x l IH]; intros Hn; cbn; [set_solver|]. apply NoDup_cons in Hn as [Hx Hn].
  destruct (Z.eqb_spec x i) as [->|Hne]; [|rewrite elem_of_cons, IH by done]; set_solver.
Qed.
Lemma remove_first_nodup i l : NoDup l -> NoDup (remove_first i l).
Proof.
  intros H. induction H as [|x l Hx Hn IH]; cbn; [constructor|]. destruct (Z.eqb_spec x i); [done|]. constructor; [|done]. intros Hi. apply remove_first_in in Hi; tauto.
Qed.
Lemma remove_first_len i l : i ∈ l -> (length (remove_first i l) < length l)%nat.
Proof. induction l as [|x l IH]; cbn; [set_solver|]. destruct (Z.eqb_spec x i); [lia|]. intros [->|H]%elem_of_cons; [done|]. cbn. specialize (IH H). lia. Qed.

(** The requests that the scheduler knows: the factory makes a worker for each. *)
Definition kind_ok (rq : maintenanceRequest) : Prop := 1 <= rq_kind rq <= 7.

Lemma policy_kind rq : is_Some (maintenanceRequestPolicy rq) <-> kind_ok rq.
Proof.
  unfold maintenanceRequestPolicy, kind_ok, maintenanceCheckpointRequest, maintenanceMappingGCRequest, maintenanceMappingSurveyRequest, maintenanceSegmentRelocateRequest, maintenanceSegmentPrepareRequest, maintenanceSegmentCompactRequest, maintenanceSegmentNextRequest.
  repeat case_match; rewrite ?orb_true_iff, ?orb_false_iff, ?Z.eqb_eq, ?Z.eqb_neq in *; split; intros Hx; try lia; try (eexists; reflexivity); try (destruct Hx; discriminate).
Qed.

Lemma kind_merge a b : kind_ok a -> kind_ok (mergeMaintenanceRequest a b) /\ rq_kind (mergeMaintenanceRequest a b) = rq_kind a.
Proof. unfold kind_ok, mergeMaintenanceRequest. intros H. destruct (Z.eqb_spec (rq_kind a) 0); [lia|]. done. Qed.

Set Default Proof Using "Type".

Section Invariant.
Context {W : Type} (Resources : W -> Z -> Z).
Local Abbreviation scheduler := (@scheduler W).
Local Abbreviation job := (@maintenanceJob W).
Local Abbreviation dispatch := (dispatch Resources).

Definition own (j : job) : Z := Z.lor (jb_held j) (jb_running j).
Definition needs (j : job) : Z := worker_Resources Resources (jb_worker j) (jb_phase j).

(** ** The invariant

    A job is in at most one of [pending], [active], the timers and the waiting jobs. *)

Record place (s : scheduler) (i : Z) : Prop := mkPlace {
  pl_pending : i ∈ sc_pending s -> i ∉ sc_active s /\ i ∉ sc_timers s;
  pl_active : i ∈ sc_active s -> i ∉ sc_timers s;
  pl_waiting : forall j, sc_jobs s !! i = Some j -> jb_waiting j = true -> i ∉ sc_pending s /\ i ∉ sc_active s /\ i ∉ sc_timers s }.

Record job_ok (s : scheduler) (i : Z) (j : job) : Prop := mkJobOk {
  jo_id : 1 <= i <= sc_nextJobID s;
  jo_key : jb_key j <> ""%string -> sc_byKey s !! jb_key j = Some i;
  jo_run : i ∈ sc_active s -> covers (own j) (needs j);
  jo_idle : i ∉ sc_active s -> jb_running j = 0;
  jo_kind : kind_ok (jb_request j);
  jo_leased : covers (sc_leased s) (own j) }.

Record sinv (s : scheduler) : Prop := mkSinv {
  iv_job : forall i j, sc_jobs s !! i = Some j -> job_ok s i j;
  iv_place : forall i, place s i;
  iv_known : forall i, i ∈ sc_pending s \/ i ∈ sc_active s -> is_Some (sc_jobs s !! i);
  iv_timer : forall i, i ∈ sc_timers s -> i <= sc_nextJobID s;
  iv_pending : NoDup (sc_pending s);
  iv_timers : NoDup (sc_timers s);
  iv_byKey : forall k i, sc_byKey s !! k = Some i -> exists j, sc_jobs s !! i = Some j /\ jb_key j = k /\ k <> ""%string;
  iv_next : 0 <= sc_nextJobID s;
  iv_leased : forall n, 0 <= n -> Z.testbit (sc_leased s) n = true -> exists i j, sc_jobs s !! i = Some j /\ Z.testbit (own j) n = true;
  iv_apart : forall i k j l, i <> k -> sc_jobs s !! i = Some j -> sc_jobs s !! k = Some l -> apart (own j) (own l) }.

(** The state after a change of one job, its resources and its place. *)
Record replaced (s s' : scheduler) (i : Z) (j j' : job) : Prop := mkReplaced {
  rp_jobs : sc_jobs s' = <[i := j']> (sc_jobs s);
  rp_byKey : sc_byKey s' = sc_byKey s;
  rp_next : sc_nextJobID s' = sc_nextJobID s;
  rp_key : jb_key j' = jb_key j;
  rp_kind : kind_ok (jb_request j) -> kind_ok (jb_request j');
  rp_leased : forall n, 0 <= n -> Z.testbit (sc_leased s') n = true <-> (Z.testbit (sc_leased s) n = true /\ Z.testbit (own j) n = false) \/ Z.testbit (own j') n = true;
  rp_own : forall n, 0 <= n -> Z.testbit (own j') n = true -> Z.testbit (own j) n = true \/ Z.testbit (sc_leased s) n = false;
  rp_active : forall k, k <> i -> k ∈ sc_active s' <-> k ∈ sc_active s;
  rp_pending : forall k, k <> i -> k ∈ sc_pending s' <-> k ∈ sc_pending s;
  rp_timers : forall k, k <> i -> k ∈ sc_timers s' <-> k ∈ sc_timers s;
  rp_nodup : NoDup (sc_pending s') /\ NoDup (sc_timers s');
  rp_place : place s' i;
  rp_run : i ∈ sc_active s' -> covers (own j') (needs j');
  rp_idle : i ∉ sc_active s' -> jb_running j' = 0 }.

Lemma inv_replaced s s' i j j' : sinv s -> sc_jobs s !! i = Some j -> replaced s s' i j j' -> sinv s'.
Proof.
  intros I Hj R. destruct R as [Ejobs Ekey Enext Ek Ekind EL Eo EA EP ET [NP NT] Pi Ri Di].
  assert (Hk : forall k, k <> i -> sc_jobs s' !! k = sc_jobs s !! k) by (intros k Hk; rewrite Ejobs; now apply lookup_insert_ne).
  assert (Hi : sc_jobs s' !! i = Some j') by (rewrite Ejobs; apply lookup_insert_eq).
  pose proof (iv_job _ I _ _ Hj) as Jj.
  assert (Hap : forall k l, k <> i -> sc_jobs s !! k = Some l -> apart (own j') (own l)).
  { intros k l Hne Hl n Hn H1 H2. destruct (Eo n Hn H1) as [H|H]; [eapply (iv_apart _ I i k); eauto|].
    pose proof (jo_leased _ _ _ (iv_job _ I _ _ Hl) n Hn H2). congruence. }
  split.
  - intros k l Hl. destruct (decide (k = i)) as [->|Hne].
    + rewrite Hi in Hl. injection Hl as <-. destruct Jj. split; rewrite ?Enext, ?Ekey, ?Ek; auto. intros n Hn H. apply EL; auto.
    + rewrite Hk in Hl by done. destruct (iv_job _ I _ _ Hl) as [A B C D K E]. split; rewrite ?Enext, ?Ekey, ?EA by done; auto.
      intros n Hn H. apply EL; [done|]. left. split; [auto|]. destruct (Z.testbit (own j) n) eqn:E1; [|done]. exfalso. eapply (iv_apart _ I i k); eauto.
  - intros k. destruct (decide (k = i)) as [->|Hne]; [done|]. destruct (iv_place _ I k) as [P1 P2 P3].
    split; [rewrite EA, EP, ET by done; exact P1|rewrite EA, ET by done; exact P2|]. intros l Hl Hw. rewrite Hk in Hl by done. rewrite EA, EP, ET by done. eauto.
  - intros k H. destruct (decide (k = i)) as [->|Hne]; [rewrite Hi; eauto|]. rewrite Hk by done. apply (iv_known _ I). rewrite <- EP, <- EA by done. done.
  - intros k H. rewrite Enext. destruct (decide (k = i)) as [->|Hne]; [apply Jj|]. apply (iv_timer _ I). now apply ET.
  - done.
  - done.
  - intros k x H. rewrite Ekey in H. destruct (iv_byKey _ I _ _ H) as (l & Hl & El & Hn). destruct (decide (x = i)) as [->|Hne]; [exists j'|exists l; now rewrite Hk].
    split; [done|]. split; congruence.
  - rewrite Enext. exact (iv_next _ I).
  - intros n Hn H. apply EL in H as [[H1 H2]|H]; [|eauto|done]. destruct (iv_leased _ I n Hn H1) as (k & l & Hl & Hb).
    destruct (decide (k = i)) as [->|Hne]; [congruence|]. exists k, l. now rewrite Hk.
  - intros a b x y Hab Ha Hb. destruct (decide (a = i)) as [->|Hai], (decide (b = i)) as [->|Hbi]; try done.
    + rewrite Hi in Ha. rewrite Hk in Hb by done. injection Ha as <-. eauto.
    + rewrite Hi in Hb. rewrite Hk in Ha by done. injection Hb as <-. intros n Hn H1 H2. eapply Hap; eauto.
    + rewrite Hk in Ha, Hb by done. eapply (iv_apart _ I a b); eauto.
Qed.

(** ** Single changes *)

Lemma upd_job_at s i (f : job -> job) j : sc_jobs s !! i = Some j -> sc_jobs (upd_job i f s) = <[i := f j]> (sc_jobs s).
Proof. intros H. cbn. apply map_eq. intros k. destruct (decide (i = k)) as [<-|Hne]; [now rewrite lookup_alter_eq, lookup_insert_eq, H|now rewrite lookup_alter_ne, lookup_insert_ne]. Qed.

Lemma upd_job_none s i (f : job -> job) : sc_jobs s !! i = None -> upd_job i f s = s.
Proof.
  intros H. unfold upd_job. destruct s. unfold sc_set_jobs. cbn in *. f_equal. apply map_eq. intros k. destruct (decide (i = k)) as [<-|Hne]; [now rewrite lookup_alter_eq, H|now rewrite lookup_alter_ne].
Qed.

(** A change that leaves the key, the resources and the waiting flag of a job alone. *)
Definition keeps (f : job -> job) (j : job) : Prop :=
  jb_key (f j) = jb_key j /\ jb_held (f j) = jb_held j /\ jb_running (f j) = jb_running j /\ jb_waiting (f j) = jb_waiting j /\ (kind_ok (jb_request j) -> kind_ok (jb_request (f j))).

Lemma own_bits s i j n : sinv s -> sc_jobs s !! i = Some j -> 0 <= n -> Z.testbit (sc_leased s) n = true <-> (Z.testbit (sc_leased s) n = true /\ Z.testbit (own j) n = false) \/ Z.testbit (own j) n = true.
Proof. intros I Hj Hn. pose proof (jo_leased _ _ _ (iv_job _ I _ _ Hj) n Hn). destruct (Z.testbit (own j) n); intuition congruence. Qed.

Lemma inv_upd s i f : sinv s -> (forall j, sc_jobs s !! i = Some j -> keeps f j /\ (i ∈ sc_active s -> needs (f j) = needs j)) -> sinv (upd_job i f s).
Proof.
  intros I H. destruct (sc_jobs s !! i) as [j|] eqn:Hj; [|now rewrite upd_job_none]. destruct (H j eq_refl) as [(Ek & Eh & Er & Ew & Eq) En]. pose proof (iv_job _ I _ _ Hj) as J.
  assert (Eo : own (f j) = own j) by (unfold own; congruence).
  apply (inv_replaced s _ i j (f j) I Hj). split; cbn [upd_job sc_set_jobs sc_jobs sc_byKey sc_nextJobID sc_leased sc_active sc_pending sc_timers]; try done.
  - exact (upd_job_at s i _ j Hj).
  - intros n Hn. rewrite Eo. now apply (own_bits s i).
  - intros n Hn. rewrite Eo. auto.
  - split; apply I.
  - destruct (iv_place _ I i) as [P1 P2 P3]. split; try done. intros l. rewrite (upd_job_at _ _ _ _ Hj), lookup_insert_eq. intros [= <-]. rewrite Ew. now apply P3.
  - intros Ha. rewrite Eo, En by done. now apply J.
  - rewrite Er. apply J.
Qed.

(** A job that is nowhere. *)
Record nowhere (s : scheduler) (i : Z) : Prop := mkNowhere { nw_pending : i ∉ sc_pending s; nw_active : i ∉ sc_active s; nw_timers : i ∉ sc_timers s }.

Lemma inv_set_waiting s i b f : sinv s -> nowhere s i -> (forall j, sc_jobs s !! i = Some j -> keeps f j) -> sinv (upd_job i (fun j => jb_set_waiting b (f j)) s).
Proof.
  intros I [N1 N2 N3] H. destruct (sc_jobs s !! i) as [j|] eqn:Hj; [|now rewrite upd_job_none]. destruct (H j eq_refl) as (Ek & Eh & Er & Ew & Eq). pose proof (iv_job _ I _ _ Hj) as J.
  assert (Eo : own (jb_set_waiting b (f j)) = own j) by (unfold own; cbn; congruence).
  apply (inv_replaced s _ i j (jb_set_waiting b (f j)) I Hj). split; cbn [upd_job sc_set_jobs sc_jobs sc_byKey sc_nextJobID sc_leased sc_active sc_pending sc_timers]; try done.
  - exact (upd_job_at s i _ j Hj).
  - intros n Hn. rewrite Eo. now apply (own_bits s i).
  - intros n Hn. rewrite Eo. auto.
  - split; apply I.
  - cbn. rewrite Er. intros _. now apply J.
Qed.

Lemma inv_queue s i j : sinv s -> nowhere s i -> sc_jobs s !! i = Some j -> jb_waiting j = false -> sinv (queueJob i s).
Proof.
  intros I [N1 N2 N3] Hj Hw. apply (inv_replaced s _ i j j I Hj). split; cbn; try done.
  - now rewrite insert_id.
  - intros n Hn. now apply (own_bits s i).
  - auto.
  - intros k Hk. set_solver.
  - split; [|apply I]. apply NoDup_app. split; [apply I|]. split; [set_solver|]. apply NoDup_singleton.
  - split; cbn; try done. intros l Hl. congruence.
  - intros _. now apply (iv_job _ I _ _ Hj).
Qed.

Lemma inv_timer_set s i j : sinv s -> nowhere s i -> sc_jobs s !! i = Some j -> jb_waiting j = false -> sinv (sc_set_timers (sc_timers s ++ [i]) s).
Proof.
  intros I [N1 N2 N3] Hj Hw. apply (inv_replaced s _ i j j I Hj). split; cbn; try done.
  - now rewrite insert_id.
  - intros n Hn. now apply (own_bits s i).
  - auto.
  - intros k Hk. set_solver.
  - split; [apply I|]. apply NoDup_app. split; [apply I|]. split; [set_solver|]. apply NoDup_singleton.
  - split; cbn; try done. intros l Hl. congruence.
  - intros _. now apply (iv_job _ I _ _ Hj).
Qed.

Lemma inv_timer_gone s i : sinv s -> sinv (sc_set_timers (remove_first i (sc_timers s)) s).
Proof.
  intros I. pose proof (iv_timers _ I) as NT. split; cbn; try exact (iv_next _ I); try apply I; try now apply remove_first_nodup.
  - intros k j Hj. now destruct (iv_job _ I _ _ Hj).
  - intros k. destruct (iv_place _ I k) as [P1 P2 P3]. split; cbn; rewrite ?remove_first_in by done; [tauto|tauto|]. intros j Hj Hw. destruct (P3 j Hj Hw) as (A & B & C). rewrite remove_first_in by done. tauto.
  - intros k Hk. apply remove_first_in in Hk; [|done]. now apply (iv_timer _ I).
Qed.

Lemma inv_frame (s s' : scheduler) :
  sc_jobs s' = sc_jobs s -> sc_pending s' = sc_pending s -> sc_active s' = sc_active s -> sc_timers s' = sc_timers s -> sc_byKey s' = sc_byKey s ->
  sc_leased s' = sc_leased s -> sc_nextJobID s' = sc_nextJobID s -> sinv s -> sinv s'.
Proof.
  intros E1 E2 E3 E4 E5 E6 E7 I. split; rewrite ?E1, ?E2, ?E3, ?E4, ?E5, ?E6, ?E7; try exact (iv_next _ I); try apply I.
  - intros i j Hj. destruct (iv_job _ I _ _ Hj) as [A B C D K E]. split; rewrite ?E3, ?E5, ?E6, ?E7; assumption.
  - intros i. destruct (iv_place _ I i) as [A B C]. split; rewrite ?E1, ?E2, ?E3, ?E4; assumption.
Qed.

Lemma inv_stamp s i : sinv s -> sinv (stamp i s).
Proof. intros I. apply inv_upd; [now apply (inv_frame s)|]. done. Qed.

(** A job leaves with what it held. *)
Lemma inv_remove s i : sinv s -> i ∉ sc_pending s -> i ∉ sc_active s -> sinv (removeJob i s).
Proof.
  intros I Np Na. unfold removeJob. destruct (sc_jobs s !! i) as [j|] eqn:Hj; [|done]. pose proof (iv_job _ I _ _ Hj) as J.
  assert (Eo : forall n, Z.testbit (own j) n = Z.testbit (jb_held j) n) by (intros n; unfold own; rewrite (jo_idle _ _ _ J Na), Z.lor_0_r; done).
  set (s1 := sc_set_jobs _ _).
  assert (K : forall keys, (forall k x, keys !! k = Some x <-> sc_byKey s !! k = Some x /\ x <> i) -> sinv (sc_set_byKey keys s1)).
  { intros keys Hkeys. split; cbn; try exact (iv_next _ I); try apply I.
    - intros k l [Hne Hl]%lookup_delete_Some. destruct (iv_job _ I _ _ Hl) as [A B C D Q E]. split; cbn; auto.
      + intros Hk. apply Hkeys. split; auto.
      + intros n Hn H. rewrite Z.ldiff_spec, (E n Hn H), <- Eo. destruct (Z.testbit (own j) n) eqn:E1; [|done]. exfalso. eapply (iv_apart _ I i k); eauto.
    - intros k. destruct (iv_place _ I k) as [A B C]. split; cbn; auto. intros l [Hne Hl]%lookup_delete_Some. eauto.
    - intros k Hk. destruct (iv_known _ I k Hk) as [l Hl]. exists l. rewrite lookup_delete_ne; [done|]. intros <-. tauto.
    - intros k x Hx. apply Hkeys in Hx as [Hx Hne]. destruct (iv_byKey _ I _ _ Hx) as (l & Hl & El & Hn). exists l. rewrite lookup_delete_ne; done.
    - intros n Hn. rewrite Z.ldiff_spec, <- Eo. intros [H1 H2]%andb_true_iff. destruct (iv_leased _ I n Hn H1) as (k & l & Hl & Hb). exists k, l. split; [|done].
      rewrite lookup_delete_ne; [done|]. intros <-. assert (l = j) by congruence. subst. rewrite Hb in H2. discriminate.
    - intros a b x y Hab [_ Ha]%lookup_delete_Some [_ Hb]%lookup_delete_Some. eapply (iv_apart _ I a b); eauto. }
  assert (Hin : forall k, sc_byKey s !! k = Some i -> k = jb_key j /\ k <> ""%string) by (intros k Hk; destruct (iv_byKey _ I _ _ Hk) as (l & Hl & <- & Hn); split; congruence).
  destruct (bool_decide_reflect (jb_key j = ""%string)) as [E|E]; cbn [negb andb].
  - assert (Hno : sinv (sc_set_byKey (sc_byKey s) s1)); [|destruct s; exact Hno]. apply K. intros k x. split; [|tauto]. intros Hx. split; [done|]. intros ->. destruct (Hin _ Hx). congruence.
  - change (sc_byKey s1) with (sc_byKey s). rewrite bool_decide_eq_true_2 by now apply J. apply K. intros k x. rewrite lookup_delete_Some. split.
    + intros [Hne Hx]. split; [done|]. intros ->. destruct (Hin _ Hx). congruence.
    + intros [Hx Hne]. split; [|done]. intros <-. rewrite (jo_key _ _ _ J E) in Hx. congruence.
Qed.

(** ** Dispatching *)

Local Abbreviation start_job := (start_job Resources).
Local Abbreviation runnable := (runnable Resources).
Local Abbreviation best_pending := (best_pending Resources).

Lemma best_pending_in s l b i : best_pending s b l = Some i -> b = Some i \/ (i ∈ l /\ runnable s i = true).
Proof.
  revert b. induction l as [|x l IH]; intros b; cbn; [auto|]. intros H. apply IH in H as [H|[H1 H2]]; [|right; set_solver].
  destruct (runnable s x) eqn:Ex; cbn in H; [|auto]. destruct b as [b|]; [destruct (goes_before s x b)|]; (injection H as <- || discriminate); auto; right; set_solver.
Qed.

Lemma best_pending_some s l b : best_pending s b l = None -> b = None /\ forall i, i ∈ l -> runnable s i = false.
Proof.
  revert b. induction l as [|x l IH]; intros b; cbn; [set_solver|]. intros H. apply IH in H as [H1 H2].
  destruct (runnable s x) eqn:Ex; cbn in H1; [destruct b as [b|]; [destruct (goes_before s x b)|]; discriminate|]. split; [done|]. intros i [->|Hi]%elem_of_cons; auto.
Qed.

(** Whatever every start keeps is kept by [dispatch]. *)
Lemma dispatch_keeps (P : scheduler -> Prop) s : (forall s i, P s -> i ∈ sc_pending s -> runnable s i = true -> P (start_job i s)) -> P s -> P (dispatch s).
Proof.
  intros HP. unfold Scheduler.dispatch. generalize (length (sc_pending s)) as n. intros n. revert s. induction n as [|n IH]; intros s H; cbn; [done|].
  destruct (best_pending s None (sc_pending s)) as [i|] eqn:E; [|done]. apply best_pending_in in E as [E|[E1 E2]]; [discriminate|]. apply IH. now apply HP.
Qed.

Lemma start_pending s i : runnable s i = true -> sc_pending (start_job i s) = remove_first i (sc_pending s).
Proof. unfold Scheduler.runnable, Scheduler.start_job. destruct (sc_jobs s !! i); [reflexivity|discriminate]. Qed.

(** Nothing that could run is left pending. *)
Lemma dispatch_exhausts s i : i ∈ sc_pending (dispatch s) -> runnable (dispatch s) i = false.
Proof.
  unfold Scheduler.dispatch. enough (H : forall n s, (length (sc_pending s) <= n)%nat -> best_pending (dispatch_loop Resources n s) None (sc_pending (dispatch_loop Resources n s)) = None).
  { specialize (H _ s (le_n _)). apply best_pending_some in H. apply H. }
  induction n as [|n IH]; intros s0 Hn; cbn [dispatch_loop]; [destruct (sc_pending s0); [reflexivity|cbn in Hn; lia]|].
  destruct (best_pending s0 None (sc_pending s0)) as [k|] eqn:E; [|done]. apply IH. apply best_pending_in in E as [E|[E1 E2]]; [discriminate|].
  rewrite start_pending by done. apply remove_first_len in E1. lia.
Qed.

Lemma runnable_job s i : runnable s i = true -> exists j, sc_jobs s !! i = Some j /\ Z.land (job_need Resources j) (sc_leased s) = 0.
Proof. unfold Scheduler.runnable. destruct (sc_jobs s !! i) as [j|]; [|discriminate]. intros H%Z.eqb_eq. eauto. Qed.

Definition granted (closing : bool) (need : Z) (j : job) : job := jb_set_cancel (Some closing) (jb_set_running need j).

Lemma start_job_at s i j : sc_jobs s !! i = Some j ->
  start_job i s = sc_set_active ({[i]} ∪ sc_active s) (upd_job i (granted (sc_closing s) (job_need Resources j)) (sc_set_leased (Z.lor (sc_leased s) (job_need Resources j)) (sc_set_pending (remove_first i (sc_pending s)) s))).
Proof. intros H. unfold Scheduler.start_job. now rewrite H. Qed.

Lemma inv_start s i : sinv s -> i ∈ sc_pending s -> runnable s i = true -> sinv (start_job i s).
Proof.
  intros I Hp (j & Hj & Hfree)%runnable_job. rewrite (start_job_at _ _ _ Hj). pose proof (iv_job _ I _ _ Hj) as J. destruct (pl_pending _ _ (iv_place _ I i) Hp) as [Na Nt].
  apply apart_land in Hfree. set (need := job_need Resources j) in *. pose proof (jo_idle _ _ _ J Na) as Er.
  assert (Eo : own j = jb_held j) by (unfold own; now rewrite Er, Z.lor_0_r).
  apply (inv_replaced s _ i j (granted (sc_closing s) need j) I Hj). split; cbn; try done.
  - exact (upd_job_at s i _ j Hj).
  - intros n Hn. pose proof (jo_leased _ _ _ J n Hn) as H. rewrite Eo in *. unfold own. cbn. rewrite !Z.lor_spec, !orb_true_iff. destruct (Z.testbit (jb_held j) n); tauto.
  - intros n Hn. unfold own at 1. cbn. rewrite Z.lor_spec, orb_true_iff, Eo. intros [H|H]; [auto|]. right. destruct (Z.testbit (sc_leased s) n) eqn:E; [exfalso; eauto|done].
  - set_solver.
  - intros k Hk. rewrite remove_first_in by apply I. tauto.
  - split; [apply remove_first_nodup|]; apply I.
  - split; cbn; [rewrite remove_first_in by apply I; tauto|done|]. intros l. rewrite (lookup_alter_eq _ (sc_jobs s)), Hj. intros [= <-] Hw. cbn in Hw.
    destruct (pl_waiting _ _ (iv_place _ I i) j Hj Hw) as [C _]. tauto.
  - intros _ n Hn H. unfold own. cbn. rewrite Z.lor_spec, orb_true_iff. unfold need, job_need. rewrite Z.ldiff_spec. unfold needs in H. cbn in H. rewrite H. destruct (Z.testbit (jb_held j) n); auto.
  - set_solver.
Qed.

Lemma inv_dispatch s : sinv s -> sinv (dispatch s).
Proof. apply dispatch_keeps. intros. now apply inv_start. Qed.

(** ** The end of a phase *)

Lemma phase_ended_place s i w retain j : i ∈ sc_active s -> sinv s -> nowhere (phase_ended i w retain j s) i.
Proof. intros Ha I. destruct (iv_place _ I i) as [A B C]. split; cbn; [|set_solver|auto]. intros H. destruct (A H). done. Qed.

Lemma inv_phase_ended s i w retain j : sinv s -> sc_jobs s !! i = Some j -> i ∈ sc_active s -> covers (own j) retain -> sinv (phase_ended i w retain j s).
Proof.
  intros I Hj Ha Hc. pose proof (iv_job _ I _ _ Hj) as J. destruct (iv_place _ I i) as [P1 P2 P3].
  pose (f := fun x : job => jb_set_held retain (jb_set_running 0 (jb_set_cancel None (jb_set_worker w x)))).
  assert (Eo : forall n, Z.testbit (own (f j)) n = Z.testbit retain n) by (intros n; unfold own; cbn; now rewrite Z.lor_0_r).
  apply (inv_replaced s _ i j (f j) I Hj). split; cbn; try done.
  - exact (upd_job_at s i f j Hj).
  - intros n Hn. rewrite Eo. unfold own. rewrite !Z.lor_spec, !Z.ldiff_spec. pose proof (jo_leased _ _ _ J n Hn) as H. unfold own in H. rewrite Z.lor_spec in H.
    destruct (Z.testbit (sc_leased s) n), (Z.testbit (jb_held j) n), (Z.testbit (jb_running j) n), (Z.testbit retain n); cbn in *; intuition congruence.
  - intros n Hn. rewrite Eo. intros H. left. auto.
  - set_solver.
  - split; apply I.
  - split; cbn; [intros H; destruct (P1 H); done|set_solver|]. intros l. rewrite (lookup_alter_eq _ (sc_jobs s)), Hj. intros [= <-] Hw. cbn in Hw. destruct (P3 j Hj Hw) as (C1 & C2 & _). done.
  - set_solver.
Qed.

Definition put_job (i : Z) (j : job) (s : scheduler) : scheduler := sc_set_jobs (<[i := j]> (sc_jobs s)) s.

Lemma upd_put s i (f : job -> job) j : sc_jobs s !! i = Some j -> upd_job i f s = put_job i (f j) s.
Proof. intros H. unfold put_job. rewrite <- (upd_job_at s i f j H). reflexivity. Qed.

Lemma inv_put s i j j' : sinv s -> sc_jobs s !! i = Some j -> keeps (fun _ => j') j -> (i ∈ sc_active s -> needs j' = needs j) -> sinv (put_job i j' s).
Proof. intros I Hj Hk Hn. rewrite <- (upd_put s i (fun _ => j') j Hj). apply inv_upd; [done|]. intros l Hl. assert (l = j) by congruence. subst. auto. Qed.

(** ** Completion *)

(** What [complete] leaves alone: everything but the waiting jobs that it resumes. *)
Record resumes (c : maintenanceCompletion) (s s' : scheduler) : Prop := mkResumes {
  rs_same : sc_active s' = sc_active s /\ sc_timers s' = sc_timers s /\ sc_leased s' = sc_leased s /\ sc_closing s' = sc_closing s /\ sc_sent s' = sc_sent s /\
    sc_nextJobID s' = sc_nextJobID s /\ sc_nextWaiterID s' = sc_nextWaiterID s /\ sc_byKey s' = sc_byKey s;
  rs_jobs : forall k, match sc_jobs s !! k, sc_jobs s' !! k with
    | Some l, Some l' => l' = l \/ (jb_waiting l = true /\ jb_waiting l' = false /\ k ∈ sc_pending s' /\ exists q r w, l' = jb_set_sequence q (jb_set_worker w (jb_set_dependencyResult r (jb_set_waiting false l))) /\
        (w = jb_worker l \/ exists e, mc_err c = Some e /\ w = failedDependencyWorker (jb_worker l) e))
    | None, None => True
    | _, _ => False
    end;
  rs_pending : forall k, k ∈ sc_pending s -> k ∈ sc_pending s';
  rs_queued : forall k, k ∈ sc_pending s' -> k ∈ sc_pending s \/ exists l, sc_jobs s !! k = Some l /\ jb_waiting l = true }.

Lemma resumes_refl c s : resumes c s s.
Proof. split; [done| |done|auto]. intros k. destruct (sc_jobs s !! k); auto. Qed.

Lemma set_same_worker (l : job) q r b : jb_set_sequence q (jb_set_dependencyResult r (jb_set_waiting b l)) = jb_set_sequence q (jb_set_worker (jb_worker l) (jb_set_dependencyResult r (jb_set_waiting b l))).
Proof. now destruct l. Qed.

Lemma resume_spec c s d l : sc_jobs s !! d = Some l -> jb_waiting l = true ->
  exists q r w, resume_dependent c s d = queueJob d (sc_set_sequence q (put_job d (jb_set_sequence q (jb_set_worker w (jb_set_dependencyResult r (jb_set_waiting false l)))) s)) /\
    (w = jb_worker l \/ exists e, mc_err c = Some e /\ w = failedDependencyWorker (jb_worker l) e).
Proof.
  intros Hl Hw. unfold resume_dependent. rewrite Hl, Hw. erewrite (upd_put s d) by exact Hl. destruct (mc_err c) as [e|] eqn:Ee.
  - erewrite (upd_put (put_job d _ s) d) by apply lookup_insert_eq. eexists _, _, (failedDependencyWorker (jb_worker l) e). split; [|eauto].
    unfold stamp. erewrite upd_put by apply lookup_insert_eq. unfold queueJob, put_job, next_sequence. cbn. now rewrite !insert_insert_eq.
  - exists (add64 (sc_sequence s) 1), (mc_result c), (jb_worker l). split; [|auto]. unfold stamp. erewrite upd_put by apply lookup_insert_eq. unfold queueJob, put_job, next_sequence. cbn. rewrite !insert_insert_eq. now destruct l.
Qed.

Lemma inv_resume c s d : sinv s -> sinv (resume_dependent c s d) /\ resumes c s (resume_dependent c s d).
Proof.
  intros I. destruct (sc_jobs s !! d) as [l|] eqn:Hl; [|unfold resume_dependent; rewrite Hl; split; [done|apply resumes_refl]].
  destruct (jb_waiting l) eqn:Hw; [|unfold resume_dependent; rewrite Hl, Hw; split; [done|apply resumes_refl]].
  destruct (resume_spec c s d l Hl Hw) as (q & r & w & -> & Ew). destruct (pl_waiting _ _ (iv_place _ I d) l Hl Hw) as (N1 & N2 & N3). split.
  - apply (inv_queue _ _ (jb_set_sequence q (jb_set_worker w (jb_set_dependencyResult r (jb_set_waiting false l))))); [|done|cbn; apply lookup_insert_eq|done].
    apply (inv_frame (put_job d (jb_set_sequence q (jb_set_worker w (jb_set_dependencyResult r (jb_set_waiting false l)))) s)); try done.
    assert (X : sinv (upd_job d (fun l => jb_set_waiting false (jb_set_sequence q (jb_set_worker w (jb_set_dependencyResult r l)))) s)) by now apply inv_set_waiting.
    rewrite (upd_put s d _ l Hl) in X. exact X.
  - split; [done| | |].
    + intros k. cbn. destruct (decide (k = d)) as [->|Hne]; [rewrite lookup_insert_eq, Hl|rewrite lookup_insert_ne by done; destruct (sc_jobs s !! k); auto].
      right. split; [done|]. split; [done|]. split; [set_solver|]. eauto 6.
    + cbn. set_solver.
    + cbn. intros k [H|H]%elem_of_app; [auto|]. right. assert (k = d) by set_solver. subst. eauto.
Qed.

Lemma resumes_trans c s1 s2 s3 : resumes c s1 s2 -> resumes c s2 s3 -> resumes c s1 s3.
Proof.
  intros [S1 J1 P1 Q1] [S2 J2 P2 Q2]. split.
  - destruct S2 as (->&->&->&->&->&->&->&->). exact S1.
  - intros k. specialize (J1 k). specialize (J2 k). destruct (sc_jobs s1 !! k) as [l1|], (sc_jobs s2 !! k) as [l2|], (sc_jobs s3 !! k) as [l3|]; try done.
    destruct J1 as [->|(A & B & C & D)]; [done|]. destruct J2 as [->|(A2 & _)]; [|congruence]. right. split; [done|]. split; [done|]. split; [auto|done].
  - auto.
  - intros k H. apply Q2 in H as [H|(l & Hl & Hw)]; [auto|]. specialize (J1 k). rewrite Hl in J1. destruct (sc_jobs s1 !! k) as [l1|] eqn:H1; [|done]. destruct J1 as [->|(A & B & _)]; [eauto|congruence].
Qed.

Lemma inv_resume_all c order s : sinv s -> sinv (foldl (resume_dependent c) s order) /\ resumes c s (foldl (resume_dependent c) s order) /\
  (forall d l, d ∈ order -> sc_jobs (foldl (resume_dependent c) s order) !! d = Some l -> jb_waiting l = false).
Proof.
  revert s. induction order as [|d order IH]; intros s I; cbn [foldl]; [split; [done|split; [apply resumes_refl|set_solver]]|].
  destruct (inv_resume c s d I) as [I1 R1]. destruct (IH _ I1) as (I2 & R2 & N). split; [done|]. split; [eapply resumes_trans; eauto|].
  intros k l [->|Hk]%elem_of_cons Hl; [|eauto]. destruct (jb_waiting l) eqn:Hw; [|done]. exfalso.
  pose proof (rs_jobs _ _ _ R2 d) as J2. rewrite Hl in J2. destruct (sc_jobs (resume_dependent c s d) !! d) as [l1|] eqn:H1; [|done]. destruct J2 as [->|(_ & B & _)]; [|congruence].
  unfold resume_dependent in H1. destruct (sc_jobs s !! d) as [l0|] eqn:H0; [|congruence]. destruct (jb_waiting l0) eqn:Hw0; [|congruence].
  pose proof (rs_jobs _ _ _ R1 d) as J1. destruct (resume_spec c s d l0 H0 Hw0) as (q & r & w & E & _). unfold resume_dependent in E. rewrite H0, Hw0 in E. rewrite E in H1. cbn in H1. rewrite lookup_insert_eq in H1.
  injection H1 as <-. discriminate.
Qed.

(** The job in the hands of the actor: it is nowhere, and it does not wait. *)
Record in_hand (s : scheduler) (i : Z) (j : job) : Prop := mkHand { ih_job : sc_jobs s !! i = Some j; ih_nowhere : nowhere s i; ih_waiting : jb_waiting j = false }.

Lemma in_hand_upd s i j (f : job -> job) : in_hand s i j -> jb_waiting (f j) = jb_waiting j -> in_hand (upd_job i f s) i (f j).
Proof. intros [Hj [A B C] Hw] E. split; [|done|congruence]. rewrite (upd_put s i f j Hj). apply lookup_insert_eq. Qed.

Lemma complete_spec s i j c order : sinv s -> in_hand s i j ->
  sinv (complete i c order s) /\ in_hand (complete i c order s) i j /\ resumes c (finishWaiters (jb_waiters j) c s) (complete i c order s) /\
  (forall d l, d ∈ order -> sc_jobs (complete i c order s) !! d = Some l -> jb_waiting l = false).
Proof.
  intros I [Hj [A B C] Hw]. unfold complete. rewrite Hj. assert (I1 : sinv (finishWaiters (jb_waiters j) c s)) by (apply (inv_frame s); done).
  destruct (inv_resume_all c order _ I1) as (I2 & R & N). split; [done|]. split; [|done].
  pose proof (rs_jobs _ _ _ R i) as Ji. cbn in Ji. rewrite Hj in Ji. destruct (sc_jobs (foldl _ _ _) !! i) as [l|] eqn:Hl; [|done].
  assert (l = j) as -> by (destruct Ji as [->|(X & _)]; [done|congruence]).
  destruct (rs_same _ _ _ R) as (Ea & Et & _). split; [done| |done]. split; rewrite ?Ea, ?Et; try done. intros Hp. apply (rs_queued _ _ _ R) in Hp as [Hp|(l & Hl1 & Hw1)]; [done|]. cbn in Hl1. congruence.
Qed.

Lemma requeue_spec s i j : sinv s -> in_hand s i j -> sinv (queueJob i (stamp i s)).
Proof.
  intros I H. pose proof (in_hand_upd (next_sequence s) i j (jb_set_sequence (sc_sequence (next_sequence s)))) as K. destruct K as [K1 K2 K3]; [now destruct H as [? [] ?]|done|].
  eapply inv_queue; [now apply inv_stamp|exact K2|exact K1|exact K3].
Qed.

Lemma phase_ended_hand s i w retain j : sinv s -> sc_jobs s !! i = Some j -> i ∈ sc_active s -> exists j', in_hand (phase_ended i w retain j s) i j'.
Proof.
  intros I Hj Ha. exists (jb_set_held retain (jb_set_running 0 (jb_set_cancel None (jb_set_worker w j)))). split; [|now apply phase_ended_place|]; [cbn; now rewrite lookup_alter_eq, Hj|].
  cbn. destruct (jb_waiting j) eqn:Hw; [|done]. destruct (pl_waiting _ _ (iv_place _ I i) j Hj Hw) as (_ & N & _). done.
Qed.

(** ** Every case of the select *)

(** The transition that the actor uses: the worker's, or an error in its place. *)
Definition checked (t : maintenanceTransition) (owned : Z) : maintenanceTransition :=
  match validateMaintenanceTransition t owned with Some e => mkTransition 0 0 None zeroResult true 0 (Some e) | None => t end.

Lemma checked_ok t owned : let t' := checked t owned in
  covers owned (tr_retain t') /\ (forall d, tr_dependency t' = Some d -> tr_done t' = false -> kind_ok d) /\ (t' = t \/ (tr_retain t' = 0 /\ tr_err t' = Some invalid_transition)).
Proof.
  unfold checked. destruct (validateMaintenanceTransition t owned) as [e|] eqn:E; cbn.
  - assert (e = invalid_transition) as -> by (revert E; unfold validateMaintenanceTransition; repeat case_match; congruence).
    split; [intros n Hn; now rewrite Z.testbit_0_l|]. split; [done|now right].
  - unfold validateMaintenanceTransition in E. destruct (Z.eqb_spec (Z.ldiff (tr_retain t) owned) 0) as [E0|]; [|discriminate]. split; [now apply covers_ldiff|]. split; [|auto].
    intros d Hd Hn. rewrite Hn, Hd in E. apply policy_kind. destruct (maintenanceRequestPolicy d); [eauto|]. repeat case_match; discriminate.
Qed.

Lemma inv_register s i c : sinv s -> sinv (register_waiter i c s).
Proof. intros I. apply inv_upd; [now apply (inv_frame s)|]. intros j Hj. unfold keeps, needs, add_waiter. destruct (is_active s i && jb_runAgain j); done. Qed.

Lemma inv_preempt s i : sinv s -> sinv (preempt_running Resources i s).
Proof.
  intros I. unfold preempt_running. destruct (sc_jobs s !! i) as [j|]; [|done].
  set (f := fun (k : Z) (r : job) => if is_active s k && preempts Resources j r then jb_set_cancel (Some true) (jb_set_preempted true r) else r).
  assert (Ef : forall k r, keeps (f k) r /\ needs (f k r) = needs r) by (intros k r; unfold keeps, needs, f; destruct (is_active s k && preempts Resources j r); done).
  assert (El : forall k l', map_imap (fun k r => Some (f k r)) (sc_jobs s) !! k = Some l' <-> exists l, sc_jobs s !! k = Some l /\ l' = f k l).
  { intros k l'. rewrite map_lookup_imap. destruct (sc_jobs s !! k) as [l|]; cbn; split; [intros [= <-]; eauto|intros (x & [= <-] & ->); done|discriminate|intros (x & ? & _); discriminate]. }
  assert (Eo : forall k l, own (f k l) = own l) by (intros k l; unfold own; destruct (Ef k l) as [(_ & -> & -> & _) _]; done).
  split; cbn; try exact (iv_next _ I); try apply I.
  - intros k l' (l & Hl & ->)%El. destruct (iv_job _ I _ _ Hl) as [A B C D K E], (Ef k l) as [(E1 & E2 & E3 & E4 & E5) E6]. split; cbn; rewrite ?Eo, ?E1, ?E3, ?E6; auto.
  - intros k. destruct (iv_place _ I k) as [A B C]. split; cbn; auto. intros l' (l & Hl & ->)%El. destruct (Ef k l) as [(E1 & E2 & E3 & E4 & E5) E6]. rewrite E4. eauto.
  - intros k Hk. destruct (iv_known _ I k Hk) as [l Hl]. exists (f k l). apply El. eauto.
  - intros k x Hx. destruct (iv_byKey _ I _ _ Hx) as (l & Hl & Ek & Hn). exists (f x l). split; [apply El; eauto|]. destruct (Ef x l) as [(E1 & _) _]. split; congruence.
  - intros n Hn H. destruct (iv_leased _ I n Hn H) as (k & l & Hl & Hb). exists k, (f k l). split; [apply El; eauto|now rewrite Eo].
  - intros a b x y Hab (x0 & Hx & ->)%El (y0 & Hy & ->)%El. rewrite !Eo. eapply (iv_apart _ I a b); eauto.
Qed.

Lemma inv_drop_pending s i : sinv s -> sinv (sc_set_pending (remove_first i (sc_pending s)) s).
Proof.
  intros I. pose proof (iv_pending _ I) as ND. split; cbn; try exact (iv_next _ I); try apply I; try now apply remove_first_nodup.
  - intros k j Hj. now destruct (iv_job _ I _ _ Hj).
  - intros k. destruct (iv_place _ I k) as [A B C]. split; cbn; rewrite ?remove_first_in by done; [tauto|tauto|]. intros j Hj Hw. destruct (C j Hj Hw) as (X & Y & Z). rewrite remove_first_in by done. tauto.
  - intros k. rewrite remove_first_in by done. intros Hk. apply (iv_known _ I). tauto.
Qed.

Lemma inv_cancel s i n : sinv s -> sinv (on_cancel i n s).
Proof.
  intros I. unfold on_cancel. destruct (sc_jobs s !! i) as [j|] eqn:Hj; [|done]. set (j1 := jb_set_nextWaiters _ _). set (s1 := upd_job i (fun _ => j1) s).
  assert (I1 : sinv s1). { apply inv_upd; [done|]. intros l Hl. assert (l = j) by congruence. subst l. done. }
  destruct (unowned j1); [|done]. unfold is_active. destruct (bool_decide_reflect (i ∈ sc_active s1)) as [Ha|Ha]; [now apply inv_upd|]. destruct (negb (jb_waiting j1)); [|done].
  apply inv_remove; [now apply inv_drop_pending| |done]. cbn. unfold removeMaintenanceJob. rewrite remove_first_in by apply I. tauto.
Qed.

Lemma inv_retry s i : sinv s -> i ∈ sc_timers s -> sinv (on_retry Resources i s).
Proof.
  intros I Ht. unfold on_retry. set (s1 := sc_set_timers (remove_first i (sc_timers s)) s). assert (I1 : sinv s1) by now apply inv_timer_gone. change (sc_jobs s1) with (sc_jobs s). destruct (sc_jobs s !! i) as [j|] eqn:Hj; [|done].
  destruct (iv_place _ I i) as [A B C]. unfold is_active. destruct (bool_decide_reflect (i ∈ sc_active s1)) as [Ha|Ha]; [done|]. destruct (jb_waiting j) eqn:Hw; [done|]. cbn [negb andb].
  apply inv_dispatch. eapply requeue_spec; [done|]. split; [exact Hj| |exact Hw]. split; [|done|]; cbn; [intros Hp; now destruct (A Hp)|]. rewrite remove_first_in by apply I. tauto.
Qed.

(** What is sent when the scheduler closes. *)
Definition closing_sends (x : Z * job) : list (Z * maintenanceCompletion) :=
  map (fun w => (wt_chan w.2, closed_completion)) (map_to_list (jb_waiters x.2)) ++ map (fun w => (wt_chan w.2, closed_completion)) (map_to_list (jb_nextWaiters x.2)).

Lemma shutdown_sent (s : scheduler) : let s1 := foldl (fun s (x : Z * job) => finishWaiters (jb_nextWaiters x.2) closed_completion (finishWaiters (jb_waiters x.2) closed_completion s)) s (map_to_list (sc_jobs s)) in
  s1 = sc_set_sent (sc_sent s ++ concat (map closing_sends (map_to_list (sc_jobs s)))) s.
Proof.
  cbn zeta. generalize (map_to_list (sc_jobs s)) as l. intros l. revert s. induction l as [|x l IH]; intros s; cbn [foldl map concat].
  - rewrite app_nil_r. now destruct s.
  - rewrite IH. unfold finishWaiters, closing_sends. cbn. rewrite !app_assoc. reflexivity.
Qed.

Lemma inv_shutdown s : sinv s -> sinv (on_shutdown s).
Proof.
  intros I. unfold on_shutdown. rewrite shutdown_sent.
  assert (El : forall k l', (close_job <$> sc_jobs s) !! k = Some l' <-> exists l, sc_jobs s !! k = Some l /\ l' = close_job l).
  { intros k l'. rewrite lookup_fmap. destruct (sc_jobs s !! k) as [l|]; cbn; split; [intros [= <-]; eauto|intros (x & [= <-] & ->); done|discriminate|intros (x & ? & _); discriminate]. }
  split; cbn; try exact (iv_next _ I); try apply I.
  - intros k l' (l & Hl & ->)%El. destruct (iv_job _ I _ _ Hl) as [A B C D K E]. split; cbn; auto.
  - intros k. destruct (iv_place _ I k) as [A B C]. split; cbn; [set_solver|auto|]. intros l' (l & Hl & ->)%El Hw. destruct (C l Hl Hw) as (X & Y & Z). split; [set_solver|auto].
  - intros k [Hk|Hk]; [set_solver|]. destruct (iv_known _ I k) as [l Hl]; [auto|]. exists (close_job l). apply El. eauto.
  - constructor.
  - intros k x Hx. destruct (iv_byKey _ I _ _ Hx) as (l & Hl & Ek & Hn). exists (close_job l). split; [apply El; eauto|]. done.
  - intros n Hn H. destruct (iv_leased _ I n Hn H) as (k & l & Hl & Hb). exists k, (close_job l). split; [apply El; eauto|done].
  - intros a b x y Hab (x0 & Hx & ->)%El (y0 & Hy & ->)%El. exact (iv_apart _ I a b _ _ Hab Hx Hy).
Qed.

(** What [find_or_create] does when it creates. *)
Record created (s s' : scheduler) (rq : maintenanceRequest) (key : string) (priority : Z) (w : W) : Prop := mkCreated {
  ct_jobs : exists q, sc_jobs s' = <[sc_nextJobID s + 1 := new_job (sc_nextJobID s + 1) q rq key priority w]> (sc_jobs s);
  ct_pending : sc_pending s' = sc_pending s ++ [sc_nextJobID s + 1];
  ct_same : sc_active s' = sc_active s /\ sc_timers s' = sc_timers s /\ sc_leased s' = sc_leased s /\ sc_closing s' = sc_closing s /\ sc_sent s' = sc_sent s /\ sc_nextWaiterID s' = sc_nextWaiterID s;
  ct_next : sc_nextJobID s' = sc_nextJobID s + 1;
  ct_byKey : sc_byKey s' = if bool_decide (key = ""%string) then sc_byKey s else <[key := sc_nextJobID s + 1]> (sc_byKey s) }.

Lemma inv_created s s' rq key priority w : sinv s -> kind_ok rq -> (key <> ""%string -> sc_byKey s !! key = None) -> created s s' rq key priority w -> sinv s'.
Proof.
  intros I Hkind Ef [[q Cj] Cp (Ca & Ct & Cl & _) Cn Ck]. pose proof (iv_next _ I) as H0.
  set (i := sc_nextJobID s + 1) in *. set (j := new_job i q rq key priority w) in *.
  assert (Hf : sc_jobs s !! i = None) by (destruct (sc_jobs s !! i) as [l|] eqn:E; [destruct (iv_job _ I _ _ E); unfold i in *; lia|done]).
  assert (Hl : forall k l, <[i := j]> (sc_jobs s) !! k = Some l -> (k = i /\ l = j) \/ (k <> i /\ sc_jobs s !! k = Some l)) by (intros k l [[<- <-]|[Hne Hl]]%lookup_insert_Some; eauto).
  assert (Hp : i ∉ sc_pending s /\ i ∉ sc_active s).
  { split; intros H; [destruct (iv_known _ I i) as [l Hx]|destruct (iv_known _ I i) as [l Hx]]; auto; congruence. }
  assert (Ht : i ∉ sc_timers s) by (intros H; apply (iv_timer _ I) in H; unfold i in H; lia).
  set (keys := if bool_decide (key = ""%string) then sc_byKey s else <[key := i]> (sc_byKey s)) in *.
  assert (Hk : forall k x, sc_byKey s !! k = Some x -> keys !! k = Some x).
  { intros k x Hx. unfold keys. destruct (bool_decide_reflect (key = ""%string)); [done|]. rewrite lookup_insert_ne; [done|]. intros <-. rewrite Ef in Hx by done. discriminate. }
  { split; rewrite ?Cj, ?Cp, ?Ca, ?Ct, ?Cl, ?Cn, ?Ck.
    - intros k l [[-> ->]|[Hne Hk1]]%Hl.
      + split; cbn; rewrite ?Ca, ?Cl, ?Cn, ?Ck; try done; [lia| |tauto|]. { intros Hx. unfold keys. rewrite bool_decide_eq_false_2 by done. apply lookup_insert_eq. } intros n _. rewrite Z.testbit_0_l by lia. done.
      + destruct (iv_job _ I _ _ Hk1) as [A B C D Q E]. split; rewrite ?Ca, ?Cl, ?Cn, ?Ck; auto. lia.
    - intros k. destruct (iv_place _ I k) as [A B C]. split; rewrite ?Cj, ?Cp, ?Ca, ?Ct; auto.
      + intros H. apply elem_of_app in H as [H|H]; [auto|]. assert (k = i) by set_solver. subst. tauto.
      + intros l [[-> ->]|[Hne Hk1]]%Hl; [done|]. intros Hw. destruct (C l Hk1 Hw). split; [|done]. set_solver.
    - intros k Hkn. destruct (decide (k = i)) as [->|Hne]; [rewrite lookup_insert_eq; eauto|]. rewrite lookup_insert_ne by done. apply (iv_known _ I). set_solver.
    - intros k H. apply (iv_timer _ I) in H. lia.
    - apply NoDup_app. split; [apply I|]. split; [set_solver|]. apply NoDup_singleton.
    - apply I.
    - intros k x Hx. unfold keys in Hx. destruct (bool_decide_reflect (key = ""%string)) as [E|E]; [|apply lookup_insert_Some in Hx as [[<- <-]|[Hne Hx]]].
      + destruct (iv_byKey _ I _ _ Hx) as (l & Hx1 & El & Hn). exists l. rewrite lookup_insert_ne; [done|]. intros <-. congruence.
      + exists j. now rewrite lookup_insert_eq.
      + destruct (iv_byKey _ I _ _ Hx) as (l & Hx1 & El & Hn). exists l. rewrite lookup_insert_ne; [done|]. intros <-. congruence.
    - lia.
    - intros n Hn H. destruct (iv_leased _ I n Hn H) as (k & l & Hk1 & Hb1). exists k, l. rewrite lookup_insert_ne; [done|]. intros <-. congruence.
    - assert (Hz : forall n, 0 <= n -> Z.testbit (own j) n = false) by (intros n Hn; now rewrite Z.testbit_0_l).
      intros a b x y Hab [[-> ->]|[Ha Ha1]]%Hl [[-> ->]|[Hb0 Hb1]]%Hl; try done; [| |eapply (iv_apart _ I a b); eauto]; intros n Hn H1 H2; rewrite Hz in * by done; discriminate. }
Qed.

(** ** Admission

    From here on the factory makes a worker for every request that the scheduler
    knows, as that of the store does. *)

Context (new : maintenanceRequest -> serr + W) (new_total : forall rq, kind_ok rq -> exists w, new rq = inr w).
Local Abbreviation factory := (Some new).
Local Abbreviation enqueue := (enqueue factory).

Lemma find_or_create_spec s rq key priority s' r : 0 <= sc_nextJobID s < two64 - 1 -> kind_ok rq -> find_or_create new rq key priority s = (s', r) ->
  exists id, r = inr id /\ ((key <> ""%string /\ sc_byKey s !! key = Some id /\ s' = s) \/
    ((key <> ""%string -> sc_byKey s !! key = None) /\ id = sc_nextJobID s + 1 /\ exists w, new rq = inr w /\ created s s' rq key priority w)).
Proof using new_total.
  intros Hb Hk. unfold find_or_create. assert (Eid : add64 (sc_nextJobID s) 1 = sc_nextJobID s + 1) by (unfold add64; apply Z.mod_small; lia). rewrite Eid.
  destruct (new_total rq Hk) as [w Hw]. rewrite Hw.
  assert (K : forall b, b = bool_decide (key = ""%string) -> created s (queueJob (sc_nextJobID s + 1) (if b then sc_set_jobs (<[sc_nextJobID s + 1:=new_job (sc_nextJobID s + 1) (sc_sequence (next_sequence (sc_set_nextJobID (sc_nextJobID s + 1) s))) rq key priority w]> (sc_jobs s)) (next_sequence (sc_set_nextJobID (sc_nextJobID s + 1) s))
      else sc_set_byKey (<[key:=sc_nextJobID s + 1]> (sc_byKey s)) (sc_set_jobs (<[sc_nextJobID s + 1:=new_job (sc_nextJobID s + 1) (sc_sequence (next_sequence (sc_set_nextJobID (sc_nextJobID s + 1) s))) rq key priority w]> (sc_jobs s)) (next_sequence (sc_set_nextJobID (sc_nextJobID s + 1) s))))) rq key priority w).
  { intros b ->. destruct (bool_decide (key = ""%string)) eqn:E; split; cbn; rewrite ?E; try done; eauto. }
  destruct (bool_decide_reflect (key = ""%string)) as [E|E].
  - intros [= <- <-]. eexists. split; [done|]. right. split; [done|]. split; [done|]. exists w. split; [done|]. exact (K _ eq_refl).
  - destruct (sc_byKey s !! key) as [id|] eqn:Ek; intros [= <- <-]; eexists; (split; [done|]); [left; done|right]. split; [done|]. split; [done|]. exists w. split; [done|]. exact (K _ eq_refl).
Qed.

(** The job that takes a request, in the state in which it is found or made, and what
    becomes of it. *)
Inductive enqueued (rq : maintenanceRequest) (dependent : Z) (running rerun : bool) (j : job) : job -> Prop :=
| enqueued_next : running = true -> rerun = true -> enqueued rq dependent running rerun j (join_next rq dependent j)
| enqueued_running : running = true -> rerun = false -> enqueued rq dependent running rerun j (join_current rq dependent j)
| enqueued_waiting w : running = false -> new (mergeMaintenanceRequest (jb_request j) rq) = inr w ->
    enqueued rq dependent running rerun j (join_current rq dependent (jb_set_worker (Plain w) (jb_set_request (mergeMaintenanceRequest (jb_request j) rq) j))).

Record admitted (s : scheduler) (rq : maintenanceRequest) (dependent : Z) (s' : scheduler) (id : Z) (s0 : scheduler) (j j' : job) : Prop := mkAdmitted {
  ad_policy : exists key priority rerun p, maintenanceRequestPolicy rq = Some (key, priority, rerun, p) /\ jb_key j = key /\
    enqueued rq dependent (is_active s0 id) rerun j j' /\
    ((key <> ""%string /\ sc_byKey s !! key = Some id /\ s0 = s) \/ (id = sc_nextJobID s + 1 /\ (key <> ""%string -> sc_byKey s !! key = None) /\ exists w, new rq = inr w /\ created s s0 rq key priority w));
  ad_inv : sinv s0;
  ad_job : sc_jobs s0 !! id = Some j;
  ad_state : s' = put_job id j' s0 }.

Lemma enqueue_spec s rq dependent s' r : sinv s -> sc_nextJobID s < two64 - 1 -> enqueue rq dependent s = (s', r) ->
  (~ kind_ok rq /\ s' = s /\ r = inl (ELeaf base_ErrInvalidConfig)) \/ (kind_ok rq /\ exists id s0 j j', r = inr id /\ admitted s rq dependent s' id s0 j j').
Proof using new_total.
  intros I Hb H. unfold Scheduler.enqueue in H. pose proof (iv_next _ I) as H0. destruct (maintenanceRequestPolicy rq) as [[[[key priority] rerun] p]|] eqn:Ep.
  2: { left. injection H as <- <-. split; [|done]. rewrite <- policy_kind, Ep. intros [? ?]. discriminate. }
  right. assert (Hk : kind_ok rq) by (apply policy_kind; rewrite Ep; eauto). split; [done|].
  destruct (find_or_create new rq key priority s) as [s0 r0] eqn:Ef. apply find_or_create_spec in Ef as (id & -> & Hid); [|lia|done].
  assert (A : sinv s0 /\ (exists j, sc_jobs s0 !! id = Some j /\ jb_key j = key) /\ (match (if bool_decide (key = ""%string) then None else sc_byKey s !! key) with Some id => is_active s id | None => false end) = is_active s0 id).
  { destruct Hid as [(Hn & Hi & ->)|(Hn & -> & w & Hw & C)].
    - split; [done|]. destruct (iv_byKey _ I _ _ Hi) as (j & Hj & Ek & _). split; [eauto|]. rewrite bool_decide_eq_false_2, Hi by done. done.
    - pose proof (inv_created _ _ _ _ _ _ I Hk Hn C) as I0. split; [done|]. destruct C as [[q Cj] Cp (Ca & _) Cn Ck]. split.
      + eexists. rewrite Cj, lookup_insert_eq. split; [done|]. reflexivity.
      + transitivity false; [destruct (bool_decide_reflect (key = ""%string)) as [E|E]; [done|]; rewrite (Hn E); done|]. symmetry. apply bool_decide_eq_false. rewrite Ca. intros Hi.
        destruct (iv_known _ I (sc_nextJobID s + 1)) as [l Hl]; [auto|]. destruct (iv_job _ I _ _ Hl). lia. }
  destruct A as (I0 & (j & Hj & Ek) & Er). rewrite Er in H.
  assert (F : forall j', s' = put_job id j' s0 -> r = inr id -> enqueued rq dependent (is_active s0 id) rerun j j' -> exists id s0 j j', r = inr id /\ admitted s rq dependent s' id s0 j j').
  { intros j' Es Err He. exists id, s0, j, j'. split; [done|]. split; try done. exists key, priority, rerun, p. split; [done|]. split; [done|]. split; [done|]. destruct Hid as [Hid|(Hn & -> & w & Hw & C)]; [auto|right; eauto]. }
  destruct (is_active s0 id) eqn:Ea; cbn [andb] in H.
  - destruct rerun; injection H as <- <-; (eapply F; [apply upd_put; exact Hj|done|]); [now apply enqueued_next|now apply enqueued_running].
  - rewrite Hj in H. destruct (new_total (mergeMaintenanceRequest (jb_request j) rq)) as [w Hw]; [apply kind_merge, (iv_job _ I0 _ _ Hj)|]. rewrite Hw in H. injection H as <- <-.
    refine (F _ _ eq_refl (enqueued_waiting _ _ _ _ _ w eq_refl Hw)). rewrite (upd_put s0 id _ j Hj). erewrite upd_put by (cbn; apply lookup_insert_eq). unfold put_job. cbn. now rewrite insert_insert_eq.
Qed.

Lemma join_keeps rq dependent (j : job) : keeps (join_next rq dependent) j /\ keeps (join_current rq dependent) j.
Proof. unfold keeps, join_next, join_current. destruct (dependent =? 0); done. Qed.

Lemma inv_admitted s rq dependent s' id s0 j j' : admitted s rq dependent s' id s0 j j' -> sinv s'.
Proof.
  intros [(key & priority & rerun & p & _ & _ & He & _) I Hj ->]. apply (inv_put _ _ j); [done|done| |].
  - destruct He; [apply join_keeps..|]. destruct (join_keeps rq dependent (jb_set_worker (Plain w) (jb_set_request (mergeMaintenanceRequest (jb_request j) rq) j))) as [_ (A & B & C & D & E)].
    split; [done|]. split; [done|]. split; [done|]. split; [done|]. intros Hk. apply E. now apply kind_merge.
  - intros Ha. unfold is_active in He. rewrite bool_decide_eq_true_2 in He by done. destruct He; [unfold join_next|unfold join_current|discriminate]; destruct (dependent =? 0); done.
Qed.

Lemma inv_enqueue s rq dependent : sinv s -> sc_nextJobID s < two64 - 1 -> sinv (enqueue rq dependent s).1.
Proof using new_total.
  intros I Hb. destruct (enqueue rq dependent s) as [s' r] eqn:E. destruct (enqueue_spec _ _ _ _ _ I Hb E) as [(_ & -> & _)|(_ & id & s0 & j & j' & _ & A)]; [done|]. exact (inv_admitted _ _ _ _ _ _ _ _ A).
Qed.

Local Abbreviation on_finished := (on_finished factory).
Local Abbreviation on_preempted := (on_preempted factory).
Local Abbreviation on_dependency := (on_dependency factory).

Lemma inv_finished s i j c order : sinv s -> in_hand s i j -> sinv (on_finished i c order s).
Proof using new_total.
  intros I H. unfold Scheduler.on_finished. destruct (complete_spec s i j c order I H) as (I1 & H1 & _). set (s1 := complete i c order s) in *. pose proof (ih_job _ _ _ H1) as Hj. rewrite Hj.
  pose proof (jo_kind _ _ _ (iv_job _ I1 _ _ Hj)) as Hk.
  destruct (jb_runAgain j && negb (sc_closing s1)); [|apply inv_remove; [done|apply H1..]].
  destruct (new_total (mergeMaintenanceRequest (jb_request j) (jb_nextRequest j))) as [w Hw]; [now apply kind_merge|]. unfold make_worker. rewrite Hw.
  assert (I2 : sinv (upd_job i take_next s1)).
  { apply inv_upd; [done|]. intros l Hl. assert (l = j) by congruence. subst l. split; [|done]. split; [done|]. split; [done|]. split; [done|]. split; [done|]. intros _. now apply kind_merge. }
  eapply requeue_spec; [|apply in_hand_upd; [apply in_hand_upd; [exact H1|done]|done]]. apply inv_upd; [done|]. intros l Hl. split; [done|]. intros Ha. destruct H1 as [_ [_ Na _] _]. done.
Qed.

Lemma inv_preempted s i j order : sinv s -> in_hand s i j -> sinv (on_preempted i order s).
Proof using new_total.
  intros I H. unfold Scheduler.on_preempted. pose proof (in_hand_upd s i j (jb_set_preempted false) H eq_refl) as H1. pose proof (ih_job _ _ _ H1) as Hj. rewrite Hj.
  assert (I1 : sinv (upd_job i (jb_set_preempted false) s)) by now apply inv_upd.
  destruct (new_total (jb_request (jb_set_preempted false j))) as [w Hw]; [apply (iv_job _ I1 _ _ Hj)|]. unfold make_worker. rewrite Hw.
  eapply requeue_spec; [|apply in_hand_upd; [exact H1|done]]. apply inv_upd; [done|]. intros l Hl. split; [done|]. intros Ha. destruct H1 as [_ [_ Na _] _]. done.
Qed.

Lemma inv_next_phase s i j t : sinv s -> in_hand s i j -> sinv (on_next_phase i t s).
Proof.
  intros I H. unfold on_next_phase. set (s1 := upd_job i (jb_set_phase (tr_next t)) s). pose proof (in_hand_upd s i j (jb_set_phase (tr_next t)) H eq_refl) as H1. fold s1 in H1.
  assert (I1 : sinv s1). { apply inv_upd; [done|]. intros l Hl. split; [done|]. intros Ha. destruct H as [_ [_ Na _] _]. done. }
  destruct (0 <? tr_retryAfter t); [|now apply (requeue_spec _ _ _ I1 H1)].
  destruct (in_hand_upd (next_sequence s1) i (jb_set_phase (tr_next t) j) (jb_set_sequence (sc_sequence (next_sequence s1)))) as [K1 K2 K3]; [now destruct H1 as [? [] ?]|done|].
  eapply inv_timer_set; [now apply inv_stamp|exact K2|exact K1|exact K3].
Qed.

Lemma inv_dependency s i j next d order : sinv s -> in_hand s i j -> sc_nextJobID s < two64 - 1 -> kind_ok d -> sinv (on_dependency i next d order s).
Proof using new_total.
  intros I H Hb Hd. unfold Scheduler.on_dependency. set (s1 := upd_job i _ s). assert (I1 : sinv s1) by (apply inv_set_waiting; [done|apply H|done]).
  destruct (Scheduler.enqueue (Some new) d i s1) as [s2 r] eqn:E. destruct (enqueue_spec s1 d i s2 r I1 Hb E) as [(Hn & _)|(_ & id & s0 & l & l' & -> & A)]; [done|]. exact (inv_admitted _ _ _ _ _ _ _ _ A).
Qed.

Local Abbreviation on_done := (on_done Resources factory).

Lemma inv_done s i w t order : sinv s -> sc_nextJobID s < two64 - 1 -> sinv (on_done i w t order s).
Proof using new_total.
  intros I Hb. unfold Scheduler.on_done. destruct (sc_jobs s !! i) as [j|] eqn:Hj; [|done]. unfold is_active. destruct (bool_decide_reflect (i ∈ sc_active s)) as [Ha|]; [|done].
  fold (checked t (Z.lor (jb_held j) (jb_running j))). destruct (checked_ok t (Z.lor (jb_held j) (jb_running j))) as (Hc & Hd & _). set (t' := checked _ _) in *.
  assert (I1 : sinv (phase_ended i w (tr_retain t') j s)) by now apply inv_phase_ended.
  destruct (phase_ended_hand s i w (tr_retain t') j I Hj Ha) as [j1 H1].
  apply inv_dispatch. destruct (_ && _ && _); [exact (inv_preempted _ _ _ _ I1 H1)|]. destruct (tr_err t') eqn:Ee; [exact (inv_finished _ _ _ _ _ I1 H1)|]. destruct (tr_done t') eqn:Et; [exact (inv_finished _ _ _ _ _ I1 H1)|].
  destruct (tr_dependency t') as [d|] eqn:Edep; [|exact (inv_next_phase _ _ _ _ I1 H1)]. eapply inv_dependency; eauto.
Qed.

Lemma inv_submit s rq c s' r : sinv s -> sc_nextJobID s < two64 - 1 -> on_submit Resources factory rq c s = (s', r) -> sinv s'.
Proof using new_total.
  intros I Hb. unfold on_submit. destruct (sc_closing s); [now intros [= <- <-]|]. pose proof (inv_enqueue s rq 0 I Hb) as I1. destruct (Scheduler.enqueue (Some new) rq 0 s) as [s1 [e|id]]; intros [= <- <-]; cbn in I1.
  - now apply inv_dispatch.
  - apply inv_dispatch, inv_preempt. destruct c; [now apply inv_register|done].
Qed.

End Invariant.
