(* ===== verification/SchedulerWaiters.v ===== *)
(** * The scheduler: waiters

    A caller of [Submit] waits on a channel with room for one result.  Whatever the
    workers do, the actor sends at most one result on it and loses no waiter. *)
From stdpp Require Import strings.
From S2P Require Import Prelude Addr Catalog Compaction GcCandidate Scheduler SchedulerSpec.

(** ** Ids of waiters *)

Lemma waiter_id_sum i n : 0 <= i < 4294967296 -> 0 <= n < 4294967296 -> waiter_id i n = i * 4294967296 + n.
Proof.
  intros Hi Hn. unfold waiter_id, low32. change 4294967295 with (Z.ones 32). rewrite Z.land_ones, Z.shiftl_mul_pow2 by lia. change (2 ^ 32) with 4294967296.
  rewrite (Z.mod_small (i * _)), (Z.mod_small n) by lia. rewrite <- Z.lxor_lor; [symmetry; apply Z.add_nocarry_lxor|]; apply Z.bits_inj'; intros k Hk; rewrite Z.land_spec, Z.testbit_0_l;
    (destruct (Z.testbit n k) eqn:E; [|apply andb_false_r]); rewrite andb_true_r; change 4294967296 with (2 ^ 32); (destruct (Z.ltb_spec k 32) as [Hl|Hl]; [now apply Z.mul_pow2_bits_low|]);
    (exfalso; rewrite (Z.bits_above_log2 n k) in E; [discriminate|lia|]; destruct (Z.eq_dec n 0) as [->|Hz]; [cbn; lia|]; apply Z.lt_le_trans with 32; [|lia]; apply Z.log2_lt_pow2; lia).
Qed.

Lemma waiter_id_parts i n : 0 <= i < 4294967296 -> 0 <= n < 4294967296 -> Z.shiftr (waiter_id i n) 32 = i /\ low32 (waiter_id i n) = n.
Proof.
  intros Hi Hn. rewrite waiter_id_sum by done. unfold low32. change 4294967295 with (Z.ones 32). rewrite Z.land_ones, Z.shiftr_div_pow2 by lia. change (2 ^ 32) with 4294967296.
  split; [rewrite Z.div_add_l by lia; rewrite Z.div_small; lia|]. rewrite Z.add_comm, Z.mod_add by lia. now apply Z.mod_small.
Qed.


Section Waiters.
Context {W : Type} (Resources : W -> Z -> Z) (new : maintenanceRequest -> serr + W) (new_total : forall rq, kind_ok rq -> exists w, new rq = inr w).
Local Abbreviation factory := (Some new).
Local Abbreviation scheduler := (@scheduler W).
Local Abbreviation job := (@maintenanceJob W).
Local Abbreviation sinv := (sinv Resources).

(** ** Changes that no waiter notices *)

Definition wsame (l l' : job) : Prop := jb_waiters l' = jb_waiters l /\ jb_nextWaiters l' = jb_nextWaiters l /\ (jb_nextWaiters l <> ∅ -> jb_runAgain l = true -> jb_runAgain l' = true).
Definition lonely (l : job) : Prop := jb_waiters l = ∅ /\ jb_nextWaiters l = ∅.

Record quiet (s s' : scheduler) : Prop := mkQuiet {
  qt_sent : sc_sent s' = sc_sent s;
  qt_wid : sc_nextWaiterID s' = sc_nextWaiterID s;
  qt_next : sc_nextJobID s <= sc_nextJobID s';
  qt_closing : sc_closing s' = sc_closing s;
  qt_jobs : forall k, match sc_jobs s !! k, sc_jobs s' !! k with
    | Some l, Some l' => wsame l l'
    | Some l, None | None, Some l => lonely l
    | None, None => True
    end }.

Lemma wsame_refl l : wsame l l.
Proof. done. Qed.

Lemma unnoticed_trans s1 s2 s3 : quiet s1 s2 -> quiet s2 s3 -> quiet s1 s3.
Proof.
  intros [A1 B1 C1 D1 E1] [A2 B2 C2 D2 E2]. split; [congruence|congruence|lia|congruence|]. intros k. specialize (E1 k). specialize (E2 k).
  destruct (sc_jobs s1 !! k), (sc_jobs s2 !! k), (sc_jobs s3 !! k); unfold wsame, lonely in *; intuition congruence.
Qed.

Lemma quiet_jobs (s s' : scheduler) : sc_sent s' = sc_sent s -> sc_nextWaiterID s' = sc_nextWaiterID s -> sc_nextJobID s' = sc_nextJobID s -> sc_closing s' = sc_closing s -> sc_jobs s' = sc_jobs s -> quiet s s'.
Proof. intros A B C D E. split; try done; [lia|]. intros k. rewrite E. destruct (sc_jobs s !! k); done. Qed.

Lemma unnoticed_refl s : quiet s s.
Proof. now apply quiet_jobs. Qed.

Lemma quiet_alter (s s' : scheduler) i (f : job -> job) : sc_sent s' = sc_sent s -> sc_nextWaiterID s' = sc_nextWaiterID s -> sc_nextJobID s' = sc_nextJobID s -> sc_closing s' = sc_closing s ->
  sc_jobs s' = alter f i (sc_jobs s) -> (forall j, wsame j (f j)) -> quiet s s'.
Proof.
  intros A B C D E H. split; try done; [lia|]. intros k. rewrite E. destruct (decide (i = k)) as [<-|Hne]; [rewrite lookup_alter_eq|rewrite lookup_alter_ne by done]; destruct (sc_jobs s !! _); cbn; auto; done.
Qed.

Lemma quiet_put s i j j' : sc_jobs s !! i = Some j -> wsame j j' -> quiet s (put_job i j' s).
Proof.
  intros Hj Hw. split; cbn; try done. intros k. destruct (decide (k = i)) as [->|Hne]; [rewrite lookup_insert_eq, Hj; done|]. rewrite lookup_insert_ne by done. destruct (sc_jobs s !! k); done.
Qed.

Lemma quiet_upd s i (f : job -> job) : (forall j, wsame j (f j)) -> quiet s (upd_job i f s).
Proof. intros H. now apply (quiet_alter _ _ i f). Qed.

Lemma quiet_stamp (s : scheduler) i : quiet s (stamp i s).
Proof. now apply (quiet_alter _ _ i (jb_set_sequence (add64 (sc_sequence s) 1))). Qed.

Lemma quiet_requeue (s : scheduler) i : quiet s (queueJob i (stamp i s)).
Proof. now apply (quiet_alter _ _ i (jb_set_sequence (add64 (sc_sequence s) 1))). Qed.

Lemma requeue_lookup (s : scheduler) i j : sc_jobs s !! i = Some j -> sc_jobs (queueJob i (stamp i s)) !! i = Some (jb_set_sequence (add64 (sc_sequence s) 1) j).
Proof. intros H. cbn. now rewrite lookup_alter_eq, H. Qed.

Lemma quiet_next_phase (s : scheduler) i t : quiet s (on_next_phase i t s).
Proof.
  unfold on_next_phase. assert (Q : quiet s (stamp i (upd_job i (jb_set_phase (tr_next t)) s))) by (apply (unnoticed_trans _ (upd_job i (jb_set_phase (tr_next t)) s)); [now apply quiet_upd|apply quiet_stamp]).
  destruct (0 <? tr_retryAfter t); (eapply unnoticed_trans; [exact Q|now apply quiet_jobs]).
Qed.

Lemma quiet_start s i : quiet s (start_job Resources i s).
Proof.
  destruct (sc_jobs s !! i) as [j|] eqn:Hj; [|unfold start_job; rewrite Hj; apply unnoticed_refl]. rewrite (start_job_at _ s i j Hj). now apply (quiet_alter _ _ i (granted (sc_closing s) (job_need Resources j))).
Qed.

Lemma quiet_dispatch s : quiet s (dispatch Resources s).
Proof. apply (dispatch_keeps Resources (quiet s)); [|apply unnoticed_refl]. intros s0 i Hq _ _. eapply unnoticed_trans; [exact Hq|apply quiet_start]. Qed.

Lemma quiet_phase_ended s i w retain (j : job) : quiet s (phase_ended i w retain j s).
Proof. now apply (quiet_alter _ _ i (fun j => jb_set_held retain (jb_set_running 0 (jb_set_cancel None (jb_set_worker w j))))). Qed.

Lemma quiet_preempt s i : quiet s (preempt_running Resources i s).
Proof.
  unfold preempt_running. destruct (sc_jobs s !! i) as [j|]; [|apply unnoticed_refl]. split; cbn; try done. intros k. rewrite map_lookup_imap. destruct (sc_jobs s !! k) as [l|]; cbn; [|done].
  destruct (is_active s k && preempts Resources j l); done.
Qed.

Lemma enqueued_wsame rq d running rerun j j' : enqueued new rq d running rerun j j' -> wsame j j' /\ (running = true -> rerun = true -> jb_runAgain j' = true).
Proof. unfold wsame. intros [E1 E2|E1 E2|w E1 E2]; unfold join_next, join_current; destruct (d =? 0); cbn; subst; intuition congruence. Qed.

Lemma quiet_created s s' rq key priority w : sinv s -> created s s' rq key priority w -> quiet s s'.
Proof.
  intros I [[q Cj] Cp (Ca & Ct & Cl & Cc & Cs & Cw) Cn Ck]. split; try done; [lia|]. intros k. rewrite Cj. destruct (decide (k = sc_nextJobID s + 1)) as [->|Hne].
  - rewrite lookup_insert_eq. destruct (sc_jobs s !! (sc_nextJobID s + 1)) as [l|] eqn:E; [|done]. destruct (iv_job _ _ I _ _ E). lia.
  - rewrite lookup_insert_ne by done. destruct (sc_jobs s !! k); done.
Qed.

Lemma quiet_admitted s rq d s' id s0 j j' : sinv s -> admitted Resources new s rq d s' id s0 j j' -> quiet s s'.
Proof.
  intros I [(key & priority & rerun & p & Ep & Ek & He & Hor) I0 Hj ->]. eapply unnoticed_trans; [|apply (quiet_put _ _ j); [done|apply (enqueued_wsame _ _ _ _ _ _ He)]].
  destruct Hor as [(_ & _ & ->)|(_ & _ & w & _ & C)]; [apply unnoticed_refl|eapply quiet_created; eauto].
Qed.

Lemma quiet_enqueue s rq d : sinv s -> sc_nextJobID s < two64 - 1 -> quiet s (enqueue factory rq d s).1.
Proof.
  intros I Hb. destruct (enqueue factory rq d s) as [s' r] eqn:E. destruct (enqueue_spec Resources new new_total _ _ _ _ _ I Hb E) as [(_ & -> & _)|(_ & id & s0 & j & j' & _ & A)]; [apply unnoticed_refl|].
  exact (quiet_admitted _ _ _ _ _ _ _ _ I A).
Qed.

Lemma quiet_resumes c s s' : resumes c s s' -> quiet s s'.
Proof.
  intros [(Ea & Et & El & Ec & Es & En & Ew & Ek) J P Q]. split; try done; [lia|]. intros k. specialize (J k). destruct (sc_jobs s !! k) as [l|], (sc_jobs s' !! k) as [l'|]; try done.
  destruct J as [->|(_ & _ & _ & q & r & w & -> & _)]; done.
Qed.

Lemma quiet_remove s i : (forall j, sc_jobs s !! i = Some j -> lonely j) -> quiet s (removeJob i s).
Proof.
  intros H. unfold removeJob. destruct (sc_jobs s !! i) as [j|] eqn:Hj; [|apply unnoticed_refl]. set (s1 := sc_set_jobs _ _).
  assert (Q : quiet s s1). { split; cbn; try done. intros k. destruct (decide (k = i)) as [->|Hne]; [rewrite lookup_delete_eq, Hj; auto|]. rewrite lookup_delete_ne by done. destruct (sc_jobs s !! k); done. }
  destruct (_ && _); [|done]. eapply unnoticed_trans; [exact Q|]. now apply quiet_jobs.
Qed.

(** ** The account of the waiters *)

(** A waiter that a job keeps, for this run or the next. *)
Definition keeps_waiter (j : job) (n : Z) (w : maintenanceWaiter) : Prop := jb_waiters j !! n = Some w \/ jb_nextWaiters j !! n = Some w.

Record winv (issued : gmap Z Z) (gone : gset Z) (s : scheduler) : Prop := mkWinv {
  wv_in : forall i j n w, sc_jobs s !! i = Some j -> keeps_waiter j n w ->
    1 <= n <= sc_nextWaiterID s /\ wt_id w = waiter_id i n /\ issued !! wt_chan w = Some (wt_id w) /\ wt_chan w ∉ (sc_sent s).*1;
  wv_two : forall i j n, sc_jobs s !! i = Some j -> jb_waiters j !! n = None \/ jb_nextWaiters j !! n = None;
  wv_ids : forall c wid, issued !! c = Some wid -> exists i n, wid = waiter_id i n /\ 1 <= i <= sc_nextJobID s /\ 1 <= n <= sc_nextWaiterID s;
  wv_inj : forall c d wid wid', issued !! c = Some wid -> issued !! d = Some wid' -> low32 wid = low32 wid' -> c = d;
  wv_acct : forall c wid, issued !! c = Some wid -> c ∈ (sc_sent s).*1 \/ c ∈ gone \/ exists j, sc_jobs s !! Z.shiftr wid 32 = Some j /\ keeps_waiter j (low32 wid) (mkWaiter wid c);
  wv_sent : NoDup (sc_sent s).*1;
  wv_known : forall c, c ∈ (sc_sent s).*1 -> is_Some (issued !! c);
  wv_next : forall i j, sc_jobs s !! i = Some j -> jb_nextWaiters j <> ∅ -> jb_runAgain j = true;
  wv_closed : forall i j, sc_jobs s !! i = Some j -> sc_closing s = true -> lonely j;
  wv_count : 0 <= sc_nextWaiterID s }.

(** The counters are below 2^32 - 1. *)
Definition small (s : scheduler) : Prop := sc_nextJobID s < 4294967295 /\ sc_nextWaiterID s < 4294967295.

Lemma lonely_none j n w : lonely j -> ~ keeps_waiter j n w.
Proof. intros [A B] [H|H]; rewrite ?A, ?B in H; rewrite lookup_empty in H; discriminate. Qed.

Lemma winv_quiet issued gone s s' : winv issued gone s -> quiet s s' -> winv issued gone s'.
Proof.
  intros [A1 A2 A3 A4 A5 A6 A7 A8 A9 A10] [Q1 Q2 Q3 Q4 Q5].
  assert (B : forall k l', sc_jobs s' !! k = Some l' -> lonely l' \/ exists l, sc_jobs s !! k = Some l /\ wsame l l').
  { intros k l' Hl. specialize (Q5 k). rewrite Hl in Q5. destruct (sc_jobs s !! k) as [l|]; eauto. }
  split; rewrite ?Q1, ?Q2, ?Q4; try done.
  - intros i l' n w Hl Hk. destruct (B i l' Hl) as [L|(l & Hl0 & S1 & S2 & _)]; [exfalso; eapply lonely_none; eauto|]. apply (A1 i l n w Hl0). unfold keeps_waiter. now rewrite <- S1, <- S2.
  - intros i l' n Hl. destruct (B i l' Hl) as [[-> ->]|(l & Hl0 & -> & -> & _)]; [rewrite lookup_empty; auto|eauto].
  - intros c wid H. destruct (A3 c wid H) as (i & n & E & Hi & Hn). exists i, n. split; [done|]. split; [lia|done].
  - intros c wid H. destruct (A5 c wid H) as [H1|[H1|(l & Hl & Hk)]]; auto. right. right. specialize (Q5 (Z.shiftr wid 32)). rewrite Hl in Q5. destruct (sc_jobs s' !! Z.shiftr wid 32) as [l'|]; [|exfalso; eapply lonely_none; eauto].
    exists l'. split; [done|]. destruct Q5 as (S1 & S2 & _). unfold keeps_waiter. now rewrite S1, S2.
  - intros i l' Hl Hn. destruct (B i l' Hl) as [[_ E]|(l & Hl0 & S1 & S2 & S3)]; [done|]. rewrite S2 in Hn. auto. apply S3; eauto.
  - intros i l' Hl Hc. destruct (B i l' Hl) as [L|(l & Hl0 & S1 & S2 & S3)]; [done|]. destruct (A9 i l Hl0 Hc) as [E1 E2]. split; congruence.
Qed.

(** The ids are known to be in range. *)
Lemma winv_parts issued gone s c wid : winv issued gone s -> small s -> issued !! c = Some wid ->
  1 <= Z.shiftr wid 32 <= sc_nextJobID s /\ 1 <= low32 wid <= sc_nextWaiterID s /\ wid = waiter_id (Z.shiftr wid 32) (low32 wid).
Proof. intros V [Hs1 Hs2] H. destruct (wv_ids _ _ _ V c wid H) as (i & n & -> & Hi & Hn). destruct (waiter_id_parts i n) as [-> ->]; [lia|lia|]. auto. Qed.

(** ** Accepting a waiter *)

Lemma winv_register issued gone s i c j : sinv s -> winv issued gone s -> small s -> sc_closing s = false -> sc_jobs s !! i = Some j -> issued !! c = None ->
  winv (<[c := waiter_id i (sc_nextWaiterID (register_waiter i c s))]> issued) gone (register_waiter i c s).
Proof.
  intros I V [Hs1 Hs2] Ho Hj Hc. destruct V as [A1 A2 A3 A4 A5 A6 A7 A8 A9 A10] eqn:EV. pose proof (iv_job _ _ I _ _ Hj) as J. pose proof (jo_id _ _ _ _ J) as Hi.
  unfold register_waiter. assert (En : add64 (sc_nextWaiterID s) 1 = sc_nextWaiterID s + 1) by (unfold add64; apply Z.mod_small; lia). rewrite En. set (n := sc_nextWaiterID s + 1) in *.
  assert (El : low32 n = n) by (unfold low32; change 4294967295 with (Z.ones 32); rewrite Z.land_ones by lia; apply Z.mod_small; lia).
  destruct (waiter_id_parts i n) as [P1 P2]; [lia|lia|].
  set (w := mkWaiter (waiter_id i n) c). set (j' := add_waiter (is_active s i) n w j).
  assert (Ej : sc_jobs (upd_job i (add_waiter (is_active s i) n w) (sc_set_nextWaiterID n s)) = <[i := j']> (sc_jobs s)) by exact (upd_job_at (sc_set_nextWaiterID n s) i _ j Hj).
  assert (Hfresh : forall k, k ∈ (sc_sent s).*1 -> k <> c) by (intros k Hk ->; destruct (A7 c Hk); congruence).
  assert (Hold : forall m x, keeps_waiter j m x -> m <> n) by (intros m x Hm; destruct (A1 i j m x Hj Hm) as [Hr _]; lia).
  assert (Kj : forall m x, keeps_waiter j' m x <-> (m = n /\ x = w) \/ keeps_waiter j m x).
  { intros m x. unfold keeps_waiter, j', add_waiter. rewrite El. destruct (decide (m = n)) as [->|Hne].
    - assert (H0 : jb_waiters j !! n = None /\ jb_nextWaiters j !! n = None).
      { split; [destruct (jb_waiters j !! n) as [y|] eqn:E|destruct (jb_nextWaiters j !! n) as [y|] eqn:E]; try done; exfalso; apply (Hold n y); unfold keeps_waiter; auto. }
      destruct H0 as [H1 H2]. destruct (_ && _); cbn; rewrite ?lookup_insert_eq, ?H1, ?H2; intuition congruence.
    - destruct (_ && _); cbn; rewrite ?lookup_insert_ne by done; intuition congruence. }
  split; rewrite ?Ej; cbn [upd_job sc_set_jobs sc_set_nextWaiterID sc_nextWaiterID sc_sent sc_nextJobID sc_closing]; try done; try lia.
  - intros k l m x [[<- <-]|[Hne Hl]]%lookup_insert_Some Hk.
    + apply Kj in Hk as [[-> ->]|Hk]; [rewrite lookup_insert_eq; cbn; split; [lia|]; split; [done|]; split; [done|]; intros Hx; now apply Hfresh in Hx|].
      destruct (A1 _ _ _ _ Hj Hk) as (X1 & X2 & X3 & X4). rewrite lookup_insert_ne by (intros E; rewrite E in Hc; congruence). split; [lia|done].
    + destruct (A1 _ _ _ _ Hl Hk) as (X1 & X2 & X3 & X4). rewrite lookup_insert_ne by (intros E; rewrite E in Hc; congruence). split; [lia|done].
  - intros k l m [[<- <-]|[Hne Hl]]%lookup_insert_Some; [|eauto]. unfold j', add_waiter. rewrite El. destruct (decide (m = n)) as [->|Hm].
    + destruct (_ && _); cbn; [left|right]; [destruct (jb_waiters j !! n) as [y|] eqn:E|destruct (jb_nextWaiters j !! n) as [y|] eqn:E]; try done; exfalso; apply (Hold n y); unfold keeps_waiter; auto.
    + destruct (_ && _); cbn; rewrite lookup_insert_ne by done; eauto.
  - intros d wid [[<- <-]|[Hne Hd]]%lookup_insert_Some; [exists i, n; split; [done|lia]|]. destruct (A3 d wid Hd) as (k & m & E & X & Y). exists k, m. split; [done|lia].
  - intros a b x y [[<- <-]|[Ha Ha1]]%lookup_insert_Some [[<- <-]|[Hb Hb1]]%lookup_insert_Some Hl; try done; [| |eapply A4; eauto]; exfalso.
    + rewrite P2 in Hl. destruct (A3 b y Hb1) as (k & m & -> & X & Y). destruct (waiter_id_parts k m) as [_ E]; [lia|lia|]. lia.
    + rewrite P2 in Hl. destruct (A3 a x Ha1) as (k & m & -> & X & Y). destruct (waiter_id_parts k m) as [_ E]; [lia|lia|]. lia.
  - intros d wid [[<- <-]|[Hne Hd]]%lookup_insert_Some.
    + right. right. exists j'. rewrite P1, P2. rewrite lookup_insert_eq. split; [done|]. apply Kj. auto.
    + destruct (A5 d wid Hd) as [X|[X|(l & Hl & Hk)]]; auto. right. right. destruct (decide (Z.shiftr wid 32 = i)) as [E|E].
      * exists j'. rewrite E, lookup_insert_eq. split; [done|]. apply Kj. right. rewrite E in Hl. congruence.
      * exists l. rewrite lookup_insert_ne by done. done.
  - intros d Hd. rewrite lookup_insert_ne by (intros E; subst; now apply (Hfresh d Hd)). auto.
  - intros k l [[<- <-]|[Hne Hl]]%lookup_insert_Some; [|eauto]. unfold j', add_waiter. destruct (is_active s i); cbn; [destruct (jb_runAgain j) eqn:Er; cbn; [done|]|]; intros X; pose proof (A8 i j Hj X); congruence.
  - intros k l Hl Hcl. congruence.
Qed.

(** ** Sending *)

(** The channel of a kept waiter says which waiter of which job it is. *)
Lemma waiter_chan issued gone s i j n w i' j' n' w' : sinv s -> winv issued gone s -> small s -> sc_jobs s !! i = Some j -> sc_jobs s !! i' = Some j' ->
  keeps_waiter j n w -> keeps_waiter j' n' w' -> wt_chan w = wt_chan w' -> i = i' /\ n = n' /\ w = w'.
Proof.
  intros I V [Hs1 Hs2] Hj Hj' Hk Hk' E. destruct (wv_in _ _ _ V _ _ _ _ Hj Hk) as (X1 & X2 & X3 & _), (wv_in _ _ _ V _ _ _ _ Hj' Hk') as (Y1 & Y2 & Y3 & _).
  pose proof (jo_id _ _ _ _ (iv_job _ _ I _ _ Hj)). pose proof (jo_id _ _ _ _ (iv_job _ _ I _ _ Hj')). assert (Ew : wt_id w = wt_id w') by congruence. rewrite X2, Y2 in Ew.
  destruct (waiter_id_parts i n) as [P1 P2]; [lia|lia|]. destruct (waiter_id_parts i' n') as [P3 P4]; [lia|lia|]. rewrite Ew in P1, P2. split; [congruence|]. split; [congruence|]. destruct w, w'; cbn in *. congruence.
Qed.

Definition chans (m : gmap Z maintenanceWaiter) : list Z := map (fun x => wt_chan x.2) (map_to_list m).

Lemma chans_in m c : c ∈ chans m <-> exists n w, m !! n = Some w /\ wt_chan w = c.
Proof.
  unfold chans. rewrite list_elem_of_fmap. split.
  - intros ([n w] & -> & H%elem_of_map_to_list). eauto.
  - intros (n & w & H & <-). exists (n, w). split; [done|]. now apply elem_of_map_to_list.
Qed.

Lemma chans_nodup issued gone s i j (m : gmap Z maintenanceWaiter) : sinv s -> winv issued gone s -> small s -> sc_jobs s !! i = Some j -> (forall n w, m !! n = Some w -> keeps_waiter j n w) -> NoDup (chans m).
Proof.
  intros I V S Hj Hm. unfold chans. apply NoDup_fmap_2_strong; [|apply NoDup_map_to_list]. intros [n w] [n' w'] H%elem_of_map_to_list H'%elem_of_map_to_list E. cbn in E.
  destruct (waiter_chan _ _ _ _ _ _ _ _ _ _ _ I V S Hj Hj (Hm _ _ H) (Hm _ _ H') E) as (_ & -> & ->). done.
Qed.

(** As [quiet], for all jobs but one. *)
Definition others (s s' : scheduler) (i : Z) : Prop := forall k, k <> i ->
  match sc_jobs s !! k, sc_jobs s' !! k with Some l, Some l' => wsame l l' | Some l, None | None, Some l => lonely l | None, None => True end.

(** The waiters of a job get their result and those of its next run take their place. *)
Lemma winv_answered issued gone s s' i j : sinv s -> winv issued gone s -> small s -> sc_jobs s !! i = Some j -> (sc_sent s').*1 = (sc_sent s).*1 ++ chans (jb_waiters j) -> sc_nextWaiterID s' = sc_nextWaiterID s ->
  sc_nextJobID s <= sc_nextJobID s' -> sc_closing s' = sc_closing s -> others s s' i ->
  match sc_jobs s' !! i with None => jb_nextWaiters j = ∅ | Some j' => jb_waiters j' = jb_nextWaiters j /\ jb_nextWaiters j' = ∅ end -> winv issued gone s'.
Proof.
  intros I V S Hj Es Ew En Ec Qk Hi. pose proof V as [A1 A2 A3 A4 A5 A6 A7 A8 A9 A10].
  assert (Hw : forall n w, jb_waiters j !! n = Some w -> keeps_waiter j n w) by (intros; now left).
  assert (B : forall k l' n w, sc_jobs s' !! k = Some l' -> keeps_waiter l' n w -> exists l, sc_jobs s !! k = Some l /\ keeps_waiter l n w /\ wt_chan w ∉ chans (jb_waiters j)).
  { intros k l' n w Hl Hk. destruct (decide (k = i)) as [->|Hne].
    - rewrite Hl in Hi. destruct Hi as [E1 E2]. exists j. split; [done|]. assert (Hn : jb_nextWaiters j !! n = Some w) by (unfold keeps_waiter in Hk; rewrite E1, E2, lookup_empty in Hk; destruct Hk; congruence).
      assert (Hk0 : keeps_waiter j n w) by now right. split; [done|]. intros (n' & w' & H' & E')%chans_in. destruct (waiter_chan _ _ _ _ _ _ _ _ _ _ _ I V S Hj Hj Hk0 (Hw _ _ H') (eq_sym E')) as (_ & <- & <-).
      destruct (A2 i j n Hj); congruence.
    - specialize (Qk k Hne). rewrite Hl in Qk. destruct (sc_jobs s !! k) as [l|] eqn:Hl0; [|exfalso; eapply lonely_none; eauto]. exists l. split; [done|]. destruct Qk as (S1 & S2 & _).
      assert (Hk0 : keeps_waiter l n w) by (unfold keeps_waiter in *; now rewrite <- S1, <- S2). split; [done|]. intros (n' & w' & H' & E')%chans_in.
      destruct (waiter_chan _ _ _ _ _ _ _ _ _ _ _ I V S Hl0 Hj Hk0 (Hw _ _ H') (eq_sym E')) as (E & _). done. }
  split; rewrite ?Es, ?Ew, ?Ec; try done.
  - intros k l' n w Hl Hk. destruct (B k l' n w Hl Hk) as (l & Hl0 & Hk0 & Hc). destruct (A1 _ _ _ _ Hl0 Hk0) as (X1 & X2 & X3 & X4). split; [done|]. split; [done|]. split; [done|]. rewrite not_elem_of_app. auto.
  - intros k l' n Hl. destruct (decide (k = i)) as [->|Hne]; [rewrite Hl in Hi; destruct Hi as [_ ->]; rewrite lookup_empty; auto|]. specialize (Qk k Hne). rewrite Hl in Qk.
    destruct (sc_jobs s !! k) as [l|] eqn:Hl0; [destruct Qk as (-> & -> & _); eauto|destruct Qk as [-> ->]; rewrite lookup_empty; auto].
  - intros d wid H. destruct (A3 d wid H) as (k & n & E & X & Y). exists k, n. split; [done|]. split; [lia|done].
  - intros d wid H. destruct (A5 d wid H) as [X|[X|(l & Hl & Hk)]]; [left; apply elem_of_app; auto|auto|]. destruct (decide (Z.shiftr wid 32 = i)) as [E|E].
    + rewrite E in Hl. assert (l = j) by congruence. subst l. destruct Hk as [Hk|Hk]; [left; apply elem_of_app; right; apply chans_in; eexists _, _; eauto|]. right. right. rewrite E.
      destruct (sc_jobs s' !! i) as [j'|]; [|rewrite Hi, lookup_empty in Hk; discriminate]. exists j'. split; [done|]. left. now rewrite (proj1 Hi).
    + right. right. specialize (Qk _ E). rewrite Hl in Qk. destruct (sc_jobs s' !! Z.shiftr wid 32) as [l'|]; [|exfalso; eapply lonely_none; eauto]. exists l'. split; [done|]. destruct Qk as (S1 & S2 & _). unfold keeps_waiter. now rewrite S1, S2.
  - apply NoDup_app. split; [done|]. split; [|eapply chans_nodup; eauto]. intros d Hd (n & w & H & <-)%chans_in. destruct (A1 _ _ _ _ Hj (Hw _ _ H)) as (_ & _ & _ & N). done.
  - intros d [Hd|(n & w & H & <-)%chans_in]%elem_of_app; [auto|]. destruct (A1 _ _ _ _ Hj (Hw _ _ H)) as (_ & _ & X & _). eauto.
  - intros k l' Hl Hn. destruct (decide (k = i)) as [->|Hne]; [rewrite Hl in Hi; destruct Hi; done|]. specialize (Qk k Hne). rewrite Hl in Qk. destruct (sc_jobs s !! k) as [l|] eqn:Hl0; [|destruct Qk; done].
    destruct Qk as (S1 & S2 & S3). rewrite S2 in Hn. apply S3; [done|]. eauto.
  - intros k l' Hl Hc. destruct (decide (k = i)) as [->|Hne]; [rewrite Hl in Hi; destruct Hi as [E1 E2]; split; [rewrite E1; now apply (A9 i j)|done]|]. specialize (Qk k Hne). rewrite Hl in Qk.
    destruct (sc_jobs s !! k) as [l|] eqn:Hl0; [|done]. destruct Qk as (S1 & S2 & S3). destruct (A9 k l Hl0 Hc) as [E1 E2]. split; congruence.
Qed.

Lemma others_same (s s' s2 : scheduler) i : others s s' i -> (forall k, k <> i -> sc_jobs s2 !! k = sc_jobs s' !! k) -> others s s2 i.
Proof. intros H E k Hk. rewrite E by done. now apply H. Qed.

Lemma winv_finished issued gone s i j c order : sinv s -> winv issued gone s -> small s -> in_hand s i j -> winv issued gone (on_finished factory i c order s).
Proof.
  intros I V S H. unfold on_finished. destruct (complete_spec Resources s i j c order I H) as (I1 & H1 & R & _). set (s1 := complete i c order s) in *. pose proof (ih_job _ _ _ H1) as Hj. rewrite Hj.
  assert (Q : others s s1 i) by (intros k _; exact (qt_jobs _ _ (quiet_resumes _ _ _ R) k)).
  destruct (rs_same _ _ _ R) as (_ & _ & _ & Ec & Es & En & Ew & _). cbn in Ec, Es, En, Ew.
  assert (Es1 : (sc_sent s1).*1 = (sc_sent s).*1 ++ chans (jb_waiters j)) by (rewrite Es, fmap_app; f_equal; unfold chans; rewrite <- list_fmap_compose; reflexivity).
  destruct (jb_runAgain j && negb (sc_closing s1)) eqn:Er.
  - destruct (new_total (mergeMaintenanceRequest (jb_request j) (jb_nextRequest j))) as [w Hw]; [apply kind_merge, (iv_job _ _ I1 _ _ Hj)|]. unfold make_worker. rewrite Hw.
    set (s2 := upd_job i take_next s1). set (s3 := upd_job i _ s2). set (s4 := queueJob i (stamp i s3)).
    assert (J2 : sc_jobs s2 !! i = Some (take_next j)) by (unfold s2; rewrite (upd_put _ _ _ _ Hj); apply lookup_insert_eq).
    assert (J3 : sc_jobs s3 !! i = Some (restart_job w (jb_set_runAgain false (take_next j)))) by (unfold s3; rewrite (upd_put _ _ _ _ J2); apply lookup_insert_eq).
    apply (winv_answered issued gone s s4 i j I V S (ih_job _ _ _ H)); try done; [cbn; lia| |].
    + apply (others_same s s1); [done|]. intros k Hk. cbn. now rewrite !lookup_alter_ne by congruence.
    + unfold s4. erewrite requeue_lookup by exact J3. done.
  - assert (El : jb_nextWaiters j = ∅).
    { destruct (decide (jb_nextWaiters j = ∅)) as [|Hn]; [done|]. pose proof (wv_next _ _ _ V i j (ih_job _ _ _ H) Hn) as Hr. rewrite Hr in Er. cbn in Er. apply negb_false_iff in Er. rewrite Ec in Er. now apply (wv_closed _ _ _ V i j (ih_job _ _ _ H)). }
    assert (Er1 : sc_jobs (removeJob i s1) = delete i (sc_jobs s1) /\ sc_sent (removeJob i s1) = sc_sent s1 /\ sc_nextWaiterID (removeJob i s1) = sc_nextWaiterID s1 /\ sc_nextJobID (removeJob i s1) = sc_nextJobID s1 /\ sc_closing (removeJob i s1) = sc_closing s1)
      by (unfold removeJob; rewrite Hj; cbn zeta; destruct (negb _ && _); repeat split).
    destruct Er1 as (R1 & R2 & R3 & R4 & R5). apply (winv_answered issued gone s _ i j I V S (ih_job _ _ _ H)); rewrite ?R1, ?R2, ?R3, ?R4, ?R5; try done; [lia| |now rewrite lookup_delete_eq].
    apply (others_same s s1); [done|]. intros k Hk. rewrite R1. now apply lookup_delete_ne.
Qed.

(** ** A caller leaves *)

Lemma winv_delete issued gone s c wid j : winv issued gone s -> issued !! c = Some wid -> sc_jobs s !! Z.shiftr wid 32 = Some j ->
  winv issued ({[c]} ∪ gone) (upd_job (Z.shiftr wid 32) (fun _ => jb_set_nextWaiters (delete (low32 wid) (jb_nextWaiters j)) (jb_set_waiters (delete (low32 wid) (jb_waiters j)) j)) s).
Proof.
  intros V Hc Hj. pose proof V as [A1 A2 A3 A4 A5 A6 A7 A8 A9 A10]. rewrite (upd_put _ _ _ _ Hj). set (i := Z.shiftr wid 32) in *. set (n := low32 wid) in *. set (j' := jb_set_nextWaiters _ _).
  assert (K : forall m x, keeps_waiter j' m x <-> m <> n /\ keeps_waiter j m x) by (intros m x; unfold keeps_waiter; cbn; rewrite !lookup_delete_Some; intuition congruence).
  split; cbn [put_job sc_set_jobs sc_jobs sc_sent sc_nextWaiterID sc_nextJobID sc_closing]; try done.
  - intros k l m x [[<- <-]|[Hne Hl]]%lookup_insert_Some Hk; [apply K in Hk as [_ Hk]; exact (A1 _ _ _ _ Hj Hk)|exact (A1 _ _ _ _ Hl Hk)].
  - intros k l m [[<- <-]|[Hne Hl]]%lookup_insert_Some; [|exact (A2 _ _ m Hl)]. cbn. rewrite !lookup_delete_None. destruct (A2 _ _ m Hj); auto.
  - intros d wid' H. destruct (A5 d wid' H) as [X|[X|(l & Hl & Hk)]]; [auto|right; left; now apply elem_of_union_r|]. destruct (decide (low32 wid' = n)) as [E|E]; [right; left; rewrite (A4 d c wid' wid H Hc E); now apply elem_of_union_l, elem_of_singleton|].
    right. right. destruct (decide (Z.shiftr wid' 32 = i)) as [E2|E2].
    + exists j'. rewrite E2, lookup_insert_eq. split; [reflexivity|]. apply K. split; [exact E|]. rewrite E2, Hj in Hl. injection Hl as <-. exact Hk.
    + exists l. rewrite lookup_insert_ne by exact (not_eq_sym E2). exact (conj Hl Hk).
  - intros k l [[<- <-]|[Hne Hl]]%lookup_insert_Some; [|exact (A8 _ _ Hl)]. cbn. intros Hn. apply (A8 _ _ Hj). intros E. rewrite E, delete_empty in Hn. exact (Hn eq_refl).
  - intros k l [[<- <-]|[Hne Hl]]%lookup_insert_Some Hcl; [|exact (A9 _ _ Hl Hcl)]. destruct (A9 _ _ Hj Hcl) as [E1 E2]. split; [change (delete n (jb_waiters j) = ∅); rewrite E1|change (delete n (jb_nextWaiters j) = ∅); rewrite E2]; apply delete_empty.
Qed.

Lemma winv_cancel issued gone s c wid : sinv s -> winv issued gone s -> issued !! c = Some wid -> c ∉ gone -> winv issued ({[c]} ∪ gone) (on_cancel (Z.shiftr wid 32) (low32 wid) s).
Proof.
  intros I V Hc Hg. unfold on_cancel. destruct (sc_jobs s !! Z.shiftr wid 32) as [j|] eqn:Hj.
  2: { pose proof V as [A1 A2 A3 A4 A5 A6 A7 A8 A9 A10]. split; try done. intros d wid' H. destruct (A5 d wid' H) as [X|[X|X]]; [auto|right; left; now apply elem_of_union_r|auto]. }
  pose proof (winv_delete issued gone s c wid j V Hc Hj) as V1. set (j1 := jb_set_nextWaiters _ _) in *. set (s1 := upd_job _ _ s) in *.
  assert (E : sc_jobs s1 !! Z.shiftr wid 32 = Some j1) by (unfold s1; rewrite (upd_put _ _ _ _ Hj); apply lookup_insert_eq). clearbody s1 j1. generalize dependent (Z.shiftr wid 32). intros i Hj E.
  destruct (unowned j1) eqn:Eu; [|exact V1]. apply (winv_quiet _ _ _ _ V1).
  destruct (is_active s1 i); [now apply quiet_upd|]. destruct (negb (jb_waiting j1)); [|apply unnoticed_refl].
  apply (unnoticed_trans _ (sc_set_pending (removeMaintenanceJob (sc_pending s1) i) s1)); [now apply quiet_jobs|]. apply quiet_remove. intros l Hl. assert (l = j1) as -> by (cbn in Hl; congruence).
  unfold unowned in Eu. rewrite !andb_true_iff, !bool_decide_eq_true in Eu. split; tauto.
Qed.

(** ** Closing *)

Lemma closing_chans (x : Z * job) : (closing_sends x).*1 = chans (jb_waiters x.2) ++ chans (jb_nextWaiters x.2).
Proof. unfold closing_sends, chans. now rewrite fmap_app, <- !list_fmap_compose. Qed.

Lemma closing_in l c : c ∈ (concat (map (@closing_sends W) l)).*1 <-> exists i j n w, (i, j) ∈ l /\ keeps_waiter j n w /\ wt_chan w = c.
Proof.
  induction l as [|[i j] l IH]; cbn [map concat].
  - split; [intros H%elem_of_nil; done|]. intros (i & j & n & w & H%elem_of_nil & _). done.
  - rewrite fmap_app, elem_of_app, IH, closing_chans, elem_of_app, !chans_in. unfold keeps_waiter. split.
    + intros [[(n & w & H & E)|(n & w & H & E)]|(k & x & n & w & Hin & H & E)]; [exists i, j, n, w|exists i, j, n, w|exists k, x, n, w]; rewrite elem_of_cons; auto.
    + intros (k & x & n & w & [[= -> ->]|Hin]%elem_of_cons & [H|H] & E); [left; left; eauto|left; right; eauto|right; exists k, x, n, w; auto..].
Qed.

Lemma closing_nodup issued gone s l : sinv s -> winv issued gone s -> small s -> NoDup l.*1 -> (forall i j, (i, j) ∈ l -> sc_jobs s !! i = Some j) -> NoDup (concat (map (@closing_sends W) l)).*1.
Proof.
  intros I V S. induction l as [|[i j] l IH]; cbn [map concat]; intros Hn Hl; [constructor|]. cbn in Hn. apply NoDup_cons in Hn as [Hi Hn].
  assert (Hj : sc_jobs s !! i = Some j) by (apply Hl, elem_of_cons; auto).
  rewrite fmap_app, closing_chans. cbn [snd]. apply NoDup_app. split; [|split].
  - apply NoDup_app. split; [eapply (chans_nodup issued gone s i j); eauto; now left|]. split; [|eapply (chans_nodup issued gone s i j); eauto; now right].
    intros c (n & w & H & E)%chans_in (n' & w' & H' & E')%chans_in. destruct (waiter_chan issued gone s i j n w i j n' w' I V S Hj Hj) as (_ & <- & <-); [now left|now right|congruence|].
    destruct (wv_two _ _ _ V i j n Hj); congruence.
  - intros c Hc (k & x & n & w & Hin & Hk & E)%closing_in. assert (Hkx : sc_jobs s !! k = Some x) by (apply Hl, elem_of_cons; auto).
    assert (Ho : exists n' w', keeps_waiter j n' w' /\ wt_chan w' = c) by (apply elem_of_app in Hc as [(n' & w' & H' & E')%chans_in|(n' & w' & H' & E')%chans_in]; exists n', w'; unfold keeps_waiter; auto).
    destruct Ho as (n' & w' & Hk' & E'). destruct (waiter_chan issued gone s k x n w i j n' w' I V S Hkx Hj Hk Hk') as (-> & _); [congruence|]. apply Hi, list_elem_of_fmap. exists (i, x). auto.
  - apply IH; [done|]. intros k x H. apply Hl, elem_of_cons. auto.
Qed.

Lemma winv_shutdown issued gone s : sinv s -> winv issued gone s -> small s -> winv issued gone (on_shutdown s).
Proof.
  intros I V S. unfold on_shutdown. rewrite shutdown_sent. pose proof V as [A1 A2 A3 A4 A5 A6 A7 A8 A9 A10].
  assert (L : forall k l', (close_job <$> sc_jobs s) !! k = Some l' -> lonely l') by (intros k l'; rewrite lookup_fmap; destruct (sc_jobs s !! k); [intros [= <-]; done|discriminate]).
  assert (M : forall i j, (i, j) ∈ map_to_list (sc_jobs s) -> sc_jobs s !! i = Some j) by (intros i j H; now apply elem_of_map_to_list).
  split; cbn [sc_set_pending sc_set_jobs sc_set_closing sc_set_sent sc_sent sc_nextWaiterID sc_nextJobID sc_closing sc_jobs]; try done.
  - intros k l n w Hl Hk. exfalso. eapply lonely_none; eauto.
  - intros k l n Hl. destruct (L k l Hl) as [-> ->]. rewrite lookup_empty. auto.
  - intros c wid H. rewrite fmap_app. destruct (A5 c wid H) as [X|[X|(j & Hj & Hk)]]; [left; apply elem_of_app; auto|auto|]. left. apply elem_of_app. right. apply closing_in.
    exists (Z.shiftr wid 32), j, (low32 wid), (mkWaiter wid c). split; [now apply elem_of_map_to_list|]. auto.
  - rewrite fmap_app. apply NoDup_app. split; [done|]. split; [|eapply closing_nodup; eauto; apply NoDup_fst_map_to_list].
    intros c Hc (k & x & n & w & Hin & Hk & <-)%closing_in. destruct (A1 _ _ _ _ (M _ _ Hin) Hk) as (_ & _ & _ & N). done.
  - intros c. rewrite fmap_app. intros [Hc|(k & x & n & w & Hin & Hk & <-)%closing_in]%elem_of_app; [auto|]. destruct (A1 _ _ _ _ (M _ _ Hin) Hk) as (_ & _ & X & _). eauto.
  - intros k l Hl Hn. destruct (L k l Hl). done.
  - intros k l Hl _. eauto.
Qed.

(** ** Every step *)

Context (Run : W -> Z -> maintenanceResult -> maintenanceTransition -> W -> Prop).
Local Abbreviation sworld := (@sworld W).
Local Abbreviation sched_case := (sched_case Resources factory Run).
Local Abbreviation sched_step := (sched_step Resources factory Run).

(** How far the counters go. *)
Definition ids (s : scheduler) : Z * Z := (sc_nextJobID s, sc_nextWaiterID s).
Definition counted (k : Z) (s s' : scheduler) : Prop := sc_nextJobID s' <= sc_nextJobID s + k /\ sc_nextWaiterID s' = sc_nextWaiterID s.

Lemma counted_ids s s' k : ids s' = ids s -> 0 <= k -> counted k s s'.
Proof. intros [= E1 E2] Hk. split; [lia|done]. Qed.

Lemma ids_dispatch s : ids (dispatch Resources s) = ids s.
Proof. apply (dispatch_keeps Resources (fun s' => ids s' = ids s)); [|done]. intros s0 i E _ _. unfold start_job. destruct (sc_jobs s0 !! i); exact E. Qed.

Lemma ids_remove (s : scheduler) i : ids (removeJob i s) = ids s.
Proof. unfold removeJob. destruct (sc_jobs s !! i); [|done]. cbn zeta. destruct (negb _ && _); done. Qed.

Lemma ids_complete (s : scheduler) i c order : ids (complete i c order s) = ids s.
Proof.
  unfold complete. destruct (sc_jobs s !! i) as [j|]; [|done]. change (ids s) with (ids (finishWaiters (jb_waiters j) c s)). generalize (finishWaiters (jb_waiters j) c s) as s0.
  induction order as [|d order IH]; intros s0; cbn [foldl]; [done|]. rewrite IH. unfold resume_dependent. destruct (sc_jobs s0 !! d) as [l|]; [|done]. destruct (jb_waiting l); [|done]. destruct (mc_err c); done.
Qed.

Lemma ids_finished (s : scheduler) i c order : ids (on_finished factory i c order s) = ids s.
Proof.
  unfold on_finished. rewrite <- (ids_complete s i c order). set (s2 := complete i c order s). clearbody s2. destruct (sc_jobs s2 !! i) as [l|]; [|done]. destruct (jb_runAgain l && negb (sc_closing s2)); [|apply ids_remove].
  destruct (make_worker _ _); [|done]. now rewrite ids_remove.
Qed.

Lemma ids_preempted (s : scheduler) i order : ids (on_preempted factory i order s) = ids s.
Proof. unfold on_preempted. destruct (sc_jobs _ !! i); [|done]. destruct (make_worker _ _); [|done]. unfold fail_job. rewrite ids_remove, ids_complete. done. Qed.

Lemma next_enqueue s rq d : sinv s -> sc_nextJobID s < two64 - 1 -> counted 1 s (enqueue factory rq d s).1.
Proof.
  intros I Hb. unfold counted. destruct (enqueue factory rq d s) as [s' r] eqn:E. destruct (enqueue_spec Resources new new_total _ _ _ _ _ I Hb E) as [(_ & -> & _)|(_ & id & s0 & j & j' & _ & A)]; [cbn; lia|].
  destruct A as [(key & priority & rerun & p & _ & _ & _ & [(_ & _ & ->)|(_ & _ & w & _ & C)]) _ _ ->]; cbn; [lia|]. rewrite (ct_next _ _ _ _ _ _ C). destruct (ct_same _ _ _ _ _ _ C) as (_ & _ & _ & _ & _ & ->). split; [lia|done].
Qed.

Lemma next_done s i w t order : sinv s -> sc_nextJobID s < two64 - 1 -> counted 1 s (on_done Resources factory i w t order s).
Proof.
  intros I Hb. unfold on_done. destruct (sc_jobs s !! i) as [j|] eqn:Hj; [|now apply counted_ids]. unfold is_active. destruct (bool_decide_reflect (i ∈ sc_active s)) as [Ha|]; [|now apply counted_ids].
  fold (checked t (Z.lor (jb_held j) (jb_running j))). destruct (checked_ok t (Z.lor (jb_held j) (jb_running j))) as (Hc & Hd & _). set (t' := checked _ _) in *.
  pose proof (inv_phase_ended Resources s i w (tr_retain t') j I Hj Ha Hc) as I1. destruct (phase_ended_hand Resources s i w (tr_retain t') j I Hj Ha) as [j1 H1].
  assert (E0 : ids (phase_ended i w (tr_retain t') j s) = ids s) by done. set (s1 := phase_ended i w (tr_retain t') j s) in *. clearbody s1. injection E0 as E1 E2.
  assert (F : forall s2, counted 1 s1 s2 -> counted 1 s (dispatch Resources s2)) by (intros s2 [X Y]; pose proof (ids_dispatch s2) as [= Z1 Z2]; split; lia).
  apply F. destruct (_ && _ && _); [apply counted_ids; [apply ids_preempted|done]|]. destruct (tr_err t') eqn:Ee; [apply counted_ids; [apply ids_finished|done]|].
  destruct (tr_done t') eqn:Et; [apply counted_ids; [apply ids_finished|done]|]. destruct (tr_dependency t') as [d|] eqn:Edep; [|apply counted_ids; [unfold on_next_phase; destruct (0 <? tr_retryAfter t'); done|done]].
  unfold on_dependency. set (s2 := upd_job i _ s1). assert (I2 : sinv s2) by (apply inv_set_waiting; [done|apply H1|done]).
  assert (Hb2 : sc_nextJobID s2 < two64 - 1) by (change (sc_nextJobID s2) with (sc_nextJobID s1); lia). destruct (next_enqueue s2 d i I2 Hb2) as [N1 N2].
  destruct (enqueue factory d i s2) as [s3 r] eqn:E. cbn [fst] in N1, N2. change (sc_nextJobID s2) with (sc_nextJobID s1) in N1. change (sc_nextWaiterID s2) with (sc_nextWaiterID s1) in N2.
  destruct r as [e|]; [|done]. unfold fail_job. pose proof (ids_remove (complete i (mkCompletion zeroResult (Some e)) order (upd_job i (jb_set_waiting false) s3)) i) as [= Z1 Z2].
  pose proof (ids_complete (upd_job i (jb_set_waiting false) s3) i (mkCompletion zeroResult (Some e)) order) as [= Z3 Z4]. split; rewrite ?Z1, ?Z2, ?Z3, ?Z4; cbn; [lia|done].
Qed.

(** The waiters when a phase ends. *)
Lemma winv_done issued gone s i w t order : sinv s -> winv issued gone s -> small s -> winv issued gone (on_done Resources factory i w t order s).
Proof.
  intros I V S. assert (Hb : sc_nextJobID s < two64 - 1) by (destruct S; lia). unfold on_done. destruct (sc_jobs s !! i) as [j|] eqn:Hj; [|done]. unfold is_active. destruct (bool_decide_reflect (i ∈ sc_active s)) as [Ha|]; [|done].
  fold (checked t (Z.lor (jb_held j) (jb_running j))). destruct (checked_ok t (Z.lor (jb_held j) (jb_running j))) as (Hc & Hd & _). set (t' := checked _ _) in *.
  pose proof (inv_phase_ended Resources s i w (tr_retain t') j I Hj Ha Hc) as I1. destruct (phase_ended_hand Resources s i w (tr_retain t') j I Hj Ha) as [j1 H1].
  assert (V1 : winv issued gone (phase_ended i w (tr_retain t') j s)) by (apply (winv_quiet _ _ s); [done|apply quiet_phase_ended]).
  assert (S1 : small (phase_ended i w (tr_retain t') j s)) by exact S. set (s1 := phase_ended i w (tr_retain t') j s) in *. clearbody s1.
  eapply winv_quiet; [|apply quiet_dispatch]. destruct (_ && _ && _).
  - unfold on_preempted. pose proof (in_hand_upd s1 i j1 (jb_set_preempted false) H1 eq_refl) as H2. pose proof (ih_job _ _ _ H2) as Hj2. rewrite Hj2.
    destruct (new_total (jb_request (jb_set_preempted false j1))) as [x Hx]; [apply (iv_job _ _ I1 _ _ (ih_job _ _ _ H1))|]. unfold make_worker. rewrite Hx. apply (winv_quiet _ _ s1); [done|].
    eapply unnoticed_trans; [|apply quiet_requeue]. eapply unnoticed_trans; now apply quiet_upd.
  - destruct (tr_err t') eqn:Ee; [eapply winv_finished; eauto|]. destruct (tr_done t') eqn:Et; [eapply winv_finished; eauto|]. destruct (tr_dependency t') as [d|] eqn:Edep.
    + unfold on_dependency. set (s2 := upd_job i _ s1). assert (I2 : sinv s2) by (apply inv_set_waiting; [done|apply H1|done]). assert (V2 : winv issued gone s2) by (apply (winv_quiet _ _ s1); [done|now apply quiet_upd]).
      assert (Hb2 : sc_nextJobID s2 < two64 - 1) by (change (sc_nextJobID s2) with (sc_nextJobID s1); destruct S1; lia).
      destruct (enqueue factory d i s2) as [s3 r] eqn:E. destruct (enqueue_spec Resources new new_total _ _ _ _ _ I2 Hb2 E) as [(Hn & _)|(_ & id & s0 & l & l' & -> & A)]; [exfalso; apply Hn; eauto|].
      apply (winv_quiet _ _ s2); [done|]. exact (quiet_admitted _ _ _ _ _ _ _ _ I2 A).
    + apply (winv_quiet _ _ s1); [done|apply quiet_next_phase].
Qed.

(** The invariant of a step and its cost in ids. *)
Record fine (w : sworld) : Prop := mkFine { fn_sinv : sinv (sw_sched w); fn_winv : winv (sw_issued w) (sw_gone w) (sw_sched w) }.

Definition dearer (w w' : sworld) : Prop := sc_nextJobID (sw_sched w') <= sc_nextJobID (sw_sched w) + 2 /\ sc_nextWaiterID (sw_sched w') <= sc_nextWaiterID (sw_sched w) + 1.
Definition room (w : sworld) : Prop := sc_nextJobID (sw_sched w) < 4294967292 /\ sc_nextWaiterID (sw_sched w) < 4294967292.

Lemma fine_counted s s' issued gone issued' gone' : sinv s' -> winv issued' gone' s' -> counted 2 s s' -> fine (mkSworld s' issued' gone') /\ dearer (mkSworld s issued gone) (mkSworld s' issued' gone').
Proof. intros I V [N1 N2]. split; [split; done|]. split; cbn; lia. Qed.

Lemma submit_fine s issued gone rq chan s' r : fine (mkSworld s issued gone) -> room (mkSworld s issued gone) -> on_submit Resources factory rq chan s = (s', r) -> (forall c wid, chan = Some c -> r = inr wid -> issued !! c = None) ->
  let issued' := match chan, r with Some c, inr wid => <[c := wid]> issued | _, _ => issued end in fine (mkSworld s' issued' gone) /\ dearer (mkSworld s issued gone) (mkSworld s' issued' gone).
Proof.
  intros [I V] [R1 R2] H Hc. cbn in I, V, R1, R2. assert (Hb : sc_nextJobID s < two64 - 1) by lia. pose proof (inv_submit Resources new new_total _ _ _ _ _ I Hb H) as I'.
  unfold on_submit in H. destruct (sc_closing s) eqn:Ecl; [injection H as <- <-; destruct chan; apply fine_counted; try done; now apply counted_ids|].
  destruct (next_enqueue s rq 0 I Hb) as [N1 N2]. pose proof (quiet_enqueue s rq 0 I Hb) as Q. destruct (enqueue factory rq 0 s) as [s1 r1] eqn:E. cbn [fst] in N1, N2, Q.
  pose proof (winv_quiet _ _ _ _ V Q) as V1. destruct (enqueue_spec Resources new new_total _ _ _ _ _ I Hb E) as [(_ & _ & ->)|(_ & id & s0 & l & l' & -> & A)].
  - injection H as <- <-. pose proof (ids_dispatch s1) as [= Z1 Z2]. destruct chan; (apply fine_counted; [done|apply (winv_quiet _ _ s1); [done|apply quiet_dispatch]|split; lia]).
  - pose proof (inv_admitted Resources new _ _ _ _ _ _ _ _ A) as I1. assert (J1 : sc_jobs s1 !! id = Some l') by (rewrite (ad_state _ _ _ _ _ _ _ _ _ _ A); apply lookup_insert_eq). clear A E.
    assert (QP : forall x, quiet x (dispatch Resources (preempt_running Resources id x)) /\ ids (dispatch Resources (preempt_running Resources id x)) = ids x).
    { intros x. split; [eapply unnoticed_trans; [apply quiet_preempt|apply quiet_dispatch]|]. rewrite ids_dispatch. unfold preempt_running. now destruct (sc_jobs x !! id). }
    injection H as <- <-. destruct chan as [c|]; cbn zeta.
    + assert (V2 : winv (<[c := waiter_id id (sc_nextWaiterID (register_waiter id c s1))]> issued) gone (register_waiter id c s1)).
      { apply (winv_register issued gone s1 id c l'); auto; [split; lia|rewrite (qt_closing _ _ Q); done|]. eapply Hc; reflexivity. }
      destruct (QP (register_waiter id c s1)) as [Q2 [= Z1 Z2]]. split; [split; cbn; [done|now apply (winv_quiet _ _ _ _ V2)]|]. unfold dearer. cbn [sw_sched]. rewrite Z1, Z2. cbn.
      pose proof (wv_count _ _ _ V). unfold add64. rewrite Z.mod_small by lia. lia.
    + destruct (QP s1) as [Q2 [= Z1 Z2]]. apply fine_counted; [done|now apply (winv_quiet _ _ s1)|split; lia].
Qed.

Lemma tick_fine s issued gone rqs : fine (mkSworld s issued gone) -> room (mkSworld s issued gone) -> (length rqs <= 2)%nat ->
  let s' := foldl (fun s rq => (enqueue factory rq 0 s).1) s rqs in sinv s' /\ winv issued gone s' /\ counted (len rqs) s s'.
Proof.
  intros [I V] [R1 R2] Hl. cbn in I, V, R1, R2 |- *. assert (Hb : sc_nextJobID s + len rqs < two64 - 1) by (unfold len; lia). clear R1 R2 Hl. revert s I V Hb.
  induction rqs as [|rq rqs IH]; intros s I V Hb; [split; [done|split; [done|now apply counted_ids]]|]. rewrite len_cons in *. pose proof (len_nonneg rqs) as L. cbn [foldl].
  assert (Hb1 : sc_nextJobID s < two64 - 1) by lia. destruct (next_enqueue s rq 0 I Hb1) as [N1 N2]. destruct (IH (enqueue factory rq 0 s).1) as (I' & V' & M1 & M2).
  - now apply inv_enqueue.
  - apply (winv_quiet _ _ s); [done|now apply quiet_enqueue].
  - lia.
  - split; [done|]. split; [done|]. split; lia.
Qed.

Lemma dispatch_fine s s' issued gone : sinv s' -> winv issued gone s' -> counted 2 s s' -> fine (mkSworld (dispatch Resources s') issued gone) /\ dearer (mkSworld s issued gone) (mkSworld (dispatch Resources s') issued gone).
Proof.
  intros I V [N1 N2]. pose proof (ids_dispatch s') as [= Z1 Z2]. apply fine_counted; [now apply inv_dispatch|apply (winv_quiet _ _ s'); [done|apply quiet_dispatch]|split; lia].
Qed.

Lemma step_fine (w w' : sworld) : sched_case w w' -> fine w -> room w -> fine w' /\ dearer w w'.
Proof.
  intros H F R. destruct w as [s issued gone]. pose proof F as [I V]. pose proof R as [R1 R2]. cbn in I, V, R1, R2. assert (Hb : sc_nextJobID s < two64 - 1) by lia. assert (S : small s) by (split; lia).
  destruct H as [rq c s' wid Hc H|rq c s' e H|rq s' r H|c wid Hc Hg|config s' r H|config Hc|config Hc He|i j x t order Hj Ha Hr Ho|i Ht|Ho]; cbn [sw_sched sw_issued sw_gone] in *.
  - apply (submit_fine s issued gone rq (Some c) s' (inr wid)); auto. intros d y [= <-] _. done.
  - refine (submit_fine s issued gone rq (Some c) s' (inl e) F R H _). intros d y _ [=].
  - refine (submit_fine s issued gone (background_of rq) None s' r F R H _). intros d y [=].
  - apply fine_counted; [now apply inv_cancel|now apply winv_cancel|]. apply counted_ids; [|lia]. unfold on_cancel. destruct (sc_jobs s !! _); [|done]. destruct (unowned _); [|done]. destruct (is_active _ _); [done|]. destruct (negb _); [|done]. now rewrite ids_remove.
  - unfold on_configure in H. destruct (sc_config s); injection H as <- _; (apply fine_counted; [apply (inv_frame Resources s); done|apply (winv_quiet _ _ s); [done|now apply quiet_jobs]|now apply counted_ids]).
  - destruct (tick_fine s issued gone [periodic_request] F R) as (I' & V' & N1 & N2); [cbn; lia|]. apply dispatch_fine; [done|done|]. cbn [foldl] in N1, N2. change (len [periodic_request]) with 1 in N1. split; [lia|exact N2].
  - set (rqs := (if mg_DisableSegmentGC config then [] else [automatic_request maintenanceSegmentNextRequest (normalizeCompactionPolicy (mg_SegmentPolicy config))]) ++ (if mg_DisableMappingGC config then [] else [automatic_request maintenanceMappingGCRequest zeroPolicy])).
    assert (E : on_maintenance_tick Resources factory config s = dispatch Resources (foldl (fun s rq => (enqueue factory rq 0 s).1) s rqs)) by (unfold on_maintenance_tick, rqs; destruct (mg_DisableSegmentGC config), (mg_DisableMappingGC config); reflexivity).
    assert (L : (length rqs <= 2)%nat) by (unfold rqs; destruct (mg_DisableSegmentGC config), (mg_DisableMappingGC config); cbn; lia).
    rewrite E. destruct (tick_fine s issued gone rqs F R L) as (I' & V' & N1 & N2). apply dispatch_fine; [done|done|]. split; [unfold len in N1; lia|exact N2].
  - destruct (next_done s i x t order I Hb) as [N1 N2]. apply fine_counted; [now apply inv_done|now apply winv_done|]. split; [lia|done].
  - assert (Q : quiet s (on_retry Resources i s) /\ ids (on_retry Resources i s) = ids s).
    { unfold on_retry. set (s1 := sc_set_timers _ s). assert (Q1 : quiet s s1) by now apply quiet_jobs. assert (E1 : ids s1 = ids s) by done. clearbody s1. destruct (sc_jobs s1 !! i); [|done]. destruct (_ && _); [|done].
      rewrite ids_dispatch. split; [|done]. apply (unnoticed_trans _ s1); [done|]. eapply unnoticed_trans; [apply quiet_requeue|apply quiet_dispatch]. }
    destruct Q as [Q E]. apply fine_counted; [now apply inv_retry|now apply (winv_quiet _ _ s)|now apply counted_ids].
  - apply fine_counted; [now apply inv_shutdown|now apply winv_shutdown|]. apply counted_ids; [|lia]. unfold on_shutdown. now rewrite shutdown_sent.
Qed.

Lemma started_fine : fine started.
Proof.
  split; cbn.
  - split; cbn; [intros i j H; now rewrite lookup_empty in H| | | | | |intros k i H; now rewrite lookup_empty in H|lia| |intros i k j l _ H; now rewrite lookup_empty in H].
    + intros i. split; cbn; [intros H; now apply elem_of_nil in H|intros H; now apply elem_of_empty in H|intros j H; now rewrite lookup_empty in H].
    + intros i [H|H]; [now apply elem_of_nil in H|now apply elem_of_empty in H].
    + intros i H. now apply elem_of_nil in H.
    + constructor.
    + constructor.
    + intros n Hn H. now rewrite Z.testbit_0_l in H.
  - split; cbn; try lia; try constructor; try (intros; rewrite lookup_empty in *; discriminate). intros c H. now apply elem_of_nil in H.
Qed.

(** After [n] steps at most [2 n] jobs and [n] waiters have been numbered. *)
Lemma steps_fine n w : nsteps sched_step n started w -> 2 * Z.of_nat n < 4294967292 -> fine w /\ sc_nextJobID (sw_sched w) <= 2 * Z.of_nat n /\ sc_nextWaiterID (sw_sched w) <= Z.of_nat n.
Proof.
  revert w. induction n as [|n IH]; intros w H Hn.
  - inversion H; subst. split; [apply started_fine|cbn; lia].
  - apply nsteps_inv_r in H as (w1 & H1 & [_ H2]). destruct (IH w1 H1) as (F & B1 & B2); [lia|]. destruct (step_fine w1 w H2 F) as (F' & D1 & D2); [split; lia|]. split; [done|lia].
Qed.
End Waiters.
