(* ===== verification/SchedulerProgress.v ===== *)
(** * The scheduler: it never stalls

    The workers of the store keep at most the recovery protocol between phases, depend
    only on checkpoints, and a checkpoint keeps nothing and depends on nothing.  The
    class [LawfulWorkers] says so; from it follows that the actor always has a phase
    running or a timer set while it has jobs. *)
From stdpp Require Import strings.
From S2P Require Import Prelude Addr Catalog Compaction GcCandidate Scheduler SchedulerSpec SchedulerWaiters.

Definition is_checkpoint (rq : maintenanceRequest) : bool := rq_kind rq =? maintenanceCheckpointRequest.

Class LawfulWorkers {W : Type} (Resources : W -> Z -> Z) (new : maintenanceRequest -> serr + W) (Run : W -> Z -> maintenanceResult -> maintenanceTransition -> W -> Prop) := {
  checkpointing : W -> bool;
  law_total : forall rq, kind_ok rq -> exists w, new rq = inr w;
  law_new : forall rq w, new rq = inr w -> checkpointing w = is_checkpoint rq;
  law_stays : forall w phase r t w', Run w phase r t w' -> checkpointing w' = checkpointing w;
  law_checkpoint : forall w phase r t w', Run w phase r t w' -> checkpointing w = true -> tr_retain t = 0 /\ tr_dependency t = None;
  law_other : forall w phase r t w', Run w phase r t w' -> checkpointing w = false -> tr_retryAfter t = 0 /\ covers maintenanceRecoveryProtocol (tr_retain t) /\ forall d, tr_dependency t = Some d -> is_checkpoint d = true;
  law_free : forall w phase, checkpointing w = true -> apart (Resources w phase) maintenanceRecoveryProtocol }.

Section Progress.
Context {W : Type} (Resources : W -> Z -> Z) (new : maintenanceRequest -> serr + W) (Run : W -> Z -> maintenanceResult -> maintenanceTransition -> W -> Prop) `{L : !LawfulWorkers Resources new Run}.
Local Abbreviation factory := (Some new).
Local Abbreviation scheduler := (@scheduler W).
Local Abbreviation job := (@maintenanceJob W).
Local Abbreviation sinv := (sinv Resources).

Fixpoint worker_checkpoints (w : @worker W) : bool := match w with Plain w => checkpointing w | failedDependencyWorker next _ => worker_checkpoints next end.

Definition checkpoint_key : string := "checkpoint".

(** ** The invariant

    [hand] is the job that the actor is about to put somewhere. *)

Record pjob (j : job) : Prop := mkPjob {
  pj_kind : is_checkpoint (jb_request j) = bool_decide (jb_key j = checkpoint_key);
  pj_worker : worker_checkpoints (jb_worker j) = bool_decide (jb_key j = checkpoint_key);
  pj_free : jb_key j = checkpoint_key -> jb_held j = 0 /\ jb_waiting j = false;
  pj_held : covers maintenanceRecoveryProtocol (jb_held j);
  pj_again : jb_nextDependents j <> ∅ -> jb_runAgain j = true }.

Definition placed (s : scheduler) (hand : option Z) (i : Z) (j : job) : Prop :=
  i ∈ sc_pending s \/ i ∈ sc_active s \/ i ∈ sc_timers s \/ jb_waiting j = true \/ hand = Some i.

Definition awaits (j : job) (i : Z) : Prop := i ∈ jb_dependents j \/ i ∈ jb_nextDependents j.
Definition linked (s : scheduler) (i : Z) : Prop := exists k l, sc_jobs s !! k = Some l /\ jb_key l = checkpoint_key /\ awaits l i.

Record pinv (hand : option Z) (s : scheduler) : Prop := mkPinv {
  pv_job : forall i j, sc_jobs s !! i = Some j -> pjob j;
  pv_timer : forall i j, i ∈ sc_timers s -> sc_jobs s !! i = Some j -> jb_key j = checkpoint_key;
  pv_placed : sc_closing s = false -> forall i j, sc_jobs s !! i = Some j -> placed s hand i j;
  pv_linked : sc_closing s = false -> forall i j, sc_jobs s !! i = Some j -> jb_waiting j = true -> hand <> Some i -> linked s i }.

(** A change of one job. *)
Record moved (hand hand' : option Z) (s s' : scheduler) (i : Z) (j j' : job) : Prop := mkMoved {
  mv_jobs : sc_jobs s' = <[i := j']> (sc_jobs s);
  mv_closing : sc_closing s' = sc_closing s;
  mv_key : jb_key j' = jb_key j;
  mv_job : pjob j';
  mv_pending : forall k, k <> i -> k ∈ sc_pending s -> k ∈ sc_pending s';
  mv_active : forall k, k <> i -> k ∈ sc_active s -> k ∈ sc_active s';
  mv_timers : forall k, k <> i -> k ∈ sc_timers s <-> k ∈ sc_timers s';
  mv_timer : i ∈ sc_timers s' -> jb_key j = checkpoint_key;
  mv_hand : forall k, k <> i -> hand = Some k -> hand' = Some k;
  mv_placed : sc_closing s = false -> placed s' hand' i j';
  mv_awaits : forall k l, sc_jobs s !! k = Some l -> jb_waiting l = true -> awaits j k -> awaits j' k;
  mv_waiting : sc_closing s = false -> jb_waiting j' = true -> hand' <> Some i -> (jb_waiting j = true /\ hand <> Some i) \/ linked s' i }.

Lemma pinv_moved hand hand' s s' i j j' : pinv hand s -> sc_jobs s !! i = Some j -> moved hand hand' s s' i j j' -> pinv hand' s'.
Proof.
  intros [P1 P2 P3 P4] Hj [M1 M2 M3 M4 M5 M6 M7 M8 M9 M10 M11 M12].
  assert (LK : forall k, (exists l, sc_jobs s !! k = Some l /\ jb_waiting l = true) -> linked s k -> linked s' k).
  { intros k (l & Hl & Hw) (a & x & Ha & Hk & Hd). destruct (decide (a = i)) as [->|Hne].
    - exists i, j'. assert (x = j) by congruence. subst x. rewrite M1, lookup_insert_eq. split; [done|]. split; [congruence|]. eauto.
    - exists a, x. rewrite M1, lookup_insert_ne by congruence. done. }
  split.
  - intros k l. rewrite M1. intros [[<- <-]|[Hne Hl]]%lookup_insert_Some; [done|eauto].
  - intros k l Ht. rewrite M1. intros [[<- <-]|[Hne Hl]]%lookup_insert_Some; [rewrite M3; auto|]. apply (P2 k); [apply M7; [congruence|done]|done].
  - rewrite M2. intros Hc k l. rewrite M1. intros [[<- <-]|[Hne Hl]]%lookup_insert_Some; [auto|]. assert (Hki : k <> i) by congruence.
    destruct (P3 Hc k l Hl) as [H|[H|[H|[H|H]]]]; unfold placed; [auto|auto| |auto|].
    + right. right. left. now apply M7.
    + do 4 right. eauto.
  - rewrite M2. intros Hc k l. rewrite M1. intros [[<- <-]|[Hne Hl]]%lookup_insert_Some Hw Hh.
    + destruct (M12 Hc Hw Hh) as [[H Hn]|H]; [|done]. apply LK; eauto.
    + apply LK; [eauto|]. apply (P4 Hc k l Hl Hw). intros E. apply Hh, M9; [congruence|done].
Qed.

(** A change of one job that leaves it where it is. *)
Lemma pinv_put hand s i j j' : pinv hand s -> sc_jobs s !! i = Some j -> jb_key j' = jb_key j -> pjob j' -> jb_waiting j' = jb_waiting j -> (forall k, awaits j k -> awaits j' k) -> pinv hand (put_job i j' s).
Proof.
  intros P Hj Hk Hp Hw Ha. apply (pinv_moved hand hand s _ i j j' P Hj). split; cbn; try done.
  - intros Ht. exact (pv_timer _ _ P i j Ht Hj).
  - intros Hc. destruct (pv_placed _ _ P Hc i j Hj) as [H|[H|[H|[H|H]]]]; unfold placed; cbn; rewrite ?Hw; auto.
  - auto.
  - rewrite Hw. auto.
Qed.

Lemma pinv_frame hand (s s' : scheduler) : sc_jobs s' = sc_jobs s -> sc_pending s' = sc_pending s -> sc_active s' = sc_active s -> sc_timers s' = sc_timers s -> sc_closing s' = sc_closing s -> pinv hand s -> pinv hand s'.
Proof.
  intros E1 E2 E3 E4 E5 [P1 P2 P3 P4]. split; rewrite ?E1, ?E4, ?E5; try done.
  - intros Hc i j Hj. destruct (P3 Hc i j Hj) as [H|[H|[H|[H|H]]]]; unfold placed; rewrite ?E2, ?E3, ?E4; auto.
  - intros Hc i j Hj Hw Hh. destruct (P4 Hc i j Hj Hw Hh) as (k & l & X). exists k, l. now rewrite E1.
Qed.

(** A job that no waiting job depends on may go. *)
Lemma pinv_remove hand hand' s i : pinv hand s -> (sc_closing s = false -> forall j, sc_jobs s !! i = Some j -> forall k l, sc_jobs s !! k = Some l -> jb_waiting l = true -> ~ awaits j k) -> (forall k, k <> i -> hand = Some k -> hand' = Some k) -> pinv hand' (removeJob i s).
Proof.
  intros P Hn Hh. unfold removeJob. destruct (sc_jobs s !! i) as [j|] eqn:Hj.
  - set (s1 := sc_set_jobs _ _). assert (P1 : pinv hand' s1).
    { split; cbn.
      - intros k l [_ Hl]%lookup_delete_Some. exact (pv_job _ _ P _ _ Hl).
      - intros k l Ht [_ Hl]%lookup_delete_Some. exact (pv_timer _ _ P _ _ Ht Hl).
      - intros Hc k l [Hne Hl]%lookup_delete_Some. destruct (pv_placed _ _ P Hc k l Hl) as [H|[H|[H|[H|H]]]]; unfold placed; cbn; auto. do 4 right. apply Hh; [congruence|done].
      - intros Hc k l [Hne Hl]%lookup_delete_Some Hw Hk. destruct (pv_linked _ _ P Hc k l Hl Hw) as (a & x & Ha & Hx & Hd).
        + intros E. apply Hk, Hh; [congruence|done].
        + exists a, x. cbn. rewrite lookup_delete_ne; [done|]. intros <-. assert (x = j) by congruence. subst x. exact (Hn Hc j eq_refl k l Hl Hw Hd). }
    cbn zeta. destruct (negb _ && _); [|exact P1]. now apply (pinv_frame hand' s1).
  - destruct P as [P1 P2 P3 P4]. split; try done.
    + intros Hc k l Hl. destruct (P3 Hc k l Hl) as [H|[H|[H|[H|H]]]]; unfold placed; auto. do 4 right. apply Hh; [congruence|done].
    + intros Hc k l Hl Hw Hk. apply (P4 Hc k l Hl Hw). intros E. apply Hk, Hh; [congruence|done].
Qed.

Lemma policy_checkpoint rq key priority rerun p : maintenanceRequestPolicy rq = Some (key, priority, rerun, p) -> is_checkpoint rq = bool_decide (key = checkpoint_key) /\ (rerun = true -> key = checkpoint_key).
Proof.
  unfold maintenanceRequestPolicy, is_checkpoint, checkpoint_key. intros H. repeat case_match; simplify_eq; split; try done; rewrite ?bool_decide_eq_true_2, ?bool_decide_eq_false_2 by (done || congruence); done.
Qed.

(** ** Admission *)

Lemma pinv_created hand s s' rq key priority rerun p w : sinv s -> pinv hand s -> maintenanceRequestPolicy rq = Some (key, priority, rerun, p) -> new rq = inr w -> created s s' rq key priority w -> pinv hand s'.
Proof.
  intros I P Hp Hw [[q Cj] Cp (Ca & Ct & Cl & Cc & _) Cn Ck]. destruct (policy_checkpoint _ _ _ _ _ Hp) as [Ec _]. set (i := sc_nextJobID s + 1) in *.
  assert (Hf : sc_jobs s !! i = None) by (destruct (sc_jobs s !! i) as [l|] eqn:E; [destruct (iv_job _ _ I _ _ E); unfold i in *; lia|done]).
  assert (Hl : forall k l, sc_jobs s !! k = Some l -> sc_jobs s' !! k = Some l) by (intros k l H; rewrite Cj, lookup_insert_ne; [done|congruence]).
  split; rewrite ?Cc, ?Ct.
  - intros k l. rewrite Cj. intros [[<- <-]|[Hne H]]%lookup_insert_Some; [|exact (pv_job _ _ P _ _ H)]. split; cbn; [done|rewrite <- Ec; exact (law_new _ _ Hw)|done|intros n Hn; now rewrite Z.testbit_0_l|done].
  - intros k l Ht. rewrite Cj. intros [[<- <-]|[Hne H]]%lookup_insert_Some; [|exact (pv_timer _ _ P _ _ Ht H)]. apply (iv_timer _ _ I) in Ht. unfold i in Ht. lia.
  - intros Hc k l. rewrite Cj. unfold placed. rewrite Cp, Ca, Ct. intros [[<- <-]|[Hne H]]%lookup_insert_Some; [left; set_solver|]. destruct (pv_placed _ _ P Hc k l H) as [X|X]; [left; apply elem_of_app; auto|auto].
  - intros Hc k l. rewrite Cj. intros [[<- <-]|[Hne H]]%lookup_insert_Some Hwt Hh; [done|]. destruct (pv_linked _ _ P Hc k l H Hwt Hh) as (a & x & Ha & Hx). exists a, x. split; [auto|done].
Qed.

Lemma is_checkpoint_merge a b : kind_ok a -> is_checkpoint (mergeMaintenanceRequest a b) = is_checkpoint a.
Proof. intros H. unfold is_checkpoint. now rewrite (proj2 (kind_merge a b H)). Qed.

Lemma enqueued_pjob rq d running rerun (j j' : job) : kind_ok (jb_request j) -> enqueued new rq d running rerun j j' -> pjob j -> pjob j'.
Proof.
  intros Hk He [A B C D E]. destruct He as [E1 E2|E1 E2|w E1 E2]; unfold join_next, join_current; destruct (d =? 0); split; cbn; try done; try (rewrite is_checkpoint_merge by done; done);
    rewrite <- A, <- (is_checkpoint_merge _ rq Hk); exact (law_new _ _ E2).
Qed.

Lemma enqueued_awaits rq d running rerun (j j' : job) : enqueued new rq d running rerun j j' -> jb_key j' = jb_key j /\ jb_waiting j' = jb_waiting j /\ (forall k, awaits j k -> awaits j' k) /\ (d <> 0 -> awaits j' d).
Proof.
  unfold awaits. intros He. destruct He as [E1 E2|E1 E2|w E1 E2]; unfold join_next, join_current; destruct (Z.eqb_spec d 0) as [->|Hd]; cbn; (split; [done|]); (split; [done|]); (split; [|try done]); set_solver.
Qed.

Lemma pinv_admitted hand s rq d s' id s0 j j' : sinv s -> pinv hand s -> admitted Resources new s rq d s' id s0 j j' -> pinv hand s' /\ (is_checkpoint rq = true -> d <> 0 -> linked s' d).
Proof.
  intros I P [(key & priority & rerun & p & Hp & Hk & He & Hor) I0 Hj ->].
  assert (P0 : pinv hand s0) by (destruct Hor as [(_ & _ & ->)|(_ & _ & w & Hw & C)]; [done|exact (pinv_created _ _ _ _ _ _ _ _ _ I P Hp Hw C)]).
  pose proof (jo_kind _ _ _ _ (iv_job _ _ I0 _ _ Hj)) as Hkd. destruct (enqueued_awaits _ _ _ _ _ _ He) as (K1 & K2 & K3 & K4). split.
  - apply (pinv_put hand s0 id j j'); auto. exact (enqueued_pjob _ _ _ _ _ _ Hkd He (pv_job _ _ P0 _ _ Hj)).
  - intros Hc Hd. exists id, j'. cbn. rewrite lookup_insert_eq. split; [done|]. split; [|auto]. rewrite K1, Hk. destruct (policy_checkpoint _ _ _ _ _ Hp) as [E _]. rewrite Hc in E. symmetry in E. now apply bool_decide_eq_true in E.
Qed.

Lemma pinv_enqueue s rq d : sinv s -> sc_nextJobID s < two64 - 1 -> pinv None s -> pinv None (enqueue factory rq d s).1.
Proof.
  intros I Hb P. destruct (enqueue factory rq d s) as [s' r] eqn:E. destruct (enqueue_spec Resources new law_total _ _ _ _ _ I Hb E) as [(_ & -> & _)|(_ & id & s0 & j & j' & _ & A)]; [done|].
  exact (proj1 (pinv_admitted _ _ _ _ _ _ _ _ _ I P A)).
Qed.

(** ** Dispatching *)

Lemma pinv_start hand s i : sinv s -> pinv hand s -> runnable Resources s i = true -> pinv hand (start_job Resources i s).
Proof.
  intros I P (j & Hj & _)%runnable_job. rewrite (start_job_at _ _ _ _ Hj). apply (pinv_moved hand hand s _ i j (granted (sc_closing s) (job_need Resources j) j) P Hj).
  pose proof (pv_job _ _ P _ _ Hj) as [A B C D E]. split; cbn; try done.
  - exact (upd_job_at s i _ j Hj).
  - intros k Hk. rewrite remove_first_in by apply I. auto.
  - set_solver.
  - intros Ht. exact (pv_timer _ _ P i j Ht Hj).
  - intros _. right. left. cbn. set_solver.
  - auto.
Qed.

Lemma pinv_dispatch s : sinv s -> pinv None s -> sinv (dispatch Resources s) /\ pinv None (dispatch Resources s).
Proof.
  intros I P. apply (dispatch_keeps Resources (fun s => sinv s /\ pinv None s)); [|done]. intros s0 i [I0 P0] Hp Hr. split; [now apply inv_start|now apply pinv_start].
Qed.

Lemma pinv_preempt hand s i : pinv hand s -> pinv hand (preempt_running Resources i s).
Proof.
  intros P. unfold preempt_running. destruct (sc_jobs s !! i) as [j|]; [|done].
  set (f := fun (k : Z) (r : job) => if is_active s k && preempts Resources j r then jb_set_cancel (Some true) (jb_set_preempted true r) else r).
  assert (Ef : forall k r, jb_key (f k r) = jb_key r /\ jb_waiting (f k r) = jb_waiting r /\ jb_dependents (f k r) = jb_dependents r /\ jb_nextDependents (f k r) = jb_nextDependents r /\ (pjob r -> pjob (f k r))).
  { intros k r. unfold f. destruct (_ && _); (split; [done|]); (split; [done|]); (split; [done|]); (split; [done|]); [|done]. intros [A B C D E]. split; done. }
  assert (El : forall k l', map_imap (fun k r => Some (f k r)) (sc_jobs s) !! k = Some l' -> exists l, sc_jobs s !! k = Some l /\ l' = f k l).
  { intros k l'. rewrite map_lookup_imap. destruct (sc_jobs s !! k) as [l|]; cbn; [intros [= <-]; eauto|discriminate]. }
  assert (Er : forall k l, sc_jobs s !! k = Some l -> map_imap (fun k r => Some (f k r)) (sc_jobs s) !! k = Some (f k l)) by (intros k l H; now rewrite map_lookup_imap, H).
  split; cbn.
  - intros k l' (l & Hl & ->)%El. apply Ef. exact (pv_job _ _ P _ _ Hl).
  - intros k l' Ht (l & Hl & ->)%El. destruct (Ef k l) as (-> & _). exact (pv_timer _ _ P _ _ Ht Hl).
  - intros Hc k l' (l & Hl & ->)%El. destruct (Ef k l) as (_ & E & _). unfold placed. rewrite E. exact (pv_placed _ _ P Hc k l Hl).
  - intros Hc k l' (l & Hl & ->)%El Hw Hh. destruct (Ef k l) as (_ & E & _). rewrite E in Hw. destruct (pv_linked _ _ P Hc k l Hl Hw Hh) as (a & x & Ha & Hk & Hd). exists a, (f a x).
    destruct (Ef a x) as (E1 & E2 & E3 & E4 & _). split; [exact (Er _ _ Ha)|]. split; [congruence|]. unfold awaits. now rewrite E3, E4.
Qed.

Lemma pinv_register hand s i c : pinv hand s -> pinv hand (register_waiter i c s).
Proof.
  intros P. unfold register_waiter. set (s1 := sc_set_nextWaiterID _ s). assert (P1 : pinv hand s1) by now apply (pinv_frame hand s). destruct (sc_jobs s1 !! i) as [j|] eqn:Hj; [|now rewrite upd_job_none].
  rewrite (upd_put _ _ _ _ Hj). pose proof (pv_job _ _ P1 _ _ Hj) as [A B C D E]. unfold add_waiter. apply (pinv_put _ _ _ j); auto; destruct (_ && _); try done.
Qed.

(** ** The end of a phase *)

(** The actor puts down the job in its hand. *)
Lemma pinv_drop s i : pinv (Some i) s -> (forall j, sc_jobs s !! i = Some j -> sc_closing s = false -> placed s None i j /\ (jb_waiting j = true -> linked s i)) -> pinv None s.
Proof.
  intros [P1 P2 P3 P4] H. split; try done.
  - intros Hc k l Hl. destruct (decide (k = i)) as [->|Hne]; [now apply H|]. destruct (P3 Hc k l Hl) as [X|[X|[X|[X|X]]]]; unfold placed; auto. congruence.
  - intros Hc k l Hl Hw _. destruct (decide (k = i)) as [->|Hne]; [now apply (H l)|]. apply (P4 Hc k l Hl Hw). congruence.
Qed.

Lemma pinv_upd hand s i j (f : job -> job) : pinv hand s -> sc_jobs s !! i = Some j -> jb_key (f j) = jb_key j -> pjob (f j) -> jb_waiting (f j) = jb_waiting j ->
  (forall k l, sc_jobs s !! k = Some l -> jb_waiting l = true -> awaits j k -> awaits (f j) k) -> pinv hand (upd_job i f s).
Proof.
  intros P Hj Hk Hp Hw Ha. rewrite (upd_put s i f j Hj). apply (pinv_moved hand hand s _ i j (f j) P Hj). split; cbn; try done.
  - intros Ht. exact (pv_timer _ _ P i j Ht Hj).
  - intros Hc. destruct (pv_placed _ _ P Hc i j Hj) as [H|[H|[H|[H|H]]]]; unfold placed; cbn; rewrite ?Hw; auto.
  - rewrite Hw. auto.
Qed.

Lemma pinv_queue s i : pinv (Some i) s -> (forall j, sc_jobs s !! i = Some j -> jb_waiting j = false) -> pinv None (queueJob i s).
Proof.
  intros P H. apply (pinv_drop _ i).
  - destruct P as [P1 P2 P3 P4]. split; cbn; try done. intros Hc k l Hl. destruct (P3 Hc k l Hl) as [X|X]; unfold placed; cbn; [left; apply elem_of_app; auto|auto].
  - intros j Hj _. cbn in Hj. split; [left; cbn; apply elem_of_app; right; now apply list_elem_of_singleton|]. rewrite (H j Hj). discriminate.
Qed.

Lemma pinv_requeue s i j : pinv (Some i) s -> in_hand s i j -> pinv None (queueJob i (stamp i s)).
Proof.
  intros P H. pose proof (ih_job _ _ _ H) as Hj. pose proof (pv_job _ _ P _ _ Hj) as [A B C D E]. unfold stamp. apply pinv_queue.
  - apply (pinv_upd _ _ _ j); try done. now apply (pinv_frame _ s).
  - intros l Hl. rewrite (upd_put (next_sequence s) i _ j Hj) in Hl. cbn in Hl. rewrite lookup_insert_eq in Hl. injection Hl as <-. apply H.
Qed.

Lemma pinv_phase_ended s i w retain j : sinv s -> pinv None s -> sc_jobs s !! i = Some j -> i ∈ sc_active s -> worker_checkpoints w = worker_checkpoints (jb_worker j) ->
  covers maintenanceRecoveryProtocol retain -> (jb_key j = checkpoint_key -> retain = 0) -> pinv (Some i) (phase_ended i w retain j s).
Proof.
  intros I P Hj Ha Hw Hc Hk. pose proof (pv_job _ _ P _ _ Hj) as [A B C D E].
  apply (pinv_moved None (Some i) s _ i j (jb_set_held retain (jb_set_running 0 (jb_set_cancel None (jb_set_worker w j)))) P Hj). split; cbn; try done.
  - exact (upd_job_at s i _ j Hj).
  - split; cbn; try done; [congruence|]. intros X. destruct (C X). auto.
  - set_solver.
  - intros Ht. exact (pv_timer _ _ P i j Ht Hj).
  - intros _. do 4 right. done.
Qed.

Lemma pinv_resume hand c s d : pinv hand s -> pinv hand (resume_dependent c s d).
Proof.
  intros P. destruct (sc_jobs s !! d) as [l|] eqn:Hl; [|unfold resume_dependent; now rewrite Hl]. destruct (jb_waiting l) eqn:Hw; [|unfold resume_dependent; now rewrite Hl, Hw].
  destruct (resume_spec c s d l Hl Hw) as (q & r & w & -> & Ew). pose proof (pv_job _ _ P _ _ Hl) as [A B C D E].
  apply (pinv_moved hand hand s _ d l (jb_set_sequence q (jb_set_worker w (jb_set_dependencyResult r (jb_set_waiting false l)))) P Hl). split; cbn; try done.
  - split; cbn; try done; [|intros X; now destruct (C X)]. destruct Ew as [->|(e & _ & ->)]; exact B.
  - intros k Hk Hp. apply elem_of_app. auto.
  - intros Ht. exact (pv_timer _ _ P d l Ht Hl).
  - intros _. left. cbn. apply elem_of_app. right. now apply list_elem_of_singleton.
Qed.

Lemma pinv_complete hand i c order s : pinv hand s -> pinv hand (complete i c order s).
Proof.
  intros P. unfold complete. destruct (sc_jobs s !! i) as [j|]; [|done]. assert (P1 : pinv hand (finishWaiters (jb_waiters j) c s)) by now apply (pinv_frame hand s).
  revert P1. generalize (finishWaiters (jb_waiters j) c s) as s0. induction order as [|d order IH]; intros s0 P0; cbn [foldl]; [done|]. now apply IH, pinv_resume.
Qed.

(** The same job with a fresh worker of its kind, for a run that is not followed by another. *)
Lemma pjob_worker (j j' : job) : jb_request j' = jb_request j -> jb_key j' = jb_key j -> jb_held j' = jb_held j -> jb_waiting j' = jb_waiting j -> jb_nextDependents j' = jb_nextDependents j ->
  (jb_nextDependents j <> ∅ -> jb_runAgain j' = jb_runAgain j) -> worker_checkpoints (jb_worker j') = is_checkpoint (jb_request j) -> pjob j -> pjob j'.
Proof.
  intros E1 E2 E3 E4 E5 E6 E7 [A B C D E]. split; rewrite ?E1, ?E2, ?E3, ?E4, ?E5, ?E7; auto. intros X. rewrite (E6 X). auto.
Qed.

Lemma pinv_finished s i j c order : sinv s -> pinv (Some i) s -> in_hand s i j -> order ≡ₚ elements (jb_dependents j) -> pinv None (on_finished factory i c order s).
Proof.
  intros I P H Ho. unfold on_finished. destruct (complete_spec Resources s i j c order I H) as (I1 & H1 & _ & N). pose proof (pinv_complete _ i c order _ P) as P1. set (s1 := complete i c order s) in *. clearbody s1.
  pose proof (ih_job _ _ _ H1) as Hj. rewrite Hj. pose proof (jo_kind _ _ _ _ (iv_job _ _ I1 _ _ Hj)) as Hk. pose proof (pv_job _ _ P1 _ _ Hj) as [A B C D E].
  assert (Nd : forall k l, sc_jobs s1 !! k = Some l -> jb_waiting l = true -> k ∉ jb_dependents j).
  { intros k l Hl Hw Hin. assert (Ho2 : k ∈ order) by (rewrite Ho; now apply elem_of_elements). pose proof (N k l Ho2 Hl). congruence. }
  destruct (jb_runAgain j && negb (sc_closing s1)) eqn:Er.
  - destruct (law_total (mergeMaintenanceRequest (jb_request j) (jb_nextRequest j))) as [w Hw]; [now apply kind_merge|]. unfold make_worker. rewrite Hw.
    pose proof (in_hand_upd s1 i j take_next H1 eq_refl) as H2. pose proof (in_hand_upd _ i _ (fun j => restart_job w (jb_set_runAgain false j)) H2 eq_refl) as H3.
    assert (P2 : pinv (Some i) (upd_job i take_next s1)).
    { refine (pinv_upd (Some i) s1 i j take_next P1 Hj eq_refl _ eq_refl _).
      - split; [change (is_checkpoint (mergeMaintenanceRequest (jb_request j) (jb_nextRequest j)) = bool_decide (jb_key j = checkpoint_key)); now rewrite is_checkpoint_merge|exact B|exact C|exact D|]. intros X. now destruct (X eq_refl).
      - intros k l Hl Hwt [X|X]; [now destruct (Nd k l Hl Hwt)|now left]. }
    refine (pinv_requeue _ i _ _ H3). refine (pinv_upd (Some i) _ i (take_next j) (fun j => restart_job w (jb_set_runAgain false j)) P2 (ih_job _ _ _ H2) eq_refl _ eq_refl _); [|intros k l _ _ X; exact X].
    refine (pjob_worker (take_next j) (restart_job w (jb_set_runAgain false (take_next j))) eq_refl eq_refl eq_refl eq_refl eq_refl _ _ (pv_job _ _ P2 _ _ (ih_job _ _ _ H2))); [intros X; now destruct (X eq_refl)|exact (law_new _ _ Hw)].
  - apply (pinv_remove (Some i)); [done| |congruence]. intros Hc j0 Hj0 k l Hl Hw [X|X]; assert (j0 = j) by congruence; subst j0; [now destruct (Nd k l Hl Hw)|].
    rewrite Hc, andb_true_r in Er. rewrite E in Er; [discriminate|]. intros Z. rewrite Z in X. now apply elem_of_empty in X.
Qed.

Lemma pinv_preempted s i j order : sinv s -> pinv (Some i) s -> in_hand s i j -> pinv None (on_preempted factory i order s).
Proof.
  intros I P H. unfold on_preempted. pose proof (in_hand_upd s i j (jb_set_preempted false) H eq_refl) as H1. pose proof (pv_job _ _ P _ _ (ih_job _ _ _ H)) as [A B C D E].
  assert (P1 : pinv (Some i) (upd_job i (jb_set_preempted false) s)). { refine (pinv_upd _ s i j (jb_set_preempted false) P (ih_job _ _ _ H) eq_refl _ eq_refl _); [split; assumption|intros k l _ _ X; exact X]. }
  rewrite (ih_job _ _ _ H1). destruct (law_total (jb_request (jb_set_preempted false j))) as [w Hw]; [apply (iv_job _ _ I _ _ (ih_job _ _ _ H))|]. unfold make_worker. rewrite Hw.
  refine (pinv_requeue _ i _ _ (in_hand_upd _ i _ (restart_job w) H1 eq_refl)). refine (pinv_upd _ _ i _ (restart_job w) P1 (ih_job _ _ _ H1) eq_refl _ eq_refl _); [|intros k l _ _ X; exact X].
  refine (pjob_worker (jb_set_preempted false j) (restart_job w (jb_set_preempted false j)) eq_refl eq_refl eq_refl eq_refl eq_refl (fun _ => eq_refl) _ (pv_job _ _ P1 _ _ (ih_job _ _ _ H1))). exact (law_new _ _ Hw).
Qed.

Lemma pinv_next_phase s i j t : pinv (Some i) s -> in_hand s i j -> (0 < tr_retryAfter t -> jb_key j = checkpoint_key) -> pinv None (on_next_phase i t s).
Proof.
  intros P H Hk. unfold on_next_phase. pose proof (in_hand_upd s i j (jb_set_phase (tr_next t)) H eq_refl) as H1. pose proof (pv_job _ _ P _ _ (ih_job _ _ _ H)) as [A B C D E].
  assert (P1 : pinv (Some i) (upd_job i (jb_set_phase (tr_next t)) s)). { refine (pinv_upd _ s i j (jb_set_phase (tr_next t)) P (ih_job _ _ _ H) eq_refl _ eq_refl _); [split; assumption|intros k l _ _ X; exact X]. }
  set (s1 := upd_job i _ s) in *. clearbody s1. destruct (Z.ltb_spec 0 (tr_retryAfter t)) as [Ht|Ht]; [|exact (pinv_requeue _ i _ P1 H1)].
  set (q := jb_set_sequence (sc_sequence (next_sequence s1)) (jb_set_phase (tr_next t) j)). assert (Ej : sc_jobs (stamp i s1) !! i = Some q) by (unfold stamp; rewrite (upd_put (next_sequence s1) i _ _ (ih_job _ _ _ H1)); apply lookup_insert_eq).
  assert (P2 : pinv (Some i) (stamp i s1)).
  { refine (pinv_upd _ (next_sequence s1) i _ (jb_set_sequence (sc_sequence (next_sequence s1))) _ (ih_job _ _ _ H1) eq_refl _ eq_refl _); [now apply (pinv_frame _ s1)|split; assumption|intros k l _ _ X; exact X]. }
  set (s2 := stamp i s1) in *. clearbody s2. apply (pinv_drop _ i).
  - destruct P2 as [X1 X2 X3 X4]. split; cbn; try assumption.
    + intros k l [Hin|Hin]%elem_of_app Hl; [eauto|]. apply list_elem_of_singleton in Hin. subst k. rewrite Ej in Hl. injection Hl as <-. exact (Hk Ht).
    + intros Hc k l Hl. destruct (X3 Hc k l Hl) as [Y|[Y|[Y|Y]]]; unfold placed; cbn; auto. right. right. left. apply elem_of_app. auto.
  - intros l Hl _. split; [right; right; left; cbn; apply elem_of_app; right; now apply list_elem_of_singleton|]. cbn in Hl. rewrite Ej in Hl. injection Hl as <-. intros Hw. pose proof (ih_waiting _ _ _ H1) as Hw2. change (jb_waiting j = true) in Hw. change (jb_waiting j = false) in Hw2. congruence.
Qed.

(** Admission does not change which jobs wait. *)
Lemma admitted_waiting s rq d s' id s0 j j' i y : sinv s -> admitted Resources new s rq d s' id s0 j j' -> sc_jobs s !! i = Some y -> exists x, sc_jobs s' !! i = Some x /\ jb_waiting x = jb_waiting y.
Proof.
  intros I [(key & priority & rerun & p & Hp & Hk & He & Hor) I0 Hj ->] Hy. destruct (enqueued_awaits _ _ _ _ _ _ He) as (_ & K2 & _).
  assert (Hy0 : sc_jobs s0 !! i = Some y).
  { destruct Hor as [(_ & _ & ->)|(_ & _ & w & _ & C)]; [done|]. destruct (ct_jobs _ _ _ _ _ _ C) as [q ->]. rewrite lookup_insert_ne; [done|]. intros <-. destruct (iv_job _ _ I _ _ Hy). lia. }
  cbn. destruct (decide (id = i)) as [->|Hne]; [exists j'; rewrite lookup_insert_eq; split; [done|congruence]|exists y; rewrite lookup_insert_ne by done; done].
Qed.

Lemma pinv_dependency s i j next d order : sinv s -> pinv (Some i) s -> in_hand s i j -> sc_nextJobID s < two64 - 1 -> kind_ok d -> is_checkpoint d = true -> jb_key j <> checkpoint_key -> pinv None (on_dependency factory i next d order s).
Proof.
  intros I P H Hb Hd Hc Hk. unfold on_dependency. set (f := fun j : job => jb_set_waiting true (jb_set_phase next j)). pose proof (pv_job _ _ P _ _ (ih_job _ _ _ H)) as [A B C D E].
  assert (I1 : sinv (upd_job i f s)) by (apply inv_set_waiting; [done|apply H|done]).
  assert (P1 : pinv (Some i) (upd_job i f s)).
  { rewrite (upd_put s i f j (ih_job _ _ _ H)). apply (pinv_moved (Some i) (Some i) s _ i j (f j) P (ih_job _ _ _ H)). split; cbn; try done.
    - intros Ht. exact (pv_timer _ _ P i j Ht (ih_job _ _ _ H)).
    - intros _. do 4 right. done. }
  assert (Hi : 1 <= i) by apply (iv_job _ _ I _ _ (ih_job _ _ _ H)).
  assert (Hb1 : sc_nextJobID (upd_job i f s) < two64 - 1) by exact Hb. assert (Hy : sc_jobs (upd_job i f s) !! i = Some (f j)) by (rewrite (upd_put s i f j (ih_job _ _ _ H)); apply lookup_insert_eq).
  set (s1 := upd_job i f s) in *. clearbody s1.
  destruct (enqueue factory d i s1) as [s2 r] eqn:En. destruct (enqueue_spec Resources new law_total _ _ _ _ _ I1 Hb1 En) as [(Hn & _)|(_ & id & s0 & l & l' & -> & Ad)]; [done|].
  destruct (pinv_admitted _ _ _ _ _ _ _ _ _ I1 P1 Ad) as [P2 Lk]. apply (pinv_drop _ i); [done|]. intros x Hx Hcl. assert (Hl : linked s2 i) by (apply Lk; [done|lia]). split; [|auto].
  destruct (admitted_waiting _ _ _ _ _ _ _ _ _ _ I1 Ad Hy) as (x' & Hx' & Ew). assert (x' = x) by congruence. subst x'. right. right. right. left. exact Ew.
Qed.

(** ** Every case of the select *)

Lemma worker_run_law w phase r t w' : worker_run Run w phase r t w' -> worker_checkpoints w' = worker_checkpoints w /\
  (worker_checkpoints w = true -> tr_retain t = 0 /\ tr_dependency t = None) /\
  (worker_checkpoints w = false -> tr_retryAfter t = 0 /\ covers maintenanceRecoveryProtocol (tr_retain t) /\ forall d, tr_dependency t = Some d -> is_checkpoint d = true).
Proof.
  intros [x ph r0 t0 x' H|next e ph r0]; cbn.
  - split; [exact (law_stays _ _ _ _ _ H)|]. split; [exact (law_checkpoint _ _ _ _ _ H)|exact (law_other _ _ _ _ _ H)].
  - split; [done|]. split; [done|]. intros _. split; [done|]. split; [intros n Hn; now rewrite Z.testbit_0_l|done].
Qed.

Lemma pinv_done s i j w t order : sinv s -> pinv None s -> sc_nextJobID s < two64 - 1 -> sc_jobs s !! i = Some j -> i ∈ sc_active s -> worker_run Run (jb_worker j) (jb_phase j) (jb_dependencyResult j) t w ->
  order ≡ₚ elements (jb_dependents j) -> pinv None (on_done Resources factory i w t order s).
Proof.
  intros I P Hb Hj Ha Hr Ho. unfold on_done, is_active. rewrite Hj, bool_decide_eq_true_2 by done. fold (checked t (Z.lor (jb_held j) (jb_running j))).
  destruct (checked_ok t (Z.lor (jb_held j) (jb_running j))) as (Hc & Hd & Ht). set (t' := checked _ _) in *. clearbody t'. destruct (worker_run_law _ _ _ _ _ Hr) as (Ew & Lc & Lo).
  pose proof (pv_job _ _ P _ _ Hj) as J. pose proof J as [A B C D E].
  assert (Hkey : jb_key j = checkpoint_key <-> worker_checkpoints (jb_worker j) = true) by (rewrite B; symmetry; apply bool_decide_eq_true).
  assert (Hcov : covers maintenanceRecoveryProtocol (tr_retain t') /\ (jb_key j = checkpoint_key -> tr_retain t' = 0)).
  { destruct Ht as [->|[-> _]]; [|split; [intros n Hn; now rewrite Z.testbit_0_l|done]]. destruct (worker_checkpoints (jb_worker j)) eqn:Ec; [destruct (Lc eq_refl) as [-> _]; split; [intros n Hn; now rewrite Z.testbit_0_l|done]|].
    split; [apply Lo; done|]. intros X. apply Hkey in X. congruence. }
  pose proof (inv_phase_ended Resources s i w (tr_retain t') j I Hj Ha Hc) as I1. pose proof (pinv_phase_ended s i w (tr_retain t') j I P Hj Ha Ew (proj1 Hcov) (proj2 Hcov)) as P1.
  set (j1 := jb_set_held (tr_retain t') (jb_set_running 0 (jb_set_cancel None (jb_set_worker w j)))).
  assert (H1 : in_hand (phase_ended i w (tr_retain t') j s) i j1).
  { destruct (phase_ended_hand Resources s i w (tr_retain t') j I Hj Ha) as [j2 H2]. assert (j2 = j1) as <-; [|done]. pose proof (ih_job _ _ _ H2) as X. cbn in X. rewrite lookup_alter_eq, Hj in X. now injection X as <-. }
  assert (Hb1 : sc_nextJobID (phase_ended i w (tr_retain t') j s) < two64 - 1) by exact Hb. set (s1 := phase_ended i w (tr_retain t') j s) in *. clearbody s1.
  assert (Fin : forall c, sinv (on_finished factory i c order s1) /\ pinv None (on_finished factory i c order s1)).
  { intros c. split; [exact (inv_finished Resources new law_total _ _ _ _ _ I1 H1)|exact (pinv_finished _ _ _ _ _ I1 P1 H1 Ho)]. }
  apply pinv_dispatch; destruct (_ && _ && _).
  - exact (inv_preempted Resources new law_total _ _ _ _ I1 H1).
  - destruct (tr_err t') eqn:Ee; [apply Fin|]. destruct (tr_done t') eqn:Et; [apply Fin|]. destruct (tr_dependency t') as [d|] eqn:Edep; [|exact (inv_next_phase Resources _ _ _ _ I1 H1)].
    exact (inv_dependency Resources new law_total _ _ _ _ _ _ I1 H1 Hb1 (Hd d eq_refl eq_refl)).
  - exact (pinv_preempted _ _ _ _ I1 P1 H1).
  - destruct (tr_err t') eqn:Ee; [apply Fin|]. destruct (tr_done t') eqn:Et; [apply Fin|]. assert (t' = t) as -> by (destruct Ht as [->|[_ X]]; [done|congruence]).
    destruct (tr_dependency t) as [d|] eqn:Edep.
    + destruct (worker_checkpoints (jb_worker j)) eqn:Ec; [destruct (Lc eq_refl); congruence|]. destruct (Lo eq_refl) as (_ & _ & Ld).
      apply (pinv_dependency _ _ j1); auto. change (jb_key j <> checkpoint_key). intros X. apply Hkey in X. congruence.
    + apply (pinv_next_phase _ _ j1 _ P1 H1). intros X. change (jb_key j = checkpoint_key). apply Hkey. destruct (worker_checkpoints (jb_worker j)); [done|]. destruct (Lo eq_refl). lia.
Qed.

Lemma pinv_take hand (s s' : scheduler) i : (hand = None \/ hand = Some i) -> sc_jobs s' = sc_jobs s -> sc_closing s' = sc_closing s -> (forall k, k <> i -> k ∈ sc_pending s -> k ∈ sc_pending s') -> sc_active s' = sc_active s ->
  (forall k, k <> i -> k ∈ sc_timers s -> k ∈ sc_timers s') -> (forall k, k ∈ sc_timers s' -> k ∈ sc_timers s) -> pinv hand s -> pinv (Some i) s'.
Proof.
  intros Hh E1 E2 E3 E4 E5 E6 [P1 P2 P3 P4]. split; rewrite ?E1, ?E2.
  - done.
  - eauto.
  - intros Hc k l Hl. destruct (decide (k = i)) as [->|Hne]; [do 4 right; done|]. destruct (P3 Hc k l Hl) as [X|[X|[X|[X|X]]]]; unfold placed; rewrite ?E4; auto. destruct Hh; congruence.
  - intros Hc k l Hl Hw Hk. destruct (P4 Hc k l Hl Hw) as (a & x & X); [destruct Hh; congruence|]. exists a, x. now rewrite E1.
Qed.

Lemma pinv_cancel s i n : sinv s -> pinv None s -> pinv None (on_cancel i n s).
Proof.
  intros I P. unfold on_cancel. destruct (sc_jobs s !! i) as [j|] eqn:Hj; [|done]. set (j1 := jb_set_nextWaiters _ _). rewrite (upd_put s i (fun _ => j1) j Hj). pose proof (pv_job _ _ P _ _ Hj) as [A B C D E].
  assert (P1 : pinv None (put_job i j1 s)) by (apply (pinv_put _ _ _ j); try done; split; assumption). assert (J1 : sc_jobs (put_job i j1 s) !! i = Some j1) by apply lookup_insert_eq.
  assert (ND : NoDup (sc_pending (put_job i j1 s))) by apply I. assert (Dj : pjob j1) by (split; assumption). clear A B C D E. set (s1 := put_job i j1 s) in *. clearbody s1 j1. destruct (unowned j1) eqn:Eu; [|done]. pose proof Dj as [A B C D E].
  destruct (is_active s1 i); [apply (pinv_upd _ _ _ j1); try done; split; assumption|]. destruct (negb (jb_waiting j1)); [|done].
  unfold unowned in Eu. rewrite !andb_true_iff, !bool_decide_eq_true in Eu. destruct Eu as [[_ X1] X2].
  apply (pinv_remove (Some i)).
  - apply (pinv_take None s1); auto. intros k Hk Hin. cbn. apply remove_first_in; auto.
  - intros _ l Hl k y _ _ [X|X]; cbn in Hl; assert (l = j1) by congruence; subst l; rewrite ?X1, ?X2 in X; now apply elem_of_empty in X.
  - congruence.
Qed.

Lemma pinv_retry s i : sinv s -> pinv None s -> i ∈ sc_timers s -> pinv None (on_retry Resources i s).
Proof.
  intros I P Ht. unfold on_retry. set (s1 := sc_set_timers (remove_first i (sc_timers s)) s). pose proof (inv_timer_gone Resources s i I) as I1. fold s1 in I1.
  assert (P1 : pinv (Some i) s1) by (apply (pinv_take None s); auto; cbn; intros k; rewrite remove_first_in by apply I; tauto).
  change (sc_jobs s1) with (sc_jobs s). destruct (sc_jobs s !! i) as [j|] eqn:Hj; [|apply (pinv_drop _ i P1); intros j Hj2; cbn in Hj2; congruence].
  destruct (iv_place _ _ I i) as [A B C]. unfold is_active. destruct (bool_decide_reflect (i ∈ sc_active s1)) as [Ha|Ha]; [destruct (B Ha); done|]. destruct (jb_waiting j) eqn:Hw; [destruct (C j Hj Hw) as (_ & _ & X); done|]. cbn [negb andb].
  assert (H1 : in_hand s1 i j). { split; [exact Hj| |exact Hw]. split; [|done|]; cbn; [intros Hp; now destruct (A Hp)|]. rewrite remove_first_in by apply I. tauto. }
  apply pinv_dispatch; [exact (requeue_spec Resources _ _ _ I1 H1)|exact (pinv_requeue _ _ _ P1 H1)].
Qed.

Lemma pinv_shutdown s : pinv None s -> pinv None (on_shutdown s).
Proof.
  intros P. unfold on_shutdown. rewrite shutdown_sent.
  assert (El : forall k l', (close_job <$> sc_jobs s) !! k = Some l' -> exists l, sc_jobs s !! k = Some l /\ l' = close_job l) by (intros k l'; rewrite lookup_fmap; destruct (sc_jobs s !! k) as [l|]; cbn; [intros [= <-]; eauto|discriminate]).
  split; cbn; try done.
  - intros k l' (l & Hl & ->)%El. destruct (pv_job _ _ P _ _ Hl) as [A B C D E]. split; assumption.
  - intros k l' Ht (l & Hl & ->)%El. exact (pv_timer _ _ P _ _ Ht Hl).
Qed.

Lemma pinv_submit s rq c s' r : sinv s -> pinv None s -> sc_nextJobID s < two64 - 1 -> on_submit Resources factory rq c s = (s', r) -> pinv None s'.
Proof.
  intros I P Hb. unfold on_submit. destruct (sc_closing s); [now intros [= <- <-]|]. pose proof (inv_enqueue Resources new law_total s rq 0 I Hb) as I1. pose proof (pinv_enqueue s rq 0 I Hb P) as P1.
  destruct (enqueue factory rq 0 s) as [s1 [e|id]]; intros [= <- <-]; cbn in I1, P1; apply pinv_dispatch; try done.
  - apply inv_preempt. destruct c; [now apply inv_register|done].
  - apply pinv_preempt. destruct c; [now apply pinv_register|done].
Qed.

(** ** When nothing runs, nothing could *)

Definition idle_blocked (s : scheduler) : Prop := sc_closing s = false -> sc_active s = ∅ -> forall i, i ∈ sc_pending s -> runnable Resources s i = false.

Lemma idle_dispatch s : idle_blocked (dispatch Resources s).
Proof. intros _ _ i. apply dispatch_exhausts. Qed.

(** A bit that is leased while nothing runs is the recovery protocol, kept by a job. *)
Lemma idle_lease s n : sinv s -> pinv None s -> sc_active s = ∅ -> 0 <= n -> Z.testbit (sc_leased s) n = true -> exists k l, sc_jobs s !! k = Some l /\ Z.testbit (jb_held l) n = true /\ Z.testbit maintenanceRecoveryProtocol n = true.
Proof.
  intros I P Ha Hn H. destruct (iv_leased _ _ I n Hn H) as (k & l & Hl & Hb). exists k, l. split; [done|]. unfold own in Hb. rewrite (jo_idle _ _ _ _ (iv_job _ _ I _ _ Hl)), Z.lor_0_r in Hb by (rewrite Ha; apply not_elem_of_empty).
  split; [done|]. exact (pj_held _ (pv_job _ _ P _ _ Hl) n Hn Hb).
Qed.

Lemma recovery_bit n : 0 <= n -> Z.testbit maintenanceRecoveryProtocol n = true -> n = 2.
Proof. intros Hn H. change maintenanceRecoveryProtocol with (2 ^ 2) in H. rewrite Z.pow2_bits_eqb in H by lia. now apply Z.eqb_eq in H. Qed.

(** A job that cannot run while nothing runs needs the recovery protocol, which
    another job keeps; itself it keeps nothing. *)
Lemma blocked_by s i j : sinv s -> pinv None s -> sc_active s = ∅ -> sc_jobs s !! i = Some j -> runnable Resources s i = false ->
  jb_held j = 0 /\ Z.testbit (needs Resources j) 2 = true /\ exists k l, k <> i /\ sc_jobs s !! k = Some l /\ Z.testbit (jb_held l) 2 = true.
Proof.
  intros I P Ha Hj Hr. unfold runnable in Hr. rewrite Hj in Hr. apply Z.eqb_neq in Hr.
  assert (Hb : Z.testbit (job_need Resources j) 2 = true /\ Z.testbit (sc_leased s) 2 = true).
  { destruct (Z.testbit (job_need Resources j) 2) eqn:E1, (Z.testbit (sc_leased s) 2) eqn:E2; try done; exfalso; apply Hr, apart_land; intros n Hn X Y; destruct (idle_lease s n I P Ha Hn Y) as (_ & _ & _ & _ & Z); apply recovery_bit in Z; subst; congruence. }
  destruct Hb as [Hb1 Hb2]. unfold job_need in Hb1. rewrite Z.ldiff_spec in Hb1. apply andb_true_iff in Hb1 as [Hn Hh]. apply negb_true_iff in Hh.
  destruct (idle_lease s 2 I P Ha) as (k & l & Hl & Hk & _); [lia|done|]. split; [|split; [done|exists k, l; split; [intros ->; congruence|done]]].
  apply Z.bits_inj'. intros n Hn0. rewrite Z.testbit_0_l. destruct (Z.testbit (jb_held j) n) eqn:E; [|done]. pose proof (recovery_bit n Hn0 (pj_held _ (pv_job _ _ P _ _ Hj) n Hn0 E)). subst. congruence.
Qed.

Lemma idle_cancel s i n : sinv s -> pinv None s -> idle_blocked s -> idle_blocked (on_cancel i n s).
Proof.
  intros I P IB Hc Ha k. unfold on_cancel in *. destruct (sc_jobs s !! i) as [j|] eqn:Hj; [|now apply IB]. set (j1 := jb_set_nextWaiters _ _) in *. rewrite (upd_put s i (fun _ => j1) j Hj) in *.
  assert (R1 : forall x, runnable Resources (put_job i j1 s) x = runnable Resources s x).
  { intros x. unfold runnable. cbn. destruct (decide (i = x)) as [<-|Hne]; [rewrite lookup_insert_eq, Hj|rewrite lookup_insert_ne by done]; reflexivity. }
  destruct (unowned j1) eqn:Eu; [|rewrite R1; now apply IB]. destruct (is_active (put_job i j1 s) i) eqn:Eact.
  - exfalso. apply bool_decide_eq_true in Eact. cbn in Eact, Ha. rewrite Ha in Eact. now apply elem_of_empty in Eact.
  - destruct (negb (jb_waiting j1)) eqn:Ew; [|rewrite R1; now apply IB].
    set (s2 := sc_set_pending _ (put_job i j1 s)) in *. assert (J2 : sc_jobs s2 !! i = Some j1) by apply lookup_insert_eq.
    assert (Er : sc_pending (removeJob i s2) = sc_pending s2 /\ sc_active (removeJob i s2) = sc_active s2 /\ sc_leased (removeJob i s2) = Z.ldiff (sc_leased s2) (jb_held j1) /\ sc_closing (removeJob i s2) = sc_closing s2 /\ sc_jobs (removeJob i s2) = delete i (sc_jobs s2))
      by (unfold removeJob; rewrite J2; cbn zeta; destruct (negb _ && _); done).
    destruct Er as (E1 & E2 & E3 & E4 & E5). rewrite E1. rewrite E2 in Ha. rewrite E4 in Hc. change (sc_active s = ∅) in Ha. change (sc_closing s = false) in Hc. change (sc_pending s2) with (remove_first i (sc_pending s)).
    rewrite remove_first_in by apply I. intros [Hin Hne]. apply negb_true_iff in Ew. change (jb_waiting j = false) in Ew.
    assert (H0 : jb_held j = 0).
    { destruct (pv_placed _ _ P Hc i j Hj) as [X|[X|[X|[X|X]]]]; [|rewrite Ha in X; now apply elem_of_empty in X|exact (proj1 (pj_free _ (pv_job _ _ P _ _ Hj) (pv_timer _ _ P _ _ X Hj)))|congruence|discriminate].
      exact (proj1 (blocked_by s i j I P Ha Hj (IB Hc Ha i X))). }
    unfold runnable. rewrite E3, E5. change (jb_held j1) with (jb_held j). change (sc_leased s2) with (sc_leased s). rewrite H0, Z.ldiff_0_r, lookup_delete_ne by congruence. cbn. rewrite lookup_insert_ne by congruence. exact (IB Hc Ha k Hin).
Qed.

(** ** The actor never stalls *)

Lemma no_stall_inv s i j : sinv s -> pinv None s -> idle_blocked s -> sc_closing s = false -> sc_jobs s !! i = Some j -> sc_active s <> ∅ \/ exists k l, k ∈ sc_timers s /\ sc_jobs s !! k = Some l.
Proof.
  intros I P IB Hc Hj. destruct (decide (sc_active s = ∅)) as [Ha|]; [|auto]. right.
  assert (T : forall k l, sc_jobs s !! k = Some l -> (exists k l, k ∈ sc_timers s /\ sc_jobs s !! k = Some l) \/ k ∈ sc_pending s \/ jb_waiting l = true).
  { intros k l Hl. destruct (pv_placed _ _ P Hc k l Hl) as [X|[X|[X|[X|X]]]]; [auto|rewrite Ha in X; now apply elem_of_empty in X|left; eauto|auto|discriminate]. }
  (* a job that waits, waits for a checkpoint, which could run *)
  assert (Wt : forall k l, sc_jobs s !! k = Some l -> jb_waiting l = true -> exists k l, k ∈ sc_timers s /\ sc_jobs s !! k = Some l).
  { intros k l Hl Hw. destruct (pv_linked _ _ P Hc k l Hl Hw) as (a & x & Hx & Hk & _); [discriminate|]. pose proof (pv_job _ _ P _ _ Hx) as Px. destruct (T a x Hx) as [X|[X|X]]; [done| |destruct (pj_free _ Px Hk); congruence].
    destruct (blocked_by s a x I P Ha Hx (IB Hc Ha a X)) as (_ & Hn & _). exfalso. pose proof (pj_worker _ Px) as Hw2. rewrite bool_decide_eq_true_2 in Hw2 by done.
    revert Hn Hw2. unfold needs. generalize (jb_worker x) as w. intros w. induction w as [w|w IH e]; cbn; [|exact IH]. intros Hn Hcw. exact (law_free w _ Hcw 2 ltac:(lia) Hn eq_refl). }
  destruct (T i j Hj) as [X|[X|X]]; [done| |eauto].
  destruct (blocked_by s i j I P Ha Hj (IB Hc Ha i X)) as (_ & _ & k & l & _ & Hl & Hb). destruct (T k l Hl) as [Y|[Y|Y]]; [done| |eauto].
  destruct (blocked_by s k l I P Ha Hl (IB Hc Ha k Y)) as [H0 _]. rewrite H0, Z.testbit_0_l in Hb. discriminate.
Qed.

Local Abbreviation sched_case := (sched_case Resources factory Run).
Local Abbreviation sched_step := (sched_step Resources factory Run).

Lemma progress_step w w' : sched_case w w' -> fine Resources w -> room w -> pinv None (sw_sched w) -> idle_blocked (sw_sched w) -> pinv None (sw_sched w') /\ idle_blocked (sw_sched w').
Proof.
  intros H [I V] [R1 R2] P IB. destruct w as [s issued gone]. cbn in *. assert (Hb : sc_nextJobID s < two64 - 1) by lia.
  assert (Sub : forall rq c s' r, on_submit Resources factory rq c s = (s', r) -> pinv None s' /\ idle_blocked s').
  { intros rq c s' r H0. split; [exact (pinv_submit _ _ _ _ _ I P Hb H0)|]. unfold on_submit in H0. destruct (sc_closing s) eqn:E; [injection H0 as <- _; done|]. destruct (enqueue factory rq 0 s) as [s1 [e|id]]; injection H0 as <- _; apply idle_dispatch. }
  assert (Tick : forall s rq, sinv s -> pinv None s -> sc_nextJobID s < two64 - 1 -> sinv (enqueue factory rq 0 s).1 /\ pinv None (enqueue factory rq 0 s).1 /\ sc_nextJobID (enqueue factory rq 0 s).1 <= sc_nextJobID s + 1).
  { intros s0 rq I0 P0 H0. split; [exact (inv_enqueue Resources new law_total s0 rq 0 I0 H0)|]. split; [exact (pinv_enqueue s0 rq 0 I0 H0 P0)|exact (proj1 (next_enqueue Resources new law_total s0 rq 0 I0 H0))]. }
  destruct H as [rq c s' wid Hc H|rq c s' e H|rq s' r H|c wid Hc Hg|config s' r H|config Hc|config Hc He|i j x t order Hj Ha Hr Ho|i Ht|Ho]; cbn [sw_sched sw_issued sw_gone] in *.
  - exact (Sub _ _ _ _ H).
  - exact (Sub _ _ _ _ H).
  - exact (Sub _ _ _ _ H).
  - split; [now apply pinv_cancel|now apply idle_cancel].
  - unfold on_configure in H. destruct (sc_config s); injection H as <- _; [done|]. split; [now apply (pinv_frame None s)|exact IB].
  - split; [|apply idle_dispatch]. destruct (Tick s periodic_request I P Hb) as (I1 & P1 & _). now apply pinv_dispatch.
  - split; [|apply idle_dispatch]. unfold on_maintenance_tick. set (s1 := if mg_DisableSegmentGC config then s else _).
    assert (T1 : sinv s1 /\ pinv None s1 /\ sc_nextJobID s1 <= sc_nextJobID s + 1) by (unfold s1; destruct (mg_DisableSegmentGC config); [split; [done|split; [done|lia]]|now apply Tick]). clearbody s1. destruct T1 as (I1 & P1 & N1).
    destruct (mg_DisableMappingGC config); [now apply pinv_dispatch|]. destruct (Tick s1 (automatic_request maintenanceMappingGCRequest zeroPolicy) I1 P1) as (I2 & P2 & _); [lia|]. now apply pinv_dispatch.
  - split; [exact (pinv_done _ _ _ _ _ _ I P Hb Hj Ha Hr Ho)|]. unfold on_done, is_active. cbn. rewrite Hj, bool_decide_eq_true_2 by done. apply idle_dispatch.
  - split; [now apply pinv_retry|]. unfold on_retry. cbn [sc_jobs sc_set_timers]. destruct (sc_jobs s !! i); [|exact IB]. destruct (_ && _); [apply idle_dispatch|exact IB].
  - split; [now apply pinv_shutdown|]. intros X. discriminate.
Qed.

Lemma progress_steps n w : nsteps sched_step n started w -> 2 * Z.of_nat n < 4294967292 -> pinv None (sw_sched w) /\ idle_blocked (sw_sched w).
Proof.
  revert w. induction n as [|n IH]; intros w H Hn.
  - inversion H; subst. split; [split; cbn; intros; rewrite lookup_empty in *; discriminate|]. intros _ _ i Hi. now apply elem_of_nil in Hi.
  - apply nsteps_inv_r in H as (w1 & H1 & [_ H2]). destruct (steps_fine Resources new law_total Run n w1 H1) as (F & B1 & B2); [lia|]. destruct (IH w1 H1) as [P IB]; [lia|]. apply (progress_step w1 w H2 F); [split; lia|done|done].
Qed.
End Progress.
