(* ===== verification/GcStability.v ===== *)
(** * How fast segments die

    Models [internal/engine/gc_stability.go]: the history of samples per sealed segment
    and the view that the choice of a compaction uses.  Times are nanoseconds, a missing
    [firstSeen] is [None].  The rate per second is computed in [float64], as IEEE 754
    double precision ([SpecFloat]). *)
From Stdlib Require Import SpecFloat.
From S2P Require Import Prelude Addr Catalog CatalogSpec CatalogRebase GcCandidate.

Definition gcHistoryLimit : nat := 8.

Record gcSample := mkSample { gs_covered : Z; gs_at : Z; gs_liveBytes : Z }.
#[export] Instance gcSample_eq_dec : EqDecision gcSample.
Proof. solve_decision. Defined.

Record gcSegmentHistory := mkHistory { gh_firstSeen : option Z; gh_samples : list gcSample }.
Abbreviation gcStability := (gmap Z gcSegmentHistory).

(** ** Sampling *)

(** The map [live]: a later statistic replaces an earlier one of the same segment. *)
Definition live_map (stats : list SegmentStats) : gmap Z Z := foldl (fun m st => <[sst_SegmentID st := sst_LiveBytes st]> m) ∅ stats.

Definition push_sample (samples : list gcSample) (s : gcSample) : list gcSample :=
  if bool_decide (last samples = Some s) then samples
  else let samples := samples ++ [s] in
       if (gcHistoryLimit <? length samples)%nat then drop (length samples - gcHistoryLimit) samples else samples.

(** The loop body for one sealed segment. *)
Definition sample_segment (m : Manifest) (now : Z) (g : gcStability) (segment : DataSegmentSummary) : gcStability :=
  let history := default (mkHistory None []) (g !! ds_SegmentID segment) in
  let firstSeen := match gh_firstSeen history with Some t => t | None => now end in
  let s := mkSample (mf_StatsCoveredCommitSeq m) now (default 0 (live_map (mf_SegmentStats m) !! ds_SegmentID segment)) in
  <[ds_SegmentID segment := mkHistory (Some firstSeen) (push_sample (gh_samples history) s)]> g.

Definition gc_sample (g : gcStability) (m : Manifest) (now : Z) : gcStability :=
  let g := foldl (sample_segment m now) g (mf_SealedData m) in
  filter (fun '(id, _) => id ∈ map ds_SegmentID (mf_SealedData m)) g.

(** ** Rates *)

Abbreviation float64 := (binary_normalize 53 1024).
Definition f64 (n : Z) : spec_float := float64 n 0 false.
Definition f64_add : spec_float -> spec_float -> spec_float := SFadd 53 1024.
Definition f64_div : spec_float -> spec_float -> spec_float := SFdiv 53 1024.

(** [Duration.Seconds] *)
Definition Seconds (d : Z) : spec_float := f64_add (f64 (Z.quot d 1000000000)) (f64_div (f64 (Z.rem d 1000000000)) (f64 1000000000)).

(** [uint64(math.Ceil(x))] for a finite [x] in range *)
Definition ceil_uint64 (x : spec_float) : Z :=
  match x with
  | S754_finite false m e => if 0 <=? e then Z.pos m * 2 ^ e else (Z.pos m + (2 ^ (- e) - 1)) / 2 ^ (- e)
  | _ => 0
  end.

Definition per_second (death elapsed : Z) : Z :=
  let seconds := Seconds elapsed in
  if SFltb (S754_zero false) seconds && negb (death =? 0) then
    let x := f64_div (f64 death) seconds in
    if SFleb (f64 MaxUint64) x then MaxUint64 else ceil_uint64 x
  else 0.

Definition per_commit (death commitDelta : Z) : Z :=
  if commitDelta =? 0 then death else death / commitDelta + (if death mod commitDelta =? 0 then 0 else 1).

(** ** The view *)

(** The loop, newest pair first; [first] is the turn of the newest pair. *)
Fixpoint view_loop (policy : CompactionPolicy) (first : bool) (newest : list gcSample) (v : gcStabilityView) : gcStabilityView :=
  match newest with
  | current :: ((previous :: _) as rest) =>
      if gs_liveBytes previous <? gs_liveBytes current then v
      else
        let death := gs_liveBytes previous - gs_liveBytes current in
        let perCommit := per_commit death ((gs_covered current - gs_covered previous) mod two64) in
        let perSecond := per_second death (gs_at current - gs_at previous) in
        let v := if first then mkView (sv_Age v) (sv_StableRounds v) death perCommit perSecond else v in
        if (po_MaxDeathBytesPerCommit policy <? perCommit) || (po_MaxDeathBytesPerSecond policy <? perSecond) then v
        else view_loop policy false rest (mkView (sv_Age v) ((sv_StableRounds v + 1) mod two32) (sv_LatestDeathBytes v) (sv_LatestDeathPerCommit v) (sv_LatestDeathBytesPerSec v))
  | _ => v
  end.

Definition gc_view (g : gcStability) (id now : Z) (policy : CompactionPolicy) : option gcStabilityView :=
  match g !! id with
  | None => None
  | Some history =>
      if bool_decide (gh_samples history = []) then None
      else Some (view_loop policy true (reverse (gh_samples history)) (mkView (now - default 0 (gh_firstSeen history)) 0 0 0 0))
  end.

(** * The view of a segment is that of its last samples *)

(** ** The reference *)

Definition lastn {A} (n : nat) (l : list A) : list A := drop (length l - n) l.

(** All samples since the segment was sealed, without repetitions, and the time of the
    first; [None] while it is not sealed. *)
Definition push_all (l : list gcSample) (s : gcSample) : list gcSample := if bool_decide (last l = Some s) then l else l ++ [s].
Definition sample_of (m : Manifest) (now id : Z) : gcSample := mkSample (mf_StatsCoveredCommitSeq m) now (default 0 (live_map (mf_SegmentStats m) !! id)).
Definition sealed_in (m : Manifest) (id : Z) : bool := bool_decide (id ∈ map ds_SegmentID (mf_SealedData m)).
Definition observe (id : Z) (acc : option (Z * list gcSample)) (x : Manifest * Z) : option (Z * list gcSample) :=
  if sealed_in x.1 id then
    match acc with None => Some (x.2, [sample_of x.1 x.2 id]) | Some (t, l) => Some (t, push_all l (sample_of x.1 x.2 id)) end
  else None.

(** A step between two samples: its deaths, or [None] when live bytes grew. *)
Definition deaths (previous current : gcSample) : option (Z * Z * Z) :=
  if gs_liveBytes previous <? gs_liveBytes current then None
  else let death := gs_liveBytes previous - gs_liveBytes current in
       Some (death, per_commit death ((gs_covered current - gs_covered previous) mod two64), per_second death (gs_at current - gs_at previous)).
Definition calm (policy : CompactionPolicy) (d : option (Z * Z * Z)) : bool :=
  match d with Some (_, perCommit, perSecond) => (perCommit <=? po_MaxDeathBytesPerCommit policy) && (perSecond <=? po_MaxDeathBytesPerSecond policy) | None => false end.

(** The steps, newest first. *)
Fixpoint steps_of (newest : list gcSample) : list (option (Z * Z * Z)) :=
  match newest with current :: ((previous :: _) as rest) => deaths previous current :: steps_of rest | _ => [] end.
Fixpoint calm_prefix (policy : CompactionPolicy) (steps : list (option (Z * Z * Z))) : nat :=
  match steps with d :: rest => if calm policy d then S (calm_prefix policy rest) else 0%nat | [] => 0%nat end.

Definition spec_view (policy : CompactionPolicy) (age : Z) (samples : list gcSample) : gcStabilityView :=
  let steps := steps_of (reverse samples) in
  let '(death, perCommit, perSecond) := match steps with Some d :: _ => d | _ => (0, 0, 0) end in
  mkView age (Z.of_nat (calm_prefix policy steps)) death perCommit perSecond.

(** ** Histories *)

Lemma last_lastn {A} n (l : list A) : (0 < n)%nat -> last (lastn n l) = last l.
Proof.
  intros Hn. unfold lastn. destruct (Nat.le_gt_cases (length l) n) as [H|H]; [replace (length l - n)%nat with 0%nat by lia; reflexivity|]. transitivity (last (take (length l - n) l ++ drop (length l - n) l)); [|now rewrite take_drop]. rewrite last_app. destruct (last (drop (length l - n) l)) eqn:E; [reflexivity|]. apply last_None in E. apply (f_equal length) in E. rewrite length_drop in E. cbn in E. lia.
Qed.

Lemma push_lastn l s : push_sample (lastn gcHistoryLimit l) s = lastn gcHistoryLimit (push_all l s).
Proof.
  unfold push_sample, push_all. rewrite last_lastn by (unfold gcHistoryLimit; lia). case_bool_decide; [reflexivity|]. unfold lastn. rewrite !length_app, length_drop. cbn [length]. destruct (Nat.le_gt_cases (length l) gcHistoryLimit) as [H'|H'].
  - replace (length l - gcHistoryLimit)%nat with 0%nat by lia. cbn [drop]. rewrite Nat.sub_0_r. destruct (Nat.ltb_spec gcHistoryLimit (length l + 1)); [reflexivity|]. replace (length l + 1 - gcHistoryLimit)%nat with 0%nat by lia. reflexivity.
  - destruct (Nat.ltb_spec gcHistoryLimit (length l - (length l - gcHistoryLimit) + 1)); [|lia]. replace (length l - (length l - gcHistoryLimit) + 1 - gcHistoryLimit)%nat with 1%nat by lia. replace (length l + 1 - gcHistoryLimit)%nat with (1 + (length l - gcHistoryLimit))%nat by lia. rewrite (drop_app_le (drop (length l - gcHistoryLimit) l)) by (rewrite length_drop; unfold gcHistoryLimit in *; lia). rewrite (drop_app_le l) by (unfold gcHistoryLimit in *; lia). rewrite drop_drop. f_equal. f_equal. lia.
Qed.

Definition history_of (x : Z * list gcSample) : gcSegmentHistory := mkHistory (Some x.1) (lastn gcHistoryLimit x.2).

Lemma sample_fold m now segs : forall g id, NoDup (map ds_SegmentID segs) -> foldl (sample_segment m now) g segs !! id =
  if bool_decide (id ∈ map ds_SegmentID segs) then
    Some (mkHistory (Some (match g !! id with Some h => default now (gh_firstSeen h) | None => now end)) (push_sample (match g !! id with Some h => gh_samples h | None => [] end) (sample_of m now id)))
  else g !! id.
Proof.
  induction segs as [|s segs IH]; intros g id Hn; cbn [foldl map]; [now rewrite bool_decide_eq_false_2 by (intros H; inversion H)|]. cbn [map] in Hn. inversion Hn as [|? ? Hs Hn']; subst. rewrite (IH _ _ Hn'). unfold sample_segment. destruct (decide (id = ds_SegmentID s)) as [->|Hne].
  - rewrite (bool_decide_eq_false_2 _ Hs), (bool_decide_eq_true_2 (ds_SegmentID s ∈ ds_SegmentID s :: map ds_SegmentID segs)) by apply list_elem_of_here. rewrite lookup_insert_eq. destruct (g !! ds_SegmentID s) as [[[t|] l]|]; reflexivity.
  - rewrite lookup_insert_ne by congruence. assert (Hiff : id ∈ ds_SegmentID s :: map ds_SegmentID segs <-> id ∈ map ds_SegmentID segs) by (rewrite elem_of_cons; tauto). destruct (bool_decide_reflect (id ∈ map ds_SegmentID segs)) as [H|H]; [rewrite (bool_decide_eq_true_2 (id ∈ ds_SegmentID s :: map ds_SegmentID segs)) by (apply Hiff; exact H); reflexivity|]. rewrite bool_decide_eq_false_2; [reflexivity|]. now rewrite Hiff.
Qed.

Definition sealed_once (m : Manifest) : Prop := NoDup (map ds_SegmentID (mf_SealedData m)).

Lemma sample_observe m now g acc id : sealed_once m -> g !! id = history_of <$> acc -> gc_sample g m now !! id = history_of <$> observe id acc (m, now).
Proof.
  intros Hn Hg. unfold gc_sample, observe, sealed_in. cbn [fst snd]. destruct (bool_decide_reflect (id ∈ map ds_SegmentID (mf_SealedData m))) as [Hin|Hout].
  - assert (E : foldl (sample_segment m now) g (mf_SealedData m) !! id = history_of <$> match acc with Some (t, l) => Some (t, push_all l (sample_of m now id)) | None => Some (now, [sample_of m now id]) end).
    { rewrite (sample_fold m now _ g id Hn), bool_decide_eq_true_2 by exact Hin. rewrite Hg. destruct acc as [[t l]|]; cbn [fmap option_fmap option_map history_of gh_firstSeen gh_samples fst snd default].
      - f_equal. unfold history_of. cbn [fst snd]. rewrite push_lastn. reflexivity.
      - reflexivity. }
    destruct acc as [[t l]|]; apply map_lookup_filter_Some; rewrite E; cbn; eauto.
  - apply map_lookup_filter_None. right. intros x _. exact Hout.
Qed.

Lemma samples_observe runs : Forall (fun x => sealed_once x.1) runs -> forall g acc id, g !! id = history_of <$> acc -> foldl (fun g x => gc_sample g x.1 x.2) g runs !! id = history_of <$> foldl (observe id) acc runs.
Proof.
  intros H. induction H as [|[m now] runs Hm _ IH]; intros g acc id Hg; [exact Hg|]. cbn [foldl fst snd]. apply IH. now apply sample_observe.
Qed.

(** ** Views *)

Lemma view_loop_spec policy newest : forall first v, 0 <= sv_StableRounds v -> sv_StableRounds v + len newest < two32 ->
  view_loop policy first newest v = mkView (sv_Age v) (sv_StableRounds v + Z.of_nat (calm_prefix policy (steps_of newest)))
    (match first, steps_of newest with true, Some (d, _, _) :: _ => d | _, _ => sv_LatestDeathBytes v end)
    (match first, steps_of newest with true, Some (_, c, _) :: _ => c | _, _ => sv_LatestDeathPerCommit v end)
    (match first, steps_of newest with true, Some (_, _, s) :: _ => s | _, _ => sv_LatestDeathBytesPerSec v end).
Proof.
  induction newest as [|current newest IH]; intros first v H1 H2; [destruct v, first; cbn in *; f_equal; lia|]. destruct newest as [|previous newest]; [destruct v, first; cbn in *; f_equal; lia|]. assert (Hstep : view_loop policy first (current :: previous :: newest) v = match deaths previous current with None => v | Some (d, pc, ps) => let v := if first then mkView (sv_Age v) (sv_StableRounds v) d pc ps else v in if (po_MaxDeathBytesPerCommit policy <? pc) || (po_MaxDeathBytesPerSecond policy <? ps) then v else view_loop policy false (previous :: newest) (mkView (sv_Age v) ((sv_StableRounds v + 1) mod two32) (sv_LatestDeathBytes v) (sv_LatestDeathPerCommit v) (sv_LatestDeathBytesPerSec v)) end).
  { cbn [view_loop]. unfold deaths. destruct (_ <? _); reflexivity. }
  rewrite Hstep. change (steps_of (current :: previous :: newest)) with (deaths previous current :: steps_of (previous :: newest)). cbn [calm_prefix]. clear Hstep. assert (Hl : len (current :: previous :: newest) = len (previous :: newest) + 1) by (unfold len; cbn [length]; lia). rewrite Hl in H2. assert (Hpos : 0 <= len (previous :: newest)) by apply len_nonneg.
  destruct (deaths previous current) as [[[d pc] ps]|]; cbn [calm]; [|cbn; rewrite Z.add_0_r; destruct v, first; reflexivity]. destruct ((po_MaxDeathBytesPerCommit policy <? pc) || (po_MaxDeathBytesPerSecond policy <? ps)) eqn:E.
  - replace ((pc <=? _) && (ps <=? _)) with false by (symmetry; apply andb_false_iff; apply orb_true_iff in E as [E|E]; apply Z.ltb_lt in E; [left|right]; apply Z.leb_gt; lia). cbn. rewrite Z.add_0_r. destruct v, first; reflexivity.
  - apply orb_false_iff in E as [E1 E2]. replace (pc <=? _) with true by (symmetry; apply Z.leb_le; apply Z.ltb_ge in E1; lia). replace (ps <=? _) with true by (symmetry; apply Z.leb_le; apply Z.ltb_ge in E2; lia). cbn [andb]. rewrite IH; [|cbn; destruct first; cbn; apply Z.mod_pos_bound; lia|destruct first; cbn [sv_StableRounds]; rewrite Z.mod_small by lia; lia].
    destruct first; cbn [sv_Age sv_StableRounds sv_LatestDeathBytes sv_LatestDeathPerCommit sv_LatestDeathBytesPerSec]; rewrite Z.mod_small by lia; f_equal; lia.
Qed.

(** After any sequence of samples of catalogs, the view of a segment is that of the
    reference: nothing while the segment is not sealed; otherwise its age since the
    first sample that saw it sealed, the number of newest steps in a row in which no
    live byte was added and the deaths stayed within both limits, and the deaths of
    the newest step, over the last eight distinct samples since it was sealed. *)
Theorem stability_refines runs id now policy : Forall (fun x => sealed_once x.1) runs ->
  gc_view (foldl (fun g x => gc_sample g x.1 x.2) ∅ runs) id now policy =
  match foldl (observe id) None runs with None => None | Some (t, l) => Some (spec_view policy (now - t) (lastn gcHistoryLimit l)) end.
Proof.
  intros H. unfold gc_view. rewrite (samples_observe runs H ∅ None id) by apply lookup_empty. assert (Hne : forall t l, foldl (observe id) None runs = Some (t, l) -> l <> []).
  { clear H. assert (Hg : forall acc, (forall t l, acc = Some (t, l) -> l <> []) -> forall t l, foldl (observe id) acc runs = Some (t, l) -> l <> []); [|apply Hg; discriminate]. induction runs as [|x runs IH]; intros acc Hacc; [exact Hacc|]. cbn [foldl]. apply IH. intros t l. unfold observe. destruct (sealed_in _ _); [|discriminate]. destruct acc as [[t0 l0]|]; intros [= <- <-]; [|discriminate]. unfold push_all. case_bool_decide; [now apply (Hacc t0)|]. intros E. now apply app_nil in E as [_ E]. }
  destruct (foldl (observe id) None runs) as [[t l]|]; [|reflexivity]. specialize (Hne t l eq_refl). cbn [fmap option_fmap option_map history_of gh_samples gh_firstSeen fst snd default]. assert (Hlen : (length (lastn gcHistoryLimit l) <= 8)%nat) by (unfold lastn, gcHistoryLimit; rewrite length_drop; lia). rewrite bool_decide_eq_false_2.
  - f_equal. rewrite view_loop_spec; cbn [sv_StableRounds sv_Age sv_LatestDeathBytes sv_LatestDeathPerCommit sv_LatestDeathBytesPerSec]; [|lia|unfold len; rewrite length_reverse; lia]. unfold spec_view. destruct (steps_of _) as [|[[[d c] s]|] ?]; reflexivity.
  - intros E. pose proof (last_lastn gcHistoryLimit l ltac:(unfold gcHistoryLimit; lia)) as Hl. rewrite E in Hl. symmetry in Hl. cbn in Hl. apply last_None in Hl. contradiction.
Qed.

(** Two samples of a segment whose live bytes fall by 64 in two seconds and 8 commits. *)
Definition dying (covered live : Z) : Manifest := mkManifest 9 demo_uuid demo_limits demo_uuid 3 4 0 [demo_data 1 1] 1 2 [] 0 0 covered (mkPos 3 64) 1 1 1 [] covered [mkStats 1 live 1].

Lemma stability_refines_witness : gc_view (foldl (fun g x => gc_sample g x.1 x.2) ∅ [(dying 10 64, 0); (dying 18 0, 2000000000)]) 1 5000000000 (mkPolicy 0 0 0 10 40 0 0 false) = Some (mkView 5000000000 1 64 8 32).
Proof.
  rewrite (stability_refines [(dying 10 64, 0); (dying 18 0, 2000000000)] 1 5000000000).
  - vm_compute. reflexivity.
  - repeat constructor; cbn; intros H; inversion H.
Defined.
