(* ===== verification/Journals.v ===== *)
(** * The journals of maintenance

    Models [internal/maintstate/state.go] and [internal/mapgcstate/state.go]: the state
    of a retirement and of a mapping rewrite, their encodings, and how the marker file
    is installed, loaded and removed.  Both packages follow one protocol for the file,
    stated over a codec ([JournalCodec]); [CompactionState] uses the same files.  The
    journal directory is the name [JDir]; a name that is not a regular file is not
    modelled. *)
From S2P Require Import Prelude Bytes Addr Crc32 RecordFormat MapSegment Fs FsDisk Catalog CatalogCodec.

(** ** Files *)

Inductive jpath := JDir | JMarker | JTemp.
#[export] Instance jpath_eq_dec : EqDecision jpath.
Proof. solve_decision. Defined.
#[export] Instance jpath_countable : Countable jpath.
Proof. refine (inj_countable' (fun p => match p with JDir => 0%nat | JMarker => 1%nat | JTemp => 2%nat end) (fun n => match n with 0%nat => JDir | 1%nat => JMarker | _ => JTemp end) _). now intros []. Defined.

Abbreviation jio := (io jpath unit).

Class JournalCodec (S : Type) := { jc_Encode : S -> res (list Z); jc_Decode : list Z -> res S; jc_ErrActive : sentinel }.
Class JournalCodecLaws (S : Type) `{!JournalCodec S} := {
  jc_u : S -> Prop;
  jc_roundtrip s src : jc_u s -> jc_Encode s = Ok src -> jc_Decode src = Ok s;
}.

(** A fault hook, [Sync], [Close], and the sync of a directory are points that may
    fail. *)
Definition hit : jio unit := fs_point.
Definition journal_syncDir : jio unit := fs_point.
Definition file_Sync (file : nat) : jio unit := fs_point.
Definition file_Close (file : nat) : jio unit := fs_point.

(** [Mkdir]; a directory that is there already is fine. *)
Definition ensureJournalDir : jio unit := fun o =>
  match fs_create JDir o with
  | (o, Ok _) => journal_syncDir o
  | (o, Err e) => if bool_decide (os_ErrExist ∈ e) then (o, Ok tt) else (o, Err e)
  end.

Definition removeIfRegular (p : jpath) : jio bool :=
  let* found := fs_exists p in
  if negb found then io_ret false
  else run hit ;; run fs_remove p ;; io_ret true.

Section Protocol.
Context {S : Type} `{!JournalCodec S}.

(** [os.OpenFile(temp, O_EXCL)] up to the sync of the directory *)
Definition publish_marker (encoded : list Z) : jio unit :=
  run hit ;;
  let* file := fs_create JTemp in
  run hit ;; run fs_write file 0 encoded ;;
  run hit ;; run file_Sync file ;;
  run hit ;; run file_Close file ;;
  run hit ;; run fs_rename JTemp JMarker ;;
  run hit ;; journal_syncDir.

Definition InstallWithFaultHook (s : S) : jio unit :=
  let* encoded := io_lift (jc_Encode s) in
  run ensureJournalDir ;;
  let* active := fs_exists JMarker in
  if active then io_fail [jc_ErrActive]
  else
    let* removed := removeIfRegular JTemp in
    run (if removed : bool then run hit ;; journal_syncDir else io_ret tt) ;;
    publish_marker encoded.

(** The end of [Load]: the marker, when there is one. *)
Definition read_marker : jio (option S) :=
  let* found := fs_exists JMarker in
  if negb found then io_ret None
  else
    let* file := fs_open JMarker in
    let* data := fs_data file in
    let* s := io_lift (jc_Decode data) in
    io_ret (Some s).

(** *** maintstate: a sync only when something was removed *)

Definition maint_Load : jio (option S) :=
  let* removed := removeIfRegular JTemp in
  run (if removed : bool then run hit ;; journal_syncDir else io_ret tt) ;;
  read_marker.

Definition maint_Remove : jio unit :=
  let* removedFinal := removeIfRegular JMarker in
  let* removedTemp := removeIfRegular JTemp in
  if negb removedFinal && negb removedTemp then io_ret tt
  else run hit ;; journal_syncDir.

(** *** mapgcstate: the directory is always synced *)

(** [maxSize] is the size check before the read. *)
Definition read_bounded (maxSize : Z) (errCorrupt : sentinel) : jio (option S) :=
  let* found := fs_exists JMarker in
  if negb found then io_ret None
  else
    let* file := fs_open JMarker in
    let* size := fs_size file in
    if maxSize <? size then io_fail [errCorrupt]
    else
      let* data := fs_data file in
      let* s := io_lift (jc_Decode data) in
      io_ret (Some s).

Definition mapgc_LoadWithFaultHook (maxSize : Z) (errCorrupt : sentinel) : jio (option S) :=
  let* dir := fs_exists JDir in
  if negb dir then io_ret None
  else
    run removeIfRegular JTemp ;;
    run hit ;; run journal_syncDir ;;
    read_bounded maxSize errCorrupt.

Definition mapgc_Remove : jio unit :=
  let* dir := fs_exists JDir in
  if negb dir then io_ret tt
  else
    run removeIfRegular JMarker ;;
    run removeIfRegular JTemp ;;
    run hit ;; journal_syncDir.
End Protocol.

Definition RecoveryArtifacts : jio bool :=
  let* final := fs_exists JMarker in
  if final then io_ret true else fs_exists JTemp.

(** ** maintstate *)

Definition maint_encodedSize : Z := 128.
Definition maint_version : Z := 2.
Definition maint_magic : list Z := [82; 73; 68; 77; 78; 84; 50; 0].
Definition DataRetire : Z := 1.

Record MaintState := mkMaint
  { mn_Operation : Z; mn_StoreUUID : list Z; mn_LogID : list Z; mn_BaseGeneration : Z; mn_CoveredCommitSeq : Z; mn_ReplayStart : LogPos; mn_Source : DataSegmentSummary }.

(** The conditions on the records of a summary. *)
Definition source_records_ok (s : DataSegmentSummary) : bool :=
  if ds_RecordCount s =? 0 then (ds_ValidEnd s =? Addr.SegmentHeaderSize) && (ds_FirstAddr s =? 0) && (ds_LastAddr s =? 0)
  else VAddr_Valid (ds_FirstAddr s) && VAddr_Valid (ds_LastAddr s) && (SegmentID (ds_FirstAddr s) =? ds_SegmentID s) && (SegmentID (ds_LastAddr s) =? ds_SegmentID s) &&
       (ds_FirstAddr s <=? ds_LastAddr s) && (Offset (ds_LastAddr s) <? ds_ValidEnd s).

Definition maint_validate (s : MaintState) : bool :=
  negb (negb (mn_Operation s =? DataRetire) || all_zero (mn_StoreUUID s) || all_zero (mn_LogID s) || (mn_BaseGeneration s =? 0) || negb (LogPos_Valid (mn_ReplayStart s)) ||
        (ds_SegmentID (mn_Source s) =? 0) || (ds_ValidEnd (mn_Source s) <? Addr.SegmentHeaderSize)) &&
  source_records_ok (mn_Source s).

Definition maint_body (s : MaintState) : list Z :=
  maint_magic ++ put_le 2 maint_version ++ put_le 2 maint_encodedSize ++ put_le 1 (mn_Operation s) ++ zeros 3 ++ mn_StoreUUID s ++ mn_LogID s ++
  put_le 8 (mn_BaseGeneration s) ++ put_le 8 (mn_CoveredCommitSeq s) ++ put_le 8 (LogPos_Uint64 (mn_ReplayStart s)) ++
  put_le 4 (ds_SegmentID (mn_Source s)) ++ put_le 4 (ds_ValidEnd (mn_Source s)) ++ put_le 8 (ds_RecordCount (mn_Source s)) ++
  put_le 8 (ds_FirstAddr (mn_Source s)) ++ put_le 8 (ds_LastAddr (mn_Source s)) ++ zeros 20.

Definition maint_Encode (s : MaintState) : res (list Z) :=
  raise [maintstate_ErrInvalid] when negb (maint_validate s) ;;
  Ok (with_crc (maint_body s)).

Definition maint_Decode (src : list Z) : res MaintState :=
  raise [maintstate_ErrCorrupt] when
    negb (len src =? maint_encodedSize) || negb (magic_is maint_magic src) || negb (u16 8 src =? maint_version) || negb (u16 10 src =? maint_encodedSize) ||
    negb (all_zero (slice 13 16 src)) || negb (all_zero (slice 104 124 src)) || negb (u32 124 src =? Checksum (slice 0 124 src)) ;;
  match ParseLogPos (u64 64 src) with
  | Err _ => Err [maintstate_ErrCorrupt]
  | Ok replay =>
      let s := mkMaint (byte_at 12 src) (slice 16 32 src) (slice 32 48 src) (u64 48 src) (u64 56 src) replay
                 (mkData (u32 72 src) (u32 76 src) (u64 80 src) (u64 88 src) (u64 96 src)) in
      raise [maintstate_ErrCorrupt; maintstate_ErrInvalid] when negb (maint_validate s) ;;
      Ok s
  end.

#[export] Instance maint_codec : JournalCodec MaintState := {| jc_Encode := maint_Encode; jc_Decode := maint_Decode; jc_ErrActive := maintstate_ErrActive |}.

(** ** mapgcstate *)

Definition mapgc_version : Z := 1.
Definition mapgc_headerSize : Z := 96.
Definition mapgc_refSize : Z := 8.
Definition mapgc_checksumSize : Z := 4.
Definition mapgc_maxEncodedSize : Z := 16777216.
Definition mapgc_magic : list Z := [82; 73; 68; 77; 71; 67; 50; 0].

Record MapFileSet := mkMapFiles { mfs_Sealed : list SegmentRef; mfs_Active : Z; mfs_Next : Z; mfs_Root : Z }.
Record MapGcState := mkMapGc { mg_StoreID : list Z; mg_BaseGeneration : Z; mg_SegmentSize : Z; mg_Covered : Z; mg_Old : MapFileSet; mg_New : MapFileSet }.

(** The loop over the sealed segments: are they in order and in range, and does one of
    them hold the root? *)
Fixpoint map_sealed_ok (segmentSize active root previous : Z) (found : bool) (sealed : list SegmentRef) : option bool :=
  match sealed with
  | [] => Some found
  | ref :: rest =>
      if (sr_SegmentID ref =? 0) || (sr_SegmentID ref <=? previous) || (active <=? sr_SegmentID ref) || (sr_ValidEnd ref <? MapSegment.SegmentHeaderSize) ||
         ((segmentSize - MapSegment.SegmentFooterSize) mod two32 <? sr_ValidEnd ref) || negb (sr_ValidEnd ref mod Alignment =? 0) then None
      else map_sealed_ok segmentSize active root (sr_SegmentID ref)
             (found || (negb (root =? 0) && (MapAddr_SegmentID root =? sr_SegmentID ref) && (MapAddr_Offset root <? sr_ValidEnd ref))) rest
  end.

Definition validFileSet (set : MapFileSet) (segmentSize : Z) : bool :=
  if (mfs_Active set =? 0) || (mfs_Active set =? MaxUint32) || negb (mfs_Next set =? (mfs_Active set + 1) mod two32) then false
  else
    match map_sealed_ok segmentSize (mfs_Active set) (mfs_Root set) 0 (mfs_Root set =? 0) (mfs_Sealed set) with
    | None => false
    | Some found =>
        let found := found || (negb (mfs_Root set =? 0) && MapAddr_Valid (mfs_Root set) && (MapAddr_SegmentID (mfs_Root set) =? mfs_Active set) &&
                               (MapAddr_Offset (mfs_Root set) <? (segmentSize - MapSegment.SegmentFooterSize) mod two32)) in
        found && ((mfs_Root set =? 0) || MapAddr_Valid (mfs_Root set))
    end.

(** The ids of the new sealed segments follow each other; the result is the next. *)
Fixpoint consecutive_from (want : Z) (sealed : list SegmentRef) : option Z :=
  match sealed with
  | [] => Some want
  | ref :: rest => if sr_SegmentID ref =? want then consecutive_from ((want + 1) mod two32) rest else None
  end.

Definition mapgc_validate (s : MapGcState) : bool :=
  if all_zero (mg_StoreID s) || (mg_BaseGeneration s =? 0) || (mg_SegmentSize s <? MapSegment.SegmentHeaderSize + DenseNodeSize + MapSegment.SegmentFooterSize) || negb (mg_SegmentSize s mod Alignment =? 0) ||
     negb (validFileSet (mg_Old s) (mg_SegmentSize s)) || negb (validFileSet (mg_New s) (mg_SegmentSize s)) then false
  else
    let first := match mfs_Sealed (mg_New s) with ref :: _ => sr_SegmentID ref | [] => mfs_Active (mg_New s) end in
    if negb (first =? mfs_Next (mg_Old s)) || ((mfs_Root (mg_New s) =? 0) && negb (len (mfs_Sealed (mg_New s)) =? 0)) then false
    else match consecutive_from first (mfs_Sealed (mg_New s)) with Some want => want =? mfs_Active (mg_New s) | None => false end.

Definition encodeSetHeader (set : MapFileSet) : list Z :=
  put_le 4 (mfs_Active set) ++ put_le 4 (mfs_Next set) ++ put_le 8 (mfs_Root set) ++ put_le 4 (len (mfs_Sealed set)).
Definition encode_ref (ref : SegmentRef) : list Z := put_le 4 (sr_SegmentID ref) ++ put_le 4 (sr_ValidEnd ref).

Definition mapgc_total (s : MapGcState) : Z := mapgc_headerSize + (len (mfs_Sealed (mg_Old s)) + len (mfs_Sealed (mg_New s))) * mapgc_refSize + mapgc_checksumSize.

Definition mapgc_header (s : MapGcState) : list Z :=
  mapgc_magic ++ put_le 2 mapgc_version ++ put_le 2 mapgc_headerSize ++ put_le 4 (mapgc_total s) ++ mg_StoreID s ++ put_le 8 (mg_BaseGeneration s) ++ put_le 4 (mg_SegmentSize s) ++ zeros 4 ++ put_le 8 (mg_Covered s) ++
  encodeSetHeader (mg_Old s) ++ encodeSetHeader (mg_New s).
Definition mapgc_body (s : MapGcState) : list Z :=
  mapgc_header s ++ concat (map encode_ref (mfs_Sealed (mg_Old s) ++ mfs_Sealed (mg_New s))).

Definition mapgc_Encode (s : MapGcState) : res (list Z) :=
  raise [mapgcstate_ErrInvalid] when negb (mapgc_validate s) ;;
  let maxRefs := (mapgc_maxEncodedSize - mapgc_headerSize - mapgc_checksumSize) / mapgc_refSize in
  raise [mapgcstate_ErrInvalid] when (maxRefs <? len (mfs_Sealed (mg_Old s))) || (maxRefs - len (mfs_Sealed (mg_Old s)) <? len (mfs_Sealed (mg_New s))) ;;
  Ok (with_crc (mapgc_body s)).

Fixpoint readRefs (count offset : nat) (src : list Z) : list SegmentRef :=
  match count with
  | O => []
  | Datatypes.S count => mkSegmentRef (u32 offset src) (u32 (offset + 4) src) :: readRefs count (offset + 8) src
  end.

Definition decodeSetHeader (at_ : nat) (src : list Z) (sealed : list SegmentRef) : MapFileSet :=
  mkMapFiles sealed (u32 at_ src) (u32 (at_ + 4) src) (u64 (at_ + 8) src).

Definition mapgc_Decode (src : list Z) : res MapGcState :=
  let n := (length src - 4)%nat in
  raise [mapgcstate_ErrCorrupt] when
    (len src <? mapgc_headerSize + mapgc_checksumSize) || (mapgc_maxEncodedSize <? len src) || negb (magic_is mapgc_magic src) ||
    negb (u16 8 src =? mapgc_version) || negb (u16 10 src =? mapgc_headerSize) || negb (u32 12 src =? len src mod two32) || negb (all_zero (slice 44 48 src)) ||
    negb (u32 n src =? Checksum (slice 0 n src)) ;;
  let oldCount := u32 72 src in
  let newCount := u32 92 src in
  raise [mapgcstate_ErrCorrupt] when negb (mapgc_headerSize + oldCount * mapgc_refSize + newCount * mapgc_refSize + mapgc_checksumSize =? len src) ;;
  let old := readRefs (Z.to_nat oldCount) 96 src in
  let new := readRefs (Z.to_nat newCount) (96 + 8 * Z.to_nat oldCount) src in
  let s := mkMapGc (slice 16 32 src) (u64 32 src) (u32 40 src) (u64 48 src) (decodeSetHeader 56 src old) (decodeSetHeader 76 src new) in
  raise [mapgcstate_ErrCorrupt; mapgcstate_ErrInvalid] when negb (mapgc_validate s) ;;
  Ok s.

#[export] Instance mapgc_codec : JournalCodec MapGcState := {| jc_Encode := mapgc_Encode; jc_Decode := mapgc_Decode; jc_ErrActive := mapgcstate_ErrActive |}.

Definition mapgc_Install (s : MapGcState) : jio unit := InstallWithFaultHook s.
Definition mapgc_Load : jio (option MapGcState) := mapgc_LoadWithFaultHook mapgc_maxEncodedSize mapgcstate_ErrCorrupt.

(** ** The codecs read back *)

Record maint_u (s : MaintState) : Prop := mkMaintU {
  mnu_ids : length (mn_StoreUUID s) = 16%nat /\ bytes_ok (mn_StoreUUID s) /\ length (mn_LogID s) = 16%nat /\ bytes_ok (mn_LogID s);
  mnu_seqs : is_u64 (mn_BaseGeneration s) /\ is_u64 (mn_CoveredCommitSeq s) /\ pos_u (mn_ReplayStart s);
  mnu_source : is_u32 (ds_SegmentID (mn_Source s)) /\ is_u32 (ds_ValidEnd (mn_Source s)) /\ is_u64 (ds_RecordCount (mn_Source s)) /\ is_u64 (ds_FirstAddr (mn_Source s)) /\ is_u64 (ds_LastAddr (mn_Source s));
}.

Lemma maint_body_ok s : maint_u s -> length (maint_body s) = 124%nat /\ bytes_ok (maint_body s).
Proof.
  intros [(H1 & H2 & H3 & H4) _ _]. unfold maint_body, maint_magic. split; [unfold zeros; rewrite ?length_app, ?length_put_le, ?length_replicate; cbn [length]; lia|solve_bytes].
Qed.

Lemma maint_decoded s src : maint_u s -> maint_Encode s = Ok src -> maint_Decode src = Ok s.
Proof.
  intros Hu E. unfold maint_Encode in E. destruct (maint_validate s) eqn:Hv; [|discriminate]. cbn [negb] in E. apply Ok_inj in E. subst src. destruct (maint_body_ok s Hu) as [Hbl Hbb].
  destruct (with_crc_spec 124 _ Hbl Hbb) as (Hlen & _ & Ec & Es). destruct Hu as [(U1 & U2 & U3 & U4) (U5 & U6 & Up) (U7 & U8 & U9 & U10 & U11)]. assert (H1 : HasLen (mn_StoreUUID s) 16) by exact U1. assert (H2 : HasLen (mn_LogID s) 16) by exact U3.
  unfold maint_Decode. assert (Ecc : (u32 124 (with_crc (maint_body s)) =? Checksum (slice 0 124 (with_crc (maint_body s)))) = true) by (rewrite Ec, Es; apply Z.eqb_refl). rewrite Ecc. unfold len at 1. rewrite Hlen.
  unfold with_crc, maint_body. rewrite <- !app_assoc, magic_is_app. fields.
  assert (Hop : mn_Operation s = 1 /\ LogPos_Valid (mn_ReplayStart s) = true) by (unfold maint_validate, DataRetire in Hv; bool_norm; auto). destruct Hop as [Hop Hpos]. destruct (pos_roundtrip _ Up Hpos) as [Ep Hp64].
  rewrite !get_put_16, !get_put_32, !get_put_64, Ep, !all_zero_zeros by (assumption || (unfold is_u16, maint_version, maint_encodedSize; lia)). rewrite Hop. cbn [byte_at put_le app nth]. change (1 mod 256) with 1. change (Z.of_nat 128 =? maint_encodedSize) with true. rewrite !Z.eqb_refl. cbn [negb orb].
  replace (mkMaint _ _ _ _ _ _ _) with s by (clear -Hop; destruct s as [? ? ? ? ? ? []]; cbn in *; now subst). now rewrite Hv.
Qed.

#[export] Instance maint_laws : JournalCodecLaws MaintState := {| jc_u := maint_u; jc_roundtrip := maint_decoded |}.

Definition set_u (set : MapFileSet) : Prop := is_u32 (mfs_Active set) /\ is_u32 (mfs_Next set) /\ is_u64 (mfs_Root set) /\ Forall (fun r => is_u32 (sr_SegmentID r) /\ is_u32 (sr_ValidEnd r)) (mfs_Sealed set).
Record mapgc_u (s : MapGcState) : Prop := mkMapGcU {
  mgu_id : length (mg_StoreID s) = 16%nat /\ bytes_ok (mg_StoreID s);
  mgu_fields : is_u64 (mg_BaseGeneration s) /\ is_u32 (mg_SegmentSize s) /\ is_u64 (mg_Covered s);
  mgu_sets : set_u (mg_Old s) /\ set_u (mg_New s);
}.

Lemma refs_read refs : Forall (fun r => is_u32 (sr_SegmentID r) /\ is_u32 (sr_ValidEnd r)) refs -> forall pre post, readRefs (length refs) (length pre) (pre ++ concat (map encode_ref refs) ++ post) = refs.
Proof.
  induction 1 as [|r refs [H1 H2] _ IH]; intros pre post; [reflexivity|]. cbn [length readRefs map concat]. rewrite <- app_assoc. assert (Hs : HasLen pre (length pre)) by reflexivity. f_equal.
  - unfold encode_ref, u32. rewrite <- !app_assoc. rewrite (slice_skip pre (length pre) _ (length pre)), (slice_skip pre (length pre) _ (length pre + 4)) by (assumption || (apply Nat.leb_le; lia)). replace (length pre - length pre)%nat with 0%nat by lia. replace (length pre + 4 - length pre)%nat with 4%nat by lia. replace (length pre + 4 + 4 - length pre)%nat with 8%nat by lia. fields. rewrite !get_put_32 by assumption. now destruct r.
  - assert (Hl : length (encode_ref r) = 8%nat) by (unfold encode_ref; now rewrite length_app, !length_put_le). specialize (IH (pre ++ encode_ref r) post). rewrite length_app, Hl in IH. now rewrite <- app_assoc in IH.
Qed.

Lemma refs_length refs : length (concat (map encode_ref refs)) = (8 * length refs)%nat.
Proof. induction refs as [|r refs IH]; [reflexivity|]. cbn [map concat length]. rewrite length_app, IH. unfold encode_ref. rewrite length_app, !length_put_le. lia. Qed.

Lemma mapgc_header_ok s : mapgc_u s -> length (mapgc_header s) = 96%nat /\ bytes_ok (mapgc_header s).
Proof. intros [(H1 & H2) _ _]. unfold mapgc_header, encodeSetHeader, mapgc_magic. split; [unfold zeros; rewrite ?length_app, ?length_put_le, ?length_replicate; cbn [length]; lia|solve_bytes]. Qed.

Lemma mapgc_body_ok s : mapgc_u s -> length (mapgc_body s) = (96 + 8 * (length (mfs_Sealed (mg_Old s)) + length (mfs_Sealed (mg_New s))))%nat /\ bytes_ok (mapgc_body s).
Proof.
  intros Hu. destruct (mapgc_header_ok s Hu) as [Hl Hb]. unfold mapgc_body. rewrite length_app, refs_length, length_app, Hl. split; [lia|]. apply bytes_ok_app. split; [exact Hb|]. apply concat_bytes. intros r. unfold encode_ref. apply bytes_ok_app. split; apply put_le_bytes.
Qed.

(** The fields of the header. *)
Lemma mapgc_header_fields s post : mapgc_u s -> len (mfs_Sealed (mg_Old s)) < two32 -> len (mfs_Sealed (mg_New s)) < two32 -> let src := mapgc_header s ++ post in
  magic_is mapgc_magic src = true /\ u16 8 src = mapgc_version /\ u16 10 src = mapgc_headerSize /\ u32 12 src = mapgc_total s mod two32 /\ all_zero (slice 44 48 src) = true /\
  slice 16 32 src = mg_StoreID s /\ u64 32 src = mg_BaseGeneration s /\ u32 40 src = mg_SegmentSize s /\ u64 48 src = mg_Covered s /\
  u32 72 src = len (mfs_Sealed (mg_Old s)) /\ u32 92 src = len (mfs_Sealed (mg_New s)) /\
  (forall refs, decodeSetHeader 56 src refs = mkMapFiles refs (mfs_Active (mg_Old s)) (mfs_Next (mg_Old s)) (mfs_Root (mg_Old s))) /\
  (forall refs, decodeSetHeader 76 src refs = mkMapFiles refs (mfs_Active (mg_New s)) (mfs_Next (mg_New s)) (mfs_Root (mg_New s))).
Proof.
  intros [[U1 U2] (U3 & U4 & U5) [(O1 & O2 & O3 & _) (N1 & N2 & N3 & _)]] L1 L2 src. pose proof (len_nonneg (mfs_Sealed (mg_Old s))). pose proof (len_nonneg (mfs_Sealed (mg_New s))). assert (Hs : HasLen (mg_StoreID s) 16) by exact U1.
  assert (Hu1 : is_u32 (len (mfs_Sealed (mg_Old s)))) by (unfold is_u32; lia). assert (Hu2 : is_u32 (len (mfs_Sealed (mg_New s)))) by (unfold is_u32; lia).
  subst src. unfold decodeSetHeader, mapgc_header, encodeSetHeader. rewrite <- !app_assoc, magic_is_app. fields. rewrite !all_zero_zeros, !get_put_16, !get_put_64 by (assumption || (unfold is_u16, mapgc_version, mapgc_headerSize; lia)). rewrite (get_put_le 4 (mapgc_total s)). rewrite !get_put_32 by assumption. repeat (split; [reflexivity|]). split; reflexivity.
Qed.

Lemma mapgc_decoded s src : mapgc_u s -> mapgc_Encode s = Ok src -> mapgc_Decode src = Ok s /\ len src <= mapgc_maxEncodedSize.
Proof.
  intros Hu E. unfold mapgc_Encode in E. destruct (mapgc_validate s) eqn:Hv; [|discriminate]. cbn [negb] in E. destruct (_ || _) eqn:Hm in E; [discriminate|]. apply Ok_inj in E. change ((mapgc_maxEncodedSize - mapgc_headerSize - mapgc_checksumSize) / mapgc_refSize) with 2097139 in Hm. bool_norm.
  pose proof (len_nonneg (mfs_Sealed (mg_Old s))) as N1. pose proof (len_nonneg (mfs_Sealed (mg_New s))) as N2. destruct (mapgc_body_ok s Hu) as [Hbl Hbb]. destruct (with_crc_spec _ _ Hbl Hbb) as (Hlen & _ & Ec & Es). destruct (mapgc_header_ok s Hu) as [Hhl _].
  destruct (mapgc_header_fields s (concat (map encode_ref (mfs_Sealed (mg_Old s) ++ mfs_Sealed (mg_New s))) ++ put_le 4 (Checksum (mapgc_body s))) Hu ltac:(lia) ltac:(lia)) as (F1 & F2 & F3 & F4 & F5 & F6 & F7 & F8 & F9 & F10 & F11 & F12 & F13).
  assert (Esrc : src = mapgc_header s ++ concat (map encode_ref (mfs_Sealed (mg_Old s) ++ mfs_Sealed (mg_New s))) ++ put_le 4 (Checksum (mapgc_body s))) by (rewrite <- E; unfold with_crc, mapgc_body; now rewrite <- app_assoc). rewrite <- Esrc in *.
  assert (Hln : len src = mapgc_total s) by (rewrite <- E; unfold len at 1; rewrite Hlen; unfold mapgc_total, mapgc_headerSize, mapgc_refSize, mapgc_checksumSize, len; lia). assert (Hmax : 100 <= mapgc_total s <= mapgc_maxEncodedSize) by (unfold mapgc_total, mapgc_headerSize, mapgc_refSize, mapgc_checksumSize, mapgc_maxEncodedSize; lia). split; [|lia].
  unfold mapgc_Decode. replace (length src - 4)%nat with (96 + 8 * (length (mfs_Sealed (mg_Old s)) + length (mfs_Sealed (mg_New s))))%nat by (rewrite <- E, Hlen; lia). replace (u32 (96 + _) src =? _) with true by (symmetry; rewrite <- E, Ec, Es; apply Z.eqb_refl). rewrite F1, F2, F3, F4, F5, F6, F7, F8, F9, F10, F11, F12, F13, Hln, !Z.eqb_refl. change (mapgc_headerSize + mapgc_checksumSize) with 100. replace (mapgc_total s <? 100) with false by (symmetry; apply Z.ltb_ge; lia). replace (_ <? mapgc_total s) with false by (symmetry; apply Z.ltb_ge; lia). cbn [negb orb].
  replace (_ =? mapgc_total s) with true by (symmetry; apply Z.eqb_eq; unfold mapgc_total; lia). cbn [negb]. unfold len. rewrite !Nat2Z.id.
  destruct (mgu_sets _ Hu) as [(_ & _ & _ & R1) (_ & _ & _ & R2)]. rewrite map_app, concat_app in Esrc.
  assert (Q1 : readRefs (length (mfs_Sealed (mg_Old s))) 96 src = mfs_Sealed (mg_Old s)) by (rewrite Esrc, <- Hhl, <- app_assoc; apply refs_read, R1).
  assert (Q2 : readRefs (length (mfs_Sealed (mg_New s))) (96 + 8 * length (mfs_Sealed (mg_Old s))) src = mfs_Sealed (mg_New s)) by (rewrite Esrc, <- Hhl, <- refs_length, <- length_app, <- app_assoc, app_assoc; apply refs_read, R2).
  rewrite Q1, Q2. replace (mkMapGc _ _ _ _ _ _) with s by (destruct s as [? ? ? ? [] []]; reflexivity). now rewrite Hv.
Qed.

#[export] Instance mapgc_laws : JournalCodecLaws MapGcState := {| jc_u := mapgc_u; jc_roundtrip := fun s src Hu E => proj1 (mapgc_decoded s src Hu E) |}.

(** ** The marker file *)

Abbreviation any := (fun _ : unit => True).

(** The directory is there. *)
Definition with_dir (d : gmap jpath (list Z)) : gmap jpath (list Z) := match d !! JDir with Some _ => d | None => <[JDir := []]> d end.

Lemma with_dir_keeps d p : p <> JDir -> with_dir d !! p = d !! p.
Proof. intros Hp. unfold with_dir. destruct (d !! JDir); [reflexivity|]. now rewrite lookup_insert_ne. Qed.

(** A marker is in its directory. *)
Definition in_dir (d : gmap jpath (list Z)) : Prop := is_Some (d !! JMarker) -> is_Some (d !! JDir).

Lemma with_dir_in d : in_dir d -> in_dir (with_dir d) /\ is_Some (with_dir d !! JDir).
Proof. intros H. unfold in_dir, with_dir. destruct (d !! JDir) eqn:E; [rewrite E; auto|]. rewrite lookup_insert_eq. split; eauto. Qed.

Section Files.
Context (must : Prop) (allowed : option (list Z) -> Prop).

(** States in which the marker is one of the allowed ones. *)
Definition marker_in (d : gmap jpath (list Z)) (u : unit -> Prop) : Prop := allowed (d !! JMarker) /\ in_dir d.
Definition stopped_marker (o : os jpath unit) : Prop := exists d, at_disk d any o /\ allowed (d !! JMarker) /\ in_dir d.

Lemma stopped_marker_in d u o : marker_in d u -> at_disk d u o -> stopped_marker o.
Proof. intros Hd [H1 H2 _]. exists d. split; [now constructor|exact Hd]. Qed.

Abbreviation jtriple := (triple must).
Abbreviation ok d := (marker_in d any).

Lemma dir_ensured d : ok d -> jtriple (at_disk d any) ensureJournalDir (fun _ => at_disk (with_dir d) any) stopped_marker.
Proof.
  intros Hd o Ho. unfold ensureJournalDir, with_dir. destruct (d !! JDir) as [x|] eqn:Ex.
  - unfold fs_create. destruct (next_fault_spec o) as (f & E & Hf). rewrite E. assert (H1 : at_disk d any (refault o (tail (os_faults o)))) by now apply at_disk_faults. rewrite (disk_exists d any _ JDir H1), Ex. destruct f as [k|]; cbn [fst snd]; (split; [cbn; intros ->; reflexivity|]); [|exact H1]. split; [exists d; auto|intros _; apply Hf; discriminate].
  - pose proof (disk_create must d any JDir Ex o Ho) as Hc. assert (Hd' : ok (<[JDir := []]> d)) by (split; [rewrite lookup_insert_ne by discriminate; apply Hd|intros _; rewrite lookup_insert_eq; eauto]). destruct (fs_create JDir o) as [o1 [f|e]] eqn:Ec; cbn [fst snd] in Hc; destruct Hc as [Hc1 Hc2].
    + destruct Hc2 as [Hc2 _]. pose proof (disk_point must (<[JDir := []]> d) any o1 Hc2) as Hp. unfold journal_syncDir. destruct (fs_point o1) as [o2 [y|e]]; cbn [fst snd] in *; destruct Hp as [P1 P2]; (split; [auto|]); [exact P2|]. destruct P2 as [P2 P3]. split; [exists (<[JDir := []]> d); split; [exact P2|exact Hd']|]. intros Hm E. apply (P3 Hm). auto.
    + destruct Hc2 as [Hc2 Hc3]. destruct (bool_decide_reflect (os_ErrExist ∈ e)) as [Hin|Hin]; cbn [fst snd]; (split; [exact Hc1|]); [|split; [exists d; auto|exact Hc3]]. exfalso. unfold fs_create in Ec. destruct (next_fault_spec o) as (f & E & _). rewrite E in Ec. rewrite (disk_exists d any _ JDir (at_disk_faults _ _ _ _ Ho)), Ex in Ec. destruct f; cbn in Ec; [|discriminate]. injection Ec as <- <-. apply list_elem_of_singleton in Hin. discriminate.
Qed.

Lemma file_removed p d : ok d -> ok (delete p d) -> jtriple (at_disk d any) (removeIfRegular p) (fun b o => at_disk (delete p d) any o /\ b = bool_decide (is_Some (d !! p))) stopped_marker.
Proof.
  intros H1 H2. unfold removeIfRegular. apply (step_test must marker_in stopped_marker stopped_marker_in d any H1). destruct (bool_decide_reflect (is_Some (d !! p))) as [Hp|Hp]; cbn [negb].
  - apply (step_point must marker_in stopped_marker stopped_marker_in d any H1). apply (step_remove must marker_in stopped_marker stopped_marker_in d any H1 _ p (delete p d) _ Hp eq_refl H2). apply triple_ret. auto.
  - apply triple_ret. intros o Ho. split; [|reflexivity]. assert (Hn : d !! p = None) by (destruct (d !! p); [exfalso; apply Hp; eauto|reflexivity]). now rewrite delete_id.
Qed.

Lemma synced d (b : bool) : ok d -> jtriple (at_disk d any) (if b then run hit ;; journal_syncDir else io_ret tt) (fun _ => at_disk d any) stopped_marker.
Proof.
  intros H. destruct b; [|now apply triple_ret]. apply (step_point must marker_in stopped_marker stopped_marker_in d any H). apply (last_step must marker_in stopped_marker stopped_marker_in d any H).
Qed.

Lemma temp_ok d x : ok d -> ok (<[JTemp := x]> d) /\ ok (delete JTemp d).
Proof. intros [H1 H2]. unfold marker_in, in_dir in *. rewrite !lookup_insert_ne, !lookup_delete_ne by discriminate. auto. Qed.

Lemma marker_ok d e : allowed (Some e) -> is_Some (d !! JDir) -> ok (<[JMarker := e]> d).
Proof. intros He Hd. split; [now rewrite lookup_insert_eq|]. intros _. now rewrite lookup_insert_ne. Qed.

(** Writing the temporary file and renaming it, whatever points lie between. *)
Lemma marker_published e d : d !! JTemp = None -> is_Some (d !! JDir) -> ok d -> allowed (Some e) -> jtriple (at_disk d any) (publish_marker e) (fun _ => at_disk (<[JMarker := e]> d) any) stopped_marker.
Proof.
  intros Ht Hdir Ha He. unfold publish_marker. assert (Hk : forall x, ok (<[JTemp := x]> d)) by (intros x; now apply temp_ok). pose proof (marker_ok d e He Hdir) as Hn.
  apply (step_point must marker_in stopped_marker stopped_marker_in d any Ha). apply (step_create must marker_in stopped_marker stopped_marker_in d any Ha _ JTemp _ _ Ht eq_refl). intros f.
  assert (Hl : <[JTemp := []]> d !! JTemp = Some []) by apply lookup_insert_eq. apply (step_point_owns must marker_in stopped_marker stopped_marker_in _ any (Hk _)).
  apply (step_write must marker_in stopped_marker stopped_marker_in _ any _ JTemp f [] 0 e (<[JTemp := e]> d)); [exact Hl|now rewrite splice_fresh, insert_insert_eq|intros n; rewrite insert_insert_eq; apply Hk|].
  do 5 apply (step_point_owns must marker_in stopped_marker stopped_marker_in _ any (Hk _)). apply step_forget.
  apply (step_rename must marker_in stopped_marker stopped_marker_in _ any (Hk _) _ JTemp JMarker e (<[JMarker := e]> d)); [apply lookup_insert_eq|now rewrite delete_insert_id|exact Hn|].
  apply (step_point must marker_in stopped_marker stopped_marker_in _ any Hn). apply (last_step must marker_in stopped_marker stopped_marker_in _ any Hn).
Qed.

Lemma remove_marker_ok d : allowed None -> ok (delete JMarker d).
Proof. intros H. split; [now rewrite lookup_delete_eq|]. unfold in_dir. rewrite lookup_delete_eq. intros [? ?]. discriminate. Qed.
End Files.

(** *** Installing, loading and removing *)

Section Journal.
Context {S : Type} `{!JournalCodec S} (must : Prop).

Lemma installed s e d : jc_Encode s = Ok e -> d !! JMarker = None ->
  triple must (at_disk d any) (InstallWithFaultHook s) (fun _ => at_disk (<[JMarker := e]> (delete JTemp (with_dir d))) any) (stopped_marker (fun m => m = None \/ m = Some e)).
Proof.
  intros E Hm. set (allowed := fun m => m = None \/ m = Some e). assert (Ha : marker_in allowed d any) by (split; [left; exact Hm|unfold in_dir; rewrite Hm; intros [? ?]; discriminate]). unfold InstallWithFaultHook. apply (step_lift must _ _ _ _ e); [exact E|].
  eapply step_seq; [now apply dir_ensured|]. intros ?. pose proof (with_dir_keeps d JMarker ltac:(discriminate)) as Hk. destruct (with_dir_in d (proj2 Ha)) as [Hd1 Hd2]. assert (Ha' : marker_in allowed (with_dir d) any) by (split; [rewrite Hk; left; exact Hm|exact Hd1]).
  apply (step_test must (marker_in allowed) (stopped_marker allowed) (stopped_marker_in allowed) _ any Ha'). rewrite Hk, Hm, bool_decide_eq_false_2 by (intros [? ?]; discriminate). destruct (temp_ok allowed _ [] Ha') as [_ Ht]. eapply step_seq; [now apply file_removed|]. intros removed.
  eapply step_seq; [eapply triple_from; [|now apply (synced must allowed (delete JTemp (with_dir d)))]; tauto|]. intros ?. apply marker_published; [apply lookup_delete_eq|now rewrite lookup_delete_ne|exact Ht|now right].
Qed.

Context `{!JournalCodecLaws S}.

(** What a marker says. *)
Definition marker_state (m : option (list Z)) (x : option S) : Prop := match m with None => x = None | Some e => exists s, jc_u s /\ jc_Encode s = Ok e /\ x = Some s end.

Lemma marker_read d x : marker_state (d !! JMarker) x -> in_dir d -> triple must (at_disk d any) read_marker (fun r o => at_disk d any o /\ r = x) (stopped_marker (fun m => m = d !! JMarker)).
Proof.
  intros Hx Hd. assert (Ha : marker_in (fun m => m = d !! JMarker) d any) by (split; auto). unfold read_marker. apply (step_test must _ _ (stopped_marker_in _) _ any Ha). unfold marker_state in Hx. destruct (d !! JMarker) as [e|] eqn:Em.
  - destruct Hx as (s & Hu & Es & ->). apply (jc_roundtrip _ _ Hu) in Es. rewrite bool_decide_eq_true_2 by eauto. cbn [negb]. apply (step_open must _ _ (stopped_marker_in _) _ any Ha _ JMarker e _ Em). intros f. apply (step_data must _ _ (stopped_marker_in _) _ any Ha _ JMarker f e _ Em). apply (step_lift must _ _ _ _ s _ Es). apply triple_ret. tauto.
  - subst x. rewrite bool_decide_eq_false_2 by (intros [? ?]; discriminate). cbn [negb]. apply triple_ret. auto.
Qed.

Lemma maint_loaded d x : marker_state (d !! JMarker) x -> in_dir d -> triple must (at_disk d any) maint_Load (fun r o => at_disk (delete JTemp d) any o /\ r = x) (stopped_marker (fun m => m = d !! JMarker)).
Proof.
  intros Hx Hd. assert (Ha : marker_in (fun m => m = d !! JMarker) d any) by (split; auto). destruct (temp_ok _ d [] Ha) as [_ Ht]. unfold maint_Load. eapply step_seq; [now apply file_removed|]. intros removed. eapply step_seq; [eapply triple_from; [|now apply (synced must _ (delete JTemp d))]; tauto|]. intros ?.
  assert (Ek : delete JTemp d !! JMarker = d !! JMarker) by now rewrite lookup_delete_ne. eapply triple_weaken; [apply (marker_read (delete JTemp d) x); [now rewrite Ek|apply Ht]|auto..]. now rewrite Ek.
Qed.

Lemma maint_removed d : in_dir d -> triple must (at_disk d any) maint_Remove (fun _ => at_disk (delete JTemp (delete JMarker d)) any) (stopped_marker (fun m => m = d !! JMarker \/ m = None)).
Proof.
  intros Hd. set (allowed := fun m => m = d !! JMarker \/ m = None). assert (Ha : marker_in allowed d any) by (split; [now left|exact Hd]). pose proof (remove_marker_ok allowed d ltac:(now right)) as Hr. destruct (temp_ok allowed _ [] Hr) as [_ Ht].
  unfold maint_Remove. eapply step_seq; [now apply (file_removed must allowed)|]. intros b1. eapply step_seq; [eapply triple_from; [|now apply (file_removed must allowed JTemp (delete JMarker d))]; tauto|]. intros b2.
  destruct (negb b1 && negb b2); [apply triple_ret; tauto|]. eapply triple_from; [|apply (synced must allowed _ true Ht)]. tauto.
Qed.

(** [mapgcstate] checks the size of the file first. *)
Lemma mapgc_loaded maxSize errCorrupt d x : (forall s e, jc_u s -> jc_Encode s = Ok e -> len e <= maxSize) -> marker_state (d !! JMarker) x -> in_dir d ->
  triple must (at_disk d any) (mapgc_LoadWithFaultHook maxSize errCorrupt) (fun r o => (exists d', at_disk d' any o /\ d' !! JMarker = d !! JMarker) /\ r = x) (stopped_marker (fun m => m = d !! JMarker)).
Proof.
  intros Hsize Hx Hd. assert (Ha : marker_in (fun m => m = d !! JMarker) d any) by (split; auto). destruct (temp_ok _ d [] Ha) as [_ Ht]. unfold mapgc_LoadWithFaultHook. apply (step_test must _ _ (stopped_marker_in _) _ any Ha). destruct (bool_decide_reflect (is_Some (d !! JDir))) as [Hdir|Hdir]; cbn [negb].
  - eapply step_seq; [now apply file_removed|]. intros b. eapply triple_from; [intros o [Ho _]; exact Ho|]. apply (step_point must _ _ (stopped_marker_in _) _ any Ht). apply (step_point must _ _ (stopped_marker_in _) _ any Ht). unfold read_bounded. apply (step_test must _ _ (stopped_marker_in _) _ any Ht).
    assert (Ek : delete JTemp d !! JMarker = d !! JMarker) by now rewrite lookup_delete_ne. rewrite Ek. unfold marker_state in Hx. destruct (d !! JMarker) as [e|] eqn:Em.
    + destruct Hx as (s & Hu & Es & ->). rewrite bool_decide_eq_true_2 by eauto. cbn [negb]. apply (step_open must _ _ (stopped_marker_in _) _ any Ht _ JMarker e _ Ek). intros f.
      apply (triple_bind must _ _ _ (fun n o => (at_disk (delete JTemp d) any o /\ owns o JMarker f) /\ n = len e)); [intros o [Ho Hf]; cbn; split; [auto|]; split; [auto|]; rewrite (disk_owns _ _ _ _ _ Ho Hf) in Ek; congruence|]. intros n. apply triple_pre. intros o [Ho ->].
      replace (maxSize <? len e) with false by (symmetry; apply Z.ltb_ge; eauto). apply (triple_from must _ _ (fun o => at_disk (delete JTemp d) any o /\ owns o JMarker f)); [intros o' <-; exact Ho|]. apply (step_data must _ _ (stopped_marker_in _) _ any Ht _ JMarker f e _ Ek). apply (step_lift must _ _ _ _ s _ (jc_roundtrip _ _ Hu Es)). apply triple_ret. intros o' [Ho' _]. split; [|reflexivity]. exists (delete JTemp d). auto.
    + subst x. rewrite bool_decide_eq_false_2 by (intros [? ?]; discriminate). cbn [negb]. apply triple_ret. intros o Ho. split; [|reflexivity]. exists (delete JTemp d). auto.
  - apply triple_ret. intros o Ho. unfold marker_state in Hx. destruct (d !! JMarker) as [e|] eqn:Em; [exfalso; apply Hdir, Hd; rewrite Em; eauto|]. split; [exists d; auto|now symmetry].
Qed.

Lemma mapgc_removed d : in_dir d -> triple must (at_disk d any) mapgc_Remove (fun _ o => exists d', at_disk d' any o /\ d' !! JMarker = None) (stopped_marker (fun m => m = d !! JMarker \/ m = None)).
Proof.
  intros Hd. set (allowed := fun m => m = d !! JMarker \/ m = None). assert (Ha : marker_in allowed d any) by (split; [now left|exact Hd]). pose proof (remove_marker_ok allowed d ltac:(now right)) as Hr. destruct (temp_ok allowed _ [] Hr) as [_ Ht].
  unfold mapgc_Remove. apply (step_test must _ _ (stopped_marker_in allowed) _ any Ha). destruct (bool_decide_reflect (is_Some (d !! JDir))) as [Hdir|Hdir]; cbn [negb].
  - eapply step_seq; [now apply (file_removed must allowed)|]. intros b1. eapply step_seq; [eapply triple_from; [|now apply (file_removed must allowed JTemp (delete JMarker d))]; tauto|]. intros b2.
    eapply triple_from; [intros o [Ho _]; exact Ho|]. eapply triple_weaken; [apply (synced must allowed _ true Ht)|auto..]. intros ? o Ho. eexists. split; [exact Ho|]. now rewrite lookup_delete_ne, lookup_delete_eq.
  - apply triple_ret. intros o Ho. exists d. split; [exact Ho|]. destruct (d !! JMarker) eqn:Em; [exfalso; apply Hdir, Hd; rewrite Em; eauto|reflexivity].
Qed.
End Journal.

(** The packages as instances of one interface: installing leaves no marker or the
    whole one, loading keeps it and answers what it says, removing removes it, whatever
    fails on the way. *)
Class JournalFiles (S : Type) := { jf_Install : S -> jio unit; jf_Load : jio (option S); jf_Remove : jio unit }.
Class JournalFilesLaws (S : Type) `{!JournalCodec S, !JournalCodecLaws S, !JournalFiles S} := {
  jf_installed must s e d : jc_Encode s = Ok e -> d !! JMarker = None -> triple must (at_disk d any) (jf_Install s) (fun _ o => exists d', at_disk d' any o /\ d' !! JMarker = Some e /\ in_dir d') (stopped_marker (fun m => m = None \/ m = Some e));
  jf_loaded must d x : marker_state (d !! JMarker) x -> in_dir d -> triple must (at_disk d any) jf_Load (fun r o => (exists d', at_disk d' any o /\ d' !! JMarker = d !! JMarker) /\ r = x) (stopped_marker (fun m => m = d !! JMarker));
  jf_removed must d : in_dir d -> triple must (at_disk d any) jf_Remove (fun _ o => exists d', at_disk d' any o /\ d' !! JMarker = None) (stopped_marker (fun m => m = d !! JMarker \/ m = None));
}.

#[export] Instance maint_files : JournalFiles MaintState := {| jf_Install := InstallWithFaultHook; jf_Load := maint_Load; jf_Remove := maint_Remove |}.
#[export] Instance mapgc_files : JournalFiles MapGcState := {| jf_Install := mapgc_Install; jf_Load := mapgc_Load; jf_Remove := mapgc_Remove |}.

Lemma hooked_installed {S} `{!JournalCodec S} must (s : S) e d : jc_Encode s = Ok e -> d !! JMarker = None -> triple must (at_disk d any) (InstallWithFaultHook s) (fun _ o => exists d', at_disk d' any o /\ d' !! JMarker = Some e /\ in_dir d') (stopped_marker (fun m => m = None \/ m = Some e)).
Proof.
  intros E Hm. eapply triple_weaken; [exact (installed must s e d E Hm)|auto..]. intros ? o Ho. eexists. split; [exact Ho|]. rewrite lookup_insert_eq. split; [reflexivity|]. intros _. rewrite lookup_insert_ne, lookup_delete_ne by discriminate. apply with_dir_in. unfold in_dir. rewrite Hm. intros [? ?]. discriminate.
Qed.

#[export] Instance maint_files_laws : JournalFilesLaws MaintState.
Proof.
  split.
  - exact hooked_installed.
  - intros must d x Hx Hd. eapply triple_weaken; [exact (maint_loaded must d x Hx Hd)|auto..]. intros r o [Ho ->]. split; [|reflexivity]. exists (delete JTemp d). split; [exact Ho|now rewrite lookup_delete_ne].
  - intros must d Hd. eapply triple_weaken; [exact (maint_removed must d Hd)|auto..]. intros ? o Ho. eexists. split; [exact Ho|]. now rewrite lookup_delete_ne, lookup_delete_eq.
Qed.

#[export] Instance mapgc_files_laws : JournalFilesLaws MapGcState.
Proof.
  split.
  - exact hooked_installed.
  - intros must d x Hx Hd. refine (mapgc_loaded (S := MapGcState) must _ _ d x _ Hx Hd). intros s e Hu E. exact (proj2 (mapgc_decoded s e Hu E)).
  - intros must d Hd. now apply mapgc_removed.
Qed.

(** The marker on the disk. *)
Definition marker_of (o : os jpath unit) : option (list Z) := disk o !! JMarker.

(** The contract of a journal, of the three operations of a package themselves: from a
    directory without a marker, an installation that is interrupted at any call, or
    fails at any call, leaves no marker or the complete one; a successful one leaves it
    complete and one without faults succeeds.  What a later process loads is exactly the
    state that was installed, or nothing, and keeps the marker; removing it leaves it as
    it was or removed, and only a removed one counts as removed. *)
Definition crash_safe {S} (u : S -> Prop) (Encode : S -> res (list Z)) (Install : S -> jio unit) (Load : jio (option S)) (Remove : jio unit) : Prop := forall s e d o,
  u s -> Encode s = Ok e -> d !! JMarker = None -> at_disk d any o ->
  let x := Install s o in
  (marker_of x.1 = None \/ marker_of x.1 = Some e) /\ (is_ok x.2 = true -> marker_of x.1 = Some e) /\ (os_faults o = [] -> is_ok x.2 = true) /\
  forall fs, let later := refault x.1 fs in
    (marker_of (Load later).1 = marker_of x.1 /\ match (Load later).2 with Ok r => r = match marker_of x.1 with Some _ => Some s | None => None end | Err _ => fs <> [] end) /\
    (let y := Remove later in (marker_of y.1 = marker_of x.1 \/ marker_of y.1 = None) /\ (is_ok y.2 = true -> marker_of y.1 = None) /\ (fs = [] -> is_ok y.2 = true)).

Lemma files_crash_safe {S} `{!JournalCodec S, !JournalCodecLaws S, !JournalFiles S, !JournalFilesLaws S} : crash_safe jc_u jc_Encode (jf_Install (S := S)) jf_Load jf_Remove.
Proof.
  intros s e d o Hu E Hm Ho x. pose proof (jf_installed True s e d E Hm o Ho) as Hi. fold x in Hi. destruct Hi as [_ Hi].
  assert (Hx : exists d', at_disk d' any x.1 /\ in_dir d' /\ (d' !! JMarker = None \/ d' !! JMarker = Some e) /\ (is_ok x.2 = true -> d' !! JMarker = Some e)).
  { destruct x as [o1 [y|er]]; cbn [fst snd] in *.
    - destruct Hi as (d' & H1 & H2 & H3). exists d'. auto.
    - destruct Hi as [(d' & H1 & H2 & H3) _]. exists d'. split; [exact H1|]. split; [exact H3|]. split; [exact H2|discriminate]. }
  destruct Hx as (d' & Hd' & Hin & Hor & Hok). assert (Em : marker_of x.1 = d' !! JMarker) by (unfold marker_of; now rewrite (ad_disk _ _ _ Hd')). rewrite Em. split; [exact Hor|]. split; [exact Hok|]. split; [intros Hf; destruct (x.2); [reflexivity|]; destruct Hi as [_ Hi]; now specialize (Hi I)|].
  intros fs later. assert (Hl : at_disk d' any later) by now apply at_disk_faults. set (x' := match d' !! JMarker with Some _ => Some s | None => None end). assert (Hst : marker_state (d' !! JMarker) x') by (unfold marker_state, x'; destruct Hor as [->| ->]; eauto). split.
  - pose proof (jf_loaded True d' x' Hst Hin later Hl) as [_ HL]. destruct (jf_Load later) as [o2 [r|er]]; cbn [fst snd] in *.
    + destruct HL as [(d2 & H1 & H2) ->]. unfold marker_of. rewrite (ad_disk _ _ _ H1). auto.
    + destruct HL as [(d2 & H1 & H2 & _) HL]. unfold marker_of. rewrite (ad_disk _ _ _ H1). split; [exact H2|]. exact (HL I).
  - pose proof (jf_removed True d' Hin later Hl) as [_ HR]. cbv zeta. destruct (jf_Remove later) as [o2 [r|er]]; cbn [fst snd is_ok] in *.
    + destruct HR as (d2 & H1 & H2). unfold marker_of. rewrite (ad_disk _ _ _ H1). auto.
    + destruct HR as [(d2 & H1 & H2 & _) HR]. unfold marker_of. rewrite (ad_disk _ _ _ H1). split; [exact H2|]. split; [discriminate|]. intros ->. now specialize (HR I).
Qed.

(** A retirement whose journal is stopped at the rename. *)
Definition demo_retire : MaintState := mkMaint 1 (replicate 16 7) (replicate 16 9) 5 12 (mkPos 3 64) (mkData 2 64 0 0 0).
Definition demo_dir (faults : list fault) : os jpath unit := mkOs ∅ ∅ 0 faults tt.

Lemma demo_dir_at faults : at_disk ∅ any (demo_dir faults).
Proof. constructor; [constructor; cbn [os_names demo_dir]; [intros p q f E|intros p f E]; rewrite lookup_empty in E; discriminate|reflexivity|exact I]. Qed.

Lemma demo_retire_u : maint_u demo_retire.
Proof.
  assert (Hb : forall x, is_u8 x -> bytes_ok (replicate 16 x)) by (intros x Hx; now apply Forall_replicate). constructor; unfold is_u32, is_u64; cbn -[replicate]; [|unfold pos_u, is_u32; cbn; lia|lia].
  split; [reflexivity|]. split; [apply Hb; unfold is_u8; lia|]. split; [reflexivity|apply Hb; unfold is_u8; lia].
Qed.
