(* ===== verification/CompactionState.v ===== *)
(** * The journal of a compaction

    Models [internal/compactionstate/state.go]: the state, its checks, the JSON text
    that [json.Marshal] prints for it, a reader for JSON text, and how the file is
    written, replaced, loaded and removed.  The reader accepts unsigned numbers, [null],
    arrays and objects with plain keys and any white space between them; a member is
    found by its exact key, the last one counts, a missing one is zero, and members that
    are not fields are skipped, as [json.Unmarshal] does for these texts.  Other JSON
    values do not occur in a state and are refused.  An empty slice prints as [null]. *)
From Stdlib Require Import String Ascii.
From S2P Require Import Prelude Bytes Addr Crc32 RecordFormat Fs FsDisk Catalog CatalogSpec CatalogCodec Journals.

(** ** JSON *)

Definition text (s : string) : list Z := map (fun c => Z.of_N (N_of_ascii c)) (list_ascii_of_string s).

Inductive json := JNull | JNumber (n : Z) | JArray (elements : list json) | JObject (members : list (list Z * json)).

Fixpoint digits (fuel : nat) (n : Z) (acc : list Z) : list Z :=
  match fuel with
  | O => acc
  | S fuel => if n <? 10 then 48 + n :: acc else digits fuel (n / 10) (48 + n mod 10 :: acc)
  end.
(** 20 digits are enough for 64 bits. *)
Definition print_number (n : Z) : list Z := digits 20 n [].

Fixpoint join_comma (parts : list (list Z)) : list Z :=
  match parts with
  | [] => []
  | [x] => x
  | x :: rest => x ++ 44 :: join_comma rest
  end.

Fixpoint print_json (v : json) : list Z :=
  match v with
  | JNull => [110; 117; 108; 108]
  | JNumber n => print_number n
  | JArray l => 91 :: join_comma (map print_json l) ++ [93]
  | JObject l => 123 :: join_comma (map (fun m => (34 :: m.1 ++ [34; 58]) ++ print_json m.2) l) ++ [125]
  end.

(** *** Reading *)

Definition is_space (c : Z) : bool := (c =? 32) || (c =? 9) || (c =? 10) || (c =? 13).
Fixpoint skip_space (l : list Z) : list Z := match l with c :: rest => if is_space c then skip_space rest else l | [] => [] end.

Definition is_digit (c : Z) : bool := (48 <=? c) && (c <=? 57).
Fixpoint read_digits (l : list Z) (n : Z) : Z * list Z :=
  match l with c :: rest => if is_digit c then read_digits rest (10 * n + (c - 48)) else (n, l) | [] => (n, []) end.

(** Up to the closing quote; an escape is refused. *)
Fixpoint read_key (l acc : list Z) : option (list Z * list Z) :=
  match l with
  | [] => None
  | c :: rest => if c =? 34 then Some (reverse acc, rest) else if (c =? 92) || (c <? 32) then None else read_key rest (c :: acc)
  end.

(** The byte [c] after white space. *)
Definition expect (c : Z) (l : list Z) : option (list Z) := match skip_space l with x :: rest => if x =? c then Some rest else None | [] => None end.

Definition read_null (l : list Z) : option (json * list Z) := if bool_decide (take 4 l = [110; 117; 108; 108]) then Some (JNull, drop 4 l) else None.

Fixpoint parse_value (fuel : nat) (l : list Z) {struct fuel} : option (json * list Z) :=
  match fuel with
  | O => None
  | S fuel =>
      match skip_space l with
      | [] => None
      | c :: rest =>
          if c =? 91 then match expect 93 rest with Some rest => Some (JArray [], rest) | None => parse_elements fuel rest [] end
          else if c =? 123 then match expect 125 rest with Some rest => Some (JObject [], rest) | None => parse_members fuel rest [] end
          else if c =? 48 then Some (JNumber 0, rest)
          else if is_digit c then let '(n, rest) := read_digits (c :: rest) 0 in Some (JNumber n, rest)
          else read_null (c :: rest)
      end
  end
with parse_elements (fuel : nat) (l : list Z) (acc : list json) {struct fuel} : option (json * list Z) :=
  match fuel with
  | O => None
  | S fuel =>
      match parse_value fuel l with
      | None => None
      | Some (v, rest) =>
          match expect 44 rest with
          | Some rest => parse_elements fuel rest (v :: acc)
          | None => (fun rest => (JArray (reverse (v :: acc)), rest)) <$> expect 93 rest
          end
      end
  end
with parse_members (fuel : nat) (l : list Z) (acc : list (list Z * json)) {struct fuel} : option (json * list Z) :=
  match fuel with
  | O => None
  | S fuel =>
      match expect 34 l ≫= (fun rest => read_key rest []) with
      | None => None
      | Some (key, rest) =>
          match expect 58 rest ≫= parse_value fuel with
          | None => None
          | Some (v, rest) =>
              match expect 44 rest with
              | Some rest => parse_members fuel rest ((key, v) :: acc)
              | None => (fun rest => (JObject (reverse ((key, v) :: acc)), rest)) <$> expect 125 rest
              end
          end
      end
  end.

(** A text holds one value; every turn of the reader takes a byte or is followed by
    one that does, so twice its length is enough fuel. *)
Definition parse_json (l : list Z) : option json :=
  match parse_value (2 * length l + 2) l with
  | Some (v, rest) => if bool_decide (skip_space rest = []) then Some v else None
  | None => None
  end.

(** *** Fields *)

Definition member (key : string) (members : list (list Z * json)) : option json := snd <$> List.find (fun m => bool_decide (m.1 = text key)) (reverse members).

Definition as_uint (limit : Z) (v : option json) : option Z :=
  match v with
  | None | Some JNull => Some 0
  | Some (JNumber n) => if n <? limit then Some n else None
  | _ => None
  end.

Definition as_slice {A} (f : json -> option A) (v : option json) : option (list A) :=
  match v with
  | None | Some JNull => Some []
  | Some (JArray l) => mapM f l
  | _ => None
  end.

(** A [[16]byte]: more elements are dropped, missing ones are zero. *)
Definition as_array16 (v : option json) : option (list Z) :=
  (fun l => take 16 l ++ zeros (16 - length l)) <$> as_slice (fun x => as_uint 256 (Some x)) v.

(** ** The state *)

Definition compaction_maxSize : Z := 1048576.
Definition compaction_magic : list Z := [82; 73; 68; 67; 77; 80; 51; 0].
Definition PhaseReserved : Z := 1.
Definition PhaseOutputsPublished : Z := 2.
Definition PhaseInputsRetired : Z := 3.

Record CompactionJournal := mkCompaction
  { cj_Phase : Z; cj_StoreUUID : list Z; cj_LogID : list Z; cj_BaseGeneration : Z; cj_Inputs : list DataSegmentSummary; cj_OutputIDs : list Z; cj_Outputs : list DataSegmentSummary }.

Definition validSummary (s : DataSegmentSummary) : bool :=
  if (ds_SegmentID s =? 0) || (ds_ValidEnd s <? Addr.SegmentHeaderSize) || negb (Z.land (ds_ValidEnd s) (RecordAlignment - 1) =? 0) then false
  else source_records_ok s.

Fixpoint inputs_ordered (previous : Z) (inputs : list DataSegmentSummary) : bool :=
  match inputs with
  | [] => true
  | s :: rest => validSummary s && negb (ds_SegmentID s <=? previous) && inputs_ordered (ds_SegmentID s) rest
  end.

(** [previous] is the id before, if there is one. *)
Fixpoint output_ids_ok (previous : option Z) (ids : list Z) : bool :=
  match ids with
  | [] => true
  | id :: rest => IsCompactionSegment id && match previous with Some p => id =? (p + 1) mod two32 | None => true end && output_ids_ok (Some id) rest
  end.

Definition outputs_match (ids : list Z) (outputs : list DataSegmentSummary) : bool :=
  forallb (fun x => validSummary x.1 && (ds_SegmentID x.1 =? x.2)) (combine outputs ids).

Definition compaction_valid (s : CompactionJournal) : bool :=
  if (cj_Phase s <? PhaseReserved) || (PhaseInputsRetired <? cj_Phase s) || all_zero (cj_StoreUUID s) || all_zero (cj_LogID s) || (cj_BaseGeneration s =? 0) ||
     (len (cj_Inputs s) =? 0) || negb (len (cj_OutputIDs s) =? len (cj_Inputs s)) || ((cj_Phase s =? PhaseReserved) && negb (len (cj_Outputs s) =? 0)) || (len (cj_OutputIDs s) <? len (cj_Outputs s)) then false
  else inputs_ordered 0 (cj_Inputs s) && output_ids_ok None (cj_OutputIDs s) && outputs_match (cj_OutputIDs s) (cj_Outputs s).

(** *** Its JSON *)

Definition json_slice {A} (f : A -> json) (l : list A) : json := match l with [] => JNull | _ => JArray (map f l) end.
Definition json_summary (s : DataSegmentSummary) : json :=
  JObject [(text "SegmentID", JNumber (ds_SegmentID s)); (text "ValidEnd", JNumber (ds_ValidEnd s)); (text "RecordCount", JNumber (ds_RecordCount s)); (text "FirstAddr", JNumber (ds_FirstAddr s)); (text "LastAddr", JNumber (ds_LastAddr s))].
Definition json_state (s : CompactionJournal) : json :=
  JObject [(text "Phase", JNumber (cj_Phase s)); (text "StoreUUID", JArray (map JNumber (cj_StoreUUID s))); (text "LogID", JArray (map JNumber (cj_LogID s))); (text "BaseGeneration", JNumber (cj_BaseGeneration s));
           (text "Inputs", json_slice json_summary (cj_Inputs s)); (text "OutputIDs", json_slice JNumber (cj_OutputIDs s)); (text "Outputs", json_slice json_summary (cj_Outputs s))].

Definition Marshal (s : CompactionJournal) : list Z := print_json (json_state s).

Definition summary_of (v : json) : option DataSegmentSummary :=
  match v with
  | JNull => Some (mkData 0 0 0 0 0)
  | JObject m =>
      id ← as_uint two32 (member "SegmentID" m); validEnd ← as_uint two32 (member "ValidEnd" m); count ← as_uint two64 (member "RecordCount" m);
      first ← as_uint two64 (member "FirstAddr" m); last ← as_uint two64 (member "LastAddr" m); Some (mkData id validEnd count first last)
  | _ => None
  end.

Definition state_of (v : json) : option CompactionJournal :=
  match v with
  | JNull => Some (mkCompaction 0 (zeros 16) (zeros 16) 0 [] [] [])
  | JObject m =>
      phase ← as_uint 256 (member "Phase" m); store ← as_array16 (member "StoreUUID" m); log ← as_array16 (member "LogID" m); base ← as_uint two64 (member "BaseGeneration" m);
      inputs ← as_slice summary_of (member "Inputs" m); ids ← as_slice (fun x => as_uint two32 (Some x)) (member "OutputIDs" m); outputs ← as_slice summary_of (member "Outputs" m);
      Some (mkCompaction phase store log base inputs ids outputs)
  | _ => None
  end.

Definition Unmarshal (src : list Z) : option CompactionJournal := parse_json src ≫= state_of.

(** ** The file *)

Definition compaction_Encode (s : CompactionJournal) : res (list Z) :=
  raise [compactionstate_ErrInvalid] when negb (compaction_valid s) ;;
  let payload := Marshal s in
  raise [compactionstate_ErrInvalid] when compaction_maxSize - 16 <? len payload ;;
  Ok (compaction_magic ++ put_le 4 (len payload) ++ put_le 4 (Checksum payload) ++ payload).

Definition compaction_Decode (src : list Z) : res CompactionJournal :=
  raise [compactionstate_ErrCorrupt] when
    (len src <? 16) || (compaction_maxSize <? len src) || negb (magic_is compaction_magic src) || negb (u32 8 src =? len src - 16) || negb (u32 12 src =? Checksum (drop 16 src)) ;;
  match Unmarshal (drop 16 src) with
  | None => Err [compactionstate_ErrCorrupt]
  | Some s => raise [compactionstate_ErrCorrupt] when negb (compaction_valid s) ;; Ok s
  end.

#[export] Instance compaction_codec : JournalCodec CompactionJournal := {| jc_Encode := compaction_Encode; jc_Decode := compaction_Decode; jc_ErrActive := os_ErrExist |}.

(** [_ = os.Remove(temp)] *)
Definition ignore_error (c : jio unit) : jio unit := fun o => ((c o).1, Ok tt).

(** [os.MkdirAll] *)
Definition mkdirAll : jio unit := fun o =>
  match fs_create JDir o with
  | (o, Ok _) => (o, Ok tt)
  | (o, Err e) => if bool_decide (os_ErrExist ∈ e) then (o, Ok tt) else (o, Err e)
  end.

Definition compaction_write (s : CompactionJournal) (exclusive : bool) : jio unit :=
  let* encoded := io_lift (compaction_Encode s) in
  run mkdirAll ;;
  let* present := (if exclusive then fs_exists JMarker else io_ret false) in
  if present : bool then io_fail [os_ErrExist]
  else
    run ignore_error (fs_remove JTemp) ;;
    let* file := fs_create JTemp in
    run fs_write file 0 encoded ;;
    run file_Sync file ;; run file_Close file ;;
    run fs_rename JTemp JMarker ;;
    journal_syncDir.

Definition compaction_Install (s : CompactionJournal) : jio unit := compaction_write s true.
Definition compaction_Update (s : CompactionJournal) : jio unit := compaction_write s false.

Definition compaction_Load : jio (option CompactionJournal) :=
  run ignore_error (fs_remove JTemp) ;;
  read_marker.

Definition compaction_Remove : jio unit :=
  run ignore_missing (fs_remove JMarker) ;;
  journal_syncDir.

(** ** JSON reads back *)

(** The values that a state has: numbers of at most 20 digits, keys without quotes. *)
Definition key_ok (k : list Z) : Prop := Forall (fun c => c <> 34 /\ c <> 92 /\ 32 <= c) k.
Inductive printable : json -> Prop :=
| pr_null : printable JNull
| pr_number n : 0 <= n < 10 ^ 20 -> printable (JNumber n)
| pr_array l : Forall printable l -> printable (JArray l)
| pr_object l : Forall (fun m => key_ok m.1 /\ printable m.2) l -> printable (JObject l).

(** The text goes on with something that does not continue a number. *)
Definition ends (rest : list Z) : Prop := match rest with c :: _ => is_digit c = false | [] => True end.

Lemma read_digits_app ds rest : Forall (fun c => is_digit c = true) ds -> ends rest -> forall n, read_digits (ds ++ rest) n = (foldl (fun a c => 10 * a + (c - 48)) n ds, rest).
Proof.
  intros Hd Hr. induction Hd as [|c ds Hc _ IH]; intros n; cbn [app read_digits foldl]; [|now rewrite Hc]. destruct rest as [|c rest]; [reflexivity|]. cbn [read_digits]. cbn in Hr. now rewrite Hr.
Qed.

Lemma digits_value fuel : forall n acc, (0 < fuel)%nat -> 0 <= n < 10 ^ Z.of_nat fuel -> exists d ds, digits fuel n acc = (d :: ds) ++ acc /\ Forall (fun c => is_digit c = true) (d :: ds) /\
  foldl (fun a c => 10 * a + (c - 48)) 0 (d :: ds) = n /\ (d = 48 -> n = 0 /\ ds = []).
Proof.
  induction fuel as [|fuel IH]; intros n acc Hf Hn; [lia|]. cbn [digits]. destruct (Z.ltb_spec n 10) as [Hlt|Hge].
  - exists (48 + n), []. split; [reflexivity|]. split; [constructor; [unfold is_digit; apply andb_true_iff; rewrite !Z.leb_le; lia|constructor]|]. split; [cbn; lia|]. intros E. split; [lia|reflexivity].
  - assert (Hq : 1 <= n / 10) by (apply Z.div_le_lower_bound; lia). assert (Hpow : 10 ^ Z.of_nat (S fuel) = 10 * 10 ^ Z.of_nat fuel) by (rewrite Nat2Z.inj_succ, Z.pow_succ_r by lia; reflexivity). assert (Hfuel : (0 < fuel)%nat) by (destruct fuel; [cbn in Hpow; lia|lia]).
    destruct (IH (n / 10) (48 + n mod 10 :: acc) Hfuel) as (d & ds & -> & Hd & Hv & Hz); [split; [lia|]; apply Z.div_lt_upper_bound; lia|]. pose proof (Z.mod_pos_bound n 10 ltac:(lia)). exists d, (ds ++ [48 + n mod 10]). split; [cbn [app]; now rewrite <- app_assoc|].
    split; [rewrite app_comm_cons; apply Forall_app; split; [exact Hd|]; constructor; [unfold is_digit; apply andb_true_iff; rewrite !Z.leb_le; lia|constructor]|]. split; [rewrite app_comm_cons, foldl_app, Hv; cbn [foldl]; pose proof (Z.div_mod n 10 ltac:(lia)); lia|].
    intros E. destruct (Hz E) as [Hz' _]. lia.
Qed.

Lemma digit_plain c : is_digit c = true -> is_space c = false /\ (c =? 91) = false /\ (c =? 123) = false.
Proof. unfold is_digit, is_space. rewrite andb_true_iff, !Z.leb_le. intros Hc. repeat rewrite orb_false_iff. rewrite !Z.eqb_neq. lia. Qed.

Lemma parse_number fuel n rest : 0 <= n < 10 ^ 20 -> ends rest -> parse_value (S fuel) (print_number n ++ rest) = Some (JNumber n, rest).
Proof.
  intros Hn Hr. unfold print_number. destruct (digits_value 20 n [] ltac:(lia) Hn) as (d & ds & E & Hd & Hv & Hz). rewrite E, app_nil_r. inversion Hd as [|? ? Hd1 Hd2]; subst. destruct (digit_plain d Hd1) as (P1 & P2 & P3). cbn [parse_value app skip_space]. rewrite P1, P2, P3. destruct (Z.eqb_spec d 48) as [E48|N48].
  - destruct (Hz E48) as [Hz1 ->]. rewrite Hz1. reflexivity.
  - rewrite Hd1. change (d :: ds ++ rest) with ((d :: ds) ++ rest). rewrite (read_digits_app _ _ Hd Hr). reflexivity.
Qed.

Lemma expect_here c rest : is_space c = false -> expect c (c :: rest) = Some rest.
Proof. intros H. unfold expect. cbn [skip_space]. now rewrite H, Z.eqb_refl. Qed.

Lemma expect_other c d rest : is_space d = false -> d <> c -> expect c (d :: rest) = None.
Proof. intros H Hd. unfold expect. cbn [skip_space]. rewrite H. now replace (d =? c) with false by (symmetry; now apply Z.eqb_neq). Qed.

Lemma read_key_app k rest : key_ok k -> forall acc, read_key (k ++ 34 :: rest) acc = Some (reverse acc ++ k, rest).
Proof.
  induction 1 as [|c k (H1 & H2 & H3) _ IH]; intros acc; cbn [app read_key]; [now rewrite app_nil_r|]. replace (c =? 34) with false by (symmetry; now apply Z.eqb_neq). replace (c =? 92) with false by (symmetry; now apply Z.eqb_neq). replace (c <? 32) with false by (symmetry; now apply Z.ltb_ge). cbn [orb]. rewrite IH, reverse_cons, <- app_assoc. reflexivity.
Qed.

Lemma print_head v : printable v -> exists c r, print_json v = c :: r /\ is_space c = false /\ c <> 93.
Proof.
  intros H. destruct H as [|n Hn|l _|l _]; cbn [print_json]; [exists 110; eauto| |exists 91; eauto|exists 123; eauto]; [|eexists; split; [reflexivity|]; split; [reflexivity|lia]..].
  destruct (digits_value 20 n [] ltac:(lia) Hn) as (d & ds & E & Hd & _). unfold print_number. rewrite E. inversion Hd as [|? ? Hd1 _]; subst. exists d, (ds ++ []). split; [reflexivity|]. split; [now apply digit_plain|]. unfold is_digit in Hd1. apply andb_true_iff in Hd1 as [_ H2%Z.leb_le]. lia.
Qed.

Definition print_member (m : list Z * json) : list Z := (34 :: m.1 ++ [34; 58]) ++ print_json m.2.

Lemma join_cons x y l : join_comma (x :: y :: l) = x ++ 44 :: join_comma (y :: l).
Proof. reflexivity. Qed.

(** What the reader does with what the printer wrote, by the fuel that is left. *)
Definition reads_back (fuel : nat) : Prop :=
  (forall v rest, printable v -> ends rest -> (2 * length (print_json v) <= fuel)%nat -> parse_value fuel (print_json v ++ rest) = Some (v, rest)) /\
  (forall v l acc rest, printable v -> Forall printable l -> (2 * length (join_comma (map print_json (v :: l))) + 1 <= fuel)%nat ->
     parse_elements fuel (join_comma (map print_json (v :: l)) ++ 93 :: rest) acc = Some (JArray (reverse acc ++ v :: l), rest)) /\
  (forall m l acc rest, key_ok m.1 -> printable m.2 -> Forall (fun m => key_ok m.1 /\ printable m.2) l -> (2 * length (join_comma (map print_member (m :: l))) + 1 <= fuel)%nat ->
     parse_members fuel (join_comma (map print_member (m :: l)) ++ 125 :: rest) acc = Some (JObject (reverse acc ++ m :: l), rest)).

Lemma print_nonempty v : printable v -> (1 <= length (print_json v))%nat.
Proof. intros Hv. destruct (print_head v Hv) as (c & r & -> & _). cbn. lia. Qed.

Lemma reads_value fuel : reads_back fuel -> forall v rest, printable v -> ends rest -> (2 * length (print_json v) <= S fuel)%nat -> parse_value (S fuel) (print_json v ++ rest) = Some (v, rest).
Proof.
  intros (_ & HE & HM) v rest Hv Hr Hf. destruct Hv as [|n Hn|[|v l] Hl|[|m l] Hl].
  - reflexivity.
  - now apply parse_number.
  - reflexivity.
  - inversion Hl as [|? ? Hv Hl']; subst. cbn [print_json] in *. set (text := join_comma (map print_json (v :: l))) in *. assert (Ht : (91 :: text ++ [93]) ++ rest = 91 :: text ++ 93 :: rest) by (cbn [app]; now rewrite <- app_assoc). rewrite Ht. cbn [length] in Hf. rewrite length_app in Hf. cbn [length] in Hf.
    assert (Hhead : expect 93 (text ++ 93 :: rest) = None). { destruct (print_head v Hv) as (c & r & Ec & Hs & Hc). assert (Ex : exists r', text = c :: r') by (unfold text; destruct l; cbn [map join_comma]; rewrite Ec; cbn [app]; eauto). destruct Ex as [r' ->]. cbn [app]. now apply expect_other. }
    cbn [parse_value skip_space]. change (is_space 91) with false. cbn [Z.eqb Pos.eqb]. rewrite Hhead. apply (HE v l [] rest Hv Hl'). fold text. lia.
  - reflexivity.
  - inversion Hl as [|? ? [Hk Hv] Hl']; subst. cbn [print_json] in *. change (fun m => (34 :: m.1 ++ [34; 58]) ++ print_json m.2) with print_member in *. set (text := join_comma (map print_member (m :: l))) in *. assert (Ht : (123 :: text ++ [125]) ++ rest = 123 :: text ++ 125 :: rest) by (cbn [app]; now rewrite <- app_assoc). rewrite Ht. cbn [length] in Hf. rewrite length_app in Hf. cbn [length] in Hf.
    assert (Hhead : expect 125 (text ++ 125 :: rest) = None). { assert (Ex : exists r', text = 34 :: r') by (unfold text; destruct l; cbn [map join_comma]; unfold print_member at 1; cbn [app]; eauto). destruct Ex as [r' ->]. cbn [app]. now apply expect_other. }
    cbn [parse_value skip_space]. change (is_space 123) with false. cbn [Z.eqb Pos.eqb]. rewrite Hhead. apply (HM m l [] rest Hk Hv Hl'). fold text. lia.
Qed.

Lemma reads_elements fuel : reads_back fuel -> forall v l acc rest, printable v -> Forall printable l -> (2 * length (join_comma (map print_json (v :: l))) + 1 <= S fuel)%nat ->
  parse_elements (S fuel) (join_comma (map print_json (v :: l)) ++ 93 :: rest) acc = Some (JArray (reverse acc ++ v :: l), rest).
Proof.
  intros (HV & HE & _) v [|y l] acc rest Hv Hl Hf.
  - cbn [map join_comma] in *. cbn [parse_elements]. rewrite HV by (assumption || reflexivity || lia). rewrite expect_other, expect_here by (reflexivity || lia). cbn [fmap option_fmap option_map]. now rewrite reverse_cons.
  - inversion Hl as [|? ? Hy Hl']; subst. cbn [map] in *. rewrite join_cons, length_app in Hf. cbn [length] in Hf. rewrite join_cons, <- app_assoc. cbn [app]. cbn [parse_elements]. rewrite HV by (assumption || reflexivity || lia). rewrite expect_here by reflexivity.
    rewrite (HE y l (v :: acc) rest Hy Hl') by (cbn [map]; lia). now rewrite reverse_cons, <- app_assoc.
Qed.

Lemma reads_member fuel m rest acc : reads_back fuel -> key_ok m.1 -> printable m.2 -> ends rest -> (2 * length (print_member m) <= S fuel)%nat ->
  parse_members (S fuel) (print_member m ++ rest) acc = match expect 44 rest with Some rest => parse_members fuel rest (m :: acc) | None => (fun rest => (JObject (reverse (m :: acc)), rest)) <$> expect 125 rest end.
Proof.
  intros (HV & _ & _) Hk Hv Hr Hf. destruct m as [k v]. unfold print_member in *. cbn [fst snd] in *. cbn [parse_members]. replace (((34 :: k ++ [34; 58]) ++ print_json v) ++ rest) with (34 :: k ++ 34 :: 58 :: print_json v ++ rest) by (cbn [app]; rewrite <- !app_assoc; reflexivity).
  rewrite expect_here by reflexivity. cbn [mbind option_bind]. rewrite (read_key_app k _ Hk []). cbn [app reverse rev_append]. rewrite expect_here by reflexivity. cbn [mbind option_bind]. rewrite HV; [reflexivity|assumption|assumption|]. rewrite length_app in Hf. cbn [length] in Hf. lia.
Qed.

Lemma reads_all fuel : reads_back fuel.
Proof.
  induction fuel as [|fuel IH].
  - split; [|split].
    + intros v rest Hv _ Hf. pose proof (print_nonempty v Hv). lia.
    + intros. lia.
    + intros. lia.
  - split; [now apply reads_value|]. split; [now apply reads_elements|]. intros m [|y l] acc rest Hk Hv Hl Hf.
    + cbn [map join_comma] in *. rewrite (reads_member fuel m (125 :: rest) acc IH Hk Hv) by (reflexivity || lia). rewrite expect_other, expect_here by (reflexivity || lia). cbn [fmap option_fmap option_map]. now rewrite reverse_cons.
    + inversion Hl as [|? ? [Hy1 Hy2] Hl']; subst. cbn [map] in *. rewrite join_cons, length_app in Hf. cbn [length] in Hf. rewrite join_cons, <- app_assoc. cbn [app]. rewrite (reads_member fuel m _ acc IH Hk Hv) by (reflexivity || lia). rewrite expect_here by reflexivity.
      destruct IH as (_ & _ & HM). pose proof (HM y l (m :: acc) rest Hy1 Hy2 Hl') as HM'. cbn [map] in HM'. rewrite HM' by lia. now rewrite reverse_cons, <- app_assoc.
Qed.

Lemma parse_print v : printable v -> parse_json (print_json v) = Some v.
Proof.
  intros Hv. unfold parse_json. pose proof (proj1 (reads_all (2 * length (print_json v) + 2)) v [] Hv I ltac:(lia)) as H. rewrite app_nil_r in H. rewrite H. reflexivity.
Qed.

(** *** A state reads back *)

Record compaction_u (s : CompactionJournal) : Prop := mkCompactionU {
  cju_phase : is_u8 (cj_Phase s) /\ is_u64 (cj_BaseGeneration s);
  cju_ids : length (cj_StoreUUID s) = 16%nat /\ bytes_ok (cj_StoreUUID s) /\ length (cj_LogID s) = 16%nat /\ bytes_ok (cj_LogID s);
  cju_lists : Forall data_u (cj_Inputs s) /\ Forall is_u32 (cj_OutputIDs s) /\ Forall data_u (cj_Outputs s);
}.

Lemma u64_printable n : is_u64 n -> printable (JNumber n).
Proof. intros H. constructor. unfold is_u64 in H. change (10 ^ 20) with 100000000000000000000. lia. Qed.

Lemma u32_u64 n : is_u32 n -> is_u64 n.
Proof. unfold is_u32, is_u64. lia. Qed.

Lemma text_ok s : forallb (fun c => negb (c =? 34) && negb (c =? 92) && (32 <=? c)) (text s) = true -> key_ok (text s).
Proof. intros H. apply Forall_forall. intros c Hc. rewrite forallb_forall in H. specialize (H c (proj1 (list_elem_of_In _ _) Hc)). bool_norm. auto. Qed.

Lemma summary_printable s : data_u s -> printable (json_summary s).
Proof.
  intros (H1 & H2 & H3 & H4 & H5). constructor. repeat (apply Forall_cons; split; [split; [apply text_ok; reflexivity|cbn [snd]; apply u64_printable; auto using u32_u64]|]). apply Forall_nil_2.
Qed.

Lemma slice_printable {A} (f : A -> json) l : Forall (fun x => printable (f x)) l -> printable (json_slice f l).
Proof. intros H. unfold json_slice. destruct l; constructor. now apply Forall_fmap. Qed.

Lemma state_printable s : compaction_u s -> printable (json_state s).
Proof.
  intros [[H1 H2] (H3 & H4 & H5 & H6) (H7 & H8 & H9)]. assert (Hb : forall l, bytes_ok l -> printable (JArray (map JNumber l))) by (intros l Hl; constructor; apply Forall_fmap; apply (Forall_impl _ _ _ Hl); intros x Hx; apply u64_printable; unfold is_u8, is_u64 in *; lia).
  constructor. apply Forall_cons. split; [split; [apply text_ok; reflexivity|apply u64_printable; unfold is_u8, is_u64 in *; lia]|]. do 2 (apply Forall_cons; split; [split; [apply text_ok; reflexivity|now apply Hb]|]). apply Forall_cons. split; [split; [apply text_ok; reflexivity|now apply u64_printable]|].
  apply Forall_cons. split; [split; [apply text_ok; reflexivity|apply slice_printable; apply (Forall_impl _ _ _ H7); apply summary_printable]|]. apply Forall_cons. split; [split; [apply text_ok; reflexivity|apply slice_printable; apply (Forall_impl _ _ _ H8); intros; now apply u64_printable, u32_u64]|].
  apply Forall_cons. split; [split; [apply text_ok; reflexivity|apply slice_printable; apply (Forall_impl _ _ _ H9); apply summary_printable]|]. apply Forall_nil_2.
Qed.

Lemma as_uint_ok limit n : n < limit -> as_uint limit (Some (JNumber n)) = Some n.
Proof. intros H. cbn. now replace (n <? limit) with true by (symmetry; now apply Z.ltb_lt). Qed.

Lemma mapM_ok {A} (f : A -> json) (g : json -> option A) l : Forall (fun x => g (f x) = Some x) l -> as_slice g (Some (json_slice f l)) = Some l /\ as_slice g (Some (JArray (map f l))) = Some l.
Proof.
  intros H. assert (Hm : mapM g (map f l) = Some l) by (induction H as [|x l Hx _ IH]; [reflexivity|]; cbn; rewrite Hx; cbn; now rewrite IH). split; [|exact Hm]. unfold json_slice. destruct l; [reflexivity|exact Hm].
Qed.

Lemma summary_back s : data_u s -> summary_of (json_summary s) = Some s.
Proof.
  intros (H1 & H2 & H3 & H4 & H5). unfold is_u32, is_u64 in *. unfold summary_of, json_summary.
  change (member "SegmentID" _) with (Some (JNumber (ds_SegmentID s))). change (member "ValidEnd" _) with (Some (JNumber (ds_ValidEnd s))). change (member "RecordCount" _) with (Some (JNumber (ds_RecordCount s))). change (member "FirstAddr" _) with (Some (JNumber (ds_FirstAddr s))). change (member "LastAddr" _) with (Some (JNumber (ds_LastAddr s))).
  rewrite !as_uint_ok by lia. now destruct s.
Qed.

Lemma array16_back l : length l = 16%nat -> bytes_ok l -> as_array16 (Some (JArray (map JNumber l))) = Some l.
Proof.
  intros Hl Hb. unfold as_array16. rewrite (proj2 (mapM_ok JNumber (fun x => as_uint 256 (Some x)) l ltac:(apply (Forall_impl _ _ _ Hb); intros x Hx; apply as_uint_ok; unfold is_u8 in Hx; lia))). cbn. f_equal. rewrite Hl, take_ge by lia. unfold zeros. cbn. apply app_nil_r.
Qed.

Lemma Unmarshal_Marshal s : compaction_u s -> Unmarshal (Marshal s) = Some s.
Proof.
  intros Hu. unfold Unmarshal, Marshal. rewrite (parse_print _ (state_printable s Hu)). cbn [mbind option_bind]. destruct Hu as [[H1 H2] (H3 & H4 & H5 & H6) (H7 & H8 & H9)]. unfold state_of, json_state.
  change (member "Phase" _) with (Some (JNumber (cj_Phase s))). change (member "StoreUUID" _) with (Some (JArray (map JNumber (cj_StoreUUID s)))). change (member "LogID" _) with (Some (JArray (map JNumber (cj_LogID s)))). change (member "BaseGeneration" _) with (Some (JNumber (cj_BaseGeneration s))).
  change (member "Inputs" _) with (Some (json_slice json_summary (cj_Inputs s))). change (member "OutputIDs" _) with (Some (json_slice JNumber (cj_OutputIDs s))). change (member "Outputs" _) with (Some (json_slice json_summary (cj_Outputs s))).
  rewrite !as_uint_ok by (unfold is_u8, is_u64 in *; lia). rewrite !array16_back by assumption. rewrite (proj1 (mapM_ok json_summary summary_of _ (Forall_impl _ _ _ H7 summary_back))), (proj1 (mapM_ok json_summary summary_of _ (Forall_impl _ _ _ H9 summary_back))).
  rewrite (proj1 (mapM_ok JNumber (fun x => as_uint two32 (Some x)) (cj_OutputIDs s) ltac:(apply (Forall_impl _ _ _ H8); intros x Hx; apply as_uint_ok; unfold is_u32 in Hx; lia))). now destruct s.
Qed.

Lemma digit_byte c : is_digit c = true -> is_u8 c.
Proof. unfold is_digit, is_u8. rewrite andb_true_iff, !Z.leb_le. lia. Qed.

Lemma join_bytes l : Forall bytes_ok l -> bytes_ok (join_comma l).
Proof.
  induction 1 as [|x l Hx Hl IH]; [constructor|]. destruct l as [|y l]; [exact Hx|]. rewrite join_cons. apply bytes_ok_app. split; [exact Hx|]. apply bytes_ok_cons. split; [unfold is_u8; lia|exact IH].
Qed.

(** Keys are bytes. *)
Fixpoint byte_keys (v : json) : Prop :=
  match v with
  | JArray l => foldr (fun x p => byte_keys x /\ p) True l
  | JObject l => foldr (fun m p => (bytes_ok m.1 /\ byte_keys m.2) /\ p) True l
  | _ => True
  end.

Lemma print_bytes_fuel n : forall v, (length (print_json v) <= n)%nat -> printable v -> byte_keys v -> bytes_ok (print_json v).
Proof.
  assert (Hpart : forall (x : list Z) l, x ∈ l -> (length x <= length (join_comma l))%nat). { intros x l. induction l as [|y l IH]; intros Hx; [inversion Hx|]. destruct l as [|z l]; [apply list_elem_of_singleton in Hx as ->; cbn; lia|]. rewrite join_cons, length_app. cbn [length]. apply elem_of_cons in Hx as [->|Hx]; [lia|]. specialize (IH Hx). lia. }
  induction n as [|n IH]; intros v Hn Hv Hk; [pose proof (print_nonempty v Hv); lia|]. destruct Hv as [|k Hkn|l Hl|l Hl]; cbn [print_json] in *.
  - repeat (apply Forall_cons; split; [unfold is_u8; lia|]). apply Forall_nil_2.
  - unfold print_number. destruct (digits_value 20 k [] ltac:(lia) Hkn) as (d & ds & -> & Hd & _). rewrite app_nil_r. apply (Forall_impl _ _ _ Hd). apply digit_byte.
  - apply bytes_ok_cons. split; [unfold is_u8; lia|]. apply bytes_ok_app. split; [|apply bytes_ok_cons; split; [unfold is_u8; lia|constructor]]. apply join_bytes, Forall_forall. intros x Hx. apply list_elem_of_fmap in Hx as (v & -> & Hv). rewrite Forall_forall in Hl. apply IH; [|now apply Hl|].
    + pose proof (Hpart (print_json v) (map print_json l) ltac:(apply list_elem_of_fmap; eauto)). cbn [length] in Hn. rewrite length_app in Hn. cbn [length] in Hn. lia.
    + clear -Hk Hv. cbn [byte_keys] in Hk. induction l as [|y l IHl]; [inversion Hv|]. cbn [foldr] in Hk. destruct Hk as [H1 H2]. apply elem_of_cons in Hv as [->|Hv]; [exact H1|now apply IHl].
  - apply bytes_ok_cons. split; [unfold is_u8; lia|]. apply bytes_ok_app. split; [|apply bytes_ok_cons; split; [unfold is_u8; lia|constructor]]. apply join_bytes, Forall_forall. intros x Hx. apply list_elem_of_fmap in Hx as (m & -> & Hm). rewrite Forall_forall in Hl. destruct (Hl m Hm) as [_ Hp].
    assert (Hbm : bytes_ok m.1 /\ byte_keys m.2). { clear -Hk Hm. cbn [byte_keys] in Hk. induction l as [|y l IHl]; [inversion Hm|]. cbn [foldr] in Hk. destruct Hk as [H1 H2]. apply elem_of_cons in Hm as [->|Hm]; [exact H1|now apply IHl]. } destruct Hbm as [Hb1 Hb2].
    apply bytes_ok_app. split; [apply bytes_ok_cons; split; [unfold is_u8; lia|]; apply bytes_ok_app; split; [exact Hb1|]; repeat (apply Forall_cons; split; [unfold is_u8; lia|]); apply Forall_nil_2|]. apply IH; [|exact Hp|exact Hb2].
    pose proof (Hpart (print_member m) (map print_member l) ltac:(apply list_elem_of_fmap; eauto)) as HL. change (map (fun m => (34 :: m.1 ++ [34; 58]) ++ print_json m.2) l) with (map print_member l) in Hn. cbn [length] in Hn. rewrite length_app in Hn. unfold print_member in HL at 1. rewrite length_app in HL. cbn [length] in *. lia.
Qed.

Lemma text_bytes s : bytes_ok (text s).
Proof.
  apply Forall_forall. intros c Hc. apply list_elem_of_fmap in Hc as (a & -> & _). unfold is_u8. pose proof (N_ascii_bounded a). lia.
Qed.

Lemma slice_keys {A} (f : A -> json) l : (forall x, byte_keys (f x)) -> byte_keys (json_slice f l) /\ byte_keys (JArray (map f l)).
Proof. intros H. assert (Ha : byte_keys (JArray (map f l))) by (cbn [byte_keys]; induction l as [|x l IH]; cbn [map foldr]; auto). split; [|exact Ha]. unfold json_slice. destruct l; [exact I|exact Ha]. Qed.

Lemma summary_keys s : byte_keys (json_summary s).
Proof. cbn [json_summary byte_keys foldr fst snd]. auto 20 using text_bytes. Qed.

Lemma Marshal_bytes s : compaction_u s -> bytes_ok (Marshal s).
Proof.
  intros Hu. apply (print_bytes_fuel (length (Marshal s))); [reflexivity|now apply state_printable|]. cbn [json_state byte_keys foldr fst snd]. destruct (slice_keys JNumber (cj_OutputIDs s) (fun _ => I)) as [K1 _]. pose proof (proj1 (slice_keys json_summary (cj_Inputs s) summary_keys)). pose proof (proj1 (slice_keys json_summary (cj_Outputs s) summary_keys)).
  pose proof (proj2 (slice_keys JNumber (cj_StoreUUID s) (fun _ => I))). pose proof (proj2 (slice_keys JNumber (cj_LogID s) (fun _ => I))). cbn [byte_keys] in *. auto 30 using text_bytes.
Qed.

Lemma compaction_decoded s src : compaction_u s -> compaction_Encode s = Ok src -> compaction_Decode src = Ok s.
Proof.
  intros Hu E. unfold compaction_Encode in E. destruct (compaction_valid s) eqn:Hv; [|discriminate]. cbn [negb] in E. destruct (Z.ltb_spec (compaction_maxSize - 16) (len (Marshal s))) as [|Hm]; [discriminate|]. apply Ok_inj in E. subst src. pose proof (Marshal_bytes s Hu) as Hb. pose proof (len_nonneg (Marshal s)) as Hn. unfold compaction_maxSize in *.
  unfold compaction_Decode. rewrite magic_is_app. assert (Hd : drop 16 (compaction_magic ++ put_le 4 (len (Marshal s)) ++ put_le 4 (Checksum (Marshal s)) ++ Marshal s) = Marshal s) by (rewrite !app_assoc; apply drop_app_length'; rewrite !length_app, !length_put_le; reflexivity). rewrite Hd. fields. rewrite !get_put_32 by (first [now apply Checksum_u32|unfold is_u32; lia]).
  rewrite !len_app, !len_put_le. change (len compaction_magic) with 8. replace (_ <? 16) with false by (symmetry; apply Z.ltb_ge; lia). replace (compaction_maxSize <? _) with false by (symmetry; apply Z.ltb_ge; unfold compaction_maxSize; lia). replace (_ =? _ - 16) with true by (symmetry; apply Z.eqb_eq; lia). rewrite Z.eqb_refl. cbn [negb orb]. rewrite (Unmarshal_Marshal s Hu), Hv. reflexivity.
Qed.

#[export] Instance compaction_laws : JournalCodecLaws CompactionJournal := {| jc_u := compaction_u; jc_roundtrip := compaction_decoded |}.

(** ** The file is replaced atomically *)

Section Write.
Context (must : Prop) (allowed : option (list Z) -> Prop).
Abbreviation ok d := (marker_in allowed d any).

Lemma dir_made d : ok d -> triple must (at_disk d any) mkdirAll (fun _ => at_disk (with_dir d) any) (stopped_marker allowed).
Proof.
  intros Hd o Ho. unfold mkdirAll, with_dir, fs_create. destruct (next_fault_spec o) as (f & E & Hf). rewrite E. assert (H1 : at_disk d any (refault o (tail (os_faults o)))) by now apply at_disk_faults. rewrite (disk_exists d any _ JDir H1). destruct f as [k|].
  - rewrite bool_decide_eq_false_2 by (intros H%list_elem_of_singleton; discriminate). cbn [fst snd]. split; [cbn; intros ->; reflexivity|]. split; [exists d; auto|intros _; apply Hf; discriminate].
  - destruct (d !! JDir) as [x|] eqn:Ex.
    + rewrite bool_decide_eq_true_2 by eauto. rewrite bool_decide_eq_true_2 by now apply list_elem_of_singleton. cbn [fst snd]. split; [cbn; intros ->; reflexivity|exact H1].
    + rewrite bool_decide_eq_false_2 by (intros [? ?]; discriminate). cbn [fst snd]. split; [cbn; intros ->; reflexivity|]. pose proof (disk_create must d any JDir Ex (refault (refault o (tail (os_faults o))) []) (at_disk_faults _ _ _ _ H1)) as [_ Hc]. unfold fs_create in Hc. cbn [next_fault refault os_faults] in Hc. rewrite (disk_exists d any _ JDir (at_disk_faults d any (refault o (tail (os_faults o))) [] H1)), Ex in Hc. rewrite bool_decide_eq_false_2 in Hc by (intros [? ?]; discriminate). cbn [snd fst] in Hc. destruct Hc as [Hc _]. exact (at_disk_faults _ _ _ (tail (os_faults o)) Hc).
Qed.

(** Removing the old temporary file, with or without success, and creating it: when
    the removal failed the creation may find it and fail. *)
Lemma fresh_temp {A} d (k : nat -> jio A) Post : ok d -> (forall f, triple must (fun o => at_disk (<[JTemp := []]> d) any o /\ owns o JTemp f) (k f) Post (stopped_marker allowed)) ->
  triple must (at_disk d any) (run ignore_error (fs_remove JTemp) ;; let* f := fs_create JTemp in k f) Post (stopped_marker allowed).
Proof.
  intros Ha Hk o Ho. destruct (temp_ok allowed d [] Ha) as [_ Ht]. assert (Hfresh : forall o1, at_disk (delete JTemp d) any o1 -> let r := (let* f := fs_create JTemp in k f) o1 in
    (os_faults o1 = [] -> os_faults r.1 = []) /\ match r.2 with Ok x => Post x r.1 | Err _ => stopped_marker allowed r.1 /\ (must -> os_faults o1 <> []) end).
  { intros o1 Ho1. exact (step_create must (marker_in allowed) _ (stopped_marker_in allowed) _ any Ht Post JTemp (<[JTemp := []]> d) k (lookup_delete_eq _ _) ltac:(now rewrite insert_delete_eq) Hk o1 Ho1). }
  replace ((run ignore_error (fs_remove JTemp) ;; let* f := fs_create JTemp in k f) o) with ((let* f := fs_create JTemp in k f) (fs_remove JTemp o).1) by reflexivity. pose proof (disk_remove_any must d any JTemp o Ho) as Hr. unfold ignore_missing in Hr. destruct (fs_remove JTemp o) as [o1 [y|e]] eqn:Er; cbn [fst snd] in *.
  - destruct Hr as [R1 R2]. destruct (Hfresh o1 R2) as [F1 F2]. split; [auto|]. destruct ((let* f := fs_create JTemp in k f) o1) as [o2 [z|e]]; cbn [fst snd] in *; [exact F2|]. destruct F2 as [F2 F3]. split; [exact F2|]. intros Hm E. apply (F3 Hm). auto.
  - destruct (bool_decide_reflect (os_ErrNotExist ∈ e)) as [Hin|Hin]; cbn [fst snd] in Hr; destruct Hr as [R1 R2].
    + destruct (Hfresh o1 R2) as [F1 F2]. split; [auto|]. destruct ((let* f := fs_create JTemp in k f) o1) as [o2 [z|e']]; cbn [fst snd] in *; [exact F2|]. destruct F2 as [F2 F3]. split; [exact F2|]. intros Hm E. apply (F3 Hm). auto.
    + destruct R2 as [R2 R3]. assert (Hne : must -> os_faults o <> []) by exact R3. assert (Hmain : let r := (let* f := fs_create JTemp in k f) o1 in (os_faults o1 = [] -> os_faults r.1 = []) /\ match r.2 with Ok x => Post x r.1 | Err _ => stopped_marker allowed r.1 end).
      { destruct R2 as [R2|R2]; [|destruct (Hfresh o1 R2) as [F1 F2]; cbv zeta; split; [exact F1|]; destruct ((let* f := fs_create JTemp in k f) o1) as [o2 [z|e']]; cbn [fst snd] in *; [exact F2|now destruct F2]]. destruct (d !! JTemp) as [x|] eqn:Ex.
        - cbv zeta. unfold io_bind, fs_create. destruct (next_fault_spec o1) as (ft & E1 & _). rewrite E1. assert (H1 : at_disk d any (refault o1 (tail (os_faults o1)))) by now apply at_disk_faults. rewrite (disk_exists d any _ JTemp H1), Ex. rewrite bool_decide_eq_true_2 by eauto. destruct ft; cbn [fst snd]; (split; [cbn; intros ->; reflexivity|exists d; split; [exact H1|exact Ha]]).
        - assert (R2' : at_disk (delete JTemp d) any o1) by now rewrite delete_id. destruct (Hfresh o1 R2') as [F1 F2]. cbv zeta. split; [exact F1|]. destruct ((let* f := fs_create JTemp in k f) o1) as [o2 [z|e']]; cbn [fst snd] in *; [exact F2|now destruct F2]. }
      destruct Hmain as [M1 M2]. split; [auto|]. destruct ((let* f := fs_create JTemp in k f) o1) as [o2 [z|e']]; cbn [fst snd] in *; [exact M2|]. split; [exact M2|exact Hne].
Qed.
End Write.

Lemma compaction_written must s e d exclusive : compaction_Encode s = Ok e -> in_dir d -> (exclusive = true -> d !! JMarker = None) ->
  triple must (at_disk d any) (compaction_write s exclusive) (fun _ o => exists d', at_disk d' any o /\ d' !! JMarker = Some e /\ in_dir d') (stopped_marker (fun m => m = d !! JMarker \/ m = Some e)).
Proof.
  intros E Hd Hex. set (allowed := fun m => m = d !! JMarker \/ m = Some e). assert (Ha : marker_in allowed d any) by (split; [now left|exact Hd]). unfold compaction_write. apply (step_lift must _ _ _ _ e _ E). eapply step_seq; [now apply dir_made|]. intros ?.
  pose proof (with_dir_keeps d JMarker ltac:(discriminate)) as Hk. destruct (with_dir_in d Hd) as [Hd1 Hd2]. assert (Ha' : marker_in allowed (with_dir d) any) by (split; [rewrite Hk; now left|exact Hd1]).
  apply (triple_bind must _ _ _ (fun b o => at_disk (with_dir d) any o /\ b = false)). { destruct exclusive; [|apply triple_ret; auto]. eapply triple_weaken; [apply (disk_test must (with_dir d) any JMarker)|auto..]. - intros b o [Ho ->]. split; [exact Ho|]. rewrite Hk, Hex by reflexivity. apply bool_decide_eq_false_2. intros [? ?]. discriminate. - intros o Ho. exact (stopped_marker_in allowed _ _ _ Ha' Ho). }
  intros b. apply triple_pre. intros o [Ho ->]. apply (triple_from must _ _ (at_disk (with_dir d) any)); [intros o' <-; exact Ho|]. apply (fresh_temp must allowed); [exact Ha'|]. intros f. assert (Hkeep : forall x, marker_in allowed (<[JTemp := x]> (with_dir d)) any) by (intros y; now apply temp_ok).
  pose proof (stopped_marker_in allowed) as Hst. apply (step_write must _ _ Hst _ any _ JTemp f [] 0 e (<[JTemp := e]> (with_dir d))); [apply lookup_insert_eq|now rewrite splice_fresh, insert_insert_eq|intros n; rewrite insert_insert_eq; apply Hkeep|]. do 2 apply (step_point_owns must _ _ Hst _ any (Hkeep _)). apply step_forget.
  assert (Hn : marker_in allowed (<[JMarker := e]> (delete JTemp (<[JTemp := e]> (with_dir d)))) any) by (apply marker_ok; [now right|now rewrite lookup_delete_ne, lookup_insert_ne by discriminate]). apply (step_rename must _ _ Hst _ any (Hkeep _) _ JTemp JMarker e _ _ (lookup_insert_eq _ _ _) eq_refl Hn).
  eapply triple_weaken; [apply (last_step must _ _ Hst _ any Hn)|auto..]. intros ? o' Ho'. eexists. split; [exact Ho'|]. rewrite lookup_insert_eq. split; [reflexivity|apply Hn].
Qed.

Lemma temp_ignored must allowed d : marker_in allowed d any -> triple must (at_disk d any) (ignore_error (fs_remove JTemp)) (fun _ o => exists d', at_disk d' any o /\ d' !! JMarker = d !! JMarker /\ in_dir d') (stopped_marker allowed).
Proof.
  intros Ha o Ho. destruct (temp_ok allowed d [] Ha) as [_ Ht]. pose proof (disk_remove_any must d any JTemp o Ho) as Hr. unfold ignore_missing, ignore_error in *. cbn [fst snd]. assert (K : delete JTemp d !! JMarker = d !! JMarker) by now rewrite lookup_delete_ne.
  destruct (fs_remove JTemp o) as [o1 [y|e]]; cbn [fst snd] in *; [destruct Hr as [R1 R2]; split; [auto|]; exists (delete JTemp d); split; [exact R2|]; split; [exact K|apply Ht]|]. destruct (bool_decide (os_ErrNotExist ∈ e)); cbn [fst snd] in Hr; destruct Hr as [R1 R2]; (split; [auto|]).
  - exists (delete JTemp d). split; [exact R2|]. split; [exact K|apply Ht].
  - destruct R2 as [[R2|R2] _]; [exists d|exists (delete JTemp d)]; (split; [exact R2|]); [split; [reflexivity|apply Ha]|split; [exact K|apply Ht]].
Qed.

#[export] Instance compaction_files : JournalFiles CompactionJournal := {| jf_Install := compaction_Install; jf_Load := compaction_Load; jf_Remove := compaction_Remove |}.

#[export] Instance compaction_files_laws : JournalFilesLaws CompactionJournal.
Proof.
  split.
  - intros must s e d E Hm. eapply triple_weaken; [apply (compaction_written must s e d true E); [unfold in_dir; rewrite Hm; intros [? ?]; discriminate|auto]|auto..]. rewrite Hm. auto.
  - intros must d x Hx Hd. unfold jf_Load, compaction_files, compaction_Load. eapply step_seq; [apply (temp_ignored must (fun m => m = d !! JMarker)); split; auto|]. intros ?. apply triple_pre. intros o (d' & Ho & Hk & Hd').
    apply (triple_from must _ _ (at_disk d' any)); [intros o' <-; exact Ho|]. eapply triple_weaken; [apply (marker_read must d' x); [now rewrite Hk|exact Hd']|auto..]; cbv beta; [|now rewrite Hk]. intros r o' [Ho' ->]. split; [|reflexivity]. exists d'. auto.
  - intros must d Hd. set (allowed := fun m => m = d !! JMarker \/ m = None). assert (Ha : marker_in allowed d any) by (split; [now left|exact Hd]). pose proof (remove_marker_ok allowed d ltac:(now right)) as Hr. unfold jf_Remove, compaction_files, compaction_Remove.
    apply (step_remove_any must _ _ (stopped_marker_in allowed) _ any Ha _ JMarker _ _ eq_refl Hr). eapply triple_weaken; [apply (last_step must _ _ (stopped_marker_in allowed) _ any Hr)|auto..]. intros ? o Ho. exists (delete JMarker d). split; [exact Ho|apply lookup_delete_eq].
Qed.

(** An update is atomic too: the file holds the old state or the new one. *)
Lemma compaction_updated must s e d : compaction_Encode s = Ok e -> in_dir d ->
  triple must (at_disk d any) (compaction_Update s) (fun _ o => exists d', at_disk d' any o /\ d' !! JMarker = Some e /\ in_dir d') (stopped_marker (fun m => m = d !! JMarker \/ m = Some e)).
Proof. intros E Hd. apply compaction_written; auto. discriminate. Qed.

(** A state that replaces one that is there. *)
Definition update_atomic : Prop := forall s0 e0 s e d o, compaction_u s0 -> compaction_Encode s0 = Ok e0 -> compaction_u s -> compaction_Encode s = Ok e -> d !! JMarker = Some e0 -> in_dir d -> at_disk d any o ->
  let x := compaction_Update s o in
  (marker_of x.1 = Some e0 \/ marker_of x.1 = Some e) /\ (is_ok x.2 = true -> marker_of x.1 = Some e) /\ (os_faults o = [] -> is_ok x.2 = true) /\
  forall fs, match (compaction_Load (refault x.1 fs)).2 with Ok r => r = Some (if bool_decide (marker_of x.1 = Some e) then s else s0) | Err _ => fs <> [] end.

Lemma updates_atomic : update_atomic.
Proof.
  intros s0 e0 s e d o Hu0 E0 Hu E Hm Hd Ho x. pose proof (compaction_updated True s e d E Hd o Ho) as [_ Hi]. fold x in Hi. rewrite Hm in Hi.
  assert (Hx : exists d', at_disk d' any x.1 /\ in_dir d' /\ (d' !! JMarker = Some e0 \/ d' !! JMarker = Some e) /\ (is_ok x.2 = true -> d' !! JMarker = Some e)).
  { destruct x as [o1 [y|er]]; cbn [fst snd] in *.
    - destruct Hi as (d' & H1 & H2 & H3). exists d'. auto.
    - destruct Hi as [(d' & H1 & H2 & H3) _]. exists d'. split; [exact H1|]. split; [exact H3|]. split; [exact H2|discriminate]. }
  destruct Hx as (d' & Hd' & Hin & Hor & Hok). assert (Em : marker_of x.1 = d' !! JMarker) by (unfold marker_of; now rewrite (ad_disk _ _ _ Hd')). rewrite Em. split; [exact Hor|]. split; [exact Hok|]. split; [intros Hf; destruct (x.2); [reflexivity|]; destruct Hi as [_ Hi]; now specialize (Hi I)|].
  intros fs. set (x' := Some (if bool_decide (d' !! JMarker = Some e) then s else s0)). assert (Hst : marker_state (d' !! JMarker) x'). { unfold x', marker_state. case_bool_decide as Hc; [rewrite Hc; eauto|]. destruct Hor as [->|]; [eauto|contradiction]. }
  pose proof (jf_loaded True d' x' Hst Hin (refault x.1 fs) (at_disk_faults _ _ _ _ Hd')) as [_ HL]. change jf_Load with compaction_Load in HL. destruct (compaction_Load (refault x.1 fs)) as [o2 [r|er]]; cbn [fst snd] in *; [tauto|]. now apply HL.
Qed.


