(* ===== verification/MaintenanceWorkers.v ===== *)
(** * The maintenance workers of the store

    Models [internal/engine/maintenance_workers.go] and the checkpoint cycle of
    [background_checkpoint.go]: what a phase of a worker does with the answers of the
    store, which are arguments here, and which transition it returns.  A phase that
    dereferences a nil pointer is [None].  The theorems put these workers under the
    scheduler. *)
From stdpp Require Import strings.
From S2P Require Import Prelude Addr Catalog CatalogSpec Compaction GcCandidate CompactionState Scheduler SchedulerSpec SchedulerWaiters SchedulerProgress.

(** ** Errors that the workers look for *)

Fixpoint checkpointConflict (e : serr) : bool :=
  match e with
  | EConflict _ => true
  | EWrap e => checkpointConflict e
  | EJoin es => existsb checkpointConflict es
  | ELeaf _ | EText | EDependency _ => false
  end.

(** [errors.As] looks at the error before its causes, and at these in their order. *)
Fixpoint checkpointDependency (e : serr) : option Z :=
  match e with
  | EDependency generation => Some generation
  | EWrap e | EConflict e => checkpointDependency e
  | EJoin es => fold_right (fun e rest => match checkpointDependency e with Some g => Some g | None => rest end) None es
  | ELeaf _ | EText => None
  end.

Definition dependency_of (err : option serr) : option Z := match err with Some e => checkpointDependency e | None => None end.
Definition conflict_of (err : option serr) : bool := match err with Some e => checkpointConflict e | None => false end.
Definition Is (target : sentinel) (err : option serr) : bool := match err with Some e => errors_Is target e | None => false end.
Definition serr_of (e : goerror) : serr := EJoin (map ELeaf e).

Definition expectedAutomaticMaintenanceError (e : serr) : bool :=
  errors_Is base_ErrClosed e || errors_Is context_Canceled e || errors_Is base_ErrInsufficientSpace e || errors_Is base_ErrConflict e || errors_Is mapstore_ErrRecoveryRequired e.

(** ** Transitions *)

Definition finish (r : maintenanceResult) (err : option serr) : maintenanceTransition := mkTransition 0 0 None r true 0 err.
Definition proceed (next : Z) : maintenanceTransition := mkTransition next maintenanceRecoveryProtocol None zeroResult false 0 None.
Definition depend (next retain generation : Z) (gcAdmission : bool) : maintenanceTransition :=
  mkTransition next retain (Some (mkRequest maintenanceCheckpointRequest 0 zeroPolicy generation gcAdmission true false false false)) zeroResult false 0 None.

(** What a phase changes outside the worker. *)
Inductive effect :=
| SpaceCompleted (success : bool)
| FaultSet (e : serr)
| AutomaticFailed
| UsageStored (u : mappingUsage)
| MappingGCFinished (now : Z).

(** ** Checkpoints *)

Record checkpointWorker := mkCheckpointWorker { kw_request : maintenanceRequest; kw_conflictAttempts : Z }.

Definition checkpointConflictRetryDelay (attempt : Z) : Z := Z.shiftl 1000000 (Z.min attempt 6).

(** The answers of [executeCheckpoint] with and without admission of collections. *)
Definition runCheckpointCycle (completed pending : Z) (needed_now : bool) (execute : bool -> option serr) (periodic forced gcAdmission : bool) (requested : Z) : option serr * list effect :=
  let pending := if pending <? requested then requested else pending in
  let pressure := completed <? pending in
  if negb (forced || pressure || (periodic && needed_now)) then (None, [])
  else
    let first := execute gcAdmission in
    let fault err := match err with
      | Some e => if (pressure || periodic) && negb (checkpointConflict e) && negb (errors_Is base_ErrClosed e) && negb (errors_Is context_Canceled e) then [FaultSet e] else []
      | None => []
      end in
    match first with
    | Some e =>
      if gcAdmission then
        if pressure || periodic then (Some e, fault (execute false)) else (Some e, [])
      else (Some e, fault first)
    | None => (None, [])
    end.

Definition run_checkpoint (cycle : option serr * list effect) (w : checkpointWorker) : maintenanceTransition * checkpointWorker * list effect :=
  if conflict_of cycle.1 then
    (mkTransition maintenancePhaseStart 0 None zeroResult false (checkpointConflictRetryDelay (kw_conflictAttempts w)) None,
     mkCheckpointWorker (kw_request w) (if kw_conflictAttempts w <? 7 then kw_conflictAttempts w + 1 else kw_conflictAttempts w), cycle.2)
  else (finish zeroResult cycle.1, w, cycle.2).

(** ** Segments *)

Record segmentCompactionWork := mkSegmentWork { sg_result : SegmentCompactionResult; sg_state : CompactionJournal; sg_origins : gmap Z Z }.

Record segmentWorker := mkSegmentWorker
  { gw_request : maintenanceRequest; gw_result : maintenanceResult; gw_inputs : list DataSegmentSummary; gw_copyWork : option segmentCompactionWork; gw_proofAttempts : Z }.

Definition new_segment_worker (rq : maintenanceRequest) : segmentWorker := mkSegmentWorker rq zeroResult [] None 0.

Definition segment_Resources (phase : Z) : Z :=
  if (phase =? maintenancePhaseStart) || (phase =? maintenancePhaseCopy) || (phase =? maintenancePhasePublish) then Z.lor maintenanceHeavyIO maintenanceRecoveryProtocol
  else if phase =? maintenancePhaseProve then maintenanceRecoveryProtocol
  else if phase =? maintenancePhaseRetire then Z.lor maintenanceHeavyIO maintenanceRecoveryProtocol
  else maintenanceRecoveryProtocol.

(** What the store answers to the calls of a phase. *)
Record segment_answers := mkSegmentAnswers
  { an_relocate : SegmentRelocationResult * option serr;
    an_prove : SegmentRetirementProof * option serr;
    an_snapshot : Manifest;
    an_copy : option segmentCompactionWork * option serr;
    an_publish : SegmentRelocationResult * option serr;
    an_proofs : DataSegmentSummary -> serr + SegmentRetirementProof;
    an_retire : segmentCompactionWork * option serr;
    an_published : option Manifest;
    an_excluded : serr + gset Z;
    an_view : stability }.

Definition set_relocation (r : maintenanceResult) (x : SegmentRelocationResult) : maintenanceResult := mkResult x (mr_proof r) (mr_compaction r) (mr_candidate r) (mr_nextCompaction r) (mr_found r) (mr_usage r).
Definition set_proof (r : maintenanceResult) (x : SegmentRetirementProof) : maintenanceResult := mkResult (mr_relocation r) x (mr_compaction r) (mr_candidate r) (mr_nextCompaction r) (mr_found r) (mr_usage r).
Definition set_compaction (r : maintenanceResult) (x : SegmentCompactionResult) : maintenanceResult := mkResult (mr_relocation r) (mr_proof r) x (mr_candidate r) (mr_nextCompaction r) (mr_found r) (mr_usage r).
Definition set_next (r : maintenanceResult) (candidate : SegmentCompactionCandidate) (c : SegmentCompactionResult) : maintenanceResult := mkResult (mr_relocation r) (mr_proof r) (mr_compaction r) candidate c true (mr_usage r).
Definition with_result (w : segmentWorker) (r : maintenanceResult) : segmentWorker := mkSegmentWorker (gw_request w) r (gw_inputs w) (gw_copyWork w) (gw_proofAttempts w).
Definition with_attempts (w : segmentWorker) (n : Z) : segmentWorker := mkSegmentWorker (gw_request w) (gw_result w) (gw_inputs w) (gw_copyWork w) n.
Definition with_work (w : segmentWorker) (inputs : list DataSegmentSummary) (work : option segmentCompactionWork) (r : maintenanceResult) : segmentWorker := mkSegmentWorker (gw_request w) r inputs work (gw_proofAttempts w).
Definition with_proofs (c : SegmentCompactionResult) (proofs : list SegmentRetirementProof) : SegmentCompactionResult :=
  mkCompacted (cr_Relocation c) (match proofs with p :: _ => p | [] => cr_Proof c end) proofs (cr_Outputs c).

Definition mergeRelocationResult (total next : SegmentRelocationResult) : SegmentRelocationResult :=
  mkRelocated (add64 (sr_ScannedRecords total) (sr_ScannedRecords next)) (add64 (sr_PutRecords total) (sr_PutRecords next)) (add64 (sr_LiveCandidates total) (sr_LiveCandidates next))
    (add64 (sr_CopiedRecords total) (sr_CopiedRecords next)) (add64 (sr_CopiedValueBytes total) (sr_CopiedValueBytes next)) (add64 (sr_CopiedPhysicalBytes total) (sr_CopiedPhysicalBytes next))
    (add64 (sr_Applied total) (sr_Applied next)) (add64 (sr_Skipped total) (sr_Skipped next))
    (if sr_FirstCommitSeq total =? 0 then sr_FirstCommitSeq next else sr_FirstCommitSeq total) (if sr_LastCommitSeq total <? sr_LastCommitSeq next then sr_LastCommitSeq next else sr_LastCommitSeq total).

(** An outcome: the transition, the worker afterwards and the effects. *)
Abbreviation outcome W := (option (maintenanceTransition * W * list effect)).

Definition runPrepare (a : segment_answers) (phase : Z) (w : segmentWorker) : outcome segmentWorker :=
  if phase =? maintenancePhaseStart then
    let w := with_result w (set_relocation (gw_result w) (mergeRelocationResult (mr_relocation (gw_result w)) (an_relocate a).1)) in
    match dependency_of (an_relocate a).2 with
    | Some generation => Some (depend maintenancePhaseStart maintenanceRecoveryProtocol generation false, w, [])
    | None =>
      match (an_relocate a).2 with
      | Some e => Some (finish (gw_result w) (Some e), w, [])
      | None => Some (depend maintenancePhaseProve maintenanceRecoveryProtocol 0 true, w, [])
      end
    end
  else if phase =? maintenancePhaseProve then
    if Is engine_errCheckpointStatsStale (an_prove a).2 && (gw_proofAttempts w <? 31) then Some (depend maintenancePhaseProve maintenanceRecoveryProtocol 0 true, with_attempts w (gw_proofAttempts w + 1), [])
    else let w := with_result w (set_proof (gw_result w) (an_prove a).1) in Some (finish (gw_result w) (an_prove a).2, w, [])
  else Some (finish zeroResult (Some (ELeaf base_ErrInvalidConfig)), w, []).

(** [compactionFailure] also stops the store. *)
Definition compactionFailure (e : serr) : serr * list effect := let e := EJoin [ELeaf base_ErrRecoveryRequired; e] in (e, [FaultSet e]).

Definition publishCompactionRelocations (work : option segmentCompactionWork) (answer : SegmentRelocationResult * option serr) : option segmentCompactionWork * option serr :=
  match work with
  | None => (None, Some (ELeaf base_ErrInvalidConfig))
  | Some x =>
    if bool_decide (cj_Inputs (sg_state x) = []) then (work, Some (ELeaf base_ErrInvalidConfig))
    else let c := sg_result x in (Some (mkSegmentWork (mkCompacted answer.1 (cr_Proof c) (cr_Proofs c) (cr_Outputs c)) (sg_state x) (sg_origins x)), answer.2)
  end.

(** [prove] answers for [proveCompactionRetirement]. *)
Fixpoint proveCompactionRetirements (prove : DataSegmentSummary -> serr + SegmentRetirementProof) (inputs : list DataSegmentSummary) (proofs : list SegmentRetirementProof) : list SegmentRetirementProof * bool * option serr :=
  match inputs with
  | [] => (proofs, false, None)
  | input :: inputs =>
    match prove input with
    | inr p => proveCompactionRetirements prove inputs (proofs ++ [p])
    | inl e => if errors_Is engine_errCheckpointStatsStale e then ([], true, None) else ([], false, Some e)
    end
  end.

Definition finishCompactionRetirement (work : option segmentCompactionWork) (answer : segmentCompactionWork * option serr) : option segmentCompactionWork * option serr :=
  match work with
  | None => (None, Some (EWrap (ELeaf base_ErrInvalidConfig)))
  | Some x => if bool_decide (cj_Inputs (sg_state x) = []) then (work, Some (EWrap (ELeaf base_ErrInvalidConfig))) else (Some answer.1, answer.2)
  end.

(** The end of the copy, common to [runCompact] and [runNext]. *)
Definition after_copy (a : segment_answers) (inputs : list DataSegmentSummary) (candidate : option SegmentCompactionCandidate) (w : segmentWorker) : outcome segmentWorker :=
  let r := match candidate with Some c => set_next (gw_result w) c (mr_nextCompaction (gw_result w)) | None => gw_result w end in
  let r := match (an_copy a).1 with
    | Some x => let r := set_compaction r (sg_result x) in match candidate with Some c => set_next r c (sg_result x) | None => r end
    | None => r
    end in
  let w := with_work w inputs (match (an_copy a).1 with Some x => Some x | None => gw_copyWork w end) r in
  match (an_copy a).2 with
  | Some e => Some (finish r (Some (match candidate with Some _ => EWrap e | None => e end)), w, [])
  | None => Some (proceed maintenancePhasePublish, w, [])
  end.

Definition runCompact (a : segment_answers) (phase : Z) (w : segmentWorker) : outcome segmentWorker :=
  let source := rq_source (gw_request w) in
  if phase =? maintenancePhaseStart then
    match search_sealed (mf_SealedData (an_snapshot a)) source with
    | Some x => if negb (ds_SegmentID x =? source) || IsCompactionSegment source then Some (finish zeroResult (Some (ELeaf recordlog_ErrSegmentMissing)), w, []) else after_copy a [x] None w
    | None => Some (finish zeroResult (Some (ELeaf recordlog_ErrSegmentMissing)), w, [])
    end
  else if phase =? maintenancePhasePublish then
    let (work, err) := publishCompactionRelocations (gw_copyWork w) (an_publish a) in
    let w := with_work w (gw_inputs w) work (gw_result w) in
    match dependency_of err with
    | Some generation => Some (depend maintenancePhasePublish maintenanceRecoveryProtocol generation false, w, [])
    | None =>
      match err, work with
      | Some _, None => None
      | Some e, Some _ => let (e, fx) := compactionFailure e in Some (finish (gw_result w) (Some e), w, SpaceCompleted false :: fx)
      | None, None => None
      | None, Some x => Some (depend maintenancePhaseProve maintenanceRecoveryProtocol 0 true, with_result w (set_compaction (gw_result w) (sg_result x)), [])
      end
    end
  else if phase =? maintenancePhaseProve then
    match proveCompactionRetirements (an_proofs a) (gw_inputs w) [] with
    | (proofs, stale, err) =>
      if stale && (gw_proofAttempts w <? 31) then Some (depend maintenancePhaseProve maintenanceRecoveryProtocol 0 true, with_attempts w (gw_proofAttempts w + 1), [])
      else match err with
      | Some e => Some (finish (gw_result w) (Some e), w, [])
      | None => Some (proceed maintenancePhaseRetire, with_result w (set_compaction (gw_result w) (with_proofs (mr_compaction (gw_result w)) proofs)), [])
      end
    end
  else if phase =? maintenancePhaseRetire then
    let (work, err) := finishCompactionRetirement (gw_copyWork w) (an_retire a) in
    let r := match work with Some x => set_compaction (gw_result w) (sg_result x) | None => gw_result w end in
    Some (finish r err, with_work w (gw_inputs w) work r, [])
  else Some (finish zeroResult (Some (ELeaf base_ErrInvalidConfig)), w, []).

Definition runNext (a : segment_answers) (phase : Z) (w : segmentWorker) : outcome segmentWorker :=
  if negb (phase =? maintenancePhaseStart) then runCompact a phase w
  else match an_published a with
  | None => Some (finish zeroResult (Some (ELeaf base_ErrInvalidConfig)), w, [])
  | Some m =>
    match an_excluded a with
    | inl e => Some (finish zeroResult (Some e), w, [])
    | inr excluded =>
      match selectCompactionCandidate m (rq_policy (gw_request w)) excluded (an_view a) with
      | Err e => Some (finish zeroResult (Some (serr_of e)), w, [])
      | Ok None =>
        if gw_proofAttempts w =? 0 then Some (depend maintenancePhaseStart maintenanceRecoveryProtocol 0 false, with_attempts w 1, [])
        else Some (finish (gw_result w) None, w, [])
      | Ok (Some c) => after_copy a (cc_Sources c) (Some c) w
      end
    end
  end.

Definition run_segment (a : segment_answers) (phase : Z) (w : segmentWorker) : outcome segmentWorker :=
  let kind := rq_kind (gw_request w) in
  let out :=
    if kind =? maintenanceSegmentRelocateRequest then
      let w := with_result w (set_relocation (gw_result w) (mergeRelocationResult (mr_relocation (gw_result w)) (an_relocate a).1)) in
      match dependency_of (an_relocate a).2 with
      | Some generation => Some (depend maintenancePhaseStart maintenanceRecoveryProtocol generation false, w, [])
      | None => Some (finish (gw_result w) (an_relocate a).2, w, [])
      end
    else if kind =? maintenanceSegmentPrepareRequest then runPrepare a phase w
    else if kind =? maintenanceSegmentCompactRequest then runCompact a phase w
    else if kind =? maintenanceSegmentNextRequest then runNext a phase w
    else Some (finish zeroResult (Some (ELeaf base_ErrInvalidConfig)), w, []) in
  match out with
  | Some (t, w, fx) => Some (t, w, match tr_err t with Some e => if rq_automatic (gw_request w) && negb (expectedAutomaticMaintenanceError e) then fx ++ [AutomaticFailed] else fx | None => fx end)
  | None => None
  end.

(** ** The mapping *)

(** The published state and the answers that a survey of the mapping compares. *)
Record survey_answers := mkSurveyAnswers
  { sv_published : option (Z * Z * Z);
    sv_view : serr + Z * Z;
    sv_reachable : serr + Z;
    sv_snapshot : Z * Z;
    sv_report : serr + Z;
    sv_current : option (Z * Z) }.

(** Generation, root and covered sequence of the published state; root and covered
    sequence of the view; generation and root of the catalog and of the state at the end. *)
Definition runMappingSurvey (a : survey_answers) : (serr + mappingUsage) * list effect :=
  match sv_published a with
  | None => (inl (ELeaf base_ErrInvalidConfig), [])
  | Some (generation, root, covered) =>
    match sv_view a with
    | inl e => (inl e, [])
    | inr (vroot, vcovered) =>
      if negb (vroot =? root) || negb (vcovered =? covered) then (inl (ELeaf base_ErrConflict), [])
      else match sv_reachable a with
      | inl e => (inl e, [])
      | inr reachable =>
        if negb ((sv_snapshot a).1 =? generation) || negb ((sv_snapshot a).2 =? root) then (inl (ELeaf base_ErrConflict), [])
        else match sv_report a with
        | inl e => (inl e, [])
        | inr physical =>
          match sv_current a with
          | None => (inl (ELeaf base_ErrConflict), [])
          | Some (g, r) =>
            if negb (g =? generation) || negb (r =? root) then (inl (ELeaf base_ErrConflict), [])
            else if physical <? reachable then (inl (ELeaf base_ErrCorrupt), [])
            else let u := mkUsage generation physical reachable root in (inr u, [UsageStored u])
          end
        end
      end
    end
  end.

(** What the phases of a rewrite hand to each other: the base, and whether publication
    has set the drain channel and the old store. *)
Record mappingGCWork := mkMappingWork { mw_manifest : Manifest; mw_drained : bool; mw_oldStore : bool }.

Record mappingWorker := mkMappingWorker { pw_request : maintenanceRequest; pw_work : option mappingGCWork }.

Definition mapping_Resources (automatic : bool) (phase : Z) : Z :=
  if (phase =? maintenancePhaseStart) && automatic then maintenanceHeavyIO
  else if (phase =? maintenancePhaseStart) || (phase =? maintenancePhaseCleanup) then maintenanceRecoveryProtocol
  else if phase =? maintenancePhasePublish then Z.lor maintenanceMappingWriter maintenanceRecoveryProtocol
  else Z.lor maintenanceHeavyIO maintenanceRecoveryProtocol.

Record mapping_answers := mkMappingAnswers
  { ma_config : MaintenanceConfig; ma_last : Z; ma_now : Z; ma_survey : survey_answers;
    ma_prepare : option mappingGCWork * option serr; ma_publish : mappingGCWork * option serr; ma_cleanup : option serr }.

Definition worth_rewriting (config : MaintenanceConfig) (u : mappingUsage) : bool :=
  let garbage := (mu_physicalBytes u - mu_reachableBytes u) mod two64 in
  let ratio := if mu_physicalBytes u =? 0 then 0 else ((garbage * compactionRatioScale) mod two64 / mu_physicalBytes u) mod two32 in
  negb ((garbage <? mg_MappingMinReclaimableBytes config) || (ratio <? mg_MappingMinReclaimableRatioBasis config)).

Definition publishMappingGC (work : option mappingGCWork) (answer : mappingGCWork * option serr) : option mappingGCWork * option serr :=
  match work with None => (None, Some (ELeaf base_ErrInvalidConfig)) | Some _ => (Some answer.1, answer.2) end.

Definition cleanupMappingGC (work : option mappingGCWork) (answer : option serr) : option serr :=
  match work with
  | Some x => if negb (mw_drained x) || negb (mw_oldStore x) then Some (ELeaf base_ErrInvalidConfig) else answer
  | None => Some (ELeaf base_ErrInvalidConfig)
  end.

Definition automatic_failure (w : mappingWorker) (err : option serr) : list effect :=
  match err with Some e => if rq_automatic (pw_request w) && negb (expectedAutomaticMaintenanceError e) then [AutomaticFailed] else [] | None => [] end.

Definition run_mapping (a : mapping_answers) (phase : Z) (w : mappingWorker) : maintenanceTransition * mappingWorker * list effect :=
  let automatic := rq_automatic (pw_request w) in
  if phase =? maintenancePhaseStart then
    let go := (depend maintenancePhaseCopy (if automatic then 0 else maintenanceRecoveryProtocol) 0 false, w) in
    if negb automatic then (go, [])
    else if negb (ma_last a =? 0) && (ma_now a - ma_last a <? mg_MappingMinInterval (ma_config a)) then (finish zeroResult None, w, [])
    else match runMappingSurvey (ma_survey a) with
    | (inl e, fx) => (finish zeroResult (Some e), w, fx ++ automatic_failure w (Some e))
    | (inr u, fx) => if worth_rewriting (ma_config a) u then (go, fx) else (finish zeroResult None, w, fx)
    end
  else if phase =? maintenancePhaseCopy then
    let (work, err) := ma_prepare a in
    let w := mkMappingWorker (pw_request w) work in
    match err with Some _ => (finish zeroResult err, w, automatic_failure w err) | None => (proceed maintenancePhasePublish, w, []) end
  else if phase =? maintenancePhasePublish then
    let (work, err) := publishMappingGC (pw_work w) (ma_publish a) in
    let w := mkMappingWorker (pw_request w) work in
    match err with Some _ => (finish zeroResult err, w, automatic_failure w err) | None => (proceed maintenancePhaseCleanup, w, []) end
  else if phase =? maintenancePhaseCleanup then
    let err := cleanupMappingGC (pw_work w) (ma_cleanup a) in
    (finish zeroResult err, w, match err with Some _ => automatic_failure w err | None => if automatic then [MappingGCFinished (ma_now a)] else [] end)
  else (finish zeroResult (Some (ELeaf base_ErrInvalidConfig)), w, []).

(** ** The factory and the interface *)

Inductive store_worker :=
| CheckpointMaintenance (w : checkpointWorker)
| SegmentMaintenance (w : segmentWorker)
| MappingGCMaintenance (w : mappingWorker)
| MappingSurveyMaintenance.

Definition NewMaintenanceWorker (rq : maintenanceRequest) : serr + store_worker :=
  let k := rq_kind rq in
  if k =? maintenanceCheckpointRequest then inr (CheckpointMaintenance (mkCheckpointWorker rq 0))
  else if (k =? maintenanceSegmentRelocateRequest) || (k =? maintenanceSegmentPrepareRequest) || (k =? maintenanceSegmentCompactRequest) || (k =? maintenanceSegmentNextRequest) then inr (SegmentMaintenance (new_segment_worker rq))
  else if k =? maintenanceMappingGCRequest then inr (MappingGCMaintenance (mkMappingWorker rq None))
  else if k =? maintenanceMappingSurveyRequest then inr MappingSurveyMaintenance
  else inl (ELeaf base_ErrInvalidConfig).

Definition store_Resources (w : store_worker) (phase : Z) : Z :=
  match w with
  | CheckpointMaintenance _ => maintenanceMappingWriter
  | SegmentMaintenance _ => segment_Resources phase
  | MappingGCMaintenance w => mapping_Resources (rq_automatic (pw_request w)) phase
  | MappingSurveyMaintenance => maintenanceHeavyIO
  end.

(** The answers of the store to one phase of one worker. *)
Inductive answers :=
| AnswerCycle (cycle : option serr * list effect)
| AnswerSegment (a : segment_answers)
| AnswerMapping (a : mapping_answers)
| AnswerSurvey (a : survey_answers).

Definition store_run (a : answers) (w : store_worker) (phase : Z) : outcome store_worker :=
  match w, a with
  | CheckpointMaintenance w, AnswerCycle c => let '(t, w, fx) := run_checkpoint c w in Some (t, CheckpointMaintenance w, fx)
  | SegmentMaintenance w, AnswerSegment a => match run_segment a phase w with Some (t, w, fx) => Some (t, SegmentMaintenance w, fx) | None => None end
  | MappingGCMaintenance w, AnswerMapping a => let '(t, w, fx) := run_mapping a phase w in Some (t, MappingGCMaintenance w, fx)
  | MappingSurveyMaintenance, AnswerSurvey a =>
    let (r, fx) := runMappingSurvey a in
    Some (finish (match r with inr u => mkResult zeroRelocated zeroProof zeroCompacted zeroCandidate zeroCompacted false (Some u) | inl _ => zeroResult end) (match r with inl e => Some e | inr _ => None end), w, fx)
  | _, _ => None
  end.

Definition store_Run (w : store_worker) (phase : Z) (_ : maintenanceResult) (t : maintenanceTransition) (w' : store_worker) : Prop := exists a fx, store_run a w phase = Some (t, w', fx).

(** ** The workers keep the laws of the scheduler *)

Definition is_checkpoint_worker (w : store_worker) : bool := match w with CheckpointMaintenance _ => true | _ => false end.

Lemma covers_refl a : covers a a.
Proof. intros n _ H. exact H. Qed.
Lemma covers_zero a : covers a 0.
Proof. intros n Hn H. now rewrite Z.testbit_0_l in H. Qed.
#[local] Hint Resolve covers_refl covers_zero : core.

(** The transitions of the workers that are no checkpoints. *)
Definition tame (t : maintenanceTransition) : Prop := tr_retryAfter t = 0 /\ covers maintenanceRecoveryProtocol (tr_retain t) /\ forall d, tr_dependency t = Some d -> is_checkpoint d = true.

Lemma tame_finish r e : tame (finish r e).
Proof. split; [done|]. split; [apply covers_zero|done]. Qed.
Lemma tame_proceed n : tame (proceed n).
Proof. split; [done|]. split; [apply covers_refl|done]. Qed.
Lemma tame_depend n r g b : covers maintenanceRecoveryProtocol r -> tame (depend n r g b).
Proof. intros H. split; [done|]. split; [exact H|]. intros d [= <-]. done. Qed.
#[local] Hint Resolve tame_finish tame_proceed tame_depend : core.

Lemma segment_tame a phase w t w' fx : run_segment a phase w = Some (t, w', fx) -> tame t.
Proof.
  unfold run_segment, runNext, runCompact, runPrepare, after_copy. intros H. repeat (case_match; simplify_eq); auto.
Qed.

Lemma mapping_tame a phase w t w' fx : run_mapping a phase w = (t, w', fx) -> tame t.
Proof.
  unfold run_mapping. intros H. repeat (case_match; simplify_eq); auto.
Qed.

#[export] Instance store_workers_lawful : LawfulWorkers store_Resources NewMaintenanceWorker store_Run.
Proof.
  apply (Build_LawfulWorkers store_worker store_Resources NewMaintenanceWorker store_Run is_checkpoint_worker).
  - intros rq H. apply policy_kind in H as [x H]. unfold maintenanceRequestPolicy in H. unfold NewMaintenanceWorker. repeat case_match; try discriminate; eauto.
  - intros rq w H. unfold NewMaintenanceWorker, is_checkpoint in *. repeat (case_match; simplify_eq); done.
  - intros w phase _ t w' (a & fx & H). unfold store_run in H. repeat (case_match; simplify_eq); done.
  - intros w phase _ t w' (a & fx & H) Hc. destruct w; try discriminate. unfold store_run in H. destruct a; [|discriminate..]. unfold run_checkpoint in H. repeat (case_match; simplify_eq); done.
  - intros w phase _ t w' (a & fx & H) Hc. unfold store_run in H. destruct w as [w|w|w|]; [discriminate|..]; destruct a; try discriminate.
    + destruct (run_segment a phase w) as [[[t0 w0] fx0]|] eqn:E; [|discriminate]. injection H as <- <- <-. exact (segment_tame _ _ _ _ _ _ E).
    + destruct (run_mapping a phase w) as [[t0 w0] fx0] eqn:E. injection H as <- <- <-. exact (mapping_tame _ _ _ _ _ _ E).
    + destruct (runMappingSurvey a). injection H as <- <- <-. apply tame_finish.
  - intros w phase Hc. destruct w; try discriminate. apply apart_land. reflexivity.
Qed.

(** ** The store under its scheduler *)

Abbreviation store_step := (sched_step store_Resources (Some NewMaintenanceWorker) store_Run).
Abbreviation store_world := (@sworld store_worker).

(** No schedule numbers more than 2^32 jobs in fewer than 2^31 steps. *)
Definition within (n : nat) : Prop := 2 * Z.of_nat n < 4294967292.

(** C18: maintenance is exclusive.  Whatever requests, cancellations, timers, results and
    shutdowns the scheduler sees, in any order: two phases that run at the same time
    need disjoint resources, and what a job keeps between its phases (the recovery
    protocol of a compaction or a rewrite) is needed by no running phase of another
    job; the leased resources are exactly those of the jobs; no two jobs share a
    coalescing key; and a job is in at most one place: queued, running, on a timer or
    waiting for a checkpoint. *)
Theorem maintenance_exclusive n (w : store_world) : nsteps store_step n started w -> within n -> let s := sw_sched w in
  (forall i k j l, i <> k -> sc_jobs s !! i = Some j -> sc_jobs s !! k = Some l -> i ∈ sc_active s ->
     Z.land (needs store_Resources j) (jb_held l) = 0 /\ (k ∈ sc_active s -> Z.land (needs store_Resources j) (needs store_Resources l) = 0)) /\
  (forall b, 0 <= b -> Z.testbit (sc_leased s) b = true <-> exists i j, sc_jobs s !! i = Some j /\ Z.testbit (own j) b = true) /\
  (forall i k j l, sc_jobs s !! i = Some j -> sc_jobs s !! k = Some l -> jb_key j = jb_key l -> jb_key j <> ""%string -> i = k) /\
  (forall i, place s i).
Proof.
  intros H Hn s. destruct (steps_fine store_Resources NewMaintenanceWorker law_total store_Run n w H Hn) as ([I _] & _). split; [|split; [|split]].
  - intros i k j l Hne Hj Hl Ha. pose proof (iv_apart _ _ I i k j l Hne Hj Hl) as Ap. pose proof (jo_run _ _ _ _ (iv_job _ _ I _ _ Hj) Ha) as Cj. rewrite !apart_land. split.
    + intros b Hb X Y. apply (Ap b Hb (Cj b Hb X)). unfold own. now rewrite Z.lor_spec, Y.
    + intros Hk b Hb X Y. exact (Ap b Hb (Cj b Hb X) (jo_run _ _ _ _ (iv_job _ _ I _ _ Hl) Hk b Hb Y)).
  - intros b Hb. split; [exact (iv_leased _ _ I b Hb)|]. intros (i & j & Hj & X). exact (jo_leased _ _ _ _ (iv_job _ _ I _ _ Hj) b Hb X).
  - intros i k j l Hj Hl E Hk. pose proof (jo_key _ _ _ _ (iv_job _ _ I _ _ Hj) Hk) as X. rewrite E in X, Hk. pose proof (jo_key _ _ _ _ (iv_job _ _ I _ _ Hl) Hk). congruence.
  - exact (iv_place _ _ I).
Qed.

(** C19: every caller of [Submit] is answered once.  In every reachable state: no channel,
    which has room for one result, was sent two, so the actor never blocks on a send;
    an accepted caller has its result, or left, or is kept by its own job under the id
    it was given; and when the scheduler has closed, no caller that still waits is
    without its result. *)
Theorem submit_answered_once n (w : store_world) : nsteps store_step n started w -> within n -> let s := sw_sched w in
  NoDup (sc_sent s).*1 /\
  (forall c wid, sw_issued w !! c = Some wid -> c ∈ (sc_sent s).*1 \/ c ∈ sw_gone w \/ exists j, sc_jobs s !! Z.shiftr wid 32 = Some j /\ keeps_waiter j (low32 wid) (mkWaiter wid c)) /\
  (forall i j k x, sc_jobs s !! i = Some j -> keeps_waiter j k x -> wt_chan x ∉ (sc_sent s).*1) /\
  (sc_closing s = true -> forall c, c ∈ dom (sw_issued w) -> c ∈ (sc_sent s).*1 \/ c ∈ sw_gone w).
Proof.
  intros H Hn s. destruct (steps_fine store_Resources NewMaintenanceWorker law_total store_Run n w H Hn) as ([_ V] & _). split; [exact (wv_sent _ _ _ V)|]. split; [exact (wv_acct _ _ _ V)|]. split.
  - intros i j k x Hj Hk. exact (proj2 (proj2 (proj2 (wv_in _ _ _ V i j k x Hj Hk)))).
  - intros Hc c [wid Hw]%elem_of_dom. destruct (wv_acct _ _ _ V c wid Hw) as [X|[X|(j & Hj & Hk)]]; [auto|auto|]. destruct (lonely_none j _ _ (wv_closed _ _ _ V _ _ Hj Hc) Hk).
Qed.

(** C20: maintenance never stalls.  Until the scheduler closes, whenever it has a job, a
    phase is running or the timer of a retried checkpoint is set; every job is queued,
    running, on a timer or waiting, and one that waits is a dependent of a checkpoint
    that the scheduler has. *)
Theorem maintenance_never_stalls n (w : store_world) : nsteps store_step n started w -> within n -> let s := sw_sched w in sc_closing s = false ->
  (forall i j, sc_jobs s !! i = Some j -> (sc_active s <> ∅ \/ exists k l, k ∈ sc_timers s /\ sc_jobs s !! k = Some l) /\ placed s None i j /\ (jb_waiting j = true -> linked s i)) /\
  (sc_active s = ∅ -> forall i, i ∈ sc_pending s -> runnable store_Resources s i = false).
Proof.
  intros H Hn s Hc. destruct (steps_fine store_Resources NewMaintenanceWorker law_total store_Run n w H Hn) as ([I _] & _). destruct (progress_steps store_Resources NewMaintenanceWorker store_Run n w H Hn) as [P IB]. split; [|exact (IB Hc)].
  intros i j Hj. split; [exact (no_stall_inv store_Resources NewMaintenanceWorker store_Run s i j I P IB Hc Hj)|]. split; [exact (pv_placed _ _ _ _ _ P Hc i j Hj)|]. intros Hw. exact (pv_linked _ _ _ _ _ P Hc i j Hj Hw (ltac:(discriminate))).
Qed.

(** ** Running the scheduler *)

Inductive sched_event :=
| EvSubmit (rq : maintenanceRequest) (c : Z)
| EvCancel (c : Z)
| EvConfigure (config : MaintenanceConfig)
| EvPeriodic
| EvTick
| EvDone (id : Z) (a : answers)
| EvRetry (id : Z)
| EvShutdown.

Definition set_sched (w : store_world) (s : scheduler) : store_world := mkSworld s (sw_issued w) (sw_gone w).

Definition exec_case (e : sched_event) (w : store_world) : option store_world :=
  let s := sw_sched w in
  match e with
  | EvSubmit rq c =>
    match sw_issued w !! c, on_submit store_Resources (Some NewMaintenanceWorker) rq (Some c) s with
    | None, (s', inr wid) => Some (mkSworld s' (<[c := wid]> (sw_issued w)) (sw_gone w))
    | _, _ => None
    end
  | EvCancel c =>
    match sw_issued w !! c with
    | Some wid => if bool_decide (c ∈ sw_gone w) then None else Some (mkSworld (on_cancel (Z.shiftr wid 32) (low32 wid) s) (sw_issued w) ({[c]} ∪ sw_gone w))
    | None => None
    end
  | EvConfigure config => Some (set_sched w (on_configure config s).1)
  | EvPeriodic => match sc_config s with Some _ => Some (set_sched w (on_checkpoint_tick store_Resources (Some NewMaintenanceWorker) s)) | None => None end
  | EvTick =>
    match sc_config s with
    | Some config => if mg_Enabled config then Some (set_sched w (on_maintenance_tick store_Resources (Some NewMaintenanceWorker) config s)) else None
    | None => None
    end
  | EvDone id a =>
    match sc_jobs s !! id with
    | Some j =>
      if is_active s id then
        match jb_worker j with
        | Plain x => match store_run a x (jb_phase j) with Some (t, x', _) => Some (set_sched w (on_done store_Resources (Some NewMaintenanceWorker) id (Plain x') t (elements (jb_dependents j)) s)) | None => None end
        | failedDependencyWorker next err => Some (set_sched w (on_done store_Resources (Some NewMaintenanceWorker) id (failedDependencyWorker next err) (finish zeroResult (Some err)) (elements (jb_dependents j)) s))
        end
      else None
    | None => None
    end
  | EvRetry id => if bool_decide (id ∈ sc_timers s) then Some (set_sched w (on_retry store_Resources id s)) else None
  | EvShutdown => if sc_closing s then None else Some (set_sched w (on_shutdown s))
  end.

Definition exec_event (w : store_world) (e : sched_event) : option store_world := if returned (sw_sched w) then None else exec_case e w.

Fixpoint exec_events (w : store_world) (es : list sched_event) : option store_world := match es with [] => Some w | e :: es => match exec_event w e with Some w => exec_events w es | None => None end end.

Lemma exec_event_sound w e w' : exec_event w e = Some w' -> store_step w w'.
Proof.
  unfold exec_event. destruct (returned (sw_sched w)) eqn:R; [discriminate|]. intros H. split; [done|]. destruct w as [s issued gone]. destruct e as [rq c|c|config| | |id a|id|]; cbn [exec_case sw_sched sw_issued sw_gone] in H.
  - destruct (issued !! c) eqn:Ec; [discriminate|]. destruct (on_submit _ _ rq (Some c) s) as [s' [e|wid]] eqn:E; [discriminate|]. injection H as <-. now apply (case_submit _ _ _ (mkSworld s issued gone) rq c s' wid).
  - destruct (issued !! c) as [wid|] eqn:Ec; [|discriminate]. destruct (bool_decide_reflect (c ∈ gone)) as [|Hg]; [discriminate|]. injection H as <-. now apply (case_cancel _ _ _ (mkSworld s issued gone) c wid).
  - injection H as <-. apply (case_configure _ _ _ (mkSworld s issued gone) config _ (on_configure config s).2). cbn. now destruct (on_configure config s).
  - destruct (sc_config s) as [config|] eqn:Ec; [|discriminate]. injection H as <-. now apply (case_checkpoint_tick _ _ _ (mkSworld s issued gone) config).
  - destruct (sc_config s) as [config|] eqn:Ec; [|discriminate]. destruct (mg_Enabled config) eqn:Ee; [|discriminate]. injection H as <-. now apply (case_maintenance_tick _ _ _ (mkSworld s issued gone) config).
  - destruct (sc_jobs s !! id) as [j|] eqn:Hj; [|discriminate]. unfold is_active in H. destruct (bool_decide_reflect (id ∈ sc_active s)) as [Ha|]; [|discriminate]. destruct (jb_worker j) as [x|next err] eqn:Ew.
    + destruct (store_run a x (jb_phase j)) as [[[t x'] fx]|] eqn:Er; [|discriminate]. injection H as <-. apply (case_done _ _ _ (mkSworld s issued gone) id j); try done. rewrite Ew. apply run_plain. exists a, fx. exact Er.
    + injection H as <-. apply (case_done _ _ _ (mkSworld s issued gone) id j); try done. rewrite Ew. apply run_failed.
  - destruct (bool_decide_reflect (id ∈ sc_timers s)) as [Ht|]; [|discriminate]. injection H as <-. now apply (case_retry _ _ _ (mkSworld s issued gone) id).
  - destruct (sc_closing s) eqn:Eo; [discriminate|]. injection H as <-. now apply (case_shutdown _ _ _ (mkSworld s issued gone)).
Qed.

Lemma exec_events_sound es w w' : exec_events w es = Some w' -> nsteps store_step (length es) w w'.
Proof.
  revert w. induction es as [|e es IH]; intros w; cbn; [intros [= <-]; constructor|]. destruct (exec_event w e) as [w1|] eqn:E; [|discriminate]. intros H. econstructor; [exact (exec_event_sound _ _ _ E)|now apply IH].
Qed.

(** ** A store that compacts its segment 1 *)

Definition demo_config : MaintenanceConfig := mkMaintenance true 1000 false true any_policy 0 0 0.
Definition demo_inputs1 : list DataSegmentSummary := match selectCompactionCandidate demo_full any_policy ∅ None with Ok (Some c) => cc_Sources c | _ => [] end.
Definition demo_segment_work : segmentCompactionWork := mkSegmentWork zeroCompacted (mkCompaction 1 demo_uuid demo_uuid 9 demo_inputs1 [] []) ∅.
Definition demo_answers : segment_answers :=
  mkSegmentAnswers (zeroRelocated, None) (zeroProof, None) demo_full (Some demo_segment_work, None) (zeroRelocated, None) (fun _ => inr zeroProof) (demo_segment_work, None) (Some demo_full) (inr ∅) None.

(** The first tick starts a compaction, which copies, publishes and then waits for a
    checkpoint. *)
Definition demo_events : list sched_event := [EvConfigure demo_config; EvTick; EvDone 1 (AnswerSegment demo_answers); EvDone 1 (AnswerSegment demo_answers)].
Definition demo_world : store_world := match exec_events started demo_events with Some w => w | None => started end.

Lemma demo_reached : nsteps store_step 4 started demo_world.
Proof. apply (exec_events_sound demo_events). vm_compute. reflexivity. Qed.

Definition demo_job : option (Z * string * Z * bool * bool) :=
  match sc_jobs (sw_sched demo_world) !! 1 with
  | Some j => Some (jb_phase j, jb_key j, jb_held j, jb_waiting j, match jb_worker j with Plain (SegmentMaintenance w) => match gw_copyWork w with Some _ => true | None => false end | _ => false end)
  | None => None
  end.

Lemma demo_waits : demo_job = Some (maintenancePhaseProve, "segment-auto"%string, maintenanceRecoveryProtocol, true, true).
Proof. vm_compute. reflexivity. Qed.

(** ** What a coalesced request does to a job between its phases *)

(** What decides how a job goes on. *)
Definition continuation (j : @maintenanceJob store_worker) : maintenanceRequest * string * Z * @worker store_worker * Z * bool := (jb_request j, jb_key j, jb_phase j, jb_worker j, jb_held j, jb_waiting j).

Definition goes_on (s s' : @scheduler store_worker) (i : Z) : Prop := forall j, sc_jobs s !! i = Some j -> exists j', sc_jobs s' !! i = Some j' /\ continuation j' = continuation j.

Lemma goes_on_start s i k : goes_on s (start_job store_Resources k s) i.
Proof.
  intros j Hj. unfold start_job. destruct (sc_jobs s !! k) as [l|] eqn:Hl; [|eauto]. cbn. destruct (decide (k = i)) as [->|Hne]; [rewrite lookup_alter_eq, Hj; cbn; eauto|rewrite lookup_alter_ne by done; eauto].
Qed.

Lemma goes_on_dispatch s i : goes_on s (dispatch store_Resources s) i.
Proof.
  apply (dispatch_keeps store_Resources (fun s' => goes_on s s' i)); [|intros j Hj; eauto]. intros s0 k H _ _ j Hj. destruct (H j Hj) as (j0 & Hj0 & E0). destruct (goes_on_start s0 i k j0 Hj0) as (j1 & Hj1 & E1). exists j1. split; [done|congruence].
Qed.

(** A request with another key leaves the job alone. *)
Lemma goes_on_enqueue s rq i j key priority rerun p : sinv store_Resources s -> sc_nextJobID s < two64 - 1 -> sc_jobs s !! i = Some j -> maintenanceRequestPolicy rq = Some (key, priority, rerun, p) -> jb_key j <> key ->
  sc_jobs (enqueue (Some NewMaintenanceWorker) rq 0 s).1 !! i = Some j.
Proof.
  intros I Hb Hj Hp Hk. destruct (enqueue (Some NewMaintenanceWorker) rq 0 s) as [s' r] eqn:E. destruct (enqueue_spec store_Resources NewMaintenanceWorker law_total _ _ _ _ _ I Hb E) as [(_ & -> & _)|(_ & id & s0 & l & l' & _ & A)]; [done|].
  destruct A as [(key' & priority' & rerun' & p' & Hp' & Ek & _ & Hor) I0 Hl ->]. rewrite Hp in Hp'. injection Hp' as <- <- <- <-.
  assert (H0 : sc_jobs s0 !! i = Some j). { destruct Hor as [(_ & _ & ->)|(_ & _ & w & _ & C)]; [done|]. destruct (ct_jobs _ _ _ _ _ _ C) as [q ->]. rewrite lookup_insert_ne; [done|]. intros <-. destruct (iv_job _ _ I _ _ Hj). lia. }
  cbn. rewrite lookup_insert_ne; [done|]. intros <-. congruence.
Qed.

Lemma enqueue_replaces s rq i j priority rerun p : sinv store_Resources s -> sc_nextJobID s < two64 - 1 -> sc_jobs s !! i = Some j -> i ∉ sc_active s -> maintenanceRequestPolicy rq = Some (jb_key j, priority, rerun, p) -> jb_key j <> ""%string ->
  exists x j', NewMaintenanceWorker (mergeMaintenanceRequest (jb_request j) rq) = inr x /\ sc_jobs (enqueue (Some NewMaintenanceWorker) rq 0 s).1 !! i = Some j' /\
    continuation j' = (mergeMaintenanceRequest (jb_request j) rq, jb_key j, jb_phase j, Plain x, jb_held j, jb_waiting j).
Proof.
  intros I Hb Hj Ha Hp Hk. destruct (enqueue (Some NewMaintenanceWorker) rq 0 s) as [s' r] eqn:E. destruct (enqueue_spec store_Resources NewMaintenanceWorker law_total _ _ _ _ _ I Hb E) as [(Hn & _)|(_ & id & s0 & l & l' & _ & A)].
  { exfalso. apply Hn, policy_kind. rewrite Hp. eauto. }
  destruct A as [(key' & priority' & rerun' & p' & Hp' & Ek & He & Hor) I0 Hl ->]. rewrite Hp in Hp'. injection Hp' as <- <- <- <-. pose proof (jo_key _ _ _ _ (iv_job _ _ I _ _ Hj) Hk) as Hi.
  destruct Hor as [(_ & Hid & ->)|(_ & Hno & _)]; [|rewrite Hno in Hi by done; discriminate]. assert (id = i) by congruence. subst id. assert (l = j) by congruence. subst l.
  unfold is_active in He. rewrite bool_decide_eq_false_2 in He by done. inversion He as [X|X|x X Hx]; [discriminate|discriminate|]. exists x. eexists. split; [exact Hx|]. cbn. rewrite lookup_insert_eq. split; [reflexivity|].
  unfold join_current. reflexivity.
Qed.

(** A fresh worker cannot go on where another one stopped: at [Publish] it dereferences
    the work it does not have; at [Prove] it proves nothing, and at [Retire] it ends
    with an error. *)
Lemma fresh_worker_fails rq : rq_kind rq = maintenanceSegmentNextRequest -> let w := SegmentMaintenance (new_segment_worker rq) in
  (forall a, store_run a w maintenancePhasePublish = None) /\
  (forall a t w' fx, store_run a w maintenancePhaseProve = Some (t, w', fx) -> t = proceed maintenancePhaseRetire /\
     forall a' t' w'' fx', store_run a' w' maintenancePhaseRetire = Some (t', w'', fx') -> tr_done t' = true /\ Is base_ErrInvalidConfig (tr_err t') = true) /\
  (forall a t w' fx, store_run a w maintenancePhaseRetire = Some (t, w', fx) -> tr_done t = true /\ Is base_ErrInvalidConfig (tr_err t) = true).
Proof.
  intros Hk w. destruct rq as [k source policy generation ga force periodic background automatic]. cbn in Hk. subst k. split; [|split].
  - intros [c|a|a|a]; reflexivity.
  - intros [c|a|a|a] t w' fx; try discriminate. intros [= <- <- _]. split; [reflexivity|]. intros [c|a'|a'|a'] t' w'' fx'; try discriminate. intros [= <- _ _]. split; reflexivity.
  - intros [c|a|a|a] t w' fx; try discriminate. intros [= <- _ _]. split; reflexivity.
Qed.

(** C21: a maintenance tick discards the work of a compaction between its phases.  When the
    timer fires while the automatic compaction of an earlier tick is queued or waits for
    its checkpoint, the job keeps its phase and the recovery protocol, but its worker is
    replaced by a fresh one; whatever the store answers, that worker fails: at [Publish]
    with a nil dereference, at [Prove] and [Retire] with ErrInvalidConfig after no input
    was proved, so that the copied segments are not retired and their journal stays. *)
Theorem tick_discards_compaction n (w : store_world) i j config : nsteps store_step n started w -> within n -> let s := sw_sched w in
  sc_jobs s !! i = Some j -> jb_key j = "segment-auto"%string -> rq_kind (jb_request j) = maintenanceSegmentNextRequest -> i ∉ sc_active s -> mg_DisableSegmentGC config = false ->
  exists rq j', sc_jobs (on_maintenance_tick store_Resources (Some NewMaintenanceWorker) config s) !! i = Some j' /\
    jb_phase j' = jb_phase j /\ jb_held j' = jb_held j /\ jb_waiting j' = jb_waiting j /\ jb_worker j' = Plain (SegmentMaintenance (new_segment_worker rq)) /\
    (forall a, store_run a (SegmentMaintenance (new_segment_worker rq)) maintenancePhasePublish = None) /\
    (forall a t x fx, store_run a (SegmentMaintenance (new_segment_worker rq)) maintenancePhaseProve = Some (t, x, fx) -> t = proceed maintenancePhaseRetire /\
       forall a' t' x' fx', store_run a' x maintenancePhaseRetire = Some (t', x', fx') -> tr_done t' = true /\ Is base_ErrInvalidConfig (tr_err t') = true) /\
    (forall a t x fx, store_run a (SegmentMaintenance (new_segment_worker rq)) maintenancePhaseRetire = Some (t, x, fx) -> tr_done t = true /\ Is base_ErrInvalidConfig (tr_err t) = true).
Proof.
  intros H Hn s Hj Hk Hkind Ha Hd. destruct (steps_fine store_Resources NewMaintenanceWorker law_total store_Run n w H Hn) as ([I _] & B1 & _). fold s in I, B1. unfold within in Hn.
  assert (Hb : sc_nextJobID s < two64 - 1) by lia. set (auto := automatic_request maintenanceSegmentNextRequest (normalizeCompactionPolicy (mg_SegmentPolicy config))). set (rq := mergeMaintenanceRequest (jb_request j) auto).
  destruct (enqueue_replaces s auto i j maintenancePrioritySegment false false I Hb Hj Ha) as (x & j1 & Hx & Hj1 & E1); [rewrite Hk; reflexivity|rewrite Hk; discriminate|]. fold rq in Hx, E1.
  assert (Hrk : rq_kind rq = maintenanceSegmentNextRequest) by (unfold rq; rewrite (proj2 (kind_merge _ _ (jo_kind _ _ _ _ (iv_job _ _ I _ _ Hj)))); exact Hkind).
  assert (x = SegmentMaintenance (new_segment_worker rq)) as -> by (unfold NewMaintenanceWorker in Hx; rewrite Hrk in Hx; now injection Hx as <-).
  pose proof (inv_enqueue store_Resources NewMaintenanceWorker law_total s auto 0 I Hb) as I1. destruct (next_enqueue store_Resources NewMaintenanceWorker law_total s auto 0 I Hb) as [N1 _].
  unfold on_maintenance_tick. rewrite Hd. fold auto. set (s1 := (enqueue (Some NewMaintenanceWorker) auto 0 s).1) in *. clearbody s1.
  assert (Hj2 : sc_jobs (if mg_DisableMappingGC config then s1 else (enqueue (Some NewMaintenanceWorker) (automatic_request maintenanceMappingGCRequest zeroPolicy) 0 s1).1) !! i = Some j1).
  { destruct (mg_DisableMappingGC config); [done|]. apply (goes_on_enqueue s1 _ i j1 "mapping-gc"%string maintenancePriorityMapping false true I1); [lia|done|reflexivity|]. injection E1 as _ -> _. rewrite Hk. discriminate. }
  destruct (goes_on_dispatch _ i j1 Hj2) as (j2 & Hj3 & E2). rewrite E1 in E2. injection E2 as _ _ E3 E4 E5 E6. exists rq, j2. destruct (fresh_worker_fails rq Hrk) as (F1 & F2 & F3). auto 10.
Qed.

(** The checkpoint of the example runs beside the compaction that keeps the recovery protocol. *)
Lemma maintenance_exclusive_witness : exists j l, sc_jobs (sw_sched demo_world) !! 2 = Some j /\ sc_jobs (sw_sched demo_world) !! 1 = Some l /\ jb_held l = maintenanceRecoveryProtocol /\ Z.land (needs store_Resources j) (jb_held l) = 0.
Proof.
  destruct (sc_jobs (sw_sched demo_world) !! 2) as [j|] eqn:Hj; [|vm_compute in Hj; discriminate]. destruct (sc_jobs (sw_sched demo_world) !! 1) as [l|] eqn:Hl; [|vm_compute in Hl; discriminate]. exists j, l. split; [reflexivity|]. split; [reflexivity|].
  assert (Ha : 2 ∈ sc_active (sw_sched demo_world)) by (apply (bool_decide_eq_true_1 (2 ∈ sc_active (sw_sched demo_world))); vm_compute; reflexivity).
  split; [|exact (proj1 (proj1 (maintenance_exclusive 4 demo_world demo_reached ltac:(unfold within; lia)) 2 1 j l ltac:(lia) Hj Hl Ha))]. vm_compute in Hl. injection Hl as <-. reflexivity.
Defined.

(** A caller asks for a checkpoint, another one for the same while it runs; both get their result. *)
Definition demo_asked : list sched_event :=
  [EvSubmit (request_of maintenanceCheckpointRequest) 100; EvSubmit (request_of maintenanceCheckpointRequest) 101; EvDone 1 (AnswerCycle (None, [])); EvDone 1 (AnswerCycle (None, []))].
Definition demo_answered : store_world := match exec_events started demo_asked with Some w => w | None => started end.

Lemma submit_answered_once_witness : NoDup (sc_sent (sw_sched demo_answered)).*1 /\ (sc_sent (sw_sched demo_answered)).*1 = [100; 101].
Proof.
  assert (H : nsteps store_step 4 started demo_answered) by (apply (exec_events_sound demo_asked); vm_compute; reflexivity).
  split; [exact (proj1 (submit_answered_once 4 demo_answered H ltac:(unfold within; lia)))|vm_compute; reflexivity].
Defined.

Lemma maintenance_never_stalls_witness : exists j, sc_jobs (sw_sched demo_world) !! 1 = Some j /\ jb_waiting j = true /\ linked (sw_sched demo_world) 1.
Proof.
  destruct (sc_jobs (sw_sched demo_world) !! 1) as [j|] eqn:Hj; [|vm_compute in Hj; discriminate]. exists j. assert (Hw : jb_waiting j = true) by (vm_compute in Hj; injection Hj as <-; reflexivity). split; [reflexivity|]. split; [exact Hw|].
  destruct (maintenance_never_stalls 4 demo_world demo_reached ltac:(unfold within; lia)) as [H _]; [vm_compute; reflexivity|]. exact (proj2 (proj2 (H 1 j Hj)) Hw).
Defined.

(** In the example the second tick arrives while the compaction waits, with its copies made. *)
Lemma tick_discards_compaction_witness : exists rq j', sc_jobs (on_maintenance_tick store_Resources (Some NewMaintenanceWorker) demo_config (sw_sched demo_world)) !! 1 = Some j' /\ jb_phase j' = maintenancePhaseProve /\
  jb_worker j' = Plain (SegmentMaintenance (new_segment_worker rq)).
Proof.
  destruct (sc_jobs (sw_sched demo_world) !! 1) as [j|] eqn:Hj; [|vm_compute in Hj; discriminate].
  assert (F : jb_key j = "segment-auto"%string /\ rq_kind (jb_request j) = maintenanceSegmentNextRequest /\ jb_phase j = maintenancePhaseProve) by (vm_compute in Hj; injection Hj as <-; split; [reflexivity|split; reflexivity]).
  destruct F as (F1 & F2 & F3). assert (Ha : 1 ∉ sc_active (sw_sched demo_world)) by (apply (bool_decide_eq_false_1 (1 ∈ sc_active (sw_sched demo_world))); vm_compute; reflexivity).
  destruct (tick_discards_compaction 4 demo_world 1 j demo_config demo_reached ltac:(unfold within; lia) Hj F1 F2 Ha eq_refl) as (rq & j' & E1 & E2 & _ & _ & E3 & _). exists rq, j'. rewrite E2. auto.
Defined.

(** An explicit compaction whose caller leaves while it is queued between two phases is
    dropped: here at [Retire], with a survey of the mapping holding the disk.  Nothing
    undoes the copies, completes the space reservation or removes the journal. *)
Definition demo_cancelled : list sched_event :=
  [EvSubmit (mkRequest maintenanceSegmentCompactRequest 1 zeroPolicy 0 false false false false false) 100; EvDone 1 (AnswerSegment demo_answers); EvDone 1 (AnswerSegment demo_answers);
   EvSubmit (request_of maintenanceMappingSurveyRequest) 101; EvDone 2 (AnswerCycle (None, [])); EvDone 1 (AnswerSegment demo_answers)].

Theorem cancelled_compaction_dropped : exists w w' j, exec_events started demo_cancelled = Some w /\ exec_event w (EvCancel 100) = Some w' /\
  sc_jobs (sw_sched w) !! 1 = Some j /\ jb_phase j = maintenancePhaseRetire /\ 1 ∈ sc_pending (sw_sched w) /\ (exists x work, jb_worker j = Plain (SegmentMaintenance x) /\ gw_copyWork x = Some work) /\
  sc_jobs (sw_sched w') !! 1 = None /\ sc_leased (sw_sched w') = maintenanceHeavyIO.
Proof.
  destruct (exec_events started demo_cancelled) as [w|] eqn:E; [|vm_compute in E; discriminate]. destruct (exec_event w (EvCancel 100)) as [w'|] eqn:E'; [|vm_compute in E; injection E as <-; vm_compute in E'; discriminate].
  destruct (sc_jobs (sw_sched w) !! 1) as [j|] eqn:Hj; [|vm_compute in E; injection E as <-; vm_compute in Hj; discriminate]. exists w, w', j. vm_compute in E. injection E as <-. vm_compute in E'. injection E' as <-. vm_compute in Hj. injection Hj as <-.
  split; [reflexivity|]. split; [reflexivity|]. split; [reflexivity|]. split; [reflexivity|]. split; [cbn; apply list_elem_of_singleton; reflexivity|]. split; [eexists _, _; split; reflexivity|]. split; reflexivity.
Qed.
