(* ===== verification/CompactionRecovery.v ===== *)
(** * Interrupted compactions

    Models [internal/engine/compaction_recovery.go] and the durable steps of a
    compaction ([compactSegmentsCopy], [finishCompactionRetirement], [resumeCompaction]
    of the engine): what the journal and the manifest say at every moment, and what the
    next start decides.  An installation of a manifest and a write of the journal are
    single steps ([CatalogFiles], [CompactionState] show that they are atomic); an
    interrupted one is the step or no step, followed by a crash.  Other maintenance of
    data segments does not run at the same time. *)
From S2P Require Import Prelude Bytes Addr RecordFormat Catalog CatalogSpec CatalogRebase CatalogLog Compaction Journals CompactionState.

(** ** The decision at the start *)

Inductive recovery :=
| NoCompaction
| FinishRetire (inputs : list DataSegmentSummary) (generation : Z)
| RollBack (outputIDs : list Z)
| Resume (state : CompactionJournal).

Definition output_present (m : Manifest) (id : Z) : option DataSegmentSummary :=
  match search_sealed (mf_SealedData m) id with Some s => if ds_SegmentID s =? id then Some s else None | None => None end.

Definition set_phase_outputs (st : CompactionJournal) (phase : Z) (outputs : list DataSegmentSummary) : CompactionJournal :=
  mkCompaction phase (cj_StoreUUID st) (cj_LogID st) (cj_BaseGeneration st) (cj_Inputs st) (cj_OutputIDs st) outputs.

(** [loaded] is the answer of [compactionstate.Load].  [FinishRetire] removes the files
    of the inputs and the journal, [RollBack] the files of the outputs and the
    journal. *)
Definition recoverCompactionBeforeOpen (loaded : res (option CompactionJournal)) (m : Manifest) : res recovery :=
  match loaded with
  | Err e => Err (if bool_decide (compactionstate_ErrCorrupt ∈ e) then base_ErrCorrupt :: e else e)
  | Ok None => Ok NoCompaction
  | Ok (Some st) =>
      raise [base_ErrCorrupt] when
        negb (bool_decide (cj_StoreUUID st = mf_StoreUUID m)) || negb (bool_decide (cj_LogID st = mf_RecordLogID m)) || (mf_Generation m <? cj_BaseGeneration st) ;;
      let inputsPresent := len (List.filter (containsSealedSegment m) (cj_Inputs st)) in
      let outputs := omap (output_present m) (cj_OutputIDs st) in
      raise [base_ErrCorrupt] when negb (inputsPresent =? 0) && negb (inputsPresent =? len (cj_Inputs st)) ;;
      if inputsPresent =? 0 then Ok (FinishRetire (cj_Inputs st) (mf_Generation m))
      else if bool_decide (outputs = []) then
        if cj_Phase st =? PhaseReserved then Ok (RollBack (cj_OutputIDs st))
        else raise [base_ErrCorrupt] when negb (len (cj_Outputs st) =? 0) ;; Ok (Resume st)
      else
        raise [base_ErrCorrupt] when (PhaseOutputsPublished <=? cj_Phase st) && negb (bool_decide (outputs = cj_Outputs st)) ;;
        Ok (Resume (set_phase_outputs st PhaseOutputsPublished outputs))
  end.

(** ** The durable steps *)

(** What a process knows: [HasIDs] after the reservation of the output ids,
    [OutputsIn] after the outputs are in the manifest, [InputsGone] after the inputs
    have left it. *)
Inductive memory :=
| Down | Ready
| HasIDs (st : CompactionJournal) | Copying (st : CompactionJournal) | RollingBack
| OutputsIn (st : CompactionJournal) | Relocating (st : CompactionJournal) | InputsGone (st : CompactionJournal) | Finalizing.

Record gworld := mkGc { gw_manifest : Manifest; gw_journal : option CompactionJournal; gw_memory : memory }.

(** Transitions of the catalog that are not maintenance of data segments. *)
Inductive other (m : Manifest) : Manifest -> Prop :=
| ot_data_rotation expect update next : InstallDataRotation m expect update = Ok next -> other m next
| ot_map_rotation expect update next : is_u32 (mr_NewActive update) -> InstallMapRotation m expect update = Ok next -> other m next
| ot_rewrite base update next : is_u32 (rw_ActiveSegment update) -> InstallMappingRewrite m base update = Ok next -> other m next
| ot_checkpoint base update next : InstallCheckpoint m base update = Ok next -> other m next.

Definition reserved_state (m : Manifest) (inputs : list DataSegmentSummary) (ids : list Z) : CompactionJournal :=
  mkCompaction PhaseReserved (mf_StoreUUID m) (mf_RecordLogID m) (mf_Generation m) inputs ids [].

(** The journal and the memory after the decision is carried out. *)
Definition recovered (journal : option CompactionJournal) (a : recovery) : option CompactionJournal * memory :=
  match a with
  | NoCompaction => (journal, Ready)
  | FinishRetire _ _ | RollBack _ => (None, Ready)
  | Resume st => (journal, Relocating st)
  end.

Inductive gc_durable (w : gworld) : gworld -> Prop :=
| gd_reserve inputs next ids : gw_memory w = Ready -> Forall (fun s => containsSealedSegment (gw_manifest w) s = true) inputs ->
    ReserveCompactionSegments (gw_manifest w) (mf_Generation (gw_manifest w)) (len inputs) = Ok (next, ids) ->
    gc_durable w (mkGc next (gw_journal w) (HasIDs (reserved_state next inputs ids)))
| gd_install st : gw_memory w = HasIDs st -> gw_journal w = None -> compaction_valid st = true -> gc_durable w (mkGc (gw_manifest w) (Some st) (Copying st))
| gd_outputs st outputs next : gw_memory w = Copying st -> outputs <> [] -> (length outputs <= length (cj_OutputIDs st))%nat -> outputs_match (cj_OutputIDs st) outputs = true ->
    InstallCompactionOutputs (gw_manifest w) (mf_Generation (gw_manifest w)) outputs = Ok next ->
    gc_durable w (mkGc next (gw_journal w) (OutputsIn (set_phase_outputs st PhaseReserved outputs)))
| gd_no_outputs st : gw_memory w = Copying st -> gc_durable w (mkGc (gw_manifest w) (gw_journal w) (OutputsIn (set_phase_outputs st PhaseReserved [])))
| gd_rollback st : gw_memory w = Copying st -> gc_durable w (mkGc (gw_manifest w) (gw_journal w) RollingBack)
| gd_rolled_back : gw_memory w = RollingBack -> gc_durable w (mkGc (gw_manifest w) None Ready)
| gd_published st : gw_memory w = OutputsIn st -> let st := set_phase_outputs st PhaseOutputsPublished (cj_Outputs st) in compaction_valid st = true -> gc_durable w (mkGc (gw_manifest w) (Some st) (Relocating st))
| gd_retire st covered pos next : gw_memory w = Relocating st -> InstallDataCompaction (gw_manifest w) (mf_Generation (gw_manifest w)) (cj_Inputs st) covered pos = Ok next -> gc_durable w (mkGc next (gw_journal w) (InputsGone st))
| gd_retired st : gw_memory w = InputsGone st -> let st := set_phase_outputs st PhaseInputsRetired (cj_Outputs st) in compaction_valid st = true -> gc_durable w (mkGc (gw_manifest w) (Some st) Finalizing)
| gd_done : gw_memory w = Finalizing -> gc_durable w (mkGc (gw_manifest w) None Ready)
| gd_other next : gw_memory w <> Down -> other (gw_manifest w) next -> gc_durable w (mkGc next (gw_journal w) (gw_memory w))
| gd_crash : gc_durable w (mkGc (gw_manifest w) (gw_journal w) Down)
| gd_open a : gw_memory w = Down -> recoverCompactionBeforeOpen (Ok (gw_journal w)) (gw_manifest w) = Ok a ->
    gc_durable w (mkGc (gw_manifest w) (recovered (gw_journal w) a).1 (recovered (gw_journal w) a).2).

(** ** What the manifest says of a compaction *)

Definition sealed_ids (m : Manifest) : list Z := map ds_SegmentID (mf_SealedData m).
Definition all_in (m : Manifest) (st : CompactionJournal) : Prop := forall s, s ∈ cj_Inputs st -> s ∈ mf_SealedData m.
Definition none_in (m : Manifest) (st : CompactionJournal) : Prop := forall s, s ∈ cj_Inputs st -> ds_SegmentID s ∉ sealed_ids m.
Definition found (m : Manifest) (st : CompactionJournal) : list DataSegmentSummary := omap (find_data (mf_SealedData m)) (cj_OutputIDs st).

Lemma search_ascending l id : ascending l -> match search_sealed l id with Some s => if ds_SegmentID s =? id then Some s else None | None => None end = find_data l id.
Proof.
  unfold ascending, search_sealed, find_data. induction 1 as [|x l Hs IH Hf]; [reflexivity|]. cbn [List.find]. destruct (Z.eqb_spec (ds_SegmentID x) id) as [E|E].
  - replace (id <=? ds_SegmentID x) with true by (symmetry; apply Z.leb_le; lia). now rewrite (proj2 (Z.eqb_eq _ _) E).
  - destruct (Z.leb_spec id (ds_SegmentID x)) as [Hle|Hgt]; [|exact IH]. replace (ds_SegmentID x =? id) with false by (symmetry; now apply Z.eqb_neq). symmetry. destruct (List.find (fun s => ds_SegmentID s =? id) l) as [y|] eqn:Ey; [|reflexivity]. exfalso. apply List.find_some in Ey as [Hy Ey%Z.eqb_eq]. rewrite Forall_forall in Hf. apply list_elem_of_In in Hy. specialize (Hf y Hy). lia.
Qed.

Lemma contains_iff m s : ascending (mf_SealedData m) -> containsSealedSegment m s = true <-> s ∈ mf_SealedData m.
Proof.
  intros Ha. unfold containsSealedSegment. pose proof (search_ascending _ (ds_SegmentID s) Ha) as H. split.
  - destruct (search_sealed _ _) as [x|] eqn:E; [|discriminate]. intros Hx%bool_decide_eq_true. subst x. unfold search_sealed in E. apply List.find_some in E as [E _]. now apply list_elem_of_In.
  - intros Hin. rewrite (find_data_ascending _ _ Ha Hin) in H. destruct (search_sealed _ _) as [x|]; [|discriminate]. destruct (ds_SegmentID x =? _); [|discriminate]. injection H as ->. now apply bool_decide_eq_true.
Qed.

Lemma find_data_eq l l' id : ascending l -> ascending l' -> (forall s, ds_SegmentID s = id -> s ∈ l <-> s ∈ l') -> find_data l id = find_data l' id.
Proof.
  intros Ha Ha' H. destruct (find_data l id) as [s|] eqn:E.
  - apply find_data_inv in E as [E1 E2]. apply H in E1; [|exact E2]. pose proof (find_data_ascending _ _ Ha' E1) as F. now rewrite E2 in F.
  - destruct (find_data l' id) as [s|] eqn:E'; [|reflexivity]. apply find_data_inv in E' as [E1 E2]. apply H in E1; [|exact E2]. pose proof (find_data_ascending _ _ Ha E1) as F. congruence.
Qed.

(** *** The other transitions *)

Record data_kept (m n : Manifest) : Prop := mkKept {
  dk_keeps : forall s, s ∈ mf_SealedData m -> s ∈ mf_SealedData n;
  dk_new : forall s, s ∈ mf_SealedData n -> s ∈ mf_SealedData m \/ ds_SegmentID s = mf_ActiveData m;
}.

Lemma other_kept m n : serves m -> other m n -> serves n /\ forward m n /\ data_kept m n.
Proof.
  intros Hm O. assert (T : transition m n) by (destruct O as [? ? ? H|? ? ? ? H|? ? ? ? H|? ? ? H]; [eapply tr_data_rotation|eapply tr_map_rotation|eapply tr_rewrite|eapply tr_checkpoint]; eauto). destruct (transition_forward m n Hm T) as (Hf & Hn & _). split; [exact Hn|]. split; [exact Hf|]. clear T Hf Hn.
  destruct O as [ex up n E|ex up n Hu E|base up n Hu E|base up n E].
  - apply install_inv in E as (E & _). unfold apply_data_rotation in E. inv_ok E. apply Ok_inj in E. bool_norm. subst n. cbn in *. split; cbn [mf_SealedData set_data set_generation]; intros s; rewrite sort_elem, elem_of_app, list_elem_of_singleton; [tauto|intros [Hin| ->]; auto].
  - apply install_inv in E as (E & _). unfold apply_map_rotation in E. inv_ok E. apply Ok_inj in E. subst n. split; cbn; auto.
  - apply install_rebased_inv in E as (E & _). apply rewrite_first in E as (_ & _ & _ & ->). split; cbn; auto.
  - apply install_rebased_inv in E as (E & _). unfold applyCheckpoint in E. inv_ok E. apply Ok_inj in E. subst n. split; cbn; auto.
Qed.

Lemma serves_ascending m : serves m -> ascending (mf_SealedData m) /\ mf_ActiveData m < CompactionSegmentBase /\ Forall (fun s => ds_SegmentID s < mf_ActiveData m \/ CompactionSegmentBase <= ds_SegmentID s) (mf_SealedData m).
Proof.
  intros [Hv _]. destruct (manifest_split m Hv) as (H1 & _ & H2 & N & O & E & HN & HO). split; [exact H2|]. split; [exact H1|]. rewrite E. apply Forall_app. split; [apply (Forall_impl _ _ _ HN)|apply (Forall_impl _ _ _ HO)]; unfold normal, output; intros s Hs; lia.
Qed.

(** *** Facts that other work keeps *)

Record tied (m : Manifest) (j : CompactionJournal) : Prop := mkTied {
  ti_ident : cj_StoreUUID j = mf_StoreUUID m /\ cj_LogID j = mf_RecordLogID m /\ cj_BaseGeneration j <= mf_Generation m;
  ti_inputs : forall s, s ∈ cj_Inputs j -> ds_SegmentID s < mf_ActiveData m \/ CompactionSegmentBase <= ds_SegmentID s;
  ti_ids : StronglySorted Z.lt (cj_OutputIDs j) /\ forall id, id ∈ cj_OutputIDs j -> CompactionSegmentBase <= id;
}.

Lemma tied_forward m n j : forward m n -> tied m j -> tied n j.
Proof.
  intros [(F1 & F2 & _) F3 F4 _ _ _ _ _] [(T1 & T2 & T3) T4 T5]. split; [split; [|split]; [congruence|congruence|lia]| |exact T5]. intros s Hs. destruct (T4 s Hs); [left; lia|now right].
Qed.

Section Kept.
Context (m n : Manifest) (Hm : serves m) (Hn : serves n) (Hk : data_kept m n) (j : CompactionJournal) (Ht : tied m j).

Lemma kept_all_in : all_in m j -> all_in n j.
Proof. intros H s Hs. apply (dk_keeps _ _ Hk), H, Hs. Qed.

Lemma kept_none_in : none_in m j -> none_in n j.
Proof.
  intros H s Hs Hin. apply list_elem_of_fmap in Hin as (x & Ex & Hx). destruct (dk_new _ _ Hk x Hx) as [Hx'|Ea]; [apply (H s Hs); rewrite Ex; apply list_elem_of_fmap; eauto|]. destruct (serves_ascending m Hm) as (_ & Hb & _). destruct (ti_inputs _ _ Ht s Hs); lia.
Qed.

Lemma kept_found : found n j = found m j.
Proof.
  unfold found. destruct (serves_ascending m Hm) as (Ha & Hb & _). destruct (serves_ascending n Hn) as (Ha' & _). pose proof (proj2 (ti_ids _ _ Ht)) as Hids. clear Ht. revert Hids. induction (cj_OutputIDs j) as [|id ids IH]; intros Hids; [reflexivity|]. cbn. rewrite IH by (intros; apply Hids; now right).
  rewrite (find_data_eq (mf_SealedData n) (mf_SealedData m) id Ha' Ha); [reflexivity|]. intros s Es. split; [|apply (dk_keeps _ _ Hk)]. intros Hs. destruct (dk_new _ _ Hk s Hs) as [H|H]; [exact H|]. specialize (Hids id ltac:(now left)). lia.
Qed.
End Kept.

(** *** The outputs *)

Lemma add_outputs_app fl outs : forall l r, add_outputs fl l outs = Ok r -> r = l ++ outs /\ (forall o, o ∈ outs -> ds_SegmentID o ∉ map ds_SegmentID l).
Proof.
  induction outs as [|o outs IH]; intros l r E; cbn in E; [apply Ok_inj in E; rewrite app_nil_r; split; [auto|intros o H; inversion H]|]. inv_ok E. destruct (IH _ _ E) as [-> H]. split; [now rewrite <- app_assoc|]. intros x Hx. apply elem_of_cons in Hx as [->|Hx].
  - intros Hin. apply list_elem_of_fmap in Hin as (y & Ey & Hy). apply not_true_iff_false in Hguard0. apply Hguard0, existsb_exists. exists y. split; [now apply list_elem_of_In|apply Z.eqb_eq; congruence].
  - specialize (H x Hx). rewrite map_app in H. intros Hin. apply H, elem_of_app. now left.
Qed.

Lemma reserved_sorted m expect count next ids : ReserveCompactionSegments m expect count = Ok (next, ids) -> 0 <= count -> StronglySorted Z.lt ids /\ forall id, id ∈ ids -> CompactionSegmentBase <= id.
Proof.
  intros E Hc. pose proof (fun id => reserved_range m expect count next ids id E Hc) as Hr. apply reserve_inv in E as (_ & _ & -> & _); [|exact Hc]. split; [|intros id Hid; now apply Hr]. clear Hr. generalize 0%nat at 1. generalize (Z.to_nat count). induction n as [|n IH]; intros k; cbn [seq map]; constructor; [apply IH|]. apply Forall_fmap, Forall_forall. intros i Hi%elem_of_seq. cbn. lia.
Qed.

(** The outputs are found again under the first of the reserved ids. *)
Lemma outputs_are_found l ids outputs : (length outputs <= length ids)%nat -> outputs_match ids outputs = true -> StronglySorted Z.lt ids -> ascending l -> (forall o, o ∈ outputs -> o ∈ l) -> (forall s, s ∈ l -> ds_SegmentID s ∈ ids -> s ∈ outputs) ->
  omap (find_data l) ids = outputs.
Proof.
  intros Hlen Hmatch Hs Ha Hin Honly.
  revert outputs Hlen Hmatch Hin Honly. induction Hs as [|id ids Hs IH Hf]; intros [|o outputs] Hlen Hmatch Hin Honly; cbn [length] in Hlen; try lia; [reflexivity| |]; rewrite Forall_forall in Hf.
  - cbn. destruct (find_data l id) as [s|] eqn:E; [exfalso; apply find_data_inv in E as [E1 E2]; specialize (Honly s E1 ltac:(rewrite E2; now left)); inversion Honly|]. apply (IH []); [cbn; lia|reflexivity|intros o Ho; inversion Ho|]. intros s H1 H2. apply Honly; [exact H1|now right].
  - cbn [outputs_match combine forallb] in Hmatch. apply andb_true_iff in Hmatch as [Hm1 Hm2]. cbn [fst snd] in Hm1. apply andb_true_iff in Hm1 as [_ Hm1%Z.eqb_eq]. cbn [omap list_omap]. rewrite <- Hm1, (find_data_ascending _ _ Ha (Hin o ltac:(now left))). f_equal. apply IH; [lia|exact Hm2|intros x Hx; apply Hin; now right|]. intros s H1 H2. specialize (Honly s H1 ltac:(now right)). apply elem_of_cons in Honly as [->|H]; [|exact H]. exfalso. specialize (Hf _ H2). lia.
Qed.

(** *** The inputs *)

Lemma collected m inputs : forall remove r, collect_inputs m remove inputs = Ok r -> forall id, (is_Some (remove !! id) \/ exists s, s ∈ inputs /\ ds_SegmentID s = id) -> is_Some (r !! id).
Proof.
  induction inputs as [|x inputs IH]; intros remove r E id H; cbn in E; [apply Ok_inj in E; subst r; destruct H as [H|(s & Hs & _)]; [exact H|inversion Hs]|]. inv_ok E. apply (IH _ _ E). destruct (decide (ds_SegmentID x = id)) as [<-|Hne]; [left; rewrite lookup_insert_eq; eauto|]. destruct H as [H|(s & Hs & Es)]; [left; now rewrite lookup_insert_ne|]. right. exists s. apply elem_of_cons in Hs as [->|Hs]; [contradiction|auto].
Qed.

Lemma removed_gone segs : ascending segs -> forall remove kept pending, remove_inputs remove segs = Ok (kept, pending) -> forall s, s ∈ kept -> remove !! ds_SegmentID s = None.
Proof.
  induction 1 as [|x segs Hs IH Hf]; intros remove kept pending E s Hin; cbn in E; [injection E as <- <-; inversion Hin|]. rewrite Forall_forall in Hf. destruct (remove !! ds_SegmentID x) as [want|] eqn:Ex.
  - inv_ok E. pose proof (IH _ _ _ E s Hin) as H. apply lookup_delete_None in H as [H|H]; [|exact H]. exfalso. destruct (remove_inputs_spec _ _ _ _ E) as [_ Hsub]. specialize (Hf s (Hsub s Hin)). lia.
  - destruct (remove_inputs remove segs) as [[kept' pending']|] eqn:Er; [|discriminate]. injection E as <- <-. apply elem_of_cons in Hin as [->|Hin]; [exact Ex|]. exact (IH _ _ _ Er s Hin).
Qed.

Lemma retired_none m n inputs covered pos : ascending (mf_SealedData m) -> apply_compaction inputs covered pos m = Ok n -> forall s, s ∈ inputs -> ds_SegmentID s ∉ sealed_ids n.
Proof.
  intros Ha E s Hs Hin. unfold apply_compaction in E. destruct (_ || _ || _); [discriminate|]. destruct (collect_inputs m ∅ inputs) as [rem|] eqn:Ec; [|discriminate]. destruct (remove_inputs rem _) as [[kept pending]|] eqn:Er; [|discriminate]. inv_ok E. apply Ok_inj in E. subst n. unfold sealed_ids in Hin. cbn [mf_SealedData set_stats set_data] in Hin.
  apply list_elem_of_fmap in Hin as (x & Ex & Hx). pose proof (removed_gone _ Ha _ _ _ Er x Hx) as Hn. destruct (collected _ _ _ _ Ec (ds_SegmentID x)) as [y Hy]; [right; exists s; auto|]. congruence.
Qed.

(** ** The invariant *)

(** The manifest agrees with the journal: all inputs are there, and the outputs that
    are there are those of a published journal; or no input is. *)
Definition settled (m : Manifest) (j : CompactionJournal) : Prop :=
  (all_in m j /\ (cj_Phase j = PhaseReserved \/ cj_Phase j = PhaseOutputsPublished /\ cj_Outputs j = found m j)) \/ none_in m j.

Definition memory_ok (m : Manifest) (j : CompactionJournal) (x : memory) : Prop :=
  match x with
  | Down => True
  | Ready | HasIDs _ => False
  | Copying st => st = j /\ cj_Phase j = PhaseReserved /\ all_in m j /\ found m j = []
  | RollingBack => True
  | OutputsIn st => st = set_phase_outputs j PhaseReserved (found m j) /\ all_in m j /\ cj_Phase j = PhaseReserved
  | Relocating st => st = set_phase_outputs j PhaseOutputsPublished (found m j) /\ all_in m j
  | InputsGone st => (exists p outs, st = set_phase_outputs j p outs) /\ none_in m j
  | Finalizing => none_in m j
  end.

Definition gc_inv (w : gworld) : Prop :=
  serves (gw_manifest w) /\
  match gw_journal w with
  | None =>
      match gw_memory w with
      | Down | Ready => True
      | HasIDs st => tied (gw_manifest w) st /\ all_in (gw_manifest w) st /\ found (gw_manifest w) st = [] /\ cj_Phase st = PhaseReserved
      | _ => False
      end
  | Some j => tied (gw_manifest w) j /\ compaction_valid j = true /\ settled (gw_manifest w) j /\ memory_ok (gw_manifest w) j (gw_memory w)
  end.

Lemma tied_same m j p outs : tied m j -> tied m (set_phase_outputs j p outs).
Proof. intros [H1 H2 H3]. now split. Qed.

Lemma count_present m j : serves m -> compaction_valid j = true -> settled m j ->
  cj_Inputs j <> [] /\ (all_in m j -> List.filter (containsSealedSegment m) (cj_Inputs j) = cj_Inputs j) /\ (none_in m j -> List.filter (containsSealedSegment m) (cj_Inputs j) = []).
Proof.
  intros Hm Hv _. destruct (serves_ascending m Hm) as (Ha & _). split; [|split].
  - unfold compaction_valid in Hv. destruct (_ || _) eqn:E in Hv; [discriminate|]. intros En. rewrite En in E. cbn in E. rewrite !orb_true_r in E. discriminate.
  - intros H. assert (Hall : forall s, s ∈ cj_Inputs j -> containsSealedSegment m s = true) by (intros s Hs; now apply contains_iff, H). clear -Hall. induction (cj_Inputs j) as [|s l IH]; [reflexivity|]. cbn. rewrite (Hall s ltac:(now left)), IH; [reflexivity|]. intros x Hx. apply Hall. now right.
  - intros H. assert (Hall : forall s, s ∈ cj_Inputs j -> containsSealedSegment m s = false). { intros s Hs. apply not_true_iff_false. intros E. apply contains_iff in E; [|exact Ha]. apply (H s Hs). apply list_elem_of_fmap. eauto. } clear -Hall. induction (cj_Inputs j) as [|s l IH]; [reflexivity|]. cbn. rewrite (Hall s ltac:(now left)). apply IH. intros x Hx. apply Hall. now right.
Qed.

Lemma all_and_none m j : cj_Inputs j <> [] -> all_in m j -> none_in m j -> False.
Proof. intros Hne H1 H2. destruct (cj_Inputs j) as [|s l] eqn:E; [contradiction|]. apply (H2 s); [rewrite E; now left|]. apply list_elem_of_fmap. exists s. split; [reflexivity|]. apply H1. rewrite E. now left. Qed.

(** The decision of the next start. *)
Lemma decision m j : serves m -> tied m j -> compaction_valid j = true -> settled m j ->
  (none_in m j /\ recoverCompactionBeforeOpen (Ok (Some j)) m = Ok (FinishRetire (cj_Inputs j) (mf_Generation m))) \/
  (all_in m j /\ found m j = [] /\ cj_Phase j = PhaseReserved /\ recoverCompactionBeforeOpen (Ok (Some j)) m = Ok (RollBack (cj_OutputIDs j))) \/
  (all_in m j /\ recoverCompactionBeforeOpen (Ok (Some j)) m = Ok (Resume (set_phase_outputs j PhaseOutputsPublished (found m j)))).
Proof.
  intros Hm [(T1 & T2 & T3) _ _] Hv Hset. destruct (serves_ascending m Hm) as (Ha & _). destruct (count_present m j Hm Hv Hset) as (Hne & Hall & Hnone). unfold recoverCompactionBeforeOpen. rewrite T1, T2, !bool_decide_eq_true_2 by reflexivity. replace (mf_Generation m <? _) with false by (symmetry; now apply Z.ltb_ge). cbn [negb orb].
  assert (Ef : omap (output_present m) (cj_OutputIDs j) = found m j) by (unfold found; induction (cj_OutputIDs j) as [|id ids IH]; [reflexivity|]; cbn; rewrite IH; unfold output_present; now rewrite (search_ascending _ id Ha)). rewrite Ef.
  destruct Hset as [[Hin Hph]|Hout]; [right|left; split; [exact Hout|]; rewrite (Hnone Hout); reflexivity].
  rewrite (Hall Hin). assert (Hlen : (len (cj_Inputs j) =? 0) = false) by (apply Z.eqb_neq; destruct (cj_Inputs j) as [|s l]; [contradiction|]; rewrite len_cons; pose proof (len_nonneg l); lia). rewrite Hlen, Z.eqb_refl. cbn [negb andb]. destruct (bool_decide_reflect (found m j = [])) as [En|En].
  - destruct Hph as [Hph|[Hph Hout]]; rewrite Hph; cbn [Z.eqb Pos.eqb]; [left; auto|right]. split; [exact Hin|]. rewrite Hout, En. cbn [len length Z.of_nat Z.eqb negb]. rewrite En in Hout. f_equal. f_equal. clear -Hph Hout. destruct j as [ph su lo ba ins oi outs]. cbn [cj_Phase cj_Outputs] in *. now subst.
  - right. split; [exact Hin|]. destruct Hph as [Hph|[Hph Hout]]; rewrite Hph; cbn [andb]; [reflexivity|]. rewrite Hout, bool_decide_eq_true_2 by reflexivity. reflexivity.
Qed.

(** ** Every step keeps the invariant *)

Lemma reserve_step m inputs next ids : serves m -> Forall (fun s => containsSealedSegment m s = true) inputs -> ReserveCompactionSegments m (mf_Generation m) (len inputs) = Ok (next, ids) ->
  let st := reserved_state next inputs ids in serves next /\ tied next st /\ all_in next st /\ found next st = [].
Proof.
  intros Hm Hin E st. pose proof (len_nonneg inputs) as Hl. destruct (transition_forward m next Hm (tr_reserve m _ _ next ids Hl E)) as (_ & Hn & _). destruct (serves_ascending m Hm) as (Ha & _ & Hold). destruct (reserved_sorted _ _ _ _ _ E Hl) as [Hs1 Hs2]. assert (Ed : mf_SealedData next = mf_SealedData m /\ mf_ActiveData next = mf_ActiveData m) by (apply reserve_inv in E as (-> & _); [split; reflexivity|exact Hl]). destruct Ed as [Ed Eact].
  rewrite Forall_forall in Hin, Hold. assert (Hall : forall s, s ∈ inputs -> s ∈ mf_SealedData m) by (intros s Hs; now apply contains_iff, Hin). split; [exact Hn|]. split; [|split].
  - split; [cbn; split; [reflexivity|split; [reflexivity|lia]]| |split; assumption]. intros s Hs. rewrite Eact. apply Hold, Hall, Hs.
  - intros s Hs. rewrite Ed. apply Hall, Hs.
  - unfold found. cbn [reserved_state cj_OutputIDs st]. rewrite Ed. assert (Hno : forall id, id ∈ ids -> find_data (mf_SealedData m) id = None). { intros id Hid. destruct (find_data _ id) as [s|] eqn:Ef; [|reflexivity]. exfalso. apply find_data_inv in Ef as [Ef1 Ef2]. destruct (reserved_range _ _ _ _ _ id E Hl Hid) as [R1 R2]. destruct Hm as [Hm _]. destruct (manifest_facts_of m Hm) as [_ _ _ _ Fd _ _ _]. unfold validateDataSet in Fd. bool_norm.
      match goal with H : data_set_ok _ _ _ _ _ = true |- _ => destruct (sealed_above _ _ _ id _ _ H) as [S1 S2] end; [lia|exact R2|apply list_elem_of_fmap; eauto|]. unfold floor_top in R1. replace (mf_CompactionFloor m =? 0) with false in R1 by (symmetry; now apply Z.eqb_neq). lia. }
    clear -Hno. induction ids as [|id ids IH]; [reflexivity|]. cbn. rewrite (Hno id ltac:(now left)). apply IH. intros x Hx. apply Hno. now right.
Qed.

Lemma outputs_step m j outputs next : serves m -> tied m j -> all_in m j -> found m j = [] -> outputs <> [] -> (length outputs <= length (cj_OutputIDs j))%nat -> outputs_match (cj_OutputIDs j) outputs = true -> InstallCompactionOutputs m (mf_Generation m) outputs = Ok next ->
  serves next /\ tied next j /\ all_in next j /\ found next j = outputs.
Proof.
  intros Hm Ht Hin Hno Hne Hlen Hmatch E. destruct (transition_forward m next Hm (tr_outputs m _ _ next E)) as (Hf & Hn & _). destruct (serves_ascending next Hn) as (Ha & _). apply install_inv in E as (E & _). unfold apply_outputs in E. inv_ok E. apply Ok_inj in E. apply add_outputs_app in Hcall as [-> _]. cbn [mf_SealedData set_generation] in E.
  assert (Hel : forall s, s ∈ mf_SealedData next <-> s ∈ mf_SealedData m \/ s ∈ outputs) by (intros s; subst next; cbn [mf_SealedData set_data]; now rewrite sort_elem, elem_of_app). split; [exact Hn|]. split; [now apply (tied_forward m)|]. split; [intros s Hs; apply Hel; left; now apply Hin|].
  unfold found. destruct (ti_ids _ _ Ht) as [Hsort _]. apply outputs_are_found; auto; [intros o Ho; apply Hel; now right|]. intros s Hs Hid. apply Hel in Hs as [Hs|Hs]; [|exact Hs]. exfalso. destruct (serves_ascending m Hm) as (Ham & _). assert (Hx : s ∈ found m j) by (unfold found; apply list_elem_of_omap; exists (ds_SegmentID s); split; [exact Hid|now apply find_data_ascending]). rewrite Hno in Hx. inversion Hx.
Qed.

Lemma retire_step m j covered pos next : serves m -> tied m j -> InstallDataCompaction m (mf_Generation m) (cj_Inputs j) covered pos = Ok next -> serves next /\ tied next j /\ none_in next j.
Proof.
  intros Hm Ht E. destruct (transition_forward m next Hm (tr_compaction m _ _ _ _ next E)) as (Hf & Hn & _). destruct (serves_ascending m Hm) as (Ha & _). split; [exact Hn|]. split; [now apply (tied_forward m)|]. apply install_inv in E as (E & _). intros s Hs. eapply (retired_none (set_generation m (mf_Generation m + 1))); [exact Ha|exact E|exact Hs].
Qed.

Lemma other_step m n j : serves m -> other m n -> tied m j -> serves n /\ tied n j /\ (all_in m j -> all_in n j) /\ (none_in m j -> none_in n j) /\ found n j = found m j.
Proof.
  intros Hm O Ht. destruct (other_kept m n Hm O) as (Hn & Hf & Hk). split; [exact Hn|]. split; [now apply (tied_forward m)|]. split; [now apply kept_all_in|]. split; [now apply (kept_none_in m n)|now apply (kept_found m n)].
Qed.

Lemma settled_other m n j : (all_in m j -> all_in n j) -> (none_in m j -> none_in n j) -> found n j = found m j -> settled m j -> settled n j.
Proof. unfold settled. intros H1 H2 ->. tauto. Qed.

Lemma memory_other m n j x : (all_in m j -> all_in n j) -> (none_in m j -> none_in n j) -> found n j = found m j -> memory_ok m j x -> memory_ok n j x.
Proof. intros H1 H2 H3. destruct x; cbn; rewrite ?H3; tauto. Qed.

Lemma other_inv w next : gc_inv w -> other (gw_manifest w) next -> gc_inv (mkGc next (gw_journal w) (gw_memory w)).
Proof.
  intros [Hm I] O. unfold gc_inv. cbn [gw_manifest gw_journal gw_memory]. destruct (other_kept _ _ Hm O) as (Hn & _). split; [exact Hn|]. destruct (gw_journal w) as [j|].
  - destruct I as (T & V & S & M). destruct (other_step _ _ j Hm O T) as (_ & T' & K1 & K2 & K3). split; [exact T'|]. split; [exact V|]. split; [now apply (settled_other (gw_manifest w))|now apply (memory_other (gw_manifest w))].
  - destruct (gw_memory w); try exact I. destruct I as (T & A & F & P). destruct (other_step _ _ st Hm O T) as (_ & T' & K1 & K2 & K3). rewrite K3. auto.
Qed.

Lemma open_inv w a : gc_inv w -> gw_memory w = Down -> recoverCompactionBeforeOpen (Ok (gw_journal w)) (gw_manifest w) = Ok a -> gc_inv (mkGc (gw_manifest w) (recovered (gw_journal w) a).1 (recovered (gw_journal w) a).2).
Proof.
  intros [Hm I] Hd E. unfold gc_inv. cbn [gw_manifest gw_journal gw_memory]. split; [exact Hm|]. destruct (gw_journal w) as [j|]; [|injection E as <-; exact Logic.I]. destruct I as (T & V & S & _). destruct (decision _ j Hm T V S) as [(_ & D)|[(_ & _ & _ & D)|(A & D)]]; rewrite E in D; injection D as ->; cbn; auto.
Qed.

Lemma gc_durable_inv w w' : gc_inv w -> gc_durable w w' -> gc_inv w'.
Proof.
  intros Hi Hs. pose proof Hi as [Hm I]. destruct Hs as [inputs next ids Em Hin E|st Em Ej Hv|st outputs next Em Hne Hlen Hmatch E|st Em|st Em|Em|st Em st' Hv|st covered pos next Em E|st Em st' Hv|Em|next Em O| |a Em E]; try (now apply other_inv); try (now apply open_inv); unfold gc_inv in *; cbn [gw_manifest gw_journal gw_memory] in *; try rewrite Em in I.
  - destruct (reserve_step _ _ _ _ Hm Hin E) as (Hn & T & A & F). split; [exact Hn|]. destruct (gw_journal w) as [j|]; [now destruct I as (_ & _ & _ & [])|]. auto.
  - rewrite Ej in I. destruct I as (T & A & F & P). split; [exact Hm|]. split; [exact T|]. split; [exact Hv|]. split; [left; auto|]. cbn. auto.
  - destruct (gw_journal w) as [j|]; [|destruct I]. destruct I as (T & V & _ & -> & P & A & F). destruct (outputs_step _ j _ _ Hm T A F Hne Hlen Hmatch E) as (Hn & T' & A' & F'). split; [exact Hn|]. split; [exact T'|]. split; [exact V|]. split; [left; auto|]. cbn. now rewrite F'.
  - destruct (gw_journal w) as [j|]; [|destruct I]. destruct I as (T & V & S & -> & P & A & F). split; [exact Hm|]. split; [exact T|]. split; [exact V|]. split; [exact S|]. cbn. now rewrite F.
  - destruct (gw_journal w) as [j|]; [|destruct I]. destruct I as (T & V & S & _). split; [exact Hm|]. cbn. auto.
  - split; [exact Hm|exact Logic.I].
  - destruct (gw_journal w) as [j|]; [|destruct I]. destruct I as (T & V & S & Es & A & P). split; [exact Hm|]. subst st' st. split; [now do 2 apply tied_same|]. split; [exact Hv|]. split; [left; split; [exact A|right; auto]|]. cbn. auto.
  - destruct (gw_journal w) as [j|]; [|destruct I]. destruct I as (T & V & S & Es & A). subst st. destruct (retire_step _ j _ _ _ Hm T E) as (Hn & T' & N). split; [exact Hn|]. split; [exact T'|]. split; [exact V|]. split; [now right|]. cbn. eauto.
  - destruct (gw_journal w) as [j|]; [|destruct I]. destruct I as (T & V & S & (p & outs & Es) & N). split; [exact Hm|]. subst st' st. split; [now do 2 apply tied_same|]. split; [exact Hv|]. split; [now right|exact N].
  - split; [exact Hm|exact Logic.I].
  - split; [exact Hm|]. destruct (gw_journal w) as [j|]; [|exact Logic.I]. destruct I as (T & V & S & _). cbn. auto.
Qed.

Lemma gc_durable_reach w w' : gc_inv w -> rtc gc_durable w w' -> gc_inv w'.
Proof. intros Hi Hr. induction Hr as [|x y z Hs _ IH]; [exact Hi|]. apply IH. now apply (gc_durable_inv x). Qed.

(** C15: A compaction may be stopped at any moment, before, between or after its writes of
    the journal and of the manifest, with rotations, checkpoints and mapping rewrites in
    between and also while it is resumed.  The next start never finds a contradiction
    between journal and manifest.  It rolls the compaction back only when no output is
    in the manifest and all inputs are; it finishes a retirement only when no input is
    left in the manifest; otherwise all inputs are there and it resumes with exactly
    the sealed segments that have one of the reserved ids, those of the journal when
    they had been published. *)
Theorem compaction_recovers m0 w : serves m0 -> rtc gc_durable (mkGc m0 None Ready) w ->
  exists a, recoverCompactionBeforeOpen (Ok (gw_journal w)) (gw_manifest w) = Ok a /\
    match a with
    | NoCompaction => gw_journal w = None
    | RollBack ids => exists j, gw_journal w = Some j /\ ids = cj_OutputIDs j /\ all_in (gw_manifest w) j /\ forall id, id ∈ ids -> id ∉ sealed_ids (gw_manifest w)
    | FinishRetire inputs _ => exists j, gw_journal w = Some j /\ inputs = cj_Inputs j /\ none_in (gw_manifest w) j
    | Resume st => exists j, gw_journal w = Some j /\ cj_Inputs st = cj_Inputs j /\ cj_OutputIDs st = cj_OutputIDs j /\ cj_Phase st = PhaseOutputsPublished /\ all_in (gw_manifest w) j /\
        (forall s, s ∈ cj_Outputs st <-> s ∈ mf_SealedData (gw_manifest w) /\ ds_SegmentID s ∈ cj_OutputIDs j) /\ (cj_Phase j <> PhaseReserved -> cj_Outputs st = cj_Outputs j)
    end.
Proof.
  intros Hm0 Hr. assert (Hi : gc_inv w) by (apply (gc_durable_reach (mkGc m0 None Ready)); [split; [exact Hm0|exact I]|exact Hr]).
  destruct Hi as [Hm Hi]. destruct (gw_journal w) as [j|]; [|exists NoCompaction; auto]. destruct Hi as (T & V & S & _). destruct (serves_ascending _ Hm) as (Ha & _). destruct (decision _ j Hm T V S) as [(N & ->)|[(A & F & P & ->)|(A & ->)]]; (eexists; split; [reflexivity|]); cbn [cj_Outputs cj_Inputs cj_OutputIDs cj_Phase set_phase_outputs].
  - eauto.
  - exists j. repeat (split; [solve [auto]|]). intros id Hid Hin. apply list_elem_of_fmap in Hin as (s & -> & Hs). assert (Hx : s ∈ found (gw_manifest w) j) by (unfold found; apply list_elem_of_omap; exists (ds_SegmentID s); split; [exact Hid|now apply find_data_ascending]). rewrite F in Hx. inversion Hx.
  - exists j. repeat (split; [solve [auto]|]). split.
    + intros s. unfold found. rewrite list_elem_of_omap. split; [intros (id & Hid & Ef); apply find_data_inv in Ef as [Ef1 Ef2]; split; [exact Ef1|now rewrite Ef2]|]. intros [H1 H2]. exists (ds_SegmentID s). split; [exact H2|now apply find_data_ascending].
    + intros Hp. destruct S as [[_ [S|[_ S]]]|S]; [contradiction|now symmetry|]. exfalso. destruct (count_present _ j Hm V (or_intror S)) as (Hne & _). exact (all_and_none _ _ Hne A S).
Qed.

(** A compaction that is stopped after its output is in the manifest and before the
    journal says so. *)
Definition demo_inputs : list DataSegmentSummary := [demo_data 1 1].
Definition demo_output : DataSegmentSummary := demo_data 4294967290 1.
Definition demo_taken : Manifest := match ReserveCompactionSegments demo_full 9 1 with Ok (m, _) => m | Err _ => demo_full end.
Definition demo_journal : CompactionJournal := reserved_state demo_taken demo_inputs [4294967290].
Definition demo_installed : Manifest := match InstallCompactionOutputs demo_taken 10 [demo_output] with Ok m => m | Err _ => demo_full end.

Lemma demo_stopped : rtc gc_durable (mkGc demo_full None Ready) (mkGc demo_installed (Some demo_journal) Down).
Proof.
  eapply rtc_l; [eapply (gd_reserve _ demo_inputs demo_taken [4294967290]); [reflexivity|constructor; [reflexivity|constructor]|vm_compute; reflexivity]|]. eapply rtc_l; [eapply gd_install; [reflexivity|reflexivity|vm_compute; reflexivity]|].
  eapply rtc_l; [eapply (gd_outputs _ demo_journal [demo_output] demo_installed); [reflexivity|discriminate|cbn; lia|vm_compute; reflexivity|vm_compute; reflexivity]|]. eapply rtc_l; [eapply gd_crash|]. apply rtc_refl.
Qed.

Lemma compaction_recovers_witness : recoverCompactionBeforeOpen (Ok (Some demo_journal)) demo_installed = Ok (Resume (set_phase_outputs demo_journal PhaseOutputsPublished [demo_output])) /\ demo_output ∈ mf_SealedData demo_installed.
Proof.
  destruct (compaction_recovers demo_full _ demo_full_serves demo_stopped) as (a & E & H). cbn [gw_journal gw_manifest] in *. assert (Ea : a = Resume (set_phase_outputs demo_journal PhaseOutputsPublished [demo_output])) by (vm_compute in E; injection E as <-; reflexivity). subst a. split; [exact E|]. destruct H as (j & Ej & _ & _ & _ & _ & H & _). apply H. cbn. left.
Defined.
