(* ===== verification/Radix.v ===== *)
(** * The radix tree

    Models [internal/radix/tree.go], [builder.go] and [rebuild.go]: lookups and
    walks over an immutable tree of eight levels of 512-slot nodes, and the
    streaming copy-on-write builders that fold leaf changes upwards through one
    accumulator per level.  A load is a read of the store: the cache of
    decoded nodes is not part of this file; a visitor is modelled by the list of its calls. *)
From S2P Require Import Prelude Addr MapNode NodeIface Mapping TreeIface.

(** [x >> n] on uint64 and the level arithmetic of the code. *)
Definition nodeSlot (id level : Z) : Z :=
  if level =? MaxLevel then Z.shiftr id 63 else Z.land (Z.shiftr id (9 * level)) 511.
Definition nodePrefix (id level : Z) : Z :=
  if level =? MaxLevel then 0 else Z.shiftr id (9 * (level + 1)).
(** [prefix<<9 | slot] on uint64. *)
Definition child_prefix (prefix slot : Z) : Z := Z.lor (Z.shiftl prefix 9 mod two64) slot.

(** [writer != nil] *)
Record Tree := mkTree { rx_root : Z; rx_covered : Z; rx_writable : bool }.

(** Sequencing of steps that keep their state when they fail. *)
Notation "'do' st '<-' c ';;' k" :=
  (match c with (st, None) => k | (st, Some e) => (st, Some e) end)
  (at level 10, st name, c at level 99, k at level 200) : go_scope.

Section Radix.
Context {N : Type} `{!NodeStore N}.

Definition load (n : N) (t : Tree) (addr level prefix : Z) : res Node :=
  let! node := ns_Read n addr in
  raise [radix_ErrCorrupt] when
    negb (nd_Level node =? level) || negb (nd_Prefix node =? prefix) || (rx_covered t <? nd_CoveredCommitSeq node) ;;
  Ok node.

Definition Open (n : N) (root covered : Z) : res Tree :=
  raise [radix_ErrInvalid] when negb (root =? 0) && negb (MapAddr_Valid root) ;;
  let tree := mkTree root covered true in
  if root =? 0 then Ok tree else let! _ := load n tree root MaxLevel 0 in Ok tree.

(** ** Lookup *)

(** The loop of [LookupRef] from [level] down. *)
Fixpoint lookup_from (n : N) (t : Tree) (id : Z) (level : nat) (addr : Z) : res (option RecordRef) :=
  let! node := load n t addr (Z.of_nat level) (nodePrefix id (Z.of_nat level)) in
  match level with
  | O =>
      match Node_LookupRef node (nodeSlot id 0) with
      | None => Ok None
      | Some ref => raise [radix_ErrCorrupt] when negb (RecordRef_Valid ref) ;; Ok (Some ref)
      end
  | S level' =>
      match Node_Lookup node (nodeSlot id (Z.of_nat level)) with
      | None => Ok None
      | Some value =>
          match ParseMapAddr value with
          | Err e => Err ([radix_ErrCorrupt] ++ e)
          | Ok child => lookup_from n t id level' child
          end
      end
  end.

Definition Tree_LookupRef (n : N) (t : Tree) (id : Z) : res (option RecordRef) :=
  raise [radix_ErrInvalid] when id =? 0 ;;
  if rx_root t =? 0 then Ok None else lookup_from n t id 7 (rx_root t).

(** ** Walks *)

Definition all_slots : list Z := map Z.of_nat (seq 0 512).

(** Run [f] over the slots in order and append the visits. *)
Fixpoint walk_slots {A} (f : Z -> res (list A)) (slots : list Z) : res (list A) :=
  match slots with
  | [] => Ok []
  | slot :: rest => let! visited := f slot in let! more := walk_slots f rest in Ok (visited ++ more)
  end.

Fixpoint walkNode (n : N) (t : Tree) (level : nat) (addr prefix : Z) : res (list (Z * RecordRef)) :=
  let! node := load n t addr (Z.of_nat level) prefix in
  walk_slots (fun slot =>
    match level with
    | O =>
        match Node_LookupRef node slot with
        | None => Ok []
        | Some ref =>
            let id := child_prefix prefix slot in
            raise [radix_ErrCorrupt] when negb (RecordRef_Valid ref) || (id =? 0) ;; Ok [(id, ref)]
        end
    | S level' =>
        match Node_Lookup node slot with
        | None => Ok []
        | Some value =>
            match ParseMapAddr value with
            | Err e => Err ([radix_ErrCorrupt] ++ e)
            | Ok child => walkNode n t level' child (child_prefix prefix slot)
            end
        end
    end) all_slots.

Definition Tree_WalkRefs (n : N) (t : Tree) : res (list (Z * RecordRef)) :=
  if rx_root t =? 0 then Ok [] else walkNode n t 7 (rx_root t) 0.

(** The running total over the slots. *)
Fixpoint sum_slots (f : Z -> res (option Z)) (total : Z) (slots : list Z) : res Z :=
  match slots with
  | [] => Ok total
  | slot :: rest =>
      let! bytes := f slot in
      match bytes with
      | None => sum_slots f total rest
      | Some b => raise [radix_ErrInvalid] when MaxUint64 - b <? total ;; sum_slots f (total + b) rest
      end
  end.

Fixpoint reachableNodeBytes (n : N) (t : Tree) (level : nat) (addr prefix : Z) : res Z :=
  let! node := load n t addr (Z.of_nat level) prefix in
  let total := Node_PhysicalSize node in
  match level with
  | O => Ok total
  | S level' =>
      sum_slots (fun slot =>
        match Node_Lookup node slot with
        | None => Ok None
        | Some value =>
            match ParseMapAddr value with
            | Err e => Err ([radix_ErrCorrupt] ++ e)
            | Ok child => let! bytes := reachableNodeBytes n t level' child (child_prefix prefix slot) in Ok (Some bytes)
            end
        end) total all_slots
  end.

Definition Tree_ReachableBytes (n : N) (t : Tree) : res Z :=
  if rx_root t =? 0 then Ok 0 else reachableNodeBytes n t 7 (rx_root t) 0.

(** ** The builder *)

(** [for current := MaxLevel; current > level; current--]; [k] counts the steps. *)
Fixpoint descend (n : N) (t : Tree) (id current : Z) (k : nat) (addr : Z) : res Z :=
  match k with
  | O => Ok addr
  | S k' =>
      let! node := load n t addr current (nodePrefix id current) in
      match Node_Lookup node (nodeSlot id current) with
      | None => Ok 0
      | Some value =>
          match ParseMapAddr value with
          | Err _ => Err [radix_ErrCorrupt]
          | Ok child => descend n t id (current - 1) k' child
          end
      end
  end.

Definition nodeAddress (n : N) (t : Tree) (level prefix : Z) : res Z :=
  if rx_root t =? 0 then Ok 0
  else if level =? MaxLevel then Ok (rx_root t)
  else descend n t (Z.shiftl prefix (9 * (level + 1)) mod two64) MaxLevel (Z.to_nat (MaxLevel - level)) (rx_root t).

Definition zero_slots : list Z := replicate 512 0.
Definition zero_refs : list RecordRef := replicate 512 zeroRef.

Definition oldRefs (n : N) (t : Tree) (addr prefix : Z) : res (list RecordRef * Z) :=
  if addr =? 0 then Ok (zero_refs, 0)
  else let! node := load n t addr 0 prefix in Ok (Refs node, Node_PhysicalSize node).

Definition oldSlots (n : N) (t : Tree) (addr level prefix : Z) : res (list Z * Z) :=
  if addr =? 0 then Ok (zero_slots, 0)
  else let! node := load n t addr level prefix in Ok (Slots node, Node_PhysicalSize node).

Definition writeChangedLeaf (n : N) (t : Tree) (prefix covered : Z) (before after : list RecordRef) (old : Z) : N * res Z :=
  if bool_decide (before = after) then (n, Ok old)
  else if forallb RecordRef_IsZero after then (n, Ok 0)
  else if negb (rx_writable t) then (n, Err [radix_ErrInvalid])
  else ns_AppendLeaf n prefix covered after.

Definition writeChangedNode (n : N) (t : Tree) (level prefix covered : Z) (before after : list Z) (old : Z) : N * res Z :=
  if bool_decide (before = after) then (n, Ok old)
  else if forallb (fun v => v =? 0) after then (n, Ok 0)
  else if negb (rx_writable t) then (n, Err [radix_ErrInvalid])
  else ns_Append n level prefix covered after.

(** [nodeBuildBytes]: [count] is the number of slots that are not zero. *)
Definition nodeBuildBytes (level count : Z) : res Z :=
  if count =? 0 then Ok 0
  else match EncodedNodeSize level count with Ok size => Ok size | Err e => Err e end.

Record nodeAccumulator := mkAcc
  { ac_prefix : Z; ac_oldAddr : Z; ac_oldBytes : Z; ac_before : list Z; ac_slots : list Z }.

(** The builder with the store it appends to; [None] is an inactive accumulator.
    [bd_delta] is [None] where the code passes no counter. *)
Record streamingBuilder := mkBuilder
  { bd_nodes : N; bd_tree : Tree; bd_covered : Z; bd_root : Z; bd_delta : option EntryDelta;
    bd_levels : list (option nodeAccumulator) }.

Definition level_at (b : streamingBuilder) (level : Z) : option nodeAccumulator :=
  match bd_levels b !! Z.to_nat level with Some a => a | None => None end.
Definition set_level (b : streamingBuilder) (level : Z) (a : option nodeAccumulator) : streamingBuilder :=
  mkBuilder (bd_nodes b) (bd_tree b) (bd_covered b) (bd_root b) (bd_delta b) (<[Z.to_nat level := a]> (bd_levels b)).
Definition set_bnodes (b : streamingBuilder) (n : N) : streamingBuilder :=
  mkBuilder n (bd_tree b) (bd_covered b) (bd_root b) (bd_delta b) (bd_levels b).
Definition set_root (b : streamingBuilder) (root : Z) : streamingBuilder :=
  mkBuilder (bd_nodes b) (bd_tree b) (bd_covered b) root (bd_delta b) (bd_levels b).
Definition set_delta (b : streamingBuilder) (d : option EntryDelta) : streamingBuilder :=
  mkBuilder (bd_nodes b) (bd_tree b) (bd_covered b) (bd_root b) d (bd_levels b).

Definition addReachable (d : EntryDelta) (added removed : Z) : res EntryDelta :=
  raise [radix_ErrInvalid] when
    (MaxUint64 - added <? ed_ReachableBytesAdded d) || (MaxUint64 - removed <? ed_ReachableBytesRemoved d) ;;
  Ok (mkEntryDelta (ed_Added d) (ed_Removed d) (ed_ReachableBytesAdded d + added) (ed_ReachableBytesRemoved d + removed)).

(** Account for a rewritten node. *)
Definition count_bytes (b : streamingBuilder) (level count oldBytes : Z) : streamingBuilder * option goerror :=
  match bd_delta b with
  | None => (b, None)
  | Some d =>
      match nodeBuildBytes level count with
      | Err e => (b, Some e)
      | Ok added =>
          match addReachable d added oldBytes with
          | Err e => (b, Some e)
          | Ok d' => (set_delta b (Some d'), None)
          end
      end
  end.

(** [flush], given [push]. *)
Definition flush_with (push : streamingBuilder -> Z -> Z -> Z -> streamingBuilder * option goerror)
    (b : streamingBuilder) (level : Z) : streamingBuilder * option goerror :=
  match level_at b level with
  | None => (b, None)
  | Some acc =>
      let b := set_level b level None in
      match writeChangedNode (bd_nodes b) (bd_tree b) level (ac_prefix acc) (bd_covered b) (ac_before acc) (ac_slots acc) (ac_oldAddr acc) with
      | (n, Err e) => (set_bnodes b n, Some e)
      | (n, Ok newAddr) =>
          let b := set_bnodes b n in
          if newAddr =? ac_oldAddr acc then (b, None)
          else
            do b <- count_bytes b level (countValues (ac_slots acc)) (ac_oldBytes acc) ;;
            if level =? MaxLevel then
              if negb (ac_prefix acc =? 0) then (b, Some [radix_ErrCorrupt]) else (set_root b newAddr, None)
            else push b level (ac_prefix acc) newAddr
      end
  end.

(** [push(childLevel, {prefix, addr})]; every nested call is one level up, so
    [8 - childLevel] is enough fuel, and what [stuck] answers without fuel is never
    seen ([RadixBuild.push_terminates]). *)
Fixpoint push_with (stuck : streamingBuilder -> streamingBuilder * option goerror) (fuel : nat) (b : streamingBuilder) (childLevel childPrefix addr : Z) : streamingBuilder * option goerror :=
  match fuel with
  | O => stuck b
  | S fuel' =>
      let level := childLevel + 1 in
      if MaxLevel <? level then (b, Some [radix_ErrCorrupt])
      else
        let prefix := Z.shiftr childPrefix 9 in
        do b <- match level_at b level with
                | Some acc => if negb (ac_prefix acc =? prefix) then flush_with (push_with stuck fuel') b level else (b, None)
                | None => (b, None)
                end ;;
        do b <- match level_at b level with
                | Some _ => (b, None)
                | None =>
                    match nodeAddress (bd_nodes b) (bd_tree b) level prefix with
                    | Err e => (b, Some e)
                    | Ok oldAddr =>
                        match oldSlots (bd_nodes b) (bd_tree b) oldAddr level prefix with
                        | Err e => (b, Some e)
                        | Ok (slots, oldBytes) => (set_level b level (Some (mkAcc prefix oldAddr oldBytes slots slots)), None)
                        end
                    end
                end ;;
        match level_at b level with
        | None => (b, None)
        | Some acc =>
            (set_level b level (Some (mkAcc (ac_prefix acc) (ac_oldAddr acc) (ac_oldBytes acc) (ac_before acc)
               (<[Z.to_nat (Z.land childPrefix 511) := addr]> (ac_slots acc)))), None)
        end
  end.
Definition push : nat -> streamingBuilder -> Z -> Z -> Z -> streamingBuilder * option goerror := push_with (fun b => (b, Some [radix_ErrCorrupt])).

Definition flush (b : streamingBuilder) (level : Z) : streamingBuilder * option goerror := flush_with (push 8) b level.

(** [for level := 1; level <= MaxLevel; level++] *)
Fixpoint flush_levels (b : streamingBuilder) (levels : list Z) : streamingBuilder * option goerror :=
  match levels with
  | [] => (b, None)
  | level :: rest => do b <- flush b level ;; flush_levels b rest
  end.

(** The mutations of one leaf: counters and slots. *)
Definition mutate_leaf (acc : EntryDelta * list RecordRef) (m : TMutation) : EntryDelta * list RecordRef :=
  let '(d, refs) := acc in
  let slot := Z.to_nat (nodeSlot (tm_ID m) 0) in
  let oldExists := negb (RecordRef_IsZero (nth slot refs zeroRef)) in
  let newExists := negb (RecordRef_IsZero (tm_Ref m)) in
  let d' := if negb oldExists && newExists then mkEntryDelta ((ed_Added d + 1) mod two64) (ed_Removed d) (ed_ReachableBytesAdded d) (ed_ReachableBytesRemoved d)
            else if oldExists && negb newExists then mkEntryDelta (ed_Added d) ((ed_Removed d + 1) mod two64) (ed_ReachableBytesAdded d) (ed_ReachableBytesRemoved d)
            else d in
  (d', <[slot := tm_Ref m]> refs).

Definition delta_of (b : streamingBuilder) : EntryDelta :=
  match bd_delta b with Some d => d | None => mkEntryDelta 0 0 0 0 end.

Definition count_refs (refs : list RecordRef) : Z := len (List.filter (fun r => negb (RecordRef_IsZero r)) refs).

(** One iteration of the build loop: the mutations with leaf prefix [prefix]. *)
Definition build_leaf (b : streamingBuilder) (prefix : Z) (group : list TMutation) : streamingBuilder * option goerror :=
  match nodeAddress (bd_nodes b) (bd_tree b) 0 prefix with
  | Err e => (b, Some e)
  | Ok oldAddr =>
      match oldRefs (bd_nodes b) (bd_tree b) oldAddr prefix with
      | Err e => (b, Some e)
      | Ok (before, oldBytes) =>
          let '(d, refs) := foldl mutate_leaf (delta_of b, before) group in
          let b := set_delta b (Some d) in
          match writeChangedLeaf (bd_nodes b) (bd_tree b) prefix (bd_covered b) before refs oldAddr with
          | (n, Err e) => (set_bnodes b n, Some e)
          | (n, Ok newAddr) =>
              let b := set_bnodes b n in
              if newAddr =? oldAddr then (b, None)
              else do b <- count_bytes b 0 (count_refs refs) oldBytes ;; push 8 b 0 prefix newAddr
          end
      end
  end.

(** [for start := 0; start < len(ordered); start = end]: maximal runs with the
    same leaf prefix. *)
Fixpoint leaf_groups (ordered : list TMutation) : list (Z * list TMutation) :=
  match ordered with
  | [] => []
  | m :: rest =>
      let prefix := nodePrefix (tm_ID m) 0 in
      match leaf_groups rest with
      | (p, g) :: groups => if p =? prefix then (p, m :: g) :: groups else (prefix, [m]) :: (p, g) :: groups
      | [] => [(prefix, [m])]
      end
  end.

Fixpoint build_groups (b : streamingBuilder) (groups : list (Z * list TMutation)) : streamingBuilder * option goerror :=
  match groups with
  | [] => (b, None)
  | (prefix, g) :: rest => do b <- build_leaf b prefix g ;; build_groups b rest
  end.

(** The input check of [BuildSortedWithEntryDelta]. *)
Fixpoint ordered_ok (last : Z) (ordered : list TMutation) : bool :=
  match ordered with
  | [] => true
  | m :: rest =>
      negb (tm_ID m =? 0) && (RecordRef_IsZero (tm_Ref m) || RecordRef_Valid (tm_Ref m)) && (last <? tm_ID m) && ordered_ok (tm_ID m) rest
  end.

Definition start_builder (n : N) (t : Tree) (covered : Z) : streamingBuilder :=
  mkBuilder n t covered (rx_root t) (Some (mkEntryDelta 0 0 0 0)) (replicate 8 None).

Definition BuildSorted (n : N) (t : Tree) (covered : Z) (ordered : list TMutation) : N * res (Tree * EntryDelta) :=
  if negb (rx_writable t) || (covered <? rx_covered t) || (negb (len ordered =? 0) && (covered <=? rx_covered t)) then (n, Err [radix_ErrInvalid])
  else if negb (ordered_ok 0 ordered) then (n, Err [radix_ErrInvalid])
  else if len ordered =? 0 then
    (n, let! tree := Open n (rx_root t) covered in Ok (tree, mkEntryDelta 0 0 0 0))
  else
    match build_groups (start_builder n t covered) (leaf_groups ordered) with
    | (b, Some e) => (bd_nodes b, Err e)
    | (b, None) =>
        match flush_levels b [1; 2; 3; 4; 5; 6; 7] with
        | (b, Some e) => (bd_nodes b, Err e)
        | (b, None) => (bd_nodes b, let! tree := Open (bd_nodes b) (bd_root b) covered in Ok (tree, delta_of b))
        end
    end.

Definition tm_le (a b : TMutation) : Prop := tm_ID a <= tm_ID b.
#[local] Instance tm_le_dec a b : Decision (tm_le a b).
Proof. unfold tm_le. apply _. Defined.

(** [Build]: sort by id, then build. *)
Definition Build (n : N) (t : Tree) (covered : Z) (mutations : list TMutation) : N * res Tree :=
  match BuildSorted n t covered (merge_sort tm_le mutations) with
  | (n', Ok (tree, _)) => (n', Ok tree)
  | (n', Err e) => (n', Err e)
  end.

(** ** Rebuilding from a stream *)

Record RebuildBuilder := mkRebuild
  { rb_hierarchy : streamingBuilder; rb_leaf : option (Z * list RecordRef); rb_last : Z; rb_entries : Z; rb_finished : bool }.

Definition NewRebuildBuilder (n : N) (covered : Z) : RebuildBuilder :=
  mkRebuild (mkBuilder n (mkTree 0 covered true) covered 0 None (replicate 8 None)) None 0 0 false.

Definition flushLeaf (r : RebuildBuilder) : RebuildBuilder * option goerror :=
  match rb_leaf r with
  | None => (r, None)
  | Some (prefix, refs) =>
      let h := rb_hierarchy r in
      match writeChangedLeaf (bd_nodes h) (bd_tree h) prefix (bd_covered h) zero_refs refs 0 with
      | (n, Err e) => (mkRebuild (set_bnodes h n) None (rb_last r) (rb_entries r) (rb_finished r), Some e)
      | (n, Ok addr) =>
          let '(h', st) := push 8 (set_bnodes h n) 0 prefix addr in
          (mkRebuild h' None (rb_last r) (rb_entries r) (rb_finished r), st)
      end
  end.

Definition Add (r : RebuildBuilder) (id : Z) (ref : RecordRef) : RebuildBuilder * option goerror :=
  if rb_finished r || (bd_covered (rb_hierarchy r) =? 0) || (id =? 0) || negb (RecordRef_Valid ref) || (id <=? rb_last r) then (r, Some [radix_ErrInvalid])
  else
    let prefix := nodePrefix id 0 in
    do r <- match rb_leaf r with
            | Some (p, _) => if negb (p =? prefix) then flushLeaf r else (r, None)
            | None => (r, None)
            end ;;
    let '(p, refs) := match rb_leaf r with Some leaf => leaf | None => (prefix, zero_refs) end in
    (mkRebuild (rb_hierarchy r) (Some (p, <[Z.to_nat (nodeSlot id 0) := ref]> refs)) id ((rb_entries r + 1) mod two64) (rb_finished r), None).

Definition Finish (r : RebuildBuilder) : RebuildBuilder * res Tree :=
  if rb_finished r then (r, Err [radix_ErrInvalid])
  else
    let r := mkRebuild (rb_hierarchy r) (rb_leaf r) (rb_last r) (rb_entries r) true in
    let covered := bd_covered (rb_hierarchy r) in
    if rb_entries r =? 0 then (r, Open (bd_nodes (rb_hierarchy r)) 0 covered)
    else
      match flushLeaf r with
      | (r, Some e) => (r, Err e)
      | (r, None) =>
          let '(h, st) := flush_levels (rb_hierarchy r) [1; 2; 3; 4; 5; 6; 7] in
          let r := mkRebuild h (rb_leaf r) (rb_last r) (rb_entries r) (rb_finished r) in
          match st with
          | Some e => (r, Err e)
          | None => (r, Open (bd_nodes h) (bd_root h) covered)
          end
      end.
End Radix.

Arguments RebuildBuilder N : clear implicits.
Arguments streamingBuilder N : clear implicits.

#[export] Instance Radix_store {N} `{!NodeStore N} : TreeStore N Tree := {
  tr_Root := rx_root;
  tr_Covered := rx_covered;
  tr_LookupRef := Tree_LookupRef;
  tr_WalkRefs := Tree_WalkRefs;
  tr_BuildSorted := BuildSorted;
  tr_Sync := ns_Sync }.
