(* ===== verification/RadixSpec.v ===== *)
(** * Correctness of radix lookups and walks

    A tree is described by the address of every node position: level [L] and
    prefix [q].  A well-formed tree has a node with that identity at every
    position it reaches; lookups then return the slot of the leaf, and a walk
    visits every present id once, in order. *)
From S2P Require Import Prelude Addr MapNode NodeIface Mapping TreeIface Radix.

Lemma nth_replicate {A} (d : A) k s : nth s (replicate k d) d = d.
Proof. revert s. induction k as [|k IH]; intros [|s]; cbn [replicate nth]; auto. Qed.

(** ** Level arithmetic *)

Definition span (level : nat) : Z := 512 ^ Z.of_nat level.

Lemma span_pos level : 0 < span level.
Proof. unfold span. apply Z.pow_pos_nonneg; lia. Qed.

Lemma span_S level : span (S level) = 512 * span level.
Proof. unfold span. rewrite Nat2Z.inj_succ, Z.pow_succ_r by lia. reflexivity. Qed.

Lemma shiftr_span id level : 0 <= id -> Z.shiftr id (9 * Z.of_nat level) = id / span level.
Proof.
  intros H. rewrite Z.shiftr_div_pow2 by lia. unfold span. f_equal. change 512 with (2 ^ 9). rewrite <- Z.pow_mul_r by lia. reflexivity.
Qed.

Lemma land_511 x : Z.land x 511 = x mod 512.
Proof. change 511 with (Z.ones 9). now rewrite Z.land_ones. Qed.

Lemma nodeSlot_spec id level : is_u64 id -> (level <= 7)%nat -> nodeSlot id (Z.of_nat level) = (id / span level) mod 512.
Proof.
  intros Hid Hl. unfold nodeSlot, MaxLevel, is_u64 in *. destruct (Z.of_nat level =? 7) eqn:E; bool_norm.
  - assert (level = 7%nat) as -> by lia. replace 63 with (9 * Z.of_nat 7) by reflexivity. rewrite shiftr_span by lia.
    change (span 7) with (2 ^ 63). rewrite Z.mod_small; [reflexivity|].
    split; [apply Z.div_pos; lia|]. apply Z.div_lt_upper_bound; lia.
  - rewrite shiftr_span by lia. apply land_511.
Qed.

Lemma nodePrefix_spec id level : is_u64 id -> (level <= 7)%nat -> nodePrefix id (Z.of_nat level) = id / span (S level).
Proof.
  intros Hid Hl. unfold nodePrefix, MaxLevel, is_u64 in *. destruct (Z.of_nat level =? 7) eqn:E; bool_norm.
  - assert (level = 7%nat) as -> by lia. symmetry. apply Z.div_small. change (span 8) with (2 ^ 72). lia.
  - replace (9 * (Z.of_nat level + 1)) with (9 * Z.of_nat (S level)) by lia. apply shiftr_span. lia.
Qed.

Lemma child_prefix_spec q s : 0 <= q -> q * 512 < two64 -> 0 <= s < 512 -> child_prefix q s = q * 512 + s.
Proof.
  intros Hq Hm Hs. unfold child_prefix. rewrite Z.shiftl_mul_pow2 by lia. change (2 ^ 9) with 512. rewrite Z.mod_small by lia.
  replace (Z.lor (q * 512) s) with (Z.lor (Z.shiftl q 9) s) by now rewrite Z.shiftl_mul_pow2 by lia.
  rewrite lor_shiftl by (try change (2 ^ 9) with 512; lia). reflexivity.
Qed.

Lemma div_span_S id level : 0 <= id -> id / span (S level) = id / span level / 512.
Proof. intros H. pose proof (span_pos level). rewrite span_S, Z.mul_comm. symmetry. apply Zdiv.Zdiv_Zdiv; lia. Qed.

Section Spec.
Context {N : Type} `{!NodeStore N} `{!NodeStoreLaws N}.
Implicit Types (n : N) (t : Tree).

(** ** Addresses by position *)

Definition slots_at n (a : Z) : list Z :=
  if a =? 0 then zero_slots else match ns_Read n a with Ok nd => Slots nd | Err _ => zero_slots end.
Definition refs_at n (a : Z) : list RecordRef :=
  if a =? 0 then zero_refs else match ns_Read n a with Ok nd => Refs nd | Err _ => zero_refs end.

(** Slots that are held in memory instead of the stored node of a position: a
    prefix for every level. *)
Definition overlay_t : Type := nat -> option (Z * list Z).
Definition no_overlay : overlay_t := fun _ => None.

Definition vslots n (ov : overlay_t) (level : nat) (p a : Z) : list Z :=
  match ov level with Some (p', slots) => if p' =? p then slots else slots_at n a | None => slots_at n a end.

Fixpoint vaddr n (ov : overlay_t) (root : Z) (k : nat) (q : Z) : Z :=
  match k with
  | O => if q =? 0 then root else 0
  | S k' => nth (Z.to_nat (q mod 512)) (vslots n ov (7 - k') (q / 512) (vaddr n ov root k' (q / 512))) 0
  end.

(** The address of level [level], prefix [q]. *)
Definition at_pos n (ov : overlay_t) (root : Z) (level : nat) (q : Z) : Z := vaddr n ov root (7 - level) q.

Lemma at_pos_top n ov root q : at_pos n ov root 7 q = if q =? 0 then root else 0.
Proof. reflexivity. Qed.

Lemma at_pos_step n ov root level q : (level < 7)%nat ->
  at_pos n ov root level q = nth (Z.to_nat (q mod 512)) (vslots n ov (S level) (q / 512) (at_pos n ov root (S level) (q / 512))) 0.
Proof.
  intros H. unfold at_pos. replace (7 - level)%nat with (S (7 - S level)) by lia. cbn [vaddr].
  replace (7 - (7 - S level))%nat with (S level) by lia. reflexivity.
Qed.

(** The stored tree. *)
Definition addr_at n t : nat -> Z -> Z := at_pos n no_overlay (rx_root t).

Lemma addr_at_step n t level q : (level < 7)%nat ->
  addr_at n t level q = nth (Z.to_nat (q mod 512)) (slots_at n (addr_at n t (S level) (q / 512))) 0.
Proof. intros H. unfold addr_at at 1. now rewrite at_pos_step. Qed.

Lemma slots_at_0 n s : nth s (slots_at n 0) 0 = 0.
Proof. unfold slots_at. cbn [Z.eqb]. apply nth_replicate. Qed.

(** ** Nodes at positions *)

Record node_at n (covered : Z) (level : nat) (q a : Z) : Prop := mkNodeAt {
  na_addr : is_u64 a /\ MapAddr_Valid a = true;
  na_node : exists nd c slots sizes, ns_Read n a = Ok nd /\ node_of nd (Z.of_nat level) q c slots sizes /\ c <= covered;
}.

Lemma valid_nonzero a : MapAddr_Valid a = true -> a <> 0.
Proof. intros H ->. discriminate. Qed.

Lemma node_at_readable n n' covered level q a : readable n n' -> node_at n covered level q a ->
  node_at n' covered level q a /\ slots_at n' a = slots_at n a /\ refs_at n' a = refs_at n a.
Proof.
  intros Hr [Ha (nd & c & slots & sizes & Hread & Hn & Hc)]. split; [constructor; [exact Ha|]; exists nd, c, slots, sizes; auto|].
  unfold slots_at, refs_at. rewrite (Hr _ _ Hread), Hread. auto.
Qed.

Lemma node_at_mono n covered covered' level q a : covered <= covered' -> node_at n covered level q a -> node_at n covered' level q a.
Proof. intros Hc [Ha (nd & c & slots & sizes & Hr & Hn & Hle)]. constructor; [exact Ha|]. exists nd, c, slots, sizes. split; [exact Hr|]. split; [exact Hn|lia]. Qed.

Definition slot_valid (v : Z) : Prop := v = 0 \/ (is_u64 v /\ MapAddr_Valid v = true).

(** An internal node, loaded. *)
Lemma load_internal n t level q a : node_at n (rx_covered t) level q a -> (0 < level)%nat ->
  exists nd, load n t a (Z.of_nat level) q = Ok nd /\ Slots nd = slots_at n a /\ length (slots_at n a) = 512%nat /\
    (forall s, 0 <= s < 512 -> Node_Lookup nd s = let v := nth (Z.to_nat s) (slots_at n a) 0 in if v =? 0 then None else Some v) /\
    Forall slot_valid (slots_at n a) /\ (level = 7%nat -> topSlotsEmpty (slots_at n a) = true).
Proof.
  intros [[Hu Hv] (nd & c & slots & sizes & Hr & (seq & Hb & Hh & He & Ht) & Hc)] Hl. exists nd. cbv zeta in *.
  set (b := mkBuild (Z.of_nat level) seq q c slots sizes) in *.
  assert (Es : Slots nd = slots) by exact (Slots_spec b nd Hb Hh).
  assert (Ea : slots_at n a = slots).
  { unfold slots_at. replace (a =? 0) with false by (symmetry; apply Z.eqb_neq; now apply valid_nonzero). rewrite Hr. exact Es. }
  rewrite Ea. destruct (bu_slots b Hb) as [Hlen Hsu]. cbn [nb_Slots b] in Hlen, Hsu. split; [|split; [exact Es|split; [exact Hlen|split; [|split]]]].
  - unfold load. rewrite Hr. pose proof (nh_level b nd Hh) as E1. pose proof (nh_prefix b nd Hh) as E2. pose proof (nh_covered b nd Hh) as E3. cbn [b nb_Level nb_Prefix nb_CoveredCommitSeq] in E1, E2, E3.
    rewrite E1, E2, E3, !Z.eqb_refl. cbn [negb orb]. replace (rx_covered t <? c) with false by (symmetry; apply Z.ltb_ge; lia). reflexivity.
  - intros s Hs. exact (Node_Lookup_spec b nd Hb Hh s Hs).
  - apply Forall_forall. intros v Hin. destruct (Z.eq_dec v 0) as [->|Hn]; [now left|right]. rewrite Forall_forall in Hsu. split; [now apply Hsu|].
    apply list_elem_of_lookup in Hin as [i Hi]. destruct (bu_sizes b Hb) as [Hzl _]. cbn [nb_Sizes b] in Hzl.
    destruct (lookup_lt_is_Some_2 sizes i ltac:(apply lookup_lt_Some in Hi; lia)) as [z Hz].
    rewrite Forall_forall in He. specialize (He (v, z)). change (pairs b) with (zip slots sizes) in He. unfold entry_valid in He. cbn in He.
    replace (v =? 0) with false in He by (symmetry; now apply Z.eqb_neq). replace (Z.of_nat level =? 0) with false in He by (symmetry; apply Z.eqb_neq; lia).
    destruct He as [_ Hok]; [apply (list_elem_of_lookup_2 _ i); rewrite lookup_zip_with, Hi, Hz; reflexivity|]. unfold ParseMapAddr in Hok. now destruct (MapAddr_Valid v).
  - intros ->. now apply Ht.
Qed.

Definition ref_valid (r : RecordRef) : Prop := r = zeroRef \/ (RecordRef_Valid r = true /\ ref_u r).

Definition shown (r : RecordRef) : option RecordRef := if RecordRef_IsZero r then None else Some r.

Lemma shown_Some x r : shown x = Some r -> x = r /\ RecordRef_IsZero r = false.
Proof. unfold shown. destruct (RecordRef_IsZero x) eqn:E; [discriminate|]. intros [= <-]. auto. Qed.

(** A leaf, loaded. *)
Lemma load_leaf n t q a : node_at n (rx_covered t) 0 q a ->
  exists nd, load n t a 0 q = Ok nd /\ Refs nd = refs_at n a /\ length (refs_at n a) = 512%nat /\
    (forall s, 0 <= s < 512 -> Node_LookupRef nd s = shown (nth (Z.to_nat s) (refs_at n a) zeroRef)) /\
    Forall ref_valid (refs_at n a).
Proof.
  intros [[Hu Hv] (nd & c & slots & sizes & Hr & (seq & Hb & Hh & He & Ht) & Hc)]. exists nd. cbv zeta in *. change (Z.of_nat 0) with 0 in *.
  set (b := mkBuild 0 seq q c slots sizes) in *.
  assert (Hz0 : forall e, e ∈ pairs b -> e.1 = 0 -> e.2 = 0).
  { intros e Hin Ez. rewrite Forall_forall in He. specialize (He e Hin). unfold entry_valid in He. rewrite Ez in He. cbn in He. auto. }
  assert (Es : Refs nd = map ref_of (pairs b)) by exact (Refs_spec b nd Hb Hh eq_refl Hz0).
  assert (Ea : refs_at n a = map ref_of (pairs b)).
  { unfold refs_at. replace (a =? 0) with false by (symmetry; apply Z.eqb_neq; now apply valid_nonzero). rewrite Hr. exact Es. }
  rewrite Ea. destruct (bu_slots b Hb) as [Hlen Hsu], (bu_sizes b Hb) as [Hzl Hzu].
  split; [|split; [exact Es|split; [|split]]].
  - unfold load. rewrite Hr. pose proof (nh_level b nd Hh) as E1. pose proof (nh_prefix b nd Hh) as E2. pose proof (nh_covered b nd Hh) as E3. cbn [b nb_Level nb_Prefix nb_CoveredCommitSeq] in E1, E2, E3.
    rewrite E1, E2, E3, !Z.eqb_refl. cbn [negb orb]. replace (rx_covered t <? c) with false by (symmetry; apply Z.ltb_ge; lia). reflexivity.
  - rewrite length_map. unfold pairs. rewrite length_zip. lia.
  - intros s Hs. rewrite (Node_LookupRef_spec b nd Hb Hh s Hs eq_refl). cbv zeta.
    pose proof (lookup_pairs b Hb (Z.to_nat s) ltac:(lia)) as El.
    rewrite (nth_lookup (map ref_of (pairs b))). change (map ref_of (pairs b)) with (ref_of <$> pairs b). rewrite list_lookup_fmap, El. cbn.
    change (nb_Slots b) with slots in *. change (nb_Sizes b) with sizes in *.
    unfold shown, ref_of, RecordRef_IsZero, zeroRef. cbn. destruct (nth (Z.to_nat s) slots 0 =? 0) eqn:E0; bool_norm; [|rewrite bool_decide_eq_false_2 by (intros [= Ex _]; contradiction); reflexivity].
    assert (Ez : nth (Z.to_nat s) sizes 0 = 0) by (apply (Hz0 _ (list_elem_of_lookup_2 _ _ _ El)); exact E0). rewrite E0, Ez. now rewrite bool_decide_eq_true_2.
  - apply Forall_map, Forall_forall. intros e Hin. rewrite Forall_forall in He. specialize (He e Hin) as Hev. unfold entry_valid in Hev.
    pose proof (pairs_u b Hb) as Hpu. rewrite Forall_forall in Hpu. specialize (Hpu e Hin) as [H1 H2].
    destruct (e.1 =? 0) eqn:E0; bool_norm; [left; unfold ref_of, zeroRef; rewrite E0, (Hev eq_refl); reflexivity|right]. cbn in Hev. split; [exact Hev|]. now split.
Qed.

(** ** Well-formed trees *)

Definition leaf_ref n t (id : Z) : option RecordRef :=
  shown (nth (Z.to_nat (id mod 512)) (refs_at n (addr_at n t 0 (id / 512))) zeroRef).

Record tree_wf n t : Prop := mkTreeWf {
  tw_store : ns_ok n;
  tw_covered : is_u64 (rx_covered t);
  tw_nodes : forall level q, (level <= 7)%nat -> 0 <= q -> addr_at n t level q <> 0 -> node_at n (rx_covered t) level q (addr_at n t level q);
  tw_zero : leaf_ref n t 0 = None;
}.

(** A position below an empty one is empty; present positions are in range. *)
Lemma addr_below n t level q : (level < 7)%nat -> addr_at n t (S level) (q / 512) = 0 -> addr_at n t level q = 0.
Proof. intros Hl H. rewrite addr_at_step, H by exact Hl. apply slots_at_0. Qed.

Lemma addr_range n t level q : tree_wf n t -> (level <= 7)%nat -> 0 <= q -> addr_at n t level q <> 0 -> q * span (S level) < two64.
Proof.
  intros Hw Hl. remember (7 - level)%nat as k eqn:Ek. revert level q Hl Ek. induction k as [|k IH]; intros level q Hl Ek Hq Hn.
  - assert (level = 7%nat) as -> by lia. unfold addr_at in Hn. rewrite at_pos_top in Hn. destruct (q =? 0) eqn:E; [bool_norm; lia|congruence].
  - assert (Hl7 : (level < 7)%nat) by lia. assert (Hp : addr_at n t (S level) (q / 512) <> 0) by (intros E; now apply Hn, addr_below).
    assert (Hq5 : 0 <= q / 512) by (apply Z.div_pos; lia).
    destruct (Nat.eq_dec level 6) as [->|H6].
    + pose proof (tw_nodes n t Hw 7 (q / 512) ltac:(lia) Hq5 Hp) as Hna.
      assert (E0 : q / 512 = 0). { unfold addr_at in Hp. rewrite at_pos_top in Hp. destruct (q / 512 =? 0) eqn:E; [now bool_norm|congruence]. }
      destruct (load_internal n t 7 _ _ Hna ltac:(lia)) as (nd & _ & _ & Hlen & _ & _ & Htop). specialize (Htop eq_refl).
      rewrite addr_at_step in Hn by lia. change (span 7) with (2 ^ 63). enough (q < 2) by lia. apply Z.lt_nge. intros H2. apply Hn.
      assert (Hqm : q mod 512 = q) by (apply Z.mod_small; dlia). rewrite Hqm.
      unfold topSlotsEmpty in Htop. rewrite forallb_forall in Htop. rewrite nth_lookup. destruct (slots_at n _ !! Z.to_nat q) as [v|] eqn:Ev; [|reflexivity].
      cbn. apply Z.eqb_eq, Htop, list_elem_of_In, (list_elem_of_lookup_2 _ (Z.to_nat q - 2)). rewrite lookup_drop. rewrite <- Ev. f_equal. lia.
    + (* the bound is a multiple of the larger span *)
      specialize (IH (S level) (q / 512) ltac:(lia) ltac:(lia) Hq5 Hp) as Hdiv. pose proof (span_pos (S level)). pose proof (span_pos (S (S level))).
      assert (Hm : exists m, two64 = m * span (S (S level))).
      { exists (2 ^ 64 / span (S (S level))). unfold span. change 512 with (2 ^ 9). rewrite <- Z.pow_mul_r by lia. rewrite <- Z.pow_sub_r by lia.
        rewrite <- Z.pow_add_r by lia. replace (64 - 9 * Z.of_nat (S (S level)) + 9 * Z.of_nat (S (S level))) with 64 by lia. reflexivity. }
      destruct Hm as [m Hm]. assert (q / 512 < m) by (rewrite Hm in Hdiv; nia). rewrite Hm, (span_S (S level)).
      assert (q < 512 * m) by dlia. nia.
Qed.

(** ** Lookup *)

Lemma div_div_512 id level : 0 <= id -> id / span level / 512 = id / span (S level).
Proof. intros H. now rewrite div_span_S. Qed.

Lemma leaf_ref_below n t id level : 0 <= id -> (level <= 7)%nat -> addr_at n t level (id / span (S level)) = 0 -> leaf_ref n t id = None.
Proof.
  intros Hid. induction level as [|level IH]; intros Hl H.
  - unfold leaf_ref. change (span 1) with 512 in H. rewrite H. unfold refs_at. cbn [Z.eqb]. unfold zero_refs. rewrite nth_replicate. reflexivity.
  - apply IH; [lia|]. apply addr_below; [lia|]. rewrite div_div_512 by exact Hid. exact H.
Qed.

Lemma lookup_from_spec n t id level : tree_wf n t -> is_u64 id -> (level <= 7)%nat ->
  addr_at n t level (id / span (S level)) <> 0 ->
  lookup_from n t id level (addr_at n t level (id / span (S level))) = Ok (leaf_ref n t id).
Proof.
  intros Hw Hid. assert (H0 : 0 <= id) by (unfold is_u64 in Hid; lia).
  assert (Hd : forall l, 0 <= id / span l) by (intros l; apply Z.div_pos; [lia|apply span_pos]). induction level as [|level IH]; intros Hl Hn.
  - pose proof (tw_nodes n t Hw 0 _ Hl (Hd 1%nat) Hn) as Hna.
    destruct (load_leaf n t _ _ Hna) as (nd & El & _ & Hlen & Hlk & Hval). cbn [lookup_from]. change (Z.of_nat 0) with 0.
    pose proof (nodePrefix_spec id 0 Hid ltac:(lia)) as Ep. change (Z.of_nat 0) with 0 in Ep. rewrite Ep, El.
    pose proof (nodeSlot_spec id 0 Hid ltac:(lia)) as Es. change (Z.of_nat 0) with 0 in Es. change (span 0) with 1 in Es. rewrite Z.div_1_r in Es. rewrite Es.
    rewrite Hlk by (apply Z.mod_pos_bound; lia). unfold leaf_ref. change (span 1) with 512 in *.
    set (r := nth (Z.to_nat (id mod 512)) (refs_at n (addr_at n t 0 (id / 512))) zeroRef).
    unfold shown. destruct (RecordRef_IsZero r) eqn:Ez; [reflexivity|].
    assert (Hr : r ∈ refs_at n (addr_at n t 0 (id / 512))).
    { unfold r. rewrite nth_lookup. destruct (lookup_lt_is_Some_2 (refs_at n (addr_at n t 0 (id / 512))) (Z.to_nat (id mod 512))) as [x Hx].
      - rewrite Hlen. pose proof (Z.mod_pos_bound id 512). lia.
      - rewrite Hx. cbn. now apply list_elem_of_lookup_2 in Hx. }
    rewrite Forall_forall in Hval. destruct (Hval r Hr) as [->|[-> _]]; [discriminate Ez|reflexivity].
  - pose proof (tw_nodes n t Hw (S level) _ Hl (Hd (S (S level))) Hn) as Hna.
    destruct (load_internal n t _ _ _ Hna ltac:(lia)) as (nd & El & _ & Hlen & Hlk & Hval & _). cbn [lookup_from].
    rewrite (nodePrefix_spec id (S level) Hid Hl), El, (nodeSlot_spec id (S level) Hid Hl), Hlk by (apply Z.mod_pos_bound; lia). cbv zeta.
    assert (Ec : nth (Z.to_nat ((id / span (S level)) mod 512)) (slots_at n (addr_at n t (S level) (id / span (S (S level))))) 0 = addr_at n t level (id / span (S level))).
    { rewrite (addr_at_step n t level) by lia. now rewrite div_div_512. }
    rewrite Ec. destruct (addr_at n t level (id / span (S level)) =? 0) eqn:E0; bool_norm.
    + f_equal. symmetry. eapply leaf_ref_below; [exact H0| |exact E0]. lia.
    + unfold ParseMapAddr. pose proof (tw_nodes n t Hw level _ ltac:(lia) (Hd (S level)) E0) as [[_ ->] _]. cbn [negb]. apply IH; [lia|exact E0].
Qed.

Lemma Tree_LookupRef_spec n t id : tree_wf n t -> 0 < id <= MaxUint64 -> Tree_LookupRef n t id = Ok (leaf_ref n t id).
Proof.
  intros Hw Hid. unfold Tree_LookupRef. replace (id =? 0) with false by (symmetry; apply Z.eqb_neq; lia).
  assert (Hu : is_u64 id) by (unfold is_u64; lia). assert (E0 : id / span 8 = 0) by (apply Z.div_small; change (span 8) with (2 ^ 72); lia).
  assert (Er : addr_at n t 7 (id / span 8) = rx_root t) by (rewrite E0; reflexivity).
  destruct (rx_root t =? 0) eqn:E; bool_norm.
  - f_equal. symmetry. apply (leaf_ref_below n t id 7); [lia|lia|congruence].
  - rewrite <- Er. apply lookup_from_spec; auto. congruence.
Qed.

(** ** Walks *)

Definition ids_sorted (l : list (Z * RecordRef)) : Prop := StronglySorted Z.lt (map fst l).

(** The visits of the ids whose quotient by [B] is [c]. *)
Definition visits (P : Z -> option RecordRef) (B c : Z) (l : list (Z * RecordRef)) : Prop :=
  ids_sorted l /\ forall id r, (id, r) ∈ l <-> 0 <= id /\ id / B = c /\ P id = Some r.

Lemma ids_sorted_app l k : ids_sorted l -> ids_sorted k -> (forall x y, x ∈ l -> y ∈ k -> x.1 < y.1) -> ids_sorted (l ++ k).
Proof.
  unfold ids_sorted. intros Hl Hk H. rewrite map_app. apply StronglySorted_app_2; [|exact Hl|exact Hk].
  intros a b Ha Hb. apply list_elem_of_In, in_map_iff in Ha as (x & <- & Hx). apply list_elem_of_In, in_map_iff in Hb as (y & <- & Hy).
  apply H; now apply list_elem_of_In.
Qed.

Lemma walk_slots_spec P B c (f : Z -> res (list (Z * RecordRef))) ss : 0 < B -> StronglySorted Z.lt ss ->
  (forall s, s ∈ ss -> exists l, f s = Ok l /\ visits P B (c + s) l) ->
  exists l, walk_slots f ss = Ok l /\ ids_sorted l /\
    forall id r, (id, r) ∈ l <-> 0 <= id /\ (exists s, s ∈ ss /\ id / B = c + s) /\ P id = Some r.
Proof.
  intros HB. induction ss as [|s ss IH]; intros Hs Hf; cbn [walk_slots].
  { exists []. split; [reflexivity|]. split; [constructor|]. intros id r. split; [intros H; inversion H|intros (_ & (s & H & _) & _); inversion H]. }
  inversion Hs as [|? ? Hs' Hlt]; subst. destruct (Hf s ltac:(now constructor)) as (l1 & -> & Hs1 & Hv1).
  destruct IH as (l2 & -> & Hs2 & Hv2); [exact Hs'|intros x Hx; apply Hf; now constructor|].
  exists (l1 ++ l2). split; [reflexivity|]. split.
  - apply ids_sorted_app; auto. intros [i1 r1] [i2 r2] H1 H2. apply Hv1 in H1 as (Hi1 & E1 & _). apply Hv2 in H2 as (Hi2 & (s' & Hs2' & E2) & _). cbn.
    rewrite Forall_forall in Hlt. specialize (Hlt s' Hs2'). apply Z.lt_nge. intros Hle. assert (i2 / B <= i1 / B) by (apply Z.div_le_mono; lia). lia.
  - intros id r. rewrite elem_of_app, Hv1, Hv2. split.
    + intros [(H1 & H2 & H3)|(H1 & (s' & H2 & H3) & H4)]; (split; [assumption|]); (split; [|assumption]).
      * exists s. split; [now constructor|exact H2].
      * exists s'. split; [now constructor|exact H3].
    + intros (H1 & (s' & [->|Hin]%elem_of_cons & H2) & H3); [left; auto|right; split; [exact H1|]; split; [exists s'; auto|exact H3]].
Qed.

Lemma all_slots_sorted : StronglySorted Z.lt all_slots.
Proof.
  assert (H : forall k a, StronglySorted Z.lt (map Z.of_nat (seq a k))); [|apply H].
  induction k as [|k IH]; intros a; cbn [seq map]; constructor; [apply IH|].
  apply Forall_map, Forall_forall. intros x Hx%elem_of_seq. lia.
Qed.

Lemma all_slots_elem s : s ∈ all_slots <-> 0 <= s < 512.
Proof.
  unfold all_slots. rewrite list_elem_of_In, in_map_iff. split.
  - intros (x & <- & Hx). apply in_seq in Hx. lia.
  - intros H. exists (Z.to_nat s). split; [lia|]. apply in_seq. lia.
Qed.

(** Splitting a quotient by 512. *)
Lemma quotient_split x q : (exists s, 0 <= s < 512 /\ x = q * 512 + s) <-> x / 512 = q.
Proof.
  split; [intros (s & Hs & ->); rewrite Z.div_add_l by lia; rewrite Z.div_small by lia; lia|]. intros <-. exists (x mod 512). split; [apply Z.mod_pos_bound; lia|].
  pose proof (Z.div_mod x 512). lia.
Qed.

Lemma walkNode_spec n t level : tree_wf n t -> (level <= 7)%nat -> forall q, 0 <= q -> addr_at n t level q <> 0 ->
  exists l, walkNode n t level (addr_at n t level q) q = Ok l /\ visits (leaf_ref n t) (span (S level)) q l.
Proof.
  intros Hw. induction level as [|level IH]; intros Hl q Hq Hn; pose proof (tw_nodes n t Hw _ q Hl Hq Hn) as Hna;
    pose proof (addr_range n t _ q Hw Hl Hq Hn) as Hrange.
  - destruct (load_leaf n t _ _ Hna) as (nd & El & _ & Hlen & Hlk & Hval). cbn [walkNode]. change (Z.of_nat 0) with 0. rewrite El. change (span 1) with 512 in *.
    match goal with |- context [walk_slots ?f all_slots] => destruct (walk_slots_spec (leaf_ref n t) 1 (q * 512) f all_slots) as (l & -> & Hs & Hv) end; [lia|exact all_slots_sorted| |exists l; split; [reflexivity|split; [exact Hs|]]].
    + intros s Hs%all_slots_elem. rewrite Hlk by exact Hs. assert (Elr : leaf_ref n t (q * 512 + s) = shown (nth (Z.to_nat s) (refs_at n (addr_at n t 0 q)) zeroRef)).
      { unfold leaf_ref. rewrite Z.div_add_l by lia. rewrite (Z.div_small s) by lia. rewrite Z.add_0_r, Z.add_comm, Z.mod_add by lia. now rewrite Z.mod_small by lia. }
      destruct (shown _) as [r|] eqn:Er.
      * rewrite child_prefix_spec by lia. assert (Hv : RecordRef_Valid r = true).
        { apply shown_Some in Er as [Er Ez].
          rewrite Forall_forall in Hval. destruct (Hval r) as [->|[-> _]]; [|discriminate Ez|reflexivity].
          rewrite <- Er, nth_lookup. destruct (lookup_lt_is_Some_2 (refs_at n (addr_at n t 0 q)) (Z.to_nat s) ltac:(lia)) as [x Hx]. rewrite Hx. now apply list_elem_of_lookup_2 in Hx. }
        assert (Hid : q * 512 + s <> 0) by (intros E; rewrite E, (tw_zero n t Hw) in Elr; discriminate).
        rewrite Hv. replace (q * 512 + s =? 0) with false by (symmetry; now apply Z.eqb_neq). cbn [negb orb].
        eexists. split; [reflexivity|]. split; [repeat constructor|]. intros id r'. rewrite list_elem_of_singleton, Z.div_1_r. split.
        -- intros [= -> ->]. split; [lia|]. now split.
        -- intros (_ & -> & H). congruence.
      * exists []. split; [reflexivity|]. split; [constructor|]. intros id r. rewrite Z.div_1_r. split; [intros H; inversion H|]. intros (_ & -> & H). congruence.
    + intros id r. rewrite Hv, Z.div_1_r. split; intros (H1 & H2 & H3); (split; [exact H1|]); (split; [|exact H3]).
      * apply quotient_split. destruct H2 as (s & Hin%all_slots_elem & ->). exists s. auto.
      * apply quotient_split in H2 as (s & Hs' & ->). exists s. split; [now apply all_slots_elem|reflexivity].
  - destruct (load_internal n t _ _ _ Hna ltac:(lia)) as (nd & El & _ & Hlen & Hlk & Hval & _). cbn [walkNode]. rewrite El.
    pose proof (span_pos (S level)) as Hsp. assert (Hq5 : q * 512 < two64).
    { rewrite span_S in Hrange. nia. }
    match goal with |- context [walk_slots ?f all_slots] => destruct (walk_slots_spec (leaf_ref n t) (span (S level)) (q * 512) f all_slots) as (l & -> & Hs & Hv) end; [lia|exact all_slots_sorted| |exists l; split; [reflexivity|split; [exact Hs|]]].
    + intros s Hs%all_slots_elem. rewrite Hlk by exact Hs. cbv zeta.
      assert (Ec : nth (Z.to_nat s) (slots_at n (addr_at n t (S level) q)) 0 = addr_at n t level (q * 512 + s)).
      { rewrite (addr_at_step n t level) by lia. rewrite Z.div_add_l by lia. rewrite (Z.div_small s) by lia. rewrite Z.add_0_r.
        rewrite (Z.add_comm (q * 512)), Z.mod_add by lia. now rewrite Z.mod_small by lia. }
      rewrite Ec. destruct (addr_at n t level (q * 512 + s) =? 0) eqn:E0; bool_norm.
      * exists []. split; [reflexivity|]. split; [constructor|]. intros id r. split; [intros H; inversion H|]. intros (Hi & Hd & H). exfalso.
        rewrite (leaf_ref_below n t id level) in H; [discriminate|exact Hi|lia|]. now rewrite Hd.
      * unfold ParseMapAddr. pose proof (tw_nodes n t Hw level _ ltac:(lia) (ltac:(lia) : 0 <= q * 512 + s) E0) as [[_ ->] _]. cbn [negb].
        rewrite child_prefix_spec by lia. apply IH; [lia|lia|exact E0].
    + intros id r. rewrite Hv. split; intros (H1 & H2 & H3); (split; [exact H1|]); (split; [|exact H3]).
      * rewrite div_span_S by exact H1. apply quotient_split. destruct H2 as (s & Hin%all_slots_elem & ->). exists s. auto.
      * rewrite div_span_S in H2 by exact H1. apply quotient_split in H2 as (s & Hs' & E). exists s. split; [now apply all_slots_elem|exact E].
Qed.

Lemma Tree_WalkRefs_spec n t : tree_wf n t ->
  exists l, Tree_WalkRefs n t = Ok l /\ ids_sorted l /\ forall id r, (id, r) ∈ l <-> 0 < id <= MaxUint64 /\ leaf_ref n t id = Some r.
Proof.
  intros Hw. unfold Tree_WalkRefs. assert (Er : addr_at n t 7 0 = rx_root t) by reflexivity.
  assert (Hpos : forall id r, 0 <= id -> leaf_ref n t id = Some r -> 0 < id).
  { intros id r H0 E. destruct (Z.eq_dec id 0) as [->|]; [rewrite (tw_zero n t Hw) in E; discriminate|lia]. }
  destruct (rx_root t =? 0) eqn:E; bool_norm.
  - exists []. split; [reflexivity|]. split; [constructor|]. intros id r. split; [intros H; inversion H|]. intros (Hi & H). exfalso.
    rewrite (leaf_ref_below n t id 7) in H; [discriminate|lia|lia|]. rewrite Z.div_small by (change (span 8) with (2 ^ 72); lia). congruence.
  - rewrite <- Er. destruct (walkNode_spec n t 7 Hw ltac:(lia) 0 ltac:(lia) ltac:(congruence)) as (l & -> & Hs & Hv). exists l. split; [reflexivity|]. split; [exact Hs|].
    intros id r. rewrite Hv. split.
    + intros (Hi & _ & H). split; [|exact H]. split; [eauto|].
      assert (Ha : addr_at n t 0 (id / 512) <> 0). { intros E0. rewrite (leaf_ref_below n t id 0) in H; [discriminate|exact Hi|lia|exact E0]. }
      pose proof (addr_range n t 0 (id / 512) Hw ltac:(lia) ltac:(apply Z.div_pos; lia) Ha) as Hr. change (span 1) with 512 in Hr. dlia.
    + intros (Hi & H). split; [lia|]. split; [apply Z.div_small; change (span 8) with (2 ^ 72); lia|exact H].
Qed.
End Spec.
