(* ===== verification/RadixBuild.v ===== *)
(** * Correctness of the streaming builder

    The builder folds leaf changes upwards while it holds one partly changed node
    per level in memory.  The invariant reads the tree through these
    accumulators: at every level from [c] up, the positions that have not been
    passed yet are those of the old tree, and every position the builder reaches
    has a proper node.  Pushing a change alters one position; flushing alters
    none. *)
From S2P Require Import Prelude Addr MapNode NodeIface Mapping TreeIface Radix RadixSpec.

Section Build.
Context {N : Type} `{!NodeStore N} `{!NodeStoreLaws N}.
Implicit Types (n : N) (t : Tree) (b : streamingBuilder N).

(** ** Finding old nodes *)

Lemma addr_below_many n t id level k : 0 <= id -> (level + k <= 7)%nat ->
  addr_at n t (level + k) (id / span (S (level + k))) = 0 -> addr_at n t level (id / span (S level)) = 0.
Proof.
  intros Hid. induction k as [|k IH]; intros Hl H; [now rewrite Nat.add_0_r in H|]. apply IH; [lia|].
  apply addr_below; [lia|]. rewrite div_div_512 by exact Hid. replace (S (level + k)) with (level + S k)%nat by lia. exact H.
Qed.

Lemma descend_spec n t id level k : tree_wf n t -> is_u64 id -> (level + k <= 7)%nat -> (0 < level + k)%nat \/ k = 0%nat ->
  addr_at n t (level + k) (id / span (S (level + k))) <> 0 ->
  descend n t id (Z.of_nat (level + k)) k (addr_at n t (level + k) (id / span (S (level + k)))) = Ok (addr_at n t level (id / span (S level))).
Proof.
  intros Hw Hid. assert (H0 : 0 <= id) by (unfold is_u64 in Hid; lia).
  assert (Hd : forall l, 0 <= id / span l) by (intros l; apply Z.div_pos; [lia|apply span_pos]).
  induction k as [|k IH]; intros Hl _ Hn; cbn [descend]; [now rewrite Nat.add_0_r|].
  replace (level + S k)%nat with (S (level + k)) in * by lia.
  pose proof (tw_nodes n t Hw _ _ Hl (Hd _) Hn) as Hna. destruct (load_internal n t _ _ _ Hna ltac:(lia)) as (nd & El & _ & Hlen & Hlk & _).
  rewrite nodePrefix_spec, El, nodeSlot_spec by (auto; lia). rewrite Hlk by (apply Z.mod_pos_bound; lia). cbv zeta.
  assert (Ec : nth (Z.to_nat ((id / span (S (level + k))) mod 512)) (slots_at n (addr_at n t (S (level + k)) (id / span (S (S (level + k)))))) 0 =
    addr_at n t (level + k) (id / span (S (level + k)))).
  { rewrite (addr_at_step n t (level + k)) by lia. now rewrite div_div_512. }
  rewrite Ec. destruct (addr_at n t (level + k) (id / span (S (level + k))) =? 0) eqn:E0; bool_norm.
  - f_equal. symmetry. eapply addr_below_many; [exact H0| |exact E0]. lia.
  - unfold ParseMapAddr. pose proof (tw_nodes n t Hw _ _ (ltac:(lia) : (level + k <= 7)%nat) (Hd _) E0) as [[_ ->] _]. cbn [negb].
    replace (Z.of_nat (S (level + k)) - 1) with (Z.of_nat (level + k)) by lia. apply IH; [lia| |exact E0]. destruct k; lia.
Qed.

Lemma shiftl_span q level : 0 <= q -> q * span level < two64 -> Z.shiftl q (9 * Z.of_nat level) mod two64 = q * span level.
Proof.
  intros Hq H. rewrite Z.shiftl_mul_pow2 by lia. replace (2 ^ (9 * Z.of_nat level)) with (span level).
  - pose proof (span_pos level). apply Z.mod_small. nia.
  - unfold span. change 512 with (2 ^ 9). now rewrite <- Z.pow_mul_r by lia.
Qed.

Lemma nodeAddress_spec n t level q : tree_wf n t -> (level <= 7)%nat -> 0 <= q -> q * span (S level) < two64 ->
  nodeAddress n t (Z.of_nat level) q = Ok (addr_at n t level q).
Proof.
  intros Hw Hl Hq Hr. pose proof (span_pos (S level)) as Hsp. unfold nodeAddress.
  assert (Hid : is_u64 (q * span (S level))) by (unfold is_u64; nia).
  assert (Eq : q * span (S level) / span (S level) = q) by (apply Z.div_mul; lia).
  assert (E8 : q * span (S level) / span 8 = 0) by (apply Z.div_small; change (span 8) with (2 ^ 72); unfold is_u64 in Hid; lia).
  assert (Etop : addr_at n t 7 (q * span (S level) / span 8) = rx_root t) by (rewrite E8; reflexivity).
  destruct (rx_root t =? 0) eqn:E0; bool_norm.
  - f_equal. symmetry. rewrite <- Eq. apply (addr_below_many n t _ level (7 - level)); [unfold is_u64 in Hid; lia|lia|].
    replace (level + (7 - level))%nat with 7%nat by lia. congruence.
  - unfold MaxLevel. destruct (Z.of_nat level =? 7) eqn:E7; bool_norm.
    + assert (level = 7%nat) as -> by lia. rewrite E8 in Eq. subst q. reflexivity.
    + replace (9 * (Z.of_nat level + 1)) with (9 * Z.of_nat (S level)) by lia. rewrite shiftl_span by assumption.
      replace (Z.to_nat (7 - Z.of_nat level)) with (7 - level)%nat by lia. pose proof (descend_spec n t (q * span (S level)) level (7 - level) Hw Hid) as Hd.
      replace (level + (7 - level))%nat with 7%nat in Hd by lia. rewrite Etop, Eq in Hd. apply Hd; [lia|lia|exact E0].
Qed.

Lemma oldSlots_spec n t level q : tree_wf n t -> (0 < level <= 7)%nat -> 0 <= q ->
  exists bytes, oldSlots n t (addr_at n t level q) (Z.of_nat level) q = Ok (slots_at n (addr_at n t level q), bytes) /\
    length (slots_at n (addr_at n t level q)) = 512%nat /\ Forall slot_valid (slots_at n (addr_at n t level q)) /\
    (level = 7%nat -> topSlotsEmpty (slots_at n (addr_at n t level q)) = true).
Proof.
  intros Hw Hl Hq. unfold oldSlots. destruct (addr_at n t level q =? 0) eqn:E; bool_norm.
  - rewrite E. exists 0. unfold slots_at. cbn [Z.eqb]. split; [reflexivity|]. split; [reflexivity|]. split; [|reflexivity].
    apply Forall_replicate. now left.
  - pose proof (tw_nodes n t Hw level q ltac:(lia) Hq E) as Hna. destruct (load_internal n t _ _ _ Hna ltac:(lia)) as (nd & -> & Es & Hlen & _ & Hv & Ht).
    exists (Node_PhysicalSize nd). rewrite Es. auto.
Qed.

Lemma oldRefs_spec n t q : tree_wf n t -> 0 <= q ->
  exists bytes, oldRefs n t (addr_at n t 0 q) q = Ok (refs_at n (addr_at n t 0 q), bytes) /\
    length (refs_at n (addr_at n t 0 q)) = 512%nat /\ Forall ref_valid (refs_at n (addr_at n t 0 q)).
Proof.
  intros Hw Hq. unfold oldRefs. destruct (addr_at n t 0 q =? 0) eqn:E; bool_norm.
  - rewrite E. exists 0. unfold refs_at. cbn [Z.eqb]. split; [reflexivity|]. split; [reflexivity|]. apply Forall_replicate. now left.
  - pose proof (tw_nodes n t Hw 0 q ltac:(lia) Hq E) as Hna. destruct (load_leaf n t _ _ Hna) as (nd & -> & Es & Hlen & _ & Hv).
    exists (Node_PhysicalSize nd). rewrite Es. auto.
Qed.

(** ** Views under change *)

Lemma at_pos_ext n ov ov' root level q : (level <= 7)%nat -> (forall k, (level < k <= 7)%nat -> ov k = ov' k) ->
  at_pos n ov root level q = at_pos n ov' root level q.
Proof.
  remember (7 - level)%nat as d eqn:Ed. revert level q Ed. induction d as [|d IH]; intros level q Ed Hl H.
  - assert (level = 7%nat) as -> by lia. reflexivity.
  - rewrite (at_pos_step n ov), (at_pos_step n ov') by lia. rewrite (IH (S level)); [|lia|lia|intros; apply H; lia]. unfold vslots. rewrite (H (S level)) by lia. reflexivity.
Qed.

Lemma at_pos_grow n n' ov root covered level q : readable n n' -> (level <= 7)%nat -> 0 <= q ->
  (forall k r, (level < k <= 7)%nat -> 0 <= r -> at_pos n ov root k r <> 0 -> node_at n covered k r (at_pos n ov root k r)) ->
  at_pos n' ov root level q = at_pos n ov root level q.
Proof.
  intros Hr. remember (7 - level)%nat as d eqn:Ed. revert level q Ed. induction d as [|d IH]; intros level q Ed Hl Hq H.
  - assert (level = 7%nat) as -> by lia. reflexivity.
  - assert (Hq5 : 0 <= q / 512) by (apply Z.div_pos; lia). rewrite (at_pos_step n' ov), (at_pos_step n ov) by lia.
    rewrite (IH (S level)); [|lia|lia|lia|intros k r Hk; apply H; lia]. f_equal. unfold vslots.
    assert (E : slots_at n' (at_pos n ov root (S level) (q / 512)) = slots_at n (at_pos n ov root (S level) (q / 512))); [|now rewrite E].
    destruct (Z.eq_dec (at_pos n ov root (S level) (q / 512)) 0) as [->|Hn]; [reflexivity|].
    apply (node_at_readable n n' covered (S level) (q / 512)); [exact Hr|]. apply H; [lia|exact Hq5|exact Hn].
Qed.

Lemma addr_at_grow n n' t level q : readable n n' -> tree_wf n t -> (level <= 7)%nat -> 0 <= q -> addr_at n' t level q = addr_at n t level q.
Proof. intros Hr Hw Hl Hq. apply (at_pos_grow n n' no_overlay (rx_root t) (rx_covered t)); auto. intros k r Hk Hr0 Hn. apply (tw_nodes n t Hw); auto. lia. Qed.

Lemma refs_at_grow n n' covered level q a : readable n n' -> (a <> 0 -> node_at n covered level q a) -> refs_at n' a = refs_at n a /\ slots_at n' a = slots_at n a.
Proof.
  intros Hr H. destruct (Z.eq_dec a 0) as [->|Hn]; [auto|]. destruct (node_at_readable n n' covered level q a Hr (H Hn)) as (_ & E1 & E2). auto.
Qed.

Lemma tree_wf_grow n n' t : readable n n' -> ns_ok n' -> tree_wf n t -> tree_wf n' t /\ forall id, 0 <= id -> leaf_ref n' t id = leaf_ref n t id.
Proof.
  intros Hr Hok Hw. assert (Hleaf : forall id, 0 <= id -> leaf_ref n' t id = leaf_ref n t id).
  { intros id Hid. assert (Hq : 0 <= id / 512) by (apply Z.div_pos; lia). unfold leaf_ref. rewrite (addr_at_grow n n') by (auto; lia).
    destruct (refs_at_grow n n' (rx_covered t) 0 (id / 512) (addr_at n t 0 (id / 512)) Hr) as [-> _]; [|reflexivity].
    intros Hn. apply (tw_nodes n t Hw); auto. lia. }
  split; [|exact Hleaf]. constructor; [exact Hok|apply Hw| |rewrite Hleaf by lia; apply Hw].
  intros level q Hl Hq. rewrite (addr_at_grow n n') by auto. intros Hn. apply (node_at_readable n n'); [exact Hr|]. now apply (tw_nodes n t Hw).
Qed.

(** ** Writing nodes *)

Lemma node_of_slots nd level q c slots sizes : node_of nd level q c slots sizes -> Slots nd = slots.
Proof. intros (seq & Hb & Hh & _). exact (Slots_spec _ nd Hb Hh). Qed.

Lemma slots_at_node n a nd level q c slots sizes : a <> 0 -> ns_Read n a = Ok nd -> node_of nd level q c slots sizes -> slots_at n a = slots.
Proof. intros Ha Hr Hn. unfold slots_at. apply Z.eqb_neq in Ha as ->. rewrite Hr. now apply (node_of_slots nd level q c slots sizes). Qed.

Lemma slot_valid_u64 l : Forall slot_valid l -> Forall is_u64 l.
Proof. intros H. eapply Forall_impl; [exact H|]. clear H. intros v [->|[H _]]; [unfold is_u64; lia|exact H]. Qed.

Lemma all_zero_slots l : forallb (fun v => v =? 0) l = true -> length l = 512%nat -> l = zero_slots.
Proof.
  intros H Hl. unfold zero_slots. rewrite <- Hl. clear Hl. induction l as [|v l IH]; [reflexivity|]. cbn in H. bool_norm. subst v.
  cbn [length replicate]. f_equal. auto.
Qed.

Lemma prefix_u64 L q : 0 <= q -> q * span (S L) < two64 -> is_u64 q.
Proof. intros Hq H. pose proof (span_pos (S L)). unfold is_u64. nia. Qed.

Lemma writeChangedNode_spec n t L p covered after old n' r : ns_ok n -> is_u64 covered -> (L <= 7)%nat -> 0 <= p -> p * span (S L) < two64 ->
  length after = 512%nat -> Forall slot_valid after -> (L = 7%nat -> topSlotsEmpty after = true) -> (old <> 0 -> node_at n covered L p old) ->
  writeChangedNode n t (Z.of_nat L) p covered (slots_at n old) after old = (n', r) ->
  ns_ok n' /\ readable n n' /\ match r with Err _ => True | Ok a => slots_at n' a = after /\ (a <> 0 -> node_at n' covered L p a) end.
Proof.
  intros Hok Hc HL Hp Hr Hlen Hval Htop Hold. unfold writeChangedNode. case_bool_decide as E; [|case_if; [|case_if]].
  1-3: intros [= <- <-]; split; [exact Hok|]; split; [apply readable_refl|]; auto.
  - split; [|lia]. symmetry. now apply all_zero_slots.
  - intros E1. destruct (ns_append n (Z.of_nat L) p covered after n' r Hok ltac:(lia) (prefix_u64 L p Hp Hr) Hc Hlen (slot_valid_u64 _ Hval) E1) as (Hok' & Hrd & Ha).
    split; [exact Hok'|]. split; [exact Hrd|]. destruct r as [a|e]; [|exact I]. destruct Ha as (Hu & Hv & nd & Hn & Hnode). split.
    + apply (slots_at_node n' a nd (Z.of_nat L) p covered after (replicate 512 0)); auto. now apply valid_nonzero.
    + intros _. constructor; [auto|]. exists nd, covered, after, (replicate 512 0). split; [exact Hn|]. split; [exact Hnode|lia].
Qed.

Lemma ref_valid_u l : Forall ref_valid l -> Forall ref_u l.
Proof. intros H. eapply Forall_impl; [exact H|]. clear H. intros r [->|[_ H]]; [|exact H]. split; unfold is_u64, is_u32; cbn; lia. Qed.

Lemma all_zero_refs l : forallb RecordRef_IsZero l = true -> length l = 512%nat -> l = zero_refs.
Proof.
  intros H Hl. unfold zero_refs. rewrite <- Hl. clear Hl. induction l as [|v l IH]; [reflexivity|]. cbn in H. bool_norm. 
  cbn [length replicate]. f_equal; [|auto]. now apply bool_decide_eq_true in H.
Qed.

Lemma zip_refs l : map ref_of (zip (map Addr l) (map PhysicalSize l)) = l.
Proof. induction l as [|[a s] l IH]; [reflexivity|]. cbn. f_equal. exact IH. Qed.

Lemma node_of_refs nd q c l : node_of nd 0 q c (map Addr l) (map PhysicalSize l) -> Refs nd = l.
Proof.
  intros (seq & Hb & Hh & He & _). cbv zeta in *. etransitivity; [eapply (Refs_spec _ nd Hb Hh eq_refl)|apply zip_refs].
  intros e Hin Ez. rewrite Forall_forall in He. specialize (He e Hin). unfold entry_valid in He. rewrite Ez in He. cbn in He. auto.
Qed.

Lemma writeChangedLeaf_spec n t p covered after old n' r : ns_ok n -> is_u64 covered -> 0 <= p -> p * 512 < two64 ->
  length after = 512%nat -> Forall ref_valid after -> (old <> 0 -> node_at n covered 0 p old) ->
  writeChangedLeaf n t p covered (refs_at n old) after old = (n', r) ->
  ns_ok n' /\ readable n n' /\ match r with Err _ => True | Ok a => refs_at n' a = after /\ (a <> 0 -> node_at n' covered 0 p a) end.
Proof.
  intros Hok Hc Hp Hr Hlen Hval Hold. unfold writeChangedLeaf. case_bool_decide as E; [|case_if; [|case_if]].
  1-3: intros [= <- <-]; split; [exact Hok|]; split; [apply readable_refl|]; auto.
  - split; [|lia]. symmetry. now apply all_zero_refs.
  - intros E1. destruct (ns_append_leaf n p covered after n' r Hok ltac:(unfold is_u64; lia) Hc Hlen (ref_valid_u _ Hval) E1) as (Hok' & Hrd & Ha).
    split; [exact Hok'|]. split; [exact Hrd|]. destruct r as [a|e]; [|exact I]. destruct Ha as (Hu & Hv & nd & Hn & Hnode). split.
    + unfold refs_at. replace (a =? 0) with false by (symmetry; apply Z.eqb_neq; now apply valid_nonzero). rewrite Hn. now apply (node_of_refs nd p covered).
    + intros _. constructor; [auto|]. exists nd, covered, (map Addr after), (map PhysicalSize after). split; [exact Hn|]. split; [exact Hnode|lia].
Qed.

(** ** The builder's view of the tree *)

Definition acc b (L : nat) : option nodeAccumulator := level_at b (Z.of_nat L).
Definition ov_of b : overlay_t := fun L => match acc b L with Some a => Some (ac_prefix a, ac_slots a) | None => None end.
Definition view b : nat -> Z -> Z := at_pos (bd_nodes b) (ov_of b) (bd_root b).

Definition same_counts (d d' : option EntryDelta) : Prop :=
  match d, d' with
  | Some d, Some d' => ed_Added d' = ed_Added d /\ ed_Removed d' = ed_Removed d
  | None, None => True
  | _, _ => False
  end.

(** What no step of the hierarchy changes, even when it fails. *)
Record grows b b' : Prop := mkGrows {
  gr_read : readable (bd_nodes b) (bd_nodes b');
  gr_ok : ns_ok (bd_nodes b');
  gr_tree : bd_tree b' = bd_tree b;
  gr_covered : bd_covered b' = bd_covered b;
  gr_levels : length (bd_levels b') = length (bd_levels b);
  gr_counts : same_counts (bd_delta b) (bd_delta b');
}.

Record acc_ok b (L : nat) (a : nodeAccumulator) : Prop := mkAccOk {
  ao_prefix : 0 <= ac_prefix a /\ ac_prefix a * span (S L) < two64;
  ao_slots : length (ac_slots a) = 512%nat /\ Forall slot_valid (ac_slots a);
  ao_top : L = 7%nat -> topSlotsEmpty (ac_slots a) = true;
  ao_old : ac_oldAddr a = addr_at (bd_nodes b) (bd_tree b) L (ac_prefix a);
  ao_before : ac_before a = slots_at (bd_nodes b) (ac_oldAddr a);
}.

(** The first position of a level that may still be changed. *)
Definition front b (fr : nat -> Z) (L : nat) : Z := match acc b L with Some a => ac_prefix a | None => fr L end.

(** The hierarchy above level [c]; from [fr L] on, level [L] is the old tree. *)
Record hier b (fr : nat -> Z) (c : nat) : Prop := mkHier {
  hi_store : ns_ok (bd_nodes b);
  hi_tree : tree_wf (bd_nodes b) (bd_tree b);
  hi_covered : is_u64 (bd_covered b) /\ rx_covered (bd_tree b) <= bd_covered b;
  hi_levels : length (bd_levels b) = 8%nat;
  hi_acc : forall L a, (c < L <= 7)%nat -> acc b L = Some a -> acc_ok b L a /\ fr L <= ac_prefix a;
  hi_old : forall L q, (c <= L <= 7)%nat -> fr L <= q -> view b L q = addr_at (bd_nodes b) (bd_tree b) L q;
  hi_node : forall L q, (c <= L <= 7)%nat -> 0 <= q -> view b L q <> 0 -> node_at (bd_nodes b) (bd_covered b) L q (view b L q);
  hi_front : forall L, (c <= L < 7)%nat -> front b fr (S L) <= fr L / 512;
  hi_pos : forall L, 0 <= fr L;
}.

Definition upd (fr : nat -> Z) (L : nat) (x : Z) : nat -> Z := fun k => if decide (k = L) then x else fr k.
Lemma upd_eq fr L x : upd fr L x L = x.
Proof. unfold upd. now rewrite decide_True. Qed.
Lemma upd_ne fr L x k : k <> L -> upd fr L x k = fr k.
Proof. intros H. unfold upd. now rewrite decide_False. Qed.

Lemma grows_refl b : ns_ok (bd_nodes b) -> grows b b.
Proof. intros H. constructor; auto; [apply readable_refl|]. unfold same_counts. now destruct (bd_delta b). Qed.

Lemma grows_trans b b1 b2 : grows b b1 -> grows b1 b2 -> grows b b2.
Proof.
  intros [] []. constructor; [eauto using readable_trans|auto|congruence|congruence|congruence|].
  unfold same_counts in *. destruct (bd_delta b), (bd_delta b1), (bd_delta b2); try tauto. destruct gr_counts0, gr_counts1. split; congruence.
Qed.

Lemma view_step b L q : (L < 7)%nat ->
  view b L q = nth (Z.to_nat (q mod 512)) (vslots (bd_nodes b) (ov_of b) (S L) (q / 512) (view b (S L) (q / 512))) 0.
Proof. apply at_pos_step. Qed.

Lemma acc_ok_grow b b' L a : grows b b' -> tree_wf (bd_nodes b) (bd_tree b) -> (L <= 7)%nat -> acc_ok b L a -> acc_ok b' L a.
Proof.
  intros G Hw HL [H1 H2 H3 H4 H5]. pose proof (addr_at_grow _ _ (bd_tree b) L (ac_prefix a) (gr_read _ _ G) Hw HL ltac:(lia)) as Eg.
  constructor; auto; rewrite ?(gr_tree _ _ G); [congruence|]. rewrite H5. rewrite H4.
  apply eq_sym, (refs_at_grow _ _ (rx_covered (bd_tree b)) L (ac_prefix a)); [apply G|]. intros Hn. apply (tw_nodes _ _ Hw); auto. lia.
Qed.

(** The part above [c'] of a state whose higher accumulators are untouched. *)
Lemma hier_up b b' fr c c' : (c <= c')%nat -> hier b fr c -> grows b b' -> bd_root b' = bd_root b ->
  (forall L, (c' < L <= 7)%nat -> acc b' L = acc b L) ->
  hier b' fr c' /\ forall L q, (c' <= L <= 7)%nat -> 0 <= q -> view b' L q = view b L q.
Proof.
  intros Hcc H G Hroot Hacc. pose proof (hi_tree _ _ _ H) as Hw.
  assert (Hv : forall L q, (c' <= L <= 7)%nat -> 0 <= q -> view b' L q = view b L q).
  { intros L q HL Hq. unfold view. rewrite Hroot. rewrite (at_pos_ext _ (ov_of b') (ov_of b)) by (try lia; intros k Hk; unfold ov_of; now rewrite Hacc by lia).
    apply (at_pos_grow _ _ _ _ (bd_covered b)); [apply G|lia|exact Hq|]. intros k r Hk Hr. apply (hi_node _ _ _ H); [lia|exact Hr]. }
  split; [|exact Hv]. destruct (tree_wf_grow _ _ (bd_tree b) (gr_read _ _ G) (gr_ok _ _ G) Hw) as [Hw' _].
  constructor; rewrite ?(gr_tree _ _ G), ?(gr_covered _ _ G), ?(gr_levels _ _ G); auto; try apply H.
  - apply G.
  - intros L a HL Ha. rewrite Hacc in Ha by lia. destruct (hi_acc _ _ _ H L a ltac:(lia) Ha) as [Hok Hfr]. split; [|exact Hfr].
    apply (acc_ok_grow b); auto; lia.
  - intros L q HL Hq. pose proof (hi_pos _ _ _ H L). rewrite Hv by lia. rewrite (addr_at_grow _ _ _ _ _ (gr_read _ _ G) Hw) by lia. apply (hi_old _ _ _ H); lia.
  - intros L q HL Hq. rewrite Hv by lia. intros Hn. apply (node_at_readable (bd_nodes b)); [apply G|]. apply (hi_node _ _ _ H); auto; lia.
  - intros L HL. unfold front. rewrite Hacc by lia. apply (hi_front _ _ _ H). lia.
Qed.

(** Moving the front of the lowest level. *)
Lemma hier_raise b fr c x : hier b fr c -> fr c <= x -> hier b (upd fr c x) c.
Proof.
  intros H Hx. assert (Hup : forall L, fr L <= upd fr c x L) by (intros L; unfold upd; destruct (decide (L = c)); subst; lia).
  constructor; try apply H.
  - intros L a HL Ha. rewrite upd_ne by lia. now apply (hi_acc _ _ _ H).
  - intros L q HL Hq. apply (hi_old _ _ _ H); [exact HL|]. specialize (Hup L). lia.
  - intros L HL. replace (front b (upd fr c x) (S L)) with (front b fr (S L)) by (unfold front; rewrite upd_ne by lia; reflexivity).
    pose proof (hi_front _ _ _ H L HL). specialize (Hup L). assert (fr L / 512 <= upd fr c x L / 512) by (apply Z.div_le_mono; lia). lia.
  - intros L. specialize (Hup L). pose proof (hi_pos _ _ _ H L). lia.
Qed.

(** Adding the lowest level back. *)
Lemma hier_down b b' fr fr' c : (c < 7)%nat -> hier b fr c -> grows b b' -> hier b' fr' (S c) ->
  (forall L a, acc b' (S c) = Some a -> L = S c -> acc_ok b' L a /\ fr' L <= ac_prefix a) ->
  (forall q, 0 <= q -> view b' c q = view b c q) -> fr' c = fr c -> front b' fr' (S c) <= fr c / 512 -> hier b' fr' c.
Proof.
  intros Hc H G H' Hacc Hv Efr Hfront. pose proof (hi_tree _ _ _ H) as Hw.
  assert (Hcase : forall L, (c <= L)%nat -> L = c \/ (S c <= L)%nat) by (intros; lia).
  constructor; try apply H'.
  - intros L a HL Ha. destruct (decide (L = S c)) as [->|HnS]; [now apply Hacc|]. apply (hi_acc _ _ _ H'); [lia|exact Ha].
  - intros L q HL Hq. destruct (Hcase L ltac:(lia)) as [->|Hge]; [|apply (hi_old _ _ _ H'); [lia|exact Hq]].
    pose proof (hi_pos _ _ _ H c). rewrite Hv by lia. rewrite (gr_tree _ _ G), (addr_at_grow _ _ _ _ _ (gr_read _ _ G) Hw) by lia.
    apply (hi_old _ _ _ H); [lia|]. now rewrite <- Efr.
  - intros L q HL Hq. destruct (Hcase L ltac:(lia)) as [->|Hge]; [|apply (hi_node _ _ _ H'); [lia|exact Hq]].
    rewrite Hv by lia. intros Hn. rewrite (gr_covered _ _ G). apply (node_at_readable (bd_nodes b)); [apply G|]. apply (hi_node _ _ _ H); auto; lia.
  - intros L HL. destruct (Hcase L ltac:(lia)) as [->|Hge]; [rewrite Efr; exact Hfront|]. apply (hi_front _ _ _ H'). lia.
Qed.

(** ** Pushing and flushing *)

Record pushed b b' (c : nat) (q a : Z) : Prop := mkPushed {
  pu_hier : exists fr', hier b' fr' c /\ fr' c = q + 1;
  pu_view : forall r, 0 <= r -> view b' c r = if r =? q then a else view b c r;
  pu_acc : forall L, (L <= c)%nat -> acc b' L = acc b L;
}.

Definition pushes (P : streamingBuilder N -> Z -> Z -> Z -> streamingBuilder N * option goerror) (c : nat) : Prop :=
  forall b fr q a b' st, hier b fr c -> fr c <= q -> q * span (S c) < two64 -> (a <> 0 -> node_at (bd_nodes b) (bd_covered b) c q a) -> slot_valid a ->
    P b (Z.of_nat c) q a = (b', st) -> grows b b' /\ (st = None -> pushed b b' c q a).

Lemma acc_set b L a k : length (bd_levels b) = 8%nat -> (L <= 7)%nat -> acc (set_level b (Z.of_nat L) a) k = if decide (k = L) then a else acc b k.
Proof.
  intros Hlen HL. unfold acc, level_at, set_level. cbn [bd_levels]. rewrite !Nat2Z.id. destruct (decide (k = L)) as [->|Hn].
  - now rewrite list_lookup_insert_eq by lia.
  - now rewrite list_lookup_insert_ne by congruence.
Qed.

Lemma slots_grow b fr c L q n' : hier b fr c -> readable (bd_nodes b) n' -> (c <= L <= 7)%nat -> 0 <= q -> slots_at n' (view b L q) = slots_at (bd_nodes b) (view b L q).
Proof. intros H Hr HL Hq. apply (refs_at_grow _ _ (bd_covered b) L q); [exact Hr|]. intros Hn. now apply (hi_node _ _ _ H). Qed.

Lemma count_bytes_spec b level count old b' st : ns_ok (bd_nodes b) -> count_bytes b level count old = (b', st) ->
  grows b b' /\ bd_nodes b' = bd_nodes b /\ bd_root b' = bd_root b /\ bd_levels b' = bd_levels b.
Proof.
  intros Hok. unfold count_bytes. destruct (bd_delta b) as [d|] eqn:Ed; [|intros [= <- <-]; auto using grows_refl].
  destruct (nodeBuildBytes level count) as [x|e]; [|intros [= <- <-]; auto using grows_refl].
  unfold addReachable. case_if; intros [= <- <-]; auto using grows_refl.
  split; [|auto]. constructor; cbn; auto; [apply readable_refl|]. rewrite Ed. cbn. auto.
Qed.

(** Clearing the accumulator of level [S c] once its slots are stored. *)
Lemma view_cleared b b' fr c a : (c < 7)%nat -> hier b fr c -> grows b b' -> acc b (S c) = Some a -> acc b' (S c) = None ->
  slots_at (bd_nodes b') (view b' (S c) (ac_prefix a)) = ac_slots a ->
  (forall q, 0 <= q -> q <> ac_prefix a -> view b' (S c) q = view b (S c) q) ->
  forall q, 0 <= q -> view b' c q = view b c q.
Proof.
  intros Hc H G Ea Ea' Hs Hv q Hq. rewrite (view_step b'), (view_step b) by exact Hc. f_equal. unfold vslots, ov_of. rewrite Ea, Ea'.
  destruct (ac_prefix a =? q / 512) eqn:E; bool_norm; [now rewrite <- E|].
  assert (0 <= q / 512) by (apply Z.div_pos; lia). rewrite Hv by congruence. apply (slots_grow b fr c); [exact H|apply G|lia|lia].
Qed.

Record flushed b b' (fr : nat -> Z) (c : nat) : Prop := mkFlushed {
  fl_none : acc b' (S c) = None;
  fl_view : forall q, 0 <= q -> view b' c q = view b c q;
  fl_acc : forall L, (L <= c)%nat -> acc b' L = acc b L;
  fl_hier : exists fr', hier b' fr' (S c) /\ fr' (S c) = match acc b (S c) with Some a => ac_prefix a + 1 | None => fr (S c) end;
}.

(** The root is replaced by the node of the top accumulator. *)
Lemma hier_set_root b fr a : hier b fr 7 -> (a <> 0 -> node_at (bd_nodes b) (bd_covered b) 7 0 a) -> hier (set_root b a) (upd fr 7 1) 7.
Proof.
  intros H Ha. assert (Hv : forall q, view (set_root b a) 7 q = if q =? 0 then a else 0) by reflexivity.
  constructor; try apply H.
  - intros L x HL. lia.
  - intros L q HL Hq. assert (L = 7%nat) as -> by lia. rewrite upd_eq in Hq. rewrite Hv. unfold addr_at. rewrite at_pos_top.
    now replace (q =? 0) with false by (symmetry; apply Z.eqb_neq; lia).
  - intros L q HL Hq. assert (L = 7%nat) as -> by lia. rewrite Hv. destruct (q =? 0) eqn:E; bool_norm; [subst q; exact Ha|congruence].
  - intros L HL. lia.
  - intros L. pose proof (hi_pos _ _ _ H L). unfold upd. case_decide; lia.
Qed.

Lemma flush_spec P c : (c < 7)%nat -> ((S c < 7)%nat -> pushes P (S c)) -> forall b fr b' st, hier b fr c ->
  flush_with P b (Z.of_nat (S c)) = (b', st) -> grows b b' /\ (st = None -> flushed b b' fr c).
Proof.
  intros Hc HP b fr b' st H. unfold flush_with. fold (acc b (S c)). destruct (acc b (S c)) as [a|] eqn:Ea.
  2:{ intros [= <- <-]. split; [apply grows_refl, H|]. intros _. constructor; auto. exists fr. split; [|now rewrite Ea].
      apply (hier_up b b fr c (S c)); auto. apply grows_refl, H. }
  pose proof (hi_tree _ _ _ H) as Hw. pose proof (hi_levels _ _ _ H) as Hlen. destruct (hi_covered _ _ _ H) as [Hcu Hcv].
  destruct (hi_acc _ _ _ H (S c) a ltac:(lia) Ea) as [[[Hp Hpr] [Hsl Hsv] Htop Hold Hbef] Hfr]. set (p := ac_prefix a) in *.
  set (b1 := set_level b (Z.of_nat (S c)) None). change (bd_nodes b1) with (bd_nodes b). change (bd_tree b1) with (bd_tree b). change (bd_covered b1) with (bd_covered b).
  assert (Ev : view b (S c) p = ac_oldAddr a) by (rewrite Hold; apply (hi_old _ _ _ H); [lia|exact Hfr]).
  destruct (writeChangedNode _ _ _ _ _ _ _ _) as [n r] eqn:Ew. rewrite Hbef in Ew.
  assert (Hon : ac_oldAddr a <> 0 -> node_at (bd_nodes b) (bd_covered b) (S c) p (ac_oldAddr a)).
  { rewrite <- Ev. apply (hi_node _ _ _ H); lia. }
  destruct (writeChangedNode_spec _ _ (S c) p _ _ _ _ _ (hi_store _ _ _ H) Hcu ltac:(lia) Hp Hpr Hsl Hsv Htop Hon Ew) as (Hok & Hrd & Hr).
  set (b2 := set_bnodes b1 n).
  assert (G2 : grows b b2).
  { constructor; auto; [cbn; apply length_insert|]. cbn. unfold same_counts. now destruct (bd_delta b). }
  destruct r as [na|e]; [|intros [= <- <-]; split; [exact G2|discriminate]]. destruct Hr as [Hns Hna].
  assert (Ha2 : forall k, acc b2 k = if decide (k = S c) then None else acc b k) by (intros k; apply (acc_set b (S c) None k); [exact Hlen|lia]).
  (* the state above, with the accumulator gone *)
  assert (Hup : forall b3, grows b b3 -> bd_root b3 = bd_root b -> bd_levels b3 = bd_levels b2 ->
    hier b3 fr (S c) /\ (forall L q, (S c <= L <= 7)%nat -> 0 <= q -> view b3 L q = view b L q) /\ forall k, acc b3 k = acc b2 k).
  { intros b3 G3 Er El. assert (E3 : forall k, acc b3 k = acc b2 k) by (intros k; unfold acc, level_at; now rewrite El).
    destruct (hier_up b b3 fr c (S c) ltac:(lia) H G3 Er) as [Hh Hvv]; [|auto].
    intros L HL. rewrite E3, Ha2. now rewrite decide_False by lia. }
  destruct (na =? ac_oldAddr a) eqn:E; bool_norm.
  - intros [= <- <-]. split; [exact G2|]. intros _. destruct (Hup b2 G2 eq_refl eq_refl) as (Hh & Hv2 & _). constructor.
    + rewrite Ha2. now rewrite decide_True.
    + apply (view_cleared b b2 fr c a Hc H G2 Ea); [rewrite Ha2; now rewrite decide_True|fold p; rewrite Hv2, Ev, <- E by lia; exact Hns|].
      intros q Hq _. apply Hv2; lia.
    + intros L HL. rewrite Ha2. now rewrite decide_False by lia.
    + exists (upd fr (S c) (p + 1)). rewrite Ea, upd_eq. split; [|reflexivity]. apply hier_raise; [exact Hh|lia].
  - destruct (count_bytes b2 _ _ _) as [b3 [e|]] eqn:Ec; destruct (count_bytes_spec b2 _ _ _ _ _ Hok Ec) as (G3 & En3 & Er3 & El3);
      pose proof (grows_trans _ _ _ G2 G3) as G3'; [intros [= <- <-]; split; [exact G3'|discriminate]|].
    destruct (Hup b3 G3' Er3 El3) as (Hh & Hv3 & Ha3).
    assert (Hna3 : na <> 0 -> node_at (bd_nodes b3) (bd_covered b3) (S c) p na) by (rewrite En3, (gr_covered _ _ G3'); exact Hna).
    unfold MaxLevel. destruct (Z.of_nat (S c) =? 7) eqn:E7; bool_norm.
    + assert (E6 : c = 6%nat) by lia. subst c. fold p. destruct (p =? 0) eqn:Ep; cbn [negb]; bool_norm; [|intros [= <- <-]; split; [exact G3'|discriminate]].
      intros [= <- <-]. assert (G4 : grows b (set_root b3 na)) by (destruct G3'; constructor; auto).
      split; [exact G4|]. intros _. rewrite Ep in Hna3. pose proof (hier_set_root b3 fr na Hh Hna3) as H4. constructor.
      * change (acc (set_root b3 na) 7) with (acc b3 7). rewrite Ha3, Ha2. now rewrite decide_True.
      * apply (view_cleared b (set_root b3 na) fr 6 a Hc H G4 Ea).
        -- change (acc (set_root b3 na) 7) with (acc b3 7). rewrite Ha3, Ha2. now rewrite decide_True.
        -- fold p. rewrite Ep. change (slots_at (bd_nodes b3) na = ac_slots a). rewrite En3. exact Hns.
        -- intros q Hq Hne. fold p in Hne. unfold view. rewrite !at_pos_top. replace (q =? 0) with false by (symmetry; apply Z.eqb_neq; lia). reflexivity.
      * intros L HL. change (acc (set_root b3 na) L) with (acc b3 L). rewrite Ha3, Ha2. now rewrite decide_False by lia.
      * exists (upd fr 7 1). rewrite Ea, upd_eq. fold p. rewrite Ep. auto.
    + intros E4. assert (Hslot : slot_valid na).
      { destruct (Z.eq_dec na 0) as [->|Hn]; [now left|right]. apply (Hna Hn). }
      fold p in E4. destruct (HP ltac:(lia) b3 fr p na b' st Hh Hfr Hpr Hna3 Hslot E4) as [G4 Hpush]. split; [eauto using grows_trans|].
      intros ->. destruct (Hpush eq_refl) as [(fr' & Hh' & Efr') Hpv Hpa]. constructor.
      * rewrite Hpa, Ha3, Ha2 by lia. now rewrite decide_True.
      * apply (view_cleared b b' fr c a Hc H (grows_trans _ _ _ G3' G4) Ea).
        -- rewrite Hpa, Ha3, Ha2 by lia. now rewrite decide_True.
        -- fold p. rewrite Hpv, Z.eqb_refl by lia. rewrite <- Hns. change n with (bd_nodes b2). rewrite <- En3.
           apply (refs_at_grow _ _ (bd_covered b3) (S c) p); [apply G4|exact Hna3].
        -- intros q Hq Hne. fold p in Hne. rewrite Hpv by exact Hq. replace (q =? p) with false by (symmetry; now apply Z.eqb_neq). apply Hv3; lia.
      * intros L HL. rewrite Hpa, Ha3, Ha2 by lia. now rewrite decide_False by lia.
      * exists fr'. rewrite Ea. auto.
Qed.

Lemma shiftr_9 q : 0 <= q -> Z.shiftr q 9 = q / 512.
Proof. intros H. now rewrite Z.shiftr_div_pow2. Qed.

Lemma div_range c q : 0 <= q -> q * span (S c) < two64 -> q / 512 * span (S (S c)) < two64.
Proof. intros Hq H. rewrite (span_S (S c)). pose proof (span_pos (S c)). assert (q / 512 * 512 <= q) by dlia. nia. Qed.

(** The accumulator of the parent of [q], loaded or created. *)
Record opened b b' (c : nat) (q : Z) : Prop := mkOpened {
  op_acc : exists a, acc b' (S c) = Some a /\ ac_prefix a = q / 512;
  op_hier : exists fr', hier b' fr' c /\ fr' c = q;
  op_view : forall r, 0 <= r -> view b' c r = view b c r;
  op_low : forall L, (L <= c)%nat -> acc b' L = acc b L;
}.

Lemma open_acc b fr c q b' st : (c < 7)%nat -> hier b fr c -> fr c = q -> q * span (S c) < two64 ->
  (forall a, acc b (S c) = Some a -> ac_prefix a = q / 512) ->
  match level_at b (Z.of_nat (S c)) with
  | Some _ => (b, None)
  | None =>
      match nodeAddress (bd_nodes b) (bd_tree b) (Z.of_nat (S c)) (q / 512) with
      | Err e => (b, Some e)
      | Ok oldAddr =>
          match oldSlots (bd_nodes b) (bd_tree b) oldAddr (Z.of_nat (S c)) (q / 512) with
          | Err e => (b, Some e)
          | Ok (slots, oldBytes) => (set_level b (Z.of_nat (S c)) (Some (mkAcc (q / 512) oldAddr oldBytes slots slots)), None)
          end
      end
  end = (b', st) -> grows b b' /\ (st = None -> opened b b' c q).
Proof.
  intros Hc H Efr Hr Hsame. pose proof (hi_pos _ _ _ H c) as Hq. rewrite Efr in Hq. pose proof (hi_tree _ _ _ H) as Hw. pose proof (hi_levels _ _ _ H) as Hlen.
  fold (acc b (S c)). destruct (acc b (S c)) as [a|] eqn:Ea.
  { intros [= <- <-]. split; [apply grows_refl, H|]. intros _. constructor; eauto. }
  assert (Hq5 : 0 <= q / 512) by (apply Z.div_pos; lia). pose proof (div_range c q Hq Hr) as Hr5.
  rewrite (nodeAddress_spec _ _ (S c) (q / 512) Hw ltac:(lia) Hq5 Hr5).
  destruct (oldSlots_spec _ _ (S c) (q / 512) Hw ltac:(lia) Hq5) as (bytes & -> & Hl & Hval & Htop).
  set (old := addr_at (bd_nodes b) (bd_tree b) (S c) (q / 512)) in *. set (a := mkAcc (q / 512) old bytes (slots_at (bd_nodes b) old) (slots_at (bd_nodes b) old)).
  intros [= <- <-]. set (b' := set_level b (Z.of_nat (S c)) (Some a)).
  assert (Ha : forall k, acc b' k = if decide (k = S c) then Some a else acc b k) by (intros k; apply acc_set; [exact Hlen|lia]).
  assert (Hfr : fr (S c) <= q / 512) by (pose proof (hi_front _ _ _ H c ltac:(lia)) as Hf; unfold front in Hf; rewrite Ea, Efr in Hf; exact Hf).
  assert (G : grows b b').
  { constructor; auto; [apply readable_refl|apply H|cbn; apply length_insert|]. cbn. unfold same_counts. now destruct (bd_delta b). }
  destruct (hier_up b b' fr c (S c) ltac:(lia) H G eq_refl) as [H' Hv'].
  { intros L HL. rewrite Ha. now rewrite decide_False by lia. }
  assert (Hv : forall r, 0 <= r -> view b' c r = view b c r).
  { intros r Hr0. rewrite (view_step b'), (view_step b) by exact Hc. f_equal. unfold vslots, ov_of. rewrite Ha, decide_True, Ea by reflexivity. cbn [ac_prefix ac_slots a].
    assert (0 <= r / 512) by (apply Z.div_pos; lia). rewrite Hv' by lia. destruct (q / 512 =? r / 512) eqn:E; bool_norm; [|reflexivity].
    rewrite <- E. f_equal. symmetry. apply (hi_old _ _ _ H); [lia|exact Hfr]. }
  assert (Hao : acc_ok b' (S c) a) by (constructor; cbn; auto).
  split; [exact G|]. intros _. constructor; auto.
  - exists a. rewrite Ha, decide_True by reflexivity. auto.
  - exists fr. split; [|exact Efr]. apply (hier_down b b' fr fr c); auto.
    + intros L x Hx ->. rewrite Ha, decide_True in Hx by reflexivity. injection Hx as <-. auto.
    + unfold front. rewrite Ha, decide_True, Efr by reflexivity. reflexivity.
  - intros L HL. rewrite Ha. now rewrite decide_False by lia.
Qed.

(** Storing the child in the accumulator. *)
Lemma put_child b fr c q a x : (c < 7)%nat -> hier b fr c -> fr c = q -> q * span (S c) < two64 -> slot_valid x ->
  (x <> 0 -> node_at (bd_nodes b) (bd_covered b) c q x) -> acc b (S c) = Some a -> ac_prefix a = q / 512 ->
  let b' := set_level b (Z.of_nat (S c)) (Some (mkAcc (ac_prefix a) (ac_oldAddr a) (ac_oldBytes a) (ac_before a) (<[Z.to_nat (q mod 512) := x]> (ac_slots a)))) in
  grows b b' /\ pushed b b' c q x.
Proof.
  intros Hc H Efr Hr Hx Hxn Ea Ep. cbv zeta. set (a' := mkAcc _ _ _ _ _). set (b' := set_level b (Z.of_nat (S c)) (Some a')).
  pose proof (hi_pos _ _ _ H c) as Hq. rewrite Efr in Hq. pose proof (hi_levels _ _ _ H) as Hlen.
  destruct (hi_acc _ _ _ H (S c) a ltac:(lia) Ea) as [[Hp [Hsl Hsv] Htop Hold Hbef] Hfr].
  assert (Hm : (Z.to_nat (q mod 512) < 512)%nat) by (pose proof (Z.mod_pos_bound q 512); lia).
  assert (Ha : forall k, acc b' k = if decide (k = S c) then Some a' else acc b k) by (intros k; apply acc_set; [exact Hlen|lia]).
  assert (G : grows b b').
  { constructor; auto; [apply readable_refl|apply H|cbn; apply length_insert|]. cbn. unfold same_counts. now destruct (bd_delta b). }
  destruct (hier_up b b' fr c (S c) ltac:(lia) H G eq_refl) as [H' Hv'].
  { intros L HL. rewrite Ha. now rewrite decide_False by lia. }
  assert (Hv : forall r, 0 <= r -> view b' c r = if r =? q then x else view b c r).
  { intros r Hr0. rewrite (view_step b'), (view_step b) by exact Hc. unfold vslots, ov_of. rewrite Ha, decide_True, Ea by reflexivity. cbn [ac_prefix ac_slots a'].
    assert (0 <= r / 512) by (apply Z.div_pos; lia). rewrite Hv' by lia. rewrite Ep. destruct (q / 512 =? r / 512) eqn:E; bool_norm.
    - rewrite !nth_lookup. destruct (r =? q) eqn:Er; bool_norm.
      + subst r. now rewrite list_lookup_insert_eq by lia.
      + rewrite list_lookup_insert_ne; [reflexivity|]. pose proof (Z.mod_pos_bound q 512). pose proof (Z.mod_pos_bound r 512). intros Em. apply Er. dlia.
    - replace (r =? q) with false by (symmetry; apply Z.eqb_neq; congruence). reflexivity. }
  assert (Hao : acc_ok b' (S c) a').
  { constructor; cbn; auto.
    - split; [now rewrite length_insert|]. apply Forall_insert; auto.
    - intros E7. assert (c = 6%nat) as -> by lia. change (span 7) with (2 ^ 63) in Hr. assert (q mod 512 = q /\ q < 2) as [-> Hq2] by (split; [apply Z.mod_small|]; lia).
      specialize (Htop eq_refl). unfold topSlotsEmpty in *. rewrite drop_insert_lt by lia. exact Htop. }
  split; [exact G|]. constructor; [|exact Hv|intros L HL; rewrite Ha; now rewrite decide_False by lia].
  exists (upd fr c (q + 1)). split; [|apply upd_eq]. apply hier_raise with (x := q + 1) in H as H1; [|lia].
  pose proof H' as H2. constructor; try apply H2.
  - intros L y HL Hy. rewrite upd_ne by lia. rewrite Ha in Hy. case_decide as E; [injection Hy as <-; subst L; auto|]. apply (hi_acc _ _ _ H'); [lia|]. rewrite Ha. now rewrite decide_False.
  - intros L r HL Hr0. destruct (decide (L = c)) as [->|HnL].
    + rewrite upd_eq in Hr0. rewrite Hv by lia. replace (r =? q) with false by (symmetry; apply Z.eqb_neq; lia). apply (hi_old _ _ _ H); lia.
    + rewrite upd_ne in Hr0 by exact HnL. apply (hi_old _ _ _ H'); [lia|exact Hr0].
  - intros L r HL Hr0. destruct (decide (L = c)) as [->|HnL]; [|apply (hi_node _ _ _ H'); [lia|exact Hr0]].
    rewrite Hv by exact Hr0. destruct (r =? q) eqn:E; bool_norm; [subst r; exact Hxn|]. apply (hi_node _ _ _ H); [lia|exact Hr0].
  - intros L HL. destruct (decide (L = c)) as [->|HnL].
    + unfold front. rewrite Ha, decide_True, upd_eq by reflexivity. cbn. rewrite Ep. apply Z.div_le_mono; lia.
    + rewrite (upd_ne _ _ _ L) by exact HnL. unfold front. rewrite upd_ne by lia. apply (hi_front _ _ _ H'). lia.
  - intros L. unfold upd. case_decide; [lia|apply H].
Qed.

(** The front of a lower level does not matter. *)
Lemma hier_below b fr c x : hier b fr (S c) -> 0 <= x -> hier b (upd fr c x) (S c).
Proof.
  intros [G1 G2 G3 G4 G5 G6 G7 G8 G9] Hx. constructor; auto.
  - intros L y HL. rewrite upd_ne by lia. now apply G5.
  - intros L r HL. rewrite upd_ne by lia. now apply G6.
  - intros L HL. unfold front. rewrite !upd_ne by lia. now apply G8.
  - intros L. unfold upd. case_decide; [lia|apply G9].
Qed.

(** Afterwards the parent's accumulator is inactive or that of [q]. *)
Lemma make_room P b fr c q b' st : (c < 7)%nat -> ((S c < 7)%nat -> pushes P (S c)) -> hier b fr c -> fr c = q ->
  match level_at b (Z.of_nat (S c)) with
  | Some acc => if negb (ac_prefix acc =? q / 512) then flush_with P b (Z.of_nat (S c)) else (b, None)
  | None => (b, None)
  end = (b', st) ->
  grows b b' /\ (st = None -> (exists fr', hier b' fr' c /\ fr' c = q) /\ (forall x, acc b' (S c) = Some x -> ac_prefix x = q / 512) /\
    (forall r, 0 <= r -> view b' c r = view b c r) /\ (forall L, (L <= c)%nat -> acc b' L = acc b L)).
Proof.
  intros Hc HP H Efr. assert (Hq : 0 <= q) by (rewrite <- Efr; apply H). fold (acc b (S c)). destruct (acc b (S c)) as [x|] eqn:Ex.
  2:{ intros [= <- <-]. split; [apply grows_refl, H|]. intros _. split; [eauto|]. split; [congruence|auto]. }
  destruct (ac_prefix x =? q / 512) eqn:Ep; cbn [negb]; bool_norm.
  { intros [= <- <-]. split; [apply grows_refl, H|]. intros _. split; [eauto|]. split; [|auto]. intros y Hy. congruence. }
  intros E1. destruct (flush_spec P c Hc HP b fr b' st H E1) as [G Hf]. split; [exact G|]. intros ->.
  destruct (Hf eq_refl) as [F1 F2 F3 (fr1 & F4 & F5)]. rewrite Ex in F5. split; [|rewrite F1; split; [discriminate|auto]].
  exists (upd fr1 c q). split; [|apply upd_eq]. apply (hier_down b b' fr); auto.
  - now apply hier_below.
  - intros L y Hy. congruence.
  - rewrite upd_eq. now symmetry.
  - unfold front. rewrite F1, upd_ne, F5, Efr by lia. pose proof (hi_front _ _ _ H c ltac:(lia)) as Hf1. unfold front in Hf1. rewrite Ex, Efr in Hf1. lia.
Qed.

Lemma push_spec fuel : forall c, (c <= 7)%nat -> pushes (push fuel) c.
Proof.
  induction fuel as [|fuel IH]; intros c Hc b fr q a b' st H Hq Hr Hn Hs; unfold push; cbn [push_with]; fold push.
  { intros [= <- <-]. split; [apply grows_refl, H|discriminate]. }
  unfold MaxLevel. replace (Z.of_nat c + 1) with (Z.of_nat (S c)) by lia. destruct (7 <? Z.of_nat (S c)) eqn:E7; bool_norm.
  { intros [= <- <-]. split; [apply grows_refl, H|discriminate]. }
  assert (Hc7 : (c < 7)%nat) by lia. pose proof (hi_pos _ _ _ H c) as Hpos. rewrite shiftr_9 by lia.
  pose proof (hier_raise b fr c q H Hq) as H0. destruct (match level_at b _ with Some acc => _ | None => _ end) as [b1 st1] eqn:E1.
  destruct (make_room (push fuel) b _ c q b1 st1 Hc7 (fun H => IH (S c) ltac:(lia)) H0 (upd_eq _ _ _) E1) as [G1 S1].
  destruct st1 as [e|]; [intros [= <- <-]; split; [exact G1|discriminate]|]. destruct (S1 eq_refl) as ((fr1 & H1 & Efr1) & Hsame & Hv1 & Hl1).
  destruct (match level_at b1 _ with Some _ => _ | None => _ end) as [b2 st2] eqn:E2.
  destruct (open_acc b1 fr1 c q b2 st2 Hc7 H1 Efr1 Hr Hsame E2) as [G2 Hop].
  destruct st2 as [e|]; [intros [= <- <-]; split; [eauto using grows_trans|discriminate]|].
  destruct (Hop eq_refl) as [(x & Ex & Epx) (fr2 & H2 & Efr2) Hv2 Hl2]. fold (acc b2 (S c)). rewrite Ex, land_511.
  pose proof (grows_trans _ _ _ G1 G2) as G12.
  assert (Hn2 : a <> 0 -> node_at (bd_nodes b2) (bd_covered b2) c q a).
  { intros Ha. rewrite (gr_covered _ _ G12). apply (node_at_readable (bd_nodes b)); [apply G12|auto]. }
  destruct (put_child b2 fr2 c q x a Hc7 H2 Efr2 Hr Hs Hn2 Ex Epx) as [G3 [P1 P2 P3]].
  intros [= <- <-]. split; [eauto using grows_trans|]. intros _. constructor; [exact P1| |].
  + intros r Hr0. rewrite P2 by exact Hr0. destruct (r =? q); [reflexivity|]. rewrite Hv2, Hv1 by exact Hr0. reflexivity.
  + intros L HL. rewrite P3, Hl2, Hl1 by exact HL. reflexivity.
Qed.

(** Every nested call is one level up, so from level [c] no more than [8 - c] calls are
    nested: neither more fuel nor the answer without fuel changes the result. *)
Lemma push_fuel stuck stuck' fuel : forall fuel' b c q a, (c <= 7)%nat -> (8 - c <= fuel)%nat -> (8 - c <= fuel')%nat ->
  push_with stuck fuel b (Z.of_nat c) q a = push_with stuck' fuel' b (Z.of_nat c) q a.
Proof.
  induction fuel as [|fuel IH]; intros [|fuel'] b c q a Hc Hf Hf'; [lia..|]. cbn [push_with].
  destruct (MaxLevel <? Z.of_nat c + 1) eqn:E8; [reflexivity|]. destruct (level_at b _) as [x|]; [|reflexivity]. destruct (negb _); [|reflexivity].
  enough (Hflush : forall b0, flush_with (push_with stuck fuel) b0 (Z.of_nat c + 1) = flush_with (push_with stuck' fuel') b0 (Z.of_nat c + 1)) by (now rewrite Hflush).
  intros b0. unfold flush_with. destruct (level_at b0 _) as [y|]; [|reflexivity]. destruct (writeChangedNode _ _ _ _ _ _ _ _) as [n [na|e]]; [|reflexivity].
  destruct (na =? _); [reflexivity|]. destruct (count_bytes _ _ _ _) as [b1 [e|]]; [reflexivity|]. destruct (Z.of_nat c + 1 =? MaxLevel) eqn:E7; [reflexivity|].
  unfold MaxLevel in E8. bool_norm. replace (Z.of_nat c + 1) with (Z.of_nat (S c)) by lia. apply IH; lia.
Qed.

(** C39: the mutual recursion of [push] and [flush] ends.  Each nested call is one level
    up, so from level [c] at most [8 - c] calls are nested: with that much fuel, or more,
    the result does not depend on what is answered when the fuel is used up, neither of
    a push nor of a flush. *)
Theorem push_terminates stuck stuck' b c q a extra : (c <= 7)%nat ->
  push_with stuck (8 - c + extra) b (Z.of_nat c) q a = push_with stuck' (8 - c) b (Z.of_nat c) q a /\
  flush_with (push_with stuck (8 - c + extra)) b (Z.of_nat c) = flush_with (push_with stuck' (8 - c)) b (Z.of_nat c).
Proof.
  intros Hc. assert (H : forall b q a, push_with stuck (8 - c + extra) b (Z.of_nat c) q a = push_with stuck' (8 - c) b (Z.of_nat c) q a) by (intros; apply push_fuel; lia).
  split; [apply H|]. unfold flush_with. destruct (level_at b _) as [y|]; [|reflexivity]. destruct (writeChangedNode _ _ _ _ _ _ _ _) as [n [na|e]]; [|reflexivity].
  destruct (na =? _); [reflexivity|]. destruct (count_bytes _ _ _ _) as [b1 [e|]]; [reflexivity|]. destruct (_ =? MaxLevel); [reflexivity|]. apply H.
Qed.
End Build.
