(* ===== verification/RadixTree.v ===== *)
(** * The radix tree implements the tree contract

    The leaf loop of [BuildSortedWithEntryDelta], the final flush of every level,
    the streaming rebuild, and from them the laws of [TreeIface] for every node
    store that satisfies [NodeIface]. *)
From S2P Require Import Prelude Addr MapNode NodeIface Mapping TreeIface Radix RadixSpec RadixBuild.

Section Tree.
Context {N : Type} `{!NodeStore N} `{!NodeStoreLaws N}.
Implicit Types (n : N) (t : Tree) (b : streamingBuilder N).

(** ** The final flush *)

(** Below and at level [c] nothing is held in memory any more. *)
Record settled b (fr : nat -> Z) (c : nat) : Prop := mkSettled {
  se_hier : hier b fr c;
  se_none : forall L, (L <= c)%nat -> acc b L = None;
  se_node : forall L q, (L <= c)%nat -> 0 <= q -> view b L q <> 0 -> node_at (bd_nodes b) (bd_covered b) L q (view b L q);
}.

Lemma view_below b b' c : (c <= 7)%nat -> grows b b' -> (forall L, (L <= c)%nat -> acc b L = None /\ acc b' L = None) ->
  (forall L q, (L <= c)%nat -> 0 <= q -> view b L q <> 0 -> node_at (bd_nodes b) (bd_covered b) L q (view b L q)) ->
  (forall q, 0 <= q -> view b' c q = view b c q) -> forall k q, (k <= c)%nat -> 0 <= q -> view b' (c - k) q = view b (c - k) q.
Proof.
  intros Hc G Hnone Hnode Hv k. induction k as [|k IH]; intros q Hk Hq; [rewrite Nat.sub_0_r; auto|].
  assert (Hq5 : 0 <= q / 512) by (apply Z.div_pos; lia). rewrite (view_step b'), (view_step b) by lia. replace (S (c - S k)) with (c - k)%nat by lia.
  unfold vslots, ov_of. destruct (Hnone (c - k)%nat ltac:(lia)) as [-> ->]. rewrite IH by lia. f_equal.
  apply (refs_at_grow _ _ (bd_covered b) (c - k) (q / 512)); [apply G|]. intros Hn. apply Hnode; [lia|exact Hq5|exact Hn].
Qed.

Lemma flush_settled b fr c b' st : (c < 7)%nat -> settled b fr c -> flush b (Z.of_nat (S c)) = (b', st) ->
  grows b b' /\ (st = None -> (exists fr', settled b' fr' (S c)) /\ forall q, 0 <= q -> view b' 0 q = view b 0 q).
Proof.
  intros Hc [H Hnone Hnode] E. destruct (flush_spec (push 8) c Hc (fun _ => push_spec 8 (S c) ltac:(lia)) b fr b' st H E) as [G Hf]. split; [exact G|].
  intros Est. destruct (Hf Est) as [F1 F2 F3 (fr' & F4 & _)].
  assert (Hn' : forall L, (L <= c)%nat -> acc b' L = None) by (intros L HL; rewrite F3 by exact HL; auto).
  assert (Hvb : forall L q, (L <= c)%nat -> 0 <= q -> view b' L q = view b L q).
  { intros L q HL Hq. replace L with (c - (c - L))%nat by lia. apply (view_below b b' c); auto; lia. }
  split; [|intros q Hq; apply Hvb; lia]. exists fr'. constructor; [exact F4| |].
  - intros L HL. destruct (decide (L = S c)) as [->|]; [exact F1|apply Hn'; lia].
  - intros L q HL Hq. destruct (decide (L = S c)) as [->|]; [apply (hi_node _ _ _ F4); [lia|exact Hq]|].
    rewrite Hvb by lia. intros Hv. rewrite (gr_covered _ _ G). apply (node_at_readable (bd_nodes b)); [apply G|]. apply Hnode; auto; lia.
Qed.

Lemma flush_levels_spec k : forall c b fr b' st, (c + k = 7)%nat -> settled b fr c ->
  flush_levels b (map Z.of_nat (seq (S c) k)) = (b', st) ->
  grows b b' /\ (st = None -> (exists fr', settled b' fr' 7) /\ forall q, 0 <= q -> view b' 0 q = view b 0 q).
Proof.
  induction k as [|k IH]; intros c b fr b' st Hk H; cbn [seq map flush_levels].
  - intros [= <- <-]. split; [apply grows_refl, H|]. intros _. assert (c = 7%nat) as -> by lia. eauto.
  - destruct (flush b (Z.of_nat (S c))) as [b1 st1] eqn:E1. destruct (flush_settled b fr c b1 st1 ltac:(lia) H E1) as [G1 S1].
    destruct st1 as [e|]; [intros [= <- <-]; split; [exact G1|discriminate]|]. destruct (S1 eq_refl) as [(fr1 & H1) Hv1].
    intros E2. destruct (IH (S c) b1 fr1 b' st ltac:(lia) H1 E2) as [G2 S2]. split; [eauto using grows_trans|].
    intros Est. destruct (S2 Est) as [Hex Hv2]. split; [exact Hex|]. intros q Hq. rewrite Hv2, Hv1 by exact Hq. reflexivity.
Qed.

(** With no accumulator left the view is the stored tree. *)
Lemma settled_view b fr L q : settled b fr 7 -> (L <= 7)%nat -> view b L q = addr_at (bd_nodes b) (mkTree (bd_root b) (bd_covered b) true) L q.
Proof.
  intros H HL. unfold view, addr_at. apply at_pos_ext; [exact HL|]. intros k Hk. unfold ov_of. now rewrite (se_none _ _ _ H) by lia.
Qed.

(** ** The leaves *)

(** The reference the builder shows for an id. *)
Definition leaf_view b (id : Z) : option RecordRef :=
  shown (nth (Z.to_nat (id mod 512)) (refs_at (bd_nodes b) (view b 0 (id / 512))) zeroRef).

(** The builder between two leaves: it shows [S], and leaf [p] and the ones
    behind it are those of the old tree. *)
Record leaves b (S : Entries) (p : Z) : Prop := mkLeaves {
  le_hier : exists fr, hier b fr 0 /\ fr 0%nat <= p;
  le_none : acc b 0 = None;
  le_view : forall id, 0 <= id -> leaf_view b id = S !! id;
  le_zero : forall id, id <= 0 -> S !! id = None;
}.

Definition shows_leaf (S : Entries) (q : Z) (refs : list RecordRef) : Prop :=
  forall s, (s < 512)%nat -> shown (nth s refs zeroRef) = S !! (q * 512 + Z.of_nat s).

Lemma leaf_done b b' fr' S S' p q a refs : leaves b S p -> grows b b' -> hier b' fr' 0 -> fr' 0%nat <= q + 1 -> acc b' 0 = None ->
  (forall r, 0 <= r -> view b' 0 r = if r =? q then a else view b 0 r) -> refs_at (bd_nodes b') a = refs ->
  shows_leaf S' q refs -> (forall id, id / 512 <> q -> S' !! id = S !! id) -> (forall id, id <= 0 -> S' !! id = None) -> leaves b' S' (q + 1).
Proof.
  intros [(fr & H & Hfr) Hn Hv Hz] G H' Hfr' Hn' Hview Hrefs Hshow Hother Hz'. constructor; eauto. intros id Hid. unfold leaf_view.
  assert (Hq : 0 <= id / 512) by (apply Z.div_pos; lia). rewrite Hview by exact Hq. destruct (id / 512 =? q) eqn:E; bool_norm.
  - rewrite Hrefs. pose proof (Z.mod_pos_bound id 512). rewrite Hshow by lia. f_equal. dlia.
  - rewrite Hother by exact E. rewrite <- Hv by exact Hid. unfold leaf_view. do 2 f_equal.
    apply (refs_at_grow _ _ (bd_covered b) 0 (id / 512)); [apply G|]. intros Hne. apply (hi_node _ _ _ H); auto; lia.
Qed.

(** Storing a leaf: [push] after the append. *)
Lemma push_leaf b S S' p q a n refs b' st : leaves b S p -> p <= q -> q * 512 < two64 -> readable (bd_nodes b) n -> ns_ok n ->
  refs_at n a = refs -> (a <> 0 -> node_at n (bd_covered b) 0 q a) ->
  shows_leaf S' q refs -> (forall id, id / 512 <> q -> S' !! id = S !! id) -> (forall id, id <= 0 -> S' !! id = None) ->
  push 8 (set_bnodes b n) 0 q a = (b', st) -> grows b b' /\ (st = None -> leaves b' S' (q + 1)).
Proof.
  intros HL Hpq Hq Hrd Hok Hrefs Hnode Hshow Hother Hz E. pose proof HL as [(fr & H & Hfr) Hn Hv _].
  assert (G : grows b (set_bnodes b n)) by (constructor; cbn; auto; unfold same_counts; now destruct (bd_delta b)).
  destruct (hier_up b (set_bnodes b n) fr 0 0 ltac:(lia) H G eq_refl) as [H1 Hv1]; [reflexivity|].
  assert (Hslot : slot_valid a) by (destruct (Z.eq_dec a 0) as [->|Ha]; [now left|right; apply (Hnode Ha)]).
  destruct (push_spec 8 0 ltac:(lia) _ fr q a b' st H1 ltac:(lia) Hq Hnode Hslot E) as [G1 P]. split; [eauto using grows_trans|]. intros Est.
  destruct (P Est) as [(fr' & H' & Efr) Pv Pa]. apply (leaf_done b b' fr' S S' p q a refs HL); eauto using grows_trans; try lia.
  - rewrite Pa by lia. exact Hn.
  - intros r Hr. rewrite Pv by exact Hr. now rewrite Hv1 by lia.
  - rewrite <- Hrefs. apply (refs_at_grow _ _ (bd_covered b) 0 q); [apply G1|exact Hnode].
Qed.

(** ** Counting *)

(** The counters are exact: entries that are new and entries that are gone. *)
Record counted (S0 S : Entries) (d : EntryDelta) (last : Z) : Prop := mkCounted {
  ct_added : ed_Added d = Z.of_nat (size (dom S ∖ dom S0));
  ct_removed : ed_Removed d = Z.of_nat (size (dom S0 ∖ dom S));
  ct_bound : ed_Added d + ed_Removed d <= last;
  ct_old : forall id, last < id -> S !! id = S0 !! id;
}.

Lemma size_add_one (X Y : gset Z) x : x ∉ X -> Y = {[x]} ∪ X -> Z.of_nat (size Y) = Z.of_nat (size X) + 1.
Proof. intros Hx ->. rewrite size_union by set_solver. rewrite size_singleton. lia. Qed.

Definition exists_in (S : Entries) (id : Z) : bool := bool_decide (is_Some (S !! id)).

Lemma apply_mutation_counted S0 S d last m refs : counted S0 S d last -> 0 <= last < tm_ID m -> tm_ID m <= MaxUint64 ->
  shown (nth (Z.to_nat (nodeSlot (tm_ID m) 0)) refs zeroRef) = S !! tm_ID m ->
  counted S0 (apply_mutation S m) (mutate_leaf (d, refs) m).1 (tm_ID m).
Proof.
  intros [Ha Hr Hb Ho] Hlast Hmax Hs. unfold mutate_leaf. cbn [fst]. set (id := tm_ID m) in *.
  pose proof (Ho id ltac:(lia)) as Hid.
  assert (Hold : forall j, id < j -> apply_mutation S m !! j = S0 !! j).
  { intros j Hj. rewrite <- Ho by lia. unfold apply_mutation. fold id. destruct (RecordRef_IsZero (tm_Ref m)); [now rewrite lookup_delete_ne by lia|now rewrite lookup_insert_ne by lia]. }
  unfold shown in Hs. unfold apply_mutation in *. fold id in Hold. fold id.
  destruct (RecordRef_IsZero (nth _ refs zeroRef)), (RecordRef_IsZero (tm_Ref m)); cbn [negb andb]; symmetry in Hs; rewrite Hs in Hid; symmetry in Hid.
  - rewrite delete_id in * by exact Hs. constructor; auto; lia.
  - assert (E : Z.of_nat (size (dom (<[id:=tm_Ref m]> S) ∖ dom S0)) = Z.of_nat (size (dom S ∖ dom S0)) + 1).
    { apply (size_add_one _ _ id); [apply not_elem_of_dom in Hs; set_solver|]. rewrite dom_insert_L. apply not_elem_of_dom in Hid. set_solver. }
    assert (E2 : dom S0 ∖ dom (<[id:=tm_Ref m]> S) = dom S0 ∖ dom S) by (rewrite dom_insert_L; apply not_elem_of_dom in Hid; set_solver).
    constructor; cbn [ed_Added ed_Removed]; rewrite ?E, ?E2; try rewrite Z.mod_small by lia; try lia; auto.
  - assert (E : Z.of_nat (size (dom S0 ∖ dom (delete id S))) = Z.of_nat (size (dom S0 ∖ dom S)) + 1).
    { apply (size_add_one _ _ id); [apply mk_is_Some, elem_of_dom in Hs; set_solver|]. rewrite dom_delete_L. apply mk_is_Some, elem_of_dom in Hid.
      apply set_eq. intros x. destruct (decide (x = id)) as [->|]; set_solver. }
    assert (E2 : dom (delete id S) ∖ dom S0 = dom S ∖ dom S0) by (rewrite dom_delete_L; apply mk_is_Some, elem_of_dom in Hid; set_solver).
    constructor; cbn [ed_Added ed_Removed]; rewrite ?E, ?E2; try rewrite Z.mod_small by lia; try lia; auto.
  - assert (E : dom (<[id:=tm_Ref m]> S) = dom S) by (apply dom_insert_lookup_L; eauto). constructor; rewrite ?E; auto; lia.
Qed.

Lemma counted_size S0 S d last : counted S0 S d last ->
  0 <= ed_Added d /\ 0 <= ed_Removed d <= Z.of_nat (size S0) /\ Z.of_nat (size S) = Z.of_nat (size S0) + ed_Added d - ed_Removed d.
Proof.
  intros [-> -> _ _]. rewrite <- !(size_dom (D := gset Z)).
  assert (H : forall X Y : gset Z, size X = (size (X ∩ Y) + size (X ∖ Y))%nat).
  { intros X Y. rewrite <- size_union by set_solver. f_equal. apply set_eq. intros x. destruct (decide (x ∈ Y)); set_solver. }
  pose proof (H (dom S) (dom S0)) as H1. pose proof (H (dom S0) (dom S)) as H2. rewrite (intersection_comm_L (dom S0)) in H2. lia.
Qed.

(** ** The mutations of one leaf *)

Fixpoint ids_above (last : Z) (ms : list TMutation) : Prop :=
  match ms with [] => True | m :: rest => last < tm_ID m /\ ids_above (tm_ID m) rest end.
Definition last_id (last : Z) (ms : list TMutation) : Z := foldl (fun _ m => tm_ID m) last ms.

Lemma nodeSlot_0 id : is_u64 id -> nodeSlot id 0 = id mod 512.
Proof. intros H. pose proof (nodeSlot_spec id 0 H ltac:(lia)) as E. change (Z.of_nat 0) with 0 in E. change (span 0) with 1 in E. now rewrite Z.div_1_r in E. Qed.

Lemma nodePrefix_0 id : is_u64 id -> nodePrefix id 0 = id / 512.
Proof. intros H. exact (nodePrefix_spec id 0 H ltac:(lia)). Qed.

Lemma mutate_refs S q refs m : shows_leaf S q refs -> length refs = 512%nat -> Forall ref_valid refs -> mutation_valid m -> tm_ID m / 512 = q ->
  let refs' := <[Z.to_nat (nodeSlot (tm_ID m) 0) := tm_Ref m]> refs in
  shows_leaf (apply_mutation S m) q refs' /\ length refs' = 512%nat /\ Forall ref_valid refs'.
Proof.
  intros Hs Hl Hv [Hid Hm] Hq. rewrite nodeSlot_0 by (unfold is_u64; lia). cbv zeta.
  assert (Hmod : 0 <= tm_ID m mod 512 < 512) by (apply Z.mod_pos_bound; lia). pose proof (Z.div_mod (tm_ID m) 512 ltac:(lia)) as Hdm. rewrite Hq in Hdm. split; [|split; [now rewrite length_insert|]].
  - intros s Hs512. rewrite nth_lookup. unfold apply_mutation. destruct (decide (Z.to_nat (tm_ID m mod 512) = s)) as [E|E].
    + subst s. rewrite list_lookup_insert_eq by lia. cbn [from_option]. unfold id. replace (q * 512 + Z.of_nat (Z.to_nat (tm_ID m mod 512))) with (tm_ID m) by lia.
      unfold shown. destruct (RecordRef_IsZero (tm_Ref m)); [now rewrite lookup_delete_eq|now rewrite lookup_insert_eq].
    + rewrite list_lookup_insert_ne by exact E. rewrite <- nth_lookup. assert (Hne : tm_ID m <> q * 512 + Z.of_nat s) by lia.
      destruct (RecordRef_IsZero (tm_Ref m)); [rewrite lookup_delete_ne by exact Hne|rewrite lookup_insert_ne by exact Hne]; apply Hs, Hs512.
  - apply Forall_insert; [exact Hv|]. unfold ref_valid. destruct (RecordRef_IsZero (tm_Ref m)) eqn:E; [left; now apply bool_decide_eq_true in E|right; auto].
Qed.

Lemma mutate_leaf_fold S0 q ms : forall S d last refs, counted S0 S d last -> 0 <= last -> ids_above last ms ->
  Forall mutation_valid ms -> Forall (fun m => tm_ID m / 512 = q) ms ->
  shows_leaf S q refs -> length refs = 512%nat -> Forall ref_valid refs ->
  let st := foldl mutate_leaf (d, refs) ms in
  counted S0 (apply_mutations S ms) st.1 (last_id last ms) /\ shows_leaf (apply_mutations S ms) q st.2 /\ length st.2 = 512%nat /\ Forall ref_valid st.2.
Proof.
  induction ms as [|m ms IH]; intros S d last refs Hc Hlast Hab Hv Hq Hs Hl Hr; cbn [foldl]; [auto|].
  destruct Hab as [Hlt Hab]. apply Forall_cons_iff in Hv as [Hm Hv]. apply Forall_cons_iff in Hq as [Hqm Hq]. pose proof Hm as [Hid _].
  destruct (mutate_refs S q refs m Hs Hl Hr Hm Hqm) as (Hs' & Hl' & Hr').
  assert (Hsl : shown (nth (Z.to_nat (nodeSlot (tm_ID m) 0)) refs zeroRef) = S !! tm_ID m).
  { rewrite nodeSlot_0 by (unfold is_u64; lia). pose proof (Z.mod_pos_bound (tm_ID m) 512). rewrite Hs by lia. f_equal. dlia. }
  pose proof (apply_mutation_counted S0 S d last m refs Hc ltac:(lia) ltac:(lia) Hsl) as Hc'.
  destruct (mutate_leaf (d, refs) m) as [d' refs'] eqn:E. injection E as E1 E2. subst refs'. apply IH; auto. lia.
Qed.

Definition delta_is b (S0 S : Entries) (last : Z) : Prop := exists d, bd_delta b = Some d /\ counted S0 S d last.

Lemma counted_counts S0 S d d' last : ed_Added d' = ed_Added d /\ ed_Removed d' = ed_Removed d -> counted S0 S d last -> counted S0 S d' last.
Proof. intros [E1 E2] []. constructor; rewrite ?E1, ?E2; auto. Qed.

Lemma delta_grows b b' S0 S last : grows b b' -> delta_is b S0 S last -> delta_is b' S0 S last.
Proof.
  intros G (d & Ed & Hc). pose proof (gr_counts _ _ G) as H. unfold same_counts in H. rewrite Ed in H. destruct (bd_delta b') as [d'|] eqn:Ed'; [|contradiction].
  exists d'. split; [exact Ed'|]. eapply counted_counts; eauto.
Qed.

Lemma apply_mutations_other ms q : Forall (fun m => tm_ID m / 512 = q) ms -> forall S id, id / 512 <> q -> apply_mutations S ms !! id = S !! id.
Proof.
  induction 1 as [|m ms Hm _ IH]; intros S id Hid; [reflexivity|]. change (apply_mutations S (m :: ms)) with (apply_mutations (apply_mutation S m) ms). rewrite IH by exact Hid.
  unfold apply_mutation. assert (tm_ID m <> id) by congruence. destruct (RecordRef_IsZero _); [now rewrite lookup_delete_ne|now rewrite lookup_insert_ne].
Qed.

Lemma apply_mutations_nonpos ms : Forall mutation_valid ms -> forall S, (forall id, id <= 0 -> S !! id = None) -> forall id, id <= 0 -> apply_mutations S ms !! id = None.
Proof.
  induction 1 as [|m ms [Hm _] _ IH]; intros S HS; [exact HS|]. apply IH. intros id Hid. unfold apply_mutation.
  destruct (RecordRef_IsZero _); [rewrite lookup_delete_ne by lia|rewrite lookup_insert_ne by lia]; auto.
Qed.

(** What a step of the leaf loop leaves alone even when it fails; the counters
    are the exception. *)
Record grown b b' : Prop := mkGrown {
  gw_read : readable (bd_nodes b) (bd_nodes b');
  gw_ok : ns_ok (bd_nodes b');
  gw_tree : bd_tree b' = bd_tree b;
  gw_covered : bd_covered b' = bd_covered b;
}.

Lemma grows_grown b b' : grows b b' -> grown b b'.
Proof. intros []. constructor; auto. Qed.

Lemma grown_trans b b1 b2 : grown b b1 -> grown b1 b2 -> grown b b2.
Proof. intros [] []. constructor; [eauto using readable_trans|auto|congruence|congruence]. Qed.

Lemma leaves_delta b S p d : leaves b S p -> leaves (set_delta b d) S p.
Proof.
  intros [(fr & [] & Hfr) H2 H3 H4]. constructor; auto. exists fr. split; [constructor; auto|exact Hfr].
  intros L a HL Ha. destruct (hi_acc L a HL Ha) as [[] Hle]. split; [constructor; auto|exact Hle].
Qed.

Lemma build_leaf_spec b S0 S p last q g b' st : leaves b S p -> delta_is b S0 S last -> 0 <= last -> p <= q -> q * 512 < two64 ->
  ids_above last g -> Forall mutation_valid g -> Forall (fun m => tm_ID m / 512 = q) g ->
  build_leaf b q g = (b', st) -> grown b b' /\ (st = None -> leaves b' (apply_mutations S g) (q + 1) /\ delta_is b' S0 (apply_mutations S g) (last_id last g)).
Proof.
  intros HL (d & Ed & Hc) Hlast Hpq Hq Hab Hv Hg. pose proof HL as [(fr & H & Hfr) Hn Hview Hz].
  pose proof (hi_tree _ _ _ H) as Hw. pose proof (hi_pos _ _ _ H 0%nat) as Hp0. assert (Hq0 : 0 <= q) by lia. destruct (hi_covered _ _ _ H) as [Hcu Hcv].
  unfold build_leaf. change 0 with (Z.of_nat 0) at 1. rewrite (nodeAddress_spec _ _ 0 q Hw ltac:(lia) Hq0 Hq).
  destruct (oldRefs_spec _ _ q Hw Hq0) as (bytes & -> & Hl & Hval). set (old := addr_at (bd_nodes b) (bd_tree b) 0 q) in *.
  assert (Ev : view b 0 q = old) by (apply (hi_old _ _ _ H); lia).
  assert (Hs : shows_leaf S q (refs_at (bd_nodes b) old)).
  { intros s Hs. rewrite <- Hview by lia. unfold leaf_view. replace ((q * 512 + Z.of_nat s) / 512) with q by dlia. replace ((q * 512 + Z.of_nat s) mod 512) with (Z.of_nat s) by dlia.
    now rewrite Ev, Nat2Z.id. }
  replace (delta_of b) with d by (unfold delta_of; now rewrite Ed).
  destruct (mutate_leaf_fold S0 q g S d last _ Hc Hlast Hab Hv Hg Hs Hl Hval) as (Hc' & Hs' & Hl' & Hval').
  destruct (foldl mutate_leaf _ g) as [d' refs]. cbn [fst snd] in *. set (b1 := set_delta b (Some d')).
  assert (HL1 : leaves b1 S p) by now apply leaves_delta. assert (W1 : grown b b1) by (constructor; auto; [apply readable_refl|apply H]).
  change (bd_nodes b1) with (bd_nodes b). change (bd_tree b1) with (bd_tree b). change (bd_covered b1) with (bd_covered b).
  assert (Hon : old <> 0 -> node_at (bd_nodes b) (bd_covered b) 0 q old) by (rewrite <- Ev; apply (hi_node _ _ _ H); lia).
  destruct (writeChangedLeaf _ _ _ _ _ _ _) as [n r] eqn:Ew.
  destruct (writeChangedLeaf_spec _ _ q _ _ _ _ _ (hi_store _ _ _ H) Hcu Hq0 Hq Hl' Hval' Hon Ew) as (Hok & Hrd & Hr).
  assert (W2 : grown b (set_bnodes b1 n)) by (constructor; auto).
  destruct r as [na|e]; [|intros [= <- <-]; split; [exact W2|discriminate]]. destruct Hr as [Hrefs Hna].
  assert (Hother : forall id, id / 512 <> q -> apply_mutations S g !! id = S !! id) by now apply apply_mutations_other.
  assert (Hz' : forall id, id <= 0 -> apply_mutations S g !! id = None) by now apply apply_mutations_nonpos.
  assert (Hd1 : delta_is b1 S0 (apply_mutations S g) (last_id last g)) by (exists d'; auto).
  assert (G2 : grows b1 (set_bnodes b1 n)) by (constructor; cbn; auto).
  destruct (na =? old) eqn:Eo; bool_norm.
  - intros [= <- <-]. split; [exact W2|]. intros _. split; [|eapply delta_grows; eauto].
    pose proof HL1 as [(fr1 & H1 & Hfr1) _ _ _]. destruct (hier_up b1 (set_bnodes b1 n) fr1 0 0 ltac:(lia) H1 G2 eq_refl) as [H2 Hv2]; [reflexivity|].
    apply (leaf_done b1 (set_bnodes b1 n) fr1 S _ p q na refs HL1); auto; [lia|].
    intros r Hr. rewrite Hv2 by lia. destruct (r =? q) eqn:Er; bool_norm; [|reflexivity]. subst r. rewrite Eo. exact Ev.
  - destruct (count_bytes _ _ _ _) as [b3 st3] eqn:E3. destruct (count_bytes_spec (set_bnodes b1 n) _ _ _ _ _ Hok E3) as (G3 & En3 & Er3 & El3).
    pose proof (grown_trans _ _ _ W2 (grows_grown _ _ G3)) as W3. destruct st3 as [e|]; [intros [= <- <-]; split; [exact W3|discriminate]|].
    assert (Eb : b3 = set_bnodes (set_delta b (bd_delta b3)) (bd_nodes b3)).
    { pose proof (gr_tree _ _ G3). pose proof (gr_covered _ _ G3). destruct b3. cbn in *. unfold set_bnodes, set_delta. cbn. congruence. }
    change (bd_nodes (set_bnodes b1 n)) with n in En3. rewrite En3 in Eb. rewrite Eb. intros E4.
    destruct (push_leaf (set_delta b (bd_delta b3)) S _ p q na n refs b' st (leaves_delta _ _ _ _ HL) Hpq Hq Hrd Hok Hrefs Hna Hs' Hother Hz' E4) as [G4 P4].
    split.
    + apply (grown_trans b (set_delta b (bd_delta b3))); [constructor; auto; [apply readable_refl|apply H]|now apply grows_grown].
    + intros Est. split; [auto|]. eapply delta_grows; [exact G4|]. destruct (delta_grows _ _ _ _ _ (grows_trans _ _ _ G2 G3) Hd1) as (d3 & Ed3 & Hc3). exists d3. auto.
Qed.

(** ** The leaf loop *)

Definition group_ok (g : Z * list TMutation) : Prop := g.2 <> [] /\ Forall (fun m => tm_ID m / 512 = g.1) g.2.

Lemma leaf_groups_spec ms : forall last, 0 <= last -> Forall mutation_valid ms -> ids_above last ms ->
  concat (map snd (leaf_groups ms)) = ms /\ Forall group_ok (leaf_groups ms) /\
  StronglySorted Z.lt (map fst (leaf_groups ms)) /\ Forall (fun g => last / 512 <= g.1) (leaf_groups ms).
Proof.
  induction ms as [|m ms IH]; intros last Hl Hv Hab; [cbn; repeat split; constructor|]. apply Forall_cons_iff in Hv as [[Hm _] Hv]. destruct Hab as [Hlt Hab].
  destruct (IH (tm_ID m) ltac:(lia) Hv Hab) as (Hc & Hg & Hs & Hb). cbn [leaf_groups]. rewrite nodePrefix_0 by (unfold is_u64; lia).
  assert (Hle : last / 512 <= tm_ID m / 512) by (apply Z.div_le_mono; lia).
  assert (Hb' : forall gs, Forall (fun g : Z * list TMutation => tm_ID m / 512 <= g.1) gs -> Forall (fun g => last / 512 <= g.1) gs).
  { intros gs Hgs. eapply Forall_impl; [exact Hgs|]. cbn. lia. }
  destruct (leaf_groups ms) as [|[p g] groups].
  { cbn in *. subst ms. repeat constructor; cbn; auto. }
  apply Forall_cons_iff in Hg as [[Hg1 Hg2] Hg]. apply Forall_cons_iff in Hb as [Hp Hb]. cbn [fst snd] in *. inversion Hs as [|? ? Hs1 Hs2]; subst.
  destruct (p =? tm_ID m / 512) eqn:E; bool_norm.
  - subst p. cbn [map concat snd fst app] in *. split; [reflexivity|]. split; [|split; [exact Hs|constructor; [exact Hle|auto]]].
    constructor; [|exact Hg]. split; [discriminate|]. constructor; auto.
  - assert (Hlt2 : tm_ID m / 512 < p) by lia. cbn [map concat snd fst app] in *. split; [reflexivity|]. split; [|split].
    + constructor; [split; [discriminate|now repeat constructor]|]. constructor; [split; auto|exact Hg].
    + constructor; [exact Hs|]. constructor; [exact Hlt2|]. eapply Forall_impl; [exact Hs2|]. cbn. lia.
    + constructor; [exact Hle|]. constructor; [cbn; lia|auto].
Qed.

Lemma ids_above_app ms ms' : forall last, ids_above last (ms ++ ms') <-> ids_above last ms /\ ids_above (last_id last ms) ms'.
Proof. induction ms as [|m ms IH]; intros last; cbn [app ids_above]; [tauto|]. rewrite IH. unfold last_id. cbn. tauto. Qed.

Lemma last_id_pos ms : Forall mutation_valid ms -> forall last, 0 <= last -> 0 <= last_id last ms.
Proof. induction 1 as [|m ms [Hm _] _ IH]; intros last Hl; [exact Hl|]. apply IH. lia. Qed.

Lemma build_groups_spec S0 gs : forall b S p last b' st, leaves b S p -> delta_is b S0 S last -> 0 <= last ->
  Forall group_ok gs -> StronglySorted Z.lt (map fst gs) -> Forall (fun g => p <= g.1) gs ->
  Forall mutation_valid (concat (map snd gs)) -> ids_above last (concat (map snd gs)) ->
  build_groups b gs = (b', st) ->
  grown b b' /\ (st = None -> exists p', leaves b' (apply_mutations S (concat (map snd gs))) p' /\
                              delta_is b' S0 (apply_mutations S (concat (map snd gs))) (last_id last (concat (map snd gs)))).
Proof.
  induction gs as [|[q g] gs IH]; intros b S p last b' st HL Hd Hlast Hg Hs Hp Hv Hab; cbn [build_groups map concat snd fst] in *.
  { intros [= <- <-]. split; [|eauto]. destruct HL as [(fr & H & _) _ _ _]. constructor; auto; [apply readable_refl|apply H]. }
  apply Forall_cons_iff in Hg as [[Hne Hq] Hg]. apply Forall_cons_iff in Hp as [Hpq Hp]. apply Forall_app in Hv as [Hv1 Hv2]. apply ids_above_app in Hab as [Hab1 Hab2]. cbn [fst snd] in *.
  inversion Hs as [|? ? Hs1 Hs2]; subst.
  assert (Hr : q * 512 < two64).
  { destruct g as [|m g]; [contradiction|]. apply Forall_cons_iff in Hq as [<- _]. apply Forall_cons_iff in Hv1 as [[Hm _] _]. dlia. }
  destruct (build_leaf b q g) as [b1 st1] eqn:E1. destruct (build_leaf_spec b S0 S p last q g b1 st1 HL Hd Hlast Hpq Hr Hab1 Hv1 Hq E1) as [W1 P1].
  destruct st1 as [e|]; [intros [= <- <-]; split; [exact W1|discriminate]|]. destruct (P1 eq_refl) as [HL1 Hd1].
  intros E2. destruct (IH b1 _ (q + 1) (last_id last g) b' st HL1 Hd1) with (7 := E2) as [W2 P2]; auto.
  - now apply last_id_pos.
  - rewrite Forall_map in Hs2. eapply Forall_impl; [exact Hs2|]. cbn. lia.
  - split; [eapply grown_trans; eauto|]. intros Est. rewrite apply_mutations_app. unfold last_id. rewrite foldl_app. auto.
Qed.

(** ** Building *)

Definition entries n t : Entries := match Tree_WalkRefs n t with Ok l => list_to_map l | Err _ => ∅ end.

Lemma entries_lookup n t id : tree_wf n t -> entries n t !! id = if bool_decide (0 < id <= MaxUint64) then leaf_ref n t id else None.
Proof.
  intros Hw. destruct (Tree_WalkRefs_spec n t Hw) as (l & E & Hs & Hl). unfold entries. rewrite E.
  assert (Hnd : NoDup l.*1) by (apply sorted_lt_NoDup; exact Hs).
  assert (Hiff : forall r, (list_to_map l : Entries) !! id = Some r <-> 0 < id <= MaxUint64 /\ leaf_ref n t id = Some r).
  { intros r. rewrite <- elem_of_list_to_map by exact Hnd. apply Hl. }
  apply option_eq. intros r. rewrite Hiff. case_bool_decide; [tauto|]. split; [tauto|discriminate].
Qed.

Lemma leaf_ref_out n t id : tree_wf n t -> MaxUint64 < id -> leaf_ref n t id = None.
Proof.
  intros Hw Hid. destruct (leaf_ref n t id) as [r|] eqn:E; [|reflexivity]. exfalso.
  assert (Ha : addr_at n t 0 (id / 512) <> 0). { intros E0. rewrite (leaf_ref_below n t id 0) in E; [discriminate|lia|lia|exact E0]. }
  pose proof (addr_range n t 0 (id / 512) Hw ltac:(lia) ltac:(apply Z.div_pos; lia) Ha) as Hr. change (span 1) with 512 in Hr. dlia.
Qed.

Lemma leaf_ref_entries n t id : tree_wf n t -> 0 <= id -> leaf_ref n t id = entries n t !! id.
Proof.
  intros Hw Hid. rewrite entries_lookup by exact Hw. case_bool_decide as E; [reflexivity|].
  destruct (Z.eq_dec id 0) as [->|]; [apply Hw|]. apply leaf_ref_out; auto. lia.
Qed.

Lemma entries_nonpos n t id : tree_wf n t -> id <= 0 -> entries n t !! id = None.
Proof. intros Hw Hid. rewrite entries_lookup by exact Hw. now rewrite bool_decide_eq_false_2 by lia. Qed.

Lemma entries_ext n t S : tree_wf n t -> (forall id, 0 <= id -> leaf_ref n t id = S !! id) -> (forall id, id <= 0 -> S !! id = None) -> entries n t = S.
Proof.
  intros Hw H Hz. apply map_eq. intros id. destruct (Z.le_gt_cases id 0) as [Hid|Hid].
  - rewrite Hz by exact Hid. now apply entries_nonpos.
  - rewrite <- leaf_ref_entries by (auto; lia). apply H. lia.
Qed.

Lemma start_leaves n t covered : tree_wf n t -> is_u64 covered -> rx_covered t <= covered ->
  forall d, leaves (mkBuilder n t covered (rx_root t) d (replicate 8 None)) (entries n t) 0.
Proof.
  intros Hw Hc Hle d. set (b := mkBuilder _ _ _ _ _ _).
  assert (Ha : forall L, acc b L = None).
  { intros L. unfold acc, level_at. cbn [b bd_levels]. destruct (replicate 8 None !! _) as [x|] eqn:E; [|reflexivity]. now apply lookup_replicate in E as [-> _]. }
  assert (Hv : forall L q, (L <= 7)%nat -> view b L q = addr_at n t L q).
  { intros L q HL. unfold view, addr_at. cbn. apply at_pos_ext; [exact HL|]. intros k _. unfold ov_of. now rewrite Ha. }
  constructor; [|apply Ha| |intros id Hid; now apply entries_nonpos].
  - exists (fun _ => 0). split; [|lia]. constructor; cbn; auto; try lia.
    + apply Hw.
    + intros L a HL Ea. rewrite Ha in Ea. discriminate.
    + intros L q HL _. apply Hv. lia.
    + intros L q HL Hq. rewrite Hv by lia. intros Hn. apply (node_at_mono _ (rx_covered t)); [exact Hle|]. apply (tw_nodes _ _ Hw); auto; lia.
    + intros L HL. unfold front. rewrite Ha. reflexivity.
  - intros id Hid. unfold leaf_view. rewrite Hv by lia. cbn. rewrite <- leaf_ref_entries by auto. reflexivity.
Qed.

(** After the final flush the stored tree shows what the builder showed. *)
Lemma flush_all b S p b' st : leaves b S p -> flush_levels b [1; 2; 3; 4; 5; 6; 7] = (b', st) ->
  grows b b' /\ (st = None -> let t' := mkTree (bd_root b') (bd_covered b) true in tree_wf (bd_nodes b') t' /\ entries (bd_nodes b') t' = S).
Proof.
  intros [(fr & H & Hfr) Hn Hv Hz] E. change [1; 2; 3; 4; 5; 6; 7] with (map Z.of_nat (seq 1 7)) in E.
  assert (Hse : settled b fr 0).
  { constructor; [exact H| |].
    - intros L HL. assert (L = 0%nat) as -> by lia. exact Hn.
    - intros L q HL. assert (L = 0%nat) as -> by lia. apply (hi_node _ _ _ H). lia. }
  destruct (flush_levels_spec 7 0 b fr b' st ltac:(lia) Hse E) as [G P]. split; [exact G|]. intros Est. destruct (P Est) as [(fr' & Hs) Hv0].
  pose proof (fun L q => settled_view b' fr' L q Hs) as Hav. rewrite (gr_covered _ _ G) in Hav. cbv zeta. set (t' := mkTree _ _ _) in *.
  assert (Hleaf : forall id, 0 <= id -> leaf_ref (bd_nodes b') t' id = S !! id).
  { intros id Hid. assert (Hq : 0 <= id / 512) by (apply Z.div_pos; lia). rewrite <- Hv by exact Hid. unfold leaf_ref, leaf_view.
    rewrite <- Hav by lia. rewrite Hv0 by exact Hq. do 2 f_equal. apply (refs_at_grow _ _ (bd_covered b) 0 (id / 512)); [apply G|].
    intros Hne. apply (hi_node _ _ _ H); auto; lia. }
  assert (Hw' : tree_wf (bd_nodes b') t').
  { constructor; [apply G|apply H| |rewrite Hleaf by lia; apply Hz; lia]. intros level q Hl Hq. rewrite <- Hav by exact Hl. intros Hne.
    pose proof (se_node _ _ _ Hs level q Hl Hq Hne) as Hna. rewrite (gr_covered _ _ G) in Hna. exact Hna. }
  split; [exact Hw'|]. now apply entries_ext.
Qed.

Lemma entries_cover n t covered : tree_wf n t -> is_u64 covered -> rx_covered t <= covered ->
  let t' := mkTree (rx_root t) covered true in tree_wf n t' /\ entries n t' = entries n t.
Proof.
  intros Hw Hc Hle. cbv zeta. assert (Hw' : tree_wf n (mkTree (rx_root t) covered true)).
  { constructor; [apply Hw|exact Hc| |apply (tw_zero _ _ Hw)]. intros level q Hl Hq Hn. apply (node_at_mono _ (rx_covered t)); [exact Hle|]. now apply (tw_nodes _ _ Hw). }
  split; [exact Hw'|]. apply entries_ext; [exact Hw'| |intros id Hid; now apply entries_nonpos].
  intros id Hid. now rewrite <- leaf_ref_entries.
Qed.

Lemma Open_ok n root covered t : Open n root covered = Ok t -> t = mkTree root covered true.
Proof.
  unfold Open. case_if; [discriminate|]. case_if; [congruence|]. destruct (load _ _ _ _ _); congruence.
Qed.

Lemma ids_above_sorted ms : forall last, Forall (fun m => last < tm_ID m) ms -> StronglySorted Z.lt (map tm_ID ms) -> ids_above last ms.
Proof.
  induction ms as [|m ms IH]; intros last Hl Hs; [exact I|]. apply Forall_cons_iff in Hl as [Hm _]. cbn in Hs. inversion Hs as [|? ? Hs1 Hs2]; subst.
  split; [exact Hm|]. apply IH; [|exact Hs1]. now rewrite Forall_map in Hs2.
Qed.

(** What a build, successful or not, leaves as it is. *)
Definition stable n n' : Prop := forall t, tree_wf n t -> tree_wf n' t /\ entries n' t = entries n t.

Lemma readable_stable n n' : readable n n' -> ns_ok n' -> stable n n'.
Proof.
  intros Hr Hok t Hw. destruct (tree_wf_grow n n' t Hr Hok Hw) as [Hw' Hl]. split; [exact Hw'|]. apply entries_ext; [exact Hw'| |intros id Hid; now apply entries_nonpos].
  intros id Hid. rewrite Hl by exact Hid. now apply leaf_ref_entries.
Qed.

Lemma BuildSorted_spec n t covered ms n' r : tree_wf n t -> is_u64 covered -> mutations_sorted ms -> BuildSorted n t covered ms = (n', r) ->
  stable n n' /\
  match r with
  | Err _ => True
  | Ok (t', d) =>
      tree_wf n' t' /\ rx_covered t' = covered /\ entries n' t' = apply_mutations (entries n t) ms /\
      ed_Added d = Z.of_nat (size (dom (entries n' t') ∖ dom (entries n t))) /\
      ed_Removed d = Z.of_nat (size (dom (entries n t) ∖ dom (entries n' t')))
  end.
Proof.
  intros Hw Hc [Hv Hs]. assert (Hst : stable n n) by (apply readable_stable; [apply readable_refl|apply Hw]).
  unfold BuildSorted. case_if; [intros [= <- <-]; auto|]. bool_norm. case_if; [intros [= <- <-]; auto|]. case_if.
  { bool_norm. assert (ms = []) as -> by now apply len_zero_nil. intros [= <- <-]. split; [exact Hst|].
    destruct (Open n (rx_root t) covered) as [t'|e] eqn:Eo; [|exact I]. apply Open_ok in Eo as ->.
    destruct (entries_cover n t covered Hw Hc ltac:(lia)) as [Hw' He]. cbv zeta in He. rewrite He, difference_diag_L, size_empty.
    split; [exact Hw'|]. split; [reflexivity|]. split; [reflexivity|]. split; reflexivity. }
  pose proof (start_leaves n t covered Hw Hc ltac:(lia) (Some (mkEntryDelta 0 0 0 0))) as HL. fold (start_builder n t covered) in HL. set (b := start_builder n t covered) in *.
  assert (Hd : delta_is b (entries n t) (entries n t) 0).
  { exists (mkEntryDelta 0 0 0 0). split; [reflexivity|]. constructor; cbn; rewrite ?difference_diag_L, ?size_empty; auto. lia. }
  assert (Hab : ids_above 0 ms) by (apply ids_above_sorted; [|exact Hs]; eapply Forall_impl; [exact Hv|]; intros m [Hm _]; lia).
  destruct (leaf_groups_spec ms 0 ltac:(lia) Hv Hab) as (Hcat & Hg & Hsg & Hb). change (0 / 512) with 0 in Hb.
  destruct (build_groups b (leaf_groups ms)) as [b1 st1] eqn:E1.
  destruct (build_groups_spec (entries n t) (leaf_groups ms) b _ 0 0 b1 st1 HL Hd ltac:(lia) Hg Hsg Hb ltac:(now rewrite Hcat) ltac:(now rewrite Hcat) E1) as [W1 P1].
  rewrite Hcat in P1. destruct st1 as [e|].
  { intros [= <- <-]. split; [|exact I]. apply readable_stable; [apply (gw_read _ _ W1)|apply (gw_ok _ _ W1)]. }
  destruct (P1 eq_refl) as (p' & HL1 & Hd1). destruct (flush_levels b1 _) as [b2 st2] eqn:E2.
  destruct (flush_all b1 _ p' b2 st2 HL1 E2) as [G2 P2]. pose proof (grown_trans _ _ _ W1 (grows_grown _ _ G2)) as W2.
  assert (Hst2 : stable n (bd_nodes b2)) by (apply readable_stable; [apply (gw_read _ _ W2)|apply (gw_ok _ _ W2)]).
  destruct st2 as [e|]; intros [= <- <-]; (split; [exact Hst2|]); [exact I|]. destruct (Open _ _ covered) as [t'|e] eqn:Eo; [|exact I]. apply Open_ok in Eo as ->.
  destruct (P2 eq_refl) as [Hw' He]. replace (bd_covered b1) with covered in * by (symmetry; apply (gw_covered _ _ W1)).
  destruct (delta_grows _ _ _ _ _ G2 Hd1) as (d & Ed & [Hca Hcr _ _]). unfold delta_of. rewrite Ed.
  split; [exact Hw'|]. split; [reflexivity|]. split; [exact He|]. rewrite He. auto.
Qed.

(** ** The contract *)

Lemma sorted_entries_list l : ids_sorted l -> sorted_entries (list_to_map l) = l.
Proof.
  intros Hs. pose proof (sorted_lt_NoDup _ Hs) as Hnd. unfold sorted_entries.
  assert (Hp : map_to_list (list_to_map l : Entries) ≡ₚ l) by now apply map_to_list_to_map.
  apply (StronglySorted_unique_strong id_le).
  - intros [i x] [j y] Hi Hj Hij Hji. rewrite merge_sort_Permutation, Hp in Hi. unfold id_le in *. cbn in *. assert (i = j) as -> by lia.
    f_equal. pose proof (elem_of_list_to_map_1 (M := gmap Z) l j x Hnd Hi). pose proof (elem_of_list_to_map_1 (M := gmap Z) l j y Hnd Hj). congruence.
  - apply StronglySorted_merge_sort; [intros [? ?] [? ?] [? ?]; unfold id_le; cbn; lia|]. intros [? ?] [? ?]. unfold id_le. cbn. lia.
  - clear -Hs. induction l as [|[i x] l IH]; constructor; unfold ids_sorted in Hs; cbn in Hs; inversion Hs as [|? ? H1 H2]; subst; [now apply IH|].
    rewrite Forall_map in H2. eapply Forall_impl; [exact H2|]. intros [j y]. unfold id_le. cbn. lia.
  - now rewrite merge_sort_Permutation.
Qed.

Lemma entries_range n t id r : tree_wf n t -> entries n t !! id = Some r -> 0 < id <= MaxUint64 /\ RecordRef_Valid r = true /\ ref_u r.
Proof.
  intros Hw. rewrite entries_lookup by exact Hw. case_bool_decide as Hid; [|discriminate]. intros E. split; [exact Hid|]. unfold leaf_ref in E. apply shown_Some in E as [E Ez].
  destruct (oldRefs_spec n t (id / 512) Hw ltac:(apply Z.div_pos; lia)) as (_ & _ & Hl & Hv). pose proof (Z.mod_pos_bound id 512).
  rewrite Forall_forall in Hv. destruct (Hv r) as [->|H1]; [|discriminate Ez|exact H1].
  rewrite <- E, nth_lookup. destruct (lookup_lt_is_Some_2 (refs_at n (addr_at n t 0 (id / 512))) (Z.to_nat (id mod 512)) ltac:(lia)) as [x Hx]. rewrite Hx.
  now apply list_elem_of_lookup_2 in Hx.
Qed.

#[export] Instance Radix_laws : TreeLaws N Tree.
Proof.
  unshelve econstructor; [exact tree_wf|exact entries|..].
  - intros n t Hw. split; [apply Hw|]. split; [intros id r; now apply entries_range|]. intros E. unfold entries, Tree_WalkRefs. cbn in E. now rewrite E.
  - intros n t id Hw Hid. cbn. rewrite Tree_LookupRef_spec by auto. rewrite leaf_ref_entries by (auto; lia). reflexivity.
  - intros n t Hw. cbn. destruct (Tree_WalkRefs_spec n t Hw) as (l & E & Hs & _). unfold entries. rewrite E. now rewrite sorted_entries_list.
  - intros n t covered ms n' r Hw Hms Hc E. destruct (BuildSorted_spec n t covered ms n' r Hw Hc Hms E) as [Hst Hr]. split; [exact Hst|].
    destruct r as [[t' d]|e]; [|exact I]. destruct Hr as (H1 & H2 & H3 & H4 & H5). split; [exact H1|]. split; [exact H2|]. split; [exact H3|].
    apply (counted_size _ _ _ (Z.max MaxUint64 (ed_Added d + ed_Removed d))). constructor; auto; [lia|].
    intros id Hid. destruct (entries n' t' !! id) as [x|] eqn:Ex; [pose proof (entries_range _ _ _ _ H1 Ex); lia|].
    destruct (entries n t !! id) as [y|] eqn:Ey; [pose proof (entries_range _ _ _ _ Hw Ey); lia|reflexivity].
  - intros n n' e E t Hw. destruct (ns_sync n n' e (tw_store _ _ Hw) E) as [Hok Hrd]. now apply readable_stable.
Defined.

(** C11: a build refines the application of its mutations to a map.  Whatever
    [BuildSorted] returns, every tree that could be read before still walks the
    same entries; when it returns a tree, lookups and the walk of that tree show
    exactly the old entries with the mutations applied, and the delta counts the
    ids that were added and removed. *)
Theorem radix_build_refines n t covered ms n' r :
  tree_wf n t -> mutations_sorted ms -> is_u64 covered -> BuildSorted n t covered ms = (n', r) ->
  (forall t0, tree_wf n t0 -> Tree_WalkRefs n' t0 = Tree_WalkRefs n t0 /\ forall id, 0 < id <= MaxUint64 -> Tree_LookupRef n' t0 id = Tree_LookupRef n t0 id) /\
  forall t' d, r = Ok (t', d) ->
    let S := entries n t in let S' := apply_mutations S ms in
    tree_wf n' t' /\ rx_covered t' = covered /\
    (forall id, 0 < id <= MaxUint64 -> Tree_LookupRef n' t' id = Ok (S' !! id)) /\
    Tree_WalkRefs n' t' = Ok (sorted_entries S') /\
    ed_Added d = Z.of_nat (size (dom S' ∖ dom S)) /\ ed_Removed d = Z.of_nat (size (dom S ∖ dom S')).
Proof.
  intros Hw Hms Hc E. destruct (BuildSorted_spec n t covered ms n' r Hw Hc Hms E) as [Hst Hr]. split.
  - intros t0 H0. destruct (Hst t0 H0) as [H1 E1]. pose proof (tr_walk n t0 H0) as W0. pose proof (tr_walk n' t0 H1) as W1. cbn in W0, W1.
    split; [congruence|]. intros id Hid. pose proof (tr_lookup n t0 id H0 Hid) as L0. pose proof (tr_lookup n' t0 id H1 Hid) as L1. cbn in L0, L1. congruence.
  - intros t' d ->. destruct Hr as (H1 & H2 & H3 & H4 & H5). cbv zeta. rewrite <- H3. split; [exact H1|]. split; [exact H2|].
    split; [intros id Hid; exact (tr_lookup n' t' id H1 Hid)|]. split; [exact (tr_walk n' t' H1)|auto].
Qed.
End Tree.
