(* ===== verification/RadixRebuild.v ===== *)
(** * Rebuilding a tree from a stream of entries

    [RebuildBuilder] receives the entries in the order of their ids, keeps one
    leaf in memory and pushes it when the prefix changes.  The finished tree walks
    back exactly the entries that were added. *)
From S2P Require Import Prelude Addr MapNode NodeIface Mapping TreeIface Radix RadixSpec RadixBuild RadixTree.

Section Rebuild.
Context {N : Type} `{!NodeStore N} `{!NodeStoreLaws N}.
Implicit Types (n : N) (r : RebuildBuilder N).

(** The stream of calls. *)
Fixpoint add_all r (l : list (Z * RecordRef)) : RebuildBuilder N * option goerror :=
  match l with
  | [] => (r, None)
  | (id, ref) :: rest => do r <- Add r id ref ;; add_all r rest
  end.

(** The entries added so far are [S]; the leaf in memory holds its part of them. *)
Record rebuilding n covered r (S : Entries) (last : Z) : Prop := mkRebuilding {
  re_read : readable n (bd_nodes (rb_hierarchy r));
  re_covered : bd_covered (rb_hierarchy r) = covered;
  re_last : rb_last r = last /\ 0 <= last;
  re_leaf : exists S0 p, leaves (rb_hierarchy r) S0 p /\ bd_tree (rb_hierarchy r) = mkTree 0 covered true /\
    match rb_leaf r with
    | None => S0 = S /\ S = ∅ /\ p <= 0
    | Some (q, refs) => p <= q /\ q = last / 512 /\ last <= MaxUint64 /\ shows_leaf S q refs /\ length refs = 512%nat /\ Forall ref_valid refs /\
        (forall id, id / 512 <> q -> S !! id = S0 !! id)
    end;
  re_zero : forall id, id <= 0 -> S !! id = None;
  re_above : forall id, last < id -> S !! id = None;
}.

Lemma empty_entries n covered : entries n (mkTree 0 covered true) = ∅.
Proof. reflexivity. Qed.

Lemma empty_wf n covered : ns_ok n -> is_u64 covered -> tree_wf n (mkTree 0 covered true).
Proof.
  intros Hok Hc. assert (Ha : forall level q, (level <= 7)%nat -> addr_at n (mkTree 0 covered true) level q = 0).
  { intros level q Hl. remember (7 - level)%nat as k eqn:Ek. revert level q Hl Ek. induction k as [|k IH]; intros level q Hl Ek.
    - assert (level = 7%nat) as -> by lia. unfold addr_at. rewrite at_pos_top. cbn. now destruct (q =? 0).
    - apply addr_below; [lia|]. apply IH; lia. }
  constructor; [exact Hok|exact Hc| |].
  - intros level q Hl _ Hn. now rewrite Ha in Hn.
  - unfold leaf_ref. rewrite Ha by lia. unfold refs_at. cbn [Z.eqb]. unfold zero_refs. now rewrite nth_replicate.
Qed.

Lemma new_rebuilding n covered : ns_ok n -> is_u64 covered -> rebuilding n covered (NewRebuildBuilder n covered) ∅ 0.
Proof.
  intros Hok Hc. constructor; cbn; auto; try apply readable_refl; try lia. exists ∅, 0. split; [|split; [reflexivity|split; [reflexivity|split; [reflexivity|lia]]]].
  rewrite <- (empty_entries n covered). apply (start_leaves n (mkTree 0 covered true) covered); auto; [now apply empty_wf|cbn; lia].
Qed.

(** What both outcomes of a call keep. *)
Definition rb_grows n r : Prop := readable n (bd_nodes (rb_hierarchy r)) /\ ns_ok (bd_nodes (rb_hierarchy r)).

Lemma flushLeaf_spec n covered r S last r' st : rebuilding n covered r S last -> flushLeaf r = (r', st) ->
  rb_grows n r' /\
  (st = None -> exists p, leaves (rb_hierarchy r') S p /\ p <= last / 512 + 1 /\ bd_tree (rb_hierarchy r') = mkTree 0 covered true /\
     bd_covered (rb_hierarchy r') = covered /\ rb_leaf r' = None /\ rb_entries r' = rb_entries r /\ rb_finished r' = rb_finished r /\ rb_last r' = rb_last r).
Proof.
  intros H. pose proof H as [Hrd Hcov Hlast (S0 & p & HL & Htree & Hleaf) Hz Hab]. pose proof HL as [(fr & Hh & _) _ _ _]. unfold flushLeaf.
  assert (Hl0 : 0 <= last / 512) by (apply Z.div_pos; lia).
  destruct (rb_leaf r) as [[q refs]|] eqn:El.
  2:{ intros [= <- <-]. split; [split; [exact Hrd|apply Hh]|]. intros _. destruct Hleaf as (-> & _ & Hp). exists p. repeat (split; [first [assumption|reflexivity|lia]|]). reflexivity. }
  destruct Hleaf as (Hpq & Hq & Hmax & Hshow & Hlen & Hval & Hother). set (h := rb_hierarchy r) in *.
  assert (Hq0 : 0 <= q) by lia. assert (Hqr : q * 512 < two64) by dlia.
  destruct (writeChangedLeaf _ _ _ _ _ _ _) as [n1 a] eqn:Ew. destruct (hi_covered _ _ _ Hh) as [Hcu _].
  destruct (writeChangedLeaf_spec (bd_nodes h) (bd_tree h) q (bd_covered h) refs 0 n1 a (hi_store _ _ _ Hh) Hcu Hq0 Hqr Hlen Hval ltac:(lia) Ew) as (Hok & Hrd1 & Ha).
  destruct a as [a|e]; [|intros [= <- <-]; split; [split; [eapply readable_trans; eassumption|exact Hok]|discriminate]].
  destruct Ha as [Hrefs Hna]. destruct (push 8 (set_bnodes h n1) 0 q a) as [h' st'] eqn:Ep.
  destruct (push_leaf h S0 S p q a n1 refs h' st' HL Hpq Hqr Hrd1 Hok Hrefs Hna Hshow Hother Hz Ep) as [G P].
  intros [= <- <-]. cbn [rb_hierarchy rb_leaf rb_entries rb_finished rb_last]. split; [split; [eapply readable_trans; [exact Hrd|apply G]|apply G]|].
  intros Est. exists (q + 1). split; [auto|]. split; [lia|]. split; [rewrite (gr_tree _ _ G); exact Htree|]. split; [|auto]. rewrite (gr_covered _ _ G). exact Hcov.
Qed.

Lemma zero_shows S q last : (forall id, last < id -> S !! id = None) -> last / 512 < q -> shows_leaf S q zero_refs.
Proof. intros H Hq s Hs. unfold zero_refs. rewrite nth_replicate. symmetry. apply H. dlia. Qed.

(** Adding the next entry to the leaf it belongs to. *)
Lemma add_to_leaf S q refs id ref : shows_leaf S q refs -> length refs = 512%nat -> Forall ref_valid refs -> 0 < id <= MaxUint64 -> RecordRef_Valid ref = true -> ref_u ref ->
  id / 512 = q -> let refs' := <[Z.to_nat (nodeSlot id 0) := ref]> refs in
  shows_leaf (<[id := ref]> S) q refs' /\ length refs' = 512%nat /\ Forall ref_valid refs'.
Proof.
  intros Hs Hl Hv Hid Hr Hu Hq. pose proof (RecordRef_Valid_IsZero ref Hr) as Hz.
  destruct (mutate_refs S q refs (mkTMutation id ref) Hs Hl Hv) as (H1 & H2 & H3); [split; cbn; auto|exact Hq|].
  unfold apply_mutation in H1. cbn [tm_Ref tm_ID] in *. rewrite Hz in H1. auto.
Qed.

Lemma insert_other (S : Entries) q id ref : id / 512 = q -> forall j, j / 512 <> q -> <[id := ref]> S !! j = S !! j.
Proof. intros Hq j Hj. apply lookup_insert_ne. congruence. Qed.

Lemma Add_spec n covered r S last id ref r' st : rebuilding n covered r S last -> id <= MaxUint64 -> ref_u ref -> Add r id ref = (r', st) ->
  rb_grows n r' /\ (st = None -> rebuilding n covered r' (<[id := ref]> S) id /\ last < id /\ rb_entries r' = (rb_entries r + 1) mod two64 /\ rb_finished r' = rb_finished r).
Proof.
  intros H Hmax Hu. pose proof H as [Hrd Hcov [Hlast Hl0] (S0 & p & HL & Htree & Hleaf) Hz Hab]. unfold Add. case_if.
  { intros [= <- <-]. split; [|discriminate]. split; [exact Hrd|]. destruct HL as [(fr & Hh & _) _ _ _]. apply Hh. }
  bool_norm. rewrite nodePrefix_0 by (unfold is_u64; lia). set (q := id / 512) in *.
  assert (Hid : 0 < id <= MaxUint64) by lia. assert (Hq : last / 512 <= q) by (apply Z.div_le_mono; lia).
  assert (Hz' : forall j, j <= 0 -> <[id := ref]> S !! j = None) by (intros j Hj; rewrite lookup_insert_ne by lia; auto).
  assert (Hab' : forall j, id < j -> <[id := ref]> S !! j = None) by (intros j Hj; rewrite lookup_insert_ne by lia; apply Hab; lia).
  (* a fresh leaf on top of a hierarchy that shows everything *)
  assert (Fresh : forall h e0 f0 p1, readable n (bd_nodes h) -> leaves h S p1 -> p1 <= q -> last / 512 < q \/ S = ∅ -> bd_tree h = mkTree 0 covered true -> bd_covered h = covered ->
    rebuilding n covered (mkRebuild h (Some (q, <[Z.to_nat (nodeSlot id 0) := ref]> zero_refs)) id e0 f0) (<[id := ref]> S) id).
  { intros h e0 f0 p1 Hrh HLh Hp1 Hq1 Hth Hch. destruct (add_to_leaf S q zero_refs id ref) as (A1 & A2 & A3); auto.
    - destruct Hq1 as [Hq1|HS0]; [now apply (zero_shows S q last)|]. rewrite HS0. intros s _. unfold zero_refs. now rewrite nth_replicate, lookup_empty.
    - apply Forall_replicate. now left.
    - constructor; cbn; auto; [lia|]. exists S, p1. split; [exact HLh|]. split; [exact Hth|]. split; [exact Hp1|]. split; [reflexivity|]. split; [lia|].
      split; [exact A1|]. split; [exact A2|]. split; [exact A3|]. intros j Hj. now apply (insert_other S q). }
  destruct (rb_leaf r) as [[q0 refs]|] eqn:El.
  - destruct Hleaf as (Hpq & Hq0 & Hm & Hshow & Hlen & Hval & Hother). destruct (q0 =? q) eqn:Eq; cbn [negb]; bool_norm.
    + rewrite El. intros [= <- <-]. split; [split; [exact Hrd|]; destruct HL as [(fr & Hh & _) _ _ _]; apply Hh|]. intros _. split; [|split; [lia|auto]].
      rewrite Eq in *. destruct (add_to_leaf S q refs id ref) as (A1 & A2 & A3); auto. constructor; cbn; auto; [lia|].
      exists S0, p. split; [exact HL|]. split; [exact Htree|]. split; [lia|]. split; [reflexivity|]. split; [lia|]. split; [exact A1|]. split; [exact A2|]. split; [exact A3|].
      intros j Hj. rewrite (insert_other S q) by auto. auto.
    + destruct (flushLeaf r) as [r1 st1] eqn:Ef. destruct (flushLeaf_spec n covered r S last r1 st1 H Ef) as [[Hg1 Hg2] P].
      destruct st1 as [e|]; [intros [= <- <-]; split; [split; assumption|discriminate]|].
      destruct (P eq_refl) as (p1 & HL1 & Hp1 & Ht1 & Hc1 & -> & He1 & Hf1 & Hl1). intros [= <- <-]. split; [split; assumption|]. intros _.
      split; [|split; [lia|cbn; rewrite He1, Hf1; auto]]. apply (Fresh (rb_hierarchy r1) _ _ p1); auto; lia.
  - destruct Hleaf as (-> & HS & Hp). rewrite El. intros [= <- <-]. split; [split; [exact Hrd|]; destruct HL as [(fr & Hh & _) _ _ _]; apply Hh|]. intros _. split; [|split; [lia|auto]].
    apply (Fresh (rb_hierarchy r) _ _ p); auto. assert (0 <= q) by (apply Z.div_pos; lia). lia.
Qed.

Definition entry_valid_u (e : Z * RecordRef) : Prop := e.1 <= MaxUint64 /\ ref_u e.2.

Lemma add_all_spec n covered l : forall r S last r' st, rebuilding n covered r S last -> Forall entry_valid_u l -> add_all r l = (r', st) ->
  0 <= rb_entries r -> rb_entries r <= last ->
  rb_grows n r' /\ (st = None -> exists last', rebuilding n covered r' (foldl (fun S e => <[e.1 := e.2]> S) S l) last' /\
    Forall (fun e => last < e.1) l /\ StronglySorted Z.lt (map fst l) /\ rb_entries r' = rb_entries r + len l /\ rb_finished r' = rb_finished r).
Proof.
  induction l as [|[id ref] l IH]; intros r S last r' st H Hv; cbn [add_all].
  { intros [= <- <-] H0 H1. split.
    - destruct H as [Hrd _ _ (S0 & p & [(fr & Hh & _) _ _ _] & _) _ _]. split; [exact Hrd|apply Hh].
    - intros _. exists last. split; [exact H|]. split; [constructor|]. split; [constructor|]. rewrite len_nil. split; [lia|reflexivity]. }
  apply Forall_cons_iff in Hv as [[Hid Hu] Hv]. cbn [fst snd] in *. intros E H0 H1. destruct (Add r id ref) as [r1 st1] eqn:E1.
  destruct (Add_spec n covered r S last id ref r1 st1 H Hid Hu E1) as [G1 P1]. destruct st1 as [e|]; [injection E as <- <-; split; [exact G1|discriminate]|].
  destruct (P1 eq_refl) as (H2 & Hlt & He & Hf). rewrite Z.mod_small in He by lia.
  destruct (IH r1 _ id r' st H2 Hv E ltac:(lia) ltac:(lia)) as [G2 P2]. split; [exact G2|]. intros Est.
  destruct (P2 Est) as (last' & Hr & Hab & Hs & He2 & Hf2). exists last'. split; [exact Hr|]. split; [|split; [|split]].
  - constructor; [exact Hlt|]. eapply Forall_impl; [exact Hab|]. cbn. lia.
  - cbn. constructor; [exact Hs|]. rewrite Forall_map. exact Hab.
  - rewrite len_cons. lia.
  - congruence.
Qed.

Lemma fold_insert_map l : NoDup (map fst l) -> forall S : Entries, (forall id, id ∈ map fst l -> S !! id = None) ->
  foldl (fun S e => <[e.1 := e.2]> S) S l = list_to_map l ∪ S.
Proof.
  induction l as [|[id ref] l IH]; intros Hnd S HS; cbn [foldl list_to_map foldr map fst snd] in *; [now rewrite (left_id_L ∅ (∪))|].
  apply NoDup_cons in Hnd as [Hni Hnd]. rewrite IH; [|exact Hnd|].
  - change (foldr _ ∅ l) with (list_to_map l : Entries). cbn. rewrite <- insert_union_l, insert_union_r by (now apply not_elem_of_list_to_map_1). reflexivity.
  - intros j Hj. rewrite lookup_insert_ne by (intros ->; contradiction). apply HS. now right.
Qed.

Lemma rebuild_spec n covered l r st r' res : ns_ok n -> is_u64 covered -> Forall entry_valid_u l ->
  add_all (NewRebuildBuilder n covered) l = (r, st) ->
  rb_grows n r /\ (st = None -> Finish r = (r', res) -> rb_grows n r' /\
    forall t, res = Ok t -> rx_covered t = covered /\ tree_wf (bd_nodes (rb_hierarchy r')) t /\ Tree_WalkRefs (bd_nodes (rb_hierarchy r')) t = Ok l).
Proof.
  intros Hok Hc Hv E. destruct (add_all_spec n covered l _ _ _ r st (new_rebuilding n covered Hok Hc) Hv E) as [G P]; [cbn; lia|cbn; lia|].
  split; [exact G|]. intros ->. destruct (P eq_refl) as (last & H & Hab & Hs & He & Hf). clear P. cbn in He, Hf.
  rewrite fold_insert_map in H by (try apply sorted_lt_NoDup, Hs; intros; apply lookup_empty). rewrite (right_id_L ∅ (∪)) in H.
  assert (Hwalk : forall n1 t, tree_wf n1 t -> entries n1 t = list_to_map l -> Tree_WalkRefs n1 t = Ok l).
  { intros n1 t Hw Ee. pose proof (tr_walk n1 t Hw) as Ew. cbn in Ew. rewrite Ew, Ee. now rewrite sorted_entries_list. }
  unfold Finish. rewrite Hf. cbn [rb_hierarchy rb_leaf rb_last rb_entries rb_finished]. set (r0 := mkRebuild _ _ _ _ _).
  assert (H0 : rebuilding n covered r0 (list_to_map l) last) by (destruct H; constructor; auto).
  destruct (rb_entries r =? 0) eqn:E0; bool_norm.
  - intros [= <- <-]. split; [exact G|]. intros t Et. apply Open_ok in Et as ->. assert (l = []) as -> by (apply len_zero_nil; lia).
    rewrite (re_covered _ _ _ _ _ H). split; [reflexivity|]. assert (Hw : tree_wf (bd_nodes (rb_hierarchy r)) (mkTree 0 covered true)) by (apply empty_wf; [apply G|exact Hc]).
    split; [exact Hw|reflexivity].
  - destruct (flushLeaf r0) as [r1 st1] eqn:E1. destruct (flushLeaf_spec n covered r0 _ last r1 st1 H0 E1) as [G1 P1].
    destruct st1 as [e|]; [intros [= <- <-]; split; [exact G1|discriminate]|]. destruct (P1 eq_refl) as (p & HL & _ & Ht & Hcv & _).
    destruct (flush_levels _ _) as [h st2] eqn:E2. destruct (flush_all _ _ _ _ _ HL E2) as [G2 P2].
    assert (G3 : forall x1 x2 x3 x4, rb_grows n (mkRebuild h x1 x2 x3 x4)) by (intros; split; cbn; [eapply readable_trans; [apply G1|apply G2]|apply G2]).
    destruct st2 as [e|]; intros [= <- <-]; (split; [apply G3|]); [discriminate|]. intros t Et. apply Open_ok in Et as ->. cbn [rb_hierarchy].
    rewrite (re_covered _ _ _ _ _ H). destruct (P2 eq_refl) as [Hw Ee]. rewrite Hcv in *. split; [reflexivity|]. split; [exact Hw|]. now apply Hwalk.
Qed.

Lemma insert_mutations l : Forall (fun e => RecordRef_IsZero e.2 = false) l -> forall S : Entries,
  apply_mutations S (map (fun e => mkTMutation e.1 e.2) l) = foldl (fun S e => <[e.1 := e.2]> S) S l.
Proof. induction 1 as [|e l He _ IH]; intros S; [reflexivity|]. cbn [map foldl]. rewrite <- IH. unfold apply_mutations. cbn [foldl]. unfold apply_mutation at 2. cbn. now rewrite He. Qed.
End Rebuild.

Section Agreement.
Context {N : Type} `{!NodeStore N} `{!NodeStoreLaws N}.

(** C38: the streaming rebuild agrees with the general builder.  A rebuild that
    received the entries [l] one by one and a build of the same entries as
    mutations of the empty tree, each on its own node store, give trees that walk
    the same list, [l], and answer every lookup alike. *)
Theorem rebuild_matches_build {N2 : Type} `{!NodeStore N2} `{!NodeStoreLaws N2} (n : N) (n2 n2' : N2) covered l r r' t t' d :
  ns_ok n -> ns_ok n2 -> is_u64 covered -> Forall entry_valid_u l ->
  mutations_sorted (map (fun e => mkTMutation e.1 e.2) l) -> Forall (fun e => RecordRef_IsZero e.2 = false) l ->
  add_all (NewRebuildBuilder n covered) l = (r, None) -> Finish r = (r', Ok t) ->
  BuildSorted n2 (mkTree 0 0 true) covered (map (fun e => mkTMutation e.1 e.2) l) = (n2', Ok (t', d)) ->
  Tree_WalkRefs (bd_nodes (rb_hierarchy r')) t = Ok l /\ Tree_WalkRefs n2' t' = Ok l /\
  forall id, 0 < id <= MaxUint64 -> Tree_LookupRef (bd_nodes (rb_hierarchy r')) t id = Tree_LookupRef n2' t' id.
Proof.
  intros H1 H2 Hc Hv Hms Hz Ea Ef Eb. destruct (rebuild_spec n covered l r None r' (Ok t) H1 Hc Hv Ea) as [_ P]. destruct (P eq_refl Ef) as [_ P1].
  destruct (P1 t eq_refl) as (_ & Hw & Ew). assert (Hw0 : tree_wf n2 (mkTree 0 0 true)) by (apply empty_wf; [exact H2|unfold is_u64; lia]).
  destruct (BuildSorted_spec n2 _ covered _ n2' _ Hw0 Hc Hms Eb) as (_ & Hw' & _ & Ee & _). rewrite empty_entries, insert_mutations in Ee by exact Hz.
  destruct Hms as [_ Hs]. rewrite map_map in Hs. cbn in Hs. rewrite fold_insert_map in Ee by (try apply sorted_lt_NoDup, Hs; intros; apply lookup_empty). rewrite (right_id_L ∅ (∪)) in Ee.
  assert (Ew' : Tree_WalkRefs n2' t' = Ok l).
  { pose proof (tr_walk n2' t' Hw') as W. cbn in W. rewrite W, Ee. f_equal. now apply sorted_entries_list. }
  split; [exact Ew|]. split; [exact Ew'|]. intros id Hid. pose proof (tr_lookup (bd_nodes (rb_hierarchy r')) t id Hw Hid) as L1. pose proof (tr_lookup n2' t' id Hw' Hid) as L2. cbn in L1, L2.
  rewrite L1, L2, Ee. unfold entries. now rewrite Ew.
Qed.
End Agreement.
