(* ===== verification/PersistentSched.v ===== *)
(** * The optimistic resolution of the persistent mapping

    [ResolveGroup] (internal/mapping/persistent.go) reads the delta layers under
    the lock, releases it to read the tree, and checks under the lock again that
    the epoch, the covered sequence and the root are the ones it started from.
    Every operation of the mapping may run in between.  An accepted answer is the
    one an undisturbed resolution gives at the moment of the check. *)
From S2P Require Import Prelude Addr Mapping Budget IndexIface TreeIface Persistent PersistentSpec CheckpointSpec.

Section Sched.
Context {N T : Type} `{!TreeStore N T} `{!TreeLaws N T}.
Implicit Types (m : Persistent N T) (fc : FrozenCheckpoint T) (c : CheckpointCandidate T).

(** Anything that may happen to a mapping while no lock is held. *)
Inductive mapping_step : Persistent N T -> Persistent N T -> Prop :=
| ms_foreground m m' : foreground m m' -> mapping_step m m'
| ms_freeze m : mapping_step m (Freeze m (pe_covered m)).1
| ms_build m fc : in_flight m fc -> mapping_step m (BuildCheckpoint m fc).1
| ms_install m c : built m c -> mapping_step m (InstallCheckpoint m c).1
| ms_abort m fc : mapping_step m (AbortCheckpoint m fc).1
| ms_replace m v nodes root : vw_tree v = pe_root m -> tr_ok nodes root -> tr_entries nodes root = base_entries m ->
    mapping_step m (ReplaceCheckpointRoot m v nodes root).1.

(** What a resolution reads. *)
Record same_reads m m' : Prop := mkReads {
  sr_visible : visible m' = visible m;
  sr_covered : pe_covered m' = pe_covered m;
  sr_active : pe_active m' = pe_active m;
}.

Lemma reads_refl m : same_reads m m.
Proof. now constructor. Qed.

Lemma reads_trans m1 m2 m3 : same_reads m1 m2 -> same_reads m2 m3 -> same_reads m1 m3.
Proof. intros [] []. constructor; congruence. Qed.

Lemma reserve_reads m ids : same_reads m (ReserveDelta m ids).1 /\ pe_epoch (ReserveDelta m ids).1 = pe_epoch m.
Proof.
  unfold ReserveDelta. destruct (count_entries _ ∅ 0 ids); [|split; [apply reads_refl|reflexivity]].
  destruct (reserve (pe_pool m) _) as [p [[h|e] pr]].
  - destruct pr; cbn [negb]; [destruct (_ =? _)|]; split; constructor; auto.
  - destruct (_ || _); [|destruct (_ =? _)]; split; constructor; auto.
Qed.

(** A step either leaves what a resolution reads alone or moves the epoch on. *)
Definition epoch_step m m' : Prop := (same_reads m m' /\ pe_epoch m' = pe_epoch m) \/ pe_epoch m' = next_epoch m.

Lemma foreground_epoch m m' : foreground m m' -> epoch_step m m'.
Proof.
  destruct 1 as [m ids|m h|m ps plan rs m' res Hg Hu Hr Hc Hnd Ha Hs Hb E].
  - left. apply reserve_reads.
  - left. split; [constructor|]; reflexivity.
  - right. unfold PublishGroup in E. cbv zeta in E.
    repeat match type of E with (if ?b then (_, Err _) else _) = _ => destruct b; [discriminate E|] end.
    destruct (consume_all _ _ _ _) as [p [charged|e]]; [|discriminate E].
    match type of E with (if ?b then _ else _) = _ => destruct b; [discriminate E|] end.
    destruct (applyPlanLiveStats _ _ _) as [live [u|e]]; [|discriminate E]. now injection E as <- _.
Qed.

Lemma build_epoch m fc : pe_epoch (BuildCheckpoint m fc).1 = pe_epoch m /\ pe_active (BuildCheckpoint m fc).1 = pe_active m.
Proof.
  unfold BuildCheckpoint. cbv zeta. destruct (negb _); [auto|]. destruct (sort_budget _ _ _); [|auto].
  destruct (tr_BuildSorted _ _ _ _) as [n [[tree delta]|e]]; [|auto]. now destruct (tr_Sync n) as [n' [e|]].
Qed.

Lemma step_epoch m m' : pe_ok m -> mapping_step m m' -> pe_ok m' /\ epoch_step m m'.
Proof.
  intros Hm H. destruct H as [m m' H|m|m fc Hf|m c Hb|m fc|m v nodes root Hv Ht He].
  - split; [now apply (foreground_ok m m')|now apply foreground_epoch].
  - destruct (Freeze m (pe_covered m)) as [m' r] eqn:E. pose proof (freeze_ok m m' r Hm E) as (Hm' & _). split; [exact Hm'|]. cbn.
    unfold Freeze in E. destruct (_ || _); [injection E as <- _; left; auto using reads_refl|].
    destruct (_ =? _); [injection E as <- _; left; auto using reads_refl|]. injection E as <- _. now right.
  - destruct (build_epoch m fc) as [Ee Ea]. destruct (BuildCheckpoint m fc) as [m' r] eqn:E. cbn in *.
    destruct (build_ok m fc m' r Hm Hf E) as (Hm' & Hv & Hc & _). split; [exact Hm'|]. left. split; [now constructor|exact Ee].
  - destruct (install_ok m c Hm Hb) as (m' & E & Hm' & _). rewrite E. split; [exact Hm'|]. right. cbn.
    unfold InstallCheckpoint in E. cbv zeta in E. destruct (_ || _); [discriminate|]. destruct (negb _); [discriminate|].
    destruct (total_charge _ _); [|discriminate]. destruct (discharge _ _); [|discriminate]. now injection E as <-.
  - destruct (AbortCheckpoint m fc) as [m' r] eqn:E. destruct (abort_ok m fc m' r Hm E) as (Hm' & Hv & Hc & _). split; [exact Hm'|]. left.
    unfold AbortCheckpoint in E. destruct (_ || _); injection E as <- _; split; constructor; auto.
  - destruct (ReplaceCheckpointRoot m v nodes root) as [m' r] eqn:E.
    destruct (replace_ok m v nodes root m' r Hm Ht He Hv E) as (Hm' & Hvis & Hc). split; [exact Hm'|].
    unfold ReplaceCheckpointRoot in E. destruct (_ || _); injection E as <- _; [left; auto using reads_refl|now right].
Qed.

(** The epoch counts, modulo 2^64, the steps that change something. *)
Lemma steps_epoch k m m' : nsteps mapping_step k m m' -> pe_ok m -> is_u64 (pe_epoch m) ->
  pe_ok m' /\ exists j, 0 <= j <= Z.of_nat k /\ pe_epoch m' = (pe_epoch m + j) mod two64 /\ (j = 0 -> same_reads m m').
Proof.
  induction 1 as [m|k m m1 m' Hs _ IH]; intros Hm Hu.
  { split; [exact Hm|]. exists 0. split; [lia|]. split; [rewrite Z.add_0_r; unfold is_u64 in Hu; rewrite Z.mod_small; lia|auto using reads_refl]. }
  destruct (step_epoch m m1 Hm Hs) as [Hm1 He]. assert (Hu1 : is_u64 (pe_epoch m1)).
  { destruct He as [[_ ->]| ->]; [exact Hu|]. unfold next_epoch, is_u64. pose proof (Z.mod_pos_bound (pe_epoch m + 1) two64). lia. }
  destruct (IH Hm1 Hu1) as (Hm' & j & Hj & Ej & Hr). split; [exact Hm'|]. destruct He as [[Hr1 E1]|E1].
  - exists j. split; [lia|]. split; [now rewrite Ej, E1|]. intros H0. eapply reads_trans; [exact Hr1|now apply Hr].
  - exists (j + 1). split; [lia|]. split; [|lia]. rewrite Ej, E1. unfold next_epoch. rewrite Zplus_mod_idemp_l. f_equal. lia.
Qed.

Lemma stable_reads k m now : nsteps mapping_step k m now -> pe_ok m -> is_u64 (pe_epoch m) -> Z.of_nat k < two64 ->
  stable m now = true -> same_reads m now.
Proof.
  intros Hs Hm Hu Hk E. destruct (steps_epoch k m now Hs Hm Hu) as (_ & j & Hj & Ej & Hr). apply Hr.
  unfold stable in E. bool_norm. unfold is_u64 in Hu. destruct (Z.eq_dec j 0) as [|Hn]; [assumption|exfalso].
  assert (Ew : pe_epoch m = (pe_epoch m + j) mod two64) by congruence.
  destruct (Z_lt_le_dec (pe_epoch m + j) two64); [rewrite Z.mod_small in Ew; lia|].
  rewrite <- (Z.mod_add _ (-1)) in Ew by lia. rewrite Z.mod_small in Ew; lia.
Qed.

(** The same reads give the same answer. *)
Lemma read_same m m' ids : pe_ok m -> pe_ok m' -> same_reads m m' -> Forall (fun id => 0 < id <= MaxUint64) ids ->
  read_values m ids ∅ = read_values m' ids ∅.
Proof.
  intros Hm Hm' [Hv _ _] Hi. destruct (read_values_ok m ids Hm Hi ∅) as (v & -> & Hin & Hout).
  destruct (read_values_ok m' ids Hm' Hi ∅) as (v' & -> & Hin' & Hout'). f_equal. apply map_eq. intros id.
  destruct (decide (id ∈ ids)) as [H|H]; [rewrite Hin, Hin' by exact H; congruence|now rewrite Hout, Hout'].
Qed.

Lemma resolve_from_same m m' ps values : same_reads m m' -> resolve_from m ps values = resolve_from m' ps values.
Proof. intros [_ Hc Ha]. unfold resolve_from. now rewrite Hc, Ha. Qed.

Lemma resolve_unfold m ps : group_ok ps -> ResolveGroup_observing [(m, m)] ps =
  match read_values m (proposalReadSet ps) ∅ with Err e => Some (Err e) | Ok values => Some (resolve_from m ps values) end.
Proof.
  intros (Hne & Hlen & Hv). unfold ResolveGroup_observing. pose proof (len_nonneg ps).
  assert (len ps <> 0) by (intros E; now apply Hne, len_zero_nil).
  replace ((len ps =? 0) || _) with false by (symmetry; apply orb_false_iff; split; [apply Z.eqb_neq|apply Z.ltb_ge]; lia).
  replace (forallb validateProposal ps) with true
    by (symmetry; apply forallb_forall; intros p Hp; rewrite Forall_forall in Hv; now apply Hv, list_elem_of_In).
  cbn [negb resolve_loop]. destruct (read_values _ _ _); [|reflexivity]. unfold stable. now rewrite !Z.eqb_refl.
Qed.
End Sched.

(** A turn of the loop: the state read, then fewer than 2^64 steps of the mapping,
    then the state checked. *)
Definition turn {N T} `{!TreeStore N T} `{!TreeLaws N T} (t : Persistent N T * Persistent N T) : Prop :=
  pe_ok t.1 /\ is_u64 (pe_epoch t.1) /\ exists k, Z.of_nat k < two64 /\ nsteps mapping_step k t.1 t.2.

(** C12: optimistic resolution is linearizable.  Whatever the other operations of
    the mapping do between the turns and inside them (publications, reservations,
    freezes, builds, installs, aborts, root replacements), an answer of the retry
    loop is the answer that resolving without interference gives in the state of
    its last check, so the plan is right for that state and not stale. *)
Theorem optimistic_resolution_linearizable {N T} `{!TreeStore N T} `{!TreeLaws N T}
    (observed : list (Persistent N T * Persistent N T)) ps r :
  group_ok ps -> Forall proposal_u ps -> Forall turn observed -> ResolveGroup_observing observed ps = Some r ->
  exists m now plan, (m, now) ∈ observed /\ pe_ok now /\ r = ResolveGroup now ps /\ r = Ok plan /\
    plan_for (visible now) (pe_covered now) (plan_active now ps) ps plan.
Proof.
  intros Hg Hu Hobs E. assert (El : resolve_loop observed ps = Some r).
  { unfold ResolveGroup_observing in E. destruct Hg as (Hne & Hlen & Hv). pose proof (len_nonneg ps).
    assert (len ps <> 0) by (intros E0; now apply Hne, len_zero_nil).
    replace ((len ps =? 0) || _) with false in E by (symmetry; apply orb_false_iff; split; [apply Z.eqb_neq|apply Z.ltb_ge]; lia).
    replace (forallb validateProposal ps) with true in E
      by (symmetry; apply forallb_forall; intros p Hp; rewrite Forall_forall in Hv; now apply Hv, list_elem_of_In). exact E. }
  clear E. induction Hobs as [|[m now] rest (Hm & He & k & Hk & Hs) _ IH]; [discriminate|]. cbn [fst snd] in *. cbn [resolve_loop] in El.
  destruct (read_values_ok m _ Hm (readset_u ps Hg Hu) ∅) as (values & Ev & _). rewrite Ev in El.
  destruct (stable m now) eqn:Est.
  - destruct (steps_epoch k m now Hs Hm He) as (Hnow & _). pose proof (stable_reads k m now Hs Hm He Hk Est) as Hr.
    destruct (resolve_ok now ps Hnow Hg Hu) as (plan & Ep & Hp). exists m, now, plan.
    split; [constructor|]. split; [exact Hnow|]. assert (Er : r = ResolveGroup now ps); [|split; [exact Er|]; rewrite Ep in Er; auto].
    unfold ResolveGroup. rewrite resolve_unfold by exact Hg.
    rewrite <- (read_same m now _ Hm Hnow Hr (readset_u ps Hg Hu)), Ev, <- (resolve_from_same m now ps values Hr). congruence.
  - destruct (IH El) as (m0 & now0 & plan & Hin & H). exists m0, now0, plan. split; [now constructor|exact H].
Qed.

(** A first turn disturbed by the freeze of a checkpoint, a second one during
    which only a reservation is taken. *)
Definition demo_observed : list (Persistent unit RefTree * Persistent unit RefTree) :=
  [(demo_published, demo_freezing); (demo_freezing, demo_working)].
Definition demo_proposal2 : Proposal := mkProposal ProposalUserCommit [mkCondition 1 (Addr ref_a)] [mkChange 1 (mkRef 0 0) 0 OpDelete].
Definition demo_plan2 : GroupPlan := match ResolveGroup demo_working [demo_proposal2] with Ok p => p | Err _ => mkPlan 0 [] end.

Lemma optimistic_resolution_linearizable_witness :
  resolve_loop [(demo_published, demo_freezing)] [demo_proposal2] = None /\
  exists m now plan, (m, now) ∈ demo_observed /\ Ok demo_plan2 = ResolveGroup now [demo_proposal2] /\ Ok demo_plan2 = Ok plan.
Proof.
  split; [vm_compute; reflexivity|]. pose proof demo_published_ok as H0.
  destruct (freeze_ok _ _ _ H0 demo_freeze) as (H1 & _).
  destruct (optimistic_resolution_linearizable demo_observed [demo_proposal2] (Ok demo_plan2)) as (m & now & plan & Hin & _ & E1 & E2 & _).
  - split; [discriminate|]. split; [vm_compute; discriminate|]. constructor; [vm_compute; reflexivity|constructor].
  - constructor; [|constructor]. unfold proposal_u, proposal_ids, ref_u. cbn. unfold is_u64, is_u32.
    repeat split; repeat constructor; vm_compute; congruence.
  - constructor; [|constructor; [|constructor]].
    + split; [exact H0|]. split; [vm_compute; split; congruence|]. exists 1%nat. split; [reflexivity|].
      apply nsteps_once. exact (ms_freeze demo_published).
    + split; [exact H1|]. split; [vm_compute; split; congruence|]. exists 1%nat. split; [reflexivity|].
      apply nsteps_once. apply ms_foreground. exact (fg_reserve demo_freezing [7]).
  - vm_compute. reflexivity.
  - exists m, now, plan. auto.
Defined.
