(* ===== verification/Drain.v ===== *)
(** * Draining protocols

    Two places hand out leases and promise to close a channel when the last one is
    returned after a shutdown: the owner of a checkpoint root
    ([rootOwner], [pin], [releaseRoot] and [ReplaceCheckpointRoot] of
    internal/mapping/persistent.go) and the store itself
    (internal/engine/lifecycle.go).  Both are modelled action by action, with the
    decisions a goroutine has taken and not yet carried out as part of the state,
    and all interleavings of the actions are considered. *)
From S2P Require Import Prelude.

(** ** The owner of a checkpoint root *)
Module RootOwner.

Record rootOwner := mkOwner { readers : Z; retired : bool; drained : bool }.

(** Where [ReplaceCheckpointRoot] is: it holds the mapping's lock in between. *)
Inductive phase := Idle | Swapped | Stored | Closing | Returned.
#[export] Instance phase_eq_dec : EqDecision phase.
Proof. solve_decision. Defined.

(** [w_reading]: goroutines between [readers.Add(1)] and [readers.Add(-1)];
    [w_zero]: those that got [remaining == 0] and have not loaded [retired];
    [w_closing]: those that loaded true and have not closed the channel. *)
Record world := mkWorld
  { w_owner : rootOwner; w_phase : phase; w_reading : Z; w_zero : Z; w_closing : Z; w_panic : bool }.

Definition init : world := mkWorld (mkOwner 0 false false) Idle 0 0 0 false.

(** Addition on an [atomic.Int64]. *)
Definition add64 (x d : Z) : Z := (x + d + 2 ^ 63) mod two64 - 2 ^ 63.

Definition set_drained (o : rootOwner) : rootOwner := mkOwner (readers o) (retired o) true.

(** [pin]: under the read lock, and only while the owner is the mapping's. *)
Definition pin (w : world) : option world :=
  match w_phase w with
  | Idle => Some (mkWorld (mkOwner (add64 (readers (w_owner w)) 1) (retired (w_owner w)) (drained (w_owner w))) Idle
            (w_reading w + 1) (w_zero w) (w_closing w) (w_panic w))
  | _ => None
  end.

(** [releaseRoot]: [remaining := owner.readers.Add(-1)] and the panic. *)
Definition release_add (w : world) : option world :=
  if w_reading w =? 0 then None
  else
    let remaining := add64 (readers (w_owner w)) (-1) in
    Some (mkWorld (mkOwner remaining (retired (w_owner w)) (drained (w_owner w))) (w_phase w) (w_reading w - 1)
            (if remaining =? 0 then w_zero w + 1 else w_zero w) (w_closing w) (w_panic w || (remaining <? 0))).

(** [remaining == 0 && owner.retired.Load()] *)
Definition release_load (w : world) : option world :=
  if w_zero w =? 0 then None
  else Some (mkWorld (w_owner w) (w_phase w) (w_reading w) (w_zero w - 1)
               (if retired (w_owner w) then w_closing w + 1 else w_closing w) (w_panic w)).

(** [owner.closeOnce.Do(func() { close(owner.drained) })] *)
Definition release_close (w : world) : option world :=
  if w_closing w =? 0 then None
  else Some (mkWorld (set_drained (w_owner w)) (w_phase w) (w_reading w) (w_zero w) (w_closing w - 1) (w_panic w)).

(** [ReplaceCheckpointRoot], one action after the other. *)
Definition replace (w : world) : option world :=
  match w_phase w with
  | Idle => Some (mkWorld (w_owner w) Swapped (w_reading w) (w_zero w) (w_closing w) (w_panic w))
  | Swapped => Some (mkWorld (mkOwner (readers (w_owner w)) true (drained (w_owner w))) Stored (w_reading w) (w_zero w) (w_closing w) (w_panic w))
  | Stored => Some (mkWorld (w_owner w) (if readers (w_owner w) =? 0 then Closing else Returned) (w_reading w) (w_zero w) (w_closing w) (w_panic w))
  | Closing => Some (mkWorld (set_drained (w_owner w)) Returned (w_reading w) (w_zero w) (w_closing w) (w_panic w))
  | Returned => None
  end.

(** At most [MaxInt64] goroutines exist.  [pause] restricts when a replacement
    may begin. *)
Inductive step (pause : world -> Prop) : world -> world -> Prop :=
| st_pin w w' : w_reading w < 2 ^ 63 - 1 -> pin w = Some w' -> step pause w w'
| st_release_add w w' : release_add w = Some w' -> step pause w w'
| st_release_load w w' : release_load w = Some w' -> step pause w w'
| st_release_close w w' : release_close w = Some w' -> step pause w w'
| st_replace w w' : (w_phase w = Idle -> pause w) -> replace w = Some w' -> step pause w w'.

Definition anytime (w : world) : Prop := True.
(** No goroutine is between its decrement to zero and its load of [retired]. *)
Definition no_release_pending (w : world) : Prop := w_zero w = 0.

Record inv (w : world) : Prop := mkInv {
  i_readers : readers (w_owner w) = w_reading w;
  i_counts : 0 <= w_reading w < 2 ^ 63 /\ 0 <= w_zero w /\ 0 <= w_closing w;
  i_panic : w_panic w = false;
  i_retired : retired (w_owner w) = match w_phase w with Idle | Swapped => false | _ => true end;
  i_closing : 0 < w_closing w \/ drained (w_owner w) = true -> retired (w_owner w) = true;
  i_wakeup : w_phase w = Returned -> w_reading w = 0 -> drained (w_owner w) = true \/ 0 < w_zero w \/ 0 < w_closing w;
}.

(** Once the replacement has begun, whoever may close the channel is alone. *)
Definition alone (w : world) : Prop :=
  w_phase w <> Idle -> 0 < w_zero w \/ 0 < w_closing w \/ w_phase w = Closing \/ drained (w_owner w) = true -> w_reading w = 0.

Lemma add64_small x d : - 2 ^ 63 <= x + d < 2 ^ 63 -> add64 x d = x + d.
Proof. intros H. unfold add64. rewrite Z.mod_small; lia. Qed.

(** Case analysis on the action and the phase. *)
Ltac act E :=
  let go := unfold pin, release_add, release_load, release_close, replace in E; cbn in E;
            repeat match type of E with (if ?b then _ else _) = _ => destruct b eqn:?; [discriminate E|]; bool_norm end;
            try discriminate E; injection E as <- in go.
Ltac finish_inv := cbn in *; rewrite ?add64_small in * by lia;
  repeat match goal with |- context [if ?b then _ else _] => destruct b eqn:?; bool_norm end;
  intuition (try lia; try congruence; auto).

Lemma step_inv pause w w' : step pause w w' -> inv w -> inv w'.
Proof.
  intros Hs [R (C1 & C2 & C3) P Q K W].
  destruct Hs as [w w' Hlt E|w w' E|w w' E|w w' E|w w' _ E]; destruct w as [[rd rt dr] ph rg zr cl pn]; cbn in *; subst rd pn;
    destruct ph; cbn in Q; subst rt; act E; constructor; finish_inv.
Qed.

Lemma step_alone w w' : step no_release_pending w w' -> inv w -> alone w -> alone w'.
Proof.
  intros Hs [R (C1 & C2 & C3) P Q K W] Ha. unfold alone, no_release_pending in *.
  destruct Hs as [w w' Hlt E|w w' E|w w' E|w w' E|w w' Hp E]; destruct w as [[rd rt dr] ph rg zr cl pn]; cbn in *; subst rd pn;
    destruct ph; cbn in Q; subst rt; act E; finish_inv.
Qed.

Lemma init_inv : inv init.
Proof. constructor; cbn; intuition (try lia; try congruence). Qed.

Lemma reachable_inv pause w : rtc (step pause) init w -> inv w.
Proof. apply (rtc_ind_r inv); [exact init_inv|]. intros x y _ Hs. now apply (step_inv pause). Qed.

Lemma reachable_alone w : rtc (step no_release_pending) init w -> alone w.
Proof.
  intros H. enough (inv w /\ alone w) by tauto. revert w H. apply (rtc_ind_r (fun w => inv w /\ alone w)).
  - split; [exact init_inv|]. intros H. now exfalso.
  - intros x y _ Hs [Hi Ha]. split; [now apply (step_inv no_release_pending x)|now apply (step_alone x)].
Qed.

(** Work left before everything is at rest. *)
Definition phase_rank (p : phase) : Z := match p with Idle => 4 | Swapped => 3 | Stored => 2 | Closing => 1 | Returned => 0 end.
Definition work (w : world) : Z := 3 * w_reading w + 2 * w_zero w + w_closing w + phase_rank (w_phase w).

(** The drain of a replaced checkpoint root never misses its end.  Under every
    interleaving of pins, releases and the replacement, the reader count is the
    number of readers and the underflow panic is unreachable; once the replacement
    has begun every action uses up work, so the actions end, and as long as the
    drain channel is open some action is still enabled: the channel is closed
    after finitely many.  If no release is between its decrement and its check
    when the replacement begins, a closed channel means that no reader is left. *)
Theorem root_drain pause w : rtc (step pause) init w ->
  readers (w_owner w) = w_reading w /\ w_panic w = false /\ 0 <= work w /\
  (w_phase w <> Idle -> (forall w', step pause w w' -> work w' < work w /\ w_phase w' <> Idle) /\
                        (drained (w_owner w) = true \/ exists w', step pause w w')) /\
  (rtc (step no_release_pending) init w -> drained (w_owner w) = true -> w_reading w = 0 /\ pin w = None).
Proof.
  intros Hr. pose proof (reachable_inv _ _ Hr) as [R (C1 & C2 & C3) P Q K W].
  split; [exact R|]. split; [exact P|]. split; [unfold work; destruct (w_phase w); cbn; lia|]. split.
  - intros Hph. split.
    + intros w' Hs. destruct Hs as [w w' Hlt E|w w' E|w w' E|w w' E|w w' Hp E]; destruct w as [[rd rt dr] ph rg zr cl pn]; cbn in *; subst rd pn;
        destruct ph; cbn in Q; subst rt; act E; unfold work; finish_inv; unfold phase_rank; lia.
    + destruct w as [[rd rt dr] ph rg zr cl pn]. cbn in *. subst rd. destruct dr; [now left|right].
      destruct (Z.eq_dec rg 0) as [->|Hn]; [|eexists; apply st_release_add; unfold release_add; cbn; now destruct (rg =? 0) eqn:E; bool_norm].
      destruct ph; [congruence|eexists; apply st_replace; [discriminate|reflexivity]..|].
      destruct (W eq_refl eq_refl) as [|[H|H]]; [discriminate|..]; eexists.
      * apply st_release_load. unfold release_load. cbn. replace (zr =? 0) with false by (symmetry; apply Z.eqb_neq; lia). reflexivity.
      * apply st_release_close. unfold release_close. cbn. replace (cl =? 0) with false by (symmetry; apply Z.eqb_neq; lia). reflexivity.
  - intros Hq Hd. assert (Hrt : retired (w_owner w) = true) by auto. assert (Hph : w_phase w <> Idle) by (intros E; rewrite Q, E in Hrt; discriminate).
    split; [apply (reachable_alone w Hq); auto|]. unfold pin. now destruct (w_phase w).
Qed.

Lemma root_drain_witness :
  rtc (step anytime) init (mkWorld (mkOwner 1 false false) Idle 1 0 0 false) /\
  readers (w_owner (mkWorld (mkOwner 1 false false) Idle 1 0 0 false)) = 1.
Proof.
  assert (H : rtc (step anytime) init (mkWorld (mkOwner 1 false false) Idle 1 0 0 false)).
  { apply rtc_once, st_pin; vm_compute; reflexivity. }
  split; [exact H|]. exact (proj1 (root_drain anytime _ H)).
Defined.

(** A schedule: A pins and decrements to zero, B pins, the root is replaced while
    B reads, and only now A loads [retired], finds it set and closes the channel. *)
Definition race : list (world -> option world) :=
  [pin; release_add; pin; replace; replace; replace; release_load; release_close].
Definition run_schedule (w : world) (l : list (world -> option world)) : option world :=
  foldl (fun acc f => match acc with Some w => f w | None => None end) (Some w) l.

(** C17: the drain channel may close too early.  There is a schedule after which
    the root is replaced, the channel returned by [ReplaceCheckpointRoot] is
    closed, and a reader of the old root is still active: [releaseRoot] acts on a
    reader count that a later [pin] has already made positive again. *)
Theorem drained_with_reader : exists w, run_schedule init race = Some w /\ rtc (step anytime) init w /\
  w_phase w = Returned /\ drained (w_owner w) = true /\ w_reading w = 1.
Proof.
  exists (mkWorld (mkOwner 1 true true) Returned 1 0 0 false). split; [vm_compute; reflexivity|]. split; [|repeat split].
  apply (rtc_l _ _ (mkWorld (mkOwner 1 false false) Idle 1 0 0 false)); [apply st_pin; vm_compute; reflexivity|].
  apply (rtc_l _ _ (mkWorld (mkOwner 0 false false) Idle 0 1 0 false)); [apply st_release_add; vm_compute; reflexivity|].
  apply (rtc_l _ _ (mkWorld (mkOwner 1 false false) Idle 1 1 0 false)); [apply st_pin; vm_compute; reflexivity|].
  apply (rtc_l _ _ (mkWorld (mkOwner 1 false false) Swapped 1 1 0 false)); [now apply st_replace|].
  apply (rtc_l _ _ (mkWorld (mkOwner 1 true false) Stored 1 1 0 false)); [now apply st_replace|].
  apply (rtc_l _ _ (mkWorld (mkOwner 1 true false) Returned 1 1 0 false)); [now apply st_replace|].
  apply (rtc_l _ _ (mkWorld (mkOwner 1 true false) Returned 1 0 1 false)); [now apply st_release_load|].
  apply rtc_once. now apply st_release_close.
Qed.
End RootOwner.

(** ** The lifecycle of the store *)
Module Lifecycle.

Record storeLifecycle := mkLifecycle { closing : bool; active : Z; drained : bool; canceled : bool; done : bool }.

(** Where [startClose] and the shutdown goroutine it starts are; the flag is the
    local variable [drained]. *)
Inductive phase := Running | Marked (drained : bool) | Canceled (drained : bool) | Shutdown | Finished.

(** [w_ops]: operations between [begin] and their [end]; [w_closers]: calls of
    [end] that decided to close the drain channel and have not done so. *)
Record world := mkWorld { w_l : storeLifecycle; w_phase : phase; w_ops : Z; w_closers : Z }.

Definition newStoreLifecycle : storeLifecycle := mkLifecycle false 0 false false false.
Definition init : world := mkWorld newStoreLifecycle Running 0 0.

Definition set_active (l : storeLifecycle) (n : Z) : storeLifecycle := mkLifecycle (closing l) n (drained l) (canceled l) (done l).
Definition close_drained (l : storeLifecycle) : storeLifecycle := mkLifecycle (closing l) (active l) true (canceled l) (done l).

(** [begin], once the caller's context was found alive. *)
Definition begin (w : world) : world * res unit :=
  if closing (w_l w) then (w, Err [base_ErrClosed])
  else (mkWorld (set_active (w_l w) ((active (w_l w) + 1) mod two64)) (w_phase w) (w_ops w + 1) (w_closers w), Ok tt).

(** The critical section of [end], by one of the operations in flight. *)
Definition end_ (w : world) : option world :=
  if w_ops w =? 0 then None
  else if active (w_l w) =? 0 then Some (mkWorld (w_l w) (w_phase w) (w_ops w - 1) (w_closers w))
  else
    let l := set_active (w_l w) (active (w_l w) - 1) in
    Some (mkWorld l (w_phase w) (w_ops w - 1) (if closing l && (active l =? 0) then w_closers w + 1 else w_closers w)).

(** [l.drainOnce.Do(func() { close(l.drained) })] at the end of [end]. *)
Definition end_close (w : world) : option world :=
  if w_closers w =? 0 then None else Some (mkWorld (close_drained (w_l w)) (w_phase w) (w_ops w) (w_closers w - 1)).

(** [startClose] up to the start of the shutdown goroutine, which waits for the
    drain channel before it releases anything and then closes [done]. *)
Definition startClose (w : world) : option world :=
  let l := w_l w in
  match w_phase w with
  | Running => Some (mkWorld (mkLifecycle true (active l) (drained l) (canceled l) (done l)) (Marked (active l =? 0)) (w_ops w) (w_closers w))
  | Marked d => Some (mkWorld (mkLifecycle (closing l) (active l) (drained l) true (done l)) (Canceled d) (w_ops w) (w_closers w))
  | Canceled d => Some (mkWorld (if d then close_drained l else l) Shutdown (w_ops w) (w_closers w))
  | Shutdown =>
      if drained l then Some (mkWorld (mkLifecycle (closing l) (active l) (drained l) (canceled l) true) Finished (w_ops w) (w_closers w)) else None
  | Finished => None
  end.

(** Fewer than 2^64 operations are in flight at once. *)
Inductive step : world -> world -> Prop :=
| st_begin w w' : w_ops w < MaxUint64 -> begin w = (w', Ok tt) -> step w w'
| st_end w w' : end_ w = Some w' -> step w w'
| st_end_close w w' : end_close w = Some w' -> step w w'
| st_startClose w w' : startClose w = Some w' -> step w w'.

Definition must_close (p : phase) : bool := match p with Marked d | Canceled d => d | _ => false end.
Definition before_shutdown (p : phase) : bool := match p with Marked _ | Canceled _ => true | _ => false end.

Record inv (w : world) : Prop := mkInv {
  i_active : active (w_l w) = w_ops w;
  i_counts : 0 <= w_ops w <= MaxUint64 /\ 0 <= w_closers w;
  i_closing : closing (w_l w) = match w_phase w with Running => false | _ => true end;
  i_canceled : canceled (w_l w) = match w_phase w with Running | Marked _ => false | _ => true end;
  i_done : done (w_l w) = match w_phase w with Finished => true | _ => false end;
  i_finished : w_phase w = Finished -> drained (w_l w) = true;
  i_drained : 0 < w_closers w \/ must_close (w_phase w) = true \/ drained (w_l w) = true -> closing (w_l w) = true /\ w_ops w = 0;
  i_wakeup : closing (w_l w) = true -> w_ops w = 0 -> drained (w_l w) = true \/ 0 < w_closers w \/ must_close (w_phase w) = true;
}.

Ltac act E :=
  unfold begin, end_, end_close, startClose, set_active, close_drained in E; cbn in E;
  repeat match type of E with context [if ?b then _ else _] => destruct b eqn:?; bool_norm; try discriminate E end;
  try discriminate E; injection E as <-.
Ltac finish_inv := cbn in *; rewrite ?Z.mod_small in * by lia; intuition (try lia; try congruence; auto).

Lemma life_step_inv w w' : step w w' -> inv w -> inv w'.
Proof.
  intros Hs [A (C1 & C2) C K D F S W].
  destruct Hs as [w w' Hlt E|w w' E|w w' E|w w' E]; destruct w as [[cg ac dr cn dn] ph ops cls]; cbn in *; subst ac cg cn dn.
  - destruct ph; act E; constructor; finish_inv.
  - destruct ph; act E; constructor; finish_inv.
  - destruct ph; act E; constructor; finish_inv.
  - destruct ph; act E; constructor; finish_inv.
Qed.

Lemma life_init_inv : inv init.
Proof. constructor; cbn; intuition (try lia; try congruence). Qed.

Lemma life_reachable_inv w : rtc step init w -> inv w.
Proof. apply (rtc_ind_r inv); [exact life_init_inv|]. intros x y _ Hs. now apply life_step_inv. Qed.

Definition phase_rank (p : phase) : Z := match p with Running => 4 | Marked _ => 3 | Canceled _ => 2 | Shutdown => 1 | Finished => 0 end.
Definition work (w : world) : Z := 2 * w_ops w + w_closers w + phase_rank (w_phase w).

(** C16: the store shuts down safely and completely.  Under every interleaving,
    [active] counts the operations in flight; after [startClose] has begun no
    operation is admitted; the drain channel is closed only when no operation is
    left, and [done] only after that; once closing has begun every action uses up
    work and, until [done] is closed, some action is enabled, so shutdown always
    completes when the operations in flight end. *)
Theorem store_drain w : rtc step init w ->
  active (w_l w) = w_ops w /\ 0 <= work w /\
  (closing (w_l w) = true -> begin w = (w, Err [base_ErrClosed])) /\
  (drained (w_l w) = true -> closing (w_l w) = true /\ w_ops w = 0) /\
  (done (w_l w) = true -> drained (w_l w) = true /\ canceled (w_l w) = true) /\
  (closing (w_l w) = true -> (forall w', step w w' -> work w' < work w /\ closing (w_l w') = true) /\
                             (done (w_l w) = true \/ exists w', step w w')).
Proof.
  intros Hr. pose proof (life_reachable_inv _ Hr) as [A (C1 & C2) C K D F S W]. destruct w as [[cg ac dr cn dn] ph ops cls]. cbn in *. subst ac.
  split; [reflexivity|]. split; [unfold work; destruct ph; cbn; lia|]. split; [intros ->; reflexivity|]. split; [auto|].
  split; [destruct ph; subst; try discriminate; auto|]. intros Hc. split.
  - intros w' Hs. inversion Hs as [? ? Hlt E|? ? E|? ? E|? ? E]; subst; destruct ph; cbn in *; try discriminate;
      act E; unfold work; finish_inv; unfold phase_rank; lia.
  - destruct ph as [|d|d| |]; cbn in *; subst; try discriminate.
    + right. eexists. now apply st_startClose.
    + right. eexists. now apply st_startClose.
    + right. destruct dr; [eexists; now apply st_startClose|].
      destruct (Z.eq_dec ops 0) as [->|Hn].
      * destruct (W eq_refl eq_refl) as [|[H|]]; try discriminate. eexists. apply st_end_close. unfold end_close. cbn.
        replace (cls =? 0) with false by (symmetry; apply Z.eqb_neq; lia). reflexivity.
      * eexists. apply st_end. unfold end_. cbn. replace (ops =? 0) with false by (symmetry; apply Z.eqb_neq; lia). reflexivity.
    + now left.
Qed.

Lemma store_drain_witness :
  rtc step init (begin init).1 /\ active (w_l (begin init).1) = 1.
Proof.
  assert (H : rtc step init (begin init).1) by (apply rtc_once, st_begin; reflexivity).
  split; [exact H|]. exact (proj1 (store_drain _ H)).
Defined.
End Lifecycle.
