(* ===== verification/Stack.v ===== *)
(** * The layers together

    A small store from the manifest files up to the radix tree: a catalog manager
    over its directory, the mapping files with one node in the active segment, and
    trees built on them.  It instantiates the theorems of the layers at concrete
    inputs. *)
From S2P Require Import Prelude Bytes Addr Crc32 RecordFormat RecordCodec MapNode MapSegment Fs FsDisk NodeIface MapStore MapScan MapStoreSpec Rotation RotationSpec Catalog CatalogSpec CatalogCodec CatalogFiles CatalogStore Mapping TreeIface Radix RadixSpec RadixBuild RadixTree RadixRebuild.

Definition demo_enc : enc := (sample_build, match EncodeNode sample_build with Ok src => src | Err _ => [] end).
Definition demo_snap : CatalogSnapshot := mapStoreSnapshot demo_manifest.
Definition demo_segment : segmentFile := mkSegment 0 (headerFor demo_snap 1) (old_summary demo_snap [demo_enc]).
Definition demo_store : Store := mkStore demo_snap demo_segment ∅ 2 false false.
Definition demo_files (faults : list fault) : os mpath manager :=
  mkOs {[PActive 1 := 0%nat]} {[0%nat := active_image demo_snap [demo_enc]]} 1 faults (demo_dir []).

Lemma sample_build_u : build_u sample_build.
Proof.
  constructor; cbn [sample_build nb_Level nb_NodeSeq nb_Prefix nb_CoveredCommitSeq nb_Slots nb_Sizes]; try (unfold is_u8, is_u64; lia);
    (split; [reflexivity|]); repeat apply Forall_insert; try (unfold is_u32, is_u64; lia); apply Forall_replicate; unfold is_u32, is_u64; lia.
Qed.

Lemma demo_enc_ok : enc_ok demo_enc.
Proof. split; [exact sample_build_u|]. vm_compute. reflexivity. Qed.

Lemma demo_nodes_ok : nodes_ok [demo_enc].
Proof. constructor; [constructor; [exact demo_enc_ok|constructor]|]. split; [reflexivity|exact I]. Qed.

Lemma demo_body : len (body [demo_enc]) = 152.
Proof. vm_compute. reflexivity. Qed.

Lemma demo_header_u : header_u (headerFor demo_snap 1) /\ validSegmentHeader (headerFor demo_snap 1) = true.
Proof. split; [|vm_compute; reflexivity]. apply (headerFor_u demo_snap 1); [apply snapshot_range, demo_manifest_u|unfold is_u32; lia]. Qed.

Lemma demo_manager_ok : manager_ok (demo_dir []).
Proof.
  constructor; [apply demo_dir_wf|exact demo_manifest_u|exact demo_manifest_serves|apply demo_dir_holds|].
  exists demo_manifest. split; [vm_compute; reflexivity|]. split; [exact demo_manifest_u|]. split; [exact demo_manifest_serves|]. split; [apply demo_dir_holds|now left].
Qed.

Lemma demo_store_ok faults : store_ok (demo_files faults) demo_store.
Proof.
  constructor; [|split; reflexivity|intros id sg E; cbn [demo_store st_sealed] in E; now rewrite lookup_empty in E|cbn; lia|exact demo_manager_ok].
  exists [demo_enc]. split; [|reflexivity]. constructor.
  - exists []. rewrite app_nil_r. reflexivity.
  - reflexivity.
  - exact demo_header_u.
  - exact demo_nodes_ok.
  - rewrite demo_body. vm_compute. discriminate.
  - cbn. lia.
Qed.

Lemma demo_rotatable : rotatable demo_snap [demo_enc].
Proof.
  constructor; try (rewrite ?demo_body; vm_compute; (reflexivity || discriminate)).
  - apply snapshot_range, demo_manifest_u.
  - exact demo_nodes_ok.
Qed.

Lemma demo_due faults : due demo_snap [demo_enc] ∅ demo_store (demo_files faults).
Proof.
  split; [|repeat split]. constructor.
  - constructor; cbn; [intros p q f [<- _]%lookup_singleton_Some [<- _]%lookup_singleton_Some; reflexivity|intros p f [_ <-]%lookup_singleton_Some; lia].
  - unfold disk. cbn [demo_files os_names]. rewrite map_fmap_singleton. apply map_eq. intros p. unfold dsk, put.
    destruct (decide (p = PActive 1)) as [->|Hp].
    + rewrite lookup_singleton_eq. do 2 (rewrite lookup_partial_alter_ne by discriminate). now rewrite lookup_partial_alter_eq.
    + rewrite lookup_singleton_ne by congruence. symmetry.
      change (cs_ActiveSegment demo_snap) with 1. change (cs_NextSegment demo_snap) with 2.
      repeat match goal with |- partial_alter _ ?q _ !! p = None => destruct (decide (p = q)) as [->|]; [now rewrite lookup_partial_alter_eq|rewrite lookup_partial_alter_ne by congruence] end.
      apply lookup_empty.
  - split; [exact demo_manager_ok|]. split; [reflexivity|]. split; [vm_compute; reflexivity|]. intros _. split; vm_compute; [discriminate|reflexivity].
Qed.

(** ** The theorems at these inputs *)

(** The fifth call of the rotation and the second one of the first recovery fail. *)
Definition demo_faults : list fault := [None; None; None; None; Some 5%nat].

Lemma rotation_crash_safe_witness :
  (rotate demo_store (demo_files [])).2.2 = None /\ is_Some (rotate demo_store (demo_files demo_faults)).2.2 /\
  exists o' st, recoverRotation (restart (reopen [[None; Some 0%nat]; [Some 3%nat]] (rotate demo_store (demo_files demo_faults)).1) []) = (o', Ok st) /\
    snapshot_valid st = true /\ nodes_on_disk demo_snap [demo_enc] o'.
Proof.
  destruct (rotation_crash_safe demo_snap [demo_enc] ∅ demo_store (demo_files []) [] demo_rotatable (demo_due [])) as (H1 & _).
  destruct (rotation_crash_safe demo_snap [demo_enc] ∅ demo_store (demo_files demo_faults) [[None; Some 0%nat]; [Some 3%nat]] demo_rotatable (demo_due demo_faults)) as (_ & _ & o' & st & H2 & _ & _ & H3 & H4).
  split; [exact (H1 eq_refl)|]. split; [vm_compute; eauto|]. exists o', st. auto.
Defined.

Lemma scan_repairs_tail_witness : let data := image (headerFor demo_snap 1) [demo_enc] ++ take 100 demo_enc.2 in
  scanNodesWithVisitor data (headerFor demo_snap 1) (len data) 0 = Ok (summary_of 1 [demo_enc], true, visits_from 64 [demo_enc]).
Proof.
  apply (scan_repairs_tail (headerFor demo_snap 1) (proj1 demo_header_u) (proj2 demo_header_u) [demo_enc] demo_enc 100 0 demo_nodes_ok);
    [reflexivity|exact demo_enc_ok|apply Nat.ltb_lt; vm_compute; reflexivity|vm_compute; discriminate|discriminate].
Defined.

Lemma append_keeps_nodes_witness : let '(o', (s', r)) := appendBuild demo_store sample_build (demo_files []) in
  store_ok o' s' /\ is_ok r = true /\ is_ok (Store_Read o' s' 4294967360) = true.
Proof.
  destruct (appendBuild demo_store sample_build (demo_files [])) as [o' [s' r]] eqn:E.
  destruct (append_keeps_nodes _ _ _ o' s' r (demo_store_ok []) sample_build_u E) as (H1 & H2 & _). split; [exact H1|].
  assert (H0 : is_ok (Store_Read (demo_files []) demo_store 4294967360) = true) by (vm_compute; reflexivity).
  destruct (Store_Read (demo_files []) demo_store 4294967360) as [nd|] eqn:Er; [|discriminate H0]. rewrite (H2 _ _ Er). split; [|reflexivity].
  change r with (o', (s', r)).2.2. rewrite <- E. vm_compute. reflexivity.
Defined.

(** Two entries in different leaves. *)
Definition demo_entries : list (Z * RecordRef) := [(7, mkRef 4294967360 40); (1000, mkRef 4294967400 40)].
Definition demo_mutations : list TMutation := map (fun e => mkTMutation e.1 e.2) demo_entries.
Definition demo_nodes : files manager := (demo_files [], demo_store).
Definition demo_tree : Tree := mkTree 0 0 true.

Lemma demo_nodes_wf : ns_ok demo_nodes.
Proof. exact (demo_store_ok []). Qed.

Lemma demo_tree_wf : tree_wf demo_nodes demo_tree.
Proof. apply empty_wf; [exact demo_nodes_wf|unfold is_u64; lia]. Qed.

Lemma demo_mutations_sorted : mutations_sorted demo_mutations.
Proof.
  split; [|repeat constructor]. repeat constructor; try lia; cbn; unfold is_u64, is_u32; try lia; vm_compute; reflexivity.
Qed.

Lemma radix_build_refines_witness : let '(n', r) := BuildSorted demo_nodes demo_tree 9 demo_mutations in
  exists t' d, r = Ok (t', d) /\ Tree_LookupRef n' t' 1000 = Ok (Some (mkRef 4294967400 40)) /\ Tree_WalkRefs n' t' = Ok demo_entries /\ ed_Added d = 2.
Proof.
  assert (Hok : is_ok (BuildSorted demo_nodes demo_tree 9 demo_mutations).2 = true) by (vm_compute; reflexivity).
  destruct (BuildSorted demo_nodes demo_tree 9 demo_mutations) as [n' r] eqn:E. destruct r as [[t' d]|e]; [|discriminate Hok].
  destruct (radix_build_refines demo_nodes demo_tree 9 demo_mutations n' _ demo_tree_wf demo_mutations_sorted ltac:(unfold is_u64; lia) E) as [_ H].
  destruct (H t' d eq_refl) as (_ & _ & H1 & H2 & H3 & _). exists t', d. split; [reflexivity|]. rewrite (H1 1000) by lia. rewrite H2, H3. vm_compute. auto.
Defined.

Lemma rebuild_matches_build_witness : exists n r t n' t', rb_hierarchy r = n /\ Tree_WalkRefs (bd_nodes n) t = Ok demo_entries /\ Tree_WalkRefs n' t' = Ok demo_entries /\
  Tree_LookupRef (bd_nodes n) t 1000 = Tree_LookupRef (N := files manager) n' t' 1000.
Proof.
  assert (Ha : (add_all (NewRebuildBuilder demo_nodes 9) demo_entries).2 = None) by (vm_compute; reflexivity).
  assert (Hf : is_ok (Finish (add_all (NewRebuildBuilder demo_nodes 9) demo_entries).1).2 = true) by (vm_compute; reflexivity).
  assert (Hb : is_ok (BuildSorted demo_nodes demo_tree 9 demo_mutations).2 = true) by (vm_compute; reflexivity).
  destruct (add_all (NewRebuildBuilder demo_nodes 9) demo_entries) as [r st] eqn:Ea. cbn [fst snd] in *. subst st.
  destruct (Finish r) as [r' [t|e]] eqn:Ef; [|discriminate Hf]. destruct (BuildSorted demo_nodes demo_tree 9 demo_mutations) as [n' [[t' d]|e]] eqn:Eb; [|discriminate Hb].
  destruct (rebuild_matches_build demo_nodes demo_nodes n' 9 demo_entries r r' t t' d demo_nodes_wf demo_nodes_wf) as (H1 & H2 & H3); auto.
  - unfold is_u64. lia.
  - repeat constructor; cbn; unfold is_u64, is_u32; lia.
  - exact demo_mutations_sorted.
  - repeat constructor.
  - exists (rb_hierarchy r'), r', t, n', t'. split; [reflexivity|]. split; [exact H1|]. split; [exact H2|]. apply H3. lia.
Defined.

Lemma push_terminates_witness : push_with (fun b => (b, None)) (8 - 0 + 100) (start_builder demo_nodes demo_tree 9) 0 3 4294967360 = push 8 (start_builder demo_nodes demo_tree 9) 0 3 4294967360.
Proof. apply (push_terminates (fun b => (b, None)) (fun b => (b, Some [radix_ErrCorrupt])) (start_builder demo_nodes demo_tree 9) 0 3 4294967360 100). lia. Defined.
