(* ===== verification/LogStack.v ===== *)
(** * The record log over the catalog

    A log of one segment with one record, on the catalog manager of [Stack]; it
    instantiates the theorems of the record log at concrete inputs. *)
From S2P Require Import Prelude Bytes Addr Crc32 RecordFormat Fs FsDisk Catalog CatalogSpec CatalogFiles CatalogStore LogSegment LogRotate LogScan LogRotation LogRotationSpec CatalogLog LogRegistry LogState LogQueue LogCrash LogData LogAcks LogCompaction LogCompactionSpec Mapping SegmentStats SegmentStatsSpec Stack.

Definition demo_log : LogSnapshot := recordLogSnapshot demo_manifest.
Definition demo_addr : Z := match NewVAddr 1 64 40 with Ok a => a | Err _ => 0 end.
Definition demo_record : LogRecord := (mkAppend demo_addr (mkPos 1 104), [1; 2; 3]).
Definition demo_header : SegmentHeader := old_header demo_log.
Definition demo_active : activeSegment := mkActive (Some 0%nat) demo_header 104 demo_addr demo_addr 1 false false.
Definition demo_entry : registryEntry := mkEntry segmentActive (Some demo_active) None 0.
Definition demo_registry : segmentRegistry := match newSegmentRegistry demo_active [] with Ok r => r | Err _ => mkRegistry ∅ 0 ∅ 0 0 true end.
Definition demo_log_files (faults : list fault) : os lpath manager :=
  mkOs {[LActive 1 := 0%nat]} {[0%nat := log_image demo_header [demo_record]]} 1 faults (demo_dir []).

Lemma demo_recs : log_recs demo_header [demo_record].
Proof.
  constructor; [|vm_compute; discriminate]. split; [|exact I]. constructor; try (vm_compute; reflexivity). repeat constructor; unfold is_u8; lia.
Qed.

Lemma demo_log_rotatable : log_rotatable demo_log [demo_record].
Proof. constructor; [apply log_range, demo_manifest_u|vm_compute; reflexivity|exact demo_recs|vm_compute; reflexivity|vm_compute; reflexivity]. Qed.

Lemma demo_registered : registered demo_log demo_registry 0 demo_active demo_entry.
Proof. constructor; vm_compute; auto. Qed.

Lemma demo_rotating : rotating demo_log [demo_record] demo_active 0.
Proof. split; [reflexivity|split; [reflexivity|split; [reflexivity|vm_compute; reflexivity]]]. Qed.

Lemma demo_log_disk faults : at_disk (ldsk demo_log ∅ None None (Some (log_image demo_header [demo_record])) None None None) (lcatalog_at True demo_log [demo_record] demo_log) (demo_log_files faults).
Proof.
  constructor.
  - constructor; cbn; [intros p q f [<- _]%lookup_singleton_Some [<- _]%lookup_singleton_Some; reflexivity|intros p f [_ <-]%lookup_singleton_Some; lia].
  - unfold disk. cbn [demo_log_files os_names]. rewrite map_fmap_singleton. apply map_eq. intros p. unfold ldsk, lput.
    destruct (decide (p = LActive 1)) as [->|Hp].
    + rewrite lookup_singleton_eq. do 2 (rewrite lookup_partial_alter_ne by discriminate). now rewrite lookup_partial_alter_eq.
    + rewrite lookup_singleton_ne by congruence. symmetry.
      change (ls_ActiveSegmentID demo_log) with 1. change (ls_NextSegmentID demo_log) with 2.
      repeat match goal with |- partial_alter _ ?q _ !! p = None => destruct (decide (p = q)) as [->|]; [now rewrite lookup_partial_alter_eq|rewrite lookup_partial_alter_ne by congruence] end.
      apply lookup_empty.
  - split; [exact demo_manager_ok|]. split; [reflexivity|]. split; [vm_compute; reflexivity|]. intros _ _. constructor; [split; vm_compute; [discriminate|reflexivity]|vm_compute; discriminate|constructor].
Qed.

(** The sixth call of the rotation and one call of each recovery fail. *)
Definition demo_log_faults : list fault := [None; None; None; None; None; Some 5%nat].

Lemma log_rotation_crash_safe_witness :
  is_ok (rotate demo_registry 0 demo_active (demo_log_files [])).2.2 = true /\ is_ok (rotate demo_registry 0 demo_active (demo_log_files demo_log_faults)).2.2 = false /\
  exists o' st, recover_log (log_restart (log_reopen [[None; Some 0%nat]; [Some 3%nat]] (rotate demo_registry 0 demo_active (demo_log_files demo_log_faults)).1) []) = (o', Ok st) /\
    log_snapshot_valid st = true /\ records_on_disk demo_log [demo_record] o'.
Proof.
  destruct (log_rotation_crash_safe demo_log [demo_record] ∅ demo_registry 0 demo_active demo_entry 0 (demo_log_files []) [] demo_log_rotatable demo_registered demo_rotating eq_refl (demo_log_disk []) eq_refl) as (H1 & _).
  destruct (log_rotation_crash_safe demo_log [demo_record] ∅ demo_registry 0 demo_active demo_entry 0 (demo_log_files demo_log_faults) [[None; Some 0%nat]; [Some 3%nat]] demo_log_rotatable demo_registered demo_rotating eq_refl (demo_log_disk _) eq_refl) as (_ & _ & o' & st & H2 & _ & _ & H3 & H4).
  split; [exact (H1 eq_refl)|]. split; [vm_compute; reflexivity|]. exists o', st. auto.
Defined.

(** ** Running the queue *)

(** The steps of [world_step] a client, a reader or the writer can take, executable. *)
Inductive event := EAcquire (payload : list Z) (sync : bool) | EAbandon | ESend | EClose | EStop | EPin (id : Z) | EWriter (ctxErr : option goerror).

Section Events.
Context {C : Type} `{!LogPort C}.

Definition exec (W : world C) (e : event) : option (world C) :=
  let l := wd_log W in
  match e with
  | EAcquire payload sync =>
      match decide (bytes_ok payload), append_acquire l payload sync with
      | left _, Return (Ok (l, q)) => Some (mkWorld l (wd_writer W) (wd_pc W) (wd_os W) (q :: wd_held W) (wd_gone W) (<[q := payload]> (wd_given W)) (wd_stop W))
      | _, _ => None
      end
  | EAbandon => match wd_held W with q :: held => Some (mkWorld (append_abandon l q) (wd_writer W) (wd_pc W) (wd_os W) held (q :: wd_gone W) (wd_given W) (wd_stop W)) | [] => None end
  | ESend =>
      match wd_held W, lg_closing l with
      | q :: held, false => match append_send l q with Some l => Some (mkWorld l (wd_writer W) (wd_pc W) (wd_os W) held (wd_gone W) (wd_given W) (wd_stop W)) | None => None end
      | _, _ => None
      end
  | EClose => if lg_closing l then None else Some (with_log W (close_submit l))
  | EStop =>
      match lg_closing l, wd_stop W, new_request l stop_request with
      | true, false, (l, q) => match append_send l q with Some l => Some (mkWorld l (wd_writer W) (wd_pc W) (wd_os W) (wd_held W) (wd_gone W) (wd_given W) true) | None => None end
      | _, _, _ => None
      end
  | EPin id => match pin (lg_registry l) id with Ok (r, _) => Some (with_log W (set_registry l r)) | Err _ => None end
  | EWriter ctxErr => writer_turn W ctxErr
  end.

Lemma exec_sound W e W' : exec W e = Some W' -> world_step W W'.
Proof.
  destruct e; cbn [exec]; intros H.
  - destruct (decide _) as [Hb|]; [|discriminate]. destruct (append_acquire _ _ _) as [[[l q]|]|] eqn:E; try discriminate. injection H as <-. exact (ws_acquire W payload sync l q Hb E).
  - destruct (wd_held W) as [|q held] eqn:E; [discriminate|]. injection H as <-. apply ws_abandon. now rewrite E.
  - destruct (wd_held W) as [|q held] eqn:E; [discriminate|]. destruct (lg_closing _) eqn:Ec; [discriminate|]. destruct (append_send _ _) as [l|] eqn:Es; [|discriminate]. injection H as <-. apply (ws_send W held q l); [now rewrite E|exact Ec|exact Es].
  - destruct (lg_closing _) eqn:Ec; [discriminate|]. injection H as <-. now apply ws_close.
  - destruct (lg_closing _) eqn:Ec; [|discriminate]. destruct (wd_stop W) eqn:Ew; [discriminate|]. destruct (new_request _ _) as [l q] eqn:En. destruct (append_send l q) as [l'|] eqn:Es; [|discriminate]. injection H as <-. now apply (ws_stop W l q l').
  - destruct (pin _ id) as [[r p]|] eqn:E; [|discriminate]. injection H as <-. now apply (ws_pin W id r p).
  - now apply ws_writer in H.
Qed.

Fixpoint exec_all (es : list event) (W : world C) : option (world C) :=
  match es with
  | [] => Some W
  | e :: es => match exec W e with Some W => exec_all es W | None => None end
  end.

Lemma exec_all_sound es W W' : exec_all es W = Some W' -> rtc world_step W W'.
Proof.
  revert W. induction es as [|e es IH]; intros W H; [injection H as <-; reflexivity|]. cbn in H. destruct (exec W e) as [W1|] eqn:E; [|discriminate]. exact (rtc_l _ _ _ _ (exec_sound _ _ _ E) (IH _ H)).
Qed.

(** The state after [es]. *)
Definition after (es : list event) (W : world C) : world C := default W (exec_all es W).

Lemma after_sound es W : is_Some (exec_all es W) -> rtc world_step W (after es W).
Proof. intros [W' E]. unfold after. rewrite E. exact (exec_all_sound _ _ _ E). Qed.
End Events.

(** ** The demonstration *)

Definition demo_cfg : Config := mkConfig 8192 4 4096 8.
Definition demo_new : res (Log * writer) := newLog demo_cfg (ls_MaxPayloadBytes demo_log) demo_active demo_registry.
Definition demo_world : world manager := match demo_new with Ok (l, w) => opened l w (demo_log_files []) | Err _ => opened (mkLog demo_cfg 0 [] ∅ 0 (newByteBudget 0) demo_registry false ∅ (mkStatus (mkMarks (mkPos 0 0) (mkPos 0 0) (mkPos 0 0)) 0 0 0 0 0 false false) None) (mkWriter 0 None [] [] 0 [] false 0 0 None) (demo_log_files []) end.

(** Two appends are acquired and sent; the writer stages them, flushes and syncs. *)
Definition demo_events : list event := [EAcquire [7; 7] true; ESend; EAcquire [8] false; EPin 1; ESend; EWriter None; EWriter None; EWriter None].

Definition demo_l : Log := wd_log demo_world.
Definition demo_w : writer := wd_writer demo_world.

Lemma demo_started : newLog demo_cfg (ls_MaxPayloadBytes demo_log) demo_active demo_registry = Ok (demo_l, demo_w).
Proof. vm_compute. reflexivity. Qed.

Lemma demo_reaches n : (n <= 8)%nat -> rtc world_step (opened demo_l demo_w (demo_log_files [])) (after (take n demo_events) demo_world).
Proof.
  intros Hn. change (opened demo_l demo_w (demo_log_files [])) with demo_world. apply after_sound.
  do 9 (destruct n as [|n]; [apply (bool_decide_unpack _); vm_compute; exact I|]). lia.
Qed.

(** One append is queued and one is held: 80 bytes. *)
Lemma queue_budget_exact_witness : bb_used (lg_budget (wd_log (after (take 3 demo_events) demo_world))) = 80 /\
  bb_used (lg_budget (wd_log (after (take 3 demo_events) demo_world))) = bytes_held (wd_log (after (take 3 demo_events) demo_world)) (wd_held (after (take 3 demo_events) demo_world) ++ queued (wd_log (after (take 3 demo_events) demo_world)) (wd_writer (after (take 3 demo_events) demo_world))).
Proof.
  destruct (queue_budget_exact demo_cfg (ls_MaxPayloadBytes demo_log) demo_active demo_registry demo_l demo_w (demo_log_files []) (after (take 3 demo_events) demo_world) demo_started ltac:(cbn; lia) (demo_reaches 3 ltac:(lia))) as (_ & _ & H).
  split; [vm_compute; reflexivity|exact H].
Defined.

(** Both are queued; one context has ended when the writer takes the second. *)
Lemma appends_answered_witness : (measure (after (take 5 demo_events) demo_world) <= 20)%nat /\
  queued (wd_log (run_writer (fun n => if Nat.even n then Some [recordlog_ErrClosed] else None) 20 (after (take 5 demo_events) demo_world))) (wd_writer (run_writer (fun n => if Nat.even n then Some [recordlog_ErrClosed] else None) 20 (after (take 5 demo_events) demo_world))) = [].
Proof.
  assert (Hm : (measure (after (take 5 demo_events) demo_world) <= 20)%nat) by (apply Nat.leb_le; vm_compute; reflexivity). split; [exact Hm|].
  apply (appends_answered demo_cfg (ls_MaxPayloadBytes demo_log) demo_active demo_registry demo_l demo_w (demo_log_files []) (after (take 5 demo_events) demo_world) _ 20 demo_started ltac:(cbn; lia) (demo_reaches 5 ltac:(lia)) Hm).
Defined.

Lemma demo_log_at : log_at demo_log [demo_record] ∅ demo_registry demo_active (demo_log_files []) 0 demo_entry 0.
Proof.
  destruct (demo_log_disk []) as [Hwf _ (H1 & H2 & H3 & _)]. constructor.
  - split; [|vm_compute; reflexivity]. split; [exact H1|]. split; [exact H2|]. split; [exact H3|intros []].
  - exact demo_recs.
  - split; [exact demo_registered|]. intros x e E. assert (Hm : map_to_list (rg_heap demo_registry) = [(0%nat, demo_entry)]) by (vm_compute; reflexivity). apply elem_of_map_to_list in E. rewrite Hm in E. apply list_elem_of_singleton in E. injection E as -> ->. vm_compute. split; [lia|discriminate].
  - split; [exact demo_rotating|reflexivity].
  - split; [exact Hwf|]. split; [|reflexivity]. reflexivity.
  - constructor; [split; reflexivity|intros i Hi|intros i Hi; cbn [demo_log_files os_names]; apply lookup_singleton_ne; discriminate]. change (ls_ActiveSegmentID demo_log) with 1 in Hi. split; [cbn [demo_log_files os_names]; apply lookup_singleton_ne; intros [=]; lia|]. split; [cbn [demo_log_files os_names]; apply lookup_singleton_ne; discriminate|].
    assert (Hm : rg_entries demo_registry = {[1 := 0%nat]}) by (vm_compute; reflexivity). rewrite Hm, lookup_singleton_ne; [reflexivity|lia].
  - intros i rs E. rewrite lookup_empty in E. discriminate.
Qed.

Definition demo_end : world manager := after (take 8 demo_events) demo_world.

(** The payload of the synced append and the record that was there. *)
Lemma acknowledged_readable_witness : reads demo_end 4294967400 [7; 7] /\ reads demo_end demo_addr [1; 2; 3].
Proof.
  assert (Hp : few_pins (lg_registry (wd_log demo_end))).
  { intros x e E. apply elem_of_map_to_list in E. assert (Hm : re_pins <$> (map_to_list (rg_heap (lg_registry (wd_log demo_end)))).*2 = [1]) by (vm_compute; reflexivity). apply list_elem_of_fmap_2 with (f := snd) in E. apply list_elem_of_fmap_2 with (f := re_pins) in E. rewrite Hm in E. apply list_elem_of_singleton in E. cbn in E. rewrite E. vm_compute. reflexivity. }
  destruct (acknowledged_readable demo_log [demo_record] ∅ demo_cfg demo_active demo_registry (demo_log_files []) 0 demo_entry 0 demo_l demo_w demo_end demo_log_at demo_started ltac:(cbn; lia) (demo_reaches 8 ltac:(lia)) ltac:(vm_compute; reflexivity) ltac:(vm_compute; reflexivity) Hp) as [H1 H2].
  split; [|apply (H2 demo_record); left; now apply list_elem_of_singleton].
  destruct (lg_heap (wd_log demo_end) !! 0%nat) as [rq|] eqn:Eq; [|vm_compute in Eq; discriminate]. pose proof Eq as Eq'. vm_compute in Eq'. injection Eq' as <-.
  exact (proj1 (H1 0%nat _ (mkAppend 4294967400 (mkPos 1 144)) [7; 7] Eq eq_refl ltac:(vm_compute; reflexivity) eq_refl)).
Defined.

(** ** A scan and a rotation *)

(** One append is staged when the snapshot is taken; the writer then flushes it,
    fills the segment and rotates. *)
Definition demo_staged : world manager := after [EAcquire [7] false; ESend; EWriter None] demo_world.
Definition demo_fill : list event := [EAcquire (repeat 5 2048) false; ESend; EWriter None; EWriter None].
Definition demo_rotated : world manager := after (EWriter None :: demo_fill ++ demo_fill ++ demo_fill ++ demo_fill) demo_staged.

Lemma scan_atomic_example : match (Log_Scan (wd_log demo_staged) (mkPos 1 64) (wd_os demo_staged)).2.2 with Ok visits => map snd visits | Err _ => [] end = [[1; 2; 3]; [7]].
Proof. vm_compute. reflexivity. Qed.

(** The same snapshot, run after the rotation: the staged record is visited twice
    and the records appended after the snapshot are visited too. *)
Lemma scan_visits_twice : rtc world_step demo_staged demo_rotated /\
  match (scan_run (wd_log demo_rotated) (snapshotForScan (wd_log demo_staged)) (mkPos 1 64) (wd_os demo_rotated)).2.2 with
  | Ok visits => map (fun v => ar_Addr v.1) visits = [4294967360; 4294967400; 4294967446; 4294969526; 4294971606; 4294967400]
  | Err _ => False
  end.
Proof. split; [apply after_sound, (bool_decide_unpack _); vm_compute; exact I|]. vm_compute. reflexivity. Qed.

(** ** A compaction *)

Definition demo_out : Z := CompactionSegmentBase.
Definition demo_cw : CompactionWriter := mkCW (lg_maxPayloadBytes demo_l) [demo_out] 0 None [] false.

Lemma demo_reserved : reserved demo_log [demo_out] (disk (demo_log_files [])).
Proof.
  constructor.
  - split; [discriminate|]. split; [apply NoDup_singleton|reflexivity].
  - constructor; [|constructor]. unfold demo_out, CompactionSegmentBase. lia.
  - constructor; [|constructor]. split; [|vm_compute; reflexivity]. split; [reflexivity|]. split; [apply (lu_log _ (log_range _ demo_manifest_u))|]. unfold is_u32. repeat split; vm_compute; try discriminate; reflexivity.
  - intros p (id & Hi & Hp). apply list_elem_of_singleton in Hi as ->. unfold disk. cbn [demo_log_files os_names]. rewrite lookup_fmap. destruct Hp as [->|[->| ->]]; (rewrite lookup_singleton_ne; [reflexivity|]); discriminate.
Qed.

Lemma compaction_outputs_exact_witness : is_ok (write_outputs [[1; 2; 3]] demo_cw (demo_log_files [])).2.2 = true /\ length (cw_summaries (write_outputs [[1; 2; 3]] demo_cw (demo_log_files [])).2.1) = 1%nat /\
  exists e o2, (write_outputs [[1; 2; 3]] demo_cw (demo_log_files [None; None; Some 3%nat])).2.2 = Err e /\ RemoveUnpublishedCompactionFiles [demo_out] (refault (write_outputs [[1; 2; 3]] demo_cw (demo_log_files [None; None; Some 3%nat])).1 []) = (o2, Ok tt) /\ disk o2 = disk (demo_log_files []).
Proof.
  split; [vm_compute; reflexivity|]. split; [vm_compute; reflexivity|].
  assert (Hp : Forall (segment_records demo_log) [[demo_record]]) by (constructor; [exists demo_header; split; [reflexivity|]; split; [exact demo_recs|]; constructor; [vm_compute; discriminate|constructor]|constructor]).
  assert (Hd : at_disk (disk (demo_log_files [])) (log_of demo_log) (demo_log_files [None; None; Some 3%nat])) by (destruct (demo_log_disk [None; None; Some 3%nat]) as [Hwf _ (_ & H2 & _)]; constructor; [exact Hwf|reflexivity|exact H2]).
  pose proof (compaction_outputs_exact demo_log [demo_out] (disk (demo_log_files [])) [[demo_record]] [[1; 2; 3]] demo_l demo_cw (demo_log_files [None; None; Some 3%nat]) demo_reserved Hd ltac:(vm_compute; reflexivity) ltac:(vm_compute; reflexivity) Hp ltac:(cbn; lia) (reflexivity _)) as H.
  destruct (write_outputs _ demo_cw (demo_log_files [None; None; Some 3%nat])) as [o' [w' r]] eqn:E. assert (Hr : r = (write_outputs [[1; 2; 3]] demo_cw (demo_log_files [None; None; Some 3%nat])).2.2) by (rewrite E; reflexivity). destruct r as [x|e]; [vm_compute in Hr; discriminate|]. destruct H as (_ & o2 & H1 & H2). exists e, o2. auto.
Defined.

(** The sealed file of the output is removed; the removal is stopped twice. *)
Definition demo_copied : os lpath manager := (write_outputs [[1; 2; 3]] demo_cw (demo_log_files [])).1.

Lemma retired_file_removed_witness : exists o2, cleanupRetiredSegment demo_out (refault (cleanup_again demo_out [[None; None; Some 0%nat]; [None; Some 1%nat]] demo_copied) []) = (o2, Ok tt) /\ disk o2 !! LSealed demo_out = None.
Proof.
  assert (Hwf : fs_wf demo_copied).
  { assert (Hn : os_names demo_copied = {[LActive 1 := 0%nat; LSealed demo_out := 1%nat]}) by (vm_compute; reflexivity). constructor; rewrite Hn; [|intros p f [[_ <-]|[_ [_ <-]%lookup_singleton_Some]]%lookup_insert_Some; vm_compute; lia].
    intros p q f [[<- <-]|[_ [<- <-]%lookup_singleton_Some]]%lookup_insert_Some [[<- E]|[_ [<- E]%lookup_singleton_Some]]%lookup_insert_Some; congruence. }
  destruct (disk demo_copied !! LSealed demo_out) as [x|] eqn:E; [|vm_compute in E; discriminate].
  destruct (retired_file_removed demo_out x demo_copied [[None; None; Some 0%nat]; [None; Some 1%nat]] Hwf E ltac:(vm_compute; reflexivity)) as [_ (o2 & H1 & H2 & _)]. exists o2. split; [exact H1|]. rewrite H2. apply lookup_delete_eq.
Defined.

(** The record of the log is the value of id 7; the active segment is sealed before
    the store is verified. *)
Definition demo_recs_of (id : Z) : list LogRecord := if id =? 1 then [demo_record] else [].
Definition demo_ref : RecordRef := mkRef demo_addr 40.
Definition demo_sealed : Manifest := set_data demo_manifest 2 3 (mf_CompactionFloor demo_manifest) [mkData 1 104 1 demo_addr demo_addr].
Definition demo_live : LiveMap := {[1 := Mapping.mkLive 40 1 0]}.

Lemma demo_seg_sums s : seg_bytes {[7 := demo_ref]} s = (if s =? 1 then 40 else 0) /\ seg_records {[7 := demo_ref]} s = (if s =? 1 then 1 else 0).
Proof. unfold seg_bytes, seg_records. rewrite <- !insert_empty, !msum_insert_new, !msum_empty by apply lookup_empty. unfold in_segment. change (SegmentID (Addr demo_ref)) with 1. rewrite (Z.eqb_sym s 1). destruct (1 =? s); split; reflexivity. Qed.

Lemma demo_files_hold m : data_set_ok (mf_ActiveData m) (mf_CompactionFloor m) (hl_SegmentSize (mf_HardLimits m)) 0 (mf_SealedData m) = true -> mf_ActiveData m <> 0 ->
  (mf_ActiveData m = 1 /\ mf_SealedData m = [] \/ mf_SealedData m = [mkData 1 104 1 demo_addr demo_addr]) -> files_hold m demo_recs_of.
Proof.
  intros H1 H2 H3. constructor; [auto| | |].
  - intros id s E. destruct H3 as [[_ Hs]|Hs]; rewrite Hs in E; [discriminate|]. unfold find_data, List.find in E. cbn [ds_SegmentID] in E. destruct (Z.eqb_spec 1 id) as [<-|_]; [|discriminate]. apply (inj Some) in E. subst s. vm_compute. intuition congruence.
  - intros id Hne. unfold demo_recs_of in Hne. destruct (Z.eqb_spec id 1) as [Eid|_]; [subst id|contradiction]. destruct H3 as [[-> _]| ->]; [auto|right; cbn; eauto].
  - intros id Hne. unfold demo_recs_of in *. destruct (Z.eqb_spec id 1) as [Eid|_]; [subst id|contradiction]. split; [unfold is_u32; lia|]. split; [exact (lr_placed _ _ demo_recs)|vm_compute; reflexivity].
Qed.

Lemma stats_agree_witness : checkpointSegmentStats [(1, Mapping.mkLive 40 1 0)] demo_manifest (mkPos 1 104) 8 = Ok [mkStats 1 40 1] /\ exists stats, checkpointSegmentStats [(1, Mapping.mkLive 40 1 0)] demo_manifest (mkPos 1 104) 8 = Ok stats /\ Build (Ok [(7, demo_ref)]) (mkFileSet (mf_ActiveData demo_sealed) (mf_SealedData demo_sealed)) (len (mf_SealedData demo_sealed) + 1) = Ok stats.
Proof.
  split; [vm_compute; reflexivity|].
  destruct (stats_agree demo_manifest demo_sealed (mkPos 1 104) (fun _ => 7) demo_recs_of {[7 := demo_ref]} demo_live [(1, Mapping.mkLive 40 1 0)] [(7, demo_ref)] 8) as (stats & A & B & _); [| | | | | | | | | | |exists stats; auto].
  - apply demo_files_hold; [vm_compute; reflexivity|vm_compute; discriminate|left; split; vm_compute; reflexivity].
  - apply demo_files_hold; [vm_compute; reflexivity|vm_compute; discriminate|right; vm_compute; reflexivity].
  - intros _. split; [reflexivity|vm_compute; discriminate].
  - reflexivity.
  - intros id ref [<- <-]%lookup_singleton_Some. exists demo_record. split; [now left|]. split; reflexivity.
  - intros id ref [<- <-]%lookup_singleton_Some. split; [discriminate|vm_compute; reflexivity].
  - intros s. destruct (demo_seg_sums s) as [-> ->]. unfold demo_live. destruct (Z.eqb_spec s 1) as [->|Hne]; [rewrite lookup_singleton_eq; cbn; intuition congruence|rewrite lookup_singleton_ne by congruence; reflexivity].
  - unfold demo_live. now rewrite map_to_list_singleton.
  - now rewrite map_to_list_singleton.
  - vm_compute; discriminate.
  - vm_compute; discriminate.
Defined.
